(* ===== verification/_CoqProject ===== *)
-Q . S2P
Prelude.v
Stream.v
Tx.v
Outputs.v
Bolt.v
BoltMap.v
RetributionStore.v
NurseryStore.v
NurseryAbs.v
NurseryRefine.v
NurseryInv.v
NurseryClass.v
NurseryQuery.v
NurseryProps.v
ChanCloser.v
ChanCloserProps.v
InvoiceStore.v
Preimages.v
PreimageProps.v
PreimageNotify.v
PreimageExamples.v
Effects.v
Server.v
ServerSafe.v
ServerInv.v
ServerProps.v
ServerExamples.v
PeerStream.v
PeerWire.v
PeerWrite.v
PeerRead.v
PeerReadInv.v
PeerReadProps.v
PeerLink.v
PeerChans.v
PeerChansInv.v
PeerClose.v
PeerExamples.v
PeerStart.v
Sweep.v
Nursery.v
NurserySweep.v
NurseryLife.v
NurseryRun.v
NurseryRestart.v
NurseryPath.v
NurseryExamples.v
OpeningState.v
FundingManager.v
FundingFlow.v
ChannelOpening.v
OpeningProps.v
OpeningWait.v
FundingSafe.v
FundingProps.v
FundingExamples.v
BreachArbiter.v
BreachProps.v
BreachLive.v
BreachWatch.v
BreachExamples.v
GoStrings.v
RpcBase.v
Bootstrap.v
RpcInvoice.v
PaymentStore.v
RpcPay.v
RpcPayInv.v
RpcPayProps.v
ForwardingLog.v
RpcInfo.v
RpcOpen.v
RpcFees.v
RpcWallet.v
RpcGraph.v
Pilot.v
Config.v
StartUp.v
Mobile.v
RpcExamples.v
