(* ===== verification/Prelude.v ===== *)
(** * Verification of the lnd daemon core of lndmobile

    lndmobile packages the Lightning daemon lnd as a library; src/lnd is the daemon
    and src/lightning the binding.  The development models the parts of the daemon
    that keep money safe once a channel leaves the happy path, and proves them
    correct.

    ** The parts and how they interact

    - The _nursery store_ (src/lnd/nursery_store.go) is the persistent index of
      outputs that are locked by time: by channel and state (crib, preschool,
      kindergarten, graduated) and by the height at which they need attention.
    - The _utxo nursery_ (src/lnd/utxonursery.go) accepts the outputs of closed
      channels, waits for confirmations, sweeps a class of outputs when its height
      arrives, reports balances and restarts from the store.
    - The _retribution store_ and the _breach arbiter_ (src/lnd/breacharbiter.go)
      watch channels, record a breach, and take all outputs of the revoked commitment
      with a justice transaction, following HTLCs the cheater moves on.
    - The _channel closer_ (src/lnd/chancloser.go) negotiates the fee of a
      cooperative close with the peer.
    - The _funding manager_ (src/lnd/fundingmanager.go) negotiates new channels with
      peers and the wallet, waits for their funding transaction, and takes them through
      a persistent state machine to their announcement; it hands them to the breach
      arbiter when the peer's FundingLocked message arrives.
    - The _invoice registry_ and the _witness beacon_ (src/lnd/invoiceregistry.go,
      src/lnd/witness_beacon.go) keep invoices and preimages and tell subscribers.
    - The _server_ (src/lnd/server.go) owns the connections; a _peer_ (src/lnd/peer.go) is
      one connection: it reads and dispatches messages, writes queued ones, and runs the
      channel closers.
    - The _autopilot controller_ (src/lnd/pilot.go) opens channels through the server, and
      the _node signer_ (src/lnd/nodesigner.go) signs with the node's key.
    - The _RPC server_ (src/lnd/rpcserver.go) turns requests of clients into calls of the
      parts above and of the router, and keeps the record of payments.
    - The _configuration_ (src/lnd/config.go, chainparams.go, log.go) is read and checked
      once; the _start_ (src/lnd/client.go, chainregistry.go) makes the connection to the
      chain and every other part from it, in order, and registers what is to be done when
      the daemon stops (src/lnd/signal.go).
    - The _binding_ (src/lightning/lightning.go) is what an application calls: it starts the
      daemon and passes each call to the RPC server.
    - Below them: byte encodings, bitcoin transactions, the bolt database, the
      weight estimator and the sanity check, all vendored code the daemon relies on.

    ** Files

    - [Prelude]: machine integers with their wrap-around, the result type [res] of
      fallible code with Go's errors, bytes, big-endian integers, list lemmas.
    - [Stream], [Tx], [Outputs]: readers and writers; outpoints and transactions with
      their encodings; [kidOutput], [babyOutput], [breachedOutput],
      [retributionInfo] and theirs, with the interface [Codec].
    - [Bolt]: nested buckets with ordered keys, transactions that commit or roll
      back, and a weakest precondition [wp] for transaction bodies.
    - [RetributionStore]: the interface of the store as a record with a class of laws,
      the bolt implementation, and the proof that it satisfies the laws.
    - [NurseryStore]: one definition per function of nursery_store.go.  [NurseryAbs]:
      the abstract state, a finite map from locations to items, and how a database
      represents it.  [NurseryRefine], [NurseryClass], [NurseryQuery]: every operation
      implements its abstract counterpart.  [NurseryInv]: the invariant that ties the
      two indexes together.  [NurseryProps]: the theorems about the store.
    - [Effects]: the monad of code that calls out, with its weakest precondition
      [swp].  [Sweep]: the outside world [ChainEnv] and what both kinds of sweep
      transaction share.
    - [Nursery]: utxonursery.go as a state machine.  [NurserySweep], [NurseryLife],
      [NurseryRun], [NurseryRestart], [NurseryPath]: what its methods
      do, the report included.  [NurseryExamples]: concrete runs.
    - [BreachArbiter]: breacharbiter.go as a state machine over the store interface.
      [BreachProps], [BreachLive], [BreachWatch]: what it does.  [BreachExamples]:
      concrete runs.
    - [ChanCloser] and [ChanCloserProps]: chancloser.go and its theorems.
    - [BoltMap]: records kept under a key per outpoint, as a map; shared by the
      retribution store and the opening states.
    - [OpeningState]: the record of a channel between confirmation and announcement.
      [FundingManager]: the data, the outside world [FundingEnv], the state and the
      reservations of fundingmanager.go.  [FundingFlow]: the handlers of the
      negotiation.  [ChannelOpening]: the wait for the funding transaction, the opening
      state machine, the restart, the coordinator and the step relation [fstep].
      [OpeningProps], [OpeningWait]: the opening, its resumption and its timeout.
      [FundingSafe], [FundingProps]: the invariant of the reachable states and what the
      handlers do.  [FundingExamples]: concrete runs.
    - [InvoiceStore]: invoices and witnesses in the database (channeldb), with the maps
      they refine.  [Preimages]: invoiceregistry.go and witness_beacon.go with the
      goroutines they start, as events on one state.  [PreimageProps]: lookups.
      [PreimageNotify]: notifications.  [PreimageExamples]: concrete runs.
    - [Server]: server.go's connections, persistent peers, listeners and shutdown as a
      state with one handler per input.  [ServerSafe], [ServerInv]: its invariant.
      [ServerProps]: the theorems.  [ServerExamples]: concrete runs.
    - [PeerStream]: the message streams of peer.go, as threads with program counters.
      [PeerWire]: messages and their framing, over the interface [LnWire] of payloads.
      [PeerWrite]: the outgoing queue.  [PeerRead]: readHandler with its streams;
      [PeerReadInv], [PeerReadProps]: what the streams get.  [PeerLink]: both ends of a
      connection.  [PeerExamples]: concrete runs of these and of the next.
    - [PeerChans]: loadActiveChannels, channelManager and the handlers of a close, over a
      heap of channels and closers.  [PeerChansInv]: its invariant.  [PeerClose]: two
      peers close a channel.  [PeerStart]: the handshake.
    - [RpcBase]: hexadecimal strings, amounts, payment requests and the interfaces [RpcEnv]
      and [Zpay32] of the RPC server, rpcserver.go.  [RpcInvoice]: invoices, on top of the
      registry, their list, and the loop of a subscription.  [PaymentStore]: payments in the database.  [RpcPay]: payments in one call
      and over a stream, whose goroutines interleave; [RpcPayInv], [RpcPayProps]: its
      invariant and theorems.  [ForwardingLog], [RpcFees]: forwarded payments, their fees
      and the policies of channels, with 64-bit floating point numbers as the standard
      library's [spec_float].  [RpcInfo]: channels, the network, the node and its peers.  [RpcOpen]: opening and closing of
      channels and connections to peers.  [RpcExamples]: concrete runs.
      [RpcWallet]: payments on the chain, addresses, transactions, and messages with their
      signatures, over the interface [MessageCrypto].  [RpcGraph]: nodes, channels, routes and
      changes of the graph.
    - [Bootstrap]: server.go's bootstrapper, with the server and the goroutines that dial as
      steps, and the announcement of the node.  [Pilot]: pilot.go's controller on top of the
      server.  Runs of both are in [RpcExamples].
    - [GoStrings]: strings, decimal numbers, addresses with ports, paths and the search for a
      setting in a file.  [Config]: config.go, chainparams.go, the registry of chains of
      chainregistry.go and the levels of log.go.  [StartUp]: newChainControlFromConfig, the terms of
      new channels, and Start of client.go.  [Mobile]: signal.go and lightning.go, with
      concrete runs of the four.

    ** How the code is modelled

    Definitions keep the names of the source.  A struct is a record, a method a
    function on the state in a state and error monad, so that an early return keeps
    the writes made before it.  Amounts and heights are integers with the width of
    their Go type; a slice is a list, a map a [gmap].  A goroutine that waits is a value
    of the state, and what it does when it is woken is a definition of its own; step
    relations ([nstep], [wstep], [fstep], [sv_reach], [chans_reach]) interleave them, one step per
    handler, which is what the mutex or the event loop of the component guarantees.  The
    queues and streams of a peer have no such lock: there a step is the code between two
    points at which a goroutine can be interrupted ([stream_step], [out_step], [read_step],
    [link_step], [pay_step]), and the schedule is arbitrary.  Pointers shared between
    goroutines are indices into a heap.  Wallet, signer, fee estimator, chain notifier
    and the elliptic curve are classes ([ChainEnv], [NurseryEnv], [BreachEnv], [FundingEnv],
    [Btcec], [ChannelIface], [PeerChannel], [LnWire], [RpcEnv], [Zpay32], [MessageCrypto]) or
    records of functions ([configEnv], [controlEnv], [startEnv]); what a theorem needs of them is a hypothesis or a class of its
    own ([StandardSigner], [Reliable], [reliable], [Cooperates],
    [ChannelLive], [ChannelNoPanic], [ChanStable], [TwoEnds], [EnvKept], [Listed]), and the
    example files give instances.

    ** What the theorems show

    - Stores: every operation refines an operation on finite maps, records survive
      their encoding, and over every sequence of operations the nursery's database holds
      each output given to it in the phase it was brought to, until its channel is removed
      with all outputs graduated.
    - Nursery: what incubation, confirmation, graduation and restart do; a sweep
      spends exactly the class and pays all but the fee; a height graduated again
      broadcasts the same transaction; a commitment output given without HTLCs makes it to
      the wallet once its sweep can be created (with HTLCs beside it the code loses track
      of it, which is shown too); a restart awaits and broadcasts what the store calls for.
    - Breach arbiter: a justice transaction takes every output; none is broadcast that
      is not recorded; the record is only dropped when justice was served; on a reliable
      chain the retry loop ends with a justice transaction the chain accepted; the observers' signals are closed at most once; a restart resumes.
    - Channel closer: agreement on a fee both signed, termination, no panic.
    - Funding manager: the coordinator panics on one input only; requests to open a
      channel stay within the limits; overdue reservations are dropped and no others; a
      confirmed channel that is the last open one is announced in order across any restarts
      (any other is resumed as the last, which is shown too), and its record never
      says more than was done; both ends announce the same channel; a channel is
      forgotten only by the responder after 288 blocks; barriers are closed once.
    - Invoice registry and beacon: lookups answer from what has been added, across
      restarts, and are right; a learned preimage stays known once there is an invoice;
      every registered client is told of each settlement and each preimage once.
    - Server: one connection per peer and no panic; whoever waits for a peer is told; under
      the server's own inputs a persistent peer that is offline has a pending request; backoffs are bounded;
      stopping disconnects everybody.
    - Peer: messages go out, come in and reach the streams in order and completely, under
      every schedule, also end to end between two peers; the channel manager does not
      panic; two peers that close a channel end with one closing transaction, broadcast by
      both, if both can sign and their fees are not too small; the handshake.
    - RPC server: an invoice is found as it was asked for; every payment the router makes
      is recorded before the client is told; a payment is answered at most once, and once the
      router is done exactly once while the call lasts; a single call agrees with a stream of one
      request up to the text that refuses a payment that is too large; fees and statistics count each item once; a
      channel is opened and closed only within the rules, and it is the one the request names; lists agree with lookups; a
      signed message verifies; the switch enforces the policy that is announced.
    - Bootstrapper and autopilot: both use the server by its inputs only, so that its
      invariants hold under them; an opening that fails once the peer is connected and the fee
      known leaves no connection to it.
    - Configuration and start: an accepted configuration names one chain, one network and
      the credentials of its backend, and without authentication has only addresses in which
      a name of the own host occurs; the chain control made from it is that of its chain; the
      terms of channels are those configured or bounded; the parts (profiling, database, chain
      control and its registration, key, server, funding manager) are made in their order up
      to the first that fails, and the server is started only once the wallet is in step
      with the chain; each handler runs once at shutdown.
    - Binding: the daemon is started once, a call before that ends the process, and a call
      to connect reaches the peer that was named.

    ** Bounds and fuel

    Three loops have fuel.  [send_until] retries a message to a peer that is offline, without
    bound in the code; [opening_resumes] needs one unit more than sends may fail.  The
    retry loop [exactLoop] pays one unit for its [goto]: [justice_served] shows that one unit per HTLC and two more are enough, and
    [exact_retribution_safe] that it runs out only when every broadcast was refused.
    [computeFeeSum] reads the log page by page: one unit more than events is enough
    ([fee_report_exact]).  The negotiation of two closers terminates within a bound computed from their
    fees, and so does that of two peers; the queues' theorems bound the number of steps
    instead of using fuel.  Everything else is structurally recursive.  Records have to fit into bolt's
    value limit, which the hypotheses [ret_fits] and [item_ok] say; sweeps do by
    themselves, since they pass the sanity check.

    ** Not modelled

    Locks and the memory model, logging, the wording of most
    error messages, the network and the gRPC transport, the writing of logs, the printing of
    the version (version.go) and the cryptography.
    Of the funding manager, the messages put into its queue are inputs of
    [reservationCoordinator]; recording a confirmation and receiving it in the wait are one
    step, so that a deadline between the two is not represented.  Of server.go, the construction of the other
    parts and the sources of addresses of the bootstrapper are left out; of peer.go,
    logging and the ping timer.  Of rpcserver.go, the table of permissions and the flags of its start and
    stop are left out; of config.go, the parser of flags and files, which is vendored; of client.go,
    the server of profiles; of pilot.go, the construction of the agent.  The switch
    and its links, the router and the agent's heuristic are vendored.
*)

From Stdlib Require Import ZArith Lia.
From Stdlib Require Import Init.Byte Strings.Byte.
From stdpp Require Import base list gmap countable strings numbers.

Declare Scope go_scope.
Delimit Scope go_scope with go.
Local Open Scope Z_scope.

(** ** Machine integers

    Go's fixed-width integers are modelled by [Z] with the wrap-around of each
    width written out.  [u16], [u32] and [u64] are the unsigned conversions,
    [i32] and [i64] the two's complement ones. *)

Definition u16 (z : Z) : Z := z mod 2 ^ 16.
Definition u32 (z : Z) : Z := z mod 2 ^ 32.
Definition u64 (z : Z) : Z := z mod 2 ^ 64.
Definition i32 (z : Z) : Z := (z + 2 ^ 31) mod 2 ^ 32 - 2 ^ 31.
Definition i64 (z : Z) : Z := (z + 2 ^ 63) mod 2 ^ 64 - 2 ^ 63.

Definition is_u16 (z : Z) : Prop := 0 <= z < 2 ^ 16.
Definition is_u32 (z : Z) : Prop := 0 <= z < 2 ^ 32.
Definition is_u64 (z : Z) : Prop := 0 <= z < 2 ^ 64.
Definition is_i32 (z : Z) : Prop := - 2 ^ 31 <= z < 2 ^ 31.
Definition is_i64 (z : Z) : Prop := - 2 ^ 63 <= z < 2 ^ 63.

Lemma u16_id z : is_u16 z -> u16 z = z.
Proof. apply Z.mod_small. Qed.
Lemma u32_id z : is_u32 z -> u32 z = z.
Proof. apply Z.mod_small. Qed.
Lemma u64_id z : is_u64 z -> u64 z = z.
Proof. apply Z.mod_small. Qed.
Lemma i32_id z : is_i32 z -> i32 z = z.
Proof. unfold i32, is_i32. intros. rewrite Z.mod_small; lia. Qed.
Lemma i64_id z : is_i64 z -> i64 z = z.
Proof. unfold i64, is_i64. intros. rewrite Z.mod_small; lia. Qed.

Lemma u32_range z : is_u32 (u32 z).
Proof. apply Z.mod_pos_bound. lia. Qed.
Lemma i64_range z : is_i64 (i64 z).
Proof. unfold i64, is_i64. pose proof (Z.mod_pos_bound (z + 2 ^ 63) (2 ^ 64)). lia. Qed.

(** The two's complement value survives a trip through the unsigned type of the
    same width, which is how signed amounts are written to disk. *)
Lemma i64_u64 z : is_i64 z -> i64 (u64 z) = z.
Proof.
  unfold i64, u64, is_i64. intros H.
  rewrite Zplus_mod_idemp_l. rewrite Z.mod_small; lia.
Qed.

Lemma i32_u32 z : is_i32 z -> i32 (u32 z) = z.
Proof.
  unfold i32, u32, is_i32. intros H.
  rewrite Zplus_mod_idemp_l. rewrite Z.mod_small; lia.
Qed.

(** ** Errors and results

    A Go function returning [(T, error)] returns [res T] here.  The sentinel
    errors the code compares against are constructors of their own; the
    messages built by [fmt.Errorf] and [errors.New] are kept as strings, and an
    error that comes out of an external call is [ErrExternal] with a code that
    names it. *)

Inductive goerr :=
| ErrEOF | ErrUnexpectedEOF
| ErrMessage (func : string)
| ErrParsePubKey
| ErrTweakOverdose
| ErrPanic (what : string)
(* bbolt *)
| ErrBucketNameRequired | ErrBucketNotFound | ErrIncompatibleValue
| ErrKeyRequired | ErrKeyTooLarge | ErrValueTooLarge
| ErrStaleBucket
(* nursery and retribution stores *)
| ErrContractNotFound | ErrImmatureChannel | errBucketNotEmpty
(* channel closer *)
| ErrChanAlreadyClosing | ErrChanCloseNotFinished | ErrInvalidState
(* channeldb *)
| ErrInvoiceNotFound | ErrClosedChannelNotFound | ErrNoActiveChannels
| ErrNoInvoicesCreated | ErrDuplicateInvoice | ErrNoWitnesses
| ErrLinkNodesNotFound | ErrGraphNoEdgesFound
(* server *)
| ErrPeerNotFound
(* lnwire *)
| ErrUnknownMessage | ErrUnknownAddrType
(* switch and graph *)
| ErrChannelLinkNotFound | ErrEdgeNotFound
(* wallet *)
| ErrDoubleSpend
(* funding manager; [ErrBlocked] is an operation on a channel that never returns *)
| ErrChannelNotFound
| ErrBlocked (what : string)
(* payments: the amount and the limit the message names *)
| ErrTooLarge (amount max : Z)
| ErrNew (msg : string)
| ErrExternal (code : Z).

#[global] Instance goerr_eq_dec : EqDecision goerr.
Proof. solve_decision. Defined.

Inductive res (A : Type) :=
| Ok (a : A)
| Err (e : goerr).
Arguments Ok {A} a.
Arguments Err {A} e.

#[global] Instance res_ret : MRet res := fun A a => Ok a.
#[global] Instance res_bind : MBind res := fun A B f m =>
  match m with Ok a => f a | Err e => Err e end.
#[global] Instance res_fmap : FMap res := fun A B f m =>
  match m with Ok a => Ok (f a) | Err e => Err e end.

#[global] Instance res_eq_dec {A} `{!EqDecision A} : EqDecision (res A).
Proof. solve_decision. Defined.

Definition is_ok {A} (r : res A) : bool :=
  match r with Ok _ => true | Err _ => false end.

Definition res_val {A} (r : res A) : option A :=
  match r with Ok a => Some a | Err _ => None end.

(** Running a fallible step over a list, stopping at the first error. *)
Fixpoint res_foldl {A S} (f : S -> A -> res S) (s : S) (l : list A) : res S :=
  match l with
  | [] => Ok s
  | a :: l => match f s a with Ok s' => res_foldl f s' l | Err e => Err e end
  end.

Lemma res_bind_ok {A B} (f : A -> res B) a : (Ok a ≫= f) = f a.
Proof. done. Qed.

Lemma res_bind_Ok_inv {A B} (f : A -> res B) m b :
  (m ≫= f) = Ok b -> exists a, m = Ok a /\ f a = Ok b.
Proof. destruct m; simpl; [eauto | discriminate]. Qed.

(** ** Related lists *)

Lemma Forall2_elem_r {A B} (R : A -> B -> Prop) l k y :
  Forall2 R l k -> y ∈ k -> exists x, x ∈ l /\ R x y.
Proof.
  intros H [i Hi]%list_elem_of_lookup. destruct (Forall2_lookup_r _ _ _ _ _ H Hi) as (x & Hx & HR).
  exists x. split; [by eapply list_elem_of_lookup_2|done].
Qed.

Lemma Forall2_elem_l {A B} (R : A -> B -> Prop) l k x :
  Forall2 R l k -> x ∈ l -> exists y, y ∈ k /\ R x y.
Proof.
  intros H [i Hi]%list_elem_of_lookup. destruct (Forall2_lookup_l _ _ _ _ _ H Hi) as (y & Hy & HR).
  exists y. split; [by eapply list_elem_of_lookup_2|done].
Qed.

Lemma elem_of_delete {A} (x : A) (i : nat) (l : list A) : x ∈ delete i l -> x ∈ l.
Proof.
  intros H. apply list_elem_of_lookup in H as [j Hj]. destruct (decide (j < i)%nat).
  - rewrite list_lookup_delete_lt in Hj by done. by apply list_elem_of_lookup_2 in Hj.
  - rewrite list_lookup_delete_ge in Hj by lia. by apply list_elem_of_lookup_2 in Hj.
Qed.

(** ** Bytes *)

Abbreviation byte := Corelib.Init.Byte.byte.
Abbreviation bytes := (list Corelib.Init.Byte.byte).

#[global] Instance byte_eq_decision : EqDecision byte := Byte.byte_eq_dec.
#[global] Program Instance byte_countable : Countable byte :=
  inj_countable Byte.to_N Byte.of_N _.
Next Obligation. intros b. apply Byte.of_to_N. Qed.

Definition Z_of_byte (b : byte) : Z := Z.of_N (Byte.to_N b).

Definition byte_of_Z (z : Z) : byte :=
  default x00 (Byte.of_N (Z.to_N (z mod 256))).

Lemma Z_of_byte_range b : 0 <= Z_of_byte b < 256.
Proof.
  unfold Z_of_byte. pose proof (Byte.to_N_bounded b). lia.
Qed.

Lemma Z_of_byte_of_Z z : Z_of_byte (byte_of_Z z) = z mod 256.
Proof.
  unfold Z_of_byte, byte_of_Z.
  assert (0 <= z mod 256 < 256) as H by (apply Z.mod_pos_bound; lia).
  destruct (Byte.of_N (Z.to_N (z mod 256))) as [b|] eqn:E; simpl.
  - apply Byte.to_of_N in E. rewrite E. lia.
  - apply Byte.of_N_None_iff in E. lia.
Qed.

Lemma byte_of_Z_of_byte b : byte_of_Z (Z_of_byte b) = b.
Proof.
  unfold byte_of_Z. rewrite Z.mod_small by apply Z_of_byte_range.
  unfold Z_of_byte. rewrite N2Z.id, Byte.of_to_N. done.
Qed.

#[global] Instance Z_of_byte_inj : Inj (=) (=) Z_of_byte.
Proof. intros a b H. rewrite <- (byte_of_Z_of_byte a), H. apply byte_of_Z_of_byte. Qed.

(** The byte order of the daemon's own records ([byteOrder], big endian) and of
    the bitcoin wire format (little endian). *)
Fixpoint put_le (n : nat) (z : Z) : bytes :=
  match n with
  | O => []
  | S n => byte_of_Z z :: put_le n (z / 256)
  end.

Fixpoint get_le (l : bytes) : Z :=
  match l with
  | [] => 0
  | b :: l => Z_of_byte b + 256 * get_le l
  end.

Definition put_be (n : nat) (z : Z) : bytes := reverse (put_le n z).
Definition get_be (l : bytes) : Z := get_le (reverse l).

Lemma put_le_length n z : length (put_le n z) = n.
Proof. revert z. induction n; intros; simpl; auto. Qed.

Lemma put_be_length n z : length (put_be n z) = n.
Proof. unfold put_be. rewrite length_reverse. apply put_le_length. Qed.

Lemma get_put_le n z : get_le (put_le n z) = z mod 2 ^ (8 * Z.of_nat n).
Proof.
  revert z. induction n as [|n IH]; intros z.
  - simpl. rewrite Z.mod_1_r. done.
  - cbn [put_le get_le]. rewrite IH, Z_of_byte_of_Z.
    replace (8 * Z.of_nat (S n)) with (8 + 8 * Z.of_nat n) by lia.
    rewrite Z.pow_add_r by lia. change (2 ^ 8) with 256.
    rewrite (Z.rem_mul_r z) by lia. done.
Qed.

Lemma get_put_be n z : get_be (put_be n z) = z mod 2 ^ (8 * Z.of_nat n).
Proof. unfold get_be, put_be. rewrite reverse_involutive. apply get_put_le. Qed.

Lemma get_put_be4 z : is_u32 z -> get_be (put_be 4 z) = z.
Proof. intros. rewrite get_put_be. by apply Z.mod_small. Qed.

Lemma get_le_range l : 0 <= get_le l < 2 ^ (8 * Z.of_nat (length l)).
Proof.
  induction l as [|b l IH]; [simpl; lia|].
  cbn [get_le length]. pose proof (Z_of_byte_range b).
  replace (8 * Z.of_nat (S (length l))) with (8 + 8 * Z.of_nat (length l)) by lia.
  rewrite Z.pow_add_r by lia. lia.
Qed.

Lemma get_be_range l : 0 <= get_be l < 2 ^ (8 * Z.of_nat (length l)).
Proof. unfold get_be. pose proof (get_le_range (reverse l)). by rewrite length_reverse in H. Qed.

Lemma put_be_inj n a b :
  0 <= a < 2 ^ (8 * Z.of_nat n) -> 0 <= b < 2 ^ (8 * Z.of_nat n) ->
  put_be n a = put_be n b -> a = b.
Proof.
  intros Ha Hb E. apply (f_equal get_be) in E.
  rewrite !get_put_be in E. by rewrite !Z.mod_small in E.
Qed.

(** Go's [string] constants used as keys and prefixes. *)
Definition str (s : String.string) : bytes := String.list_byte_of_string s.

(** ** [bytes.Compare] and [bytes.HasPrefix] *)

Fixpoint bytes_compare (a b : bytes) : comparison :=
  match a, b with
  | [], [] => Eq
  | [], _ => Lt
  | _, [] => Gt
  | x :: a, y :: b =>
      match Z_of_byte x ?= Z_of_byte y with
      | Eq => bytes_compare a b
      | c => c
      end
  end.

Definition bytes_lt (a b : bytes) : Prop := bytes_compare a b = Lt.

Fixpoint has_prefix (pre b : bytes) : bool :=
  match pre, b with
  | [], _ => true
  | x :: pre, y :: b => bool_decide (x = y) && has_prefix pre b
  | _, _ => false
  end.

Lemma bytes_compare_eq a b : bytes_compare a b = Eq <-> a = b.
Proof.
  revert b. induction a as [|x a IH]; intros [|y b]; simpl; try done.
  destruct (Z.compare_spec (Z_of_byte x) (Z_of_byte y)) as [E|E|E].
  - apply (inj Z_of_byte) in E as ->. rewrite IH. naive_solver.
  - split; [done|]. intros [= -> ->]. lia.
  - split; [done|]. intros [= -> ->]. lia.
Qed.

Lemma bytes_compare_refl a : bytes_compare a a = Eq.
Proof. by apply bytes_compare_eq. Qed.

Lemma bytes_compare_antisym a b : bytes_compare b a = CompOpp (bytes_compare a b).
Proof.
  revert b. induction a as [|x a IH]; intros [|y b]; simpl; try done.
  rewrite Z.compare_antisym. destruct (Z_of_byte x ?= Z_of_byte y); simpl; auto.
Qed.

Lemma bytes_lt_trans a b c : bytes_lt a b -> bytes_lt b c -> bytes_lt a c.
Proof.
  unfold bytes_lt. revert b c.
  induction a as [|x a IH]; intros [|y b] [|z c]; simpl; try done.
  destruct (Z.compare_spec (Z_of_byte x) (Z_of_byte y));
    destruct (Z.compare_spec (Z_of_byte y) (Z_of_byte z));
    destruct (Z.compare_spec (Z_of_byte x) (Z_of_byte z)); try lia; eauto; done.
Qed.

Lemma bytes_lt_irrefl a : ~ bytes_lt a a.
Proof. unfold bytes_lt. by rewrite bytes_compare_refl. Qed.

Lemma bytes_lt_ne a b : bytes_lt a b -> a <> b.
Proof. intros H ->. by apply bytes_lt_irrefl in H. Qed.

Lemma bytes_compare_snoc a b x y :
  length a = length b ->
  bytes_compare (a ++ [x]) (b ++ [y])
  = match bytes_compare a b with Eq => Z_of_byte x ?= Z_of_byte y | c => c end.
Proof.
  revert b. induction a as [|a0 a IH]; intros [|b0 b]; simpl; try done.
  - intros _. by destruct (Z_of_byte x ?= Z_of_byte y).
  - intros [= H]. rewrite IH by done. by destruct (Z_of_byte a0 ?= Z_of_byte b0).
Qed.

(** Big-endian encodings of one width are ordered like the numbers. *)
Lemma put_be_compare n a b :
  0 <= a < 2 ^ (8 * Z.of_nat n) -> 0 <= b < 2 ^ (8 * Z.of_nat n) ->
  bytes_compare (put_be n a) (put_be n b) = (a ?= b).
Proof.
  revert a b. induction n as [|n IH]; intros a b Ha Hb.
  - simpl in *. symmetry. by replace a with b by lia; rewrite Z.compare_refl.
  - assert (forall z, put_be (S n) z = put_be n (z / 256) ++ [byte_of_Z z]) as E.
    { intros z. unfold put_be. cbn [put_le]. by rewrite reverse_cons. }
    rewrite !E. rewrite bytes_compare_snoc by (by rewrite !put_be_length).
    replace (8 * Z.of_nat (S n)) with (8 + 8 * Z.of_nat n) in Ha, Hb by lia.
    rewrite Z.pow_add_r in Ha, Hb by lia. change (2 ^ 8) with 256 in Ha, Hb.
    rewrite IH by (split; [apply Z.div_pos; lia|apply Z.div_lt_upper_bound; lia]).
    rewrite !Z_of_byte_of_Z.
    pose proof (Z.div_mod a 256). pose proof (Z.div_mod b 256).
    pose proof (Z.mod_pos_bound a 256). pose proof (Z.mod_pos_bound b 256).
    destruct (Z.compare_spec (a / 256) (b / 256));
      destruct (Z.compare_spec (a mod 256) (b mod 256));
      destruct (Z.compare_spec a b); try done; lia.
Qed.

Lemma has_prefix_app pre b : has_prefix pre (pre ++ b) = true.
Proof. induction pre; simpl; [done|]. by rewrite bool_decide_eq_true_2. Qed.

Lemma has_prefix_spec pre b : has_prefix pre b = true <-> exists c, b = pre ++ c.
Proof.
  split.
  - revert b. induction pre as [|x pre IH]; intros b; simpl; [eauto|].
    destruct b as [|y b]; [done|]. intros [E H]%andb_true_iff.
    apply bool_decide_eq_true_1 in E as <-. destruct (IH _ H) as [c ->]. by exists c.
  - intros [c ->]. apply has_prefix_app.
Qed.

#[global] Arguments put_le : simpl never.
#[global] Arguments put_be : simpl never.
#[global] Arguments get_le : simpl never.
#[global] Arguments get_be : simpl never.
#[global] Arguments byte_of_Z : simpl never.
#[global] Arguments u32 : simpl never.
#[global] Arguments u64 : simpl never.
#[global] Arguments i32 : simpl never.
#[global] Arguments i64 : simpl never.
#[global] Arguments str : simpl never.
