(* ===== verification/Stream.v ===== *)
(** * Byte streams

    The readers and writers the daemon's records are stored with: Go's
    [io.Reader]/[io.Writer] over in-memory buffers, the variable length integers
    and byte strings of the bitcoin wire format
    (vendor/github.com/roasbeef/btcd/wire/common.go), and the interface [Codec]
    that every stored record implements.

    A writer is always a [bytes.Buffer], whose [Write] never fails, so a writing
    function is modelled by the bytes it appends.  A reader is a
    [bytes.Reader] or [bytes.Buffer]: a function from the bytes left to a value
    and the bytes left after it, or an error. *)

From Stdlib Require Import ZArith Lia.
From Stdlib Require Import Init.Byte.
From stdpp Require Import base list gmap strings numbers.
From S2P Require Import Prelude.
Local Open Scope Z_scope.

Definition Reader (A : Type) : Type := bytes -> res (A * bytes).

#[global] Instance reader_ret : MRet Reader := fun A a s => Ok (a, s).
#[global] Instance reader_bind : MBind Reader := fun A B f m s =>
  match m s with Ok (a, s') => f a s' | Err e => Err e end.

Definition rfail {A} (e : goerr) : Reader A := fun _ => Err e.

(** [io.ReadFull(r, buf)] with [len(buf) = n]. *)
Definition read_full (n : nat) : Reader bytes := fun s =>
  match n, s with
  | O, _ => Ok ([], s)
  | _, [] => Err ErrEOF
  | _, _ => if (length s <? n)%nat then Err ErrUnexpectedEOF
            else Ok (take n s, drop n s)
  end.

(** One call of [r.Read(buf)], where [buf] holds [old]: a short read is not an
    error, it leaves the tail of the buffer as it was. *)
Definition read_into (old : bytes) : Reader bytes := fun s =>
  match s with
  | [] => Err ErrEOF
  | _ => let got := take (length old) s in
         Ok (got ++ drop (length got) old, drop (length old) s)
  end.

(** [io.LimitReader(r, n)] handed to a parser. *)
Definition limit_reader {A} (n : nat) (p : Reader A) : Reader A := fun s =>
  match p (take n s) with
  | Ok (a, s') => Ok (a, s' ++ drop n s)
  | Err e => Err e
  end.

(** [binary.Read] of a [bool] and [binary.Write] of one. *)
Definition read_bool : Reader bool :=
  b ← read_full 1; mret (negb (bool_decide (b = [x00]))).
Definition write_bool (b : bool) : bytes := if b then [x01] else [x00].

Fixpoint read_n {A} (n : nat) (p : Reader A) : Reader (list A) :=
  match n with
  | O => mret []
  | S n => a ← p; l ← read_n n p; mret (a :: l)
  end.

(** Go's [copy(dst, src)]. *)
Definition copy_into (dst src : bytes) : bytes :=
  take (length dst) src ++ drop (length src) dst.

Definition zeros (n : nat) : bytes := replicate n x00.

(** ** Variable length integers *)

Definition WriteVarInt (val : Z) : bytes :=
  if val <? 0xfd then put_le 1 val
  else if val <=? 0xffff then put_le 1 0xfd ++ put_le 2 val
  else if val <=? 0xffffffff then put_le 1 0xfe ++ put_le 4 val
  else put_le 1 0xff ++ put_le 8 val.

Definition ReadVarInt : Reader Z :=
  d ← read_full 1;
  let discriminant := get_le d in
  if discriminant =? 0xff then
    sv ← read_full 8;
    let rv := get_le sv in
    if rv <? 0x100000000 then rfail (ErrMessage "ReadVarInt") else mret rv
  else if discriminant =? 0xfe then
    sv ← read_full 4;
    let rv := get_le sv in
    if rv <? 0x10000 then rfail (ErrMessage "ReadVarInt") else mret rv
  else if discriminant =? 0xfd then
    sv ← read_full 2;
    let rv := get_le sv in
    if rv <? 0xfd then rfail (ErrMessage "ReadVarInt") else mret rv
  else mret discriminant.

Definition WriteVarBytes (b : bytes) : bytes :=
  WriteVarInt (Z.of_nat (length b)) ++ b.

Definition ReadVarBytes (maxAllowed : Z) : Reader bytes :=
  count ← ReadVarInt;
  if maxAllowed <? count then rfail (ErrMessage "ReadVarBytes")
  else read_full (Z.to_nat count).

(** ** The interface of a stored record

    [encode] is the record's [Encode] method, [decode] its [Decode] method, and
    [codec_ok] the values the format can carry.  The law is what the stores rely
    on: decoding an encoded record returns it and leaves the rest of the stream
    untouched. *)
Class Codec (A : Type) := {
  encode : A -> bytes;
  decode : Reader A;
  codec_ok : A -> Prop;
  decode_encode a rest : codec_ok a -> decode (encode a ++ rest) = Ok (a, rest)
}.

Create HintDb codec.

Lemma reader_bind_ok {A B} (m : Reader A) (f : A -> Reader B) s a s' :
  m s = Ok (a, s') -> (m ≫= f) s = f a s'.
Proof. intros H. unfold mbind, reader_bind. by rewrite H. Qed.

(** Run the next read of a parser on a stream that starts with what the writer
    wrote. *)
Ltac codec_step :=
  erewrite reader_bind_ok by (solve [eauto with codec nocore]); cbv beta.
Ltac codec_run := rewrite <- ?app_assoc; repeat (codec_step; cbv zeta).

Lemma read_full_app n a rest : length a = n -> read_full n (a ++ rest) = Ok (a, rest).
Proof.
  intros <-. unfold read_full. destruct a as [|x a]; [done|].
  destruct (Nat.ltb_spec (length ((x :: a) ++ rest)) (length (x :: a))) as [H|H].
  { rewrite length_app in H. lia. }
  simpl. by rewrite take_app_length, drop_app_length.
Qed.

Lemma read_into_app old a rest :
  length a = length old -> a <> [] -> read_into old (a ++ rest) = Ok (a, rest).
Proof.
  intros Hl Hne. unfold read_into. destruct (a ++ rest) as [|x l] eqn:E.
  { destruct a; done. }
  rewrite <- E, <- Hl, take_app_length, drop_app_length.
  rewrite drop_ge by lia. by rewrite app_nil_r.
Qed.

Lemma limit_reader_app {A} n (p : Reader A) s rest a :
  (length s <= n)%nat -> (forall r, p (s ++ r) = Ok (a, r)) ->
  limit_reader n p (s ++ rest) = Ok (a, rest).
Proof.
  intros Hn Hp. unfold limit_reader. rewrite take_app_ge by done. rewrite Hp.
  rewrite drop_app_ge by done. by rewrite take_drop.
Qed.

Lemma copy_into_full dst src : length dst = length src -> copy_into dst src = src.
Proof.
  intros H. unfold copy_into. rewrite take_ge, drop_ge by lia. apply app_nil_r.
Qed.

Lemma read_put_le n z rest :
  read_full n (put_le n z ++ rest) = Ok (put_le n z, rest).
Proof. apply read_full_app, put_le_length. Qed.

Lemma read_put_be n z rest :
  read_full n (put_be n z ++ rest) = Ok (put_be n z, rest).
Proof. apply read_full_app, put_be_length. Qed.

Lemma read_bool_write b rest : read_bool (write_bool b ++ rest) = Ok (b, rest).
Proof. by destruct b. Qed.

Lemma read_n_encode {A} (p : Reader A) (enc : A -> bytes) (ok : A -> Prop) l rest :
  (forall a r, ok a -> p (enc a ++ r) = Ok (a, r)) -> Forall ok l ->
  read_n (length l) p (concat (map enc l) ++ rest) = Ok (l, rest).
Proof.
  intros Hp. revert rest. induction l as [|a l IH]; intros rest Hl; [done|].
  inversion_clear Hl. cbn [length read_n map concat]. rewrite <- app_assoc.
  erewrite reader_bind_ok by eauto. cbv beta.
  erewrite reader_bind_ok by eauto. done.
Qed.

Lemma get_put_le1 z : 0 <= z < 256 -> get_le (put_le 1 z) = z.
Proof. intros. rewrite get_put_le. by apply Z.mod_small. Qed.

#[export] Hint Resolve read_put_le read_put_be read_bool_write : codec.

Lemma ReadVarInt_WriteVarInt val rest :
  is_u64 val -> ReadVarInt (WriteVarInt val ++ rest) = Ok (val, rest).
Proof.
  unfold is_u64. intros Hv. unfold WriteVarInt, ReadVarInt.
  destruct (Z.ltb_spec val 0xfd).
  { codec_run. rewrite get_put_le1 by lia.
    repeat match goal with |- context [?a =? ?b] => destruct (Z.eqb_spec a b); [lia|] end.
    done. }
  destruct (Z.leb_spec val 0xffff).
  { codec_run. rewrite get_put_le1 by lia. simpl (_ =? _). cbv iota. codec_run.
    rewrite get_put_le, Z.mod_small by lia.
    destruct (Z.ltb_spec val 0xfd); [lia|done]. }
  destruct (Z.leb_spec val 0xffffffff).
  { codec_run. rewrite get_put_le1 by lia. simpl (_ =? _). cbv iota. codec_run.
    rewrite get_put_le, Z.mod_small by lia.
    destruct (Z.ltb_spec val 0x10000); [lia|done]. }
  codec_run. rewrite get_put_le1 by lia. simpl (_ =? _). cbv iota. codec_run.
  rewrite get_put_le, Z.mod_small by lia.
  destruct (Z.ltb_spec val 0x100000000); [lia|done].
Qed.

Lemma ReadVarBytes_WriteVarBytes m b rest :
  Z.of_nat (length b) <= m < 2 ^ 64 ->
  ReadVarBytes m (WriteVarBytes b ++ rest) = Ok (b, rest).
Proof.
  intros H. unfold ReadVarBytes, WriteVarBytes. rewrite <- app_assoc.
  erewrite reader_bind_ok by (apply ReadVarInt_WriteVarInt; unfold is_u64; lia).
  cbv beta. destruct (Z.ltb_spec m (Z.of_nat (length b))); [lia|].
  rewrite Nat2Z.id. by apply read_full_app.
Qed.

Lemma WriteVarInt_nonempty v : WriteVarInt v <> [].
Proof. unfold WriteVarInt. repeat case_match; done. Qed.

#[global] Arguments read_full : simpl never.
#[global] Arguments read_into : simpl never.
#[global] Arguments zeros : simpl never.
#[global] Arguments WriteVarInt : simpl never.
#[global] Arguments ReadVarInt : simpl never.
#[global] Arguments WriteVarBytes : simpl never.
#[global] Arguments ReadVarBytes : simpl never.
