(* ===== verification/Tx.v ===== *)
(** * Transactions and outpoints

    The bitcoin structures the daemon stores and builds: [wire.OutPoint] with
    the daemon's own encoding (utxonursery.go, [writeOutpoint]/[readOutpoint]),
    [wire.TxOut] with the one of utxonursery.go and the one of lnwallet/txout.go,
    and [wire.MsgTx] with [Serialize]/[Deserialize]
    (vendor/github.com/roasbeef/btcd/wire/msgtx.go). *)

From Stdlib Require Import ZArith Lia.
From Stdlib Require Import Init.Byte.
From stdpp Require Import base list gmap strings numbers.
From S2P Require Import Prelude Stream.
Local Open Scope Z_scope.

(** ** Outpoints *)

Record OutPoint := mkOutPoint { op_Hash : bytes; op_Index : Z }.

#[global] Instance OutPoint_eq_dec : EqDecision OutPoint.
Proof. solve_decision. Defined.
#[global] Program Instance OutPoint_countable : Countable OutPoint :=
  inj_countable (fun o => (op_Hash o, op_Index o))
                (fun p => Some (mkOutPoint p.1 p.2)) _.
Next Obligation. by intros []. Qed.

Definition OutPoint_ok (o : OutPoint) : Prop :=
  length (op_Hash o) = 32%nat /\ is_u32 (op_Index o).

#[global] Instance OutPoint_ok_dec o : Decision (OutPoint_ok o).
Proof. unfold OutPoint_ok, is_u32. apply _. Defined.

Definition writeOutpoint (o : OutPoint) : bytes :=
  WriteVarBytes (op_Hash o) ++ put_be 4 (op_Index o).

Definition readOutpoint : Reader OutPoint :=
  txid ← ReadVarBytes 32;
  scratch ← read_into (zeros 4);
  mret (mkOutPoint (copy_into (zeros 32) txid) (get_be scratch)).

(** ** Transaction outputs *)

Record TxOut := mkTxOut { txo_Value : Z; txo_PkScript : bytes }.

#[global] Instance TxOut_eq_dec : EqDecision TxOut.
Proof. solve_decision. Defined.

(** The daemon's own pair, and the reading half of the same pair in
    lnwallet/txout.go, which the sign descriptors use. *)
Definition writeTxOut (txo : TxOut) : bytes :=
  put_be 8 (u64 (txo_Value txo)) ++ WriteVarBytes (txo_PkScript txo).

Definition readTxOut : Reader TxOut :=
  scratch ← read_into (zeros 8);
  pkScript ← ReadVarBytes 80;
  mret (mkTxOut (i64 (get_be scratch)) pkScript).

Definition lnwallet_readTxOut : Reader TxOut :=
  scratch ← read_full 8;
  pkScript ← ReadVarBytes 80;
  mret (mkTxOut (i64 (get_be scratch)) pkScript).

Definition TxOut_ok (t : TxOut) : Prop :=
  is_i64 (txo_Value t) /\ (length (txo_PkScript t) <= 80)%nat.

(** ** Transactions *)

Record TxIn := mkTxIn {
  txi_PreviousOutPoint : OutPoint;
  txi_SignatureScript : bytes;
  txi_Witness : list bytes;
  txi_Sequence : Z
}.

Record MsgTx := mkMsgTx {
  tx_Version : Z;
  tx_TxIn : list TxIn;
  tx_TxOut : list TxOut;
  tx_LockTime : Z
}.

#[global] Instance TxIn_eq_dec : EqDecision TxIn.
Proof. solve_decision. Defined.
#[global] Instance MsgTx_eq_dec : EqDecision MsgTx.
Proof. solve_decision. Defined.

Definition MaxMessagePayload : Z := 1024 * 1024 * 32.
Definition maxTxInPerMessage : Z := MaxMessagePayload / (9 + 32) + 1.
Definition maxTxOutPerMessage : Z := MaxMessagePayload / 9 + 1.
Definition maxWitnessItemsPerInput : Z := 500000.
Definition maxWitnessItemSize : Z := 11000.

Definition readScript (maxAllowed : Z) : Reader bytes :=
  count ← ReadVarInt;
  if maxAllowed <? count then rfail (ErrMessage "readScript")
  else read_full (Z.to_nat count).

Definition writeTxIn (ti : TxIn) : bytes :=
  op_Hash (txi_PreviousOutPoint ti) ++ put_le 4 (op_Index (txi_PreviousOutPoint ti))
  ++ WriteVarBytes (txi_SignatureScript ti) ++ put_le 4 (txi_Sequence ti).

Definition readTxIn : Reader TxIn :=
  h ← read_full 32;
  idx ← read_full 4;
  script ← readScript MaxMessagePayload;
  sequence ← read_full 4;
  mret (mkTxIn (mkOutPoint h (get_le idx)) script [] (get_le sequence)).

Definition WireWriteTxOut (t : TxOut) : bytes :=
  put_le 8 (u64 (txo_Value t)) ++ WriteVarBytes (txo_PkScript t).

Definition WireReadTxOut : Reader TxOut :=
  v ← read_full 8;
  script ← readScript MaxMessagePayload;
  mret (mkTxOut (i64 (get_le v)) script).

Definition writeTxWitness (wit : list bytes) : bytes :=
  WriteVarInt (Z.of_nat (length wit)) ++ concat (map WriteVarBytes wit).

Definition readTxWitness : Reader (list bytes) :=
  witCount ← ReadVarInt;
  if maxWitnessItemsPerInput <? witCount then rfail (ErrMessage "MsgTx.BtcDecode")
  else read_n (Z.to_nat witCount) (readScript maxWitnessItemSize).

Definition HasWitness (tx : MsgTx) : bool :=
  existsb (fun ti => negb (bool_decide (txi_Witness ti = []))) (tx_TxIn tx).

(** [MsgTx.Serialize]: [BtcEncode] with the witness encoding. *)
Definition Serialize (tx : MsgTx) : bytes :=
  let doWitness := HasWitness tx in
  put_le 4 (u32 (tx_Version tx))
  ++ (if doWitness then [x00; x01] else [])
  ++ WriteVarInt (Z.of_nat (length (tx_TxIn tx)))
  ++ concat (map writeTxIn (tx_TxIn tx))
  ++ WriteVarInt (Z.of_nat (length (tx_TxOut tx)))
  ++ concat (map WireWriteTxOut (tx_TxOut tx))
  ++ (if doWitness then concat (map (fun ti => writeTxWitness (txi_Witness ti)) (tx_TxIn tx))
      else [])
  ++ put_le 4 (tx_LockTime tx).

Definition set_witness (ti : TxIn) (w : list bytes) : TxIn :=
  mkTxIn (txi_PreviousOutPoint ti) (txi_SignatureScript ti) w (txi_Sequence ti).

(** [MsgTx.Deserialize]: [BtcDecode] with the witness encoding.  The first part
    reads the version, the input count and, when the count is the zero marker,
    the witness flag; the second reads the rest. *)
Definition BtcDecode_body (version count : Z) (flag : bool) : Reader MsgTx :=
  if maxTxInPerMessage <? count then rfail (ErrMessage "MsgTx.BtcDecode") else
  txIns ← read_n (Z.to_nat count) readTxIn;
  outCount ← ReadVarInt;
  if maxTxOutPerMessage <? outCount then rfail (ErrMessage "MsgTx.BtcDecode") else
  txOuts ← read_n (Z.to_nat outCount) WireReadTxOut;
  txIns' ←
    (if flag then
       wits ← read_n (length txIns) readTxWitness;
       mret (zip_with set_witness txIns wits)
     else mret txIns);
  lockTime ← read_full 4;
  mret (mkMsgTx version txIns' txOuts (get_le lockTime)).

Definition Deserialize : Reader MsgTx :=
  v ← read_full 4;
  let version := i32 (get_le v) in
  count ← ReadVarInt;
  if count =? 0 then
    flag ← read_full 1;
    if bool_decide (flag = [x01]) then
      count ← ReadVarInt;
      BtcDecode_body version count true
    else rfail (ErrMessage "MsgTx.BtcDecode")
  else BtcDecode_body version count false.

Definition TxIn_ok (ti : TxIn) : Prop :=
  OutPoint_ok (txi_PreviousOutPoint ti)
  /\ Z.of_nat (length (txi_SignatureScript ti)) <= MaxMessagePayload
  /\ Z.of_nat (length (txi_Witness ti)) <= maxWitnessItemsPerInput
  /\ Forall (fun w => Z.of_nat (length w) <= maxWitnessItemSize) (txi_Witness ti)
  /\ is_u32 (txi_Sequence ti).

Definition WireTxOut_ok (t : TxOut) : Prop :=
  is_i64 (txo_Value t) /\ Z.of_nat (length (txo_PkScript t)) <= MaxMessagePayload.

(** A transaction without inputs is not in the domain of the format: its input
    count reads as the witness marker. *)
Definition MsgTx_ok (tx : MsgTx) : Prop :=
  is_i32 (tx_Version tx)
  /\ tx_TxIn tx <> []
  /\ Z.of_nat (length (tx_TxIn tx)) <= maxTxInPerMessage
  /\ Forall TxIn_ok (tx_TxIn tx)
  /\ Z.of_nat (length (tx_TxOut tx)) <= maxTxOutPerMessage
  /\ Forall WireTxOut_ok (tx_TxOut tx)
  /\ is_u32 (tx_LockTime tx).

#[global] Instance TxIn_ok_dec ti : Decision (TxIn_ok ti).
Proof. unfold TxIn_ok, is_u32. apply _. Defined.
#[global] Instance WireTxOut_ok_dec t : Decision (WireTxOut_ok t).
Proof. unfold WireTxOut_ok, is_i64. apply _. Defined.
#[global] Instance MsgTx_ok_dec tx : Decision (MsgTx_ok tx).
Proof. unfold MsgTx_ok, is_i32, is_u32. apply _. Defined.

(** ** Lemmas *)

Lemma readOutpoint_writeOutpoint o rest :
  OutPoint_ok o -> readOutpoint (writeOutpoint o ++ rest) = Ok (o, rest).
Proof.
  destruct o as [h i]. intros [Hh Hi]. simpl in Hh, Hi.
  unfold readOutpoint, writeOutpoint. rewrite <- app_assoc. cbn [op_Hash op_Index].
  erewrite reader_bind_ok by (apply ReadVarBytes_WriteVarBytes; lia). cbv beta.
  erewrite reader_bind_ok.
  2: { apply read_into_app; [by rewrite put_be_length|].
       intros E. apply (f_equal length) in E. by rewrite put_be_length in E. }
  unfold mret, reader_ret. rewrite get_put_be4 by done.
  by rewrite copy_into_full by (by rewrite Hh).
Qed.

Lemma writeOutpoint_length o : OutPoint_ok o -> length (writeOutpoint o) = 37%nat.
Proof.
  intros [Hh _]. unfold writeOutpoint, WriteVarBytes.
  rewrite Hh. rewrite !length_app, put_be_length, Hh. done.
Qed.

Lemma writeOutpoint_inj o o' :
  OutPoint_ok o -> OutPoint_ok o' -> writeOutpoint o = writeOutpoint o' -> o = o'.
Proof.
  intros H H' E.
  pose proof (readOutpoint_writeOutpoint o [] H) as R.
  pose proof (readOutpoint_writeOutpoint o' [] H') as R'.
  rewrite E in R. congruence.
Qed.

Lemma lnwallet_readTxOut_writeTxOut t rest :
  TxOut_ok t -> lnwallet_readTxOut (writeTxOut t ++ rest) = Ok (t, rest).
Proof.
  destruct t as [v s]. intros [Hv Hs]. simpl in Hv, Hs.
  unfold lnwallet_readTxOut, writeTxOut. cbn [txo_Value txo_PkScript].
  rewrite <- app_assoc.
  erewrite reader_bind_ok by (apply read_put_be). cbv beta.
  erewrite reader_bind_ok by (apply ReadVarBytes_WriteVarBytes; lia).
  unfold mret, reader_ret. rewrite get_put_be. change (8 * Z.of_nat 8) with 64.
  unfold u64. rewrite Z.mod_mod by lia. fold (u64 v). by rewrite i64_u64.
Qed.

Lemma readScript_WriteVarBytes m b rest :
  Z.of_nat (length b) <= m < 2 ^ 64 ->
  readScript m (WriteVarBytes b ++ rest) = Ok (b, rest).
Proof.
  intros H. unfold readScript, WriteVarBytes. rewrite <- app_assoc.
  erewrite reader_bind_ok by (apply ReadVarInt_WriteVarInt; unfold is_u64; lia).
  cbv beta. destruct (Z.ltb_spec m (Z.of_nat (length b))); [lia|].
  rewrite Nat2Z.id. by apply read_full_app.
Qed.

Lemma readTxIn_writeTxIn ti rest :
  TxIn_ok ti -> readTxIn (writeTxIn ti ++ rest) = Ok (set_witness ti [], rest).
Proof.
  destruct ti as [[h i] sc w sq]. intros ([Hh Hi] & Hsc & _ & _ & Hsq). simpl in Hh, Hi, Hsc, Hsq.
  unfold readTxIn, writeTxIn, set_witness.
  cbn [txi_PreviousOutPoint txi_SignatureScript txi_Sequence op_Hash op_Index]. rewrite <- !app_assoc.
  erewrite reader_bind_ok by (by apply read_full_app). cbv beta.
  erewrite reader_bind_ok by (apply read_put_le). cbv beta.
  erewrite reader_bind_ok
    by (apply readScript_WriteVarBytes; unfold MaxMessagePayload in *; lia). cbv beta.
  erewrite reader_bind_ok by (apply read_put_le).
  unfold mret, reader_ret. rewrite !get_put_le.
  change (8 * Z.of_nat 4) with 32. by rewrite !Z.mod_small.
Qed.

Lemma WireReadTxOut_WireWriteTxOut t rest :
  WireTxOut_ok t -> WireReadTxOut (WireWriteTxOut t ++ rest) = Ok (t, rest).
Proof.
  destruct t as [v s]. intros [Hv Hs]. simpl in Hv, Hs.
  unfold WireReadTxOut, WireWriteTxOut. cbn [txo_Value txo_PkScript]. rewrite <- app_assoc.
  erewrite reader_bind_ok by (apply read_put_le). cbv beta.
  erewrite reader_bind_ok
    by (apply readScript_WriteVarBytes; unfold MaxMessagePayload in *; lia).
  unfold mret, reader_ret. rewrite get_put_le. change (8 * Z.of_nat 8) with 64.
  unfold u64. rewrite Z.mod_mod by lia. fold (u64 v). by rewrite i64_u64.
Qed.

Lemma readTxWitness_writeTxWitness w rest :
  Z.of_nat (length w) <= maxWitnessItemsPerInput ->
  Forall (fun x => Z.of_nat (length x) <= maxWitnessItemSize) w ->
  readTxWitness (writeTxWitness w ++ rest) = Ok (w, rest).
Proof.
  intros Hn Hw. unfold readTxWitness, writeTxWitness. rewrite <- app_assoc.
  erewrite reader_bind_ok
    by (apply ReadVarInt_WriteVarInt; unfold is_u64, maxWitnessItemsPerInput in *; lia).
  cbv beta. destruct (Z.ltb_spec maxWitnessItemsPerInput (Z.of_nat (length w))); [lia|].
  rewrite Nat2Z.id. eapply read_n_encode; [|exact Hw].
  intros a r Ha. apply readScript_WriteVarBytes. unfold maxWitnessItemSize in *. lia.
Qed.

Lemma read_n_txins l rest :
  Forall TxIn_ok l ->
  read_n (length l) readTxIn (concat (map writeTxIn l) ++ rest)
  = Ok (map (fun ti => set_witness ti []) l, rest).
Proof.
  intros Hl. revert rest. induction Hl as [|a l Ha Hl IH]; intros rest; [done|].
  cbn [length read_n map concat]. rewrite <- app_assoc.
  erewrite reader_bind_ok by (by apply readTxIn_writeTxIn). cbv beta.
  by erewrite reader_bind_ok by (apply IH).
Qed.

Lemma read_n_witnesses l rest :
  Forall TxIn_ok l ->
  read_n (length l) readTxWitness
    (concat (map (fun ti => writeTxWitness (txi_Witness ti)) l) ++ rest)
  = Ok (map txi_Witness l, rest).
Proof.
  intros Hl. revert rest. induction Hl as [|a l Ha Hl IH]; intros rest; [done|].
  cbn [length read_n map concat]. rewrite <- app_assoc.
  destruct Ha as (_ & _ & Hn & Hw & _).
  erewrite reader_bind_ok by (by apply readTxWitness_writeTxWitness). cbv beta.
  by erewrite reader_bind_ok by (apply IH).
Qed.

Lemma set_witness_id l :
  zip_with set_witness (map (fun ti => set_witness ti []) l) (map txi_Witness l) = l.
Proof. induction l as [|[] l IH]; simpl; [done|]. by rewrite IH. Qed.

Lemma no_witness_id l :
  existsb (fun ti => negb (bool_decide (txi_Witness ti = []))) l = false ->
  map (fun ti => set_witness ti []) l = l.
Proof.
  induction l as [|[o s w q] l IH]; simpl; [done|].
  intros [H1 H2]%orb_false_iff. rewrite negb_false_iff in H1.
  apply bool_decide_eq_true_1 in H1 as ->. by rewrite IH.
Qed.

Lemma get_le_version v : is_i32 v -> i32 (get_le (put_le 4 (u32 v))) = v.
Proof.
  intros H. rewrite get_put_le. change (8 * Z.of_nat 4) with 32.
  unfold u32. rewrite Z.mod_mod by lia. fold (u32 v). by apply i32_u32.
Qed.

Lemma BtcDecode_body_Serialize v ins outs lt (flag : bool) rest :
  Z.of_nat (length ins) <= maxTxInPerMessage -> Forall TxIn_ok ins ->
  Z.of_nat (length outs) <= maxTxOutPerMessage -> Forall WireTxOut_ok outs ->
  is_u32 lt ->
  (flag = false ->
   existsb (fun ti => negb (bool_decide (txi_Witness ti = []))) ins = false) ->
  BtcDecode_body v (Z.of_nat (length ins)) flag
    (concat (map writeTxIn ins) ++ WriteVarInt (Z.of_nat (length outs))
     ++ concat (map WireWriteTxOut outs)
     ++ (if flag then concat (map (fun ti => writeTxWitness (txi_Witness ti)) ins) else [])
     ++ put_le 4 lt ++ rest)
  = Ok (mkMsgTx v ins outs lt, rest).
Proof.
  intros Hni Hins Hno Houts Hlt Hflag.
  assert (is_u64 (Z.of_nat (length outs))) as Huo.
  { unfold is_u64. assert (maxTxOutPerMessage < 2 ^ 64) by (vm_compute; done). lia. }
  unfold BtcDecode_body.
  destruct (Z.ltb_spec maxTxInPerMessage (Z.of_nat (length ins))); [lia|].
  rewrite Nat2Z.id.
  erewrite reader_bind_ok by (by apply read_n_txins). cbv beta.
  erewrite reader_bind_ok by (by apply ReadVarInt_WriteVarInt). cbv beta.
  destruct (Z.ltb_spec maxTxOutPerMessage (Z.of_nat (length outs))); [lia|].
  rewrite Nat2Z.id.
  erewrite reader_bind_ok
    by (eapply read_n_encode; [exact WireReadTxOut_WireWriteTxOut|done]). cbv beta.
  erewrite (reader_bind_ok _ _ _ ins (put_le 4 lt ++ rest)).
  2: { destruct flag.
       - rewrite length_map. erewrite reader_bind_ok by (by apply read_n_witnesses).
         unfold mret, reader_ret. by rewrite set_witness_id.
       - unfold mret, reader_ret. by rewrite no_witness_id by auto. }
  erewrite reader_bind_ok by (apply read_put_le). unfold mret, reader_ret.
  rewrite get_put_le. by rewrite Z.mod_small.
Qed.

(** A stored transaction is read back as it was written, witnesses included. *)
Lemma Deserialize_Serialize tx rest :
  MsgTx_ok tx -> Deserialize (Serialize tx ++ rest) = Ok (tx, rest).
Proof.
  destruct tx as [v ins outs lt].
  intros (Hv & Hne & Hni & Hins & Hno & Houts & Hlt).
  unfold Deserialize, Serialize, HasWitness.
  cbn [tx_Version tx_TxIn tx_TxOut tx_LockTime] in *. rewrite <- !app_assoc.
  assert (is_u64 (Z.of_nat (length ins))) as Hui.
  { unfold is_u64. assert (maxTxInPerMessage < 2 ^ 64) by (vm_compute; done). lia. }
  erewrite reader_bind_ok by (apply read_put_le). cbv beta zeta.
  rewrite get_le_version by done.
  destruct (existsb _ ins) eqn:HW.
  - change ([x00; x01] ++ ?r) with (WriteVarInt 0 ++ [x01] ++ r).
    erewrite reader_bind_ok by (apply ReadVarInt_WriteVarInt; unfold is_u64; lia).
    cbv beta. change (0 =? 0) with true. cbv iota.
    erewrite reader_bind_ok by (by apply read_full_app). cbv beta.
    rewrite bool_decide_eq_true_2 by done.
    erewrite reader_bind_ok by (by apply ReadVarInt_WriteVarInt).
    by apply (BtcDecode_body_Serialize _ _ _ _ true).
  - rewrite app_nil_l. erewrite reader_bind_ok by (by apply ReadVarInt_WriteVarInt).
    cbv beta. destruct (Z.eqb_spec (Z.of_nat (length ins)) 0) as [E|_].
    { destruct ins; [done|]. simpl in E. lia. }
    by apply (BtcDecode_body_Serialize _ _ _ _ false).
Qed.

#[global] Instance OutPoint_codec : Codec OutPoint := {|
  encode := writeOutpoint; decode := readOutpoint;
  codec_ok := OutPoint_ok; decode_encode := readOutpoint_writeOutpoint |}.
#[global] Instance MsgTx_codec : Codec MsgTx := {|
  encode := Serialize; decode := Deserialize;
  codec_ok := MsgTx_ok; decode_encode := Deserialize_Serialize |}.
