(* ===== verification/Outputs.v ===== *)
(** * Spendable outputs and their stored form

    The outputs the daemon tracks on chain and the records it stores about them:
    [breachedOutput] and [retributionInfo] (breacharbiter.go), [kidOutput] and
    [babyOutput] (utxonursery.go), and the [SignDescriptor] they embed
    (vendor/github.com/lightningnetwork/lnd/lnwallet/signdescriptor.go).

    A nil and an empty byte slice are the same value here, except in
    [sd_SingleTweak] where the code gives nil a meaning of its own.  The fields
    [SigHashes] and [InputIndex] of a sign descriptor are scratch space of the
    signer and are not part of the stored record. *)

From Stdlib Require Import ZArith Lia.
From Stdlib Require Import Init.Byte.
From stdpp Require Import base list gmap strings numbers.
From S2P Require Import Prelude Stream Tx.
Local Open Scope Z_scope.

(** ** Keys

    The elliptic curve keys of btcec.  The daemon stores a public key in its
    33-byte compressed form and a private key as 32 bytes, and reads both
    back. *)
Class Btcec := {
  PublicKey : Type;
  PrivateKey : Type;
  PublicKey_eq_dec :: EqDecision PublicKey;
  PrivateKey_eq_dec :: EqDecision PrivateKey;
  SerializeCompressed : PublicKey -> bytes;
  ParsePubKey : bytes -> res PublicKey;
  PrivSerialize : PrivateKey -> bytes;
  PrivKeyFromBytes : bytes -> PrivateKey;
  SerializeCompressed_length k : length (SerializeCompressed k) = 33%nat;
  ParsePubKey_SerializeCompressed k : ParsePubKey (SerializeCompressed k) = Ok k;
  PrivSerialize_length k : length (PrivSerialize k) = 32%nat;
  PrivKeyFromBytes_Serialize k : PrivKeyFromBytes (PrivSerialize k) = k
}.

(** A two-key instance, which shows that the laws can hold and lets examples
    run. *)
Definition toy_pub (k : bool) : bytes := (if k then x03 else x02) :: replicate 32 x01.
Definition toy_priv (k : bool) : bytes := (if k then x02 else x01) :: replicate 31 x00.
Definition toy_parse (b : bytes) : res bool :=
  if decide (b = toy_pub true) then Ok true
  else if decide (b = toy_pub false) then Ok false else Err ErrParsePubKey.

Definition toy_btcec : Btcec.
Proof.
  refine {| PublicKey := bool; PrivateKey := bool;
            SerializeCompressed := toy_pub; ParsePubKey := toy_parse;
            PrivSerialize := toy_priv;
            PrivKeyFromBytes := fun b => bool_decide (b = toy_priv true) |}.
  all: intros []; vm_compute; done.
Defined.

(** ** Witness types (lnwallet/witnessgen.go) *)

Definition CommitmentTimeLock : Z := 0.
Definition CommitmentNoDelay : Z := 1.
Definition CommitmentRevoke : Z := 2.
Definition HtlcOfferedRevoke : Z := 3.
Definition HtlcAcceptedRevoke : Z := 4.
Definition HtlcOfferedTimeoutSecondLevel : Z := 5.
Definition HtlcAcceptedSuccessSecondLevel : Z := 6.
Definition HtlcOfferedRemoteTimeout : Z := 7.
Definition HtlcAcceptedRemoteSuccess : Z := 8.
Definition HtlcSecondLevelRevoke : Z := 9.

Section Outputs.
Context {BTC : Btcec}.

(** ** Data *)

Record SignDescriptor := mkSignDescriptor {
  sd_Family : Z;
  sd_Index : Z;
  sd_PubKey : option PublicKey;
  sd_SingleTweak : option bytes;
  sd_DoubleTweak : option PrivateKey;
  sd_WitnessScript : bytes;
  sd_Output : TxOut;
  sd_HashType : Z
}.

Record breachedOutput := mkBreachedOutput {
  bo_amt : Z;
  bo_outpoint : OutPoint;
  bo_witnessType : Z;
  bo_signDesc : SignDescriptor;
  bo_secondLevelWitnessScript : bytes
}.

Record kidOutput := mkKidOutput {
  kid_breachedOutput : breachedOutput;
  kid_originChanPoint : OutPoint;
  kid_isHtlc : bool;
  kid_blocksToMaturity : Z;
  kid_absoluteMaturity : Z;
  kid_confHeight : Z
}.

Record babyOutput := mkBabyOutput {
  baby_expiry : Z;
  baby_timeoutTx : MsgTx;
  baby_kidOutput : kidOutput
}.

Record retributionInfo := mkRetributionInfo {
  ret_commitHash : bytes;
  ret_chanPoint : OutPoint;
  ret_chainHash : bytes;
  ret_breachHeight : Z;
  ret_breachedOutputs : list breachedOutput
}.

(** The resolution of an outgoing HTLC handed over by the wallet. *)
Record OutgoingHtlcResolution := mkOutgoingHtlcResolution {
  ohr_Expiry : Z;
  ohr_SignedTimeoutTx : option MsgTx;
  ohr_CsvDelay : Z;
  ohr_ClaimOutpoint : OutPoint;
  ohr_SweepSignDesc : SignDescriptor
}.

#[global] Instance SignDescriptor_eq_dec : EqDecision SignDescriptor.
Proof. solve_decision. Defined.
#[global] Instance breachedOutput_eq_dec : EqDecision breachedOutput.
Proof. solve_decision. Defined.
#[global] Instance kidOutput_eq_dec : EqDecision kidOutput.
Proof. solve_decision. Defined.
#[global] Instance babyOutput_eq_dec : EqDecision babyOutput.
Proof. solve_decision. Defined.
#[global] Instance retributionInfo_eq_dec : EqDecision retributionInfo.
Proof. solve_decision. Defined.

(** ** Constructors and accessors *)

Definition makeBreachedOutput (outpoint : OutPoint) (witnessType : Z)
    (secondLevelScript : bytes) (signDescriptor : SignDescriptor) : breachedOutput :=
  mkBreachedOutput (txo_Value (sd_Output signDescriptor)) outpoint witnessType
    signDescriptor secondLevelScript.

Definition makeKidOutput (outpoint originChanPoint : OutPoint) (blocksToMaturity : Z)
    (witnessType : Z) (signDescriptor : SignDescriptor) (absoluteMaturity : Z) : kidOutput :=
  let isHtlc := (witnessType =? HtlcAcceptedSuccessSecondLevel)
                || (witnessType =? HtlcOfferedRemoteTimeout) in
  mkKidOutput (makeBreachedOutput outpoint witnessType [] signDescriptor)
    originChanPoint isHtlc blocksToMaturity absoluteMaturity 0.

(** The timeout transaction of the resolution is dereferenced when the output is
    stored or swept; callers only build a baby output when it is present. *)
Definition makeBabyOutput (chanPoint : OutPoint) (htlcResolution : OutgoingHtlcResolution)
    (timeoutTx : MsgTx) : babyOutput :=
  mkBabyOutput (ohr_Expiry htlcResolution) timeoutTx
    (makeKidOutput (ohr_ClaimOutpoint htlcResolution) chanPoint (ohr_CsvDelay htlcResolution)
       HtlcOfferedTimeoutSecondLevel (ohr_SweepSignDesc htlcResolution) 0).

Definition kid_OutPoint (k : kidOutput) : OutPoint := bo_outpoint (kid_breachedOutput k).
Definition kid_Amount (k : kidOutput) : Z := bo_amt (kid_breachedOutput k).
Definition kid_WitnessType (k : kidOutput) : Z := bo_witnessType (kid_breachedOutput k).
Definition kid_SignDesc (k : kidOutput) : SignDescriptor := bo_signDesc (kid_breachedOutput k).

Definition SetConfHeight (height : Z) (k : kidOutput) : kidOutput :=
  mkKidOutput (kid_breachedOutput k) (kid_originChanPoint k) (kid_isHtlc k)
    (kid_blocksToMaturity k) (kid_absoluteMaturity k) height.

Definition baby_SetConfHeight (height : Z) (b : babyOutput) : babyOutput :=
  mkBabyOutput (baby_expiry b) (baby_timeoutTx b) (SetConfHeight height (baby_kidOutput b)).

Definition baby_OutPoint (b : babyOutput) : OutPoint := kid_OutPoint (baby_kidOutput b).
Definition baby_Amount (b : babyOutput) : Z := kid_Amount (baby_kidOutput b).
Definition baby_originChanPoint (b : babyOutput) : OutPoint :=
  kid_originChanPoint (baby_kidOutput b).

(** ** Encoding *)

Definition WriteSignDescriptor (sd : SignDescriptor) : bytes :=
  put_be 4 (sd_Family sd) ++ put_be 4 (sd_Index sd)
  ++ write_bool (bool_decide (is_Some (sd_PubKey sd)))
  ++ (match sd_PubKey sd with
      | Some k => WriteVarBytes (SerializeCompressed k) | None => [] end)
  ++ WriteVarBytes (default [] (sd_SingleTweak sd))
  ++ WriteVarBytes (match sd_DoubleTweak sd with
                    | Some k => PrivSerialize k | None => [] end)
  ++ WriteVarBytes (sd_WitnessScript sd)
  ++ writeTxOut (sd_Output sd)
  ++ put_be 4 (u32 (sd_HashType sd)).

Definition ReadSignDescriptor : Reader SignDescriptor :=
  family ← read_full 4;
  index ← read_full 4;
  hasKey ← read_bool;
  pubKey ←
    (if (hasKey : bool) then
       pubKeyBytes ← ReadVarBytes 34;
       match ParsePubKey pubKeyBytes with
       | Ok k => mret (Some k)
       | Err e => rfail e
       end
     else mret None : Reader (option PublicKey));
  singleTweakBytes ← ReadVarBytes 32;
  let singleTweak := if (length singleTweakBytes =? 0)%nat then None
                     else Some singleTweakBytes in
  doubleTweakBytes ← ReadVarBytes 32;
  let doubleTweak := if (length doubleTweakBytes =? 0)%nat then None
                     else Some (PrivKeyFromBytes doubleTweakBytes) in
  if bool_decide (is_Some singleTweak) && bool_decide (is_Some doubleTweak)
  then rfail ErrTweakOverdose else
  witnessScript ← ReadVarBytes 500;
  txOut ← lnwallet_readTxOut;
  hashType ← read_full 4;
  mret (mkSignDescriptor (get_be family) (get_be index) pubKey singleTweak doubleTweak
          witnessScript txOut (get_be hashType)).

Definition bo_Encode (bo : breachedOutput) : bytes :=
  put_be 8 (u64 (bo_amt bo)) ++ writeOutpoint (bo_outpoint bo)
  ++ WriteSignDescriptor (bo_signDesc bo)
  ++ WriteVarBytes (bo_secondLevelWitnessScript bo)
  ++ put_be 2 (u16 (bo_witnessType bo)).

Definition bo_Decode : Reader breachedOutput :=
  scratch ← read_full 8;
  let amt := i64 (get_be scratch) in
  outpoint ← readOutpoint;
  signDesc ← ReadSignDescriptor;
  wScript ← ReadVarBytes 1000;
  wt ← read_full 2;
  mret (mkBreachedOutput amt outpoint (get_be wt) signDesc wScript).

Definition kid_Encode (k : kidOutput) : bytes :=
  put_be 8 (u64 (kid_Amount k)) ++ writeOutpoint (kid_OutPoint k)
  ++ writeOutpoint (kid_originChanPoint k) ++ write_bool (kid_isHtlc k)
  ++ put_be 4 (kid_blocksToMaturity k) ++ put_be 4 (kid_absoluteMaturity k)
  ++ put_be 4 (kid_confHeight k) ++ put_be 2 (u16 (kid_WitnessType k))
  ++ WriteSignDescriptor (kid_SignDesc k).

(** The scratch buffer is shared by the reads, so each read names what the
    buffer holds before it. *)
Definition kid_Decode : Reader kidOutput :=
  scratch ← read_into (zeros 8);
  let amt := i64 (get_be scratch) in
  outpoint ← limit_reader 40 readOutpoint;
  originChanPoint ← limit_reader 40 readOutpoint;
  isHtlc ← read_bool;
  blocks ← read_into (take 4 scratch);
  absolute ← read_into blocks;
  conf ← read_into absolute;
  wt ← read_into (take 2 conf);
  signDesc ← ReadSignDescriptor;
  mret (mkKidOutput (mkBreachedOutput amt outpoint (get_be wt) signDesc [])
          originChanPoint isHtlc (get_be blocks) (get_be absolute) (get_be conf)).

Definition baby_Encode (b : babyOutput) : bytes :=
  put_be 4 (baby_expiry b) ++ Serialize (baby_timeoutTx b) ++ kid_Encode (baby_kidOutput b).

Definition baby_Decode : Reader babyOutput :=
  scratch ← read_into (zeros 4);
  let expiry := get_be scratch in
  timeoutTx ← Deserialize;
  kid ← kid_Decode;
  mret (mkBabyOutput expiry timeoutTx kid).

Definition ret_Encode (r : retributionInfo) : bytes :=
  ret_commitHash r ++ writeOutpoint (ret_chanPoint r) ++ ret_chainHash r
  ++ put_be 4 (ret_breachHeight r)
  ++ WriteVarInt (Z.of_nat (length (ret_breachedOutputs r)))
  ++ concat (map bo_Encode (ret_breachedOutputs r)).

Definition ret_Decode : Reader retributionInfo :=
  commitHash ← read_full 32;
  chanPoint ← readOutpoint;
  chainHash ← read_full 32;
  height ← read_full 4;
  nOutputsU64 ← ReadVarInt;
  let nOutputs := i64 nOutputsU64 in
  if nOutputs <? 0 then rfail (ErrPanic "makeslice: len out of range") else
  outputs ← read_n (Z.to_nat nOutputs) bo_Decode;
  mret (mkRetributionInfo commitHash chanPoint chainHash (get_be height) outputs).

(** ** What the formats can carry *)

Definition SignDescriptor_ok (sd : SignDescriptor) : Prop :=
  is_u32 (sd_Family sd) /\ is_u32 (sd_Index sd)
  /\ match sd_SingleTweak sd with
     | Some t => (0 < length t <= 32)%nat /\ sd_DoubleTweak sd = None
     | None => True
     end
  /\ (length (sd_WitnessScript sd) <= 500)%nat
  /\ TxOut_ok (sd_Output sd)
  /\ is_u32 (sd_HashType sd).

Definition breachedOutput_ok (bo : breachedOutput) : Prop :=
  is_i64 (bo_amt bo) /\ OutPoint_ok (bo_outpoint bo) /\ is_u16 (bo_witnessType bo)
  /\ SignDescriptor_ok (bo_signDesc bo)
  /\ (length (bo_secondLevelWitnessScript bo) <= 1000)%nat.

(** A kid output never carries a second level script: [makeKidOutput] passes
    nil, and the stored form has no field for it. *)
Definition kidOutput_ok (k : kidOutput) : Prop :=
  breachedOutput_ok (kid_breachedOutput k)
  /\ bo_secondLevelWitnessScript (kid_breachedOutput k) = []
  /\ OutPoint_ok (kid_originChanPoint k)
  /\ is_u32 (kid_blocksToMaturity k) /\ is_u32 (kid_absoluteMaturity k)
  /\ is_u32 (kid_confHeight k).

Definition babyOutput_ok (b : babyOutput) : Prop :=
  is_u32 (baby_expiry b) /\ MsgTx_ok (baby_timeoutTx b) /\ kidOutput_ok (baby_kidOutput b).

Definition retributionInfo_ok (r : retributionInfo) : Prop :=
  length (ret_commitHash r) = 32%nat /\ OutPoint_ok (ret_chanPoint r)
  /\ length (ret_chainHash r) = 32%nat /\ is_u32 (ret_breachHeight r)
  /\ Z.of_nat (length (ret_breachedOutputs r)) < 2 ^ 63
  /\ Forall breachedOutput_ok (ret_breachedOutputs r).

#[global] Instance TxOut_ok_dec t : Decision (TxOut_ok t).
Proof. unfold TxOut_ok, is_i64. apply _. Defined.
#[global] Instance SignDescriptor_ok_dec sd : Decision (SignDescriptor_ok sd).
Proof. unfold SignDescriptor_ok, is_u32. destruct (sd_SingleTweak sd); apply _. Defined.
#[global] Instance breachedOutput_ok_dec bo : Decision (breachedOutput_ok bo).
Proof. unfold breachedOutput_ok, is_i64, is_u16. apply _. Defined.
#[global] Instance kidOutput_ok_dec k : Decision (kidOutput_ok k).
Proof. unfold kidOutput_ok, is_u32. apply _. Defined.
#[global] Instance babyOutput_ok_dec b : Decision (babyOutput_ok b).
Proof. unfold babyOutput_ok, is_u32. apply _. Defined.
#[global] Instance retributionInfo_ok_dec r : Decision (retributionInfo_ok r).
Proof. unfold retributionInfo_ok, is_u32. apply _. Defined.

(** ** Round trips *)

Lemma get_put_be_u16 z : is_u16 z -> get_be (put_be 2 (u16 z)) = z.
Proof.
  intros H. rewrite u16_id by done. rewrite get_put_be. by apply Z.mod_small.
Qed.

Lemma get_put_be_u32 z : is_u32 z -> get_be (put_be 4 (u32 z)) = z.
Proof. intros H. rewrite u32_id by done. by apply get_put_be4. Qed.

Lemma get_put_be_i64 z : is_i64 z -> i64 (get_be (put_be 8 (u64 z))) = z.
Proof.
  intros H. rewrite get_put_be. change (8 * Z.of_nat 8) with 64.
  unfold u64. rewrite Z.mod_mod by lia. fold (u64 z). by apply i64_u64.
Qed.

(** Reading a fixed-width field with [r.Read] into a buffer of its width. *)
Lemma read_into_put_be n z old rest :
  length old = S n -> read_into old (put_be (S n) z ++ rest) = Ok (put_be (S n) z, rest).
Proof.
  intros H. apply read_into_app; [by rewrite put_be_length|].
  intros E. apply (f_equal length) in E. by rewrite put_be_length in E.
Qed.

Lemma limit_readOutpoint o rest :
  OutPoint_ok o -> limit_reader 40 readOutpoint (writeOutpoint o ++ rest) = Ok (o, rest).
Proof.
  intros H. apply limit_reader_app; [rewrite writeOutpoint_length by done; lia|].
  intros r. by apply readOutpoint_writeOutpoint.
Qed.

Lemma ReadSignDescriptor_WriteSignDescriptor sd rest :
  SignDescriptor_ok sd -> ReadSignDescriptor (WriteSignDescriptor sd ++ rest) = Ok (sd, rest).
Proof.
  destruct sd as [fam idx pk st dt ws out ht].
  intros (Hf & Hi & Hst & Hws & Hout & Hht); simpl in Hf, Hi, Hst, Hws, Hout, Hht.
  unfold ReadSignDescriptor, WriteSignDescriptor.
  cbn [sd_Family sd_Index sd_PubKey sd_SingleTweak sd_DoubleTweak sd_WitnessScript
       sd_Output sd_HashType]. rewrite <- !app_assoc.
  erewrite reader_bind_ok by (apply read_put_be). cbv beta.
  erewrite reader_bind_ok by (apply read_put_be). cbv beta.
  erewrite reader_bind_ok by (apply read_bool_write). cbv beta.
  erewrite (reader_bind_ok _ _ _ pk).
  2: { destruct pk as [k|]; [|done].
       rewrite bool_decide_eq_true_2 by eauto.
       erewrite reader_bind_ok by (apply ReadVarBytes_WriteVarBytes;
         rewrite SerializeCompressed_length; lia). cbv beta.
       by rewrite ParsePubKey_SerializeCompressed. }
  erewrite reader_bind_ok.
  2: { apply ReadVarBytes_WriteVarBytes. destruct st; simpl; [|lia]. destruct Hst. lia. }
  cbv beta zeta. erewrite reader_bind_ok.
  2: { apply ReadVarBytes_WriteVarBytes. destruct dt; simpl; [|lia].
       rewrite PrivSerialize_length. lia. }
  cbv beta zeta.
  assert ((if (length (default [] st) =? 0)%nat then None else Some (default [] st)) = st) as ->.
  { destruct st as [t|]; [|done]. simpl. destruct Hst as [[H _] _].
    destruct (Nat.eqb_spec (length t) 0); [lia|done]. }
  assert ((if (length match dt with Some k => PrivSerialize k | None => [] end =? 0)%nat
           then None
           else Some (PrivKeyFromBytes match dt with Some k => PrivSerialize k | None => [] end))
          = dt) as ->.
  { destruct dt as [k|]; [|done]. rewrite PrivSerialize_length. simpl.
    by rewrite PrivKeyFromBytes_Serialize. }
  replace (bool_decide (is_Some st) && bool_decide (is_Some dt)) with false.
  2: { destruct st; [destruct Hst as [_ ->]|]; done. }
  erewrite reader_bind_ok by (apply ReadVarBytes_WriteVarBytes; lia). cbv beta.
  erewrite reader_bind_ok by (by apply lnwallet_readTxOut_writeTxOut). cbv beta.
  erewrite reader_bind_ok by (apply read_put_be).
  unfold mret, reader_ret. by rewrite get_put_be_u32, !get_put_be4.
Qed.

Lemma bo_Decode_Encode bo rest :
  breachedOutput_ok bo -> bo_Decode (bo_Encode bo ++ rest) = Ok (bo, rest).
Proof.
  destruct bo as [amt op wt sd sl]. intros (Ha & Ho & Hw & Hs & Hl);
    simpl in Ha, Ho, Hw, Hs, Hl.
  unfold bo_Decode, bo_Encode.
  cbn [bo_amt bo_outpoint bo_witnessType bo_signDesc bo_secondLevelWitnessScript].
  rewrite <- !app_assoc.
  erewrite reader_bind_ok by (apply read_put_be). cbv beta zeta.
  erewrite reader_bind_ok by (by apply readOutpoint_writeOutpoint). cbv beta.
  erewrite reader_bind_ok by (by apply ReadSignDescriptor_WriteSignDescriptor). cbv beta.
  erewrite reader_bind_ok by (apply ReadVarBytes_WriteVarBytes; lia). cbv beta.
  erewrite reader_bind_ok by (apply read_put_be).
  unfold mret, reader_ret. by rewrite get_put_be_i64, get_put_be_u16.
Qed.

Lemma kid_Decode_Encode k rest :
  kidOutput_ok k -> kid_Decode (kid_Encode k ++ rest) = Ok (k, rest).
Proof.
  destruct k as [[amt op wt sd sl] cp ih bm am ch].
  intros ((Ha & Ho & Hw & Hs & _) & Hsl & Hcp & Hbm & Ham & Hch);
    simpl in Ha, Ho, Hw, Hs, Hsl, Hcp, Hbm, Ham, Hch. subst sl.
  unfold kid_Decode, kid_Encode, kid_Amount, kid_OutPoint, kid_WitnessType, kid_SignDesc.
  cbn [kid_breachedOutput kid_originChanPoint kid_isHtlc kid_blocksToMaturity
       kid_absoluteMaturity kid_confHeight bo_amt bo_outpoint bo_witnessType bo_signDesc].
  rewrite <- !app_assoc.
  erewrite reader_bind_ok by (by apply read_into_put_be). cbv beta zeta.
  erewrite reader_bind_ok by (by apply limit_readOutpoint). cbv beta.
  erewrite reader_bind_ok by (by apply limit_readOutpoint). cbv beta.
  erewrite reader_bind_ok by (apply read_bool_write). cbv beta.
  erewrite reader_bind_ok
    by (apply read_into_put_be; rewrite length_take, put_be_length; done). cbv beta.
  erewrite reader_bind_ok by (apply read_into_put_be; by rewrite put_be_length). cbv beta.
  erewrite reader_bind_ok by (apply read_into_put_be; by rewrite put_be_length). cbv beta.
  erewrite reader_bind_ok
    by (apply read_into_put_be; rewrite length_take, put_be_length; done). cbv beta.
  erewrite reader_bind_ok by (by apply ReadSignDescriptor_WriteSignDescriptor).
  unfold mret, reader_ret. by rewrite get_put_be_i64, get_put_be_u16, !get_put_be4.
Qed.

Lemma baby_Decode_Encode b rest :
  babyOutput_ok b -> baby_Decode (baby_Encode b ++ rest) = Ok (b, rest).
Proof.
  destruct b as [e tx k]. intros (He & Ht & Hk); simpl in He, Ht, Hk.
  unfold baby_Decode, baby_Encode. cbn [baby_expiry baby_timeoutTx baby_kidOutput].
  rewrite <- !app_assoc.
  erewrite reader_bind_ok by (by apply read_into_put_be). cbv beta zeta.
  erewrite reader_bind_ok by (by apply Deserialize_Serialize). cbv beta.
  erewrite reader_bind_ok by (by apply kid_Decode_Encode).
  unfold mret, reader_ret. by rewrite get_put_be4.
Qed.

Lemma ret_Decode_Encode r rest :
  retributionInfo_ok r -> ret_Decode (ret_Encode r ++ rest) = Ok (r, rest).
Proof.
  destruct r as [ch cp chh bh outs]. intros (Hch & Hcp & Hchh & Hbh & Hn & Ho);
    simpl in Hch, Hcp, Hchh, Hbh, Hn, Ho.
  unfold ret_Decode, ret_Encode.
  cbn [ret_commitHash ret_chanPoint ret_chainHash ret_breachHeight ret_breachedOutputs].
  rewrite <- !app_assoc.
  erewrite reader_bind_ok by (by apply read_full_app). cbv beta.
  erewrite reader_bind_ok by (by apply readOutpoint_writeOutpoint). cbv beta.
  erewrite reader_bind_ok by (by apply read_full_app). cbv beta.
  erewrite reader_bind_ok by (apply read_put_be). cbv beta.
  erewrite reader_bind_ok by (apply ReadVarInt_WriteVarInt; unfold is_u64; lia). cbv beta zeta.
  rewrite i64_id by (unfold is_i64; lia).
  destruct (Z.ltb_spec (Z.of_nat (length outs)) 0); [lia|].
  rewrite Nat2Z.id.
  erewrite reader_bind_ok by (eapply read_n_encode; [exact bo_Decode_Encode|done]).
  unfold mret, reader_ret. by rewrite get_put_be4.
Qed.

#[global] Instance kidOutput_codec : Codec kidOutput := {|
  encode := kid_Encode; decode := kid_Decode;
  codec_ok := kidOutput_ok; decode_encode := kid_Decode_Encode |}.
#[global] Instance babyOutput_codec : Codec babyOutput := {|
  encode := baby_Encode; decode := baby_Decode;
  codec_ok := babyOutput_ok; decode_encode := baby_Decode_Encode |}.
#[global] Instance retributionInfo_codec : Codec retributionInfo := {|
  encode := ret_Encode; decode := ret_Decode;
  codec_ok := retributionInfo_ok; decode_encode := ret_Decode_Encode |}.

(** What decodes after anything may follow it cannot be mistaken for something else. *)
Lemma encode_prefix_free {A} {C : Codec A} (a b : A) x y :
  codec_ok a -> codec_ok b -> encode a ++ x = encode b ++ y -> a = b /\ x = y.
Proof.
  intros Ha Hb E. pose proof (decode_encode a x Ha) as Da. rewrite E, (decode_encode b y Hb) in Da. by simplify_eq.
Qed.

(** C38: the records of both stores survive the database: whatever follows it, the
    encoding of a nursery output (with the kid output and the timeout transaction in
    it) or of a retribution (with its breached outputs) decodes to that very record
    and leaves what follows; so no record's encoding is a prefix of another's. *)
Theorem records_roundtrip b r rest :
  babyOutput_ok b -> retributionInfo_ok r ->
  baby_Decode (baby_Encode b ++ rest) = Ok (b, rest)
  /\ ret_Decode (ret_Encode r ++ rest) = Ok (r, rest)
  /\ (forall b' rest', babyOutput_ok b' -> baby_Encode b ++ rest = baby_Encode b' ++ rest' -> b = b' /\ rest = rest')
  /\ (forall r' rest', retributionInfo_ok r' -> ret_Encode r ++ rest = ret_Encode r' ++ rest' -> r = r' /\ rest = rest').
Proof.
  intros Hb Hr. split; [by apply baby_Decode_Encode|]. split; [by apply ret_Decode_Encode|]. split; intros x y Hx.
  - exact (encode_prefix_free b x rest y Hb Hx).
  - exact (encode_prefix_free r x rest y Hr Hx).
Qed.

End Outputs.

(** ** Sample outputs, for examples *)

Definition toy_hash (n : Z) : bytes := replicate 32 (byte_of_Z n).
Definition toy_op (n : Z) : OutPoint := mkOutPoint (toy_hash n) n.
Definition toy_sd (value : Z) : @SignDescriptor toy_btcec :=
  @mkSignDescriptor toy_btcec 0 7 (Some true) (Some (toy_hash 9)) None (toy_hash 5)
    (mkTxOut value (toy_hash 6)) 1.
Definition toy_kid (chan op delay conf : Z) : @kidOutput toy_btcec :=
  @mkKidOutput toy_btcec (makeBreachedOutput (BTC := toy_btcec) (toy_op op) CommitmentTimeLock [] (toy_sd 50000))
    (toy_op chan) false delay 0 conf.
Definition toy_tx : MsgTx :=
  mkMsgTx 2 [mkTxIn (toy_op 3) [] [] 0] [mkTxOut 49000 (toy_hash 6)] 0.
Definition toy_baby (chan op expiry delay conf : Z) : @babyOutput toy_btcec :=
  @mkBabyOutput toy_btcec expiry toy_tx (toy_kid chan op delay conf).

Definition toy_ret : @retributionInfo toy_btcec :=
  @mkRetributionInfo toy_btcec (toy_hash 1) (toy_op 2) (toy_hash 3) 440
    [makeBreachedOutput (BTC := toy_btcec) (toy_op 4) CommitmentRevoke [] (toy_sd 60000)].

Lemma records_roundtrip_witness :
  @baby_Decode toy_btcec (@baby_Encode toy_btcec (toy_baby 10 12 500 144 0) ++ [x01]) = Ok (toy_baby 10 12 500 144 0, [x01])
  /\ @ret_Decode toy_btcec (@ret_Encode toy_btcec toy_ret ++ [x01]) = Ok (toy_ret, [x01]).
Proof.
  destruct (@records_roundtrip toy_btcec (toy_baby 10 12 500 144 0) toy_ret [x01]) as (H1 & H2 & _).
  - apply (bool_decide_unpack _). vm_compute. exact I.
  - apply (bool_decide_unpack _). vm_compute. exact I.
  - exact (conj H1 H2).
Defined.
