(* ===== verification/Bolt.v ===== *)
(** * The bolt database

    The persistent store below the nursery store, the retribution store and the
    funding manager: vendor/github.com/coreos/bbolt (bucket.go, cursor.go, tx.go,
    db.go).  A bucket maps keys to values and to nested buckets and is iterated
    in byte order.  The model keeps the bucket tree and the checks of bolt's
    public functions and leaves out its pages and B+tree nodes.

    A [*bolt.Bucket] is a handle into the tree of its transaction; here it is
    the path of bucket names from the root.  A transaction body is a function on
    the root bucket that fails or returns a result and the new root; [Update]
    commits the new root or, on an error, keeps the old one, and [View] only
    returns the result.  Writing through the handle of a bucket deleted in the
    same transaction is undefined in bolt and is [ErrStaleBucket] here.

    A cursor walks the pages it was opened on: deleting through the bucket
    during an iteration does not disturb it, because bolt copies a page into a
    node before changing it.  [ForEach] and prefix scans therefore run over the
    content of the bucket at the time they start, while [Get] inside the loop
    sees the current one. *)

From Stdlib Require Import ZArith Lia.
From Stdlib Require Import Init.Byte Sorted.
From stdpp Require Import base list gmap strings numbers.
From S2P Require Import Prelude.
Local Open Scope Z_scope.

(** ** Sorted association lists keyed by byte strings *)

Section KV.
Context {A : Type}.
Implicit Types (l : list (bytes * A)).

Fixpoint kv_lookup (k : bytes) (l : list (bytes * A)) : option A :=
  match l with
  | [] => None
  | (k', a) :: l => if decide (k' = k) then Some a else kv_lookup k l
  end.

Fixpoint kv_insert (k : bytes) (a : A) (l : list (bytes * A)) : list (bytes * A) :=
  match l with
  | [] => [(k, a)]
  | (k', a') :: l' =>
      match bytes_compare k k' with
      | Lt => (k, a) :: l
      | Eq => (k, a) :: l'
      | Gt => (k', a') :: kv_insert k a l'
      end
  end.

Fixpoint kv_delete (k : bytes) (l : list (bytes * A)) : list (bytes * A) :=
  match l with
  | [] => []
  | (k', a) :: l => if decide (k' = k) then kv_delete k l else (k', a) :: kv_delete k l
  end.

Definition kv_sorted l : Prop := StronglySorted bytes_lt (map fst l).

Lemma kv_lookup_insert k a l k' :
  kv_lookup k' (kv_insert k a l) = if decide (k = k') then Some a else kv_lookup k' l.
Proof.
  induction l as [|[k1 a1] l IH]; [done|]. simpl.
  destruct (bytes_compare k k1) eqn:E; simpl.
  - apply bytes_compare_eq in E as ->. by destruct (decide _).
  - by destruct (decide (k = k')).
  - rewrite IH. destruct (decide (k1 = k')) as [->|]; [|done].
    destruct (decide (k = k')) as [->|]; [|done].
    by rewrite bytes_compare_refl in E.
Qed.

Lemma kv_lookup_delete k l k' :
  kv_lookup k' (kv_delete k l) = if decide (k = k') then None else kv_lookup k' l.
Proof.
  induction l as [|[k1 a1] l IH]; simpl; [by destruct (decide _)|].
  destruct (decide (k1 = k)) as [->|]; simpl; rewrite IH;
    repeat destruct (decide _); congruence.
Qed.

Lemma kv_lookup_elem k a l : kv_lookup k l = Some a -> (k, a) ∈ l.
Proof.
  induction l as [|[k1 a1] l IH]; [done|]. simpl.
  destruct (decide (k1 = k)) as [->|]; [intros [= ->]; left|right; auto].
Qed.

Lemma kv_elem_lookup k a l : kv_sorted l -> (k, a) ∈ l -> kv_lookup k l = Some a.
Proof.
  unfold kv_sorted. induction l as [|[k1 a1] l IH]; simpl; intros Hs H.
  - by apply not_elem_of_nil in H.
  - inversion_clear Hs as [|? ? Hs' Hlt]. rewrite elem_of_cons in H.
    destruct H as [[= -> ->]|H]; [by rewrite decide_True|].
    rewrite decide_False; [by apply IH|].
    intros ->. rewrite List.Forall_forall in Hlt.
    eapply bytes_lt_irrefl, Hlt. apply list_elem_of_In in H.
    by apply (in_map fst) in H.
Qed.

Lemma kv_insert_Forall (P : bytes -> Prop) k a l :
  P k -> List.Forall P (map fst l) -> List.Forall P (map fst (kv_insert k a l)).
Proof.
  induction l as [|[k1 a1] l IH]; simpl; intros Hk H; [by constructor|].
  inversion_clear H. destruct (bytes_compare k k1); simpl; repeat constructor; auto.
Qed.

Lemma kv_insert_sorted k a l : kv_sorted l -> kv_sorted (kv_insert k a l).
Proof.
  unfold kv_sorted. induction l as [|[k1 a1] l IH]; simpl; intros Hs.
  - repeat constructor.
  - inversion_clear Hs as [|? ? Hs' Hlt]. destruct (bytes_compare k k1) eqn:E; simpl.
    + apply bytes_compare_eq in E as ->. by constructor.
    + constructor; [by constructor|]. constructor; [done|].
      eapply List.Forall_impl; [|exact Hlt]. intros x Hx. by eapply bytes_lt_trans.
    + constructor; [by apply IH|]. apply kv_insert_Forall; [|done].
      unfold bytes_lt. by rewrite bytes_compare_antisym, E.
Qed.

Lemma kv_delete_sorted k l : kv_sorted l -> kv_sorted (kv_delete k l).
Proof.
  unfold kv_sorted. induction l as [|[k1 a1] l IH]; simpl; intros Hs; [done|].
  inversion_clear Hs as [|? ? Hs' Hlt]. destruct (decide (k1 = k)); [by apply IH|].
  simpl. constructor; [by apply IH|]. clear - Hlt.
  induction l as [|[k2 a2] l IH]; simpl; [constructor|]. inversion_clear Hlt.
  destruct (decide (k2 = k)); simpl; auto.
Qed.

End KV.

(** ** Buckets *)

Inductive entry :=
| EVal (v : bytes)
| EBkt (b : list (bytes * entry)).
Abbreviation bucket := (list (bytes * entry)).
Abbreviation path := (list bytes).

Definition sub_bucket (name : bytes) (b : bucket) : option bucket :=
  match kv_lookup name b with Some (EBkt c) => Some c | _ => None end.

Fixpoint bucket_at (p : path) (b : bucket) : option bucket :=
  match p with
  | [] => Some b
  | n :: p => match sub_bucket n b with Some c => bucket_at p c | None => None end
  end.

Fixpoint set_at (p : path) (c : bucket) (b : bucket) : bucket :=
  match p with
  | [] => c
  | n :: p => match sub_bucket n b with
              | Some c0 => kv_insert n (EBkt (set_at p c c0)) b
              | None => b
              end
  end.

(** ** Transactions *)

Definition TX (A : Type) : Type := bucket -> res (A * bucket).

#[global] Instance tx_ret : MRet TX := fun A a b => Ok (a, b).
#[global] Instance tx_bind : MBind TX := fun A B f m b =>
  match m b with Ok (a, b') => f a b' | Err e => Err e end.

Definition tx_fail {A} (e : goerr) : TX A := fun _ => Err e.

(** Lift a parser result into a transaction. *)
Definition tx_res {A} (r : res A) : TX A := fun b =>
  match r with Ok a => Ok (a, b) | Err e => Err e end.

Definition Update {A} (f : TX A) (db : bucket) : res A * bucket :=
  match f db with Ok (a, db') => (Ok a, db') | Err e => (Err e, db) end.

Definition View {A} (f : TX A) (db : bucket) : res A :=
  match f db with Ok (a, _) => Ok a | Err e => Err e end.

Definition MaxKeySize : Z := 32768.
Definition MaxValueSize : Z := 2 ^ 31 - 2.

Definition b_Bucket (h : path) (name : bytes) : TX (option path) := fun b =>
  Ok (match bucket_at (h ++ [name]) b with Some _ => Some (h ++ [name]) | None => None end, b).

Definition b_CreateBucketIfNotExists (h : path) (name : bytes) : TX path := fun b =>
  match bucket_at h b with
  | None => Err ErrStaleBucket
  | Some c =>
      if (length name =? 0)%nat then Err ErrBucketNameRequired else
      match kv_lookup name c with
      | Some (EBkt _) => Ok (h ++ [name], b)
      | Some (EVal _) => Err ErrIncompatibleValue
      | None => Ok (h ++ [name], set_at h (kv_insert name (EBkt []) c) b)
      end
  end.

Definition b_Get (h : path) (k : bytes) : TX (option bytes) := fun b =>
  Ok (match bucket_at h b with
      | Some c => match kv_lookup k c with Some (EVal v) => Some v | _ => None end
      | None => None
      end, b).

Definition b_Put (h : path) (k v : bytes) : TX () := fun b =>
  match bucket_at h b with
  | None => Err ErrStaleBucket
  | Some c =>
      if (length k =? 0)%nat then Err ErrKeyRequired
      else if MaxKeySize <? Z.of_nat (length k) then Err ErrKeyTooLarge
      else if MaxValueSize <? Z.of_nat (length v) then Err ErrValueTooLarge
      else match kv_lookup k c with
           | Some (EBkt _) => Err ErrIncompatibleValue
           | _ => Ok (tt, set_at h (kv_insert k (EVal v) c) b)
           end
  end.

Definition b_Delete (h : path) (k : bytes) : TX () := fun b =>
  match bucket_at h b with
  | None => Err ErrStaleBucket
  | Some c =>
      match kv_lookup k c with
      | Some (EBkt _) => Err ErrIncompatibleValue
      | Some (EVal _) => Ok (tt, set_at h (kv_delete k c) b)
      | None => Ok (tt, b)
      end
  end.

Definition b_DeleteBucket (h : path) (name : bytes) : TX () := fun b =>
  match bucket_at h b with
  | None => Err ErrStaleBucket
  | Some c =>
      match kv_lookup name c with
      | Some (EBkt _) => Ok (tt, set_at h (kv_delete name c) b)
      | Some (EVal _) => Err ErrIncompatibleValue
      | None => Err ErrBucketNotFound
      end
  end.

(** What an iteration yields: nested buckets come with a nil value. *)
Definition entry_value (e : entry) : option bytes :=
  match e with EVal v => Some v | EBkt _ => None end.

Definition b_entries (h : path) : TX (list (bytes * option bytes)) := fun b =>
  match bucket_at h b with
  | None => Err ErrStaleBucket
  | Some c => Ok (map (fun ke => (ke.1, entry_value ke.2)) c, b)
  end.

Fixpoint tx_iter {A} (f : A -> TX ()) (l : list A) : TX () :=
  match l with
  | [] => mret tt
  | a :: l => _ ← f a; tx_iter f l
  end.

Fixpoint tx_foldl {A S} (f : S -> A -> TX S) (s : S) (l : list A) : TX S :=
  match l with
  | [] => mret s
  | a :: l => s' ← f s a; tx_foldl f s' l
  end.

(** Calling a function whose error is looked at and not passed on.  An error
    leaves the transaction as it was before the call: the functions called this
    way fail before their first write. *)
Definition tx_try {A} (m : TX A) : TX (res A) := fun b =>
  match m b with Ok (a, b') => Ok (Ok a, b') | Err e => Ok (Err e, b) end.

Definition b_ForEach (h : path) (fn : bytes -> option bytes -> TX ()) : TX () :=
  es ← b_entries h; tx_iter (fun kv => fn kv.1 kv.2) es.

(** [c.Seek(pre)] and the loop [bytes.HasPrefix(k, pre)] with [c.Next()]. *)
Fixpoint seek {A} (k : bytes) (l : list (bytes * A)) : list (bytes * A) :=
  match l with
  | [] => []
  | (k', a) :: l' => match bytes_compare k' k with Lt => seek k l' | _ => l end
  end.

Fixpoint take_prefix {A} (pre : bytes) (l : list (bytes * A)) : list (bytes * A) :=
  match l with
  | [] => []
  | (k, a) :: l => if has_prefix pre k then (k, a) :: take_prefix pre l else []
  end.

Definition b_scan_prefix (h : path) (pre : bytes) : TX (list (bytes * option bytes)) :=
  es ← b_entries h; mret (take_prefix pre (seek pre es)).

(** ** Observations

    [obs b p k] is the value stored under key [k] in the bucket at path [p], and
    [has b p] tells whether that bucket exists.  The effect of every operation
    is characterised by what it does to these two. *)

Definition obs (b : bucket) (p : path) (k : bytes) : option bytes :=
  match bucket_at p b with
  | Some c => match kv_lookup k c with Some (EVal v) => Some v | _ => None end
  | None => None
  end.

Definition has (b : bucket) (p : path) : bool :=
  match bucket_at p b with Some _ => true | None => false end.

Definition bkt_wf (b : bucket) : Prop :=
  forall p c, bucket_at p b = Some c -> kv_sorted c.

Fixpoint strip (p q : path) : option path :=
  match p, q with
  | [], _ => Some q
  | n :: p, m :: q => if decide (n = m) then strip p q else None
  | _, [] => None
  end.

Lemma strip_Some p q r : strip p q = Some r <-> q = p ++ r.
Proof.
  revert q. induction p as [|n p IH]; intros q; simpl; [naive_solver|].
  destruct q as [|m q]; [naive_solver|].
  destruct (decide (n = m)) as [->|]; [rewrite IH|]; naive_solver.
Qed.

Lemma strip_app p r : strip p (p ++ r) = Some r.
Proof. by apply strip_Some. Qed.

Lemma strip_self p : strip p p = Some [].
Proof. apply strip_Some. by rewrite app_nil_r. Qed.

Lemma bucket_at_app p q b :
  bucket_at (p ++ q) b = match bucket_at p b with Some c => bucket_at q c | None => None end.
Proof.
  revert b. induction p as [|n p IH]; intros b; simpl; [done|].
  destruct (sub_bucket n b); [apply IH|done].
Qed.

Lemma sub_bucket_insert n e b m :
  sub_bucket m (kv_insert n e b)
  = if decide (n = m) then match e with EBkt c => Some c | _ => None end
    else sub_bucket m b.
Proof. unfold sub_bucket. rewrite kv_lookup_insert. by destruct (decide _). Qed.

Lemma sub_bucket_delete n b m :
  sub_bucket m (kv_delete n b) = if decide (n = m) then None else sub_bucket m b.
Proof. unfold sub_bucket. rewrite kv_lookup_delete. by destruct (decide _). Qed.

(** Replacing the bucket at [p] changes what is below [p] and nothing else. *)
Lemma bucket_at_set_at p c b c0 q :
  bucket_at p b = Some c0 ->
  match strip p q with
  | Some r => bucket_at q (set_at p c b) = bucket_at r c
  | None => (bucket_at q (set_at p c b) = bucket_at q b)
            \/ exists n r c1, p = q ++ n :: r /\ bucket_at q b = Some c1
               /\ bucket_at q (set_at p c b) = Some (set_at (n :: r) c c1)
  end.
Proof.
  revert b q. induction p as [|n p IH]; intros b q; simpl; [done|].
  destruct (sub_bucket n b) as [c1|] eqn:E; [|done]. intros H.
  destruct q as [|m q].
  - right. exists n, p, b. rewrite app_nil_l. simpl. by rewrite E.
  - simpl. rewrite sub_bucket_insert.
    destruct (decide (n = m)) as [<-|Hne]; [|by left].
    specialize (IH c1 q H). rewrite E. destruct (strip p q); [done|].
    destruct IH as [IH|(n' & r & c2 & -> & H1 & H2)]; [by left|].
    right. exists n', r, c2. by rewrite H2.
Qed.

Lemma obs_set_at p c b c0 q k :
  bucket_at p b = Some c0 ->
  obs (set_at p c b) q k = match strip p q with Some r => obs c r k | None => obs b q k end.
Proof.
  intros H. pose proof (bucket_at_set_at p c b c0 q H) as B. unfold obs.
  destruct (strip p q); [by rewrite B|].
  destruct B as [B|(n & r & c1 & -> & H1 & H2)]; [by rewrite B|].
  rewrite H1, H2. simpl. destruct (sub_bucket n c1) as [c2|] eqn:E; [|done].
  rewrite kv_lookup_insert. unfold sub_bucket in E.
  destruct (decide (n = k)) as [<-|]; [|done]. by repeat case_match.
Qed.

Lemma has_set_at p c b c0 q :
  bucket_at p b = Some c0 ->
  has (set_at p c b) q = match strip p q with Some r => has c r | None => has b q end.
Proof.
  intros H. pose proof (bucket_at_set_at p c b c0 q H) as B. unfold has.
  destruct (strip p q); [by rewrite B|].
  destruct B as [B|(n & r & c1 & -> & H1 & H2)]; by rewrite ?B, ?H1, ?H2.
Qed.

Lemma obs_app p q b c k : bucket_at p b = Some c -> obs b (p ++ q) k = obs c q k.
Proof. intros H. unfold obs. by rewrite bucket_at_app, H. Qed.

Lemma has_app p q b c : bucket_at p b = Some c -> has b (p ++ q) = has c q.
Proof. intros H. unfold has. by rewrite bucket_at_app, H. Qed.

Lemma has_true p b : has b p = true <-> exists c, bucket_at p b = Some c.
Proof. unfold has. destruct (bucket_at p b); naive_solver. Qed.

Lemma has_prefix_path p q b : has b (p ++ q) = true -> has b p = true.
Proof. unfold has. rewrite bucket_at_app. by destruct (bucket_at p b). Qed.

Lemma obs_has b p k v : obs b p k = Some v -> has b p = true.
Proof. unfold obs, has. by destruct (bucket_at p b). Qed.

Lemma obs_no_bucket b p k v : obs b p k = Some v -> has b (p ++ [k]) = false.
Proof.
  unfold obs, has. rewrite bucket_at_app. destruct (bucket_at p b) as [c|]; [|done].
  simpl. unfold sub_bucket. by destruct (kv_lookup k c) as [[]|].
Qed.

Lemma set_at_wf p c b c0 :
  bucket_at p b = Some c0 -> bkt_wf b -> bkt_wf c -> bkt_wf (set_at p c b).
Proof.
  intros Hp Hb Hc q d Hq. pose proof (bucket_at_set_at p c b c0 q Hp) as B.
  destruct (strip p q) as [r|].
  - rewrite B in Hq. by eapply Hc.
  - destruct B as [B|(n & r & c1 & -> & H1 & H2)].
    + rewrite B in Hq. by eapply Hb.
    + rewrite H2 in Hq. injection Hq as <-. simpl.
      specialize (Hb _ _ H1). destruct (sub_bucket n c1); [by apply kv_insert_sorted|done].
Qed.

Lemma bkt_wf_sub p b c : bkt_wf b -> bucket_at p b = Some c -> bkt_wf c.
Proof. intros Hb Hp q d Hq. apply (Hb (p ++ q)). by rewrite bucket_at_app, Hp. Qed.

Lemma bkt_wf_insert k e c :
  bkt_wf c -> match e with EBkt d => bkt_wf d | _ => True end -> bkt_wf (kv_insert k e c).
Proof.
  intros Hc He [|n q] d; simpl.
  - intros [= <-]. apply kv_insert_sorted. by apply (Hc []).
  - rewrite sub_bucket_insert. destruct (decide (k = n)).
    + destruct e; [done|]. apply He.
    + apply (Hc (n :: q)).
Qed.

Lemma bkt_wf_delete k c : bkt_wf c -> bkt_wf (kv_delete k c).
Proof.
  intros Hc [|n q] d; simpl.
  - intros [= <-]. apply kv_delete_sorted. by apply (Hc []).
  - rewrite sub_bucket_delete. destruct (decide (k = n)); [done|]. apply (Hc (n :: q)).
Qed.

Lemma bkt_wf_nil : bkt_wf [].
Proof. intros [|n p] c; simpl; [|done]. intros [= <-]. constructor. Qed.

(** ** Total correctness of transaction bodies

    [wp m Q b]: run on [b], the body succeeds, and its result and the bucket it
    leaves satisfy [Q]. *)

Definition wp {A} (m : TX A) (Q : A -> bucket -> Prop) (b : bucket) : Prop :=
  exists a b', m b = Ok (a, b') /\ Q a b'.

Lemma wp_ret {A} (a : A) Q b : Q a b -> wp (mret a) Q b.
Proof. intros H. by exists a, b. Qed.

Lemma wp_bind {A B} (m : TX A) (f : A -> TX B) Q b :
  wp m (fun a b' => wp (f a) Q b') b -> wp (m ≫= f) Q b.
Proof.
  intros (a & b' & H & c & b'' & H' & HQ). exists c, b''. split; [|done].
  unfold mbind, tx_bind. by rewrite H.
Qed.

Lemma wp_mono {A} (m : TX A) (Q Q' : A -> bucket -> Prop) b :
  wp m Q b -> (forall a b', Q a b' -> Q' a b') -> wp m Q' b.
Proof. intros (a & b' & H & HQ) Himp. exists a, b'. auto. Qed.

Lemma wp_Update {A} (m : TX A) Q b :
  wp m Q b -> exists a b', Update m b = (Ok a, b') /\ Q a b'.
Proof. intros (a & b' & H & HQ). exists a, b'. unfold Update. by rewrite H. Qed.

Lemma wp_View {A} (m : TX A) Q b :
  wp m Q b -> exists a b', View m b = Ok a /\ Q a b'.
Proof. intros (a & b' & H & HQ). exists a, b'. unfold View. by rewrite H. Qed.

Lemma wp_View_eq {A} (m : TX A) (a : A) b : wp m (fun x _ => x = a) b -> View m b = Ok a.
Proof. intros (x & b' & H & ->). unfold View. by rewrite H. Qed.

Lemma wp_Update_unit (m : TX ()) (Q : bucket -> Prop) b :
  wp m (fun _ b' => Q b') b -> exists b', Update m b = (Ok tt, b') /\ Q b'.
Proof. intros ([] & b' & H & HQ). exists b'. unfold Update. by rewrite H. Qed.

Lemma wp_res {A} (a : A) Q b : Q a b -> wp (tx_res (Ok a)) Q b.
Proof. intros H. by exists a, b. Qed.

Lemma wp_Bucket h name Q b :
  Q (if has b (h ++ [name]) then Some (h ++ [name]) else None) b ->
  wp (b_Bucket h name) Q b.
Proof.
  intros H. eexists _, b. split; [done|]. unfold has in H. by destruct (bucket_at _ b).
Qed.

Lemma wp_Get h k Q b : Q (obs b h k) b -> wp (b_Get h k) Q b.
Proof. intros H. by exists (obs b h k), b. Qed.

(** The effect of the writing operations on the observations. *)
Definition created (b b' : bucket) (p : path) : Prop :=
  (forall q k, obs b' q k = obs b q k)
  /\ (forall q, has b' q = has b q || bool_decide (q = p))
  /\ (bkt_wf b -> bkt_wf b').

Definition stored (b b' : bucket) (p : path) (k v : bytes) : Prop :=
  (forall q k', obs b' q k' = if decide (q = p /\ k' = k) then Some v else obs b q k')
  /\ (forall q, has b' q = has b q)
  /\ (bkt_wf b -> bkt_wf b').

Definition deleted (b b' : bucket) (p : path) (k : bytes) : Prop :=
  (forall q k', obs b' q k' = if decide (q = p /\ k' = k) then None else obs b q k')
  /\ (forall q, has b' q = has b q)
  /\ (bkt_wf b -> bkt_wf b').

Definition dropped (b b' : bucket) (p : path) : Prop :=
  (forall q k, obs b' q k = match strip p q with Some _ => None | None => obs b q k end)
  /\ (forall q, has b' q = match strip p q with Some _ => false | None => has b q end)
  /\ (bkt_wf b -> bkt_wf b').

Lemma wp_CreateBucketIfNotExists h name Q b :
  has b h = true -> name <> [] -> obs b h name = None ->
  (forall b', created b b' (h ++ [name]) -> Q (h ++ [name]) b') ->
  wp (b_CreateBucketIfNotExists h name) Q b.
Proof.
  intros [c Hc]%has_true Hn Ho HQ. unfold wp, b_CreateBucketIfNotExists. rewrite Hc.
  destruct (Nat.eqb_spec (length name) 0) as [E|_]; [by destruct name|].
  unfold obs in Ho. rewrite Hc in Ho.
  destruct (kv_lookup name c) as [[v|d]|] eqn:E; [done| |].
  - exists (h ++ [name]), b. split; [done|]. apply HQ. split; [done|]. split; [|done].
    intros q. destruct (bool_decide_reflect (q = h ++ [name])) as [->|]; [|by rewrite orb_false_r].
    erewrite has_app by done. unfold has. simpl. unfold sub_bucket. by rewrite E.
  - eexists _, _. split; [done|]. apply HQ. split; [|split].
    + intros q k. erewrite obs_set_at by done. destruct (strip h q) as [r|] eqn:Es; [|done].
      apply strip_Some in Es as ->. erewrite obs_app by done. destruct r as [|m r]; unfold obs; simpl.
      * rewrite kv_lookup_insert. destruct (decide (name = k)) as [<-|]; [by rewrite E|done].
      * rewrite sub_bucket_insert. destruct (decide (name = m)) as [<-|]; [|done].
        unfold sub_bucket. rewrite E. by destruct r.
    + intros q. erewrite has_set_at by done. destruct (strip h q) as [r|] eqn:Es.
      * apply strip_Some in Es as ->. erewrite has_app by done.
        destruct r as [|m r]; unfold has; simpl; [done|].
        rewrite sub_bucket_insert. destruct (decide (name = m)) as [<-|Hne].
        -- unfold sub_bucket. rewrite E. destruct r as [|x r]; simpl.
           ++ by rewrite bool_decide_eq_true_2.
           ++ rewrite bool_decide_eq_false_2; [done|].
              intros Heq%(inj (app h)). discriminate.
        -- rewrite (bool_decide_eq_false_2 (_ = _)); [by rewrite orb_false_r|].
           intros Heq%(inj (app h)). congruence.
      * rewrite bool_decide_eq_false_2; [by rewrite orb_false_r|].
        intros ->. by rewrite strip_app in Es.
    + intros Hwf. eapply set_at_wf; [done..|]. apply bkt_wf_insert, bkt_wf_nil.
      by eapply bkt_wf_sub.
Qed.

Lemma wp_Put h k v Q b :
  has b h = true -> has b (h ++ [k]) = false ->
  0 < Z.of_nat (length k) <= MaxKeySize -> Z.of_nat (length v) <= MaxValueSize ->
  (forall b', stored b b' h k v -> Q tt b') ->
  wp (b_Put h k v) Q b.
Proof.
  intros [c Hc]%has_true Hb Hk Hv HQ. unfold wp, b_Put. rewrite Hc.
  destruct (Nat.eqb_spec (length k) 0); [lia|].
  destruct (Z.ltb_spec MaxKeySize (Z.of_nat (length k))); [lia|].
  destruct (Z.ltb_spec MaxValueSize (Z.of_nat (length v))); [lia|].
  erewrite has_app in Hb by done. unfold has in Hb. simpl in Hb.
  assert (sub_bucket k c = None) as Hs by (by destruct (sub_bucket k c)).
  exists tt, (set_at h (kv_insert k (EVal v) c) b).
  split; [unfold sub_bucket in Hs; by repeat case_match|].
  apply HQ. split; [|split].
  - intros q k'. erewrite obs_set_at by done. destruct (strip h q) as [r|] eqn:Es.
    + apply strip_Some in Es as ->. erewrite obs_app by done. destruct r as [|m r]; unfold obs; simpl.
      * rewrite kv_lookup_insert, app_nil_r. repeat destruct (decide _); naive_solver.
      * rewrite sub_bucket_insert. rewrite (decide_False (P := _ /\ _)).
        2: { intros [Heq _]. rewrite <- (app_nil_r h) in Heq at 2.
             apply (inj (app h)) in Heq. discriminate. }
        destruct (decide (k = m)) as [<-|]; [|done]. by rewrite Hs.
    + rewrite decide_False; [done|]. intros [-> _]. by rewrite strip_self in Es.
  - intros q. erewrite has_set_at by done. destruct (strip h q) as [r|] eqn:Es; [|done].
    apply strip_Some in Es as ->. erewrite has_app by done.
    destruct r as [|m r]; unfold has; simpl; [done|].
    rewrite sub_bucket_insert. destruct (decide (k = m)) as [<-|]; [|done]. by rewrite Hs.
  - intros Hwf. eapply set_at_wf; [done..|]. apply bkt_wf_insert; [|done].
    by eapply bkt_wf_sub.
Qed.

Lemma wp_Delete h k Q b :
  has b h = true -> has b (h ++ [k]) = false ->
  (forall b', deleted b b' h k -> Q tt b') ->
  wp (b_Delete h k) Q b.
Proof.
  intros [c Hc]%has_true Hb HQ. unfold wp, b_Delete. rewrite Hc.
  erewrite has_app in Hb by done. unfold has in Hb. simpl in Hb.
  assert (sub_bucket k c = None) as Hs by (by destruct (sub_bucket k c)).
  destruct (kv_lookup k c) as [[w|d]|] eqn:E.
  - exists tt, (set_at h (kv_delete k c) b). split; [done|]. apply HQ. split; [|split].
    + intros q k'. erewrite obs_set_at by done. destruct (strip h q) as [r|] eqn:Es.
      * apply strip_Some in Es as ->. erewrite obs_app by done.
        destruct r as [|m r]; unfold obs; simpl.
        -- rewrite kv_lookup_delete, app_nil_r. repeat destruct (decide _); naive_solver.
        -- rewrite sub_bucket_delete. rewrite (decide_False (P := _ /\ _)).
           2: { intros [Heq _]. rewrite <- (app_nil_r h) in Heq at 2.
                apply (inj (app h)) in Heq. discriminate. }
           destruct (decide (k = m)) as [<-|]; [|done]. by rewrite Hs.
      * rewrite decide_False; [done|]. intros [-> _]. by rewrite strip_self in Es.
    + intros q. erewrite has_set_at by done. destruct (strip h q) as [r|] eqn:Es; [|done].
      apply strip_Some in Es as ->. erewrite has_app by done.
      destruct r as [|m r]; unfold has; simpl; [done|].
      rewrite sub_bucket_delete. destruct (decide (k = m)) as [<-|]; [|done]. by rewrite Hs.
    + intros Hwf. eapply set_at_wf; [done..|]. apply bkt_wf_delete. by eapply bkt_wf_sub.
  - unfold sub_bucket in Hs. by rewrite E in Hs.
  - exists tt, b. split; [done|]. apply HQ. split; [|split; done].
    intros q k'. destruct (decide _) as [[-> ->]|]; [|done].
    unfold obs. by rewrite Hc, E.
Qed.

Lemma wp_DeleteBucket h name Q b :
  has b (h ++ [name]) = true ->
  (forall b', dropped b b' (h ++ [name]) -> Q tt b') ->
  wp (b_DeleteBucket h name) Q b.
Proof.
  intros Hb HQ. pose proof (has_prefix_path _ _ _ Hb) as [c Hc]%has_true.
  unfold wp, b_DeleteBucket. rewrite Hc.
  erewrite has_app in Hb by done. unfold has in Hb. simpl in Hb. unfold sub_bucket in Hb.
  destruct (kv_lookup name c) as [[w|d]|] eqn:E; [done| |done].
  exists tt, (set_at h (kv_delete name c) b). split; [done|]. apply HQ.
  assert (forall q, strip (h ++ [name]) q =
            match strip h q with Some (m :: r) => if decide (name = m) then Some r else None
                               | _ => None end) as Hst.
  { intros q. destruct (strip h q) as [r|] eqn:Es.
    - apply strip_Some in Es as ->. destruct r as [|m r].
      + destruct (strip (h ++ [name]) (h ++ [])) as [r|] eqn:E1; [|done].
        apply strip_Some in E1. rewrite <- app_assoc in E1.
        apply (inj (app h)) in E1. discriminate.
      + destruct (decide (name = m)) as [->|Hne].
        * apply strip_Some. by rewrite <- app_assoc.
        * destruct (strip _ _) as [r'|] eqn:E1; [|done].
          apply strip_Some in E1. rewrite <- app_assoc in E1.
          apply (inj (app h)) in E1. simpl in E1. congruence.
    - destruct (strip (h ++ [name]) q) as [r|] eqn:E1; [|done].
      apply strip_Some in E1 as ->. rewrite <- app_assoc in Es. by rewrite strip_app in Es. }
  split; [|split].
  - intros q k. rewrite Hst. erewrite obs_set_at by done.
    destruct (strip h q) as [r|] eqn:Es; [|done].
    apply strip_Some in Es as ->. erewrite obs_app by done.
    destruct r as [|m r]; unfold obs; simpl.
    + rewrite kv_lookup_delete. destruct (decide (name = k)) as [<-|]; [by rewrite E|done].
    + rewrite sub_bucket_delete. by destruct (decide (name = m)).
  - intros q. rewrite Hst. erewrite has_set_at by done.
    destruct (strip h q) as [r|] eqn:Es; [|done].
    apply strip_Some in Es as ->. erewrite has_app by done.
    destruct r as [|m r]; unfold has; simpl; [done|].
    rewrite sub_bucket_delete. by destruct (decide (name = m)).
  - intros Hwf. eapply set_at_wf; [done..|]. apply bkt_wf_delete. by eapply bkt_wf_sub.
Qed.

(** ** Iteration *)

Lemma has_prefix_not_lt pre k : has_prefix pre k = true -> bytes_compare k pre <> Lt.
Proof.
  intros [c ->]%has_prefix_spec. induction pre as [|x pre IH]; [by destruct c|].
  simpl. by rewrite Z.compare_refl.
Qed.

Lemma above_prefix pre k c :
  bytes_compare k pre <> Lt -> has_prefix pre k = false -> bytes_compare k (pre ++ c) = Gt.
Proof.
  revert k. induction pre as [|x pre IH]; intros [|y k] H1 H2; simpl in *; try done.
  destruct (Z.compare_spec (Z_of_byte y) (Z_of_byte x)) as [E|E|E]; [|done|done].
  apply (inj Z_of_byte) in E as ->. rewrite bool_decide_eq_true_2 in H2 by done. auto.
Qed.

Lemma take_prefix_above {A} pre k (l : list (bytes * A)) :
  bytes_compare k pre <> Lt -> has_prefix pre k = false ->
  List.Forall (bytes_lt k) (map fst l) ->
  List.filter (fun ke => has_prefix pre ke.1) l = [].
Proof.
  intros H1 H2. induction l as [|[k1 a1] l IH]; simpl; [done|]. intros H. inversion_clear H.
  destruct (has_prefix pre k1) eqn:E; [|auto].
  apply has_prefix_spec in E as [c ->].
  pose proof (above_prefix pre k c H1 H2). unfold bytes_lt in *. congruence.
Qed.

(** On a sorted bucket, seeking to a prefix and reading on while it matches
    visits exactly the keys with that prefix. *)
Lemma scan_prefix_filter {A} pre (l : list (bytes * A)) :
  kv_sorted l -> take_prefix pre (seek pre l) = List.filter (fun ke => has_prefix pre ke.1) l.
Proof.
  unfold kv_sorted. induction l as [|[k a] l IH]; simpl; [done|]. intros Hs.
  inversion_clear Hs as [|? ? Hs' Hlt].
  destruct (bytes_compare k pre) eqn:E; simpl.
  2: { destruct (has_prefix pre k) eqn:P; [|by apply IH].
       by apply has_prefix_not_lt in P. }
  all: destruct (has_prefix pre k) eqn:P;
    [|symmetry; eapply take_prefix_above; [|exact P|exact Hlt]; congruence].
  all: f_equal; clear IH E; induction l as [|[k1 a1] l IHl]; simpl; [done|].
  all: simpl in Hs', Hlt; inversion_clear Hs' as [|? ? Hs1 Hlt1];
    inversion_clear Hlt as [|? ? Hk Hlt'].
  all: destruct (has_prefix pre k1) eqn:P1; [f_equal; by apply IHl|].
  all: symmetry; eapply take_prefix_above; [|exact P1|done].
  all: apply has_prefix_not_lt in P; intros E1; apply P;
    by apply (bytes_lt_trans k k1 pre).
Qed.

Lemma entries_sorted (c : bucket) :
  kv_sorted c -> kv_sorted (map (fun ke => (ke.1, entry_value ke.2)) c).
Proof. unfold kv_sorted. by rewrite map_map. Qed.

Lemma kv_sorted_NoDup {A} (l : list (bytes * A)) : kv_sorted l -> NoDup l.*1.
Proof.
  unfold kv_sorted. induction l as [|[k a] l IH]; simpl; intros Hs; [constructor|].
  inversion_clear Hs as [|? ? Hs' Hlt]. constructor; [|auto].
  intros ([k' a'] & -> & Hin)%list_elem_of_fmap. rewrite List.Forall_forall in Hlt.
  apply list_elem_of_In, (in_map fst) in Hin. by eapply bytes_lt_irrefl, Hlt.
Qed.

Lemma NoDup_filter_keys {A} (f : bytes * A -> bool) (l : list (bytes * A)) :
  NoDup l.*1 -> NoDup (List.filter f l).*1.
Proof.
  induction l as [|[k a] l IH]; simpl; intros H; [constructor|].
  inversion_clear H as [|? ? Hn Hd]. destruct (f (k, a)); simpl; [|auto].
  constructor; [|auto]. intros ([k' a'] & -> & Hin)%list_elem_of_fmap. apply Hn.
  apply list_elem_of_In, filter_In in Hin as [Hin%list_elem_of_In _].
  by apply (list_elem_of_fmap_2 fst) in Hin.
Qed.

Lemma entries_lookup (c : bucket) k :
  kv_lookup k (map (fun ke => (ke.1, entry_value ke.2)) c) = entry_value <$> kv_lookup k c.
Proof.
  induction c as [|[k1 e] c IH]; [done|]. simpl. by destruct (decide (k1 = k)).
Qed.

(** The entries of a bucket are its values and its nested buckets. *)
Definition lists (b : bucket) (h : path) (es : list (bytes * option bytes)) : Prop :=
  (forall k v, (k, Some v) ∈ es <-> obs b h k = Some v)
  /\ (forall k, (k, None) ∈ es <-> has b (h ++ [k]) = true).

Lemma lists_entries b h c :
  bkt_wf b -> bucket_at h b = Some c ->
  lists b h (map (fun ke => (ke.1, entry_value ke.2)) c).
Proof.
  intros Hwf Hc. pose proof (entries_sorted c (Hwf _ _ Hc)) as Hs.
  split; [intros k v|intros k]; split; intros H.
  - apply kv_elem_lookup in H; [|done]. rewrite entries_lookup in H.
    unfold obs. rewrite Hc. by destruct (kv_lookup k c) as [[]|]; simplify_eq/=.
  - apply kv_lookup_elem. rewrite entries_lookup. unfold obs in H. rewrite Hc in H.
    by destruct (kv_lookup k c) as [[]|]; simplify_eq/=.
  - apply kv_elem_lookup in H; [|done]. rewrite entries_lookup in H.
    erewrite has_app by done. unfold has. simpl. unfold sub_bucket.
    by destruct (kv_lookup k c) as [[]|]; simplify_eq/=.
  - erewrite has_app in H by done. unfold has in H. simpl in H. unfold sub_bucket in H.
    apply kv_lookup_elem. rewrite entries_lookup.
    by destruct (kv_lookup k c) as [[]|]; simplify_eq/=.
Qed.

Lemma wp_entries h Q b :
  bkt_wf b -> has b h = true ->
  (forall es, lists b h es -> NoDup es.*1 -> Q es b) ->
  wp (b_entries h) Q b.
Proof.
  intros Hwf [c Hc]%has_true HQ. eexists _, b. unfold b_entries. rewrite Hc. split; [done|].
  apply HQ; [by apply lists_entries|].
  apply kv_sorted_NoDup, entries_sorted. by eapply Hwf.
Qed.

Lemma wp_entries_sorted h Q b :
  bkt_wf b -> has b h = true ->
  (forall es, lists b h es -> kv_sorted es -> Q es b) ->
  wp (b_entries h) Q b.
Proof.
  intros Hwf [c Hc]%has_true HQ. eexists _, b. unfold b_entries. rewrite Hc. split; [done|].
  apply HQ; [by apply lists_entries|]. apply entries_sorted. by eapply Hwf.
Qed.

Lemma wp_scan_prefix h pre Q b :
  bkt_wf b -> has b h = true ->
  (forall es,
     (forall k v, (k, Some v) ∈ es <-> obs b h k = Some v /\ has_prefix pre k = true) ->
     (forall k, (k, None) ∈ es <-> has b (h ++ [k]) = true /\ has_prefix pre k = true) ->
     NoDup es.*1 -> Q es b) ->
  wp (b_scan_prefix h pre) Q b.
Proof.
  intros Hwf [c Hc]%has_true HQ. eexists _, b. unfold b_scan_prefix, mbind, tx_bind, b_entries.
  rewrite Hc. split; [done|].
  pose proof (entries_sorted c (Hwf _ _ Hc)) as Hs.
  pose proof (lists_entries b h c Hwf Hc) as [H1 H2].
  rewrite scan_prefix_filter by done. apply HQ.
  - intros k v. rewrite list_elem_of_In, filter_In, <- list_elem_of_In, H1. done.
  - intros k. rewrite list_elem_of_In, filter_In, <- list_elem_of_In, H2. done.
  - by apply NoDup_filter_keys, kv_sorted_NoDup.
Qed.

(** Loops: an invariant over the elements already visited. *)
Lemma wp_iter {A} (f : A -> TX ()) (I : list A -> bucket -> Prop) l b :
  I [] b ->
  (forall done a rest b, l = done ++ a :: rest -> I done b ->
     wp (f a) (fun _ b' => I (done ++ [a]) b') b) ->
  wp (tx_iter f l) (fun _ b' => I l b') b.
Proof.
  intros H0 Hstep.
  assert (forall rest done b, l = done ++ rest -> I done b ->
            wp (tx_iter f rest) (fun _ b' => I l b') b) as H; [|by apply (H l [])].
  clear b H0. induction rest as [|a rest IH]; intros dn b -> Hd; simpl.
  - apply wp_ret. by rewrite app_nil_r in *.
  - apply wp_bind. eapply wp_mono; [by eapply Hstep|].
    intros u b' Hb'. apply (IH (dn ++ [a])); [|done]. by rewrite <- app_assoc.
Qed.

Lemma wp_foldl {A S} (f : S -> A -> TX S) (I : list A -> S -> bucket -> Prop) l s b :
  I [] s b ->
  (forall done a rest s b, l = done ++ a :: rest -> I done s b ->
     wp (f s a) (fun s' b' => I (done ++ [a]) s' b') b) ->
  wp (tx_foldl f s l) (fun s' b' => I l s' b') b.
Proof.
  intros H0 Hstep.
  assert (forall rest done s b, l = done ++ rest -> I done s b ->
            wp (tx_foldl f s rest) (fun s' b' => I l s' b') b) as H; [|by apply (H l [])].
  clear s b H0. induction rest as [|a rest IH]; intros dn s b -> Hd; simpl.
  - apply wp_ret. by rewrite app_nil_r in *.
  - apply wp_bind. eapply wp_mono; [by eapply Hstep|].
    intros u b' Hb'. apply (IH (dn ++ [a])); [|done]. by rewrite <- app_assoc.
Qed.

(** A call that succeeds, and one that fails. *)
Lemma wp_try_ok {A} (m : TX A) Q b : wp m (fun a b' => Q (Ok a) b') b -> wp (tx_try m) Q b.
Proof. intros (a & b' & E & H). exists (Ok a), b'. unfold tx_try. by rewrite E. Qed.

Lemma wp_try_err {A} (m : TX A) e Q b : m b = Err e -> Q (Err e) b -> wp (tx_try m) Q b.
Proof. intros E H. exists (Err e), b. unfold tx_try. by rewrite E. Qed.

(** Callbacks of read-only iterations that accumulate a result. *)
Fixpoint tx_mapM {A B} (f : A -> TX B) (l : list A) : TX (list B) :=
  match l with
  | [] => mret []
  | a :: l => x ← f a; xs ← tx_mapM f l; mret (x :: xs)
  end.

Lemma wp_mapM {A B} (f : A -> TX B) (R : A -> B -> Prop) l b :
  (forall a, a ∈ l -> wp (f a) (fun x b' => R a x /\ b' = b) b) ->
  wp (tx_mapM f l) (fun xs b' => Forall2 R l xs /\ b' = b) b.
Proof.
  induction l as [|a l IH]; intros H; simpl; [apply wp_ret; by split|].
  apply wp_bind. eapply wp_mono; [apply H; left|]. intros x b' [HR ->].
  apply wp_bind. eapply wp_mono; [apply IH; intros; apply H; by right|].
  intros xs b' [HR' ->]. apply wp_ret. split; [by constructor|done].
Qed.
