(* ===== verification/BoltMap.v ===== *)
(** * Maps in a bucket

    The representation of a finite map keyed by outpoints in one bucket at the root of
    the database, as the retribution store and the funding manager keep theirs, and
    what the bucket operations do to it. *)

From Stdlib Require Import ZArith Lia.
From Stdlib Require Import Init.Byte.
From stdpp Require Import base list gmap strings numbers.
From S2P Require Import Prelude Stream Tx Bolt.
Local Open Scope Z_scope.

(** The bucket [name] at the root holds the encoding of the map [m], keyed by
    the encoded channel point, and nothing else. *)
Definition holds_map {A} (enc : A -> bytes) (name : bytes) (m : gmap OutPoint A) (db : bucket) : Prop :=
  obs db [] name = None
  /\ (forall k, has db [name; k] = false)
  /\ (forall k v, obs db [name] k = Some v ->
        exists cp a, OutPoint_ok cp /\ k = writeOutpoint cp /\ v = enc a /\ m !! cp = Some a)
  /\ (forall cp a, m !! cp = Some a -> OutPoint_ok cp /\ obs db [name] (writeOutpoint cp) = Some (enc a)).

Lemma writeOutpoint_key cp : OutPoint_ok cp -> 0 < Z.of_nat (length (writeOutpoint cp)) <= MaxKeySize.
Proof. intros H. rewrite writeOutpoint_length by done. unfold MaxKeySize. lia. Qed.

Lemma holds_map_obs {A} (enc : A -> bytes) name m db cp :
  holds_map enc name m db -> OutPoint_ok cp ->
  obs db [name] (writeOutpoint cp) = enc <$> m !! cp.
Proof.
  intros (_ & _ & H1 & H2) Hcp. destruct (m !! cp) as [a|] eqn:E.
  - by apply H2 in E as [_ ->].
  - destruct (obs _ _ _) as [v|] eqn:O; [|done].
    apply H1 in O as (cp' & a & Hok & Heq & _ & Hm).
    apply writeOutpoint_inj in Heq as ->; [|done..]. congruence.
Qed.

Lemma holds_map_insert {A} (enc : A -> bytes) name m b b' b'' cp a :
  holds_map enc name m b -> OutPoint_ok cp -> created b b' [name] ->
  stored b' b'' [name] (writeOutpoint cp) (enc a) ->
  holds_map enc name (<[cp := a]> m) b''.
Proof.
  intros (H0 & Hs & H1 & H2) Hcp (Co & Ch & _) (So & Sh & _).
  split; [|split; [|split]].
  - rewrite So, Co. destruct (decide _) as [[]|]; done.
  - intros k. rewrite Sh, Ch, Hs. by rewrite bool_decide_eq_false_2.
  - intros k v. rewrite So, Co. destruct (decide _) as [[_ ->]|Hne].
    + intros [= <-]. exists cp, a. by rewrite lookup_insert_eq.
    + intros (cp' & a' & Hok & -> & -> & Hm)%H1. exists cp', a'.
      rewrite lookup_insert_ne; [done|]. intros ->. naive_solver.
  - intros cp' a'. rewrite lookup_insert, So, Co. destruct (decide (cp = cp')) as [<-|Hne].
    + intros [= <-]. by rewrite decide_True.
    + intros [Hok Ho]%H2. split; [done|]. rewrite decide_False; [done|].
      intros [_ E]. by apply writeOutpoint_inj in E.
Qed.

Lemma holds_map_created {A} (enc : A -> bytes) name name' m b b' :
  created b b' [name'] -> holds_map enc name m b -> holds_map enc name m b'.
Proof.
  intros (Co & Ch & _) (H0 & Hs & H1 & H2). split; [|split; [|split]].
  - by rewrite Co.
  - intros k. rewrite Ch, Hs. by rewrite bool_decide_eq_false_2.
  - intros k v. rewrite Co. apply H1.
  - intros cp a. rewrite Co. apply H2.
Qed.

Lemma holds_map_stored {A} (enc : A -> bytes) name name' m b b' k v :
  name <> name' -> stored b b' [name'] k v ->
  holds_map enc name m b -> holds_map enc name m b'.
Proof.
  intros Hne (So & Sh & _) (H0 & Hs & H1 & H2). split; [|split; [|split]].
  - rewrite So. by rewrite decide_False by naive_solver.
  - intros k'. by rewrite Sh.
  - intros k' v'. rewrite So, decide_False by naive_solver. apply H1.
  - intros cp a. rewrite So, decide_False by naive_solver. apply H2.
Qed.

Lemma holds_map_delete {A} (enc : A -> bytes) name m b b' cp :
  holds_map enc name m b -> OutPoint_ok cp -> deleted b b' [name] (writeOutpoint cp) ->
  holds_map enc name (delete cp m) b'.
Proof.
  intros (H0 & Hs & H1 & H2) Hcp (Do & Dh & _). split; [|split; [|split]].
  - rewrite Do. by rewrite decide_False by naive_solver.
  - intros k. by rewrite Dh.
  - intros k v. rewrite Do. destruct (decide _) as [|Hne]; [done|].
    intros (cp' & a' & Hok & -> & -> & Hm)%H1. exists cp', a'.
    rewrite lookup_delete_ne; [done|]. intros ->. naive_solver.
  - intros cp' a'. rewrite lookup_delete, Do. destruct (decide (cp = cp')) as [<-|Hne]; [done|].
    intros [Hok Ho]%H2. split; [done|]. rewrite decide_False; [done|].
    intros [_ E]. by apply writeOutpoint_inj in E.
Qed.

Lemma holds_map_deleted {A} (enc : A -> bytes) name name' m b b' k :
  name <> name' -> deleted b b' [name'] k ->
  holds_map enc name m b -> holds_map enc name m b'.
Proof.
  intros Hne (Do & Dh & _) (H0 & Hs & H1 & H2). split; [|split; [|split]].
  - rewrite Do. by rewrite decide_False by naive_solver.
  - intros k'. by rewrite Dh.
  - intros k' v'. rewrite Do, decide_False by naive_solver. apply H1.
  - intros cp a. rewrite Do, decide_False by naive_solver. apply H2.
Qed.

Lemma holds_map_absent {A} (enc : A -> bytes) name m db cp :
  holds_map enc name m db -> has db [name] = false -> m !! cp = None.
Proof.
  intros (_ & _ & _ & H2) Hh. destruct (m !! cp) as [a|] eqn:E; [|done].
  apply H2 in E as [_ O]. apply obs_has in O. congruence.
Qed.

Lemma holds_map_empty {A} (enc : A -> bytes) name : holds_map enc name ∅ [].
Proof. split; [done|]. split; [done|]. split; [done|]. intros cp a. by rewrite lookup_empty. Qed.
