(* ===== verification/RetributionStore.v ===== *)
(** * The retribution store

    The persistent map from channel points to retribution states and finalized
    justice transactions (breacharbiter.go, [RetributionStore] and
    [retributionStore]), its abstract specification, and the proof that the
    bolt implementation refines it. *)

From Stdlib Require Import ZArith Lia.
From Stdlib Require Import Init.Byte.
From stdpp Require Import base list gmap strings numbers.
From S2P Require Import Prelude Stream Tx Outputs Bolt BoltMap.
Local Open Scope Z_scope.

Definition retributionBucket : bytes := str "retribution".
Definition justiceTxnBucket : bytes := str "justice-txn".

Section RetributionStore.
Context {BTC : Btcec}.

(** ** The interface [RetributionStore]

    The operations over an abstract database type, and what a client may rely
    on: they behave like the operations on a pair of finite maps. *)

Record RetState := mkRetState {
  rs_created : bool;
  rs_info : gmap OutPoint retributionInfo;
  rs_final : gmap OutPoint MsgTx
}.

Definition rs_empty : RetState := mkRetState false ∅ ∅.

Record RetributionStore := mkRetributionStore {
  RS_db : Type;
  RS_Add : retributionInfo -> RS_db -> res () * RS_db;
  RS_IsBreached : OutPoint -> RS_db -> res bool;
  RS_Finalize : OutPoint -> MsgTx -> RS_db -> res () * RS_db;
  RS_GetFinalizedTxn : OutPoint -> RS_db -> res (option MsgTx);
  RS_Remove : OutPoint -> RS_db -> res () * RS_db;
  RS_ForAll : forall S : Type, (S -> retributionInfo -> res S) -> S -> RS_db -> res S
}.

(** The encoded records have to fit into a bolt value. *)
Definition ret_fits (r : retributionInfo) : Prop :=
  retributionInfo_ok r /\ Z.of_nat (length (ret_Encode r)) <= MaxValueSize.
Definition tx_fits (t : MsgTx) : Prop :=
  MsgTx_ok t /\ Z.of_nat (length (Serialize t)) <= MaxValueSize.

Class RetributionStoreSpec (S : RetributionStore) := {
  rs_abs : RS_db S -> RetState -> Prop;
  rs_abs_info db st cp r :
    rs_abs db st -> rs_info st !! cp = Some r ->
    rs_created st = true /\ retributionInfo_ok r /\ ret_chanPoint r = cp;
  RS_Add_spec db st r :
    rs_abs db st -> ret_fits r ->
    exists db', RS_Add S r db = (Ok tt, db')
      /\ rs_abs db' (mkRetState true (<[ret_chanPoint r := r]> (rs_info st)) (rs_final st));
  RS_IsBreached_spec db st cp :
    rs_abs db st -> OutPoint_ok cp ->
    RS_IsBreached S cp db = Ok (bool_decide (is_Some (rs_info st !! cp)));
  RS_Finalize_spec db st cp t :
    rs_abs db st -> OutPoint_ok cp -> tx_fits t ->
    exists db', RS_Finalize S cp t db = (Ok tt, db')
      /\ rs_abs db' (mkRetState (rs_created st) (rs_info st) (<[cp := t]> (rs_final st)));
  RS_GetFinalizedTxn_spec db st cp :
    rs_abs db st -> OutPoint_ok cp ->
    RS_GetFinalizedTxn S cp db = Ok (rs_final st !! cp);
  RS_Remove_spec db st cp :
    rs_abs db st -> OutPoint_ok cp ->
    if rs_created st then
      exists db', RS_Remove S cp db = (Ok tt, db')
        /\ rs_abs db' (mkRetState true (delete cp (rs_info st)) (delete cp (rs_final st)))
    else exists e, RS_Remove S cp db = (Err e, db);
  RS_ForAll_spec db st {A} (cb : A -> retributionInfo -> res A) a :
    rs_abs db st ->
    exists l, NoDup (ret_chanPoint <$> l)
      /\ (forall r, r ∈ l <-> rs_info st !! ret_chanPoint r = Some r)
      /\ RS_ForAll S A cb a db = res_foldl cb a l
}.

(** ** The implementation on bolt *)

Definition Add (ret : retributionInfo) : bucket -> res () * bucket :=
  Update (
    retBucket ← b_CreateBucketIfNotExists [] retributionBucket;
    let outBuf := writeOutpoint (ret_chanPoint ret) in
    let retBuf := ret_Encode ret in
    b_Put retBucket outBuf retBuf).

Definition Finalize (chanPoint : OutPoint) (finalTx : MsgTx) : bucket -> res () * bucket :=
  Update (
    justiceBkt ← b_CreateBucketIfNotExists [] justiceTxnBucket;
    let chanBuf := writeOutpoint chanPoint in
    let txBuf := Serialize finalTx in
    b_Put justiceBkt chanBuf txBuf).

Definition GetFinalizedTxn (chanPoint : OutPoint) (db : bucket) : res (option MsgTx) :=
  finalTxBytes ← View (
    justiceBkt ← b_Bucket [] justiceTxnBucket;
    match justiceBkt with
    | None => mret None
    | Some justiceBkt => b_Get justiceBkt (writeOutpoint chanPoint)
    end) db;
  match finalTxBytes with
  | None => Ok None
  | Some b => match Deserialize b with
              | Ok (finalTx, _) => Ok (Some finalTx)
              | Err e => Err e
              end
  end.

Definition IsBreached (chanPoint : OutPoint) (db : bucket) : res bool :=
  View (
    retBucket ← b_Bucket [] retributionBucket;
    match retBucket with
    | None => mret false
    | Some retBucket =>
        retInfo ← b_Get retBucket (writeOutpoint chanPoint);
        mret (bool_decide (is_Some retInfo))
    end) db.

Definition Remove (chanPoint : OutPoint) : bucket -> res () * bucket :=
  Update (
    retBucket ← b_Bucket [] retributionBucket;
    match retBucket with
    | None => tx_fail (ErrNew "unable to remove retribution because the retribution bucket doesn't exist.")
    | Some retBucket =>
        let chanBytes := writeOutpoint chanPoint in
        _ ← b_Delete retBucket chanBytes;
        justiceBkt ← b_Bucket [] justiceTxnBucket;
        match justiceBkt with
        | None => mret tt
        | Some justiceBkt => b_Delete justiceBkt chanBytes
        end
    end).

(** The callback is a closure over variables of the caller: [S] is what it
    accumulates. *)
Definition ForAll {S} (cb : S -> retributionInfo -> res S) (s : S) (db : bucket) : res S :=
  View (
    retBucket ← b_Bucket [] retributionBucket;
    match retBucket with
    | None => mret s
    | Some retBucket =>
        es ← b_entries retBucket;
        tx_res (res_foldl (fun s kv =>
          match ret_Decode (default [] kv.2) with
          | Ok (ret, _) => cb s ret
          | Err e => Err e
          end) s es)
    end) db.

Definition boltRetributionStore : RetributionStore :=
  mkRetributionStore bucket Add IsBreached Finalize GetFinalizedTxn Remove (fun S => @ForAll S).

(** ** The abstraction relation *)

Definition rs_rel (db : bucket) (st : RetState) : Prop :=
  bkt_wf db
  /\ rs_created st = has db [retributionBucket]
  /\ holds_map ret_Encode retributionBucket (rs_info st) db
  /\ holds_map Serialize justiceTxnBucket (rs_final st) db
  /\ (forall cp r, rs_info st !! cp = Some r -> retributionInfo_ok r /\ ret_chanPoint r = cp)
  /\ (forall cp t, rs_final st !! cp = Some t -> MsgTx_ok t).

(** Everything outside the two buckets is left alone. *)
Definition frame (b b' : bucket) : Prop :=
  forall n p k, n <> retributionBucket -> n <> justiceTxnBucket ->
    obs b' (n :: p) k = obs b (n :: p) k /\ has b' (n :: p) = has b (n :: p).

Lemma buckets_ne : retributionBucket <> justiceTxnBucket.
Proof. by vm_compute. Qed.

(** ** Refinement *)

Lemma created_frame b b' n :
  created b b' [n] -> n = retributionBucket \/ n = justiceTxnBucket -> frame b b'.
Proof.
  intros (Co & Ch & _) Hn m p k H1 H2. rewrite Co, Ch. split; [done|].
  rewrite bool_decide_eq_false_2; [by rewrite orb_false_r|]. naive_solver.
Qed.

Lemma stored_frame b b' n k v :
  stored b b' [n] k v -> n = retributionBucket \/ n = justiceTxnBucket -> frame b b'.
Proof.
  intros (So & Sh & _) Hn m p k' H1 H2. rewrite So, Sh. split; [|done].
  rewrite decide_False; naive_solver.
Qed.

Lemma deleted_frame b b' n k :
  deleted b b' [n] k -> n = retributionBucket \/ n = justiceTxnBucket -> frame b b'.
Proof.
  intros (So & Sh & _) Hn m p k' H1 H2. rewrite So, Sh. split; [|done].
  rewrite decide_False; naive_solver.
Qed.

Lemma frame_trans a b c : frame a b -> frame b c -> frame a c.
Proof.
  intros H1 H2 n p k Hn Hn'. destruct (H1 n p k), (H2 n p k); try done. split; congruence.
Qed.

Lemma Add_refines db st r :
  rs_rel db st -> ret_fits r ->
  exists db', Add r db = (Ok tt, db') /\ frame db db'
    /\ rs_rel db' (mkRetState true (<[ret_chanPoint r := r]> (rs_info st)) (rs_final st)).
Proof.
  intros (Hwf & Hc & Hi & Hf & Hri & Hrf) [Hr Hfit].
  assert (OutPoint_ok (ret_chanPoint r)) as Hcp by apply Hr.
  apply wp_Update_unit.
  apply wp_bind, wp_CreateBucketIfNotExists; [done|done|apply Hi|].
  intros b1 C1. pose proof C1 as (Co & Ch & Cw). rewrite app_nil_l.
  apply wp_Put.
  - rewrite Ch. by rewrite bool_decide_eq_true_2, orb_true_r.
  - rewrite Ch. destruct Hi as (_ & Hs & _). simpl. by rewrite Hs.
  - by apply writeOutpoint_key.
  - done.
  - intros b2 S2. pose proof S2 as (So & Sh & Sw). split.
    { eapply frame_trans; [by eapply created_frame; [|left]|by eapply stored_frame; [|left]]. }
    split; [by auto|]. split; [|split; [|split; [|split]]]; simpl.
    + rewrite Sh, Ch. by rewrite bool_decide_eq_true_2, orb_true_r.
    + by eapply holds_map_insert.
    + eapply holds_map_stored; [|exact S2|]; [apply not_eq_sym, buckets_ne|].
      by eapply holds_map_created.
    + intros cp r'. rewrite lookup_insert. destruct (decide _) as [<-|]; [|by apply Hri].
      intros [= <-]. done.
    + done.
Qed.

Lemma Finalize_refines db st cp t :
  rs_rel db st -> OutPoint_ok cp -> tx_fits t ->
  exists db', Finalize cp t db = (Ok tt, db') /\ frame db db'
    /\ rs_rel db' (mkRetState (rs_created st) (rs_info st) (<[cp := t]> (rs_final st))).
Proof.
  intros (Hwf & Hc & Hi & Hf & Hri & Hrf) Hcp [Ht Hfit].
  apply wp_Update_unit.
  apply wp_bind, wp_CreateBucketIfNotExists; [done|done|apply Hf|].
  intros b1 C1. pose proof C1 as (Co & Ch & Cw). rewrite app_nil_l.
  apply wp_Put.
  - rewrite Ch. by rewrite bool_decide_eq_true_2, orb_true_r.
  - rewrite Ch. destruct Hf as (_ & Hs & _). simpl. by rewrite Hs.
  - by apply writeOutpoint_key.
  - done.
  - intros b2 S2. pose proof S2 as (So & Sh & Sw). split.
    { eapply frame_trans; [by eapply created_frame; [|right]|by eapply stored_frame; [|right]]. }
    split; [by auto|]. split; [|split; [|split; [|split]]]; simpl.
    + rewrite Sh, Ch, Hc. rewrite bool_decide_eq_false_2; [by rewrite orb_false_r|].
      intros [= E%buckets_ne].
    + eapply holds_map_stored; [|exact S2|]; [apply buckets_ne|].
      by eapply holds_map_created.
    + by eapply holds_map_insert.
    + done.
    + intros cp' t'. rewrite lookup_insert. destruct (decide _) as [<-|]; [|by apply Hrf].
      intros [= <-]. done.
Qed.

Lemma IsBreached_refines db st cp :
  rs_rel db st -> OutPoint_ok cp ->
  IsBreached cp db = Ok (bool_decide (is_Some (rs_info st !! cp))).
Proof.
  intros (Hwf & Hc & Hi & _) Hcp. apply wp_View_eq, wp_bind, wp_Bucket. rewrite app_nil_l.
  destruct (has db [retributionBucket]) eqn:E.
  - apply wp_bind, wp_Get, wp_ret. rewrite (holds_map_obs _ _ _ _ _ Hi Hcp).
    apply bool_decide_ext. by rewrite fmap_is_Some.
  - apply wp_ret. by rewrite (holds_map_absent _ _ _ _ cp Hi).
Qed.

Lemma GetFinalizedTxn_refines db st cp :
  rs_rel db st -> OutPoint_ok cp -> GetFinalizedTxn cp db = Ok (rs_final st !! cp).
Proof.
  intros (Hwf & Hc & _ & Hf & _ & Hrf) Hcp. unfold GetFinalizedTxn.
  rewrite (wp_View_eq _ (Serialize <$> rs_final st !! cp)).
  - simpl. destruct (rs_final st !! cp) as [t|] eqn:Ef; [|done]. simpl.
    rewrite <- (app_nil_r (Serialize t)), Deserialize_Serialize; eauto.
  - apply wp_bind, wp_Bucket. rewrite app_nil_l.
    destruct (has db [justiceTxnBucket]) eqn:E.
    + apply wp_Get. by apply holds_map_obs.
    + apply wp_ret. by rewrite (holds_map_absent _ _ _ _ cp Hf).
Qed.

Lemma Remove_refines db st cp :
  rs_rel db st -> OutPoint_ok cp ->
  if rs_created st then
    exists db', Remove cp db = (Ok tt, db') /\ frame db db'
      /\ rs_rel db' (mkRetState true (delete cp (rs_info st)) (delete cp (rs_final st)))
  else exists e, Remove cp db = (Err e, db).
Proof.
  intros (Hwf & Hc & Hi & Hf & Hri & Hrf) Hcp. destruct (rs_created st) eqn:Hcr.
  2: { eexists. unfold Remove, Update, mbind, tx_bind, b_Bucket.
       unfold has in Hc. rewrite app_nil_l. by destruct (bucket_at _ db). }
  apply wp_Update_unit.
  apply wp_bind, wp_Bucket. rewrite app_nil_l, <- Hc.
  apply wp_bind, wp_Delete; [done|apply Hi|]. intros b1 D1.
  pose proof D1 as (Do1 & Dh1 & Dw1).
  assert (frame db b1) as F1 by (by eapply deleted_frame; [|left]).
  assert (holds_map ret_Encode retributionBucket (delete cp (rs_info st)) b1) as Hi1
    by (by eapply holds_map_delete).
  assert (holds_map Serialize justiceTxnBucket (rs_final st) b1) as Hf1
    by (eapply holds_map_deleted; [|exact D1|done]; apply not_eq_sym, buckets_ne).
  assert (forall cp' r, delete cp (rs_info st) !! cp' = Some r ->
            retributionInfo_ok r /\ ret_chanPoint r = cp') as Hri1.
  { intros cp' r [_ H]%lookup_delete_Some. by apply Hri. }
  assert (forall cp' t, delete cp (rs_final st) !! cp' = Some t -> MsgTx_ok t) as Hrf1.
  { intros cp' t [_ H]%lookup_delete_Some. by eapply Hrf. }
  apply wp_bind, wp_Bucket. rewrite app_nil_l.
  destruct (has b1 [justiceTxnBucket]) eqn:Hj.
  - apply wp_Delete; [done|apply Hf1|]. intros b2 D2. pose proof D2 as (Do2 & Dh2 & Dw2).
    split; [eapply frame_trans; [done|by eapply deleted_frame; [|right]]|].
    split; [by auto|]. split; [simpl; by rewrite Dh2, Dh1|]. simpl.
    split; [eapply holds_map_deleted; [|exact D2|done]; apply buckets_ne|].
    split; [by eapply holds_map_delete|]. done.
  - apply wp_ret. split; [done|]. split; [by auto|]. split; [simpl; by rewrite Dh1|]. simpl.
    split; [done|]. split; [|done].
    rewrite delete_id; [done|]. by eapply holds_map_absent.
Qed.

(** Decoding what was stored: the fold over the entries is the fold over the
    records. *)
Lemma foldl_decode {A} (cb : A -> retributionInfo -> res A) (P : bytes * option bytes -> retributionInfo -> Prop) es a :
  (forall kv, kv ∈ es -> exists r, P kv r /\ kv.2 = Some (ret_Encode r) /\ retributionInfo_ok r) ->
  exists l, Forall2 P es l
    /\ res_foldl (fun s kv => match ret_Decode (default [] kv.2) with
                              | Ok (ret, _) => cb s ret | Err e => Err e end) a es
       = res_foldl cb a l.
Proof.
  revert a. induction es as [|[k v] es IH]; intros a H.
  - by exists [].
  - destruct (H (k, v)) as (r & HP & Hv & Hr); [left|]. simpl in Hv. subst v. simpl.
    rewrite <- (app_nil_r (ret_Encode r)), ret_Decode_Encode by done.
    rewrite app_nil_r. assert (forall kv, kv ∈ es -> exists r, P kv r /\ kv.2 = Some (ret_Encode r) /\ retributionInfo_ok r)
      as H' by (intros kv Hkv; apply H; by right).
    destruct (cb a r) as [a'|e] eqn:E.
    + destruct (IH a' H') as (l & Hl & Hf). exists (r :: l). split; [by constructor|].
      simpl. by rewrite E, Hf.
    + destruct (IH a H') as (l & Hl & _). exists (r :: l). split; [by constructor|].
      simpl. by rewrite E.
Qed.

Lemma ForAll_refines {A} db st (cb : A -> retributionInfo -> res A) a :
  rs_rel db st ->
  exists l, NoDup (ret_chanPoint <$> l)
    /\ (forall r, r ∈ l <-> rs_info st !! ret_chanPoint r = Some r)
    /\ ForAll cb a db = res_foldl cb a l.
Proof.
  intros (Hwf & Hc & Hi & Hf & Hri & Hrf). pose proof Hi as (_ & Hs & H1 & H2).
  unfold ForAll, View, mbind, tx_bind, b_Bucket. rewrite app_nil_l.
  destruct (bucket_at [retributionBucket] db) as [c|] eqn:E.
  2: { exists []. split; [constructor|]. split; [|done]. intros r. split; [set_solver|].
       rewrite (holds_map_absent _ _ _ _ _ Hi); [done|]. unfold has. by rewrite E. }
  destruct (wp_entries [retributionBucket]
              (fun es _ => lists db [retributionBucket] es /\ NoDup es.*1) db Hwf)
    as (es & b' & Ee & [Ho Hh] & Hnd); [unfold has; by rewrite E|by auto|].
  rewrite Ee. assert (b' = db) as -> by (unfold b_entries in Ee; rewrite E in Ee; congruence).
  assert (forall k v, (k, v) ∈ es -> exists r, v = Some (ret_Encode r) /\ retributionInfo_ok r
            /\ k = writeOutpoint (ret_chanPoint r) /\ OutPoint_ok (ret_chanPoint r)
            /\ rs_info st !! ret_chanPoint r = Some r) as Hes.
  { intros k [v|] Hin.
    - apply Ho, H1 in Hin as (cp & r & Hok & -> & -> & Hm).
      destruct (Hri _ _ Hm) as [? <-]. by exists r.
    - apply Hh in Hin. simpl in Hin. by rewrite Hs in Hin. }
  destruct (foldl_decode cb (fun kv r => kv = (writeOutpoint (ret_chanPoint r), Some (ret_Encode r))
            /\ OutPoint_ok (ret_chanPoint r) /\ rs_info st !! ret_chanPoint r = Some r) es a)
    as (l & Hl' & Hfold).
  { intros [k v] Hin. destruct (Hes _ _ Hin) as (r & -> & ? & -> & ? & ?). by exists r. }
  exists l. split; [|split].
  - clear - Hl' Hnd BTC. induction Hl' as [|[k v] r es l (Hkv & Hok & Hm) Hl IH]; [constructor|].
    simpl in *. inversion_clear Hnd as [|? ? Hn Hd]. constructor; [|auto].
    intros (r' & Heq & Hin)%list_elem_of_fmap. apply Hn.
    destruct (Forall2_elem_r _ _ _ _ Hl Hin) as ([k' v'] & Hin' & [[= -> ->] _]).
    injection Hkv as -> ->. rewrite Heq. by apply (list_elem_of_fmap_2 fst) in Hin'.
  - intros r. split.
    + intros Hin. by destruct (Forall2_elem_r _ _ _ _ Hl' Hin) as (kv & _ & _ & _ & Hm).
    + intros Hm. destruct (H2 _ _ Hm) as [Hok Hob]. apply Ho in Hob.
      destruct (Forall2_elem_l _ _ _ _ Hl' Hob) as (r' & Hin & [= Heq Heq'] & Hok' & Hm').
      apply writeOutpoint_inj in Heq as Hcp; [|done..]. rewrite <- Hcp in Hm'. congruence.
  - unfold tx_res. rewrite Hfold. by destruct (res_foldl cb a l).
Qed.

(** The bolt store implements the interface. *)
#[global] Program Instance boltRetributionStore_spec : RetributionStoreSpec boltRetributionStore :=
  {| rs_abs := rs_rel |}.
Next Obligation.
  intros db st cp r (_ & Hc & Hi & _ & Hri & _) Hl. split; [|by apply Hri]. rewrite Hc.
  destruct (has db [retributionBucket]) eqn:E; [done|]. by rewrite (holds_map_absent _ _ _ _ cp Hi E) in Hl.
Qed.
Next Obligation.
  intros db st r H Hr. destruct (Add_refines db st r H Hr) as (db' & ? & _ & ?). eauto.
Qed.
Next Obligation. intros db st cp H Hcp. by apply IsBreached_refines. Qed.
Next Obligation.
  intros db st cp t H Hcp Ht. destruct (Finalize_refines db st cp t H Hcp Ht) as (db' & ? & _ & ?). eauto.
Qed.
Next Obligation. intros db st cp H Hcp. by apply GetFinalizedTxn_refines. Qed.
Next Obligation.
  intros db st cp H Hcp. pose proof (Remove_refines db st cp H Hcp) as HR.
  destruct (rs_created st); [|done]. destruct HR as (db' & ? & _ & ?). eauto.
Qed.
Next Obligation. intros db st A cb a H. by apply ForAll_refines. Qed.

Lemma rs_rel_empty : rs_rel [] rs_empty.
Proof.
  split; [apply bkt_wf_nil|]. split; [done|]. split; [apply holds_map_empty|]. split; [apply holds_map_empty|].
  split; intros cp r; simpl; by rewrite lookup_empty.
Qed.

(** ** Runs of the store *)

Inductive rs_op :=
| OpAdd (r : retributionInfo)
| OpFinalize (cp : OutPoint) (t : MsgTx)
| OpRemove (cp : OutPoint).

Definition rs_op_ok (o : rs_op) : Prop :=
  match o with
  | OpAdd r => ret_fits r
  | OpFinalize cp t => OutPoint_ok cp /\ tx_fits t
  | OpRemove cp => OutPoint_ok cp
  end.

Definition rs_run (o : rs_op) (db : bucket) : bucket :=
  match o with
  | OpAdd r => (Add r db).2
  | OpFinalize cp t => (Finalize cp t db).2
  | OpRemove cp => (Remove cp db).2
  end.

(** What the operations mean. *)
Definition rs_spec (o : rs_op) (st : RetState) : RetState :=
  match o with
  | OpAdd r => mkRetState true (<[ret_chanPoint r := r]> (rs_info st)) (rs_final st)
  | OpFinalize cp t => mkRetState (rs_created st) (rs_info st) (<[cp := t]> (rs_final st))
  | OpRemove cp =>
      if rs_created st then mkRetState true (delete cp (rs_info st)) (delete cp (rs_final st)) else st
  end.

Lemma rs_run_refines o db st :
  rs_rel db st -> rs_op_ok o -> rs_rel (rs_run o db) (rs_spec o st) /\ frame db (rs_run o db).
Proof.
  intros H Ho. destruct o as [r|cp t|cp]; simpl in *.
  - destruct (Add_refines db st r H Ho) as (db' & -> & ? & ?). done.
  - destruct Ho as [Hcp Ht]. destruct (Finalize_refines db st cp t H Hcp Ht) as (db' & -> & ? & ?). done.
  - pose proof (Remove_refines db st cp H Ho) as HR. destruct (rs_created st).
    + destruct HR as (db' & -> & ? & ?). done.
    + destruct HR as [e ->]. done.
Qed.

Lemma rs_runs_refine ops db st :
  rs_rel db st -> Forall rs_op_ok ops ->
  rs_rel (foldl (fun db o => rs_run o db) db ops) (foldl (fun st o => rs_spec o st) st ops)
  /\ frame db (foldl (fun db o => rs_run o db) db ops).
Proof.
  intros H Hops. revert db st H. induction Hops as [|o ops Ho _ IH]; intros db st H; [done|]. simpl.
  destruct (rs_run_refines o db st H Ho) as [H' Hf']. destruct (IH _ _ H') as [H2 Hf2].
  split; [done|]. by eapply frame_trans.
Qed.

(** C36: the bolt store refines a pair of maps.  After any sequence of additions,
    finalizations and removals, starting from an empty database, [IsBreached],
    [GetFinalizedTxn] and [ForAll] answer as the maps do that the same operations
    make: the encodings lose nothing, the two buckets do not interfere, [ForAll]
    visits every recorded retribution exactly once, and nothing outside of the two
    buckets is touched. *)
Theorem retribution_store_correct ops cp {A} (cb : A -> retributionInfo -> res A) (a : A) :
  Forall rs_op_ok ops -> OutPoint_ok cp ->
  let db := foldl (fun db o => rs_run o db) [] ops in
  let st := foldl (fun st o => rs_spec o st) rs_empty ops in
  IsBreached cp db = Ok (bool_decide (is_Some (rs_info st !! cp)))
  /\ GetFinalizedTxn cp db = Ok (rs_final st !! cp)
  /\ frame [] db
  /\ exists l, NoDup (ret_chanPoint <$> l) /\ (forall r, r ∈ l <-> rs_info st !! ret_chanPoint r = Some r)
       /\ ForAll cb a db = res_foldl cb a l.
Proof.
  intros Hops Hcp db st.
  destruct (rs_runs_refine ops [] rs_empty rs_rel_empty Hops) as [Hrel Hfr].
  split; [by apply IsBreached_refines|]. split; [by apply GetFinalizedTxn_refines|]. split; [done|].
  by apply ForAll_refines.
Qed.

End RetributionStore.
