(* ===== verification/NurseryStore.v ===== *)
(** * The nursery store

    The persistent part of the utxo nursery (nursery_store.go): the channel
    index, which holds every output being incubated under a key that names its
    state (crib, pscl, kndr or grad), and the height index, which says at which
    block height the nursery has to act on which outputs.

    One definition per function of the source, on the bolt model. *)

From Stdlib Require Import ZArith Lia Sorted.
From Stdlib Require Import Init.Byte.
From stdpp Require Import base list gmap strings numbers.
From S2P Require Import Prelude Stream Tx Outputs Bolt.
Local Open Scope Z_scope.

(** ** Keys *)

Definition utxnChainPrefix : bytes := str "utxn".
Definition lastFinalizedHeightKey : bytes := str "last-finalized-height".
Definition lastGraduatedHeightKey : bytes := str "last-graduated-height".
Definition channelIndexKey : bytes := str "channel-index".
Definition heightIndexKey : bytes := str "height-index".
Definition finalizedKndrTxnKey : bytes := str "finalized-kndr-txn".

Definition cribPrefix : bytes := str "crib".
Definition psclPrefix : bytes := str "pscl".
Definition kndrPrefix : bytes := str "kndr".
Definition gradPrefix : bytes := str "grad".

Definition prefixChainKey (sysPrefix hash : bytes) : bytes := sysPrefix ++ hash.

Definition prefixOutputKey (statePrefix : bytes) (outpoint : OutPoint) : bytes :=
  statePrefix ++ writeOutpoint outpoint.

Record nurseryStore := mkNurseryStore {
  ns_chainHash : bytes;
  ns_pfxChainKey : bytes
}.

Definition newNurseryStore (chainHash : bytes) : nurseryStore :=
  mkNurseryStore chainHash (prefixChainKey utxnChainPrefix chainHash).

Section NurseryStore.
Context {BTC : Btcec} (ns : nurseryStore).

(** ** Buckets *)

Definition createChannelBucket (chanPoint : OutPoint) : TX path :=
  chainBucket ← b_CreateBucketIfNotExists [] (ns_pfxChainKey ns);
  chanIndex ← b_CreateBucketIfNotExists chainBucket channelIndexKey;
  b_CreateBucketIfNotExists chanIndex (writeOutpoint chanPoint).

Definition getChannelBucket (chanPoint : OutPoint) : TX (option path) :=
  chainBucket ← b_Bucket [] (ns_pfxChainKey ns);
  match chainBucket with
  | None => mret None
  | Some chainBucket =>
      chanIndex ← b_Bucket chainBucket channelIndexKey;
      match chanIndex with
      | None => mret None
      | Some chanIndex => b_Bucket chanIndex (writeOutpoint chanPoint)
      end
  end.

Definition createHeightBucket (height : Z) : TX path :=
  chainBucket ← b_CreateBucketIfNotExists [] (ns_pfxChainKey ns);
  hghtIndex ← b_CreateBucketIfNotExists chainBucket heightIndexKey;
  b_CreateBucketIfNotExists hghtIndex (put_be 4 height).

Definition getHeightBucketPath (height : Z) : TX (option path * option path * option path) :=
  chainBucket ← b_Bucket [] (ns_pfxChainKey ns);
  match chainBucket with
  | None => mret (None, None, None)
  | Some chainBucket =>
      hghtIndex ← b_Bucket chainBucket heightIndexKey;
      match hghtIndex with
      | None => mret (None, None, None)
      | Some hghtIndex =>
          hghtBucket ← b_Bucket hghtIndex (put_be 4 height);
          mret (Some chainBucket, Some hghtIndex, hghtBucket)
      end
  end.

Definition getHeightBucket (height : Z) : TX (option path) :=
  r ← getHeightBucketPath height; mret r.2.

Definition createHeightChanBucket (height : Z) (chanPoint : OutPoint) : TX path :=
  hghtBucket ← createHeightBucket height;
  b_CreateBucketIfNotExists hghtBucket (writeOutpoint chanPoint).

Definition getHeightChanBucket (height : Z) (chanPoint : OutPoint) : TX (option path) :=
  hghtBucket ← getHeightBucket height;
  match hghtBucket with
  | None => mret None
  | Some hghtBucket => b_Bucket hghtBucket (writeOutpoint chanPoint)
  end.

Definition isBucketEmpty (parent : path) : TX () :=
  b_ForEach parent (fun _ _ => tx_fail errBucketNotEmpty).

Definition removeBucketIfEmpty (parent : path) (bktName : bytes) : TX () :=
  bkt ← b_Bucket parent bktName;
  match bkt with
  | None => mret tt
  | Some bkt => _ ← isBucketEmpty bkt; b_DeleteBucket parent bktName
  end.

Definition removeBucketIfExists (parent : path) (bktName : bytes) : TX () :=
  bkt ← b_Bucket parent bktName;
  match bkt with
  | None => mret tt
  | Some _ => b_DeleteBucket parent bktName
  end.

Definition pruneHeight (height : Z) : TX bool :=
  r ← getHeightBucketPath height;
  match r with
  | (_, Some hghtIndex, Some hghtBucket) =>
      _ ← b_ForEach hghtBucket (fun chanBytes v =>
            match v with
            | Some _ => mret tt
            | None =>
                hghtChanBucket ← b_Bucket hghtBucket chanBytes;
                match hghtChanBucket with
                | None => tx_fail (ErrNew "unable to find height-channel bucket")
                | Some hghtChanBucket => isBucketEmpty hghtChanBucket
                end
            end);
      _ ← removeBucketIfExists hghtIndex (put_be 4 height);
      mret true
  | _ => mret false
  end.

Definition removeOutputFromHeight (height : Z) (chanPoint : OutPoint) (pfxKey : bytes) : TX () :=
  hghtChanBucket ← getHeightChanBucket height chanPoint;
  match hghtChanBucket with
  | None => mret tt
  | Some hghtChanBucket =>
      _ ← b_Delete hghtChanBucket pfxKey;
      hghtBucket ← getHeightBucket height;
      match hghtBucket with
      | None => tx_fail (ErrNew "height bucket not found")
      | Some hghtBucket =>
          err ← tx_try (removeBucketIfEmpty hghtBucket (writeOutpoint chanPoint));
          match err with
          | Err e => if decide (e = errBucketNotEmpty) then mret tt else tx_fail e
          | Ok _ =>
              pruned ← tx_try (pruneHeight height);
              match pruned with
              | Err e => if decide (e = errBucketNotEmpty) then mret tt else tx_fail e
              | Ok _ => mret tt
              end
          end
      end
  end.

(** ** Heights *)

(** [byteOrder.Uint32] reads the first four bytes and panics on fewer. *)
Definition Uint32 (b : bytes) : TX Z :=
  if (length b <? 4)%nat then tx_fail (ErrPanic "index out of range")
  else mret (get_be (take 4 b)).

Definition getLastFinalizedHeight : TX Z :=
  chainBucket ← b_Bucket [] (ns_pfxChainKey ns);
  match chainBucket with
  | None => mret 0
  | Some chainBucket =>
      heightBytes ← b_Get chainBucket lastFinalizedHeightKey;
      match heightBytes with
      | None => mret 0
      | Some heightBytes => Uint32 heightBytes
      end
  end.

Definition getLastGraduatedHeight : TX Z :=
  chainBucket ← b_Bucket [] (ns_pfxChainKey ns);
  match chainBucket with
  | None => mret 0
  | Some chainBucket =>
      heightBytes ← b_Get chainBucket lastGraduatedHeightKey;
      match heightBytes with
      | None => mret 0
      | Some heightBytes => Uint32 heightBytes
      end
  end.

Definition putLastGraduatedHeight (height : Z) : TX () :=
  chainBucket ← b_CreateBucketIfNotExists [] (ns_pfxChainKey ns);
  b_Put chainBucket lastGraduatedHeightKey (put_be 4 height).

Definition finalizeKinder (height : Z) (finalTx : option MsgTx) : TX () :=
  chainBucket ← b_CreateBucketIfNotExists [] (ns_pfxChainKey ns);
  _ ← b_Put chainBucket lastFinalizedHeightKey (put_be 4 height);
  match finalTx with
  | None => mret tt
  | Some finalTx =>
      hghtBucket ← getHeightBucket height;
      match hghtBucket with
      | None => mret tt
      | Some hghtBucket => b_Put hghtBucket finalizedKndrTxnKey (Serialize finalTx)
      end
  end.

Definition getFinalizedTxn (height : Z) : TX (option MsgTx) :=
  hghtBucket ← getHeightBucket height;
  match hghtBucket with
  | None => mret None
  | Some hghtBucket =>
      finalTxBytes ← b_Get hghtBucket finalizedKndrTxnKey;
      match finalTxBytes with
      | None => mret None
      | Some b => txn ← tx_res (Deserialize b); mret (Some txn.1)
      end
  end.

(** ** Iteration *)

Definition forEachHeightPrefix {S} (prefix : bytes) (height : Z)
    (callback : S -> bytes -> TX S) (s : S) : TX S :=
  r ← getHeightBucketPath height;
  match r with
  | (_, _, None) => mret s
  | (None, _, Some _) => tx_fail (ErrPanic "nil pointer dereference")
  | (Some chainBucket, _, Some hghtBucket) =>
      es ← b_entries hghtBucket;
      let channelsAtHeight :=
        omap (fun kv : bytes * option bytes =>
                match kv.2 with None => Some kv.1 | Some _ => None end) es in
      chanIndex ← b_Bucket chainBucket channelIndexKey;
      match chanIndex with
      | None => tx_fail (ErrNew "unable to retrieve channel index")
      | Some chanIndex =>
          tx_foldl (fun s chanBytes =>
            hghtChanBucket ← b_Bucket hghtBucket chanBytes;
            match hghtChanBucket with
            | None => tx_fail (ErrNew "unable to retrieve height-channel bucket")
            | Some hghtChanBucket =>
                chanBucket ← b_Bucket chanIndex chanBytes;
                match chanBucket with
                | None => tx_fail (ErrNew "unable to retrieve channel bucket")
                | Some chanBucket =>
                    ks ← b_scan_prefix hghtChanBucket prefix;
                    tx_foldl (fun s kv =>
                      outputBytes ← b_Get chanBucket kv.1;
                      match outputBytes with
                      | None => tx_fail (ErrNew "unable to retrieve output")
                      | Some outputBytes => callback s outputBytes
                      end) s ks
                end
            end) s channelsAtHeight
      end
  end.

Definition forChanOutputs {S} (chanPoint : OutPoint)
    (callback : S -> bytes -> option bytes -> TX S) (s : S) : TX S :=
  chanBucket ← getChannelBucket chanPoint;
  match chanBucket with
  | None => tx_fail ErrContractNotFound
  | Some chanBucket =>
      es ← b_entries chanBucket;
      tx_foldl (fun s kv => callback s kv.1 kv.2) s es
  end.

(** ** Entering the nursery *)

Definition enterCrib (baby : babyOutput) : TX () :=
  let chanPoint := baby_originChanPoint baby in
  chanBucket ← createChannelBucket chanPoint;
  let pfxOutputKey := prefixOutputKey cribPrefix (baby_OutPoint baby) in
  rawBytes ← b_Get chanBucket pfxOutputKey;
  match rawBytes with
  | Some _ => mret tt
  | None =>
      hghtChanBucket ← createHeightChanBucket (baby_expiry baby) chanPoint;
      let babyBytes := baby_Encode baby in
      _ ← b_Put chanBucket pfxOutputKey babyBytes;
      b_Put hghtChanBucket pfxOutputKey []
  end.

Definition enterPreschool (kid : kidOutput) : TX () :=
  let chanPoint := kid_originChanPoint kid in
  chanBucket ← createChannelBucket chanPoint;
  let pfxOutputKey := prefixOutputKey psclPrefix (kid_OutPoint kid) in
  rawBytes ← b_Get chanBucket pfxOutputKey;
  match rawBytes with
  | Some _ => mret tt
  | None => b_Put chanBucket pfxOutputKey (kid_Encode kid)
  end.

Definition Incubate (kids : list kidOutput) (babies : list babyOutput) : bucket -> res () * bucket :=
  Update (_ ← tx_iter enterPreschool kids; tx_iter enterCrib babies).

(** ** Transitions *)

(** [copy(pfxOutputKey, kndrPrefix)]: overwrite the first bytes of the key. *)
Definition copy_prefix (pfx key : bytes) : bytes := take (length key) pfx ++ drop (length pfx) key.

Definition maturity (kid : kidOutput) : Z := u32 (kid_confHeight kid + kid_blocksToMaturity kid).

Definition CribToKinder (bby : babyOutput) : bucket -> res () * bucket :=
  Update (
    let chanPoint := baby_originChanPoint bby in
    chanBucket ← createChannelBucket chanPoint;
    let pfxOutputKey := prefixOutputKey cribPrefix (baby_OutPoint bby) in
    _ ← b_Delete chanBucket pfxOutputKey;
    _ ← removeOutputFromHeight (baby_expiry bby) chanPoint pfxOutputKey;
    let pfxOutputKey := copy_prefix kndrPrefix pfxOutputKey in
    let kidBytes := kid_Encode (baby_kidOutput bby) in
    _ ← b_Put chanBucket pfxOutputKey kidBytes;
    let maturityHeight := maturity (baby_kidOutput bby) in
    hghtChanBucketCsv ← createHeightChanBucket maturityHeight chanPoint;
    b_Put hghtChanBucketCsv pfxOutputKey []).

Definition PreschoolToKinder (kid : kidOutput) : bucket -> res () * bucket :=
  Update (
    let chanPoint := kid_originChanPoint kid in
    chanBucket ← createChannelBucket chanPoint;
    let pfxOutputKey := prefixOutputKey psclPrefix (kid_OutPoint kid) in
    _ ← b_Delete chanBucket pfxOutputKey;
    let pfxOutputKey := copy_prefix kndrPrefix pfxOutputKey in
    _ ← b_Put chanBucket pfxOutputKey (kid_Encode kid);
    let maturityHeight :=
      if kid_blocksToMaturity kid =? 0 then kid_absoluteMaturity kid else maturity kid in
    lastGradHeight ← getLastGraduatedHeight;
    let maturityHeight :=
      if maturityHeight <=? lastGradHeight then u32 (lastGradHeight + 1) else maturityHeight in
    hghtChanBucket ← createHeightChanBucket maturityHeight chanPoint;
    b_Put hghtChanBucket pfxOutputKey []).

Definition graduateOutput (height : Z) (v : bytes) : TX () :=
  r ← tx_res (kid_Decode v);
  let kid := r.1 in
  let outpoint := kid_OutPoint kid in
  let chanPoint := kid_originChanPoint kid in
  let pfxOutputKey := prefixOutputKey kndrPrefix outpoint in
  _ ← removeOutputFromHeight height chanPoint pfxOutputKey;
  chanBucket ← getChannelBucket chanPoint;
  match chanBucket with
  | None => tx_fail ErrContractNotFound
  | Some chanBucket =>
      _ ← b_Delete chanBucket pfxOutputKey;
      let pfxOutputKey := copy_prefix gradPrefix pfxOutputKey in
      b_Put chanBucket pfxOutputKey (kid_Encode kid)
  end.

Definition GraduateKinder (height : Z) : bucket -> res () * bucket :=
  Update (
    hghtBucket ← getHeightBucket height;
    match hghtBucket with
    | None => mret tt
    | Some hghtBucket =>
        _ ← b_Delete hghtBucket finalizedKndrTxnKey;
        forEachHeightPrefix kndrPrefix height (fun _ v => graduateOutput height v) tt
    end).

Definition FinalizeKinder (height : Z) (finalTx : option MsgTx) : bucket -> res () * bucket :=
  Update (finalizeKinder height finalTx).

Definition GraduateHeight (height : Z) : bucket -> res () * bucket :=
  Update (putLastGraduatedHeight height).

(** ** Queries *)

Definition FetchClass (height : Z) (db : bucket)
    : res (option MsgTx * list kidOutput * list babyOutput) :=
  View (
    finalTx ← getFinalizedTxn height;
    babies ← forEachHeightPrefix cribPrefix height
               (fun babies buf => r ← tx_res (baby_Decode buf); mret (babies ++ [r.1])) [];
    kids ← forEachHeightPrefix kndrPrefix height
             (fun kids buf => r ← tx_res (kid_Decode buf); mret (kids ++ [r.1])) [];
    mret (finalTx, kids, babies)) db.

Definition FetchPreschools (db : bucket) : res (list kidOutput) :=
  View (
    chainBucket ← b_Bucket [] (ns_pfxChainKey ns);
    match chainBucket with
    | None => mret []
    | Some chainBucket =>
        chanIndex ← b_Bucket chainBucket channelIndexKey;
        match chanIndex with
        | None => mret []
        | Some chanIndex =>
            activeChannels ← b_entries chanIndex;
            tx_foldl (fun kids (kv : bytes * option bytes) =>
              chanBucket ← b_Bucket chanIndex kv.1;
              match chanBucket with
              | None => mret kids
              | Some chanBucket =>
                  outs ← b_scan_prefix chanBucket psclPrefix;
                  tx_foldl (fun kids (kv : bytes * option bytes) =>
                    r ← tx_res (kid_Decode (default [] kv.2));
                    mret (kids ++ [r.1])) kids outs
              end) [] activeChannels
        end
    end) db.

Fixpoint take_below {A} (upper : bytes) (l : list (bytes * A)) : list (bytes * A) :=
  match l with
  | [] => []
  | (k, a) :: l =>
      if bool_decide (bytes_compare k upper <> Gt) && (length k =? 4)%nat
      then (k, a) :: take_below upper l else []
  end.

Definition HeightsBelowOrEqual (height : Z) (db : bucket) : res (list Z) :=
  View (
    chainBucket ← b_Bucket [] (ns_pfxChainKey ns);
    match chainBucket with
    | None => mret []
    | Some chainBucket =>
        hghtIndex ← b_Bucket chainBucket heightIndexKey;
        match hghtIndex with
        | None => mret []
        | Some hghtIndex =>
            es ← b_entries hghtIndex;
            mret (map (fun kv => get_be kv.1)
                      (take_below (put_be 4 height) (seek (zeros 4) es)))
        end
    end) db.

Definition ForChanOutputs {S} (chanPoint : OutPoint)
    (callback : S -> bytes -> option bytes -> TX S) (s : S) (db : bucket) : res S :=
  View (forChanOutputs chanPoint callback s) db.

Definition ListChannels (db : bucket) : res (list OutPoint) :=
  View (
    chainBucket ← b_Bucket [] (ns_pfxChainKey ns);
    match chainBucket with
    | None => mret []
    | Some chainBucket =>
        chanIndex ← b_Bucket chainBucket channelIndexKey;
        match chanIndex with
        | None => mret []
        | Some chanIndex =>
            es ← b_entries chanIndex;
            tx_foldl (fun activeChannels (kv : bytes * option bytes) =>
              r ← tx_res (readOutpoint kv.1);
              mret (activeChannels ++ [r.1])) [] es
        end
    end) db.

Definition IsMatureChannel (chanPoint : OutPoint) (db : bucket) : res bool :=
  match View (forChanOutputs chanPoint (fun _ pfxKey _ =>
                if has_prefix gradPrefix pfxKey then mret tt
                else tx_fail ErrImmatureChannel) tt) db with
  | Ok _ => Ok true
  | Err e => if decide (e = ErrImmatureChannel) then Ok false else Err e
  end.

Definition RemoveChannel (chanPoint : OutPoint) : bucket -> res () * bucket :=
  Update (
    chainBucket ← b_Bucket [] (ns_pfxChainKey ns);
    match chainBucket with
    | None => mret tt
    | Some chainBucket =>
        chanIndex ← b_Bucket chainBucket channelIndexKey;
        match chanIndex with
        | None => mret tt
        | Some chanIndex =>
            let chanBytes := writeOutpoint chanPoint in
            _ ← forChanOutputs chanPoint (fun _ k v =>
                  if has_prefix gradPrefix k then
                    r ← tx_res (kid_Decode (default [] v));
                    hghtBucket ← getHeightBucket (maturity r.1);
                    match hghtBucket with
                    | None => mret tt
                    | Some hghtBucket => removeBucketIfExists hghtBucket chanBytes
                    end
                  else tx_fail ErrImmatureChannel) tt;
            removeBucketIfExists chanIndex chanBytes
        end
    end).

Definition LastFinalizedHeight (db : bucket) : res Z := View getLastFinalizedHeight db.
Definition LastGraduatedHeight (db : bucket) : res Z := View getLastGraduatedHeight db.

End NurseryStore.
