(* ===== verification/NurseryAbs.v ===== *)
(** * The abstract nursery and its representation in bolt

    The abstract state of the nursery store is one finite map from locations to
    items.  A location is an output of a channel in one of the four states, a
    mark in the height index, the finalized transaction of a height or one of
    the two recorded heights; it determines the bucket and the key the item is
    stored under.  [nrel] says that the buckets of the database below the chain
    key hold exactly the items of the map. *)

From Stdlib Require Import ZArith Lia Sorted.
From Stdlib Require Import Init.Byte.
From stdpp Require Import base list gmap countable strings numbers.
From S2P Require Import Prelude Stream Tx Outputs Bolt NurseryStore.
Local Open Scope Z_scope.

(** ** Locations *)

Inductive oclass := Crib | Pscl | Kndr | Grad.

Inductive loc :=
| LOut (cp : OutPoint) (c : oclass) (op : OutPoint)
| LIdx (h : Z) (cp : OutPoint) (c : oclass) (op : OutPoint)
| LFinal (h : Z)
| LLastF
| LLastG.

#[global] Instance oclass_eq_dec : EqDecision oclass.
Proof. solve_decision. Defined.
#[global] Instance oclass_countable : Countable oclass.
Proof.
  refine (inj_countable'
    (fun c => match c with Crib => (false, false) | Pscl => (false, true)
                         | Kndr => (true, false) | Grad => (true, true) end)
    (fun p => match p with (false, false) => Crib | (false, true) => Pscl
                         | (true, false) => Kndr | (true, true) => Grad end) _).
  by intros [].
Defined.
#[global] Instance loc_eq_dec : EqDecision loc.
Proof. solve_decision. Defined.
#[global] Program Instance loc_countable : Countable loc :=
  inj_countable'
    (fun l => match l with
              | LOut cp c op => inl (inl (cp, c, op))
              | LIdx h cp c op => inl (inr (h, cp, c, op))
              | LFinal h => inr (inl h)
              | LLastF => inr (inr true)
              | LLastG => inr (inr false)
              end)
    (fun x => match x with
              | inl (inl (cp, c, op)) => LOut cp c op
              | inl (inr (h, cp, c, op)) => LIdx h cp c op
              | inr (inl h) => LFinal h
              | inr (inr true) => LLastF
              | inr (inr false) => LLastG
              end) _.
Next Obligation. by intros []. Qed.

Definition class_prefix (c : oclass) : bytes :=
  match c with Crib => cribPrefix | Pscl => psclPrefix | Kndr => kndrPrefix | Grad => gradPrefix end.

Definition out_key (c : oclass) (op : OutPoint) : bytes := prefixOutputKey (class_prefix c) op.

Definition loc_dir (l : loc) : path :=
  match l with
  | LOut cp _ _ => [channelIndexKey; writeOutpoint cp]
  | LIdx h cp _ _ => [heightIndexKey; put_be 4 h; writeOutpoint cp]
  | LFinal h => [heightIndexKey; put_be 4 h]
  | LLastF | LLastG => []
  end.

Definition loc_key (l : loc) : bytes :=
  match l with
  | LOut _ c op | LIdx _ _ c op => out_key c op
  | LFinal _ => finalizedKndrTxnKey
  | LLastF => lastFinalizedHeightKey
  | LLastG => lastGraduatedHeightKey
  end.

Definition loc_ok (l : loc) : Prop :=
  match l with
  | LOut cp _ op => OutPoint_ok cp /\ OutPoint_ok op
  | LIdx h cp _ op => is_u32 h /\ OutPoint_ok cp /\ OutPoint_ok op
  | LFinal h => is_u32 h
  | LLastF | LLastG => True
  end.

Lemma put_be4_inj a b : is_u32 a -> is_u32 b -> put_be 4 a = put_be 4 b -> a = b.
Proof. apply (put_be_inj 4). Qed.

Lemma cons_eq {A} (x y : A) l k : x :: l = y :: k -> x = y /\ l = k.
Proof. by intros [= -> ->]. Qed.

(** Split an equation between paths without computing the names in it. *)
Ltac path_inv :=
  repeat match goal with
  | H : _ :: _ = _ :: _ |- _ => apply cons_eq in H as [? ?]
  | H : [] = _ :: _ |- _ => discriminate H
  | H : _ :: _ = [] |- _ => discriminate H
  | H : channelIndexKey = heightIndexKey |- _ => discriminate H
  | H : heightIndexKey = channelIndexKey |- _ => discriminate H
  | H : writeOutpoint ?a = writeOutpoint ?b |- _ =>
      apply writeOutpoint_inj in H; [subst|done..]
  | H : put_be 4 ?a = put_be 4 ?b |- _ => apply put_be4_inj in H; [subst|done..]
  end.

(** Distinct locations are stored in distinct places. *)
Lemma out_key_inj c c' op op' :
  OutPoint_ok op -> OutPoint_ok op' -> out_key c op = out_key c' op' -> c = c' /\ op = op'.
Proof.
  intros Ho Ho' E. apply app_inj_1 in E as [Ec Eo]; [|by destruct c, c'].
  apply writeOutpoint_inj in Eo as ->; [|done..]. split; [|done].
  destruct c, c'; try reflexivity; vm_compute in Ec; discriminate Ec.
Qed.

Lemma out_key_length c op : OutPoint_ok op -> length (out_key c op) = 41%nat.
Proof.
  intros H. unfold out_key, prefixOutputKey. rewrite length_app, writeOutpoint_length by done.
  by destruct c.
Qed.

Lemma out_key_prefix c c' op : has_prefix (class_prefix c) (out_key c' op) = bool_decide (c = c').
Proof. by destruct c, c'. Qed.

Lemma copy_prefix_key c c' op : copy_prefix (class_prefix c') (out_key c op) = out_key c' op.
Proof.
  assert (length (class_prefix c) = 4%nat) as Hc by (by destruct c).
  assert (length (class_prefix c') = 4%nat) as Hc' by (by destruct c').
  unfold copy_prefix, out_key, prefixOutputKey.
  rewrite take_ge by (rewrite length_app; lia). by rewrite Hc', <- Hc, drop_app_length.
Qed.

Lemma loc_inj l l' :
  loc_ok l -> loc_ok l' -> loc_dir l = loc_dir l' -> loc_key l = loc_key l' -> l = l'.
Proof.
  destruct l, l'; simpl; intros Hl Hl' Hd Hk; try done; destruct_and?;
    try (apply out_key_inj in Hk as [-> ->]; [|done..]); by path_inv.
Qed.

(** No bucket has the name of a value. *)
Lemma loc_key_not_dir l l' :
  loc_ok l -> loc_ok l' -> ~ (loc_dir l ++ [loc_key l]) `prefix_of` loc_dir l'.
Proof.
  intros Hl Hl' [q E].
  assert (forall cp, OutPoint_ok cp -> writeOutpoint cp <> finalizedKndrTxnKey) as Hw.
  { intros cp Hcp Ew. apply (f_equal length) in Ew. by rewrite writeOutpoint_length in Ew. }
  destruct l, l'; simpl in *; destruct_and?; path_inv; try done; by match goal with H : writeOutpoint _ = _ |- _ => apply Hw in H end.
Qed.

(** ** Items *)

Section NurseryAbs.
Context {BTC : Btcec}.

Inductive item :=
| IBaby (b : babyOutput)
| IKid (k : kidOutput)
| IMark
| ITx (t : MsgTx)
| IHeight (h : Z).

Definition item_enc (i : item) : bytes :=
  match i with
  | IBaby b => baby_Encode b
  | IKid k => kid_Encode k
  | IMark => []
  | ITx t => Serialize t
  | IHeight h => put_be 4 h
  end.

Definition item_ok (i : item) : Prop :=
  Z.of_nat (length (item_enc i)) <= MaxValueSize
  /\ match i with
     | IBaby b => babyOutput_ok b
     | IKid k => kidOutput_ok k
     | IMark => True
     | ITx t => MsgTx_ok t
     | IHeight h => is_u32 h
     end.

#[global] Instance item_ok_dec i : Decision (item_ok i).
Proof. unfold item_ok, is_u32. destruct i; apply _. Defined.

Implicit Types (st : gmap loc item) (X : path -> Prop) (db : bucket).

(** ** The representation relation

    The buckets of the nursery are those on the way to an item, the three that
    are never removed, and, in the middle of an operation, those in [X].  The
    parameter [db0] is the database the transaction started from: everything
    outside the nursery's own bucket is as it was there. *)

Variable ns : nurseryStore.
Local Abbreviation pfx := (ns_pfxChainKey ns).

Definition nframe (db0 db : bucket) : Prop :=
  (forall n p k, n <> pfx -> obs db (n :: p) k = obs db0 (n :: p) k
                             /\ has db (n :: p) = has db0 (n :: p))
  /\ forall k, obs db [] k = obs db0 [] k.

Definition skel (p : path) : Prop := p = [] \/ p = [channelIndexKey] \/ p = [heightIndexKey].

Record nrel (db0 : bucket) (X : path -> Prop) (st : gmap loc item) (db : bucket) : Prop := {
  nr_pfx : pfx <> [];
  nr_wf : bkt_wf db;
  nr_root : obs db [] pfx = None;
  nr_ok l i : st !! l = Some i -> loc_ok l /\ item_ok i;
  nr_obs l : loc_ok l -> obs db (pfx :: loc_dir l) (loc_key l) = item_enc <$> st !! l;
  nr_only p k v : obs db (pfx :: p) k = Some v ->
    exists l, loc_ok l /\ p = loc_dir l /\ k = loc_key l;
  nr_dirs p : has db (pfx :: p) = true ->
    exists l, loc_ok l /\ p `prefix_of` loc_dir l /\ (skel p \/ X p \/ is_Some (st !! l));
  nr_extra p : X p -> has db (pfx :: p) = true;
  nr_frame : nframe db0 db
}.

Definition no_extra : path -> Prop := fun _ => False.

(** The database [db] represents the abstract state [st]. *)
Definition represents (db : bucket) (st : gmap loc item) : Prop := nrel db no_extra st db.

Lemma nframe_refl db : nframe db db.
Proof. by split. Qed.

(** The bucket at [p] lies on the way to an item. *)
Definition justified (st : gmap loc item) (p : path) : Prop :=
  exists l, is_Some (st !! l) /\ p `prefix_of` loc_dir l.

Lemma nrel_justified db0 X st db p : nrel db0 X st db -> justified st p -> has db (pfx :: p) = true.
Proof.
  intros H (l & [i Hi] & [q Hq]). pose proof (nr_ok _ _ _ _ H _ _ Hi) as [Hl _].
  pose proof (nr_obs _ _ _ _ H l Hl) as Ho. rewrite Hi in Ho. apply obs_has in Ho.
  rewrite Hq in Ho. by apply (has_prefix_path (_ :: p) q).
Qed.

Lemma nrel_weaken db0 X X' st db :
  (forall p, X p -> X' p \/ skel p \/ justified st p) ->
  (forall p, X' p -> X p \/ justified st p) ->
  nrel db0 X st db -> nrel db0 X' st db.
Proof.
  intros HX HX' H. pose proof H as [? ? ? Hok ? ? Hd Hx ?]. constructor; auto.
  - intros p Hp. destruct (Hd p Hp) as (l & Hl & Hpl & [Hs|[HXp|Hsome]]); eauto 10.
    destruct (HX p HXp) as [?|[?|(l' & [i ?] & ?)]]; [by eauto 10..|].
    exists l'. destruct (Hok l' i); eauto 10.
  - intros p Hp. destruct (HX' p Hp); [auto|]. by eapply nrel_justified.
Qed.

Lemma nrel_created db0 X st db db' p l :
  loc_ok l -> p `prefix_of` loc_dir l -> created db db' (pfx :: p) ->
  nrel db0 X st db -> nrel db0 (fun q => X q \/ q = p) st db'.
Proof.
  intros Hl Hp (Co & Ch & Cw) [? ? Hr ? Ho Hn Hd Hx [Hf Hf']]. constructor; auto.
  - by rewrite Co.
  - intros l' Hl'. rewrite Co. auto.
  - intros q k v. rewrite Co. apply Hn.
  - intros q. rewrite Ch. intros [Hq|Hq]%orb_true_iff.
    + destruct (Hd q Hq) as (l' & ? & ? & [|[|]]); eauto 10.
    + apply bool_decide_eq_true in Hq as [= ->]. eauto 10.
  - intros q Hq. rewrite Ch. destruct Hq as [Hq| ->]; [by rewrite Hx|].
    by rewrite bool_decide_eq_true_2, orb_true_r.
  - split; [|intros k; rewrite Co; apply Hf']. intros n q k Hne. rewrite Co, Ch.
    rewrite bool_decide_eq_false_2 by congruence. rewrite orb_false_r. auto.
Qed.

Lemma nrel_put db0 X st db db' l i :
  loc_ok l -> item_ok i -> stored db db' (pfx :: loc_dir l) (loc_key l) (item_enc i) ->
  nrel db0 X st db ->
  nrel db0 (fun q => X q /\ ~ q `prefix_of` loc_dir l) (<[l := i]> st) db'.
Proof.
  intros Hl Hi (So & Sh & Sw) [? ? Hr Hok Ho Hn Hd Hx [Hf Hf']]. constructor; auto.
  - by rewrite So.
  - intros l' i'. rewrite lookup_insert. destruct (decide (l = l')) as [<-|]; [|apply Hok].
    by intros [= <-].
  - intros l' Hl'. rewrite So, lookup_insert. destruct (decide (l = l')) as [<-|Hne].
    + by rewrite decide_True.
    + rewrite decide_False; [auto|]. intros [[= Ed] Ek]. by destruct Hne; apply loc_inj.
  - intros q k v. rewrite So. destruct (decide _) as [[[= ->] ->]|]; eauto.
  - intros q. rewrite Sh. intros Hq. destruct (Hd q Hq) as (l' & Hl' & Hp & Hc).
    destruct (decide (q `prefix_of` loc_dir l)) as [Hql|Hql].
    + exists l. split; [done|]. split; [done|]. right. right. by rewrite lookup_insert_eq.
    + exists l'. split; [done|]. split; [done|]. destruct Hc as [|[|Hs]]; auto.
      right; right. rewrite lookup_insert. by destruct (decide _).
  - intros q [Hq _]. rewrite Sh. auto.
  - split; [|intros k; rewrite So, decide_False by (by intros [? _]); apply Hf'].
    intros n q k Hne. rewrite So, Sh.
    rewrite decide_False by (intros [E _]; by apply cons_eq in E as [E _]). auto.
Qed.

Lemma nrel_del db0 X st db db' l :
  loc_ok l -> deleted db db' (pfx :: loc_dir l) (loc_key l) ->
  nrel db0 X st db ->
  nrel db0 (fun q => X q \/ (q `prefix_of` loc_dir l /\ is_Some (st !! l))) (delete l st) db'.
Proof.
  intros Hl (So & Sh & Sw) H. pose proof H as [? ? Hr Hok Ho Hn Hd Hx [Hf Hf']]. constructor; auto.
  - by rewrite So.
  - intros l' i'. rewrite lookup_delete. destruct (decide (l = l')) as [<-|]; [done|]. apply Hok.
  - intros l' Hl'. rewrite So, lookup_delete. destruct (decide (l = l')) as [<-|Hne].
    + by rewrite decide_True.
    + rewrite decide_False; [auto|]. intros [[= Ed] Ek]. by destruct Hne; apply loc_inj.
  - intros q k v. rewrite So. destruct (decide _) as [[[= ->] ->]|]; eauto.
  - intros q. rewrite Sh. intros Hq. destruct (Hd q Hq) as (l' & Hl' & Hp & Hc).
    exists l'. split; [done|]. split; [done|]. destruct Hc as [|[|Hs]]; auto.
    rewrite lookup_delete. destruct (decide (l = l')) as [<-|]; eauto.
  - intros q Hq. rewrite Sh. destruct Hq as [Hq|[Hq Hs]]; [auto|].
    eapply nrel_justified; [done|]. by exists l.
  - split; [|intros k; rewrite So, decide_False by (by intros [? _]); apply Hf'].
    intros n q k Hne. rewrite So, Sh.
    rewrite decide_False by (intros [E _]; by apply cons_eq in E as [E _]). auto.
Qed.

Lemma nrel_drop db0 X st st' db db' p :
  has db (pfx :: p) = true -> dropped db db' (pfx :: p) ->
  (forall l i, st' !! l = Some i <-> st !! l = Some i /\ ~ p `prefix_of` loc_dir l) ->
  nrel db0 X st db ->
  nrel db0 (fun q => (X q /\ ~ p `prefix_of` q) \/ (q `prefix_of` p /\ q <> p)) st' db'.
Proof.
  intros Hhas (So & Sh & Sw) Hst [? ? Hr Hok Ho Hn Hd Hx [Hf Hf']].
  assert (forall q, strip (pfx :: p) (pfx :: q) = strip p q) as Hs.
  { intros q. simpl. by rewrite decide_True. }
  assert (forall q, strip p q = None <-> ~ p `prefix_of` q) as Hsp.
  { intros q. split.
    - intros E [r ->]. by rewrite strip_app in E.
    - intros H. destruct (strip p q) as [r|] eqn:E; [|done]. destruct H. exists r. by apply strip_Some. }
  constructor; auto.
  - by rewrite So.
  - intros l i [H _]%Hst. eauto.
  - intros l Hl. rewrite So, Hs. destruct (strip p (loc_dir l)) as [r|] eqn:E.
    + destruct (st' !! l) as [i|] eqn:E'; [|done]. apply Hst in E' as [_ E']. by apply Hsp in E'; rewrite E' in E.
    + rewrite Ho by done. f_equal. apply Hsp in E. apply option_eq. intros i. rewrite Hst. naive_solver.
  - intros q k v. rewrite So, Hs. destruct (strip p q); [done|]. apply Hn.
  - intros q. rewrite Sh, Hs. destruct (strip p q) as [r|] eqn:E; [done|]. intros Hq.
    apply Hsp in E.
    destruct (Hd q Hq) as (l' & Hl' & Hp & Hc).
    destruct Hc as [|[|Hsome]]; [by eauto 10..|].
    exists l'. split; [done|]. split; [done|].
    destruct (decide (p `prefix_of` loc_dir l')) as [Hpl|Hpl].
    + right. left. right.
      destruct (prefix_weak_total q p (loc_dir l')) as [|]; [done..| |done].
      split; [done|]. by intros ->.
    + right. right. destruct Hsome as [i Hi]. exists i. by apply Hst.
  - intros q Hq. rewrite Sh, Hs. destruct Hq as [[Hq Hpq]|[[r ->] Hpq]].
    + apply Hsp in Hpq as ->. auto.
    + rewrite (proj2 (Hsp q)); [by apply (has_prefix_path (_ :: q) r)|].
      intros Hp. apply Hpq. apply prefix_length_eq; [by exists r|]. by apply prefix_length.
  - split; [|intros k; rewrite So; apply Hf']. intros n q k Hne. rewrite So, Sh.
    simpl. rewrite decide_False by congruence. auto.
Qed.
(** ** Rules for the store's helpers *)

Lemma nrel_obs_at db0 X st db l i :
  nrel db0 X st db -> st !! l = Some i -> obs db (pfx :: loc_dir l) (loc_key l) = Some (item_enc i).
Proof.
  intros H Hi. destruct (nr_ok _ _ _ _ H _ _ Hi) as [Hl _].
  by rewrite (nr_obs _ _ _ _ H _ Hl), Hi.
Qed.

Lemma nrel_obs_inv db0 X st db p k v :
  nrel db0 X st db -> obs db (pfx :: p) k = Some v ->
  exists l i, st !! l = Some i /\ loc_ok l /\ p = loc_dir l /\ k = loc_key l /\ v = item_enc i.
Proof.
  intros H Ho. destruct (nr_only _ _ _ _ H _ _ _ Ho) as (l & Hl & -> & ->).
  rewrite (nr_obs _ _ _ _ H l Hl) in Ho. destruct (st !! l) as [i|] eqn:E; simplify_eq/=.
  by exists l, i.
Qed.

Lemma nrel_dir_no_value db0 X st db p name l :
  nrel db0 X st db -> loc_ok l -> (p ++ [name]) `prefix_of` loc_dir l ->
  obs db (pfx :: p) name = None.
Proof.
  intros H Hl Hp. destruct (obs _ _ _) as [v|] eqn:E; [|done].
  destruct (nr_only _ _ _ _ H _ _ _ E) as (l' & Hl' & -> & ->).
  by destruct (loc_key_not_dir l' l).
Qed.

Lemma nrel_key_no_bucket db0 X st db l :
  nrel db0 X st db -> loc_ok l -> has db ((pfx :: loc_dir l) ++ [loc_key l]) = false.
Proof.
  intros H Hl. destruct (has _ _) eqn:E; [|done].
  destruct (nr_dirs _ _ _ _ H _ E) as (l' & Hl' & Hp & _).
  by destruct (loc_key_not_dir l l').
Qed.

Lemma loc_key_size l : loc_ok l -> 0 < Z.of_nat (length (loc_key l)) <= MaxKeySize.
Proof.
  destruct l; simpl; intros; destruct_and?; rewrite ?out_key_length by done; vm_compute; by split.
Qed.

Lemma wp_nput db0 X st db l i Q :
  nrel db0 X st db -> loc_ok l -> item_ok i -> has db (pfx :: loc_dir l) = true ->
  (forall db', nrel db0 (fun q => X q /\ ~ q `prefix_of` loc_dir l) (<[l := i]> st) db' ->
     (forall q, has db' q = has db q) -> Q tt db') ->
  wp (b_Put (pfx :: loc_dir l) (loc_key l) (item_enc i)) Q db.
Proof.
  intros H Hl Hi Hh HQ. apply wp_Put; [done|by eapply nrel_key_no_bucket|by apply loc_key_size|apply Hi|].
  intros db' S. apply HQ; [by eapply nrel_put|apply S].
Qed.

Lemma wp_ndel db0 X st db l Q :
  nrel db0 X st db -> loc_ok l -> has db (pfx :: loc_dir l) = true ->
  (forall db', nrel db0 (fun q => X q \/ (q `prefix_of` loc_dir l /\ is_Some (st !! l)))
                 (delete l st) db' -> (forall q, has db' q = has db q) -> Q tt db') ->
  wp (b_Delete (pfx :: loc_dir l) (loc_key l)) Q db.
Proof.
  intros H Hl Hh HQ. apply wp_Delete; [done|by eapply nrel_key_no_bucket|].
  intros db' D. apply HQ; [by eapply nrel_del|apply D].
Qed.

Lemma wp_nget db0 X st db l Q :
  nrel db0 X st db -> loc_ok l -> Q (item_enc <$> st !! l) db ->
  wp (b_Get (pfx :: loc_dir l) (loc_key l)) Q db.
Proof. intros H Hl HQ. apply wp_Get. by rewrite (nr_obs _ _ _ _ H). Qed.

Lemma wp_create_root db0 X st db Q :
  nrel db0 X st db ->
  (forall db', nrel db0 X st db' -> has db' [pfx] = true ->
     (forall q, has db q = true -> has db' q = true) -> Q [pfx] db') ->
  wp (b_CreateBucketIfNotExists [] pfx) Q db.
Proof.
  intros H HQ. apply wp_CreateBucketIfNotExists; [done|apply H|apply H|].
  intros db' C. pose proof C as (_ & Ch & _). apply HQ.
  - eapply nrel_weaken; [| |eapply (nrel_created _ _ _ _ _ [] LLastF)]; [..|done|done|done|done].
    + intros p [?| ->]; [by left|]. right; left. by left.
    + by left; left.
  - rewrite Ch. by rewrite bool_decide_eq_true_2, orb_true_r.
  - intros q Hq. by rewrite Ch, Hq.
Qed.

Lemma wp_create_step db0 X st db p name l Q :
  nrel db0 X st db -> loc_ok l -> (p ++ [name]) `prefix_of` loc_dir l ->
  has db (pfx :: p) = true -> name <> [] ->
  (forall db', nrel db0 (fun q => X q \/ q = p ++ [name]) st db' ->
     (forall q, has db q = true -> has db' q = true) -> Q (pfx :: p ++ [name]) db') ->
  wp (b_CreateBucketIfNotExists (pfx :: p) name) Q db.
Proof.
  intros H Hl Hp Hh Hn HQ. apply wp_CreateBucketIfNotExists; [done|done|by eapply nrel_dir_no_value|].
  intros db' C. pose proof C as (_ & Ch & _). apply HQ; [by eapply nrel_created|].
  intros q Hq. by rewrite Ch, Hq.
Qed.

Lemma writeOutpoint_nonempty cp : OutPoint_ok cp -> writeOutpoint cp <> [].
Proof. intros H E. apply (f_equal length) in E. by rewrite writeOutpoint_length in E. Qed.

Lemma put_be4_nonempty h : put_be 4 h <> [].
Proof. intros E. apply (f_equal length) in E. by rewrite put_be_length in E. Qed.

Definition chan_dir (cp : OutPoint) : path := [channelIndexKey; writeOutpoint cp].
Definition height_dir (h : Z) : path := [heightIndexKey; put_be 4 h].
Definition hchan_dir (h : Z) (cp : OutPoint) : path := [heightIndexKey; put_be 4 h; writeOutpoint cp].

Lemma wp_createChannelBucket db0 X st db cp Q :
  nrel db0 X st db -> OutPoint_ok cp ->
  (forall db', nrel db0 (fun q => X q \/ q = chan_dir cp) st db' ->
     (forall q, has db q = true -> has db' q = true) -> Q (pfx :: chan_dir cp) db') ->
  wp (createChannelBucket ns cp) Q db.
Proof.
  intros H Hcp HQ. assert (loc_ok (LOut cp Crib cp)) as Hl by done.
  apply wp_bind. eapply wp_create_root; [done|]. intros db1 H1 Hh1 M1.
  apply wp_bind. apply (wp_create_step _ _ _ _ [] channelIndexKey _ _ H1 Hl); [by eexists|done|done|].
  intros db2 H2 M2. simpl.
  apply (wp_create_step _ _ _ _ [channelIndexKey] (writeOutpoint cp) _ _ H2 Hl); [by eexists| | |].
  - apply H2. by right.
  - by apply writeOutpoint_nonempty.
  - intros db3 H3 M3. apply HQ; [|auto]. eapply nrel_weaken; [| |exact H3].
    + intros p [[?| ->]| ->]; [by left; left| |by left; right]. right; left. by right; left.
    + intros p [?| ->]; [by left; left; left|]. by left; right.
Qed.

Lemma wp_createHeightChanBucket db0 X st db h cp Q :
  nrel db0 X st db -> is_u32 h -> OutPoint_ok cp ->
  (forall db', nrel db0 (fun q => X q \/ q = height_dir h \/ q = hchan_dir h cp) st db' ->
     (forall q, has db q = true -> has db' q = true) -> Q (pfx :: hchan_dir h cp) db') ->
  wp (createHeightChanBucket ns h cp) Q db.
Proof.
  intros H Hh Hcp HQ. assert (loc_ok (LIdx h cp Crib cp)) as Hl by done.
  apply wp_bind, wp_bind. eapply wp_create_root; [done|]. intros db1 H1 Hh1 M1.
  apply wp_bind. apply (wp_create_step _ _ _ _ [] heightIndexKey _ _ H1 Hl); [by eexists|done|done|].
  intros db2 H2 M2. simpl.
  apply (wp_create_step _ _ _ _ [heightIndexKey] (put_be 4 h) _ _ H2 Hl); [by eexists| | |].
  { apply H2. by right. }
  { apply put_be4_nonempty. }
  intros db3 H3 M3.
  apply (wp_create_step _ _ _ _ [heightIndexKey; put_be 4 h] (writeOutpoint cp) _ _ H3 Hl); [by eexists| | |].
  { apply H3. by right. }
  { by apply writeOutpoint_nonempty. }
  intros db4 H4 M4. apply HQ; [|auto]. eapply nrel_weaken; [| |exact H4].
  - intros p [[[?| ->]| ->]| ->]; [by left; left| |by left; right; left|by left; right; right].
    right; left. by right; right.
  - intros p [?|[->| ->]]; [by left; left; left; left|by left; left; right|by left; right].
Qed.

(** The lookups walk down the path and give up at the first missing bucket. *)
Lemma has_cons_false (db : bucket) p q : has db p = false -> has db (p ++ q) = false.
Proof.
  intros H. destruct (has db (p ++ q)) eqn:E; [|done]. apply has_prefix_path in E. congruence.
Qed.

Definition handle (db : bucket) (p : path) : option path := if has db p then Some p else None.

Lemma wp_getChannelBucket db cp Q :
  Q (handle db (pfx :: chan_dir cp)) db -> wp (getChannelBucket ns cp) Q db.
Proof.
  intros HQ. apply wp_bind, wp_Bucket. simpl. destruct (has db [pfx]) eqn:E1.
  2: { apply wp_ret. unfold handle in HQ.
       by rewrite (has_cons_false db [pfx] (chan_dir cp) E1 : has db (pfx :: chan_dir cp) = false) in HQ. }
  apply wp_bind, wp_Bucket. simpl. destruct (has db [pfx; channelIndexKey]) eqn:E2.
  2: { apply wp_ret. unfold handle in HQ.
       by rewrite (has_cons_false db [pfx; channelIndexKey] [writeOutpoint cp] E2
              : has db (pfx :: chan_dir cp) = false) in HQ. }
  by apply wp_Bucket.
Qed.

Lemma wp_getHeightBucketPath db h Q :
  (if has db (pfx :: height_dir h) then
     Q (Some [pfx], Some [pfx; heightIndexKey], Some (pfx :: height_dir h)) db
   else forall a b, Q (a, b, None) db) ->
  wp (getHeightBucketPath ns h) Q db.
Proof.
  intros HQ. apply wp_bind, wp_Bucket. simpl. destruct (has db [pfx]) eqn:E1.
  2: { apply wp_ret. by rewrite (has_cons_false db [pfx] (height_dir h) E1 : has db (pfx :: height_dir h) = false) in HQ. }
  apply wp_bind, wp_Bucket. simpl. destruct (has db [pfx; heightIndexKey]) eqn:E2.
  2: { apply wp_ret.
       by rewrite (has_cons_false db [pfx; heightIndexKey] [put_be 4 h] E2
              : has db (pfx :: height_dir h) = false) in HQ. }
  apply wp_bind, wp_Bucket. simpl. unfold height_dir in HQ.
  by destruct (has db [pfx; heightIndexKey; put_be 4 h]); apply wp_ret.
Qed.

Lemma wp_getHeightBucket db h Q :
  Q (handle db (pfx :: height_dir h)) db -> wp (getHeightBucket ns h) Q db.
Proof.
  intros HQ. apply wp_bind, wp_getHeightBucketPath. unfold handle in HQ.
  destruct (has _ _); [by apply wp_ret|]. intros a b. by apply wp_ret.
Qed.

Lemma wp_getHeightChanBucket db h cp Q :
  Q (handle db (pfx :: hchan_dir h cp)) db -> wp (getHeightChanBucket ns h cp) Q db.
Proof.
  intros HQ. apply wp_bind, wp_getHeightBucket. unfold handle.
  destruct (has db (pfx :: height_dir h)) eqn:E; [by apply wp_Bucket|].
  apply wp_ret. unfold handle in HQ.
  by rewrite (has_cons_false db (pfx :: height_dir h) [writeOutpoint cp] E
         : has db (pfx :: hchan_dir h cp) = false) in HQ.
Qed.

End NurseryAbs.
