(* ===== verification/NurseryRefine.v ===== *)
(** * The nursery store implements the abstract nursery

    The effect of every operation of nursery_store.go on the abstract state,
    proved against the representation relation of [NurseryAbs]. *)

From Stdlib Require Import ZArith Lia Sorted.
From Stdlib Require Import Init.Byte.
From stdpp Require Import base gmap countable strings numbers list.
From S2P Require Import Prelude Stream Tx Outputs Bolt NurseryStore NurseryAbs.
Local Open Scope Z_scope.

Section NurseryRefine.
Context {BTC : Btcec} (ns : nurseryStore).
Local Abbreviation pfx := (ns_pfxChainKey ns).
Implicit Types (st : gmap loc item) (X : path -> Prop) (db : bucket).

(** ** The abstract operations *)

Definition is_idx_at (h : Z) (l : loc) : bool :=
  match l with LIdx h' _ _ _ => bool_decide (h' = h) | _ => false end.

(** Some output is registered at height [h]. *)
Definition live (st : gmap loc item) (h : Z) : bool :=
  existsb (fun li => is_idx_at h li.1) (map_to_list st).

Definition a_enterPreschool (k : kidOutput) (st : gmap loc item) : gmap loc item :=
  let l := LOut (kid_originChanPoint k) Pscl (kid_OutPoint k) in
  match st !! l with Some _ => st | None => <[l := IKid k]> st end.

Definition a_enterCrib (b : babyOutput) (st : gmap loc item) : gmap loc item :=
  let cp := baby_originChanPoint b in
  let op := baby_OutPoint b in
  match st !! LOut cp Crib op with
  | Some _ => st
  | None => <[LIdx (baby_expiry b) cp Crib op := IMark]> (<[LOut cp Crib op := IBaby b]> st)
  end.

Definition a_Incubate (kids : list kidOutput) (babies : list babyOutput) (st : gmap loc item)
    : gmap loc item :=
  foldl (fun st b => a_enterCrib b st) (foldl (fun st k => a_enterPreschool k st) st kids) babies.

(** Take an output off the height index; the finalized transaction goes with
    the last output of its height. *)
Definition a_unindex (h : Z) (cp : OutPoint) (c : oclass) (op : OutPoint) (st : gmap loc item)
    : gmap loc item :=
  let st1 := delete (LIdx h cp c op) st in
  if live st1 h then st1 else delete (LFinal h) st1.

Definition a_CribToKinder (b : babyOutput) (st : gmap loc item) : gmap loc item :=
  let cp := baby_originChanPoint b in
  let op := baby_OutPoint b in
  let k := baby_kidOutput b in
  <[LIdx (maturity k) cp Kndr op := IMark]>
    (<[LOut cp Kndr op := IKid k]>
      (a_unindex (baby_expiry b) cp Crib op (delete (LOut cp Crib op) st))).

Definition lastGraduated (st : gmap loc item) : Z :=
  match st !! LLastG with Some (IHeight h) => h | _ => 0 end.

Definition lastFinalized (st : gmap loc item) : Z :=
  match st !! LLastF with Some (IHeight h) => h | _ => 0 end.

(** The height a preschool output is registered at when it is confirmed. *)
Definition kinder_height (k : kidOutput) (lastGrad : Z) : Z :=
  let m := if kid_blocksToMaturity k =? 0 then kid_absoluteMaturity k else maturity k in
  if m <=? lastGrad then u32 (lastGrad + 1) else m.

Definition a_PreschoolToKinder (k : kidOutput) (st : gmap loc item) : gmap loc item :=
  let cp := kid_originChanPoint k in
  let op := kid_OutPoint k in
  <[LIdx (kinder_height k (lastGraduated st)) cp Kndr op := IMark]>
    (<[LOut cp Kndr op := IKid k]> (delete (LOut cp Pscl op) st)).

Definition a_FinalizeKinder (h : Z) (finalTx : option MsgTx) (st : gmap loc item) : gmap loc item :=
  let st1 := <[LLastF := IHeight h]> st in
  match finalTx with
  | Some t => if live st h then <[LFinal h := ITx t]> st1 else st1
  | None => st1
  end.

Definition a_GraduateHeight (h : Z) (st : gmap loc item) : gmap loc item :=
  <[LLastG := IHeight h]> st.

(** One output of the class of height [h] graduates. *)
Definition a_graduateOutput (h : Z) (cp op : OutPoint) (st : gmap loc item) : gmap loc item :=
  match st !! LOut cp Kndr op with
  | Some i => <[LOut cp Grad op := i]> (delete (LOut cp Kndr op) (a_unindex h cp Kndr op st))
  | None => st
  end.

(** ** Lemmas on the abstract state *)

Lemma live_true st h : live st h = true <-> exists cp c op, is_Some (st !! LIdx h cp c op).
Proof.
  unfold live. rewrite existsb_exists. split.
  - intros ([l i] & Hin & Hl). apply list_elem_of_In, elem_of_map_to_list in Hin.
    destruct l; simpl in Hl; try done. apply bool_decide_eq_true in Hl as ->. eauto.
  - intros (cp & c & op & [i Hi]). exists (LIdx h cp c op, i). split.
    + by apply list_elem_of_In, elem_of_map_to_list.
    + simpl. by rewrite bool_decide_eq_true_2.
Qed.

Lemma live_false st h : live st h = false <-> forall cp c op, st !! LIdx h cp c op = None.
Proof.
  rewrite <- not_true_iff_false, live_true. split.
  - intros H cp c op. destruct (st !! _) eqn:E; [|done]. destruct H. eauto.
  - intros H (cp & c & op & [i Hi]). by rewrite H in Hi.
Qed.

(** A finalized transaction belongs to a height with outputs. *)
Definition final_live st : Prop := forall h, is_Some (st !! LFinal h) -> live st h = true.

Lemma hchan_prefix h cp l :
  is_u32 h -> OutPoint_ok cp -> loc_ok l -> hchan_dir h cp `prefix_of` loc_dir l ->
  exists c op, l = LIdx h cp c op.
Proof.
  intros Hh Hcp Hl [q E]. destruct l; simpl in *; destruct_and?; path_inv; eauto.
Qed.

Lemma height_prefix h l :
  is_u32 h -> loc_ok l -> height_dir h `prefix_of` loc_dir l ->
  l = LFinal h \/ exists cp c op, l = LIdx h cp c op.
Proof.
  intros Hh Hl [q E]. destruct l; simpl in *; destruct_and?; path_inv; eauto.
Qed.

Lemma prefix_hchan q h cp :
  q `prefix_of` hchan_dir h cp ->
  skel q \/ q = height_dir h \/ q = hchan_dir h cp.
Proof.
  intros [r E]. unfold hchan_dir, skel in *.
  destruct q as [|a [|b [|c [|d q]]]]; simpl in E; path_inv; subst; eauto.
Qed.

Lemma nrel_obs_idx db0 X st db h cp c op i :
  nrel ns db0 X st db -> st !! LIdx h cp c op = Some i ->
  obs db (pfx :: hchan_dir h cp) (out_key c op) = Some (item_enc i).
Proof. intros H Hi. by apply (nrel_obs_at _ _ _ _ _ _ _ H Hi). Qed.

Lemma nrel_obs_out db0 X st db cp c op i :
  nrel ns db0 X st db -> st !! LOut cp c op = Some i ->
  obs db (pfx :: chan_dir cp) (out_key c op) = Some (item_enc i).
Proof. intros H Hi. by apply (nrel_obs_at _ _ _ _ _ _ _ H Hi). Qed.

(** ** Emptiness *)

Lemma isBucketEmpty_cases db p :
  bkt_wf db -> has db p = true ->
  (isBucketEmpty p db = Ok (tt, db) /\ forall k, obs db p k = None /\ has db (p ++ [k]) = false)
  \/ (isBucketEmpty p db = Err errBucketNotEmpty
      /\ exists k, is_Some (obs db p k) \/ has db (p ++ [k]) = true).
Proof.
  intros Hwf Hh. pose proof Hh as [c Hc]%has_true.
  pose proof (lists_entries db p c Hwf Hc) as [H1 H2].
  unfold isBucketEmpty, b_ForEach, mbind, tx_bind, b_entries. rewrite Hc.
  destruct (map _ c) as [|[k v] es] eqn:E.
  - left. split; [done|]. intros k. split.
    + destruct (obs db p k) as [v|] eqn:O; [|done]. apply H1 in O. by apply not_elem_of_nil in O.
    + destruct (has db (p ++ [k])) eqn:O; [|done]. apply H2 in O. by apply not_elem_of_nil in O.
  - right. split; [done|]. exists k. destruct v as [v|].
    + left. exists v. apply H1. by left.
    + right. apply H2. by left.
Qed.

Lemma tx_iter_checks {A} (f : A -> TX ()) l db e :
  (forall a, a ∈ l -> f a db = Ok (tt, db) \/ f a db = Err e) ->
  (tx_iter f l db = Ok (tt, db) /\ forall a, a ∈ l -> f a db = Ok (tt, db))
  \/ (tx_iter f l db = Err e /\ exists a, a ∈ l /\ f a db = Err e).
Proof.
  induction l as [|a l IH]; intros H.
  - left. split; [done|]. intros a Ha. by apply not_elem_of_nil in Ha.
  - simpl. unfold mbind, tx_bind. destruct (H a) as [Ea|Ea]; [by left| |]; rewrite Ea.
    + destruct IH as [[Hok Hall]|[Herr (a' & ? & ?)]]; [intros; apply H; by right| |].
      * left. split; [done|]. intros a' [->|?]%elem_of_cons; auto.
      * right. split; [done|]. exists a'. split; [by right|done].
    + right. split; [done|]. exists a. split; [by left|done].
Qed.

(** Outside the extra buckets, a height-channel bucket holds an output. *)
Lemma hchan_nonempty db0 X st db h cp :
  nrel ns db0 X st db -> is_u32 h -> OutPoint_ok cp -> ~ X (hchan_dir h cp) ->
  has db (pfx :: hchan_dir h cp) = true -> exists c op, is_Some (st !! LIdx h cp c op).
Proof.
  intros H Hh Hcp HX Hhas. destruct (nr_dirs _ _ _ _ _ H _ Hhas) as (l & Hl & Hp & Hc).
  destruct Hc as [Hs|[?|Hs]]; [|done|].
  - unfold skel, hchan_dir in Hs. destruct Hs as [?|[?|?]]; path_inv.
  - apply hchan_prefix in Hp as (c & op & ->); eauto.
Qed.

(** The buckets below a height bucket are height-channel buckets. *)
Lemma height_child db0 X st db h k :
  nrel ns db0 X st db -> is_u32 h -> has db (pfx :: height_dir h ++ [k]) = true ->
  exists cp, OutPoint_ok cp /\ k = writeOutpoint cp.
Proof.
  intros H Hh Hhas. destruct (nr_dirs _ _ _ _ _ H _ Hhas) as (l & Hl & [q E] & _).
  destruct l; simpl in *; destruct_and?; path_inv; eauto.
Qed.

(** ** Pruning *)

(** Every height-channel bucket at [h] holds an output, so the check of
    [pruneHeight] fails exactly when the height is still live. *)
Lemma pruneHeight_check db0 X st db h es :
  nrel ns db0 X st db -> is_u32 h -> (forall cp, ~ X (hchan_dir h cp)) ->
  lists db (pfx :: height_dir h) es ->
  let check := fun (chanBytes : bytes) (v : option bytes) =>
    match v with
    | Some _ => mret tt
    | None =>
        hghtChanBucket ← b_Bucket (pfx :: height_dir h) chanBytes;
        match hghtChanBucket with
        | None => tx_fail (ErrNew "unable to find height-channel bucket")
        | Some hghtChanBucket => isBucketEmpty hghtChanBucket
        end
    end in
  tx_iter (fun kv => check kv.1 kv.2) es db
  = if live st h then Err errBucketNotEmpty else Ok (tt, db).
Proof.
  intros H Hh HX [Ho Hb] check.
  assert (forall k v, (k, v) ∈ es ->
            check k v db = match v with Some _ => Ok (tt, db) | None => Err errBucketNotEmpty end) as Hck.
  { intros k [v|] Hin; [done|]. apply Hb in Hin as Hhas. simpl.
    unfold mbind, tx_bind, b_Bucket. pose proof Hhas as [c Hc]%has_true. rewrite Hc.
    destruct (height_child _ _ _ _ _ _ H Hh Hhas) as (cp & Hcp & ->).
    destruct (hchan_nonempty _ _ _ _ _ _ H Hh Hcp (HX cp) Hhas) as (c' & op & [i Hi]).
    destruct (isBucketEmpty_cases db _ (nr_wf _ _ _ _ _ H) Hhas) as [[_ He]|[-> _]]; [|done].
    destruct (He (out_key c' op)) as [He' _].
    change (obs db (pfx :: hchan_dir h cp) (out_key c' op) = None) in He'.
    by rewrite (nrel_obs_idx _ _ _ _ _ _ _ _ _ H Hi) in He'. }
  destruct (tx_iter_checks (fun kv => check kv.1 kv.2) es db errBucketNotEmpty)
    as [[-> Hall]|[-> ([k v] & Hin & He)]].
  - intros [k v] Hin. cbn [fst snd]. rewrite (Hck k v Hin). destruct v; auto.
  - destruct (live st h) eqn:L; [|done]. apply live_true in L as (cp & c & op & Hs).
    assert (has db ((pfx :: height_dir h) ++ [writeOutpoint cp]) = true) as Hin%Hb.
    { eapply (nrel_justified _ _ _ _ _ (hchan_dir h cp) H). exists (LIdx h cp c op). split; [done|]. by exists []. }
    pose proof (Hall _ Hin) as He. cbn [fst snd] in He. by rewrite (Hck _ _ Hin) in He.
  - cbn [fst snd] in He. rewrite (Hck k v Hin) in He. destruct v; [done|].
    apply Hb in Hin. destruct (height_child _ _ _ _ _ _ H Hh Hin) as (cp & Hcp & ->).
    destruct (hchan_nonempty _ _ _ _ _ _ H Hh Hcp (HX cp) Hin) as (c' & op & Hi).
    assert (live st h = true) as ->; [|done]. apply live_true. eauto.
Qed.

Lemma pruneHeight_live db0 X st db h :
  nrel ns db0 X st db -> is_u32 h -> (forall cp, ~ X (hchan_dir h cp)) -> live st h = true ->
  pruneHeight ns h db = Err errBucketNotEmpty.
Proof.
  intros H Hh HX L.
  assert (has db (pfx :: height_dir h) = true) as Hhas.
  { apply live_true in L as (cp & c & op & Hs). eapply nrel_justified; [done|].
    exists (LIdx h cp c op). split; [done|]. by eexists. }
  assert (wp (getHeightBucketPath ns h) (fun r db' => r = (Some [pfx], Some [pfx; heightIndexKey], Some (pfx :: height_dir h)) /\ db' = db) db)
    as (r & db' & E & -> & ->) by (apply wp_getHeightBucketPath; by rewrite Hhas).
  unfold pruneHeight. unfold mbind at 1, tx_bind at 1. rewrite E.
  pose proof Hhas as [c Hc]%has_true.
  pose proof (lists_entries db _ c (nr_wf _ _ _ _ _ H) Hc) as Hl.
  pose proof (pruneHeight_check _ _ _ _ _ _ H Hh HX Hl) as Hp. rewrite L in Hp.
  unfold b_ForEach, mbind at 1, tx_bind at 1. unfold mbind at 1, tx_bind at 1, b_entries at 1.
  rewrite Hc. simpl in Hp |- *. unfold height_dir in *. by rewrite Hp.
Qed.

Lemma wp_removeBucketIfExists p name Q db :
  (if has db (p ++ [name]) then forall db', dropped db db' (p ++ [name]) -> Q tt db' else Q tt db) ->
  wp (removeBucketIfExists p name) Q db.
Proof.
  intros HQ. apply wp_bind, wp_Bucket. destruct (has db (p ++ [name])) eqn:E.
  - by apply wp_DeleteBucket.
  - by apply wp_ret.
Qed.

(** A height without outputs is removed together with its finalized
    transaction. *)
Lemma wp_pruneHeight_dead db0 X st db h Q :
  nrel ns db0 X st db -> is_u32 h -> (forall cp, ~ X (hchan_dir h cp)) -> live st h = false ->
  has db (pfx :: height_dir h) = true ->
  (forall db', nrel ns db0 (fun q => X q /\ ~ height_dir h `prefix_of` q) (delete (LFinal h) st) db' ->
     Q true db') ->
  wp (pruneHeight ns h) Q db.
Proof.
  intros H Hh HX L Hhas HQ. apply wp_bind, wp_getHeightBucketPath. rewrite Hhas.
  apply wp_bind, wp_bind. apply wp_entries; [apply H|done|]. intros es Hl _.
  exists tt, db. split.
  { pose proof (pruneHeight_check _ _ _ _ _ _ H Hh HX Hl) as Hp. by rewrite L in Hp. }
  apply wp_bind, wp_removeBucketIfExists. simpl. unfold height_dir in Hhas. rewrite Hhas.
  intros db' D. apply wp_ret, HQ.
  eapply nrel_weaken; [| |eapply (nrel_drop _ _ _ _ (delete (LFinal h) st) _ _ (height_dir h));
                          [exact Hhas|exact D| |exact H]].
  - intros p [?|[Hp Hne]]; [by left|]. right; left.
    destruct Hp as [r Hr]. unfold height_dir, skel in *.
    destruct p as [|a [|b [|? ?]]]; simpl in Hr; path_inv; subst; auto. by destruct Hne.
  - intros p ?. by left; left.
  - intros l i. rewrite lookup_delete_Some. split.
    + intros [Hne Hi]. split; [done|]. intros Hp.
      destruct (nr_ok _ _ _ _ _ H _ _ Hi) as [Hl' _].
      apply height_prefix in Hp as [->|(cp & c & op & ->)]; [done| |done..].
      by rewrite (proj1 (live_false st h) L) in Hi.
    + intros [Hi Hn]. split; [|done]. intros <-. apply Hn. by exists [].
Qed.

(** ** Taking an output off the height index *)

(** The extra buckets of an operation are channel buckets. *)
Definition chan_only X : Prop := forall p, X p -> exists cp, p = chan_dir cp.

Lemma chan_only_hchan X h cp : chan_only X -> ~ X (hchan_dir h cp).
Proof. intros HX [cp' E]%HX. unfold hchan_dir, chan_dir in E. path_inv. Qed.

Lemma chan_only_height X h q : chan_only X -> X q -> ~ height_dir h `prefix_of` q.
Proof. intros HX [cp' ->]%HX [r E]. unfold height_dir, chan_dir in E. simpl in E. path_inv. Qed.

Lemma a_unindex_absent h cp c op st :
  final_live st -> st !! LIdx h cp c op = None -> a_unindex h cp c op st = st.
Proof.
  intros Hf Hn. unfold a_unindex. rewrite delete_id by done. destruct (live st h) eqn:L; [done|].
  apply delete_id. destruct (st !! LFinal h) eqn:E; [|done].
  rewrite Hf in L; [done|by rewrite E].
Qed.

Lemma a_unindex_live h cp c op st c' op' :
  is_Some (delete (LIdx h cp c op) st !! LIdx h cp c' op') ->
  a_unindex h cp c op st = delete (LIdx h cp c op) st.
Proof.
  intros Hs. unfold a_unindex. assert (live (delete (LIdx h cp c op) st) h = true) as ->; [|done].
  apply live_true. eauto.
Qed.

(** The last output of a height-channel bucket has left: the bucket goes, and
    the height with it when nothing else is registered there. *)
Lemma wp_prune_after db0 X st db h cp c op Q :
  nrel ns db0 (fun q => X q \/ q `prefix_of` hchan_dir h cp) (delete (LIdx h cp c op) st) db ->
  chan_only X -> is_u32 h -> OutPoint_ok cp -> has db (pfx :: hchan_dir h cp) = true ->
  (forall c' op', delete (LIdx h cp c op) st !! LIdx h cp c' op' = None) ->
  (forall db', nrel ns db0 X (a_unindex h cp c op st) db' -> Q tt db') ->
  wp (_ ← b_DeleteBucket (pfx :: height_dir h) (writeOutpoint cp);
      pruned ← tx_try (pruneHeight ns h);
      match pruned with
      | Err e => if decide (e = errBucketNotEmpty) then mret tt else tx_fail e
      | Ok _ => mret tt
      end) Q db.
Proof.
  intros H HX Hh Hcp Hhas Hnone HQ. set (st1 := delete (LIdx h cp c op) st) in *.
  apply wp_bind, wp_DeleteBucket; [done|]. intros db1 D.
  assert (nrel ns db0 (fun q => X q \/ q = height_dir h) st1 db1) as H1.
  { eapply nrel_weaken; [| |eapply (nrel_drop _ _ _ _ st1 _ _ (hchan_dir h cp)); [exact Hhas|exact D| |exact H]].
    - intros p [[[?|Hp] Hn]|[Hp Hne]].
      + by left; left.
      + apply prefix_hchan in Hp as [?|[->| ->]]; [by right; left|by left; right|by destruct Hn].
      + apply prefix_hchan in Hp as [?|[->| ->]]; [by right; left|by left; right|done].
    - intros p [Hp| ->].
      + left; left. split; [by left|]. intros [r ->]. apply HX in Hp as [cp' E].
        unfold hchan_dir, chan_dir in E. simpl in E. path_inv.
      + left; right. split; [by eexists|]. unfold height_dir, hchan_dir. intros E. path_inv.
    - intros l i. split; [|naive_solver]. intros Hi. split; [done|]. intros Hp.
      destruct (nr_ok _ _ _ _ _ H _ _ Hi) as [Hl _].
      apply hchan_prefix in Hp as (c' & op' & ->); [|done..]. by rewrite Hnone in Hi. }
  assert (forall cp', ~ (X (hchan_dir h cp') \/ hchan_dir h cp' = height_dir h)) as HX1.
  { intros cp' [?|E]; [by eapply chan_only_hchan|]. unfold height_dir, hchan_dir in E. path_inv. }
  apply wp_bind. unfold a_unindex in HQ. fold st1 in HQ. destruct (live st1 h) eqn:L.
  - eapply wp_try_err; [by eapply pruneHeight_live|]. rewrite decide_True by done.
    apply wp_ret, HQ. eapply nrel_weaken; [| |exact H1].
    + intros p [?| ->]; [by left|]. right; right. apply live_true in L as (cp' & c' & op' & Hs).
      exists (LIdx h cp' c' op'). split; [done|]. by eexists.
    + by left; left.
  - apply wp_try_ok. eapply wp_pruneHeight_dead; [exact H1|done|done|done| |].
    { apply H1. by right. }
    intros db2 H2. apply wp_ret, HQ. eapply nrel_weaken; [| |exact H2].
    + intros p [[?| ->] Hn]; [by left|]. by destruct Hn.
    + intros p Hp. left. split; [by left|]. by eapply chan_only_height.
Qed.

Lemma wp_removeOutputFromHeight db0 X st db h cp c op Q :
  nrel ns db0 X st db -> chan_only X -> final_live st -> is_u32 h -> OutPoint_ok cp -> OutPoint_ok op ->
  (forall db', nrel ns db0 X (a_unindex h cp c op st) db' -> Q tt db') ->
  wp (removeOutputFromHeight ns h cp (out_key c op)) Q db.
Proof.
  intros H HX Hf Hh Hcp Hop HQ. apply wp_bind, wp_getHeightChanBucket. unfold handle.
  destruct (has db (pfx :: hchan_dir h cp)) eqn:Hhas.
  2: { apply wp_ret, HQ. rewrite a_unindex_absent; [done|done|].
       destruct (st !! LIdx h cp c op) eqn:E; [|done].
       rewrite (nrel_justified _ _ _ _ _ (hchan_dir h cp) H) in Hhas; [done|].
       exists (LIdx h cp c op). split; [by rewrite E|]. by exists []. }
  destruct (hchan_nonempty _ _ _ _ _ _ H Hh Hcp) as (c0 & op0 & Hs0);
    [by apply chan_only_hchan|done|].
  apply wp_bind. eapply (wp_ndel _ _ _ _ _ (LIdx h cp c op)); [done|done|done|].
  intros db1 H1 M1. simpl loc_dir in H1.
  apply wp_bind, wp_getHeightBucket. unfold handle.
  assert (has db1 (pfx :: hchan_dir h cp) = true) as Hhas1 by (by rewrite M1).
  rewrite (has_prefix_path (pfx :: height_dir h) [writeOutpoint cp] db1 Hhas1).
  set (st1 := delete (LIdx h cp c op) st) in *.
  destruct (isBucketEmpty_cases db1 (pfx :: hchan_dir h cp) (nr_wf _ _ _ _ _ H1) Hhas1) as [[He Hemp]|[He [k Hk]]].
  - (* the height-channel bucket is empty now *)
    assert (forall c' op', st1 !! LIdx h cp c' op' = None) as Hnone.
    { intros c' op'. destruct (st1 !! _) as [i|] eqn:E; [|done].
      destruct (Hemp (out_key c' op')) as [Ho _].
      by rewrite (nrel_obs_idx _ _ _ _ _ _ _ _ _ H1 E) in Ho. }
    assert (is_Some (st !! LIdx h cp c op)) as Hs.
    { destruct (decide (LIdx h cp c op = LIdx h cp c0 op0)) as [E|Hne]; [by rewrite E|].
      specialize (Hnone c0 op0). unfold st1 in Hnone. rewrite lookup_delete_ne in Hnone by done.
      rewrite Hnone in Hs0. by destruct Hs0. }
    assert (nrel ns db0 (fun q => X q \/ q `prefix_of` hchan_dir h cp) st1 db1) as H1'.
    { eapply nrel_weaken; [| |exact H1].
      - intros p [?|[? _]]; [by left; left|by left; right].
      - intros p [?|?]; [by left; left|by left; right]. }
    destruct (wp_prune_after _ _ _ _ h cp c op Q H1' HX Hh Hcp Hhas1 Hnone HQ) as (u & db' & E & Hq).
    exists u, db'. split; [|done].
    unfold mbind, tx_bind, tx_try, removeBucketIfEmpty, b_Bucket in E |- *.
    pose proof Hhas1 as [b1 Hb1]%has_true. unfold mbind, tx_bind. simpl in Hb1 |- *. rewrite Hb1.
    change [pfx; heightIndexKey; put_be 4 h; writeOutpoint cp] with (pfx :: hchan_dir h cp). rewrite He.
    destruct (b_DeleteBucket _ _ db1) as [[[] ?]|]; [|done]. by rewrite E.
  - apply wp_bind. eapply wp_try_err.
    { unfold removeBucketIfEmpty, mbind, tx_bind, b_Bucket.
      pose proof Hhas1 as [b1 Hb1]%has_true. simpl in Hb1 |- *. rewrite Hb1.
      change [pfx; heightIndexKey; put_be 4 h; writeOutpoint cp] with (pfx :: hchan_dir h cp).
      by rewrite He. }
    rewrite decide_True by done. apply wp_ret, HQ.
    assert (exists c' op', is_Some (st1 !! LIdx h cp c' op')) as (c' & op' & Hs).
    { destruct Hk as [[v Ho]|Hb].
      - destruct (nrel_obs_inv _ _ _ _ _ _ _ _ H1 Ho) as (l & i & Hi & Hl & Hd & _).
        destruct (hchan_prefix h cp l) as (c' & op' & ->); [done..|by rewrite <- Hd; exists []|eauto].
      - destruct (nr_dirs _ _ _ _ _ H1 _ Hb) as (l & Hl & [r Hr] & _).
        exfalso. destruct l; simpl in Hr; path_inv. }
    rewrite (a_unindex_live _ _ _ _ _ c' op') by done. fold st1.
    eapply nrel_weaken; [| |exact H1].
    + intros p [?|[Hp _]]; [by left|]. right; right. exists (LIdx h cp c' op'). done.
    + by left; left.
Qed.

(** ** Entering the nursery *)

Lemma prefix_chan q cp : q `prefix_of` chan_dir cp -> skel q \/ q = chan_dir cp.
Proof.
  intros [r E]. unfold chan_dir, skel in *.
  destruct q as [|a [|b [|c q]]]; simpl in E; path_inv; subst; eauto.
Qed.

Lemma justified_out st cp c op : is_Some (st !! LOut cp c op) -> justified st (chan_dir cp).
Proof. intros H. exists (LOut cp c op). split; [done|]. by exists []. Qed.

Lemma justified_idx st h cp c op q :
  is_Some (st !! LIdx h cp c op) -> q = height_dir h \/ q = hchan_dir h cp -> justified st q.
Proof.
  intros H Hq. exists (LIdx h cp c op). split; [done|].
  destruct Hq as [->| ->]; [by eexists|by exists []].
Qed.

Lemma wp_enterPreschool db0 st db k Q :
  nrel ns db0 no_extra st db -> item_ok (IKid k) ->
  (forall db', nrel ns db0 no_extra (a_enterPreschool k st) db' -> Q tt db') ->
  wp (enterPreschool ns k) Q db.
Proof.
  intros H Hk HQ. assert (loc_ok (LOut (kid_originChanPoint k) Pscl (kid_OutPoint k))) as Hl.
  { destruct Hk as [_ ((_ & Ho & _) & _ & Hcp & _)]. by split. }
  apply wp_bind. eapply wp_createChannelBucket; [done|apply Hl|]. intros db1 H1 M1.
  apply wp_bind. eapply (wp_nget _ _ _ _ _ _ _ H1 Hl).
  unfold a_enterPreschool in HQ. destruct (st !! _) as [i|] eqn:E; simpl.
  - apply wp_ret, HQ. eapply nrel_weaken; [| |exact H1].
    + intros p [?| ->]; [by left|]. right; right. eapply justified_out. by rewrite E.
    + by left; left.
  - eapply (wp_nput _ _ _ _ _ _ (IKid k) _ H1 Hl Hk); [apply H1; by right|].
    intros db2 H2 M2. apply HQ. eapply nrel_weaken; [| |exact H2].
    + intros p [[?| ->] Hn]; [by left|]. destruct Hn. by exists [].
    + by intros p [].
Qed.

Lemma wp_enterCrib db0 st db b Q :
  nrel ns db0 no_extra st db -> item_ok (IBaby b) ->
  (forall db', nrel ns db0 no_extra (a_enterCrib b st) db' -> Q tt db') ->
  wp (enterCrib ns b) Q db.
Proof.
  intros H Hb HQ.
  assert (is_u32 (baby_expiry b) /\ OutPoint_ok (baby_originChanPoint b) /\ OutPoint_ok (baby_OutPoint b))
    as (He & Hcp & Hop).
  { destruct Hb as [_ (? & _ & (_ & Ho & _) & _ & Hcp & _)]. by split. }
  assert (loc_ok (LOut (baby_originChanPoint b) Crib (baby_OutPoint b))) as Hl by done.
  apply wp_bind. eapply wp_createChannelBucket; [done|apply Hl|]. intros db1 H1 M1.
  apply wp_bind. eapply (wp_nget _ _ _ _ _ _ _ H1 Hl).
  unfold a_enterCrib in HQ. destruct (st !! _) as [i|] eqn:E; simpl.
  - apply wp_ret, HQ. eapply nrel_weaken; [| |exact H1].
    + intros p [?| ->]; [by left|]. right; right. eapply justified_out. by rewrite E.
    + by left; left.
  - apply wp_bind. eapply wp_createHeightChanBucket; [done..|]. intros db2 H2 M2.
    apply wp_bind. eapply (wp_nput _ _ _ _ _ _ (IBaby b) _ H2 Hl Hb); [apply H2; by left; right|].
    intros db3 H3 M3.
    eapply (wp_nput _ _ _ _ _ (LIdx _ _ Crib _) IMark _ H3); [done|done| |].
    { simpl loc_dir. rewrite M3. apply H2. by right; right. }
    intros db4 H4 M4. apply HQ. eapply nrel_weaken; [| |exact H4].
    + intros p [[[[?| ->]|[->| ->]] Hn] Hn']; [by left|..].
      * destruct Hn. by exists [].
      * destruct Hn'. by eexists.
      * destruct Hn'. by exists [].
    + by intros p [].
Qed.

Lemma nrel_represents db0 st db : nrel ns db0 no_extra st db -> represents ns db st /\ nframe ns db0 db.
Proof. intros H. pose proof H as []. split; [|done]. by constructor; try apply H. Qed.

(** The result of a transaction on a represented state. *)
Lemma represents_update (m : TX ()) db st st' :
  represents ns db st ->
  (nrel ns db no_extra st db -> wp m (fun _ db' => nrel ns db no_extra st' db') db) ->
  exists db', Update m db = (Ok tt, db') /\ nframe ns db db' /\ represents ns db' st'.
Proof.
  intros H Hm. destruct (wp_Update_unit m _ _ (Hm H)) as (db' & E & H').
  exists db'. apply nrel_represents in H' as [? ?]. auto.
Qed.

Lemma Incubate_refines db st kids babies :
  represents ns db st -> Forall (fun k => item_ok (IKid k)) kids ->
  Forall (fun b => item_ok (IBaby b)) babies ->
  exists db', Incubate ns kids babies db = (Ok tt, db') /\ nframe ns db db'
    /\ represents ns db' (a_Incubate kids babies st).
Proof.
  intros H Hk Hb. apply (represents_update _ _ st); [done|]. clear H. intros H.
  rewrite Forall_forall in Hk. rewrite Forall_forall in Hb.
  apply wp_bind. eapply wp_mono; [eapply (wp_iter _ (fun dn b => nrel ns db no_extra
      (foldl (fun st k => a_enterPreschool k st) st dn) b)); [done|]|].
  - intros dn k rest b -> Hd. eapply wp_enterPreschool; [done| |].
    + apply Hk. set_solver.
    + intros db' H'. by rewrite foldl_app.
  - intros u db1 H1. eapply (wp_iter _ (fun dn b => nrel ns db no_extra
      (foldl (fun st b => a_enterCrib b st) (foldl (fun st k => a_enterPreschool k st) st kids) dn) b)); [done|].
    intros dn b rest b' -> Hd. eapply wp_enterCrib; [done| |].
    + apply Hb. set_solver.
    + intros db' H'. by rewrite foldl_app.
Qed.

(** ** Recorded heights *)

Lemma wp_Uint32 h Q db : is_u32 h -> Q h db -> wp (Uint32 (put_be 4 h)) Q db.
Proof.
  intros Hh HQ. unfold Uint32. rewrite put_be_length, take_ge by (by rewrite put_be_length).
  rewrite get_put_be4 by done. by apply wp_ret.
Qed.

Lemma wp_lastGraduated db0 X st db Q :
  nrel ns db0 X st db ->
  (forall i, st !! LLastG = Some i -> exists h, i = IHeight h) ->
  Q (lastGraduated st) db -> wp (getLastGraduatedHeight ns) Q db.
Proof.
  intros H Ht HQ. unfold lastGraduated in HQ. apply wp_bind, wp_Bucket. simpl.
  pose proof (nr_obs _ _ _ _ _ H LLastG I) as Ho. simpl in Ho.
  destruct (has db [pfx]) eqn:E.
  - apply wp_bind, wp_Get. rewrite Ho. destruct (st !! LLastG) as [i|] eqn:Ei; simpl; [|by apply wp_ret].
    destruct (Ht i eq_refl) as [h ->]. destruct (nr_ok _ _ _ _ _ H _ _ Ei) as [_ [_ Hh]]. simpl in Hh.
    by apply wp_Uint32.
  - apply wp_ret. destruct (st !! LLastG) eqn:Ei; [|done].
    simpl in Ho. apply obs_has in Ho. congruence.
Qed.

Lemma wp_lastFinalized db0 X st db Q :
  nrel ns db0 X st db ->
  (forall i, st !! LLastF = Some i -> exists h, i = IHeight h) ->
  Q (lastFinalized st) db -> wp (getLastFinalizedHeight ns) Q db.
Proof.
  intros H Ht HQ. unfold lastFinalized in HQ. apply wp_bind, wp_Bucket. simpl.
  pose proof (nr_obs _ _ _ _ _ H LLastF I) as Ho. simpl in Ho.
  destruct (has db [pfx]) eqn:E.
  - apply wp_bind, wp_Get. rewrite Ho. destruct (st !! LLastF) as [i|] eqn:Ei; simpl; [|by apply wp_ret].
    destruct (Ht i eq_refl) as [h ->]. destruct (nr_ok _ _ _ _ _ H _ _ Ei) as [_ [_ Hh]]. simpl in Hh.
    by apply wp_Uint32.
  - apply wp_ret. destruct (st !! LLastF) eqn:Ei; [|done].
    simpl in Ho. apply obs_has in Ho. congruence.
Qed.

Lemma item_ok_height h : is_u32 h -> item_ok (IHeight h).
Proof. intros H. split; [|done]. cbn [item_enc]. rewrite put_be_length. by vm_compute. Qed.

Lemma GraduateHeight_refines db st h :
  represents ns db st -> is_u32 h ->
  exists db', GraduateHeight ns h db = (Ok tt, db') /\ nframe ns db db'
    /\ represents ns db' (a_GraduateHeight h st).
Proof.
  intros H Hh. apply (represents_update _ _ st); [done|]. clear H. intros H.
  apply wp_bind. eapply wp_create_root; [done|]. intros db1 H1 Hh1 M1.
  eapply (wp_nput _ _ _ _ _ LLastG (IHeight h) _ H1 I); [by apply item_ok_height|done|].
  intros db2 H2 M2. eapply nrel_weaken; [| |exact H2]; [by intros p [[] _]|by intros p []].
Qed.

Lemma live_insert st l i h :
  is_idx_at h l = false -> live (<[l := i]> st) h = live st h.
Proof.
  intros Hl. apply eq_true_iff_eq. rewrite !live_true.
  split; intros (cp & c & op & Hs); exists cp, c, op; rewrite lookup_insert in *;
    destruct (decide _) as [->|]; try done; simpl in Hl; by rewrite bool_decide_eq_true_2 in Hl.
Qed.

Lemma has_height_live db0 st db h :
  nrel ns db0 no_extra st db -> is_u32 h -> final_live st ->
  has db (pfx :: height_dir h) = live st h.
Proof.
  intros H Hh Hf. apply eq_true_iff_eq. split.
  - intros Hb. destruct (nr_dirs _ _ _ _ _ H _ Hb) as (l & Hl & Hp & [Hs|[[]|Hs]]).
    + destruct Hs as [?|[?|?]]; unfold height_dir in *; path_inv.
    + apply height_prefix in Hp as [->|(cp & c & op & ->)]; [by apply Hf| |done..].
      apply live_true. eauto.
  - intros (cp & c & op & Hs)%live_true. eapply nrel_justified; [done|].
    eapply justified_idx; eauto.
Qed.

Lemma FinalizeKinder_refines db st h t :
  represents ns db st -> final_live st -> is_u32 h ->
  match t with Some t => item_ok (ITx t) | None => True end ->
  exists db', FinalizeKinder ns h t db = (Ok tt, db') /\ nframe ns db db'
    /\ represents ns db' (a_FinalizeKinder h t st).
Proof.
  intros H Hf Hh Ht. apply (represents_update _ _ st); [done|]. clear H. intros H.
  apply wp_bind. eapply wp_create_root; [done|]. intros db1 H1 Hh1 M1.
  apply wp_bind. eapply (wp_nput _ _ _ _ _ LLastF (IHeight h) _ H1 I); [by apply item_ok_height|done|].
  intros db2 H2 M2. apply (nrel_weaken _ _ _ no_extra) in H2; [|by intros p [[] _]|by intros p []].
  unfold a_FinalizeKinder. destruct t as [t|]; [|by apply wp_ret].
  assert (final_live (<[LLastF := IHeight h]> st)) as Hf2.
  { intros h' Hs. rewrite lookup_insert_ne in Hs by done. rewrite live_insert by done. auto. }
  apply wp_bind, wp_getHeightBucket. unfold handle.
  rewrite (has_height_live _ _ _ _ H2 Hh Hf2), live_insert by done.
  destruct (live st h) eqn:L; [|by apply wp_ret].
  eapply (wp_nput _ _ _ _ _ (LFinal h) (ITx t) _ H2 Hh Ht).
  { simpl loc_dir. change [heightIndexKey; put_be 4 h] with (height_dir h).
    by rewrite (has_height_live _ _ _ _ H2 Hh Hf2), live_insert. }
  intros db3 H3 M3. eapply nrel_weaken; [| |exact H3]; [by intros p [[] _]|by intros p []].
Qed.

(** ** Moving to the kindergarten *)

Lemma live_delete_out st cp c op h : live (delete (LOut cp c op) st) h = live st h.
Proof.
  apply eq_true_iff_eq. rewrite !live_true.
  split; intros (cp' & c' & op' & Hs); exists cp', c', op'; by rewrite lookup_delete_ne in *.
Qed.

Lemma final_live_delete_out st cp c op : final_live st -> final_live (delete (LOut cp c op) st).
Proof.
  intros Hf h Hs. rewrite lookup_delete_ne in Hs by done. rewrite live_delete_out. auto.
Qed.

(** Removing an output from a channel bucket that is held open. *)
Lemma wp_del_out db0 X st db cp c op Q :
  nrel ns db0 X st db -> X (chan_dir cp) -> OutPoint_ok cp -> OutPoint_ok op ->
  (forall db', nrel ns db0 X (delete (LOut cp c op) st) db' -> Q tt db') ->
  wp (b_Delete (pfx :: chan_dir cp) (out_key c op)) Q db.
Proof.
  intros H HX Hcp Hop HQ. eapply (wp_ndel _ _ _ _ _ (LOut cp c op)); [done|done|by apply H|].
  intros db1 H1 _. apply HQ. eapply nrel_weaken; [| |exact H1].
  - intros p [?|[Hp _]]; [by left|]. apply prefix_chan in Hp as [?| ->]; auto.
  - by left; left.
Qed.

(** Registering a kindergarten output: it is written to its channel bucket,
    which is held open, and marked at height [h]. *)
Lemma wp_put_out db0 X st db cp c op i Q :
  nrel ns db0 X st db -> X (chan_dir cp) -> OutPoint_ok cp -> OutPoint_ok op -> item_ok i ->
  (forall db', nrel ns db0 (fun q => X q /\ q <> chan_dir cp) (<[LOut cp c op := i]> st) db' -> Q tt db') ->
  wp (b_Put (pfx :: chan_dir cp) (out_key c op) (item_enc i)) Q db.
Proof.
  intros H HX Hcp Hop Hi HQ. eapply (wp_nput _ _ _ _ _ (LOut cp c op)); [done|done|done|by apply H|].
  intros db1 H1 _. apply HQ. eapply nrel_weaken; [| |exact H1].
  - intros p [Hp Hn]. left. split; [done|]. intros ->. destruct Hn. by exists [].
  - intros p [Hp Hn]. destruct (decide (p `prefix_of` chan_dir cp)) as [Hpc|]; [|by left; split].
    right. exists (LOut cp c op). split; [by rewrite lookup_insert_eq|done].
Qed.

Lemma wp_mark db0 st db h cp op Q :
  nrel ns db0 no_extra st db -> is_u32 h -> OutPoint_ok cp -> OutPoint_ok op ->
  (forall db', nrel ns db0 no_extra (<[LIdx h cp Kndr op := IMark]> st) db' -> Q tt db') ->
  wp (hb ← createHeightChanBucket ns h cp; b_Put hb (out_key Kndr op) []) Q db.
Proof.
  intros H Hh Hcp Hop HQ. apply wp_bind. eapply wp_createHeightChanBucket; [done..|]. intros db1 H1 M1.
  eapply (wp_nput _ _ _ _ _ (LIdx h cp Kndr op) IMark _ H1); [done|done|apply H1; by right; right|].
  intros db2 H2 _. apply HQ. eapply nrel_weaken; [| |exact H2].
  - intros p [[?|[->| ->]] Hn]; [by left|..]; destruct Hn; [by eexists|by exists []].
  - by intros p [].
Qed.

Lemma CribToKinder_refines db st b :
  represents ns db st -> final_live st -> item_ok (IBaby b) -> item_ok (IKid (baby_kidOutput b)) ->
  exists db', CribToKinder ns b db = (Ok tt, db') /\ nframe ns db db'
    /\ represents ns db' (a_CribToKinder b st).
Proof.
  intros H Hf Hb Hk. apply (represents_update _ _ st); [done|]. clear H. intros H.
  assert (is_u32 (baby_expiry b) /\ OutPoint_ok (baby_originChanPoint b) /\ OutPoint_ok (baby_OutPoint b))
    as (He & Hcp & Hop).
  { destruct Hb as [_ (? & _ & (_ & Ho & _) & _ & Hcp & _)]. by split. }
  apply wp_bind. eapply wp_createChannelBucket; [done..|]. intros db1 H1 _.
  apply wp_bind. eapply (wp_del_out _ _ _ _ _ Crib); [exact H1|by right|done|done|]. intros db2 H2.
  apply wp_bind. eapply (wp_removeOutputFromHeight _ _ _ _ _ _ Crib); [exact H2| |by apply final_live_delete_out|done..|].
  { intros p [[]| ->]. eauto. }
  intros db3 H3. change (prefixOutputKey cribPrefix (baby_OutPoint b)) with (out_key Crib (baby_OutPoint b)).
  rewrite (copy_prefix_key Crib Kndr).
  apply wp_bind. eapply (wp_put_out _ _ _ _ _ Kndr _ (IKid (baby_kidOutput b))); [exact H3|by right|done..|].
  intros db4 H4. eapply wp_mark; [|apply u32_range|done|done|by auto].
  eapply nrel_weaken; [| |exact H4]; [|by intros p []]. intros p [[?| ->] Hn]; [by left|done].
Qed.

Definition typed_heights st : Prop :=
  (forall i, st !! LLastG = Some i -> exists h, i = IHeight h)
  /\ (forall i, st !! LLastF = Some i -> exists h, i = IHeight h).

Lemma kinder_height_u32 k n : kidOutput_ok k -> is_u32 (kinder_height k n).
Proof.
  intros (_ & _ & _ & _ & Ha & _). unfold kinder_height.
  repeat case_match; try apply u32_range; done.
Qed.

Lemma PreschoolToKinder_refines db st k :
  represents ns db st -> typed_heights st -> item_ok (IKid k) ->
  exists db', PreschoolToKinder ns k db = (Ok tt, db') /\ nframe ns db db'
    /\ represents ns db' (a_PreschoolToKinder k st).
Proof.
  intros H [Ht _] Hk. apply (represents_update _ _ st); [done|]. clear H. intros H.
  assert (OutPoint_ok (kid_originChanPoint k) /\ OutPoint_ok (kid_OutPoint k)) as (Hcp & Hop).
  { destruct Hk as [_ ((_ & Ho & _) & _ & Hcp & _)]. by split. }
  apply wp_bind. eapply wp_createChannelBucket; [done..|]. intros db1 H1 _.
  apply wp_bind. eapply (wp_del_out _ _ _ _ _ Pscl); [exact H1|by right|done|done|]. intros db2 H2.
  change (prefixOutputKey psclPrefix (kid_OutPoint k)) with (out_key Pscl (kid_OutPoint k)).
  rewrite (copy_prefix_key Pscl Kndr).
  apply wp_bind. eapply (wp_put_out _ _ _ _ _ Kndr _ (IKid k)); [exact H2|by right|done..|]. intros db3 H3.
  apply (nrel_weaken _ _ _ no_extra) in H3; [|by intros p [[[]| ->] ?]|by intros p []].
  apply wp_bind. eapply (wp_lastGraduated _ _ _ _ _ H3).
  { intros i. rewrite lookup_insert_ne, lookup_delete_ne by done. apply Ht. }
  unfold a_PreschoolToKinder.
  replace (lastGraduated (<[_:=_]> _)) with (lastGraduated st)
    by (unfold lastGraduated; by rewrite lookup_insert_ne, lookup_delete_ne by done).
  eapply wp_mark; [done|apply kinder_height_u32; apply Hk|done|done|by auto].
Qed.

(** ** Iterating over the class of a height *)

Lemma lift_list {A B} (f : A -> B) (P : A -> Prop) (l : list B) :
  (forall k, k ∈ l -> exists x, P x /\ k = f x) ->
  exists xs, l = f <$> xs /\ forall x, x ∈ xs -> P x.
Proof.
  induction l as [|k l IH]; intros H.
  - exists []. split; [done|]. intros x Hx. by apply not_elem_of_nil in Hx.
  - destruct (H k) as (x & Hx & ->); [by left|].
    destruct IH as (xs & -> & Hxs); [intros; apply H; by right|].
    exists (x :: xs). split; [done|]. intros y [->|Hy]%elem_of_cons; auto.
Qed.

Lemma tx_foldl_fmap {A B S} (g : S -> B -> TX S) (f : A -> B) l s db :
  tx_foldl g s (f <$> l) db = tx_foldl (fun s a => g s (f a)) s l db.
Proof.
  revert s db. induction l as [|a l IH]; intros s db; [done|]. simpl.
  unfold mbind, tx_bind. destruct (g s (f a) db) as [[s' db']|]; [apply IH|done].
Qed.

Lemma wp_foldl_fmap {A B S} (g : S -> B -> TX S) (f : A -> B) l s Q db :
  wp (tx_foldl (fun s a => g s (f a)) s l) Q db -> wp (tx_foldl g s (f <$> l)) Q db.
Proof. unfold wp. by rewrite tx_foldl_fmap. Qed.

(** The channels with an output at height [h], as the bucket lists them. *)
Lemma channels_at db0 st db h es :
  nrel ns db0 no_extra st db -> is_u32 h -> lists db (pfx :: height_dir h) es -> NoDup es.*1 ->
  exists cps, omap (fun kv : bytes * option bytes =>
                 match kv.2 with None => Some kv.1 | Some _ => None end) es = writeOutpoint <$> cps
    /\ NoDup cps
    /\ forall cp, cp ∈ cps <-> exists c op, is_Some (st !! LIdx h cp c op).
Proof.
  intros H Hh [_ Hb] Hnd. set (ks := omap _ es).
  assert (forall k, k ∈ ks <-> has db (pfx :: height_dir h ++ [k]) = true) as Hks.
  { intros k. unfold ks. rewrite list_elem_of_omap, <- (Hb k). split.
    - intros ([k' [v|]] & Hin & E); simplify_eq/=. done.
    - intros Hin. by exists (k, None). }
  assert (NoDup ks) as Hnk.
  { unfold ks. clear - Hnd.
    induction es as [|[k v] es IH]; simpl in *; [constructor|].
    apply NoDup_cons in Hnd as [Hn Hnd]. destruct v; [by auto|]. apply NoDup_cons. split; [|by auto].
    intros ([k' [v|]] & Hin & E)%list_elem_of_omap; simplify_eq/=.
    apply Hn. by apply (list_elem_of_fmap_2 fst) in Hin. }
  destruct (lift_list writeOutpoint OutPoint_ok ks) as (cps & E & Hok).
  { intros k Hk%Hks. by eapply height_child. }
  exists cps. split; [done|]. split; [by rewrite E in Hnk; apply NoDup_fmap_1 in Hnk|].
  intros cp. split.
  - intros Hin. assert (writeOutpoint cp ∈ ks) as Hk by (rewrite E; by apply list_elem_of_fmap_2).
    apply Hks in Hk. eapply hchan_nonempty; [done|done|by apply Hok|by intros []|done].
  - intros (c & op & Hs). assert (writeOutpoint cp ∈ ks) as Hk.
    { apply Hks. eapply (nrel_justified _ _ _ _ _ (hchan_dir h cp) H). eapply justified_idx; eauto. }
    rewrite E in Hk. apply list_elem_of_fmap in Hk as (cp' & Hw & Hin).
    destruct Hs as [i Hi]. destruct (nr_ok _ _ _ _ _ H _ _ Hi) as [(_ & Hcp & _) _].
    apply writeOutpoint_inj in Hw as ->; [done|done|by apply Hok].
Qed.

(** The outputs of one channel and class at height [h]. *)
Lemma outputs_at db0 st db h cp c Q :
  nrel ns db0 no_extra st db -> is_u32 h -> OutPoint_ok cp -> has db (pfx :: hchan_dir h cp) = true ->
  (forall es ops, es.*1 = out_key c <$> ops -> NoDup ops ->
     (forall op, op ∈ ops <-> is_Some (st !! LIdx h cp c op)) -> Q es db) ->
  wp (b_scan_prefix (pfx :: hchan_dir h cp) (class_prefix c)) Q db.
Proof.
  intros H Hh Hcp Hhas HQ. apply wp_scan_prefix; [apply H|done|]. intros es Hv Hb Hnd.
  destruct (lift_list (out_key c) (fun op => OutPoint_ok op /\ is_Some (st !! LIdx h cp c op)) es.*1)
    as (ops & E & Hops).
  { intros k ([k' v] & -> & Hin)%list_elem_of_fmap. destruct v as [v|].
    - apply Hv in Hin as [Ho Hp]. destruct (nrel_obs_inv _ _ _ _ _ _ _ _ H Ho) as (l & i & Hi & Hl & Hd & -> & ->).
      destruct (hchan_prefix h cp l) as (c' & op & ->); [done..|by rewrite <- Hd; exists []|].
      simpl in Hp. rewrite out_key_prefix in Hp. apply bool_decide_eq_true in Hp as ->.
      exists op. destruct Hl as (_ & _ & ?). split; [|done]. split; [done|by rewrite Hi].
    - apply Hb in Hin as [Hin _]. destruct (nr_dirs _ _ _ _ _ H _ Hin) as (l & Hl & [r Hr] & _).
      exfalso. destruct l; simpl in Hr; path_inv. }
  apply (HQ es ops); [done|by rewrite E in Hnd; apply NoDup_fmap_1 in Hnd|].
  intros op. split; [intros Hin; by apply Hops|]. intros [i Hi].
  destruct (nr_ok _ _ _ _ _ H _ _ Hi) as [(_ & _ & Hop) _].
  pose proof (nrel_obs_idx _ _ _ _ _ _ _ _ _ H Hi) as Ho.
  assert (out_key c op ∈ es.*1) as Hin.
  { apply list_elem_of_fmap. exists (out_key c op, Some (item_enc i)). split; [done|]. apply Hv.
    split; [done|]. rewrite out_key_prefix. by apply bool_decide_eq_true. }
  rewrite E in Hin. apply list_elem_of_fmap in Hin as (op' & Ek & Hin).
  apply out_key_inj in Ek as [_ ->]; [done|done|by apply Hops].
Qed.

(** The loop of [forEachHeightPrefix].  [F done] is the abstract state after the
    outputs of [done] have been handled; the callback may change the outputs it
    is given and must leave the others of the class in place. *)
Record class_walk (h : Z) (c : oclass) st (F : list (OutPoint * OutPoint) -> gmap loc item) : Prop := {
  cw_nil : F [] = st;
  cw_sound cp c' op : is_Some (st !! LIdx h cp c' op) -> is_Some (st !! LOut cp c' op);
  cw_idx dn cp c' op : (cp, op) ∉ dn \/ c' <> c -> F dn !! LIdx h cp c' op = st !! LIdx h cp c' op;
  cw_out dn cp op : (cp, op) ∉ dn -> F dn !! LOut cp c op = st !! LOut cp c op;
  cw_chan dn cp : justified st (chan_dir cp) -> justified (F dn) (chan_dir cp)
}.

Lemma wp_class_channel {S} db0 st db h c F (K : list (OutPoint * OutPoint) -> S -> Prop)
    (cb : S -> bytes -> TX S) dn cp es ops s :
  class_walk h c st F -> nrel ns db0 no_extra (F dn) db -> K dn s ->
  (forall op, (cp, op) ∉ dn) -> OutPoint_ok cp ->
  es.*1 = out_key c <$> ops -> NoDup ops -> (forall op, op ∈ ops -> is_Some (st !! LIdx h cp c op)) ->
  (forall dn op i s db, (cp, op) ∉ dn -> is_Some (st !! LIdx h cp c op) -> st !! LOut cp c op = Some i ->
     nrel ns db0 no_extra (F dn) db -> K dn s ->
     wp (cb s (item_enc i)) (fun s' db' => nrel ns db0 no_extra (F (dn ++ [(cp, op)])) db'
                                           /\ K (dn ++ [(cp, op)]) s') db) ->
  wp (tx_foldl (fun s (kv : bytes * option bytes) =>
        outputBytes ← b_Get (pfx :: chan_dir cp) kv.1;
        match outputBytes with
        | None => tx_fail (ErrNew "unable to retrieve output")
        | Some outputBytes => cb s outputBytes
        end) s es)
     (fun s' db' => nrel ns db0 no_extra (F (dn ++ (pair cp <$> ops))) db'
                    /\ K (dn ++ (pair cp <$> ops)) s') db.
Proof.
  intros HF H HK Hdn Hcp E Hnd Hops Hcb.
  set (g := fun s k => outputBytes ← b_Get (pfx :: chan_dir cp) k;
              match outputBytes with
              | None => tx_fail (ErrNew "unable to retrieve output")
              | Some outputBytes => cb s outputBytes
              end).
  assert (forall Q, wp (tx_foldl g s (out_key c <$> ops)) Q db ->
            wp (tx_foldl (fun s (kv : bytes * option bytes) => g s kv.1) s es) Q db) as Hmap.
  { intros Q. rewrite <- E. unfold wp. by rewrite tx_foldl_fmap. }
  apply Hmap, wp_foldl_fmap.
  apply (wp_foldl _ (fun done s' db' => nrel ns db0 no_extra (F (dn ++ (pair cp <$> done))) db'
                                        /\ K (dn ++ (pair cp <$> done)) s')).
  { by rewrite fmap_nil, app_nil_r. }
  intros dn' op rest s' db' -> [H' HK'].
  assert (is_Some (st !! LIdx h cp c op)) as Hidx by (apply Hops; set_solver).
  destruct (cw_sound _ _ _ _ HF _ _ _ Hidx) as [i Hi].
  assert ((cp, op) ∉ dn ++ (pair cp <$> dn')) as Hnin.
  { rewrite elem_of_app. intros [Hin|Hin]; [by eapply Hdn|].
    apply list_elem_of_fmap in Hin as (op' & [= <-] & Hin).
    apply NoDup_app in Hnd as (_ & Hnd & _). apply (Hnd _ Hin). by left. }
  pose proof (cw_out _ _ _ _ HF _ _ _ Hnin) as Ho. rewrite Hi in Ho.
  unfold g. apply wp_bind, wp_Get. rewrite (nrel_obs_out _ _ _ _ _ _ _ _ H' Ho).
  rewrite fmap_app, app_assoc. by apply Hcb.
Qed.

Lemma wp_forEachHeightPrefix {S} db0 st db h c F (K : list (OutPoint * OutPoint) -> S -> Prop)
    (cb : S -> bytes -> TX S) s :
  class_walk h c st F -> nrel ns db0 no_extra st db -> is_u32 h -> final_live st -> K [] s ->
  (forall dn cp op i s db, (cp, op) ∉ dn -> is_Some (st !! LIdx h cp c op) -> st !! LOut cp c op = Some i ->
     nrel ns db0 no_extra (F dn) db -> K dn s ->
     wp (cb s (item_enc i)) (fun s' db' => nrel ns db0 no_extra (F (dn ++ [(cp, op)])) db'
                                           /\ K (dn ++ [(cp, op)]) s') db) ->
  wp (forEachHeightPrefix ns (class_prefix c) h cb s)
     (fun s' db' => exists dn, NoDup dn
        /\ (forall cp op, (cp, op) ∈ dn <-> is_Some (st !! LIdx h cp c op))
        /\ nrel ns db0 no_extra (F dn) db' /\ K dn s') db.
Proof.
  intros HF H Hh Hfl HK Hcb. apply wp_bind, wp_getHeightBucketPath.
  rewrite (has_height_live _ _ _ _ H Hh Hfl). destruct (live st h) eqn:L.
  2: { intros a b. assert (wp (mret s) (fun s' db' => exists dn, NoDup dn
        /\ (forall cp op, (cp, op) ∈ dn <-> is_Some (st !! LIdx h cp c op))
        /\ nrel ns db0 no_extra (F dn) db' /\ K dn s') db); [|by destruct a].
       apply wp_ret. exists []. split; [constructor|]. split; [|by rewrite (cw_nil _ _ _ _ HF)].
       intros cp op. rewrite (proj1 (live_false st h) L). split; [set_solver|]. by intros [? ?]. }
  assert (has db (pfx :: height_dir h) = true) as Hhas by (by rewrite (has_height_live _ _ _ _ H Hh Hfl)).
  apply wp_bind, wp_entries; [apply H|done|]. intros es Hes Hnd.
  destruct (channels_at _ _ _ _ _ H Hh Hes Hnd) as (cps & -> & Hndc & Hcps).
  apply wp_bind, wp_Bucket. simpl app.
  assert (has db [pfx; channelIndexKey] = true) as Hci.
  { apply live_true in L as (cp & c' & op & Hs). apply (cw_sound _ _ _ _ HF) in Hs.
    apply (nrel_justified _ _ _ _ _ [channelIndexKey] H). exists (LOut cp c' op). split; [done|]. by eexists. }
  rewrite Hci. apply wp_foldl_fmap.
  eapply wp_mono; [eapply (wp_foldl _ (fun done s' db' => exists dn, NoDup dn
        /\ (forall cp op, (cp, op) ∈ dn <-> is_Some (st !! LIdx h cp c op) /\ cp ∈ done)
        /\ nrel ns db0 no_extra (F dn) db' /\ K dn s'))|].
  - exists []. split; [constructor|]. split; [set_solver|]. by rewrite (cw_nil _ _ _ _ HF).
  - intros dc cp rest s' db' -> (dn & Hndn & Hdn & H' & HK').
    assert (cp ∉ dc) as Hnew.
    { apply NoDup_app in Hndc as (_ & Hndc & _). intros Hin. apply (Hndc _ Hin). by left. }
    assert (forall op, (cp, op) ∉ dn) as Hfresh by (intros op [_ ?]%Hdn; done).
    assert (exists c' op', is_Some (st !! LIdx h cp c' op')) as (c' & op' & Hs) by (apply Hcps; set_solver).
    assert (OutPoint_ok cp) as Hcp.
    { destruct Hs as [i Hi]. by destruct (nr_ok _ _ _ _ _ H _ _ Hi) as [(_ & ? & _) _]. }
    assert (has db' (pfx :: hchan_dir h cp) = true) as Hhc.
    { eapply nrel_justified; [done|]. eapply (justified_idx _ h cp c' op'); [|by right].
      rewrite (cw_idx _ _ _ _ HF); [done|]. by left. }
    assert (has db' (pfx :: chan_dir cp) = true) as Hcc.
    { eapply nrel_justified; [done|]. apply (cw_chan _ _ _ _ HF). eapply justified_out.
      by apply (cw_sound _ _ _ _ HF). }
    apply wp_bind, wp_Bucket. cbn [app height_dir]. unfold hchan_dir in Hhc. rewrite Hhc.
    apply wp_bind, wp_Bucket. cbn [app]. unfold chan_dir in Hcc. rewrite Hcc.
    apply wp_bind. eapply outputs_at; [done..|]. intros es' ops Ek Hndo Hops.
    assert (forall op, op ∈ ops <-> is_Some (st !! LIdx h cp c op)) as Hops'.
    { intros op. rewrite Hops, (cw_idx _ _ _ _ HF); [done|]. by left. }
    eapply wp_mono; [eapply (wp_class_channel _ _ _ _ _ _ K _ dn cp es' ops); try done; try set_solver|].
    intros s'' db'' [H'' HK'']. exists (dn ++ (pair cp <$> ops)).
    split; [|split; [|done]].
    + apply NoDup_app. split; [done|]. split; [|by apply NoDup_fmap_2; [intros ?? [=]|]].
      intros [cp' op] [_ Hin]%Hdn (op'' & [= -> ->] & _)%list_elem_of_fmap. done.
    + intros cp' op. rewrite elem_of_app, Hdn, elem_of_app, list_elem_of_fmap, list_elem_of_singleton.
      split.
      * intros [[? ?]|(op'' & [= -> ->] & ?%Hops')]; auto.
      * intros [Hi [Hin| ->]]; [by left|]. right. exists op. split; [done|]. by apply Hops'.
  - intros s' db' (dn & Hndn & Hdn & H' & HK'). exists dn. split; [done|]. split; [|done].
    intros cp op. rewrite Hdn. split; [by intros [? _]|]. intros Hs. split; [done|]. apply Hcps. eauto.
Qed.

End NurseryRefine.
