(* ===== verification/NurseryInv.v ===== *)
(** * The invariant of the nursery

    What holds of the nursery between operations: the two indexes agree.  Every
    output in the crib or the kindergarten is registered at exactly one height,
    so that the nursery will act on it, and every registration leads to an
    output of the right kind, so that loading a class never fails. *)

From Stdlib Require Import ZArith Lia Sorted.
From Stdlib Require Import Init.Byte.
From stdpp Require Import base gmap countable strings numbers list.
From S2P Require Import Prelude Stream Tx Outputs Bolt NurseryStore NurseryAbs NurseryRefine.
Local Open Scope Z_scope.

Section NurseryInv.
Context {BTC : Btcec} (ns : nurseryStore).
Local Abbreviation pfx := (ns_pfxChainKey ns).
Implicit Types (st : gmap loc item) (db : bucket).

(** What is stored where. *)
Definition typed (l : loc) (i : item) : Prop :=
  match l, i with
  | LOut cp Crib op, IBaby b => baby_originChanPoint b = cp /\ baby_OutPoint b = op
  | LOut cp Crib op, _ => False
  | LOut cp _ op, IKid k => kid_originChanPoint k = cp /\ kid_OutPoint k = op
  | LIdx _ _ Crib _, IMark | LIdx _ _ Kndr _, IMark => True
  | LFinal _, ITx _ => True
  | LLastF, IHeight _ | LLastG, IHeight _ => True
  | _, _ => False
  end.

Record NInv st : Prop := {
  ni_typed l i : st !! l = Some i -> typed l i;
  ni_final : final_live st;
  ni_crib_idx cp op b :
    st !! LOut cp Crib op = Some (IBaby b) -> is_Some (st !! LIdx (baby_expiry b) cp Crib op);
  ni_idx_crib h cp op :
    is_Some (st !! LIdx h cp Crib op) ->
    exists b, st !! LOut cp Crib op = Some (IBaby b) /\ baby_expiry b = h;
  ni_kndr_idx cp op :
    is_Some (st !! LOut cp Kndr op) -> exists h, is_Some (st !! LIdx h cp Kndr op);
  ni_idx_kndr h cp op :
    is_Some (st !! LIdx h cp Kndr op) -> is_Some (st !! LOut cp Kndr op);
  ni_kndr_once h h' cp op :
    is_Some (st !! LIdx h cp Kndr op) -> is_Some (st !! LIdx h' cp Kndr op) -> h = h';
  ni_one cp c c' op : is_Some (st !! LOut cp c op) -> is_Some (st !! LOut cp c' op) -> c = c'
}.

Lemma NInv_empty : NInv ∅.
Proof.
  constructor; repeat intro; rewrite ?lookup_empty in *; try done;
    repeat match goal with H : is_Some _ |- _ => by rewrite ?lookup_empty in H; destruct H end.
Qed.

(** ** Lookups after the abstract operations *)

Lemma unindex_lookup h cp c op st l :
  l <> LFinal h ->
  a_unindex h cp c op st !! l = if decide (l = LIdx h cp c op) then None else st !! l.
Proof.
  intros Hl. unfold a_unindex. destruct (live _ h); rewrite ?lookup_delete_ne by done;
    rewrite lookup_delete; repeat case_decide; congruence.
Qed.

Lemma unindex_out h cp c op st cp' c' op' :
  a_unindex h cp c op st !! LOut cp' c' op' = st !! LOut cp' c' op'.
Proof. by rewrite unindex_lookup. Qed.

Lemma unindex_final h cp c op st h' i :
  a_unindex h cp c op st !! LFinal h' = Some i ->
  st !! LFinal h' = Some i /\ (h' = h -> live (delete (LIdx h cp c op) st) h = true).
Proof.
  unfold a_unindex. destruct (live (delete _ st) h) eqn:L; intros Hi.
  - rewrite lookup_delete_ne in Hi by done. done.
  - rewrite lookup_delete in Hi. case_decide; [done|].
    rewrite lookup_delete_ne in Hi by done. split; [done|]. congruence.
Qed.

Lemma final_live_unindex h cp c op st : final_live st -> final_live (a_unindex h cp c op st).
Proof.
  intros Hf h' [i Hi]. apply unindex_final in Hi as [Hi Hlive].
  destruct (decide (h' = h)) as [->|Hne].
  - specialize (Hlive eq_refl). unfold a_unindex. by rewrite Hlive.
  - assert (live st h' = true) as (cp' & c' & op' & Hs)%live_true by (apply Hf; eauto).
    apply live_true. exists cp', c', op'. rewrite unindex_lookup by done. case_decide; congruence.
Qed.

Lemma final_live_insert l i st :
  final_live st -> (forall h, l = LFinal h -> live st h = true) -> final_live (<[l := i]> st).
Proof.
  intros Hf Hl h Hs. rewrite lookup_insert in Hs.
  assert (live st h = true) as (cp & c & op & Hs')%live_true.
  { case_decide; [by apply Hl|by apply Hf]. }
  apply live_true. exists cp, c, op. rewrite lookup_insert. clear Hs. case_decide; [by eexists|done].
Qed.

(** Case analysis on the lookups of an updated state. *)
Ltac lookups :=
  repeat match goal with
  | H : context [<[_ := _]> _ !! _] |- _ => rewrite lookup_insert in H
  | H : context [delete _ _ !! _] |- _ => rewrite lookup_delete in H
  | H : context [a_unindex _ _ _ _ _ !! _] |- _ => rewrite unindex_lookup in H by done
  | |- context [<[_ := _]> _ !! _] => rewrite lookup_insert
  | |- context [delete _ _ !! _] => rewrite lookup_delete
  | |- context [a_unindex _ _ _ _ _ !! _] => rewrite unindex_lookup by done
  end;
  repeat case_decide; simplify_eq/=; try done;
  repeat match goal with H : is_Some None |- _ => by destruct H end.

Lemma a_enterPreschool_NInv k st :
  NInv st ->
  (forall c, is_Some (st !! LOut (kid_originChanPoint k) c (kid_OutPoint k)) -> c = Pscl) ->
  NInv (a_enterPreschool k st).
Proof.
  intros [] Hfresh. unfold a_enterPreschool. destruct (st !! _) as [i|] eqn:E; [done|].
  constructor.
  - intros l i. lookups. intros ?. lookups. auto.
  - by apply final_live_insert.
  - intros cp op b ?. lookups. eauto.
  - intros h cp op ?. lookups. eauto.
  - intros cp op ?. lookups. destruct (ni_kndr_idx0 cp op) as [h ?]; [done|]. exists h. lookups.
  - intros h cp op ?. lookups. eauto.
  - intros h h' cp op ? ?. lookups. eauto.
  - intros cp c c' op ? ?. lookups; eauto. symmetry. eauto.
Qed.

Lemma a_enterCrib_NInv b st :
  NInv st ->
  (forall c, is_Some (st !! LOut (baby_originChanPoint b) c (baby_OutPoint b)) -> c = Crib) ->
  NInv (a_enterCrib b st).
Proof.
  intros [] Hfresh. unfold a_enterCrib. destruct (st !! _) as [i|] eqn:E; [done|].
  constructor.
  - intros l i. lookups; intros ?; lookups; auto.
  - apply final_live_insert; [|done]. by apply final_live_insert.
  - intros cp op b' ?. lookups; eauto.
  - intros h cp op ?. lookups; eauto. edestruct ni_idx_crib0 as (? & ? & ?); [done|]. congruence.
  - intros cp op ?. lookups. destruct (ni_kndr_idx0 cp op) as [h ?]; [done|]. exists h. lookups.
  - intros h cp op ?. lookups. eauto.
  - intros h h' cp op ? ?. lookups. eauto.
  - intros cp c c' op ? ?. lookups; eauto. symmetry. eauto.
Qed.

(** The outputs handed to [Incubate] are new, or already waiting in the state
    they would enter. *)
Record incubate_fresh (kids : list kidOutput) (babies : list babyOutput) st : Prop := {
  if_kids k c : k ∈ kids ->
    is_Some (st !! LOut (kid_originChanPoint k) c (kid_OutPoint k)) -> c = Pscl;
  if_babies b c : b ∈ babies ->
    is_Some (st !! LOut (baby_originChanPoint b) c (baby_OutPoint b)) -> c = Crib;
  if_disjoint k b : k ∈ kids -> b ∈ babies ->
    kid_originChanPoint k = baby_originChanPoint b -> kid_OutPoint k <> baby_OutPoint b
}.

Lemma enterPreschool_out k st cp c op :
  is_Some (a_enterPreschool k st !! LOut cp c op) ->
  is_Some (st !! LOut cp c op)
  \/ cp = kid_originChanPoint k /\ c = Pscl /\ op = kid_OutPoint k.
Proof. unfold a_enterPreschool. case_match; [auto|]. intros ?. lookups; auto. Qed.

Lemma enterCrib_out b st cp c op :
  is_Some (a_enterCrib b st !! LOut cp c op) ->
  is_Some (st !! LOut cp c op)
  \/ cp = baby_originChanPoint b /\ c = Crib /\ op = baby_OutPoint b.
Proof. unfold a_enterCrib. case_match; [auto|]. intros ?. lookups; auto. Qed.

Lemma foldl_kids_NInv kids babies st :
  NInv st -> incubate_fresh kids babies st ->
  NInv (foldl (fun st k => a_enterPreschool k st) st kids)
  /\ incubate_fresh [] babies (foldl (fun st k => a_enterPreschool k st) st kids).
Proof.
  revert st. induction kids as [|k kids IH]; intros st Hi [Hk Hb Hd]; simpl.
  - split; [done|]. split; [set_solver|done|set_solver].
  - apply IH.
    + apply a_enterPreschool_NInv; [done|]. intros c. apply Hk. by left.
    + split.
      * intros k' c Hin Hs. apply enterPreschool_out in Hs as [?|(_ & ? & _)]; [|done].
        eapply Hk; [by right|done].
      * intros b c Hin Hs. apply enterPreschool_out in Hs as [?|(? & ? & ?)]; [by eapply Hb|].
        exfalso. eapply (Hd k b); [by left|done|done|done].
      * intros k' b Hin. apply Hd. by right.
Qed.

Lemma foldl_babies_NInv babies st :
  NInv st -> incubate_fresh [] babies st -> NInv (foldl (fun st b => a_enterCrib b st) st babies).
Proof.
  revert st. induction babies as [|b babies IH]; intros st Hi [_ Hb _]; simpl; [done|]. apply IH.
  - apply a_enterCrib_NInv; [done|]. intros c. apply Hb. by left.
  - split; [set_solver| |set_solver].
    intros b' c Hin Hs. apply enterCrib_out in Hs as [?|(_ & ? & _)]; [|done].
    eapply Hb; [by right|done].
Qed.

Lemma a_Incubate_NInv kids babies st :
  NInv st -> incubate_fresh kids babies st -> NInv (a_Incubate kids babies st).
Proof.
  intros Hi Hf. destruct (foldl_kids_NInv kids babies st Hi Hf). by apply foldl_babies_NInv.
Qed.

(** Moving an output to the kindergarten: it leaves the state [c] it was in and
    is registered at a new height. *)
Lemma enter_kinder_NInv st1 k h :
  (forall l i, st1 !! l = Some i -> typed l i) -> final_live st1 ->
  (forall cp op b, st1 !! LOut cp Crib op = Some (IBaby b) ->
     is_Some (st1 !! LIdx (baby_expiry b) cp Crib op)) ->
  (forall h cp op, is_Some (st1 !! LIdx h cp Crib op) ->
     exists b, st1 !! LOut cp Crib op = Some (IBaby b) /\ baby_expiry b = h) ->
  (forall cp op, is_Some (st1 !! LOut cp Kndr op) -> exists h, is_Some (st1 !! LIdx h cp Kndr op)) ->
  (forall h cp op, is_Some (st1 !! LIdx h cp Kndr op) -> is_Some (st1 !! LOut cp Kndr op)) ->
  (forall h h' cp op, is_Some (st1 !! LIdx h cp Kndr op) -> is_Some (st1 !! LIdx h' cp Kndr op) -> h = h') ->
  (forall cp c c' op, is_Some (st1 !! LOut cp c op) -> is_Some (st1 !! LOut cp c' op) -> c = c') ->
  (forall c, st1 !! LOut (kid_originChanPoint k) c (kid_OutPoint k) = None) ->
  NInv (<[LIdx h (kid_originChanPoint k) Kndr (kid_OutPoint k) := IMark]>
         (<[LOut (kid_originChanPoint k) Kndr (kid_OutPoint k) := IKid k]> st1)).
Proof.
  intros Ht Hf Hci Hic Hki Hik Hko H1 Hnone.
  assert (forall h, st1 !! LIdx h (kid_originChanPoint k) Kndr (kid_OutPoint k) = None) as Hni.
  { intros h'. destruct (st1 !! _) eqn:E; [|done].
    destruct (Hik h' (kid_originChanPoint k) (kid_OutPoint k)) as [j Hj]; [by rewrite E|].
    by rewrite Hnone in Hj. }
  constructor.
  - intros l i. lookups; intros ?; lookups; auto.
  - apply final_live_insert; [|done]. by apply final_live_insert.
  - intros cp op b ?. lookups. eauto.
  - intros h' cp op ?. lookups. eauto.
  - intros cp op ?. lookups.
    + exists h. lookups.
    + destruct (Hki cp op) as [h' ?]; [done|]. exists h'. lookups.
  - intros h' cp op ?. lookups; eauto.
  - intros h1 h2 cp op ? ?. lookups; eauto;
      match goal with H : is_Some (st1 !! _) |- _ => rewrite Hni in H; by destruct H end.
  - intros cp c c' op ? ?. lookups; eauto;
      match goal with H : is_Some (st1 !! _) |- _ => rewrite Hnone in H; by destruct H end.
Qed.

Lemma a_CribToKinder_NInv b b0 st :
  NInv st -> st !! LOut (baby_originChanPoint b) Crib (baby_OutPoint b) = Some (IBaby b0) ->
  baby_expiry b0 = baby_expiry b -> NInv (a_CribToKinder b st).
Proof.
  intros [] Hb0 He. unfold a_CribToKinder. apply (enter_kinder_NInv _ (baby_kidOutput b)).
  - intros l i Hl. destruct (decide (l = LFinal (baby_expiry b))) as [->|Hne].
    + apply unindex_final in Hl as [Hl _]. rewrite lookup_delete_ne in Hl by done. auto.
    + rewrite unindex_lookup in Hl by done. lookups. auto.
  - by apply final_live_unindex, final_live_delete_out.
  - intros cp op b' ?. lookups. eauto.
  - intros h cp op ?. lookups; (edestruct ni_idx_crib0 as (b' & ? & ?); [done|]);
      [congruence|by eauto].
  - intros cp op ?. lookups. destruct (ni_kndr_idx0 cp op) as [h ?]; [done|]. exists h. lookups.
  - intros h cp op ?. lookups. eauto.
  - intros h h' cp op ? ?. lookups. eauto.
  - intros cp c c' op ? ?. lookups. eauto.
  - intros c. change (kid_originChanPoint (baby_kidOutput b)) with (baby_originChanPoint b).
    change (kid_OutPoint (baby_kidOutput b)) with (baby_OutPoint b).
    rewrite unindex_out, lookup_delete. case_decide as Hc; [done|]. apply eq_None_not_Some.
    intros Hs. destruct Hc. f_equal. eapply ni_one0; [by exists (IBaby b0)|done].
Qed.

Lemma a_PreschoolToKinder_NInv k st :
  NInv st -> is_Some (st !! LOut (kid_originChanPoint k) Pscl (kid_OutPoint k)) ->
  NInv (a_PreschoolToKinder k st).
Proof.
  intros [] Hp. unfold a_PreschoolToKinder. apply enter_kinder_NInv.
  - intros l i Hl. lookups. auto.
  - by apply final_live_delete_out.
  - intros cp op b' ?. lookups. eauto.
  - intros h cp op ?. lookups. eauto.
  - intros cp op ?. lookups. destruct (ni_kndr_idx0 cp op) as [h ?]; [done|]. exists h. lookups.
  - intros h cp op ?. lookups. eauto.
  - intros h h' cp op ? ?. lookups. eauto.
  - intros cp c c' op ? ?. lookups. eauto.
  - intros c. rewrite lookup_delete. case_decide as Hc; [done|]. apply eq_None_not_Some.
    intros Hs. destruct Hc. f_equal. by eapply ni_one0.
Qed.

End NurseryInv.
