(* ===== verification/NurseryClass.v ===== *)
(** * Classes of outputs

    Loading and graduating the class of a height, and the queries and the
    removal of whole channels. *)

From Stdlib Require Import ZArith Lia Sorted.
From Stdlib Require Import Init.Byte.
From stdpp Require Import base gmap countable strings numbers list.
From S2P Require Import Prelude Stream Tx Outputs Bolt NurseryStore NurseryAbs NurseryRefine NurseryInv.
Local Open Scope Z_scope.

Section NurseryClass.
Context {BTC : Btcec} (ns : nurseryStore).
Local Abbreviation pfx := (ns_pfxChainKey ns).
Implicit Types (st : gmap loc item) (db : bucket).

(** ** Graduation *)

Definition graduateAll (h : Z) (st : gmap loc item) (dn : list (OutPoint * OutPoint)) : gmap loc item :=
  foldl (fun st p => a_graduateOutput h p.1 p.2 st) (delete (LFinal h) st) dn.

(** What graduating the class of height [h] means: its kindergarten outputs
    become graduated outputs of their channels, leave the height index, and the
    finalized transaction of the height is forgotten; nothing else changes. *)
Record graduated (h : Z) (st st' : gmap loc item) : Prop := {
  gr_out cp c op : st' !! LOut cp c op =
    if decide (is_Some (st !! LIdx h cp Kndr op)) then
      match c with
      | Kndr => None
      | Grad => st !! LOut cp Kndr op
      | _ => st !! LOut cp c op
      end
    else st !! LOut cp c op;
  gr_idx h' cp c op : st' !! LIdx h' cp c op =
    if decide (h' = h /\ c = Kndr) then None else st !! LIdx h' cp c op;
  gr_final h' : st' !! LFinal h' = if decide (h' = h) then None else st !! LFinal h';
  gr_lastF : st' !! LLastF = st !! LLastF;
  gr_lastG : st' !! LLastG = st !! LLastG
}.

Lemma graduateOutput_other h cp op st l :
  l <> LFinal h -> l <> LIdx h cp Kndr op -> l <> LOut cp Kndr op -> l <> LOut cp Grad op ->
  a_graduateOutput h cp op st !! l = st !! l.
Proof.
  intros H1 H2 H3 H4. unfold a_graduateOutput. destruct (st !! LOut cp Kndr op); [|done].
  rewrite lookup_insert_ne, lookup_delete_ne, unindex_lookup by done. by rewrite decide_False.
Qed.

Lemma graduateAll_snoc h st dn p :
  graduateAll h st (dn ++ [p]) = a_graduateOutput h p.1 p.2 (graduateAll h st dn).
Proof. unfold graduateAll. by rewrite foldl_app. Qed.

Lemma graduateAll_final h st dn : graduateAll h st dn !! LFinal h = None.
Proof.
  induction dn as [|[cp op] dn IH] using rev_ind.
  - unfold graduateAll. simpl. apply lookup_delete_eq.
  - rewrite graduateAll_snoc. simpl. unfold a_graduateOutput. destruct (_ !! LOut cp Kndr op); [|done].
    rewrite lookup_insert_ne, lookup_delete_ne by done. unfold a_unindex.
    case_match; [by rewrite lookup_delete_ne|apply lookup_delete_eq].
Qed.

Lemma graduateAll_lookup h st dn l :
  (forall cp op, l = LIdx h cp Kndr op \/ l = LOut cp Kndr op \/ l = LOut cp Grad op -> (cp, op) ∉ dn) ->
  graduateAll h st dn !! l = if decide (l = LFinal h) then None else st !! l.
Proof.
  case_decide as Hl; [subst; intros _; apply graduateAll_final|].
  induction dn as [|[cp op] dn IH] using rev_ind; intros H.
  - unfold graduateAll. simpl. by rewrite lookup_delete_ne.
  - rewrite graduateAll_snoc. simpl. rewrite graduateOutput_other; [|done|..].
    + apply IH. intros cp' op' Hc Hin. eapply H; [done|]. set_solver.
    + intros ->. eapply (H cp op); [by left|set_solver].
    + intros ->. eapply (H cp op); [by right; left|set_solver].
    + intros ->. eapply (H cp op); [by right; right|set_solver].
Qed.

Lemma graduateAll_done h st dn cp op i :
  NoDup dn -> (cp, op) ∈ dn -> st !! LOut cp Kndr op = Some i ->
  graduateAll h st dn !! LIdx h cp Kndr op = None
  /\ graduateAll h st dn !! LOut cp Kndr op = None
  /\ graduateAll h st dn !! LOut cp Grad op = Some i.
Proof.
  intros Hnd Hin Hi. induction dn as [|[cp' op'] dn IH] using rev_ind; [set_solver|].
  apply NoDup_app in Hnd as (Hnd & Hn & _). rewrite graduateAll_snoc. simpl.
  destruct (decide ((cp, op) = (cp', op'))) as [[= <- <-]|Hne].
  - assert ((cp, op) ∉ dn) as Hnin by set_solver.
    assert (graduateAll h st dn !! LOut cp Kndr op = Some i) as Hg.
    { rewrite graduateAll_lookup; [by rewrite decide_False|]. intros ? ? [?|[?|?]]; by simplify_eq. }
    unfold a_graduateOutput. rewrite Hg. split; [|split].
    + rewrite lookup_insert_ne, lookup_delete_ne, unindex_lookup by done. by rewrite decide_True.
    + rewrite lookup_insert_ne by done. by rewrite lookup_delete_eq.
    + by rewrite lookup_insert_eq.
  - rewrite elem_of_app, list_elem_of_singleton in Hin. destruct Hin as [Hin|]; [|done].
    destruct (IH Hnd Hin) as (? & ? & ?).
    rewrite !graduateOutput_other by congruence. done.
Qed.

Lemma graduateAll_graduated h st dn :
  NInv st -> NoDup dn -> (forall cp op, (cp, op) ∈ dn <-> is_Some (st !! LIdx h cp Kndr op)) ->
  graduated h st (graduateAll h st dn).
Proof.
  intros Hi Hnd Hdn.
  assert (forall cp op, (cp, op) ∈ dn -> exists i, st !! LOut cp Kndr op = Some i) as Hout.
  { intros cp op Hin%Hdn. by eapply ni_idx_kndr. }
  constructor.
  - intros cp c op. case_decide as Hx.
    + apply Hdn in Hx as Hin. destruct (Hout _ _ Hin) as [i Ho].
      destruct (graduateAll_done h st dn cp op i Hnd Hin Ho) as (_ & Hk & Hg).
      destruct c; [| |by rewrite Hk|by rewrite Hg, Ho].
      all: rewrite graduateAll_lookup; [by rewrite decide_False|].
      all: intros ? ? [?|[?|?]]; by simplify_eq.
    + rewrite graduateAll_lookup; [by rewrite decide_False|].
      intros ? ? [?|[?|?]]; simplify_eq; by rewrite Hdn.
  - intros h' cp c op. case_decide as Hx.
    + destruct Hx as [-> ->]. destruct (decide (is_Some (st !! LIdx h cp Kndr op))) as [Hs|Hs].
      * apply Hdn in Hs as Hin. destruct (Hout _ _ Hin) as [i Ho].
        by destruct (graduateAll_done h st dn cp op i Hnd Hin Ho) as (? & _).
      * rewrite graduateAll_lookup; [rewrite decide_False by done; by apply eq_None_not_Some|].
        intros ? ? [?|[?|?]]; simplify_eq; by rewrite Hdn.
    + rewrite graduateAll_lookup; [by rewrite decide_False|].
      intros ? ? [?|[?|?]]; simplify_eq. by destruct Hx.
  - intros h'. case_decide as Hx; [subst; apply graduateAll_final|].
    rewrite graduateAll_lookup; [rewrite decide_False; congruence|].
    intros ? ? [?|[?|?]]; by simplify_eq.
  - rewrite graduateAll_lookup; [done|]. intros ? ? [?|[?|?]]; by simplify_eq.
  - rewrite graduateAll_lookup; [done|]. intros ? ? [?|[?|?]]; by simplify_eq.
Qed.

Lemma graduated_NInv h st st' : NInv st -> graduated h st st' -> NInv st'.
Proof.
  intros [Ht Hf Hci Hic Hki Hik Hko H1] [Go Gi Gf GF GG]. constructor.
  - intros [cp c op|h' cp c op|h'| |] i; rewrite ?Go, ?Gi, ?Gf, ?GF, ?GG; repeat case_decide; intros Hl;
      try done; try by apply Ht in Hl.
    all: destruct c; try done; apply Ht in Hl; try done; by destruct i.
  - intros h'. rewrite Gf. case_decide as Hx; [by intros []|]. intros Hs.
    apply Hf, live_true in Hs as (cp & c & op & Hs). apply live_true. exists cp, c, op.
    rewrite Gi. rewrite decide_False; [done|]. by intros [? _].
  - intros cp op b. rewrite Go, Gi. rewrite (decide_False (P := _ /\ _)) by naive_solver.
    case_decide; apply Hci.
  - intros h' cp op. rewrite Gi, Go. rewrite (decide_False (P := _ /\ _)) by naive_solver.
    case_decide; apply Hic.
  - intros cp op. rewrite Go. case_decide as Hx; [by intros []|]. intros [h' Hh]%Hki. exists h'.
    rewrite Gi. rewrite decide_False; [done|]. intros [-> _]. done.
  - intros h' cp op. rewrite Gi. case_decide as Hx; [by intros []|]. intros Hs.
    rewrite Go. rewrite decide_False; [by eapply Hik|]. intros Hs'.
    apply Hx. split; [by eapply Hko|done].
  - intros h1 h2 cp op. rewrite !Gi. repeat case_decide; try by intros []. apply Hko.
  - intros cp c c' op. rewrite !Go. case_decide as Hx; [|apply H1].
    pose proof (Hik _ _ _ Hx) as Hk.
    destruct c, c'; try done; intros Hs Hs'; try (by destruct Hs); try (by destruct Hs');
      try (by assert (Kndr = Crib) by (by eapply H1));
      try (by assert (Kndr = Pscl) by (by eapply H1)).
    all: by assert (Crib = Pscl) by (by eapply H1).
Qed.

Lemma NInv_kndr st cp op i :
  NInv st -> st !! LOut cp Kndr op = Some i ->
  exists k, i = IKid k /\ kid_originChanPoint k = cp /\ kid_OutPoint k = op.
Proof. intros Hi Ho. apply (ni_typed _ Hi) in Ho. destruct i; simpl in Ho; try done. eauto. Qed.

Lemma NInv_sound st h cp c op :
  NInv st -> is_Some (st !! LIdx h cp c op) -> is_Some (st !! LOut cp c op).
Proof.
  intros Hi [i Hs]. pose proof (ni_typed _ Hi _ _ Hs) as Ht. destruct c; try done.
  - edestruct (ni_idx_crib _ Hi h cp op) as (b & -> & _); eauto.
  - eapply ni_idx_kndr; eauto.
Qed.

Lemma wp_graduateOutput db0 st db h k Q :
  nrel ns db0 no_extra st db -> final_live st -> is_u32 h ->
  st !! LOut (kid_originChanPoint k) Kndr (kid_OutPoint k) = Some (IKid k) ->
  (forall db', nrel ns db0 no_extra
                 (a_graduateOutput h (kid_originChanPoint k) (kid_OutPoint k) st) db' -> Q tt db') ->
  wp (graduateOutput ns h (kid_Encode k)) Q db.
Proof.
  intros H Hf Hh Hk HQ. destruct (nr_ok _ _ _ _ _ H _ _ Hk) as [[Hcp Hop] Hik].
  pose proof Hik as [_ Hok].
  unfold graduateOutput. rewrite <- (app_nil_r (kid_Encode k)), kid_Decode_Encode by done.
  apply wp_bind, wp_res. simpl.
  apply wp_bind. eapply (wp_removeOutputFromHeight _ _ _ _ _ _ _ Kndr); [done|by intros p []|done..|].
  intros db1 H1. apply wp_bind, wp_getChannelBucket. unfold handle.
  assert (justified (a_unindex h (kid_originChanPoint k) Kndr (kid_OutPoint k) st)
            (chan_dir (kid_originChanPoint k))) as Hj.
  { eapply (justified_out _ _ Kndr). rewrite unindex_out. by rewrite Hk. }
  rewrite (nrel_justified _ _ _ _ _ _ H1 Hj).
  apply (nrel_weaken _ _ _ (fun q => q = chan_dir (kid_originChanPoint k))) in H1;
    [|by intros p []|intros p ->; by right].
  apply wp_bind. eapply (wp_del_out _ _ _ _ _ _ Kndr); [exact H1|done..|]. intros db2 H2.
  change (prefixOutputKey kndrPrefix (kid_OutPoint k)) with (out_key Kndr (kid_OutPoint k)).
  rewrite (copy_prefix_key Kndr Grad).
  eapply (wp_put_out _ _ _ _ _ _ Grad _ (IKid k)); [exact H2|done..|]. intros db3 H3.
  apply HQ. unfold a_graduateOutput. rewrite Hk.
  eapply nrel_weaken; [| |exact H3]; [by intros p [-> ?]|by intros p []].
Qed.

Lemma graduate_walk h st :
  NInv st -> class_walk h Kndr (delete (LFinal h) st) (graduateAll h st).
Proof.
  intros Hi. constructor.
  - done.
  - intros cp c' op. rewrite !lookup_delete_ne by done. by apply NInv_sound.
  - intros dn cp c' op Hc. rewrite graduateAll_lookup.
    + by rewrite decide_False, lookup_delete_ne.
    + intros ? ? [?|[?|?]]; simplify_eq. naive_solver.
  - intros dn cp op Hc. rewrite graduateAll_lookup.
    + by rewrite decide_False, lookup_delete_ne.
    + intros ? ? [?|[?|?]]; by simplify_eq.
  - intros dn cp Hj. induction dn as [|[cp' op'] dn IH] using rev_ind; [done|].
    rewrite graduateAll_snoc. simpl. destruct IH as (l & Hs & Hp).
    destruct l as [cp0 c0 op0|h0 cp0 c0 op0|h0| |].
    + unfold a_graduateOutput. destruct (_ !! LOut cp' Kndr op') as [i|] eqn:E; [|by exists (LOut cp0 c0 op0)].
      destruct (decide (LOut cp0 c0 op0 = LOut cp' Kndr op')) as [[= -> -> ->]|Hne].
      * exists (LOut cp' Grad op'). split; [by rewrite lookup_insert_eq|done].
      * exists (LOut cp0 c0 op0). split; [|done]. rewrite lookup_insert. case_decide; [done|].
        rewrite lookup_delete_ne, unindex_out by done. done.
    + destruct Hp as [r Hr]. unfold chan_dir in Hr. simpl in Hr. path_inv.
    + destruct Hp as [r Hr]. unfold chan_dir in Hr. simpl in Hr. path_inv.
    + destruct Hp as [r Hr]. done.
    + destruct Hp as [r Hr]. done.
Qed.

Lemma final_live_graduateAll h st dn : final_live st -> final_live (graduateAll h st dn).
Proof.
  intros Hf. induction dn as [|[cp op] dn IH] using rev_ind.
  - intros h' Hs. unfold graduateAll in *. simpl in *. rewrite lookup_delete in Hs.
    case_decide; [by destruct Hs|]. apply Hf, live_true in Hs as (cp & c & op & Hs).
    apply live_true. exists cp, c, op. by rewrite lookup_delete_ne.
  - rewrite graduateAll_snoc. simpl. unfold a_graduateOutput. case_match; [|done].
    apply final_live_insert; [|done]. by apply final_live_delete_out, final_live_unindex.
Qed.

Lemma wp_GraduateKinder db st h :
  nrel ns db no_extra st db -> NInv st -> is_u32 h ->
  wp (hghtBucket ← getHeightBucket ns h;
      match hghtBucket with
      | None => mret tt
      | Some hghtBucket =>
          _ ← b_Delete hghtBucket finalizedKndrTxnKey;
          forEachHeightPrefix ns kndrPrefix h (fun _ v => graduateOutput ns h v) tt
      end)
     (fun _ db' => exists st', graduated h st st' /\ nrel ns db no_extra st' db') db.
Proof.
  intros H Hi Hh. apply wp_bind, wp_getHeightBucket. unfold handle.
  pose proof (ni_final _ Hi) as Hf. rewrite (has_height_live _ _ _ _ _ H Hh Hf).
  destruct (live st h) eqn:L.
  2: { apply wp_ret. exists (graduateAll h st []).
       split; [apply graduateAll_graduated; [done|constructor|]|].
       - intros cp op. rewrite (proj1 (live_false st h) L). split; [set_solver|by intros []].
       - unfold graduateAll. simpl. rewrite delete_id; [done|]. apply eq_None_not_Some.
         intros Hs%Hf. congruence. }
  apply wp_bind. eapply (wp_ndel _ _ _ _ _ (LFinal h)); [done|done| |].
  { change (has db (pfx :: height_dir h) = true). by rewrite (has_height_live _ _ _ _ _ H Hh Hf). }
  intros db1 H1 _.
  assert (nrel ns db no_extra (delete (LFinal h) st) db1) as H1'.
  { eapply nrel_weaken; [| |exact H1]; [|by intros p []].
    intros p [[]|[Hp _]]. right; right. apply live_true in L as (cp & c & op & Hs).
    exists (LIdx h cp c op). split; [by rewrite lookup_delete_ne|].
    destruct Hp as [r Hr]. exists (r ++ [writeOutpoint cp]). simpl in *. by rewrite app_assoc, <- Hr. }
  eapply wp_mono; [eapply (wp_forEachHeightPrefix ns _ _ _ h Kndr (graduateAll h st) (fun _ _ => True));
                   [by apply graduate_walk|done|done|by apply (final_live_graduateAll h st [])|done|]|].
  - intros dn cp op i u db2 Hn Hidx Ho H2 _. rewrite lookup_delete_ne in Ho by done.
    destruct (NInv_kndr _ _ _ _ Hi Ho) as (k & -> & <- & <-).
    eapply wp_graduateOutput; [exact H2|by apply final_live_graduateAll|done| |].
    + rewrite graduateAll_lookup; [by rewrite decide_False|]. intros ? ? [?|[?|?]]; by simplify_eq.
    + intros db3 H3. by rewrite graduateAll_snoc.
  - intros u db2 (dn & Hnd & Hdn & H2 & _). exists (graduateAll h st dn). split; [|done].
    apply graduateAll_graduated; [done|done|]. intros cp op. rewrite Hdn. by rewrite lookup_delete_ne.
Qed.

Lemma GraduateKinder_refines db st h :
  represents ns db st -> NInv st -> is_u32 h ->
  exists db' st', GraduateKinder ns h db = (Ok tt, db') /\ nframe ns db db'
    /\ graduated h st st' /\ represents ns db' st'.
Proof.
  intros H Hi Hh. destruct (wp_Update_unit _ (fun db' => exists st', graduated h st st'
    /\ nrel ns db no_extra st' db') db (wp_GraduateKinder db st h H Hi Hh)) as (db' & E & st' & Hg & H').
  exists db', st'. apply nrel_represents in H' as [? ?]. auto.
Qed.

(** ** Loading a class *)

Lemma const_walk h c st : NInv st -> class_walk h c st (fun _ => st).
Proof. intros Hi. constructor; try done. intros cp c' op. by apply NInv_sound. Qed.

(** The outputs of the pairs of a channel and an outpoint in [dn]. *)
Definition kids_of st (dn : list (OutPoint * OutPoint)) (ks : list kidOutput) : Prop :=
  Forall2 (fun p k => st !! LOut p.1 Kndr p.2 = Some (IKid k)) dn ks.
Definition babies_of st (dn : list (OutPoint * OutPoint)) (bs : list babyOutput) : Prop :=
  Forall2 (fun p b => st !! LOut p.1 Crib p.2 = Some (IBaby b)) dn bs.

(** [class st h c dn]: [dn] lists the outputs in state [c] registered at [h]. *)
Definition class st (h : Z) (c : oclass) (dn : list (OutPoint * OutPoint)) : Prop :=
  NoDup dn /\ forall cp op, (cp, op) ∈ dn <-> is_Some (st !! LIdx h cp c op).

Definition finalTx st (h : Z) : option MsgTx :=
  match st !! LFinal h with Some (ITx t) => Some t | _ => None end.

Lemma wp_getFinalizedTxn db0 st db h Q :
  nrel ns db0 no_extra st db -> NInv st -> is_u32 h -> Q (finalTx st h) db ->
  wp (getFinalizedTxn ns h) Q db.
Proof.
  intros H Hi Hh HQ. apply wp_bind, wp_getHeightBucket. unfold handle.
  pose proof (ni_final _ Hi) as Hf. rewrite (has_height_live _ _ _ _ _ H Hh Hf). unfold finalTx in HQ.
  destruct (live st h) eqn:L.
  - apply wp_bind. eapply (wp_nget _ _ _ _ _ (LFinal h) _ H Hh).
    destruct (st !! LFinal h) as [i|] eqn:E; simpl; [|by apply wp_ret].
    pose proof (ni_typed _ Hi _ _ E) as Ht. destruct i; try done. simpl.
    destruct (nr_ok _ _ _ _ _ H _ _ E) as [_ [_ Hok]]. simpl in Hok.
    rewrite <- (app_nil_r (Serialize t)), Deserialize_Serialize by done.
    apply wp_bind, wp_res. by apply wp_ret.
  - apply wp_ret. destruct (st !! LFinal h) eqn:E; [|done]. rewrite Hf in L; [done|by rewrite E].
Qed.

Lemma FetchClass_spec db st h :
  represents ns db st -> NInv st -> is_u32 h ->
  exists kids babies dk dc, FetchClass ns h db = Ok (finalTx st h, kids, babies)
    /\ class st h Kndr dk /\ kids_of st dk kids
    /\ class st h Crib dc /\ babies_of st dc babies.
Proof.
  intros H Hi Hh. pose proof (ni_final _ Hi) as Hf.
  eassert (wp _ (fun r _ => exists kids babies dk dc, r = (finalTx st h, kids, babies)
    /\ class st h Kndr dk /\ kids_of st dk kids
    /\ class st h Crib dc /\ babies_of st dc babies) db) as Hwp.
  2: { apply wp_View in Hwp as (r & _ & Hv & kids & babies & dk & dc & -> & Hr).
       exists kids, babies, dk, dc. split; [exact Hv|exact Hr]. }
  apply wp_bind. eapply wp_getFinalizedTxn; [done..|].
  apply wp_bind. eapply wp_mono; [eapply (wp_forEachHeightPrefix ns db st db h Crib (fun _ => st) (babies_of st));
    [by apply const_walk|done|done|done|constructor|]|].
  { intros dn cp op i bs db1 Hn Hidx Ho H1 HK. pose proof (ni_typed _ Hi _ _ Ho) as Ht.
    destruct i; simpl in Ht; try done. destruct (nr_ok _ _ _ _ _ H _ _ Ho) as [_ [_ Hok]]. simpl in Hok.
    simpl item_enc. rewrite <- (app_nil_r (baby_Encode b)), baby_Decode_Encode by done.
    apply wp_bind, wp_res, wp_ret. split; [done|]. apply Forall2_app; [done|]. by repeat constructor. }
  intros babies db1 (dnb & Hnb & Hdb & H1 & HKb).
  apply wp_bind. eapply wp_mono; [eapply (wp_forEachHeightPrefix ns db st db1 h Kndr (fun _ => st) (kids_of st));
    [by apply const_walk|done|done|done|constructor|]|].
  { intros dn cp op i ks db2 Hn Hidx Ho H2 HK. destruct (NInv_kndr _ _ _ _ Hi Ho) as (k & -> & _).
    destruct (nr_ok _ _ _ _ _ H _ _ Ho) as [_ [_ Hok]]. simpl in Hok.
    simpl item_enc. rewrite <- (app_nil_r (kid_Encode k)), kid_Decode_Encode by done.
    apply wp_bind, wp_res, wp_ret. split; [done|]. apply Forall2_app; [done|]. by repeat constructor. }
  intros kids db2 (dnk & Hnk & Hdk & H2 & HKk). apply wp_ret.
  exists kids, babies, dnk, dnb. done.
Qed.

End NurseryClass.
