(* ===== verification/NurseryQuery.v ===== *)
(** * Queries over the nursery

    The lists of heights, channels and preschool outputs, and the maturity and
    removal of a channel. *)

From Stdlib Require Import ZArith Lia Sorted.
From Stdlib Require Import Init.Byte.
From stdpp Require Import base gmap countable strings numbers list.
From S2P Require Import Prelude Stream Tx Outputs Bolt NurseryStore NurseryAbs NurseryRefine NurseryInv.
Local Open Scope Z_scope.

Section NurseryQuery.
Context {BTC : Btcec} (ns : nurseryStore).
Local Abbreviation pfx := (ns_pfxChainKey ns).
Implicit Types (st : gmap loc item) (db : bucket).

(** ** The outputs of a channel *)

Definition tracked st (cp : OutPoint) : Prop := exists c op, is_Some (st !! LOut cp c op).
Definition mature st (cp : OutPoint) : Prop :=
  forall c op, is_Some (st !! LOut cp c op) -> c = Grad.

Lemma chan_prefix cp l :
  OutPoint_ok cp -> loc_ok l -> chan_dir cp `prefix_of` loc_dir l -> exists c op, l = LOut cp c op.
Proof. intros Hcp Hl [q E]. destruct l; simpl in *; destruct_and?; path_inv; eauto. Qed.

Lemma has_chan_tracked db0 st db cp :
  nrel ns db0 no_extra st db -> OutPoint_ok cp ->
  has db (pfx :: chan_dir cp) = true <-> tracked st cp.
Proof.
  intros H Hcp. split.
  - intros Hb. destruct (nr_dirs _ _ _ _ _ H _ Hb) as (l & Hl & Hp & [Hs|[[]|Hs]]).
    + destruct Hs as [?|[?|?]]; unfold chan_dir in *; path_inv.
    + apply chan_prefix in Hp as (c & op & ->); [|done..]. by exists c, op.
  - intros (c & op & Hs). eapply nrel_justified; [done|]. by eapply justified_out.
Qed.

Definition chan_entry (x : oclass * OutPoint * item) : bytes * option bytes :=
  (out_key x.1.1 x.1.2, Some (item_enc x.2)).

Lemma entries_list (es : list (bytes * option bytes)) (P : oclass * OutPoint * item -> Prop) :
  (forall kv, kv ∈ es -> exists x, P x /\ kv = chan_entry x) ->
  exists xs, es = chan_entry <$> xs /\ forall x, x ∈ xs -> P x.
Proof. apply lift_list. Qed.

(** What an iteration over a channel bucket visits. *)
Lemma wp_chan_entries db0 st db cp Q :
  nrel ns db0 no_extra st db -> OutPoint_ok cp -> has db (pfx :: chan_dir cp) = true ->
  (forall xs, NoDup xs.*1 ->
     (forall c op i, (c, op, i) ∈ xs <-> st !! LOut cp c op = Some i) ->
     Q (chan_entry <$> xs) db) ->
  wp (b_entries (pfx :: chan_dir cp)) Q db.
Proof.
  intros H Hcp Hb HQ. apply wp_entries; [apply H|done|]. intros es [Ho Hh] Hnd.
  destruct (entries_list es (fun x => OutPoint_ok x.1.2 /\ st !! LOut cp x.1.1 x.1.2 = Some x.2)) as (xs & -> & Hxs).
  { intros [k [v|]] Hin.
    - apply Ho in Hin. destruct (nrel_obs_inv _ _ _ _ _ _ _ _ H Hin) as (l & i & Hi & Hl & Hd & -> & ->).
      destruct (chan_prefix cp l) as (c & op & ->); [done..|by rewrite <- Hd; exists []|].
      exists (c, op, i). destruct Hl. done.
    - apply Hh in Hin. destruct (nr_dirs _ _ _ _ _ H _ Hin) as (l & Hl & [r Hr] & _).
      exfalso. destruct l; simpl in Hr; path_inv. }
  apply HQ.
  - apply (NoDup_fmap_1 (fun x : oclass * OutPoint => out_key x.1 x.2)).
    rewrite <- list_fmap_compose. rewrite <- list_fmap_compose in Hnd. exact Hnd.
  - intros c op i. split; [intros Hin; by apply (Hxs (c, op, i))|]. intros Hi.
    pose proof (nrel_obs_out _ _ _ _ _ _ _ _ _ H Hi) as Ho'. apply Ho in Ho'.
    apply list_elem_of_fmap in Ho' as ([[c' op'] i'] & E & Hin). unfold chan_entry in E. simpl in E.
    apply (f_equal fst) in E as Ek. simpl in Ek. destruct (Hxs _ Hin) as [Hop' Hi']. simpl in Hop', Hi'.
    destruct (nr_ok _ _ _ _ _ H _ _ Hi) as [[_ Hop] _].
    apply out_key_inj in Ek as [-> ->]; [|done..]. congruence.
Qed.

(** ** Maturity *)

Lemma mature_Forall st cp xs :
  (forall c op i, (c, op, i) ∈ xs <-> st !! LOut cp c op = Some i) ->
  Forall (fun x : oclass * OutPoint * item => x.1.1 = Grad) xs <-> mature st cp.
Proof.
  intros Hxs. rewrite Forall_forall. split.
  - intros H c op [i Hi]. by apply Hxs, H in Hi.
  - intros H [[c op] i] Hin%Hxs. eapply H; eauto.
Qed.

(** [forChanOutputs] runs its callback over the outputs of the channel. *)
Lemma forChanOutputs_entries db0 st db cp :
  nrel ns db0 no_extra st db -> OutPoint_ok cp -> tracked st cp ->
  exists xs, NoDup xs.*1 /\ (forall c op i, (c, op, i) ∈ xs <-> st !! LOut cp c op = Some i)
    /\ forall S (f : S -> bytes -> option bytes -> TX S) s,
         forChanOutputs ns cp f s db = tx_foldl (fun s kv => f s kv.1 kv.2) s (chan_entry <$> xs) db.
Proof.
  intros H Hcp Ht.
  assert (has db (pfx :: chan_dir cp) = true) as Hb by (by eapply has_chan_tracked).
  destruct (wp_chan_entries db0 st db cp (fun es b => b = db /\ exists xs, es = chan_entry <$> xs
     /\ NoDup xs.*1 /\ forall c op i, (c, op, i) ∈ xs <-> st !! LOut cp c op = Some i) H Hcp Hb)
    as (es & b & Ee & -> & xs & -> & Hnd & Hxs); [by eauto 6|].
  exists xs. split; [done|]. split; [done|]. intros S f s.
  unfold forChanOutputs. unfold mbind at 1, tx_bind at 1.
  destruct (wp_getChannelBucket ns db cp (fun r b => r = Some (pfx :: chan_dir cp) /\ b = db))
    as (r & b & -> & -> & ->); [unfold handle; by rewrite Hb|].
  unfold mbind, tx_bind. by rewrite Ee.
Qed.

Lemma forChanOutputs_untracked {S} (f : S -> bytes -> option bytes -> TX S) s db0 st db cp :
  nrel ns db0 no_extra st db -> OutPoint_ok cp -> ~ tracked st cp ->
  forChanOutputs ns cp f s db = Err ErrContractNotFound.
Proof.
  intros H Hcp Ht. assert (has db (pfx :: chan_dir cp) = false) as Hb.
  { destruct (has _ _) eqn:E; [|done]. by eapply has_chan_tracked in E. }
  unfold forChanOutputs, mbind at 1, tx_bind at 1.
  destruct (wp_getChannelBucket ns db cp (fun r b => r = None /\ b = db)) as (r & b & -> & -> & ->); [|done].
  unfold handle. by rewrite Hb.
Qed.

Lemma foldl_all_ok {A S} (f : S -> A -> TX S) l s db :
  (forall s a, a ∈ l -> exists s', f s a db = Ok (s', db)) -> exists s', tx_foldl f s l db = Ok (s', db).
Proof.
  revert s. induction l as [|a l IH]; intros s H; [by exists s|]. simpl. unfold mbind, tx_bind.
  destruct (H s a) as [s' ->]; [by left|]. apply IH. intros; apply H; by right.
Qed.

(** An immature channel is rejected wherever the offending output comes in the
    iteration. *)
Lemma foldl_some_err {A S} (f : S -> A -> TX S) (P : A -> Prop) l s db e :
  (forall s a db, a ∈ l -> P a -> exists s' db', f s a db = Ok (s', db')) ->
  (forall s a db, a ∈ l -> ~ P a -> f s a db = Err e) ->
  (forall a, P a \/ ~ P a) -> ~ Forall P l -> tx_foldl f s l db = Err e.
Proof.
  intros Hok Herr Hdec. revert s db. induction l as [|a l IH]; intros s db Hn; [by destruct Hn|].
  simpl. unfold mbind, tx_bind. destruct (Hdec a) as [Ha|Ha].
  - destruct (Hok s a db) as (s' & db' & ->); [by left|done|]. apply IH.
    + intros; apply Hok; [by right|done].
    + intros; apply Herr; [by right|done].
    + intros Hl. apply Hn. by constructor.
  - by rewrite (Herr s a db) by (done || by left).
Qed.

Lemma grad_key_prefix c op : has_prefix gradPrefix (out_key c op) = bool_decide (Grad = c).
Proof. apply (out_key_prefix Grad). Qed.

Lemma IsMatureChannel_spec db st cp :
  represents ns db st -> OutPoint_ok cp ->
  (tracked st cp -> exists m, IsMatureChannel ns cp db = Ok m /\ (m = true <-> mature st cp))
  /\ (~ tracked st cp -> IsMatureChannel ns cp db = Err ErrContractNotFound).
Proof.
  intros H Hcp. unfold IsMatureChannel, View. split; intros Ht.
  2: by rewrite (forChanOutputs_untracked _ _ _ _ _ _ H Hcp Ht).
  destruct (forChanOutputs_entries _ _ _ _ H Hcp Ht) as (xs & _ & Hxs & ->).
  pose proof (mature_Forall st cp xs Hxs) as HmF. rewrite tx_foldl_fmap.
  destruct (decide (Forall (fun x : oclass * OutPoint * item => x.1.1 = Grad) xs)) as [Hm|Hm].
  - match goal with |- context [tx_foldl ?f ?s ?l ?d] =>
      destruct (foldl_all_ok f l s d) as [s' ->] end; [|exists true; naive_solver].
    intros [] [[c op] i] Hin. exists tt. rewrite Forall_forall in Hm. apply Hm in Hin. unfold chan_entry; cbn [fst snd] in *.
    by rewrite Hin, grad_key_prefix.
  - rewrite (foldl_some_err _ (fun x : oclass * OutPoint * item => x.1.1 = Grad) _ _ _ ErrImmatureChannel); [exists false; naive_solver|..].
    + intros s [[c op] i] db' _ Hc. unfold chan_entry; cbn [fst snd] in *. exists tt, db'. by rewrite Hc, grad_key_prefix.
    + intros s [[c op] i] db' _ Hc. unfold chan_entry; cbn [fst snd] in *. rewrite grad_key_prefix.
      by rewrite bool_decide_eq_false_2 by congruence.
    + intros x. destruct (decide (x.1.1 = Grad)); auto.
    + done.
Qed.

(** ** Removing a channel *)

Definition other_chan (cp : OutPoint) (l : loc) : Prop :=
  match l with LOut cp' _ _ => cp' <> cp | _ => True end.

#[global] Instance other_chan_dec cp l : Decision (other_chan cp l).
Proof. destruct l; simpl; apply _. Defined.

Definition a_RemoveChannel (cp : OutPoint) (st : gmap loc item) : gmap loc item :=
  filter (fun li => other_chan cp li.1) st.

Lemma RemoveChannel_lookup cp st l i :
  a_RemoveChannel cp st !! l = Some i
  <-> st !! l = Some i /\ other_chan cp l.
Proof. unfold a_RemoveChannel. by rewrite map_lookup_filter_Some. Qed.

Lemma mature_no_idx st h cp c op : NInv st -> mature st cp -> st !! LIdx h cp c op = None.
Proof.
  intros Hi Hm. apply eq_None_not_Some. intros Hs. pose proof Hs as [i Hi'].
  pose proof (ni_typed _ Hi _ _ Hi') as Ht. destruct c; try done.
  - destruct (ni_idx_crib _ Hi _ _ _ Hs) as (b & Hb & _). by assert (Crib = Grad) by (eapply Hm; eauto).
  - apply (ni_idx_kndr _ Hi) in Hs. by assert (Kndr = Grad) by (eapply Hm; eauto).
Qed.

Lemma a_RemoveChannel_NInv cp st : NInv st -> mature st cp -> NInv (a_RemoveChannel cp st).
Proof.
  intros Hi Hm.
  assert (forall h cp' c op, a_RemoveChannel cp st !! LIdx h cp' c op = st !! LIdx h cp' c op) as Hx.
  { intros. apply option_eq. intros i. rewrite RemoveChannel_lookup. naive_solver. }
  assert (forall cp' c op i, a_RemoveChannel cp st !! LOut cp' c op = Some i ->
            st !! LOut cp' c op = Some i) as Ho.
  { intros cp' c op i. rewrite RemoveChannel_lookup. naive_solver. }
  assert (forall h cp' c op, is_Some (st !! LIdx h cp' c op) -> cp' <> cp) as Hne.
  { intros h cp' c op Hs ->. rewrite (mature_no_idx _ _ _ _ _ Hi Hm) in Hs. by destruct Hs. }
  constructor.
  - intros l i [Hl _]%RemoveChannel_lookup. by apply (ni_typed _ Hi).
  - intros h [i [Hl _]%RemoveChannel_lookup]. assert (live st h = true) as L by (apply (ni_final _ Hi); eauto).
    apply live_true in L as (cp' & c & op & Hs). apply live_true. exists cp', c, op. by rewrite Hx.
  - intros cp' op b Hb%Ho. rewrite Hx. by apply (ni_crib_idx _ Hi).
  - intros h cp' op. rewrite Hx. intros Hs. pose proof (Hne _ _ _ _ Hs).
    apply (ni_idx_crib _ Hi) in Hs as (b & Hb & He). exists b. split; [|done].
    by apply RemoveChannel_lookup.
  - intros cp' op [i Hs%Ho]. destruct (ni_kndr_idx _ Hi cp' op) as [h Hh]; [eauto|]. exists h. by rewrite Hx.
  - intros h cp' op. rewrite Hx. intros Hs. pose proof (Hne _ _ _ _ Hs).
    apply (ni_idx_kndr _ Hi) in Hs as [i Hs]. exists i. by apply RemoveChannel_lookup.
  - intros h h' cp' op. rewrite !Hx. apply (ni_kndr_once _ Hi).
  - intros cp' c c' op [i Hs%Ho] [i' Hs'%Ho]. eapply (ni_one _ Hi); eauto.
Qed.

(** The callback of [RemoveChannel] never fails on a graduated output, and does
    nothing when the channel has left the height index. *)
Definition rm_callback (cp : OutPoint) (k : bytes) (v : option bytes) : TX () :=
  if has_prefix gradPrefix k then
    r ← tx_res (kid_Decode (default [] v));
    hghtBucket ← getHeightBucket ns (maturity r.1);
    match hghtBucket with
    | None => mret tt
    | Some hghtBucket => removeBucketIfExists hghtBucket (writeOutpoint cp)
    end
  else tx_fail ErrImmatureChannel.

Lemma rm_callback_grad cp op k db Q :
  kidOutput_ok k ->
  (if has db (pfx :: hchan_dir (maturity k) cp)
   then forall db', dropped db db' (pfx :: hchan_dir (maturity k) cp) -> Q tt db' else Q tt db) ->
  wp (rm_callback cp (out_key Grad op) (Some (item_enc (IKid k)))) Q db.
Proof.
  intros Hk HQ. unfold rm_callback. rewrite grad_key_prefix, bool_decide_eq_true_2 by done. simpl.
  rewrite <- (app_nil_r (kid_Encode k)), kid_Decode_Encode by done.
  apply wp_bind, wp_res. simpl. apply wp_bind, wp_getHeightBucket. unfold handle.
  destruct (has db (pfx :: height_dir (maturity k))) eqn:E.
  - by apply wp_removeBucketIfExists.
  - apply wp_ret. by rewrite (has_cons_false db (pfx :: height_dir (maturity k)) [writeOutpoint cp] E
       : has db (pfx :: hchan_dir (maturity k) cp) = false) in HQ.
Qed.

Lemma RemoveChannel_unfold db st cp :
  nrel ns db no_extra st db -> tracked st cp ->
  RemoveChannel ns cp db
  = Update (_ ← forChanOutputs ns cp (fun _ => rm_callback cp) tt;
            removeBucketIfExists [pfx; channelIndexKey] (writeOutpoint cp)) db.
Proof.
  intros H (c & op & Hs). unfold RemoveChannel, Update.
  assert (has db [pfx] = true /\ has db [pfx; channelIndexKey] = true) as [H1 H2].
  { split; [apply (nrel_justified _ _ _ _ _ [] H)|apply (nrel_justified _ _ _ _ _ [channelIndexKey] H)];
      exists (LOut cp c op); (split; [done|by eexists]). }
  unfold has in H1, H2.
  unfold mbind at 1, tx_bind at 1, b_Bucket at 1. cbn [app]. destruct (bucket_at [pfx] db); [|done].
  unfold mbind at 1, tx_bind at 1, b_Bucket at 1. cbn [app].
  by destruct (bucket_at [pfx; channelIndexKey] db).
Qed.

Lemma RemoveChannel_mature db st cp :
  represents ns db st -> NInv st -> OutPoint_ok cp -> tracked st cp -> mature st cp ->
  exists db', RemoveChannel ns cp db = (Ok tt, db') /\ nframe ns db db'
     /\ represents ns db' (a_RemoveChannel cp st).
Proof.
  intros H Hi Hcp Ht Hm. rewrite (RemoveChannel_unfold _ _ _ H Ht).
  apply (represents_update _ _ _ st); [done|]. clear H. intros H.
  destruct (forChanOutputs_entries _ _ _ _ H Hcp Ht) as (xs & _ & Hxs & Hrun).
  destruct (foldl_all_ok (fun _ kv => rm_callback cp kv.1 kv.2) (chan_entry <$> xs) tt db) as [[] Hall].
  { intros _ kv ([[c op] i] & -> & Hin)%list_elem_of_fmap. apply Hxs in Hin.
    assert (c = Grad) as -> by (eapply Hm; eauto).
    pose proof (ni_typed _ Hi _ _ Hin) as Hty. destruct i; simpl in Hty; try done.
    destruct (nr_ok _ _ _ _ _ H _ _ Hin) as [_ [_ Hk]]. exists tt.
    edestruct (rm_callback_grad cp op k db (fun _ b => b = db) Hk) as ([] & b & E & ->); [|exact E].
    destruct (has db (pfx :: hchan_dir (maturity k) cp)) eqn:E; [|done].
    exfalso. destruct (hchan_nonempty ns _ _ _ _ (maturity k) cp H) as (c & op' & Hs);
      [apply u32_range|done|by intros []|done|].
    rewrite (mature_no_idx _ _ _ _ _ Hi Hm) in Hs. by destruct Hs. }
  apply wp_bind. exists tt, db. split; [by rewrite Hrun|].
  assert (has db (pfx :: chan_dir cp) = true) as Hb by (by eapply has_chan_tracked).
  apply wp_removeBucketIfExists. simpl. unfold chan_dir in Hb. rewrite Hb. intros db1 D.
  eapply nrel_weaken; [| |eapply (nrel_drop _ _ _ _ (a_RemoveChannel cp st) _ _ (chan_dir cp)); [exact Hb|exact D| |exact H]].
  - intros p [[[] _]|[Hp Hne]]. apply prefix_chan in Hp as [?| ->]; [by right; left|done].
  - by intros p [].
  - intros l i. rewrite RemoveChannel_lookup. split.
    + intros [Hl Hc]. split; [done|]. intros Hp. destruct (nr_ok _ _ _ _ _ H _ _ Hl) as [Hlok _].
      apply chan_prefix in Hp as (c & op & ->); done.
    + intros [Hl Hc]. split; [done|]. destruct l; try done. intros ->. apply Hc. by exists [].
Qed.

Lemma RemoveChannel_immature db st cp :
  represents ns db st -> NInv st -> OutPoint_ok cp -> tracked st cp -> ~ mature st cp ->
  RemoveChannel ns cp db = (Err ErrImmatureChannel, db).
Proof.
  intros H Hi Hcp Ht Hm. rewrite (RemoveChannel_unfold _ _ _ H Ht).
  destruct (forChanOutputs_entries _ _ _ _ H Hcp Ht) as (xs & _ & Hxs & Hrun).
  unfold Update, mbind, tx_bind. rewrite Hrun, tx_foldl_fmap.
  rewrite (foldl_some_err _ (fun x : oclass * OutPoint * item => x.1.1 = Grad) _ _ _ ErrImmatureChannel); [done|..].
  - intros _ [[c op] i] db' Hin%Hxs Hc. simpl in Hc. subst c.
    pose proof (ni_typed _ Hi _ _ Hin) as Hty. destruct i; simpl in Hty; try done.
    destruct (nr_ok _ _ _ _ _ H _ _ Hin) as [_ [_ Hk]].
    edestruct (rm_callback_grad cp op k db' (fun _ _ => True) Hk) as ([] & b & E & _); [by case_match|].
    by exists tt, b.
  - intros _ [[c op] i] db' _ Hc. unfold chan_entry, rm_callback; cbn [fst snd] in *. rewrite grad_key_prefix.
    by rewrite bool_decide_eq_false_2 by congruence.
  - intros x. destruct (decide (x.1.1 = Grad)); auto.
  - by rewrite (mature_Forall st cp xs Hxs).
Qed.

(** Maturity and tracking can be decided. *)
Definition grad_if (cp : OutPoint) (l : loc) : bool :=
  match l with LOut cp' c _ => negb (bool_decide (cp' = cp)) || bool_decide (c = Grad) | _ => true end.

Lemma mature_em st cp : mature st cp \/ ~ mature st cp.
Proof.
  destruct (decide (map_Forall (fun l (_ : item) => grad_if cp l = true) st)) as [H|H]; [left|right].
  - intros c op [i Hi]. apply H in Hi. simpl in Hi. rewrite bool_decide_eq_true_2 in Hi by done.
    by apply bool_decide_eq_true in Hi.
  - intros Hm. apply H. intros [cp' c op|h cp' c op|h| |] i Hi; simpl; try done.
    destruct (bool_decide_reflect (cp' = cp)) as [->|]; [|done]. simpl.
    apply bool_decide_eq_true. eapply Hm; eauto.
Qed.

Lemma tracked_em db0 st db cp :
  nrel ns db0 no_extra st db -> OutPoint_ok cp -> tracked st cp \/ ~ tracked st cp.
Proof.
  intros H Hcp. destruct (has db (pfx :: chan_dir cp)) eqn:E; [left|right].
  - by eapply has_chan_tracked.
  - intros Ht. eapply has_chan_tracked in Ht; [|done..]. congruence.
Qed.

Lemma RemoveChannel_untracked db st cp :
  represents ns db st -> OutPoint_ok cp -> ~ tracked st cp ->
  exists r, RemoveChannel ns cp db = (r, db).
Proof.
  intros H Hcp Ht. unfold RemoveChannel, Update, mbind, tx_bind, b_Bucket.
  destruct (bucket_at ([] ++ [pfx]) db); [|by eexists].
  destruct (bucket_at (([] ++ [pfx]) ++ [channelIndexKey]) db); [|by eexists].
  rewrite (forChanOutputs_untracked _ _ _ _ _ _ H Hcp Ht). by eexists.
Qed.

(** ** Heights *)

Lemma height_keys db0 st db es :
  nrel ns db0 no_extra st db -> final_live st -> lists db [pfx; heightIndexKey] es ->
  exists hs, es.*1 = put_be 4 <$> hs
    /\ forall h, h ∈ hs <-> is_u32 h /\ live st h = true.
Proof.
  intros H Hf [Ho Hb].
  destruct (lift_list (put_be 4) (fun h => is_u32 h /\ live st h = true) es.*1) as (hs & E & Hhs).
  { intros k ([k' [v|]] & -> & Hin)%list_elem_of_fmap.
    - apply Ho in Hin. destruct (nr_only _ _ _ _ _ H _ _ _ Hin) as (l & Hl & Hd & _).
      destruct l; simpl in Hd; path_inv.
    - apply Hb in Hin. destruct (nr_dirs _ _ _ _ _ H _ Hin) as (l & Hl & [q Hq] & _).
      destruct l; simpl in Hq; path_inv; simpl in Hl; destruct_and?; subst;
        (exists h; split; [split; [done|]|done]; by rewrite <- (has_height_live ns _ _ _ h H) by done). }
  exists hs. split; [done|]. intros h. split; [apply Hhs|]. intros [Hh L].
  assert ((put_be 4 h, None) ∈ es) as Hin.
  { apply Hb. change (has db (pfx :: height_dir h) = true). by rewrite (has_height_live ns _ _ _ h H). }
  apply (list_elem_of_fmap_2 fst) in Hin. rewrite E in Hin.
  apply list_elem_of_fmap in Hin as (h' & Eh & Hin). simpl in Eh.
  apply put_be4_inj in Eh as ->; [done|done|by apply Hhs].
Qed.

Lemma be4_compare a b : is_u32 a -> is_u32 b -> bytes_compare (put_be 4 a) (put_be 4 b) = (a ?= b).
Proof. apply (put_be_compare 4). Qed.

Lemma sorted_heights hs :
  (forall h, h ∈ hs -> is_u32 h) -> StronglySorted bytes_lt (put_be 4 <$> hs) -> StronglySorted Z.lt hs.
Proof.
  induction hs as [|h hs IH]; intros Hu Hs; [constructor|]. inversion_clear Hs as [|? ? Hs' Hlt].
  constructor; [apply IH; [intros; apply Hu; by right|done]|].
  apply Forall_forall. intros h' Hin. rewrite Forall_fmap in Hlt.
  rewrite Forall_forall in Hlt. apply Hlt in Hin as Hc. unfold bytes_lt, compose in Hc.
  rewrite be4_compare in Hc; [|by apply Hu; left|by apply Hu; right]. by apply Z.compare_lt_iff.
Qed.

Lemma take_below_heights {A} (es : list (bytes * A)) hs h :
  es.*1 = put_be 4 <$> hs -> (forall h', h' ∈ hs -> is_u32 h') -> is_u32 h -> StronglySorted Z.lt hs ->
  map (fun kv => get_be kv.1) (take_below (put_be 4 h) es) = filter (fun h' => h' <= h) hs.
Proof.
  revert hs. induction es as [|[k a] es IH]; intros [|h' hs] E Hu Hh Hs; try done.
  simpl in E. apply cons_eq in E as [-> E]. cbn [take_below].
  rewrite be4_compare by (done || (apply Hu; by left)). rewrite put_be_length.
  inversion_clear Hs as [|? ? Hs' Hlt]. rewrite filter_cons. case_decide as Hc.
  - rewrite bool_decide_eq_true_2 by (by apply Z.compare_le_iff). cbn [andb Nat.eqb map fst].
    rewrite get_put_be4 by (apply Hu; by left). f_equal. apply IH; try done. intros; apply Hu; by right.
  - rewrite bool_decide_eq_false_2 by (by apply Z.compare_le_iff in Hc || (rewrite Z.compare_le_iff; done)).
    simpl. symmetry. clear - Hlt Hc. induction Hlt as [|h'' hs Hlt Hrest IH]; [done|].
    rewrite filter_cons, decide_False by lia. done.
Qed.

Lemma seek_all {A} (es : list (bytes * A)) k :
  (forall k', k' ∈ es.*1 -> bytes_compare k' k <> Lt) -> seek k es = es.
Proof.
  destruct es as [|[k' a] es]; [done|]. intros H. simpl. specialize (H k').
  destruct (bytes_compare k' k); try done. exfalso. apply H; [by left|done].
Qed.

Lemma HeightsBelowOrEqual_spec db st h :
  represents ns db st -> final_live st -> is_u32 h ->
  exists hs, HeightsBelowOrEqual ns h db = Ok hs /\ StronglySorted Z.lt hs
    /\ forall h', h' ∈ hs <-> is_u32 h' /\ h' <= h /\ live st h' = true.
Proof.
  intros H Hf Hh.
  eassert (wp _ (fun r _ => StronglySorted Z.lt r
    /\ forall h', h' ∈ r <-> is_u32 h' /\ h' <= h /\ live st h' = true) db) as Hwp.
  2: { apply wp_View in Hwp as (hs & _ & Hv & Hr). exists hs. split; [exact Hv|exact Hr]. }
  assert (forall p, p = [] \/ p = [heightIndexKey] -> has db (pfx :: p) = false ->
            StronglySorted Z.lt [] /\ forall h', h' ∈ [] <-> is_u32 h' /\ h' <= h /\ live st h' = true) as Hnone.
  { intros p Hp Hb. split; [constructor|]. intros h'. split; [set_solver|]. intros (_ & _ & L).
    apply live_true in L as (cp & c & op & Hs). rewrite (nrel_justified _ _ _ _ _ p H) in Hb; [done|].
    exists (LIdx h' cp c op). split; [done|]. destruct Hp as [->| ->]; by eexists. }
  apply wp_bind, wp_Bucket. simpl. destruct (has db [pfx]) eqn:E1; [|apply wp_ret; by apply (Hnone []); [left|]].
  apply wp_bind, wp_Bucket. simpl. destruct (has db [pfx; heightIndexKey]) eqn:E2;
    [|apply wp_ret; by apply (Hnone [heightIndexKey]); [right|]].
  apply wp_bind, wp_entries_sorted; [apply H|done|]. intros es Hes Hsort.
  destruct (height_keys _ _ _ _ H Hf Hes) as (hs & E & Hhs).
  assert (StronglySorted Z.lt hs) as Hss.
  { apply sorted_heights; [intros h' Hin; by apply Hhs|]. rewrite <- E. exact Hsort. }
  apply wp_ret. rewrite seek_all.
  2: { intros k'. rewrite E. intros (h' & -> & Hin)%list_elem_of_fmap.
       change (zeros 4) with (put_be 4 0). rewrite be4_compare; [|by apply Hhs|by vm_compute].
       apply Hhs in Hin as [[? _] _]. destruct (Z.compare_spec h' 0); lia || done. }
  rewrite (take_below_heights _ hs) by (done || (intros h' Hin; by apply Hhs)). split.
  - clear - Hss. induction Hss as [|h' hs Hs IH Hlt]; [constructor|]. rewrite filter_cons.
    case_decide; [|done]. constructor; [done|]. apply Forall_forall. intros x [_ Hin]%list_elem_of_filter.
    rewrite Forall_forall in Hlt. auto.
  - intros h'. rewrite list_elem_of_filter, Hhs. naive_solver.
Qed.

(** ** Channels *)

Lemma chan_keys db0 st db es :
  nrel ns db0 no_extra st db -> lists db [pfx; channelIndexKey] es -> NoDup es.*1 ->
  exists cps, es.*1 = writeOutpoint <$> cps /\ NoDup cps
    /\ forall cp, cp ∈ cps <-> OutPoint_ok cp /\ tracked st cp.
Proof.
  intros H [Ho Hb] Hnd.
  destruct (lift_list writeOutpoint (fun cp => OutPoint_ok cp /\ tracked st cp) es.*1) as (cps & E & Hcps).
  { intros k ([k' [v|]] & -> & Hin)%list_elem_of_fmap.
    - apply Ho in Hin. destruct (nr_only _ _ _ _ _ H _ _ _ Hin) as (l & Hl & Hd & _).
      destruct l; simpl in Hd; path_inv.
    - apply Hb in Hin. destruct (nr_dirs _ _ _ _ _ H _ Hin) as (l & Hl & [q Hq] & _).
      destruct l; simpl in Hq; path_inv. simpl in Hl; destruct_and?; subst.
      exists cp. split; [|done]. split; [done|]. by eapply has_chan_tracked. }
  exists cps. split; [done|]. split; [rewrite E in Hnd; by apply NoDup_fmap_1 in Hnd|].
  intros cp. split; [apply Hcps|]. intros [Hcp Ht].
  assert ((writeOutpoint cp, None) ∈ es) as Hin.
  { apply Hb. change (has db (pfx :: chan_dir cp) = true). by eapply has_chan_tracked. }
  apply (list_elem_of_fmap_2 fst) in Hin. rewrite E in Hin.
  apply list_elem_of_fmap in Hin as (cp' & Ek & Hin). simpl in Ek.
  apply writeOutpoint_inj in Ek as ->; [done|done|by apply Hcps].
Qed.

(** The prologue of the queries over the channel index. *)
Lemma wp_chan_index {A} db0 st db (r0 : A) (body : path -> TX A) Q :
  nrel ns db0 no_extra st db ->
  ((forall cp, ~ tracked st cp) -> Q r0 db) ->
  (has db [pfx; channelIndexKey] = true -> wp (body [pfx; channelIndexKey]) Q db) ->
  wp (chainBucket ← b_Bucket [] pfx;
      match chainBucket with
      | None => mret r0
      | Some chainBucket =>
          chanIndex ← b_Bucket chainBucket channelIndexKey;
          match chanIndex with
          | None => mret r0
          | Some chanIndex => body chanIndex
          end
      end) Q db.
Proof.
  intros H H0 Hbody.
  assert (forall p, p = [] \/ p = [channelIndexKey] -> has db (pfx :: p) = false -> Q r0 db) as Hnone.
  { intros p Hp Hb. apply H0. intros cp (c & op & Hs).
    rewrite (nrel_justified _ _ _ _ _ p H) in Hb; [done|].
    exists (LOut cp c op). split; [done|]. destruct Hp as [->| ->]; by eexists. }
  apply wp_bind, wp_Bucket. simpl. destruct (has db [pfx]) eqn:E1; [|apply wp_ret; by apply (Hnone []); [left|]].
  apply wp_bind, wp_Bucket. simpl. destruct (has db [pfx; channelIndexKey]) eqn:E2;
    [|apply wp_ret; by apply (Hnone [channelIndexKey]); [right|]].
  by apply Hbody.
Qed.

Lemma ListChannels_spec db st :
  represents ns db st ->
  exists cps, ListChannels ns db = Ok cps /\ NoDup cps
    /\ forall cp, cp ∈ cps <-> tracked st cp.
Proof.
  intros H.
  eassert (wp _ (fun r _ => NoDup r /\ forall cp, cp ∈ r <-> tracked st cp) db) as Hwp.
  2: { apply wp_View in Hwp as (cps & _ & Hv & Hr). exists cps. split; [exact Hv|exact Hr]. }
  apply (wp_chan_index db st _ [] (fun chanIndex => es ← b_entries chanIndex;
            tx_foldl (fun activeChannels (kv : bytes * option bytes) =>
              r ← tx_res (readOutpoint kv.1);
              mret (activeChannels ++ [r.1])) [] es)); [done| |].
  { intros Hn. split; [constructor|]. intros cp. split; [set_solver|]. intros Ht. by apply Hn in Ht. }
  intros Hb. apply wp_bind, wp_entries; [apply H|done|]. intros es Hes Hnd.
  destruct (chan_keys _ _ _ _ H Hes Hnd) as (cps & E & Hnc & Hcps).
  assert (forall Q, wp (tx_foldl (fun acc k => r ← tx_res (readOutpoint k); mret (acc ++ [r.1])) [] (writeOutpoint <$> cps)) Q db ->
            wp (tx_foldl (fun acc (kv : bytes * option bytes) => r ← tx_res (readOutpoint kv.1); mret (acc ++ [r.1])) [] es) Q db) as Hmap.
  { intros Q. rewrite <- E. unfold wp. by rewrite (tx_foldl_fmap (fun acc k => r ← tx_res (readOutpoint k); mret (acc ++ [r.1])) fst). }
  apply Hmap, wp_foldl_fmap.
  eapply wp_mono; [apply (wp_foldl _ (fun done acc _ => acc = done))|].
  - done.
  - intros dn cp rest s b -> ->.
    rewrite <- (app_nil_r (writeOutpoint cp)), readOutpoint_writeOutpoint by (apply Hcps; set_solver).
    by apply wp_bind, wp_res, wp_ret.
  - intros acc b ->. split; [done|]. intros cp. rewrite Hcps. split; [naive_solver|]. intros Ht. split; [|done].
    destruct Ht as (c & op & [i Hi]). by destruct (nr_ok _ _ _ _ _ H _ _ Hi) as [[? _] _].
Qed.

(** The outputs of one state in a channel bucket. *)
Lemma wp_chan_scan db0 st db cp c Q :
  nrel ns db0 no_extra st db -> OutPoint_ok cp -> has db (pfx :: chan_dir cp) = true ->
  (forall xs : list (OutPoint * item), NoDup xs.*1 ->
     (forall op i, (op, i) ∈ xs <-> st !! LOut cp c op = Some i) ->
     Q ((fun x => (out_key c x.1, Some (item_enc x.2))) <$> xs) db) ->
  wp (b_scan_prefix (pfx :: chan_dir cp) (class_prefix c)) Q db.
Proof.
  intros H Hcp Hb HQ. apply wp_scan_prefix; [apply H|done|]. intros es Ho Hh Hnd.
  destruct (lift_list (fun x : OutPoint * item => (out_key c x.1, Some (item_enc x.2)))
     (fun x => OutPoint_ok x.1 /\ st !! LOut cp c x.1 = Some x.2) es) as (xs & -> & Hxs).
  { intros [k [v|]] Hin.
    - apply Ho in Hin as [Hin Hp]. destruct (nrel_obs_inv _ _ _ _ _ _ _ _ H Hin) as (l & i & Hi & Hl & Hd & -> & ->).
      destruct (chan_prefix cp l) as (c' & op & ->); [done..|by rewrite <- Hd; exists []|].
      cbn [loc_key] in Hp. rewrite out_key_prefix in Hp. apply bool_decide_eq_true in Hp as <-.
      exists (op, i). destruct Hl. done.
    - apply Hh in Hin as [Hin _]. destruct (nr_dirs _ _ _ _ _ H _ Hin) as (l & Hl & [r Hr] & _).
      exfalso. destruct l; simpl in Hr; path_inv. }
  apply HQ.
  - apply (NoDup_fmap_1 (out_key c)). rewrite <- list_fmap_compose. rewrite <- list_fmap_compose in Hnd. exact Hnd.
  - intros op i. split; [intros Hin; by apply (Hxs (op, i))|]. intros Hi.
    pose proof (nrel_obs_out _ _ _ _ _ _ _ _ _ H Hi) as Ho'.
    destruct (nr_ok _ _ _ _ _ H _ _ Hi) as [[_ Hop] _].
    assert ((out_key c op, Some (item_enc i)) ∈ (fun x : OutPoint * item => (out_key c x.1, Some (item_enc x.2))) <$> xs) as Hin.
    { apply Ho. split; [done|]. rewrite out_key_prefix. by apply bool_decide_eq_true. }
    apply list_elem_of_fmap in Hin as ([op' i'] & E & Hin).
    apply (f_equal fst) in E. cbn [fst] in E. destruct (Hxs _ Hin) as [Hop' Hi']. simpl in Hop', Hi'.
    apply out_key_inj in E as [_ ->]; [|done..]. congruence.
Qed.

Definition preschool_of st (dn : list (OutPoint * OutPoint)) (ks : list kidOutput) : Prop :=
  Forall2 (fun p k => st !! LOut p.1 Pscl p.2 = Some (IKid k)) dn ks.

Lemma FetchPreschools_spec db st :
  represents ns db st -> NInv st ->
  exists kids dn, FetchPreschools ns db = Ok kids /\ NoDup dn
    /\ (forall cp op, (cp, op) ∈ dn <-> is_Some (st !! LOut cp Pscl op))
    /\ preschool_of st dn kids.
Proof.
  intros H Hi.
  eassert (wp _ (fun kids _ => exists dn, NoDup dn
    /\ (forall cp op, (cp, op) ∈ dn <-> is_Some (st !! LOut cp Pscl op))
    /\ preschool_of st dn kids) db) as Hwp.
  2: { apply wp_View in Hwp as (kids & _ & Hv & dn & Hr). exists kids, dn. split; [exact Hv|exact Hr]. }
  apply (wp_chan_index db st db [] (fun chanIndex => activeChannels ← b_entries chanIndex;
            tx_foldl (fun kids (kv : bytes * option bytes) =>
              chanBucket ← b_Bucket chanIndex kv.1;
              match chanBucket with
              | None => mret kids
              | Some chanBucket =>
                  outs ← b_scan_prefix chanBucket psclPrefix;
                  tx_foldl (fun kids (kv : bytes * option bytes) =>
                    r ← tx_res (kid_Decode (default [] kv.2));
                    mret (kids ++ [r.1])) kids outs
              end) [] activeChannels)); [done| |].
  { intros Hn. exists []. split; [constructor|]. split; [|constructor].
    intros cp op. split; [set_solver|]. intros Hs. exfalso. apply (Hn cp). by exists Pscl, op. }
  intros Hb. apply wp_bind, wp_entries; [apply H|done|]. intros es Hes Hnd.
  destruct (chan_keys _ _ _ _ H Hes Hnd) as (cps & E & Hnc & Hcps).
  set (g := fun kids k =>
              chanBucket ← b_Bucket [pfx; channelIndexKey] k;
              match chanBucket with
              | None => mret kids
              | Some chanBucket =>
                  outs ← b_scan_prefix chanBucket psclPrefix;
                  tx_foldl (fun kids (kv : bytes * option bytes) =>
                    r ← tx_res (kid_Decode (default [] kv.2));
                    mret (kids ++ [r.1])) kids outs
              end).
  assert (forall Q, wp (tx_foldl g [] (writeOutpoint <$> cps)) Q db ->
            wp (tx_foldl (fun kids (kv : bytes * option bytes) => g kids kv.1) [] es) Q db) as Hmap.
  { intros Q. rewrite <- E. unfold wp. by rewrite (tx_foldl_fmap g fst). }
  apply Hmap, wp_foldl_fmap.
  eapply wp_mono; [apply (wp_foldl _ (fun done kids b => b = db /\ exists dn, NoDup dn
    /\ (forall cp op, (cp, op) ∈ dn <-> cp ∈ done /\ is_Some (st !! LOut cp Pscl op))
    /\ preschool_of st dn kids))|].
  - split; [done|]. exists []. split; [constructor|]. split; [set_solver|constructor].
  - intros dc cp rest kids b -> [-> (dn & Hndn & Hdn & Hk)].
    assert (OutPoint_ok cp /\ tracked st cp) as [Hcp Ht] by (apply Hcps; set_solver).
    assert (has db (pfx :: chan_dir cp) = true) as Hbc by (by eapply has_chan_tracked).
    unfold g. apply wp_bind, wp_Bucket. simpl. unfold chan_dir in Hbc. rewrite Hbc.
    apply wp_bind. apply (wp_chan_scan db st db cp Pscl); [done..|]. intros xs Hnx Hxs.
    apply wp_foldl_fmap.
    eapply wp_mono; [apply (wp_foldl _ (fun done kids' b => b = db
      /\ preschool_of st (dn ++ (pair cp <$> done.*1)) kids'))|].
    + split; [done|]. by rewrite !fmap_nil, app_nil_r.
    + intros dx [op i] rest' kids' b Ex [-> HK].
      assert (st !! LOut cp Pscl op = Some i) as Ho by (apply Hxs; rewrite Ex; set_solver).
      pose proof (ni_typed _ Hi _ _ Ho) as Hty. destruct i; simpl in Hty; try done.
      destruct (nr_ok _ _ _ _ _ H _ _ Ho) as [_ [_ Hok]]. simpl in Hok. cbn [fst snd item_enc].
      change (default [] (Some (kid_Encode k))) with (kid_Encode k).
      rewrite <- (app_nil_r (kid_Encode k)), kid_Decode_Encode by done.
      apply wp_bind, wp_res, wp_ret. split; [done|].
      rewrite !fmap_app, app_assoc. apply Forall2_app; [done|]. by repeat constructor.
    + intros kids' b [-> HK]. split; [done|]. exists (dn ++ (pair cp <$> xs.*1)). split; [|split; [|done]].
      * assert (cp ∉ dc) as Hnew.
        { apply NoDup_app in Hnc as (_ & Hnc & _). intros Hin. apply (Hnc _ Hin). by left. }
        apply NoDup_app. split; [done|]. split; [|by apply NoDup_fmap_2; [intros ?? [=]|]].
        intros [cp' op] [Hin _]%Hdn (op'' & [= -> ->] & _)%list_elem_of_fmap. done.
      * intros cp' op. rewrite !elem_of_app, Hdn, list_elem_of_singleton, list_elem_of_fmap. split.
        -- intros [[? ?]|(op' & [= -> ->] & ([op'' i] & -> & Hin)%list_elem_of_fmap)]; [auto|].
           apply Hxs in Hin. simpl. split; [by right|by rewrite Hin].
        -- intros [[?| ->] Hs]; [by left|]. right. exists op. split; [done|]. destruct Hs as [i Hs].
           apply list_elem_of_fmap. exists (op, i). split; [done|]. by apply Hxs.
  - intros kids b [_ (dn & Hndn & Hdn & Hk)]. exists dn. split; [done|]. split; [|done].
    intros cp op. rewrite Hdn. split; [by intros [_ ?]|]. intros Hs. split; [|done]. apply Hcps.
    split; [|by exists Pscl, op]. destruct Hs as [i Hs]. by destruct (nr_ok _ _ _ _ _ H _ _ Hs) as [[? _] _].
Qed.

End NurseryQuery.
