(* ===== verification/NurseryProps.v ===== *)
(** * Properties of the nursery store

    The theorems about nursery_store.go as its clients see them: what every
    operation does to the abstract nursery, that the invariant survives every
    sequence of operations, and two sequences of operations after which an
    output is not handled as intended. *)

From Stdlib Require Import ZArith Lia Sorted.
From Stdlib Require Import Init.Byte.
From stdpp Require Import base gmap countable strings numbers list.
From S2P Require Import Prelude Stream Tx Outputs Bolt NurseryStore NurseryAbs NurseryRefine.
From S2P Require Import NurseryInv NurseryClass NurseryQuery.
Local Open Scope Z_scope.

Section NurseryProps.
Context {BTC : Btcec} (ns : nurseryStore).
Implicit Types (st : gmap loc item) (db : bucket).

Lemma represents_empty : ns_pfxChainKey ns <> [] -> represents ns [] ∅.
Proof.
  intros Hp. constructor; try done. apply bkt_wf_nil.
Qed.

(** A database the nursery store maintains. *)
Definition nursery_db (db : bucket) (st : gmap loc item) : Prop := represents ns db st /\ NInv st.

Lemma NInv_typed_heights st : NInv st -> typed_heights st.
Proof.
  intros Hi. split; intros i Hl; apply (ni_typed _ Hi) in Hl; destruct i; simpl in Hl; try done; eauto.
Qed.

(** Recording something outside the two indexes keeps the invariant. *)
Lemma insert_NInv l i st :
  NInv st -> typed l i -> (forall h, l = LFinal h -> live st h = true) ->
  match l with LOut _ _ _ | LIdx _ _ _ _ => False | _ => True end ->
  NInv (<[l := i]> st).
Proof.
  intros [Ht Hf Hci Hic Hki Hik Hko H1] Hli Hlive Hl.
  assert (forall l', match l' with LOut _ _ _ | LIdx _ _ _ _ => True | _ => False end ->
            <[l := i]> st !! l' = st !! l') as Hn.
  { intros l' Hl'. apply lookup_insert_ne. intros <-. by destruct l. }
  constructor.
  - intros l' i'. rewrite lookup_insert. case_decide; [|apply Ht]. subst. by intros [= <-].
  - by apply final_live_insert.
  - intros cp op b. rewrite !Hn by done. apply Hci.
  - intros h cp op. rewrite !Hn by done. apply Hic.
  - intros cp op. rewrite !Hn by done. intros [h Hh]%Hki. exists h. by rewrite Hn.
  - intros h cp op. rewrite !Hn by done. apply Hik.
  - intros h h' cp op. rewrite !Hn by done. apply Hko.
  - intros cp c c' op. rewrite !Hn by done. apply H1.
Qed.

Lemma a_GraduateHeight_NInv h st : NInv st -> NInv (a_GraduateHeight h st).
Proof. intros Hi. by apply insert_NInv. Qed.

Lemma a_FinalizeKinder_NInv h t st : NInv st -> NInv (a_FinalizeKinder h t st).
Proof.
  intros Hi. assert (NInv (<[LLastF := IHeight h]> st)) by (by apply insert_NInv).
  unfold a_FinalizeKinder. destruct t as [t|]; [|done]. destruct (live st h) eqn:L; [|done].
  apply insert_NInv; [done..| |done]. intros h' [= <-]. by rewrite live_insert.
Qed.

(** ** The operations *)

(** [Incubate] succeeds, stores every new output once (a preschool entry per
    kid, a crib entry and a mark at its expiry height per baby), ignores the ones
    that are already there, touches nothing outside the nursery's own bucket, and
    keeps the two indexes consistent. *)
Theorem incubate_correct db st kids babies :
  nursery_db db st -> incubate_fresh kids babies st ->
  Forall (fun k => item_ok (IKid k)) kids -> Forall (fun b => item_ok (IBaby b)) babies ->
  exists db', Incubate ns kids babies db = (Ok tt, db') /\ nframe ns db db'
    /\ nursery_db db' (a_Incubate kids babies st).
Proof.
  intros [H Hi] Hf Hk Hb. destruct (Incubate_refines ns db st kids babies H Hk Hb) as (db' & E & F & H').
  exists db'. split; [done|]. split; [done|]. split; [done|]. by apply a_Incubate_NInv.
Qed.

(** [CribToKinder] atomically takes a crib output out of the crib state and
    off the height index and enters its second-stage output into the kindergarten
    at its maturity height; a height left without outputs disappears with its
    finalized transaction. *)
Theorem crib_to_kinder_correct db st b b0 :
  nursery_db db st ->
  st !! LOut (baby_originChanPoint b) Crib (baby_OutPoint b) = Some (IBaby b0) ->
  baby_expiry b0 = baby_expiry b -> item_ok (IBaby b) -> item_ok (IKid (baby_kidOutput b)) ->
  exists db', CribToKinder ns b db = (Ok tt, db') /\ nframe ns db db'
    /\ nursery_db db' (a_CribToKinder b st).
Proof.
  intros [H Hi] Hb0 He Hb Hk.
  destruct (CribToKinder_refines ns db st b H (ni_final _ Hi) Hb Hk) as (db' & E & F & H').
  exists db'. split; [done|]. split; [done|]. split; [done|]. by eapply a_CribToKinder_NInv.
Qed.

(** [PreschoolToKinder] atomically moves a confirmed preschool output to the
    kindergarten and registers it at a height the nursery has not graduated yet,
    also when its own maturity height has already passed. *)
Theorem preschool_to_kinder_correct db st k :
  nursery_db db st ->
  is_Some (st !! LOut (kid_originChanPoint k) Pscl (kid_OutPoint k)) ->
  item_ok (IKid k) -> lastGraduated st < 2 ^ 32 - 1 ->
  exists db', PreschoolToKinder ns k db = (Ok tt, db') /\ nframe ns db db'
    /\ nursery_db db' (a_PreschoolToKinder k st)
    /\ lastGraduated st < kinder_height k (lastGraduated st).
Proof.
  intros [H Hi] Hp Hk Hlt.
  destruct (PreschoolToKinder_refines ns db st k H (NInv_typed_heights _ Hi) Hk) as (db' & E & F & H').
  exists db'. split; [done|]. split; [done|]. split; [split; [done|by apply a_PreschoolToKinder_NInv]|].
  assert (0 <= lastGraduated st).
  { unfold lastGraduated. destruct (st !! LLastG) as [i|] eqn:El; [|lia].
    destruct (nr_ok _ _ _ _ _ H _ _ El) as [_ [_ Hok]]. destruct i; try lia. apply Hok. }
  unfold kinder_height. case_match; [|lia]. rewrite u32_id; unfold is_u32; lia.
Qed.

(** [GraduateKinder] turns exactly the kindergarten outputs registered at the
    height into graduated ones, empties that part of the height index, drops the
    height's finalized transaction, and changes nothing else. *)
Theorem graduate_kinder_correct db st h :
  nursery_db db st -> is_u32 h ->
  exists db' st', GraduateKinder ns h db = (Ok tt, db') /\ nframe ns db db'
    /\ graduated h st st' /\ nursery_db db' st'.
Proof.
  intros [H Hi] Hh. destruct (GraduateKinder_refines ns db st h H Hi Hh) as (db' & st' & E & F & Hg & H').
  exists db', st'. split; [done|]. split; [done|]. split; [done|]. split; [done|]. by eapply graduated_NInv.
Qed.

(** [FinalizeKinder] and [GraduateHeight] record the height, and the first
    also the sweep transaction when outputs are registered at the height; both
    keep the invariant. *)
Theorem record_heights_correct db st h t :
  nursery_db db st -> is_u32 h -> match t with Some t => item_ok (ITx t) | None => True end ->
  (exists db', FinalizeKinder ns h t db = (Ok tt, db') /\ nframe ns db db'
     /\ nursery_db db' (a_FinalizeKinder h t st) /\ LastFinalizedHeight ns db' = Ok h)
  /\ (exists db', GraduateHeight ns h db = (Ok tt, db') /\ nframe ns db db'
     /\ nursery_db db' (a_GraduateHeight h st) /\ LastGraduatedHeight ns db' = Ok h).
Proof.
  intros [H Hi] Hh Ht. split.
  - destruct (FinalizeKinder_refines ns db st h t H (ni_final _ Hi) Hh Ht) as (db' & E & F & H').
    pose proof (a_FinalizeKinder_NInv h t st Hi) as Hi'.
    exists db'. split; [done|]. split; [done|]. split; [done|].
    apply wp_View_eq. eapply wp_lastFinalized; [done|by apply NInv_typed_heights|].
    unfold lastFinalized, a_FinalizeKinder. repeat case_match; simplify_eq; try done;
      rewrite ?lookup_insert_eq, ?lookup_insert_ne, ?lookup_insert_eq in * by done; by simplify_eq.
  - destruct (GraduateHeight_refines ns db st h H Hh) as (db' & E & F & H').
    pose proof (a_GraduateHeight_NInv h st Hi) as Hi'.
    exists db'. split; [done|]. split; [done|]. split; [done|].
    apply wp_View_eq. eapply wp_lastGraduated; [done|by apply NInv_typed_heights|].
    unfold lastGraduated, a_GraduateHeight. by rewrite lookup_insert_eq.
Qed.

(** [FetchClass] always succeeds and returns the finalized transaction of
    the height with exactly the kindergarten and crib outputs registered there,
    each once. *)
Theorem fetch_class_correct db st h :
  nursery_db db st -> is_u32 h ->
  exists kids babies dk dc, FetchClass ns h db = Ok (finalTx st h, kids, babies)
    /\ class st h Kndr dk /\ kids_of st dk kids /\ class st h Crib dc /\ babies_of st dc babies.
Proof. intros [H Hi] Hh. by apply FetchClass_spec. Qed.

(** [FetchPreschools] always succeeds and returns exactly the outputs in the
    preschool state, each once. *)
Theorem fetch_preschools_correct db st :
  nursery_db db st ->
  exists kids dn, FetchPreschools ns db = Ok kids /\ NoDup dn
    /\ (forall cp op, (cp, op) ∈ dn <-> is_Some (st !! LOut cp Pscl op))
    /\ preschool_of st dn kids.
Proof. intros [H Hi]. by apply FetchPreschools_spec. Qed.

(** [HeightsBelowOrEqual] lists, in increasing order, exactly the heights up
    to the bound at which some output is registered. *)
Theorem heights_below_correct db st h :
  nursery_db db st -> is_u32 h ->
  exists hs, HeightsBelowOrEqual ns h db = Ok hs /\ StronglySorted Z.lt hs
    /\ forall h', h' ∈ hs <-> is_u32 h' /\ h' <= h /\ live st h' = true.
Proof. intros [H Hi] Hh. apply HeightsBelowOrEqual_spec; [done|apply Hi|done]. Qed.

(** [ListChannels] lists the channels with an output in the nursery, each
    once, and [IsMatureChannel] answers for each of them whether all its outputs
    have graduated, and [ErrContractNotFound] for any other channel. *)
Theorem channels_correct db st cp :
  nursery_db db st -> OutPoint_ok cp ->
  (exists cps, ListChannels ns db = Ok cps /\ NoDup cps /\ forall cp, cp ∈ cps <-> tracked st cp)
  /\ (tracked st cp -> exists m, IsMatureChannel ns cp db = Ok m /\ (m = true <-> mature st cp))
  /\ (~ tracked st cp -> IsMatureChannel ns cp db = Err ErrContractNotFound).
Proof.
  intros [H Hi] Hcp. split; [by apply ListChannels_spec|]. by apply IsMatureChannel_spec.
Qed.

(** [RemoveChannel] forgets a channel whose outputs have all graduated and
    nothing else, and refuses with [ErrImmatureChannel], leaving the database as
    it was, when any output has not. *)
Theorem remove_channel_correct db st cp :
  nursery_db db st -> OutPoint_ok cp -> tracked st cp ->
  (mature st cp -> exists db', RemoveChannel ns cp db = (Ok tt, db') /\ nframe ns db db'
     /\ nursery_db db' (a_RemoveChannel cp st))
  /\ (~ mature st cp -> RemoveChannel ns cp db = (Err ErrImmatureChannel, db)).
Proof.
  intros [H Hi] Hcp Ht. split; intros Hm; [|by eapply RemoveChannel_immature].
  destruct (RemoveChannel_mature ns db st cp H Hi Hcp Ht Hm) as (db' & E & F & H').
  exists db'. split; [done|]. split; [done|]. split; [done|]. by apply a_RemoveChannel_NInv.
Qed.

(** ** The life of an output

    What the store promises, without its two indexes: each output it was given is in one
    phase, and each operation moves the outputs it names and no others. *)

Inductive phase :=
| InCrib (b : babyOutput)
| InPreschool (k : kidOutput)
| InKinder (h : Z) (k : kidOutput)
| Graduated (k : kidOutput).

Definition phase_class (p : phase) : oclass :=
  match p with InCrib _ => Crib | InPreschool _ => Pscl | InKinder _ _ => Kndr | Graduated _ => Grad end.

Definition phase_item (p : phase) : item :=
  match p with InCrib b => IBaby b | InPreschool k | InKinder _ k | Graduated k => IKid k end.

Definition has_graduated (p : phase) : bool := match p with Graduated _ => true | _ => false end.

(** The outputs by channel and outpoint, and the last height that was graduated. *)
Record life := mkLife { lf_out : gmap (OutPoint * OutPoint) phase; lf_last : Z }.

Definition new_life : life := mkLife ∅ 0.
Definition set_out (m : gmap (OutPoint * OutPoint) phase) (l : life) : life := mkLife m (lf_last l).

Definition kid_id (k : kidOutput) : OutPoint * OutPoint := (kid_originChanPoint k, kid_OutPoint k).
Definition baby_id (b : babyOutput) : OutPoint * OutPoint := (baby_originChanPoint b, baby_OutPoint b).

Definition life_enter (i : OutPoint * OutPoint) (p : phase) (l : life) : life :=
  match lf_out l !! i with Some _ => l | None => set_out (<[i := p]> (lf_out l)) l end.

Definition life_graduate (h : Z) (p : phase) : phase :=
  match p with InKinder h' k => if h' =? h then Graduated k else p | _ => p end.

(** All outputs of the channel have graduated. *)
Definition life_mature (cp : OutPoint) (l : life) : Prop :=
  map_Forall (fun i p => i.1 = cp -> has_graduated p = true) (lf_out l).

#[global] Instance life_mature_dec cp l : Decision (life_mature cp l).
Proof. unfold life_mature. apply _. Defined.

Inductive store_op :=
| OIncubate (kids : list kidOutput) (babies : list babyOutput)
| OCribToKinder (b : babyOutput)
| OPreschoolToKinder (k : kidOutput)
| OGraduateKinder (h : Z)
| OFinalizeKinder (h : Z) (tx : option MsgTx)
| OGraduateHeight (h : Z)
| ORemoveChannel (cp : OutPoint).

Definition do_op (o : store_op) : bucket -> res () * bucket :=
  match o with
  | OIncubate kids babies => Incubate ns kids babies
  | OCribToKinder b => CribToKinder ns b
  | OPreschoolToKinder k => PreschoolToKinder ns k
  | OGraduateKinder h => GraduateKinder ns h
  | OFinalizeKinder h tx => FinalizeKinder ns h tx
  | OGraduateHeight h => GraduateHeight ns h
  | ORemoveChannel cp => RemoveChannel ns cp
  end.

Definition run_ops (os : list store_op) (db : bucket) : bucket := foldl (fun db o => (do_op o db).2) db os.

Definition life_step (l : life) (o : store_op) : life :=
  match o with
  | OIncubate kids babies =>
      foldl (fun l b => life_enter (baby_id b) (InCrib b) l)
        (foldl (fun l k => life_enter (kid_id k) (InPreschool k) l) l kids) babies
  | OCribToKinder b => set_out (<[baby_id b := InKinder (maturity (baby_kidOutput b)) (baby_kidOutput b)]> (lf_out l)) l
  | OPreschoolToKinder k => set_out (<[kid_id k := InKinder (kinder_height k (lf_last l)) k]> (lf_out l)) l
  | OGraduateKinder h => set_out (life_graduate h <$> lf_out l) l
  | OFinalizeKinder _ _ => l
  | OGraduateHeight h => mkLife (lf_out l) h
  | ORemoveChannel cp =>
      if decide (life_mature cp l) then set_out (filter (fun ip => ip.1.1 <> cp) (lf_out l)) l else l
  end.

Definition life_run (os : list store_op) (l : life) : life := foldl life_step l os.

(** What the callers of the store see to: an output is handed in when it is new or still
    where it would enter, it is moved on from where it is, and records fit into the store. *)
Definition op_ok (l : life) (o : store_op) : Prop :=
  match o with
  | OIncubate kids babies =>
      (forall k p, k ∈ kids -> lf_out l !! kid_id k = Some p -> phase_class p = Pscl)
      /\ (forall b p, b ∈ babies -> lf_out l !! baby_id b = Some p -> phase_class p = Crib)
      /\ (forall k b, k ∈ kids -> b ∈ babies -> kid_id k <> baby_id b)
      /\ Forall (fun k => item_ok (IKid k)) kids /\ Forall (fun b => item_ok (IBaby b)) babies
  | OCribToKinder b =>
      (exists b0, lf_out l !! baby_id b = Some (InCrib b0) /\ baby_expiry b0 = baby_expiry b)
      /\ item_ok (IBaby b) /\ item_ok (IKid (baby_kidOutput b))
  | OPreschoolToKinder k => (exists k0, lf_out l !! kid_id k = Some (InPreschool k0)) /\ item_ok (IKid k)
  | OFinalizeKinder h tx => is_u32 h /\ match tx with Some t => item_ok (ITx t) | None => True end
  | OGraduateKinder h | OGraduateHeight h => is_u32 h
  | ORemoveChannel cp => OutPoint_ok cp
  end.

Fixpoint ops_ok (l : life) (os : list store_op) : Prop :=
  match os with [] => True | o :: os => op_ok l o /\ ops_ok (life_step l o) os end.

(** The phase an abstract state shows for an output. *)
Definition at_phase st (i : OutPoint * OutPoint) (p : phase) : Prop :=
  st !! LOut i.1 (phase_class p) i.2 = Some (phase_item p)
  /\ match p with InKinder h _ => is_Some (st !! LIdx h i.1 Kndr i.2) | _ => True end.

Record lives st (l : life) : Prop := {
  lv_out i p : lf_out l !! i = Some p <-> at_phase st i p;
  lv_last : lf_last l = lastGraduated st
}.

Lemma at_phase_inj st i p p' : NInv st -> at_phase st i p -> at_phase st i p' -> p = p'.
Proof.
  intros Hi [H1 Hx] [H2 Hx']. assert (phase_class p = phase_class p') as Hc by (eapply (ni_one _ Hi); by eexists).
  rewrite Hc, H2 in H1. destruct p, p'; simpl in *; try done; simplify_eq; try done.
  by assert (h = h0) as -> by by eapply (ni_kndr_once _ Hi).
Qed.

Lemma lives_None st l i c : lives st l -> NInv st -> lf_out l !! i = None -> st !! LOut i.1 c i.2 = None.
Proof.
  intros Hl Hi Hn. destruct (st !! LOut i.1 c i.2) as [it|] eqn:E; [exfalso|done].
  pose proof (ni_typed _ Hi _ _ E) as Ht.
  assert (exists p, at_phase st i p) as (p & Hp).
  { destruct c, it; simpl in Ht; try done.
    - by exists (InCrib b).
    - by exists (InPreschool k).
    - destruct (ni_kndr_idx _ Hi i.1 i.2) as [h Hh]; [by eexists|]. by exists (InKinder h k).
    - by exists (Graduated k). }
  apply (lv_out _ _ Hl) in Hp. congruence.
Qed.

Lemma lives_Some st l i c : lives st l -> NInv st -> is_Some (st !! LOut i.1 c i.2) -> exists p, lf_out l !! i = Some p /\ phase_class p = c.
Proof.
  intros Hl Hi Hs. destruct (lf_out l !! i) as [p|] eqn:E.
  - exists p. split; [done|]. apply (lv_out _ _ Hl) in E as [E _]. eapply (ni_one _ Hi); [by eexists|done].
  - rewrite (lives_None _ _ _ c Hl Hi E) in Hs. by destruct Hs.
Qed.

(** One output changes its phase and the others do not. *)
Lemma lives_insert st st' l i p :
  lives st l -> NInv st' -> lastGraduated st' = lastGraduated st -> at_phase st' i p ->
  (forall i' p', i' <> i -> at_phase st' i' p' <-> at_phase st i' p') ->
  lives st' (set_out (<[i := p]> (lf_out l)) l).
Proof.
  intros [Ho Hlast] Hi' Hg Hp Hne. split; [|by rewrite Hg]. intros i' p'. cbn. rewrite lookup_insert. case_decide as E.
  - subst i'. split; [by intros [= <-]|]. intros Hp'. f_equal. by eapply at_phase_inj.
  - rewrite Ho. symmetry. by apply Hne.
Qed.

Ltac other_output Hne :=
  unfold at_phase; cbn [fst snd];
  repeat first [rewrite lookup_insert_ne by (intros ?; apply Hne; simplify_eq; by apply injective_projections)
               |rewrite lookup_delete_ne by (intros ?; apply Hne; simplify_eq; by apply injective_projections)].

Lemma lives_enterPreschool k st l :
  lives st l -> NInv st -> (forall p, lf_out l !! kid_id k = Some p -> phase_class p = Pscl) ->
  lives (a_enterPreschool k st) (life_enter (kid_id k) (InPreschool k) l) /\ NInv (a_enterPreschool k st).
Proof.
  intros Hl Hi Hf. assert (NInv (a_enterPreschool k st)) as Hi'.
  { apply a_enterPreschool_NInv; [done|]. intros c Hs. destruct (lives_Some _ _ (kid_id k) c Hl Hi Hs) as (p & Hp & <-). by apply Hf. }
  split; [|done]. unfold life_enter, a_enterPreschool in *. destruct (lf_out l !! kid_id k) as [p|] eqn:E.
  - specialize (Hf _ eq_refl). apply (lv_out _ _ Hl) in E as [E _]. rewrite Hf in E. cbn in E. by rewrite E in *.
  - pose proof (lives_None _ _ _ Pscl Hl Hi E) as Hn. cbn in Hn. rewrite Hn in *. apply lives_insert with st; try done.
    + unfold lastGraduated. by rewrite lookup_insert_ne.
    + split; [|done]. cbn. by rewrite lookup_insert_eq.
    + intros i' p' Hne. other_output Hne. by destruct p'; rewrite ?lookup_insert_ne by done.
Qed.

Lemma lives_enterCrib b st l :
  lives st l -> NInv st -> (forall p, lf_out l !! baby_id b = Some p -> phase_class p = Crib) ->
  lives (a_enterCrib b st) (life_enter (baby_id b) (InCrib b) l) /\ NInv (a_enterCrib b st).
Proof.
  intros Hl Hi Hf. assert (NInv (a_enterCrib b st)) as Hi'.
  { apply a_enterCrib_NInv; [done|]. intros c Hs. destruct (lives_Some _ _ (baby_id b) c Hl Hi Hs) as (p & Hp & <-). by apply Hf. }
  split; [|done]. unfold life_enter, a_enterCrib in *. destruct (lf_out l !! baby_id b) as [p|] eqn:E.
  - specialize (Hf _ eq_refl). apply (lv_out _ _ Hl) in E as [E _]. rewrite Hf in E. cbn in E. by rewrite E in *.
  - pose proof (lives_None _ _ _ Crib Hl Hi E) as Hn. cbn in Hn. rewrite Hn in *. apply lives_insert with st; try done.
    + unfold lastGraduated. by rewrite !lookup_insert_ne.
    + split; [|done]. cbn. by rewrite lookup_insert_ne, lookup_insert_eq.
    + intros i' p' Hne. other_output Hne. by destruct p'; rewrite ?lookup_insert_ne by done.
Qed.

Lemma life_enter_class i p l i' p' :
  lf_out (life_enter i p l) !! i' = Some p' -> lf_out l !! i' = Some p' \/ i' = i /\ p' = p.
Proof.
  unfold life_enter. destruct (lf_out l !! i) eqn:E; [by left|]. cbn. rewrite lookup_insert. case_decide; [|by left].
  intros [= <-]. by right.
Qed.

Lemma lives_Incubate kids babies st l :
  lives st l -> NInv st -> op_ok l (OIncubate kids babies) ->
  lives (a_Incubate kids babies st) (life_step l (OIncubate kids babies)) /\ NInv (a_Incubate kids babies st).
Proof.
  intros Hl Hi (Hk & Hb & Hd & _). cbn [life_step]. unfold a_Incubate.
  assert (lives (foldl (fun st k => a_enterPreschool k st) st kids) (foldl (fun l k => life_enter (kid_id k) (InPreschool k) l) l kids)
    /\ NInv (foldl (fun st k => a_enterPreschool k st) st kids)
    /\ forall b p, b ∈ babies -> lf_out (foldl (fun l k => life_enter (kid_id k) (InPreschool k) l) l kids) !! baby_id b = Some p -> phase_class p = Crib)
    as (Hl1 & Hi1 & Hb1).
  { clear - Hl Hi Hk Hb Hd. revert st l Hl Hi Hk Hb. induction kids as [|k kids IH]; intros st l Hl Hi Hk Hb; [done|]. cbn [foldl].
    destruct (lives_enterPreschool k st l Hl Hi) as [Hl' Hi']; [intros p; apply Hk; by left|]. apply IH; try done.
    - intros k' b Hin. apply Hd. by right.
    - intros k' p Hin [Hp|[_ ->]]%life_enter_class; [|done]. eapply Hk; [by right|done].
    - intros b p Hin [Hp|[E _]]%life_enter_class; [by eapply Hb|]. exfalso. eapply (Hd k b); [by left|done|done]. }
  revert Hl1 Hi1 Hb1. generalize (foldl (fun st k => a_enterPreschool k st) st kids) (foldl (fun l k => life_enter (kid_id k) (InPreschool k) l) l kids).
  clear. induction babies as [|b babies IH]; intros st l Hl Hi Hb; [done|]. cbn [foldl].
  destruct (lives_enterCrib b st l Hl Hi) as [Hl' Hi']; [intros p; apply Hb; by left|]. apply IH; try done.
  intros b' p Hin [Hp|[_ ->]]%life_enter_class; [|done]. eapply Hb; [by right|done].
Qed.

Lemma lives_CribToKinder b st l :
  lives st l -> NInv (a_CribToKinder b st) -> lives (a_CribToKinder b st) (life_step l (OCribToKinder b)).
Proof.
  intros Hl Hi'. apply lives_insert with st; try done; unfold a_CribToKinder.
  - unfold lastGraduated. rewrite !lookup_insert_ne, unindex_lookup, decide_False, lookup_delete_ne by done. done.
  - split; cbn; [by rewrite lookup_insert_ne, lookup_insert_eq|by rewrite lookup_insert_eq].
  - intros i' p' Hne. unfold at_phase. rewrite !lookup_insert_ne by (intros ?; apply Hne; simplify_eq; by apply injective_projections).
    rewrite unindex_out, lookup_delete_ne by (intros ?; apply Hne; simplify_eq; by apply injective_projections).
    destruct p'; try done. rewrite !lookup_insert_ne by (intros ?; apply Hne; simplify_eq; by apply injective_projections).
    rewrite unindex_lookup, decide_False, lookup_delete_ne by done. done.
Qed.

Lemma lives_PreschoolToKinder k st l :
  lives st l -> NInv (a_PreschoolToKinder k st) -> lives (a_PreschoolToKinder k st) (life_step l (OPreschoolToKinder k)).
Proof.
  intros Hl Hi'. cbn [life_step]. rewrite (lv_last _ _ Hl). apply lives_insert with st; try done; unfold a_PreschoolToKinder.
  - unfold lastGraduated. by rewrite !lookup_insert_ne, lookup_delete_ne.
  - split; cbn; [by rewrite lookup_insert_ne, lookup_insert_eq|by rewrite lookup_insert_eq].
  - intros i' p' Hne. unfold at_phase.
    rewrite !lookup_insert_ne, lookup_delete_ne by (intros ?; apply Hne; simplify_eq; by apply injective_projections).
    destruct p'; try done.
    rewrite !lookup_insert_ne, lookup_delete_ne by (done || (intros ?; apply Hne; simplify_eq; by apply injective_projections)). done.
Qed.

Lemma lives_GraduateKinder h st st' l :
  lives st l -> NInv st -> graduated h st st' -> NInv st' -> lives st' (life_step l (OGraduateKinder h)).
Proof.
  intros [Ho Hlast] Hi Hg Hi'. split; [|cbn; unfold lastGraduated in *; by rewrite (gr_lastG _ _ _ Hg)].
  assert (forall i p, at_phase st i p -> at_phase st' i (life_graduate h p)) as Hstep.
  { intros i p [H1 H2]. unfold at_phase, life_graduate. destruct p as [b|k|h' k|k]; try (destruct (Z.eqb_spec h' h) as [->|Hne]);
      cbn [phase_class phase_item] in *; rewrite ?(gr_out _ _ _ Hg), ?(gr_idx _ _ _ Hg); try (by case_decide).
    - rewrite decide_False; [|intros H'; by destruct (Hne (ni_kndr_once _ Hi _ _ _ _ H2 H'))]. rewrite decide_False by tauto. done.
    - case_decide as Hd; [|done]. apply (ni_idx_kndr _ Hi) in Hd. by assert (Kndr = Grad) by (eapply (ni_one _ Hi); [done|by eexists]). }
  intros i p. cbn. rewrite lookup_fmap_Some. split.
  - intros (p0 & <- & Hp0%Ho). by apply Hstep.
  - intros Hp. destruct (lf_out l !! i) as [p0|] eqn:E.
    + exists p0. split; [|done]. apply Ho, Hstep in E. by eapply at_phase_inj.
    + exfalso. assert (forall c, st !! LOut i.1 c i.2 = None) as Hn by (intros c; by eapply lives_None; [split|..]).
      destruct Hp as [Hp _]. rewrite (gr_out _ _ _ Hg) in Hp. case_decide; [destruct (phase_class p)|]; by rewrite ?Hn in Hp.
Qed.

Lemma lives_mature st l cp : lives st l -> NInv st -> mature st cp <-> life_mature cp l.
Proof.
  intros Hl Hi. split.
  - intros Hm i p Hp <-. apply (lv_out _ _ Hl) in Hp as [Hp _]. assert (phase_class p = Grad) by (eapply Hm; by eexists). by destruct p.
  - intros Hm c op Hs. destruct (lives_Some _ _ (cp, op) c Hl Hi Hs) as (p & Hp & <-). specialize (Hm _ _ Hp eq_refl). by destruct p.
Qed.

Lemma lives_RemoveChannel cp st l :
  lives st l -> mature st cp -> NInv st -> lives (a_RemoveChannel cp st) (set_out (filter (fun ip => ip.1.1 <> cp) (lf_out l)) l).
Proof.
  intros [Ho Hlast] Hm Hi. assert (forall h c op cp', is_Some (a_RemoveChannel cp st !! LIdx h cp' c op) <-> is_Some (st !! LIdx h cp' c op)) as Hx.
  { intros. unfold is_Some. setoid_rewrite RemoveChannel_lookup. naive_solver. }
  split.
  - intros i p. cbn. rewrite map_lookup_filter_Some, Ho. unfold at_phase. rewrite RemoveChannel_lookup. cbn. destruct p; rewrite ?Hx; tauto.
  - cbn. rewrite Hlast. unfold lastGraduated. replace (a_RemoveChannel cp st !! LLastG) with (st !! LLastG); [done|].
    symmetry. apply option_eq. intros x. rewrite RemoveChannel_lookup. naive_solver.
Qed.

(** Every operation does to the database what it does to the lives. *)
Lemma do_op_lives db st l o :
  nursery_db db st -> lives st l -> op_ok l o ->
  exists st', nursery_db (do_op o db).2 st' /\ lives st' (life_step l o).
Proof.
  intros [H Hi] Hl Hok. destruct o as [kids babies|b|k|h|h t|h|cp]; cbn [do_op].
  - destruct (lives_Incubate kids babies st l Hl Hi Hok) as [Hl' Hi']. destruct Hok as (_ & _ & _ & Hk & Hb).
    destruct (Incubate_refines ns db st kids babies H Hk Hb) as (db' & -> & _ & H'). by eexists.
  - destruct Hok as ((b0 & Hb0 & He) & Hb & Hk). apply (lv_out _ _ Hl) in Hb0 as [Hb0 _]. cbn in Hb0.
    assert (NInv (a_CribToKinder b st)) as Hi' by by eapply a_CribToKinder_NInv.
    destruct (CribToKinder_refines ns db st b H (ni_final _ Hi) Hb Hk) as (db' & -> & _ & H'). eexists. split; [done|]. by apply lives_CribToKinder.
  - destruct Hok as ((k0 & Hk0) & Hk). apply (lv_out _ _ Hl) in Hk0 as [Hk0 _]. cbn in Hk0.
    assert (NInv (a_PreschoolToKinder k st)) as Hi' by (apply a_PreschoolToKinder_NInv; [done|by eexists]).
    destruct (PreschoolToKinder_refines ns db st k H (NInv_typed_heights _ Hi) Hk) as (db' & -> & _ & H').
    eexists. split; [done|]. by apply lives_PreschoolToKinder.
  - destruct (GraduateKinder_refines ns db st h H Hi Hok) as (db' & st' & -> & _ & Hg & H').
    assert (NInv st') as Hi' by by eapply graduated_NInv. exists st'. split; [done|]. by eapply lives_GraduateKinder.
  - destruct Hok as [Hh Ht]. destruct (FinalizeKinder_refines ns db st h t H (ni_final _ Hi) Hh Ht) as (db' & -> & _ & H').
    eexists. split; [split; [exact H'|by apply a_FinalizeKinder_NInv]|]. destruct Hl as [Ho Hlast].
    assert (forall x, match x with LFinal _ | LLastF => False | _ => True end -> a_FinalizeKinder h t st !! x = st !! x) as Hx.
    { intros x Hx. unfold a_FinalizeKinder. destruct t; [destruct (live st h)|]; rewrite !lookup_insert_ne; try done; by intros <-. }
    split; [|cbn; rewrite Hlast; unfold lastGraduated; by rewrite Hx].
    intros i p. rewrite Ho. unfold at_phase. destruct p; by rewrite !Hx.
  - destruct (GraduateHeight_refines ns db st h H Hok) as (db' & -> & _ & H'). eexists.
    split; [split; [exact H'|by apply a_GraduateHeight_NInv]|]. destruct Hl as [Ho Hlast]. split.
    + intros i p. cbn. rewrite Ho. unfold at_phase, a_GraduateHeight. destruct p; by rewrite !lookup_insert_ne.
    + cbn. unfold lastGraduated, a_GraduateHeight. by rewrite lookup_insert_eq.
  - cbn [life_step]. pose proof (lives_mature st l cp Hl Hi) as Hm. destruct (tracked_em ns _ _ _ _ H Hok) as [Ht|Ht].
    + case_decide as Hd.
      * apply Hm in Hd. destruct (RemoveChannel_mature ns db st cp H Hi Hok Ht Hd) as (db' & -> & _ & H'). eexists.
        split; [split; [exact H'|by apply a_RemoveChannel_NInv]|]. by apply lives_RemoveChannel.
      * rewrite (RemoveChannel_immature ns db st cp H Hi Hok Ht) by (by rewrite Hm). by exists st.
    + destruct (RemoveChannel_untracked ns db st cp H Hok Ht) as [r ->]. exists st. split; [done|]. case_decide as Hd; [|done].
      destruct Hl as [Ho Hlast]. split; [|done]. intros i p. cbn. rewrite map_lookup_filter_Some, Ho. split; [tauto|]. intros Hp.
      split; [done|]. cbn. intros <-. apply Ht. destruct Hp as [Hp _]. eexists _, _. by eexists.
Qed.

Lemma run_ops_lives os db st l :
  nursery_db db st -> lives st l -> ops_ok l os -> exists st', nursery_db (run_ops os db) st' /\ lives st' (life_run os l).
Proof.
  revert db st l. induction os as [|o os IH]; intros db st l Hdb Hl; [by exists st|]. intros [Ho Hos].
  destruct (do_op_lives db st l o Hdb Hl Ho) as (st1 & Hdb1 & Hl1). by eapply IH.
Qed.

Lemma life_enter_keeps i p l j : is_Some (lf_out l !! j) -> is_Some (lf_out (life_enter i p l) !! j).
Proof. unfold life_enter. destruct (lf_out l !! i) eqn:E; [done|]. cbn. rewrite lookup_insert. by case_decide. Qed.

Lemma life_step_gone l o i :
  is_Some (lf_out l !! i) -> lf_out (life_step l o) !! i = None -> o = ORemoveChannel i.1 /\ life_mature i.1 l.
Proof.
  intros Hs Hn. destruct o as [kids babies|b|k|h|h t|h|cp]; cbn in Hn; try by (rewrite Hn in Hs; destruct Hs).
  - exfalso. apply eq_None_not_Some in Hn. apply Hn. clear Hn.
    assert (is_Some (lf_out (foldl (fun l k => life_enter (kid_id k) (InPreschool k) l) l kids) !! i)) as H1.
    { revert l Hs. induction kids; intros l Hs; [done|]. by apply IHkids, life_enter_keeps. }
    revert H1. generalize (foldl (fun l k => life_enter (kid_id k) (InPreschool k) l) l kids). clear.
    induction babies; intros l Hs; [done|]. by apply IHbabies, life_enter_keeps.
  - rewrite lookup_insert in Hn. case_decide; [done|]. rewrite Hn in Hs. by destruct Hs.
  - rewrite lookup_insert in Hn. case_decide; [done|]. rewrite Hn in Hs. by destruct Hs.
  - rewrite lookup_fmap in Hn. by destruct Hs as [p Hp]; rewrite Hp in Hn.
  - destruct (decide (life_mature cp l)) as [Hm|Hm]; [|by rewrite Hn in Hs; destruct Hs]. cbn in Hn.
    destruct Hs as [p Hp]. apply map_lookup_filter_None in Hn as [Hn|Hn]; [congruence|]. specialize (Hn _ Hp). cbn in Hn.
    destruct (decide (i.1 = cp)) as [<-|]; [done|]. by destruct Hn.
Qed.

(** An output disappears only with its whole channel, once all of that has graduated. *)
Lemma life_gone os l i :
  is_Some (lf_out l !! i) -> lf_out (life_run os l) !! i = None ->
  exists os1 os2, os = os1 ++ ORemoveChannel i.1 :: os2 /\ life_mature i.1 (life_run os1 l).
Proof.
  revert l. induction os as [|o os IH]; intros l Hs Hn; [unfold life_run in Hn; cbn in Hn; rewrite Hn in Hs; by destruct Hs|].
  destruct (lf_out (life_step l o) !! i) as [p1|] eqn:E.
  - destruct (IH (life_step l o)) as (os1 & os2 & -> & Hm); [by eexists|done|]. by exists (o :: os1), os2.
  - destruct (life_step_gone _ _ _ Hs E) as [-> Hm]. by exists [], os.
Qed.

(** ** What the queries show *)

(** The outputs of a channel, as the store lists them. *)
Definition chan_outputs (cp : OutPoint) (db : bucket) : list (bytes * option bytes) :=
  match ForChanOutputs ns cp (fun acc k v => mret (acc ++ [(k, v)])) [] db with Ok l => l | Err _ => [] end.

Lemma chan_outputs_lives db st l cp :
  nursery_db db st -> lives st l -> OutPoint_ok cp ->
  forall k v, (k, v) ∈ chan_outputs cp db
    <-> exists op p, lf_out l !! (cp, op) = Some p /\ k = out_key (phase_class p) op /\ v = Some (item_enc (phase_item p)).
Proof.
  intros [H Hi] Hl Hcp k v. unfold chan_outputs, ForChanOutputs, View. destruct (tracked_em ns _ _ _ _ H Hcp) as [Ht|Ht].
  - destruct (forChanOutputs_entries ns _ _ _ _ H Hcp Ht) as (xs & _ & Hxs & ->).
    assert (forall (es acc : list (bytes * option bytes)),
      tx_foldl (fun s kv => (fun acc k v => mret (acc ++ [(k, v)]) : TX (list (bytes * option bytes))) s kv.1 kv.2) acc es db = Ok (acc ++ es, db)) as Hf.
    { induction es as [|[k' v'] es IH]; intros acc; [by rewrite app_nil_r|]. cbn [tx_foldl]. unfold mbind, tx_bind, mret, tx_ret. cbn [fst snd].
      rewrite IH. by rewrite <- app_assoc. }
    rewrite Hf. cbn. rewrite list_elem_of_fmap. split.
    + intros ([[c op] it] & [= -> ->] & Hin%Hxs). destruct (lives_Some _ _ (cp, op) c Hl Hi) as (p & Hp & <-); [by eexists|].
      exists op, p. split; [done|]. apply (lv_out _ _ Hl) in Hp as [Hp _]. cbn in Hp, Hin. split; [done|]. congruence.
    + intros (op & p & Hp%(lv_out _ _ Hl) & -> & ->). destruct Hp as [Hp _]. exists (phase_class p, op, phase_item p). split; [done|]. by apply Hxs.
  - rewrite (forChanOutputs_untracked ns _ _ _ _ _ _ H Hcp Ht). split; [by intros ?%not_elem_of_nil|].
    intros (op & p & Hp%(lv_out _ _ Hl) & _). destruct Ht. destruct Hp as [Hp _]. eexists _, _. by eexists.
Qed.

Lemma fetch_class_lives db st l h :
  nursery_db db st -> lives st l -> is_u32 h ->
  exists t ks bs, FetchClass ns h db = Ok (t, ks, bs)
    /\ (forall k, k ∈ ks <-> exists i, lf_out l !! i = Some (InKinder h k))
    /\ (forall b, b ∈ bs <-> exists i, lf_out l !! i = Some (InCrib b) /\ baby_expiry b = h).
Proof.
  intros [H Hi] Hl Hh. destruct (FetchClass_spec _ db st h H Hi Hh) as (ks & bs & dk & dc & E & [_ Hck] & Hks & [_ Hcb] & Hbs).
  exists (finalTx st h), ks, bs. split; [done|]. split.
  - intros k. split.
    + intros Hin. destruct (Forall2_elem_r _ _ _ _ Hks Hin) as ([cp op] & Hd & Hk). exists (cp, op). apply (lv_out _ _ Hl). split; [done|]. by apply Hck.
    + intros ([cp op] & Hp%(lv_out _ _ Hl)). destruct Hp as [Hk Hx%Hck]. cbn in Hk.
      destruct (Forall2_elem_l _ _ _ _ Hks Hx) as (k' & Hin & Hk'). cbn in Hk'. by assert (k' = k) as <- by congruence.
  - intros b. split.
    + intros Hin. destruct (Forall2_elem_r _ _ _ _ Hbs Hin) as ([cp op] & Hd & Hb). cbn in Hb. exists (cp, op).
      split; [by apply (lv_out _ _ Hl)|]. apply Hcb in Hd. destruct (ni_idx_crib _ Hi _ _ _ Hd) as (b' & Hb' & <-). congruence.
    + intros ([cp op] & Hp%(lv_out _ _ Hl) & He). destruct Hp as [Hb _]. cbn in Hb.
      assert ((cp, op) ∈ dc) as Hx by (apply Hcb; rewrite <- He; by apply (ni_crib_idx _ Hi)).
      destruct (Forall2_elem_l _ _ _ _ Hbs Hx) as (b' & Hin & Hb'). cbn in Hb'. by assert (b' = b) as <- by congruence.
Qed.

Lemma fetch_preschools_lives db st l :
  nursery_db db st -> lives st l ->
  exists ks, FetchPreschools ns db = Ok ks /\ forall k, k ∈ ks <-> exists i, lf_out l !! i = Some (InPreschool k).
Proof.
  intros [H Hi] Hl. destruct (FetchPreschools_spec _ db st H Hi) as (ks & dn & E & _ & Hd & Hks). exists ks. split; [done|]. intros k. split.
  - intros Hin. destruct (Forall2_elem_r _ _ _ _ Hks Hin) as ([cp op] & _ & Hk). exists (cp, op). by apply (lv_out _ _ Hl).
  - intros ([cp op] & Hp%(lv_out _ _ Hl)). destruct Hp as [Hk _]. cbn in Hk. assert ((cp, op) ∈ dn) as Hx by (apply Hd; by eexists).
    destruct (Forall2_elem_l _ _ _ _ Hks Hx) as (k' & Hin & Hk'). cbn in Hk'. by assert (k' = k) as <- by congruence.
Qed.

End NurseryProps.


(** ** Examples and witnesses *)

Module NurseryExamples.
#[local] Existing Instance toy_btcec.

Definition ns0 : nurseryStore := newNurseryStore (toy_hash 1).

(** A nursery with a commitment output in preschool and an HTLC in the crib. *)
Definition kid0 : kidOutput := toy_kid 10 11 144 0.
Definition baby0 : babyOutput := toy_baby 10 12 500 144 0.
Definition db1 : bucket := (Incubate ns0 [kid0] [baby0] []).2.
Definition st1 : gmap loc item := a_Incubate [kid0] [baby0] ∅.

Lemma items_ok : Forall (fun k => item_ok (IKid k)) [kid0] /\ Forall (fun b => item_ok (IBaby b)) [baby0].
Proof. split; repeat constructor; apply (bool_decide_unpack _); vm_compute; exact I. Qed.

Lemma fresh0 : incubate_fresh [kid0] [baby0] ∅.
Proof.
  split.
  - intros k c _. rewrite lookup_empty. by intros [? ?].
  - intros b c _. rewrite lookup_empty. by intros [? ?].
  - intros k b ->%list_elem_of_singleton ->%list_elem_of_singleton _. by vm_compute.
Qed.

Lemma empty_db : nursery_db ns0 [] ∅.
Proof. split; [by apply represents_empty|apply NInv_empty]. Qed.

Lemma incubated : nursery_db ns0 db1 st1.
Proof.
  destruct items_ok as [Hk Hb]. destruct empty_db as [H Hi].
  destruct (Incubate_refines ns0 [] ∅ [kid0] [baby0] H Hk Hb) as (db' & E & _ & H').
  unfold db1. rewrite E. split; [done|]. apply a_Incubate_NInv; [done|apply fresh0].
Qed.

Lemma incubate_correct_witness :
  exists db', Incubate ns0 [kid0] [baby0] [] = (Ok tt, db') /\ nframe ns0 [] db'
    /\ nursery_db ns0 db' st1.
Proof.
  destruct items_ok as [Hk Hb].
  apply (incubate_correct ns0 [] ∅ [kid0] [baby0] empty_db fresh0 Hk Hb).
Defined.

Lemma crib_to_kinder_correct_witness :
  exists db', CribToKinder ns0 (toy_baby 10 12 500 144 510) db1 = (Ok tt, db') /\ nframe ns0 db1 db'
    /\ nursery_db ns0 db' (a_CribToKinder (toy_baby 10 12 500 144 510) st1).
Proof.
  apply (crib_to_kinder_correct ns0 db1 st1 (toy_baby 10 12 500 144 510) baby0 incubated).
  - vm_compute. reflexivity.
  - reflexivity.
  - apply (bool_decide_unpack _). vm_compute. exact I.
  - apply (bool_decide_unpack _). vm_compute. exact I.
Defined.

Lemma preschool_to_kinder_correct_witness :
  exists db', PreschoolToKinder ns0 (toy_kid 10 11 144 300) db1 = (Ok tt, db') /\ nframe ns0 db1 db'
    /\ nursery_db ns0 db' (a_PreschoolToKinder (toy_kid 10 11 144 300) st1)
    /\ lastGraduated st1 < kinder_height (toy_kid 10 11 144 300) (lastGraduated st1).
Proof.
  apply (preschool_to_kinder_correct ns0 db1 st1 (toy_kid 10 11 144 300) incubated).
  - apply (bool_decide_unpack _). vm_compute. exact I.
  - apply (bool_decide_unpack _). vm_compute. exact I.
  - vm_compute. reflexivity.
Defined.

Lemma graduate_kinder_correct_witness :
  exists db' st', GraduateKinder ns0 500 db1 = (Ok tt, db') /\ nframe ns0 db1 db'
    /\ graduated 500 st1 st' /\ nursery_db ns0 db' st'.
Proof. apply (graduate_kinder_correct ns0 db1 st1 500 incubated). unfold is_u32. lia. Defined.

Lemma toy_tx_ok : item_ok (ITx toy_tx).
Proof. apply (bool_decide_unpack _). vm_compute. exact I. Qed.

Lemma record_heights_correct_witness :
  (exists db', FinalizeKinder ns0 500 (Some toy_tx) db1 = (Ok tt, db') /\ nframe ns0 db1 db'
     /\ nursery_db ns0 db' (a_FinalizeKinder 500 (Some toy_tx) st1) /\ LastFinalizedHeight ns0 db' = Ok 500)
  /\ (exists db', GraduateHeight ns0 500 db1 = (Ok tt, db') /\ nframe ns0 db1 db'
     /\ nursery_db ns0 db' (a_GraduateHeight 500 st1) /\ LastGraduatedHeight ns0 db' = Ok 500).
Proof.
  apply (record_heights_correct ns0 db1 st1 500 (Some toy_tx) incubated); [unfold is_u32; lia|apply toy_tx_ok].
Defined.

Lemma fetch_class_correct_witness :
  exists kids babies dk dc, FetchClass ns0 500 db1 = Ok (finalTx st1 500, kids, babies)
    /\ class st1 500 Kndr dk /\ kids_of st1 dk kids /\ class st1 500 Crib dc /\ babies_of st1 dc babies.
Proof. apply (fetch_class_correct ns0 db1 st1 500 incubated). unfold is_u32. lia. Defined.

Lemma fetch_preschools_correct_witness :
  exists kids dn, FetchPreschools ns0 db1 = Ok kids /\ NoDup dn
    /\ (forall cp op, (cp, op) ∈ dn <-> is_Some (st1 !! LOut cp Pscl op)) /\ preschool_of st1 dn kids.
Proof. apply (fetch_preschools_correct ns0 db1 st1 incubated). Defined.

Lemma heights_below_correct_witness :
  exists hs, HeightsBelowOrEqual ns0 600 db1 = Ok hs /\ StronglySorted Z.lt hs
    /\ forall h', h' ∈ hs <-> is_u32 h' /\ h' <= 600 /\ live st1 h' = true.
Proof. apply (heights_below_correct ns0 db1 st1 600 incubated). unfold is_u32. lia. Defined.

Lemma chan0_ok : OutPoint_ok (toy_op 10).
Proof. apply (bool_decide_unpack _). vm_compute. exact I. Qed.

Lemma channels_correct_witness :
  (exists cps, ListChannels ns0 db1 = Ok cps /\ NoDup cps /\ forall cp, cp ∈ cps <-> tracked st1 cp)
  /\ (tracked st1 (toy_op 10) ->
        exists m, IsMatureChannel ns0 (toy_op 10) db1 = Ok m /\ (m = true <-> mature st1 (toy_op 10)))
  /\ (~ tracked st1 (toy_op 10) -> IsMatureChannel ns0 (toy_op 10) db1 = Err ErrContractNotFound).
Proof. apply (channels_correct ns0 db1 st1 (toy_op 10) incubated chan0_ok). Defined.

Lemma remove_channel_correct_witness :
  (mature st1 (toy_op 10) -> exists db', RemoveChannel ns0 (toy_op 10) db1 = (Ok tt, db')
     /\ nframe ns0 db1 db' /\ nursery_db ns0 db' (a_RemoveChannel (toy_op 10) st1))
  /\ (~ mature st1 (toy_op 10) -> RemoveChannel ns0 (toy_op 10) db1 = (Err ErrImmatureChannel, db1)).
Proof.
  apply (remove_channel_correct ns0 db1 st1 (toy_op 10) incubated chan0_ok).
  exists Pscl, (toy_op 11). apply (bool_decide_unpack _). vm_compute. exact I.
Defined.

(** Everything happens to the two outputs, up to the removal of their channel. *)
Definition ops1 : list store_op :=
  [OIncubate [kid0] [baby0]; OPreschoolToKinder (toy_kid 10 11 144 300); OCribToKinder (toy_baby 10 12 500 144 510);
   ORemoveChannel (toy_op 10); OFinalizeKinder 444 (Some toy_tx); OGraduateKinder 444; OGraduateHeight 444].
Definition ops2 : list store_op := [OGraduateKinder 654; ORemoveChannel (toy_op 10)].

Lemma ops_ok1 : ops_ok new_life (ops1 ++ ops2).
Proof.
  cbn [app ops1 ops2 ops_ok]. split; [|split; [|split; [|split; [apply chan0_ok|split; [split; [unfold is_u32; lia|apply toy_tx_ok]|]]]]].
  - destruct items_ok as [Hk Hb]. split; [intros k p _ H; unfold new_life in H; cbn in H; by rewrite lookup_empty in H|].
    split; [intros b p _ H; unfold new_life in H; cbn in H; by rewrite lookup_empty in H|].
    split; [|done]. intros k b ->%list_elem_of_singleton ->%list_elem_of_singleton. by vm_compute.
  - split; [|apply (bool_decide_unpack _); vm_compute; exact I]. exists kid0. vm_compute. reflexivity.
  - split; [|split; apply (bool_decide_unpack _); vm_compute; exact I]. exists baby0. split; vm_compute; reflexivity.
  - repeat split; try (unfold is_u32; lia); apply chan0_ok.
Qed.

(** Before the last two operations both outputs are there, afterwards none. *)
Example life1 :
  phase_class <$> lf_out (life_run ops1 new_life) !! (toy_op 10, toy_op 11) = Some Grad
  /\ phase_class <$> lf_out (life_run ops1 new_life) !! (toy_op 10, toy_op 12) = Some Kndr
  /\ length (chan_outputs ns0 (toy_op 10) (run_ops ns0 ops1 [])) = 2%nat
  /\ chan_outputs ns0 (toy_op 10) (run_ops ns0 (ops1 ++ ops2) []) = [].
Proof. repeat split; vm_compute; reflexivity. Qed.


(** A baby output is stored and its class read back. *)
Example fetch_class_db1 : FetchClass ns0 500 db1 = Ok (None, [], [baby0]).
Proof. vm_compute. reflexivity. Qed.

(** ** Sequences that go wrong *)

Definition crib_late : bucket :=
  (CribToKinder ns0 (toy_baby 10 12 500 144 510)
    (GraduateHeight ns0 1000 db1).2).2.

(** Unlike [PreschoolToKinder], [CribToKinder] registers an output at its
    maturity height even when the nursery has already graduated that height: after
    height 1000 was graduated, a crib output confirmed at 510 with a delay of 144
    is put into the class of height 654, which is not visited again before a
    restart. *)
Theorem crib_late_registration :
  CribToKinder ns0 (toy_baby 10 12 500 144 510) (GraduateHeight ns0 1000 db1).2 = (Ok tt, crib_late)
  /\ LastGraduatedHeight ns0 crib_late = Ok 1000
  /\ HeightsBelowOrEqual ns0 1000 crib_late = Ok [654]
  /\ FetchClass ns0 654 crib_late = Ok (None, [toy_kid 10 12 144 510], []).
Proof. split; [|split; [|split]]; vm_compute; reflexivity. Qed.

(** The same output handed twice to [PreschoolToKinder], with a late
    registration in between. *)
Definition kinder_twice : bucket :=
  let k := toy_kid 10 11 144 300 in
  (PreschoolToKinder ns0 k (GraduateHeight ns0 700 (PreschoolToKinder ns0 k db1).2).2).2.

(** [PreschoolToKinder] does not notice that its output has left the
    preschool: called a second time after the output's height was graduated, it
    registers the output at a second height.  Graduating one of the two heights
    then makes the class of the other unreadable. *)
Theorem preschool_twice_breaks_class :
  HeightsBelowOrEqual ns0 1000 kinder_twice = Ok [444; 500; 701]
  /\ (GraduateKinder ns0 444 kinder_twice).1 = Ok tt
  /\ FetchClass ns0 701 (GraduateKinder ns0 444 kinder_twice).2
     = Err (ErrNew "unable to retrieve output").
Proof. split; [|split]; vm_compute; reflexivity. Qed.

End NurseryExamples.
