(* ===== verification/ChanCloser.v ===== *)
(** * The cooperative channel closer

    The state machine of chancloser.go: shutdown messages, fee negotiation and
    the broadcast of the closing transaction.  The channel being closed
    ([lnwallet.LightningChannel]) and the signature codec ([lnwire.Sig]) are an
    interface; what the machine does to the outside (taking the channel off the
    router, broadcasting, logging and finalizing the close) is recorded as a list
    of events.

    Every method is a function on the machine's state that returns a result or
    an error together with the state it leaves, so that a failed call keeps the
    writes it made before failing, as the method on the pointer receiver does. *)

From Stdlib Require Import ZArith Lia.
From stdpp Require Import base gmap strings numbers list.
From S2P Require Import Prelude Tx.
Local Open Scope Z_scope.

(** ** Data *)

Inductive closeState :=
| closeIdle
| closeShutdownInitiated
| closeFeeNegotiation
| closeFinished
| closeUnknown (n : Z).

#[global] Instance closeState_eq_dec : EqDecision closeState.
Proof. solve_decision. Defined.

Record Shutdown := mkShutdown { sh_ChannelID : bytes; sh_Address : bytes }.
Record ClosingSigned := mkClosingSigned {
  cs_ChannelID : bytes;
  cs_FeeSatoshis : Z;
  cs_Signature : bytes
}.

Inductive Message :=
| MShutdown (m : Shutdown)
| MClosingSigned (m : ClosingSigned)
| MOther (kind : Z).

(** The parts of a channel's state a summary takes over. *)
Record ChannelSnapshot := mkChannelSnapshot {
  snap_RemoteIdentity : bytes;
  snap_ChainHash : bytes;
  snap_Capacity : Z;
  snap_CommitFee : Z
}.

Inductive ClosureType := CooperativeClose | ForceClose | BreachClose | FundingCanceled.

(** The summary handed to the close context. *)
Record ChannelCloseSummary := mkChannelCloseSummary {
  ccs_ChanPoint : OutPoint;
  ccs_ChainHash : bytes;
  ccs_ClosingTXID : bytes;
  ccs_CloseHeight : Z;
  ccs_RemotePub : bytes;
  ccs_Capacity : Z;
  ccs_SettledBalance : Z;
  ccs_CloseType : ClosureType;
  ccs_ShortChanID : Z;
  ccs_IsPending : bool
}.

Inductive close_event :=
| EvUnregister (cid : bytes)
| EvBroadcast (tx : MsgTx)
| EvLogPotentialClose (s : ChannelCloseSummary)
| EvFinalize (s : ChannelCloseSummary).

(** ** The channel interface

    [lnwallet.LightningChannel] as the closer uses it, over an abstract channel
    state: signing a close proposal may change the status of the channel, and so
    does completing the close. *)
Class ChannelIface := {
  Chan : Type;
  CalcFee : Z -> Chan -> Z;
  StateSnapshot : Chan -> ChannelSnapshot;
  ShortChanID : Chan -> Z;
  ChannelPoint : Chan -> OutPoint;
  IsInitiator : Chan -> bool;
  CreateCloseProposal : Z -> bytes -> bytes -> Chan -> res (bytes * bytes * Z) * Chan;
  CompleteCooperativeClose : bytes -> bytes -> bytes -> bytes -> Z -> Chan -> res (MsgTx * Z) * Chan;
  NewSigFromRawSignature : bytes -> res bytes;
  ToSignatureBytes : bytes -> bytes;
  TxHash : MsgTx -> bytes;
  NewChanIDFromOutPoint : OutPoint -> bytes;
  broadcastTx : MsgTx -> option goerr
}.

Definition SigHashAll : Byte.byte := Byte.x01.

Section ChanCloser.
Context {CH : ChannelIface}.

Record channelCloser := mkChannelCloser {
  cc_state : closeState;
  cc_channel : Chan;
  cc_chanPoint : OutPoint;
  cc_cid : bytes;
  cc_negotiationHeight : Z;
  cc_closingTx : option MsgTx;
  cc_idealFeeSat : Z;
  cc_lastFeeProposal : Z;
  cc_priorFeeOffers : gmap Z ClosingSigned;
  cc_closeReq : option Z;
  cc_localDeliveryScript : bytes;
  cc_remoteDeliveryScript : bytes;
  cc_events : list close_event
}.

(** Field updates. *)
Definition set_state s c := mkChannelCloser s (cc_channel c) (cc_chanPoint c) (cc_cid c)
  (cc_negotiationHeight c) (cc_closingTx c) (cc_idealFeeSat c) (cc_lastFeeProposal c)
  (cc_priorFeeOffers c) (cc_closeReq c) (cc_localDeliveryScript c) (cc_remoteDeliveryScript c) (cc_events c).
Definition set_channel ch c := mkChannelCloser (cc_state c) ch (cc_chanPoint c) (cc_cid c)
  (cc_negotiationHeight c) (cc_closingTx c) (cc_idealFeeSat c) (cc_lastFeeProposal c)
  (cc_priorFeeOffers c) (cc_closeReq c) (cc_localDeliveryScript c) (cc_remoteDeliveryScript c) (cc_events c).
Definition set_closingTx t c := mkChannelCloser (cc_state c) (cc_channel c) (cc_chanPoint c) (cc_cid c)
  (cc_negotiationHeight c) t (cc_idealFeeSat c) (cc_lastFeeProposal c)
  (cc_priorFeeOffers c) (cc_closeReq c) (cc_localDeliveryScript c) (cc_remoteDeliveryScript c) (cc_events c).
Definition set_lastFeeProposal f c := mkChannelCloser (cc_state c) (cc_channel c) (cc_chanPoint c) (cc_cid c)
  (cc_negotiationHeight c) (cc_closingTx c) (cc_idealFeeSat c) f
  (cc_priorFeeOffers c) (cc_closeReq c) (cc_localDeliveryScript c) (cc_remoteDeliveryScript c) (cc_events c).
Definition set_priorFeeOffers m c := mkChannelCloser (cc_state c) (cc_channel c) (cc_chanPoint c) (cc_cid c)
  (cc_negotiationHeight c) (cc_closingTx c) (cc_idealFeeSat c) (cc_lastFeeProposal c)
  m (cc_closeReq c) (cc_localDeliveryScript c) (cc_remoteDeliveryScript c) (cc_events c).
Definition set_remoteDeliveryScript s c := mkChannelCloser (cc_state c) (cc_channel c) (cc_chanPoint c) (cc_cid c)
  (cc_negotiationHeight c) (cc_closingTx c) (cc_idealFeeSat c) (cc_lastFeeProposal c)
  (cc_priorFeeOffers c) (cc_closeReq c) (cc_localDeliveryScript c) s (cc_events c).
Definition add_event e c := mkChannelCloser (cc_state c) (cc_channel c) (cc_chanPoint c) (cc_cid c)
  (cc_negotiationHeight c) (cc_closingTx c) (cc_idealFeeSat c) (cc_lastFeeProposal c)
  (cc_priorFeeOffers c) (cc_closeReq c) (cc_localDeliveryScript c) (cc_remoteDeliveryScript c) (cc_events c ++ [e]).

(** ** Methods: state in, result and state out *)

Definition CC (A : Type) : Type := channelCloser -> res A * channelCloser.

#[local] Instance cc_ret : MRet CC := fun A a c => (Ok a, c).
#[local] Instance cc_bind : MBind CC := fun A B f m c =>
  match m c with (Ok a, c') => f a c' | (Err e, c') => (Err e, c') end.

Definition cc_fail {A} (e : goerr) : CC A := fun c => (Err e, c).
Definition cc_get : CC channelCloser := fun c => (Ok c, c).
Definition cc_upd (f : channelCloser -> channelCloser) : CC () := fun c => (Ok tt, f c).

Definition newChannelCloser (channel : Chan) (deliveryScript : bytes) (idealFeePerKw : Z)
    (negotiationHeight : Z) (closeReq : option Z) : channelCloser :=
  let idealFeeSat := CalcFee idealFeePerKw channel in
  let channelCommitFee := snap_CommitFee (StateSnapshot channel) in
  let idealFeeSat := if channelCommitFee <? idealFeeSat then channelCommitFee else idealFeeSat in
  let cid := NewChanIDFromOutPoint (ChannelPoint channel) in
  mkChannelCloser closeIdle channel (ChannelPoint channel) cid negotiationHeight None
    idealFeeSat 0 ∅ closeReq deliveryScript [] [].

Definition initChanShutdown : CC Shutdown :=
  c ← cc_get;
  let shutdown := mkShutdown (cc_cid c) (cc_localDeliveryScript c) in
  _ ← cc_upd (add_event (EvUnregister (cc_cid c)));
  mret shutdown.

Definition ShutdownChan : CC Shutdown :=
  c ← cc_get;
  if decide (cc_state c = closeIdle) then
    shutdownMsg ← initChanShutdown;
    _ ← cc_upd (set_state closeShutdownInitiated);
    mret shutdownMsg
  else cc_fail ErrChanAlreadyClosing.

Definition ClosingTx : CC (option MsgTx) :=
  c ← cc_get;
  if decide (cc_state c = closeFinished) then mret (cc_closingTx c)
  else cc_fail ErrChanCloseNotFinished.

Definition CloseRequest (c : channelCloser) : option Z := cc_closeReq c.

(** *** Fee arithmetic, on [btcutil.Amount], which is int64 *)

Definition feeInAcceptableRange (localFee remoteFee : Z) : bool :=
  if localFee <? remoteFee then
    let acceptableRange := i64 (localFee + Z.quot (i64 (localFee * 3)) 10) in
    remoteFee <=? acceptableRange
  else
    let acceptableRange := i64 (localFee - Z.quot (i64 (localFee * 3)) 10) in
    acceptableRange <=? remoteFee.

Definition rachetFee (fee : Z) (up : bool) : Z :=
  if up then i64 (fee + Z.quot (i64 (fee * 1)) 10)
  else i64 (fee - Z.quot (i64 (fee * 1)) 10).

Definition calcCompromiseFee (ourIdealFee lastSentFee remoteFee : Z) : Z :=
  if (ourIdealFee =? remoteFee) || (lastSentFee =? 0) then ourIdealFee
  else if remoteFee =? lastSentFee then lastSentFee
  else if remoteFee <? lastSentFee then
    if feeInAcceptableRange lastSentFee remoteFee then remoteFee
    else rachetFee lastSentFee false
  else if lastSentFee <? remoteFee then
    if feeInAcceptableRange lastSentFee remoteFee then remoteFee
    else rachetFee lastSentFee true
  else remoteFee.

(** *** Proposals *)

Definition channel_call {A} (f : Chan -> res A * Chan) : CC A := fun c =>
  let '(r, ch) := f (cc_channel c) in (r, set_channel ch c).

Definition cc_res {A} (r : res A) : CC A := fun c => (r, c).

(** The pending cooperative close both summaries describe. *)
Definition close_summary (txid : bytes) (balance : Z) (c : channelCloser) : ChannelCloseSummary :=
  let chanInfo := StateSnapshot (cc_channel c) in
  mkChannelCloseSummary (cc_chanPoint c) (snap_ChainHash chanInfo) txid (cc_negotiationHeight c)
    (snap_RemoteIdentity chanInfo) (snap_Capacity chanInfo) balance CooperativeClose
    (ShortChanID (cc_channel c)) true.

Definition proposeCloseSigned (fee : Z) : CC ClosingSigned :=
  c ← cc_get;
  r ← channel_call (CreateCloseProposal fee (cc_localDeliveryScript c) (cc_remoteDeliveryScript c));
  let '(rawSig, txid, localAmt) := r in
  _ ← cc_upd (set_lastFeeProposal fee);
  parsedSig ← cc_res (NewSigFromRawSignature rawSig);
  let closeSignedMsg := mkClosingSigned (cc_cid c) fee parsedSig in
  _ ← cc_upd (fun c => set_priorFeeOffers (<[fee := closeSignedMsg]> (cc_priorFeeOffers c)) c);
  _ ← cc_upd (fun c => add_event (EvLogPotentialClose (close_summary txid localAmt c)) c);
  mret closeSignedMsg.

(** *** Messages from the peer *)

(** The first proposal goes to the party that funded the channel. *)
Definition first_proposal (before : list Message) : CC (list Message * bool) :=
  c ← cc_get;
  if IsInitiator (cc_channel c) then
    closeSigned ← proposeCloseSigned (cc_idealFeeSat c);
    mret (before ++ [MClosingSigned closeSigned], false)
  else mret (before, false).

(** Both sides have signed for [remoteProposedFee]. *)
Definition finishClose (closeSignedMsg : ClosingSigned) : CC (list Message * bool) :=
  let remoteProposedFee := cs_FeeSatoshis closeSignedMsg in
  c ← cc_get;
  match cc_priorFeeOffers c !! remoteProposedFee with
  | None => cc_fail (ErrPanic "nil pointer dereference")
  | Some matching =>
      let localSig := ToSignatureBytes (cs_Signature matching) ++ [SigHashAll] in
      let remoteSig := ToSignatureBytes (cs_Signature closeSignedMsg) ++ [SigHashAll] in
      r ← channel_call (CompleteCooperativeClose localSig remoteSig (cc_localDeliveryScript c)
                          (cc_remoteDeliveryScript c) remoteProposedFee);
      let '(closeTx, finalLocalBalance) := r in
      _ ← cc_upd (set_closingTx (Some closeTx));
      _ ← cc_upd (add_event (EvBroadcast closeTx));
      match broadcastTx closeTx with
      | Some err => cc_fail err
      | None =>
          _ ← cc_upd (fun c => add_event (EvFinalize (close_summary (TxHash closeTx) finalLocalBalance c)) c);
          _ ← cc_upd (set_state closeFinished);
          mret ([MClosingSigned matching], true)
      end
  end.

Definition ProcessCloseMsg (msg : Message) : CC (list Message * bool) :=
  c ← cc_get;
  match cc_state c with
  | closeIdle =>
      match msg with
      | MShutdown shutDownMsg =>
          _ ← cc_upd (set_remoteDeliveryScript (sh_Address shutDownMsg));
          localShutdown ← initChanShutdown;
          let msgsToSend := [MShutdown localShutdown] in
          _ ← cc_upd (set_state closeFeeNegotiation);
          first_proposal msgsToSend
      | _ => cc_fail (ErrNew "expected lnwire.Shutdown")
      end
  | closeShutdownInitiated =>
      match msg with
      | MShutdown shutDownMsg =>
          _ ← cc_upd (set_remoteDeliveryScript (sh_Address shutDownMsg));
          _ ← cc_upd (set_state closeFeeNegotiation);
          first_proposal []
      | _ => cc_fail (ErrNew "expected lnwire.Shutdown")
      end
  | closeFeeNegotiation =>
      match msg with
      | MClosingSigned closeSignedMsg =>
          let remoteProposedFee := cs_FeeSatoshis closeSignedMsg in
          if decide (cc_priorFeeOffers c !! remoteProposedFee = None) then
            let feeProposal := calcCompromiseFee (cc_idealFeeSat c) (cc_lastFeeProposal c)
                                 remoteProposedFee in
            closeSigned ← proposeCloseSigned feeProposal;
            if feeProposal =? remoteProposedFee then finishClose closeSignedMsg
            else mret ([MClosingSigned closeSigned], false)
          else finishClose closeSignedMsg
      | _ => cc_fail (ErrNew "expected lnwire.ClosingSigned")
      end
  | closeFinished =>
      match msg with
      | MClosingSigned _ => mret ([], true)
      | _ => cc_fail (ErrNew "expected lnwire.ClosingSigned")
      end
  | closeUnknown _ => cc_fail ErrInvalidState
  end.

End ChanCloser.
