(* ===== verification/ChanCloserProps.v ===== *)
(** * Properties of the channel closer

    Fee compromises, what a completed negotiation guarantees, the invariant of
    the state machine, and the termination of the negotiation between two
    closers. *)

From Stdlib Require Import ZArith Lia.
From stdpp Require Import base gmap strings numbers list.
From S2P Require Import Prelude Tx ChanCloser.
Local Open Scope Z_scope.
#[local] Ltac Zify.zify_post_hook ::= Z.to_euclidean_division_equations.

(** ** Fee arithmetic *)

(** [btcutil.MaxSatoshi], more than any fee. *)
Definition MaxSatoshi : Z := 2100000000000000.

Lemma rachet_up fee : 0 <= fee <= MaxSatoshi -> rachetFee fee true = fee + fee / 10.
Proof.
  intros H. unfold rachetFee, MaxSatoshi in *. rewrite Z.mul_1_r.
  rewrite (i64_id fee) by (unfold is_i64; lia). rewrite Z.quot_div_nonneg by lia.
  apply i64_id. unfold is_i64. lia.
Qed.

Lemma rachet_down fee : 0 <= fee <= MaxSatoshi -> rachetFee fee false = fee - fee / 10.
Proof.
  intros H. unfold rachetFee, MaxSatoshi in *. rewrite Z.mul_1_r.
  rewrite (i64_id fee) by (unfold is_i64; lia). rewrite Z.quot_div_nonneg by lia.
  apply i64_id. unfold is_i64. lia.
Qed.

Lemma acceptable_above last remote :
  0 <= last <= MaxSatoshi -> last < remote ->
  feeInAcceptableRange last remote = (remote <=? last + last * 3 / 10).
Proof.
  intros H Hlt. unfold feeInAcceptableRange, MaxSatoshi in *.
  destruct (Z.ltb_spec last remote); [|lia].
  rewrite (i64_id (last * 3)) by (unfold is_i64; lia). rewrite Z.quot_div_nonneg by lia.
  rewrite i64_id by (unfold is_i64; lia). done.
Qed.

Lemma acceptable_below last remote :
  0 <= last <= MaxSatoshi -> remote <= last ->
  feeInAcceptableRange last remote = (last - last * 3 / 10 <=? remote).
Proof.
  intros H Hlt. unfold feeInAcceptableRange, MaxSatoshi in *.
  destruct (Z.ltb_spec last remote); [lia|].
  rewrite (i64_id (last * 3)) by (unfold is_i64; lia). rewrite Z.quot_div_nonneg by lia.
  rewrite i64_id by (unfold is_i64; lia). done.
Qed.

Lemma compromise_spec ideal last remote :
  0 < last <= MaxSatoshi -> 0 <= remote <= MaxSatoshi ->
  let r := calcCompromiseFee ideal last remote in
  Z.min last remote <= r <= Z.max last remote
  /\ (10 <= last -> r <> remote -> Z.abs (remote - r) < Z.abs (remote - last)).
Proof.
  intros Hl Hr r. unfold r, calcCompromiseFee.
  destruct (Z.eqb_spec ideal remote) as [->|Hne]; cbn [orb]; [lia|].
  destruct (Z.eqb_spec last 0); cbn [orb]; [lia|].
  destruct (Z.eqb_spec remote last) as [->|Hne']; [lia|].
  destruct (Z.ltb_spec remote last).
  - rewrite acceptable_below by lia.
    destruct (Z.leb_spec (last - last * 3 / 10) remote); [lia|]. rewrite rachet_down by lia. lia.
  - destruct (Z.ltb_spec last remote); [|lia]. rewrite acceptable_above by lia.
    destruct (Z.leb_spec remote (last + last * 3 / 10)); [lia|]. rewrite rachet_up by lia. lia.
Qed.

Section ChanCloserProps.
Context {CH : ChannelIface}.
Implicit Types (c : channelCloser).

(** ** What the parts of a step do *)

Lemma proposeCloseSigned_ok fee c m c' :
  proposeCloseSigned fee c = (Ok m, c') ->
  cs_FeeSatoshis m = fee /\ cs_ChannelID m = cc_cid c
  /\ cc_state c' = cc_state c /\ cc_lastFeeProposal c' = fee
  /\ cc_priorFeeOffers c' = <[fee := m]> (cc_priorFeeOffers c)
  /\ cc_idealFeeSat c' = cc_idealFeeSat c /\ cc_cid c' = cc_cid c
  /\ cc_closingTx c' = cc_closingTx c /\ cc_chanPoint c' = cc_chanPoint c
  /\ cc_localDeliveryScript c' = cc_localDeliveryScript c
  /\ cc_remoteDeliveryScript c' = cc_remoteDeliveryScript c
  /\ exists s, cc_events c' = cc_events c ++ [EvLogPotentialClose s].
Proof.
  unfold proposeCloseSigned, mbind, cc_bind, cc_get, channel_call.
  destruct (CreateCloseProposal _ _ _ _) as [[[[raw txid] amt]|e] ch]; [|done].
  unfold cc_res, cc_upd. destruct (NewSigFromRawSignature raw) as [sig|e]; [|done].
  intros [= <- <-]. simpl. eauto 20.
Qed.

Lemma proposeCloseSigned_err fee c e c' :
  proposeCloseSigned fee c = (Err e, c') ->
  cc_state c' = cc_state c /\ cc_priorFeeOffers c' = cc_priorFeeOffers c
  /\ cc_cid c' = cc_cid c /\ cc_closingTx c' = cc_closingTx c /\ cc_events c' = cc_events c.
Proof.
  unfold proposeCloseSigned, mbind, cc_bind, cc_get, channel_call.
  destruct (CreateCloseProposal _ _ _ _) as [[[[raw txid] amt]|e'] ch]; [|by intros [= <- <-]].
  unfold cc_res, cc_upd. destruct (NewSigFromRawSignature raw) as [sig|e']; [done|].
  by intros [= <- <-].
Qed.

(** [finishClose] succeeds only with a transaction both sides have signed, which
    it has broadcast. *)
Lemma finishClose_ok cs c ms done c' :
  finishClose cs c = (Ok (ms, done), c') ->
  exists own tx bal ch s, done = true /\ ms = [MClosingSigned own]
    /\ cc_priorFeeOffers c !! cs_FeeSatoshis cs = Some own
    /\ CompleteCooperativeClose (ToSignatureBytes (cs_Signature own) ++ [SigHashAll])
         (ToSignatureBytes (cs_Signature cs) ++ [SigHashAll]) (cc_localDeliveryScript c)
         (cc_remoteDeliveryScript c) (cs_FeeSatoshis cs) (cc_channel c) = (Ok (tx, bal), ch)
    /\ broadcastTx tx = None
    /\ cc_state c' = closeFinished /\ cc_closingTx c' = Some tx
    /\ cc_priorFeeOffers c' = cc_priorFeeOffers c /\ cc_cid c' = cc_cid c
    /\ cc_events c' = cc_events c ++ [EvBroadcast tx; EvFinalize s]
    /\ ccs_ChanPoint s = cc_chanPoint c /\ ccs_ClosingTXID s = TxHash tx /\ ccs_SettledBalance s = bal.
Proof.
  unfold finishClose, mbind, cc_bind, cc_get. destruct (_ !! _) as [own|] eqn:Eo; [|done].
  unfold channel_call. destruct (CompleteCooperativeClose _ _ _ _ _ _) as [[[tx bal]|e] ch] eqn:Ec; [|done].
  unfold cc_upd. destruct (broadcastTx tx) as [err|] eqn:Eb; [done|].
  intros [= <- <- <-]. exists own, tx, bal, ch. eexists. simpl. rewrite <- app_assoc. simpl. eauto 20.
Qed.

Lemma finishClose_err cs c e c' :
  finishClose cs c = (Err e, c') ->
  cc_state c' = cc_state c /\ cc_priorFeeOffers c' = cc_priorFeeOffers c /\ cc_cid c' = cc_cid c
  /\ (forall s, EvFinalize s ∈ cc_events c' -> EvFinalize s ∈ cc_events c)
  /\ (cc_priorFeeOffers c !! cs_FeeSatoshis cs = None -> e = ErrPanic "nil pointer dereference").
Proof.
  unfold finishClose, mbind, cc_bind, cc_get. destruct (_ !! _) as [own|] eqn:Eo.
  2: { intros [= <- <-]. done. }
  unfold channel_call. destruct (CompleteCooperativeClose _ _ _ _ _ _) as [[[tx bal]|e'] ch] eqn:Ec.
  2: { intros [= <- <-]. done. }
  unfold cc_upd. destruct (broadcastTx tx) as [err|] eqn:Eb; [|done].
  intros [= <- <-]. simpl. split; [done|]. split; [done|]. split; [done|]. split; [|done].
  intros s. rewrite elem_of_app, list_elem_of_singleton. by intros [?|?].
Qed.

(** ** The invariant *)

Record cc_inv c : Prop := {
  ci_offers f m : cc_priorFeeOffers c !! f = Some m -> cs_FeeSatoshis m = f /\ cs_ChannelID m = cc_cid c;
  ci_final : cc_state c = closeFinished <-> exists s, EvFinalize s ∈ cc_events c;
  ci_tx s : EvFinalize s ∈ cc_events c ->
    exists tx, cc_closingTx c = Some tx /\ EvBroadcast tx ∈ cc_events c
      /\ broadcastTx tx = None /\ ccs_ClosingTXID s = TxHash tx
}.

Lemma cc_inv_new ch script fee height req : cc_inv (newChannelCloser ch script fee height req).
Proof.
  constructor; simpl; [by intros; rewrite lookup_empty in *|split; [done|]|].
  - by intros [s ?%not_elem_of_nil].
  - by intros s ?%not_elem_of_nil.
Qed.

(** Steps that do not touch what the invariant is about. *)
Lemma cc_inv_same c c' :
  cc_inv c -> cc_priorFeeOffers c' = cc_priorFeeOffers c -> cc_cid c' = cc_cid c ->
  cc_closingTx c' = cc_closingTx c ->
  (cc_state c' = closeFinished <-> cc_state c = closeFinished) ->
  (exists l, cc_events c' = cc_events c ++ l /\ forall s, EvFinalize s ∉ l) -> cc_inv c'.
Proof.
  intros [Ho Hf Ht] Ep Ec Etx Est (l & Ee & Hl). constructor.
  - rewrite Ep, Ec. apply Ho.
  - rewrite Est, Hf, Ee. setoid_rewrite elem_of_app. split; [naive_solver|].
    intros [s [?|Hs]]; [eauto|]. by apply Hl in Hs.
  - intros s. rewrite Ee, Etx. rewrite elem_of_app. intros [Hs|Hs]; [|by apply Hl in Hs].
    destruct (Ht s Hs) as (tx & ? & ? & ? & ?). exists tx. rewrite elem_of_app. eauto.
Qed.

Lemma cc_inv_propose fee c r c' : cc_inv c -> proposeCloseSigned fee c = (r, c') -> cc_inv c'.
Proof.
  intros Hi E. destruct r as [m|e].
  - destruct (proposeCloseSigned_ok _ _ _ _ E)
      as (Hf & Hc & Es & _ & Ep & _ & Ec & Et & _ & _ & _ & s & Ee).
    assert (cc_inv (set_priorFeeOffers (<[fee := m]> (cc_priorFeeOffers c)) c)) as Hi'.
    { destruct Hi as [Ho Hfi Ht]. constructor; simpl; [|done|done].
      intros f m'. rewrite lookup_insert. case_decide; [intros [= <-]; subst; done|apply Ho]. }
    eapply cc_inv_same; [exact Hi'|..]; simpl; try done; [by rewrite Es|].
    exists [EvLogPotentialClose s]. split; [done|]. intros s'. by rewrite list_elem_of_singleton.
  - destruct (proposeCloseSigned_err _ _ _ _ E) as (Es & Ep & Ec & Et & Ee).
    eapply cc_inv_same; [done..|by rewrite Es|]. exists []. rewrite app_nil_r. split; [done|].
    intros s. apply not_elem_of_nil.
Qed.

Lemma cc_inv_finish cs c r c' :
  cc_inv c -> cc_state c = closeFeeNegotiation -> finishClose cs c = (r, c') -> cc_inv c'.
Proof.
  intros [Ho Hf Ht] Hs E.
  assert (forall s, EvFinalize s ∉ cc_events c) as Hnone.
  { intros s Hin. assert (cc_state c = closeFinished) by (apply Hf; eauto). congruence. }
  destruct r as [[ms dn]|e].
  - destruct (finishClose_ok _ _ _ _ _ E) as (own & tx & bal & ch & s0 & _ & _ & _ & _ & Hb & Es & Et & Ep & Ec & Ee & _ & Etx & _).
    constructor.
    + rewrite Ep, Ec. apply Ho.
    + rewrite Es, Ee. split; [|done]. intros _. eexists. apply elem_of_app. right. right. by left.
    + intros s. rewrite Ee, Et. rewrite !elem_of_app. intros [Hin|Hin]; [by apply Hnone in Hin|].
      exists tx. split; [done|]. split; [apply elem_of_app; right; by left|]. split; [done|].
      apply elem_of_cons in Hin as [?|Hin]; [done|]. apply list_elem_of_singleton in Hin as [= ->]. done.
  - destruct (finishClose_err _ _ _ _ E) as (Es & Ep & Ec & Ee & _). constructor.
    + rewrite Ep, Ec. apply Ho.
    + rewrite Es, Hs. split; [done|]. intros [s Hin%Ee]. by apply Hnone in Hin.
    + intros s Hin%Ee. by apply Hnone in Hin.
Qed.

Lemma cc_inv_first_proposal ms c r c' :
  cc_inv c -> first_proposal ms c = (r, c') -> cc_inv c'.
Proof.
  intros Hi. unfold first_proposal, mbind, cc_bind, cc_get.
  destruct (IsInitiator _); [|by intros [= <- <-]].
  destruct (proposeCloseSigned _ c) as [[m|e] c1] eqn:E; intros [= <- <-]; by eapply cc_inv_propose.
Qed.

(** A state change that is not the last one, with more events logged. *)
Lemma cc_inv_enter st rs ev c :
  cc_inv c -> cc_state c <> closeFinished -> st <> closeFinished -> (forall s, ev <> EvFinalize s) ->
  cc_inv (set_state st (add_event ev (set_remoteDeliveryScript rs c))).
Proof.
  intros Hi Hs Hst Hev. eapply cc_inv_same; [done..| |]; simpl; [naive_solver|].
  exists [ev]. split; [done|]. intros s. rewrite list_elem_of_singleton. intros ?. by eapply Hev.
Qed.

Lemma cc_inv_enter' st rs c :
  cc_inv c -> cc_state c <> closeFinished -> st <> closeFinished ->
  cc_inv (set_state st (set_remoteDeliveryScript rs c)).
Proof.
  intros Hi Hs Hst. eapply cc_inv_same; [done..| |]; simpl; [naive_solver|].
  exists []. rewrite app_nil_r. split; [done|]. intros s. apply not_elem_of_nil.
Qed.

Lemma cc_inv_ProcessCloseMsg m c r c' : cc_inv c -> ProcessCloseMsg m c = (r, c') -> cc_inv c'.
Proof.
  intros Hi. unfold ProcessCloseMsg, mbind at 1, cc_bind at 1, cc_get at 1.
  destruct (cc_state c) eqn:Es; [..|by intros [= <- <-]].
  - destruct m as [sd|cs|k]; [|by intros [= <- <-]..].
    apply cc_inv_first_proposal. by apply cc_inv_enter; [|rewrite Es| |].
  - destruct m as [sd|cs|k]; [|by intros [= <- <-]..].
    apply cc_inv_first_proposal. by apply cc_inv_enter'; [|rewrite Es|].
  - destruct m as [sd|cs|k]; [by intros [= <- <-]| |by intros [= <- <-]].
    destruct (decide _) as [Hd|Hd]; [|by apply cc_inv_finish].
    unfold mbind, cc_bind. destruct (proposeCloseSigned _ c) as [[m|e] c1] eqn:E.
    + pose proof (cc_inv_propose _ _ _ _ Hi E) as Hi1.
      destruct (proposeCloseSigned_ok _ _ _ _ E) as (_ & _ & Es1 & _).
      case_match; [apply cc_inv_finish; [done|congruence]|by intros [= <- <-]].
    + intros [= <- <-]. by eapply cc_inv_propose.
  - destruct m as [sd|cs|k]; by intros [= <- <-].
Qed.

Lemma cc_inv_ShutdownChan c r c' : cc_inv c -> ShutdownChan c = (r, c') -> cc_inv c'.
Proof.
  intros Hi. unfold ShutdownChan, mbind, cc_bind, cc_get. destruct (decide (cc_state c = closeIdle)) as [Hs|Hs];
    intros [= <- <-]; [|done].
  eapply cc_inv_same; [done..| |]; simpl; [by rewrite Hs|].
  exists [EvUnregister (cc_cid c)]. split; [done|]. intros s. by rewrite list_elem_of_singleton.
Qed.

(** The closers a peer can drive us to. *)
Inductive closer_reachable : channelCloser -> Prop :=
| closer_new ch script fee height req : closer_reachable (newChannelCloser ch script fee height req)
| closer_shutdown c r c' : closer_reachable c -> ShutdownChan c = (r, c') -> closer_reachable c'
| closer_process c m r c' : closer_reachable c -> ProcessCloseMsg m c = (r, c') -> closer_reachable c'.

Lemma closer_reachable_inv c : closer_reachable c -> cc_inv c.
Proof.
  induction 1; [apply cc_inv_new|by eapply cc_inv_ShutdownChan|by eapply cc_inv_ProcessCloseMsg].
Qed.

(** A counter-offer is a new proposal. *)
Lemma counter_spec c cs ms c' :
  cc_state c = closeFeeNegotiation -> ProcessCloseMsg (MClosingSigned cs) c = (Ok (ms, false), c') ->
  exists fee own, ms = [MClosingSigned own] /\ proposeCloseSigned fee c = (Ok own, c').
Proof.
  intros Hs. unfold ProcessCloseMsg, mbind at 1, cc_bind at 1, cc_get at 1. rewrite Hs.
  assert (forall c1, finishClose cs c1 <> (Ok (ms, false), c')) as Hf.
  { intros c1 E. by destruct (finishClose_ok _ _ _ _ _ E) as (? & ? & ? & ? & ? & ? & _). }
  destruct (decide _) as [Hp|Hp]; [|by intros E%Hf]. unfold mbind, cc_bind. set (fee := calcCompromiseFee _ _ _).
  destruct (proposeCloseSigned fee c) as [[m|e] c1] eqn:E; [|done]. case_match; [by intros E'%Hf|]. intros [= <- <-]. eauto.
Qed.

(** A successful end of the negotiation. *)
Lemma negotiation_done_spec c m ms c' :
  cc_state c = closeFeeNegotiation -> ProcessCloseMsg m c = (Ok (ms, true), c') ->
  exists cs c1, m = MClosingSigned cs /\ finishClose cs c1 = (Ok (ms, true), c')
    /\ is_Some (cc_priorFeeOffers c1 !! cs_FeeSatoshis cs)
    /\ cc_localDeliveryScript c1 = cc_localDeliveryScript c
    /\ cc_remoteDeliveryScript c1 = cc_remoteDeliveryScript c
    /\ (c1 = c /\ is_Some (cc_priorFeeOffers c !! cs_FeeSatoshis cs) \/ cc_priorFeeOffers c !! cs_FeeSatoshis cs = None /\ exists fee own, proposeCloseSigned fee c = (Ok own, c1)).
Proof.
  intros Hs. unfold ProcessCloseMsg, mbind at 1, cc_bind at 1, cc_get at 1. rewrite Hs.
  destruct m as [sd|cs|k]; [done| |done]. destruct (decide _) as [Hp|Hp].
  - unfold mbind, cc_bind. destruct (proposeCloseSigned _ c) as [[m|e] c1] eqn:E; [|done].
    destruct (proposeCloseSigned_ok _ _ _ _ E) as (Hf & _ & _ & _ & Ep & _ & _ & _ & _ & El & Er & _).
    destruct (Z.eqb_spec (calcCompromiseFee (cc_idealFeeSat c) (cc_lastFeeProposal c) (cs_FeeSatoshis cs))
                (cs_FeeSatoshis cs)) as [Heq|]; [|done].
    intros Hfin. exists cs, c1. rewrite Ep, Heq, lookup_insert_eq. eauto 15.
  - intros Hfin. assert (is_Some (cc_priorFeeOffers c !! cs_FeeSatoshis cs)) as Ho by (destruct (cc_priorFeeOffers c !! _) eqn:E; [by eexists|done]).
    exists cs, c. do 5 (split; [done|]). by left.
Qed.

Lemma process_done m c ms c' : ProcessCloseMsg m c = (Ok (ms, true), c') -> cc_state c' = closeFinished.
Proof.
  intros E. destruct (cc_state c) eqn:Hs.
  - unfold ProcessCloseMsg, mbind at 1, cc_bind at 1, cc_get at 1 in E. rewrite Hs in E. destruct m; try done.
    unfold mbind, cc_bind, cc_upd, cc_get, first_proposal, mbind, cc_bind, cc_get in E. simpl in E.
    destruct (IsInitiator _); [|done]. by destruct (proposeCloseSigned _ _) as [[]].
  - unfold ProcessCloseMsg, mbind at 1, cc_bind at 1, cc_get at 1 in E. rewrite Hs in E. destruct m; try done.
    unfold mbind, cc_bind, cc_upd, cc_get, first_proposal, mbind, cc_bind, cc_get in E. simpl in E.
    destruct (IsInitiator _); [|done]. by destruct (proposeCloseSigned _ _) as [[]].
  - destruct (negotiation_done_spec _ _ _ _ Hs E) as (cs & c1 & _ & Ef & _).
    by destruct (finishClose_ok _ _ _ _ _ Ef) as (own & tx & bal & ch & s0 & _ & _ & _ & _ & _ & Hs' & _).
  - unfold ProcessCloseMsg, mbind at 1, cc_bind at 1, cc_get at 1 in E. rewrite Hs in E. destruct m; try done.
    by injection E as <- <-.
  - unfold ProcessCloseMsg, mbind at 1, cc_bind at 1, cc_get at 1 in E. by rewrite Hs in E.
Qed.

(** ** Two closers talking to each other *)

(** Hand the messages to the closer in order; collect its answers. *)
Fixpoint deliver (ms : list Message) (c : channelCloser) : list Message * channelCloser :=
  match ms with
  | [] => ([], c)
  | m :: ms =>
      match ProcessCloseMsg m c with
      | (Ok (out, _), c') => let '(out', c'') := deliver ms c' in (out ++ out', c'')
      | (Err _, c') => ([], c')
      end
  end.

(** [n] rounds: [r] receives the messages in flight, [s] then its answers. *)
Fixpoint exchange (n : nat) (ms : list Message) (r s : channelCloser) : channelCloser * channelCloser :=
  match n with
  | O => (r, s)
  | S n => let '(out, r') := deliver ms r in exchange n out s r'
  end.

Definition both_finished (p : channelCloser * channelCloser) : Prop :=
  cc_state p.1 = closeFinished /\ cc_state p.2 = closeFinished.

(** The channel and the network keep working: signing, completing and
    broadcasting a close do not fail. *)
Class ChannelLive := {
  live_propose fee l r ch : exists raw txid amt ch', CreateCloseProposal fee l r ch = (Ok (raw, txid, amt), ch');
  live_sig raw : exists sig, NewSigFromRawSignature raw = Ok sig;
  live_complete s1 s2 l r fee ch :
    exists tx bal ch', CompleteCooperativeClose s1 s2 l r fee ch = (Ok (tx, bal), ch');
  live_broadcast tx : broadcastTx tx = None
}.

Section Live.
Context {CL : ChannelLive}.

Lemma propose_live fee c : exists m c', proposeCloseSigned fee c = (Ok m, c').
Proof.
  unfold proposeCloseSigned, mbind, cc_bind, cc_get, channel_call.
  destruct (live_propose fee (cc_localDeliveryScript c) (cc_remoteDeliveryScript c) (cc_channel c))
    as (raw & txid & amt & ch' & ->).
  unfold cc_res, cc_upd. destruct (live_sig raw) as [sig ->]. by eexists _, _.
Qed.

Lemma finish_live cs c :
  is_Some (cc_priorFeeOffers c !! cs_FeeSatoshis cs) ->
  exists own c', finishClose cs c = (Ok ([MClosingSigned own], true), c')
    /\ cc_priorFeeOffers c !! cs_FeeSatoshis cs = Some own /\ cc_state c' = closeFinished.
Proof.
  intros [own Ho]. unfold finishClose, mbind, cc_bind, cc_get. rewrite Ho. unfold channel_call.
  edestruct (live_complete (ToSignatureBytes (cs_Signature own) ++ [SigHashAll])
               (ToSignatureBytes (cs_Signature cs) ++ [SigHashAll])) as (tx & bal & ch' & ->).
  unfold cc_upd. rewrite live_broadcast. by eexists _, _.
Qed.

(** A closer in the middle of the negotiation, having offered [fee] last. *)
Definition offered (fee : Z) (c : channelCloser) : Prop :=
  cc_state c = closeFeeNegotiation /\ cc_lastFeeProposal c = fee
  /\ exists m, cc_priorFeeOffers c !! fee = Some m.

(** One answer: accept, or counter with the compromise. *)
Lemma answer c cs :
  cc_inv c -> cc_state c = closeFeeNegotiation ->
  exists own fin c', ProcessCloseMsg (MClosingSigned cs) c = (Ok ([MClosingSigned own], fin), c')
    /\ ((fin = true /\ cs_FeeSatoshis own = cs_FeeSatoshis cs /\ cc_state c' = closeFinished)
        \/ (fin = false /\ cs_FeeSatoshis own
                = calcCompromiseFee (cc_idealFeeSat c) (cc_lastFeeProposal c) (cs_FeeSatoshis cs)
            /\ cs_FeeSatoshis own <> cs_FeeSatoshis cs /\ offered (cs_FeeSatoshis own) c')).
Proof.
  intros Hi Hs. unfold ProcessCloseMsg, mbind at 1, cc_bind at 1, cc_get at 1. rewrite Hs.
  set (fee := calcCompromiseFee _ _ _). destruct (decide _) as [Hp|Hp].
  - unfold mbind, cc_bind. destruct (propose_live fee c) as (m & c1 & E). rewrite E.
    pose proof (cc_inv_propose _ _ _ _ Hi E) as Hi1.
    destruct (proposeCloseSigned_ok _ _ _ _ E) as (Hf & _ & Es & El & Ep & _).
    destruct (Z.eqb_spec fee (cs_FeeSatoshis cs)) as [Heq|Hne].
    + destruct (finish_live cs c1) as (own & c2 & -> & Ho & Hs2); [rewrite Ep, Heq; by rewrite lookup_insert_eq|].
      exists own, true, c2. split; [done|]. left. split; [done|]. split; [|done].
      by apply (ci_offers _ Hi1) in Ho as [? _].
    + exists m, false, c1. split; [done|]. right. rewrite Hf. split; [done|]. split; [done|]. split; [done|].
      split; [congruence|]. split; [done|]. exists m. rewrite Ep. apply lookup_insert_eq.
  - destruct (finish_live cs c) as (own & c2 & -> & Ho & Hs2).
    { destruct (_ !! _) eqn:E; [by eexists|done]. }
    exists own, true, c2. split; [done|]. left. split; [done|]. split; [|done].
    by apply (ci_offers _ Hi) in Ho as [? _].
Qed.

Lemma deliver_one m c out fin c' :
  ProcessCloseMsg m c = (Ok (out, fin), c') -> deliver [m] c = (out, c').
Proof. intros E. simpl. rewrite E. by rewrite app_nil_r. Qed.

(** The sender recognises its own offer when it comes back. *)
Lemma accept_own s fee cs :
  offered fee s -> cs_FeeSatoshis cs = fee ->
  exists m s', ProcessCloseMsg (MClosingSigned cs) s = (Ok ([MClosingSigned m], true), s') /\ cc_state s' = closeFinished.
Proof.
  intros (Hs & _ & m & Hm) Hf. unfold ProcessCloseMsg, mbind at 1, cc_bind at 1, cc_get at 1. rewrite Hs, Hf, Hm.
  rewrite decide_False by done. destruct (finish_live cs s) as (own & c2 & E & Ho & Hs2); [by rewrite Hf, Hm|]. by exists own, c2.
Qed.

Lemma accept_echo s fee cs :
  offered fee s -> cs_FeeSatoshis cs = fee ->
  exists out s', deliver [MClosingSigned cs] s = (out, s') /\ cc_state s' = closeFinished.
Proof.
  intros Ho Hf. destruct (accept_own s fee cs Ho Hf) as (m & s' & E & Hs'). eexists _, _. split; [by eapply deliver_one|done].
Qed.

(** From the moment both have made an offer, every counter-offer brings the two
    closer together. *)
Lemma negotiation_converges a b gap r s cs :
  cc_inv r -> cc_inv s -> offered a r -> offered b s -> cs_FeeSatoshis cs = b ->
  10 <= a <= MaxSatoshi -> 10 <= b <= MaxSatoshi -> Z.abs (a - b) <= Z.of_nat gap ->
  exists n, (n <= gap + 2)%nat /\ both_finished (exchange n [MClosingSigned cs] r s).
Proof.
  revert a b r s cs. induction gap as [gap IH] using lt_wf_ind.
  intros a b r s cs Hir His Hr Hs Hb Ha Hbb Hgap. pose proof Hr as (Hrs & Hrl & _).
  destruct (answer r cs Hir Hrs) as (own & fin & r' & E & Hcase).
  pose proof (cc_inv_ProcessCloseMsg _ _ _ _ Hir E) as Hir'.
  destruct Hcase as [(-> & Hf & Hr')|(-> & Hf & Hne & Ho)].
  - destruct (accept_echo s b own Hs) as (out & s' & Ed & Hs'); [congruence|].
    exists 2%nat. split; [lia|]. cbn [exchange]. rewrite (deliver_one _ _ _ _ _ E), Ed. by split.
  - rewrite Hrl, Hb in Hf. pose proof (compromise_spec (cc_idealFeeSat r) a b) as [Hbt Hlt]; [lia..|].
    cbv zeta in Hbt, Hlt. rewrite <- Hf in Hbt, Hlt.
    assert (Z.abs (b - cs_FeeSatoshis own) < Z.abs (b - a)) as Hdec by (apply Hlt; congruence || lia).
    destruct gap as [|gap]; [lia|].
    destruct (IH gap (ltac:(lia)) b (cs_FeeSatoshis own) s r' own) as (n & Hn & Hfin); [done..|lia| |].
    { lia. }
    exists (S n). split; [lia|]. cbn [exchange]. by rewrite (deliver_one _ _ _ _ _ E).
Qed.

(** A closer that has not made an offer yet. *)
Definition no_offer (ideal : Z) (c : channelCloser) : Prop :=
  cc_state c = closeFeeNegotiation /\ cc_lastFeeProposal c = 0 /\ cc_idealFeeSat c = ideal
  /\ cc_priorFeeOffers c = ∅.

Definition gap_of (x y : Z) : nat := Z.to_nat (Z.abs (x - y)).

Lemma first_answer a b f g cs :
  cc_inv f -> cc_inv g -> offered a f -> no_offer b g -> cs_FeeSatoshis cs = a ->
  10 <= a <= MaxSatoshi -> 10 <= b <= MaxSatoshi ->
  exists n, (n <= gap_of a b + 3)%nat /\ both_finished (exchange n [MClosingSigned cs] g f).
Proof.
  intros Hif Hig Hf (Hs & Hl & Hid & Hp) Hc Ha Hb.
  destruct (answer g cs Hig Hs) as (own & fin & g' & E & Hcase).
  pose proof (cc_inv_ProcessCloseMsg _ _ _ _ Hig E) as Hig'.
  destruct Hcase as [(-> & Hfee & Hg')|(-> & Hfee & Hne & Ho)].
  - destruct (accept_echo f a own Hf) as (out & f' & Ed & Hs'); [congruence|].
    exists 2%nat. split; [lia|]. cbn [exchange]. rewrite (deliver_one _ _ _ _ _ E), Ed. by split.
  - assert (cs_FeeSatoshis own = b) as Hb'.
    { rewrite Hfee, Hl, Hid. unfold calcCompromiseFee. by rewrite orb_true_r. }
    rewrite Hb' in Ho.
    destruct (negotiation_converges a b (gap_of a b) f g' own) as (n & Hn & Hfin); try done.
    { unfold gap_of. lia. }
    exists (S n). split; [lia|]. cbn [exchange]. by rewrite (deliver_one _ _ _ _ _ E).
Qed.

Lemma first_proposal_initiator ms c :
  IsInitiator (cc_channel c) = true -> cc_state c = closeFeeNegotiation ->
  exists m c', first_proposal ms c = (Ok (ms ++ [MClosingSigned m], false), c')
    /\ cs_FeeSatoshis m = cc_idealFeeSat c /\ offered (cc_idealFeeSat c) c'.
Proof.
  intros Hin Hs. unfold first_proposal, mbind, cc_bind, cc_get. rewrite Hin.
  destruct (propose_live (cc_idealFeeSat c) c) as (m & c1 & E). rewrite E. exists m, c1.
  destruct (proposeCloseSigned_ok _ _ _ _ E) as (Hf & _ & Es & El & Ep & _).
  split; [done|]. split; [done|]. split; [congruence|]. split; [done|]. exists m. rewrite Ep. apply lookup_insert_eq.
Qed.

(** The funder of the channel asks to close it. *)
Lemma funder_closes chf chg sf sg kf kg hf hg rf :
  IsInitiator chf = true -> IsInitiator chg = false ->
  let f := newChannelCloser chf sf kf hf rf in
  let g := newChannelCloser chg sg kg hg None in
  10 <= cc_idealFeeSat f <= MaxSatoshi -> 10 <= cc_idealFeeSat g <= MaxSatoshi ->
  exists sd f1 n, ShutdownChan f = (Ok sd, f1)
    /\ (n <= gap_of (cc_idealFeeSat f) (cc_idealFeeSat g) + 5)%nat
    /\ both_finished (exchange n [MShutdown sd] g f1).
Proof.
  intros Hf Hg f g Hbf Hbg. eexists _, _.
  set (f1 := (ShutdownChan f).2). set (sd := mkShutdown (cc_cid f) sf).
  assert (cc_inv f1) as Hif by (eapply cc_inv_ShutdownChan; [apply cc_inv_new|by apply surjective_pairing]).
  assert (exists g1 sg', ProcessCloseMsg (MShutdown sd) g = (Ok ([MShutdown sg'], false), g1)
            /\ no_offer (cc_idealFeeSat g) g1) as (g1 & sg' & Eg & Hng).
  { unfold ProcessCloseMsg, mbind, cc_bind, cc_get. simpl. unfold first_proposal, mbind, cc_bind, cc_get. simpl.
    rewrite Hg. by eexists _, _. }
  pose proof (cc_inv_ProcessCloseMsg _ _ _ _ (cc_inv_new _ _ _ _ _) Eg) as Hig.
  destruct (first_proposal_initiator [] (set_state closeFeeNegotiation (set_remoteDeliveryScript (sh_Address sg') f1)))
    as (m & f2 & Ef & Hm & Ho); [exact Hf|done|].
  assert (ProcessCloseMsg (MShutdown sg') f1 = (Ok ([MClosingSigned m], false), f2)) as Ef' by exact Ef.
  pose proof (cc_inv_ProcessCloseMsg _ _ _ _ Hif Ef') as Hif2.
  destruct (first_answer _ _ f2 g1 m Hif2 Hig Ho Hng Hm Hbf Hbg) as (n & Hn & Hfin).
  exists (S (S n)). split; [reflexivity|]. split; [simpl in Hn |- *; lia|].
  change (both_finished (exchange (S (S n)) [MShutdown sd] g f1)). cbn [exchange].
  rewrite (deliver_one _ _ _ _ _ Eg). cbn [exchange]. by rewrite (deliver_one _ _ _ _ _ Ef').
Qed.

(** The other party asks to close it. *)
Lemma fundee_closes chf chg sf sg kf kg hf hg rg :
  IsInitiator chf = true -> IsInitiator chg = false ->
  let f := newChannelCloser chf sf kf hf None in
  let g := newChannelCloser chg sg kg hg rg in
  10 <= cc_idealFeeSat f <= MaxSatoshi -> 10 <= cc_idealFeeSat g <= MaxSatoshi ->
  exists sd g1 n, ShutdownChan g = (Ok sd, g1)
    /\ (n <= gap_of (cc_idealFeeSat f) (cc_idealFeeSat g) + 5)%nat
    /\ both_finished (exchange n [MShutdown sd] f g1).
Proof.
  intros Hf Hg f g Hbf Hbg. eexists _, _.
  set (g1 := (ShutdownChan g).2). set (sd := mkShutdown (cc_cid g) sg).
  assert (cc_inv g1) as Hig by (eapply cc_inv_ShutdownChan; [apply cc_inv_new|by apply surjective_pairing]).
  set (sdf := mkShutdown (cc_cid f) sf).
  destruct (first_proposal_initiator [MShutdown sdf]
     (set_state closeFeeNegotiation (add_event (EvUnregister (cc_cid f)) (set_remoteDeliveryScript (sh_Address sd) f))))
    as (m & f1 & Ef & Hm & Ho); [exact Hf|done|].
  assert (ProcessCloseMsg (MShutdown sd) f = (Ok ([MShutdown sdf; MClosingSigned m], false), f1)) as Ef' by exact Ef.
  pose proof (cc_inv_ProcessCloseMsg _ _ _ _ (cc_inv_new _ _ _ _ _) Ef') as Hif.
  assert (exists g2, ProcessCloseMsg (MShutdown sdf) g1 = (Ok ([], false), g2)
            /\ no_offer (cc_idealFeeSat g) g2) as (g2 & Eg & Hng).
  { unfold ProcessCloseMsg, mbind, cc_bind, cc_get. simpl. unfold first_proposal, mbind, cc_bind, cc_get. simpl.
    rewrite Hg. by eexists. }
  pose proof (cc_inv_ProcessCloseMsg _ _ _ _ Hig Eg) as Hig2.
  destruct (first_answer _ _ f1 g2 m Hif Hig2 Ho Hng Hm Hbf Hbg) as (n & Hn & Hfin).
  destruct n as [|n].
  { destruct Hfin as [Hfin _], Hng as (Hng & _). cbn [exchange fst] in Hfin. congruence. }
  exists (S (S n)). split; [reflexivity|]. split; [simpl in Hn |- *; lia|].
  change (both_finished (exchange (S (S n)) [MShutdown sd] f g1)). cbn [exchange] in Hfin |- *.
  rewrite (deliver_one _ _ _ _ _ Ef').
  assert (deliver [MShutdown sdf; MClosingSigned m] g1 = deliver [MClosingSigned m] g2) as ->.
  { cbn [deliver]. rewrite Eg. cbn [app]. by destruct (ProcessCloseMsg (MClosingSigned m) g2) as [[[? ?]|] ?]. }
  done.
Qed.

End Live.

(** ** The claims *)

(** A counter-offer never overshoots: it lies between our last offer and the
    peer's, and from 10 satoshi upwards it is strictly closer to the peer's offer
    unless it accepts it. *)
Theorem compromise_between ideal last remote :
  0 < last <= MaxSatoshi -> 0 <= remote <= MaxSatoshi ->
  Z.min last remote <= calcCompromiseFee ideal last remote <= Z.max last remote
  /\ (10 <= last -> calcCompromiseFee ideal last remote <> remote ->
      Z.abs (remote - calcCompromiseFee ideal last remote) < Z.abs (remote - last)).
Proof. intros Hl Hr. apply (compromise_spec ideal last remote Hl Hr). Qed.

(** C6: when [ProcessCloseMsg] reports the end of the fee negotiation, the closing
    transaction was completed with the peer's signature and our own signature for
    the same fee, one of the fees we had offered; it has been broadcast, the close
    has been finalized, and our offer for that fee is echoed to the peer. *)
Theorem negotiation_agreement c m ms c' :
  closer_reachable c -> cc_state c = closeFeeNegotiation ->
  ProcessCloseMsg m c = (Ok (ms, true), c') ->
  exists cs own tx bal ch ch', m = MClosingSigned cs /\ ms = [MClosingSigned own]
    /\ cs_FeeSatoshis own = cs_FeeSatoshis cs
    /\ cc_priorFeeOffers c' !! cs_FeeSatoshis cs = Some own
    /\ CompleteCooperativeClose (ToSignatureBytes (cs_Signature own) ++ [SigHashAll])
         (ToSignatureBytes (cs_Signature cs) ++ [SigHashAll]) (cc_localDeliveryScript c)
         (cc_remoteDeliveryScript c) (cs_FeeSatoshis cs) ch = (Ok (tx, bal), ch')
    /\ cc_state c' = closeFinished /\ cc_closingTx c' = Some tx
    /\ EvBroadcast tx ∈ cc_events c' /\ broadcastTx tx = None.
Proof.
  intros Hr Hs E. pose proof (cc_inv_ProcessCloseMsg _ _ _ _ (closer_reachable_inv _ Hr) E) as Hi'.
  destruct (negotiation_done_spec _ _ _ _ Hs E) as (cs & c1 & -> & Ef & _ & El & Er & _).
  destruct (finishClose_ok _ _ _ _ _ Ef) as (own & tx & bal & ch & s0 & _ & -> & Ho & Ec & Hb & Es & Et & Ep & _ & Ee & _).
  exists cs, own, tx, bal, (cc_channel c1), ch. rewrite <- Ep in Ho. rewrite El, Er in Ec.
  split; [done|]. split; [done|]. split; [by apply (ci_offers _ Hi') in Ho as [? _]|]. split; [done|].
  split; [done|]. split; [done|]. split; [done|]. split; [|done].
  rewrite Ee. apply elem_of_app. right. by left.
Qed.

(** Whatever messages the peer sends, the machine only counts as finished
    after it has broadcast a closing transaction, which [ClosingTx] then returns,
    and every offer it remembers is filed under its own fee. *)
Theorem closer_invariant c :
  closer_reachable c ->
  (forall f m, cc_priorFeeOffers c !! f = Some m -> cs_FeeSatoshis m = f)
  /\ (cc_state c = closeFinished ->
        exists tx, ClosingTx c = (Ok (Some tx), c) /\ EvBroadcast tx ∈ cc_events c /\ broadcastTx tx = None)
  /\ (cc_state c <> closeFinished -> ClosingTx c = (Err ErrChanCloseNotFinished, c)
        /\ forall s, EvFinalize s ∉ cc_events c).
Proof.
  intros Hr. pose proof (closer_reachable_inv _ Hr) as [Ho Hf Ht]. split; [|split].
  - intros f m Hm. by apply Ho in Hm as [? _].
  - intros Hs. destruct (proj1 Hf Hs) as [s Hin]. destruct (Ht s Hin) as (tx & Etx & Hb & Hn & _).
    exists tx. split; [|done]. unfold ClosingTx, mbind, cc_bind, cc_get. by rewrite decide_True, Etx.
  - intros Hs. split; [unfold ClosingTx, mbind, cc_bind, cc_get; by rewrite decide_False|].
    intros s Hin. apply Hs, Hf. eauto.
Qed.

(** The calls on the channel, the signature parser and the broadcast return
    errors of their own, never a crash. *)
Class ChannelNoPanic := {
  np_propose fee l r ch s : (CreateCloseProposal fee l r ch).1 <> Err (ErrPanic s);
  np_sig raw s : NewSigFromRawSignature raw <> Err (ErrPanic s);
  np_complete s1 s2 l r fee ch s : (CompleteCooperativeClose s1 s2 l r fee ch).1 <> Err (ErrPanic s);
  np_broadcast tx s : broadcastTx tx <> Some (ErrPanic s)
}.

Lemma propose_no_panic {NP : ChannelNoPanic} fee c s c' : proposeCloseSigned fee c <> (Err (ErrPanic s), c').
Proof.
  unfold proposeCloseSigned, mbind, cc_bind, cc_get, channel_call.
  pose proof (np_propose fee (cc_localDeliveryScript c) (cc_remoteDeliveryScript c) (cc_channel c) s) as Hp.
  destruct (CreateCloseProposal _ _ _ _) as [[[[raw txid] amt]|e] ch]; [|intros [= -> _]; by apply Hp].
  unfold cc_res, cc_upd. pose proof (np_sig raw s) as Hs. destruct (NewSigFromRawSignature raw); [done|].
  intros [= -> _]. by apply Hs.
Qed.

Lemma finish_no_panic {NP : ChannelNoPanic} cs c s c' :
  is_Some (cc_priorFeeOffers c !! cs_FeeSatoshis cs) -> finishClose cs c <> (Err (ErrPanic s), c').
Proof.
  intros [own Ho]. unfold finishClose, mbind, cc_bind, cc_get. rewrite Ho. unfold channel_call.
  pose proof (np_complete (ToSignatureBytes (cs_Signature own) ++ [SigHashAll])
    (ToSignatureBytes (cs_Signature cs) ++ [SigHashAll]) (cc_localDeliveryScript c)
    (cc_remoteDeliveryScript c) (cs_FeeSatoshis cs) (cc_channel c) s) as Hc.
  destruct (CompleteCooperativeClose _ _ _ _ _ _) as [[[tx bal]|e] ch]; [|intros [= -> _]; by apply Hc].
  unfold cc_upd. pose proof (np_broadcast tx s) as Hb. destruct (broadcastTx tx); [|done].
  intros [= -> _]. by apply Hb.
Qed.

Lemma process_no_panic {NP : ChannelNoPanic} m c s c' : ProcessCloseMsg m c <> (Err (ErrPanic s), c').
Proof.
  unfold ProcessCloseMsg, mbind at 1, cc_bind at 1, cc_get at 1.
  destruct (cc_state c), m as [sd|cs|k]; try done.
  - unfold mbind, cc_bind, cc_upd, cc_get, first_proposal, mbind, cc_bind, cc_get. simpl.
    destruct (IsInitiator _); [|done]. destruct (proposeCloseSigned _ _) as [[x|e] c1] eqn:E; [done|].
    intros [= -> ->]. by apply propose_no_panic in E.
  - unfold mbind, cc_bind, cc_upd, cc_get, first_proposal, mbind, cc_bind, cc_get. simpl.
    destruct (IsInitiator _); [|done]. destruct (proposeCloseSigned _ _) as [[x|e] c1] eqn:E; [done|].
    intros [= -> ->]. by apply propose_no_panic in E.
  - destruct (decide _) as [Hd|Hd].
    + unfold mbind, cc_bind. destruct (proposeCloseSigned _ c) as [[x|e] c1] eqn:E.
      * destruct (Z.eqb_spec (calcCompromiseFee (cc_idealFeeSat c) (cc_lastFeeProposal c) (cs_FeeSatoshis cs))
                (cs_FeeSatoshis cs)) as [Heq|]; [|done]. apply finish_no_panic.
        destruct (proposeCloseSigned_ok _ _ _ _ E) as (_ & _ & _ & _ & Ep & _).
        rewrite Ep, Heq. by rewrite lookup_insert_eq.
      * intros [= -> ->]. by apply propose_no_panic in E.
    + apply finish_no_panic. destruct (_ !! _) eqn:E; [by eexists|done].
Qed.

(** No message makes the machine crash: in particular the offer whose
    signature is used to complete the close is always there. *)
Theorem closer_no_panic {NP : ChannelNoPanic} m c s c' : ProcessCloseMsg m c <> (Err (ErrPanic s), c').
Proof. apply process_no_panic. Qed.

(** C7: two closers with ideal fees of at least 10 satoshi always come to an
    agreement, whichever side asks for the close: after at most as many rounds as
    the satoshis between their ideal fees, and five more for the shutdown and the
    echo, both have broadcast the closing transaction. *)
Theorem negotiation_terminates {CL : ChannelLive} chf chg sf sg kf kg hf hg :
  IsInitiator chf = true -> IsInitiator chg = false ->
  let f := newChannelCloser chf sf kf hf None in
  let g := newChannelCloser chg sg kg hg None in
  10 <= cc_idealFeeSat f <= MaxSatoshi -> 10 <= cc_idealFeeSat g <= MaxSatoshi ->
  let bound := (gap_of (cc_idealFeeSat f) (cc_idealFeeSat g) + 5)%nat in
  (exists sd f1 n, ShutdownChan f = (Ok sd, f1) /\ (n <= bound)%nat
     /\ both_finished (exchange n [MShutdown sd] g f1))
  /\ (exists sd g1 n, ShutdownChan g = (Ok sd, g1) /\ (n <= bound)%nat
     /\ both_finished (exchange n [MShutdown sd] f g1)).
Proof.
  intros Hf Hg f g Hbf Hbg. split; [by apply funder_closes|by apply fundee_closes].
Qed.

End ChanCloserProps.

(** ** Examples and witnesses *)

Module CloserExamples.

(** A channel that signs with the fee itself: its state is who funded it and the
    fee it asks for. *)
Definition toy_channel : ChannelIface := {|
  Chan := bool * Z;
  CalcFee := fun _ ch => ch.2;
  StateSnapshot := fun _ => mkChannelSnapshot [] [] 0 100000;
  ShortChanID := fun _ => 0;
  ChannelPoint := fun _ => mkOutPoint [] 0;
  IsInitiator := fun ch => ch.1;
  CreateCloseProposal := fun fee _ _ ch => (Ok (put_be 8 fee, [], 0), ch);
  CompleteCooperativeClose := fun _ _ _ _ fee ch => (Ok (mkMsgTx 2 [] [] fee, 0), ch);
  NewSigFromRawSignature := Ok;
  ToSignatureBytes := fun b => b;
  TxHash := fun _ => [];
  NewChanIDFromOutPoint := op_Hash;
  broadcastTx := fun _ => None
|}.
#[local] Existing Instance toy_channel.

#[local] Instance toy_live : ChannelLive.
Proof. split; simpl; eauto 10. Qed.
#[local] Instance toy_np : ChannelNoPanic.
Proof. split; done. Qed.

Definition closer (funder : bool) (fee : Z) : channelCloser :=
  newChannelCloser (CH := toy_channel) (funder, fee) [] 253 1000 None.

Lemma compromise_between_witness :
  Z.min 1000 2000 <= calcCompromiseFee 1000 1000 2000 <= Z.max 1000 2000
  /\ (10 <= 1000 -> calcCompromiseFee 1000 1000 2000 <> 2000 ->
      Z.abs (2000 - calcCompromiseFee 1000 1000 2000) < Z.abs (2000 - 1000)).
Proof. apply (compromise_between 1000 1000 2000); unfold MaxSatoshi; lia. Defined.

(** The fundee's closer with the funder's offer of 1000 in flight. *)
Definition waiting : channelCloser := (ProcessCloseMsg (MShutdown (mkShutdown [] [])) (closer false 1000)).2.
Definition offer (fee : Z) : Message := MClosingSigned (mkClosingSigned [] fee (put_be 8 fee)).

Lemma waiting_reachable : closer_reachable waiting.
Proof.
  eapply closer_process; [apply closer_new|]. unfold waiting, closer. apply surjective_pairing.
Qed.

Lemma negotiation_agreement_witness :
  exists cs own tx bal ch ch', offer 1000 = MClosingSigned cs
    /\ [offer 1000] = [MClosingSigned own]
    /\ cs_FeeSatoshis own = cs_FeeSatoshis cs
    /\ cc_priorFeeOffers (ProcessCloseMsg (offer 1000) waiting).2 !! cs_FeeSatoshis cs = Some own
    /\ CompleteCooperativeClose (ToSignatureBytes (cs_Signature own) ++ [SigHashAll])
         (ToSignatureBytes (cs_Signature cs) ++ [SigHashAll]) (cc_localDeliveryScript waiting)
         (cc_remoteDeliveryScript waiting) (cs_FeeSatoshis cs) ch = (Ok (tx, bal), ch')
    /\ cc_state (ProcessCloseMsg (offer 1000) waiting).2 = closeFinished
    /\ cc_closingTx (ProcessCloseMsg (offer 1000) waiting).2 = Some tx
    /\ EvBroadcast tx ∈ cc_events (ProcessCloseMsg (offer 1000) waiting).2 /\ broadcastTx tx = None.
Proof.
  apply (negotiation_agreement waiting (offer 1000)).
  - apply waiting_reachable.
  - vm_compute. reflexivity.
  - vm_compute. reflexivity.
Defined.

Lemma closer_invariant_witness :
  (forall f m, cc_priorFeeOffers waiting !! f = Some m -> cs_FeeSatoshis m = f)
  /\ (cc_state waiting = closeFinished ->
        exists tx, ClosingTx waiting = (Ok (Some tx), waiting) /\ EvBroadcast tx ∈ cc_events waiting
          /\ broadcastTx tx = None)
  /\ (cc_state waiting <> closeFinished -> ClosingTx waiting = (Err ErrChanCloseNotFinished, waiting)
        /\ forall s, EvFinalize s ∉ cc_events waiting).
Proof. apply (closer_invariant waiting waiting_reachable). Defined.

Lemma closer_no_panic_witness :
  ProcessCloseMsg (offer 1000) waiting <> (Err (ErrPanic "nil pointer dereference"), waiting).
Proof. apply (closer_no_panic (offer 1000) waiting). Defined.

Lemma negotiation_terminates_witness :
  let f := closer true 1000 in
  let g := closer false 3000 in
  let bound := (gap_of (cc_idealFeeSat f) (cc_idealFeeSat g) + 5)%nat in
  (exists sd f1 n, ShutdownChan f = (Ok sd, f1) /\ (n <= bound)%nat
     /\ both_finished (exchange n [MShutdown sd] g f1))
  /\ (exists sd g1 n, ShutdownChan g = (Ok sd, g1) /\ (n <= bound)%nat
     /\ both_finished (exchange n [MShutdown sd] f g1)).
Proof.
  apply (negotiation_terminates (CL := toy_live) (true, 1000) (false, 3000) [] [] 253 253 1000 1000);
    try reflexivity; vm_compute; split; discriminate.
Defined.

(** ** Below ten satoshi *)

(** The two sides after the funder, who wants 5 satoshi, and the fundee, who
    wants 9, have both made their first offer. *)
Definition small_f : channelCloser :=
  (proposeCloseSigned 5 (set_state closeFeeNegotiation (closer true 5))).2.
Definition small_g : channelCloser :=
  (proposeCloseSigned 9 (set_state closeFeeNegotiation (closer false 9))).2.

(** Being offered [remote], the closer repeats its own offer [own]. *)
Definition repeats (own remote : Z) (c : channelCloser) : Prop :=
  cc_state c = closeFeeNegotiation /\ cc_lastFeeProposal c = own /\ cc_idealFeeSat c = own
  /\ cc_priorFeeOffers c !! remote = None.

Lemma repeats_step own remote c cs :
  repeats own remote c -> own <> remote -> calcCompromiseFee own own remote = own ->
  cs_FeeSatoshis cs = remote ->
  exists m c', deliver [MClosingSigned cs] c = ([MClosingSigned m], c') /\ cs_FeeSatoshis m = own
    /\ repeats own remote c'.
Proof.
  intros (Hs & Hl & Hi & Hp) Hne Hcalc Hf.
  destruct (propose_live own c) as (m & c' & E).
  destruct (proposeCloseSigned_ok _ _ _ _ E) as (Hm & _ & Es & El & Ep & Ei & _).
  exists m, c'. split.
  - eapply deliver_one. unfold ProcessCloseMsg, mbind at 1, cc_bind at 1, cc_get at 1.
    rewrite Hs, Hf, decide_True by done. rewrite Hi, Hl, Hcalc. unfold mbind, cc_bind. rewrite E.
    by destruct (Z.eqb_spec own remote).
  - split; [done|]. split; [congruence|]. split; [done|]. split; [congruence|].
    rewrite Ep, lookup_insert_ne by done. done.
Qed.

Lemma repeats_forever n a b r s cs :
  repeats a b r -> repeats b a s -> a <> b -> calcCompromiseFee a a b = a -> calcCompromiseFee b b a = b ->
  cs_FeeSatoshis cs = b ->
  cc_state (exchange n [MClosingSigned cs] r s).1 = closeFeeNegotiation
  /\ cc_state (exchange n [MClosingSigned cs] r s).2 = closeFeeNegotiation.
Proof.
  revert a b r s cs. induction n as [|n IH]; intros a b r s cs Hr Hs Hne Ha Hb Hf.
  - split; [apply Hr|apply Hs].
  - destruct (repeats_step a b r cs Hr Hne Ha Hf) as (m & r' & E & Hm & Hr').
    cbn [exchange]. rewrite E. eapply (IH b a); try done.
Qed.

(** Below 10 satoshi a tenth of the fee rounds to nothing and a side that is
    not within thirty percent only repeats its offer: a closer that offered 5 and
    one that offered 9 exchange the same two offers for ever. *)
Theorem small_fees_never_agree n :
  let p := exchange n [MClosingSigned (mkClosingSigned [] 9 (put_be 8 9))] small_f small_g in
  cc_state p.1 = closeFeeNegotiation /\ cc_state p.2 = closeFeeNegotiation.
Proof. apply (repeats_forever n 5 9); try done; vm_compute; repeat split; done. Qed.

End CloserExamples.
