(* ===== verification/InvoiceStore.v ===== *)
(** * Invoices and witnesses in the database

    The part of channeldb the invoice registry and the witness beacon stand on:
    invoices under a running number with an index by payment hash
    (vendor/github.com/lightningnetwork/lnd/channeldb/invoices.go), and the preimages
    learned from the network (witness_cache.go), both on the bolt buckets of [Bolt],
    with the maps they refine.  Time stamps and the hash function are interfaces. *)

From Stdlib Require Import ZArith Lia.
From Stdlib Require Import Init.Byte.
From stdpp Require Import base gmap strings numbers list.
From S2P Require Import Prelude Stream Bolt.
Local Open Scope Z_scope.

(** [time.Time] with its binary form, and [sha256.Sum256]. *)
Class InvoiceEnv := {
  Time : Type;
  time_zero : Time;
  MarshalBinary : Time -> res bytes;
  UnmarshalBinary : bytes -> res Time;
  sha256 : bytes -> bytes;
  UnmarshalBinary_MarshalBinary t b : MarshalBinary t = Ok b -> UnmarshalBinary b = Ok t;
  MarshalBinary_length t b : MarshalBinary t = Ok b -> (length b <= 300)%nat;
  sha256_length p : length (sha256 p) = 32%nat
}.

Section Store.
Context {IE : InvoiceEnv}.

(** ** Data *)

Record Invoice := mkInvoice {
  inv_Memo : bytes;
  inv_Receipt : bytes;
  inv_PaymentRequest : bytes;
  inv_CreationDate : Time;
  inv_SettleDate : Time;
  inv_PaymentPreimage : bytes;
  inv_Value : Z;
  inv_Settled : bool
}.

Definition MaxMemoSize : Z := 1024.
Definition MaxReceiptSize : Z := 1024.
Definition MaxPaymentRequestSize : Z := 4096.

Definition serializeInvoice (i : Invoice) : res bytes :=
  birthBytes ← MarshalBinary (inv_CreationDate i);
  settleBytes ← MarshalBinary (inv_SettleDate i);
  mret (WriteVarBytes (inv_Memo i) ++ WriteVarBytes (inv_Receipt i) ++ WriteVarBytes (inv_PaymentRequest i)
        ++ WriteVarBytes birthBytes ++ WriteVarBytes settleBytes ++ inv_PaymentPreimage i
        ++ put_be 8 (inv_Value i) ++ write_bool (inv_Settled i)).

Definition read_time (b : bytes) : Reader Time := fun s =>
  match UnmarshalBinary b with Ok t => Ok (t, s) | Err e => Err e end.

Definition deserializeInvoice : Reader Invoice :=
  memo ← ReadVarBytes MaxMemoSize;
  receipt ← ReadVarBytes MaxReceiptSize;
  request ← ReadVarBytes MaxPaymentRequestSize;
  birthBytes ← ReadVarBytes 300;
  birth ← read_time birthBytes;
  settledBytes ← ReadVarBytes 300;
  settled ← read_time settledBytes;
  preimage ← read_full 32;
  value ← read_full 8;
  isSettled ← read_bool;
  mret (mkInvoice memo receipt request birth settled preimage (get_be value) isSettled).

(** ** Invoices *)

Definition invoiceBucket : bytes := str "invoices".
Definition invoiceIndexBucket : bytes := str "paymenthashes".
Definition numInvoicesKey : bytes := str "nik".

Definition validateInvoice (i : Invoice) : res () :=
  if MaxMemoSize <? Z.of_nat (length (inv_Memo i)) then Err (ErrNew "max length a memo")
  else if MaxReceiptSize <? Z.of_nat (length (inv_Receipt i)) then Err (ErrNew "max length a receipt")
  else if MaxPaymentRequestSize <? Z.of_nat (length (inv_PaymentRequest i)) then Err (ErrNew "max length of payment request")
  else Ok tt.

(** An invoice that cannot be serialized is not an error here. *)
Definition putInvoice (invoices invoiceIndex : path) (i : Invoice) (invoiceNum : Z) : TX () :=
  let invoiceKey := put_be 4 invoiceNum in
  _ ← b_Put invoiceIndex numInvoicesKey (put_be 4 (u32 (invoiceNum + 1)));
  _ ← b_Put invoiceIndex (sha256 (inv_PaymentPreimage i)) invoiceKey;
  match serializeInvoice i with
  | Ok buf => b_Put invoices invoiceKey buf
  | Err _ => mret tt
  end.

(** Failing to create the counter ends the transaction without an error. *)
Definition AddInvoice (i : Invoice) (db : bucket) : res () * bucket :=
  match validateInvoice i with
  | Err e => (Err e, db)
  | Ok _ =>
      Update (
        invoices ← b_CreateBucketIfNotExists [] invoiceBucket;
        invoiceIndex ← b_CreateBucketIfNotExists invoices invoiceIndexBucket;
        existing ← b_Get invoiceIndex (sha256 (inv_PaymentPreimage i));
        match existing with
        | Some _ => tx_fail ErrDuplicateInvoice
        | None =>
            invoiceCounter ← b_Get invoiceIndex numInvoicesKey;
            match invoiceCounter with
            | None =>
                r ← tx_try (b_Put invoiceIndex numInvoicesKey (put_be 4 0));
                match r with
                | Err _ => mret tt
                | Ok _ => putInvoice invoices invoiceIndex i 0
                end
            | Some c => putInvoice invoices invoiceIndex i (get_be c)
            end
        end) db
  end.

Definition fetchInvoice (invoiceNum : bytes) (invoices : path) : TX Invoice :=
  invoiceBytes ← b_Get invoices invoiceNum;
  match invoiceBytes with
  | None => tx_fail ErrInvoiceNotFound
  | Some b => tx_res (match deserializeInvoice b with Ok (i, _) => Ok i | Err e => Err e end)
  end.

Definition LookupInvoice (paymentHash : bytes) (db : bucket) : res Invoice :=
  View (
    invoices ← b_Bucket [] invoiceBucket;
    match invoices with
    | None => tx_fail ErrNoInvoicesCreated
    | Some invoices =>
        invoiceIndex ← b_Bucket invoices invoiceIndexBucket;
        match invoiceIndex with
        | None => tx_fail ErrNoInvoicesCreated
        | Some invoiceIndex =>
            invoiceNum ← b_Get invoiceIndex paymentHash;
            match invoiceNum with
            | None => tx_fail ErrInvoiceNotFound
            | Some invoiceNum => fetchInvoice invoiceNum invoices
            end
        end
    end) db.

(** The body of the iteration: the index bucket has no value. *)
Definition collect_invoice (pendingOnly : bool) (invoices : list Invoice) (kv : bytes * option bytes) : TX (list Invoice) :=
  match snd kv with
  | None => mret invoices
  | Some v =>
      invoice ← tx_res (match deserializeInvoice v with Ok (i, _) => Ok i | Err e => Err e end);
      if pendingOnly && inv_Settled invoice then mret invoices else mret (invoices ++ [invoice])
  end.

Definition FetchAllInvoices (pendingOnly : bool) (db : bucket) : res (list Invoice) :=
  View (
    invoiceB ← b_Bucket [] invoiceBucket;
    match invoiceB with
    | None => tx_fail ErrNoInvoicesCreated
    | Some invoiceB => entries ← b_entries invoiceB; tx_foldl (collect_invoice pendingOnly) [] entries
    end) db.

Definition settle (now : Time) (i : Invoice) : Invoice :=
  if inv_Settled i then i
  else mkInvoice (inv_Memo i) (inv_Receipt i) (inv_PaymentRequest i) (inv_CreationDate i) now
         (inv_PaymentPreimage i) (inv_Value i) true.

Definition settleInvoice (now : Time) (invoices : path) (invoiceNum : bytes) : TX () :=
  invoice ← fetchInvoice invoiceNum invoices;
  if inv_Settled invoice then mret tt
  else match serializeInvoice (settle now invoice) with
       | Ok buf => b_Put invoices invoiceNum buf
       | Err _ => mret tt
       end.

(** The clock is an argument. *)
Definition SettleInvoice (now : Time) (paymentHash : bytes) (db : bucket) : res () * bucket :=
  Update (
    invoices ← b_CreateBucketIfNotExists [] invoiceBucket;
    invoiceIndex ← b_CreateBucketIfNotExists invoices invoiceIndexBucket;
    invoiceNum ← b_Get invoiceIndex paymentHash;
    match invoiceNum with
    | None => tx_fail ErrInvoiceNotFound
    | Some invoiceNum => settleInvoice now invoices invoiceNum
    end) db.

(** ** Witnesses of type [Sha256HashWitness] *)

Definition witnessBucketKey : bytes := str "byte".
Definition Sha256HashWitness : bytes := [x01].

Definition AddWitness (witness : bytes) (db : bucket) : res () * bucket :=
  Update (
    witnessBucket ← b_CreateBucketIfNotExists [] witnessBucketKey;
    witnessTypeBucket ← b_CreateBucketIfNotExists witnessBucket Sha256HashWitness;
    b_Put witnessTypeBucket (sha256 witness) witness) db.

Definition LookupWitness (witnessKey : bytes) (db : bucket) : res bytes :=
  View (
    witnessBucket ← b_Bucket [] witnessBucketKey;
    match witnessBucket with
    | None => tx_fail ErrNoWitnesses
    | Some witnessBucket =>
        witnessTypeBucket ← b_Bucket witnessBucket Sha256HashWitness;
        match witnessTypeBucket with
        | None => tx_fail ErrNoWitnesses
        | Some witnessTypeBucket =>
            dbWitness ← b_Get witnessTypeBucket witnessKey;
            match dbWitness with
            | None => tx_fail ErrNoWitnesses
            | Some w => mret w
            end
        end
    end) db.

(** ** The encoding *)

Definition Invoice_ok (i : Invoice) : Prop :=
  Z.of_nat (length (inv_Memo i)) <= MaxMemoSize /\ Z.of_nat (length (inv_Receipt i)) <= MaxReceiptSize
  /\ Z.of_nat (length (inv_PaymentRequest i)) <= MaxPaymentRequestSize
  /\ (exists b, MarshalBinary (inv_CreationDate i) = Ok b) /\ (exists b, MarshalBinary (inv_SettleDate i) = Ok b)
  /\ length (inv_PaymentPreimage i) = 32%nat /\ is_u64 (inv_Value i).

Lemma WriteVarInt_length v : (length (WriteVarInt v) <= 9)%nat.
Proof. unfold WriteVarInt. repeat case_match; rewrite ?length_app, !put_le_length; lia. Qed.

Lemma WriteVarBytes_length b : (length (WriteVarBytes b) <= 9 + length b)%nat.
Proof. unfold WriteVarBytes. rewrite length_app. pose proof (WriteVarInt_length (Z.of_nat (length b))). lia. Qed.

Lemma serializeInvoice_rest i :
  Invoice_ok i -> exists buf, serializeInvoice i = Ok buf /\ Z.of_nat (length buf) <= 10000
    /\ forall rest, deserializeInvoice (buf ++ rest) = Ok (i, rest).
Proof.
  destruct i as [memo rec req cd sd pre val st]. intros (Hm & Hr & Hq & [b1 H1] & [b2 H2] & Hp & Hv). cbn in *.
  unfold serializeInvoice, deserializeInvoice. cbn. rewrite H1. cbn. rewrite H2. cbn. eexists. split; [done|].
  pose proof (MarshalBinary_length _ _ H1) as L1. pose proof (MarshalBinary_length _ _ H2) as L2. split.
  - rewrite !length_app, put_be_length.
    pose proof (WriteVarBytes_length memo). pose proof (WriteVarBytes_length rec). pose proof (WriteVarBytes_length req).
    pose proof (WriteVarBytes_length b1). pose proof (WriteVarBytes_length b2).
    assert (length (write_bool st) = 1%nat) as -> by (by destruct st).
    unfold MaxMemoSize, MaxReceiptSize, MaxPaymentRequestSize in *. lia.
  - intros rest. unfold MaxMemoSize, MaxReceiptSize, MaxPaymentRequestSize in *.
    rewrite <- !app_assoc.
    do 4 (erewrite reader_bind_ok by (apply ReadVarBytes_WriteVarBytes; lia); cbv beta).
    erewrite reader_bind_ok by (unfold read_time; by rewrite (UnmarshalBinary_MarshalBinary _ _ H1)). cbv beta.
    erewrite reader_bind_ok by (apply ReadVarBytes_WriteVarBytes; lia). cbv beta.
    erewrite reader_bind_ok by (unfold read_time; by rewrite (UnmarshalBinary_MarshalBinary _ _ H2)). cbv beta.
    erewrite reader_bind_ok by (by apply read_full_app). cbv beta. codec_run.
    unfold mret, reader_ret. rewrite get_put_be, Z.mod_small by exact Hv. done.
Qed.

Lemma serializeInvoice_ok i :
  Invoice_ok i -> exists buf, serializeInvoice i = Ok buf /\ Z.of_nat (length buf) <= MaxValueSize
    /\ deserializeInvoice buf = Ok (i, []).
Proof.
  intros H. destruct (serializeInvoice_rest i H) as (buf & E & Hl & Hd). exists buf. split; [done|]. split; [unfold MaxValueSize; lia|].
  rewrite <- (app_nil_r buf). apply Hd.
Qed.

(** ** The map the database refines *)

Record Invoices := mkInvoices {
  is_created : bool;
  is_next : Z;
  is_map : gmap bytes Invoice
}.

Definition idx : path := [invoiceBucket; invoiceIndexBucket].

(** The buckets have the expected shape. *)
Definition invoice_shape (db : bucket) : Prop :=
  bkt_wf db /\ obs db [] invoiceBucket = None /\ obs db [invoiceBucket] invoiceIndexBucket = None
  /\ (forall k, k <> invoiceIndexBucket -> has db [invoiceBucket; k] = false)
  /\ (forall k, has db (idx ++ [k]) = false).

Definition indexed (db : bucket) (next : Z) (h : bytes) (inv : Invoice) : Prop :=
  exists n buf, 0 <= n < next /\ obs db idx h = Some (put_be 4 n) /\ obs db [invoiceBucket] (put_be 4 n) = Some buf
    /\ serializeInvoice inv = Ok buf.

Definition is_rel (db : bucket) (st : Invoices) : Prop :=
  invoice_shape db
  /\ is_created st = has db idx
  /\ 0 <= is_next st < 2 ^ 32
  /\ match obs db idx numInvoicesKey with Some c => c = put_be 4 (is_next st) | None => is_next st = 0 end
  /\ (forall h inv, is_map st !! h = Some inv ->
        Invoice_ok inv /\ h = sha256 (inv_PaymentPreimage inv) /\ indexed db (is_next st) h inv)
  /\ (forall h, length h = 32%nat -> is_map st !! h = None -> obs db idx h = None)
  /\ (forall h h' v, length h = 32%nat -> length h' = 32%nat -> obs db idx h = Some v -> obs db idx h' = Some v -> h = h')
  /\ (forall k v, obs db [invoiceBucket] k = Some v ->
        exists h inv, is_map st !! h = Some inv /\ obs db idx h = Some k /\ serializeInvoice inv = Ok v).

Lemma numInvoicesKey_not_hash h : length h = 32%nat -> h <> numInvoicesKey.
Proof. intros H ->. discriminate H. Qed.

(** Opening both buckets, as every transaction that writes does. *)
Definition opened_buckets (db b : bucket) : Prop :=
  (forall q k, obs b q k = obs db q k)
  /\ (forall q, has b q = has db q || bool_decide (q = [invoiceBucket]) || bool_decide (q = idx))
  /\ bkt_wf b.

Lemma wp_open_buckets {A} (k : path -> path -> TX A) Q db :
  invoice_shape db -> (forall b, opened_buckets db b -> wp (k [invoiceBucket] idx) Q b) ->
  wp (invoices ← b_CreateBucketIfNotExists [] invoiceBucket;
      invoiceIndex ← b_CreateBucketIfNotExists invoices invoiceIndexBucket; k invoices invoiceIndex) Q db.
Proof.
  intros (Hwf & Ho1 & Ho2 & Hs1 & Hs2) H. apply wp_bind, wp_CreateBucketIfNotExists; [done|done|done|].
  intros b1 (C1 & H1 & W1). rewrite app_nil_l. apply wp_bind, wp_CreateBucketIfNotExists.
  - rewrite H1. by rewrite bool_decide_eq_true_2, orb_true_r.
  - done.
  - by rewrite C1.
  - intros b2 (C2 & H2 & W2). apply H. split; [intros q k'; by rewrite C2, C1|]. split; [|by auto].
    intros q. by rewrite H2, H1.
Qed.

Lemma opened_shape db b : invoice_shape db -> opened_buckets db b -> invoice_shape b.
Proof.
  intros (Hwf & Ho1 & Ho2 & Hs1 & Hs2) (Co & Ch & Cw). split; [done|]. split; [by rewrite Co|]. split; [by rewrite Co|]. split.
  - intros k Hk. rewrite Ch, Hs1 by done. by rewrite !bool_decide_eq_false_2 by (unfold idx; congruence).
  - intros k. rewrite Ch, Hs2. by rewrite !bool_decide_eq_false_2.
Qed.

Lemma opened_has db b : opened_buckets db b -> has b [invoiceBucket] = true /\ has b idx = true.
Proof.
  intros (_ & Ch & _). rewrite !Ch. rewrite (bool_decide_eq_true_2 ([invoiceBucket] = [invoiceBucket])) by done.
  rewrite (bool_decide_eq_true_2 (idx = idx)) by done. by rewrite !orb_true_r.
Qed.

Lemma stored_shape b b' p k v :
  invoice_shape b -> stored b b' p k v -> (p = [invoiceBucket] /\ k <> invoiceIndexBucket) \/ p = idx -> invoice_shape b'.
Proof.
  intros (Hwf & Ho1 & Ho2 & Hs1 & Hs2) (So & Sh & Sw) Hp. split; [by auto|].
  split; [rewrite So, decide_False; [done|]; intros [E _]; destruct Hp as [[-> _] | ->]; discriminate E|].
  split; [rewrite So, decide_False; [done|]; intros [E <-]; destruct Hp as [[_ ?] | ->]; done|].
  split; [intros k'; rewrite Sh; apply Hs1|intros k'; rewrite Sh; apply Hs2].
Qed.

Lemma is_rel_fetch db st h inv :
  is_rel db st -> is_map st !! h = Some inv ->
  exists n, obs db idx h = Some (put_be 4 n) /\ 0 <= n < is_next st
    /\ forall b, obs b [invoiceBucket] (put_be 4 n) = obs db [invoiceBucket] (put_be 4 n) ->
         fetchInvoice (put_be 4 n) [invoiceBucket] b = Ok (inv, b).
Proof.
  intros (_ & _ & _ & _ & Hm & _) Hl. destruct (Hm h inv Hl) as (Hok & _ & (n & buf & Hn & Hi & Hb & Hs)).
  exists n. split; [done|]. split; [done|]. intros b E. destruct (serializeInvoice_ok inv Hok) as (buf' & Hs' & _ & Hd).
  assert (buf' = buf) as -> by congruence. unfold fetchInvoice, mbind, tx_bind, b_Get.
  change (match bucket_at [invoiceBucket] b with Some c => _ | None => _ end) with (obs b [invoiceBucket] (put_be 4 n)).
  rewrite E, Hb. unfold tx_res. by rewrite Hd.
Qed.

Lemma LookupInvoice_refines db st h :
  is_rel db st -> length h = 32%nat ->
  LookupInvoice h db = if is_created st then match is_map st !! h with Some i => Ok i | None => Err ErrInvoiceNotFound end
                       else Err ErrNoInvoicesCreated.
Proof.
  intros H Hh. pose proof H as (Hsh & Hc & _ & _ & _ & Hn & _). rewrite Hc.
  unfold LookupInvoice, View, mbind, tx_bind, b_Bucket. rewrite app_nil_l.
  destruct (has db idx) eqn:Hi.
  - pose proof (has_prefix_path [invoiceBucket] [invoiceIndexBucket] db Hi) as H1.
    apply has_true in Hi as [c Hi]. apply has_true in H1 as [c1 H1]. rewrite H1. cbn [app]. change [invoiceBucket; invoiceIndexBucket] with idx.
    rewrite Hi. change (b_Get idx h db) with (@Ok (option bytes * bucket) (obs db idx h, db)).
    destruct (is_map st !! h) as [inv|] eqn:E.
    + destruct (is_rel_fetch db st h inv H E) as (n & -> & _ & Hf). by rewrite (Hf db eq_refl).
    + by rewrite (Hn h Hh E).
  - destruct (bucket_at [invoiceBucket] db) eqn:H1; [|done]. cbn [app]. change [invoiceBucket; invoiceIndexBucket] with idx.
    unfold has in Hi. by destruct (bucket_at idx db).
Qed.

(** What [putInvoice] leaves: the counter, the index entry and the record. *)
Definition added (b b' : bucket) (n : Z) (i : Invoice) (buf : bytes) : Prop :=
  (forall q k, obs b' q k =
     if decide (q = [invoiceBucket] /\ k = put_be 4 n) then Some buf
     else if decide (q = idx /\ k = sha256 (inv_PaymentPreimage i)) then Some (put_be 4 n)
     else if decide (q = idx /\ k = numInvoicesKey) then Some (put_be 4 (n + 1))
     else obs b q k)
  /\ (forall q, has b' q = has b q) /\ invoice_shape b'.

Lemma put_be4_key n : put_be 4 n <> invoiceIndexBucket /\ 0 < Z.of_nat (length (put_be 4 n)) <= MaxKeySize.
Proof.
  rewrite put_be_length. split; [|unfold MaxKeySize; lia]. intros E. apply (f_equal length) in E. by rewrite put_be_length in E.
Qed.

Lemma wp_putInvoice b n i Q :
  invoice_shape b -> has b [invoiceBucket] = true -> has b idx = true -> Invoice_ok i -> 0 <= n -> n + 1 < 2 ^ 32 ->
  (forall b' buf, serializeInvoice i = Ok buf -> added b b' n i buf -> Q tt b') ->
  wp (putInvoice [invoiceBucket] idx i n) Q b.
Proof.
  intros Hsh H1 H2 Hok Hn Hlt HQ. destruct (serializeInvoice_ok i Hok) as (buf & Hs & Hlen & _).
  destruct (put_be4_key n) as [Hk1 Hk2]. unfold putInvoice, u32. rewrite Hs, Z.mod_small by lia.
  apply wp_bind, wp_Put; [done|apply Hsh|done|rewrite put_be_length; unfold MaxValueSize; lia|].
  intros b1 S1. pose proof (stored_shape _ _ _ _ _ Hsh S1 (or_intror eq_refl)) as Sh1. destruct S1 as (So1 & Sb1 & _).
  apply wp_bind, wp_Put; [by rewrite Sb1|apply Sh1|rewrite sha256_length; unfold MaxKeySize; lia|
    rewrite put_be_length; unfold MaxValueSize; lia|].
  intros b2 S2. pose proof (stored_shape _ _ _ _ _ Sh1 S2 (or_intror eq_refl)) as Sh2. destruct S2 as (So2 & Sb2 & _).
  apply wp_Put; [by rewrite Sb2, Sb1|by apply Sh2|done|done|].
  intros b3 S3. pose proof (stored_shape _ _ _ _ _ Sh2 S3 (or_introl (conj eq_refl Hk1))) as Sh3. destruct S3 as (So3 & Sb3 & _).
  apply (HQ b3 buf); [done|]. split; [|split; [|done]].
  - intros q k. by rewrite So3, So2, So1.
  - intros q. by rewrite Sb3, Sb2, Sb1.
Qed.

(** Nothing outside of the bucket [name] changes. *)
Definition outside (name : bytes) (db db' : bucket) : Prop :=
  forall q, head q <> Some name -> has db' q = has db q /\ forall k, obs db' q k = obs db q k.

Lemma opened_outside db b : opened_buckets db b -> outside invoiceBucket db b.
Proof.
  intros (Co & Ch & _) q Hq. split; [|intros k; apply Co]. rewrite Ch.
  rewrite !bool_decide_eq_false_2, !orb_false_r; [done|..]; intros ->; by apply Hq.
Qed.

Lemma added_outside b b' n i buf : added b b' n i buf -> outside invoiceBucket b b'.
Proof.
  intros (Ao & Ah & _) q Hq. split; [apply Ah|]. intros k. rewrite Ao.
  rewrite !decide_False; [done|..]; intros [-> _]; by apply Hq.
Qed.

Lemma outside_trans name a b c : outside name a b -> outside name b c -> outside name a c.
Proof.
  intros H1 H2 q Hq. destruct (H1 q Hq) as [A1 B1], (H2 q Hq) as [A2 B2]. split; [congruence|]. intros k. by rewrite B2, B1.
Qed.

(** The new record extends the map. *)
Lemma added_rel db st b b' i buf :
  is_rel db st -> (forall q k, q <> idx \/ k <> numInvoicesKey -> obs b q k = obs db q k) -> has b idx = true ->
  Invoice_ok i -> is_next st + 1 < 2 ^ 32 -> is_map st !! sha256 (inv_PaymentPreimage i) = None ->
  serializeInvoice i = Ok buf -> added b b' (is_next st) i buf ->
  is_rel b' (mkInvoices true (is_next st + 1) (<[sha256 (inv_PaymentPreimage i) := i]> (is_map st))).
Proof.
  intros (_ & _ & Hn & _ & Hm & Hnone & Hinj & Hall) Hb Hi Hok Hlt Hnew Hs (Ao & Ah & Ash).
  set (h := sha256 (inv_PaymentPreimage i)) in *. assert (length h = 32%nat) as Hh by apply sha256_length.
  assert (forall k, length k = 32%nat -> k <> h -> obs b' idx k = obs db idx k) as Hidx.
  { intros k Hk Hne. rewrite Ao, decide_False, decide_False, decide_False; [|by intros [_ ->]|by intros [_ ->]|by intros [? _]].
    apply Hb. right. by apply numInvoicesKey_not_hash. }
  assert (obs b' idx h = Some (put_be 4 (is_next st))) as Hself.
  { rewrite Ao, decide_False by (by intros [? _]). by rewrite decide_True. }
  assert (forall n, 0 <= n < is_next st -> obs b' [invoiceBucket] (put_be 4 n) = obs db [invoiceBucket] (put_be 4 n)) as Hrec.
  { intros n Hr. rewrite Ao, !decide_False; [apply Hb; by left|by intros [? _]|by intros [? _]|].
    intros [_ E]. apply put_be_inj in E; simpl; lia. }
  split; [done|]. split; [cbn; by rewrite Ah|]. cbn [is_next is_map is_created]. split; [lia|]. split; [|split; [|split; [|split]]].
  - rewrite Ao, decide_False by (by intros [? _]).
    rewrite decide_False by (intros [_ E]; by apply (numInvoicesKey_not_hash h)). by rewrite decide_True.
  - intros h' inv. rewrite lookup_insert. case_decide as Hd.
    + subst h'. intros [= <-]. split; [done|]. split; [done|]. exists (is_next st), buf. split; [lia|]. split; [done|].
      split; [|done]. by rewrite Ao, decide_True.
    + intros Hl. destruct (Hm h' inv Hl) as (Hok' & Hh' & (n & buf' & Hr & Hi' & Hb' & Hs')). split; [done|]. split; [done|].
      exists n, buf'. split; [lia|]. rewrite Hrec by done. rewrite Hidx; [done| |done]. rewrite Hh'. apply sha256_length.
  - intros h' Hl'. rewrite lookup_insert. case_decide as Hd; [done|]. intros Hl. rewrite Hidx by done. by apply Hnone.
  - intros h1 h2 v L1 L2. destruct (decide (h1 = h)) as [->|N1], (decide (h2 = h)) as [->|N2]; try done.
    + rewrite Hself, (Hidx h2) by done. intros [= <-] E. destruct (is_map st !! h2) as [inv|] eqn:El.
      * destruct (Hm h2 inv El) as (_ & _ & (n & ? & Hr & Hi' & _)). rewrite E in Hi'.
        apply (inj Some), put_be_inj in Hi'; simpl; lia.
      * by rewrite (Hnone h2 L2 El) in E.
    + rewrite Hself, (Hidx h1) by done. intros E [= <-]. destruct (is_map st !! h1) as [inv|] eqn:El.
      * destruct (Hm h1 inv El) as (_ & _ & (n & ? & Hr & Hi' & _)). rewrite E in Hi'.
        apply (inj Some), put_be_inj in Hi'; simpl; lia.
      * by rewrite (Hnone h1 L1 El) in E.
    + rewrite !Hidx by done. by apply Hinj.
  - intros k v. rewrite Ao. case_decide as Hk.
    + destruct Hk as [_ ->]. intros [= <-]. exists h, i. by rewrite lookup_insert_eq.
    + rewrite !decide_False by (by intros [? _]). rewrite Hb by (by left). intros (h' & inv & Hl & Hx & Hsv)%Hall.
      destruct (Hm h' inv Hl) as (_ & Hh' & _). assert (length h' = 32%nat) by (rewrite Hh'; apply sha256_length).
      assert (h' <> h) by congruence. exists h', inv. by rewrite lookup_insert_ne, Hidx by done.
Qed.

Lemma AddInvoice_refines db st i :
  is_rel db st -> Invoice_ok i -> is_next st + 1 < 2 ^ 32 ->
  match is_map st !! sha256 (inv_PaymentPreimage i) with
  | Some _ => AddInvoice i db = (Err ErrDuplicateInvoice, db)
  | None => exists db', AddInvoice i db = (Ok tt, db') /\ outside invoiceBucket db db'
      /\ is_rel db' (mkInvoices true (is_next st + 1) (<[sha256 (inv_PaymentPreimage i) := i]> (is_map st)))
  end.
Proof.
  intros H Hok Hlt. pose proof H as (Hsh & _ & Hn & Hcnt & Hm & Hnone & _).
  assert (validateInvoice i = Ok tt) as Hv.
  { destruct Hok as (H1 & H2 & H3 & _). unfold validateInvoice.
    by rewrite (proj2 (Z.ltb_ge _ _) H1), (proj2 (Z.ltb_ge _ _) H2), (proj2 (Z.ltb_ge _ _) H3). }
  unfold AddInvoice. rewrite Hv. set (h := sha256 (inv_PaymentPreimage i)).
  destruct (is_map st !! h) as [inv|] eqn:El.
  - destruct (Hm h inv El) as (_ & _ & (n & buf & _ & Hi & _)).
    match goal with |- Update ?t db = _ => assert (t db = Err ErrDuplicateInvoice) as E end.
    { assert (wp (invoices ← b_CreateBucketIfNotExists [] invoiceBucket;
                  invoiceIndex ← b_CreateBucketIfNotExists invoices invoiceIndexBucket;
                  mret (invoices, invoiceIndex)) (fun p b => p = ([invoiceBucket], idx) /\ obs b idx h = Some (put_be 4 n)) db) as Hw.
      { apply (wp_open_buckets (fun a b => mret (a, b))); [done|]. intros b Ho. apply wp_ret. split; [done|].
        by rewrite (proj1 Ho). }
      destruct Hw as ([p1 p2] & b & E & [= -> ->] & Hb). unfold mbind, tx_bind in E |- *.
      destruct (b_CreateBucketIfNotExists [] invoiceBucket db) as [[q1 b1]|]; [|done].
      destruct (b_CreateBucketIfNotExists q1 invoiceIndexBucket b1) as [[q2 b2]|]; [|done].
      injection E as -> -> ->. change (b_Get idx h b) with (@Ok (option bytes * bucket) (obs b idx h, b)). by rewrite Hb. }
    unfold Update. by rewrite E.
  - assert (length h = 32%nat) as Hh by apply sha256_length. apply wp_Update_unit, wp_open_buckets; [done|].
    intros b Ho. pose proof (opened_shape db b Hsh Ho) as Hsb. destruct (opened_has db b Ho) as [Hb1 Hb2].
    pose proof (opened_outside db b Ho) as Hout. destruct Ho as (Co & _ & _).
    apply wp_bind, wp_Get. rewrite Co, (Hnone h Hh El). apply wp_bind, wp_Get. rewrite Co.
    destruct (obs db idx numInvoicesKey) as [c|].
    + subst c. rewrite get_put_be4 by (unfold is_u32; lia). apply wp_putInvoice; [done..|lia|lia|].
      intros b' buf Hs Ha. split; [eapply outside_trans; [exact Hout|by eapply added_outside]|].
      eapply (added_rel db st b); [done| |done..]. intros q k _. apply Co.
    + rewrite Hcnt in *. apply wp_bind, wp_try_ok, wp_Put; [done|apply Hsb|done|rewrite put_be_length; unfold MaxValueSize; lia|].
      intros b1 S1. pose proof (stored_shape _ _ _ _ _ Hsb S1 (or_intror eq_refl)) as Sh1. destruct S1 as (So1 & Sb1 & _).
      apply wp_putInvoice; [done|by rewrite Sb1|by rewrite Sb1|done|lia|lia|]. intros b' buf Hs Ha. split.
      * eapply outside_trans; [exact Hout|]. eapply outside_trans; [|by eapply added_outside].
        intros q Hq. split; [apply Sb1|]. intros k. rewrite So1, decide_False; [done|]. intros [-> _]. by apply Hq.
      * rewrite <- Hcnt in *. eapply (added_rel db st b1); [done| |by rewrite Sb1|done..].
        intros q k Hqk. rewrite So1, decide_False; [apply Co|]. intros [-> ->]. by destruct Hqk.
Qed.

Lemma opened_rel db st b : is_rel db st -> opened_buckets db b -> is_rel b (mkInvoices true (is_next st) (is_map st)).
Proof.
  intros (Hsh & _ & Hn & Hcnt & Hm & Hnone & Hinj & Hall) Ho. pose proof (opened_shape db b Hsh Ho) as Hsb.
  destruct (opened_has db b Ho) as [_ Hi]. destruct Ho as (Co & _ & _). split; [done|]. split; [done|]. split; [done|].
  split; [by rewrite Co|]. split; [|split; [|split]].
  - intros h inv Hl. destruct (Hm h inv Hl) as (? & ? & (n & buf & ? & ? & ? & ?)). split; [done|]. split; [done|].
    exists n, buf. by rewrite !Co.
  - intros h. rewrite Co. apply Hnone.
  - intros h h' v. rewrite !Co. apply Hinj.
  - intros k v. rewrite Co. setoid_rewrite Co. apply Hall.
Qed.

(** Overwriting the record of an invoice by one with the same preimage. *)
Lemma overwritten_rel b b' st h inv inv' n buf :
  is_rel b st -> is_map st !! h = Some inv -> obs b idx h = Some (put_be 4 n) -> 0 <= n < is_next st ->
  Invoice_ok inv' -> inv_PaymentPreimage inv' = inv_PaymentPreimage inv -> serializeInvoice inv' = Ok buf ->
  stored b b' [invoiceBucket] (put_be 4 n) buf ->
  is_rel b' (mkInvoices (is_created st) (is_next st) (<[h := inv']> (is_map st))).
Proof.
  intros (Hsh & Hc & Hn & Hcnt & Hm & Hnone & Hinj & Hall) Hl Hi Hr Hok Hpre Hs St. destruct (put_be4_key n) as [Hk _].
  pose proof (stored_shape _ _ _ _ _ Hsh St (or_introl (conj eq_refl Hk))) as Hsh'. destruct St as (So & Sb & _).
  destruct (Hm h inv Hl) as (_ & Hh & _). assert (length h = 32%nat) as Lh by (rewrite Hh; apply sha256_length).
  assert (forall k, obs b' idx k = obs b idx k) as Hidx by (intros k; rewrite So, decide_False; [done|by intros [? _]]).
  split; [done|]. split; [cbn; by rewrite Sb|]. cbn [is_next is_map]. split; [done|]. split; [by rewrite Hidx|]. split; [|split; [|split]].
  - intros h' i'. rewrite lookup_insert. case_decide as Hd.
    + subst h'. intros [= <-]. split; [done|]. split; [by rewrite Hpre|]. exists n, buf. rewrite Hidx. split; [done|].
      split; [done|]. split; [|done]. by rewrite So, decide_True.
    + intros Hl'. destruct (Hm h' i' Hl') as (? & Hh' & (n' & buf' & ? & Hi' & ? & ?)). split; [done|]. split; [done|].
      exists n', buf'. rewrite Hidx. split; [done|]. split; [done|]. split; [|done]. rewrite So, decide_False; [done|].
      intros [_ E]. rewrite E in Hi'. apply Hd, (Hinj h h' (put_be 4 n)); [done| |done|done]. rewrite Hh'. apply sha256_length.
  - intros h' L'. rewrite lookup_insert. case_decide; [done|]. rewrite Hidx. by apply Hnone.
  - intros h1 h2 v. rewrite !Hidx. apply Hinj.
  - intros k v. rewrite So. case_decide as Hkk.
    + destruct Hkk as [_ ->]. intros [= <-]. exists h, inv'. by rewrite lookup_insert_eq, Hidx.
    + intros (h' & i' & Hl' & Hx & Hsv)%Hall. exists h', i'. rewrite Hidx, lookup_insert_ne; [done|]. intros <-.
      apply Hkk. split; [done|]. congruence.
Qed.

Lemma settle_ok now i : Invoice_ok i -> (exists b, MarshalBinary now = Ok b) -> Invoice_ok (settle now i).
Proof. intros H Hn. unfold settle. destruct (inv_Settled i); [done|]. unfold Invoice_ok in *. cbn. naive_solver. Qed.

Lemma settle_preimage now i : inv_PaymentPreimage (settle now i) = inv_PaymentPreimage i.
Proof. unfold settle. by destruct (inv_Settled i). Qed.

Lemma SettleInvoice_refines now db st h :
  is_rel db st -> length h = 32%nat -> (exists b, MarshalBinary now = Ok b) ->
  match is_map st !! h with
  | None => SettleInvoice now h db = (Err ErrInvoiceNotFound, db)
  | Some inv => exists db', SettleInvoice now h db = (Ok tt, db') /\ outside invoiceBucket db db'
      /\ is_rel db' (mkInvoices true (is_next st) (<[h := settle now inv]> (is_map st)))
  end.
Proof.
  intros H Hh Hnow. pose proof H as (Hsh & _ & _ & _ & Hm & Hnone & _).
  destruct (is_map st !! h) as [inv|] eqn:El.
  - apply wp_Update_unit, wp_open_buckets; [done|]. intros b Ho. pose proof (opened_rel db st b H Ho) as Hb.
    pose proof (opened_outside db b Ho) as Hout. destruct (opened_has db b Ho) as [Hb1 _]. pose proof Ho as (Co & _ & _).
    destruct (is_rel_fetch b _ h inv Hb El) as (n & Hi & Hr & Hf). apply wp_bind, wp_Get. rewrite Hi.
    unfold settleInvoice. apply wp_bind. exists inv, b. split; [by apply Hf|]. destruct (Hm h inv El) as (Hok & _).
    destruct (inv_Settled inv) eqn:Hst.
    + apply wp_ret. split; [done|]. unfold settle. rewrite Hst, insert_id by done. exact Hb.
    + destruct (serializeInvoice_ok _ (settle_ok now inv Hok Hnow)) as (buf & Hs & Hlen & _). rewrite Hs.
      destruct (put_be4_key n) as [Hk1 Hk2]. destruct (opened_shape db b Hsh Ho) as (_ & _ & _ & Hsub & _).
      apply wp_Put; [done|by apply Hsub|done|done|]. intros b' St. split.
      * eapply outside_trans; [exact Hout|]. destruct St as (So & Sb & _). intros q Hq. split; [apply Sb|]. intros k.
        rewrite So, decide_False; [done|]. intros [-> _]. by apply Hq.
      * apply (overwritten_rel b b' (mkInvoices true (is_next st) (is_map st)) h inv (settle now inv) n buf); try done;
          [by apply settle_ok|apply settle_preimage].
  - assert (wp (invoices ← b_CreateBucketIfNotExists [] invoiceBucket;
                invoiceIndex ← b_CreateBucketIfNotExists invoices invoiceIndexBucket;
                mret (invoices, invoiceIndex)) (fun p b => p = ([invoiceBucket], idx) /\ obs b idx h = None) db) as Hw.
    { apply (wp_open_buckets (fun a b => mret (a, b))); [done|]. intros b Ho. apply wp_ret. split; [done|].
      rewrite (proj1 Ho). by apply Hnone. }
    destruct Hw as ([p1 p2] & b & E & [= -> ->] & Hb). unfold SettleInvoice, Update. unfold mbind, tx_bind in E |- *.
    destruct (b_CreateBucketIfNotExists [] invoiceBucket db) as [[q1 b1]|]; [|done].
    destruct (b_CreateBucketIfNotExists q1 invoiceIndexBucket b1) as [[q2 b2]|]; [|done].
    injection E as -> -> ->. change (b_Get idx h b) with (@Ok (option bytes * bucket) (obs b idx h, b)). by rewrite Hb.
Qed.

(** ** The list of invoices *)

Definition listed (pendingOnly : bool) (i : Invoice) : bool := negb (pendingOnly && inv_Settled i).

(** A record of the bucket is the invoice the index leads to. *)
Lemma record_found db st k v :
  is_rel db st -> obs db [invoiceBucket] k = Some v ->
  exists i, is_map st !! sha256 (inv_PaymentPreimage i) = Some i /\ obs db idx (sha256 (inv_PaymentPreimage i)) = Some k
    /\ deserializeInvoice v = Ok (i, []).
Proof.
  intros (_ & _ & _ & _ & Hm & _ & _ & Hall) (h & i & Hl & Hi & Hs)%Hall. destruct (Hm h i Hl) as (Hok & -> & _).
  exists i. split; [done|]. split; [done|]. destruct (serializeInvoice_ok i Hok) as (buf & Hs' & _ & Hd). congruence.
Qed.

Lemma map_found db st i :
  is_rel db st -> i ∈ map snd (map_to_list (is_map st)) ->
  is_map st !! sha256 (inv_PaymentPreimage i) = Some i /\ exists k v, obs db [invoiceBucket] k = Some v /\ deserializeInvoice v = Ok (i, []).
Proof.
  intros (_ & _ & _ & _ & Hm & _) ([h i'] & -> & Hl%elem_of_map_to_list)%list_elem_of_fmap. cbn [snd].
  destruct (Hm h i' Hl) as (Hok & -> & (n & buf & _ & _ & Hb & Hs)). split; [done|]. exists (put_be 4 n), buf. split; [done|].
  destruct (serializeInvoice_ok i' Hok) as (buf' & Hs' & _ & Hd). congruence.
Qed.

Lemma map_invoices_NoDup db st : is_rel db st -> NoDup (map snd (map_to_list (is_map st))).
Proof.
  intros (_ & _ & _ & _ & Hm & _). apply (NoDup_fmap_1 (fun i => sha256 (inv_PaymentPreimage i))).
  assert ((fun i => sha256 (inv_PaymentPreimage i)) <$> map snd (map_to_list (is_map st)) = (map_to_list (is_map st)).*1) as ->;
    [|apply NoDup_fst_map_to_list].
  change (map snd (map_to_list (is_map st))) with (snd <$> map_to_list (is_map st)). rewrite <- list_fmap_compose.
  apply list_fmap_ext. intros n [h i] Hl%list_elem_of_lookup_2%elem_of_map_to_list. cbn. by destruct (Hm h i Hl) as (_ & -> & _).
Qed.

(** What the iteration has collected after the entries [es]. *)
Definition collected (pendingOnly : bool) (es : list (bytes * option bytes)) (l : list Invoice) : Prop :=
  NoDup l /\ forall i, i ∈ l <-> listed pendingOnly i = true /\ exists k v, (k, Some v) ∈ es /\ deserializeInvoice v = Ok (i, []).

Lemma wp_collect_invoice db st pendingOnly seen kv l :
  is_rel db st -> collected pendingOnly seen l -> (forall k v, (k, Some v) ∈ seen ++ [kv] -> obs db [invoiceBucket] k = Some v) ->
  fst kv ∉ seen.*1 ->
  wp (collect_invoice pendingOnly l kv) (fun l' b => collected pendingOnly (seen ++ [kv]) l' /\ b = db) db.
Proof.
  intros H (Hnd & Hl) Hes Hnew. destruct kv as [k [v|]]; unfold collect_invoice; cbn [fst snd] in *.
  2:{ apply wp_ret. split; [|done]. split; [done|]. intros i. rewrite Hl. setoid_rewrite elem_of_app. setoid_rewrite list_elem_of_singleton. naive_solver. }
  destruct (record_found db st k v H) as (i & Hi & Hx & Hd); [apply Hes, elem_of_app; right; by left|].
  apply wp_bind. rewrite Hd. apply wp_res. set (keep := pendingOnly && inv_Settled i).
  assert (i ∉ l) as Hni.
  { rewrite Hl. intros (_ & k' & v' & Hin & Hd'). destruct (record_found db st k' v' H) as (i' & _ & Hx' & Hd''); [apply Hes, elem_of_app; by left|].
    assert (i' = i) as -> by congruence. assert (k' = k) as -> by congruence. apply Hnew. by apply (list_elem_of_fmap_2 fst) in Hin. }
  destruct keep eqn:E; apply wp_ret; (split; [|done]); subst keep; split.
  - done.
  - intros j. rewrite Hl. setoid_rewrite elem_of_app. setoid_rewrite list_elem_of_singleton. split; [naive_solver|].
    intros (Hj & k' & v' & [Hin|[= -> ->]] & Hd'); [naive_solver|]. assert (j = i) as -> by congruence. unfold listed in Hj. by rewrite E in Hj.
  - apply NoDup_app. split; [done|]. split; [|apply NoDup_singleton]. intros j Hj ->%list_elem_of_singleton. done.
  - intros j. rewrite elem_of_app, Hl, list_elem_of_singleton. setoid_rewrite elem_of_app. setoid_rewrite list_elem_of_singleton. split.
    + intros [?| ->]; [naive_solver|]. split; [unfold listed; by rewrite E|]. exists k, v. naive_solver.
    + intros (Hj & k' & v' & [Hin|[= -> ->]] & Hd'); [left; naive_solver|]. right. congruence.
Qed.

Lemma FetchAllInvoices_refines db st pendingOnly :
  is_rel db st ->
  match FetchAllInvoices pendingOnly db with
  | Err e => e = ErrNoInvoicesCreated /\ has db [invoiceBucket] = false
  | Ok l => l ≡ₚ List.filter (listed pendingOnly) (map snd (map_to_list (is_map st)))
  end.
Proof.
  intros H. destruct (has db [invoiceBucket]) eqn:Hb.
  2:{ unfold FetchAllInvoices, View, mbind, tx_bind, b_Bucket. rewrite app_nil_l. unfold has in Hb. by destruct (bucket_at [invoiceBucket] db). }
  assert (wp (entries ← b_entries [invoiceBucket]; tx_foldl (collect_invoice pendingOnly) [] entries)
            (fun l _ => l ≡ₚ List.filter (listed pendingOnly) (map snd (map_to_list (is_map st)))) db) as (l & b & E & Hl).
  { apply wp_bind, wp_entries; [apply H|done|]. intros es [Hes _] Hnd. eapply wp_mono.
    - apply (wp_foldl _ (fun seen l b => collected pendingOnly seen l /\ b = db)).
      + split; [|done]. split; [constructor|]. intros i. split; [by intros ?%not_elem_of_nil|]. intros (_ & ? & ? & ?%not_elem_of_nil & _). done.
      + intros seen kv rest l b -> [Hc ->]. apply (wp_collect_invoice db st); [done|done| |].
        * intros k v Hin. apply Hes. rewrite cons_middle, app_assoc. apply elem_of_app. by left.
        * rewrite fmap_app, NoDup_app in Hnd. destruct Hnd as (_ & Hnd & _). intros Hin. apply (Hnd _ Hin). rewrite fmap_cons. by left.
    - intros l b [[Hndl Hl] _]. apply NoDup_Permutation; [done|apply NoDup_ListNoDup, List.NoDup_filter, NoDup_ListNoDup; by apply (map_invoices_NoDup db)|].
      intros i. rewrite Hl, (list_elem_of_In (List.filter _ _) i), filter_In, <- list_elem_of_In. split.
      + intros (Hk & k & v & Hin%Hes & Hd). split; [|done]. destruct (record_found db st k v H Hin) as (i' & Hm & _ & Hd').
        assert (i' = i) as -> by congruence. apply list_elem_of_fmap. exists (sha256 (inv_PaymentPreimage i), i). split; [done|]. by apply elem_of_map_to_list.
      + intros [Hin Hk]. split; [done|]. destruct (map_found db st i H Hin) as (_ & k & v & Hkv & Hd). exists k, v. split; [by apply Hes|done]. }
  unfold FetchAllInvoices, View, mbind, tx_bind, b_Bucket in E |- *. rewrite app_nil_l. apply has_true in Hb as [c Hb]. rewrite Hb. by rewrite E.
Qed.

(** ** Witnesses *)

Definition wit : path := [witnessBucketKey; Sha256HashWitness].

Definition ws_rel (db : bucket) (m : gmap bytes bytes) : Prop :=
  bkt_wf db /\ obs db [] witnessBucketKey = None /\ obs db [witnessBucketKey] Sha256HashWitness = None
  /\ (forall k, has db (wit ++ [k]) = false) /\ (forall h, obs db wit h = m !! h)
  /\ (forall h w, m !! h = Some w -> h = sha256 w).

Lemma AddWitness_refines db m w :
  ws_rel db m -> Z.of_nat (length w) <= MaxValueSize ->
  exists db', AddWitness w db = (Ok tt, db') /\ outside witnessBucketKey db db' /\ ws_rel db' (<[sha256 w := w]> m).
Proof.
  intros (Hwf & Ho1 & Ho2 & Hsub & Ho & Hm) Hw. apply wp_Update_unit.
  apply wp_bind, wp_CreateBucketIfNotExists; [done|done|done|]. intros b1 (C1 & H1 & W1). rewrite app_nil_l.
  apply wp_bind, wp_CreateBucketIfNotExists; [rewrite H1; by rewrite bool_decide_eq_true_2, orb_true_r|done|by rewrite C1|].
  intros b2 (C2 & H2 & W2). change ([witnessBucketKey] ++ [Sha256HashWitness]) with wit in *. apply wp_Put.
  - rewrite H2. by rewrite (bool_decide_eq_true_2 (wit = wit)), orb_true_r.
  - rewrite H2, H1, Hsub. by rewrite !bool_decide_eq_false_2.
  - rewrite sha256_length. unfold MaxKeySize. lia.
  - done.
  - intros b3 (So & Sb & Sw). split; [|split; [by auto|split; [|split; [|split; [|split]]]]].
    + intros q Hq. split.
      * rewrite Sb, H2, H1. rewrite !bool_decide_eq_false_2, !orb_false_r; [done|..]; intros ->; by apply Hq.
      * intros k. rewrite So, decide_False, C2, C1; [done|]. intros [-> _]. by apply Hq.
    + by rewrite So, decide_False, C2, C1 by (by intros [? _]).
    + by rewrite So, decide_False, C2, C1 by (by intros [? _]).
    + intros k. rewrite Sb, H2, H1, Hsub. by rewrite !bool_decide_eq_false_2.
    + intros h. rewrite So, C2, C1, lookup_insert, Ho. repeat case_decide; naive_solver.
    + intros h w'. rewrite lookup_insert. case_decide; [by intros [= <-]|apply Hm].
Qed.

Lemma LookupWitness_refines db m k :
  ws_rel db m -> LookupWitness k db = match m !! k with Some w => Ok w | None => Err ErrNoWitnesses end.
Proof.
  intros (_ & _ & _ & _ & Ho & _). rewrite <- Ho. unfold LookupWitness, View, mbind, tx_bind, b_Bucket. rewrite app_nil_l.
  destruct (bucket_at [witnessBucketKey] db) as [c|] eqn:E1; [cbn [app]; change [witnessBucketKey; Sha256HashWitness] with wit|].
  - destruct (bucket_at wit db) as [c2|] eqn:E2.
    + change (b_Get wit k db) with (@Ok (option bytes * bucket) (obs db wit k, db)). by destruct (obs db wit k).
    + unfold obs. by rewrite E2.
  - assert (bucket_at wit db = None) as E2.
    { change wit with ([witnessBucketKey] ++ [Sha256HashWitness]). by rewrite bucket_at_app, E1. }
    unfold obs. by rewrite E2.
Qed.

(** ** The stores do not disturb each other *)

Lemma is_rel_outside name db db' st :
  name <> invoiceBucket -> outside name db db' -> bkt_wf db' -> is_rel db st -> is_rel db' st.
Proof.
  intros Hn Ho Hwf ((_ & Ho1 & Ho2 & Hs1 & Hs2) & Hc & Hnx & Hcnt & Hm & Hnone & Hinj & Hall).
  assert (forall q r, q = [invoiceBucket] ++ r -> has db' q = has db q /\ forall k, obs db' q k = obs db q k) as Hin.
  { intros q r ->. apply Ho. simpl. congruence. }
  destruct (Ho []) as [_ Hroot]; [done|].
  pose proof (proj2 (Hin [invoiceBucket] [] eq_refl)) as Hinv. destruct (Hin idx [invoiceIndexBucket] eq_refl) as [Hhi Hidx].
  split; [split; [done|]; split; [by rewrite Hroot|]; split; [by rewrite Hinv|]; split|].
  - intros k Hk. rewrite (proj1 (Hin [invoiceBucket; k] [k] eq_refl)). by apply Hs1.
  - intros k. rewrite (proj1 (Hin (idx ++ [k]) [invoiceIndexBucket; k] eq_refl)). apply Hs2.
  - split; [by rewrite Hhi|]. split; [done|]. split; [by rewrite Hidx|]. split; [|split; [|split]].
    + intros h inv Hl. destruct (Hm h inv Hl) as (? & ? & (n & buf & ? & ? & ? & ?)). split; [done|]. split; [done|].
      exists n, buf. by rewrite Hidx, Hinv.
    + intros h. rewrite Hidx. apply Hnone.
    + intros h h' v. rewrite !Hidx. apply Hinj.
    + intros k v. rewrite Hinv. setoid_rewrite Hidx. apply Hall.
Qed.

Lemma ws_rel_outside name db db' m :
  name <> witnessBucketKey -> outside name db db' -> bkt_wf db' -> ws_rel db m -> ws_rel db' m.
Proof.
  intros Hn Ho Hwf (_ & Ho1 & Ho2 & Hsub & Hob & Hm).
  assert (forall r, has db' ([witnessBucketKey] ++ r) = has db ([witnessBucketKey] ++ r)
                    /\ forall k, obs db' ([witnessBucketKey] ++ r) k = obs db ([witnessBucketKey] ++ r) k) as Hin.
  { intros r. apply Ho. simpl. congruence. }
  split; [done|]. split; [by rewrite (proj2 (Ho [] ltac:(done)))|]. split; [by rewrite (proj2 (Hin []))|].
  split; [intros k; etrans; [apply (proj1 (Hin [Sha256HashWitness; k]))|apply Hsub]|]. split; [|done].
  intros h. etrans; [apply (proj2 (Hin [Sha256HashWitness]))|apply Hob].
Qed.
End Store.
