(* ===== verification/Preimages.v ===== *)
(** * The invoice registry and the preimage beacon

    invoiceregistry.go and witness_beacon.go: the invoices of the node with their
    volatile debug invoices and the clients told about settlements, and the preimages
    it knows with the subscribers told about new ones.  Both stand on the stores of
    [InvoiceStore] in one database.

    The notifications are goroutines that send on channels, so the system is a state
    with a list of goroutines, and an event is a call of a method, one goroutine
    running to its end, or a client taking a message off its channel.  The order of
    the events is arbitrary. *)

From Stdlib Require Import ZArith Lia.
From Stdlib Require Import Init.Byte.
From stdpp Require Import base gmap strings numbers list.
From S2P Require Import Prelude Stream Bolt InvoiceStore.
Local Open Scope Z_scope.

Section Preimages.
Context {IE : InvoiceEnv}.

(** ** State *)

(** A subscription is named by its position in [sy_subs]; its channels are unbuffered
    and carry no state. *)
Record invoiceSubscription := mkInvoiceSubscription { sub_id : Z }.

Record invoiceRegistry := mkInvoiceRegistry {
  nextClientID : Z;
  notificationClients : gmap Z nat;
  debugInvoices : gmap bytes Invoice
}.

(** [updateChan] holds at most ten messages; [ps_quit] is whether [quit] is closed.
    [ps_clientID] is the identifier the client's [CancelSubscription] has captured. *)
Record preimageSubscriber := mkPreimageSubscriber {
  ps_clientID : Z;
  updateChan : list bytes;
  ps_quit : bool
}.

Record preimageBeacon := mkPreimageBeacon {
  clientCounter : Z;
  subscribers : gmap Z nat
}.

(** A channel of a subscription: [SettledInvoices] or [NewInvoices]. *)
Definition invoice_chan : Type := nat * bool.

(** Goroutines. *)
Inductive task :=
  | T_settled (rHash : bytes)
  | T_event (c : invoice_chan) (invoice : Invoice)
  | T_update (c : nat) (pre : bytes).

(** The database, both components, the objects their maps point to, the goroutines,
    and what the clients have taken off their channels. *)
Record system := mkSystem {
  sy_db : bucket;
  sy_reg : invoiceRegistry;
  sy_subs : list invoiceSubscription;
  sy_beacon : preimageBeacon;
  sy_clients : list preimageSubscriber;
  sy_tasks : list task;
  sy_invoices_got : list (invoice_chan * Invoice);
  sy_updates_got : list (nat * bytes)
}.

Definition set_db (s : system) (db : bucket) : system :=
  mkSystem db (sy_reg s) (sy_subs s) (sy_beacon s) (sy_clients s) (sy_tasks s) (sy_invoices_got s) (sy_updates_got s).
Definition set_reg (s : system) (r : invoiceRegistry) : system :=
  mkSystem (sy_db s) r (sy_subs s) (sy_beacon s) (sy_clients s) (sy_tasks s) (sy_invoices_got s) (sy_updates_got s).
Definition set_beacon (s : system) (b : preimageBeacon) : system :=
  mkSystem (sy_db s) (sy_reg s) (sy_subs s) b (sy_clients s) (sy_tasks s) (sy_invoices_got s) (sy_updates_got s).
Definition set_clients (s : system) (c : list preimageSubscriber) : system :=
  mkSystem (sy_db s) (sy_reg s) (sy_subs s) (sy_beacon s) c (sy_tasks s) (sy_invoices_got s) (sy_updates_got s).
Definition set_tasks (s : system) (t : list task) : system :=
  mkSystem (sy_db s) (sy_reg s) (sy_subs s) (sy_beacon s) (sy_clients s) t (sy_invoices_got s) (sy_updates_got s).

(** ** The invoice registry *)

Definition newInvoiceRegistry : invoiceRegistry := mkInvoiceRegistry 0 ∅ ∅.

Definition NewMSatFromSatoshis (sat : Z) : Z := u64 (u64 sat * 1000).

Definition AddDebugInvoice (now : Time) (amt : Z) (preimage : bytes) (r : invoiceRegistry) : invoiceRegistry :=
  mkInvoiceRegistry (nextClientID r) (notificationClients r)
    (<[sha256 preimage := mkInvoice [] [] [] now time_zero preimage (NewMSatFromSatoshis amt) false]> (debugInvoices r)).

Definition r_AddInvoice (i : Invoice) (s : system) : res () * system :=
  let (r, db) := AddInvoice i (sy_db s) in (r, set_db s db).

Definition r_LookupInvoice (rHash : bytes) (s : system) : res Invoice :=
  match debugInvoices (sy_reg s) !! rHash with
  | Some invoice => Ok invoice
  | None => LookupInvoice rHash (sy_db s)
  end.

(** The last step starts the goroutine [T_settled]. *)
Definition r_SettleInvoice (now : Time) (rHash : bytes) (s : system) : res () * system :=
  match debugInvoices (sy_reg s) !! rHash with
  | Some _ => (Ok tt, s)
  | None =>
      match SettleInvoice now rHash (sy_db s) with
      | (Err e, db) => (Err e, set_db s db)
      | (Ok _, db) => (Ok tt, set_tasks (set_db s db) (sy_tasks s ++ [T_settled rHash]))
      end
  end.

(** One sender for each client. *)
Definition notifyClients (invoice : Invoice) (settle : bool) (r : invoiceRegistry) : list task :=
  (fun p => T_event (snd p, settle) invoice) <$> map_to_list (notificationClients r).

(** The goroutine of [SettleInvoice]. *)
Definition settled_goroutine (rHash : bytes) (s : system) : system :=
  match LookupInvoice rHash (sy_db s) with
  | Err _ => s
  | Ok invoice => set_tasks s (sy_tasks s ++ notifyClients invoice true (sy_reg s))
  end.

Definition SubscribeNotifications (s : system) : system :=
  let r := sy_reg s in
  let client := length (sy_subs s) in
  mkSystem (sy_db s)
    (mkInvoiceRegistry (u32 (nextClientID r + 1)) (<[nextClientID r := client]> (notificationClients r)) (debugInvoices r))
    (sy_subs s ++ [mkInvoiceSubscription (nextClientID r)])
    (sy_beacon s) (sy_clients s) (sy_tasks s) (sy_invoices_got s) (sy_updates_got s).

Definition Cancel (i : invoiceSubscription) (s : system) : system :=
  let r := sy_reg s in
  set_reg s (mkInvoiceRegistry (nextClientID r) (delete (sub_id i) (notificationClients r)) (debugInvoices r)).

(** ** The preimage beacon *)

(** The buffer of [updateChan]. *)
Definition updateChan_cap : nat := 10.

Definition SubscribeUpdates (s : system) : system :=
  let b := sy_beacon s in
  set_beacon (set_clients s (sy_clients s ++ [mkPreimageSubscriber (clientCounter b) [] false]))
    (mkPreimageBeacon (u64 (clientCounter b + 1)) (<[clientCounter b := length (sy_clients s)]> (subscribers b))).

(** The closure [SubscribeUpdates] returns.  [None]: closing a closed channel panics. *)
Definition CancelSubscription (client : nat) (c : preimageSubscriber) (s : system) : option system :=
  let b := sy_beacon s in
  let s' := set_beacon s (mkPreimageBeacon (clientCounter b) (delete (ps_clientID c) (subscribers b))) in
  if ps_quit c then None
  else Some (set_clients s' (<[client := mkPreimageSubscriber (ps_clientID c) (updateChan c) true]> (sy_clients s))).

(** [copy] into an array of 32 bytes. *)
Definition copy32 (b : bytes) : bytes := take 32 b ++ replicate (32 - length b) x00.

Definition LookupPreimage (payHash : bytes) (s : system) : option bytes :=
  match r_LookupInvoice (copy32 payHash) s with
  | Ok invoice => Some (inv_PaymentPreimage invoice)
  | Err ErrInvoiceNotFound =>
      match LookupWitness payHash (sy_db s) with
      | Ok preimage => Some preimage
      | Err _ => None
      end
  | Err _ => None
  end.

Definition AddPreimage (pre : bytes) (s : system) : res () * system :=
  match AddWitness pre (sy_db s) with
  | (Err e, db) => (Err e, set_db s db)
  | (Ok _, db) =>
      (Ok tt, set_tasks (set_db s db)
                (sy_tasks s ++ ((fun p => T_update (snd p) pre) <$> map_to_list (subscribers (sy_beacon s)))))
  end.

(** ** Events *)

(** What [newServer] builds: fresh components over the database, with the debug
    invoice when the flag asks for it. *)
Definition debugPre : bytes := replicate 32 x01.

Definition newServer_invoices (debugHTLC : bool) (now : Time) : invoiceRegistry :=
  if debugHTLC then AddDebugInvoice now (100000000 * 1000) debugPre newInvoiceRegistry
  else newInvoiceRegistry.

Definition newServer (debugHTLC : bool) (now : Time) (db : bucket) : system :=
  mkSystem db (newServer_invoices debugHTLC now) [] (mkPreimageBeacon 0 ∅) [] [] [] [].

Inductive event :=
  | E_restart (debugHTLC : bool) (now : Time)
  | E_AddDebugInvoice (now : Time) (amt : Z) (preimage : bytes)
  | E_AddInvoice (i : Invoice)
  | E_SettleInvoice (now : Time) (rHash : bytes)
  | E_SubscribeNotifications
  | E_Cancel (i : nat)
  | E_SubscribeUpdates
  | E_CancelSubscription (client : nat)
  | E_AddPreimage (pre : bytes)
  | E_goroutine (t : nat)
  | E_quit (t : nat)
  | E_receive_invoice (t : nat)
  | E_receive_update (c : nat).

Inductive outcome :=
  | Next (s : system)
  | Blocked
  | Panics.

(** [E_restart]: a new process over the same database.  [E_goroutine t] runs the goroutine at position [t]: the lookup after a settlement,
    or the send of a preimage, which needs room in the buffer.  [E_quit t] takes the
    other branch of its [select].  [E_receive_invoice t]: the client takes the invoice the
    goroutine at [t] offers. *)
Definition sys_step (e : event) (s : system) : outcome :=
  match e with
  | E_restart debug now => Next (newServer debug now (sy_db s))
  | E_AddDebugInvoice now amt pre => Next (set_reg s (AddDebugInvoice now amt pre (sy_reg s)))
  | E_AddInvoice i => Next (r_AddInvoice i s).2
  | E_SettleInvoice now h => Next (r_SettleInvoice now h s).2
  | E_SubscribeNotifications => Next (SubscribeNotifications s)
  | E_Cancel i => match sy_subs s !! i with Some c => Next (Cancel c s) | None => Blocked end
  | E_SubscribeUpdates => Next (SubscribeUpdates s)
  | E_CancelSubscription c =>
      match sy_clients s !! c with
      | Some cl => match CancelSubscription c cl s with Some s' => Next s' | None => Panics end
      | None => Blocked
      end
  | E_AddPreimage pre => Next (AddPreimage pre s).2
  | E_goroutine t =>
      let s' := set_tasks s (delete t (sy_tasks s)) in
      match sy_tasks s !! t with
      | Some (T_settled h) => Next (settled_goroutine h s')
      | Some (T_update c pre) =>
          match sy_clients s !! c with
          | Some cl => if bool_decide (length (updateChan cl) < updateChan_cap)%nat
                       then Next (set_clients s'
                                    (<[c := mkPreimageSubscriber (ps_clientID cl) (updateChan cl ++ [pre]) (ps_quit cl)]> (sy_clients s)))
                       else Blocked
          | None => Blocked
          end
      | _ => Blocked
      end
  | E_quit t =>
      match sy_tasks s !! t with
      | Some (T_update c _) =>
          match sy_clients s !! c with
          | Some cl => if ps_quit cl then Next (set_tasks s (delete t (sy_tasks s))) else Blocked
          | None => Blocked
          end
      | _ => Blocked
      end
  | E_receive_invoice t =>
      match sy_tasks s !! t with
      | Some (T_event c i) =>
          Next (mkSystem (sy_db s) (sy_reg s) (sy_subs s) (sy_beacon s) (sy_clients s) (delete t (sy_tasks s))
                  (sy_invoices_got s ++ [(c, i)]) (sy_updates_got s))
      | _ => Blocked
      end
  | E_receive_update c =>
      match sy_clients s !! c with
      | Some (mkPreimageSubscriber id (pre :: rest) q) =>
          Next (mkSystem (sy_db s) (sy_reg s) (sy_subs s) (sy_beacon s) (<[c := mkPreimageSubscriber id rest q]> (sy_clients s))
                  (sy_tasks s) (sy_invoices_got s) (sy_updates_got s ++ [(c, pre)]))
      | _ => Blocked
      end
  end.

Fixpoint run_events (es : list event) (s : system) : outcome :=
  match es with
  | [] => Next s
  | e :: es => match sys_step e s with Next s' => run_events es s' | o => o end
  end.

Lemma run_events_app es1 es2 s :
  run_events (es1 ++ es2) s = match run_events es1 s with Next s' => run_events es2 s' | o => o end.
Proof. revert s. induction es1 as [|e es1 IH]; intros s; [done|]. simpl. by destruct (sys_step e s). Qed.

(** ** The preimages the node knows *)

Record known := mkKnown {
  kn_debug : gmap bytes Invoice;
  kn_store : Invoices;
  kn_wit : gmap bytes bytes
}.

(** The answer to a lookup: the debug invoices, the invoices, the witnesses, in this
    order; and nothing at all from the database before the first invoice. *)
Definition known_preimage (k : known) (h : bytes) : option bytes :=
  match kn_debug k !! h with
  | Some i => Some (inv_PaymentPreimage i)
  | None =>
      if is_created (kn_store k) then
        match is_map (kn_store k) !! h with
        | Some i => Some (inv_PaymentPreimage i)
        | None => kn_wit k !! h
        end
      else None
  end.

Definition add_invoice (i : Invoice) (st : Invoices) : Invoices :=
  match validateInvoice i, is_map st !! sha256 (inv_PaymentPreimage i) with
  | Ok _, None => mkInvoices true (is_next st + 1) (<[sha256 (inv_PaymentPreimage i) := i]> (is_map st))
  | _, _ => st
  end.

Definition settle_invoice (now : Time) (h : bytes) (st : Invoices) : Invoices :=
  match is_map st !! h with
  | Some i => mkInvoices true (is_next st) (<[h := settle now i]> (is_map st))
  | None => st
  end.

Definition k_step (e : event) (k : known) : known :=
  match e with
  | E_restart debug now => mkKnown (debugInvoices (newServer_invoices debug now)) (kn_store k) (kn_wit k)
  | E_AddDebugInvoice now amt pre =>
      mkKnown (debugInvoices (AddDebugInvoice now amt pre (mkInvoiceRegistry 0 ∅ (kn_debug k)))) (kn_store k) (kn_wit k)
  | E_AddInvoice i => mkKnown (kn_debug k) (add_invoice i (kn_store k)) (kn_wit k)
  | E_SettleInvoice now h =>
      match kn_debug k !! h with
      | Some _ => k
      | None => mkKnown (kn_debug k) (settle_invoice now h (kn_store k)) (kn_wit k)
      end
  | E_AddPreimage pre => mkKnown (kn_debug k) (kn_store k) (<[sha256 pre := pre]> (kn_wit k))
  | _ => k
  end.

(** What the types and the callers guarantee of the arguments. *)
Definition event_ok (e : event) : Prop :=
  match e with
  | E_AddDebugInvoice _ _ pre => length pre = 32%nat
  | E_AddInvoice i => (exists b, MarshalBinary (inv_CreationDate i) = Ok b) /\ (exists b, MarshalBinary (inv_SettleDate i) = Ok b)
      /\ length (inv_PaymentPreimage i) = 32%nat /\ is_u64 (inv_Value i)
  | E_SettleInvoice now h => (exists b, MarshalBinary now = Ok b) /\ length h = 32%nat
  | E_AddPreimage pre => Z.of_nat (length pre) <= MaxValueSize
  | _ => True
  end.

(** The number of invoices a sequence of events adds; the store has room for 2^32. *)
Definition invoice_of (e : event) : Z := match e with E_AddInvoice _ => 1 | _ => 0 end.
Definition invoices_of (es : list event) : Z := foldr (fun e n => invoice_of e + n) 0 es.

Lemma invoice_of_pos e : 0 <= invoice_of e.
Proof. by destruct e. Qed.

Lemma invoices_of_pos es : 0 <= invoices_of es.
Proof. induction es as [|e es IH]; [done|]. cbn. pose proof (invoice_of_pos e). unfold invoices_of in IH. lia. Qed.

Definition sys_rel (s : system) (k : known) : Prop :=
  debugInvoices (sy_reg s) = kn_debug k /\ is_rel (sy_db s) (kn_store k) /\ ws_rel (sy_db s) (kn_wit k)
  /\ (forall h i, kn_debug k !! h = Some i -> h = sha256 (inv_PaymentPreimage i)).

Lemma validateInvoice_ok i : event_ok (E_AddInvoice i) -> validateInvoice i = Ok tt -> Invoice_ok i.
Proof.
  intros (H1 & H2 & H3 & H4). unfold validateInvoice.
  destruct (_ <? _) eqn:E1; [done|]. destruct (MaxReceiptSize <? _) eqn:E2; [done|].
  destruct (MaxPaymentRequestSize <? _) eqn:E3; [done|]. intros _. apply Z.ltb_ge in E1, E2, E3. by do 6 (split; [done|]).
Qed.

Lemma stores_apart : invoiceBucket <> witnessBucketKey.
Proof. discriminate. Qed.

Lemma add_invoice_rel i s k :
  sys_rel s k -> event_ok (E_AddInvoice i) -> is_next (kn_store k) + 1 < 2 ^ 32 ->
  sys_rel (r_AddInvoice i s).2 (k_step (E_AddInvoice i) k).
Proof.
  intros (Hd & Hi & Hw & Hs) Hok Hn. unfold r_AddInvoice, k_step, add_invoice.
  destruct (validateInvoice i) as [[]|e] eqn:V; [|unfold AddInvoice; rewrite V; done].
  pose proof (AddInvoice_refines _ _ i Hi (validateInvoice_ok i Hok V) Hn) as H.
  destruct (is_map _ !! _) as [j|]; [by rewrite H|]. destruct H as (db' & -> & Ho & Hr).
  split; [done|]. split; [done|]. split; [|done]. eapply ws_rel_outside; [|done|apply Hr|done]. apply stores_apart.
Qed.

Lemma settle_invoice_rel now h s k :
  sys_rel s k -> event_ok (E_SettleInvoice now h) -> sys_rel (r_SettleInvoice now h s).2 (k_step (E_SettleInvoice now h) k).
Proof.
  intros (Hd & Hi & Hw & Hs) [Hnow Hh]. unfold r_SettleInvoice, k_step, settle_invoice. rewrite Hd.
  destruct (kn_debug k !! h); [done|]. pose proof (SettleInvoice_refines now _ _ h Hi Hh Hnow) as H.
  destruct (is_map _ !! _) as [j|]; [|by rewrite H]. destruct H as (db' & -> & Ho & Hr).
  split; [done|]. split; [done|]. split; [|done]. eapply ws_rel_outside; [|done|apply Hr|done]. apply stores_apart.
Qed.

Lemma add_preimage_rel pre s k :
  sys_rel s k -> event_ok (E_AddPreimage pre) ->
  (AddPreimage pre s).1 = Ok tt /\ sys_rel (AddPreimage pre s).2 (k_step (E_AddPreimage pre) k).
Proof.
  intros (Hd & Hi & Hw & Hs) Hok. unfold AddPreimage.
  destruct (AddWitness_refines _ _ pre Hw Hok) as (db' & -> & Ho & Hr). split; [done|].
  split; [done|]. split; [|done]. eapply is_rel_outside; [|done|apply Hr|done]. apply not_eq_sym, stores_apart.
Qed.

Lemma debug_invoice_hash (now : Time) (amt : Z) (pre h : bytes) (i : Invoice) (m : gmap bytes Invoice) :
  (forall h i, m !! h = Some i -> h = sha256 (inv_PaymentPreimage i)) ->
  debugInvoices (AddDebugInvoice now amt pre (mkInvoiceRegistry 0 ∅ m)) !! h = Some i -> h = sha256 (inv_PaymentPreimage i).
Proof. intros Hm. cbn. rewrite lookup_insert. case_decide; [by intros [= <-]|apply Hm]. Qed.

Lemma sys_step_rel e s s' k :
  sys_rel s k -> event_ok e -> is_next (kn_store k) + invoice_of e < 2 ^ 32 -> sys_step e s = Next s' -> sys_rel s' (k_step e k).
Proof.
  intros H Hok Hn Hstep. pose proof H as (Hd & Hi & Hw & Hs).
  destruct e; cbn [sys_step] in Hstep.
  - injection Hstep as <-. split; [done|]. split; [done|]. split; [done|]. cbn. intros h i.
    destruct debugHTLC; [by apply debug_invoice_hash|done].
  - injection Hstep as <-. cbn. split; [cbn; by rewrite Hd|]. split; [done|]. split; [done|]. intros h i. by apply debug_invoice_hash.
  - injection Hstep as <-. by apply add_invoice_rel.
  - injection Hstep as <-. by apply settle_invoice_rel.
  - injection Hstep as <-. done.
  - destruct (sy_subs s !! i); [|done]. injection Hstep as <-. done.
  - injection Hstep as <-. done.
  - destruct (sy_clients s !! client) as [cl|]; [|done]. unfold CancelSubscription in Hstep. destruct (ps_quit cl); [done|].
    injection Hstep as <-. done.
  - injection Hstep as <-. by apply add_preimage_rel.
  - destruct (sy_tasks s !! t) as [[]|]; try done.
    + injection Hstep as <-. unfold settled_goroutine. by case_match.
    + destruct (sy_clients s !! c); [|done]. case_match; [|done]. injection Hstep as <-. done.
  - destruct (sy_tasks s !! t) as [[]|]; try done. destruct (sy_clients s !! c); [|done]. case_match; [|done].
    injection Hstep as <-. done.
  - destruct (sy_tasks s !! t) as [[]|]; try done. injection Hstep as <-. done.
  - destruct (sy_clients s !! c) as [[id [|pre rest] q]|]; try done. injection Hstep as <-. done.
Qed.
End Preimages.
