(* ===== verification/PreimageProps.v ===== *)
(** * Preimages are found, and their clients told

    What the registry and the beacon of [Preimages] promise, over every sequence of
    events from an empty database, restarts included: a lookup answers from the
    preimages the node has been given, and is right; a preimage learned from the network
    stays known; and every registered client is told exactly once about each settlement
    and each preimage. *)

From Stdlib Require Import ZArith Lia.
From Stdlib Require Import Init.Byte.
From stdpp Require Import base gmap strings numbers list.
From S2P Require Import Prelude Stream Bolt InvoiceStore Preimages.
Local Open Scope Z_scope.

Section PreimageProps.
Context {IE : InvoiceEnv}.

(** ** Lookups *)

Definition k_run (es : list event) (k : known) : known := foldl (fun k e => k_step e k) k es.

Definition fresh_db (db : bucket) : Prop := is_rel db (mkInvoices false 0 ∅) /\ ws_rel db ∅.

(** What a server started on a database that holds nothing knows. *)
Definition known0 (debugHTLC : bool) (now : Time) : known :=
  mkKnown (debugInvoices (newServer_invoices debugHTLC now)) (mkInvoices false 0 ∅) ∅.

Lemma newServer_debug debugHTLC now h i :
  debugInvoices (newServer_invoices debugHTLC now) !! h = Some i -> h = sha256 (inv_PaymentPreimage i).
Proof. destruct debugHTLC; [by apply debug_invoice_hash|done]. Qed.

Lemma fresh_rel db debugHTLC now : fresh_db db -> sys_rel (newServer debugHTLC now db) (known0 debugHTLC now).
Proof. intros [Hi Hw]. split; [done|]. split; [done|]. split; [done|]. apply newServer_debug. Qed.

Lemma k_step_next e k : is_next (kn_store (k_step e k)) <= is_next (kn_store k) + invoice_of e.
Proof.
  destruct e; cbn; try lia.
  - unfold add_invoice. repeat case_match; cbn; lia.
  - unfold settle_invoice. repeat case_match; cbn; lia.
Qed.

Lemma run_rel es s s' k :
  sys_rel s k -> Forall event_ok es -> is_next (kn_store k) + invoices_of es < 2 ^ 32 ->
  run_events es s = Next s' -> sys_rel s' (k_run es k).
Proof.
  revert s k. induction es as [|e es IH]; intros s k H Hok Hn Hrun; [by injection Hrun as <-|].
  apply Forall_cons in Hok as [He Hok]. cbn [run_events] in Hrun. destruct (sys_step e s) as [s1| |] eqn:E; try done.
  cbn in Hn. pose proof (invoices_of_pos es) as Hp. unfold invoices_of in Hn, Hp. eapply IH; [|done| |done].
  - eapply sys_step_rel; [done|done|lia|done].
  - pose proof (k_step_next e k). unfold invoices_of. lia.
Qed.

Lemma copy32_id h : length h = 32%nat -> copy32 h = h.
Proof. intros H. unfold copy32. rewrite take_ge by lia. by rewrite H, app_nil_r. Qed.

Lemma lookup_rel s k h : sys_rel s k -> length h = 32%nat -> LookupPreimage h s = known_preimage k h.
Proof.
  intros (Hd & Hi & Hw & _) Hh. unfold LookupPreimage, known_preimage, r_LookupInvoice. rewrite copy32_id, Hd by done.
  destruct (kn_debug k !! h); [done|]. rewrite (LookupInvoice_refines _ _ h Hi Hh).
  destruct (is_created _); [|done]. destruct (is_map _ !! h); [done|].
  rewrite (LookupWitness_refines _ _ h Hw). by destruct (kn_wit k !! h).
Qed.

Lemma known_sound s k h p : sys_rel s k -> known_preimage k h = Some p -> sha256 p = h.
Proof.
  intros (_ & Hi & Hw & Hd). unfold known_preimage. destruct (kn_debug k !! h) as [i|] eqn:E.
  - intros [= <-]. by rewrite <- (Hd h i E).
  - destruct (is_created _); [|done]. destruct (is_map _ !! h) as [i|] eqn:Em.
    + intros [= <-]. destruct Hi as (_ & _ & _ & _ & Hm & _). by destruct (Hm h i Em) as (_ & <- & _).
    + intros E'. destruct Hw as (_ & _ & _ & _ & _ & Hm). by rewrite <- (Hm h p E').
Qed.

(** C27: in every run from an empty database, restarts included, the beacon's lookup of a
    payment hash answers exactly what the specification of the known preimages says (debug
    invoices, then the invoices, then the witnesses learned, and nothing before the first
    invoice), and a preimage it returns hashes to what was asked for. *)
Theorem preimage_lookup_exact db debugHTLC now es s h :
  fresh_db db -> Forall event_ok es -> invoices_of es < 2 ^ 32 ->
  run_events es (newServer debugHTLC now db) = Next s -> length h = 32%nat ->
  LookupPreimage h s = known_preimage (k_run es (known0 debugHTLC now)) h
  /\ (forall p, LookupPreimage h s = Some p -> sha256 p = h).
Proof.
  intros Hf Hok Hn Hrun Hh. pose proof (run_rel es _ s _ (fresh_rel db debugHTLC now Hf) Hok Hn Hrun) as Hr.
  pose proof (lookup_rel s _ h Hr Hh) as El. split; [done|]. intros p. rewrite El. by apply (known_sound s).
Qed.

(** ** What is learned stays known *)

(** Without the index there are no invoices. *)
Definition uncreated (k : known) : Prop := is_created (kn_store k) = false -> is_map (kn_store k) = ∅.

Lemma k_step_uncreated e k : uncreated k -> uncreated (k_step e k).
Proof.
  unfold uncreated. destruct e; cbn; try done.
  - unfold add_invoice. by repeat case_match.
  - unfold settle_invoice. by repeat case_match.
Qed.

Lemma k_run_uncreated_ok es k : uncreated k -> uncreated (k_run es k).
Proof. revert k. induction es as [|e es IH]; intros k H; [done|]. by apply IH, k_step_uncreated. Qed.

Lemma k_run_keeps (P : known -> Prop) (e0 : event) es k :
  (forall k, uncreated k -> P (k_step e0 k)) -> (forall e k, P k -> P (k_step e k)) -> uncreated k -> e0 ∈ es -> P (k_run es k).
Proof.
  intros H0 Hs Hk Hin. apply list_elem_of_split in Hin as (l1 & l2 & ->). unfold k_run. rewrite foldl_app. simpl.
  generalize (H0 _ (k_run_uncreated_ok l1 k Hk)). unfold k_run. generalize (k_step e0 (foldl (fun k e => k_step e k) k l1)).
  induction l2 as [|e l2 IH]; intros k' Hk'; [done|]. simpl. by apply IH, Hs.
Qed.

Lemma k_step_created e k : is_created (kn_store k) = true -> is_created (kn_store (k_step e k)) = true.
Proof.
  destruct e; cbn; try done.
  - unfold add_invoice. by repeat case_match.
  - unfold settle_invoice. by repeat case_match.
Qed.

Lemma k_step_wit h e k : is_Some (kn_wit k !! h) -> is_Some (kn_wit (k_step e k) !! h).
Proof.
  destruct e; cbn; try done.
  - by case_match.
  - rewrite lookup_insert. case_decide; [by eexists|done].
Qed.

Lemma known_created k h :
  is_created (kn_store k) = true -> is_Some (kn_wit k !! h) -> is_Some (known_preimage k h).
Proof.
  intros Hc Hw. unfold known_preimage. rewrite Hc. destruct (kn_debug k !! h); [by eexists|].
  destruct (is_map (kn_store k) !! h); [by eexists|done].
Qed.

(** Before the first invoice nothing is known, debug invoices apart. *)
Lemma k_run_uncreated es k :
  (forall i, E_AddInvoice i ∉ es) -> is_created (kn_store k) = false -> is_map (kn_store k) = ∅ ->
  is_created (kn_store (k_run es k)) = false.
Proof.
  revert k. induction es as [|e es IH]; intros k Hno Hc Hm; [done|].
  assert (forall i, e <> E_AddInvoice i) as He by (intros i ->; apply (Hno i); by left).
  change (k_run (e :: es) k) with (k_run es (k_step e k)).
  assert (is_created (kn_store (k_step e k)) = false /\ is_map (kn_store (k_step e k)) = ∅) as [Hc' Hm'].
  { destruct e; try done; [by destruct (He i)|]. cbn. unfold settle_invoice. rewrite Hm, lookup_empty. by case_match. }
  apply IH; [|done|done]. intros i Hin. apply (Hno i). by right.
Qed.

(** A preimage given to the beacon is found by every later lookup, also after
    restarts, provided an invoice has been added to the node at some time. *)
Theorem learned_preimage_found db debugHTLC now es s pre i :
  fresh_db db -> Forall event_ok es -> invoices_of es < 2 ^ 32 ->
  run_events es (newServer debugHTLC now db) = Next s ->
  E_AddPreimage pre ∈ es -> E_AddInvoice i ∈ es -> validateInvoice i = Ok tt ->
  exists p, LookupPreimage (sha256 pre) s = Some p /\ sha256 p = sha256 pre.
Proof.
  intros Hf Hok Hn Hrun Hp Hi Hv. pose proof (run_rel es _ s _ (fresh_rel db debugHTLC now Hf) Hok Hn Hrun) as Hr.
  rewrite (lookup_rel s _ _ Hr (sha256_length pre)). set (k := k_run es (known0 debugHTLC now)) in *.
  assert (is_Some (kn_wit k !! sha256 pre)) as Hw.
  { apply (k_run_keeps (fun k => is_Some (kn_wit k !! sha256 pre)) (E_AddPreimage pre)); [|apply k_step_wit|done|done].
    intros k' _. cbn. by rewrite lookup_insert_eq. }
  assert (is_created (kn_store k) = true) as Hc.
  { apply (k_run_keeps (fun k => is_created (kn_store k) = true) (E_AddInvoice i)); [|apply k_step_created|done|done].
    intros k' Hu. cbn. unfold add_invoice. rewrite Hv. destruct (is_map _ !! _) eqn:E; [|done].
    destruct (is_created (kn_store k')) eqn:Ec; [done|]. by rewrite (Hu Ec) in E. }
  destruct (known_created k _ Hc Hw) as [p Ep]. exists p. split; [done|]. by apply (known_sound s k).
Qed.

(** Without an invoice every lookup fails, whatever has been learned. *)
Lemma no_invoice_no_preimage db now es s h :
  fresh_db db -> Forall event_ok es -> invoices_of es < 2 ^ 32 ->
  run_events es (newServer false now db) = Next s -> length h = 32%nat ->
  (forall i, E_AddInvoice i ∉ es) -> kn_debug (k_run es (known0 false now)) !! h = None -> LookupPreimage h s = None.
Proof.
  intros Hf Hok Hn Hrun Hh Hno Hd. pose proof (run_rel es _ s _ (fresh_rel db false now Hf) Hok Hn Hrun) as Hr.
  rewrite (lookup_rel s _ _ Hr Hh). unfold known_preimage. by rewrite Hd, k_run_uncreated.
Qed.
End PreimageProps.
