(* ===== verification/PreimageNotify.v ===== *)
(** * Notifications of the registry and the beacon

    Every settlement is sent once to every registered client of the registry, and every
    new preimage once to every subscriber of the beacon; and the goroutines that send them
    all come to an end when the clients keep receiving. *)

From Stdlib Require Import ZArith Lia.
From Stdlib Require Import Init.Byte.
From stdpp Require Import base gmap strings numbers list.
From S2P Require Import Prelude Stream Bolt InvoiceStore Preimages PreimageProps.
Local Open Scope Z_scope.

Section Notify.
Context {IE : InvoiceEnv}.

(** The cases of a step, with the state they lead to. *)
Ltac step_cases H :=
  unfold sys_step, r_AddInvoice, r_SettleInvoice, AddPreimage, CancelSubscription, settled_goroutine in H;
  repeat (case_match; try discriminate H); simplify_eq; cbn in *.

(** ** Invariants of the objects *)

(** A client is registered under its own identifier; every client that is told
    something exists. *)
Definition subs_ok (s : system) : Prop :=
  (forall k c, notificationClients (sy_reg s) !! k = Some c -> exists sb, sy_subs s !! c = Some sb /\ sub_id sb = k)
  /\ (forall c i, T_event c i ∈ sy_tasks s -> (fst c < length (sy_subs s))%nat)
  /\ (forall c i, (c, i) ∈ sy_invoices_got s -> (fst c < length (sy_subs s))%nat).

(** A subscriber is registered under the identifier its closure has captured, and has
    not been cancelled; every client that is told something exists. *)
Definition clients_ok (s : system) : Prop :=
  (forall k c, subscribers (sy_beacon s) !! k = Some c ->
     exists cl, sy_clients s !! c = Some cl /\ ps_clientID cl = k /\ ps_quit cl = false)
  /\ (forall c p, T_update c p ∈ sy_tasks s -> is_Some (sy_clients s !! c))
  /\ (forall c p, (c, p) ∈ sy_updates_got s -> is_Some (sy_clients s !! c)).

(** The invoices that are being announced are settled. *)
Definition settled_ok (s : system) (k : known) : Prop :=
  (forall h, T_settled h ∈ sy_tasks s -> length h = 32%nat
     /\ exists i, is_map (kn_store k) !! h = Some i /\ inv_Settled i = true)
  /\ (forall c i, T_event c i ∈ sy_tasks s -> snd c = true /\ inv_Settled i = true)
  /\ (forall c i, (c, i) ∈ sy_invoices_got s -> snd c = true /\ inv_Settled i = true).

(** Steps that neither register nor cancel a subscriber. *)
Lemma clients_ok_same s s' :
  clients_ok s -> subscribers (sy_beacon s') = subscribers (sy_beacon s) ->
  (forall c cl, sy_clients s !! c = Some cl ->
     exists cl', sy_clients s' !! c = Some cl' /\ ps_clientID cl' = ps_clientID cl /\ ps_quit cl' = ps_quit cl) ->
  (forall c p, T_update c p ∈ sy_tasks s' ->
     T_update c p ∈ sy_tasks s \/ exists k, subscribers (sy_beacon s) !! k = Some c) ->
  (forall c p, (c, p) ∈ sy_updates_got s' -> (c, p) ∈ sy_updates_got s \/ is_Some (sy_clients s !! c)) ->
  clients_ok s'.
Proof.
  intros (H1 & H2 & H3) Hb Hc Ht Hg. split; [|split].
  - intros k c. rewrite Hb. intros (cl & Hl & <- & <-)%H1. destruct (Hc c cl Hl) as (cl' & ? & ? & ?). by exists cl'.
  - intros c p [Hin|[k Hk]]%Ht; [apply H2 in Hin as [cl Hl]|apply H1 in Hk as (cl & Hl & _)];
      destruct (Hc c cl Hl) as (cl' & ? & _); by exists cl'.
  - intros c p [[cl Hl]%H3|[cl Hl]]%Hg; destruct (Hc c cl Hl) as (cl' & ? & _); by exists cl'.
Qed.

Lemma same_client (l : list preimageSubscriber) c id q buf buf' c' cl :
  l !! c = Some (mkPreimageSubscriber id buf q) -> l !! c' = Some cl ->
  exists cl', <[c := mkPreimageSubscriber id buf' q]> l !! c' = Some cl'
    /\ ps_clientID cl' = ps_clientID cl /\ ps_quit cl' = ps_quit cl.
Proof.
  intros Hc Hl. destruct (decide (c = c')) as [<-|Hne].
  - rewrite list_lookup_insert_eq by (by eapply lookup_lt_Some). eexists. split; [done|]. by simplify_eq.
  - rewrite list_lookup_insert_ne by done. by exists cl.
Qed.

Lemma clients_ok_subscribe s : clients_ok s -> clients_ok (SubscribeUpdates s).
Proof.
  intros (H1 & H2 & H3). split; [|split]; cbn.
  - intros k c. rewrite lookup_insert. case_decide as E.
    + intros [= <-]. eexists. rewrite list_lookup_middle by done. by cbn.
    + intros (cl & Hl & ?)%H1. exists cl. split; [by apply lookup_app_l_Some|done].
  - intros c p [cl Hl]%H2. exists cl. by apply lookup_app_l_Some.
  - intros c p [cl Hl]%H3. exists cl. by apply lookup_app_l_Some.
Qed.

Lemma clients_ok_cancel s s' c cl :
  clients_ok s -> sy_clients s !! c = Some cl -> CancelSubscription c cl s = Some s' -> clients_ok s'.
Proof.
  intros (H1 & H2 & H3) Hc. unfold CancelSubscription. destruct (ps_quit cl); [done|]. intros [= <-]. split; [|split]; cbn.
  - intros k c' [Hne (cl' & Hl & Hk & Hq)%H1]%lookup_delete_Some. exists cl'. split; [|done].
    rewrite list_lookup_insert_ne; [done|]. intros <-. congruence.
  - intros c' p ?%H2. by apply list_lookup_insert_is_Some.
  - intros c' p ?%H3. by apply list_lookup_insert_is_Some.
Qed.

Lemma elem_of_notify t i b r :
  t ∈ notifyClients i b r -> exists k c, notificationClients r !! k = Some c /\ t = T_event (c, b) i.
Proof. intros ([k c] & -> & H)%list_elem_of_fmap. exists k, c. split; [by apply elem_of_map_to_list|done]. Qed.

Lemma elem_of_updates t pre (m : gmap Z nat) :
  t ∈ ((fun p => T_update (snd p) pre) <$> map_to_list m) -> exists k c, m !! k = Some c /\ t = T_update c pre.
Proof. intros ([k c] & -> & H)%list_elem_of_fmap. exists k, c. split; [by apply elem_of_map_to_list|done]. Qed.

(** Where a goroutine of the next state comes from. *)
Ltac task_origin Hin :=
  cbn in Hin; rewrite ?elem_of_app, ?list_elem_of_singleton in Hin;
  repeat match type of Hin with _ \/ _ => destruct Hin as [Hin|Hin] end;
  try apply elem_of_delete in Hin;
  try (apply elem_of_notify in Hin as (? & ? & ? & Hin)); try (apply elem_of_updates in Hin as (? & ? & ? & Hin));
  simplify_eq.

Lemma subs_ok_same s s' :
  subs_ok s -> sy_subs s' = sy_subs s ->
  (forall k c, notificationClients (sy_reg s') !! k = Some c -> notificationClients (sy_reg s) !! k = Some c) ->
  (forall c i, T_event c i ∈ sy_tasks s' ->
     T_event c i ∈ sy_tasks s \/ exists k, notificationClients (sy_reg s) !! k = Some (fst c)) ->
  (forall c i, (c, i) ∈ sy_invoices_got s' -> (c, i) ∈ sy_invoices_got s \/ T_event c i ∈ sy_tasks s) ->
  subs_ok s'.
Proof.
  intros (H1 & H2 & H3) Hsub Hc Ht Hg. split; [|split].
  - intros k c Hk%Hc. rewrite Hsub. by apply H1.
  - rewrite Hsub. intros c i [?%H2|[k (sb & Hl & _)%H1]]%Ht; [done|]. by eapply lookup_lt_Some.
  - rewrite Hsub. intros c i [?%H3|?%H2]%Hg; done.
Qed.

Lemma subs_ok_subscribe s : subs_ok s -> subs_ok (SubscribeNotifications s).
Proof.
  intros (H1 & H2 & H3). split; [|split]; cbn; rewrite ?length_app; cbn.
  - intros k c. rewrite lookup_insert. case_decide as E.
    + intros [= <-]. eexists. by rewrite list_lookup_middle.
    + intros (sb & Hl & Hid)%H1. exists sb. split; [|done]. by apply lookup_app_l_Some.
  - intros c i ?%H2. lia.
  - intros c i ?%H3. lia.
Qed.

Lemma subs_ok_step e s s' : subs_ok s -> sys_step e s = Next s' -> subs_ok s'.
Proof.
  intros H Hs. destruct e.
  all: try (step_cases Hs; try done; (eapply subs_ok_same; [exact H|done|done|intros c' i' Hin|intros c' i' Hin]);
    task_origin Hin; eauto; fail).
  - injection Hs as <-. split; [intros k c; destruct debugHTLC; cbn; by rewrite lookup_empty|].
    split; intros c i Hin; by apply elem_of_nil in Hin.
  - injection Hs as <-. by apply subs_ok_subscribe.
  - step_cases Hs. eapply subs_ok_same; [exact H|done| |by auto|by auto]. intros k c. cbn. by intros [_ Hl]%lookup_delete_Some.
  - step_cases Hs. eapply subs_ok_same; [exact H|done|done|intros c' i' Hin|intros c' i' Hin]; task_origin Hin; auto.
    right. by eapply list_elem_of_lookup_2.
Qed.

Lemma clients_ok_step e s s' : clients_ok s -> sys_step e s = Next s' -> clients_ok s'.
Proof.
  intros H Hs. destruct e.
  all: try (step_cases Hs; try done; (eapply clients_ok_same; [exact H|done|cbn; naive_solver|intros c' p' Hin|intros c' p' Hin]); task_origin Hin; eauto; fail).
  - injection Hs as <-. split; [intros k c; cbn; by rewrite lookup_empty|].
    split; intros c p Hin; by apply elem_of_nil in Hin.
  - injection Hs as <-. by apply clients_ok_subscribe.
  - cbn in Hs. destruct (sy_clients s !! client) as [cl|] eqn:E; [|done].
    destruct (CancelSubscription client cl s) eqn:Ec; [|done]. injection Hs as <-. by eapply clients_ok_cancel.
  - step_cases Hs; (eapply clients_ok_same; [exact H|done|cbn; try (destruct p; cbn in *; by intros; eapply same_client); naive_solver|intros c' p' Hin|intros c' p' Hin]);
      task_origin Hin; eauto.
  - step_cases Hs. eapply clients_ok_same; [exact H|done|cbn; by intros; eapply same_client|by left|intros c' p' Hin].
    task_origin Hin; eauto.
Qed.

(** A settled invoice stays as it is. *)
Definition settled_in (k : known) (h : bytes) (i : Invoice) : Prop :=
  is_map (kn_store k) !! h = Some i /\ inv_Settled i = true.

Lemma settled_mono e k h i : settled_in k h i -> settled_in (k_step e k) h i.
Proof.
  intros [Hl Hs]. split; [|done]. destruct e; cbn; try done.
  - unfold add_invoice. repeat case_match; try done. cbn. rewrite lookup_insert. case_decide; [congruence|done].
  - case_match; [done|]. cbn. unfold settle_invoice. destruct (is_map (kn_store k) !! rHash) as [j|] eqn:E; [|done].
    cbn. rewrite lookup_insert. case_decide; [|done]. simplify_eq. unfold settle. by rewrite Hs.
Qed.

Lemma settled_found s k h i : sys_rel s k -> length h = 32%nat -> settled_in k h i -> LookupInvoice h (sy_db s) = Ok i.
Proof.
  intros (_ & Hi & _) Hh [Hl _]. rewrite (LookupInvoice_refines _ _ h Hi Hh), Hl.
  destruct Hi as (_ & -> & _ & _ & Hm & _). destruct (Hm h i Hl) as (_ & _ & (n & buf & _ & Ho & _)).
  assert (has (sy_db s) idx = true) as ->; [|done]. unfold obs in Ho. unfold has. by destruct (bucket_at idx (sy_db s)).
Qed.

Lemma settle_step now h s k r s' :
  sys_rel s k -> event_ok (E_SettleInvoice now h) -> r_SettleInvoice now h s = (r, s') ->
  (s' = s /\ (is_Some (kn_debug k !! h) \/ is_map (kn_store k) !! h = None))
  \/ (kn_debug k !! h = None /\ is_Some (is_map (kn_store k) !! h)
      /\ exists db', s' = set_tasks (set_db s db') (sy_tasks s ++ [T_settled h])).
Proof.
  intros (Hd & Hi & _) [Hnow Hh]. unfold r_SettleInvoice. rewrite Hd. destruct (kn_debug k !! h) as [j|].
  - intros [= _ <-]. left. by eauto.
  - pose proof (SettleInvoice_refines now _ _ h Hi Hh Hnow) as H. destruct (is_map _ !! h) as [i|].
    + destruct H as (db' & -> & _). intros [= _ <-]. right. split; [done|]. split; [by eexists|]. by exists db'.
    + rewrite H. intros [= _ <-]. left. split; [by destruct s|by right].
Qed.

Lemma settled_ok_from s s' k k' :
  settled_ok s k -> (forall h i, settled_in k h i -> settled_in k' h i) ->
  (forall h, T_settled h ∈ sy_tasks s' -> T_settled h ∈ sy_tasks s \/ (length h = 32%nat /\ exists i, settled_in k' h i)) ->
  (forall c i, T_event c i ∈ sy_tasks s' -> T_event c i ∈ sy_tasks s \/ (snd c = true /\ inv_Settled i = true)) ->
  (forall c i, (c, i) ∈ sy_invoices_got s' -> (c, i) ∈ sy_invoices_got s \/ T_event c i ∈ sy_tasks s) ->
  settled_ok s' k'.
Proof.
  intros (H1 & H2 & H3) Hm Ht He Hg. split; [|split].
  - intros h [[Hh (i & Hi)]%H1|?]%Ht; [|done]. split; [done|]. exists i. by apply Hm.
  - intros c i [?%H2|?]%He; done.
  - intros c i [?%H3|?%H2]%Hg; done.
Qed.

Lemma settled_ok_step e s s' k :
  settled_ok s k -> sys_rel s k -> event_ok e -> sys_step e s = Next s' -> settled_ok s' (k_step e k).
Proof.
  intros H Hr Hok Hs. pose proof (fun h i => settled_mono e k h i) as Hm. destruct e.
  all: try (step_cases Hs; try done;
    (eapply settled_ok_from; [exact H|exact Hm|intros h' Hin|intros c' i' Hin|intros c' i' Hin]); task_origin Hin; eauto; fail).
  - injection Hs as <-. split; [|split]; [intros h Hin|intros c i Hin|intros c i Hin]; by apply elem_of_nil in Hin.
  - cbn [sys_step] in Hs. destruct (r_SettleInvoice now rHash s) as [r s1] eqn:E. injection Hs as <-. cbn [snd].
    destruct (settle_step now rHash s k r s1 Hr Hok E) as [[-> _]|(Hd & [j Hj] & db' & ->)].
    + eapply settled_ok_from; [exact H|exact Hm|auto..].
    + eapply settled_ok_from; [exact H|exact Hm|intros h' Hin|intros c' i' Hin|by auto]; task_origin Hin; [by auto| |by auto].
      right. split; [apply Hok|]. exists (settle now j). cbn. rewrite Hd. unfold settled_in, settle_invoice. rewrite Hj. cbn.
      rewrite lookup_insert_eq. split; [done|]. unfold settle. by destruct (inv_Settled j) eqn:?.
  - step_cases Hs; (eapply settled_ok_from; [exact H|exact Hm|intros h' Hin|intros c' i' Hin|by auto]); task_origin Hin; auto.
    right. split; [done|]. destruct (proj1 H rHash) as [Hh (j & Hj)]; [by eapply list_elem_of_lookup_2|].
    pose proof (settled_found s k rHash j Hr Hh Hj) as Ef. rewrite Ef in *. simplify_eq. apply Hj.
  - step_cases Hs. eapply settled_ok_from; [exact H|exact Hm|intros h' Hin|intros c' i' Hin|intros c' i' Hin]; task_origin Hin; auto.
    right. by eapply list_elem_of_lookup_2.
Qed.

(** ** What a client has been and will be told *)

(** The payment hash a goroutine is going to announce to the client [c] of the registry,
    and the preimage it is going to send to the subscriber [c] of the beacon. *)
Definition settlement_for (c : nat) (t : task) : option bytes :=
  match t with
  | T_settled h => Some h
  | T_event (c', true) i => if decide (c' = c) then Some (sha256 (inv_PaymentPreimage i)) else None
  | _ => None
  end.

Definition update_for (c : nat) (t : task) : option bytes :=
  match t with
  | T_update c' pre => if decide (c' = c) then Some pre else None
  | _ => None
  end.

(** Received, or on the way. *)
Definition settlements_received (c : nat) (s : system) : list bytes :=
  omap (fun p => settlement_for c (T_event p.1 p.2)) (sy_invoices_got s).
Definition settlements (c : nat) (s : system) : list bytes :=
  settlements_received c s ++ omap (settlement_for c) (sy_tasks s).

Definition buffered (c : nat) (l : list preimageSubscriber) : list bytes :=
  match l !! c with Some cl => updateChan cl | None => [] end.
Definition updates_received (c : nat) (s : system) : list bytes :=
  omap (fun p => update_for c (T_update p.1 p.2)) (sy_updates_got s).
Definition updates (c : nat) (s : system) : list bytes :=
  updates_received c s ++ buffered c (sy_clients s) ++ omap (update_for c) (sy_tasks s).

(** What an event gives the clients to be told. *)
Definition settled_now (e : event) (k : known) : list bytes :=
  match e with
  | E_SettleInvoice _ h => match kn_debug k !! h, is_map (kn_store k) !! h with None, Some _ => [h] | _, _ => [] end
  | _ => []
  end.

Definition learned_now (e : event) (k : known) : list bytes := match e with E_AddPreimage pre => [pre] | _ => [] end.

Fixpoint told_by (now : event -> known -> list bytes) (es : list event) (k : known) : list bytes :=
  match es with [] => [] | e :: es => now e k ++ told_by now es (k_step e k) end.

Definition no_restart (e : event) : Prop := match e with E_restart _ _ => False | _ => True end.

Lemma omap_delete {A B} (f : A -> option B) (l : list A) (i : nat) (x : A) :
  l !! i = Some x -> omap f l ≡ₚ option_list (f x) ++ omap f (delete i l).
Proof. intros H. rewrite (delete_Permutation l i x H) at 1. simpl. by destruct (f x). Qed.

(** A client that is registered under one identifier is sent one message. *)
Lemma registered_once {A} (m : gmap Z nat) (k : Z) (c : nat) (x : A) :
  m !! k = Some c -> (forall k', m !! k' = Some c -> k' = k) ->
  omap (fun p : Z * nat => if decide (p.2 = c) then Some x else None) (map_to_list m) ≡ₚ [x].
Proof.
  intros Hk Hu. rewrite <- (map_to_list_delete m k c Hk). simpl. rewrite decide_True by done.
  assert (forall p, p ∈ map_to_list (delete k m) -> p.2 <> c) as Hno.
  { intros [k' c'] Hin Hc. cbn in Hc. subst c'. apply elem_of_map_to_list, lookup_delete_Some in Hin as [Hne Hin]. apply Hne. symmetry. by apply Hu. }
  f_equiv. induction (map_to_list (delete k m)) as [|p l IH]; [done|]. simpl.
  rewrite decide_False by (apply Hno; by left). apply IH. intros q Hq. apply Hno. by right.
Qed.

Lemma omap_of_fmap {A B C} (f : B -> option C) (g : A -> B) (l : list A) : omap f (g <$> l) = omap (f ∘ g) l.
Proof. induction l as [|x l IH]; [done|]. cbn. by destruct (f (g x)); rewrite IH. Qed.

Lemma update_sent s k c pre :
  clients_ok s -> subscribers (sy_beacon s) !! k = Some c ->
  omap (update_for c) ((fun p => T_update (snd p) pre) <$> map_to_list (subscribers (sy_beacon s))) ≡ₚ [pre].
Proof.
  intros (H1 & _) Hk. rewrite omap_of_fmap. apply (registered_once _ k); [done|].
  intros k' Hk'. apply H1 in Hk as (? & ? & ? & _), Hk' as (? & ? & ? & _). congruence.
Qed.

Lemma event_sent s k c i :
  subs_ok s -> notificationClients (sy_reg s) !! k = Some c ->
  omap (settlement_for c) (notifyClients i true (sy_reg s)) ≡ₚ [sha256 (inv_PaymentPreimage i)].
Proof.
  intros (H1 & _) Hk. unfold notifyClients. rewrite omap_of_fmap. apply (registered_once _ k); [done|].
  intros k' Hk'. apply H1 in Hk as (? & ? & ?), Hk' as (? & ? & ?). congruence.
Qed.

Lemma buffered_insert (l : list preimageSubscriber) c0 cl cl' c :
  l !! c0 = Some cl -> buffered c (<[c0 := cl']> l) = if decide (c0 = c) then updateChan cl' else buffered c l.
Proof.
  intros H. unfold buffered. case_decide as E.
  - subst c0. by rewrite list_lookup_insert_eq by (by eapply lookup_lt_Some).
  - by rewrite list_lookup_insert_ne.
Qed.

Lemma buffered_app (l l' : list preimageSubscriber) c : is_Some (l !! c) -> buffered c (l ++ l') = buffered c l.
Proof. intros [cl H]. unfold buffered. by rewrite H, (lookup_app_l_Some _ _ _ _ H). Qed.

Lemma no_update_for c i b r : omap (update_for c) (notifyClients i b r) = [].
Proof. unfold notifyClients. rewrite omap_of_fmap. by induction (map_to_list _). Qed.

Lemma no_settlement_for c pre (m : gmap Z nat) :
  omap (settlement_for c) ((fun p => T_update (snd p) pre) <$> map_to_list m) = [].
Proof. rewrite omap_of_fmap. by induction (map_to_list _). Qed.

(** The step of a subscriber's messages, when one goroutine ends. *)
Lemma updates_task s c t x l' :
  sy_tasks s !! t = Some x -> omap (update_for c) l' = [] ->
  option_list (update_for c x) ++ omap (update_for c) (delete t (sy_tasks s) ++ l') ≡ₚ omap (update_for c) (sy_tasks s).
Proof. intros Ht Hl. by rewrite omap_app, Hl, app_nil_r, (omap_delete (update_for c) (sy_tasks s) t x Ht). Qed.

Lemma updates_step e s s' k key c :
  sys_rel s k -> clients_ok s -> event_ok e -> no_restart e -> sys_step e s = Next s' ->
  subscribers (sy_beacon s) !! key = Some c -> updates c s' ≡ₚ updates c s ++ learned_now e k.
Proof.
  intros Hr Hc Hok Hno Hs Hk. pose proof (proj1 Hc key c Hk) as (cl & Hcl & _ & Hq).
  destruct e; try done; cbn [learned_now]; rewrite ?app_nil_r.
  - by injection Hs as <-.
  - step_cases Hs. done.
  - step_cases Hs; unfold updates; cbn; try done. by rewrite omap_app, app_nil_r.
  - by injection Hs as <-.
  - step_cases Hs. done.
  - injection Hs as <-. unfold updates. cbn. rewrite buffered_app by (by eexists). done.
  - step_cases Hs. unfold updates. cbn. erewrite buffered_insert by done. case_decide; [|done]. subst. unfold buffered. by simplify_option_eq.
  - destruct (add_preimage_rel pre s k Hr Hok) as [Ha _]. unfold AddPreimage in Ha. step_cases Hs. unfold updates. cbn.
    by rewrite omap_app, (update_sent s key c pre Hc Hk), <- !app_assoc.
  - cbn [sys_step] in Hs. destruct (sy_tasks s !! t) as [[h| |c0 pre]|] eqn:Et; try done.
    + injection Hs as <-. unfold settled_goroutine. destruct (LookupInvoice h _); unfold updates; cbn; do 2 apply Permutation_app_head.
      * by rewrite <- (updates_task s c t _ _ Et (no_update_for c a true (sy_reg s))).
      * by rewrite <- (updates_task s c t _ [] Et eq_refl), app_nil_r.
    + destruct (sy_clients s !! c0) as [cl0|] eqn:E0; [|done]. case_bool_decide; [|done]. injection Hs as <-. unfold updates. cbn.
      apply Permutation_app_head. rewrite (buffered_insert _ _ _ _ _ E0), <- (updates_task s c t _ [] Et eq_refl), app_nil_r. cbn. case_decide; [|done].
      subst c0. unfold buffered. rewrite E0. cbn. by rewrite <- app_assoc.
  - cbn [sys_step] in Hs. destruct (sy_tasks s !! t) as [[|  |c0 pre]|] eqn:Et; try done.
    destruct (sy_clients s !! c0) as [cl0|] eqn:E0; [|done]. destruct (ps_quit cl0) eqn:Eq; [|done]. injection Hs as <-.
    unfold updates. cbn. do 2 apply Permutation_app_head. rewrite <- (updates_task s c t _ [] Et eq_refl), app_nil_r. cbn.
    rewrite decide_False; [done|]. intros ->. congruence.
  - cbn [sys_step] in Hs. destruct (sy_tasks s !! t) as [[|c0 i|]|] eqn:Et; try done. injection Hs as <-.
    unfold updates. cbn. do 2 apply Permutation_app_head. by rewrite <- (updates_task s c t _ [] Et eq_refl), app_nil_r.
  - cbn [sys_step] in Hs. destruct (sy_clients s !! c0) as [[id [|pre rest] q]|] eqn:E0; try done. injection Hs as <-.
    unfold updates, updates_received. cbn. rewrite omap_app, (buffered_insert _ _ _ _ _ E0). cbn. case_decide; [|by rewrite app_nil_r].
    subst c0. unfold buffered. rewrite E0. cbn. by rewrite <- app_assoc.
Qed.

Lemma settlements_task s c t x l' :
  sy_tasks s !! t = Some x -> omap (settlement_for c) l' ≡ₚ option_list (settlement_for c x) ->
  omap (settlement_for c) (delete t (sy_tasks s) ++ l') ≡ₚ omap (settlement_for c) (sy_tasks s).
Proof.
  intros Ht Hl. by rewrite omap_app, Hl, (omap_delete (settlement_for c) (sy_tasks s) t x Ht), Permutation_app_comm.
Qed.

Lemma settlements_step e s s' k key c :
  sys_rel s k -> subs_ok s -> settled_ok s k -> event_ok e -> no_restart e -> sys_step e s = Next s' ->
  notificationClients (sy_reg s) !! key = Some c -> settlements c s' ≡ₚ settlements c s ++ settled_now e k.
Proof.
  intros Hr Hc Hst Hok Hno Hs Hk. destruct e; try done; cbn [settled_now]; rewrite ?app_nil_r.
  - by injection Hs as <-.
  - step_cases Hs. done.
  - cbn [sys_step] in Hs. destruct (r_SettleInvoice now rHash s) as [r s1] eqn:E. injection Hs as <-. cbn [snd].
    destruct (settle_step now rHash s k r s1 Hr Hok E) as [[-> [[j ->]|Hn]]|(-> & [j ->] & db' & ->)].
    + by rewrite app_nil_r.
    + rewrite Hn. destruct (kn_debug k !! rHash); by rewrite app_nil_r.
    + unfold settlements. cbn. by rewrite omap_app, <- app_assoc.
  - by injection Hs as <-.
  - step_cases Hs. done.
  - by injection Hs as <-.
  - step_cases Hs. done.
  - step_cases Hs; unfold settlements; cbn; [|done]. by rewrite omap_app, no_settlement_for, app_nil_r.
  - cbn [sys_step] in Hs. destruct (sy_tasks s !! t) as [[h| |c0 pre]|] eqn:Et; try done.
    + injection Hs as <-. destruct (proj1 Hst h) as [Hh (i & Hi)]; [by eapply list_elem_of_lookup_2|].
      unfold settled_goroutine. cbn. rewrite (settled_found s k h i Hr Hh Hi). unfold settlements. cbn. apply Permutation_app_head.
      apply settlements_task with (x := T_settled h); [done|]. rewrite (event_sent s key c i Hc Hk).
      destruct Hr as (_ & (_ & _ & _ & _ & Hm & _) & _). by destruct (Hm h i (proj1 Hi)) as (_ & <- & _).
    + destruct (sy_clients s !! c0) as [cl0|]; [|done]. case_bool_decide; [|done]. injection Hs as <-. unfold settlements. cbn.
      apply Permutation_app_head. rewrite <- (app_nil_r (delete t _)). by apply (settlements_task s c t (T_update c0 pre)).
  - cbn [sys_step] in Hs. destruct (sy_tasks s !! t) as [[| |c0 pre]|] eqn:Et; try done.
    destruct (sy_clients s !! c0) as [cl0|]; [|done]. destruct (ps_quit cl0); [|done]. injection Hs as <-. unfold settlements. cbn.
    apply Permutation_app_head. rewrite <- (app_nil_r (delete t _)). by apply (settlements_task s c t (T_update c0 pre)).
  - cbn [sys_step] in Hs. destruct (sy_tasks s !! t) as [[|c0 i|]|] eqn:Et; try done. injection Hs as <-.
    unfold settlements, settlements_received. cbn [sy_invoices_got sy_tasks].
    rewrite omap_app, (omap_delete (settlement_for c) (sy_tasks s) t _ Et), <- app_assoc. apply Permutation_app_head. cbn.
    by destruct c0 as [c' []]; cbn; [case_decide|].
  - step_cases Hs. done.
Qed.

(** ** Registered clients over a run *)

Lemma subscribers_back e s s' key c :
  no_restart e -> sys_step e s = Next s' -> (c < length (sy_clients s))%nat ->
  (c < length (sy_clients s'))%nat /\ (subscribers (sy_beacon s') !! key = Some c -> subscribers (sy_beacon s) !! key = Some c).
Proof.
  intros Hno Hs Hlt. destruct e; try done; step_cases Hs; rewrite ?length_app, ?length_insert; split; try done; try lia.
  - rewrite lookup_insert. case_decide; [|done]. intros [= <-]. lia.
  - intros [_ Hl]%lookup_delete_Some. done.
Qed.

Lemma notified_back e s s' key c :
  no_restart e -> sys_step e s = Next s' -> (c < length (sy_subs s))%nat ->
  (c < length (sy_subs s'))%nat /\ (notificationClients (sy_reg s') !! key = Some c -> notificationClients (sy_reg s) !! key = Some c).
Proof.
  intros Hno Hs Hlt. destruct e; try done; step_cases Hs; rewrite ?length_app, ?length_insert; split; try done; try lia.
  - rewrite lookup_insert. case_decide; [|done]. intros [= <-]. lia.
  - intros [_ Hl]%lookup_delete_Some. done.
Qed.

(** Everything that holds along a run. *)
Definition notify_inv (s : system) (k : known) : Prop := sys_rel s k /\ subs_ok s /\ clients_ok s /\ settled_ok s k.

Lemma notify_inv_step e s s' k :
  notify_inv s k -> event_ok e -> is_next (kn_store k) + invoice_of e < 2 ^ 32 -> sys_step e s = Next s' -> notify_inv s' (k_step e k).
Proof.
  intros (Hr & Hs & Hc & Ht) Hok Hn Hstep. split; [by eapply sys_step_rel|]. split; [by eapply subs_ok_step|].
  split; [by eapply clients_ok_step|by eapply settled_ok_step].
Qed.

Lemma notify_inv_fresh db debugHTLC now : fresh_db db -> notify_inv (newServer debugHTLC now db) (known0 debugHTLC now).
Proof.
  intros Hf. split; [by apply fresh_rel|].
  split; [split; [intros k c; destruct debugHTLC; cbn; by rewrite lookup_empty|]|]; [split; intros c i H; by apply elem_of_nil in H|].
  split; [split; [intros k c; cbn; by rewrite lookup_empty|]|]; [split; intros c i H; by apply elem_of_nil in H|].
  split; [|split]; [intros h H|intros c i H|intros c i H]; by apply elem_of_nil in H.
Qed.

Lemma notify_inv_run es s s' k :
  notify_inv s k -> Forall event_ok es -> is_next (kn_store k) + invoices_of es < 2 ^ 32 ->
  run_events es s = Next s' -> notify_inv s' (k_run es k).
Proof.
  revert s k. induction es as [|e es IH]; intros s k H Hok Hn Hrun; [by injection Hrun as <-|].
  apply Forall_cons in Hok as [He Hok]. cbn [run_events] in Hrun. destruct (sys_step e s) as [s1| |] eqn:E; try done.
  cbn in Hn. fold (invoices_of es) in Hn. pose proof (k_step_next e k). pose proof (invoices_of_pos es). eapply IH; [|done|lia|done]. eapply notify_inv_step; [done|done|lia|done].
Qed.

(** What a client is told over a run ([T]) is what it is told in each step ([N]), as long
    as it is registered ([R]); [L] is that the client exists. *)
Lemma run_told (L R : system -> Prop) (T : system -> list bytes) (N : event -> known -> list bytes) :
  (forall e s s', no_restart e -> sys_step e s = Next s' -> L s -> L s' /\ (R s' -> R s)) ->
  (forall e s s' k, notify_inv s k -> event_ok e -> no_restart e -> sys_step e s = Next s' -> R s -> T s' ≡ₚ T s ++ N e k) ->
  forall es s s' k, notify_inv s k -> Forall event_ok es -> Forall no_restart es ->
    is_next (kn_store k) + invoices_of es < 2 ^ 32 -> run_events es s = Next s' -> L s -> R s' ->
    R s /\ T s' ≡ₚ T s ++ told_by N es k.
Proof.
  intros Hback Hstep es. induction es as [|e es IH]; intros s s' k H Hok Hno Hn Hrun HL HR.
  - injection Hrun as <-. split; [done|]. cbn. by rewrite app_nil_r.
  - apply Forall_cons in Hok as [He Hok], Hno as [Hne Hno]. cbn [run_events] in Hrun.
    destruct (sys_step e s) as [s1| |] eqn:E; try done. cbn in Hn. fold (invoices_of es) in Hn.
    pose proof (k_step_next e k). pose proof (invoices_of_pos es).
    destruct (Hback e s s1 Hne E HL) as [HL1 HR1].
    destruct (IH s1 s' (k_step e k)) as [HR' HT]; [|done|done|lia|done|done|done|].
    { eapply notify_inv_step; [done|done|lia|done]. }
    split; [by auto|]. cbn [told_by]. rewrite HT, (Hstep e s s1 k), <- app_assoc by auto. done.
Qed.

(** ** The goroutines come to an end *)

(** Goroutines running and clients receiving. *)
Definition delivery (e : event) : Prop :=
  match e with E_goroutine _ | E_receive_invoice _ | E_receive_update _ => True | _ => False end.

Lemma delivery_ok e k : delivery e -> event_ok e /\ no_restart e /\ invoice_of e = 0 /\ k_step e k = k /\ settled_now e k = [] /\ learned_now e k = [].
Proof. by destruct e. Qed.

Definition task_weight (clients : nat) (t : task) : nat := match t with T_settled _ => S (S clients) | _ => 1%nat end.
Definition tasks_weight (s : system) : nat :=
  sum_list_with (task_weight (size (notificationClients (sy_reg s)))) (sy_tasks s).

Lemma delivery_run es k :
  Forall delivery es -> Forall event_ok es /\ Forall no_restart es /\ invoices_of es = 0 /\ k_run es k = k
  /\ told_by settled_now es k = [] /\ told_by learned_now es k = [].
Proof.
  induction es as [|e es IH]; intros H; [done|]. apply Forall_cons in H as [He H].
  destruct (delivery_ok e k He) as (H1 & H2 & H0 & H3 & H4 & H5), (IH H) as (I1 & I2 & I0 & I3 & I4 & I5).
  split; [by constructor|]. split; [by constructor|]. split; [cbn; fold (invoices_of es); lia|]. change (k_run (e :: es) k) with (k_run es (k_step e k)).
  cbn [told_by]. by rewrite H3, H4, H5, I3, I4, I5.
Qed.

(** A client empties its channel. *)
Lemma drain_buffer c s :
  is_Some (sy_clients s !! c) ->
  exists es s', Forall delivery es /\ run_events es s = Next s' /\ buffered c (sy_clients s') = []
    /\ sy_tasks s' = sy_tasks s /\ sy_reg s' = sy_reg s /\ is_Some (sy_clients s' !! c).
Proof.
  intros [cl Hc]. remember (length (updateChan cl)) as n eqn:En. revert s cl Hc En.
  induction n as [|n IH]; intros s [id buf q] Hc En; cbn in En.
  - destruct buf; [|done]. exists [], s. split; [done|]. split; [done|]. unfold buffered. rewrite Hc. by eauto.
  - destruct buf as [|p buf]; [done|].
    edestruct (IH (mkSystem (sy_db s) (sy_reg s) (sy_subs s) (sy_beacon s) (<[c := mkPreimageSubscriber id buf q]> (sy_clients s))
                  (sy_tasks s) (sy_invoices_got s) (sy_updates_got s ++ [(c, p)]))) as (es & s' & Hd & Hrun & Hb & Ht & Hr & Hc').
    { cbn. apply list_lookup_insert_eq. by eapply lookup_lt_Some. }
    { cbn. cbn in En. lia. }
    exists (E_receive_update c :: es), s'. split; [by constructor|]. cbn. rewrite Hc. by auto.
Qed.

Lemma drain_one s k t rest :
  notify_inv s k -> sy_tasks s = t :: rest ->
  exists es s', Forall delivery es /\ run_events es s = Next s' /\ (tasks_weight s' < tasks_weight s)%nat.
Proof.
  intros (Hr & Hs & Hc & Hst) Ht. unfold tasks_weight. rewrite Ht. destruct t as [h|c i|c p].
  - destruct (proj1 Hst h) as [Hh (i & Hi)]; [rewrite Ht; by left|].
    exists [E_goroutine 0]. eexists. split; [by repeat constructor|]. cbn. rewrite Ht. cbn. split; [done|].
    unfold settled_goroutine. cbn. rewrite (settled_found s k h i Hr Hh Hi). cbn. rewrite sum_list_with_app.
    assert (sum_list_with (task_weight (size (notificationClients (sy_reg s)))) (notifyClients i true (sy_reg s))
            = size (notificationClients (sy_reg s))) as ->.
    { rewrite <- length_map_to_list. unfold notifyClients. generalize (length (map_to_list (notificationClients (sy_reg s)))) at 1.
      intros n. induction (map_to_list _) as [|q l IH]; [done|]. cbn. by rewrite IH. }
    lia.
  - exists [E_receive_invoice 0]. eexists. split; [by repeat constructor|]. cbn. rewrite Ht. split; [done|]. cbn. lia.
  - destruct (proj1 (proj2 Hc) c p) as [cl Hcl]; [rewrite Ht; by left|].
    destruct (drain_buffer c s (ex_intro _ cl Hcl)) as (es & s' & Hd & Hrun & Hb & Ht' & Hr' & [cl' Hcl']).
    exists (es ++ [E_goroutine 0]). eexists. split; [apply Forall_app; by repeat constructor|].
    unfold buffered in Hb. rewrite Hcl' in Hb. rewrite run_events_app, Hrun. cbn. rewrite Ht', Ht. cbn. rewrite Hcl', Hb. cbn.
    split; [done|]. cbn. rewrite Hr'. lia.
Qed.

Lemma delivery_inv es s s' k : Forall delivery es -> notify_inv s k -> run_events es s = Next s' -> notify_inv s' k.
Proof.
  intros Hd H Hrun. destruct (delivery_run es k Hd) as (Hok & _ & H0 & Hk & _). rewrite <- Hk.
  eapply notify_inv_run; [done|done| |done]. rewrite H0. destruct H as ((_ & (_ & _ & ? & _) & _) & _). lia.
Qed.

Lemma drain_tasks s k :
  notify_inv s k -> exists es s', Forall delivery es /\ run_events es s = Next s' /\ sy_tasks s' = [].
Proof.
  remember (tasks_weight s) as n eqn:En. revert s En. induction n as [n IH] using lt_wf_ind. intros s En H.
  destruct (sy_tasks s) as [|t rest] eqn:Et; [by exists [], s|].
  destruct (drain_one s k t rest H Et) as (es & s1 & Hd & Hrun & Hlt).
  destruct (IH (tasks_weight s1)) with (s := s1) as (es' & s' & Hd' & Hrun' & Ht); [lia|done|by eapply delivery_inv|].
  exists (es ++ es'), s'. split; [by apply Forall_app|]. by rewrite run_events_app, Hrun.
Qed.

Lemma delivery_keeps es s s' :
  Forall delivery es -> run_events es s = Next s' ->
  sy_reg s' = sy_reg s /\ sy_beacon s' = sy_beacon s /\ sy_subs s' = sy_subs s /\ length (sy_clients s') = length (sy_clients s).
Proof.
  revert s. induction es as [|e es IH]; intros s Hd Hrun; [by injection Hrun as <-|].
  apply Forall_cons in Hd as [He Hd]. cbn [run_events] in Hrun. destruct (sys_step e s) as [s1| |] eqn:E; try done.
  destruct (IH s1 Hd Hrun) as (-> & -> & -> & ->). clear - E He. destruct e; try done; step_cases E; by rewrite ?length_insert.
Qed.

(** ** What a new client is told *)

Definition preimages_of (es : list event) : list bytes :=
  omap (fun e => match e with E_AddPreimage pre => Some pre | _ => None end) es.

Lemma told_by_learned es k : told_by learned_now es k = preimages_of es.
Proof. revert k. induction es as [|e es IH]; intros k; [done|]. cbn [told_by]. rewrite IH. by destruct e. Qed.

(** Settlements whose goroutine has not yet read the invoice. *)
Definition in_flight (s : system) : list bytes :=
  omap (fun t => match t with T_settled h => Some h | _ => None end) (sy_tasks s).

Lemma omap_ext_in {A B} (f g : A -> option B) (l : list A) : (forall x, x ∈ l -> f x = g x) -> omap f l = omap g l.
Proof.
  induction l as [|x l IH]; intros H; [done|]. cbn. rewrite (H x) by (by left). rewrite IH; [done|]. intros y Hy. apply H. by right.
Qed.

Lemma omap_none {A B} (l : list A) : omap (fun _ => @None B) l = [].
Proof. by induction l. Qed.

Lemma updates_new s : clients_ok s -> updates (length (sy_clients s)) (SubscribeUpdates s) = [].
Proof.
  intros (_ & H2 & H3). unfold updates, updates_received, buffered. cbn. rewrite list_lookup_middle by done. cbn.
  rewrite (omap_ext_in _ (fun _ => None) (sy_updates_got s)), (omap_ext_in _ (fun _ => None) (sy_tasks s)), !omap_none; [done|..].
  - intros [| |c p] Hin; try done. cbn. apply H2 in Hin as Hl%lookup_lt_is_Some. rewrite decide_False; [done|lia].
  - intros [c p] Hin. cbn. apply H3 in Hin as Hl%lookup_lt_is_Some. rewrite decide_False; [done|lia].
Qed.

Lemma settlements_new s :
  subs_ok s -> settlements (length (sy_subs s)) (SubscribeNotifications s) = in_flight s.
Proof.
  intros (_ & H2 & H3). unfold settlements, settlements_received, in_flight. cbn [sy_invoices_got sy_tasks SubscribeNotifications].
  rewrite (omap_ext_in _ (fun _ => None) (sy_invoices_got s)), omap_none.
  - cbn. apply omap_ext_in. intros [|[c []] i|] Hin; try done. cbn. apply H2 in Hin. cbn in Hin. rewrite decide_False; [done|lia].
  - intros [[c []] i] Hin; [|done]. cbn. apply H3 in Hin. cbn in Hin. rewrite decide_False; [done|lia].
Qed.

Lemma invoices_of_app es1 es2 : invoices_of (es1 ++ es2) = invoices_of es1 + invoices_of es2.
Proof. unfold invoices_of. induction es1 as [|e es1 IH]; [done|]. cbn. rewrite IH. lia. Qed.

Lemma k_run_next es k : is_next (kn_store (k_run es k)) <= is_next (kn_store k) + invoices_of es.
Proof.
  revert k. induction es as [|e es IH]; intros k; [cbn; lia|]. change (k_run (e :: es) k) with (k_run es (k_step e k)).
  cbn. fold (invoices_of es). pose proof (IH (k_step e k)). pose proof (k_step_next e k). lia.
Qed.

(** A subscriber over a run, and then over a run that lets it receive everything. *)
Lemma run_updates es s s' k key c :
  notify_inv s k -> Forall event_ok es -> Forall no_restart es -> is_next (kn_store k) + invoices_of es < 2 ^ 32 ->
  run_events es s = Next s' -> (c < length (sy_clients s))%nat -> subscribers (sy_beacon s') !! key = Some c ->
  updates c s' ≡ₚ updates c s ++ told_by learned_now es k.
Proof.
  intros. eapply (run_told (fun s => (c < length (sy_clients s))%nat) (fun s => subscribers (sy_beacon s) !! key = Some c)
    (updates c)); try done; [intros ? ? ? ? ? ?; by eapply subscribers_back|].
  intros e s1 s2 k' (Hr & _ & Hc & _) ? ? ? ?. by eapply updates_step.
Qed.

Lemma run_settlements es s s' k key c :
  notify_inv s k -> Forall event_ok es -> Forall no_restart es -> is_next (kn_store k) + invoices_of es < 2 ^ 32 ->
  run_events es s = Next s' -> (c < length (sy_subs s))%nat -> notificationClients (sy_reg s') !! key = Some c ->
  settlements c s' ≡ₚ settlements c s ++ told_by settled_now es k.
Proof.
  intros. eapply (run_told (fun s => (c < length (sy_subs s))%nat) (fun s => notificationClients (sy_reg s) !! key = Some c)
    (settlements c)); try done; [intros ? ? ? ? ? ?; by eapply notified_back|].
  intros e s1 s2 k' (Hr & Hs & _ & Ht) ? ? ? ?. by eapply settlements_step.
Qed.

Lemma inv_room s k : notify_inv s k -> is_next (kn_store k) < 2 ^ 32.
Proof. intros ((_ & (_ & _ & ? & _) & _) & _). lia. Qed.

Lemma drain_updates s k key c :
  notify_inv s k -> subscribers (sy_beacon s) !! key = Some c ->
  exists es s', Forall delivery es /\ run_events es s = Next s' /\ updates_received c s' ≡ₚ updates c s.
Proof.
  intros H Hk. destruct (drain_tasks s k H) as (es1 & s1 & Hd1 & Hr1 & Ht1).
  pose proof (delivery_inv _ _ _ _ Hd1 H Hr1) as H1. destruct (delivery_keeps _ _ _ Hd1 Hr1) as (_ & Hb1 & _).
  assert (subscribers (sy_beacon s1) !! key = Some c) as Hk1 by (by rewrite Hb1).
  pose proof H1 as (_ & _ & (Hc & _) & _). destruct (Hc key c Hk1) as (cl & Hcl & _).
  destruct (drain_buffer c s1 (ex_intro _ cl Hcl)) as (es2 & s2 & Hd2 & Hr2 & Hb & Ht2 & _).
  exists (es1 ++ es2), s2. assert (Forall delivery (es1 ++ es2)) as Hd by (by apply Forall_app).
  assert (run_events (es1 ++ es2) s = Next s2) as Hrun by (by rewrite run_events_app, Hr1). split; [done|]. split; [done|].
  destruct (delivery_run _ k Hd) as (Hok & Hno & H0 & _ & _ & Hl). destruct (delivery_keeps _ _ _ Hd Hrun) as (_ & Hbk & _ & Hlen).
  assert (updates c s2 = updates_received c s2) as <- by (unfold updates; by rewrite Hb, Ht2, Ht1, app_nil_r).
  rewrite (run_updates _ s s2 k key c H Hok Hno), Hl, app_nil_r; [done| |done| |by rewrite Hbk].
  - rewrite H0. pose proof (inv_room s k H). lia.
  - destruct H as (_ & _ & (Hc' & _) & _). destruct (Hc' key c Hk) as (? & ? & _). by eapply lookup_lt_Some.
Qed.

Lemma drain_settlements s k key c :
  notify_inv s k -> notificationClients (sy_reg s) !! key = Some c ->
  exists es s', Forall delivery es /\ run_events es s = Next s' /\ settlements_received c s' ≡ₚ settlements c s
    /\ (forall i, ((c, true), i) ∈ sy_invoices_got s' -> inv_Settled i = true).
Proof.
  intros H Hk. destruct (drain_tasks s k H) as (es & s' & Hd & Hrun & Ht). exists es, s'. split; [done|]. split; [done|].
  destruct (delivery_run _ k Hd) as (Hok & Hno & H0 & _ & Hl & _). destruct (delivery_keeps _ _ _ Hd Hrun) as (Hreg & _).
  split.
  - assert (settlements c s' = settlements_received c s') as <- by (unfold settlements; by rewrite Ht, app_nil_r).
    rewrite (run_settlements _ s s' k key c H Hok Hno), Hl, app_nil_r; [done| |done| |by rewrite Hreg].
    + rewrite H0. pose proof (inv_room s k H). lia.
    + destruct H as (_ & (Hc & _) & _). destruct (Hc key c Hk) as (? & ? & _). by eapply lookup_lt_Some.
  - destruct (delivery_inv _ _ _ _ Hd H Hrun) as (_ & _ & _ & (_ & _ & Hg)). intros i Hin. by apply (Hg _ _ Hin).
Qed.

(** The run up to and after a registration. *)
Lemma run_registered db debugHTLC now es1 es2 s0 e s1 :
  fresh_db db -> Forall event_ok (es1 ++ es2) -> invoices_of (es1 ++ es2) < 2 ^ 32 -> event_ok e -> invoice_of e = 0 ->
  run_events es1 (newServer debugHTLC now db) = Next s0 -> sys_step e s0 = Next s1 ->
  let k := k_run es1 (known0 debugHTLC now) in
  notify_inv s0 k /\ notify_inv s1 (k_step e k) /\ Forall event_ok es2 /\ is_next (kn_store (k_step e k)) + invoices_of es2 < 2 ^ 32.
Proof.
  intros Hf [Hok1 Hok2]%Forall_app Hn He H0 Hrun Hs k. rewrite invoices_of_app in Hn.
  pose proof (invoices_of_pos es2). pose proof (k_run_next es1 (known0 debugHTLC now)) as Hk. pose proof (k_step_next e k). cbn in Hk.
  assert (notify_inv s0 k) as Hi by (eapply notify_inv_run; [by apply notify_inv_fresh|done|cbn; lia|done]).
  split; [done|]. split; [eapply notify_inv_step; [done|done|unfold k in *; lia|done]|]. split; [done|]. unfold k in *. lia.
Qed.

(** C30: from the moment it subscribes, and as long as it neither cancels nor the node
    restarts, a subscriber of the beacon is sent every preimage that is added exactly once:
    what it has received, what its channel holds and what goroutines are about to send
    are together the preimages added; and in a run in which the goroutines run and it
    receives, it receives exactly these. *)
Theorem preimages_delivered db debugHTLC now es1 es2 s0 s2 :
  fresh_db db -> Forall event_ok (es1 ++ es2) -> Forall no_restart es2 -> invoices_of (es1 ++ es2) < 2 ^ 32 ->
  run_events es1 (newServer debugHTLC now db) = Next s0 -> run_events es2 (SubscribeUpdates s0) = Next s2 ->
  subscribers (sy_beacon s2) !! clientCounter (sy_beacon s0) = Some (length (sy_clients s0)) ->
  updates (length (sy_clients s0)) s2 ≡ₚ preimages_of es2
  /\ exists es3 s3, Forall delivery es3 /\ run_events es3 s2 = Next s3
       /\ updates_received (length (sy_clients s0)) s3 ≡ₚ preimages_of es2.
Proof.
  intros Hf Hok Hno Hn Hr1 Hr2 Hreg.
  destruct (run_registered db debugHTLC now es1 es2 s0 E_SubscribeUpdates _ Hf Hok Hn I eq_refl Hr1 eq_refl) as (H0 & H1 & Hok2 & Hb).
  assert (length (sy_clients s0) < length (sy_clients (SubscribeUpdates s0)))%nat as Hl by (cbn; rewrite length_app; cbn; lia).
  pose proof (run_updates es2 _ s2 _ _ _ H1 Hok2 Hno Hb Hr2 Hl Hreg) as Hu.
  rewrite told_by_learned, updates_new in Hu by apply H0. split; [done|].
  destruct (drain_updates s2 _ _ _ (notify_inv_run es2 _ s2 _ H1 Hok2 Hb Hr2) Hreg) as (es3 & s3 & Hd & Hr3 & Hgot).
  exists es3, s3. by rewrite Hgot.
Qed.

(** C28: from the moment it subscribes, and as long as it neither cancels nor the node
    restarts, a client of the invoice registry is told exactly once for every call that
    settles an invoice (repeated ones included, debug invoices not), and for those whose
    goroutine had not yet run when it subscribed; every invoice it is sent is settled; and in a run in which the goroutines run and it receives, it
    receives exactly these. *)
Theorem settlements_delivered db debugHTLC now es1 es2 s0 s2 :
  fresh_db db -> Forall event_ok (es1 ++ es2) -> Forall no_restart es2 -> invoices_of (es1 ++ es2) < 2 ^ 32 ->
  run_events es1 (newServer debugHTLC now db) = Next s0 -> run_events es2 (SubscribeNotifications s0) = Next s2 ->
  notificationClients (sy_reg s2) !! nextClientID (sy_reg s0) = Some (length (sy_subs s0)) ->
  let told := in_flight s0 ++ told_by settled_now es2 (k_run es1 (known0 debugHTLC now)) in
  settlements (length (sy_subs s0)) s2 ≡ₚ told
  /\ exists es3 s3, Forall delivery es3 /\ run_events es3 s2 = Next s3
       /\ settlements_received (length (sy_subs s0)) s3 ≡ₚ told
       /\ (forall i, ((length (sy_subs s0), true), i) ∈ sy_invoices_got s3 -> inv_Settled i = true).
Proof.
  intros Hf Hok Hno Hn Hr1 Hr2 Hreg told.
  destruct (run_registered db debugHTLC now es1 es2 s0 E_SubscribeNotifications _ Hf Hok Hn I eq_refl Hr1 eq_refl) as (H0 & H1 & Hok2 & Hb).
  assert (length (sy_subs s0) < length (sy_subs (SubscribeNotifications s0)))%nat as Hl by (cbn; rewrite length_app; cbn; lia).
  pose proof (run_settlements es2 _ s2 _ _ _ H1 Hok2 Hno Hb Hr2 Hl Hreg) as Hu.
  rewrite settlements_new in Hu by apply H0. split; [done|].
  destruct (drain_settlements s2 _ _ _ (notify_inv_run es2 _ s2 _ H1 Hok2 Hb Hr2) Hreg) as (es3 & s3 & Hd & Hr3 & Hgot & Hset).
  exists es3, s3. by rewrite Hgot.
Qed.
End Notify.
