(* ===== verification/PreimageExamples.v ===== *)
(** * The registry and the beacon at work

    A concrete clock and hash, runs that show the hypotheses of the theorems can hold, and
    runs that do not end as intended. *)

From Stdlib Require Import ZArith Lia.
From Stdlib Require Import Init.Byte.
From stdpp Require Import base gmap strings numbers list.
From S2P Require Import Prelude Stream Bolt InvoiceStore Preimages PreimageProps PreimageNotify.
Local Open Scope Z_scope.

Module PreimageRuns.

(** Times of one byte, of which one cannot be marshalled; and the reverse of the first 32
    bytes as the hash. *)
Lemma toy_hash_length p : length (rev (copy32 p)) = 32%nat.
Proof. unfold copy32. rewrite length_rev, length_app, length_take, length_replicate. lia. Qed.

#[local] Instance toy_invoices : InvoiceEnv.
Proof.
  refine {|
    Time := Byte.byte;
    time_zero := x00;
    MarshalBinary t := if decide (t = xff) then Err (ErrNew "zone offset") else Ok [t];
    UnmarshalBinary b := match b with [t] => Ok t | _ => Err (ErrNew "invalid length") end;
    sha256 p := rev (copy32 p)
  |}.
  - intros t b. case_decide; [done|]. by intros [= <-].
  - intros t b. case_decide; [done|]. intros [= <-]. cbn. lia.
  - apply toy_hash_length.
Defined.

Definition pre (b : Byte.byte) : bytes := b :: replicate 31 x00.
Definition invoice (created b : Byte.byte) : Invoice := mkInvoice (str "coffee") [] [] created x00 (pre b) 1000 false.

(** The database as it is created, with the buckets of the other components left out. *)
Definition db0 : bucket := [(invoiceBucket, EBkt [])].

Lemma bucket_at_db0 p c : bucket_at p db0 = Some c -> (p = [] /\ c = db0) \/ (p = [invoiceBucket] /\ c = []).
Proof.
  destruct p as [|n p]; [intros [= <-]; by left|]. unfold bucket_at, sub_bucket. fold bucket_at. cbn [kv_lookup db0].
  destruct (decide (n = invoiceBucket)) as [->|Hne].
  - destruct p as [|m p]; [|done]. cbn. intros [= <-]. by right.
  - unfold db0. cbn. by rewrite decide_False.
Qed.

Lemma db0_nothing p : p <> [] -> p <> [invoiceBucket] -> has db0 p = false /\ forall k, obs db0 p k = None.
Proof. intros H1 H2. unfold has, obs. destruct (bucket_at p db0) eqn:E; [|done]. by apply bucket_at_db0 in E as [[? _]|[? _]]. Qed.

Lemma db0_fresh {IE : InvoiceEnv} : fresh_db db0.
Proof.
  assert (bkt_wf db0) as Hwf.
  { intros p c [[_ ->]|[_ ->]]%bucket_at_db0; unfold kv_sorted; cbn; by repeat constructor. }
  split.
  - split; [split; [done|]; split; [done|]; split; [done|]; split; intros k|].
    + intros Hk. by apply db0_nothing.
    + by apply db0_nothing.
    + split; [done|]. cbn [is_next is_map]. split; [lia|]. split; [done|]. split; [intros h inv; by rewrite lookup_empty|].
      split; [done|]. split; [|done]. intros h h' v _ _ H. by rewrite (proj2 (db0_nothing idx ltac:(done) ltac:(done))) in H.
  - split; [done|]. split; [done|]. split; [done|]. split; [intros k; by apply db0_nothing|].
    split; [|intros h w; by rewrite lookup_empty]. intros h. rewrite lookup_empty. by apply db0_nothing.
Qed.

(** ** Runs the theorems apply to *)

Definition after (es : list event) (s : system) : system := match run_events es s with Next s' => s' | _ => s end.

Definition runs (es : list event) (s : system) : bool := match run_events es s with Next _ => true | _ => false end.

Lemma after_run es s : runs es s = true -> run_events es s = Next (after es s).
Proof. unfold runs, after. by destruct (run_events es s). Qed.

Definition server0 : system := newServer false x01 db0.

Definition es_lookup : list event :=
  [E_AddInvoice (invoice x01 x05); E_AddPreimage (pre x09); E_restart true x02; E_SettleInvoice x03 (sha256 (pre x05))].

Lemma es_lookup_ok : Forall event_ok es_lookup.
Proof. repeat constructor; cbn; eauto; vm_compute; done. Qed.

Lemma es_lookup_run : run_events es_lookup server0 = Next (after es_lookup server0).
Proof. apply after_run. vm_compute. reflexivity. Qed.

Lemma found09 : LookupPreimage (sha256 (pre x09)) (after es_lookup server0) = Some (pre x09).
Proof. vm_compute. reflexivity. Qed.

Lemma preimage_lookup_exact_witness :
  known_preimage (k_run es_lookup (known0 false x01)) (sha256 (pre x09)) = Some (pre x09)
  /\ sha256 (pre x09) = sha256 (pre x09).
Proof.
  destruct (preimage_lookup_exact (IE := toy_invoices) db0 false x01 es_lookup (after es_lookup server0) (sha256 (pre x09))
    db0_fresh es_lookup_ok eq_refl es_lookup_run (sha256_length (pre x09))) as [He Hs].
  split; [rewrite <- He; exact found09|]. apply Hs. exact found09.
Defined.

Lemma learned_preimage_found_witness :
  exists p, LookupPreimage (sha256 (pre x09)) (after es_lookup server0) = Some p /\ sha256 p = sha256 (pre x09).
Proof.
  apply (learned_preimage_found (IE := toy_invoices) db0 false x01 es_lookup (after es_lookup server0) (pre x09) (invoice x01 x05) db0_fresh es_lookup_ok eq_refl es_lookup_run).
  - right. left.
  - left.
  - reflexivity.
Defined.

(** Two settlements, of which one is on its way when the client subscribes, and two
    preimages. *)
Definition es_before : list event := [E_AddInvoice (invoice x01 x05); E_AddInvoice (invoice x01 x06); E_SettleInvoice x02 (sha256 (pre x05))].
Definition es_after : list event :=
  [E_AddPreimage (pre x09); E_SettleInvoice x02 (sha256 (pre x06)); E_goroutine 0; E_AddPreimage (pre x0a)].

Lemma es_before_after_ok : Forall event_ok (es_before ++ es_after).
Proof. repeat constructor; cbn; eauto; vm_compute; done. Qed.

Lemma es_after_restart : Forall no_restart es_after.
Proof. by repeat constructor. Qed.

Lemma es_before_run : run_events es_before server0 = Next (after es_before server0).
Proof. apply after_run. vm_compute. reflexivity. Qed.

Definition subscribed : system := SubscribeUpdates (after es_before server0).
Definition notified : system := SubscribeNotifications (after es_before server0).

Lemma subscribed_run : run_events es_after subscribed = Next (after es_after subscribed).
Proof. apply after_run. vm_compute. reflexivity. Qed.

Lemma notified_run : run_events es_after notified = Next (after es_after notified).
Proof. apply after_run. vm_compute. reflexivity. Qed.

Lemma subscribed_still :
  subscribers (sy_beacon (after es_after subscribed)) !! clientCounter (sy_beacon (after es_before server0))
  = Some (length (sy_clients (after es_before server0))).
Proof. vm_compute. reflexivity. Qed.

Lemma notified_still :
  notificationClients (sy_reg (after es_after notified)) !! nextClientID (sy_reg (after es_before server0))
  = Some (length (sy_subs (after es_before server0))).
Proof. vm_compute. reflexivity. Qed.

Lemma preimages_delivered_witness :
  preimages_of es_after = [pre x09; pre x0a]
  /\ updates (length (sy_clients (after es_before server0))) (after es_after subscribed) ≡ₚ preimages_of es_after.
Proof.
  split; [reflexivity|].
  exact (proj1 (preimages_delivered (IE := toy_invoices) db0 false x01 es_before es_after (after es_before server0)
    (after es_after subscribed) db0_fresh es_before_after_ok es_after_restart eq_refl es_before_run subscribed_run subscribed_still)).
Defined.

Lemma told_example :
  in_flight (after es_before server0) ++ told_by settled_now es_after (k_run es_before (known0 false x01))
  = [sha256 (pre x05); sha256 (pre x06)].
Proof. vm_compute. reflexivity. Qed.

Lemma settlements_delivered_witness :
  settlements (length (sy_subs (after es_before server0))) (after es_after notified) ≡ₚ [sha256 (pre x05); sha256 (pre x06)].
Proof.
  rewrite <- told_example.
  exact (proj1 (settlements_delivered (IE := toy_invoices) db0 false x01 es_before es_after (after es_before server0)
    (after es_after notified) db0_fresh es_before_after_ok es_after_restart eq_refl es_before_run notified_run notified_still)).
Defined.

(** ** Runs that do not end as intended *)

(** A preimage learned before the first invoice is in the cache, and not found. *)
Example preimage_before_invoice :
  LookupWitness (sha256 (pre x09)) (sy_db (after [E_AddPreimage (pre x09)] server0)) = Ok (pre x09)
  /\ LookupPreimage (sha256 (pre x09)) (after [E_AddPreimage (pre x09)] server0) = None.
Proof. split; vm_compute; reflexivity. Qed.

(** Cancelling leaves the goroutine that sends to the client: nothing but the client
    itself can end it. *)
Example cancelled_sender_stays :
  let s := after [E_SubscribeNotifications; E_AddInvoice (invoice x01 x05); E_SettleInvoice x02 (sha256 (pre x05)); E_goroutine 0; E_Cancel 0] server0 in
  notificationClients (sy_reg s) = ∅ /\ length (sy_tasks s) = 1%nat
  /\ sys_step (E_goroutine 0) s = Blocked /\ sys_step (E_quit 0) s = Blocked.
Proof. repeat split; vm_compute; reflexivity. Qed.

(** An invoice whose date cannot be marshalled is reported as added, is not found, and
    cannot be added again. *)
Example unserializable_invoice :
  let s := after [E_AddInvoice (invoice xff x05)] server0 in
  (r_AddInvoice (invoice xff x05) server0).1 = Ok tt
  /\ r_LookupInvoice (sha256 (pre x05)) s = Err ErrInvoiceNotFound
  /\ (r_AddInvoice (invoice x01 x05) s).1 = Err ErrDuplicateInvoice.
Proof. repeat split; vm_compute; reflexivity. Qed.

(** Cancelling a subscription of the beacon twice closes its channel twice. *)
Example cancel_twice_panics :
  run_events [E_SubscribeUpdates; E_CancelSubscription 0; E_CancelSubscription 0] server0 = Panics.
Proof. vm_compute. reflexivity. Qed.
End PreimageRuns.
