(* ===== verification/Effects.v ===== *)
(** * Stateful calls

    The monad of the components that call out (the utxo nursery and the breach
    arbiter): a method takes the state and returns a result or an error together
    with the state it leaves behind, so that an early [return err] keeps the
    effects made before it.  [swp] is its weakest precondition and the rules
    below are what the proofs about methods use. *)

From stdpp Require Import base list.
From S2P Require Import Prelude.

Section Effects.
Context {S : Type}.
Implicit Types s : S.

Definition ST (A : Type) : Type := S -> res A * S.

#[global] Instance st_ret : MRet ST := fun A a s => (Ok a, s).
#[global] Instance st_bind : MBind ST := fun A B f m s =>
  match m s with (Ok a, s') => f a s' | (Err e, s') => (Err e, s') end.

Definition st_fail {A} (e : goerr) : ST A := fun s => (Err e, s).
Definition st_get : ST S := fun s => (Ok s, s).
Definition st_upd (f : S -> S) : ST () := fun s => (Ok tt, f s).
Definition st_res {A} (r : res A) : ST A := fun s => (r, s).

(** Running a call and looking at its error, as in [err := f(); if err == ...]. *)
Definition st_try {A} (m : ST A) : ST (res A) := fun s =>
  let (r, s') := m s in (Ok r, s').

(** [for _, a := range l { if err := f(a); err != nil { return err } }] *)
Fixpoint st_iter {A} (f : A -> ST ()) (l : list A) : ST () :=
  match l with
  | [] => mret tt
  | a :: l => _ ← f a; st_iter f l
  end.

(** ** Weakest preconditions *)

Definition swp {A} (m : ST A) (Q : res A -> S -> Prop) s : Prop := Q (m s).1 (m s).2.

Lemma swp_ret {A} (a : A) Q s : Q (Ok a) s -> swp (mret a) Q s.
Proof. done. Qed.

Lemma swp_bind {A B} (m : ST A) (f : A -> ST B) Q s :
  swp m (fun r s' => match r with Ok a => swp (f a) Q s' | Err e => Q (Err e) s' end) s ->
  swp (m ≫= f) Q s.
Proof. unfold swp, mbind, st_bind. by destruct (m s) as [[a|e] s']. Qed.

Lemma swp_mono {A} (m : ST A) (Q Q' : res A -> S -> Prop) s :
  swp m Q s -> (forall r s', Q r s' -> Q' r s') -> swp m Q' s.
Proof. unfold swp. auto. Qed.

Lemma swp_try {A} (m : ST A) Q s : swp m (fun r s' => Q (Ok r) s') s -> swp (st_try m) Q s.
Proof. unfold swp, st_try. by destruct (m s). Qed.

Lemma swp_eq {A} (m : ST A) Q s r s' : m s = (r, s') -> Q r s' -> swp m Q s.
Proof. unfold swp. by intros ->. Qed.

Lemma swp_intro {A} (m : ST A) (Q : res A -> S -> Prop) s :
  (forall r s', m s = (r, s') -> Q r s') -> swp m Q s.
Proof. unfold swp. intros H. apply H. by destruct (m s). Qed.

Lemma swp_elim {A} (m : ST A) (Q : res A -> S -> Prop) s r s' : swp m Q s -> m s = (r, s') -> Q r s'.
Proof. unfold swp. intros H E. by rewrite E in H. Qed.

(** A reflexive and transitive relation every step keeps is kept by the loop. *)
Lemma swp_iter {A} (f : A -> ST ()) (R : S -> S -> Prop) `{!PreOrder R} l s :
  (forall a s1, a ∈ l -> swp (f a) (fun _ s2 => R s1 s2) s1) ->
  swp (st_iter f l) (fun _ s' => R s s') s.
Proof.
  revert s. induction l as [|a l IH]; intros s Hf; [apply swp_ret; reflexivity|].
  apply swp_bind. eapply swp_mono; [apply Hf; by left|].
  intros [u|e] s1 H1; [|done].
  eapply swp_mono; [apply IH; intros; apply Hf; by right|]. intros ? ? H2. by transitivity s1.
Qed.

End Effects.
Arguments ST : clear implicits.

(** A call into a part of the state. *)
Definition st_zoom {S T A} (get : S -> T) (set : T -> S -> S) (m : ST T A) : ST S A := fun s =>
  let (r, t) := m (get s) in (r, set t s).

Lemma swp_zoom {S T A} (get : S -> T) (set : T -> S -> S) (m : ST T A) Q s :
  swp m (fun r t => Q r (set t s)) (get s) -> swp (st_zoom get set m) Q s.
Proof. unfold swp, st_zoom. by destruct (m (get s)). Qed.

(** Concrete facts are decided by computation; of a run only the result has to be
    computed to know that it is that result with the state it leaves. *)
Ltac by_eval := apply (bool_decide_unpack _); vm_compute; exact I.

Lemma run_eq {A B} (p : A * B) r : p.1 = r -> p = (r, p.2).
Proof. destruct p. by intros <-. Qed.

Ltac by_run u := unfold u; match goal with |- ?m = (?r, _) => refine (run_eq m r _); by_eval end.
