(* ===== verification/Server.v ===== *)
(** * The connections of the server

    server.go as far as it manages connections to peers: the maps of the peers that are
    connected, inbound and outbound; the peers to stay connected with, their pending
    connection requests, retries and backoffs; and those who wait for a peer to come
    online.  The connection manager (connmgr), the peers' own goroutines and the network
    are outside: what they do arrives as inputs, and what the server asks of them is
    in the log.  Each input is handled under the server's mutex, so one at a time. *)

From Stdlib Require Import ZArith Lia.
From Stdlib Require Import Init.Byte.
From stdpp Require Import base gmap strings numbers list.
From S2P Require Import Prelude Effects.
Local Open Scope Z_scope.

(** ** Addresses and backoff *)

Inductive Addr :=
  | TCPAddr (ip : bytes) (port : Z)
  | OtherAddr (name : bytes).

#[global] Instance Addr_eq_dec : EqDecision Addr.
Proof. solve_decision. Defined.

Definition defaultPeerPort : Z := 9735.

(** [net.IP.Equal]: an IPv4 address equals its form in IPv6. *)
Definition v4InV6Prefix : bytes := replicate 10 x00 ++ [xff; xff].
Definition IP_Equal (a b : bytes) : bool :=
  if bool_decide (length a = length b) then bool_decide (a = b)
  else if bool_decide (length a = 4%nat /\ length b = 16%nat) then bool_decide (b = v4InV6Prefix ++ a)
  else if bool_decide (length a = 16%nat /\ length b = 4%nat) then bool_decide (a = v4InV6Prefix ++ b)
  else false.

(** The port of the first advertised TCP address with the same IP. *)
Fixpoint advertised (addresses : list Addr) (ip : bytes) : Z :=
  match addresses with
  | [] => defaultPeerPort
  | TCPAddr ip' port :: rest => if IP_Equal ip' ip then port else advertised rest ip
  | _ :: rest => advertised rest ip
  end.

(** [node] is the graph's record of the peer, [None] when there is none. *)
Definition fetchNodeAdvertisedPort (node : option (list Addr)) (ip : bytes) (port : Z) : Z :=
  if port =? defaultPeerPort then defaultPeerPort
  else match node with
       | None => defaultPeerPort
       | Some addresses => advertised addresses ip
       end.

(** Durations are in nanoseconds. *)
Definition defaultBackoff : Z := 1000000000.
Definition maximumBackoff : Z := 3600 * 1000000000.

(** [rand.Int] returns the random number, which is not used: [wiggle] keeps the
    margin.  [ok] is whether the random source answers. *)
Definition computeNextBackoff (ok : bool) (currBackoff : Z) : Z :=
  let doubled := i64 (2 * currBackoff) in
  let nextBackoff := if maximumBackoff <? doubled then maximumBackoff else doubled in
  let margin := Z.quot nextBackoff 10 in
  let wiggle := u64 margin in
  if ok then i64 (nextBackoff + (i64 wiggle - Z.quot margin 2)) else nextBackoff.

(** Which of two concurrent connections to drop. *)
Definition shouldDropLocalConnection (localPub remotePub : bytes) : bool :=
  match bytes_compare localPub remotePub with Gt => true | _ => false end.

(** ** State *)

(** A connection with the key and the address of its other end; whether the peer can be
    started on it, and whether the other end then asks for the channel graph. *)
Record Conn := mkConn {
  cn_id : nat;
  cn_RemotePub : bytes;
  cn_RemoteAddr : Addr;
  cn_starts : bool;
  cn_wantsSync : bool
}.

(** A request to the connection manager, which assigns its identifier; 0 before. *)
Record ConnReq := mkConnReq {
  cr_pub : bytes;
  cr_Addr : Addr;
  cr_ID : Z
}.

(** Pointers to requests and peers are positions in [sv_reqs] and [sv_peers]. *)
Record peer := mkPeer {
  p_conn : nat;
  p_pub : bytes;
  p_addr : Addr;
  p_inbound : bool;
  p_connReq : option nat;
  p_initialSync : bool;
  p_disconnect : bool
}.

(** A channel passed to [NotifyWhenOnline] for a peer, and whether it is closed. *)
Record listener := mkListener { ls_pub : bytes; ls_closed : bool }.

(** A goroutine that waits before it asks for a connection again. *)
Record retry := mkRetry { rt_req : nat; rt_cancel : nat; rt_backoff : Z }.

(** What the server asks of others. *)
Inductive sv_event :=
  | SCloseConn (conn : nat)
  | SConnect (req : nat)
  | SRemove (id : Z)
  | SCancelReservations (pub : bytes)
  | SRemoveLinks (pub : bytes)
  | SSynchronizeNode (pub : bytes)
  | SQueueMsg (p : nat) (msg : bytes).

Record server := mkServer {
  sv_shutdown : bool;
  sv_identity : bytes;
  sv_peers : list peer;
  sv_reqs : list ConnReq;
  peersByPub : gmap bytes nat;
  inboundPeers : gmap bytes nat;
  outboundPeers : gmap bytes nat;
  sv_listeners : list listener;
  peerConnectedListeners : gmap bytes (list nat);
  persistentPeers : gset bytes;
  persistentPeersBackoff : gmap bytes Z;
  persistentConnReqs : gmap bytes (list nat);
  persistentRetryCancels : gmap bytes nat;
  ignorePeerTermination : gset nat;
  sv_nextCancel : nat;
  sv_cancelled : gset nat;
  sv_watchers : list nat;
  sv_retries : list retry;
  sv_log : list sv_event
}.

(** Field updates. *)
Definition set_sv_shutdown (x : bool) (s : server) : server := mkServer
  x (sv_identity s) (sv_peers s) (sv_reqs s) (peersByPub s) (inboundPeers s) (outboundPeers s) (sv_listeners
  s) (peerConnectedListeners s) (persistentPeers s) (persistentPeersBackoff s) (persistentConnReqs s)
  (persistentRetryCancels s) (ignorePeerTermination s) (sv_nextCancel s) (sv_cancelled s) (sv_watchers s)
  (sv_retries s) (sv_log s).
Definition set_sv_peers (x : list peer) (s : server) : server := mkServer
  (sv_shutdown s) (sv_identity s) x (sv_reqs s) (peersByPub s) (inboundPeers s) (outboundPeers s)
  (sv_listeners s) (peerConnectedListeners s) (persistentPeers s) (persistentPeersBackoff s)
  (persistentConnReqs s) (persistentRetryCancels s) (ignorePeerTermination s) (sv_nextCancel s) (sv_cancelled
  s) (sv_watchers s) (sv_retries s) (sv_log s).
Definition set_sv_reqs (x : list ConnReq) (s : server) : server := mkServer
  (sv_shutdown s) (sv_identity s) (sv_peers s) x (peersByPub s) (inboundPeers s) (outboundPeers s)
  (sv_listeners s) (peerConnectedListeners s) (persistentPeers s) (persistentPeersBackoff s)
  (persistentConnReqs s) (persistentRetryCancels s) (ignorePeerTermination s) (sv_nextCancel s) (sv_cancelled
  s) (sv_watchers s) (sv_retries s) (sv_log s).
Definition set_peersByPub (x : gmap bytes nat) (s : server) : server := mkServer
  (sv_shutdown s) (sv_identity s) (sv_peers s) (sv_reqs s) x (inboundPeers s) (outboundPeers s) (sv_listeners
  s) (peerConnectedListeners s) (persistentPeers s) (persistentPeersBackoff s) (persistentConnReqs s)
  (persistentRetryCancels s) (ignorePeerTermination s) (sv_nextCancel s) (sv_cancelled s) (sv_watchers s)
  (sv_retries s) (sv_log s).
Definition set_inboundPeers (x : gmap bytes nat) (s : server) : server := mkServer
  (sv_shutdown s) (sv_identity s) (sv_peers s) (sv_reqs s) (peersByPub s) x (outboundPeers s) (sv_listeners s)
  (peerConnectedListeners s) (persistentPeers s) (persistentPeersBackoff s) (persistentConnReqs s)
  (persistentRetryCancels s) (ignorePeerTermination s) (sv_nextCancel s) (sv_cancelled s) (sv_watchers s)
  (sv_retries s) (sv_log s).
Definition set_outboundPeers (x : gmap bytes nat) (s : server) : server := mkServer
  (sv_shutdown s) (sv_identity s) (sv_peers s) (sv_reqs s) (peersByPub s) (inboundPeers s) x (sv_listeners s)
  (peerConnectedListeners s) (persistentPeers s) (persistentPeersBackoff s) (persistentConnReqs s)
  (persistentRetryCancels s) (ignorePeerTermination s) (sv_nextCancel s) (sv_cancelled s) (sv_watchers s)
  (sv_retries s) (sv_log s).
Definition set_sv_listeners (x : list listener) (s : server) : server := mkServer
  (sv_shutdown s) (sv_identity s) (sv_peers s) (sv_reqs s) (peersByPub s) (inboundPeers s) (outboundPeers s) x
  (peerConnectedListeners s) (persistentPeers s) (persistentPeersBackoff s) (persistentConnReqs s)
  (persistentRetryCancels s) (ignorePeerTermination s) (sv_nextCancel s) (sv_cancelled s) (sv_watchers s)
  (sv_retries s) (sv_log s).
Definition set_peerConnectedListeners (x : gmap bytes (list nat)) (s : server) : server := mkServer
  (sv_shutdown s) (sv_identity s) (sv_peers s) (sv_reqs s) (peersByPub s) (inboundPeers s) (outboundPeers s)
  (sv_listeners s) x (persistentPeers s) (persistentPeersBackoff s) (persistentConnReqs s)
  (persistentRetryCancels s) (ignorePeerTermination s) (sv_nextCancel s) (sv_cancelled s) (sv_watchers s)
  (sv_retries s) (sv_log s).
Definition set_persistentPeers (x : gset bytes) (s : server) : server := mkServer
  (sv_shutdown s) (sv_identity s) (sv_peers s) (sv_reqs s) (peersByPub s) (inboundPeers s) (outboundPeers s)
  (sv_listeners s) (peerConnectedListeners s) x (persistentPeersBackoff s) (persistentConnReqs s)
  (persistentRetryCancels s) (ignorePeerTermination s) (sv_nextCancel s) (sv_cancelled s) (sv_watchers s)
  (sv_retries s) (sv_log s).
Definition set_persistentPeersBackoff (x : gmap bytes Z) (s : server) : server := mkServer
  (sv_shutdown s) (sv_identity s) (sv_peers s) (sv_reqs s) (peersByPub s) (inboundPeers s) (outboundPeers s)
  (sv_listeners s) (peerConnectedListeners s) (persistentPeers s) x (persistentConnReqs s)
  (persistentRetryCancels s) (ignorePeerTermination s) (sv_nextCancel s) (sv_cancelled s) (sv_watchers s)
  (sv_retries s) (sv_log s).
Definition set_persistentConnReqs (x : gmap bytes (list nat)) (s : server) : server := mkServer
  (sv_shutdown s) (sv_identity s) (sv_peers s) (sv_reqs s) (peersByPub s) (inboundPeers s) (outboundPeers s)
  (sv_listeners s) (peerConnectedListeners s) (persistentPeers s) (persistentPeersBackoff s) x
  (persistentRetryCancels s) (ignorePeerTermination s) (sv_nextCancel s) (sv_cancelled s) (sv_watchers s)
  (sv_retries s) (sv_log s).
Definition set_persistentRetryCancels (x : gmap bytes nat) (s : server) : server := mkServer
  (sv_shutdown s) (sv_identity s) (sv_peers s) (sv_reqs s) (peersByPub s) (inboundPeers s) (outboundPeers s)
  (sv_listeners s) (peerConnectedListeners s) (persistentPeers s) (persistentPeersBackoff s)
  (persistentConnReqs s) x (ignorePeerTermination s) (sv_nextCancel s) (sv_cancelled s) (sv_watchers s)
  (sv_retries s) (sv_log s).
Definition set_ignorePeerTermination (x : gset nat) (s : server) : server := mkServer
  (sv_shutdown s) (sv_identity s) (sv_peers s) (sv_reqs s) (peersByPub s) (inboundPeers s) (outboundPeers s)
  (sv_listeners s) (peerConnectedListeners s) (persistentPeers s) (persistentPeersBackoff s)
  (persistentConnReqs s) (persistentRetryCancels s) x (sv_nextCancel s) (sv_cancelled s) (sv_watchers s)
  (sv_retries s) (sv_log s).
Definition set_sv_nextCancel (x : nat) (s : server) : server := mkServer
  (sv_shutdown s) (sv_identity s) (sv_peers s) (sv_reqs s) (peersByPub s) (inboundPeers s) (outboundPeers s)
  (sv_listeners s) (peerConnectedListeners s) (persistentPeers s) (persistentPeersBackoff s)
  (persistentConnReqs s) (persistentRetryCancels s) (ignorePeerTermination s) x (sv_cancelled s) (sv_watchers
  s) (sv_retries s) (sv_log s).
Definition set_sv_cancelled (x : gset nat) (s : server) : server := mkServer
  (sv_shutdown s) (sv_identity s) (sv_peers s) (sv_reqs s) (peersByPub s) (inboundPeers s) (outboundPeers s)
  (sv_listeners s) (peerConnectedListeners s) (persistentPeers s) (persistentPeersBackoff s)
  (persistentConnReqs s) (persistentRetryCancels s) (ignorePeerTermination s) (sv_nextCancel s) x (sv_watchers
  s) (sv_retries s) (sv_log s).
Definition set_sv_watchers (x : list nat) (s : server) : server := mkServer
  (sv_shutdown s) (sv_identity s) (sv_peers s) (sv_reqs s) (peersByPub s) (inboundPeers s) (outboundPeers s)
  (sv_listeners s) (peerConnectedListeners s) (persistentPeers s) (persistentPeersBackoff s)
  (persistentConnReqs s) (persistentRetryCancels s) (ignorePeerTermination s) (sv_nextCancel s) (sv_cancelled
  s) x (sv_retries s) (sv_log s).
Definition set_sv_retries (x : list retry) (s : server) : server := mkServer
  (sv_shutdown s) (sv_identity s) (sv_peers s) (sv_reqs s) (peersByPub s) (inboundPeers s) (outboundPeers s)
  (sv_listeners s) (peerConnectedListeners s) (persistentPeers s) (persistentPeersBackoff s)
  (persistentConnReqs s) (persistentRetryCancels s) (ignorePeerTermination s) (sv_nextCancel s) (sv_cancelled
  s) (sv_watchers s) x (sv_log s).
Definition set_sv_log (x : list sv_event) (s : server) : server := mkServer
  (sv_shutdown s) (sv_identity s) (sv_peers s) (sv_reqs s) (peersByPub s) (inboundPeers s) (outboundPeers s)
  (sv_listeners s) (peerConnectedListeners s) (persistentPeers s) (persistentPeersBackoff s)
  (persistentConnReqs s) (persistentRetryCancels s) (ignorePeerTermination s) (sv_nextCancel s) (sv_cancelled
  s) (sv_watchers s) (sv_retries s) x.

Definition SV : Type -> Type := ST server.

Definition sv_event_log (e : sv_event) : SV () := st_upd (fun s => set_sv_log (sv_log s ++ [e]) s).

(** [close] of a cancel channel and of a listener's channel. *)
Definition closeCancel (c : nat) : SV () := fun s =>
  if decide (c ∈ sv_cancelled s) then (Err (ErrPanic "close of closed channel"), s)
  else (Ok tt, set_sv_cancelled ({[c]} ∪ sv_cancelled s) s).

Definition closeListener (i : nat) : SV () := fun s =>
  match sv_listeners s !! i with
  | Some l => if ls_closed l then (Err (ErrPanic "close of closed channel"), s)
              else (Ok tt, set_sv_listeners (<[i := mkListener (ls_pub l) true]> (sv_listeners s)) s)
  | None => (Err (ErrPanic "close of nil channel"), s)
  end.

(** The request's identifier, read atomically. *)
Definition req_ID (s : server) (r : nat) : Z := match sv_reqs s !! r with Some c => cr_ID c | None => 0 end.

Definition newConnReq (pub : bytes) (addr : Addr) : SV nat := fun s =>
  (Ok (length (sv_reqs s)), set_sv_reqs (sv_reqs s ++ [mkConnReq pub addr 0]) s).

(** ** Peers *)

(** Ends the peer's goroutines and closes its connection, once. *)
Definition Disconnect (p : nat) : SV () := fun s =>
  match sv_peers s !! p with
  | Some pr =>
      if p_disconnect pr then (Ok tt, s)
      else (Ok tt, set_sv_log (sv_log s ++ [SCloseConn (p_conn pr)])
                     (set_sv_peers (<[p := mkPeer (p_conn pr) (p_pub pr) (p_addr pr) (p_inbound pr) (p_connReq pr) (p_initialSync pr) true]>
                        (sv_peers s)) s))
  | None => (Err (ErrPanic "nil pointer dereference"), s)
  end.

Definition findPeerByPubStr (pubStr : bytes) (s : server) : res nat :=
  match peersByPub s !! pubStr with Some p => Ok p | None => Err ErrPeerNotFound end.

Definition shouldRequestGraphSync (s : server) : bool := bool_decide (size (peersByPub s) <= 2)%nat.

(** The fields of a peer. *)
Definition with_peer (p : nat) (f : peer -> SV ()) : SV () := fun s =>
  match sv_peers s !! p with Some pr => f pr s | None => (Err (ErrPanic "nil pointer dereference"), s) end.

Definition removePeer (p : nat) : SV () :=
  _ ← Disconnect p;
  with_peer p (fun pr =>
    s ← st_get;
    _ ← (match p_connReq pr with Some r => sv_event_log (SRemove (req_ID s r)) | None => mret tt end : SV ());
    if sv_shutdown s then mret tt
    else
      _ ← st_upd (fun s => set_peersByPub (delete (p_pub pr) (peersByPub s)) s);
      if p_inbound pr then st_upd (fun s => set_inboundPeers (delete (p_pub pr) (inboundPeers s)) s)
      else st_upd (fun s => set_outboundPeers (delete (p_pub pr) (outboundPeers s)) s)).

(** [wantsSync]: the feature bit of the remote end. *)
Definition addPeer (p : nat) (wantsSync : bool) : SV () :=
  with_peer p (fun pr =>
    s ← st_get;
    if sv_shutdown s then Disconnect p
    else
      let pubStr := p_pub pr in
      _ ← st_upd (fun s => set_peersByPub (<[pubStr := p]> (peersByPub s)) s);
      _ ← (if p_inbound pr then st_upd (fun s => set_inboundPeers (<[pubStr := p]> (inboundPeers s)) s)
           else st_upd (fun s => set_outboundPeers (<[pubStr := p]> (outboundPeers s)) s) : SV ());
      _ ← st_upd (fun s => set_sv_watchers (sv_watchers s ++ [p]) s);
      _ ← (if wantsSync then sv_event_log (SSynchronizeNode pubStr) else mret tt : SV ());
      _ ← st_iter closeListener (default [] (peerConnectedListeners s !! pubStr));
      st_upd (fun s => set_peerConnectedListeners (delete pubStr (peerConnectedListeners s)) s)).

(** [graph] is what the channel graph knows of a node. *)
Definition peerConnected (graph : bytes -> option (list Addr)) (conn : Conn) (connReq : option nat) (inbound : bool) : SV () :=
  let pubKey := cn_RemotePub conn in
  let addr := match cn_RemoteAddr conn with
              | TCPAddr ip port => TCPAddr ip (fetchNodeAdvertisedPort (graph pubKey) ip port)
              | a => a
              end in
  s ← st_get;
  let p := length (sv_peers s) in
  _ ← st_upd (fun s => set_sv_peers (sv_peers s ++
         [mkPeer (cn_id conn) pubKey addr inbound connReq (shouldRequestGraphSync s) false]) s);
  if cn_starts conn then addPeer p (cn_wantsSync conn) else Disconnect p.

(** ** Connections *)

Definition UnassignedConnID : Z := 0.

Definition cancelConnReqs (pubStr : bytes) (skip : option Z) : SV () :=
  s ← st_get;
  _ ← (match persistentRetryCancels s !! pubStr with
       | Some cancelChan =>
           _ ← closeCancel cancelChan;
           st_upd (fun s => set_persistentRetryCancels (delete pubStr (persistentRetryCancels s)) s)
       | None => mret tt
       end : SV ());
  match persistentConnReqs s !! pubStr with
  | None => mret tt
  | Some connReqs =>
      _ ← st_iter (fun r => let connID := req_ID s r in
                     if connID =? UnassignedConnID then mret tt
                     else if bool_decide (skip = Some connID) then mret tt
                     else sv_event_log (SRemove connID)) connReqs;
      st_upd (fun s => set_persistentConnReqs (delete pubStr (persistentConnReqs s)) s)
  end.

(** Replacing a connection: the watcher of the old peer has nothing to do. *)
Definition dropPeer (p : nat) : SV () :=
  _ ← removePeer p;
  st_upd (fun s => set_ignorePeerTermination ({[p]} ∪ ignorePeerTermination s) s).

Definition InboundPeerConnected (graph : bytes -> option (list Addr)) (conn : Conn) : SV () :=
  s ← st_get;
  if sv_shutdown s then mret tt
  else
    let pubStr := cn_RemotePub conn in
    match inboundPeers s !! pubStr with
    | Some _ => sv_event_log (SCloseConn (cn_id conn))
    | None =>
        match findPeerByPubStr pubStr s with
        | Ok connectedPeer =>
            if negb (shouldDropLocalConnection (sv_identity s) pubStr) then sv_event_log (SCloseConn (cn_id conn))
            else
              _ ← dropPeer connectedPeer;
              _ ← cancelConnReqs pubStr None;
              peerConnected graph conn None false
        | Err _ =>
            _ ← cancelConnReqs pubStr None;
            peerConnected graph conn None false
        end
    end.

(** [connReq] is the request of the connection manager that led to the connection, if
    it was made by one. *)
Definition OutboundPeerConnected (graph : bytes -> option (list Addr)) (connReq : option nat) (conn : Conn) : SV () :=
  s ← st_get;
  if sv_shutdown s then mret tt
  else
    let pubStr := cn_RemotePub conn in
    let remove : SV () := match connReq with Some r => sv_event_log (SRemove (req_ID s r)) | None => mret tt end in
    match outboundPeers s !! pubStr with
    | Some _ => _ ← remove; sv_event_log (SCloseConn (cn_id conn))
    | None =>
        if bool_decide (persistentConnReqs s !! pubStr = None) && bool_decide (connReq <> None) then
          _ ← remove; sv_event_log (SCloseConn (cn_id conn))
        else
          _ ← cancelConnReqs pubStr (req_ID s <$> connReq);
          match findPeerByPubStr pubStr s with
          | Ok connectedPeer =>
              if shouldDropLocalConnection (sv_identity s) pubStr then
                _ ← remove; sv_event_log (SCloseConn (cn_id conn))
              else
                _ ← dropPeer connectedPeer;
                peerConnected graph conn connReq true
          | Err _ => peerConnected graph conn connReq true
          end
    end.

(** Staying connected with a peer: at start-up and on request. *)
Definition persist (pubStr : bytes) : SV () :=
  st_upd (fun s =>
    let s1 := set_persistentPeers ({[pubStr]} ∪ persistentPeers s) s in
    match persistentPeersBackoff s !! pubStr with
    | Some _ => s1
    | None => set_persistentPeersBackoff (<[pubStr := defaultBackoff]> (persistentPeersBackoff s)) s1
    end).

Definition addConnReq (pubStr : bytes) (addr : Addr) : SV nat :=
  connReq ← newConnReq pubStr addr;
  _ ← st_upd (fun s => set_persistentConnReqs
         (<[pubStr := default [] (persistentConnReqs s !! pubStr) ++ [connReq]]> (persistentConnReqs s)) s);
  mret connReq.

(** [true]: the caller dials the peer itself, and then calls [OutboundPeerConnected]
    without a request. *)
Definition ConnectToPeer (targetPub : bytes) (addr : Addr) (perm : bool) : SV bool :=
  s ← st_get;
  match findPeerByPubStr targetPub s with
  | Ok _ => st_fail (ErrNew "already connected to peer")
  | Err _ =>
      if perm then
        _ ← persist targetPub;
        connReq ← addConnReq targetPub addr;
        _ ← sv_event_log (SConnect connReq);
        mret false
      else mret true
  end.

Definition DisconnectPeer (pubStr : bytes) : SV () :=
  s ← st_get;
  match findPeerByPubStr pubStr s with
  | Err _ => st_fail (ErrNew "unable to find peer")
  | Ok p =>
      _ ← cancelConnReqs pubStr None;
      _ ← st_upd (fun s => set_persistentPeersBackoff (delete pubStr (persistentPeersBackoff s))
                             (set_persistentPeers (persistentPeers s ∖ {[pubStr]}) s));
      dropPeer p
  end.

(** ** Termination *)

Definition nextPeerBackoff (ok : bool) (pubStr : bytes) (s : server) : Z :=
  match persistentPeersBackoff s !! pubStr with
  | None => defaultBackoff
  | Some backoff => computeNextBackoff ok backoff
  end.

Definition retryCancel (pubStr : bytes) : SV nat := fun s =>
  match persistentRetryCancels s !! pubStr with
  | Some cancelChan => (Ok cancelChan, s)
  | None =>
      let cancelChan := sv_nextCancel s in
      (Ok cancelChan, set_persistentRetryCancels (<[pubStr := cancelChan]> (persistentRetryCancels s))
                        (set_sv_nextCancel (S cancelChan) s))
  end.

(** The goroutine of a peer, once the peer is disconnected.  [ok]: whether the random
    source answers. *)
Definition peerTerminationWatcher (ok : bool) (p : nat) : SV () :=
  _ ← st_upd (fun s => set_sv_watchers (filter (fun q => q <> p) (sv_watchers s)) s);
  with_peer p (fun pr =>
    s ← st_get;
    if sv_shutdown s then mret tt
    else
      let pubStr := p_pub pr in
      _ ← sv_event_log (SCancelReservations pubStr);
      _ ← sv_event_log (SRemoveLinks pubStr);
      if decide (p ∈ ignorePeerTermination s) then
        st_upd (fun s => set_ignorePeerTermination (ignorePeerTermination s ∖ {[p]}) s)
      else
        _ ← removePeer p;
        if decide (pubStr ∈ persistentPeers s) then
          match persistentConnReqs s !! pubStr with
          | Some _ => mret tt
          | None =>
              connReq ← addConnReq pubStr (p_addr pr);
              let backoff := nextPeerBackoff ok pubStr s in
              _ ← st_upd (fun s => set_persistentPeersBackoff (<[pubStr := backoff]> (persistentPeersBackoff s)) s);
              cancelChan ← retryCancel pubStr;
              st_upd (fun s => set_sv_retries (sv_retries s ++ [mkRetry connReq cancelChan backoff]) s)
          end
        else mret tt).

(** The goroutine that waits for the backoff: when the time has come, and when the
    cancel channel is closed. *)
Definition retry_connect (i : nat) : SV () := fun s =>
  match sv_retries s !! i with
  | Some r => (Ok tt, set_sv_log (sv_log s ++ [SConnect (rt_req r)]) (set_sv_retries (delete i (sv_retries s)) s))
  | None => (Err (ErrBlocked "no such goroutine"), s)
  end.

Definition retry_cancelled (i : nat) : SV () := fun s =>
  match sv_retries s !! i with
  | Some r => if decide (rt_cancel r ∈ sv_cancelled s) then (Ok tt, set_sv_retries (delete i (sv_retries s)) s)
              else (Err (ErrBlocked "not cancelled"), s)
  | None => (Err (ErrBlocked "no such goroutine"), s)
  end.

(** ** Listeners and messages *)

(** The caller's channel is a new one. *)
Definition NotifyWhenOnline (pubStr : bytes) : SV nat :=
  s ← st_get;
  let connectedChan := length (sv_listeners s) in
  _ ← st_upd (fun s => set_sv_listeners (sv_listeners s ++ [mkListener pubStr false]) s);
  match peersByPub s !! pubStr with
  | Some _ => _ ← closeListener connectedChan; mret connectedChan
  | None =>
      _ ← st_upd (fun s => set_peerConnectedListeners
             (<[pubStr := default [] (peerConnectedListeners s !! pubStr) ++ [connectedChan]]> (peerConnectedListeners s)) s);
      mret connectedChan
  end.

Definition sendPeerMessages (targetPeer : nat) (msgs : list bytes) : SV () :=
  st_iter (fun msg => sv_event_log (SQueueMsg targetPeer msg)) msgs.

(** The goroutines of a broadcast are awaited; their order is the map's. *)
Definition broadcastMessages (skips : gset bytes) (msgs : list bytes) : SV () :=
  s ← st_get;
  st_iter (fun q : bytes * nat => if decide (q.1 ∈ skips) then mret tt else sendPeerMessages q.2 msgs)
    (map_to_list (peersByPub s)).

Definition sendToPeer (target : bytes) (msgs : list bytes) : SV nat :=
  s ← st_get;
  match findPeerByPubStr target s with
  | Err e => st_fail e
  | Ok targetPeer => _ ← sendPeerMessages targetPeer msgs; mret targetPeer
  end.

(** ** Start and stop *)

Definition newServer (identity : bytes) : server :=
  mkServer false identity [] [] ∅ ∅ ∅ [] ∅ ∅ ∅ ∅ ∅ ∅ 0 ∅ [] [] [].

(** A call whose error is not looked at; a panic is not an error. *)
Definition ignore_err {A} (m : SV A) : SV () := fun s =>
  match m s with
  | (Err (ErrPanic w), s') => (Err (ErrPanic w), s')
  | (_, s') => (Ok tt, s')
  end.

Definition Stop : SV () :=
  s ← st_get;
  if sv_shutdown s then mret tt
  else
    _ ← st_upd (set_sv_shutdown true);
    st_iter (fun pub => ignore_err (DisconnectPeer pub))
      ((fun q : bytes * nat => match sv_peers s !! q.2 with Some pr => p_pub pr | None => [] end) <$> map_to_list (peersByPub s)).

(** A channel of ours in the graph: the node at its other end. *)
Record Policy := mkPolicy {
  pol_pub : bytes;
  pol_Addresses : list Addr;
  pol_PubKey : res ()
}.

Definition with_port (a : Addr) : Addr :=
  match a with TCPAddr ip port => if port =? 0 then TCPAddr ip defaultPeerPort else a | _ => a end.

(** Addresses of previous connections, by node. *)
Definition link_addresses (linkNodes : list (bytes * list Addr)) : gmap bytes (list Addr) :=
  foldl (fun m n => <[n.1 := with_port <$> n.2]> m) ∅ linkNodes.

Definition same_ip (ip : bytes) (a : Addr) : bool := match a with TCPAddr ip' _ => IP_Equal ip' ip | _ => false end.
Definition is_tcp (a : Addr) : bool := match a with TCPAddr _ _ => true | _ => false end.

(** The addresses of a node, from those known before, if any, and those of its
    announcement. *)
Definition merge_addresses (known : option (list Addr)) (announced : list Addr) : list Addr :=
  match known with
  | Some addrs =>
      addrs ≫= fun lnAddress =>
        match lnAddress with
        | TCPAddr ip _ => match List.filter (same_ip ip) announced with [] => [lnAddress] | matched => matched end
        | _ => []
        end
  | None => List.filter is_tcp announced
  end.

Fixpoint add_policies (policies : list Policy) (m : gmap bytes (list Addr)) : res (gmap bytes (list Addr)) :=
  match policies with
  | [] => Ok m
  | p :: policies =>
      match pol_PubKey p with
      | Err e => Err e
      | Ok _ => add_policies policies (<[pol_pub p := merge_addresses (m !! pol_pub p) (pol_Addresses p)]> m)
      end
  end.

(** The arguments are what the database and the graph answer. *)
Definition nodeAddrsMap (linkNodes : res (list (bytes * list Addr))) (sourceNode : res ()) (policies : res (list Policy)) :
    res (gmap bytes (list Addr)) :=
  match linkNodes with
  | Err ErrLinkNodesNotFound | Ok _ =>
      let nodes := link_addresses (match linkNodes with Ok l => l | Err _ => [] end) in
      match sourceNode with
      | Err e => Err e
      | Ok _ =>
          match policies with
          | Err ErrGraphNoEdgesFound => Ok nodes
          | Err e => Err e
          | Ok l => add_policies l nodes
          end
      end
  | Err e => Err e
  end.

Definition establishPersistentConnections (linkNodes : res (list (bytes * list Addr))) (sourceNode : res ())
    (policies : res (list Policy)) : SV () :=
  m ← st_res (nodeAddrsMap linkNodes sourceNode policies);
  st_iter (fun n : bytes * list Addr =>
    _ ← persist n.1;
    st_iter (fun address =>
      connReq ← addConnReq n.1 address;
      sv_event_log (SConnect connReq)) n.2) (map_to_list m).

(** ** Inputs *)

Inductive sv_input :=
  | IEstablish (linkNodes : res (list (bytes * list Addr))) (sourceNode : res ()) (policies : res (list Policy))
  | IInbound (conn : Conn)
  | IOutbound (connReq : option nat) (conn : Conn)
  | IConnectToPeer (pub : bytes) (addr : Addr) (perm : bool)
  | IDisconnectPeer (pub : bytes)
  | IPeerQuits (p : nat)
  | ITerminated (ok : bool) (p : nat)
  | IRetry (i : nat)
  | IRetryCancelled (i : nat)
  | IAssign (r : nat) (id : Z)
  | INotifyWhenOnline (pub : bytes)
  | IBroadcast (skips : gset bytes) (msgs : list bytes)
  | ISend (target : bytes) (msgs : list bytes).

(** The connection manager gives a request its identifier. *)
Definition assign (r : nat) (id : Z) : SV () := fun s =>
  match sv_reqs s !! r with
  | Some c => if cr_ID c =? UnassignedConnID
              then (Ok tt, set_sv_reqs (<[r := mkConnReq (cr_pub c) (cr_Addr c) id]> (sv_reqs s)) s)
              else (Err (ErrBlocked "assigned"), s)
  | None => (Err (ErrBlocked "no such request"), s)
  end.

(** [IPeerQuits]: the other end has gone, or a goroutine of the peer fails.
    [ITerminated]: the watcher of a peer that is disconnected. *)
Definition handle (graph : bytes -> option (list Addr)) (i : sv_input) : SV () :=
  match i with
  | IEstablish nodes source policies => establishPersistentConnections nodes source policies
  | IInbound conn => InboundPeerConnected graph conn
  | IOutbound connReq conn => OutboundPeerConnected graph connReq conn
  | IConnectToPeer pub addr perm => _ ← ConnectToPeer pub addr perm; mret tt
  | IDisconnectPeer pub => DisconnectPeer pub
  | IPeerQuits p => fun s => if decide (p < length (sv_peers s))%nat then Disconnect p s else (Err (ErrBlocked "no such peer"), s)
  | ITerminated ok p => fun s =>
      if decide (p ∈ sv_watchers s) then
        match sv_peers s !! p with
        | Some pr => if p_disconnect pr then peerTerminationWatcher ok p s else (Err (ErrBlocked "connected"), s)
        | None => (Err (ErrBlocked "no such peer"), s)
        end
      else (Err (ErrBlocked "no such goroutine"), s)
  | IRetry i => retry_connect i
  | IRetryCancelled i => retry_cancelled i
  | IAssign r id => assign r id
  | INotifyWhenOnline pub => _ ← NotifyWhenOnline pub; mret tt
  | IBroadcast skips msgs => broadcastMessages skips msgs
  | ISend target msgs => _ ← sendToPeer target msgs; mret tt
  end.

(** What the database answers at start-up is not a panic. *)
Definition input_ok (i : sv_input) : Prop :=
  match i with
  | IEstablish nodes source policies =>
      match nodeAddrsMap nodes source policies with Err (ErrPanic _) => False | _ => True end
  | _ => True
  end.

(** The states of a running server whose inputs are all [allowed]. *)
Inductive sv_reach (graph : bytes -> option (list Addr)) (identity : bytes) (allowed : sv_input -> Prop) : server -> Prop :=
  | sv_init : sv_reach graph identity allowed (newServer identity)
  | sv_next s i r s' :
      sv_reach graph identity allowed s -> input_ok i -> allowed i -> handle graph i s = (r, s') ->
      sv_reach graph identity allowed s'.
