(* ===== verification/ServerSafe.v ===== *)
(** * What the server's methods do

    The state each method of [Server] leaves, and the invariant of the reachable states:
    the maps of the connected peers agree, the watchers and the set of peers to ignore
    account for every peer, and channels are closed once. *)

From Stdlib Require Import ZArith Lia.
From Stdlib Require Import Init.Byte.
From stdpp Require Import base gmap strings numbers list.
From S2P Require Import Prelude Effects Server.
Local Open Scope Z_scope.

Section ServerSafe.
Implicit Types (s : server) (pub : bytes) (p : nat).

(** ** Methods as state transformers *)

Definition disc (pr : peer) : peer :=
  mkPeer (p_conn pr) (p_pub pr) (p_addr pr) (p_inbound pr) (p_connReq pr) (p_initialSync pr) true.

Lemma disc_id pr : p_disconnect pr = true -> disc pr = pr.
Proof. destruct pr. cbn. by intros ->. Qed.

Lemma Disconnect_eq p s pr :
  sv_peers s !! p = Some pr -> exists log, Disconnect p s = (Ok tt, set_sv_log log (set_sv_peers (<[p := disc pr]> (sv_peers s)) s)).
Proof.
  intros H. unfold Disconnect. rewrite H. destruct (p_disconnect pr) eqn:E; [|by eexists].
  exists (sv_log s). rewrite disc_id, list_insert_id by done. by destruct s.
Qed.

(** The state without the peer. *)
Definition removed (p : nat) (pr : peer) (s : server) : server :=
  let s1 := set_peersByPub (delete (p_pub pr) (peersByPub s)) (set_sv_peers (<[p := disc pr]> (sv_peers s)) s) in
  if p_inbound pr then set_inboundPeers (delete (p_pub pr) (inboundPeers s1)) s1
  else set_outboundPeers (delete (p_pub pr) (outboundPeers s1)) s1.

Lemma removePeer_eq p s pr :
  sv_peers s !! p = Some pr -> sv_shutdown s = false -> exists log, removePeer p s = (Ok tt, set_sv_log log (removed p pr s)).
Proof.
  intros H Hs. destruct (Disconnect_eq p s pr H) as [log E]. unfold removePeer, mbind, st_bind. rewrite E. unfold with_peer.
  cbn [sv_peers set_sv_log set_sv_peers]. rewrite list_lookup_insert_eq by (by eapply lookup_lt_Some). unfold removed.
  cbn [p_connReq p_inbound disc]. destruct (p_connReq pr), (p_inbound pr); cbn; rewrite Hs; cbn; by eexists.
Qed.

Definition dropped (p : nat) (pr : peer) (s : server) : server :=
  set_ignorePeerTermination ({[p]} ∪ ignorePeerTermination s) (removed p pr s).

Lemma dropPeer_eq p s pr :
  sv_peers s !! p = Some pr -> sv_shutdown s = false -> exists log, dropPeer p s = (Ok tt, set_sv_log log (dropped p pr s)).
Proof.
  intros H Hs. destruct (removePeer_eq p s pr H Hs) as [log E]. unfold dropPeer, mbind, st_bind. rewrite E. exists log.
  unfold st_upd, dropped, removed. cbn. by destruct (p_inbound pr).
Qed.

(** A server that is stopping disconnects the peer and leaves the maps as they are. *)
Lemma dropPeer_stopped p s pr :
  sv_peers s !! p = Some pr -> sv_shutdown s = true -> exists log, dropPeer p s = (Ok tt, set_sv_log log
    (set_ignorePeerTermination ({[p]} ∪ ignorePeerTermination s) (set_sv_peers (<[p := disc pr]> (sv_peers s)) s))).
Proof.
  intros H Hs. destruct (Disconnect_eq p s pr H) as [log E]. unfold dropPeer, removePeer, mbind, st_bind. rewrite E. unfold with_peer.
  cbn [sv_peers set_sv_log set_sv_peers]. rewrite list_lookup_insert_eq by (by eapply lookup_lt_Some).
  cbn [p_connReq disc]. destruct (p_connReq pr); cbn; rewrite Hs; cbn; by eexists.
Qed.

(** The state after the requests to a peer are cancelled. *)
Definition cancelled (pub : bytes) (s : server) : server :=
  set_persistentConnReqs (delete pub (persistentConnReqs s))
    (match persistentRetryCancels s !! pub with
     | Some c => set_persistentRetryCancels (delete pub (persistentRetryCancels s)) (set_sv_cancelled ({[c]} ∪ sv_cancelled s) s)
     | None => s
     end).

Lemma log_iter {A} (f : A -> SV ()) l s :
  (forall a s, exists log, f a s = (Ok tt, set_sv_log log s)) -> exists log, st_iter f l s = (Ok tt, set_sv_log log s).
Proof.
  intros Hf. revert s. induction l as [|a l IH]; intros s; [exists (sv_log s); by destruct s|].
  destruct (Hf a s) as [log E]. cbn. unfold mbind, st_bind. rewrite E. destruct (IH (set_sv_log log s)) as [log' ->]. by eexists.
Qed.

(** What both parts of [cancelConnReqs] do to a state [s0] they start from. *)
Lemma cancel_requests pub skip s s0 :
  persistentConnReqs s0 = persistentConnReqs s ->
  exists log, (match persistentConnReqs s !! pub with
    | None => mret tt
    | Some connReqs =>
        _ ← st_iter (fun r => let connID := req_ID s r in
                       if connID =? UnassignedConnID then mret tt
                       else if bool_decide (skip = Some connID) then mret tt
                       else sv_event_log (SRemove connID)) connReqs;
        st_upd (fun s => set_persistentConnReqs (delete pub (persistentConnReqs s)) s)
    end : SV ()) s0 = (Ok tt, set_sv_log log (set_persistentConnReqs (delete pub (persistentConnReqs s)) s0)).
Proof.
  intros Hr. destruct (persistentConnReqs s !! pub) as [l|] eqn:El.
  - unfold mbind, st_bind. match goal with |- context [st_iter ?f l ?s0] => destruct (log_iter f l s0) as [log ->] end.
    + intros r s1. cbn. destruct (_ =? _); [exists (sv_log s1); by destruct s1|].
      case_bool_decide; [exists (sv_log s1); by destruct s1|by eexists].
    + exists log. unfold st_upd. cbn. by rewrite Hr.
  - exists (sv_log s0). rewrite delete_id, <- Hr by done. by destruct s0.
Qed.

Lemma cancelConnReqs_eq pub skip s :
  (forall c, persistentRetryCancels s !! pub = Some c -> c ∉ sv_cancelled s) ->
  exists log, cancelConnReqs pub skip s = (Ok tt, set_sv_log log (cancelled pub s)).
Proof.
  intros Hc. unfold cancelConnReqs, cancelled. destruct (persistentRetryCancels s !! pub) as [c|] eqn:Ec.
  - destruct (cancel_requests pub skip s (set_persistentRetryCancels (delete pub (persistentRetryCancels s))
      (set_sv_cancelled ({[c]} ∪ sv_cancelled s) s)) eq_refl) as [log E].
    exists log. rewrite <- E. unfold mbind, st_bind, st_get, closeCancel. rewrite Ec, decide_False by (by apply Hc). done.
  - destruct (cancel_requests pub skip s s eq_refl) as [log E]. exists log. rewrite <- E.
    unfold mbind, st_bind, st_get. by rewrite Ec.
Qed.

(** Closing the channels of those who wait. *)
Definition close_all (l : list nat) (ls : list listener) : list listener :=
  foldl (fun ls i => match ls !! i with Some x => <[i := mkListener (ls_pub x) true]> ls | None => ls end) ls l.

Lemma closeListeners_eq l s :
  NoDup l -> (forall i, i ∈ l -> exists pub, sv_listeners s !! i = Some (mkListener pub false)) ->
  st_iter closeListener l s = (Ok tt, set_sv_listeners (close_all l (sv_listeners s)) s).
Proof.
  revert s. induction l as [|i l IH]; intros s Hnd Hl; [by destruct s|]. apply NoDup_cons in Hnd as [Hi Hnd].
  destruct (Hl i) as [pub Hp]; [by left|]. cbn [st_iter]. unfold mbind, st_bind. unfold closeListener at 1. rewrite Hp. cbn [ls_closed].
  rewrite IH; [|done|].
  - cbn. by rewrite Hp.
  - intros j Hj. destruct (Hl j) as [pub' Hp']; [by right|]. exists pub'. cbn. rewrite list_lookup_insert_ne; [done|]. intros ->. done.
Qed.

Definition with_new (pr : peer) (s : server) : server := set_sv_peers (sv_peers s ++ [pr]) s.

(** The state with the peer connected. *)
Definition added (p : nat) (pr : peer) (s : server) : server :=
  let pub := p_pub pr in
  let s1 := set_peersByPub (<[pub := p]> (peersByPub s)) s in
  let s2 := if p_inbound pr then set_inboundPeers (<[pub := p]> (inboundPeers s)) s1
            else set_outboundPeers (<[pub := p]> (outboundPeers s)) s1 in
  set_peerConnectedListeners (delete pub (peerConnectedListeners s))
    (set_sv_listeners (close_all (default [] (peerConnectedListeners s !! pub)) (sv_listeners s))
       (set_sv_watchers (sv_watchers s ++ [p]) s2)).

(** Those who wait, wait for a peer that is not connected, and are all on the lists. *)
Definition waiting_ok (s : server) : Prop :=
  (forall pub l, peerConnectedListeners s !! pub = Some l -> NoDup l
     /\ (forall i, i ∈ l -> sv_listeners s !! i = Some (mkListener pub false)) /\ peersByPub s !! pub = None)
  /\ (forall i pub, sv_listeners s !! i = Some (mkListener pub false) -> i ∈ default [] (peerConnectedListeners s !! pub)).

Lemma addPeer_eq p pr w s :
  sv_peers s !! p = Some pr -> sv_shutdown s = false -> waiting_ok s ->
  exists log, addPeer p w s = (Ok tt, set_sv_log log (added p pr s)).
Proof.
  intros Hp Hs [Hw _]. unfold addPeer, with_peer. rewrite Hp. unfold mbind, st_bind, st_get. rewrite Hs. unfold added.
  assert (NoDup (default [] (peerConnectedListeners s !! p_pub pr))
          /\ forall i, i ∈ default [] (peerConnectedListeners s !! p_pub pr) -> sv_listeners s !! i = Some (mkListener (p_pub pr) false)) as [Hnd Hl].
  { destruct (peerConnectedListeners s !! p_pub pr) as [l|] eqn:E; [by destruct (Hw _ l E) as (? & ? & _)|].
    split; [constructor|]. intros i Hi. by apply elem_of_nil in Hi. }
  destruct (p_inbound pr), w; cbn; rewrite closeListeners_eq; cbn; eauto.
Qed.

Lemma peerConnected_eq g conn r inbound s :
  sv_shutdown s = false -> waiting_ok s ->
  exists log pr, p_pub pr = cn_RemotePub conn /\ p_inbound pr = inbound /\ p_disconnect pr = false
    /\ peerConnected g conn r inbound s = (Ok tt, set_sv_log log
          (if cn_starts conn then added (length (sv_peers s)) pr (with_new pr s) else with_new (disc pr) s)).
Proof.
  intros Hs Hw. unfold peerConnected. set (addr := match cn_RemoteAddr conn with TCPAddr _ _ => _ | _ => _ end).
  set (pr := mkPeer (cn_id conn) (cn_RemotePub conn) addr inbound r (shouldRequestGraphSync s) false).
  assert (sv_peers (with_new pr s) !! length (sv_peers s) = Some pr) as Hp by (by apply list_lookup_middle).
  destruct (cn_starts conn).
  - destruct (addPeer_eq (length (sv_peers s)) pr (cn_wantsSync conn) (with_new pr s) Hp Hs Hw) as [log E].
    exists log, pr. split; [done|]. split; [done|]. split; [done|]. rewrite <- E. done.
  - destruct (Disconnect_eq (length (sv_peers s)) (with_new pr s) pr Hp) as [log E].
    exists log, pr. split; [done|]. split; [done|]. split; [done|]. etrans; [exact E|]. unfold with_new. cbn.
    by rewrite insert_app_r_alt, Nat.sub_diag by lia.
Qed.

(** ** The peers *)

(** The map of the direction a peer is filed under. *)
Definition side (inbound : bool) (s : server) : gmap bytes nat := if inbound then inboundPeers s else outboundPeers s.

(** A connected peer is filed under its key and on its side, has a watcher and is not
    ignored; the sides hold nothing else; a watcher's peer is connected or to be
    ignored, and those to be ignored are disconnected and have a watcher. *)
Definition peers_ok (s : server) : Prop :=
  (forall pub p, peersByPub s !! pub = Some p -> exists pr, sv_peers s !! p = Some pr /\ p_pub pr = pub
     /\ side (p_inbound pr) s !! pub = Some p /\ p ∈ sv_watchers s /\ p ∉ ignorePeerTermination s)
  /\ (forall b pub p, side b s !! pub = Some p -> peersByPub s !! pub = Some p /\ exists pr, sv_peers s !! p = Some pr /\ p_inbound pr = b)
  /\ NoDup (sv_watchers s)
  /\ (forall p, p ∈ sv_watchers s -> exists pr, sv_peers s !! p = Some pr
       /\ (p ∈ ignorePeerTermination s \/ peersByPub s !! p_pub pr = Some p))
  /\ (forall p, p ∈ ignorePeerTermination s -> p ∈ sv_watchers s /\ exists pr, sv_peers s !! p = Some pr /\ p_disconnect pr = true).

Lemma side_removed b p pr s : side b (removed p pr s) = if decide (b = p_inbound pr) then delete (p_pub pr) (side b s) else side b s.
Proof. unfold side, removed. by destruct b, (p_inbound pr). Qed.

Lemma removed_fields p pr s :
  peersByPub (removed p pr s) = delete (p_pub pr) (peersByPub s) /\ sv_peers (removed p pr s) = <[p := disc pr]> (sv_peers s)
  /\ sv_watchers (removed p pr s) = sv_watchers s /\ ignorePeerTermination (removed p pr s) = ignorePeerTermination s.
Proof. unfold removed. by destruct (p_inbound pr). Qed.

Lemma disc_lookup p pr s q qr :
  sv_peers s !! p = Some pr -> sv_peers s !! q = Some qr ->
  exists qr', <[p := disc pr]> (sv_peers s) !! q = Some qr' /\ p_pub qr' = p_pub qr /\ p_inbound qr' = p_inbound qr
    /\ (p_disconnect qr = true -> p_disconnect qr' = true).
Proof.
  intros Hp Hq. destruct (decide (p = q)) as [<-|Hne].
  - rewrite list_lookup_insert_eq by (by eapply lookup_lt_Some). eexists. split; [done|]. by simplify_eq.
  - rewrite list_lookup_insert_ne by done. by exists qr.
Qed.

(** A connected peer [p] is removed; [w] and [g] are the watchers and ignored peers then. *)
Lemma peers_ok_removed p pr s w g :
  peers_ok s -> sv_peers s !! p = Some pr -> peersByPub s !! p_pub pr = Some p -> NoDup w ->
  (forall q, q <> p -> q ∈ w <-> q ∈ sv_watchers s) -> (forall q, q <> p -> q ∈ g <-> q ∈ ignorePeerTermination s) ->
  (p ∈ w <-> p ∈ g) ->
  peers_ok (set_ignorePeerTermination g (set_sv_watchers w (removed p pr s))).
Proof.
  intros (H1 & H2 & H3 & H4 & H5) Hp Hreg Hnd Hw Hg Hwg.
  assert (forall b, side b (set_ignorePeerTermination g (set_sv_watchers w (removed p pr s))) = side b (removed p pr s)) as Es by (by intros []).
  destruct (removed_fields p pr s) as (E1 & E2 & _ & _).
  assert (forall pub q, peersByPub s !! pub = Some q -> q = p -> pub = p_pub pr) as Huniq.
  { intros pub q Hq ->. apply H1 in Hq as (qr & ? & <- & _). by simplify_eq. }
  split; [|split; [|split; [done|split]]]; cbn; rewrite ?E1, ?E2.
  - intros pub q [Hne Hq]%lookup_delete_Some. assert (q <> p) as Hqp by (intros ->; apply Hne; symmetry; by eapply Huniq).
    apply H1 in Hq as (qr & Hl & Hpub & Hs & Hqw & Hqg). destruct (disc_lookup p pr s q qr Hp Hl) as (qr' & Hl' & Hpub' & Hin & _).
    exists qr'. split; [done|]. split; [congruence|]. rewrite Hin, Es, side_removed. split; [|split; [by apply Hw|by rewrite Hg]].
    case_decide; [|done]. by rewrite lookup_delete_ne.
  - intros b pub q. rewrite Es, side_removed. intros Hq.
    assert (side b s !! pub = Some q /\ (pub <> p_pub pr)) as [Hq' Hne].
    { case_decide as Hb; [by apply lookup_delete_Some in Hq as [? ?]|]. split; [done|]. intros ->.
      destruct (H2 b _ q Hq) as (Hqr & qr & Hl & Hin). rewrite Hreg in Hqr. simplify_eq. }
    destruct (H2 b pub q Hq') as (Hqr & qr & Hl & Hin). split; [by rewrite lookup_delete_ne|].
    destruct (disc_lookup p pr s q qr Hp Hl) as (qr' & Hl' & _ & Hin' & _). exists qr'. split; [done|congruence].
  - intros q Hq. destruct (decide (q = p)) as [->|Hne].
    + rewrite list_lookup_insert_eq by (by eapply lookup_lt_Some). eexists. split; [done|]. left. by apply Hwg.
    + apply Hw in Hq; [|done]. destruct (H4 q Hq) as (qr & Hl & Ho). destruct (disc_lookup p pr s q qr Hp Hl) as (qr' & Hl' & Hpub & _).
      exists qr'. split; [done|]. destruct Ho as [Ho|Ho]; [left; by apply Hg|right]. rewrite Hpub, lookup_delete_ne; [done|].
      intros E. apply Hne. rewrite E in Hreg. congruence.
  - intros q Hq. destruct (decide (q = p)) as [->|Hne].
    + split; [by apply Hwg|]. rewrite list_lookup_insert_eq by (by eapply lookup_lt_Some). by eexists.
    + apply Hg in Hq; [|done]. destruct (H5 q Hq) as (Hqw & qr & Hl & Hd). split; [by apply Hw|].
      destruct (disc_lookup p pr s q qr Hp Hl) as (qr' & Hl' & _ & _ & Hd'). exists qr'. by auto.
Qed.

Lemma peers_ok_dropped p pr s :
  peers_ok s -> sv_peers s !! p = Some pr -> peersByPub s !! p_pub pr = Some p -> peers_ok (dropped p pr s).
Proof.
  intros H Hp Hreg. pose proof H as (H1 & _ & H3 & _). destruct (H1 _ _ Hreg) as (_ & _ & _ & _ & Hw & _).
  assert (dropped p pr s = set_ignorePeerTermination ({[p]} ∪ ignorePeerTermination s) (set_sv_watchers (sv_watchers s) (removed p pr s))) as ->
    by (unfold dropped, removed; by destruct (p_inbound pr)).
  apply peers_ok_removed; [done|done|done|done|done| |set_solver].
  intros q Hq. set_solver.
Qed.

Definition unwatched (p : nat) (s : server) : server := set_sv_watchers (filter (fun q => q <> p) (sv_watchers s)) s.

Lemma unwatched_elem p q s : q ∈ filter (fun q => q <> p) (sv_watchers s) <-> q <> p /\ q ∈ sv_watchers s.
Proof. by rewrite list_elem_of_filter. Qed.

Lemma peers_ok_terminated p pr s :
  peers_ok s -> sv_peers s !! p = Some pr -> p ∈ sv_watchers s -> p ∉ ignorePeerTermination s ->
  peersByPub s !! p_pub pr = Some p /\ peers_ok (removed p pr (unwatched p s)).
Proof.
  intros H Hp Hw Hg. pose proof H as (H1 & _ & H3 & H4 & _). destruct (H4 p Hw) as (pr' & Hp' & [?|Hreg]); [done|]. simplify_eq.
  split; [done|].
  assert (removed p pr (unwatched p s) = set_ignorePeerTermination (ignorePeerTermination s)
    (set_sv_watchers (filter (fun q => q <> p) (sv_watchers s)) (removed p pr s))) as -> by (unfold removed; by destruct (p_inbound pr)).
  apply peers_ok_removed; [done|done|done|by apply NoDup_filter| |done|].
  - intros q Hq. rewrite unwatched_elem. tauto.
  - rewrite unwatched_elem. tauto.
Qed.

Lemma peers_ok_ignored p s :
  peers_ok s -> p ∈ ignorePeerTermination s -> peers_ok (set_ignorePeerTermination (ignorePeerTermination s ∖ {[p]}) (unwatched p s)).
Proof.
  intros (H1 & H2 & H3 & H4 & H5) Hg. split; [|split; [done|split; [by apply NoDup_filter|split]]]; cbn.
  - intros pub q Hq. destruct (H1 pub q Hq) as (qr & ? & ? & ? & ? & ?). exists qr. split; [done|]. split; [done|]. split; [done|].
    rewrite unwatched_elem. split; [|set_solver]. split; [|done]. by intros ->.
  - intros q. rewrite unwatched_elem. intros [Hne Hq]. destruct (H4 q Hq) as (qr & Hl & Ho). exists qr. split; [done|]. set_solver.
  - intros q Hq. assert (q ∈ ignorePeerTermination s) as Hq' by set_solver. destruct (H5 q Hq') as [? ?]. rewrite unwatched_elem.
    split; [|done]. set_solver.
Qed.

Lemma peers_ok_new pr s : peers_ok s -> peers_ok (with_new pr s).
Proof.
  intros (H1 & H2 & H3 & H4 & H5). split; [|split; [|split; [done|split]]]; cbn.
  - intros pub q Hq. destruct (H1 pub q Hq) as (qr & Hl & ?). exists qr. split; [by apply lookup_app_l_Some|done].
  - intros b pub q Hq. destruct (H2 b pub q Hq) as (? & qr & Hl & ?). split; [done|]. exists qr. split; [by apply lookup_app_l_Some|done].
  - intros q Hq. destruct (H4 q Hq) as (qr & Hl & ?). exists qr. split; [by apply lookup_app_l_Some|done].
  - intros q Hq. destruct (H5 q Hq) as (? & qr & Hl & ?). split; [done|]. exists qr. split; [by apply lookup_app_l_Some|done].
Qed.

Lemma side_added b p pr s : side b (added p pr s) = if decide (b = p_inbound pr) then <[p_pub pr := p]> (side b s) else side b s.
Proof. unfold side, added. by destruct b, (p_inbound pr). Qed.

Lemma added_fields p pr s :
  peersByPub (added p pr s) = <[p_pub pr := p]> (peersByPub s) /\ sv_peers (added p pr s) = sv_peers s
  /\ sv_watchers (added p pr s) = sv_watchers s ++ [p] /\ ignorePeerTermination (added p pr s) = ignorePeerTermination s
  /\ sv_listeners (added p pr s) = close_all (default [] (peerConnectedListeners s !! p_pub pr)) (sv_listeners s)
  /\ peerConnectedListeners (added p pr s) = delete (p_pub pr) (peerConnectedListeners s).
Proof. unfold added. by destruct (p_inbound pr). Qed.

(** A peer nothing refers to yet is connected. *)
Lemma peers_ok_added p pr s :
  peers_ok s -> sv_peers s !! p = Some pr -> peersByPub s !! p_pub pr = None -> p ∉ sv_watchers s -> peers_ok (added p pr s).
Proof.
  intros (H1 & H2 & H3 & H4 & H5) Hp Hfree Hw. destruct (added_fields p pr s) as (E1 & E2 & E3 & E4 & _).
  assert (p ∉ ignorePeerTermination s) as Hg by (intros Hg; by apply Hw, H5).
  split; [|split; [|split; [|split]]]; rewrite ?E1, ?E2, ?E3, ?E4.
  - intros pub q. rewrite lookup_insert. case_decide as E.
    + subst pub. intros [= <-]. exists pr. rewrite side_added, decide_True, lookup_insert_eq by done. set_solver.
    + intros Hq. destruct (H1 pub q Hq) as (qr & ? & ? & ? & ? & ?). exists qr. split; [done|]. split; [done|]. rewrite side_added.
      split; [|set_solver]. case_decide; [|done]. by rewrite lookup_insert_ne.
  - intros b pub q. rewrite side_added. intros Hq.
    assert ((pub = p_pub pr /\ q = p /\ b = p_inbound pr) \/ (pub <> p_pub pr /\ side b s !! pub = Some q)) as [(-> & -> & ->)|[Hne Hq']].
    { case_decide as Hb.
      - apply lookup_insert_Some in Hq as [[<- <-]|[? ?]]; [by left|right; by split].
      - right. split; [|done]. intros ->. apply H2 in Hq as [Hq _]. congruence. }
    + rewrite lookup_insert_eq. split; [done|]. by exists pr.
    + rewrite lookup_insert_ne by done. by apply H2.
  - apply NoDup_app. split; [done|]. split; [|apply NoDup_singleton]. intros q Hq ->%list_elem_of_singleton. done.
  - intros q [Hq| ->%list_elem_of_singleton]%elem_of_app.
    + destruct (H4 q Hq) as (qr & Hl & Ho). exists qr. split; [done|]. destruct Ho as [Ho|Ho]; [by left|right].
      rewrite lookup_insert_ne; [done|]. intros E. rewrite E in Hfree. congruence.
    + exists pr. split; [done|]. right. by rewrite lookup_insert_eq.
  - intros q Hq. destruct (H5 q Hq) as [? ?]. split; [apply elem_of_app; by left|done].
Qed.

(** ** Those who wait *)

Lemma close_all_lookup l ls i :
  close_all l ls !! i = (fun x => if decide (i ∈ l) then mkListener (ls_pub x) true else x) <$> ls !! i.
Proof.
  revert ls. induction l as [|j l IH]; intros ls.
  - cbn. destruct (ls !! i); cbn; [|done]. by rewrite decide_False by (apply not_elem_of_nil).
  - change (close_all (j :: l) ls) with
      (close_all l (match ls !! j with Some x => <[j := mkListener (ls_pub x) true]> ls | None => ls end)).
    rewrite IH. destruct (ls !! j) as [x|] eqn:Ej.
    + destruct (decide (j = i)) as [->|Hne].
      * rewrite list_lookup_insert_eq, Ej by (by eapply lookup_lt_Some). cbn. rewrite (decide_True (P := i ∈ i :: l)) by (by left).
        by case_decide.
      * rewrite list_lookup_insert_ne by done. destruct (ls !! i); cbn; [|done]. f_equal. apply decide_ext. set_solver.
    + destruct (ls !! i) eqn:Ei; cbn; [|done]. f_equal. apply decide_ext. set_unfold. naive_solver.
Qed.

Lemma waiting_ok_mono s s' :
  waiting_ok s -> sv_listeners s' = sv_listeners s -> peerConnectedListeners s' = peerConnectedListeners s ->
  (forall pub, peersByPub s !! pub = None -> peersByPub s' !! pub = None) -> waiting_ok s'.
Proof.
  intros [H1 H2] El Em Hp. unfold waiting_ok. rewrite El, Em. split; [|done]. intros pub l Hl.
  destruct (H1 pub l Hl) as (? & ? & ?). auto.
Qed.

Lemma waiting_ok_removed p pr s : waiting_ok s -> waiting_ok (removed p pr s).
Proof.
  intros H. apply (waiting_ok_mono s); [done|unfold removed; by destruct (p_inbound pr)..|].
  intros pub Hn. rewrite (proj1 (removed_fields p pr s)). by apply lookup_delete_None; right.
Qed.

Lemma waiting_ok_added p pr s : waiting_ok s -> waiting_ok (added p pr s).
Proof.
  intros [H1 H2]. destruct (added_fields p pr s) as (E1 & _ & _ & _ & E5 & E6). unfold waiting_ok. rewrite E1, E5, E6. split.
  - intros pub l [Hne Hl]%lookup_delete_Some. destruct (H1 pub l Hl) as (Hnd & Hin & Hp). split; [done|].
    rewrite lookup_insert_ne by done. split; [|done]. intros i Hi. rewrite close_all_lookup, (Hin i Hi). cbn. rewrite decide_False; [done|].
    intros Hi'. destruct (peerConnectedListeners s !! p_pub pr) as [l'|] eqn:E; [|by apply elem_of_nil in Hi'].
    destruct (H1 _ l' E) as (_ & Hin' & _). specialize (Hin i Hi). specialize (Hin' i Hi'). congruence.
  - intros i pub. rewrite close_all_lookup. destruct (sv_listeners s !! i) as [x|] eqn:El; [|done]. cbn. case_decide as Hd; [done|].
    intros [= ->]. pose proof (H2 i pub El) as Hi. destruct (decide (p_pub pr = pub)) as [<-|Hne]; [done|]. by rewrite lookup_delete_ne.
Qed.

Lemma NotifyWhenOnline_spec pub s :
  waiting_ok s -> exists r s', NotifyWhenOnline pub s = (Ok r, s') /\ waiting_ok s'
    /\ exists ls l, s' = set_sv_listeners ls (set_peerConnectedListeners l s).
Proof.
  intros [H1 H2]. unfold NotifyWhenOnline. unfold mbind, st_bind, st_get, st_upd, mret, st_ret. cbn.
  destruct (peersByPub s !! pub) as [p|] eqn:Ep.
  - unfold closeListener. cbn. rewrite list_lookup_middle by done. cbn. rewrite insert_app_r_alt, Nat.sub_diag by done. cbn.
    eexists _, _. split; [done|]. split; [|exists (sv_listeners s ++ [mkListener pub true]), (peerConnectedListeners s); by destruct s].
    split; cbn.
    + intros pub' l Hl. destruct (H1 pub' l Hl) as (? & Hin & ?). split; [done|]. split; [|done]. intros i Hi. apply lookup_app_l_Some, Hin, Hi.
    + intros i pub' [Hl|[Hge Hl]]%lookup_app_Some; [by apply H2|]. destruct (i - length (sv_listeners s))%nat; [|done]. discriminate Hl.
  - eexists _, _. split; [done|]. split; [|by eexists _, _]. split; cbn.
    + intros pub' l. rewrite lookup_insert. case_decide as E.
      * subst pub'. intros [= <-]. assert (NoDup (default [] (peerConnectedListeners s !! pub)) /\
          forall i, i ∈ default [] (peerConnectedListeners s !! pub) -> sv_listeners s !! i = Some (mkListener pub false)) as [Hnd Hin].
        { destruct (peerConnectedListeners s !! pub) as [l|] eqn:E; [by destruct (H1 _ l E) as (? & ? & _)|].
          split; [constructor|]. intros i Hi. by apply elem_of_nil in Hi. }
        split; [|split; [|done]].
        -- apply NoDup_app. split; [done|]. split; [|apply NoDup_singleton]. intros i Hi ->%list_elem_of_singleton.
           apply Hin in Hi. apply lookup_lt_Some in Hi. lia.
        -- intros i [Hi| ->%list_elem_of_singleton]%elem_of_app; [by apply lookup_app_l_Some, Hin|by apply list_lookup_middle].
      * intros Hl. destruct (H1 pub' l Hl) as (? & Hin & ?). split; [done|]. split; [|done]. intros i Hi. apply lookup_app_l_Some, Hin, Hi.
    + intros i pub' [Hl|[Hge Hl]]%lookup_app_Some.
      * apply H2 in Hl. rewrite lookup_insert. case_decide as E; [|done]. subst pub'. cbn. set_solver.
      * destruct (i - length (sv_listeners s))%nat eqn:Ei; [|done]. injection Hl as <-. rewrite lookup_insert_eq. cbn.
        assert (i = length (sv_listeners s)) as -> by lia. set_solver.
Qed.
End ServerSafe.
