(* ===== verification/ServerInv.v ===== *)
(** * The invariant of the server

    The requests, retries and backoffs of the persistent peers, and the proof that every
    input keeps the invariant and none makes the server panic. *)

From Stdlib Require Import ZArith Lia.
From Stdlib Require Import Init.Byte.
From stdpp Require Import base gmap strings numbers list.
From S2P Require Import Prelude Effects Server ServerSafe.
Local Open Scope Z_scope.

Section ServerInv.
Implicit Types (s : server) (pub : bytes) (p : nat).

(** ** Requests and retries *)

(** A retry can be cancelled as long as it is scheduled, and no channel is closed twice. *)
Definition cancels_ok (s : server) : Prop :=
  (forall pub c, persistentRetryCancels s !! pub = Some c -> (c ∉ sv_cancelled s) /\ (c < sv_nextCancel s)%nat)
  /\ (forall pub pub' c, persistentRetryCancels s !! pub = Some c -> persistentRetryCancels s !! pub' = Some c -> pub = pub')
  /\ (forall c, c ∈ sv_cancelled s -> (c < sv_nextCancel s)%nat)
  /\ (forall r, r ∈ sv_retries s -> exists q, sv_reqs s !! rt_req r = Some q
       /\ (rt_cancel r ∈ sv_cancelled s \/ persistentRetryCancels s !! cr_pub q = Some (rt_cancel r))).

(** The pending requests of a peer are for that peer. *)
Definition reqs_ok (s : server) : Prop :=
  forall pub l, persistentConnReqs s !! pub = Some l -> l <> [] /\ forall r, r ∈ l -> exists q, sv_reqs s !! r = Some q /\ cr_pub q = pub.

(** The backoff reaches an hour, and five percent more. *)
Definition backoff_top : Z := maximumBackoff + Z.quot maximumBackoff 10 - Z.quot maximumBackoff 20.

Definition backoff_ok (s : server) : Prop :=
  (forall pub b, persistentPeersBackoff s !! pub = Some b -> defaultBackoff <= b <= backoff_top)
  /\ (forall r, r ∈ sv_retries s -> defaultBackoff <= rt_backoff r <= backoff_top).

Lemma computeNextBackoff_bounds ok b :
  defaultBackoff <= b <= backoff_top ->
  Z.min (2 * b) maximumBackoff <= computeNextBackoff ok b <= backoff_top.
Proof.
  change backoff_top with 3780000000000. change defaultBackoff with 1000000000. unfold computeNextBackoff.
  change maximumBackoff with 3600000000000. intros Hb. rewrite (i64_id (2 * b)) by (unfold is_i64; lia).
  set (n := if 3600000000000 <? 2 * b then 3600000000000 else 2 * b).
  assert (n = Z.min (2 * b) 3600000000000) as Hn by (unfold n; destruct (Z.ltb_spec 3600000000000 (2 * b)); lia).
  rewrite <- Hn. clearbody n. destruct ok; [|lia].
  assert (0 <= n ÷ 10 <= 360000000000) as Hm by (split; [apply Z.quot_pos; lia|apply Z.quot_le_upper_bound; lia]).
  assert (2 * ((n ÷ 10) ÷ 2) <= n ÷ 10 <= 2 * ((n ÷ 10) ÷ 2) + 1) as Hh.
  { rewrite (Z.quot_div_nonneg (n ÷ 10)) by lia. Z.div_mod_to_equations. lia. }
  rewrite u64_id, (i64_id (n ÷ 10)) by (unfold is_u64, is_i64; lia). rewrite i64_id by (unfold is_i64; lia).
  destruct (Z.eq_dec n 3600000000000) as [->|Hne]; [change (3600000000000 ÷ 10) with 360000000000 in *; lia|].
  assert (n ÷ 10 <= 359999999999) by (rewrite Z.quot_div_nonneg by lia; Z.div_mod_to_equations; lia). lia.
Qed.

Definition pers_ok (s : server) : Prop := cancels_ok s /\ reqs_ok s /\ backoff_ok s.

Lemma pers_ok_cancelled pub s : pers_ok s -> pers_ok (cancelled pub s).
Proof.
  intros ((H1 & H2 & H3 & H4) & Hr & Hb). unfold cancelled.
  assert (forall s', persistentConnReqs s' = delete pub (persistentConnReqs s) -> sv_reqs s' = sv_reqs s -> reqs_ok s') as Hreqs.
  { intros s' E1 E2 pub' l. rewrite E1, E2. intros [_ Hl]%lookup_delete_Some. by apply Hr. }
  destruct (persistentRetryCancels s !! pub) as [c|] eqn:Ec; (split; [|split; [by apply Hreqs|done]]); [|done].
  destruct (H1 pub c Ec) as [Hc Hlt]. split; [|split; [|split]]; cbn.
  - intros pub' c' [Hne Hl]%lookup_delete_Some. destruct (H1 pub' c' Hl) as [Hc' Hlt']. split; [|done].
    intros [->%elem_of_singleton|?]%elem_of_union; [|done]. by apply Hne, (H2 pub pub' c).
  - intros pub1 pub2 c' [_ ?]%lookup_delete_Some [_ ?]%lookup_delete_Some. by eapply H2.
  - intros c' [->%elem_of_singleton|?]%elem_of_union; [done|by apply H3].
  - intros r Hin. destruct (H4 r Hin) as (q & Hq & Ho). exists q. split; [done|]. destruct Ho as [Ho|Ho]; [left; set_solver|].
    destruct (decide (pub = cr_pub q)) as [->|Hne]; [left; rewrite Ec in Ho; set_solver|right; by rewrite lookup_delete_ne].
Qed.

Lemma pers_ok_new pub addr s :
  pers_ok s -> pers_ok (set_persistentConnReqs
     (<[pub := default [] (persistentConnReqs s !! pub) ++ [length (sv_reqs s)]]> (persistentConnReqs s))
     (set_sv_reqs (sv_reqs s ++ [mkConnReq pub addr 0]) s)).
Proof.
  intros ((H1 & H2 & H3 & H4) & Hr & Hb). split; [|split; [|done]].
  - split; [done|]. split; [done|]. split; [done|]. intros r Hin. destruct (H4 r Hin) as (q & Hq & Ho). exists q.
    split; [by apply lookup_app_l_Some|done].
  - intros pub' l. cbn. rewrite lookup_insert. case_decide as E.
    + subst pub'. intros [= <-]. split; [by destruct (default [] _)|]. intros r [Hin| ->%list_elem_of_singleton]%elem_of_app.
      * destruct (persistentConnReqs s !! pub) as [l|] eqn:El; [|by apply elem_of_nil in Hin].
        destruct (proj2 (Hr pub l El) r Hin) as (q & Hq & ?). exists q. split; [by apply lookup_app_l_Some|done].
      * eexists. by rewrite list_lookup_middle.
    + intros Hl. split; [by apply (Hr _ _ Hl)|]. intros r Hin. destruct (proj2 (Hr pub' l Hl) r Hin) as (q & Hq & ?). exists q.
      split; [by apply lookup_app_l_Some|done].
Qed.

Lemma addConnReq_eq pub addr s :
  addConnReq pub addr s = (Ok (length (sv_reqs s)), set_persistentConnReqs
     (<[pub := default [] (persistentConnReqs s !! pub) ++ [length (sv_reqs s)]]> (persistentConnReqs s))
     (set_sv_reqs (sv_reqs s ++ [mkConnReq pub addr 0]) s)).
Proof. done. Qed.

Lemma pers_ok_backoff pub b s :
  pers_ok s -> defaultBackoff <= b <= backoff_top -> pers_ok (set_persistentPeersBackoff (<[pub := b]> (persistentPeersBackoff s)) s).
Proof.
  intros (Hc & Hr & Hb & Ht) Hrange. split; [done|]. split; [done|]. split; [|done]. intros pub' b'. cbn.
  intros [[_ <-]|[_ ?]]%lookup_insert_Some; [done|]. by eapply Hb.
Qed.

(** A retry is scheduled: for a new request, with the peer's cancel channel. *)
Lemma pers_ok_retry pub r b s q :
  pers_ok s -> defaultBackoff <= b <= backoff_top -> sv_reqs s !! r = Some q -> cr_pub q = pub ->
  exists c s', retryCancel pub s = (Ok c, s') /\ pers_ok (set_sv_retries (sv_retries s' ++ [mkRetry r c b]) s')
    /\ exists rc n, s' = set_persistentRetryCancels rc (set_sv_nextCancel n s).
Proof.
  intros ((H1 & H2 & H3 & H4) & Hr & Hb & Ht) Hrange Hq Hpub. unfold retryCancel.
  destruct (persistentRetryCancels s !! pub) as [c|] eqn:Ec.
  - exists c, s. split; [done|]. split; [|exists (persistentRetryCancels s), (sv_nextCancel s); by destruct s].
    split; [|split; [done|split; [done|]]]; cbn.
    + split; [done|]. split; [done|]. split; [done|]. intros r' [?| ->%list_elem_of_singleton]%elem_of_app; [by apply H4|].
      exists q. cbn. subst pub. by auto.
    + intros r' [?| ->%list_elem_of_singleton]%elem_of_app; [by apply Ht|done].
  - eexists _, _. split; [done|]. split; [|by eexists _, _]. split; [|split; [done|split; [done|]]]; cbn.
    + split; [|split; [|split]]; cbn.
      * intros pub' c. intros [[_ <-]|[_ Hl]]%lookup_insert_Some; [|destruct (H1 pub' c Hl); split; [done|lia]].
        split; [|lia]. intros Hin%H3. lia.
      * intros pub1 pub2 c. rewrite !lookup_insert. repeat case_decide; subst; try done.
        -- intros [= <-] Hl. apply H1 in Hl. lia.
        -- intros Hl [= <-]. apply H1 in Hl. lia.
        -- apply H2.
      * intros c Hc%H3. lia.
      * intros r' [Hin| ->%list_elem_of_singleton]%elem_of_app; cbn.
        -- destruct (H4 r' Hin) as (q' & Hq' & Ho). exists q'. split; [done|]. destruct Ho as [Ho|Ho]; [by left|right].
           rewrite lookup_insert_ne; [done|]. intros E. rewrite E in Ec. congruence.
        -- exists q. split; [done|]. right. by rewrite Hpub, lookup_insert_eq.
    + intros r' [?| ->%list_elem_of_singleton]%elem_of_app; [by apply Ht|done].
Qed.

(** ** The invariant *)

Definition sv_inv (s : server) : Prop := sv_shutdown s = false /\ peers_ok s /\ waiting_ok s /\ pers_ok s.

(** A persistent peer is connected, or a request for it is pending. *)
Definition persist_ok (s : server) : Prop :=
  forall pub, pub ∈ persistentPeers s -> peersByPub s !! pub = None -> is_Some (persistentConnReqs s !! pub).

(** The part of the state that is about persistent peers. *)
Definition pers_same (s s' : server) : Prop :=
  persistentPeers s' = persistentPeers s /\ persistentConnReqs s' = persistentConnReqs s
  /\ persistentPeersBackoff s' = persistentPeersBackoff s.

Lemma inv_log s log : sv_inv s -> sv_inv (set_sv_log log s).
Proof. done. Qed.

Lemma removed_pers p pr s : pers_ok s -> pers_ok (removed p pr s).
Proof. unfold removed. by destruct (p_inbound pr). Qed.

Lemma removed_same p pr s : pers_same s (removed p pr s) /\ sv_shutdown (removed p pr s) = sv_shutdown s.
Proof. unfold removed. by destruct (p_inbound pr). Qed.

Lemma dropPeer_spec pub p s :
  sv_inv s -> peersByPub s !! pub = Some p ->
  exists s', dropPeer p s = (Ok tt, s') /\ sv_inv s' /\ peersByPub s' = delete pub (peersByPub s) /\ pers_same s s'
    /\ sv_identity s' = sv_identity s.
Proof.
  intros (Hs & Hp & Hw & Hr) Hreg. destruct (proj1 Hp pub p Hreg) as (pr & Hl & <- & _).
  destruct (dropPeer_eq p s pr Hl Hs) as [log E]. eexists. split; [exact E|]. split.
  - apply inv_log. split; [unfold dropped; cbn; by rewrite (proj2 (removed_same p pr s))|]. split; [by apply peers_ok_dropped|].
    split; [by apply (waiting_ok_removed p pr) in Hw|by apply (removed_pers p pr) in Hr].
  - unfold dropped, removed. by destruct (p_inbound pr).
Qed.

Lemma cancelConnReqs_spec pub skip s :
  sv_inv s ->
  exists s', cancelConnReqs pub skip s = (Ok tt, s') /\ sv_inv s' /\ peersByPub s' = peersByPub s
    /\ persistentPeers s' = persistentPeers s /\ persistentConnReqs s' = delete pub (persistentConnReqs s)
    /\ persistentPeersBackoff s' = persistentPeersBackoff s /\ sv_identity s' = sv_identity s.
Proof.
  intros (Hs & Hp & Hw & Hr). pose proof Hr as ((H1 & _) & _).
  destruct (cancelConnReqs_eq pub skip s (fun c Hc => proj1 (H1 pub c Hc))) as [log E]. eexists. split; [exact E|].
  pose proof (pers_ok_cancelled pub s Hr) as Hr'. split.
  - apply inv_log. unfold cancelled in *. destruct (persistentRetryCancels s !! pub); by split.
  - unfold cancelled. by destruct (persistentRetryCancels s !! pub).
Qed.

Lemma added_same p pr s : pers_same s (added p pr s) /\ sv_shutdown (added p pr s) = sv_shutdown s.
Proof. unfold added. by destruct (p_inbound pr). Qed.

Lemma added_pers p pr s : pers_ok s -> pers_ok (added p pr s).
Proof. unfold added. by destruct (p_inbound pr). Qed.

Lemma peerConnected_spec g conn r inbound s :
  sv_inv s -> peersByPub s !! cn_RemotePub conn = None ->
  exists s', peerConnected g conn r inbound s = (Ok tt, s') /\ sv_inv s' /\ pers_same s s'
    /\ if cn_starts conn then peersByPub s' = <[cn_RemotePub conn := length (sv_peers s)]> (peersByPub s)
          /\ exists pr, sv_peers s' !! length (sv_peers s) = Some pr /\ p_inbound pr = inbound
       else peersByPub s' = peersByPub s.
Proof.
  intros (Hs & Hp & Hw & Hr) Hfree. destruct (peerConnected_eq g conn r inbound s Hs Hw) as (log & pr & Hpub & Hin & _ & E).
  eexists. split; [exact E|]. pose proof (peers_ok_new pr s Hp) as Hp1. destruct (cn_starts conn).
  - assert (sv_peers (with_new pr s) !! length (sv_peers s) = Some pr) as Hl by (by apply list_lookup_middle).
    pose proof (proj1 (added_same (length (sv_peers s)) pr (with_new pr s))) as Hsame. split; [|split; [done|]].
    + apply inv_log. split; [by rewrite (proj2 (added_same _ _ _))|]. split; [|split; [by apply waiting_ok_added|by apply added_pers]].
      apply peers_ok_added; [done|done|by rewrite Hpub|]. cbn. intros Hin'. destruct Hp as (_ & _ & _ & H4 & _).
      destruct (H4 _ Hin') as (? & Hlt%lookup_lt_Some & _). lia.
    + destruct (added_fields (length (sv_peers s)) pr (with_new pr s)) as (E1 & E2 & _). cbn [peersByPub set_sv_log sv_peers].
      rewrite <- Hpub. split; [exact E1|]. exists pr. split; [|done]. etrans; [|exact Hl]. by rewrite <- E2.
  - split; [|done]. apply inv_log. split; [done|]. split; [by apply peers_ok_new|done].
Qed.

(** A step that keeps the invariant and does not panic; and keeps persistent peers
    covered when [good] holds. *)
Definition no_panic {A} (r : res A) : Prop := forall w, r <> Err (ErrPanic w).
Definition keeps {A} (good : Prop) (m : SV A) (s : server) : Prop :=
  exists r s', m s = (r, s') /\ no_panic r /\ sv_inv s' /\ (good -> persist_ok s -> persist_ok s').

Lemma keeps_log good e s : sv_inv s -> keeps good (sv_event_log e) s.
Proof. intros H. eexists _, _. split; [done|]. split; [done|]. split; [by apply inv_log|done]. Qed.

Lemma keeps_ret {A} good (a : A) s : sv_inv s -> keeps good (mret a) s.
Proof. intros H. exists (Ok a), s. by split. Qed.

Lemma keeps_bind {A B} good (m : SV A) (f : A -> SV B) s :
  keeps good m s -> (forall a s', sv_inv s' -> keeps good (f a) s') -> keeps good (m ≫= f) s.
Proof.
  intros (r & s1 & E & Hn & Hi & Hp) Hf. destruct r as [a|e].
  - destruct (Hf a s1 Hi) as (r & s2 & E2 & Hn2 & Hi2 & Hp2). exists r, s2. unfold mbind, st_bind. rewrite E. split; [exact E2|]. by auto.
  - exists (Err e), s1. unfold mbind, st_bind. rewrite E. split; [done|]. split; [|by auto]. intros w [= ->]. by apply (Hn w).
Qed.

(** Connecting a peer that is not connected, after its requests were cancelled. *)
Lemma keeps_connect g conn r inbound s :
  sv_inv s -> peersByPub s !! cn_RemotePub conn = None -> forall s0,
  (forall pub, pub <> cn_RemotePub conn -> peersByPub s !! pub = peersByPub s0 !! pub
     /\ persistentConnReqs s !! pub = persistentConnReqs s0 !! pub) ->
  persistentPeers s = persistentPeers s0 ->
  exists r' s', peerConnected g conn r inbound s = (r', s') /\ no_panic r' /\ sv_inv s'
    /\ (cn_starts conn = true -> persist_ok s0 -> persist_ok s').
Proof.
  intros H Hfree s0 Hsame Hps. destruct (peerConnected_spec g conn r inbound s H Hfree) as (s' & E & Hi & (Es1 & Es2 & _) & Hb).
  exists (Ok tt), s'. split; [done|]. split; [done|]. split; [done|]. intros Hst Hpo pub Hpub Hnone. rewrite Hst in Hb.
  destruct Hb as [Hb _]. rewrite Hb in Hnone. apply lookup_insert_None in Hnone as [Hn Hne].
  destruct (Hsame pub (not_eq_sym Hne)) as [E1 E2]. rewrite Es2, E2. apply Hpo; [by rewrite <- Hps, <- Es1|by rewrite <- E1].
Qed.

(** ** New connections *)

Lemma keeps_eq {A} good (m : SV A) s r s' :
  m s = (r, s') -> no_panic r -> sv_inv s' -> (good -> persist_ok s -> persist_ok s') -> keeps good m s.
Proof. intros. by exists r, s'. Qed.

Lemma Inbound_keeps g conn s : sv_inv s -> keeps (cn_starts conn = true) (InboundPeerConnected g conn) s.
Proof.
  intros H. pose proof H as (Hs & _). unfold InboundPeerConnected, keeps. unfold mbind at 1, st_bind at 1, st_get at 1. rewrite Hs.
  destruct (inboundPeers s !! cn_RemotePub conn); [by apply keeps_log|]. unfold findPeerByPubStr.
  destruct (peersByPub s !! cn_RemotePub conn) as [p|] eqn:Ep.
  - destruct (negb _); [by apply keeps_log|].
    destruct (dropPeer_spec _ p s H Ep) as (s1 & E1 & H1 & B1 & (P1 & P2 & _) & _).
    destruct (cancelConnReqs_spec (cn_RemotePub conn) None s1 H1) as (s2 & E2 & H2 & B2 & P3 & P4 & _).
    unfold mbind, st_bind. rewrite E1, E2.
    apply keeps_connect; [done|by rewrite B2, B1, lookup_delete_eq| |congruence].
    intros pub Hne. by rewrite B2, B1, P4, P2, !lookup_delete_ne.
  - destruct (cancelConnReqs_spec (cn_RemotePub conn) None s H) as (s2 & E2 & H2 & B2 & P3 & P4 & _).
    unfold mbind, st_bind. rewrite E2. apply keeps_connect; [done|by rewrite B2| |done].
    intros pub Hne. by rewrite B2, P4, lookup_delete_ne.
Qed.

(** Telling the connection manager, and closing the connection. *)
Lemma keeps_refuse good (connReq : option nat) (id : nat -> Z) c s :
  sv_inv s -> keeps good (_ ← (match connReq with Some r => sv_event_log (SRemove (id r)) | None => mret tt end : SV ());
                          sv_event_log (SCloseConn c)) s.
Proof. intros H. apply keeps_bind; [destruct connReq; [by apply keeps_log|by apply keeps_ret]|]. intros _ s' H'. by apply keeps_log. Qed.

Lemma Outbound_keeps g connReq conn s : sv_inv s -> keeps (cn_starts conn = true) (OutboundPeerConnected g connReq conn) s.
Proof.
  intros H. pose proof H as (Hs & _). unfold OutboundPeerConnected, keeps. unfold mbind at 1, st_bind at 1, st_get at 1. rewrite Hs.
  destruct (outboundPeers s !! cn_RemotePub conn); [by apply (keeps_refuse _ connReq (req_ID s))|].
  destruct (_ && _); [by apply (keeps_refuse _ connReq (req_ID s))|].
  destruct (cancelConnReqs_spec (cn_RemotePub conn) (req_ID s <$> connReq) s H) as (s1 & E1 & H1 & B1 & P1 & P2 & _).
  unfold mbind at 1, st_bind at 1. rewrite E1. unfold findPeerByPubStr.
  destruct (peersByPub s !! cn_RemotePub conn) as [p|] eqn:Ep.
  - destruct (shouldDropLocalConnection _ _).
    + destruct (keeps_refuse True connReq (req_ID s) (cn_id conn) s1 H1) as (r & s2 & E2 & Hn & H2 & Hp2).
      exists r, s2. split; [exact E2|]. split; [done|]. split; [done|]. intros _ Hpo. apply Hp2; [done|].
      intros pub Hpub Hnone. rewrite P2. rewrite P1 in Hpub. rewrite B1 in Hnone. rewrite lookup_delete_ne by congruence. by apply Hpo.
    + destruct (dropPeer_spec (cn_RemotePub conn) p s1 H1) as (s2 & E2 & H2 & B2 & (P3 & P4 & _) & _); [by rewrite B1|].
      unfold mbind, st_bind. rewrite E2. apply keeps_connect; [done|by rewrite B2, lookup_delete_eq| |congruence].
      intros pub Hne. by rewrite B2, B1, P4, P2, !lookup_delete_ne.
  - apply keeps_connect; [done|by rewrite B1| |done]. intros pub Hne. by rewrite B1, P2, lookup_delete_ne.
Qed.

Lemma Disconnect_keeps pub s : sv_inv s -> keeps True (DisconnectPeer pub) s.
Proof.
  intros H. unfold DisconnectPeer, keeps. unfold mbind at 1, st_bind at 1, st_get at 1. unfold findPeerByPubStr.
  destruct (peersByPub s !! pub) as [p|] eqn:Ep; [|exists (Err (ErrNew "unable to find peer")), s; by split].
  destruct (cancelConnReqs_spec pub None s H) as (s1 & E1 & H1 & B1 & P1 & P2 & P3 & _).
  unfold mbind at 1, st_bind at 1. rewrite E1.
  set (s2 := set_persistentPeersBackoff (delete pub (persistentPeersBackoff s1)) (set_persistentPeers (persistentPeers s1 ∖ {[pub]}) s1)).
  assert (sv_inv s2) as H2.
  { destruct H1 as (Hs & Hp & Hw & Hc & Hr & Hb & Ht). split; [done|]. split; [done|]. split; [done|]. split; [done|]. split; [done|].
    split; [|done]. intros pub' b Hl. cbn in Hl. apply lookup_delete_Some in Hl as [_ Hl]. by eapply Hb. }
  destruct (dropPeer_spec pub p s2 H2) as (s3 & E3 & H3 & B3 & (P4 & P5 & _) & _); [cbn; by rewrite B1|].
  exists (Ok tt), s3. split; [exact E3|]. split; [done|]. split; [done|]. intros _ Hpo pub' Hin Hnone.
  rewrite P4 in Hin. cbn in Hin. rewrite P5. cbn. rewrite P2, lookup_delete_ne by set_solver.
  apply Hpo; [rewrite <- P1; set_solver|]. rewrite B3 in Hnone. cbn in Hnone. rewrite B1, lookup_delete_ne in Hnone by set_solver. done.
Qed.

(** ** Persistent peers *)

Lemma persist_inv pub s : sv_inv s -> sv_inv (persist pub s).2.
Proof.
  intros (Hs & Hp & Hw & Hr). unfold persist, st_upd. cbn [snd]. destruct (persistentPeersBackoff s !! pub); [done|].
  split; [done|]. split; [done|]. split; [done|].
  apply (pers_ok_backoff pub defaultBackoff (set_persistentPeers ({[pub]} ∪ persistentPeers s) s) Hr).
  by split; vm_compute.
Qed.

Lemma persist_fields pub s :
  (persist pub s).1 = Ok tt /\ persistentPeers (persist pub s).2 = {[pub]} ∪ persistentPeers s
  /\ peersByPub (persist pub s).2 = peersByPub s /\ persistentConnReqs (persist pub s).2 = persistentConnReqs s.
Proof. unfold persist, st_upd. cbn. by destruct (persistentPeersBackoff s !! pub). Qed.

Lemma addConnReq_inv pub addr s : sv_inv s -> sv_inv (addConnReq pub addr s).2.
Proof. intros (Hs & Hp & Hw & Hr). rewrite addConnReq_eq. split; [done|]. split; [done|]. split; [done|]. by apply pers_ok_new. Qed.

Lemma st_bind_ok {A B} (m : SV A) (f : A -> SV B) s a s' : m s = (Ok a, s') -> (m ≫= f) s = f a s'.
Proof. unfold mbind, st_bind. by intros ->. Qed.

(** Requests are only added. *)
Definition more_reqs (s s' : server) : Prop :=
  persistentPeers s' = persistentPeers s /\ peersByPub s' = peersByPub s
  /\ forall pub, is_Some (persistentConnReqs s !! pub) -> is_Some (persistentConnReqs s' !! pub).

Lemma requests_spec pub addrs s :
  sv_inv s ->
  exists s', st_iter (fun address => connReq ← addConnReq pub address; sv_event_log (SConnect connReq)) addrs s = (Ok tt, s')
    /\ sv_inv s' /\ more_reqs s s' /\ (addrs <> [] -> is_Some (persistentConnReqs s' !! pub)).
Proof.
  revert s. induction addrs as [|a addrs IH]; intros s H; [exists s; split; [done|]; split; [done|]; by split|].
  cbn [st_iter]. unfold mbind, st_bind. rewrite addConnReq_eq. unfold sv_event_log, st_upd.
  destruct (IH _ (inv_log _ (sv_log s ++ [SConnect (length (sv_reqs s))]) (addConnReq_inv pub a s H))) as (s' & E & Hi & (M1 & M2 & M3) & _).
  rewrite addConnReq_eq in E, M1, M2, M3. cbn [snd] in E, M1, M2, M3. exists s'. split; [exact E|]. split; [done|].
  assert (is_Some (persistentConnReqs s' !! pub)) as Hpub by (apply M3; cbn; by rewrite lookup_insert_eq).
  split; [|done]. split; [done|]. split; [done|]. intros pub' Hs. apply M3. cbn. rewrite lookup_insert. case_decide; [by eexists|done].
Qed.

Lemma establish_all nodes s :
  sv_inv s ->
  exists s', st_iter (fun n : bytes * list Addr => _ ← persist n.1;
      st_iter (fun address => connReq ← addConnReq n.1 address; sv_event_log (SConnect connReq)) n.2) nodes s = (Ok tt, s')
    /\ sv_inv s' /\ (Forall (fun n => n.2 <> []) nodes -> persist_ok s -> persist_ok s').
Proof.
  revert s. induction nodes as [|[pub addrs] nodes IH]; intros s H; [by exists s|].
  pose proof (persist_inv pub s H) as H1. destruct (persist_fields pub s) as (E0 & F1 & F2 & F3).
  destruct (requests_spec pub addrs _ H1) as (s2 & E2 & H2 & (M1 & M2 & M3) & Hne).
  destruct (IH s2 H2) as (s' & E & Hi & Hp). exists s'. split; [|split; [done|]].
  - cbn [st_iter fst snd]. rewrite (st_bind_ok _ _ s tt s2); [exact E|].
    rewrite (st_bind_ok _ _ s tt (persist pub s).2); [exact E2|by apply run_eq].
  - intros [Hn Hf]%Forall_cons Hpo. apply Hp; [done|]. intros pub' Hin Hnone. rewrite M1, F1 in Hin. rewrite M2, F2 in Hnone.
    destruct (decide (pub' = pub)) as [->|Hd]; [by apply Hne|]. apply M3. rewrite F3. apply Hpo; [set_solver|done].
Qed.

Lemma Establish_keeps nodes source policies s :
  sv_inv s -> no_panic (nodeAddrsMap nodes source policies) ->
  keeps (forall m pub, nodeAddrsMap nodes source policies = Ok m -> m !! pub <> Some [])
    (establishPersistentConnections nodes source policies) s.
Proof.
  intros H Hn. unfold establishPersistentConnections, keeps. unfold mbind at 1, st_bind at 1, st_res at 1.
  destruct (nodeAddrsMap nodes source policies) as [m|e] eqn:Em.
  - destruct (establish_all (map_to_list m) s H) as (s' & E & Hi & Hp). exists (Ok tt), s'. split; [exact E|]. split; [done|].
    split; [done|]. intros Hg Hpo. apply Hp; [|done]. apply Forall_forall. intros [pub addrs] Hin%elem_of_map_to_list Hnil.
    cbn in Hnil. subst addrs. by apply (Hg m pub).
  - exists (Err e), s. split; [done|]. split; [|done]. intros w [= ->]. by apply (Hn w).
Qed.

Lemma Connect_keeps pub addr perm s : sv_inv s -> keeps True (ConnectToPeer pub addr perm) s.
Proof.
  intros H. unfold ConnectToPeer, keeps. unfold mbind at 1, st_bind at 1, st_get at 1. unfold findPeerByPubStr.
  destruct (peersByPub s !! pub) eqn:Ep; [exists (Err (ErrNew "already connected to peer")), s; by split|].
  destruct perm; [|by apply keeps_ret].
  pose proof (persist_inv pub s H) as H1. destruct (persist_fields pub s) as (E0 & F1 & F2 & F3).
  unfold mbind at 1, st_bind at 1. destruct (persist pub s) as [r s1]. cbn in E0, H1, F1, F2, F3. subst r.
  unfold mbind, st_bind. rewrite addConnReq_eq. eexists _, _. split; [done|]. split; [done|].
  split; [apply inv_log; exact (addConnReq_inv pub addr s1 H1)|]. intros _ Hpo pub' Hin Hnone. cbn in Hin, Hnone |- *.
  rewrite lookup_insert. case_decide as Hd; [by eexists|]. rewrite F3. rewrite F1 in Hin. rewrite F2 in Hnone. apply Hpo; [set_solver|done].
Qed.

(** ** A peer terminates *)

Lemma nextPeerBackoff_range ok pub s : pers_ok s -> defaultBackoff <= nextPeerBackoff ok pub s <= backoff_top.
Proof.
  intros (_ & _ & Hb & _). unfold nextPeerBackoff. destruct (persistentPeersBackoff s !! pub) as [b|] eqn:E.
  - pose proof (Hb pub b E) as Hr. pose proof (computeNextBackoff_bounds ok b Hr). revert Hr H.
    change backoff_top with 3780000000000. change defaultBackoff with 1000000000. change maximumBackoff with 3600000000000. lia.
  - by split; vm_compute.
Qed.

(** The request, the backoff and the goroutine of a reconnection. *)
Lemma reconnect_spec ok pub addr s0 s :
  sv_inv s -> pers_same s0 s -> persistentConnReqs s !! pub = None ->
  exists s', (connReq ← addConnReq pub addr;
              let backoff := nextPeerBackoff ok pub s0 in
              _ ← st_upd (fun s => set_persistentPeersBackoff (<[pub := backoff]> (persistentPeersBackoff s)) s);
              cancelChan ← retryCancel pub;
              st_upd (fun s => set_sv_retries (sv_retries s ++ [mkRetry connReq cancelChan backoff]) s) : SV ()) s = (Ok tt, s')
    /\ sv_inv s' /\ more_reqs s s' /\ is_Some (persistentConnReqs s' !! pub).
Proof.
  intros H (_ & _ & Pb) Hfree. pose proof H as (_ & _ & _ & Hr). destruct (addConnReq_inv pub addr s H) as (Hs & Hp & Hw & Hr1).
  assert (nextPeerBackoff ok pub s0 = nextPeerBackoff ok pub s) as -> by (unfold nextPeerBackoff; by rewrite Pb).
  pose proof (nextPeerBackoff_range ok pub s Hr) as Hb. rewrite addConnReq_eq in Hs, Hp, Hw, Hr1. cbn [snd] in Hs, Hp, Hw, Hr1.
  pose proof (pers_ok_backoff pub _ _ Hr1 Hb) as Hr2.
  destruct (pers_ok_retry pub (length (sv_reqs s)) (nextPeerBackoff ok pub s) _ (mkConnReq pub addr 0) Hr2 Hb) as (c & s' & E & Hr3 & rc & n & Es);
    [cbn; by apply list_lookup_middle|done|].
  eexists. split; [unfold mbind, st_bind; rewrite addConnReq_eq; unfold st_upd at 1; rewrite E; done|].
  subst s'. split; [exact (conj Hs (conj Hp (conj Hw Hr3)))|]. split; [|cbn; by rewrite lookup_insert_eq].
  split; [done|]. split; [done|]. intros pub' Hs'. cbn. rewrite lookup_insert. case_decide; [by eexists|done].
Qed.

Lemma Terminated_keeps ok p s :
  sv_inv s -> p ∈ sv_watchers s -> keeps True (peerTerminationWatcher ok p) s.
Proof.
  intros (Hs & Hp & Hw & Hr) Hin. destruct (proj1 (proj2 (proj2 (proj2 Hp))) p Hin) as (pr & Hl & _).
  unfold keeps, peerTerminationWatcher. unfold mbind at 1, st_bind at 1, st_upd at 1. unfold with_peer. cbn [sv_peers set_sv_watchers].
  rewrite Hl. unfold mbind at 1, st_bind at 1, st_get at 1. cbn [sv_shutdown set_sv_watchers]. rewrite Hs.
  unfold mbind at 1, st_bind at 1, sv_event_log at 1, st_upd at 1. unfold mbind at 1, st_bind at 1, sv_event_log at 1, st_upd at 1.
  cbn [ignorePeerTermination set_sv_watchers]. case_decide as Hg.
  - eexists (Ok tt), _. split; [done|]. split; [done|]. split; [|done].
    exact (conj Hs (conj (peers_ok_ignored p s Hp Hg) (conj Hw Hr))).
  - destruct (peers_ok_terminated p pr s Hp Hl Hin Hg) as [Hreg Hp1].
    match goal with |- context [mbind _ _ ?s0] => set (s1 := s0) end.
    destruct (removePeer_eq p s1 pr Hl Hs) as [log E]. unfold mbind at 1, st_bind at 1. rewrite E.
    set (s2 := set_sv_log log (removed p pr s1)).
    assert (sv_inv s2) as H2.
    { split; [unfold s2, removed; by destruct (p_inbound pr)|].
      assert (s2 = set_sv_log log (removed p pr (unwatched p s))) as -> by (unfold s2, s1, removed, unwatched; by destruct (p_inbound pr)).
      split; [exact Hp1|]. split; [by apply (waiting_ok_removed p pr (unwatched p s))|by apply (removed_pers p pr (unwatched p s))]. }
    assert (pers_same s s2 /\ peersByPub s2 = delete (p_pub pr) (peersByPub s)) as [Ps B2] by (unfold s2, s1, removed; by destruct (p_inbound pr)).
    pose proof Ps as (Ps1 & Ps2 & _).
    assert (forall s', more_reqs s2 s' -> (p_pub pr ∈ persistentPeers s -> is_Some (persistentConnReqs s' !! p_pub pr)) ->
              persist_ok s -> persist_ok s') as Hfin.
    { intros s' (M1 & M2 & M3) Hself Hpo pub Hpub Hnone. rewrite M1, Ps1 in Hpub. rewrite M2, B2 in Hnone.
      destruct (decide (pub = p_pub pr)) as [->|Hne]; [by apply Hself|]. apply M3. rewrite Ps2. apply Hpo; [done|].
      by rewrite lookup_delete_ne in Hnone. }
    cbn [persistentPeers persistentConnReqs set_sv_watchers]. case_decide as Hpers.
    2: { exists (Ok tt), s2. split; [done|]. split; [done|]. split; [done|]. intros _. by apply Hfin. }
    destruct (persistentConnReqs s !! p_pub pr) as [l|] eqn:El.
    + exists (Ok tt), s2. split; [done|]. split; [done|]. split; [done|]. intros _. apply Hfin; [done|]. intros _. by rewrite Ps2, El.
    + destruct (reconnect_spec ok (p_pub pr) (p_addr pr) s s2 H2 Ps) as (s' & E' & H' & Hm & Hsome); [by rewrite Ps2|].
      exists (Ok tt), s'. split; [exact E'|]. split; [done|]. split; [done|]. intros _. by apply Hfin.
Qed.
End ServerInv.
