(* ===== verification/ServerProps.v ===== *)
(** * The connections are kept in order

    Over every sequence of inputs the server does not panic, has one connection per
    peer, tells those who wait for a peer, keeps a request pending for every persistent
    peer that is offline, and backs off within bounds; stopping ends all peers. *)

From Stdlib Require Import ZArith Lia.
From Stdlib Require Import Init.Byte.
From stdpp Require Import base gmap strings numbers list.
From S2P Require Import Prelude Effects Server ServerSafe ServerInv.
Local Open Scope Z_scope.

Section ServerProps.
Implicit Types (s : server) (pub : bytes) (p : nat).

(** ** Every input keeps the invariant *)

Lemma peers_ok_disc p pr s : peers_ok s -> sv_peers s !! p = Some pr -> peers_ok (set_sv_peers (<[p := disc pr]> (sv_peers s)) s).
Proof.
  intros (H1 & H2 & H3 & H4 & H5) Hp. split; [|split; [|split; [done|split]]]; cbn.
  - intros pub q Hq. destruct (H1 pub q Hq) as (qr & Hl & Hpub & Hs & ?). destruct (disc_lookup p pr s q qr Hp Hl) as (qr' & Hl' & E1 & E2 & _).
    exists qr'. split; [done|]. split; [congruence|]. split; [by rewrite E2|done].
  - intros b pub q Hq. destruct (H2 b pub q Hq) as (? & qr & Hl & <-). split; [done|].
    destruct (disc_lookup p pr s q qr Hp Hl) as (qr' & Hl' & E1 & E2 & _). by exists qr'.
  - intros q Hq. destruct (H4 q Hq) as (qr & Hl & Ho). destruct (disc_lookup p pr s q qr Hp Hl) as (qr' & Hl' & E1 & E2 & _).
    exists qr'. split; [done|]. by rewrite E1.
  - intros q Hq. destruct (H5 q Hq) as (? & qr & Hl & Hd). split; [done|].
    destruct (disc_lookup p pr s q qr Hp Hl) as (qr' & Hl' & _ & _ & Hd'). exists qr'. by auto.
Qed.

Lemma Quits_keeps p s : sv_inv s -> (p < length (sv_peers s))%nat -> keeps True (Disconnect p) s.
Proof.
  intros (Hs & Hp & Hw & Hr) Hlt. apply lookup_lt_is_Some in Hlt as [pr Hl]. destruct (Disconnect_eq p s pr Hl) as [log E].
  eapply keeps_eq; [exact E|done| |done]. apply inv_log. split; [done|]. split; [by apply peers_ok_disc|done].
Qed.

Lemma inv_retries s l : sv_inv s -> (forall r, r ∈ l -> r ∈ sv_retries s) -> sv_inv (set_sv_retries l s).
Proof.
  intros (Hs & Hp & Hw & (H1 & H2 & H3 & H4) & Hr & Hb & Ht) Hl. split; [done|]. split; [done|]. split; [done|].
  split; [|split; [done|split; [done|]]]; [|intros r Hin; apply Ht, Hl, Hin].
  split; [done|]. split; [done|]. split; [done|]. intros r Hin. apply H4, Hl, Hin.
Qed.

Lemma Retry_keeps i s : sv_inv s -> keeps True (retry_connect i) s /\ keeps True (retry_cancelled i) s.
Proof.
  intros H. assert (sv_inv (set_sv_retries (delete i (sv_retries s)) s)) as H'.
  { apply inv_retries; [done|]. intros r. apply elem_of_delete. }
  unfold retry_connect, retry_cancelled, keeps. destruct (sv_retries s !! i); [|split; by eexists _, _].
  split; [by eexists _, _|]. case_decide; by eexists _, _.
Qed.

Lemma Assign_keeps r id s : sv_inv s -> keeps True (assign r id) s.
Proof.
  intros H. unfold assign, keeps. destruct (sv_reqs s !! r) as [c|] eqn:El; [|by eexists _, _].
  destruct (_ =? _); [|by eexists _, _]. eexists _, _. split; [done|]. split; [done|]. split; [|done].
  destruct H as (Hs & Hp & Hw & (H1 & H2 & H3 & H4) & Hr & Hb).
  assert (forall q cq, sv_reqs s !! q = Some cq -> exists cq', <[r := mkConnReq (cr_pub c) (cr_Addr c) id]> (sv_reqs s) !! q = Some cq'
            /\ cr_pub cq' = cr_pub cq) as Hlook.
  { intros q cq Hq. destruct (decide (r = q)) as [<-|Hne].
    - rewrite list_lookup_insert_eq by (by eapply lookup_lt_Some). eexists. split; [done|]. by simplify_eq.
    - rewrite list_lookup_insert_ne by done. by exists cq. }
  split; [done|]. split; [done|]. split; [done|]. split; [|split; [|done]].
  - split; [done|]. split; [done|]. split; [done|]. intros rt Hin. destruct (H4 rt Hin) as (q & Hq & Ho).
    destruct (Hlook _ q Hq) as (q' & Hq' & E). exists q'. cbn. split; [done|]. by rewrite E.
  - intros pub l Hl. destruct (Hr pub l Hl) as [Hne Hin]. split; [done|]. intros q Hq. destruct (Hin q Hq) as (cq & Hcq & Hpub).
    destruct (Hlook _ cq Hcq) as (q' & Hq' & E). exists q'. split; [done|]. congruence.
Qed.

Lemma queue_keeps {A} (f : A -> SV ()) l s :
  sv_inv s -> (forall a s, exists log, f a s = (Ok tt, set_sv_log log s)) -> keeps True (st_iter f l) s.
Proof. intros H Hf. destruct (log_iter f l s Hf) as [log E]. eapply keeps_eq; [exact E|done|by apply inv_log|done]. Qed.

Lemma sendPeerMessages_log p msgs s : exists log, sendPeerMessages p msgs s = (Ok tt, set_sv_log log s).
Proof. apply log_iter. intros m s'. by eexists. Qed.

(** What persistent peers need of the inputs: a connection's peer can be started, and at
    start-up every node has an address. *)
Definition good_input (i : sv_input) : Prop :=
  match i with
  | IInbound conn | IOutbound _ conn => cn_starts conn = true
  | IEstablish nodes source policies => forall m pub, nodeAddrsMap nodes source policies = Ok m -> m !! pub <> Some []
  | _ => True
  end.

Lemma handle_keeps g i s : sv_inv s -> input_ok i -> keeps (good_input i) (handle g i) s.
Proof.
  intros H Hok. destruct i; cbn [handle good_input].
  - apply Establish_keeps; [done|]. intros w E. cbn in Hok. by rewrite E in Hok.
  - by apply Inbound_keeps.
  - by apply Outbound_keeps.
  - apply keeps_bind; [by apply Connect_keeps|]. intros _ s' H'. by apply keeps_ret.
  - by apply Disconnect_keeps.
  - unfold keeps. case_decide; [by apply Quits_keeps|by eexists _, _].
  - unfold keeps. case_decide as Hw; [|by eexists _, _]. destruct (sv_peers s !! p) as [pr|]; [|by eexists _, _].
    destruct (p_disconnect pr); [by apply Terminated_keeps|by eexists _, _].
  - by apply Retry_keeps.
  - by apply Retry_keeps.
  - by apply Assign_keeps.
  - destruct H as (Hs & Hp & Hw & Hr). destruct (NotifyWhenOnline_spec pub s Hw) as (r & s' & E & Hw' & ls & l & ->).
    eapply keeps_eq; [unfold mbind, st_bind; rewrite E; done|done| |done]. exact (conj Hs (conj Hp (conj Hw' Hr))).
  - apply queue_keeps; [done|]. intros q s'. case_decide; [exists (sv_log s'); by destruct s'|apply sendPeerMessages_log].
  - unfold keeps, sendToPeer. unfold mbind at 1 2, st_bind at 1 2, st_get at 1. unfold findPeerByPubStr.
    destruct (peersByPub s !! target) as [p|]; [|by eexists _, _]. destruct (sendPeerMessages_log p msgs s) as [log E].
    eexists _, _. unfold mbind, st_bind. rewrite E. split; [done|]. split; [done|]. by split; [apply inv_log|].
Qed.

(** ** Reachable states *)

Lemma newServer_inv identity : sv_inv (newServer identity).
Proof.
  split; [done|]. split; [|split].
  - split; [intros pub p; cbn; by rewrite lookup_empty|]. split; [intros [] pub p; cbn; by rewrite lookup_empty|].
    split; [constructor|]. split; [intros p Hin; by apply elem_of_nil in Hin|intros p Hin; by apply elem_of_empty in Hin].
  - split; [intros pub l; cbn; by rewrite lookup_empty|]. intros i pub. cbn. by rewrite lookup_nil.
  - split; [|split; [|split]].
    + split; [intros pub c; cbn; by rewrite lookup_empty|]. split; [intros pub pub' c; cbn; by rewrite lookup_empty|].
      split; [intros c Hin; by apply elem_of_empty in Hin|intros r Hin; by apply elem_of_nil in Hin].
    + intros pub l. cbn. by rewrite lookup_empty.
    + intros pub b'. cbn. by rewrite lookup_empty.
    + intros r Hin. by apply elem_of_nil in Hin.
Qed.

Lemma reach_inv g identity allowed s : sv_reach g identity allowed s -> sv_inv s.
Proof.
  induction 1 as [|s i r s' _ IH Hok _ Hh]; [apply newServer_inv|].
  destruct (handle_keeps g i s IH Hok) as (r' & s1 & E & _ & Hi & _). congruence.
Qed.

(** C20: in every state the server can reach, each connected peer is filed under its key in
    exactly one of the two maps of directions, has exactly one watcher and is not marked to
    be ignored; every watcher belongs to a connected peer or to one that was dropped on
    purpose, never both; and no input makes the server panic (closing a channel twice or
    following a missing peer). *)
Theorem connections_safe g identity allowed s :
  sv_reach g identity allowed s ->
  (forall pub p, peersByPub s !! pub = Some p -> exists pr, sv_peers s !! p = Some pr /\ p_pub pr = pub
     /\ side (p_inbound pr) s !! pub = Some p /\ side (negb (p_inbound pr)) s !! pub = None
     /\ (p ∈ sv_watchers s) /\ (p ∉ ignorePeerTermination s))
  /\ NoDup (sv_watchers s)
  /\ (forall p, p ∈ sv_watchers s -> exists pr, sv_peers s !! p = Some pr
       /\ (((p ∈ ignorePeerTermination s) /\ p_disconnect pr = true /\ peersByPub s !! p_pub pr <> Some p)
            \/ ((p ∉ ignorePeerTermination s) /\ peersByPub s !! p_pub pr = Some p)))
  /\ forall i, input_ok i -> no_panic (handle g i s).1.
Proof.
  intros Hreach. pose proof (reach_inv g identity allowed s Hreach) as H. pose proof H as (_ & (H1 & H2 & H3 & H4 & H5) & _).
  split; [|split; [done|split]].
  - intros pub p Hp. destruct (H1 pub p Hp) as (pr & Hl & Hpub & Hs & Hw & Hg). exists pr. do 3 (split; [done|]). split; [|done].
    destruct (side (negb (p_inbound pr)) s !! pub) as [q|] eqn:E; [|done]. destruct (H2 _ _ _ E) as (Hq & qr & Hlq & Hin).
    assert (q = p) as -> by congruence. assert (qr = pr) as -> by congruence. by destruct (p_inbound pr).
  - intros p Hw. destruct (H4 p Hw) as (pr & Hl & Ho). exists pr. split; [done|]. destruct (decide (p ∈ ignorePeerTermination s)) as [Hg|Hg].
    + left. split; [done|]. destruct (H5 p Hg) as (_ & pr' & Hl' & Hd). split; [congruence|]. intros Hp.
      by destruct (H1 _ _ Hp) as (_ & _ & _ & _ & _ & ?).
    + right. split; [done|]. by destruct Ho.
  - intros i Hok. destruct (handle_keeps g i s H Hok) as (r & s' & -> & Hn & _). done.
Qed.

(** Whoever waits for a peer to come online is told as soon as it is connected: in
    every reachable state a channel that was handed in for a connected peer is closed, and
    one that is still open is on the list of its peer exactly once. *)
Theorem online_notified g identity allowed s i pub closed :
  sv_reach g identity allowed s -> sv_listeners s !! i = Some (mkListener pub closed) ->
  (is_Some (peersByPub s !! pub) -> closed = true)
  /\ (closed = false -> exists l, peerConnectedListeners s !! pub = Some l /\ i ∈ l /\ NoDup l).
Proof.
  intros Hreach Hl. destruct (reach_inv g identity allowed s Hreach) as (_ & _ & (H1 & H2) & _). destruct closed; [by split|].
  pose proof (H2 i pub Hl) as Hin. destruct (peerConnectedListeners s !! pub) as [l|] eqn:E; [|by apply elem_of_nil in Hin].
  destruct (H1 pub l E) as (Hnd & _ & Hnone). rewrite Hnone. split; [by intros []|]. intros _. by exists l.
Qed.

(** As long as the peers of new connections can be started (and at start-up every
    node has an address), a persistent peer that is not connected always has a pending
    connection request, for that peer. *)
Theorem persistent_pending g identity s pub :
  sv_reach g identity good_input s -> pub ∈ persistentPeers s -> peersByPub s !! pub = None ->
  exists r l q, persistentConnReqs s !! pub = Some (r :: l) /\ sv_reqs s !! r = Some q /\ cr_pub q = pub.
Proof.
  intros Hreach. assert (persist_ok s) as Hpo.
  { induction Hreach as [|s i r s' Hreach IH Hok Hg Hh]; [intros pub' Hin; by apply elem_of_empty in Hin|].
    destruct (handle_keeps g i s (reach_inv _ _ _ _ Hreach) Hok) as (r' & s1 & E & _ & _ & Hp). simplify_eq. rewrite Hh in E.
    injection E as <- <-. by apply Hp. }
  intros Hin Hnone. destruct (Hpo pub Hin Hnone) as [l Hl].
  destruct (reach_inv _ _ _ _ Hreach) as (_ & _ & _ & _ & Hr & _). destruct (Hr pub l Hl) as [Hne Hreq].
  destruct l as [|r l]; [done|]. destruct (Hreq r) as (q & Hq & Hpub); [by left|]. by exists r, l, q.
Qed.

(** Every backoff of a persistent peer and of a scheduled retry lies between a second
    and 63 minutes, and the next one is at least twice as long until it reaches an hour. *)
Theorem backoff_bounds g identity allowed s :
  sv_reach g identity allowed s ->
  (forall pub b, persistentPeersBackoff s !! pub = Some b -> defaultBackoff <= b <= backoff_top
     /\ forall ok, Z.min (2 * b) maximumBackoff <= nextPeerBackoff ok pub s <= backoff_top)
  /\ (forall r, r ∈ sv_retries s -> defaultBackoff <= rt_backoff r <= backoff_top).
Proof.
  intros Hreach. destruct (reach_inv g identity allowed s Hreach) as (_ & _ & _ & _ & _ & Hb & Ht). split; [|done].
  intros pub b E. pose proof (Hb pub b E) as Hr. split; [done|]. intros ok. unfold nextPeerBackoff. rewrite E.
  by apply computeNextBackoff_bounds.
Qed.

(** ** Two connections at a time *)

(** Of two nodes that ask, exactly one drops its own connection. *)
Lemma tie_break_agrees a b : a <> b -> shouldDropLocalConnection a b = negb (shouldDropLocalConnection b a).
Proof.
  intros Hne. unfold shouldDropLocalConnection. rewrite (bytes_compare_antisym b a). destruct (bytes_compare b a) eqn:E; try done.
  by apply bytes_compare_eq in E.
Qed.

(** A connection in the other direction than the one the server has with a peer is
    closed and changes nothing, whichever key is the greater: peers of dialled connections
    are filed as inbound and those of accepted ones as outbound, so the duplicate check
    comes before the tie break. *)
Theorem other_direction_refused g identity allowed s conn connReq p pr :
  sv_reach g identity allowed s -> peersByPub s !! cn_RemotePub conn = Some p -> sv_peers s !! p = Some pr ->
  exists log, (if p_inbound pr then InboundPeerConnected g conn else OutboundPeerConnected g connReq conn) s
                = (Ok tt, set_sv_log (log ++ [SCloseConn (cn_id conn)]) s).
Proof.
  intros Hreach Hp Hl. destruct (reach_inv g identity allowed s Hreach) as (Hs & (H1 & _) & _).
  destruct (H1 _ p Hp) as (pr' & Hl' & _ & Hside & _). simplify_eq. unfold side in Hside. destruct (p_inbound pr).
  - exists (sv_log s). unfold InboundPeerConnected. unfold mbind, st_bind, st_get. by rewrite Hs, Hside.
  - unfold OutboundPeerConnected. unfold mbind at 1, st_bind at 1, st_get at 1. rewrite Hs, Hside.
    destruct connReq as [r|]; [by exists (sv_log s ++ [SRemove (req_ID s r)])|by exists (sv_log s)].
Qed.

(** A dialled connection is filed as inbound and an accepted one as outbound. *)
Lemma directions_swapped g identity allowed s conn s' :
  sv_reach g identity allowed s -> cn_starts conn = true -> peersByPub s !! cn_RemotePub conn = None ->
  (InboundPeerConnected g conn s = (Ok tt, s') -> is_Some (outboundPeers s' !! cn_RemotePub conn))
  /\ (OutboundPeerConnected g None conn s = (Ok tt, s') -> is_Some (inboundPeers s' !! cn_RemotePub conn)).
Proof.
  intros Hreach Hst Hfree. pose proof (reach_inv g identity allowed s Hreach) as H. pose proof H as (Hs & (_ & H2 & _) & _).
  assert (forall b, side b s !! cn_RemotePub conn = None) as Hno.
  { intros b. destruct (side b s !! cn_RemotePub conn) as [q|] eqn:E; [|done]. apply H2 in E as [E _]. congruence. }
  destruct (cancelConnReqs_spec (cn_RemotePub conn) None s H) as (s1 & E1 & H1 & B1 & _).
  assert (forall inbound s2, peerConnected g conn None inbound s1 = (Ok tt, s2) -> is_Some (side inbound s2 !! cn_RemotePub conn)) as Hconn.
  { intros inbound s2 E2. destruct (peerConnected_spec g conn None inbound s1 H1) as (s3 & E3 & (_ & (H4 & _) & _) & _ & Hb); [by rewrite B1|].
    rewrite E2 in E3. injection E3 as <-. rewrite Hst in Hb. destruct Hb as (Hb & pr & Hl & Hin).
    destruct (H4 (cn_RemotePub conn) (length (sv_peers s1))) as (pr' & Hl' & _ & Hside & _); [by rewrite Hb, lookup_insert_eq|].
    assert (pr' = pr) as -> by congruence. rewrite Hin in Hside. by eexists. }
  unfold InboundPeerConnected, OutboundPeerConnected, findPeerByPubStr. unfold mbind, st_bind, st_get. rewrite Hs, Hfree.
  rewrite (Hno true : inboundPeers s !! _ = None), (Hno false : outboundPeers s !! _ = None).
  rewrite (bool_decide_eq_false_2 (None <> None)) by naive_solver. change (req_ID s <$> None) with (@None Z).
  rewrite andb_false_r, E1. split; [apply (Hconn false)|apply (Hconn true)].
Qed.

(** ** Stopping *)

(** The peers of [s] are still there in [s'], and those that were disconnected still are. *)
Definition peers_grow (s s' : server) : Prop :=
  forall q qr, sv_peers s !! q = Some qr -> exists qr', sv_peers s' !! q = Some qr' /\ p_pub qr' = p_pub qr
    /\ (p_disconnect qr = true -> p_disconnect qr' = true).

#[local] Instance peers_grow_preorder : PreOrder peers_grow.
Proof.
  split; [intros s q qr Hq; by exists qr|]. intros s1 s2 s3 H12 H23 q qr Hq. destruct (H12 q qr Hq) as (q2 & Hq2 & E2 & D2).
  destruct (H23 q q2 Hq2) as (q3 & Hq3 & E3 & D3). exists q3. split; [done|]. split; [congruence|auto].
Qed.

(** What remains of the invariant while the server stops. *)
Definition stopping (s : server) : Prop :=
  sv_shutdown s = true /\ pers_ok s /\ forall pub p, peersByPub s !! pub = Some p -> exists pr, sv_peers s !! p = Some pr /\ p_pub pr = pub.

Definition gone (s : server) (p : nat) : Prop := exists pr, sv_peers s !! p = Some pr /\ p_disconnect pr = true.

Lemma gone_grow s s' p : peers_grow s s' -> gone s p -> gone s' p.
Proof. intros H (pr & Hl & Hd). destruct (H p pr Hl) as (pr' & Hl' & _ & Hd'). exists pr'. by auto. Qed.

Lemma stop_one pub s :
  stopping s -> exists s', ignore_err (DisconnectPeer pub) s = (Ok tt, s') /\ stopping s' /\ peersByPub s' = peersByPub s
    /\ sv_watchers s' = sv_watchers s /\ peers_grow s s' /\ forall p, peersByPub s !! pub = Some p -> gone s' p.
Proof.
  intros (Hs & Hr & Hv). unfold ignore_err, DisconnectPeer. unfold mbind at 1, st_bind at 1, st_get at 1. unfold findPeerByPubStr.
  destruct (peersByPub s !! pub) as [p|] eqn:Ep; [|by exists s]. destruct (Hv pub p Ep) as (pr & Hl & _).
  pose proof Hr as ((H1 & _) & _). destruct (cancelConnReqs_eq pub None s (fun c Hc => proj1 (H1 pub c Hc))) as [log E].
  rewrite (st_bind_ok _ _ s tt _ E). unfold mbind, st_bind, st_upd.
  match goal with |- context [dropPeer p ?s0] => set (s1 := s0) end.
  assert (sv_peers s1 = sv_peers s /\ sv_shutdown s1 = true /\ peersByPub s1 = peersByPub s /\ sv_watchers s1 = sv_watchers s) as (F1 & F2 & F3 & F4)
    by (unfold s1, cancelled; by destruct (persistentRetryCancels s !! pub)).
  assert (pers_ok s1) as Hr1.
  { destruct (pers_ok_cancelled pub s Hr) as (Hc & Hq & Hb & Ht). split; [exact Hc|]. split; [exact Hq|]. split; [|exact Ht].
    intros pub' b' Hl'. cbn in Hl'. apply lookup_delete_Some in Hl' as [_ Hl']. by eapply Hb. }
  clearbody s1. destruct (dropPeer_stopped p s1 pr) as [log' ->]; [by rewrite F1|done|]. eexists. split; [done|]. unfold stopping, peers_grow, gone. cbn.
  rewrite F1, F2, F3, F4. split; [split; [done|]; split; [done|]|]; [|split; [done|]; split; [done|]; split].
  - intros pub' p' (pr' & Hl' & <-)%Hv. destruct (disc_lookup p pr s p' pr' Hl Hl') as (qr' & ? & ? & _). by exists qr'.
  - intros q qr Hq. destruct (disc_lookup p pr s q qr Hl Hq) as (qr' & ? & ? & _ & ?). by exists qr'.
  - intros p' [= <-]. exists (disc pr). by rewrite list_lookup_insert_eq by (by eapply lookup_lt_Some).
Qed.

Lemma stop_all pubs s :
  stopping s -> exists s', st_iter (fun pub => ignore_err (DisconnectPeer pub)) pubs s = (Ok tt, s') /\ stopping s'
    /\ peersByPub s' = peersByPub s /\ sv_watchers s' = sv_watchers s /\ peers_grow s s'
    /\ forall pub p, pub ∈ pubs -> peersByPub s !! pub = Some p -> gone s' p.
Proof.
  revert s. induction pubs as [|pub pubs IH]; intros s H.
  - exists s. do 4 (split; [done|]). split; [reflexivity|]. intros pub p Hin. by apply elem_of_nil in Hin.
  - destruct (stop_one pub s H) as (s1 & E1 & H1 & B1 & W1 & G1 & D1). destruct (IH s1 H1) as (s2 & E2 & H2 & B2 & W2 & G2 & D2).
    exists s2. cbn [st_iter]. rewrite (st_bind_ok _ _ s tt s1 E1). split; [done|]. split; [done|]. split; [congruence|]. split; [congruence|].
    split; [by etrans|]. intros pub' p [->|Hin]%elem_of_cons Hp; [by eapply gone_grow, D1|]. apply (D2 pub'); [done|by rewrite B1].
Qed.

(** Stopping a running server does not panic and disconnects every peer: all peers a
    watcher waits for are disconnected, so every watcher comes to its end. *)
Theorem stop_ends_peers g identity allowed s :
  sv_reach g identity allowed s ->
  exists s', Stop s = (Ok tt, s') /\ sv_shutdown s' = true /\ sv_watchers s' = sv_watchers s
    /\ forall p, p ∈ sv_watchers s' -> exists pr, sv_peers s' !! p = Some pr /\ p_disconnect pr = true.
Proof.
  intros Hreach. destruct (reach_inv g identity allowed s Hreach) as (Hs & (H1 & _ & _ & H4 & H5) & _ & Hr).
  unfold Stop. unfold mbind at 1, st_bind at 1, st_get at 1. rewrite Hs.
  set (pubs := (fun q : bytes * nat => _) <$> map_to_list (peersByPub s)).
  destruct (stop_all pubs (set_sv_shutdown true s)) as (s' & E & (Hs' & _) & _ & Hw & Hg & Hd).
  { split; [done|]. split; [done|]. intros pub p Hp. destruct (H1 pub p Hp) as (pr & ? & ? & _). by exists pr. }
  exists s'. split; [exact E|]. split; [done|]. split; [done|]. intros p Hin. rewrite Hw in Hin. destruct (H4 p Hin) as (pr & Hl & [Hi|Hp]).
  - destruct (H5 p Hi) as [_ Hgone]. by apply (gone_grow (set_sv_shutdown true s)).
  - apply (Hd (p_pub pr) p); [|done]. apply list_elem_of_fmap. exists (p_pub pr, p). cbn. rewrite Hl. split; [done|]. by apply elem_of_map_to_list.
Qed.
End ServerProps.
