(* ===== verification/ServerExamples.v ===== *)
(** * The server at work

    Concrete runs of the connection handling that show the hypotheses of the theorems can
    hold, and runs that do not end as intended. *)

From Stdlib Require Import ZArith Lia.
From Stdlib Require Import Init.Byte.
From stdpp Require Import base gmap strings numbers list.
From S2P Require Import Prelude Effects Server ServerSafe ServerInv ServerProps.
Local Open Scope Z_scope.

Module ServerRuns.

Definition no_graph : bytes -> option (list Addr) := fun _ => None.

Definition run_inputs (l : list sv_input) (s : server) : server := foldl (fun s i => (handle no_graph i s).2) s l.

Lemma run_reach identity allowed l :
  Forall input_ok l -> Forall allowed l -> sv_reach no_graph identity allowed (run_inputs l (newServer identity)).
Proof.
  induction l as [|i l IH] using rev_ind; intros Hok Hal; [constructor|]. apply Forall_app in Hok as [Hok Hi].
  apply Forall_app in Hal as [Hal Ha]. unfold run_inputs. rewrite foldl_app. cbn.
  fold (run_inputs l (newServer identity)).
  apply (sv_next _ _ _ (run_inputs l (newServer identity)) i (handle no_graph i (run_inputs l (newServer identity))).1);
    [by apply IH|by apply Forall_singleton|by apply Forall_singleton|by destruct (handle _ _ _)].
Qed.

Definition alice : bytes := [x02].
Definition bob : bytes := [x03].
Definition carol : bytes := [x04].
Definition home : Addr := TCPAddr [x7f; x00; x00; x01] 9735.
Definition conn (id : nat) (pub : bytes) : Conn := mkConn id pub home true false.

(** Somebody waits for [bob], who is dialled and then connected by the manager; [carol] is to be
    dialled; [alice] connected herself and has gone. *)
Definition inputs : list sv_input :=
  [INotifyWhenOnline bob; IConnectToPeer bob home true; IConnectToPeer carol home true; IAssign 0 1;
   IOutbound (Some 0%nat) (conn 1 bob); IInbound (conn 2 alice); IPeerQuits 1; ITerminated true 1].

Definition server1 : server := run_inputs inputs (newServer [x01]).

Lemma inputs_ok : Forall input_ok inputs /\ Forall good_input inputs /\ Forall (fun _ => True) inputs.
Proof. by repeat split; repeat constructor. Qed.

Definition any : sv_input -> Prop := fun _ => True.

Lemma server1_reach : sv_reach no_graph [x01] any server1.
Proof. apply run_reach; apply inputs_ok. Qed.

Lemma server1_good : sv_reach no_graph [x01] good_input server1.
Proof. apply run_reach; apply inputs_ok. Qed.

Lemma connections_safe_witness :
  peersByPub server1 !! bob = Some 0%nat /\ exists pr, sv_peers server1 !! 0%nat = Some pr /\ p_pub pr = bob.
Proof.
  split; [vm_compute; reflexivity|].
  destruct (proj1 (connections_safe no_graph [x01] any server1 server1_reach) bob 0%nat ltac:(vm_compute; reflexivity)) as (pr & Hl & Hp & _).
  exact (ex_intro _ pr (conj Hl Hp)).
Defined.

Lemma online_notified_witness : sv_listeners server1 !! 0%nat = Some (mkListener bob true) /\ true = true.
Proof.
  split; [vm_compute; reflexivity|].
  exact (proj1 (online_notified no_graph [x01] any server1 0%nat bob true server1_reach ltac:(vm_compute; reflexivity))
    ltac:(vm_compute; eexists; reflexivity)).
Defined.

Lemma persistent_pending_witness :
  exists r l q, persistentConnReqs server1 !! carol = Some (r :: l) /\ sv_reqs server1 !! r = Some q /\ cr_pub q = carol.
Proof.
  apply (persistent_pending no_graph [x01] server1 carol server1_good).
  - apply (bool_decide_unpack _). vm_compute. exact I.
  - vm_compute. reflexivity.
Defined.

Lemma backoff_bounds_witness : defaultBackoff <= 1000000000 <= backoff_top.
Proof.
  assert (persistentPeersBackoff server1 !! carol = Some 1000000000) as H by (vm_compute; reflexivity).
  exact (proj1 (proj1 (backoff_bounds no_graph [x01] any server1 server1_reach) carol 1000000000 H)).
Defined.

(** The connection to [bob] was dialled: one that he dials is refused. *)
Lemma other_direction_refused_witness :
  exists log, InboundPeerConnected no_graph (conn 3 bob) server1 = (Ok tt, set_sv_log (log ++ [SCloseConn 3]) server1).
Proof.
  set (pr := mkPeer 1 bob home true (Some 0%nat) true false).
  assert (peersByPub server1 !! cn_RemotePub (conn 3 bob) = Some 0%nat) as H1 by (vm_compute; reflexivity).
  assert (sv_peers server1 !! 0%nat = Some pr) as H2 by (vm_compute; reflexivity).
  pose proof (other_direction_refused no_graph [x01] any server1 (conn 3 bob) None 0%nat pr server1_reach H1 H2) as H.
  assert (p_inbound pr = true) as Ei by reflexivity. rewrite Ei in H. exact H.
Defined.

Lemma stop_ends_peers_witness : exists s', Stop server1 = (Ok tt, s') /\ sv_shutdown s' = true.
Proof.
  destruct (stop_ends_peers no_graph [x01] any server1 server1_reach) as (s' & E & Hs & _).
  exact (ex_intro _ s' (conj E Hs)).
Defined.

(** ** Runs that do not end as intended *)

(** Two nodes dial each other: connection 1 from [alice] to [bob] and connection 2 from
    [bob] to [alice].  Each has its own connection when the other one arrives, and closes
    the other one: both are closed. *)
Example simultaneous_both_dropped :
  let at_alice := run_inputs [IOutbound None (conn 1 bob); IInbound (conn 2 bob)] (newServer alice) in
  let at_bob := run_inputs [IOutbound None (conn 2 alice); IInbound (conn 1 alice)] (newServer bob) in
  sv_log at_alice = [SCloseConn 2] /\ sv_log at_bob = [SCloseConn 1].
Proof. split; vm_compute; reflexivity. Qed.

(** A connection whose peer cannot be started cancels the requests to a persistent peer;
    nothing tries to connect to it again. *)
Example persistent_peer_lost :
  let s := run_inputs [IConnectToPeer bob home true; IInbound (mkConn 1 bob home false false)] (newServer alice) in
  bool_decide (bob ∈ persistentPeers s) = true /\ peersByPub s !! bob = None /\ persistentConnReqs s !! bob = None /\ sv_retries s = [].
Proof. repeat split; vm_compute; reflexivity. Qed.

(** The backoff is not random: the margin is added in full and half of it taken away,
    which exceeds the maximum. *)
Example backoff_not_random :
  computeNextBackoff true defaultBackoff = 2100000000 /\ computeNextBackoff true maximumBackoff = maximumBackoff + maximumBackoff / 20
  /\ maximumBackoff < computeNextBackoff true maximumBackoff.
Proof. repeat split; vm_compute; reflexivity. Qed.

(** With two peers connected the graph is still requested. *)
Example graph_sync_with_two_peers :
  let s := run_inputs [IInbound (conn 1 bob); IInbound (conn 2 carol)] (newServer alice) in
  size (peersByPub s) = 2%nat /\ shouldRequestGraphSync s = true.
Proof. split; vm_compute; reflexivity. Qed.

(** A node with two ports on one host: its addresses double with every channel we have
    with it. *)
Lemma addresses_double pub ip p1 p2 n m :
  m !! pub = None ->
  exists m' addrs, add_policies (replicate (S n) (mkPolicy pub [TCPAddr ip p1; TCPAddr ip p2] (Ok tt))) m = Ok m'
    /\ m' !! pub = Some addrs /\ length addrs = (2 ^ S n)%nat.
Proof.
  intros Hm. assert (forall a, a ∈ [TCPAddr ip p1; TCPAddr ip p2] -> merge_addresses (Some [a]) [TCPAddr ip p1; TCPAddr ip p2] = [TCPAddr ip p1; TCPAddr ip p2]) as H1.
  { assert (IP_Equal ip ip = true) as Hip by (unfold IP_Equal; by rewrite !bool_decide_eq_true_2).
    intros a [->|[->|[]%elem_of_nil]%elem_of_cons]%elem_of_cons; cbn; by rewrite Hip. }
  assert (forall l, Forall (fun a => a ∈ [TCPAddr ip p1; TCPAddr ip p2]) l ->
    Forall (fun a => a ∈ [TCPAddr ip p1; TCPAddr ip p2]) (merge_addresses (Some l) [TCPAddr ip p1; TCPAddr ip p2])
    /\ length (merge_addresses (Some l) [TCPAddr ip p1; TCPAddr ip p2]) = (2 * length l)%nat) as H2.
  { induction 1 as [|a l Ha Hl [IH1 IH2]]; [by split|]. cbn [merge_addresses] in *. rewrite bind_cons.
    specialize (H1 a Ha). cbn [merge_addresses] in H1. rewrite bind_cons, (eq_refl : mbind _ [] = []), app_nil_r in H1. rewrite H1.
    split; [apply Forall_app; split; [by repeat constructor; set_solver|done]|]. rewrite length_app, IH2. cbn. lia. }
  assert (forall n l m, m !! pub = Some l -> Forall (fun a => a ∈ [TCPAddr ip p1; TCPAddr ip p2]) l ->
    exists m' addrs, add_policies (replicate n (mkPolicy pub [TCPAddr ip p1; TCPAddr ip p2] (Ok tt))) m = Ok m'
      /\ m' !! pub = Some addrs /\ length addrs = (2 ^ n * length l)%nat) as H3.
  { clear n m Hm. induction n as [|n IH]; intros l m Hm Hl; [exists m, l; cbn; split; [done|]; split; [done|lia]|].
    cbn [replicate add_policies pol_PubKey pol_pub pol_Addresses]. rewrite Hm. destruct (H2 l Hl) as [Hl2 Hlen].
    destruct (IH _ (<[pub := merge_addresses (Some l) [TCPAddr ip p1; TCPAddr ip p2]]> m) (lookup_insert_eq _ _ _) Hl2) as (m' & addrs & E & El & En).
    exists m', addrs. split; [done|]. split; [done|]. rewrite En, Hlen. cbn. lia. }
  cbn [replicate add_policies pol_PubKey pol_pub pol_Addresses]. rewrite Hm.
  destruct (H3 n [TCPAddr ip p1; TCPAddr ip p2] (<[pub := [TCPAddr ip p1; TCPAddr ip p2]]> m) (lookup_insert_eq _ _ _)) as (m' & addrs & E & El & En);
    [by repeat constructor; set_solver|].
  exists m', addrs. split; [exact E|]. split; [done|]. rewrite En. cbn. lia.
Qed.
End ServerRuns.
