(* ===== verification/PeerStream.v ===== *)
(** * The message streams of a peer

    [msgStream] of peer.go: a queue with a semaphore and a condition variable between the
    peer's reader, which adds messages, and a consumer goroutine, which applies them one
    after the other.  The goroutines and the caller of [Stop] are threads with a
    program counter; a step of one of them is the code between two points at which it can
    be interrupted, and the schedule is arbitrary. *)

From Stdlib Require Import ZArith Lia.
From stdpp Require Import base list.
From S2P Require Import Prelude.

Section Stream.
Context {M : Type}.
Implicit Types (m : M) (l : list M).

(** The consumer: before the check of the queue; in [msgCond.Wait]; woken up; holding a
    message; after [apply]; returned. *)
Inductive consumer :=
  | CCheck
  | CWait
  | CWoken
  | CApply (m : M)
  | CRelease
  | CDone.

(** The reader: between calls of [AddMsg]; waiting for the semaphore; before the append;
    before the signal. *)
Inductive producer :=
  | PIdle
  | PAcquire (m : M)
  | PAppend (m : M)
  | PSignal.

(** [Stop]: not called; in its loop; waiting for the consumer; returned. *)
Inductive stopper :=
  | SNone
  | SLoop
  | SWait
  | SDone.

(** [ms_producerSema] is the number of tokens in the channel.  The last three fields are
    the messages given to [AddMsg], those it did not add because the stream was quitting,
    and those applied. *)
Record msgStream := mkMsgStream {
  ms_streamShutdown : bool;
  ms_msgs : list M;
  ms_bufSize : nat;
  ms_producerSema : nat;
  ms_quit : bool;
  ms_consumer : consumer;
  ms_producer : producer;
  ms_stopper : stopper;
  ms_added : list M;
  ms_applied : list M
}.

Definition newMsgStream (bufSize : nat) : msgStream :=
  mkMsgStream false [] bufSize bufSize false CCheck PIdle SNone [] [].

Definition set_consumer (c : consumer) (s : msgStream) : msgStream :=
  mkMsgStream (ms_streamShutdown s) (ms_msgs s) (ms_bufSize s) (ms_producerSema s) (ms_quit s) c (ms_producer s) (ms_stopper s)
    (ms_added s) (ms_applied s).
Definition set_producer (p : producer) (s : msgStream) : msgStream :=
  mkMsgStream (ms_streamShutdown s) (ms_msgs s) (ms_bufSize s) (ms_producerSema s) (ms_quit s) (ms_consumer s) p (ms_stopper s)
    (ms_added s) (ms_applied s).
Definition set_stopper (x : stopper) (s : msgStream) : msgStream :=
  mkMsgStream (ms_streamShutdown s) (ms_msgs s) (ms_bufSize s) (ms_producerSema s) (ms_quit s) (ms_consumer s) (ms_producer s) x
    (ms_added s) (ms_applied s).

(** [msgCond.Signal] wakes the consumer if it waits. *)
Definition Signal (s : msgStream) : msgStream :=
  match ms_consumer s with CWait => set_consumer CWoken s | _ => s end.

(** ** The threads *)

Inductive stream_event :=
  | EAddMsg (m : M)
  | EAcquire
  | EAcquireQuit
  | EAppend
  | ESignal
  | EConsume
  | EConsumeQuit
  | EStop
  | EStopLoop
  | EStopWait.

(** [AddMsg]: the call, the two branches of its [select], the append under the lock, and
    the signal. *)
Definition AddMsg_step (e : stream_event) (s : msgStream) : option msgStream :=
  match e, ms_producer s with
  | EAddMsg m, PIdle =>
      Some (mkMsgStream (ms_streamShutdown s) (ms_msgs s) (ms_bufSize s) (ms_producerSema s) (ms_quit s) (ms_consumer s)
              (PAcquire m) (ms_stopper s) (ms_added s) (ms_applied s))
  | EAcquire, PAcquire m =>
      match ms_producerSema s with
      | O => None
      | S n => Some (mkMsgStream (ms_streamShutdown s) (ms_msgs s) (ms_bufSize s) n (ms_quit s) (ms_consumer s)
                       (PAppend m) (ms_stopper s) (ms_added s ++ [m]) (ms_applied s))
      end
  | EAcquireQuit, PAcquire m => if ms_quit s then Some (set_producer PIdle s) else None
  | EAppend, PAppend m =>
      Some (mkMsgStream (ms_streamShutdown s) (ms_msgs s ++ [m]) (ms_bufSize s) (ms_producerSema s) (ms_quit s) (ms_consumer s)
              PSignal (ms_stopper s) (ms_added s) (ms_applied s))
  | ESignal, PSignal => Some (Signal (set_producer PIdle s))
  | _, _ => None
  end.

(** [msgConsumer].  [EConsumeQuit] takes the second branch of the [select] after a message
    was applied; the first one sends a token, for which the channel has to have room. *)
Definition msgConsumer_step (e : stream_event) (s : msgStream) : option msgStream :=
  match e, ms_consumer s with
  | EConsume, CCheck =>
      match ms_msgs s with
      | [] => Some (set_consumer CWait s)
      | m :: rest =>
          Some (mkMsgStream (ms_streamShutdown s) rest (ms_bufSize s) (ms_producerSema s) (ms_quit s) (CApply m) (ms_producer s)
                  (ms_stopper s) (ms_added s) (ms_applied s))
      end
  | EConsume, CWoken =>
      if ms_quit s then
        Some (mkMsgStream true (ms_msgs s) (ms_bufSize s) (ms_producerSema s) (ms_quit s) CDone (ms_producer s) (ms_stopper s)
                (ms_added s) (ms_applied s))
      else Some (set_consumer CCheck s)
  | EConsume, CApply m =>
      Some (mkMsgStream (ms_streamShutdown s) (ms_msgs s) (ms_bufSize s) (ms_producerSema s) (ms_quit s) CRelease (ms_producer s)
              (ms_stopper s) (ms_added s) (ms_applied s ++ [m]))
  | EConsume, CRelease =>
      if bool_decide (ms_producerSema s < ms_bufSize s) then
        Some (mkMsgStream (ms_streamShutdown s) (ms_msgs s) (ms_bufSize s) (S (ms_producerSema s)) (ms_quit s) CCheck (ms_producer s)
                (ms_stopper s) (ms_added s) (ms_applied s))
      else None
  | EConsumeQuit, CRelease => if ms_quit s then Some (set_consumer CDone s) else None
  | _, _ => None
  end.

(** [Stop]: closing [quit]; one round of the loop; [wg.Wait]. *)
Definition Stop_step (e : stream_event) (s : msgStream) : option msgStream :=
  match e, ms_stopper s with
  | EStop, SNone =>
      Some (mkMsgStream (ms_streamShutdown s) (ms_msgs s) (ms_bufSize s) (ms_producerSema s) true (ms_consumer s) (ms_producer s)
              SLoop (ms_added s) (ms_applied s))
  | EStopLoop, SLoop => if ms_streamShutdown s then Some (set_stopper SWait s) else Some (Signal s)
  | EStopWait, SWait => match ms_consumer s with CDone => Some (set_stopper SDone s) | _ => None end
  | _, _ => None
  end.

Definition stream_step (e : stream_event) (s : msgStream) : option msgStream :=
  match e with
  | EAddMsg _ | EAcquire | EAcquireQuit | EAppend | ESignal => AddMsg_step e s
  | EConsume | EConsumeQuit => msgConsumer_step e s
  | EStop | EStopLoop | EStopWait => Stop_step e s
  end.

Fixpoint stream_run (es : list stream_event) (s : msgStream) : option msgStream :=
  match es with
  | [] => Some s
  | e :: es => match stream_step e s with Some s' => stream_run es s' | None => None end
  end.

Definition stream_reach (bufSize : nat) (s : msgStream) : Prop := exists es, stream_run es (newMsgStream bufSize) = Some s.

(** ** The invariant *)

Definition held (c : consumer) : list M := match c with CApply m => [m] | _ => [] end.
Definition adding (p : producer) : list M := match p with PAppend m => [m] | _ => [] end.
Definition token_out (c : consumer) : nat := match c with CApply _ | CRelease => 1 | _ => 0 end.

(** Every message that got a slot is applied, held, queued or about to be appended, in
    this order; tokens and messages fill the buffer exactly, until the consumer leaves
    with one; the consumer waits on a non-empty queue only if the signal is coming. *)
Definition stream_inv (s : msgStream) : Prop :=
  ms_added s = ms_applied s ++ held (ms_consumer s) ++ ms_msgs s ++ adding (ms_producer s)
  /\ (ms_producerSema s + token_out (ms_consumer s) + length (ms_msgs s) + length (adding (ms_producer s)) <= ms_bufSize s)%nat
  /\ (ms_consumer s <> CDone ->
      (ms_producerSema s + token_out (ms_consumer s) + length (ms_msgs s) + length (adding (ms_producer s)) = ms_bufSize s)%nat)
  /\ (ms_consumer s = CWait -> ms_msgs s <> [] -> ms_producer s = PSignal)
  /\ (ms_consumer s = CDone -> ms_quit s = true)
  /\ (ms_quit s = true <-> ms_stopper s <> SNone)
  /\ (ms_streamShutdown s = true -> ms_consumer s = CDone)
  /\ (ms_stopper s = SWait \/ ms_stopper s = SDone -> ms_streamShutdown s = true).

Lemma stream_inv_new n : stream_inv (newMsgStream n).
Proof. unfold stream_inv. cbn. repeat split; try done; try lia. by intros []. Qed.

Ltac stream_cases H :=
  unfold stream_step, AddMsg_step, msgConsumer_step, Stop_step in H;
  repeat (case_match; try discriminate H); simplify_eq; cbn in *.

Lemma stream_inv_step e s s' : stream_inv s -> stream_step e s = Some s' -> stream_inv s'.
Proof.
  intros (H1 & H2 & H3 & H4 & H5 & H6 & H7 & H8) Hs.
  destruct s as [sd msgs bs sema q c p st added applied]. destruct e; stream_cases Hs.
  all: unfold stream_inv, Signal in *; cbn in *.
  all: try (destruct c; cbn in *).
  all: rewrite ?app_nil_r, <- ?app_assoc, ?length_app in *; cbn in *.
  all: split_and!; intros; subst; rewrite <- ?app_assoc; try done; try (specialize (H3 ltac:(done))); try lia.
  all: try solve [ congruence | intuition congruence ].
Qed.

Lemma stream_inv_run es s s' : stream_inv s -> stream_run es s = Some s' -> stream_inv s'.
Proof.
  revert s. induction es as [|e es IH]; intros s Hi Hr; cbn in Hr; [by simplify_eq|].
  case_match; [|done]. by eapply IH; [eapply stream_inv_step|].
Qed.

Lemma stream_reach_inv n s : stream_reach n s -> stream_inv s.
Proof. intros [es Hr]. eapply stream_inv_run; [apply stream_inv_new | done]. Qed.

Lemma bufSize_step e s s' : stream_step e s = Some s' -> ms_bufSize s' = ms_bufSize s.
Proof.
  destruct s as [sd msgs bs sema q c p st added applied]. intros Hs. destruct e; stream_cases Hs.
  all: try done. all: unfold Signal; cbn; by destruct c.
Qed.

Lemma bufSize_run es s s' : stream_run es s = Some s' -> ms_bufSize s' = ms_bufSize s.
Proof.
  revert s. induction es as [|e es IH]; intros s Hr; cbn in Hr; [by simplify_eq|].
  case_match eqn:E; [|done]. rewrite (IH _ Hr). by eapply bufSize_step.
Qed.

(** ** Progress *)

(** The steps that neither bring a new message nor stop the stream. *)
Definition internal (e : stream_event) : bool :=
  match e with EAcquire | EAppend | ESignal | EConsume => true | _ => false end.

(** The steps the threads still have to make. *)
Definition stream_work (s : msgStream) : nat :=
  3 * length (ms_msgs s)
  + match ms_consumer s with CWait | CDone => 0 | CCheck => 1 | CWoken | CRelease => 2 | CApply _ => 3 end
  + match ms_producer s with PIdle => 0 | PSignal => 3 | PAppend _ => 7 | PAcquire _ => 8 end.

Lemma stream_work_step e s s' :
  internal e = true -> ms_quit s = false -> stream_step e s = Some s' -> (stream_work s' < stream_work s)%nat /\ ms_quit s' = false.
Proof.
  destruct s as [sd msgs bs sema q c p st added applied]. intros He Hq Hs. destruct e; try done; stream_cases Hs; subst.
  all: unfold stream_work, Signal; cbn; rewrite ?length_app; cbn; try (split; [lia | done]).
  all: destruct c; cbn; split; try done; lia.
Qed.

Lemma stream_work_run es s s' :
  forallb internal es = true -> ms_quit s = false -> stream_run es s = Some s' ->
  (length es + stream_work s' <= stream_work s)%nat /\ ms_quit s' = false.
Proof.
  revert s. induction es as [|e es IH]; intros s He Hq Hr; cbn [stream_run length forallb] in *; [by simplify_eq|].
  apply andb_prop in He as [He Hes]. case_match eqn:E; [|done].
  destruct (stream_work_step _ _ _ He Hq E) as [Hw Hq']. destruct (IH _ Hes Hq' Hr). split; [lia | done].
Qed.

(** With nothing left to do and the stream not stopped, everything was applied. *)
Lemma quiescent_applied s :
  stream_inv s -> ms_quit s = false -> (0 < ms_bufSize s)%nat ->
  (forall e, internal e = true -> stream_step e s = None) ->
  ms_applied s = ms_added s /\ ms_producer s = PIdle.
Proof.
  intros (H1 & H2 & H3 & H4 & H5 & _) Hq Hb Hn.
  pose proof (Hn EConsume eq_refl) as Nc. pose proof (Hn EAppend eq_refl) as Na.
  pose proof (Hn ESignal eq_refl) as Ns. pose proof (Hn EAcquire eq_refl) as Nq. clear Hn.
  destruct s as [sd msgs bs sema q c p st added applied]; cbn in *; subst q.
  destruct c; cbn in *; try (specialize (H3 ltac:(done))); try (by destruct msgs); try (by specialize (H5 eq_refl)).
  - destruct p; cbn in *; try done; destruct msgs; try (by specialize (H4 eq_refl ltac:(done))).
    + by rewrite H1, !app_nil_r.
    + destruct sema; cbn in *; [lia | done].
  - rewrite bool_decide_true in Nc by lia. done.
Qed.

(** A stream with a buffer of [bufSize] messages applies them in the order in which they
    were added: the messages added are those applied, followed by the one being applied,
    the queue and the one being appended; the queue never holds more than [bufSize]
    messages.  And it delivers them: as long as the stream is not stopped, the two threads
    can make only finitely many steps without a new message, whatever the schedule, and
    when none of them can make one every message added was applied and [AddMsg] has
    returned. *)
Theorem stream_in_order bufSize s :
  stream_reach bufSize s ->
  (ms_added s = ms_applied s ++ held (ms_consumer s) ++ ms_msgs s ++ adding (ms_producer s)
   /\ (length (ms_msgs s) <= bufSize)%nat)
  /\ forall es s', (0 < bufSize)%nat -> ms_quit s = false -> forallb internal es = true -> stream_run es s = Some s' ->
     (length es <= stream_work s)%nat
     /\ ((forall e, internal e = true -> stream_step e s' = None) -> ms_applied s' = ms_added s' /\ ms_producer s' = PIdle).
Proof.
  intros Hr. pose proof (stream_reach_inv _ _ Hr) as Hi. destruct Hr as [es0 Hr].
  pose proof (bufSize_run _ _ _ Hr) as Hb. cbn in Hb. split.
  - destruct Hi as (H1 & H2 & _). split; [done | lia].
  - intros es s' Hpos Hq He Hrun. destruct (stream_work_run _ _ _ He Hq Hrun) as [Hw Hq']. split; [lia|].
    intros Hn. apply quiescent_applied; try done; [by eapply stream_inv_run|].
    rewrite (bufSize_run _ _ _ Hrun). lia.
Qed.

(** ** Stopping *)

(** A stopped stream whose consumer waits for a message ends. *)
Lemma stop_while_waiting s :
  stream_inv s -> ms_stopper s = SLoop -> ms_consumer s = CWait ->
  exists s', stream_run [EStopLoop; EConsume; EStopLoop; EStopWait] s = Some s' /\ ms_stopper s' = SDone.
Proof.
  intros (_ & _ & _ & _ & _ & H6 & H7 & _) Hst Hc.
  destruct s as [sd msgs bs sema q c p st added applied]; cbn in *; subst.
  assert (q = true) as -> by (by apply H6). destruct sd; [by specialize (H7 eq_refl)|].
  eexists. split; reflexivity.
Qed.

(** The consumer has left through the second [select]. *)
Definition stop_stuck (s : msgStream) : Prop :=
  ms_consumer s = CDone /\ ms_streamShutdown s = false /\ ms_stopper s <> SWait /\ ms_stopper s <> SDone.

Lemma stop_stuck_step e s s' : stop_stuck s -> stream_step e s = Some s' -> stop_stuck s'.
Proof.
  destruct s as [sd msgs bs sema q c p st added applied]. intros (H1 & H2 & H3 & H4) Hs; cbn in *; subst.
  destruct e; stream_cases Hs; unfold stop_stuck, Signal; cbn; split_and!; done.
Qed.

(** If the stream is stopped while a message is being applied, the consumer can see that
    [quit] is closed when it returns the slot; it then leaves without setting
    [streamShutdown], and [Stop] never returns. *)
Theorem stop_hangs s es s' :
  stream_inv s -> ms_quit s = true -> ms_consumer s = CRelease -> ms_streamShutdown s = false ->
  stream_run (EConsumeQuit :: es) s = Some s' -> ms_stopper s' <> SDone.
Proof.
  intros (_ & _ & _ & _ & _ & _ & _ & H8) Hq Hc Hsd Hr.
  cbn in Hr. rewrite Hc, Hq in Hr. 
  assert (stop_stuck (set_consumer CDone s)) as Hk by (repeat split; cbn; try done; intros E; rewrite H8 in Hsd; [done | tauto | done | tauto]).
  revert Hk Hr. generalize (set_consumer CDone s) as t. clear. induction es as [|e es IH]; intros t Hk Hr; cbn in Hr.
  - simplify_eq. apply Hk.
  - case_match eqn:E; [|done]. by eapply IH; [eapply stop_stuck_step|].
Qed.
End Stream.

Arguments msgStream : clear implicits.
Arguments stream_event : clear implicits.

Module StreamRuns.
(** Two messages; the second is queued while the first is applied, and both are applied. *)
Definition two_messages : list (stream_event nat) :=
  [EConsume; EAddMsg 7; EAcquire; EAppend; ESignal; EConsume; EConsume; EAddMsg 8; EAcquire; EAppend].
Definition two_state : msgStream nat := Eval vm_compute in default (newMsgStream 2) (stream_run two_messages (newMsgStream 2)).

Definition two_rest : list (stream_event nat) := repeat EConsume 3 ++ ESignal :: repeat EConsume 3.
Definition two_done : msgStream nat := Eval vm_compute in default two_state (stream_run two_rest two_state).

Lemma stream_in_order_witness :
  ms_added two_state = [7; 8] /\ ms_msgs two_state = [8] /\ stream_run two_rest two_state = Some two_done
  /\ ms_applied two_done = ms_added two_done.
Proof.
  assert (stream_reach 2 two_state) as Hr by (exists two_messages; vm_compute; reflexivity).
  split; [reflexivity|]. split; [reflexivity|].
  assert (stream_run two_rest two_state = Some two_done) as Hrun by (vm_compute; reflexivity). split; [exact Hrun|].
  destruct (proj2 (stream_in_order 2 two_state Hr) two_rest two_done ltac:(lia) eq_refl eq_refl Hrun) as [_ Hq].
  apply Hq. intros e He. destruct e; first [discriminate He | reflexivity].
Defined.

(** The stream is stopped while its message is applied. *)
Lemma stop_hangs_run :
  exists s, stream_run [EAddMsg 7; EAcquire; EAppend; ESignal; EConsume; EStop; EConsume; EConsumeQuit; EStopLoop] (newMsgStream 2) = Some s
    /\ stop_stuck s /\ ms_stopper s = SLoop.
Proof. eexists. split; [vm_compute; reflexivity|]. repeat split; discriminate. Qed.
End StreamRuns.
