(* ===== verification/PeerWire.v ===== *)
(** * Messages on the wire

    The message types of lnwire with the fields the daemon's own code looks at, and the
    framing of message.go: a type in two bytes and the payload.  The payload encodings of
    the message types are an interface. *)

From Stdlib Require Import ZArith Lia.
From Stdlib Require Import Init.Byte.
From stdpp Require Import base gmap strings numbers list.
From S2P Require Import Prelude Stream.
Local Open Scope Z_scope.

(** ** Messages *)

Definition ChannelID : Type := bytes.

(** The identifier that stands for all channels. *)
Definition ConnectionWideID : ChannelID := replicate 32 x00.

(** [fields] stands for the fields that are only read by other parts. *)
Inductive Message :=
  | Init (GlobalFeatures LocalFeatures : gset Z)
  | Error (ChanID : ChannelID) (Data : bytes)
  | Ping (NumPongBytes : Z) (PaddingBytes : bytes)
  | Pong (PongBytes : bytes)
  | OpenChannel (fields : bytes)
  | AcceptChannel (fields : bytes)
  | FundingCreated (fields : bytes)
  | FundingSigned (fields : bytes)
  | FundingLocked (fields : bytes)
  | Shutdown (ChannelID : ChannelID) (Address : bytes)
  | ClosingSigned (ChannelID : ChannelID) (FeeSatoshis : Z) (Signature : bytes)
  | UpdateAddHTLC (ChanID : ChannelID) (fields : bytes)
  | UpdateFulfillHTLC (ChanID : ChannelID) (fields : bytes)
  | UpdateFailHTLC (ChanID : ChannelID) (fields : bytes)
  | CommitSig (ChanID : ChannelID) (fields : bytes)
  | RevokeAndAck (ChanID : ChannelID) (fields : bytes)
  | UpdateFee (ChanID : ChannelID) (fields : bytes)
  | UpdateFailMalformedHTLC (ChanID : ChannelID) (fields : bytes)
  | ChannelReestablish (ChanID : ChannelID) (fields : bytes)
  | ChannelAnnouncement (fields : bytes)
  | NodeAnnouncement (fields : bytes)
  | ChannelUpdate (fields : bytes)
  | AnnounceSignatures (fields : bytes).

#[global] Instance Message_eq_dec : EqDecision Message.
Proof. solve_decision. Defined.

Definition MsgType (m : Message) : Z :=
  match m with
  | Init _ _ => 16
  | Error _ _ => 17
  | Ping _ _ => 18
  | Pong _ => 19
  | OpenChannel _ => 32
  | AcceptChannel _ => 33
  | FundingCreated _ => 34
  | FundingSigned _ => 35
  | FundingLocked _ => 36
  | Shutdown _ _ => 38
  | ClosingSigned _ _ _ => 39
  | UpdateAddHTLC _ _ => 128
  | UpdateFulfillHTLC _ _ => 130
  | UpdateFailHTLC _ _ => 131
  | CommitSig _ _ => 132
  | RevokeAndAck _ _ => 133
  | UpdateFee _ _ => 134
  | UpdateFailMalformedHTLC _ _ => 135
  | ChannelReestablish _ _ => 136
  | ChannelAnnouncement _ => 256
  | NodeAnnouncement _ => 257
  | ChannelUpdate _ => 258
  | AnnounceSignatures _ => 259
  end.

(** The message types [makeEmptyMessage] knows. *)
Definition known_types : list Z :=
  [16; 17; 18; 19; 32; 33; 34; 35; 36; 38; 39; 128; 130; 131; 132; 133; 134; 135; 136; 256; 257; 258; 259].

Definition makeEmptyMessage (msgType : Z) : res Z :=
  if bool_decide (msgType ∈ known_types) then Ok msgType else Err ErrUnknownMessage.

Definition MaxMessagePayload : Z := 65535.

(** The methods [Encode], [MaxPayloadLength] and [Decode] of the message types; [Decode]
    gets the type of the empty message. *)
Class LnWire := {
  Encode : Message -> res bytes;
  MaxPayloadLength : Message -> Z;
  Decode : Z -> Reader Message
}.

(** A message the format can carry: it is decoded to itself.  Bytes after a message are
    left alone. *)
Definition wire_ok {W : LnWire} (m : Message) : Prop :=
  exists payload, Encode m = Ok payload /\ Z.of_nat (length payload) <= MaxMessagePayload
    /\ Z.of_nat (length payload) <= MaxPayloadLength m
    /\ exists rest, Decode (MsgType m) payload = Ok (m, rest).

Section Wire.
Context {W : LnWire}.

(** The bytes that end up in the writer, which does not fail, and the error. *)
Definition WriteMessage (msg : Message) : bytes * option goerr :=
  match Encode msg with
  | Err e => ([], Some e)
  | Ok payload =>
      let lenp := Z.of_nat (length payload) in
      if MaxMessagePayload <? lenp then ([], Some (ErrNew "message payload is too large"))
      else if MaxPayloadLength msg <? u32 lenp then ([], Some (ErrNew "message payload is too large"))
      else (put_be 2 (MsgType msg) ++ payload, None)
  end.

Definition decodeMessage (msgType : Z) : Reader Message := fun r =>
  match makeEmptyMessage msgType with
  | Err e => Err e
  | Ok t => Decode t r
  end.

Definition ReadMessage : Reader Message :=
  mType ← read_full 2;
  decodeMessage (get_be mType).

Lemma MsgType_known m : MsgType m ∈ known_types.
Proof. destruct m; apply (bool_decide_unpack _); exact I. Qed.

Lemma MsgType_u16 m : is_u16 (MsgType m).
Proof. destruct m; vm_compute; split; congruence. Qed.

Lemma WriteMessage_ok m : wire_ok m -> (WriteMessage m).2 = None.
Proof.
  intros (payload & E & H1 & H2 & _). unfold WriteMessage. rewrite E. unfold MaxMessagePayload in *.
  rewrite (proj2 (Z.ltb_ge _ _)) by lia. unfold u32. rewrite Z.mod_small by lia. by rewrite (proj2 (Z.ltb_ge _ _)) by lia.
Qed.

(** What [WriteMessage] writes, [ReadMessage] reads. *)
Lemma ReadMessage_WriteMessage m : wire_ok m -> exists rest, ReadMessage (WriteMessage m).1 = Ok (m, rest).
Proof.
  intros Hm. pose proof (WriteMessage_ok m Hm) as He. destruct Hm as (payload & E & _ & _ & rest & Hd). exists rest.
  unfold WriteMessage in *. rewrite E in *. cbv zeta in *. do 2 (case_match; [done|]). cbn [fst].
  unfold ReadMessage. erewrite reader_bind_ok by (apply read_full_app; apply put_be_length).
  cbv beta zeta. rewrite get_put_be. pose proof (MsgType_u16 m). rewrite Z.mod_small by done. unfold decodeMessage, makeEmptyMessage.
  by rewrite bool_decide_true by apply MsgType_known.
Qed.
End Wire.
