(* ===== verification/PeerWrite.v ===== *)
(** * The outgoing messages of a peer

    [queueMsg], [queueHandler], [writeHandler], [writeMessage] and [Disconnect] of peer.go.
    The goroutines exchange messages over unbuffered channels, so a handover is one step of
    both; the schedule is arbitrary. *)

From Stdlib Require Import ZArith Lia.
From Stdlib Require Import Init.Byte.
From stdpp Require Import base gmap strings numbers list.
From S2P Require Import Prelude Stream PeerWire.
Local Open Scope Z_scope.

(** [om_errChan] is the number of the channel on which the sender waits, if it does. *)
Record outgoingMsg := mkOutgoing { om_msg : Message; om_errChan : option nat }.

(** [writeHandler]: receiving; about to write; about to report; returned. *)
Inductive writer :=
  | WRecv
  | WWrite (m : outgoingMsg)
  | WAnswer (m : outgoingMsg) (err : option goerr)
  | WDone.

(** [Disconnect]: not called; past the compare-and-swap; with the connection closed; with
    [quit] closed. *)
Inductive disconnecting :=
  | DNone
  | DFlag
  | DConn
  | DQuit.

(** [ob_wire] is what the connection has taken, a byte string per call of [Write].
    [ob_answers] and [ob_refused] are what [writeHandler] and [queueMsg] have sent on the
    error channels.  [ob_accepted] are the messages [queueHandler] took, [ob_written] those
    given to [writeMessage], with its result. *)
Record outbox := mkOutbox {
  ob_disc : disconnecting;
  ob_running : bool;
  ob_pendingMsgs : list outgoingMsg;
  ob_writer : writer;
  ob_bytesSent : Z;
  ob_pingLastSend : Z;
  ob_wire : list bytes;
  ob_answers : list (nat * option goerr);
  ob_refused : list (nat * option goerr);
  ob_accepted : list outgoingMsg;
  ob_written : list (outgoingMsg * option goerr)
}.

Definition newOutbox : outbox := mkOutbox DNone true [] WRecv 0 0 [] [] [] [] [].

Inductive out_event :=
  | OQueue (m : outgoingMsg)
  | OQueueQuit (m : outgoingMsg)
  | OQueueExit
  | OHandoff
  | OWrite (now : Z) (connErr : option goerr)
  | OAnswer
  | OWriteExit
  | ODisconnect.

Section Write.
Context {W : LnWire}.

(** The answer to a sender that waits. *)
Definition answer (m : outgoingMsg) (err : option goerr) : list (nat * option goerr) :=
  match om_errChan m with Some c => [(c, err)] | None => [] end.

(** [queueMsg]: [queueHandler] takes the message, or [quit] is closed. *)
Definition queueMsg (e : out_event) (s : outbox) : option outbox :=
  let '(mkOutbox disc running pending w bs ping wire ans refused accepted written) := s in
  match e with
  | OQueue m =>
      if running then Some (mkOutbox disc running (pending ++ [m]) w bs ping wire ans refused (accepted ++ [m]) written) else None
  | OQueueQuit m =>
      match disc with
      | DQuit => Some (mkOutbox disc running pending w bs ping wire ans
                         (refused ++ answer m (Some (ErrNew "peer shutting down"))) accepted written)
      | _ => None
      end
  | _ => None
  end.

(** [queueHandler] offers the front of the queue to [writeHandler], or returns. *)
Definition queueHandler (e : out_event) (s : outbox) : option outbox :=
  let '(mkOutbox disc running pending w bs ping wire ans refused accepted written) := s in
  match e, running with
  | OHandoff, true =>
      match pending, w with
      | m :: rest, WRecv => Some (mkOutbox disc running rest (WWrite m) bs ping wire ans refused accepted written)
      | _, _ => None
      end
  | OQueueExit, true =>
      match disc with DQuit => Some (mkOutbox disc false pending w bs ping wire ans refused accepted written) | _ => None end
  | _, _ => None
  end.

(** [connErr] is what the connection's [Write] returns; the error of the encoder is
    overwritten by it. *)
Definition writeMessage (msg : Message) (connErr : option goerr) (s : outbox) : option goerr * outbox :=
  let '(mkOutbox disc running pending w bs ping wire ans refused accepted written) := s in
  match disc with
  | DNone =>
      let b := (WriteMessage msg).1 in
      let bs := u64 (bs + Z.of_nat (length b)) in
      match connErr with
      | None => (None, mkOutbox disc running pending w bs ping (wire ++ [b]) ans refused accepted written)
      | Some err => (Some err, mkOutbox disc running pending w bs ping wire ans refused accepted written)
      end
  | _ => (None, s)
  end.

Definition set_ping (m : Message) (now : Z) (s : outbox) : outbox :=
  let '(mkOutbox disc running pending w bs ping wire ans refused accepted written) := s in
  mkOutbox disc running pending w bs (match m with Ping _ _ => now | _ => ping end) wire ans refused accepted written.

(** The rest of an iteration of [writeHandler] after [writeMessage] has returned. *)
Definition written_as (m : outgoingMsg) (r : option goerr * outbox) : outbox :=
  let '(mkOutbox disc running pending w bs ping wire ans refused accepted written) := r.2 in
  mkOutbox disc running pending (WAnswer m r.1) bs ping wire ans refused accepted (written ++ [(m, r.1)]).

Definition writeHandler (e : out_event) (s : outbox) : option outbox :=
  match e, ob_writer s with
  | OWrite now connErr, WWrite m => Some (written_as m (writeMessage (om_msg m) connErr (set_ping (om_msg m) now s)))
  | OAnswer, WAnswer m err =>
      let '(mkOutbox disc running pending w bs ping wire ans refused accepted written) := s in
      Some (mkOutbox disc running pending (match err with None => WRecv | Some _ => WDone end) bs ping wire
              (ans ++ answer m err) refused accepted written)
  | OWriteExit, WRecv =>
      let '(mkOutbox disc running pending w bs ping wire ans refused accepted written) := s in
      match disc with
      | DQuit => Some (mkOutbox disc running pending WDone bs ping wire ans refused accepted written)
      | _ => None
      end
  | _, _ => None
  end.

(** The next step of [Disconnect]; a second call does nothing. *)
Definition Disconnect_step (s : outbox) : option outbox :=
  let '(mkOutbox disc running pending w bs ping wire ans refused accepted written) := s in
  match disc with
  | DNone => Some (mkOutbox DFlag running pending w bs ping wire ans refused accepted written)
  | DFlag => Some (mkOutbox DConn running pending w bs ping wire ans refused accepted written)
  | DConn => Some (mkOutbox DQuit running pending w bs ping wire ans refused accepted written)
  | DQuit => None
  end.

Definition out_step (e : out_event) (s : outbox) : option outbox :=
  match e with
  | OQueue _ | OQueueQuit _ => queueMsg e s
  | OHandoff | OQueueExit => queueHandler e s
  | OWrite _ _ | OAnswer | OWriteExit => writeHandler e s
  | ODisconnect => Disconnect_step s
  end.

Fixpoint out_run (es : list out_event) (s : outbox) : option outbox :=
  match es with
  | [] => Some s
  | e :: es => match out_step e s with Some s' => out_run es s' | None => None end
  end.

Definition out_reach (s : outbox) : Prop := exists es, out_run es newOutbox = Some s.

(** ** The invariant *)

Definition in_hand (w : writer) : list outgoingMsg := match w with WWrite m => [m] | _ => [] end.
Definition to_answer (w : writer) : list (outgoingMsg * option goerr) := match w with WAnswer m err => [(m, err)] | _ => [] end.
Definition failed (w : writer) : bool := match w with WAnswer _ (Some _) | WDone => true | _ => false end.
Definition wire_of (m : outgoingMsg) : bytes := (WriteMessage (om_msg m)).1.

(** [answered] are the messages whose sender was answered. *)
Definition out_inv (s : outbox) : Prop :=
  ob_accepted s = (ob_written s).*1 ++ in_hand (ob_writer s) ++ ob_pendingMsgs s
  /\ ob_wire s `prefix_of` (wire_of <$> (ob_written s).*1)
  /\ (exists answered, ob_written s = answered ++ to_answer (ob_writer s)
        /\ ob_answers s = answered ≫= fun p => answer p.1 p.2)
  /\ (ob_disc s = DNone ->
      if failed (ob_writer s)
      then exists front m err, ob_written s = front ++ [(m, Some err)] /\ ob_wire s = wire_of <$> front.*1
             /\ Forall (fun p => p.2 = None) front
      else ob_wire s = wire_of <$> (ob_written s).*1 /\ Forall (fun p => p.2 = None) (ob_written s))
  /\ (ob_disc s = DNone -> ob_running s = true).

Lemma out_inv_new : out_inv newOutbox.
Proof. split; [done|]. split; [by exists []|]. split; [by exists []|]. split; [|done]. intros _. cbn. by split. Qed.

Lemma queue_inv e s s' : out_inv s -> queueMsg e s = Some s' -> out_inv s'.
Proof.
  intros Hi Hs. destruct s as [disc running pending w bs ping wire ans refused accepted written].
  destruct e; cbn in Hs; try done; case_match; simplify_eq; destruct Hi as (H1 & H); split; try done; cbn in *.
  by rewrite H1, <- !app_assoc.
Qed.

Lemma queueHandler_inv e s s' : out_inv s -> queueHandler e s = Some s' -> out_inv s'.
Proof.
  intros Hi Hs. destruct s as [disc running pending w bs ping wire ans refused accepted written].
  destruct e; cbn in Hs; try done; repeat case_match; simplify_eq; destruct Hi as (H1 & H2 & H3 & H4 & H5);
    unfold out_inv; cbn in *; done.
Qed.

Lemma write_inv m now connErr s : out_inv s -> ob_writer s = WWrite m ->
  out_inv (written_as m (writeMessage (om_msg m) connErr (set_ping (om_msg m) now s))).
Proof.
  intros (H1 & H2 & (answered & H3 & H3') & H4 & H5) Hw. destruct s as [disc running pending w bs ping wire ans refused accepted written].
  cbn in *; subst. rewrite app_nil_r in *. cbn in *.
  assert (forall err, exists answered0, answered ++ [(m, err)] = answered0 ++ [(m, err)]
            /\ answered ≫= (fun p => answer p.1 p.2) = answered0 ≫= (fun p => answer p.1 p.2)) as Ha by (intros err; by exists answered).
  destruct disc; cbn.
  2-4: unfold out_inv; cbn; rewrite !fmap_app, <- app_assoc; split_and!; try done.
  2-4: by apply prefix_app_r.
  destruct H4 as [-> Hf]; [done|]. destruct connErr as [err|]; unfold out_inv; cbn; rewrite !fmap_app, <- app_assoc; split_and!; try done.
  - by eexists.
  - intros _. by exists answered, m, err.
  - intros _. split; [done|]. apply Forall_app. by split; [|constructor].
Qed.

Lemma writeHandler_inv e s s' : out_inv s -> writeHandler e s = Some s' -> out_inv s'.
Proof.
  intros Hi Hs. unfold writeHandler in Hs. destruct e; try done; destruct (ob_writer s) eqn:Ew; try done.
  - injection Hs as <-. by apply write_inv.
  - destruct Hi as (H1 & H2 & (answered & H3 & H3') & H4 & H5).
    destruct s as [disc running pending w bs ping wire ans refused accepted written]; cbn in *; simplify_eq; unfold out_inv; cbn in *.
    split_and!; try done.
    + by destruct err.
    + exists (answered ++ [(m, err)]). rewrite bind_app. cbn. rewrite app_nil_r. destruct err; cbn; by rewrite ?app_nil_r.
    + by destruct err.
  - destruct Hi as (H1 & H2 & H3 & H4 & H5).
    destruct s as [disc running pending w bs ping wire ans refused accepted written]; cbn in *; destruct disc; simplify_eq; unfold out_inv; cbn in *.
    done.
Qed.

Lemma Disconnect_inv s s' : out_inv s -> Disconnect_step s = Some s' -> out_inv s'.
Proof.
  intros (H1 & H2 & H3 & H4 & H5) Hs. destruct s as [disc running pending w bs ping wire ans refused accepted written].
  cbn in Hs; destruct disc; simplify_eq; unfold out_inv; cbn in *; done.
Qed.

Lemma out_inv_step e s s' : out_inv s -> out_step e s = Some s' -> out_inv s'.
Proof.
  destruct e; cbn [out_step]; eauto using queue_inv, queueHandler_inv, writeHandler_inv, Disconnect_inv.
Qed.

Lemma out_inv_run es s s' : out_inv s -> out_run es s = Some s' -> out_inv s'.
Proof.
  revert s. induction es as [|e es IH]; intros s Hi Hr; cbn in Hr; [by simplify_eq|].
  case_match; [|done]. by eapply IH; [eapply out_inv_step|].
Qed.

Lemma out_reach_inv s : out_reach s -> out_inv s.
Proof. intros [es Hr]. eapply out_inv_run; [apply out_inv_new | done]. Qed.

(** ** Progress *)

(** The steps of the two goroutines while the connection works. *)
Definition out_internal (e : out_event) : bool :=
  match e with OHandoff | OWrite _ None | OAnswer => true | _ => false end.

Definition out_work (s : outbox) : nat :=
  (3 * length (ob_pendingMsgs s) + match ob_writer s with WWrite _ => 2 | WAnswer _ _ => 1 | _ => 0 end)%nat.

Lemma out_work_step e s s' :
  out_internal e = true -> ob_disc s = DNone -> failed (ob_writer s) = false -> out_step e s = Some s' ->
  (out_work s' < out_work s)%nat /\ ob_disc s' = DNone /\ failed (ob_writer s') = false /\ ob_accepted s' = ob_accepted s.
Proof.
  intros He Hd Hf Hs. destruct s as [disc running pending w bs ping wire ans refused accepted written]; cbn in *; subst.
  destruct e as [| | | |now [|]| | |]; try done; cbn in Hs; unfold writeHandler in Hs; cbn in Hs; unfold out_work.
  - repeat case_match; simplify_eq; cbn. split; [lia | done].
  - destruct w; simplify_eq; cbn. split; [lia | done].
  - destruct w as [| |m [|]|]; simplify_eq; cbn. split; [lia | done].
Qed.

Lemma out_work_run es s s' :
  forallb out_internal es = true -> ob_disc s = DNone -> failed (ob_writer s) = false -> out_run es s = Some s' ->
  (length es + out_work s' <= out_work s)%nat /\ ob_disc s' = DNone /\ failed (ob_writer s') = false /\ ob_accepted s' = ob_accepted s.
Proof.
  revert s. induction es as [|e es IH]; intros s He Hd Hf Hr; cbn [out_run length forallb] in *; [by simplify_eq|].
  apply andb_prop in He as [He Hes]. case_match eqn:E; [|done].
  destruct (out_work_step _ _ _ He Hd Hf E) as (Hw & Hd' & Hf' & Ha). destruct (IH _ Hes Hd' Hf' Hr) as (? & ? & ? & ->).
  split; [lia | done].
Qed.

Lemma out_quiescent s :
  out_inv s -> ob_disc s = DNone -> failed (ob_writer s) = false ->
  (forall e, out_internal e = true -> out_step e s = None) ->
  ob_wire s = wire_of <$> ob_accepted s /\ ob_answers s = ob_accepted s ≫= fun m => answer m None.
Proof.
  intros (H1 & _ & (answered & H3 & H3') & H4 & H5) Hd Hf Hn.
  pose proof (Hn OHandoff eq_refl) as Nh. pose proof (Hn OAnswer eq_refl) as Na. pose proof (Hn (OWrite 0 None) eq_refl) as Nw. clear Hn.
  specialize (H4 Hd). specialize (H5 Hd). rewrite Hf in H4. destruct H4 as [Hw Hall].
  destruct s as [disc running pending w bs ping wire ans refused accepted written]; cbn in *; subst.
  unfold writeHandler in *. destruct w; try done; cbn in *. destruct pending; [|done]. rewrite !app_nil_r in *. split; [done|].
  clear -Hall. induction Hall as [|[m err] l Hp Hall IH]; [done|]. cbn in *. by rewrite IH, Hp.
Qed.

(** The messages given to a peer go out in the order in which they were queued, each
    once: those accepted are those written, the one being written and the queue; what the
    connection has taken is the encoding of an initial part of them.  Every sender is
    answered at most once, in order, with the result of its own message, and as long as the
    peer is not disconnecting a positive answer means that the message is on the wire.
    While the connection works everything queued is written and answered, in a bounded
    number of steps of the goroutines and whatever their schedule. *)
Theorem outgoing_in_order s :
  out_reach s ->
  (ob_accepted s = (ob_written s).*1 ++ in_hand (ob_writer s) ++ ob_pendingMsgs s
   /\ ob_wire s `prefix_of` (wire_of <$> ob_accepted s)
   /\ (exists answered, ob_written s = answered ++ to_answer (ob_writer s) /\ ob_answers s = answered ≫= fun p => answer p.1 p.2)
   /\ (ob_disc s = DNone -> forall i m, ob_written s !! i = Some (m, None) -> ob_wire s !! i = Some (wire_of m)))
  /\ forall es s', ob_disc s = DNone -> failed (ob_writer s) = false -> forallb out_internal es = true -> out_run es s = Some s' ->
     (length es <= out_work s)%nat
     /\ ((forall e, out_internal e = true -> out_step e s' = None) ->
         ob_wire s' = wire_of <$> ob_accepted s /\ ob_answers s' = ob_accepted s ≫= fun m => answer m None).
Proof.
  intros Hr. pose proof (out_reach_inv s Hr) as Hi. split.
  - destruct Hi as (H1 & H2 & H3 & H4 & _). split; [done|]. split; [|split; [done|]].
    { rewrite H1, fmap_app. by apply prefix_app_r. }
    intros Hd i m Hl. specialize (H4 Hd). destruct (failed (ob_writer s)).
    + destruct H4 as (front & m' & err & E & -> & _). rewrite E in Hl. apply lookup_app_Some in Hl as [Hl|[_ Hl]].
      * by rewrite !list_lookup_fmap, Hl.
      * by apply list_lookup_singleton_Some in Hl as [_ ?].
    + destruct H4 as [-> _]. by rewrite !list_lookup_fmap, Hl.
  - intros es s' Hd Hf He Hrun. destruct (out_work_run _ _ _ He Hd Hf Hrun) as (Hw & Hd' & Hf' & <-). split; [lia|].
    intros Hn. apply out_quiescent; try done. by eapply out_inv_run.
Qed.

(** ** What an answer is worth *)

(** A message whose encoding fails is answered as sent; what went out is empty. *)
Lemma encode_error_ignored m c e now :
  Encode m = Err e ->
  exists s, out_run [OQueue (mkOutgoing m (Some c)); OHandoff; OWrite now None; OAnswer] newOutbox = Some s
    /\ ob_answers s = [(c, None)] /\ ob_wire s = [[]].
Proof. intros He. eexists. split; [reflexivity|]. cbn. unfold WriteMessage. by rewrite He. Qed.

(** A message that reaches [writeMessage] after [Disconnect] was called is answered as
    sent and never written. *)
Lemma answered_not_written m c now connErr :
  exists s, out_run [OQueue (mkOutgoing m (Some c)); OHandoff; ODisconnect; OWrite now connErr; OAnswer] newOutbox = Some s
    /\ ob_answers s = [(c, None)] /\ ob_wire s = [].
Proof. by eexists. Qed.

(** ** Waiting for the answer *)

(** The [select] of [SendToPeer] on the error channel of a message. *)
Inductive outcome :=
  | Answered (err : option goerr)
  | PeerQuit
  | ServerQuit.

(** The loop of [SendToPeer]; it returns in its first iteration. *)
Definition SendToPeer (outcomes : list outcome) : option goerr :=
  match outcomes with
  | [] => None
  | Answered err :: _ => err
  | PeerQuit :: _ => Some (ErrNew "peer shutting down")
  | ServerQuit :: _ => Some (ErrNew "server shutting down")
  end.

(** The result of all messages but the first is ignored. *)
Lemma SendToPeer_first o outcomes : SendToPeer (o :: outcomes) = SendToPeer [o].
Proof. by destruct o. Qed.
End Write.
