(* ===== verification/PeerRead.v ===== *)
(** * The incoming messages of a peer

    [readHandler] of peer.go: it reads messages in a loop and hands each of them to the
    part it is for, those for a channel over a stream ([msgStream]) per channel.  Its
    steps are interleaved with those of the streams' consumers. *)

From Stdlib Require Import ZArith Lia.
From Stdlib Require Import Init.Byte.
From stdpp Require Import base gmap strings numbers list.
From S2P Require Import Prelude Stream PeerStream PeerWire.
Local Open Scope Z_scope.

(** ** Dispatch *)

(** The channel of a message that goes to the link of a channel. *)
Definition chan_update (m : Message) : option ChannelID :=
  match m with
  | UpdateAddHTLC c _ | UpdateFulfillHTLC c _ | UpdateFailMalformedHTLC c _ | UpdateFailHTLC c _
  | RevokeAndAck c _ | CommitSig c _ | UpdateFee c _ | ChannelReestablish c _ => Some c
  | _ => None
  end.

Definition gossip (m : Message) : bool :=
  match m with ChannelUpdate _ | ChannelAnnouncement _ | NodeAnnouncement _ | AnnounceSignatures _ => true | _ => false end.

(** What goes to other parts: the funding manager, the channel manager of the peer, its
    outgoing queue. *)
Inductive read_out :=
  | ToFunding (m : Message)
  | ToFundingError (m : Message)
  | ToCloser (ChanID : ChannelID) (m : Message)
  | ToQueue (m : Message).

(** A stream: that of the gossiper or that of a channel. *)
Definition skey : Type := option ChannelID.

(** The goroutine: at the top of its loop; with messages to add to streams; in [AddMsg] of
    a stream; sending to the channel manager; stopping the streams; returned. *)
Inductive read_pc :=
  | RRead
  | RAdd (todo : list (skey * Message))
  | RAdding (k : skey) (todo : list (skey * Message))
  | RSend (ChanID : ChannelID) (m : Message)
  | RStop (todo : list skey)
  | RDone.

(** [rd_inputs] are the messages read, each with what [IsPendingChannel] answered for
    it. *)
Record reader := mkReader {
  rd_disconnect : bool;
  rd_quit : bool;
  rd_pc : read_pc;
  rd_discStream : msgStream Message;
  rd_chanMsgStreams : gmap bytes (msgStream Message);
  rd_failedChannels : gset bytes;
  rd_pingTime : Z;
  rd_out : list read_out;
  rd_inputs : list (Message * bool)
}.

Definition stream_size : nat := 1000.

Definition newReader : reader := mkReader false false RRead (newMsgStream stream_size) ∅ ∅ 0 [] [].

Definition set_pc (pc : read_pc) (s : reader) : reader :=
  let '(mkReader d q _ g c f pt o i) := s in mkReader d q pc g c f pt o i.
Definition set_failed (f : gset bytes) (s : reader) : reader :=
  let '(mkReader d q pc g c _ pt o i) := s in mkReader d q pc g c f pt o i.
Definition read_send (x : read_out) (s : reader) : reader :=
  let '(mkReader d q pc g c f pt o i) := s in mkReader d q pc g c f pt (o ++ [x]) i.
Definition set_pingTime (pt : Z) (s : reader) : reader :=
  let '(mkReader d q pc g c f _ o i) := s in mkReader d q pc g c f pt o i.
Definition set_streams (c : gmap bytes (msgStream Message)) (s : reader) : reader :=
  let '(mkReader d q pc g _ f pt o i) := s in mkReader d q pc g c f pt o i.
Definition set_disc (g : msgStream Message) (s : reader) : reader :=
  let '(mkReader d q pc _ c f pt o i) := s in mkReader d q pc g c f pt o i.
Definition log_input (x : Message * bool) (s : reader) : reader :=
  let '(mkReader d q pc g c f pt o i) := s in mkReader d q pc g c f pt o (i ++ [x]).

Definition get_stream (k : skey) (s : reader) : option (msgStream Message) :=
  match k with None => Some (rd_discStream s) | Some c => rd_chanMsgStreams s !! c end.
Definition put_stream (k : skey) (x : msgStream Message) (s : reader) : reader :=
  match k with None => set_disc x s | Some c => set_streams (<[c := x]> (rd_chanMsgStreams s)) s end.

(** The stream of a channel, created if it is not there. *)
Definition ensure_stream (c : ChannelID) (s : reader) : reader :=
  match rd_chanMsgStreams s !! c with
  | Some _ => s
  | None => set_streams (<[c := newMsgStream stream_size]> (rd_chanMsgStreams s)) s
  end.

(** The message goes to the stream of a channel. *)
Definition to_channel (c : ChannelID) (m : Message) (s : reader) : reader :=
  set_pc (RAdd [(Some c, m)]) (ensure_stream c s).

(** The [switch] on the message.  [isPending] is the answer of [IsPendingChannel], [delay]
    the time since the last ping. *)
Definition dispatch (m : Message) (isPending : bool) (delay : Z) (s : reader) : reader :=
  match m with
  | Pong _ => set_pc (RAdd []) (set_pingTime delay s)
  | Ping n _ => set_pc (RAdd []) (read_send (ToQueue (Pong (replicate (Z.to_nat n) x00))) s)
  | OpenChannel _ | AcceptChannel _ | FundingCreated _ | FundingSigned _ | FundingLocked _ =>
      set_pc (RAdd []) (read_send (ToFunding m) s)
  | Shutdown c _ | ClosingSigned c _ _ => set_pc (RSend c m) s
  | Error c _ =>
      if decide (c = ConnectionWideID) then
        let ids := (map_to_list (rd_chanMsgStreams s)).*1 in
        set_pc (RAdd ((fun i => (Some i, m)) <$> ids)) (set_failed (rd_failedChannels s ∪ list_to_set ids) s)
      else if isPending then set_pc (RAdd []) (read_send (ToFundingError m) s)
      else to_channel c m (set_failed ({[c]} ∪ rd_failedChannels s) s)
  | _ =>
      match chan_update m with
      | Some c => to_channel c m s
      | None => if gossip m then set_pc (RAdd [(None, m)]) s else set_pc (RAdd []) s
      end
  end.

(** ** Steps *)

Inductive read_event :=
  | EvMessage (m : Message) (isPending : bool) (delay : Z)
  | EvSkip
  | EvFail
  | EvLoopEnds
  | EvAdd
  | EvAdding (e : stream_event Message)
  | EvSent
  | EvSentQuit
  | EvConsumer (k : skey) (e : stream_event Message)
  | EvStopping (e : stream_event Message)
  | EvDisconnect
  | EvQuit.

Definition is_idle (p : producer (M:=Message)) : bool := match p with PIdle => true | _ => false end.
Definition is_stopped (p : stopper) : bool := match p with SDone => true | _ => false end.
Definition producer_event (e : stream_event Message) : bool :=
  match e with EAcquire | EAcquireQuit | EAppend | ESignal => true | _ => false end.
Definition consumer_event (e : stream_event Message) : bool := match e with EConsume | EConsumeQuit => true | _ => false end.
Definition stop_event (e : stream_event Message) : bool := match e with EStop | EStopLoop | EStopWait => true | _ => false end.

(** The end of the loop: the channel streams are stopped, then that of the gossiper. *)
Definition leave_loop (s : reader) : reader :=
  set_pc (RStop ((Some <$> (map_to_list (rd_chanMsgStreams s)).*1) ++ [None])) s.

(** A step of the stream [k]. *)
Definition step_stream (k : skey) (e : stream_event Message) (s : reader) : option (msgStream Message * reader) :=
  match get_stream k s with
  | Some x => match stream_step e x with Some x' => Some (x', put_stream k x' s) | None => None end
  | None => None
  end.

(** [EvMessage], [EvSkip], [EvFail]: what [readNextMessage] returns: a message, an error
    that is skipped, another error.  [EvDisconnect] and [EvQuit] are steps of
    [Disconnect], which the goroutine itself calls on its way out. *)
Definition readHandler (e : read_event) (s : reader) : option reader :=
  match e, rd_pc s with
  | EvLoopEnds, RRead => if rd_disconnect s then Some (leave_loop s) else None
  | EvMessage m isPending delay, RRead => Some (log_input (m, isPending) (dispatch m isPending delay s))
  | EvSkip, RRead => Some s
  | EvFail, RRead => Some (leave_loop s)
  | EvAdd, RAdd [] => Some (set_pc RRead s)
  | EvAdd, RAdd ((k, m) :: todo) =>
      match step_stream k (EAddMsg m) s with Some (_, s') => Some (set_pc (RAdding k todo) s') | None => None end
  | EvAdding e, RAdding k todo =>
      if producer_event e then
        match step_stream k e s with
        | Some (x, s') => Some (if is_idle (ms_producer x) then set_pc (RAdd todo) s' else s')
        | None => None
        end
      else None
  | EvSent, RSend c m => Some (set_pc RRead (read_send (ToCloser c m) s))
  | EvSentQuit, RSend c m => if rd_quit s then Some (leave_loop s) else None
  | EvStopping e, RStop (k :: todo) =>
      if stop_event e && rd_disconnect s then
        match step_stream k e s with
        | Some (x, s') => Some (if is_stopped (ms_stopper x) then set_pc (RStop todo) s' else s')
        | None => None
        end
      else None
  | EvStopping _, RStop [] => Some (set_pc RDone s)
  | _, _ => None
  end.

(** All steps: of the goroutine, of the consumers, and of [Disconnect]. *)
Definition read_step (e : read_event) (s : reader) : option reader :=
  match e with
  | EvConsumer k e => if consumer_event e then snd <$> step_stream k e s else None
  | EvDisconnect => Some (let '(mkReader d q pc g c f pt o i) := s in mkReader true q pc g c f pt o i)
  | EvQuit => if rd_disconnect s then Some (let '(mkReader d q pc g c f pt o i) := s in mkReader d true pc g c f pt o i) else None
  | _ => readHandler e s
  end.

Fixpoint read_run (es : list read_event) (s : reader) : option reader :=
  match es with
  | [] => Some s
  | e :: es => match read_step e s with Some s' => read_run es s' | None => None end
  end.

Definition read_reach (s : reader) : Prop := exists es, read_run es newReader = Some s.

(** ** What the streams should get *)

(** The messages for the stream of channel [c], in the order of reading: updates of the
    channel, errors about it unless it is a pending channel, and, once there is a stream,
    errors about all channels. *)
Definition for_channel (c : ChannelID) (started : bool) (i : Message * bool) : bool :=
  match i.1 with
  | Error c' _ => if decide (c' = ConnectionWideID) then started else bool_decide (c' = c) && negb i.2
  | m => bool_decide (chan_update m = Some c)
  end.

Definition nonempty {A} (l : list A) : bool := match l with [] => false | _ => true end.

Definition routed (c : ChannelID) (inputs : list (Message * bool)) : list Message :=
  foldl (fun l i => if for_channel c (nonempty l) i then l ++ [i.1] else l) [] inputs.

Definition routed_to (k : skey) (inputs : list (Message * bool)) : list Message :=
  match k with
  | Some c => routed c inputs
  | None => List.filter gossip inputs.*1
  end.
