(* ===== verification/PeerReadInv.v ===== *)
(** * The streams of a peer get what they should

    The invariant of [readHandler] with its streams, and that every step keeps it. *)

From Stdlib Require Import ZArith Lia.
From Stdlib Require Import Init.Byte.
From stdpp Require Import base gmap strings numbers list.
From S2P Require Import Prelude Stream PeerStream PeerWire PeerRead.
Local Open Scope Z_scope.

Notation mstream := (msgStream Message).

(** ** One step of a stream *)

Definition waiting (x : mstream) : list Message := match ms_producer x with PAcquire m => [m] | _ => [] end.

Lemma consumer_keeps e (x x' : mstream) :
  consumer_event e = true -> stream_step e x = Some x' ->
  ms_producer x' = ms_producer x /\ ms_added x' = ms_added x /\ ms_quit x' = ms_quit x.
Proof.
  destruct x as [sd msgs bs sema q c p st added applied]. destruct e; try done; intros _ Hs; cbn in Hs; repeat case_match; by simplify_eq.
Qed.

Lemma stop_keeps e (x x' : mstream) :
  stop_event e = true -> stream_step e x = Some x' -> ms_producer x' = ms_producer x /\ ms_added x' = ms_added x.
Proof.
  destruct x as [sd msgs bs sema q c p st added applied]. destruct e; try done; intros _ Hs; cbn in Hs; repeat case_match; simplify_eq; try done.
  unfold Signal. cbn. by destruct c.
Qed.

Lemma producer_keeps e (x x' : mstream) :
  producer_event e = true -> ms_quit x = false -> stream_step e x = Some x' ->
  ms_added x' ++ waiting x' = ms_added x ++ waiting x /\ ms_quit x' = false.
Proof.
  destruct x as [sd msgs bs sema q c p st added applied]. unfold waiting.
  destruct e; try done; intros _ Hq Hs; cbn in *; subst; repeat case_match; simplify_eq; cbn in *; try done.
  all: try (by rewrite app_nil_r). all: unfold Signal; cbn; by destruct c.
Qed.

Lemma add_keeps m (x x' : mstream) :
  stream_step (EAddMsg m) x = Some x' ->
  ms_producer x = PIdle /\ ms_producer x' = PAcquire m /\ ms_added x' = ms_added x /\ ms_quit x' = ms_quit x.
Proof. destruct x as [sd msgs bs sema q c p st added applied]. cbn. intros Hs; case_match; by simplify_eq. Qed.

(** ** The invariant *)

Definition todo_of (pc : read_pc) : list (skey * Message) := match pc with RAdd l | RAdding _ l => l | _ => [] end.
Definition adding_to (pc : read_pc) : option skey := match pc with RAdding k _ => Some k | _ => None end.
Definition stopping (pc : read_pc) : bool := match pc with RStop _ | RDone => true | _ => false end.

(** The messages of a list for the stream [k]. *)
Definition for_key (k : skey) (l : list (skey * Message)) : list Message :=
  omap (fun p => if decide (p.1 = k) then Some p.2 else None) l.

(** A stream has got what was read for it, but for the message that waits for a slot and
    those not yet given to it. *)
Definition stream_ok (pc : read_pc) (inputs : list (Message * bool)) (k : skey) (x : mstream) : Prop :=
  stream_inv x /\ ms_bufSize x = stream_size
  /\ ms_added x ++ waiting x ++ for_key k (todo_of pc) = routed_to k inputs
  /\ (ms_producer x = PIdle <-> adding_to pc <> Some k)
  /\ (stopping pc = false -> ms_quit x = false).

(** A channel has a stream once there was a message for it. *)
Definition streams_inv (pc : read_pc) (get : skey -> option mstream) (inputs : list (Message * bool)) : Prop :=
  (forall k x, get k = Some x -> stream_ok pc inputs k x)
  /\ (forall c, get (Some c) = None <-> routed c inputs = [])
  /\ (forall k, get k = None -> for_key k (todo_of pc) = [] /\ adding_to pc <> Some k)
  /\ is_Some (get None).

Definition read_inv (s : reader) : Prop := streams_inv (rd_pc s) (fun k => get_stream k s) (rd_inputs s).

Lemma streams_inv_ext pc get get' inputs :
  (forall k, get' k = get k) -> streams_inv pc get inputs -> streams_inv pc get' inputs.
Proof.
  intros E (H1 & H2 & H3 & H4). split_and!.
  - intros k x. rewrite E. apply H1.
  - intros c. rewrite E. apply H2.
  - intros k. rewrite E. apply H3.
  - by rewrite E.
Qed.

Lemma read_inv_new : read_inv newReader.
Proof.
  split; [|split; [|split; [|by eexists]]].
  - intros [c|] x Hx; cbn in Hx; [by rewrite lookup_empty in Hx|]. simplify_eq. split_and!; try done. apply stream_inv_new.
  - done.
  - intros [c|] Hx; done.
Qed.

(** A step of the stream [k], from [x] to [x'], with which the goroutine moves to [pc']. *)
Lemma streams_inv_step pc pc' get get' inputs k x x' :
  streams_inv pc get inputs -> get k = Some x -> stream_inv x' -> ms_bufSize x' = ms_bufSize x ->
  ms_added x' ++ waiting x' ++ for_key k (todo_of pc') = ms_added x ++ waiting x ++ for_key k (todo_of pc) ->
  (ms_producer x' = PIdle <-> adding_to pc' <> Some k) ->
  (forall k', k' <> k -> for_key k' (todo_of pc') = for_key k' (todo_of pc) /\ (adding_to pc' = Some k' <-> adding_to pc = Some k')) ->
  (stopping pc' = false -> stopping pc = false /\ ms_quit x' = false) ->
  get' k = Some x' -> (forall k', k' <> k -> get' k' = get k') ->
  streams_inv pc' get' inputs.
Proof.
  intros (H1 & H2 & H3 & H4) Hk Hx Hb Ha Hp Ho Hq Gk Go.
  destruct (H1 k x Hk) as (_ & Hbs & Hr & _). split_and!.
  - intros k' y Hy. destruct (decide (k' = k)) as [->|Hne].
    + rewrite Gk in Hy. simplify_eq. split_and!; [done|congruence| |done|intros; by apply Hq]. by rewrite Ha.
    + rewrite Go in Hy by done. destruct (H1 k' y Hy) as (Y1 & Y2 & Y3 & Y4 & Y5). destruct (Ho k' Hne) as [Hf Had].
      split_and!; [done|done|by rewrite Hf| |intros Hs; by apply Y5, Hq]. rewrite Y4. by rewrite Had.
  - intros c. destruct (decide (Some c = k)) as [<-|Hne].
    + rewrite <- H2, Gk, Hk. done.
    + by rewrite Go.
  - intros k' Hn. destruct (decide (k' = k)) as [->|Hne]; [by rewrite Gk in Hn|]. rewrite Go in Hn by done.
    destruct (Ho k' Hne) as [-> Had]. rewrite Had. by apply H3.
  - destruct (decide (None = k)) as [<-|Hne]; [by eexists | by rewrite Go].
Qed.

(** ** Reading a message *)

Lemma routed_snoc c inputs i :
  routed c (inputs ++ [i]) = routed c inputs ++ (if for_channel c (nonempty (routed c inputs)) i then [i.1] else []).
Proof. unfold routed at 1. rewrite foldl_app. cbn. fold (routed c inputs). case_match; [done|]. by rewrite app_nil_r. Qed.

Lemma routed_to_snoc k inputs i :
  routed_to k (inputs ++ [i]) = routed_to k inputs ++
    (if match k with Some c => for_channel c (nonempty (routed c inputs)) i | None => gossip i.1 end then [i.1] else []).
Proof.
  destruct k as [c|]; cbn; [apply routed_snoc|]. rewrite fmap_app, List.filter_app. cbn. by case_match.
Qed.

(** The message goes to the streams of [l], all of which exist. *)
Lemma streams_inv_input pc get inputs i l :
  streams_inv RRead get inputs -> todo_of pc = l -> adding_to pc = None -> stopping pc = false ->
  (forall k x, get k = Some x ->
     (if match k with Some c => for_channel c true i | None => gossip i.1 end then [i.1] else []) = for_key k l) ->
  (forall c, get (Some c) = None -> for_channel c false i = false /\ for_key (Some c) l = []) ->
  streams_inv pc get (inputs ++ [i]).
Proof.
  intros (H1 & H2 & H3 & H4) Ht Ha Hs Hl Hn.
  assert (forall c x, get (Some c) = Some x -> nonempty (routed c inputs) = true) as Hne.
  { intros c x Hx. destruct (routed c inputs) eqn:E; [|done]. apply H2 in E. by rewrite E in Hx. }
  split_and!.
  - intros k x Hx. destruct (H1 k x Hx) as (Y1 & Y2 & Y3 & Y4 & Y5). split_and!; [done|done| | |intros _; by apply Y5].
    + rewrite Ht, routed_to_snoc, <- Y3. cbn. rewrite app_nil_r, <- app_assoc. do 2 f_equal.
      rewrite <- (Hl k x Hx). destruct k as [c|]; [|done]. by rewrite (Hne c x Hx).
    + rewrite Ha. split; [done|]. intros _. by apply Y4.
  - intros c. rewrite routed_snoc. split.
    + intros Hx. destruct (Hn c Hx) as [Hf _]. apply H2 in Hx. rewrite Hx. cbn [nonempty]. by rewrite Hf.
    + intros E. apply app_eq_nil in E as [E _]. by apply H2.
  - intros k Hx. rewrite Ht, Ha. split; [|done]. destruct k as [c|]; [by apply Hn|]. by rewrite Hx in H4; destruct H4.
  - done.
Qed.

(** The same with a new stream for the channel [c] of the message. *)
Lemma streams_inv_open get get' inputs i c :
  streams_inv RRead get inputs -> get (Some c) = None -> get' (Some c) = Some (newMsgStream stream_size) ->
  (forall k, k <> Some c -> get' k = get k) ->
  for_channel c false i = true -> (forall c' b, c' <> c -> for_channel c' b i = false) -> gossip i.1 = false ->
  streams_inv (RAdd [(Some c, i.1)]) get' (inputs ++ [i]).
Proof.
  intros (H1 & H2 & H3 & H4) Hc Gc Go Hf Ho Hg. pose proof (proj1 (H2 c) Hc) as Hr. split_and!.
  - intros k x Hx. destruct (decide (k = Some c)) as [->|Hne].
    + rewrite Gc in Hx. simplify_eq. split_and!; try done; [apply stream_inv_new|].
      cbn. rewrite decide_True by done. cbn. rewrite routed_snoc, Hr. cbn [nonempty]. by rewrite Hf.
    + rewrite Go in Hx by done. destruct (H1 k x Hx) as (Y1 & Y2 & Y3 & Y4 & Y5).
      split_and!; [done|done| | |done].
      * rewrite routed_to_snoc, <- Y3.
        assert (match k with Some c0 => for_channel c0 (nonempty (routed c0 inputs)) i | None => gossip i.1 end = false) as ->
          by (destruct k as [c'|]; [apply Ho; congruence|done]).
        unfold for_key. cbn. rewrite decide_False by done. by rewrite !app_nil_r.
      * split; [done|]. intros _. by apply Y4.
  - intros c'. destruct (decide (c' = c)) as [->|Hne].
    + rewrite Gc, routed_snoc, Hr. cbn [nonempty]. by rewrite Hf.
    + rewrite Go by congruence. rewrite routed_snoc, Ho, app_nil_r by done. apply H2.
  - intros k Hx. destruct (decide (k = Some c)) as [->|Hne]; [by rewrite Gc in Hx|]. cbn. by rewrite decide_False.
  - by rewrite Go.
Qed.

Lemma for_key_cons k k' m l : for_key k ((k', m) :: l) = (if decide (k' = k) then [m] else []) ++ for_key k l.
Proof. unfold for_key. cbn. by case_decide. Qed.

(** A message for several channels goes to each of them once. *)
Lemma for_key_ids k (ids : list bytes) m :
  NoDup ids -> for_key k ((fun i => (Some i, m)) <$> ids) = match k with Some c => if decide (c ∈ ids) then [m] else [] | None => [] end.
Proof.
  intros Hd. induction Hd as [|i ids Hi Hd IH]; [by destruct k|]. rewrite fmap_cons, for_key_cons, IH. destruct k as [c|].
  - destruct (decide (i = c)) as [->|Hne].
    + rewrite decide_True by done. rewrite (decide_False (P := c ∈ ids)) by done. by rewrite decide_True by set_solver.
    + rewrite decide_False by congruence. cbn.
      destruct (decide (c ∈ ids)); [rewrite decide_True by set_solver | rewrite decide_False by set_solver]; done.
  - by rewrite decide_False.
Qed.

(** ** Every step keeps the invariant *)

Lemma stream_inv_upd s k x x' pc' :
  read_inv s -> get_stream k s = Some x -> stream_inv x' -> ms_bufSize x' = ms_bufSize x ->
  ms_added x' ++ waiting x' ++ for_key k (todo_of pc') = ms_added x ++ waiting x ++ for_key k (todo_of (rd_pc s)) ->
  (ms_producer x' = PIdle <-> adding_to pc' <> Some k) ->
  (forall k', k' <> k -> for_key k' (todo_of pc') = for_key k' (todo_of (rd_pc s))
     /\ (adding_to pc' = Some k' <-> adding_to (rd_pc s) = Some k')) ->
  (stopping pc' = false -> stopping (rd_pc s) = false /\ ms_quit x' = false) ->
  read_inv (set_pc pc' (put_stream k x' s)).
Proof.
  intros Hi Hk Hx Hb Ha Hp Ho Hq. unfold read_inv.
  assert (rd_pc (set_pc pc' (put_stream k x' s)) = pc') as -> by (by destruct s, k).
  assert (rd_inputs (set_pc pc' (put_stream k x' s)) = rd_inputs s) as -> by (by destruct s, k).
  eapply (streams_inv_step (rd_pc s) pc' (fun k => get_stream k s)); try done.
  - destruct s, k; cbn; [by rewrite lookup_insert_eq|done].
  - intros k' Hne. destruct s, k as [c|], k' as [c'|]; cbn; try done. rewrite lookup_insert_ne; [done|congruence].
Qed.

Lemma set_pc_same s : set_pc (rd_pc s) s = s.
Proof. by destruct s. Qed.

Lemma put_stream_pc k x s : rd_pc (put_stream k x s) = rd_pc s.
Proof. by destruct s, k. Qed.

Lemma consumer_inv k e s s' :
  read_inv s -> read_step (EvConsumer k e) s = Some s' -> read_inv s'.
Proof.
  intros Hi Hs. cbn in Hs. destruct (consumer_event e) eqn:He; [|done]. unfold step_stream in Hs.
  destruct (get_stream k s) as [x|] eqn:Hk; [|done]. destruct (stream_step e x) as [x'|] eqn:Hx; [|done]. injection Hs as <-.
  destruct (proj1 Hi k x Hk) as (Y1 & Y2 & Y3 & Y4 & Y5). destruct (consumer_keeps e x x' He Hx) as (Hp & Ha & Hq).
  rewrite <- (set_pc_same (put_stream k x' s)), put_stream_pc. eapply stream_inv_upd; try done.
  - by eapply stream_inv_step.
  - by eapply bufSize_step.
  - unfold waiting. by rewrite Ha, Hp.
  - by rewrite Hp.
  - intros Hst. rewrite Hq. auto.
Qed.

(** The goroutine moves between two points at which it adds nothing. *)
Lemma inv_pc s pc' :
  read_inv s -> todo_of (rd_pc s) = [] -> adding_to (rd_pc s) = None -> todo_of pc' = [] -> adding_to pc' = None ->
  (stopping pc' = false -> stopping (rd_pc s) = false) -> read_inv (set_pc pc' s).
Proof.
  intros (H1 & H2 & H3 & H4) E1 E2 E3 E4 Hs. unfold read_inv.
  assert (rd_pc (set_pc pc' s) = pc') as -> by (by destruct s).
  assert (rd_inputs (set_pc pc' s) = rd_inputs s) as -> by (by destruct s).
  apply (streams_inv_ext pc' (fun k => get_stream k s)); [intros k; by destruct s|]. split_and!; try done.
  - intros k x Hx. destruct (H1 k x Hx) as (Y1 & Y2 & Y3 & Y4 & Y5). rewrite E1, E2 in *. split_and!; try done; [by rewrite E3|by rewrite E4|auto].
  - intros k Hx. by rewrite E3, E4.
Qed.

Lemma leave_loop_inv s : read_inv s -> todo_of (rd_pc s) = [] -> adding_to (rd_pc s) = None -> read_inv (leave_loop s).
Proof. intros Hi H1 H2. by apply inv_pc. Qed.

Lemma read_inv_other s s' :
  rd_pc s' = rd_pc s -> rd_discStream s' = rd_discStream s -> rd_chanMsgStreams s' = rd_chanMsgStreams s -> rd_inputs s' = rd_inputs s ->
  read_inv s -> read_inv s'.
Proof.
  intros E1 E2 E3 E4. unfold read_inv. rewrite E1, E4. apply streams_inv_ext. intros [c|]; cbn; congruence.
Qed.

Lemma add_inv s s' : read_inv s -> readHandler EvAdd s = Some s' -> read_inv s'.
Proof.
  intros Hi Hs. unfold readHandler in Hs. destruct (rd_pc s) as [|[|[k m] todo]| | | |] eqn:Epc; try done.
  - injection Hs as <-. apply inv_pc; try done; by rewrite Epc.
  - unfold step_stream in Hs. destruct (get_stream k s) as [x|] eqn:Hk; [|done].
    destruct (stream_step (EAddMsg m) x) as [x'|] eqn:Hx; [|done]. injection Hs as <-.
    destruct (proj1 Hi k x Hk) as (Y1 & Y2 & Y3 & Y4 & Y5). destruct (add_keeps m x x' Hx) as (Hp & Hp' & Ha & Hq).
    eapply stream_inv_upd; try done.
    + by eapply stream_inv_step.
    + by eapply bufSize_step.
    + unfold waiting. rewrite Hp, Hp', Ha, Epc. cbn [todo_of]. by rewrite for_key_cons, decide_True.
    + rewrite Hp'. cbn. by split; [|intros []].
    + intros k' Hne. rewrite Epc. cbn [todo_of adding_to]. rewrite for_key_cons, decide_False by done. split; [done|]. split; congruence.
    + intros _. rewrite Epc in *. cbn in *. rewrite Hq. auto.
Qed.

Lemma adding_inv e s s' : read_inv s -> readHandler (EvAdding e) s = Some s' -> read_inv s'.
Proof.
  intros Hi Hs. unfold readHandler in Hs. destruct (rd_pc s) as [| |k todo| | |] eqn:Epc; try done.
  destruct (producer_event e) eqn:He; [|done]. unfold step_stream in Hs. destruct (get_stream k s) as [x|] eqn:Hk; [|done].
  destruct (stream_step e x) as [x'|] eqn:Hx; [|done].
  destruct (proj1 Hi k x Hk) as (Y1 & Y2 & Y3 & Y4 & Y5). rewrite Epc in *.
  destruct (producer_keeps e x x' He (Y5 eq_refl) Hx) as (Ha & Hq). injection Hs as <-.
  destruct (is_idle (ms_producer x')) eqn:Hid; [|rewrite <- (set_pc_same (put_stream k x' s)), put_stream_pc, Epc].
  all: eapply stream_inv_upd; try done; try (by eapply stream_inv_step); try (by eapply bufSize_step).
  all: try (rewrite Epc; cbn [todo_of]; rewrite !app_assoc, Ha; done).
  all: try (intros _; rewrite Epc; auto).
  - cbn. split; [done|]. by destruct (ms_producer x').
  - intros k' Hne. rewrite Epc. cbn. split; [done|]. split; congruence.
  - cbn. split; [|by intros []]. intros E. by rewrite E in Hid.
  - intros k' Hne. by rewrite Epc.
Qed.

Lemma stopping_inv e s s' : read_inv s -> readHandler (EvStopping e) s = Some s' -> read_inv s'.
Proof.
  intros Hi Hs. unfold readHandler in Hs. destruct (rd_pc s) as [| | | |[|k todo]|] eqn:Epc; try done.
  { injection Hs as <-. apply inv_pc; try done; by rewrite Epc. }
  destruct (stop_event e && rd_disconnect s) eqn:He; [|done]. apply andb_prop in He as [He _].
  unfold step_stream in Hs. destruct (get_stream k s) as [x|] eqn:Hk; [|done]. destruct (stream_step e x) as [x'|] eqn:Hx; [|done].
  destruct (proj1 Hi k x Hk) as (Y1 & Y2 & Y3 & Y4 & Y5). rewrite Epc in *.
  destruct (stop_keeps e x x' He Hx) as (Hp & Ha). injection Hs as <-.
  destruct (is_stopped (ms_stopper x')) eqn:Hid; [|rewrite <- (set_pc_same (put_stream k x' s)), put_stream_pc, Epc].
  all: eapply stream_inv_upd; try done; try (by eapply stream_inv_step); try (by eapply bufSize_step).
  all: rewrite ?Epc; unfold waiting; rewrite ?Hp, ?Ha; done.
Qed.

(** ** The [switch] *)

Lemma log_set_pc i pc s :
  rd_pc (log_input i (set_pc pc s)) = pc /\ rd_inputs (log_input i (set_pc pc s)) = rd_inputs s ++ [i]
  /\ forall k, get_stream k (log_input i (set_pc pc s)) = get_stream k s.
Proof. destruct s. split_and!; try done. Qed.

(** A message that is not for a stream. *)
Lemma inv_quiet s i pc :
  read_inv s -> rd_pc s = RRead -> todo_of pc = [] -> adding_to pc = None -> stopping pc = false ->
  (forall c b, for_channel c b i = false) -> gossip i.1 = false -> read_inv (log_input i (set_pc pc s)).
Proof.
  intros Hi Hpc Ht Ha Hs Hf Hg. unfold read_inv in *. rewrite Hpc in Hi. destruct (log_set_pc i pc s) as (-> & -> & E).
  apply (streams_inv_ext _ _ _ _ E). eapply streams_inv_input; try done.
  - intros [c|] x _; cbn; by rewrite ?Hf, ?Hg.
Qed.

Lemma inv_gossip s i :
  read_inv s -> rd_pc s = RRead -> (forall c b, for_channel c b i = false) -> gossip i.1 = true ->
  read_inv (log_input i (set_pc (RAdd [(None, i.1)]) s)).
Proof.
  intros Hi Hpc Hf Hg. unfold read_inv in *. rewrite Hpc in Hi. destruct (log_set_pc i (RAdd [(None, i.1)]) s) as (-> & -> & E).
  apply (streams_inv_ext _ _ _ _ E). eapply (streams_inv_input _ _ _ _ [(None, i.1)]); try done.
  - intros [c|] x _; rewrite for_key_cons; [rewrite decide_False by done; by rewrite Hf | rewrite decide_True by done; by rewrite Hg].
Qed.

(** A message for the channel [c]. *)
Lemma inv_channel s i c :
  read_inv s -> rd_pc s = RRead -> (forall b, for_channel c b i = true) -> (forall c' b, c' <> c -> for_channel c' b i = false) ->
  gossip i.1 = false -> read_inv (log_input i (to_channel c i.1 s)).
Proof.
  intros Hi Hpc Hf Ho Hg. unfold read_inv in *. rewrite Hpc in Hi. unfold to_channel, ensure_stream.
  destruct (rd_chanMsgStreams s !! c) as [x0|] eqn:Ec.
  - destruct (log_set_pc i (RAdd [(Some c, i.1)]) s) as (-> & -> & E). apply (streams_inv_ext _ _ _ _ E).
    eapply (streams_inv_input _ _ _ _ [(Some c, i.1)]); try done.
    + intros k x _. rewrite for_key_cons. destruct k as [c'|]; [|by rewrite decide_False, Hg].
      destruct (decide (c' = c)) as [->|Hne]; [by rewrite decide_True, Hf|]. rewrite decide_False by congruence. by rewrite Ho.
    + intros c' Hn. cbn in Hn. assert (c' <> c) by congruence. rewrite Ho by done. by rewrite for_key_cons, decide_False by congruence.
  - set (s2 := set_streams _ s). destruct (log_set_pc i (RAdd [(Some c, i.1)]) s2) as (-> & -> & E). apply (streams_inv_ext _ _ _ _ E).
    replace (rd_inputs s2) with (rd_inputs s) by (by destruct s).
    apply (streams_inv_open (fun k => get_stream k s)); try done.
    + destruct s. cbn. by rewrite lookup_insert_eq.
    + intros [c'|] Hne; destruct s; cbn; [|done]. by rewrite lookup_insert_ne by congruence.
Qed.

(** An error about all channels. *)
Lemma inv_wide s d b f :
  read_inv s -> rd_pc s = RRead ->
  let m := Error ConnectionWideID d in
  read_inv (log_input (m, b) (set_pc (RAdd ((fun i => (Some i, m)) <$> (map_to_list (rd_chanMsgStreams s)).*1)) (set_failed f s))).
Proof.
  intros Hi Hpc m. set (ids := (map_to_list (rd_chanMsgStreams s)).*1). unfold read_inv in *. rewrite Hpc in Hi.
  destruct (log_set_pc (m, b) (RAdd ((fun i => (Some i, m)) <$> ids)) (set_failed f s)) as (-> & -> & E). apply (streams_inv_ext _ _ _ _ E).
  replace (rd_inputs (set_failed f s)) with (rd_inputs s) by (by destruct s).
  apply (streams_inv_ext _ (fun k => get_stream k s)); [by intros []; destruct s|].
  assert (NoDup ids) as Hd by apply NoDup_fst_map_to_list.
  assert (forall c, c ∈ ids <-> is_Some (rd_chanMsgStreams s !! c)) as Hin.
  { intros c. unfold ids. rewrite list_elem_of_fmap. split.
    - intros ([c' x] & -> & Hx). apply elem_of_map_to_list in Hx. by eexists.
    - intros [x Hx]. exists (c, x). by rewrite elem_of_map_to_list. }
  eapply (streams_inv_input _ _ _ _ ((fun i => (Some i, m)) <$> ids)); try done; cbn [fst].
  - intros [c|] x Hx; rewrite for_key_ids by done; [|done]. cbn in Hx. rewrite decide_True by (apply Hin; by eexists).
    unfold for_channel. cbn [fst m]. by rewrite decide_True.
  - intros c Hn. rewrite for_key_ids by done. cbn in Hn. rewrite decide_False by (rewrite Hin, Hn; by intros []).
    unfold for_channel. cbn [fst m]. by rewrite decide_True.
Qed.

Lemma dispatch_inv m b d s : read_inv s -> rd_pc s = RRead -> read_inv (log_input (m, b) (dispatch m b d s)).
Proof.
  intros Hi Hpc.
  destruct m; try (apply (inv_quiet s); done); try (apply (inv_gossip s); done).
  all: try (apply (inv_channel s (_, b)); [done|done|intros; by apply bool_decide_eq_true|intros c' b' Hne; apply bool_decide_eq_false; cbn; congruence|done]).
  all: try solve [apply inv_quiet; try done; [eapply read_inv_other; try exact Hi; by destruct s|by destruct s]].
  - unfold dispatch. case_decide as Hc; [subst; by apply inv_wide|]. destruct b.
    + apply inv_quiet; try done; [by eapply read_inv_other; try exact Hi; destruct s|by destruct s|].
      intros c b. unfold for_channel. cbn. rewrite decide_False by done. apply andb_false_r.
    + apply (inv_channel _ (Error ChanID Data, false)); try done; [by eapply read_inv_other; try exact Hi; destruct s|by destruct s| |].
      * intros b. unfold for_channel. cbn. rewrite decide_False by done. by rewrite bool_decide_true.
      * intros c b Hne. unfold for_channel. cbn. rewrite decide_False by done. by rewrite bool_decide_false by congruence.
Qed.

Lemma read_inv_step e s s' : read_inv s -> read_step e s = Some s' -> read_inv s'.
Proof.
  intros Hi Hs. destruct e; cbn [read_step] in Hs.
  all: try (by eapply add_inv). all: try (by eapply adding_inv). all: try (by eapply stopping_inv). all: try (by eapply consumer_inv).
  all: unfold readHandler in Hs; try (destruct (rd_pc s) eqn:Epc; try done).
  all: try (case_match; [|done]); try (injection Hs as <-); try done.
  all: try (apply leave_loop_inv; by rewrite ?Epc).
  all: try solve [eapply read_inv_other; try exact Hi; by destruct s].
  - by apply dispatch_inv.
  - apply inv_pc; try done; [eapply read_inv_other; try exact Hi; by destruct s|by destruct s; cbn in *; subst..].
Qed.

Lemma read_inv_run es s s' : read_inv s -> read_run es s = Some s' -> read_inv s'.
Proof.
  revert s. induction es as [|e es IH]; intros s Hi Hr; cbn [read_run] in Hr; [by simplify_eq|].
  case_match; [|done]. by eapply IH; [eapply read_inv_step|].
Qed.

Lemma read_reach_inv s : read_reach s -> read_inv s.
Proof. intros [es Hr]. eapply read_inv_run; [apply read_inv_new | done]. Qed.
