(* ===== verification/PeerReadProps.v ===== *)
(** * Incoming messages arrive in order

    What [readHandler] and the streams guarantee: every stream gets exactly the messages
    that were read for it, in order, and applies all of them. *)

From Stdlib Require Import ZArith Lia.
From Stdlib Require Import Init.Byte.
From stdpp Require Import base gmap strings numbers list.
From S2P Require Import Prelude Stream PeerStream PeerWire PeerRead PeerReadInv.
Local Open Scope Z_scope.

(** ** Progress *)

(** The steps with which what was read is delivered. *)
Definition read_internal (e : read_event) : bool :=
  match e with EvAdd => true | EvAdding e => internal e | EvConsumer _ e => internal e | _ => false end.

Definition chans_work (c : gmap bytes mstream) : nat := map_fold (fun _ x n => (stream_work x + n)%nat) 0%nat c.
Definition pc_work (pc : read_pc) : nat :=
  match pc with RAdd l => (10 * length l + 1)%nat | RAdding _ l => (10 * length l + 2)%nat | _ => 0%nat end.
Definition read_work (s : reader) : nat :=
  (pc_work (rd_pc s) + stream_work (rd_discStream s) + chans_work (rd_chanMsgStreams s))%nat.

Lemma chans_work_insert c x m :
  m !! c = None -> chans_work (<[c := x]> m) = (stream_work x + chans_work m)%nat.
Proof. intros Hn. unfold chans_work. rewrite map_fold_insert_L; [done| |done]. intros; lia. Qed.

Lemma chans_work_update c x x' m :
  m !! c = Some x -> (chans_work (<[c := x']> m) + stream_work x = chans_work m + stream_work x')%nat.
Proof.
  intros Hx. rewrite <- (insert_delete_eq m), chans_work_insert by apply lookup_delete_eq.
  rewrite <- (insert_id m c x) at 2 by done. rewrite <- (insert_delete_eq m c x), chans_work_insert by apply lookup_delete_eq. lia.
Qed.

(** A step of a stream, with a move of the goroutine to [pc']. *)
Lemma read_work_put k x x' pc' s :
  get_stream k s = Some x ->
  (read_work (set_pc pc' (put_stream k x' s)) + stream_work x + pc_work (rd_pc s) = read_work s + stream_work x' + pc_work pc')%nat.
Proof.
  intros Hx. destruct s as [d q pc g c f pt o i], k as [k|]; cbn in Hx; unfold read_work;
    cbn [set_pc put_stream set_streams set_disc rd_pc rd_discStream rd_chanMsgStreams].
  - pose proof (chans_work_update k x x' c Hx) as Hw. unfold ChannelID in *. lia.
  - simplify_eq. lia.
Qed.

Lemma add_work m (x x' : mstream) : stream_step (EAddMsg m) x = Some x' -> (stream_work x' = stream_work x + 8)%nat.
Proof.
  destruct x as [sd msgs bs sema q c p st added applied]. cbn. intros Hs; case_match; simplify_eq. unfold stream_work; cbn. lia.
Qed.

Lemma read_work_step e s s' :
  read_inv s -> stopping (rd_pc s) = false -> read_internal e = true -> read_step e s = Some s' ->
  (read_work s' < read_work s)%nat /\ stopping (rd_pc s') = false /\ rd_inputs s' = rd_inputs s.
Proof.
  intros Hi Hst He Hs. destruct e as [| | | | |e| | |k e| | |]; try done; cbn [read_step read_internal] in *.
  - unfold readHandler in Hs. destruct (rd_pc s) as [|[|[k m] todo]| | | |] eqn:Epc; try done.
    + injection Hs as <-. destruct s as [d q pc g c f pt o i]. cbn in *. subst. unfold read_work. cbn. split; [lia|done].
    + unfold step_stream in Hs. destruct (get_stream k s) as [x|] eqn:Hk; [|done]. destruct (stream_step _ x) as [x'|] eqn:Hx; [|done].
      injection Hs as <-. pose proof (read_work_put k x x' (RAdding k todo) s Hk) as Hw. pose proof (add_work m x x' Hx).
      rewrite Epc in Hw. cbn [pc_work length] in Hw. split; [lia|]. by destruct s, k.
  - unfold readHandler in Hs. destruct (rd_pc s) as [| |k todo| | |] eqn:Epc; try done. destruct (producer_event e) eqn:Hpe; [|done].
    unfold step_stream in Hs. destruct (get_stream k s) as [x|] eqn:Hk; [|done]. destruct (stream_step e x) as [x'|] eqn:Hx; [|done].
    destruct (proj1 Hi k x Hk) as (_ & _ & _ & _ & Hq). rewrite Epc in Hq.
    destruct (stream_work_step e x x' He (Hq Hst) Hx) as [Hlt _]. injection Hs as <-. case_match.
    + pose proof (read_work_put k x x' (RAdd todo) s Hk) as Hw. rewrite Epc in Hw. cbn [pc_work length] in Hw.
      split; [lia|]. by destruct s, k.
    + rewrite <- (set_pc_same (put_stream k x' s)), put_stream_pc. pose proof (read_work_put k x x' (rd_pc s) s Hk).
      split; [lia|]. rewrite Epc. by destruct s, k.
  - destruct (consumer_event e); [|done]. unfold step_stream in Hs. destruct (get_stream k s) as [x|] eqn:Hk; [|done].
    destruct (stream_step e x) as [x'|] eqn:Hx; [|done]. injection Hs as <-.
    destruct (proj1 Hi k x Hk) as (_ & _ & _ & _ & Hq). destruct (stream_work_step e x x' He (Hq Hst) Hx) as [Hlt _].
    rewrite <- (set_pc_same (put_stream k x' s)), put_stream_pc. pose proof (read_work_put k x x' (rd_pc s) s Hk).
    split; [lia|]. by destruct s, k.
Qed.

Lemma read_work_run es s s' :
  read_inv s -> stopping (rd_pc s) = false -> forallb read_internal es = true -> read_run es s = Some s' ->
  (length es + read_work s' <= read_work s)%nat /\ stopping (rd_pc s') = false /\ rd_inputs s' = rd_inputs s.
Proof.
  revert s. induction es as [|e es IH]; intros s Hi Hst He Hr; cbn [read_run length forallb] in *; [by simplify_eq|].
  apply andb_prop in He as [He Hes]. case_match eqn:E; [|done].
  destruct (read_work_step _ _ _ Hi Hst He E) as (Hw & Hst' & <-).
  destruct (IH _ (read_inv_step _ _ _ Hi E) Hst' Hes Hr) as (? & ? & ?). split; [lia|done].
Qed.

(** ** Nothing left to do *)

Definition quiet (s : reader) : Prop := forall e, read_internal e = true -> read_step e s = None.

(** No step of the stream [k] is left. *)
Lemma quiet_stream s k x : read_inv s -> quiet s -> get_stream k s = Some x -> forall e, internal e = true -> stream_step e x = None.
Proof.
  intros Hi Hq Hk e He. destruct (stream_step e x) as [x'|] eqn:Hx; [exfalso|done].
  destruct (proj1 Hi k x Hk) as (_ & _ & _ & Hp & _). destruct (consumer_event e) eqn:Hc.
  - pose proof (Hq (EvConsumer k e) He) as Hn. cbn in Hn. unfold step_stream in Hn. by rewrite Hc, Hk, Hx in Hn.
  - assert (producer_event e = true) as Hpe by (by destruct e).
    assert (adding_to (rd_pc s) = Some k) as Ha.
    { destruct (decide (adding_to (rd_pc s) = Some k)) as [|Hne]; [done|]. exfalso. apply Hp in Hne.
      destruct x as [sd msgs bs sema q c p st added applied]. cbn in Hne. subst. by destruct e. }
    destruct (rd_pc s) eqn:Epc; try done. cbn in Ha. simplify_eq.
    pose proof (Hq (EvAdding e) He) as Hn. cbn [read_step] in Hn. unfold readHandler, step_stream in Hn. by rewrite Epc, Hpe, Hk, Hx in Hn.
Qed.

Lemma quiet_applied s k x :
  read_inv s -> stopping (rd_pc s) = false -> quiet s -> get_stream k s = Some x ->
  ms_applied x = ms_added x /\ ms_producer x = PIdle.
Proof.
  intros Hi Hst Hq Hk. destruct (proj1 Hi k x Hk) as (Y1 & Y2 & _ & _ & Y5). apply quiescent_applied; auto.
  - rewrite Y2. unfold stream_size. lia.
  - by eapply quiet_stream.
Qed.

(** The goroutine then waits for a message, or for the channel manager to take one. *)
Lemma quiet_pc s : read_inv s -> stopping (rd_pc s) = false -> quiet s -> rd_pc s = RRead \/ exists c m, rd_pc s = RSend c m.
Proof.
  intros Hi Hst Hq. destruct (rd_pc s) as [|[|[k m] todo]|k todo|c m| |] eqn:Epc; try done; eauto; exfalso.
  - pose proof (Hq EvAdd eq_refl) as Hn. cbn [read_step] in Hn. unfold readHandler in Hn. by rewrite Epc in Hn.
  - pose proof (Hq EvAdd eq_refl) as Hn. cbn [read_step] in Hn. unfold readHandler, step_stream in Hn. rewrite Epc in Hn.
    destruct (get_stream k s) as [x|] eqn:Hk.
    + destruct (quiet_applied s k x Hi ltac:(by rewrite Epc) Hq Hk) as [_ Hp].
      destruct x as [sd msgs bs sema q c p st added applied]. cbn in Hp. by subst.
    + destruct Hi as (_ & _ & H3 & _). destruct (H3 k Hk) as [Hf _]. rewrite Epc in Hf. cbn [todo_of] in Hf.
      by rewrite for_key_cons, decide_True in Hf.
  - destruct (get_stream k s) as [x|] eqn:Hk.
    + destruct (quiet_applied s k x Hi ltac:(by rewrite Epc) Hq Hk) as [_ Hp].
      destruct (proj1 Hi k x Hk) as (_ & _ & _ & Hpp & _). apply Hpp in Hp. by rewrite Epc in Hp.
    + destruct Hi as (_ & _ & H3 & _). destruct (H3 k Hk) as [_ Hf]. by rewrite Epc in Hf.
Qed.

Lemma quiet_routed s k x :
  read_inv s -> stopping (rd_pc s) = false -> quiet s -> get_stream k s = Some x -> ms_applied x = routed_to k (rd_inputs s).
Proof.
  intros Hi Hst Hq Hk. destruct (quiet_applied s k x Hi Hst Hq Hk) as [-> Hp].
  destruct (proj1 Hi k x Hk) as (_ & _ & Hr & _). rewrite <- Hr. unfold waiting. rewrite Hp.
  destruct (quiet_pc s Hi Hst Hq) as [->|(c & m & ->)]; by rewrite !app_nil_r.
Qed.

Lemma applied_prefix s k x :
  read_inv s -> get_stream k s = Some x -> ms_applied x `prefix_of` routed_to k (rd_inputs s).
Proof.
  intros Hi Hk. destruct (proj1 Hi k x Hk) as (Y1 & _ & Hr & _). destruct Y1 as (Ha & _). rewrite <- Hr, Ha, <- app_assoc. by eexists.
Qed.

(** C11: what a peer sends for a channel is applied in the order in which it was read, and
    so are its gossip messages: every stream has applied an initial part of the messages
    read for it, and buffers at most a thousand; a channel without a stream has had no
    message.  And nothing stays behind: unless the peer is disconnected, what was read is
    delivered in a bounded number of steps, whatever the schedule of the goroutines, and
    when none is left every stream has applied all of its messages. *)
Theorem reader_in_order s :
  read_reach s ->
  ((forall k x, get_stream k s = Some x -> ms_applied x `prefix_of` routed_to k (rd_inputs s) /\ (length (ms_msgs x) <= stream_size)%nat)
   /\ (forall c, rd_chanMsgStreams s !! c = None -> routed c (rd_inputs s) = []))
  /\ forall es s', stopping (rd_pc s) = false -> forallb read_internal es = true -> read_run es s = Some s' ->
     (length es <= read_work s)%nat
     /\ (quiet s' -> forall k x, get_stream k s' = Some x -> ms_applied x = routed_to k (rd_inputs s)).
Proof.
  intros Hr. pose proof (read_reach_inv s Hr) as Hi. split; [split|].
  - intros k x Hk. split; [by apply applied_prefix|].
    destruct (proj1 Hi k x Hk) as (Y1 & <- & _). destruct Y1 as (_ & Hb & _). lia.
  - intros c Hc. by apply Hi.
  - intros es s' Hst He Hrun. destruct (read_work_run es s s' Hi Hst He Hrun) as (Hw & Hst' & <-). split; [lia|].
    intros Hq k x Hk. apply quiet_routed; try done. by eapply read_inv_run.
Qed.

(** ** A full buffer *)

(** While the buffer of a stream is full, [readHandler] waits for the consumer of this
    stream: disconnecting the peer does not wake it up, since the stream's own [quit] is
    closed only after the loop. *)
Theorem reader_waits_for_consumer s k todo x m e s' :
  read_reach s -> rd_pc s = RAdding k todo -> get_stream k s = Some x -> ms_producer x = PAcquire m -> ms_producerSema x = 0%nat ->
  (forall e', e <> EvConsumer k e') -> read_step e s = Some s' -> rd_pc s' = RAdding k todo /\ get_stream k s' = Some x.
Proof.
  intros Hr Hpc Hk Hp Hz Hne Hs. destruct (proj1 (read_reach_inv s Hr) k x Hk) as (_ & _ & _ & _ & Hq). rewrite Hpc in Hq.
  specialize (Hq eq_refl). destruct e; cbn [read_step] in Hs; unfold readHandler in Hs; try rewrite Hpc in Hs; try done.
  - destruct (producer_event e) eqn:He; [|done]. unfold step_stream in Hs. rewrite Hk in Hs.
    destruct x as [sd msgs bs sema q c p st added applied]. cbn in Hp, Hz, Hq. subst. by destruct e.
  - destruct (consumer_event e) eqn:He; [|done]. unfold step_stream in Hs. destruct (get_stream k0 s) as [y|] eqn:Hy; [|done].
    destruct (stream_step e y); [|done]. injection Hs as <-. rewrite put_stream_pc. split; [done|].
    assert (k0 <> k) by (intros ->; by eapply Hne).
    destruct s, k0 as [c|], k as [c'|]; cbn in *; try done. rewrite lookup_insert_ne; [done|congruence].
  - injection Hs as <-. by destruct s.
  - case_match; [|done]. injection Hs as <-. by destruct s.
Qed.
