(* ===== verification/PeerLink.v ===== *)
(** * Two peers

    The outgoing queue of one node, the connection, and the reader of the other node with
    its streams, put together: what one end queues for a channel is applied by the other
    end in this order. *)

From Stdlib Require Import ZArith Lia.
From Stdlib Require Import Init.Byte.
From stdpp Require Import base gmap strings numbers list.
From S2P Require Import Prelude Stream PeerStream PeerWire PeerWrite PeerRead PeerReadInv PeerReadProps.
Local Open Scope Z_scope.

(** [lk_read] is the number of messages the receiver has taken from the connection. *)
Record link := mkLink { lk_out : outbox; lk_in : reader; lk_read : nat }.

Definition newLink : link := mkLink newOutbox newReader 0.

Inductive link_event :=
  | LOut (e : out_event)
  | LRead (isPending : bool) (delay : Z)
  | LIn (e : read_event).

(** The receiver gets its messages from the connection only. *)
Definition from_wire (e : read_event) : bool := match e with EvMessage _ _ _ | EvSkip => true | _ => false end.

Section Link.
Context {W : LnWire}.

(** [readNextMessage] with the [switch] on its error in [readHandler]: unknown messages
    and addresses are skipped. *)
Definition readNextMessage (rawMsg : bytes) (isPending : bool) (delay : Z) : read_event :=
  match ReadMessage rawMsg with
  | Ok (m, _) => EvMessage m isPending delay
  | Err ErrUnknownMessage | Err ErrUnknownAddrType => EvSkip
  | Err _ => EvFail
  end.

Definition link_step (e : link_event) (l : link) : option link :=
  match e with
  | LOut e => match out_step e (lk_out l) with Some o => Some (mkLink o (lk_in l) (lk_read l)) | None => None end
  | LRead isPending delay =>
      match ob_wire (lk_out l) !! lk_read l with
      | Some rawMsg =>
          match read_step (readNextMessage rawMsg isPending delay) (lk_in l) with
          | Some r => Some (mkLink (lk_out l) r (S (lk_read l)))
          | None => None
          end
      | None => None
      end
  | LIn e =>
      if from_wire e then None
      else match read_step e (lk_in l) with Some r => Some (mkLink (lk_out l) r (lk_read l)) | None => None end
  end.

Fixpoint link_run (es : list link_event) (l : link) : option link :=
  match es with
  | [] => Some l
  | e :: es => match link_step e l with Some l' => link_run es l' | None => None end
  end.

Definition link_reach (l : link) : Prop := exists es, link_run es newLink = Some l.

(** What the sender has queued. *)
Definition sent (l : link) : list Message := om_msg <$> ob_accepted (lk_out l).

(** ** The invariant *)

Definition link_inv (l : link) : Prop :=
  out_inv (lk_out l) /\ read_inv (lk_in l) /\ (lk_read l <= length (ob_wire (lk_out l)))%nat
  /\ (Forall wire_ok (sent l) -> (rd_inputs (lk_in l)).*1 = take (lk_read l) (sent l)).

Lemma accepted_grows e s s' : out_step e s = Some s' ->
  ob_accepted s `prefix_of` ob_accepted s' /\ ob_wire s `prefix_of` ob_wire s'.
Proof.
  destruct s as [disc running pending w bs ping wire ans refused accepted written]. intros Hs.
  destruct e as [m|m| | |now connErr| | |]; cbn in Hs; unfold writeHandler in Hs; cbn in Hs.
  - destruct running; simplify_eq. split; [by eexists|done].
  - destruct disc; by simplify_eq.
  - destruct running, disc; by simplify_eq.
  - destruct running, pending, w; by simplify_eq.
  - destruct w; simplify_eq. destruct disc, connErr; cbn; try (by split). split; [done|by eexists].
  - destruct w as [| |m [|]|]; by simplify_eq.
  - destruct w, disc; by simplify_eq.
  - destruct disc; by simplify_eq.
Qed.

Lemma wire_take s : out_inv s -> forall n b, ob_wire s !! n = Some b -> exists m, ob_accepted s !! n = Some m /\ b = wire_of m.
Proof.
  intros (H1 & [rest H2] & _) n b Hb. assert ((wire_of <$> (ob_written s).*1) !! n = Some b) as Hl by (rewrite H2; by apply lookup_app_l_Some).
  apply list_lookup_fmap_Some in Hl as (m & Hb' & Hl). exists m. split; [|done]. rewrite H1. by apply lookup_app_l_Some.
Qed.

Lemma set_pc_inputs pc s : rd_inputs (set_pc pc s) = rd_inputs s.
Proof. by destruct s. Qed.

Lemma step_stream_inputs k e s x s' : step_stream k e s = Some (x, s') -> rd_inputs s' = rd_inputs s.
Proof. unfold step_stream. do 2 (case_match; [|done]). intros [= <- <-]. by destruct s, k. Qed.

(** Steps other than reading leave the messages read. *)
Lemma inputs_same e s s' : from_wire e = false -> read_step e s = Some s' -> rd_inputs s' = rd_inputs s.
Proof.
  intros Hf Hs. destruct e; try done; cbn [read_step] in Hs; unfold readHandler in Hs.
  all: try (destruct (rd_pc s) as [|[|[] ?]| | |[]|]; try done).
  all: repeat match type of Hs with context [if ?b then _ else _] => destruct b; try done end.
  all: try (destruct (step_stream _ _ _) as [[]|] eqn:E; [|done]; apply step_stream_inputs in E).
  all: injection Hs as <-; try case_match; rewrite ?set_pc_inputs; try done; by destruct s.
Qed.

Lemma dispatch_inputs m b d s : rd_inputs (dispatch m b d s) = rd_inputs s.
Proof.
  assert (forall c m s, rd_inputs (to_channel c m s) = rd_inputs s) as Hc.
  { intros c m' s'. unfold to_channel, ensure_stream. rewrite set_pc_inputs. case_match; [done|by destruct s']. }
  destruct m; try (by apply Hc); try (by destruct s).
  unfold dispatch. case_decide; [by destruct s|]. case_match; [by destruct s|]. rewrite Hc. by destruct s.
Qed.

Lemma message_inputs m b d s s' :
  read_step (EvMessage m b d) s = Some s' -> rd_pc s = RRead /\ rd_inputs s' = rd_inputs s ++ [(m, b)].
Proof.
  cbn. unfold readHandler. destruct (rd_pc s); try done. intros [= <-]. split; [done|].
  rewrite <- (dispatch_inputs m b d s). by destruct (dispatch m b d s).
Qed.

Lemma wire_read m b d : wire_ok (om_msg m) -> readNextMessage (wire_of m) b d = EvMessage (om_msg m) b d.
Proof.
  intros Hm. destruct (ReadMessage_WriteMessage _ Hm) as [rest E]. unfold readNextMessage, wire_of. by rewrite E.
Qed.

Lemma link_inv_new : link_inv newLink.
Proof. split; [apply out_inv_new|]. split; [apply read_inv_new|]. split; [done|]. done. Qed.

Lemma link_inv_step e l l' : link_inv l -> link_step e l = Some l' -> link_inv l'.
Proof.
  intros (H1 & H2 & H3 & H4) Hs. destruct l as [o r n], e as [e|b d|e]; cbn in *.
  - destruct (out_step e o) as [o'|] eqn:E; [|done]. injection Hs as <-. destruct (accepted_grows _ _ _ E) as [[more Ha] Hw].
    split; [by eapply out_inv_step|]. split; [done|]. cbn. split; [apply prefix_length in Hw; lia|].
    unfold sent in *. cbn in *. rewrite Ha, fmap_app, Forall_app. intros [Hok _]. rewrite (H4 Hok).
    rewrite take_app_le; [done|]. rewrite length_fmap. destruct H1 as (-> & Hp & _). apply prefix_length in Hp.
    rewrite !length_fmap in Hp. rewrite !length_app, length_fmap. lia.
  - destruct (ob_wire o !! n) as [raw|] eqn:Hb; [|done]. destruct (read_step _ r) as [r'|] eqn:E; [|done]. injection Hs as <-.
    split; [done|]. split; [by eapply read_inv_step|]. cbn. split; [by apply lookup_lt_Some in Hb|]. unfold sent in *. cbn in *. intros Hok.
    destruct (wire_take o H1 n raw Hb) as (m & Hm & ->).
    assert ((om_msg <$> ob_accepted o) !! n = Some (om_msg m)) as Hl by (by rewrite list_lookup_fmap, Hm).
    rewrite wire_read in E by (by eapply Forall_lookup_1). destruct (message_inputs _ _ _ _ _ E) as [_ ->].
    rewrite fmap_app, (H4 Hok). by rewrite (take_S_r _ _ _ Hl).
  - destruct (from_wire e) eqn:Hf; [done|]. destruct (read_step e r) as [r'|] eqn:E; [|done]. injection Hs as <-.
    split; [done|]. split; [by eapply read_inv_step|]. split; [done|]. cbn. by rewrite (inputs_same _ _ _ Hf E).
Qed.

Lemma link_inv_run es l l' : link_inv l -> link_run es l = Some l' -> link_inv l'.
Proof.
  revert l. induction es as [|e es IH]; intros l Hi Hr; cbn [link_run] in Hr; [by simplify_eq|].
  case_match; [|done]. by eapply IH; [eapply link_inv_step|].
Qed.

(** ** The messages of a channel *)

(** The messages for a channel, or for the gossiper; errors, which [readHandler] hands on by
    rules of their own, are not among them. *)
Definition belongs (k : skey) (m : Message) : bool :=
  match k with Some c => bool_decide (chan_update m = Some c) | None => gossip m end.

(** What a stream gets besides errors is what was sent for its channel. *)
Lemma routed_belongs k inputs : List.filter (belongs k) (routed_to k inputs) = List.filter (belongs k) inputs.*1.
Proof.
  destruct k as [c|]; cbn; [|induction inputs.*1 as [|m ms IH]; [done|]; cbn; destruct (gossip m) eqn:E; cbn; by rewrite ?E, IH].
  induction inputs as [|i inputs IH] using rev_ind; [done|]. rewrite routed_snoc, fmap_app, !List.filter_app, IH. f_equal.
  destruct i as [m b]. unfold for_channel. cbn [fst]. destruct m; repeat (case_match; cbn); try done; cbn in *; congruence.
Qed.

Lemma filter_prefix {A} (f : A -> bool) l l' : l `prefix_of` l' -> List.filter f l `prefix_of` List.filter f l'.
Proof. intros [k ->]. rewrite List.filter_app. by eexists. Qed.

Lemma length_list_keys (c : gmap bytes mstream) : length (map_to_list c).*1 = size c.
Proof. by rewrite length_fmap, length_map_to_list. Qed.

(** The streams of channels. *)
Definition streams (s : reader) : nat := size (rd_chanMsgStreams s).

Lemma set_pc_streams pc s : streams (set_pc pc s) = streams s.
Proof. by destruct s. Qed.

(** Dispatching one message makes work for every stream at most, and creates one stream at
    most. *)
Lemma dispatch_work m b d s :
  rd_pc s = RRead ->
  (read_work (log_input (m, b) (dispatch m b d s)) <= read_work s + 12 + 10 * streams s
   /\ streams (log_input (m, b) (dispatch m b d s)) <= S (streams s))%nat.
Proof.
  intros Hpc.
  assert (forall pc s, rd_pc s = RRead -> (pc_work pc <= 12 + 10 * streams s)%nat ->
            (read_work (log_input (m, b) (set_pc pc s)) <= read_work s + 12 + 10 * streams s
             /\ streams (log_input (m, b) (set_pc pc s)) <= S (streams s))%nat) as Hset.
  { intros pc [dd q pc0 g cs f pt o i] Hpc' Hle. cbn in Hpc'. subst. unfold read_work, streams in *.
    cbn [log_input set_pc rd_pc rd_discStream rd_chanMsgStreams pc_work] in *. lia. }
  assert (forall c s, rd_pc s = RRead -> (read_work (log_input (m, b) (to_channel c m s)) <= read_work s + 12 + 10 * streams s
             /\ streams (log_input (m, b) (to_channel c m s)) <= S (streams s))%nat) as Hc.
  { clear s Hpc. intros c s Hpc. unfold to_channel, ensure_stream. case_match eqn:E; [apply Hset; cbn; [done|lia]|].
    destruct s as [dd q pc g cs f pt o i]. cbn in Hpc, E. subst. unfold read_work, streams.
    cbn [log_input set_pc set_streams rd_pc rd_discStream rd_chanMsgStreams].
    pose proof (chans_work_insert c (newMsgStream stream_size) cs E) as Hw.
    pose proof (map_size_insert_None c (newMsgStream stream_size) cs E) as Hz. unfold ChannelID in *. rewrite Hw, Hz. cbn. lia. }
  destruct m; try (by apply Hc); try (by apply (Hset _ s Hpc); cbn; lia).
  all: unfold dispatch.
  all: try (assert (Hs := Hset (RAdd []) (set_pingTime d s)); by destruct s; apply Hs; cbn; [|lia]).
  case_decide; [|case_match].
  - assert (Hs := Hset (RAdd ((fun i => (Some i, Error ChanID Data)) <$> (map_to_list (rd_chanMsgStreams s)).*1))
                    (set_failed (rd_failedChannels s ∪ list_to_set (map_to_list (rd_chanMsgStreams s)).*1) s)).
    cbn [pc_work] in Hs. rewrite length_fmap, length_list_keys in Hs. destruct s. apply Hs; [done|]. unfold streams. cbn. lia.
  - match goal with |- context [read_send ?x s] => assert (Hs := Hset (RAdd []) (read_send x s)) end. destruct s; apply Hs; cbn; [done|lia].
  - assert (Hs := Hc ChanID (set_failed ({[ChanID]} ∪ rd_failedChannels s) s)). destruct s. by apply Hs.
Qed.

(** ** Progress *)

(** The steps with which queued messages are delivered while the connection works. *)
Definition link_internal (e : link_event) : bool :=
  match e with
  | LOut e => out_internal e
  | LRead _ _ => true
  | LIn EvSent => true
  | LIn e => read_internal e
  end.

(** The connection is up. *)
Definition link_up (l : link) : Prop :=
  ob_disc (lk_out l) = DNone /\ failed (ob_writer (lk_out l)) = false /\ stopping (rd_pc (lk_in l)) = false.

(** The goroutine waits for the channel manager. *)
Definition sending (pc : read_pc) : nat := match pc with RSend _ _ => 1 | _ => 0 end.

(** The messages the receiver has not read yet. *)
Definition unread (l : link) : nat :=
  (length (ob_pendingMsgs (lk_out l)) + match ob_writer (lk_out l) with WWrite _ => 1 | _ => 0 end
   + (length (ob_wire (lk_out l)) - lk_read l))%nat.

(** Each of them may be an error for every stream there will be. *)
Definition link_work (l : link) : nat :=
  (3 * length (ob_pendingMsgs (lk_out l)) + match ob_writer (lk_out l) with WWrite _ => 2 | WAnswer _ _ => 1 | _ => 0 end
   + unread l * (14 + 10 * (streams (lk_in l) + unread l)) + read_work (lk_in l) + sending (rd_pc (lk_in l)))%nat.

Lemma dispatch_up m b d s : stopping (rd_pc (log_input (m, b) (dispatch m b d s))) = false.
Proof.
  assert (forall pc s, stopping pc = false -> stopping (rd_pc (log_input (m, b) (set_pc pc s))) = false) as Hset by (by intros ? []).
  destruct m; try (by apply Hset). unfold dispatch, to_channel. repeat case_match; by apply Hset.
Qed.

Lemma out_wire_step e o o' r n :
  out_internal e = true -> ob_disc o = DNone -> failed (ob_writer o) = false -> (n <= length (ob_wire o))%nat -> out_step e o = Some o' ->
  unread (mkLink o' r n) = unread (mkLink o r n)
  /\ (3 * length (ob_pendingMsgs o') + match ob_writer o' with WWrite _ => 2 | WAnswer _ _ => 1 | _ => 0 end
      < 3 * length (ob_pendingMsgs o) + match ob_writer o with WWrite _ => 2 | WAnswer _ _ => 1 | _ => 0 end)%nat.
Proof.
  intros He Hd Hf Hn Hs. destruct o as [disc running pending w bs ping wire ans refused accepted written]; cbn in *; subst. unfold unread.
  destruct e as [| | | |now [|]| | |]; try done; cbn in Hs; unfold writeHandler in Hs; cbn in Hs.
  - destruct running, pending, w; simplify_eq; cbn; lia.
  - destruct w; simplify_eq; cbn. rewrite length_app. cbn. lia.
  - destruct w as [| |m [|]|]; simplify_eq; cbn; lia.
Qed.

(** Reading one of [S n] messages. *)
Lemma read_bound n k k' w w' x : (k' <= S k -> w' <= w + 12 + 10 * k -> x <= 1 ->
  n * (14 + 10 * (k' + n)) + w' + x < S n * (14 + 10 * (k + S n)) + w)%nat.
Proof. intros Hk Hw Hx. assert (n * (14 + 10 * (k' + n)) <= n * (14 + 10 * (k + S n)))%nat by (apply Nat.mul_le_mono_l; lia). lia. Qed.

Lemma link_work_read o r r' n b d :
  link_inv (mkLink o r n) -> Forall wire_ok (sent (mkLink o r n)) ->
  link_step (LRead b d) (mkLink o r n) = Some r' ->
  (link_work r' < link_work (mkLink o r n))%nat /\ stopping (rd_pc (lk_in r')) = false /\ lk_out r' = o.
Proof.
  intros (H1 & _) Hok Hs. cbn in *. destruct (ob_wire o !! n) as [raw|] eqn:Hb; [|done].
  destruct (wire_take o H1 n raw Hb) as (m & Hm & ->).
  assert ((om_msg <$> ob_accepted o) !! n = Some (om_msg m)) as Hl by (by rewrite list_lookup_fmap, Hm).
  rewrite wire_read in Hs by (by eapply Forall_lookup_1). destruct (read_step _ r) as [r2|] eqn:E; [|done]. injection Hs as <-.
  destruct (message_inputs _ _ _ _ _ E) as [Hpc _]. cbn in E. unfold readHandler in E. rewrite Hpc in E. injection E as <-.
  destruct (dispatch_work (om_msg m) b d r Hpc) as [Hw Hz].
  cbn. split; [|split; [apply dispatch_up|done]]. apply lookup_lt_Some in Hb. unfold link_work. cbn [lk_out lk_in lk_read].
  set (r2 := log_input _ _) in *.
  assert (unread (mkLink o r n) = S (unread (mkLink o r2 (S n)))) as -> by (unfold unread; cbn; lia).
  rewrite Hpc. assert (sending (rd_pc r2) <= 1)%nat by (destruct (rd_pc r2); cbn; lia). cbn [sending].
  pose proof (read_bound (unread (mkLink o r2 (S n))) _ _ _ _ _ Hz Hw ltac:(eassumption)). lia.
Qed.

Lemma step_stream_streams k e s x s' : step_stream k e s = Some (x, s') -> streams s' = streams s.
Proof.
  unfold step_stream. case_match eqn:Hk; [|done]. case_match; [|done]. intros [= <- <-].
  destruct s, k; cbn in *; [|done]. unfold streams. cbn. by eapply map_size_insert_Some.
Qed.

Lemma streams_step e s s' : read_internal e = true -> read_step e s = Some s' -> streams s' = streams s.
Proof.
  intros He Hs. destruct e; try done; cbn [read_step] in Hs; unfold readHandler in Hs.
  - destruct (rd_pc s) as [|[|[k m] l]| | | |]; try done; [by injection Hs as <-; rewrite set_pc_streams|].
    case_match eqn:E; [|done]. case_match. injection Hs as <-. rewrite set_pc_streams. by eapply step_stream_streams.
  - destruct (rd_pc s) as [| |k l| | |]; try done. destruct (producer_event e); [|done].
    destruct (step_stream _ _ _) as [[x s0]|] eqn:E; [|done]. apply step_stream_streams in E. injection Hs as <-.
    case_match; by rewrite ?set_pc_streams.
  - destruct (consumer_event e); [|done]. destruct (step_stream _ _ _) as [[x s0]|] eqn:E; [|done]. cbn in Hs. injection Hs as <-.
    by eapply step_stream_streams.
Qed.

Lemma sending_step e s s' : read_internal e = true -> read_step e s = Some s' -> (sending (rd_pc s') <= sending (rd_pc s))%nat.
Proof.
  intros He Hs. destruct e; try done; cbn [read_step] in Hs; unfold readHandler, step_stream in Hs.
  - destruct (rd_pc s) as [|[|[k m] l]| | | |] eqn:Epc; try done; repeat case_match; simplify_eq; by destruct s, k || destruct s.
  - destruct (rd_pc s) as [| |k l| | |] eqn:Epc; try done; repeat case_match; simplify_eq; rewrite ?put_stream_pc, ?Epc; cbn; try lia.
    by destruct s, k.
  - destruct (consumer_event e); [|done]. repeat case_match; simplify_eq. cbn in Hs. simplify_eq. by rewrite put_stream_pc.
Qed.

Lemma link_work_step e l l' :
  link_inv l -> link_up l -> Forall wire_ok (sent l) ->
  link_internal e = true -> link_step e l = Some l' ->
  (link_work l' < link_work l)%nat /\ link_up l' /\ sent l' = sent l.
Proof.
  intros Hi (U1 & U2 & U3) Hok He Hs. destruct l as [o r n], e as [e|b d|e].
  - cbn in *. destruct (out_step e o) as [o'|] eqn:E; [|done]. injection Hs as <-.
    destruct (out_work_step _ _ _ He U1 U2 E) as (_ & Hd & Hf & Ha). destruct Hi as (_ & _ & Hn & _).
    destruct (out_wire_step _ _ _ r n He U1 U2 Hn E) as [Hr Hw].
    unfold link_work, link_up, sent. rewrite Hr. cbn [lk_out lk_in lk_read] in *. rewrite Ha. split; [lia|done].
  - destruct (link_work_read o r l' n b d Hi Hok Hs) as (Hw & Hst & Ho). unfold link_up, sent. rewrite Ho. done.
  - cbn in Hs. destruct (from_wire e) eqn:Hf; [done|]. destruct (read_step e r) as [r'|] eqn:E; [|done]. injection Hs as <-.
    assert (e = EvSent \/ read_internal e = true) as [->|He'] by (destruct e; auto).
    + cbn in E. unfold readHandler in E. destruct (rd_pc r) eqn:Epc; try done. injection E as <-.
      unfold link_work, link_up, unread. cbn [lk_out lk_in lk_read]. rewrite Epc. destruct r. cbn in Epc. subst. unfold read_work, streams. cbn. split; [lia|done].
    + destruct (read_work_step e r r' ltac:(apply Hi) U3 He' E) as (Hw & Hst & _). pose proof (sending_step e r r' He' E).
      unfold link_up, link_work, unread. cbn [lk_out lk_in lk_read]. rewrite (streams_step e r r' He' E). split; [lia|done].
Qed.

Lemma link_work_run es l l' :
  link_inv l -> link_up l -> Forall wire_ok (sent l) ->
  forallb link_internal es = true -> link_run es l = Some l' ->
  (length es + link_work l' <= link_work l)%nat /\ link_up l' /\ sent l' = sent l.
Proof.
  revert l. induction es as [|e es IH]; intros l Hi Hu Hok He Hr; cbn [link_run length forallb] in *; [by simplify_eq|].
  apply andb_prop in He as [He Hes]. case_match eqn:E; [|done].
  destruct (link_work_step _ _ _ Hi Hu Hok He E) as (Hw & Hu' & Hs). rewrite <- Hs in *.
  destruct (IH _ (link_inv_step _ _ _ Hi E) Hu' Hok Hes Hr) as (? & ? & ?). split; [lia|done].
Qed.

(** Nothing left to do: everything is read. *)
Lemma link_quiet l :
  link_inv l -> link_up l -> Forall wire_ok (sent l) -> (forall e, link_internal e = true -> link_step e l = None) ->
  quiet (lk_in l) /\ (rd_inputs (lk_in l)).*1 = sent l.
Proof.
  intros (H1 & H2 & H3 & H4) (U1 & U2 & U3) Hok Hn. destruct l as [o r n]; cbn in *.
  assert (quiet r) as Hq.
  { intros e He. pose proof (Hn (LIn e) ltac:(cbn; by destruct e)) as Hx. cbn in Hx.
    assert (from_wire e = false) as Hf by (by destruct e). rewrite Hf in Hx. by destruct (read_step e r). }
  split; [done|]. rewrite (H4 Hok).
  assert (forall e, out_internal e = true -> out_step e o = None) as Ho.
  { intros e He. pose proof (Hn (LOut e) He) as Hx. cbn in Hx. by destruct (out_step e o). }
  destruct (out_quiescent o H1 U1 U2 Ho) as [Hw _]. apply take_ge. unfold sent. cbn. rewrite length_fmap.
  destruct (ob_wire o !! n) as [raw|] eqn:Hb; [exfalso|apply lookup_ge_None in Hb; rewrite Hw, length_fmap in Hb; lia].
  destruct (quiet_pc r H2 U3 Hq) as [Hpc|(c & m & Hpc)].
  - pose proof (Hn (LRead false 0) eq_refl) as Hx. cbn in Hx. rewrite Hb in Hx.
    destruct (wire_take o H1 n raw Hb) as (m & Hm & ->).
    assert ((om_msg <$> ob_accepted o) !! n = Some (om_msg m)) as Hl by (by rewrite list_lookup_fmap, Hm).
    rewrite wire_read in Hx by (by eapply Forall_lookup_1). cbn in Hx. unfold readHandler in Hx. by rewrite Hpc in Hx.
  - pose proof (Hn (LIn EvSent) eq_refl) as Hx. cbn in Hx. unfold readHandler in Hx. by rewrite Hpc in Hx.
Qed.

(** C10: two peers together.  The messages one end queues, provided that the wire format can
    carry all of them, are read by the other end in this order, and each of its streams
    applies, in order, an initial part of what was read for it ([routed_to]): besides errors
    these are the messages sent for the channel (or for the gossiper), in the order in which
    they were queued.  While the connection is up, everything is delivered: the goroutines of
    both ends can make only a bounded number of steps without a new message, whatever their
    schedule, and when none is left everything queued was read, every channel's stream has
    applied exactly what was read for it, with all messages sent for the channel, and a
    channel without a stream was sent none. *)
Theorem link_in_order l :
  link_reach l -> Forall wire_ok (sent l) ->
  ((rd_inputs (lk_in l)).*1 `prefix_of` sent l
   /\ forall k x, get_stream k (lk_in l) = Some x ->
        ms_applied x `prefix_of` routed_to k (rd_inputs (lk_in l))
        /\ List.filter (belongs k) (ms_applied x) `prefix_of` List.filter (belongs k) (sent l))
  /\ forall es l', link_up l -> forallb link_internal es = true -> link_run es l = Some l' ->
     (length es <= link_work l)%nat
     /\ ((forall e, link_internal e = true -> link_step e l' = None) ->
         (rd_inputs (lk_in l')).*1 = sent l
         /\ forall k, match get_stream k (lk_in l') with
                      | Some x => ms_applied x = routed_to k (rd_inputs (lk_in l'))
                                  /\ List.filter (belongs k) (ms_applied x) = List.filter (belongs k) (sent l)
                      | None => List.filter (belongs k) (sent l) = []
                      end).
Proof.
  intros [es0 Hr] Hok. pose proof (link_inv_run _ _ _ link_inv_new Hr) as Hi. split.
  - destruct Hi as (H1 & H2 & _ & H4). pose proof (prefix_take (sent l) (lk_read l)) as Hp. rewrite <- (H4 Hok) in Hp. split; [done|].
    intros k x Hk. pose proof (applied_prefix _ k x H2 Hk) as Ha. split; [done|]. apply (filter_prefix (belongs k)) in Ha.
    rewrite routed_belongs in Ha. etransitivity; [exact Ha|by apply filter_prefix].
  - intros es l' Hu He Hrun. destruct (link_work_run _ _ _ Hi Hu Hok He Hrun) as (Hw & Hu' & Hs). split; [lia|].
    intros Hn. pose proof (link_inv_run _ _ _ Hi Hrun) as Hi'. rewrite <- Hs in *.
    destruct (link_quiet l' Hi' Hu' Hok Hn) as [Hq Hin]. split; [done|]. intros k. destruct Hi' as (_ & H2 & _ & _).
    rewrite <- Hin, <- routed_belongs. destruct (get_stream k (lk_in l')) as [x|] eqn:Hk.
    + pose proof (quiet_routed _ k x H2 (proj2 (proj2 Hu')) Hq Hk) as ->. done.
    + destruct k as [c|]; [|done]. cbn [routed_to]. by rewrite (proj1 (proj1 (proj2 H2) c) Hk).
Qed.
End Link.
