(* ===== verification/PeerChans.v ===== *)
(** * The channels of a peer

    [loadActiveChannels], [channelManager] and what it calls, and the handshake of peer.go,
    on top of the channel closer.  A channel ([lnwallet.LightningChannel]) is shared
    between the maps of the peer and the closers, so channels and closers are positions in
    a heap; a closer works on the channel of its position. *)

From Stdlib Require Import ZArith Lia.
From Stdlib Require Import Init.Byte.
From stdpp Require Import base gmap strings numbers list.
From S2P Require Import Prelude Tx Effects ChanCloser.
Local Open Scope Z_scope.

(** ** The channel, the database and the rest of the daemon *)

(** What the peer uses of a channel besides what the closer does: [LightningChannel]'s
    [Stop] is [StopChan]. *)
Class PeerChannel (CH : ChannelIface) := {
  ActiveHtlcs : Chan -> nat;
  RemoteNextRevocation : Chan -> option bytes;
  InitNextRevocation : option bytes -> Chan -> res () * Chan;
  ResetState : Chan -> Chan;
  StopChan : Chan -> Chan;
  DBChan : Type;
  FundingOutpoint : DBChan -> OutPoint;
  IsBorked : DBChan -> bool;
  NewLightningChannel : DBChan -> res Chan;
  PayToAddrScript : bytes -> res bytes
}.

Record ForwardingPolicy := mkForwardingPolicy {
  fp_MinHTLC : Z;
  fp_BaseFee : Z;
  fp_FeeRate : Z;
  fp_TimeLockDelta : Z
}.

(** A directed edge of the graph; [ep_Node] is the key of the node it leads to. *)
Record ChannelEdgePolicy := mkEdgePolicy {
  ep_SigBytes : bytes;
  ep_ChannelID : Z;
  ep_LastUpdate : Z;
  ep_Flags : Z;
  ep_TimeLockDelta : Z;
  ep_MinHTLC : Z;
  ep_FeeBaseMSat : Z;
  ep_FeeProportionalMillionths : Z;
  ep_Node : bytes
}.

(** The answers of the notifier, the chain, the chain arbitrator, the switch, the wallet,
    the fee estimator and the graph to the calls of one handler.  [an_edges] is the first
    node key of a channel with its two policies. *)
Record answers := mkAnswers {
  an_epoch : res ();
  an_height : res Z;
  an_events : res ();
  an_addLink : res ();
  an_removeLink : res ();
  an_address : res bytes;
  an_fee : res Z;
  an_closeCtx : res ();
  an_edges : res (bytes * option ChannelEdgePolicy * option ChannelEdgePolicy)
}.

Inductive ChannelCloseType := CloseRegular | CloseBreach.

(** [cl_id] stands for the channels [Updates] and [Err] of the request. *)
Record ChanClose := mkChanClose {
  cl_CloseType : ChannelCloseType;
  cl_ChanPoint : OutPoint;
  cl_TargetFeePerKw : Z;
  cl_id : Z
}.

(** ** State *)

(** What leaves the peer: messages to the other end, answers to requests, calls of the
    switch. *)
Inductive chan_event :=
  | CQueue (m : Message)
  | CQueueError (cid : bytes) (err : goerr)
  | CDoneClosed (req : nat)
  | CReqErr (req : Z) (err : goerr)
  | CClosePending (req : Z) (txid : bytes)
  | CChanClosed (req : Z) (txid : bytes)
  | CAddLink (cid : bytes) (policy : option ForwardingPolicy)
  | CRemoveLink (cid : bytes).

(** A goroutine in [waitForChanToClose]. *)
Record chan_wait := mkWait {
  w_req : option Z;
  w_chanPoint : OutPoint;
  w_txid : bytes;
  w_height : Z;
  w_registered : bool
}.

Section Peer.
Context {CH : ChannelIface} {PCH : PeerChannel CH}.

(** [ch_heap] are the channels, [ch_closers] the closers with the position of their
    channel. *)
Record chans := mkChans {
  ch_heap : list Chan;
  activeChannels : gmap bytes nat;
  ch_closers : list (nat * channelCloser);
  activeChanCloses : gmap bytes nat;
  failedChannels : gset bytes;
  ch_waits : list chan_wait;
  ch_log : list chan_event
}.

Definition newChans : chans := mkChans [] ∅ [] ∅ ∅ [] [].

Definition set_heap x s := mkChans x (activeChannels s) (ch_closers s) (activeChanCloses s) (failedChannels s) (ch_waits s) (ch_log s).
Definition set_active x s := mkChans (ch_heap s) x (ch_closers s) (activeChanCloses s) (failedChannels s) (ch_waits s) (ch_log s).
Definition set_closers x s := mkChans (ch_heap s) (activeChannels s) x (activeChanCloses s) (failedChannels s) (ch_waits s) (ch_log s).
Definition set_closes x s := mkChans (ch_heap s) (activeChannels s) (ch_closers s) x (failedChannels s) (ch_waits s) (ch_log s).
Definition set_waits x s := mkChans (ch_heap s) (activeChannels s) (ch_closers s) (activeChanCloses s) (failedChannels s) x (ch_log s).
Definition set_log x s := mkChans (ch_heap s) (activeChannels s) (ch_closers s) (activeChanCloses s) (failedChannels s) (ch_waits s) x.

Definition PC : Type -> Type := ST chans.
Definition nil_deref : goerr := ErrPanic "nil pointer dereference".

Definition emit (e : chan_event) : PC () := st_upd (fun s => set_log (ch_log s ++ [e]) s).

(** Dereferencing a channel, and a call that changes it. *)
Definition channel (h : nat) : PC Chan := fun s =>
  match ch_heap s !! h with Some c => (Ok c, s) | None => (Err nil_deref, s) end.
Definition on_channel {A} (h : nat) (f : Chan -> A * Chan) : PC A := fun s =>
  match ch_heap s !! h with
  | Some c => let '(a, c') := f c in (Ok a, set_heap (<[h := c']> (ch_heap s)) s)
  | None => (Err nil_deref, s)
  end.
Definition upd_channel (h : nat) (f : Chan -> Chan) : PC () := on_channel h (fun c => (tt, f c)).

(** A call of a method of the closer at position [i], on its channel. *)
Definition on_closer {A} (i : nat) (m : CC A) : PC (res A) := fun s =>
  match ch_closers s !! i with
  | None => (Err nil_deref, s)
  | Some (h, c) =>
      match ch_heap s !! h with
      | None => (Err nil_deref, s)
      | Some ch =>
          let '(r, c') := m (set_channel ch c) in
          (Ok r, set_heap (<[h := cc_channel c']> (ch_heap s)) (set_closers (<[i := (h, c')]> (ch_closers s)) s))
      end
  end.

Definition closer (i : nat) : PC (nat * channelCloser) := fun s =>
  match ch_closers s !! i with Some p => (Ok p, s) | None => (Err nil_deref, s) end.

(** A new object. *)
Definition alloc_channel (c : Chan) : PC nat := fun s => (Ok (length (ch_heap s)), set_heap (ch_heap s ++ [c]) s).
Definition alloc_closer (h : nat) (c : channelCloser) : PC nat := fun s =>
  (Ok (length (ch_closers s)), set_closers (ch_closers s ++ [(h, c)]) s).

(** Reporting to a request, if there is one. *)
Definition report (req : option Z) (e : Z -> chan_event) : PC () :=
  match req with Some r => emit (e r) | None => mret tt end.

(** ** Closing *)

Definition genDeliveryScript (a : answers) : res bytes :=
  deliveryAddr ← an_address a;
  PayToAddrScript deliveryAddr.

(** [SatPerVByte.FeePerKWeight]. *)
Definition FeePerKWeight (feePerVSize : Z) : Z := Z.quot (i64 (feePerVSize * 1000)) 4.

Definition WipeChannel (a : answers) (chanPoint : OutPoint) : PC (res ()) :=
  let chanID := NewChanIDFromOutPoint chanPoint in
  s ← st_get;
  _ ← (match activeChannels s !! chanID with
       | Some h =>
           _ ← upd_channel h StopChan;
           st_upd (fun s => set_active (delete chanID (activeChannels s)) s)
       | None => mret tt
       end : PC ());
  _ ← emit (CRemoveLink chanID);
  mret (match an_removeLink a with Err ErrChannelLinkNotFound => Ok tt | r => r end).

Definition fetchActiveChanCloser (a : answers) (chanID : bytes) : PC nat :=
  s ← st_get;
  match activeChannels s !! chanID with
  | None => st_fail (ErrNew "unable to close channel, ChannelID is unknown")
  | Some h =>
      match activeChanCloses s !! chanID with
      | Some i => mret i
      | None =>
          ch ← channel h;
          if bool_decide (ActiveHtlcs ch = 0%nat) then
            match genDeliveryScript a with
            | Err _ => st_fail (ErrNew "close addr unavailable")
            | Ok deliveryAddr =>
                match an_fee a with
                | Err _ => st_fail (ErrNew "unable to estimate fee")
                | Ok feePerVSize =>
                    match an_height a with
                    | Err _ => st_fail (ErrNew "cannot obtain best block")
                    | Ok startingHeight =>
                        _ ← st_res (an_closeCtx a);
                        i ← alloc_closer h (newChannelCloser ch deliveryAddr (FeePerKWeight feePerVSize) (u32 startingHeight) None);
                        _ ← st_upd (fun s => set_closes (<[chanID := i]> (activeChanCloses s)) s);
                        mret i
                    end
                end
            end
          else st_fail (ErrNew "cannot co-op close channel w/ active htlcs")
      end
  end.

(** The cooperative part of [handleLocalCloseReq]. *)
Definition closeRegular (a : answers) (req : ChanClose) (chanID : bytes) (h : nat) : PC () :=
  match genDeliveryScript a with
  | Err err => emit (CReqErr (cl_id req) err)
  | Ok deliveryAddr =>
      match an_closeCtx a with
      | Err err => emit (CReqErr (cl_id req) err)
      | Ok _ =>
          match an_height a with
          | Err err => emit (CReqErr (cl_id req) err)
          | Ok startingHeight =>
              ch ← channel h;
              i ← alloc_closer h (newChannelCloser ch deliveryAddr (cl_TargetFeePerKw req) (u32 startingHeight) (Some (cl_id req)));
              _ ← st_upd (fun s => set_closes (<[chanID := i]> (activeChanCloses s)) s);
              r ← on_closer i ShutdownChan;
              match r with
              | Err err =>
                  _ ← emit (CReqErr (cl_id req) err);
                  _ ← st_upd (fun s => set_closes (delete chanID (activeChanCloses s)) s);
                  upd_channel h ResetState
              | Ok shutdownMsg => emit (CQueue (MShutdown shutdownMsg))
              end
          end
      end
  end.

Definition handleLocalCloseReq (a : answers) (req : ChanClose) : PC () :=
  let chanID := NewChanIDFromOutPoint (cl_ChanPoint req) in
  s ← st_get;
  match activeChannels s !! chanID with
  | None => emit (CReqErr (cl_id req) (ErrNew "unable to close channel, ChannelID is unknown"))
  | Some h =>
      match cl_CloseType req with
      | CloseRegular => closeRegular a req chanID h
      | CloseBreach =>
          r ← WipeChannel a (cl_ChanPoint req);
          match r with Err err => emit (CReqErr (cl_id req) err) | Ok _ => mret tt end
      end
  end.

Definition finalizeChanClosure (a : answers) (i : nat) : PC () :=
  p ← closer i;
  let '(h, c) := p in
  let closeReq := CloseRequest c in
  ch ← channel h;
  let chanPoint := ChannelPoint ch in
  w ← WipeChannel a chanPoint;
  _ ← (match w with Err err => report closeReq (fun r => CReqErr r err) | Ok _ => mret tt end : PC ());
  _ ← upd_channel h StopChan;
  t ← on_closer i ClosingTx;
  _ ← (match t with Err err => report closeReq (fun r => CReqErr r err) | Ok _ => mret tt end : PC ());
  match t with
  | Ok (Some closingTx) =>
      let closingTxid := TxHash closingTx in
      _ ← report closeReq (fun r => CClosePending r closingTxid);
      st_upd (fun s => set_waits (ch_waits s ++ [mkWait closeReq chanPoint closingTxid (cc_negotiationHeight c) false]) s)
  | _ => st_fail nil_deref
  end.

(** The goroutine of [waitForChanToClose]: the registration, and the confirmation, which
    does not come if the notifier shuts down. *)
Definition wait_register (j : nat) (r : res ()) : PC () := fun s =>
  match ch_waits s !! j with
  | Some (mkWait req op txid height false) =>
      match r with
      | Err err => report req (fun q => CReqErr q err) (set_waits (delete j (ch_waits s)) s)
      | Ok _ => (Ok tt, set_waits (<[j := mkWait req op txid height true]> (ch_waits s)) s)
      end
  | _ => (Err (ErrBlocked "no such goroutine"), s)
  end.

Definition wait_confirmed (j : nat) (ok : bool) : PC () := fun s =>
  match ch_waits s !! j with
  | Some (mkWait req op txid height true) =>
      let s' := set_waits (delete j (ch_waits s)) s in
      if ok then report req (fun q => CChanClosed q txid) s' else (Ok tt, s')
  | _ => (Err (ErrBlocked "no such goroutine"), s)
  end.

(** ** The select of [channelManager] *)

(** A new channel, at position [h], from the funding manager. *)
Definition newChannel (a : answers) (h : nat) (done : nat) : PC () :=
  newChan ← channel h;
  let chanID := NewChanIDFromOutPoint (ChannelPoint newChan) in
  s ← st_get;
  match activeChannels s !! chanID with
  | Some cur =>
      _ ← emit (CDoneClosed done);
      _ ← upd_channel h StopChan;
      currentChan ← channel cur;
      match RemoteNextRevocation currentChan with
      | Some _ => mret tt
      | None =>
          newChan ← channel h;
          _ ← on_channel cur (InitNextRevocation (RemoteNextRevocation newChan));
          mret tt
      end
  | None =>
      _ ← st_upd (fun s => set_active (<[chanID := h]> (activeChannels s)) s);
      match an_epoch a, an_height a, an_events a with
      | Ok _, Ok _, Ok _ =>
          _ ← emit (CAddLink chanID None);
          emit (CDoneClosed done)
      | _, _, _ => mret tt
      end
  end.

Definition closeMsg (a : answers) (cid : bytes) (msg : Message) : PC () :=
  r ← st_try (fetchActiveChanCloser a cid);
  match r with
  | Err (ErrPanic what) => st_fail (ErrPanic what)
  | Err err => emit (CQueueError cid err)
  | Ok i =>
      p ← on_closer i (ProcessCloseMsg msg);
      match p with
      | Err (ErrPanic what) => st_fail (ErrPanic what)
      | Err err =>
          q ← closer i;
          _ ← upd_channel q.1 ResetState;
          _ ← report (CloseRequest q.2) (fun r => CReqErr r err);
          st_upd (fun s => set_closes (delete cid (activeChanCloses s)) s)
      | Ok (msgs, closeFin) =>
          _ ← st_iter (fun m => emit (CQueue m)) msgs;
          if closeFin : bool then finalizeChanClosure a i else mret tt
      end
  end.

(** The peer quits. *)
Definition resetChannels : PC () :=
  s ← st_get;
  st_iter (fun p : bytes * nat => upd_channel p.2 ResetState) (map_to_list (activeChannels s)).

Inductive chan_input :=
  | INewChannel (c : Chan) (done : nat)
  | ILocalClose (req : ChanClose)
  | ICloseMsg (cid : bytes) (msg : Message)
  | IWaitRegister (j : nat) (r : res ())
  | IWaitConfirmed (j : nat) (ok : bool).

Definition channelManager (a : answers) (i : chan_input) : PC () :=
  match i with
  | INewChannel c done => h ← alloc_channel c; newChannel a h done
  | ILocalClose req => handleLocalCloseReq a req
  | ICloseMsg cid msg => closeMsg a cid msg
  | IWaitRegister j r => wait_register j r
  | IWaitConfirmed j ok => wait_confirmed j ok
  end.

(** ** Loading the channels of the database *)

(** Our policy of a channel, if it is in the graph. *)
Definition selfPolicy (identity : bytes) (edges : res (bytes * option ChannelEdgePolicy * option ChannelEdgePolicy)) :
    option ChannelEdgePolicy :=
  match edges with
  | Ok (nodeKey1, p1, p2) => if bool_decide (nodeKey1 = identity) then p1 else p2
  | Err _ => None
  end.

(** [None] is the default policy of the server. *)
Definition forwardingPolicy (policy : option ChannelEdgePolicy) : option ForwardingPolicy :=
  match policy with
  | Some p => Some (mkForwardingPolicy (ep_MinHTLC p) (ep_FeeBaseMSat p) (ep_FeeProportionalMillionths p) (u32 (ep_TimeLockDelta p)))
  | None => None
  end.

(** One iteration; a channel that is not returned by [NewLightningChannel] is stopped
    through a nil pointer.  A failed call stops the channel and ends the loop. *)
Definition loadChannel (identity : bytes) (p : DBChan * answers) : PC () :=
  let '(dbChan, a) := p in
  match NewLightningChannel dbChan with
  | Err _ => st_fail nil_deref
  | Ok lnChan =>
      let chanID := NewChanIDFromOutPoint (FundingOutpoint dbChan) in
      h ← alloc_channel lnChan;
      _ ← st_upd (fun s => set_active (<[chanID := h]> (activeChannels s)) s);
      s ← st_get;
      let fail (err : goerr) : PC () := _ ← upd_channel h StopChan; st_fail err in
      if IsBorked dbChan then upd_channel h StopChan
      else if decide (chanID ∈ failedChannels s) then upd_channel h StopChan
      else
        match an_epoch a, an_height a with
        | Err err, _ | Ok _, Err err => fail err
        | Ok _, Ok _ =>
            match an_edges a, an_events a with
            | Err ErrEdgeNotFound, Ok _ | Ok _, Ok _ =>
                _ ← emit (CAddLink chanID (forwardingPolicy (selfPolicy identity (an_edges a))));
                match an_addLink a with Ok _ => mret tt | Err err => fail err end
            | Err ErrEdgeNotFound, Err err | Ok _, Err err => fail err
            | Err err, _ => fail err
            end
        end
  end.

Definition loadActiveChannels (identity : bytes) (l : list (DBChan * answers)) : PC () := st_iter (loadChannel identity) l.
End Peer.

(** ** The last update of a channel *)

Record ChannelUpdate := mkChannelUpdate {
  cu_ChainHash : bytes;
  cu_ShortChannelID : Z;
  cu_Timestamp : Z;
  cu_Flags : Z;
  cu_TimeLockDelta : Z;
  cu_HtlcMinimumMsat : Z;
  cu_BaseFee : Z;
  cu_FeeRate : Z;
  cu_Signature : bytes
}.

(** [pubKey] is the key of the remote end, [r] the answer of [GetChannelByID], [NewSig] the
    conversion of the signature. *)
Definition createGetLastUpdate (NewSig : bytes -> res bytes) (pubKey : bytes)
    (r : res (bytes * option ChannelEdgePolicy * option ChannelEdgePolicy)) : res ChannelUpdate :=
  match r with
  | Err err => Err err
  | Ok (chainHash, Some edge1, Some edge2) =>
      let local := if bool_decide (ep_Node edge1 = pubKey) then edge2 else edge1 in
      sig ← NewSig (ep_SigBytes local);
      Ok (mkChannelUpdate chainHash (ep_ChannelID local) (u32 (ep_LastUpdate local)) (ep_Flags local) (ep_TimeLockDelta local)
            (ep_MinHTLC local) (u32 (ep_FeeBaseMSat local)) (u32 (ep_FeeProportionalMillionths local)) sig)
  | Ok _ => Err (ErrNew "unable to find channel by ShortChannelID")
  end.

(** The update is that of the edge that leads to us, so it is the policy of the remote
    end. *)
Theorem last_update_is_remote NewSig ours remote chainHash edge1 edge2 u :
  ours <> remote ->
  (ep_Node edge1 = remote /\ ep_Node edge2 = ours) \/ (ep_Node edge1 = ours /\ ep_Node edge2 = remote) ->
  createGetLastUpdate NewSig remote (Ok (chainHash, Some edge1, Some edge2)) = Ok u ->
  exists edge, (edge = edge1 \/ edge = edge2) /\ ep_Node edge = ours
    /\ cu_HtlcMinimumMsat u = ep_MinHTLC edge /\ cu_BaseFee u = u32 (ep_FeeBaseMSat edge)
    /\ cu_TimeLockDelta u = ep_TimeLockDelta edge.
Proof.
  intros Hne Hn. unfold createGetLastUpdate, mbind, res_bind. intros E.
  destruct Hn as [[H1 H2]|[H1 H2]].
  - rewrite bool_decide_true in E by done. exists edge2. destruct (NewSig _); simplify_eq. auto.
  - rewrite bool_decide_false in E by congruence. exists edge1. destruct (NewSig _); simplify_eq. auto.
Qed.
