(* ===== verification/PeerChansInv.v ===== *)
(** * The channels of a peer are well formed

    The invariant of the channel manager, and that every input keeps it and does not make
    it panic. *)

From Stdlib Require Import ZArith Lia.
From Stdlib Require Import Init.Byte.
From stdpp Require Import base gmap strings numbers list.
From S2P Require Import Prelude Tx Effects ChanCloser ChanCloserProps PeerChans.
Local Open Scope Z_scope.

(** The outpoint of a channel never changes, and a channel loaded from the database has
    that of its record. *)
Class ChanStable {CH : ChannelIface} (PCH : PeerChannel CH) := {
  stable_propose fee l r ch : ChannelPoint (CreateCloseProposal fee l r ch).2 = ChannelPoint ch;
  stable_complete s1 s2 l r fee ch : ChannelPoint (CompleteCooperativeClose s1 s2 l r fee ch).2 = ChannelPoint ch;
  stable_init k ch : ChannelPoint (InitNextRevocation k ch).2 = ChannelPoint ch;
  stable_reset ch : ChannelPoint (ResetState ch) = ChannelPoint ch;
  stable_stop ch : ChannelPoint (StopChan ch) = ChannelPoint ch;
  stable_load db ch : NewLightningChannel db = Ok ch -> ChannelPoint ch = FundingOutpoint db
}.

Section Inv.
Context {CH : ChannelIface} {PCH : PeerChannel CH} {ST0 : ChanStable PCH}.

(** ** What the closer leaves alone *)

Definition same_id (c c' : channelCloser) : Prop :=
  cc_cid c' = cc_cid c /\ cc_chanPoint c' = cc_chanPoint c /\ cc_closeReq c' = cc_closeReq c
  /\ cc_negotiationHeight c' = cc_negotiationHeight c
  /\ ChannelPoint (cc_channel c') = ChannelPoint (cc_channel c).

#[local] Instance same_id_preorder : PreOrder same_id.
Proof.
  split; [done|]. intros a b c (H1 & H2 & H3 & H4 & H5) (K1 & K2 & K3 & K4 & K5). unfold same_id. split_and!; congruence.
Qed.

Lemma propose_same fee c r c' : proposeCloseSigned fee c = (r, c') -> same_id c c'.
Proof.
  unfold proposeCloseSigned, mbind, cc_bind, cc_get, channel_call.
  pose proof (stable_propose fee (cc_localDeliveryScript c) (cc_remoteDeliveryScript c) (cc_channel c)) as Hp.
  destruct (CreateCloseProposal _ _ _ _) as [[[[raw txid] amt]|e] ch]; cbn in Hp; [|by intros [= <- <-]].
  unfold cc_upd, cc_res. destruct (NewSigFromRawSignature raw); by intros [= <- <-].
Qed.

Lemma finish_same cs c r c' : finishClose cs c = (r, c') -> same_id c c'.
Proof.
  unfold finishClose, mbind, cc_bind, cc_get. destruct (_ !! _) as [own|]; [|by intros [= <- <-]]. unfold channel_call.
  pose proof (stable_complete (ToSignatureBytes (cs_Signature own) ++ [SigHashAll])
    (ToSignatureBytes (cs_Signature cs) ++ [SigHashAll]) (cc_localDeliveryScript c)
    (cc_remoteDeliveryScript c) (cs_FeeSatoshis cs) (cc_channel c)) as Hp.
  destruct (CompleteCooperativeClose _ _ _ _ _ _) as [[[tx bal]|e] ch]; cbn in Hp; [|by intros [= <- <-]].
  unfold cc_upd. destruct (broadcastTx tx); by intros [= <- <-].
Qed.

Lemma first_proposal_same ms c r c' : first_proposal ms c = (r, c') -> same_id c c'.
Proof.
  unfold first_proposal, mbind, cc_bind, cc_get. destruct (IsInitiator _); [|by intros [= <- <-]].
  destruct (proposeCloseSigned _ c) as [[m|e] c1] eqn:E; intros [= <- <-]; by eapply propose_same.
Qed.

Lemma process_same m c r c' : ProcessCloseMsg m c = (r, c') -> same_id c c'.
Proof.
  unfold ProcessCloseMsg, mbind at 1, cc_bind at 1, cc_get at 1. destruct (cc_state c).
  - destruct m; try (by intros [= <- <-]). unfold mbind, cc_bind, cc_upd, initChanShutdown, mbind, cc_bind, cc_get. simpl.
    intros E. apply first_proposal_same in E. by etransitivity; [|exact E].
  - destruct m; try (by intros [= <- <-]). unfold mbind, cc_bind, cc_upd. simpl.
    intros E. apply first_proposal_same in E. by etransitivity; [|exact E].
  - destruct m as [sd|cs|k]; try (by intros [= <- <-]). case_decide; [|apply finish_same].
    unfold mbind, cc_bind. destruct (proposeCloseSigned _ c) as [[m|e] c1] eqn:E; apply propose_same in E; [|by intros [= <- <-]].
    case_match; [|by intros [= <- <-]]. intros Ef. apply finish_same in Ef. by etransitivity.
  - by destruct m; intros [= <- <-].
  - by intros [= <- <-].
Qed.

Lemma shutdown_same c r c' : ShutdownChan c = (r, c') -> same_id c c'.
Proof.
  unfold ShutdownChan, mbind, cc_bind, cc_get. case_decide; [|by intros [= <- <-]]. by intros [= <- <-].
Qed.

Lemma closingTx_same c r c' : ClosingTx c = (r, c') -> c' = c.
Proof. unfold ClosingTx, mbind, cc_bind, cc_get. case_decide; by intros [= <- <-]. Qed.

Lemma cc_inv_channel ch c : cc_inv c -> cc_inv (set_channel ch c).
Proof.
  intros Hi. eapply cc_inv_same; try done. exists []. rewrite app_nil_r. split; [done|]. intros s. apply not_elem_of_nil.
Qed.

(** ** The invariant *)

(** A closer is filed under the identifier of its channel, and so is a channel. *)
Definition closer_ok (s : chans) (p : nat * channelCloser) : Prop :=
  cc_inv p.2 /\ cc_cid p.2 = NewChanIDFromOutPoint (cc_chanPoint p.2)
  /\ exists ch, ch_heap s !! p.1 = Some ch /\ ChannelPoint ch = cc_chanPoint p.2.

Definition chans_inv (s : chans) : Prop :=
  (forall cid h, activeChannels s !! cid = Some h -> exists ch, ch_heap s !! h = Some ch /\ NewChanIDFromOutPoint (ChannelPoint ch) = cid)
  /\ (forall cid i, activeChanCloses s !! cid = Some i -> exists p, ch_closers s !! i = Some p /\ cc_cid p.2 = cid)
  /\ (forall i p, ch_closers s !! i = Some p -> closer_ok s p).

Lemma chans_inv_new : chans_inv newChans.
Proof. split_and!; intros ? ? H; cbn in H; try (by rewrite lookup_empty in H); by rewrite lookup_nil in H. Qed.

(** Channels keep their outpoint. *)
Definition ext (s s' : chans) : Prop :=
  forall h ch, ch_heap s !! h = Some ch -> exists ch', ch_heap s' !! h = Some ch' /\ ChannelPoint ch' = ChannelPoint ch.

#[local] Instance ext_preorder : PreOrder ext.
Proof.
  split; [intros s h ch; eauto|]. intros a b c H1 H2 h ch Hh. destruct (H1 h ch Hh) as (ch1 & Hh1 & <-).
  destruct (H2 h ch1 Hh1) as (ch2 & Hh2 & <-). eauto.
Qed.

Lemma closer_ok_ext s s' p : ext s s' -> closer_ok s p -> closer_ok s' p.
Proof. intros He (H1 & H2 & ch & Hh & Hp). split_and!; try done. destruct (He _ _ Hh) as (ch' & ? & E). exists ch'. by rewrite E. Qed.

(** The same maps on a heap that has grown. *)
Lemma chans_inv_ext s s' :
  chans_inv s -> ext s s' -> activeChannels s' = activeChannels s -> activeChanCloses s' = activeChanCloses s ->
  ch_closers s' = ch_closers s -> chans_inv s'.
Proof.
  intros (H1 & H2 & H3) He E1 E2 E3. split_and!.
  - intros cid h. rewrite E1. intros Hh. destruct (H1 cid h Hh) as (ch & Hc & <-). destruct (He h ch Hc) as (ch' & ? & E). exists ch'. by rewrite E.
  - rewrite E2, E3. apply H2.
  - rewrite E3. intros i p Hp. eapply closer_ok_ext; eauto.
Qed.

(** [good m s Q]: [m] does not panic, keeps the invariant, and leaves [Q]. *)
Definition panics {A} (r : res A) : bool := match r with Err (ErrPanic _) => true | _ => false end.

Definition good {A} (m : PC A) (s : chans) (Q : res A -> chans -> Prop) : Prop :=
  swp m (fun r s' => chans_inv s' /\ ext s s' /\ panics r = false /\ Q r s') s.

Lemma good_ret {A} (a : A) s (Q : res A -> chans -> Prop) : chans_inv s -> Q (Ok a) s -> good (mret a) s Q.
Proof. intros. apply swp_ret. done. Qed.

Lemma good_fail {A} e s (Q : res A -> chans -> Prop) : chans_inv s -> panics (Err e : res A) = false -> Q (Err e) s -> good (st_fail e) s Q.
Proof. intros. unfold good, swp. done. Qed.

Lemma good_bind {A B} (m : PC A) (f : A -> PC B) s Q :
  good m s (fun r s' => match r with Ok a => good (f a) s' Q | Err e => Q (Err e) s' end) -> good (m ≫= f) s Q.
Proof.
  intros H. apply swp_bind. unfold good in H. eapply swp_mono; [exact H|]. intros [a|e] s' (H1 & H2 & H3 & H4); [|done].
  unfold good in H4. eapply swp_mono; [exact H4|]. intros r s2 (K1 & K2 & K3 & K4). split_and!; try done. by etransitivity.
Qed.

Lemma good_mono {A} (m : PC A) s (Q Q' : res A -> chans -> Prop) :
  good m s Q -> (forall r s', chans_inv s' -> ext s s' -> Q r s' -> Q' r s') -> good m s Q'.
Proof. intros H Hq. unfold good in *. eapply swp_mono; [exact H|]. intros r s' (H1 & H2 & H3 & H4). split_and!; auto. Qed.

Lemma good_get s (Q : res chans -> chans -> Prop) : chans_inv s -> Q (Ok s) s -> good st_get s Q.
Proof. intros. unfold good, swp. done. Qed.

(** A write that leaves heap and closers. *)
Lemma good_upd f s (Q : res () -> chans -> Prop) :
  chans_inv s -> chans_inv (f s) -> ch_heap (f s) = ch_heap s -> Q (Ok tt) (f s) -> good (st_upd f) s Q.
Proof. intros H1 H2 H3 H4. unfold good, swp. cbn. split_and!; try done. intros h ch. rewrite H3. eauto. Qed.

Lemma good_emit e s (Q : res () -> chans -> Prop) :
  chans_inv s -> Q (Ok tt) (set_log (ch_log s ++ [e]) s) -> good (emit e) s Q.
Proof. intros. by apply good_upd. Qed.

Lemma good_report req e s (Q : res () -> chans -> Prop) :
  chans_inv s -> (forall s', activeChannels s' = activeChannels s -> activeChanCloses s' = activeChanCloses s ->
                    ch_closers s' = ch_closers s -> ch_heap s' = ch_heap s -> chans_inv s' -> Q (Ok tt) s') ->
  good (report req e) s Q.
Proof. intros Hi Hq. destruct req; cbn; [apply good_emit | apply good_ret]; auto. Qed.

Lemma good_channel h ch s (Q : res Chan -> chans -> Prop) :
  chans_inv s -> ch_heap s !! h = Some ch -> Q (Ok ch) s -> good (channel h) s Q.
Proof. intros H1 H2 H3. unfold good, swp, channel. rewrite H2. done. Qed.

Lemma ext_heap_set s h ch ch' s' :
  ch_heap s !! h = Some ch -> ChannelPoint ch' = ChannelPoint ch -> ch_heap s' = <[h := ch']> (ch_heap s) -> ext s s'.
Proof.
  intros Hh Hp E h2 c2 Hh2. rewrite E. destruct (decide (h2 = h)) as [->|Hne].
  - rewrite list_lookup_insert_eq by (by eapply lookup_lt_Some). exists ch'. simplify_eq. done.
  - rewrite list_lookup_insert_ne by done. eauto.
Qed.

Lemma good_on_channel {A} h (f : Chan -> A * Chan) ch s (Q : res A -> chans -> Prop) :
  chans_inv s -> ch_heap s !! h = Some ch -> ChannelPoint (f ch).2 = ChannelPoint ch ->
  (forall s', chans_inv s' -> ch_heap s' = <[h := (f ch).2]> (ch_heap s) -> activeChannels s' = activeChannels s ->
     activeChanCloses s' = activeChanCloses s -> ch_closers s' = ch_closers s -> Q (Ok (f ch).1) s') ->
  good (on_channel h f) s Q.
Proof.
  intros Hi Hh Hp Hq. unfold good, swp, on_channel. rewrite Hh. destruct (f ch) as [x ch']. cbn in *.
  assert (ext s (set_heap (<[h := ch']> (ch_heap s)) s)) as He by (by eapply ext_heap_set).
  assert (chans_inv (set_heap (<[h := ch']> (ch_heap s)) s)) by (by eapply chans_inv_ext).
  split_and!; try done. by apply Hq.
Qed.

Lemma good_upd_channel h f ch s (Q : res () -> chans -> Prop) :
  chans_inv s -> ch_heap s !! h = Some ch -> ChannelPoint (f ch) = ChannelPoint ch ->
  (forall s', chans_inv s' -> ch_heap s' = <[h := f ch]> (ch_heap s) -> activeChannels s' = activeChannels s ->
     activeChanCloses s' = activeChanCloses s -> ch_closers s' = ch_closers s -> Q (Ok tt) s') ->
  good (upd_channel h f) s Q.
Proof. intros Hi Hh Hp Hq. by eapply good_on_channel. Qed.

(** A call of a method of a closer. *)
Lemma good_on_closer {A} i h c ch (m : CC A) r c' s (Q : res (res A) -> chans -> Prop) :
  chans_inv s -> ch_closers s !! i = Some (h, c) -> ch_heap s !! h = Some ch ->
  m (set_channel ch c) = (r, c') -> cc_inv c' -> same_id (set_channel ch c) c' ->
  (forall s', chans_inv s' -> ch_closers s' = <[i := (h, c')]> (ch_closers s) -> ch_heap s' = <[h := cc_channel c']> (ch_heap s) ->
     activeChannels s' = activeChannels s -> activeChanCloses s' = activeChanCloses s -> Q (Ok r) s') ->
  good (on_closer i m) s Q.
Proof.
  intros Hi Hc Hh Hm Hinv (S1 & S2 & S3 & S4 & S5) Hq. unfold good, swp, on_closer. rewrite Hc, Hh, Hm. cbn [fst snd].
  set (s' := set_heap _ _). cbn in S1, S2, S3, S4, S5.
  assert (ext s s') as He by (by eapply ext_heap_set).
  assert (chans_inv s') as Hi'.
  { destruct Hi as (H1 & H2 & H3). split_and!.
    - intros cid k Hk. destruct (H1 cid k Hk) as (ch0 & Hk0 & <-). destruct (He _ _ Hk0) as (ch1 & ? & E). exists ch1. by rewrite E.
    - intros cid j Hj. destruct (H2 cid j Hj) as (p & Hp & Hcid). cbn. destruct (decide (j = i)) as [->|Hne].
      + rewrite list_lookup_insert_eq by (by eapply lookup_lt_Some). eexists. split; [done|]. cbn. rewrite S1. by simplify_eq.
      + rewrite list_lookup_insert_ne by done. eauto.
    - intros j p Hp. cbn in Hp. destruct (decide (j = i)) as [->|Hne].
      + rewrite list_lookup_insert_eq in Hp by (by eapply lookup_lt_Some). injection Hp as <-.
        destruct (H3 i _ Hc) as (_ & Hid & ch0 & Hh0 & Hp0). cbn in Hid, Hh0, Hp0. rewrite Hh in Hh0. injection Hh0 as <-.
        split_and!; cbn; [done|congruence|]. rewrite list_lookup_insert_eq by (by eapply lookup_lt_Some). eexists. split; [done|]. congruence.
      + rewrite list_lookup_insert_ne in Hp by done. by eapply closer_ok_ext, H3. }
  split_and!; try done. by apply Hq.
Qed.

Lemma good_closer i p s (Q : res (nat * channelCloser) -> chans -> Prop) :
  chans_inv s -> ch_closers s !! i = Some p -> Q (Ok p) s -> good (closer i) s Q.
Proof. intros H1 H2 H3. unfold good, swp, closer. rewrite H2. done. Qed.

Lemma good_alloc_channel c s (Q : res nat -> chans -> Prop) :
  chans_inv s ->
  (forall s', chans_inv s' -> ch_heap s' = ch_heap s ++ [c] -> activeChannels s' = activeChannels s ->
     failedChannels s' = failedChannels s -> Q (Ok (length (ch_heap s))) s') ->
  good (alloc_channel c) s Q.
Proof.
  intros Hi Hq. unfold good, swp, alloc_channel. cbn [fst snd]. set (s' := set_heap _ s).
  assert (ext s s') as He. { intros h ch Hh. exists ch. split; [|done]. cbn. by apply lookup_app_l_Some. }
  assert (chans_inv s') by (by eapply chans_inv_ext). split_and!; try done. by apply Hq.
Qed.

Lemma good_alloc_closer h ch script fee height req s (Q : res nat -> chans -> Prop) :
  chans_inv s -> ch_heap s !! h = Some ch ->
  (forall s', chans_inv s' -> ch_closers s' = ch_closers s ++ [(h, newChannelCloser ch script fee height req)] ->
     ch_heap s' = ch_heap s -> activeChannels s' = activeChannels s -> activeChanCloses s' = activeChanCloses s ->
     Q (Ok (length (ch_closers s))) s') ->
  good (alloc_closer h (newChannelCloser ch script fee height req)) s Q.
Proof.
  intros Hi Hh Hq. unfold good, swp, alloc_closer. cbn [fst snd]. set (s' := set_closers _ s).
  assert (chans_inv s') as Hi'.
  { destruct Hi as (H1 & H2 & H3). split_and!; cbn; [done| |].
    - intros cid i Hi. destruct (H2 cid i Hi) as (p & Hp & ?). exists p. split; [|done]. by apply lookup_app_l_Some.
    - intros i p Hp. apply lookup_app_Some in Hp as [Hp|[_ Hp]]; [by apply (H3 i p)|].
      apply list_lookup_singleton_Some in Hp as [_ <-]. split_and!; [apply cc_inv_new|done|]. by exists ch. }
  split_and!; try done; [|by apply Hq]. intros k c Hk. eauto.
Qed.

(** Filing a channel or a closer under its identifier, and removing an entry. *)
Lemma inv_set_active cid h ch s :
  chans_inv s -> ch_heap s !! h = Some ch -> NewChanIDFromOutPoint (ChannelPoint ch) = cid ->
  chans_inv (set_active (<[cid := h]> (activeChannels s)) s).
Proof.
  intros (H1 & H2 & H3) Hh Hc. split_and!; try done. cbn. intros c k. destruct (decide (c = cid)) as [->|Hne].
  - rewrite lookup_insert_eq. intros [= <-]. eauto.
  - rewrite lookup_insert_ne by done. apply H1.
Qed.

Lemma inv_del_active cid s : chans_inv s -> chans_inv (set_active (delete cid (activeChannels s)) s).
Proof. intros (H1 & H2 & H3). split_and!; try done. cbn. intros c k [_ Hk]%lookup_delete_Some. by apply H1. Qed.

Lemma inv_set_closes cid i p s :
  chans_inv s -> ch_closers s !! i = Some p -> cc_cid p.2 = cid -> chans_inv (set_closes (<[cid := i]> (activeChanCloses s)) s).
Proof.
  intros (H1 & H2 & H3) Hp Hc. split_and!; try done. cbn. intros c k. destruct (decide (c = cid)) as [->|Hne].
  - rewrite lookup_insert_eq. intros [= <-]. eauto.
  - rewrite lookup_insert_ne by done. apply H2.
Qed.

Lemma inv_del_closes cid s : chans_inv s -> chans_inv (set_closes (delete cid (activeChanCloses s)) s).
Proof. intros (H1 & H2 & H3). split_and!; try done. cbn. intros c k [_ Hk]%lookup_delete_Some. by apply H2. Qed.

(** ** The handlers *)

(** The calls of other parts return errors of their own. *)
Definition answers_ok (a : answers) : Prop :=
  panics (an_epoch a) = false /\ panics (an_height a) = false /\ panics (an_events a) = false /\ panics (an_addLink a) = false
  /\ panics (an_closeCtx a) = false /\ panics (an_edges a) = false.

Lemma good_wipe a op s (Q : res (res ()) -> chans -> Prop) :
  chans_inv s ->
  (forall r s', chans_inv s' -> ext s s' -> activeChannels s' = delete (NewChanIDFromOutPoint op) (activeChannels s) ->
     ch_closers s' = ch_closers s -> activeChanCloses s' = activeChanCloses s -> Q (Ok r) s') ->
  good (WipeChannel a op) s Q.
Proof.
  intros Hi Hq. unfold WipeChannel. apply good_bind, good_get; [done|]. apply good_bind.
  destruct (activeChannels s !! NewChanIDFromOutPoint op) as [h|] eqn:Ea.
  - destruct (proj1 Hi _ _ Ea) as (ch & Hh & _). apply good_bind. eapply good_upd_channel; [done|done|apply stable_stop|].
    intros s1 Hi1 Hh1 Ea1 Ec1 El1.
    assert (ext s s1) as He1 by (eapply ext_heap_set; [done|apply stable_stop|done]).
    apply good_upd; [done|by apply inv_del_active|done|]. apply good_bind, good_emit; [by apply inv_del_active|].
    apply good_ret; [by apply inv_del_active|]. apply Hq; cbn; try done; [by apply inv_del_active|by rewrite Ea1].
  - apply good_ret; [done|]. apply good_bind, good_emit; [done|]. apply good_ret; [done|].
    apply Hq; cbn; try done; [intros h ch; eauto|by rewrite delete_id].
Qed.

Lemma good_fetch a cid s (Q : res nat -> chans -> Prop) :
  answers_ok a -> chans_inv s ->
  (forall e, panics (Err e : res nat) = false -> Q (Err e) s) ->
  (forall i s', chans_inv s' -> activeChanCloses s' !! cid = Some i -> activeChannels s' = activeChannels s -> Q (Ok i) s') ->
  good (fetchActiveChanCloser a cid) s Q.
Proof.
  intros Ha Hi He Hq. unfold fetchActiveChanCloser. apply good_bind, good_get; [done|].
  destruct (activeChannels s !! cid) as [h|] eqn:Ea; [|by apply good_fail; auto].
  destruct (activeChanCloses s !! cid) as [i|] eqn:Ec; [apply good_ret; auto|].
  destruct (proj1 Hi _ _ Ea) as (ch & Hh & Hcid). apply good_bind. eapply good_channel; [done|done|].
  case_bool_decide; [|by apply good_fail; auto]. destruct (genDeliveryScript a); [|by apply good_fail; auto].
  destruct (an_fee a); [|by apply good_fail; auto]. destruct (an_height a); [|by apply good_fail; auto].
  apply good_bind. destruct (an_closeCtx a) as [[]|e] eqn:Ex.
  2: { apply good_fail; [done| |apply He]; destruct Ha as (_ & _ & _ & _ & Hx & _); by rewrite Ex in Hx. }
  apply (good_ret tt s); [done|]. apply good_bind. eapply good_alloc_closer; [done|done|].
  intros s1 Hi1 El1 Eh1 Ea1 Ec1. apply good_bind.
  assert (chans_inv (set_closes (<[cid := length (ch_closers s)]> (activeChanCloses s1)) s1)).
  { eapply inv_set_closes; [done|rewrite El1; by apply list_lookup_middle|exact Hcid]. }
  apply good_upd; try done. apply good_ret; [done|]. apply Hq; [done|cbn; by rewrite lookup_insert_eq|done].
Qed.

Lemma good_finalize a i h c s (Q : res () -> chans -> Prop) :
  chans_inv s -> ch_closers s !! i = Some (h, c) -> cc_state c = closeFinished ->
  (forall s', chans_inv s' -> activeChannels s' !! cc_cid c = None -> Q (Ok tt) s') ->
  good (finalizeChanClosure a i) s Q.
Proof.
  intros Hi Hc Hs Hq. destruct (proj2 (proj2 Hi) i _ Hc) as (Hinv & Hid & ch & Hh & Hp). cbn in Hinv, Hid, Hh, Hp.
  unfold finalizeChanClosure. apply good_bind. eapply good_closer; [done|done|]. apply good_bind. eapply good_channel; [done|done|].
  apply good_bind, good_wipe; [done|]. intros w s1 Hi1 He1 Ea1 El1 Ec1. apply good_bind.
  assert (forall s2, chans_inv s2 -> ch_heap s2 = ch_heap s1 -> ch_closers s2 = ch_closers s1 -> activeChannels s2 = activeChannels s1 ->
    good (_ ← upd_channel h StopChan; t ← on_closer i ClosingTx;
          _ ← (match t with Err err => report (CloseRequest c) (fun r => CReqErr r err) | Ok _ => mret tt end : PC ());
          match t with
          | Ok (Some closingTx) =>
              _ ← report (CloseRequest c) (fun r => CClosePending r (TxHash closingTx));
              st_upd (fun s => set_waits (ch_waits s ++ [mkWait (CloseRequest c) (ChannelPoint ch) (TxHash closingTx) (cc_negotiationHeight c) false]) s)
          | _ => st_fail nil_deref
          end) s2 Q) as Hrest.
  { intros s2 Hi2 Eh2 El2 Ea2. destruct (He1 h ch Hh) as (ch1 & Hh1 & Hp1). apply good_bind.
    eapply good_upd_channel; [done|by rewrite Eh2|apply stable_stop|]. intros s3 Hi3 Eh3 Ea3 Ec3 El3. apply good_bind.
    assert (ch_closers s3 !! i = Some (h, c)) as Hc3 by (by rewrite El3, El2, El1).
    destruct (proj2 (proj2 Hi3) i _ Hc3) as (_ & _ & ch3 & Hh3 & Hp3).
    destruct (proj1 (ci_final _ Hinv) Hs) as [sm Hin]. destruct (ci_tx _ Hinv sm Hin) as (tx & Htx & _).
    eapply (good_on_closer i h c ch3 ClosingTx (Ok (Some tx)) (set_channel ch3 c)); try done.
    - unfold ClosingTx, mbind, cc_bind, cc_get. cbn. by rewrite decide_True, Htx.
    - by apply cc_inv_channel.
    - intros s4 Hi4 El4 Eh4 Ea4 Ec4. apply good_bind, good_ret; [done|]. apply good_bind, good_report; [done|].
      intros s5 Ea5 _ _ _ Hi5. apply good_upd; try done. apply Hq; [done|]. cbn. rewrite Ea5, Ea4, Ea3, Ea2, Ea1, Hid, Hp. apply lookup_delete_eq. }
  destruct w as [[]|err].
  - apply good_ret; [done|]. by apply Hrest.
  - apply good_report; [done|]. intros s2 Ea2 _ El2 Eh2 Hi2. by apply Hrest.
Qed.

Context {NP : ChannelNoPanic}.

Lemma good_close_msg a cid m s :
  answers_ok a -> chans_inv s -> good (closeMsg a cid m) s (fun _ _ => True).
Proof.
  intros Ha Hi. unfold closeMsg. apply good_bind. unfold good at 1. apply swp_try.
  eapply swp_mono; [apply (good_fetch a cid s (fun r s' => match r with Ok i => activeChanCloses s' !! cid = Some i | Err _ => True end)); auto|].
  intros [i|e] s1 (Hi1 & He1 & Hp1 & Hq1); (split; [done|]; split; [done|]; split; [done|]); cbn.
  2: { destruct e; try done; by apply good_emit. }
  destruct (proj1 (proj2 Hi1) cid i Hq1) as ([h c] & Hc & Hcid).
  destruct (proj2 (proj2 Hi1) i _ Hc) as (Hinv & _ & ch & Hh & _). cbn in Hinv, Hh, Hcid.
  destruct (ProcessCloseMsg m (set_channel ch c)) as [r c'] eqn:Ep.
  assert (cc_inv c') as Hinv' by (eapply cc_inv_ProcessCloseMsg; [by apply cc_inv_channel|done]).
  apply good_bind. eapply good_on_closer; [done|done|done|exact Ep|done|by eapply process_same|].
  intros s2 Hi2 El2 Eh2 Ea2 Ec2.
  assert (ch_closers s2 !! i = Some (h, c')) as Hc2 by (rewrite El2; apply list_lookup_insert_eq; by eapply lookup_lt_Some).
  destruct r as [[msgs fin]|e].
  - apply good_bind. assert (good (st_iter (fun m => emit (CQueue m)) msgs) s2 (fun r s3 => r = Ok tt /\ ch_closers s3 = ch_closers s2)) as Hit.
    { clear -Hi2. revert s2 Hi2. induction msgs as [|x msgs IH]; intros s2 Hi2; [by apply good_ret|]. cbn [st_iter].
      apply good_bind, good_emit; [done|]. eapply good_mono; [by apply IH|]. done. }
    eapply good_mono; [exact Hit|]. intros r s3 Hi3 He3 [-> El3]. destruct fin; [|by apply good_ret].
    eapply (good_finalize a i h c'); [done|by rewrite El3|by eapply process_done|done].
  - assert (panics (Err e : res ()) = false) as Hne.
    { destruct e; try done. exfalso. by apply (process_no_panic _ _ _ _ Ep). }
    destruct (proj2 (proj2 Hi2) i _ Hc2) as (_ & _ & ch2 & Hh2 & _).
    assert (good (q ← closer i; _ ← upd_channel q.1 ResetState; _ ← report (CloseRequest q.2) (fun r => CReqErr r e);
                  st_upd (fun s => set_closes (delete cid (activeChanCloses s)) s)) s2 (fun _ _ => True)) as Hgo.
    { apply good_bind. eapply good_closer; [done|done|]. apply good_bind. eapply good_upd_channel; [done|exact Hh2|apply stable_reset|].
      intros s3 Hi3 _ _ _ _. apply good_bind, good_report; [done|]. intros s4 _ _ _ _ Hi4. apply good_upd; try done. by apply inv_del_closes. }
    destruct e; done.
Qed.

Lemma good_local_close a req s : chans_inv s -> good (handleLocalCloseReq a req) s (fun _ _ => True).
Proof.
  intros Hi. unfold handleLocalCloseReq. apply good_bind, good_get; [done|].
  destruct (activeChannels s !! _) as [h|] eqn:Ea; [|by apply good_emit].
  destruct (cl_CloseType req).
  2: { apply good_bind, good_wipe; [done|]. intros r s1 Hi1 _ _ _ _. destruct r; [by apply good_ret|by apply good_emit]. }
  unfold closeRegular. destruct (genDeliveryScript a); [|by apply good_emit]. destruct (an_closeCtx a); [|by apply good_emit].
  destruct (an_height a); [|by apply good_emit]. destruct (proj1 Hi _ _ Ea) as (ch & Hh & Hcid).
  apply good_bind. eapply good_channel; [done|done|]. apply good_bind. eapply good_alloc_closer; [done|done|].
  intros s1 Hi1 El1 Eh1 Ea1 Ec1. set (i := length (ch_closers s)).
  assert (exists c, ch_closers s1 !! i = Some (h, c) /\ cc_cid c = NewChanIDFromOutPoint (cl_ChanPoint req) /\ cc_inv c) as (c & Hc & Hcc & Hinv).
  { eexists. split; [rewrite El1; by apply list_lookup_middle|]. split; [exact Hcid|apply cc_inv_new]. }
  assert (chans_inv (set_closes (<[NewChanIDFromOutPoint (cl_ChanPoint req) := i]> (activeChanCloses s1)) s1)) as Hi2
    by (by eapply inv_set_closes).
  apply good_bind, good_upd; try done. destruct (ShutdownChan (set_channel ch c)) as [r c'] eqn:Es.
  apply good_bind. eapply (good_on_closer i h c ch ShutdownChan r c'); try done; [cbn; by rewrite Eh1| |by eapply shutdown_same|].
  { eapply cc_inv_ShutdownChan; [by apply cc_inv_channel|done]. }
  intros s3 Hi3 El3 Eh3 _ _. destruct r as [sd|e]; [by apply good_emit|]. apply good_bind, good_emit; [done|].
  apply good_bind, good_upd; try done; [by apply inv_del_closes|].
  eapply good_upd_channel; [by apply inv_del_closes| |apply stable_reset|done].
  cbn. rewrite Eh3. apply list_lookup_insert_eq. cbn. rewrite Eh1. by eapply lookup_lt_Some.
Qed.

Lemma good_new_channel a c done0 s : chans_inv s -> good (h ← alloc_channel c; newChannel a h done0) s (fun _ _ => True).
Proof.
  intros Hi. apply good_bind, good_alloc_channel; [done|]. intros s1 Hi1 Eh1 Ea1 _. set (h := length (ch_heap s)).
  assert (ch_heap s1 !! h = Some c) as Hh by (rewrite Eh1; by apply list_lookup_middle).
  unfold newChannel. apply good_bind. eapply good_channel; [done|done|]. apply good_bind, good_get; [done|].
  destruct (activeChannels s1 !! _) as [cur|] eqn:Ea.
  - destruct (proj1 Hi1 _ _ Ea) as (ch & Hc & Hcid). apply good_bind, good_emit; [done|]. apply good_bind.
    eapply (good_upd_channel h StopChan); [done|exact Hh|apply stable_stop|]. intros s2 Hi2 Eh2 Ea2 _ _. cbn in Eh2, Ea2.
    assert (exists ch2, ch_heap s2 !! cur = Some ch2) as [ch2 Hc2].
    { rewrite <- Ea2 in Ea. destruct (proj1 Hi2 _ _ Ea) as (ch2 & ? & _). eauto. }
    apply good_bind. eapply good_channel; [done|done|]. destruct (RemoteNextRevocation ch2); [by apply good_ret|].
    apply good_bind. eapply good_channel; [done|rewrite Eh2; apply list_lookup_insert_eq; by eapply lookup_lt_Some|].
    apply good_bind. eapply good_on_channel; [done|done|apply stable_init|]. intros s3 Hi3 _ _ _ _. by apply good_ret.
  - assert (chans_inv (set_active (<[NewChanIDFromOutPoint (ChannelPoint c) := h]> (activeChannels s1)) s1)) as Hi2
      by (by eapply inv_set_active).
    apply good_bind, good_upd; try done. destruct (an_epoch a), (an_height a), (an_events a); try (by apply good_ret).
    apply good_bind, good_emit; [done|]. by apply good_emit.
Qed.

(** What changes goroutines and log only. *)
Lemma good_log_only {A} (m : PC A) s :
  chans_inv s -> panics (m s).1 = false -> ch_heap (m s).2 = ch_heap s -> activeChannels (m s).2 = activeChannels s ->
  activeChanCloses (m s).2 = activeChanCloses s -> ch_closers (m s).2 = ch_closers s -> good m s (fun _ _ => True).
Proof.
  intros Hi Hr E1 E2 E3 E4. unfold good, swp. assert (ext s (m s).2) by (intros h ch; rewrite E1; eauto).
  split_and!; try done. by eapply chans_inv_ext.
Qed.

Lemma good_wait_register j r s : chans_inv s -> good (wait_register j r) s (fun _ _ => True).
Proof.
  intros Hi. apply good_log_only; [done|..]; unfold wait_register, report; repeat case_match; done.
Qed.

Lemma good_wait_confirmed j ok s : chans_inv s -> good (wait_confirmed j ok) s (fun _ _ => True).
Proof.
  intros Hi. apply good_log_only; [done|..]; unfold wait_confirmed, report; repeat case_match; done.
Qed.

(** Every input is handled without a panic and keeps the invariant. *)
Lemma good_manager a i s : answers_ok a -> chans_inv s -> good (channelManager a i) s (fun _ _ => True).
Proof.
  intros Ha Hi. destruct i; cbn [channelManager].
  - by apply good_new_channel.
  - by apply good_local_close.
  - by apply good_close_msg.
  - by apply good_wait_register.
  - by apply good_wait_confirmed.
Qed.

(** ** Loading and resetting *)

(** A record of the database that becomes a channel. *)
Definition load_ok (p : DBChan * answers) : Prop := is_ok (NewLightningChannel p.1) = true /\ answers_ok p.2.

Lemma good_load_channel identity p s : load_ok p -> chans_inv s -> good (loadChannel identity p) s (fun _ _ => True).
Proof.
  intros [Hok (A1 & A2 & A3 & A4 & _ & A6)] Hi. destruct p as [db a]. unfold loadChannel. cbn in Hok, A1, A2, A3, A4, A6.
  destruct (NewLightningChannel db) as [ln|] eqn:En; [|done]. pose proof (stable_load db ln En) as Hp.
  apply good_bind, good_alloc_channel; [done|]. intros s1 Hi1 Eh1 _ _. set (h := length (ch_heap s)).
  assert (ch_heap s1 !! h = Some ln) as Hh by (rewrite Eh1; by apply list_lookup_middle).
  assert (chans_inv (set_active (<[NewChanIDFromOutPoint (FundingOutpoint db) := h]> (activeChannels s1)) s1)) as Hi2
    by (eapply inv_set_active; [done|done|by rewrite Hp]).
  apply good_bind, good_upd; try done. apply good_bind, good_get; [done|]. set (s2 := set_active _ s1) in *.
  assert (forall s3, chans_inv s3 -> ch_heap s3 = ch_heap s2 -> good (upd_channel h StopChan) s3 (fun _ _ => True)) as Hstop.
  { intros s3 Hi3 E3. eapply good_upd_channel; [done|rewrite E3; exact Hh|apply stable_stop|done]. }
  assert (forall e s3, panics (Err e : res ()) = false -> chans_inv s3 -> ch_heap s3 = ch_heap s2 ->
            good (_ ← upd_channel h StopChan; (st_fail e : PC ())) s3 (fun _ _ => True)) as Hfail.
  { intros e s3 He Hi3 E3. apply good_bind. eapply good_mono; [by apply Hstop|]. intros [] s4 Hi4 _ _; [by apply good_fail|done]. }
  destruct (IsBorked db); [by apply Hstop|]. case_decide; [by apply Hstop|].
  destruct (an_epoch a) as [|e1]; [|by apply Hfail]. destruct (an_height a) as [|e2]; [|by apply Hfail].
  assert (good (_ ← emit (CAddLink (NewChanIDFromOutPoint (FundingOutpoint db)) (forwardingPolicy (selfPolicy identity (an_edges a))));
    match an_addLink a with Ok _ => mret tt | Err err => _ ← upd_channel h StopChan; st_fail err end : PC ()) s2 (fun _ _ => True)) as Hlink.
  { apply good_bind, good_emit; [done|]. destruct (an_addLink a); [by apply good_ret|by apply Hfail]. }
  destruct (an_edges a) as [|[]], (an_events a) as [|e4]; try done; by apply Hfail.
Qed.

Lemma good_load identity l s : Forall load_ok l -> chans_inv s -> good (loadActiveChannels identity l) s (fun _ _ => True).
Proof.
  intros Hl. revert s. induction Hl as [|p l Hp Hl IH]; intros s Hi; [by apply good_ret|]. cbn [loadActiveChannels st_iter].
  apply good_bind. eapply good_mono; [by apply good_load_channel|]. intros [] s1 Hi1 _ _; [by apply IH|done].
Qed.

Lemma good_reset s : chans_inv s -> good resetChannels s (fun _ _ => True).
Proof.
  intros Hi. unfold resetChannels. apply good_bind, good_get; [done|].
  assert (forall l s0, chans_inv s0 -> (forall p, p ∈ l -> is_Some (ch_heap s0 !! p.2)) ->
    good (st_iter (fun p : bytes * nat => upd_channel p.2 ResetState) l) s0 (fun _ _ => True)) as Hl.
  { intros l. induction l as [|p l IH]; intros s0 Hi0 Hp; [by apply good_ret|]. cbn [st_iter]. apply good_bind.
    destruct (Hp p) as [ch Hh]; [by left|]. eapply good_upd_channel; [done|done|apply stable_reset|].
    intros s1 Hi1 Eh1 _ _ _. apply IH; [done|]. intros q Hq. rewrite Eh1. apply lookup_lt_is_Some. rewrite length_insert. apply lookup_lt_is_Some, Hp. by right. }
  apply Hl; [done|]. intros [cid h] Hin. apply elem_of_map_to_list in Hin. destruct (proj1 Hi cid h Hin) as (ch & ? & _). by exists ch.
Qed.

(** ** Reachable states *)

Inductive chans_reach (identity : bytes) : chans -> Prop :=
  | reach_load l r s : Forall load_ok l -> loadActiveChannels identity l newChans = (r, s) -> chans_reach identity s
  | reach_input s a i r s' :
      chans_reach identity s -> answers_ok a -> channelManager a i s = (r, s') -> chans_reach identity s'.

Lemma chans_reach_inv identity s : chans_reach identity s -> chans_inv s.
Proof.
  induction 1 as [l r s Hl E|s a i r s' _ IH Ha E].
  - destruct (good_load identity l newChans Hl chans_inv_new) as [Hi _]. by rewrite E in Hi.
  - destruct (good_manager a i s Ha IH) as [Hi _]. by rewrite E in Hi.
Qed.

(** C12: whatever messages, requests and confirmations arrive and however the other parts
    answer, the channels of a peer stay well formed: every active channel exists and is
    filed under the identifier of its outpoint, and so is every closing negotiation, which
    works on the channel with that identifier and satisfies the closer's invariant; the
    next input does not make the channel manager panic, nor does its shutdown. *)
Theorem manager_safe identity s :
  chans_reach identity s ->
  (forall cid h, activeChannels s !! cid = Some h -> exists ch, ch_heap s !! h = Some ch /\ NewChanIDFromOutPoint (ChannelPoint ch) = cid)
  /\ (forall cid i, activeChanCloses s !! cid = Some i ->
       exists h c ch, ch_closers s !! i = Some (h, c) /\ cc_cid c = cid /\ cc_inv c
         /\ ch_heap s !! h = Some ch /\ NewChanIDFromOutPoint (ChannelPoint ch) = cid)
  /\ (forall a i what, answers_ok a -> (channelManager a i s).1 <> Err (ErrPanic what))
  /\ (forall what, (resetChannels s).1 <> Err (ErrPanic what)).
Proof.
  intros Hr. pose proof (chans_reach_inv identity s Hr) as Hi. split_and!.
  - apply Hi.
  - intros cid i Hc. destruct Hi as (_ & H2 & H3). destruct (H2 cid i Hc) as ([h c] & Hp & <-).
    destruct (H3 i _ Hp) as (Hinv & Hid & ch & Hh & Hpt). exists h, c, ch. split_and!; try done. cbn in *. by rewrite Hpt, Hid.
  - intros a i what Ha E. destruct (good_manager a i s Ha Hi) as (_ & _ & Hp & _). by rewrite E in Hp.
  - intros what E. destruct (good_reset s Hi) as (_ & _ & Hp & _). by rewrite E in Hp.
Qed.

(** A channel that cannot be loaded is stopped through a nil pointer. *)
Lemma load_failure_panics identity db a e :
  NewLightningChannel db = Err e -> (loadActiveChannels identity [(db, a)] newChans).1 = Err nil_deref.
Proof. intros E. cbn. unfold loadChannel, mbind, st_bind. by rewrite E. Qed.

(** A new channel that cannot be registered is active, without a link, and the funding
    manager is never told. *)
Lemma done_not_closed a c done0 e s :
  activeChannels s !! NewChanIDFromOutPoint (ChannelPoint c) = None -> an_epoch a = Err e ->
  exists s', channelManager a (INewChannel c done0) s = (Ok tt, s') /\ ch_log s' = ch_log s
    /\ activeChannels s' !! NewChanIDFromOutPoint (ChannelPoint c) = Some (length (ch_heap s)).
Proof.
  intros Hn He. cbn. unfold mbind, st_bind, newChannel, alloc_channel, channel, mbind, st_bind, st_get, st_upd. cbn.
  rewrite list_lookup_middle by done. cbn. rewrite Hn, He. eexists. split; [done|]. split; [done|]. cbn. apply lookup_insert_eq.
Qed.
End Inv.
