(* ===== verification/PeerClose.v ===== *)
(** * Two peers close a channel together

    The channel managers of both ends, exchanging the messages of a cooperative close: the
    negotiation of the two closers, lifted to the peers. *)

From Stdlib Require Import ZArith Lia.
From Stdlib Require Import Init.Byte.
From stdpp Require Import base gmap strings numbers list.
From S2P Require Import Prelude Tx Effects ChanCloser ChanCloserProps PeerChans PeerChansInv.
Local Open Scope Z_scope.

Section Close.
Context {CH : ChannelIface} {PCH : PeerChannel CH} {ST0 : ChanStable PCH}.

(** ** A peer with a closer *)

(** The channel [cid] is active and its closer is [c]. *)
Definition running (cid : bytes) (c : channelCloser) (s : chans) : Prop :=
  exists h i, activeChannels s !! cid = Some h /\ activeChanCloses s !! cid = Some i /\ ch_closers s !! i = Some (h, c)
    /\ ch_heap s !! h = Some (cc_channel c) /\ NewChanIDFromOutPoint (ChannelPoint (cc_channel c)) = cid /\ cc_inv c.

(** The messages among the events. *)
Definition queued (l : list chan_event) : list Message := omap (fun e => match e with CQueue m => Some m | _ => None end) l.

(** The events [l] were added to the log. *)
Definition logged (l : list chan_event) (s s' : chans) : Prop := ch_log s' = ch_log s ++ l.

(** The channel is closed with the transaction [tx]: it is not active any more, its closer
    has broadcast the transaction, which is being watched, and the request to close it, if
    there was one, was told of the transaction. *)
Definition closed (cid : bytes) (req : option Z) (tx : MsgTx) (s : chans) : Prop :=
  activeChannels s !! cid = None
  /\ (exists i h c, ch_closers s !! i = Some (h, c) /\ EvBroadcast tx ∈ cc_events c /\ cc_closeReq c = req) /\ broadcastTx tx = None
  /\ exists w, w ∈ ch_waits s /\ NewChanIDFromOutPoint (w_chanPoint w) = cid /\ w_req w = req /\ w_txid w = TxHash tx
     /\ forall r, req = Some r -> CClosePending r (TxHash tx) ∈ ch_log s.

Lemma set_channel_id c : set_channel (cc_channel c) c = c.
Proof. by destruct c. Qed.

Lemma queued_iter ms s :
  st_iter (fun m => emit (CQueue m)) ms s = (Ok tt, set_log (ch_log s ++ (CQueue <$> ms)) s).
Proof.
  revert s. induction ms as [|m ms IH]; intros s; cbn [st_iter].
  - cbn. rewrite app_nil_r. by destruct s.
  - unfold mbind, st_bind, emit, st_upd. rewrite IH. cbn. by rewrite <- app_assoc.
Qed.

Lemma queued_fmap ms : queued (CQueue <$> ms) = ms.
Proof. unfold queued. induction ms as [|m ms IH]; [done|]. cbn. by rewrite IH. Qed.

(** The closer is called on the current channel. *)
Lemma fetch_running a cid c s : running cid c s -> exists i h, fetchActiveChanCloser a cid s = (Ok i, s)
  /\ activeChannels s !! cid = Some h /\ activeChanCloses s !! cid = Some i /\ ch_closers s !! i = Some (h, c)
  /\ ch_heap s !! h = Some (cc_channel c).
Proof.
  intros (h & i & H1 & H2 & H3 & H4 & _). exists i, h. unfold fetchActiveChanCloser, mbind, st_bind, st_get.
  rewrite H1, H2. done.
Qed.

Lemma on_closer_eq {A} i h c (m : CC A) s r c' :
  ch_closers s !! i = Some (h, c) -> ch_heap s !! h = Some (cc_channel c) -> m c = (r, c') ->
  on_closer i m s = (Ok r, set_heap (<[h := cc_channel c']> (ch_heap s)) (set_closers (<[i := (h, c')]> (ch_closers s)) s)).
Proof. intros H1 H2 H3. unfold on_closer. rewrite H1, H2, set_channel_id, H3. done. Qed.

(** The negotiation goes on. *)
Lemma close_continues a cid m c out c' s :
  running cid c s -> ProcessCloseMsg m c = (Ok (out, false), c') ->
  exists s', closeMsg a cid m s = (Ok tt, s') /\ running cid c' s' /\ logged (CQueue <$> out) s s'.
Proof.
  intros Hr Ep. destruct (fetch_running a cid c s Hr) as (i & h & Ef & Ha & Hc & Hl & Hh). destruct Hr as (_ & _ & _ & _ & _ & _ & Hid & Hinv).
  unfold closeMsg, mbind, st_bind, st_try. rewrite Ef, (on_closer_eq i h c _ s _ _ Hl Hh Ep), queued_iter. eexists. split; [done|].
  split; [|done]. exists h, i. cbn. split_and!; try done.
  - apply list_lookup_insert_eq. by eapply lookup_lt_Some.
  - apply list_lookup_insert_eq. by eapply lookup_lt_Some.
  - destruct (process_same _ _ _ _ Ep) as (_ & _ & _ & _ & ->). done.
  - by eapply cc_inv_ProcessCloseMsg.
Qed.

(** ** The end of the negotiation *)

Lemma upd_channel_eq h f ch s : ch_heap s !! h = Some ch -> upd_channel h f s = (Ok tt, set_heap (<[h := f ch]> (ch_heap s)) s).
Proof. intros Hh. unfold upd_channel, on_channel. by rewrite Hh. Qed.

Lemma wipe_eq a op h ch s :
  activeChannels s !! NewChanIDFromOutPoint op = Some h -> ch_heap s !! h = Some ch ->
  WipeChannel a op s = (Ok (match an_removeLink a with Err ErrChannelLinkNotFound => Ok tt | r => r end),
    set_log (ch_log s ++ [CRemoveLink (NewChanIDFromOutPoint op)])
      (set_active (delete (NewChanIDFromOutPoint op) (activeChannels s)) (set_heap (<[h := StopChan ch]> (ch_heap s)) s))).
Proof.
  intros Ha Hh. unfold WipeChannel, mbind, st_bind, st_get. rewrite Ha, (upd_channel_eq h StopChan ch s Hh). done.
Qed.

Lemma report_eq req e s :
  report req e s = (Ok tt, set_log (ch_log s ++ match req with Some r => [e r] | None => [] end) s).
Proof. destruct req; [done|]. cbn. rewrite app_nil_r. by destruct s. Qed.

(** The events of a finished close. *)
Definition close_events (a : answers) (cid : bytes) (req : option Z) (txid : bytes) : list chan_event :=
  [CRemoveLink cid]
  ++ match an_removeLink a with
     | Ok _ | Err ErrChannelLinkNotFound => []
     | Err e => match req with Some r => [CReqErr r e] | None => [] end
     end
  ++ match req with Some r => [CClosePending r txid] | None => [] end.

Lemma finalize_eq a cid i h c tx s :
  ch_closers s !! i = Some (h, c) -> ch_heap s !! h = Some (cc_channel c) -> activeChannels s !! cid = Some h ->
  NewChanIDFromOutPoint (ChannelPoint (cc_channel c)) = cid -> cc_state c = closeFinished -> cc_closingTx c = Some tx ->
  exists s', finalizeChanClosure a i s = (Ok tt, s') /\ activeChannels s' = delete cid (activeChannels s)
    /\ (exists ch, ch_closers s' !! i = Some (h, set_channel ch c))
    /\ ch_waits s' = ch_waits s ++ [mkWait (cc_closeReq c) (ChannelPoint (cc_channel c)) (TxHash tx) (cc_negotiationHeight c) false]
    /\ ch_log s' = ch_log s ++ close_events a cid (cc_closeReq c) (TxHash tx).
Proof.
  intros Hc Hh Ha <- Hs Ht. unfold finalizeChanClosure, closer, mbind at 1, st_bind at 1. rewrite Hc.
  unfold channel, mbind at 1, st_bind at 1. rewrite Hh. unfold mbind at 1, st_bind at 1.
  rewrite (wipe_eq a _ h (cc_channel c) s Ha Hh). set (s1 := set_log _ _).
  set (cid := NewChanIDFromOutPoint _) in *.
  assert (exists s2, (match match an_removeLink a with Err ErrChannelLinkNotFound => Ok tt | r => r end with
                      | Ok _ => mret tt | Err err => report (CloseRequest c) (fun r => CReqErr r err) end : PC ()) s1 = (Ok tt, s2)
            /\ ch_closers s2 = ch_closers s1 /\ ch_heap s2 = ch_heap s1 /\ activeChannels s2 = activeChannels s1 /\ ch_waits s2 = ch_waits s1
            /\ ch_log s2 ++ match cc_closeReq c with Some r => [CClosePending r (TxHash tx)] | None => [] end
               = ch_log s ++ close_events a cid (cc_closeReq c) (TxHash tx)) as (s2 & E2 & El2 & Eh2 & Ea2 & Ew2 & Eg2).
  { unfold close_events. destruct (an_removeLink a) as [|[]]; try (by eexists; split; [done|]; cbn; rewrite <- !app_assoc).
    all: rewrite report_eq; eexists; (split; [done|]); cbn; rewrite <- !app_assoc; done. }
  unfold mbind at 1, st_bind at 1. rewrite E2. unfold mbind at 1, st_bind at 1.
  assert (ch_heap s2 !! h = Some (StopChan (cc_channel c))) as Hh2
    by (rewrite Eh2; apply list_lookup_insert_eq; by eapply lookup_lt_Some).
  rewrite (upd_channel_eq h StopChan _ s2 Hh2). set (s3 := set_heap _ s2). unfold mbind at 1, st_bind at 1, on_closer.
  replace (ch_closers s3 !! i) with (Some (h, c)) by (cbn; by rewrite El2).
  replace (ch_heap s3 !! h) with (Some (StopChan (StopChan (cc_channel c))))
    by (symmetry; apply list_lookup_insert_eq; by eapply lookup_lt_Some).
  unfold ClosingTx, mbind at 1, cc_bind at 1, cc_get at 1. cbn [set_channel cc_state cc_closingTx]. rewrite decide_True by done. rewrite Ht.
  unfold mbind at 1, st_bind at 1. cbn [mret cc_ret st_ret]. unfold mbind at 1, st_bind at 1. rewrite report_eq.
  eexists. split; [done|]. cbn. rewrite Ea2, Ew2, El2. split; [done|]. split; [|done]. eexists.
  rewrite list_lookup_insert_eq by (cbn; by eapply lookup_lt_Some). done.
Qed.

Lemma close_finishes a cid m c out c' s :
  running cid c s -> ProcessCloseMsg m c = (Ok (out, true), c') ->
  exists s' tx, closeMsg a cid m s = (Ok tt, s') /\ closed cid (cc_closeReq c) tx s' /\ cc_closingTx c' = Some tx
    /\ logged ((CQueue <$> out) ++ close_events a cid (cc_closeReq c) (TxHash tx)) s s'.
Proof.
  intros Hr Ep. destruct (fetch_running a cid c s Hr) as (i & h & Ef & Ha & Hc & Hl & Hh). destruct Hr as (_ & _ & _ & _ & _ & _ & Hid & Hinv).
  pose proof (process_done _ _ _ _ Ep) as Hs. pose proof (cc_inv_ProcessCloseMsg _ _ _ _ Hinv Ep) as Hinv'.
  destruct (proj1 (ci_final _ Hinv') Hs) as [sm Hin]. destruct (ci_tx _ Hinv' sm Hin) as (tx & Htx & Hev & Hbc & _).
  destruct (process_same _ _ _ _ Ep) as (_ & _ & Hreq & _ & Hpt).
  unfold closeMsg, mbind, st_bind, st_try. rewrite Ef, (on_closer_eq i h c _ s _ _ Hl Hh Ep), queued_iter. set (s1 := set_log _ _).
  destruct (finalize_eq a cid i h c' tx s1) as (s' & E & Ea & [ch El] & Ew & Eg); try done.
  - cbn. apply list_lookup_insert_eq. by eapply lookup_lt_Some.
  - cbn. apply list_lookup_insert_eq. by eapply lookup_lt_Some.
  - by rewrite Hpt.
  - exists s', tx. split; [exact E|]. split; [|split; [done|]].
    + split; [rewrite Ea; apply lookup_delete_eq|]. split; [by exists i, h, (set_channel ch c')|]. split; [done|]. eexists. rewrite Ew, elem_of_app, list_elem_of_singleton. split; [by right|]. cbn.
      rewrite Hpt. do 3 (split; [done|]). intros r Hreq'. rewrite Eg. unfold close_events. rewrite Hreq, Hreq', !elem_of_app.
      right. right. right. by left.
    + unfold logged. rewrite Eg. cbn. rewrite <- app_assoc, Hreq. done.
Qed.

Lemma queued_app l l' : queued (l ++ l') = queued l ++ queued l'.
Proof. apply omap_app. Qed.

Lemma queued_events a cid req txid : queued (close_events a cid req txid) = [].
Proof. unfold close_events. destruct (an_removeLink a) as [|[]], req; done. Qed.

(** A message for a channel that is not active is answered with an error and changes
    nothing. *)
Lemma close_unknown a cid m s :
  activeChannels s !! cid = None ->
  closeMsg a cid m s = (Ok tt, set_log (ch_log s ++ [CQueueError cid (ErrNew "unable to close channel, ChannelID is unknown")]) s).
Proof.
  intros Hn. unfold closeMsg, fetchActiveChanCloser, mbind, st_bind, st_try, st_get. rewrite Hn. done.
Qed.

(** ** Both ends *)

(** The channel manager gets the messages in order; what it queues for the other end. *)
Fixpoint peer_deliver (a : answers) (cid : bytes) (ms : list Message) (s : chans) : list Message * chans :=
  match ms with
  | [] => ([], s)
  | m :: ms =>
      let s1 := (closeMsg a cid m s).2 in
      let '(out, s2) := peer_deliver a cid ms s1 in
      (queued (drop (length (ch_log s)) (ch_log s1)) ++ out, s2)
  end.

(** [n] rounds: [x] receives the messages in flight, [y] then its answers.  A peer comes
    with the answers of its node to the calls of the channel manager. *)
Fixpoint peer_exchange (n : nat) (cid : bytes) (ms : list Message) (x y : answers * chans) :
    (answers * chans) * (answers * chans) :=
  match n with
  | O => (x, y)
  | S n => let '(out, s) := peer_deliver x.1 cid ms x.2 in peer_exchange n cid out y (x.1, s)
  end.

(** Both ends have closed the channel with the same transaction, whichever comes first. *)
Definition both_closed (cid : bytes) (req1 req2 : option Z) (p : (answers * chans) * (answers * chans)) : Prop :=
  exists tx, (closed cid req1 tx p.1.2 /\ closed cid req2 tx p.2.2) \/ (closed cid req2 tx p.1.2 /\ closed cid req1 tx p.2.2).

Lemma both_closed_sym cid req1 req2 p : both_closed cid req1 req2 p -> both_closed cid req2 req1 p.
Proof. intros [tx H]. exists tx. tauto. Qed.

Lemma deliver_logged a cid m s s' l :
  closeMsg a cid m s = (Ok tt, s') -> logged l s s' -> peer_deliver a cid [m] s = (queued l, s').
Proof. intros E Hl. cbn. rewrite E. cbn. rewrite Hl, drop_app_length, app_nil_r. done. Qed.

Lemma deliver_continues a cid m c out c' s :
  running cid c s -> ProcessCloseMsg m c = (Ok (out, false), c') ->
  exists s', peer_deliver a cid [m] s = (out, s') /\ running cid c' s'.
Proof.
  intros Hr Ep. destruct (close_continues a cid m c out c' s Hr Ep) as (s' & E & Hr' & Hl). exists s'. split; [|done].
  rewrite (deliver_logged _ _ _ _ _ _ E Hl). by rewrite queued_fmap.
Qed.

Lemma deliver_finishes a cid m c out c' s :
  running cid c s -> ProcessCloseMsg m c = (Ok (out, true), c') ->
  exists s' tx, peer_deliver a cid [m] s = (out, s') /\ closed cid (cc_closeReq c) tx s' /\ cc_closingTx c' = Some tx.
Proof.
  intros Hr Ep. destruct (close_finishes a cid m c out c' s Hr Ep) as (s' & tx & E & Hc & Ht & Hl). exists s', tx. split; [|done].
  rewrite (deliver_logged _ _ _ _ _ _ E Hl). by rewrite queued_app, queued_fmap, queued_events, app_nil_r.
Qed.

Lemma exchange_step n cid ms x y out s' :
  peer_deliver x.1 cid ms x.2 = (out, s') -> peer_exchange (S n) cid ms x y = peer_exchange n cid out y (x.1, s').
Proof. intros E. cbn [peer_exchange]. by rewrite E. Qed.

(** The two ends of one channel in the same state, as the wallets keep it: signing a proposal
    does not move an end, and both ends complete the same closing transaction from each
    other's signatures and scripts. *)
Class TwoEnds (Ends : Chan -> Chan -> Prop) := {
  te_sym a b : Ends a b -> Ends b a;
  te_propose fee l r a b : Ends a b -> Ends (CreateCloseProposal fee l r a).2 b;
  te_complete s1 s2 l r fee a b tx1 bal1 a' tx2 bal2 b' :
    Ends a b -> CompleteCooperativeClose s1 s2 l r fee a = (Ok (tx1, bal1), a') ->
    CompleteCooperativeClose s2 s1 r l fee b = (Ok (tx2, bal2), b') -> tx1 = tx2
}.

Section Live.
Context {CL : ChannelLive} {Ends : Chan -> Chan -> Prop} {TE : TwoEnds Ends}.

(** The two closers are ends of one channel and know each other's scripts. *)
Definition facing (r s : channelCloser) : Prop :=
  Ends (cc_channel r) (cc_channel s) /\ cc_localDeliveryScript r = cc_remoteDeliveryScript s
  /\ cc_remoteDeliveryScript r = cc_localDeliveryScript s.

(** The message is the offer the closer has recorded for its fee. *)
Definition own_offer (cs : ClosingSigned) (s : channelCloser) : Prop := cc_priorFeeOffers s !! cs_FeeSatoshis cs = Some cs.

Lemma facing_sym r s : facing r s -> facing s r.
Proof. intros (H1 & H2 & H3). split; [by apply te_sym|done]. Qed.

Lemma facing_propose fee r s m r' : facing r s -> proposeCloseSigned fee r = (Ok m, r') -> facing r' s /\ own_offer m r'.
Proof.
  intros (H1 & H2 & H3) E. destruct (proposeCloseSigned_ok _ _ _ _ E) as (Hf & _ & _ & _ & Ep & _ & _ & _ & _ & El & Er & _).
  split; [|unfold own_offer; rewrite Ep, Hf; apply lookup_insert_eq]. unfold facing. rewrite El, Er. split; [|done].
  revert E. unfold proposeCloseSigned, mbind, cc_bind, cc_get, channel_call.
  pose proof (te_propose fee (cc_localDeliveryScript r) (cc_remoteDeliveryScript r) _ _ H1) as Hp.
  destruct (CreateCloseProposal _ _ _ _) as [[[[raw txid] amt]|e] ch]; [|done].
  unfold cc_res, cc_upd. destruct (NewSigFromRawSignature raw) as [sig|e]; [|done]. by intros [= <- <-].
Qed.

(** Both ends complete the same transaction: the receiver of an offer, and its sender when
    the offer is echoed. *)
Lemma same_transaction r s cs own r' m s' tx tx' :
  facing r s -> own_offer cs s -> cc_state r = closeFeeNegotiation -> cc_state s = closeFeeNegotiation -> cc_inv r ->
  ProcessCloseMsg (MClosingSigned cs) r = (Ok ([MClosingSigned own], true), r') ->
  ProcessCloseMsg (MClosingSigned own) s = (Ok ([MClosingSigned m], true), s') ->
  cc_closingTx r' = Some tx -> cc_closingTx s' = Some tx' -> tx = tx'.
Proof.
  intros Hfa Ho Hr Hs Hinv E1 E2 T1 T2.
  destruct (negotiation_done_spec _ _ _ _ Hr E1) as (cs1 & c1 & [= <-] & F1 & _ & L1 & R1 & K1).
  destruct (negotiation_done_spec _ _ _ _ Hs E2) as (cs2 & c2 & [= <-] & F2 & _ & L2 & R2 & K2).
  assert (facing c1 s /\ cc_inv c1) as [Hfa1 Hi1].
  { destruct K1 as [[-> _]|(_ & fee & o & Ep)]; [done|]. split; [by eapply facing_propose|by eapply cc_inv_propose]. }
  destruct (finishClose_ok _ _ _ _ _ F1) as (own' & tx1 & bal1 & ch1 & s1 & _ & [= <-] & O1 & C1 & _ & _ & T1' & _).
  pose proof (ci_offers _ Hi1 _ _ O1) as [Hfee _].
  assert (c2 = s) as -> by (destruct K2 as [[-> _]|[Hn _]]; [done|]; unfold own_offer in Ho; rewrite Hfee in Hn; congruence).
  destruct (finishClose_ok _ _ _ _ _ F2) as (own2 & tx2 & bal2 & ch2 & s2 & _ & [= <-] & O2 & C2 & _ & _ & T2' & _).
  rewrite Hfee in O2, C2. unfold own_offer in Ho. rewrite Ho in O2. injection O2 as <-. destruct Hfa1 as (He & HL & HR).
  rewrite HL, HR in C1. rewrite T1 in T1'. rewrite T2 in T2'. injection T1' as ->. injection T2' as ->.
  eapply te_complete; [exact He|exact C1|exact C2].
Qed.

(** The receiver has accepted, and the sender gets its own offer back. *)
Lemma peers_accept b cid x y r s cs out r' own :
  running cid r x.2 -> running cid s y.2 -> cc_state r = closeFeeNegotiation -> offered b s -> facing r s -> own_offer cs s ->
  ProcessCloseMsg (MClosingSigned cs) r = (Ok ([MClosingSigned own], true), r') -> cs_FeeSatoshis own = b -> out = MClosingSigned cs ->
  both_closed cid (cc_closeReq r) (cc_closeReq s) (peer_exchange 2 cid [out] x y).
Proof.
  intros Hx Hy Hr Hs Hfa Ho E Hf ->. destruct (deliver_finishes x.1 cid _ r _ _ x.2 Hx E) as (sx & tx & Ex & Hcx & Tx).
  destruct (accept_own s b own Hs Hf) as (m & s' & Es & _).
  destruct (deliver_finishes y.1 cid _ s _ _ y.2 Hy Es) as (sy & ty & Ey & Hcy & Ty).
  assert (tx = ty) as <-.
  { eapply (same_transaction r s); try done; [by destruct Hs|]. by destruct Hx as (? & ? & ? & ? & ? & ? & ? & ?). }
  rewrite (exchange_step 1 cid _ x y _ _ Ex), (exchange_step 0 cid _ y _ _ _ Ey). exists tx. by left.
Qed.

Lemma peers_converge a b gap cid x y r s cs :
  running cid r x.2 -> running cid s y.2 -> offered a r -> offered b s -> facing r s -> own_offer cs s -> cs_FeeSatoshis cs = b ->
  10 <= a <= MaxSatoshi -> 10 <= b <= MaxSatoshi -> Z.abs (a - b) <= Z.of_nat gap ->
  exists n, (n <= gap + 2)%nat /\ both_closed cid (cc_closeReq r) (cc_closeReq s) (peer_exchange n cid [MClosingSigned cs] x y).
Proof.
  revert a b x y r s cs. induction gap as [gap IH] using lt_wf_ind.
  intros a b x y r s cs Hx Hy Hr Hs Hfa Hown Hb Ha Hbb Hgap. pose proof Hr as (Hrs & Hrl & _).
  assert (cc_inv r) as Hir by (by destruct Hx as (? & ? & ? & ? & ? & ? & ? & ?)).
  destruct (answer r cs Hir Hrs) as (own & fin & r' & E & Hcase).
  destruct Hcase as [(-> & Hf & _)|(-> & Hf & Hne & Ho)].
  - exists 2%nat. split; [lia|]. eapply peers_accept; try done. congruence.
  - rewrite Hrl, Hb in Hf. pose proof (compromise_spec (cc_idealFeeSat r) a b) as [Hbt Hlt]; [lia..|].
    cbv zeta in Hbt, Hlt. rewrite <- Hf in Hbt, Hlt.
    assert (Z.abs (b - cs_FeeSatoshis own) < Z.abs (b - a)) as Hdec by (apply Hlt; congruence || lia).
    destruct gap as [|gap]; [lia|].
    destruct (deliver_continues x.1 cid _ r _ _ x.2 Hx E) as (sx & Ex & Hx').
    destruct (counter_spec _ _ _ _ Hrs E) as (fee & o & [= <-] & Ep). destruct (facing_propose _ _ _ _ _ Hfa Ep) as [Hfa' Ho'].
    destruct (IH gap (ltac:(lia)) b (cs_FeeSatoshis own) y (x.1, sx) s r' own) as (n & Hn & Hfin); [done..|by apply facing_sym|done|done|lia|lia|lia|].
    exists (S n). split; [lia|]. rewrite (exchange_step n cid _ x y _ _ Ex).
    destruct (process_same _ _ _ _ E) as (_ & _ & <- & _). by apply both_closed_sym.
Qed.

Lemma peers_first_answer a b cid x y f g cs :
  running cid g x.2 -> running cid f y.2 -> offered a f -> no_offer b g -> facing g f -> own_offer cs f -> cs_FeeSatoshis cs = a ->
  10 <= a <= MaxSatoshi -> 10 <= b <= MaxSatoshi ->
  exists n, (n <= gap_of a b + 3)%nat /\ both_closed cid (cc_closeReq g) (cc_closeReq f) (peer_exchange n cid [MClosingSigned cs] x y).
Proof.
  intros Hx Hy Hf (Hs & Hl & Hid & Hp) Hfa Hown Hc Ha Hb.
  assert (cc_inv g) as Hig by (by destruct Hx as (? & ? & ? & ? & ? & ? & ? & ?)).
  destruct (answer g cs Hig Hs) as (own & fin & g' & E & Hcase).
  destruct Hcase as [(-> & Hfee & _)|(-> & Hfee & Hne & Ho)].
  - exists 2%nat. split; [lia|]. eapply peers_accept; try done. congruence.
  - assert (cs_FeeSatoshis own = b) as Hb'. { rewrite Hfee, Hl, Hid. unfold calcCompromiseFee. by rewrite orb_true_r. }
    rewrite Hb' in Ho. destruct (deliver_continues x.1 cid _ g _ _ x.2 Hx E) as (sx & Ex & Hx').
    destruct (counter_spec _ _ _ _ Hs E) as (fee & o & [= <-] & Ep). destruct (facing_propose _ _ _ _ _ Hfa Ep) as [Hfa' Ho'].
    destruct (peers_converge a b (gap_of a b) cid y (x.1, sx) f g' own) as (n & Hn & Hfin); try done; [by apply facing_sym|unfold gap_of; lia|].
    exists (S n). split; [lia|]. rewrite (exchange_step n cid _ x y _ _ Ex).
    destruct (process_same _ _ _ _ E) as (_ & _ & <- & _). by apply both_closed_sym.
Qed.

(** ** The start *)

(** The channel is active; and with no negotiation. *)
Definition present (cid : bytes) (ch : Chan) (s : chans) : Prop :=
  exists h, activeChannels s !! cid = Some h /\ ch_heap s !! h = Some ch /\ NewChanIDFromOutPoint (ChannelPoint ch) = cid.
Definition idle (cid : bytes) (ch : Chan) (s : chans) : Prop := present cid ch s /\ activeChanCloses s !! cid = None.

(** The node can close a channel. *)
Definition willing (a : answers) (script : bytes) (height : Z) : Prop :=
  genDeliveryScript a = Ok script /\ an_height a = Ok height /\ an_closeCtx a = Ok tt.

Lemma running_new cid ch h i c s :
  activeChannels s !! cid = Some h -> ch_heap s !! h = Some ch -> NewChanIDFromOutPoint (ChannelPoint ch) = cid ->
  activeChanCloses s !! cid = Some i -> ch_closers s !! i = Some (h, c) -> cc_channel c = ch -> cc_inv c -> running cid c s.
Proof. intros H1 H2 H3 H4 H5 <- H6. exists h, i. done. Qed.

(** We ask for the close. *)
Lemma local_close a req ch script height s :
  let cid := NewChanIDFromOutPoint (cl_ChanPoint req) in
  present cid ch s -> cl_CloseType req = CloseRegular -> willing a script height ->
  let c := newChannelCloser ch script (cl_TargetFeePerKw req) (u32 height) (Some (cl_id req)) in
  let sd := mkShutdown (cc_cid c) script in
  exists s', handleLocalCloseReq a req s = (Ok tt, s') /\ logged [CQueue (MShutdown sd)] s s'
    /\ running cid (set_state closeShutdownInitiated (add_event (EvUnregister (cc_cid c)) c)) s'.
Proof.
  intros cid (h & Ha & Hh & Hid) Ht (E1 & E2 & E3) c sd.
  unfold handleLocalCloseReq, mbind at 1, st_bind at 1, st_get. fold cid. rewrite Ha, Ht. unfold closeRegular. rewrite E1, E3, E2.
  unfold channel, mbind at 1, st_bind at 1. rewrite Hh. unfold mbind at 1, st_bind at 1, alloc_closer. fold c.
  set (s1 := set_closers _ s). unfold mbind at 1, st_bind at 1, st_upd. set (s2 := set_closes _ s1). unfold mbind at 1, st_bind at 1.
  rewrite (on_closer_eq (length (ch_closers s)) h c ShutdownChan s2 (Ok sd) (set_state closeShutdownInitiated (add_event (EvUnregister (cc_cid c)) c)));
    [|cbn; by apply list_lookup_middle|done|done].
  eexists. split; [done|]. split; [done|]. eapply (running_new cid ch h (length (ch_closers s))); cbn; try done.
  - apply list_lookup_insert_eq. by eapply lookup_lt_Some.
  - apply lookup_insert_eq.
  - rewrite list_lookup_insert_eq; [done|]. rewrite length_app. cbn. lia.
  - eapply (cc_inv_ShutdownChan c (Ok sd)); [apply cc_inv_new|done].
Qed.

(** The other end asks: the first message makes a closer. *)
Lemma remote_open a cid ch script height fee s :
  idle cid ch s -> ActiveHtlcs ch = 0%nat -> willing a script height -> an_fee a = Ok fee ->
  exists s0, running cid (newChannelCloser ch script (FeePerKWeight fee) (u32 height) None) s0
    /\ forall ms, ms <> [] -> peer_deliver a cid ms s = peer_deliver a cid ms s0.
Proof.
  intros [(h & Ha & Hh & Hid) Hc] Hn (E1 & E2 & E3) Ef. set (c := newChannelCloser _ _ _ _ _).
  set (s0 := set_closes (<[cid := length (ch_closers s)]> (activeChanCloses s)) (set_closers (ch_closers s ++ [(h, c)]) s)).
  assert (running cid c s0) as Hr.
  { eapply (running_new cid ch h (length (ch_closers s))); cbn; try done; [apply lookup_insert_eq|by apply list_lookup_middle|apply cc_inv_new]. }
  exists s0. split; [done|]. intros [|m ms] Hne; [done|]. cbn [peer_deliver].
  assert (fetchActiveChanCloser a cid s = (Ok (length (ch_closers s)), s0)) as Es.
  { unfold fetchActiveChanCloser, mbind at 1, st_bind at 1, st_get. rewrite Ha, Hc. unfold channel, mbind at 1, st_bind at 1. rewrite Hh.
    rewrite bool_decide_true by done. rewrite E1, Ef, E2. unfold mbind at 1, st_bind at 1, st_res. rewrite E3. done. }
  destruct (fetch_running a cid c s0 Hr) as (i & h' & E0 & _ & Hi & _). cbn in Hi. rewrite lookup_insert_eq in Hi. injection Hi as <-.
  assert (closeMsg a cid m s = closeMsg a cid m s0) as E. { unfold closeMsg, mbind, st_bind, st_try. by rewrite Es, E0. }
  by rewrite E.
Qed.

(** The two closers after the request: [asked] by us, [fresh] at the other end. *)
Definition asked (c : channelCloser) : channelCloser := set_state closeShutdownInitiated (add_event (EvUnregister (cc_cid c)) c).

Lemma not_running_closed cid c req tx s : running cid c s -> closed cid req tx s -> False.
Proof. intros (h & i & Ha & _) [Hn _]. congruence. Qed.

Lemma first_proposal_own ms c m c' :
  IsInitiator (cc_channel c) = true -> first_proposal ms c = (Ok (ms ++ [MClosingSigned m], false), c') -> proposeCloseSigned (cc_idealFeeSat c) c = (Ok m, c').
Proof.
  intros Hin. unfold first_proposal, mbind, cc_bind, cc_get. rewrite Hin. destruct (proposeCloseSigned _ c) as [[m'|e] c1]; [|done].
  cbn. intros E. injection E as E <-. apply app_inv_head in E. by injection E as <-.
Qed.

(** The funder asks. *)
Lemma funder_asks cid ch1 ch2 sc1 sc2 k1 k2 h1 h2 req x y :
  let c1 := newChannelCloser ch1 sc1 k1 h1 req in
  let c2 := newChannelCloser ch2 sc2 k2 h2 None in
  Ends ch1 ch2 -> IsInitiator ch1 = true -> IsInitiator ch2 = false -> running cid c2 x.2 -> running cid (asked c1) y.2 ->
  10 <= cc_idealFeeSat c1 <= MaxSatoshi -> 10 <= cc_idealFeeSat c2 <= MaxSatoshi ->
  exists n, (n <= gap_of (cc_idealFeeSat c1) (cc_idealFeeSat c2) + 5)%nat
    /\ both_closed cid None req (peer_exchange n cid [MShutdown (mkShutdown (cc_cid c1) sc1)] x y).
Proof.
  intros c1 c2 Hends I1 I2 Hx Hy B1 B2. set (sd := mkShutdown _ _).
  assert (exists g1 sg', ProcessCloseMsg (MShutdown sd) c2 = (Ok ([MShutdown sg'], false), g1) /\ no_offer (cc_idealFeeSat c2) g1 /\ cc_closeReq g1 = None
    /\ facing (set_state closeFeeNegotiation (set_remoteDeliveryScript (sh_Address sg') (asked c1))) g1)
    as (g1 & sg' & Eg & Hng & Hrq & Hfa).
  { unfold ProcessCloseMsg, mbind, cc_bind, cc_get. simpl. unfold first_proposal, mbind, cc_bind, cc_get. simpl. rewrite I2. eexists _, _. by split_and!. }
  destruct (first_proposal_initiator [] (set_state closeFeeNegotiation (set_remoteDeliveryScript (sh_Address sg') (asked c1))))
    as (m & f2 & Ef & Hm & Ho); [exact I1|done|].
  assert (Ep := Ef). apply first_proposal_own in Ep; [|exact I1].
  destruct (facing_propose _ _ _ _ _ Hfa Ep) as [Hfa2 Hown].
  assert (ProcessCloseMsg (MShutdown sg') (asked c1) = (Ok ([MClosingSigned m], false), f2)) as Ef' by exact Ef.
  destruct (deliver_continues x.1 cid _ c2 _ _ x.2 Hx Eg) as (sb & Eb & Hrb).
  destruct (deliver_continues y.1 cid _ _ _ _ y.2 Hy Ef') as (sa & Ea & Hra).
  destruct (peers_first_answer _ _ cid (x.1, sb) (y.1, sa) f2 g1 m Hrb Hra Ho Hng (facing_sym _ _ Hfa2) Hown Hm B1 B2) as (n & Hn2 & Hfin).
  assert (n <= gap_of (cc_idealFeeSat c1) (cc_idealFeeSat c2) + 3)%nat by exact Hn2. exists (S (S n)). split; [lia|].
  rewrite (exchange_step (S n) cid _ x _ _ _ Eb), (exchange_step n cid _ y _ _ _ Ea).
  destruct (process_same _ _ _ _ Ef') as (_ & _ & Hreq & _). rewrite Hrq in Hfin. by rewrite Hreq in Hfin.
Qed.

(** The other party asks. *)
Lemma fundee_asks cid ch1 ch2 sc1 sc2 k1 k2 h1 h2 req x y :
  let c1 := newChannelCloser ch1 sc1 k1 h1 req in
  let c2 := newChannelCloser ch2 sc2 k2 h2 None in
  Ends ch1 ch2 -> IsInitiator ch1 = false -> IsInitiator ch2 = true -> running cid c2 x.2 -> running cid (asked c1) y.2 ->
  10 <= cc_idealFeeSat c1 <= MaxSatoshi -> 10 <= cc_idealFeeSat c2 <= MaxSatoshi ->
  exists n, (n <= gap_of (cc_idealFeeSat c1) (cc_idealFeeSat c2) + 5)%nat
    /\ both_closed cid None req (peer_exchange n cid [MShutdown (mkShutdown (cc_cid c1) sc1)] x y).
Proof.
  intros c1 c2 Hends I1 I2 Hx Hy B1 B2. set (sd := mkShutdown _ _). set (sdf := mkShutdown (cc_cid c2) sc2).
  destruct (first_proposal_initiator [MShutdown sdf]
     (set_state closeFeeNegotiation (add_event (EvUnregister (cc_cid c2)) (set_remoteDeliveryScript (sh_Address sd) c2))))
    as (m & f1 & Ef & Hm & Ho); [exact I2|done|].
  assert (ProcessCloseMsg (MShutdown sd) c2 = (Ok ([MShutdown sdf; MClosingSigned m], false), f1)) as Ef' by exact Ef.
  assert (exists g2, ProcessCloseMsg (MShutdown sdf) (asked c1) = (Ok ([], false), g2) /\ no_offer (cc_idealFeeSat c1) g2 /\ cc_closeReq g2 = req
    /\ facing (set_state closeFeeNegotiation (add_event (EvUnregister (cc_cid c2)) (set_remoteDeliveryScript (sh_Address sd) c2))) g2)
    as (g2 & Eg & Hng & Hrq & Hfa).
  { unfold ProcessCloseMsg, mbind, cc_bind, cc_get. simpl. unfold first_proposal, mbind, cc_bind, cc_get. simpl. rewrite I1. eexists.
    do 3 (split; [done|]). repeat split; try done; try (by apply te_sym). }
  assert (Ep := Ef). apply (first_proposal_own [MShutdown sdf]) in Ep; [|exact I2].
  destruct (facing_propose _ _ _ _ _ Hfa Ep) as [Hfa1 Hown].
  destruct (deliver_continues x.1 cid _ c2 _ _ x.2 Hx Ef') as (sb & Eb & Hrb).
  destruct (deliver_continues y.1 cid _ _ _ _ y.2 Hy Eg) as (sa & Ea & Hra).
  destruct (peers_first_answer _ _ cid (y.1, sa) (x.1, sb) f1 g2 m Hra Hrb Ho Hng (facing_sym _ _ Hfa1) Hown Hm B2 B1) as (n & Hn2 & Hfin).
  destruct n as [|n].
  { exfalso. destruct Hfin as [tx [[Hc _]|[Hc _]]]; by eapply not_running_closed in Hc. }
  assert (S n <= gap_of (cc_idealFeeSat c2) (cc_idealFeeSat c1) + 3)%nat as Hle by exact Hn2.
  exists (S (S n)). split; [unfold gap_of in *; lia|]. rewrite (exchange_step (S n) cid _ x _ _ _ Eb).
  assert (peer_deliver y.1 cid [MShutdown sdf; MClosingSigned m] y.2 = peer_deliver y.1 cid [MClosingSigned m] sa) as Hd.
  { cbn [peer_deliver] in Ea |- *. injection Ea as E0 <-. rewrite app_nil_r in E0. by rewrite E0. }
  destruct (process_same _ _ _ _ Ef') as (_ & _ & Hreq & _). cbn [peer_exchange fst snd] in Hfin |- *. rewrite Hd.
  rewrite Hrq, Hreq in Hfin. by apply both_closed_sym.
Qed.

(** C8: two peers close a channel.  When one end asks for a cooperative close of a channel
    that both have active, without HTLCs, when both can sign, broadcast and answer and ask for
    a fee of at least ten satoshis, the
    exchange of messages between the two channel managers ends: after at most as many
    rounds as there are satoshis between the two ideal fees, and five more, the channel is
    inactive at both ends, both have broadcast the same closing transaction and watch it, and
    the local request was told of it. *)
Theorem peers_close a1 a2 req ch1 ch2 sc1 sc2 h1 h2 fee2 s1 s2 :
  let cid := NewChanIDFromOutPoint (cl_ChanPoint req) in
  let c1 := newChannelCloser ch1 sc1 (cl_TargetFeePerKw req) (u32 h1) (Some (cl_id req)) in
  let c2 := newChannelCloser ch2 sc2 (FeePerKWeight fee2) (u32 h2) None in
  idle cid ch1 s1 -> idle cid ch2 s2 -> Ends ch1 ch2 -> IsInitiator ch2 = negb (IsInitiator ch1) -> ActiveHtlcs ch2 = 0%nat ->
  willing a1 sc1 h1 -> willing a2 sc2 h2 -> an_fee a2 = Ok fee2 -> cl_CloseType req = CloseRegular ->
  10 <= cc_idealFeeSat c1 <= MaxSatoshi -> 10 <= cc_idealFeeSat c2 <= MaxSatoshi ->
  exists sd s1' n, handleLocalCloseReq a1 req s1 = (Ok tt, s1') /\ logged [CQueue (MShutdown sd)] s1 s1'
    /\ (n <= gap_of (cc_idealFeeSat c1) (cc_idealFeeSat c2) + 5)%nat
    /\ both_closed cid None (Some (cl_id req)) (peer_exchange n cid [MShutdown sd] (a2, s2) (a1, s1')).
Proof.
  intros cid c1 c2 Hi1 Hi2 Hends Hin Hn W1 W2 Hf Ht B1 B2.
  destruct (local_close a1 req ch1 sc1 h1 s1 (proj1 Hi1) Ht W1) as (s1' & E1 & Hl & Hr1).
  destruct (remote_open a2 cid ch2 sc2 h2 fee2 s2 Hi2 Hn W2 Hf) as (s0 & Hr2 & Heq).
  assert (exists n, (n <= gap_of (cc_idealFeeSat c1) (cc_idealFeeSat c2) + 5)%nat
    /\ both_closed cid None (Some (cl_id req)) (peer_exchange n cid [MShutdown (mkShutdown (cc_cid c1) sc1)] (a2, s0) (a1, s1')))
    as (n & Hn' & Hfin).
  { destruct (IsInitiator ch1) eqn:Ini; [by eapply funder_asks | by eapply fundee_asks]. }
  eexists _, s1', n. split; [done|]. split; [exact Hl|]. split; [done|].
  destruct n as [|n]; [|by cbn [peer_exchange fst snd] in Hfin |- *; rewrite Heq].
  exfalso. destruct Hfin as [tx [[Hc _]|[Hc _]]]; by eapply not_running_closed in Hc.
Qed.

(** ** Two flaws of the exchange *)

(** The end that is told last echoes the offer once more, to a channel that is gone: a
    successful close ends with an error message. *)
Theorem close_ends_with_error b cid x y r s cs r' own :
  running cid r x.2 -> running cid s y.2 -> offered b s ->
  ProcessCloseMsg (MClosingSigned cs) r = (Ok ([MClosingSigned own], true), r') -> cs_FeeSatoshis own = b ->
  exists log, ch_log (peer_exchange 3 cid [MClosingSigned cs] x y).2.2
                = log ++ [CQueueError cid (ErrNew "unable to close channel, ChannelID is unknown")].
Proof.
  intros Hx Hy Hs E Hf. destruct (deliver_finishes x.1 cid _ r _ _ x.2 Hx E) as (sx & tx & Ex & Hcx & _).
  destruct (accept_own s b own Hs Hf) as (m & s' & Es & _).
  destruct (deliver_finishes y.1 cid _ s _ _ y.2 Hy Es) as (sy & ty & Ey & Hcy & _).
  rewrite (exchange_step 2 cid _ x y _ _ Ex), (exchange_step 1 cid _ y _ _ _ Ey). cbn [peer_exchange peer_deliver fst snd].
  rewrite close_unknown by apply Hcx. exists (ch_log sx). done.
Qed.

(** A second request replaces the negotiation of the first, which is never answered. *)
Theorem request_replaced a req c script height s :
  let cid := NewChanIDFromOutPoint (cl_ChanPoint req) in
  running cid c s -> cl_CloseType req = CloseRegular -> willing a script height ->
  exists c' s', handleLocalCloseReq a req s = (Ok tt, s') /\ running cid c' s' /\ cc_closeReq c' = Some (cl_id req)
    /\ forall r e, CReqErr r e ∈ ch_log s' -> CReqErr r e ∈ ch_log s.
Proof.
  intros cid (h & i & H1 & H2 & H3 & H4 & H5 & H6) Ht Hw.
  destruct (local_close a req (cc_channel c) script height s) as (s' & E & Hl & Hr); [by exists h|done|done|].
  eexists _, s'. split; [done|]. split; [exact Hr|]. split; [done|]. intros r e. rewrite Hl, elem_of_app, list_elem_of_singleton. by intros [|].
Qed.
End Live.
End Close.
