(* ===== verification/PeerExamples.v ===== *)
(** * Concrete runs of a peer

    An instance of the payload encodings, and runs of the queues on it that satisfy the
    hypotheses of the theorems; two peers with a channel between them, on the example channel
    of the closer. *)

From Stdlib Require Import ZArith Lia.
From Stdlib Require Import Init.Byte.
From stdpp Require Import base gmap strings numbers list.
From S2P Require Import Prelude Stream Tx ChanCloser ChanCloserProps Effects PeerStream PeerWire PeerWrite.
From S2P Require Import PeerRead PeerReadInv PeerReadProps PeerLink PeerChans PeerChansInv PeerClose.
Local Open Scope Z_scope.

Module PeerRuns.
(** Channel updates as the identifier of the channel and the rest. *)
Definition wire_payload (m : Message) : res bytes :=
  match m with
  | UpdateAddHTLC c f | UpdateFee c f | CommitSig c f | RevokeAndAck c f => Ok (c ++ f)
  | PeerWire.ChannelUpdate f | NodeAnnouncement f | OpenChannel f => Ok f
  | Shutdown c a | PeerWire.Error c a => Ok (c ++ a)
  | Pong b => Ok b
  | _ => Err (ErrNew "encode")
  end.

Definition wire_decode (t : Z) : Reader Message := fun r =>
  let c := take 32 r in
  let f := drop 32 r in
  if t =? 128 then Ok (UpdateAddHTLC c f, [])
  else if t =? 134 then Ok (UpdateFee c f, [])
  else if t =? 132 then Ok (CommitSig c f, [])
  else if t =? 133 then Ok (RevokeAndAck c f, [])
  else if t =? 258 then Ok (PeerWire.ChannelUpdate r, [])
  else if t =? 257 then Ok (NodeAnnouncement r, [])
  else if t =? 32 then Ok (OpenChannel r, [])
  else if t =? 38 then Ok (Shutdown c f, [])
  else if t =? 19 then Ok (Pong r, [])
  else if t =? 17 then Ok (PeerWire.Error c f, [])
  else Err ErrUnexpectedEOF.

#[local] Instance wire_example : LnWire := {|
  Encode := wire_payload;
  MaxPayloadLength := fun _ => 65535;
  Decode := wire_decode
|}.

Definition chan1 : bytes := replicate 32 x01.

(** ** Writing *)

Definition out_events : list out_event := [OQueue (mkOutgoing (UpdateAddHTLC chan1 [x07]) (Some 0%nat)); OHandoff; OQueue (mkOutgoing (Pong []) None); OWrite 5 None].
Definition out1 : outbox := Eval vm_compute in default newOutbox (out_run out_events newOutbox).
Definition out_rest : list out_event := [OAnswer; OHandoff; OWrite 6 None; OAnswer].
Definition out2 : outbox := Eval vm_compute in default newOutbox (out_run out_rest out1).

Lemma outgoing_in_order_witness :
  out_run out_rest out1 = Some out2 /\ ob_wire out2 = wire_of <$> ob_accepted out1 /\ ob_answers out2 = [(0%nat, None)].
Proof.
  assert (out_reach out1) as Hr by (exists out_events; vm_compute; reflexivity).
  assert (out_run out_rest out1 = Some out2) as Hrun by (vm_compute; reflexivity).
  destruct (proj2 (outgoing_in_order out1 Hr) out_rest out2 eq_refl eq_refl eq_refl Hrun) as [_ Hd].
  destruct Hd as [Hw Ha].
  { intros e He. destruct e as [| | | |now [|]| | |]; first [discriminate He | reflexivity]. }
  split; [exact Hrun|]. split; [exact Hw|]. exact Ha.
Defined.

(** ** Reading *)

(** A message is added to its stream. *)
Definition deliver : list read_event :=
  [EvAdd; EvAdding EAcquire; EvAdding EAppend; EvAdding ESignal; EvAdd].

Definition read_events : list read_event :=
  [EvMessage (UpdateAddHTLC chan1 [x07]) false 0] ++ deliver ++ [EvMessage (CommitSig chan1 [x08]) false 0] ++ deliver.
Definition read1 : reader := Eval vm_compute in default newReader (read_run read_events newReader).
Definition read_rest : list read_event := repeat (EvConsumer (Some chan1) EConsume) 7 ++ [EvConsumer None EConsume].
Definition read2 : reader := Eval vm_compute in default newReader (read_run read_rest read1).

Definition stream2 : mstream := Eval vm_compute in default (newMsgStream 0) (rd_chanMsgStreams read2 !! chan1).

(** A map is known from its list, which is cheaper to evaluate than the map. *)
Lemma single_from_list {V} (m : gmap ChannelID V) k v : map_to_list m = [(k, v)] -> m = {[k := v]}.
Proof. intros E. rewrite <- (list_to_map_to_list m), E. cbn [list_to_map foldr]. apply insert_empty. Qed.

Lemma read2_streams : rd_chanMsgStreams read2 = {[chan1 := stream2]}.
Proof. apply single_from_list. vm_compute. reflexivity. Qed.

Lemma quiet_read2 : quiet read2.
Proof.
  intros e He. destruct e as [| | | | |e| | |k e| | |]; try discriminate He; [reflexivity|by destruct e|].
  destruct e; try discriminate He; try reflexivity. cbn [read_step consumer_event]. unfold step_stream.
  destruct k as [k|]; [|vm_compute; reflexivity]. cbn [get_stream]. unfold ChannelID in *. rewrite read2_streams.
  destruct (decide (k = chan1)) as [->|Hne]; [rewrite lookup_singleton_eq; vm_compute; reflexivity | by rewrite lookup_singleton_ne].
Qed.

Lemma reader_in_order_witness :
  read_run read_rest read1 = Some read2 /\ ms_applied stream2 = [UpdateAddHTLC chan1 [x07]; CommitSig chan1 [x08]].
Proof.
  assert (read_reach read1) as Hr by (exists read_events; vm_compute; reflexivity).
  assert (read_run read_rest read1 = Some read2) as Hrun by (vm_compute; reflexivity).
  split; [exact Hrun|].
  destruct (proj2 (reader_in_order read1 Hr) read_rest read2 eq_refl eq_refl Hrun) as [_ Hd].
  rewrite (Hd quiet_read2 (Some chan1) stream2); [vm_compute; reflexivity|].
  cbn [get_stream]. rewrite read2_streams. apply lookup_singleton_eq.
Defined.

(** ** Both ends *)

Definition link_events : list link_event :=
  (LOut <$> [OQueue (mkOutgoing (UpdateAddHTLC chan1 [x07]) None); OQueue (mkOutgoing (PeerWire.Error ConnectionWideID [x08]) None);
             OHandoff; OWrite 5 None; OAnswer])
  ++ [LRead false 0].
Definition link1 : link := Eval vm_compute in default newLink (link_run link_events newLink).
Definition link_rest : list link_event :=
  (LIn <$> deliver) ++ (LOut <$> [OHandoff; OWrite 6 None; OAnswer]) ++ [LRead false 0]
  ++ (LIn <$> (deliver ++ repeat (EvConsumer (Some chan1) EConsume) 7 ++ [EvConsumer None EConsume])).
Definition link2 : link := Eval vm_compute in default newLink (link_run link_rest link1).
Definition stream3 : mstream := Eval vm_compute in default (newMsgStream 0) (rd_chanMsgStreams (lk_in link2) !! chan1).

Lemma link2_streams : rd_chanMsgStreams (lk_in link2) = {[chan1 := stream3]}.
Proof. apply single_from_list. vm_compute. reflexivity. Qed.

Lemma link2_quiet e : link_internal e = true -> link_step e link2 = None.
Proof.
  intros He. destruct e as [e|b d|e].
  - destruct e as [| | | |now [|]| | |]; first [discriminate He | reflexivity].
  - vm_compute. reflexivity.
  - destruct e as [| | | | |e| | |k e| | |]; try discriminate He; try reflexivity.
    destruct e; try discriminate He; try reflexivity. cbn [link_step from_wire read_step consumer_event]. unfold step_stream.
    destruct k as [k|]; [|vm_compute; reflexivity]. cbn [get_stream]. unfold ChannelID in *. rewrite link2_streams.
    destruct (decide (k = chan1)) as [->|Hne]; [rewrite lookup_singleton_eq; vm_compute; reflexivity | by rewrite lookup_singleton_ne].
Qed.

(** An update, then an error for all channels: the stream applies both. *)
Lemma link_in_order_witness :
  link_run link_rest link1 = Some link2 /\ ms_applied stream3 = [UpdateAddHTLC chan1 [x07]; PeerWire.Error ConnectionWideID [x08]].
Proof.
  assert (link_reach link1) as Hr by (exists link_events; vm_compute; reflexivity).
  assert (link_run link_rest link1 = Some link2) as Hrun by (vm_compute; reflexivity).
  assert (Forall wire_ok (sent link1)) as Hok.
  { constructor; [|constructor; [|constructor]]; eexists; (split; [reflexivity|]; split; [vm_compute; discriminate|];
      split; [vm_compute; discriminate|]; exists []; vm_compute; reflexivity). }
  split; [exact Hrun|].
  destruct (proj2 (link_in_order link1 Hr Hok) link_rest link2 (conj eq_refl (conj eq_refl eq_refl)) eq_refl Hrun) as [_ Hd].
  destruct (Hd link2_quiet) as [_ Hk]. specialize (Hk (Some chan1)). cbn [get_stream] in Hk. rewrite link2_streams, lookup_singleton_eq in Hk.
  destruct Hk as [Hk _]. rewrite Hk. vm_compute. reflexivity.
Defined.
End PeerRuns.

(** * Concrete runs of the channel manager *)

Module CloseRuns.
#[local] Existing Instance CloserExamples.toy_channel.
#[local] Existing Instance CloserExamples.toy_live.
#[local] Existing Instance CloserExamples.toy_np.

#[local] Instance toy_peer : PeerChannel CloserExamples.toy_channel := {|
  ActiveHtlcs := fun _ => 0%nat;
  RemoteNextRevocation := fun _ => None;
  InitNextRevocation := fun _ ch => (Ok tt, ch);
  ResetState := fun ch => ch;
  StopChan := fun ch => ch;
  DBChan := bool * Z;
  FundingOutpoint := fun _ => mkOutPoint [] 0;
  IsBorked := fun _ => false;
  NewLightningChannel := Ok;
  PayToAddrScript := Ok
|}.

#[local] Instance toy_stable : ChanStable toy_peer.
Proof. split; done. Qed.

(** The funder and the other end of the toy channel. *)
Definition toy_ends (a b : @Chan CloserExamples.toy_channel) : Prop := a.1 = negb b.1.
#[local] Instance toy_two_ends : TwoEnds (CH := CloserExamples.toy_channel) toy_ends.
Proof.
  split; [intros [[] ?] [[] ?]; done|done|]. intros s1 s2 l r fee a b tx1 bal1 a' tx2 bal2 b' _ [= <- _ _] [= <- _ _]. done.
Qed.

Definition yes : answers :=
  mkAnswers (Ok tt) (Ok 1000) (Ok tt) (Ok tt) (Ok tt) (Ok [x01]) (Ok 10) (Ok tt) (Err ErrEdgeNotFound).

(** The funder wants a fee of 1000 satoshis, the other end one of 2500. *)
Definition alice : chans := Eval vm_compute in (loadActiveChannels (PCH := toy_peer) [x01] [((true, 1000), yes)] newChans).2.
Definition bob : chans := Eval vm_compute in (loadActiveChannels (PCH := toy_peer) [x02] [((false, 2500), yes)] newChans).2.

Lemma alice_reach : chans_reach [x01] alice.
Proof.
  apply (reach_load (PCH := toy_peer) _ [((true, 1000), yes)] (Ok tt)); [|vm_compute; reflexivity]. constructor; [|constructor]. split; [reflexivity|]. done.
Qed.

Lemma manager_safe_witness :
  activeChannels alice !! ([] : bytes) = Some 0%nat /\ (exists ch, ch_heap alice !! 0%nat = Some ch)
  /\ forall m what, (channelManager yes (ICloseMsg [] m) alice).1 <> Err (ErrPanic what).
Proof.
  destruct (manager_safe [x01] alice alice_reach) as (H1 & _ & H3 & _). split; [reflexivity|]. split.
  - destruct (H1 ([] : bytes) 0%nat eq_refl) as (ch & Hh & _). by exists ch.
  - intros m what. apply (H3 yes (ICloseMsg [] m) what). done.
Defined.

Definition request : ChanClose := mkChanClose CloseRegular (mkOutPoint [] 0) 250 7.

Lemma peers_close_witness :
  exists sd s' n, handleLocalCloseReq yes request alice = (Ok tt, s') /\ (n <= 1505)%nat
    /\ both_closed [] None (Some 7) (peer_exchange n [] [MShutdown sd] (yes, bob) (yes, s')).
Proof.
  destruct (peers_close (CH := CloserExamples.toy_channel) (PCH := toy_peer) yes yes request (true, 1000) (false, 2500) [x01] [x01] 1000 1000 10 alice bob)
    as (sd & s' & n & H1 & _ & H2 & H3); try done.
  - split; [exists 0%nat; repeat split|]; reflexivity.
  - split; [exists 0%nat; repeat split|]; reflexivity.
  - exists sd, s', n. split; [exact H1|]. split; [|exact H3]. etransitivity; [exact H2|]. vm_compute. lia.
Defined.

(** The run itself. *)
Example run_closes :
  let s := (handleLocalCloseReq yes request alice).2 in
  let p := peer_exchange 20 [] (queued (ch_log s)) (yes, bob) (yes, s) in
  bool_decide (activeChannels p.1.2 = ∅ /\ activeChannels p.2.2 = ∅) = true.
Proof. vm_compute. reflexivity. Qed.
End CloseRuns.
