(* ===== verification/PeerStart.v ===== *)
(** * The start of a peer

    The handshake with the feature bits of both ends, and [Start] of peer.go: the init
    messages, the channels of the database, the goroutines. *)

From Stdlib Require Import ZArith Lia.
From Stdlib Require Import Init.Byte.
From stdpp Require Import base gmap strings numbers list.
From S2P Require Import Prelude Tx Effects ChanCloser ChanCloserProps PeerChans PeerChansInv PeerExamples PeerWire.
Local Open Scope Z_scope.

(** ** Feature bits *)

Definition InitialRoutingSync : Z := 3.

(** The bits with a name. *)
Definition LocalFeatures : gset Z := {[InitialRoutingSync]}.
Definition GlobalFeatures : gset Z := ∅.

Definition UnknownRequiredFeatures (features featureNames : gset Z) : list Z :=
  List.filter (fun feature => (feature mod 2 =? 0) && negb (bool_decide (feature ∈ featureNames))) (elements features).

(** The init message is rejected if the other end requires a feature we do not know. *)
Definition handleInitMsg (global local : gset Z) : res () :=
  match UnknownRequiredFeatures local LocalFeatures with
  | _ :: _ => Err (ErrNew "Peer set unknown local feature bits")
  | [] =>
      match UnknownRequiredFeatures global GlobalFeatures with
      | _ :: _ => Err (ErrNew "Peer set unknown global feature bits")
      | [] => Ok tt
      end
  end.

Lemma unknown_nil features names :
  UnknownRequiredFeatures features names = [] <-> forall b, b ∈ features -> b mod 2 = 0 -> b ∈ names.
Proof.
  unfold UnknownRequiredFeatures. split.
  - intros E b Hb Hm. destruct (decide (b ∈ names)) as [|Hn]; [done|exfalso].
    assert (List.In b (List.filter (fun feature => (feature mod 2 =? 0) && negb (bool_decide (feature ∈ names))) (elements features))) as Hin.
    { apply List.filter_In. split; [by apply list_elem_of_In, elem_of_elements|]. rewrite Hm, bool_decide_false by done. done. }
    by rewrite E in Hin.
  - intros H. destruct (List.filter _ _) as [|b l] eqn:E; [done|exfalso].
    assert (List.In b (b :: l)) as Hin by (by left). rewrite <- E in Hin. apply List.filter_In in Hin as [Hin Hf].
    apply andb_prop in Hf as [Hm Hn]. apply Z.eqb_eq in Hm. apply list_elem_of_In, elem_of_elements in Hin.
    specialize (H b Hin Hm). by rewrite bool_decide_true in Hn.
Qed.

(** ** [Start] *)

Section Start.
Context {CH : ChannelIface} {PCH : PeerChannel CH}.

(** [st_features] are the remote end's features, [st_goroutines] says whether the five
    goroutines run. *)
Record startup := mkStartup {
  st_started : Z;
  st_sent : list Message;
  st_features : option (gset Z * gset Z);
  st_chans : chans;
  st_goroutines : bool
}.

(** What the goroutine that waits for the first message reports within fifteen
    seconds. *)
Inductive first_read :=
  | FirstTimeout
  | FirstError (err : goerr)
  | FirstMessage (m : Message).

(** [writeErr] is the error of writing the init message, [openChans] what the database
    answers. *)
Definition Start (identity : bytes) (global local : gset Z) (writeErr : option goerr) (first : first_read)
    (openChans : res (list (DBChan * answers))) (s : startup) : res () * startup :=
  let s := mkStartup (i32 (st_started s + 1)) (st_sent s) (st_features s) (st_chans s) (st_goroutines s) in
  if negb (st_started s =? 1) then (Ok tt, s)
  else
    let s := mkStartup (st_started s) (st_sent s ++ [Init global local]) (st_features s) (st_chans s) (st_goroutines s) in
    match writeErr with
    | Some err => (Err err, s)
    | None =>
        match first with
        | FirstTimeout => (Err (ErrNew "peer did not complete handshake within 5 seconds"), s)
        | FirstError err => (Err err, s)
        | FirstMessage (Init g l) =>
            let s := mkStartup (st_started s) (st_sent s) (Some (g, l)) (st_chans s) (st_goroutines s) in
            match handleInitMsg g l with
            | Err err => (Err err, s)
            | Ok _ =>
                match openChans with
                | Err err => (Err err, s)
                | Ok activeChans =>
                    let '(r, c) := loadActiveChannels identity activeChans (st_chans s) in
                    let s := mkStartup (st_started s) (st_sent s) (st_features s) c (st_goroutines s) in
                    match r with
                    | Err err => (Err err, s)
                    | Ok _ => (Ok tt, mkStartup (st_started s) (st_sent s) (st_features s) c true)
                    end
                end
            end
        | FirstMessage _ => (Err (ErrNew "very first message between nodes must be init message"), s)
        end
    end.

Definition fresh : startup := mkStartup 0 [] None newChans false.

(** Every even bit the other end sets is one we know. *)
Definition compatible (global local : gset Z) : Prop :=
  (forall b, b ∈ local -> b mod 2 = 0 -> b ∈ LocalFeatures) /\ (forall b, b ∈ global -> b mod 2 = 0 -> b ∈ GlobalFeatures).

Lemma handleInitMsg_ok global local : handleInitMsg global local = Ok tt <-> compatible global local.
Proof.
  unfold handleInitMsg, compatible. rewrite <- !unknown_nil.
  destruct (UnknownRequiredFeatures local LocalFeatures), (UnknownRequiredFeatures global GlobalFeatures); split; try done; by intros [].
Qed.

(** C39: the goroutines of a peer run after [Start] exactly if our init message was sent,
    the first message of the other end was an init message that requires no feature we do
    not know, and the channels of the database were loaded; otherwise [Start] fails and
    nothing runs.  Our init message is the only one sent before, and a second call does
    nothing. *)
Theorem start_handshake identity global local writeErr first openChans r s :
  Start identity global local writeErr first openChans fresh = (r, s) ->
  st_sent s = [Init global local]
  /\ (r = Ok tt <-> st_goroutines s = true)
  /\ (r = Ok tt <->
      writeErr = None /\ exists g l chans, first = FirstMessage (Init g l) /\ compatible g l /\ openChans = Ok chans
        /\ loadActiveChannels identity chans newChans = (Ok tt, st_chans s))
  /\ forall global' local' writeErr' first' openChans',
       exists s', Start identity global' local' writeErr' first' openChans' s = (Ok tt, s')
         /\ st_sent s' = st_sent s /\ st_chans s' = st_chans s /\ st_goroutines s' = st_goroutines s.
Proof.
  intros E. assert (st_started s = 1 /\ st_sent s = [Init global local]) as [Hst Hsent].
  { unfold Start in E. cbn in E. repeat case_match; by simplify_eq. }
  assert (forall global' local' writeErr' first' openChans',
       exists s', Start identity global' local' writeErr' first' openChans' s = (Ok tt, s')
         /\ st_sent s' = st_sent s /\ st_chans s' = st_chans s /\ st_goroutines s' = st_goroutines s) as Hagain.
  { intros. unfold Start. cbn. rewrite Hst. cbn. by eexists. }
  split; [done|]. unfold Start in E. cbn in E. change (i32 (0 + 1)) with 1 in E. cbn in E.
  destruct writeErr as [err|]; [simplify_eq; naive_solver|].
  destruct first as [|err|m]; [simplify_eq; naive_solver..|].
  destruct m as [g l| | | | | | | | | | | | | | | | | | | | | |]; [|simplify_eq; naive_solver..].
  destruct (handleInitMsg g l) as [[]|err] eqn:Eh.
  2: { simplify_eq. split; [by split|]. split; [|done]. split; [done|]. intros (_ & g' & l' & c & Eq & Hc & _). simplify_eq.
       apply handleInitMsg_ok in Hc. by rewrite Hc in Eh. }
  apply handleInitMsg_ok in Eh. destruct openChans as [chans|err]; [|simplify_eq; naive_solver].
  destruct (loadActiveChannels identity chans newChans) as [[[]|err] c] eqn:El; simplify_eq; cbn.
  - split; [done|]. split; [|done]. split; [|done]. intros _. split; [done|]. by exists g, l, chans.
  - split; [by split|]. split; [|done]. split; [done|]. intros (_ & g' & l' & c' & ? & _ & ? & Hc'). simplify_eq. by rewrite Hc' in El.
Qed.
End Start.

Module StartRuns.
#[local] Existing Instance CloserExamples.toy_channel.
#[local] Existing Instance CloseRuns.toy_peer.

(** The other end asks for a routing sync, and we have one channel with it. *)
Definition started : res () * startup (CH := CloserExamples.toy_channel) :=
  Start (PCH := CloseRuns.toy_peer) [x01] ∅ ∅ None (FirstMessage (Init ∅ {[3]})) (Ok [((true, 1000), CloseRuns.yes)]) fresh.

Lemma start_handshake_witness :
  started.1 = Ok tt /\ st_goroutines started.2 = true /\ compatible ∅ {[3]} /\ st_sent started.2 = [Init ∅ ∅].
Proof.
  assert (started.1 = Ok tt) as Hok by (vm_compute; reflexivity).
  destruct (start_handshake (PCH := CloseRuns.toy_peer) [x01] ∅ ∅ None (FirstMessage (Init ∅ {[3]}))
    (Ok [((true, 1000), CloseRuns.yes)]) started.1 started.2 (surjective_pairing _)) as (H1 & H2 & H3 & _).
  split; [exact Hok|]. split; [by apply H2|]. split; [|exact H1].
  destruct (proj1 H3 Hok) as (_ & g & l & c & Eq & Hc & _). injection Eq as <- <-. exact Hc.
Defined.

(** A required feature we do not know. *)
Example unknown_feature :
  (Start (CH := CloserExamples.toy_channel) (PCH := CloseRuns.toy_peer) [x01] ∅ ∅ None (FirstMessage (Init {[4]} ∅)) (Ok []) fresh).1
  = Err (ErrNew "Peer set unknown global feature bits").
Proof. vm_compute. reflexivity. Qed.
End StartRuns.
