(* ===== verification/Sweep.v ===== *)
(** * Sweep transactions

    What the nursery's sweep transactions and the breach arbiter's justice
    transactions share: the outside world they are built with ([ChainEnv]), the
    weight estimate (lnwallet/size.go), the sanity check
    (btcd/blockchain/validate.go), and the attachment of the witnesses. *)

From Stdlib Require Import ZArith Lia.
From Stdlib Require Import Init.Byte.
From stdpp Require Import base gmap countable strings numbers list.
From S2P Require Import Prelude Stream Tx Outputs Effects.
Local Open Scope Z_scope.

(** ** The outside world

    Wallet, fee estimator, chain notifier and signer, over a state of their
    own: every call may fail, and two calls need not give the same answer. *)
Class ChainEnv {BTC : Btcec} := {
  Env : Type;
  GenSweepScript : ST Env bytes;
  EstimateFeePerVSize : Z -> ST Env Z;
  PublishTransaction : MsgTx -> ST Env ();
  RegisterConfirmationsNtfn : bytes -> Z -> Z -> ST Env ();
  GetBestBlock : ST Env Z;
  GenWitnessFunc : Z -> SignDescriptor -> MsgTx -> MsgTx -> nat -> res (list bytes);
  TxHash : MsgTx -> bytes;
  (** A [chainhash.Hash] has 32 bytes. *)
  TxHash_length tx : length (TxHash tx) = 32%nat
}.

(** ** Weight estimates (lnwallet/size.go) *)

Definition P2WKHOutputSize : Z := 8 + 1 + (1 + 1 + 20).
Definition InputSize : Z := 32 + 4 + 1 + 4.
Definition BaseTxSize : Z := 4 + 4.
Definition WitnessHeaderSize : Z := 1 + 1.
Definition witnessScaleFactor : Z := 4.
Definition P2WKHWitnessSize : Z := 1 + 1 + 73 + 1 + 33.
Definition ToLocalScriptSize : Z := 1 + 1 + 33 + 1 + 1 + 1 + 33 + 1 + 1 + 8 + 1 + 1.
Definition ToLocalTimeoutWitnessSize : Z := 1 + 1 + 73 + 1 + 1 + ToLocalScriptSize.
Definition ToLocalPenaltyWitnessSize : Z := 1 + 1 + 73 + 1 + 1 + ToLocalScriptSize.
Definition SecondLevelHtlcScriptSize : Z := 73.
Definition SecondLevelHtlcPenaltyWitnessSize : Z := 1 + 1 + 73 + 1 + SecondLevelHtlcScriptSize.
Definition SecondLevelHtlcSuccessWitnessSize : Z := 1 + 1 + 73 + 1 + SecondLevelHtlcScriptSize.
Definition AcceptedHtlcScriptSize : Z := 3*1 + 20 + 5*1 + 33 + 7*1 + 20 + 4*1 + 33 + 5*1 + 4 + 5*1.
Definition AcceptedHtlcTimeoutWitnessSize : Z := 1 + 73 + 1 + AcceptedHtlcScriptSize.
Definition AcceptedHtlcPenaltyWitnessSize : Z := 1 + 1 + 73 + 1 + 33 + 1 + AcceptedHtlcScriptSize.
Definition OfferedHtlcScriptSize : Z := 3*1 + 20 + 5*1 + 33 + 10*1 + 33 + 5*1 + 20 + 4*1.
Definition OfferedHtlcPenaltyWitnessSize : Z := 1 + 1 + 73 + 1 + 1 + OfferedHtlcScriptSize.

Definition VarIntSerializeSize (val : Z) : Z :=
  if val <? 0xfd then 1 else if val <=? 0xffff then 3 else if val <=? 0xffffffff then 5 else 9.

Record TxWeightEstimator := mkTxWeightEstimator {
  twe_hasWitness : bool;
  twe_inputCount : Z;
  twe_outputCount : Z;
  twe_inputSize : Z;
  twe_inputWitnessSize : Z;
  twe_outputSize : Z
}.

Definition empty_estimate : TxWeightEstimator := mkTxWeightEstimator false 0 0 0 0 0.

Definition AddP2WKHOutput (t : TxWeightEstimator) : TxWeightEstimator :=
  mkTxWeightEstimator (twe_hasWitness t) (twe_inputCount t) (twe_outputCount t + 1)
    (twe_inputSize t) (twe_inputWitnessSize t) (twe_outputSize t + P2WKHOutputSize).

Definition AddWitnessInput (t : TxWeightEstimator) (witnessSize : Z) : TxWeightEstimator :=
  mkTxWeightEstimator true (twe_inputCount t + 1) (twe_outputCount t)
    (twe_inputSize t + InputSize) (twe_inputWitnessSize t + witnessSize) (twe_outputSize t).

Definition Weight (t : TxWeightEstimator) : Z :=
  let txSizeStripped := BaseTxSize + VarIntSerializeSize (twe_inputCount t) + twe_inputSize t
                        + VarIntSerializeSize (twe_outputCount t) + twe_outputSize t in
  let weight := txSizeStripped * witnessScaleFactor in
  if twe_hasWitness t then weight + WitnessHeaderSize + twe_inputWitnessSize t else weight.

Definition VSize (t : TxWeightEstimator) : Z :=
  (Weight t + witnessScaleFactor - 1) / witnessScaleFactor.

Definition FeeForVSize (rate vbytes : Z) : Z := i64 (rate * vbytes).

(** ** Sanity (blockchain.CheckTransactionSanity) *)

Definition TxIn_SerializeSize (ti : TxIn) : Z :=
  40 + VarIntSerializeSize (Z.of_nat (length (txi_SignatureScript ti)))
  + Z.of_nat (length (txi_SignatureScript ti)).

Definition TxOut_SerializeSize (t : TxOut) : Z :=
  8 + VarIntSerializeSize (Z.of_nat (length (txo_PkScript t))) + Z.of_nat (length (txo_PkScript t)).

Definition sum_Z (l : list Z) : Z := foldr Z.add 0 l.

Definition SerializeSizeStripped (tx : MsgTx) : Z :=
  8 + VarIntSerializeSize (Z.of_nat (length (tx_TxIn tx)))
  + VarIntSerializeSize (Z.of_nat (length (tx_TxOut tx)))
  + sum_Z (map TxIn_SerializeSize (tx_TxIn tx)) + sum_Z (map TxOut_SerializeSize (tx_TxOut tx)).

Definition MaxBlockBaseSize : Z := 1000000.
Definition MaxSatoshi : Z := 21000000 * 100000000.
Definition MinCoinbaseScriptLen : nat := 2.
Definition MaxCoinbaseScriptLen : nat := 100.

Definition isNullOutpoint (o : OutPoint) : bool :=
  (op_Index o =? 2 ^ 32 - 1) && bool_decide (op_Hash o = zeros 32).

Definition IsCoinBaseTx (tx : MsgTx) : bool :=
  match tx_TxIn tx with
  | [ti] => isNullOutpoint (txi_PreviousOutPoint ti)
  | _ => false
  end.

Definition add_output_value (totalSatoshi : Z) (txOut : TxOut) : res Z :=
  let satoshi := txo_Value txOut in
  if satoshi <? 0 then Err (ErrNew "transaction output has negative value")
  else if MaxSatoshi <? satoshi then Err (ErrNew "transaction output value is higher than max allowed value")
  else
    let totalSatoshi := i64 (totalSatoshi + satoshi) in
    if totalSatoshi <? 0 then Err (ErrNew "total value of all transaction outputs exceeds max allowed value")
    else if MaxSatoshi <? totalSatoshi then Err (ErrNew "total value of all transaction outputs is higher than max allowed value")
    else Ok totalSatoshi.

Fixpoint has_dup (seen : gset OutPoint) (l : list TxIn) : bool :=
  match l with
  | [] => false
  | ti :: l => bool_decide (txi_PreviousOutPoint ti ∈ seen)
               || has_dup ({[ txi_PreviousOutPoint ti ]} ∪ seen) l
  end.

Definition CheckTransactionSanity (tx : MsgTx) : res () :=
  if (length (tx_TxIn tx) =? 0)%nat then Err (ErrNew "transaction has no inputs") else
  if (length (tx_TxOut tx) =? 0)%nat then Err (ErrNew "transaction has no outputs") else
  if MaxBlockBaseSize <? SerializeSizeStripped tx then Err (ErrNew "serialized transaction is too big") else
  match res_foldl add_output_value 0 (tx_TxOut tx) with
  | Err e => Err e
  | Ok _ =>
      if has_dup ∅ (tx_TxIn tx) then Err (ErrNew "transaction contains duplicate inputs") else
      if IsCoinBaseTx tx then
        match tx_TxIn tx with
        | ti :: _ =>
            let slen := length (txi_SignatureScript ti) in
            if (slen <? MinCoinbaseScriptLen)%nat || (MaxCoinbaseScriptLen <? slen)%nat
            then Err (ErrNew "coinbase transaction script length is out of range") else Ok tt
        | [] => Err (ErrPanic "index out of range")
        end
      else if existsb (fun ti => isNullOutpoint (txi_PreviousOutPoint ti)) (tx_TxIn tx)
      then Err (ErrNew "transaction input refers to previous output that is null") else Ok tt
  end.

(** ** Building *)

(** [NewMsgTx], [AddTxOut], [AddTxIn]. *)
Definition NewMsgTx (version : Z) : MsgTx := mkMsgTx version [] [] 0.
Definition AddTxOut (o : TxOut) (tx : MsgTx) : MsgTx :=
  mkMsgTx (tx_Version tx) (tx_TxIn tx) (tx_TxOut tx ++ [o]) (tx_LockTime tx).
Definition AddTxIn (i : TxIn) (tx : MsgTx) : MsgTx :=
  mkMsgTx (tx_Version tx) (tx_TxIn tx ++ [i]) (tx_TxOut tx) (tx_LockTime tx).
Definition set_LockTime (lt : Z) (tx : MsgTx) : MsgTx :=
  mkMsgTx (tx_Version tx) (tx_TxIn tx) (tx_TxOut tx) lt.
(** [tx.TxIn[idx].Witness = witness] *)
Definition set_tx_witness (idx : nat) (w : list bytes) (tx : MsgTx) : MsgTx :=
  mkMsgTx (tx_Version tx) (alter (fun ti => set_witness ti w) idx (tx_TxIn tx)) (tx_TxOut tx) (tx_LockTime tx).

Section Sweep.
Context {BTC : Btcec} {CE : ChainEnv}.

(** [totalSum += o.Amount()] over the inputs. *)
Definition sum_amounts (total : Z) (l : list breachedOutput) : Z :=
  foldl (fun t o => i64 (t + bo_amt o)) total l.

Definition BuildWitness (bo : breachedOutput) (hashCache txn : MsgTx) (txinIdx : nat) : res (list bytes) :=
  GenWitnessFunc (bo_witnessType bo) (bo_signDesc bo) hashCache txn txinIdx.

(** The [addWitness] closure and the loop that calls it with the running index,
    on the transaction being signed. *)
Fixpoint add_witnesses (hashCache : MsgTx) (idx : nat) (l : list breachedOutput) (txn : MsgTx) : res MsgTx :=
  match l with
  | [] => Ok txn
  | so :: l =>
      match BuildWitness so hashCache txn idx with
      | Err e => Err e
      | Ok witness => add_witnesses hashCache (S idx) l (set_tx_witness idx witness txn)
      end
  end.

(** ** What a sweep has to be *)

(** The transaction without its witnesses: what a witness commits to. *)
Definition unsigned (tx : MsgTx) : MsgTx :=
  mkMsgTx (tx_Version tx) (map (fun ti => set_witness ti []) (tx_TxIn tx)) (tx_TxOut tx) (tx_LockTime tx).

Definition sweep_in (o : breachedOutput * Z) : TxIn := mkTxIn (bo_outpoint o.1) [] [] o.2.

(** [tx] spends exactly [ins] (with their sequence numbers, in this order) to the
    single output [out] under lock time [lt], every input carries a witness the
    signer produced for it at its own position, and the transaction passes the
    network's sanity rules. *)
Record sweeps (ins : list (breachedOutput * Z)) (out : TxOut) (lt : Z) (tx : MsgTx) : Prop := {
  sw_unsigned : unsigned tx = mkMsgTx 2 (map sweep_in ins) [out] lt;
  sw_signed i o s ti : ins !! i = Some (o, s) -> tx_TxIn tx !! i = Some ti ->
    exists t, unsigned t = unsigned tx /\ BuildWitness o (unsigned tx) t i = Ok (txi_Witness ti);
  sw_nonempty : ins <> [];
  sw_distinct : NoDup (map (fun o => bo_outpoint o.1) ins);
  sw_value : 0 <= txo_Value out <= MaxSatoshi;
  sw_size : SerializeSizeStripped (unsigned tx) <= MaxBlockBaseSize
}.

(** ** Lemmas *)

Lemma unsigned_set_tx_witness i w tx : unsigned (set_tx_witness i w tx) = unsigned tx.
Proof.
  unfold unsigned, set_tx_witness. cbn [tx_Version tx_TxIn tx_TxOut tx_LockTime]. f_equal.
  apply list_eq. intros j. rewrite !list_lookup_fmap.
  destruct (decide (i = j)) as [->|Hj].
  - rewrite list_lookup_alter_eq. by destruct (tx_TxIn tx !! j).
  - by rewrite list_lookup_alter_ne.
Qed.

Lemma unsigned_idem tx : unsigned (unsigned tx) = unsigned tx.
Proof. unfold unsigned. simpl. f_equal. rewrite map_map. done. Qed.

Lemma add_witnesses_app c i l1 l2 tx :
  add_witnesses c i (l1 ++ l2) tx
  = (add_witnesses c i l1 tx ≫= add_witnesses c (i + length l1) l2).
Proof.
  revert i tx. induction l1 as [|o l1 IH]; intros i tx; simpl.
  - by rewrite Nat.add_0_r.
  - destruct (BuildWitness o c tx i); [|done]. rewrite IH. by rewrite Nat.add_succ_r.
Qed.

Lemma add_witnesses_spec c idx l tx tx' :
  add_witnesses c idx l tx = Ok tx' ->
  unsigned tx' = unsigned tx
  /\ (forall j, (j < idx)%nat -> tx_TxIn tx' !! j = tx_TxIn tx !! j)
  /\ forall i o ti, l !! i = Some o -> tx_TxIn tx' !! (idx + i)%nat = Some ti ->
       exists t, unsigned t = unsigned tx /\ BuildWitness o c t (idx + i) = Ok (txi_Witness ti).
Proof.
  revert idx tx. induction l as [|o l IH]; intros idx tx; simpl.
  - intros [= ->]. split; [done|]. split; [done|]. intros i o ti Hi. done.
  - destruct (BuildWitness o c tx idx) as [w|e] eqn:Ew; [|done].
    intros (Hu & Hlow & Hall)%IH. rewrite unsigned_set_tx_witness in Hu.
    split; [done|]. split.
    + intros j Hj. rewrite Hlow by lia. simpl. rewrite list_lookup_alter_ne by lia. done.
    + intros [|i] o' ti Hi Hti.
      * injection Hi as <-. rewrite Nat.add_0_r in *. rewrite Hlow in Hti by lia.
        simpl in Hti. rewrite list_lookup_alter_eq in Hti.
        destruct (tx_TxIn tx !! idx); simplify_eq/=. eauto.
      * replace (idx + S i)%nat with (S idx + i)%nat in * by lia.
        destruct (Hall i o' ti Hi Hti) as (t & Ht & Hw). rewrite unsigned_set_tx_witness in Ht. eauto.
Qed.

Lemma has_dup_NoDup seen l :
  has_dup seen l = false ->
  NoDup (map txi_PreviousOutPoint l) /\ forall o, o ∈ map txi_PreviousOutPoint l -> o ∉ seen.
Proof.
  revert seen. induction l as [|ti l IH]; intros seen; simpl.
  - intros _. split; [constructor|]. intros o Ho. by apply elem_of_nil in Ho.
  - intros [Hn%bool_decide_eq_false_1 [Hd Hs]%IH]%orb_false_iff. split.
    + constructor; [|done]. intros Hin. apply Hs in Hin. set_solver.
    + intros o [->|Ho]%elem_of_cons; [done|]. apply Hs in Ho. set_solver.
Qed.

Lemma sanity_ok tx v s :
  tx_TxOut tx = [mkTxOut v s] -> CheckTransactionSanity tx = Ok tt ->
  tx_TxIn tx <> [] /\ NoDup (map txi_PreviousOutPoint (tx_TxIn tx)) /\ 0 <= v <= MaxSatoshi
  /\ SerializeSizeStripped tx <= MaxBlockBaseSize.
Proof.
  intros Ho. unfold CheckTransactionSanity. rewrite Ho.
  destruct (Nat.eqb_spec (length (tx_TxIn tx)) 0) as [|Hl]; [done|].
  simpl (length _ =? 0)%nat. cbv iota. destruct (Z.ltb_spec MaxBlockBaseSize (SerializeSizeStripped tx)); [done|].
  cbn [res_foldl]. unfold add_output_value. cbn [txo_Value].
  destruct (Z.ltb_spec v 0); [done|]. destruct (Z.ltb_spec MaxSatoshi v); [done|].
  destruct (i64 (0 + v) <? 0); [done|]. destruct (MaxSatoshi <? i64 (0 + v)); [done|].
  destruct (has_dup ∅ (tx_TxIn tx)) eqn:Ed; [done|]. intros _.
  split; [intros E; apply Hl; by rewrite E|]. split; [by destruct (has_dup_NoDup _ _ Ed)|lia].
Qed.

(** The last steps of both builders: check, then sign every input. *)
Lemma sweeps_built ins out lt tx :
  let txn := mkMsgTx 2 (map sweep_in ins) [out] lt in
  CheckTransactionSanity txn = Ok tt -> add_witnesses txn 0 (map fst ins) txn = Ok tx ->
  sweeps ins out lt tx.
Proof.
  intros txn Hs Hw. destruct out as [v s].
  destruct (sanity_ok txn v s eq_refl Hs) as (Hne & Hnd & Hv & Hsz). simpl in Hne, Hnd.
  assert (unsigned txn = txn) as Hu.
  { unfold unsigned, txn. simpl. f_equal. rewrite map_map. done. }
  apply add_witnesses_spec in Hw as (Hu' & _ & Hall). rewrite Hu in Hu', Hall.
  split; [done| | | |done|by rewrite Hu'].
  - intros i o sq ti Hi Hti. rewrite Hu'. apply (Hall i o ti); [|done].
    change (map fst ins) with (fst <$> ins). rewrite list_lookup_fmap, Hi. done.
  - intros ->. done.
  - rewrite map_map in Hnd. done.
Qed.

Lemma NoDup_has_dup seen l :
  NoDup (map txi_PreviousOutPoint l) -> (forall o, o ∈ map txi_PreviousOutPoint l -> o ∉ seen) ->
  has_dup seen l = false.
Proof.
  revert seen. induction l as [|ti l IH]; intros seen Hnd Hs; [done|].
  simpl in *. apply NoDup_cons in Hnd as [Hni Hnd]. apply orb_false_iff. split.
  - apply bool_decide_eq_false_2. apply Hs. by left.
  - apply IH; [done|]. intros o Ho. assert (o ∉ seen) by (apply Hs; by right). set_solver.
Qed.

(** When the sanity rules let a sweep through. *)
Lemma sanity_complete (ins : list (breachedOutput * Z)) v s lt :
  ins <> [] -> NoDup (map (fun o => bo_outpoint o.1) ins) ->
  Forall (fun o => isNullOutpoint (bo_outpoint o.1) = false) ins ->
  0 <= v <= MaxSatoshi ->
  SerializeSizeStripped (mkMsgTx 2 (map sweep_in ins) [mkTxOut v s] lt) <= MaxBlockBaseSize ->
  CheckTransactionSanity (mkMsgTx 2 (map sweep_in ins) [mkTxOut v s] lt) = Ok tt.
Proof.
  intros Hne Hnd Hnull Hv Hsz. unfold CheckTransactionSanity. cbn [tx_TxIn tx_TxOut].
  rewrite (proj2 (Z.ltb_ge _ _) Hsz).
  destruct ins as [|o ins]; [done|]. cbn [length map Nat.eqb].
  cbn [res_foldl]. unfold add_output_value. cbn [txo_Value]. unfold MaxSatoshi in *.
  rewrite i64_id by (unfold is_i64; lia). rewrite !(proj2 (Z.ltb_ge _ _)) by lia.
  change (sweep_in o :: map sweep_in ins) with (map sweep_in (o :: ins)).
  rewrite NoDup_has_dup; [|by rewrite map_map|set_solver].
  assert (existsb (fun ti => isNullOutpoint (txi_PreviousOutPoint ti)) (map sweep_in (o :: ins)) = false) as En.
  { apply not_true_is_false. intros (ti & Hti & Hnu)%existsb_exists.
    apply in_map_iff in Hti as (o' & <- & Ho'). rewrite Forall_forall in Hnull.
    specialize (Hnull o' (proj2 (list_elem_of_In _ _) Ho')). simpl in Hnu. congruence. }
  rewrite En. replace (IsCoinBaseTx _) with false; [done|]. symmetry.
  unfold IsCoinBaseTx. cbn [tx_TxIn map]. apply Forall_cons in Hnull as [Ho _]. by destruct (map sweep_in ins).
Qed.

Lemma add_witnesses_total c idx l tx :
  Forall (fun o => forall t i, exists w, BuildWitness o c t i = Ok w) l ->
  exists tx', add_witnesses c idx l tx = Ok tx'.
Proof.
  revert idx tx. induction l as [|o l IH]; intros idx tx Hl; [by eexists|].
  apply Forall_cons in Hl as [Ho Hl]. simpl. destruct (Ho tx idx) as [w ->]. by apply IH.
Qed.

Lemma sum_amounts_exact total l :
  0 <= total -> Forall (fun o => 0 <= bo_amt o) l -> total + sum_Z (map bo_amt l) < 2 ^ 63 ->
  sum_amounts total l = total + sum_Z (map bo_amt l).
Proof.
  revert total. induction l as [|o l IH]; intros total Ht Hl Hs; [simpl; lia|].
  apply Forall_cons in Hl as [Ho Hl]. unfold sum_amounts in *. cbn [map sum_Z foldr] in *.
  assert (0 <= sum_Z (map bo_amt l)).
  { clear -Hl. induction Hl; simpl; [lia|]. cbn. unfold sum_Z in *. lia. }
  unfold sum_Z in *. cbn [foldl]. rewrite i64_id by (unfold is_i64; lia).
  rewrite IH; [lia|lia|done|lia].
Qed.

Lemma sum_amounts_app t l1 l2 : sum_amounts t (l1 ++ l2) = sum_amounts (sum_amounts t l1) l2.
Proof. apply foldl_app. Qed.

Lemma sum_Z_app l1 l2 : sum_Z (l1 ++ l2) = sum_Z l1 + sum_Z l2.
Proof. induction l1; simpl; [done|]. unfold sum_Z in *. simpl. lia. Qed.

Lemma sum_sweep_in ins : sum_Z (map TxIn_SerializeSize (map sweep_in ins)) = 41 * Z.of_nat (length ins).
Proof.
  induction ins as [|o ins IH]; [done|]. unfold sum_Z in *. cbn [map foldr length]. rewrite IH.
  change (TxIn_SerializeSize (sweep_in o)) with 41. lia.
Qed.

Lemma VarIntSerializeSize_bound n : 1 <= VarIntSerializeSize n <= 9.
Proof. unfold VarIntSerializeSize. repeat case_match; lia. Qed.

(** Two compact sizes of at most nine bytes, and one for the count of outputs. *)
Lemma stripped_bound ins v script lt m :
  41 * Z.of_nat (length ins) + Z.of_nat (length script) + 35 <= m ->
  SerializeSizeStripped (mkMsgTx 2 (map sweep_in ins) [mkTxOut v script] lt) <= m.
Proof.
  intros H. unfold SerializeSizeStripped. cbn [tx_TxIn tx_TxOut]. rewrite sum_sweep_in.
  unfold sum_Z. cbn [map foldr length]. unfold TxOut_SerializeSize. cbn [txo_PkScript].
  change (VarIntSerializeSize (Z.of_nat 1)) with 1. rewrite length_map.
  pose proof (VarIntSerializeSize_bound (Z.of_nat (length ins))).
  pose proof (VarIntSerializeSize_bound (Z.of_nat (length script))). lia.
Qed.

(** The estimate of a transaction with one P2WKH output and the given witness
    sizes. *)
Definition estimate (sizes : list Z) : TxWeightEstimator :=
  foldl AddWitnessInput (AddP2WKHOutput empty_estimate) sizes.

Lemma estimate_fields t sizes :
  sizes <> [] ->
  foldl AddWitnessInput t sizes =
  mkTxWeightEstimator true (twe_inputCount t + Z.of_nat (length sizes)) (twe_outputCount t)
    (twe_inputSize t + InputSize * Z.of_nat (length sizes))
    (twe_inputWitnessSize t + sum_Z sizes) (twe_outputSize t).
Proof.
  intros Hne. destruct sizes as [|w sizes]; [done|]. clear Hne. revert t w.
  induction sizes as [|w' sizes IH]; intros t w.
  - unfold sum_Z. simpl. unfold AddWitnessInput. f_equal; lia.
  - change (foldl AddWitnessInput t (w :: w' :: sizes))
      with (foldl AddWitnessInput (AddWitnessInput t w) (w' :: sizes)).
    rewrite IH. unfold sum_Z. cbn [twe_inputCount twe_outputCount twe_inputSize twe_inputWitnessSize
      twe_outputSize AddWitnessInput length foldr]. f_equal; lia.
Qed.

(** The estimated weight is the weight of the transaction that is built (when its
    output is a P2WKH one) with the witnesses at their estimated sizes. *)
Lemma Weight_estimate ins sizes v script lt :
  sizes <> [] -> length ins = length sizes -> length script = 22%nat ->
  Weight (estimate sizes)
  = 4 * SerializeSizeStripped (mkMsgTx 2 (map sweep_in ins) [mkTxOut v script] lt)
    + WitnessHeaderSize + sum_Z sizes.
Proof.
  intros Hne Hlen Hs. unfold estimate. rewrite estimate_fields by done.
  unfold Weight, SerializeSizeStripped. cbn [twe_inputCount twe_outputCount twe_inputSize
    twe_inputWitnessSize twe_outputSize twe_hasWitness AddP2WKHOutput empty_estimate tx_TxIn tx_TxOut
    map sum_Z foldr TxOut_SerializeSize txo_PkScript length].
  pose proof (sum_sweep_in ins) as E.
  unfold sum_Z at 1 in E. rewrite E. unfold TxOut_SerializeSize. cbn [txo_PkScript]. rewrite Hs, length_map, Hlen.
  change (VarIntSerializeSize (Z.of_nat 22)) with 1. change (VarIntSerializeSize (0 + 1)) with 1.
  change (VarIntSerializeSize (Z.of_nat 1)) with 1.
  unfold BaseTxSize, InputSize, P2WKHOutputSize, witnessScaleFactor, WitnessHeaderSize.
  rewrite Z.add_0_l. lia.
Qed.

(** ** Storing a sweep *)

(** What the network lets a witness be: few stack elements, each within the
    consensus limit of 520 bytes. *)
Class StandardSigner : Prop := witness_standard wt sd c t i w :
  GenWitnessFunc wt sd c t i = Ok w -> (length w <= 8)%nat /\ Forall (fun x : bytes => (length x <= 520)%nat) w.

Lemma length_WriteVarInt v : (length (WriteVarInt v) <= 9)%nat.
Proof. unfold WriteVarInt. repeat case_match; rewrite ?length_app, !put_le_length; lia. Qed.

Lemma length_concat_bound {A} (f : A -> bytes) l n :
  Forall (fun a => (length (f a) <= n)%nat) l -> (length (concat (map f l)) <= length l * n)%nat.
Proof. induction 1; simpl; [lia|]. rewrite length_app. lia. Qed.

(** An input of a sweep is one of the outputs it spends, with a standard witness. *)
Lemma sweeps_input {SS : StandardSigner} ins out lt tx i ti :
  sweeps ins out lt tx -> tx_TxIn tx !! i = Some ti ->
  exists o, ins !! i = Some o /\ txi_PreviousOutPoint ti = bo_outpoint o.1 /\ txi_SignatureScript ti = []
    /\ txi_Sequence ti = o.2 /\ (length (txi_Witness ti) <= 8)%nat
    /\ Forall (fun x : bytes => (length x <= 520)%nat) (txi_Witness ti).
Proof.
  intros Hs Hi. pose proof (f_equal tx_TxIn (sw_unsigned _ _ _ _ Hs)) as E. simpl in E.
  apply (f_equal (lookup i)) in E. change (map ?f) with (fmap (M := list) f) in E.
  rewrite !list_lookup_fmap, Hi in E. destruct (ins !! i) as [[o sq]|] eqn:Ei; simplify_eq/=.
  exists (o, sq). destruct (sw_signed _ _ _ _ Hs _ _ _ _ Ei Hi) as (t & _ & Hw).
  apply witness_standard in Hw.
  unfold set_witness, sweep_in in E. injection E as E1 E2 E3. by destruct Hw.
Qed.

Lemma sweeps_length ins out lt tx : sweeps ins out lt tx -> length (tx_TxIn tx) = length ins.
Proof.
  intros Hs. pose proof (f_equal (fun t => length (tx_TxIn t)) (sw_unsigned _ _ _ _ Hs)) as E.
  simpl in E. by rewrite !length_map in E.
Qed.

Lemma sweeps_small ins out lt tx :
  sweeps ins out lt tx ->
  41 * Z.of_nat (length ins) <= MaxBlockBaseSize
  /\ Z.of_nat (length (txo_PkScript out)) <= MaxBlockBaseSize.
Proof.
  intros Hs. pose proof (sw_size _ _ _ _ Hs) as H. rewrite (sw_unsigned _ _ _ _ Hs) in H.
  unfold SerializeSizeStripped in H. cbn [tx_TxIn tx_TxOut] in H. rewrite sum_sweep_in in H.
  unfold sum_Z in H. cbn [map foldr length] in H. unfold TxOut_SerializeSize in H.
  pose proof (VarIntSerializeSize_bound (Z.of_nat (length (map sweep_in ins)))).
  pose proof (VarIntSerializeSize_bound (Z.of_nat 1)).
  pose proof (VarIntSerializeSize_bound (Z.of_nat (length (txo_PkScript out)))). lia.
Qed.

(** A sweep of stored outputs can itself be stored and read back. *)
Lemma sweeps_storable {SS : StandardSigner} ins out lt tx :
  sweeps ins out lt tx -> Forall (fun o => OutPoint_ok (bo_outpoint o.1) /\ is_u32 o.2) ins -> is_u32 lt ->
  MsgTx_ok tx /\ Z.of_nat (length (Serialize tx)) <= 2 ^ 31 - 2.
Proof.
  intros Hs Hins Hlt. pose proof (sweeps_length _ _ _ _ Hs) as Hlen.
  destruct (sweeps_small _ _ _ _ Hs) as [Hn Hscr]. unfold MaxBlockBaseSize in *.
  assert (tx_Version tx = 2 /\ tx_TxOut tx = [out] /\ tx_LockTime tx = lt) as (Ev & Eo & El).
  { pose proof (sw_unsigned _ _ _ _ Hs) as E. unfold unsigned in E. by simplify_eq. }
  pose proof (sw_value _ _ _ _ Hs) as Hv. unfold MaxSatoshi in Hv.
  assert (Forall (fun ti => TxIn_ok ti /\ length (txi_SignatureScript ti) = 0%nat
    /\ (length (txi_Witness ti) <= 8)%nat /\ Forall (fun x : bytes => (length x <= 520)%nat) (txi_Witness ti))
    (tx_TxIn tx)) as Hall.
  { apply Forall_lookup. intros i ti Hi.
    destruct (sweeps_input _ _ _ _ _ _ Hs Hi) as (o & Ho & Hp & Hss & Hsq & Hw & Hws).
    rewrite Forall_lookup in Hins. destruct (Hins _ _ Ho) as [Hop Hu].
    split; [|by rewrite Hss]. unfold TxIn_ok. rewrite Hp, Hss, Hsq.
    unfold maxWitnessItemsPerInput, maxWitnessItemSize, MaxMessagePayload. simpl length.
    split; [done|]. split; [lia|]. split; [lia|]. split; [|done].
    eapply Forall_impl; [exact Hws|]. intros x Hx. cbv beta in Hx. lia. }
  split.
  - unfold MsgTx_ok. rewrite Ev, Eo, El, Hlen.
    change maxTxInPerMessage with 818401. change maxTxOutPerMessage with 3728271.
    split; [unfold is_i32; lia|]. split.
    { intros E. apply (sw_nonempty _ _ _ _ Hs), length_zero_iff_nil. by rewrite <- Hlen, E. }
    split; [lia|]. split; [eapply Forall_impl; [exact Hall|]; by intros ? []|].
    split; [simpl; lia|]. split; [|done]. repeat constructor; unfold is_i64, MaxMessagePayload; lia.
  - unfold Serialize. rewrite !length_app, !put_le_length. rewrite Eo. cbn [map concat].
    pose proof (length_WriteVarInt (Z.of_nat (length (tx_TxIn tx)))).
    pose proof (length_WriteVarInt (Z.of_nat (length [out]))).
    assert (length (concat (map writeTxIn (tx_TxIn tx))) <= length (tx_TxIn tx) * 60)%nat.
    { apply length_concat_bound. eapply Forall_impl; [exact Hall|]. intros ti ([[Hh _] _] & Hss & _).
      unfold writeTxIn, WriteVarBytes. rewrite !length_app, !put_le_length, Hh, Hss.
      pose proof (length_WriteVarInt (Z.of_nat 0)). lia. }
    assert (length (concat (map (fun ti => writeTxWitness (txi_Witness ti)) (tx_TxIn tx)))
            <= length (tx_TxIn tx) * 5000)%nat.
    { apply length_concat_bound. eapply Forall_impl; [exact Hall|]. intros ti (_ & _ & Hw & Hws).
      unfold writeTxWitness. rewrite length_app.
      pose proof (length_WriteVarInt (Z.of_nat (length (txi_Witness ti)))).
      assert (length (concat (map WriteVarBytes (txi_Witness ti))) <= length (txi_Witness ti) * 530)%nat.
      { apply length_concat_bound. eapply Forall_impl; [exact Hws|]. intros x Hx. cbv beta in Hx. unfold WriteVarBytes.
        rewrite length_app. pose proof (length_WriteVarInt (Z.of_nat (length x))). lia. }
      lia. }
    unfold WireWriteTxOut, WriteVarBytes. rewrite !length_app, put_le_length. simpl (length []). 
    pose proof (length_WriteVarInt (Z.of_nat (length (txo_PkScript out)))).
    destruct (HasWitness tx); simpl length; lia.
Qed.

End Sweep.
