(* ===== verification/Nursery.v ===== *)
(** * The utxo nursery

    The state machine of utxonursery.go on top of the nursery store: incubation
    requests, the graduation of the outputs of a height when its block arrives,
    sweep transactions, the goroutines that wait for confirmations, restarts and
    reports.

    Outputs handed to a goroutine are passed by pointer, so the nursery has a
    heap of kid and of baby outputs and a pointer is an index into it; a [for]
    loop whose variable is captured writes every element to the same cell.  A
    goroutine waiting for a confirmation is a [waiter]; what it does once the
    notification arrives is the definition named after its function.  Methods
    take the nursery's mutex, so each of them is one step.  [u_published] records
    every transaction handed to [PublishTransaction]. *)

From Stdlib Require Import ZArith Lia.
From Stdlib Require Import Init.Byte.
From stdpp Require Import base gmap countable strings numbers list.
From S2P Require Import Prelude Stream Tx Outputs Bolt NurseryStore Effects Sweep.
Local Open Scope Z_scope.

(** [channeldb] and the configuration, as the nursery uses them. *)
Class NurseryEnv {BTC : Btcec} {CE : ChainEnv} := {
  ConfDepth : Z;
  RegisterBlockEpochNtfn : ST Env ();
  FetchClosedChannels : ST Env (list OutPoint);
  FetchClosedChannel : OutPoint -> ST Env Z;
  (** A [wire.OutPoint] is a 32-byte hash and a uint32. *)
  FetchClosedChannels_ok e l e' : FetchClosedChannels e = (Ok l, e') -> Forall OutPoint_ok l
}.

Section Nursery.
Context {BTC : Btcec} {CE : ChainEnv} {NE : NurseryEnv} (ns : nurseryStore).

(** ** Data *)

Record CommitOutputResolution := mkCommitOutputResolution {
  cor_SelfOutPoint : OutPoint;
  cor_SelfOutputSignDesc : SignDescriptor;
  cor_MaturityDelay : Z
}.

Record IncomingHtlcResolution := mkIncomingHtlcResolution {
  ihr_CsvDelay : Z;
  ihr_ClaimOutpoint : OutPoint;
  ihr_SweepSignDesc : SignDescriptor
}.

Inductive waiter :=
| WPreschool (kid : nat) (txID : bytes) (heightHint : Z)
| WTimeout (baby : nat) (txID : bytes) (heightHint : Z)
| WSweep (classHeight : Z) (kgtnOutputs : list kidOutput) (txID : bytes).

#[global] Instance waiter_eq_dec : EqDecision waiter.
Proof. solve_decision. Defined.

Record utxoNursery := mkUtxoNursery {
  u_db : bucket;
  u_env : Env;
  u_bestHeight : Z;
  u_kids : list kidOutput;
  u_babies : list babyOutput;
  u_waiters : list waiter;
  u_published : list MsgTx
}.

Definition set_db (db : bucket) (u : utxoNursery) : utxoNursery :=
  mkUtxoNursery db (u_env u) (u_bestHeight u) (u_kids u) (u_babies u) (u_waiters u) (u_published u).
Definition set_env (e : Env) (u : utxoNursery) : utxoNursery :=
  mkUtxoNursery (u_db u) e (u_bestHeight u) (u_kids u) (u_babies u) (u_waiters u) (u_published u).
Definition set_bestHeight (h : Z) (u : utxoNursery) : utxoNursery :=
  mkUtxoNursery (u_db u) (u_env u) h (u_kids u) (u_babies u) (u_waiters u) (u_published u).
Definition set_kids (l : list kidOutput) (u : utxoNursery) : utxoNursery :=
  mkUtxoNursery (u_db u) (u_env u) (u_bestHeight u) l (u_babies u) (u_waiters u) (u_published u).
Definition set_babies (l : list babyOutput) (u : utxoNursery) : utxoNursery :=
  mkUtxoNursery (u_db u) (u_env u) (u_bestHeight u) (u_kids u) l (u_waiters u) (u_published u).
Definition add_waiter (w : waiter) (u : utxoNursery) : utxoNursery :=
  mkUtxoNursery (u_db u) (u_env u) (u_bestHeight u) (u_kids u) (u_babies u) (u_waiters u ++ [w]) (u_published u).
Definition log_published (tx : MsgTx) (u : utxoNursery) : utxoNursery :=
  mkUtxoNursery (u_db u) (u_env u) (u_bestHeight u) (u_kids u) (u_babies u) (u_waiters u) (u_published u ++ [tx]).

Definition NU : Type -> Type := ST utxoNursery.

(** A transaction of the store, a query of it, and a call to the outside. *)
Definition store {A} (f : bucket -> res A * bucket) : NU A := st_zoom u_db set_db f.
Definition query {A} (f : bucket -> res A) : NU A := fun u => (f (u_db u), u).
Definition env {A} (m : ST Env A) : NU A := st_zoom u_env set_env m.

Definition publish (tx : MsgTx) : NU () :=
  _ ← st_upd (log_published tx); env (PublishTransaction tx).

(** The heap: [&x] of a new variable, a write and a read through a pointer. *)
Definition new_kid (k : kidOutput) : NU nat := fun u =>
  (Ok (length (u_kids u)), set_kids (u_kids u ++ [k]) u).
Definition new_baby (b : babyOutput) : NU nat := fun u =>
  (Ok (length (u_babies u)), set_babies (u_babies u ++ [b]) u).
Definition write_kid (p : nat) (k : kidOutput) : NU () := st_upd (fun u => set_kids (<[p := k]> (u_kids u)) u).
Definition write_baby (p : nat) (b : babyOutput) : NU () :=
  st_upd (fun u => set_babies (<[p := b]> (u_babies u)) u).
Definition read_kid (p : nat) : NU kidOutput := fun u =>
  match u_kids u !! p with
  | Some k => (Ok k, u) | None => (Err (ErrPanic "nil pointer dereference"), u) end.
Definition read_baby (p : nat) : NU babyOutput := fun u =>
  match u_babies u !! p with
  | Some b => (Ok b, u) | None => (Err (ErrPanic "nil pointer dereference"), u) end.

(** ** Confirmations *)

Definition registerPreschoolConf (kid : nat) (heightHint : Z) : NU () :=
  k ← read_kid kid;
  let txID := op_Hash (kid_OutPoint k) in
  _ ← env (RegisterConfirmationsNtfn txID ConfDepth heightHint);
  st_upd (add_waiter (WPreschool kid txID heightHint)).

Definition registerTimeoutConf (baby : nat) (heightHint : Z) : NU () :=
  b ← read_baby baby;
  let birthTxID := TxHash (baby_timeoutTx b) in
  _ ← env (RegisterConfirmationsNtfn birthTxID ConfDepth heightHint);
  st_upd (add_waiter (WTimeout baby birthTxID heightHint)).

Definition registerSweepConf (finalTx : MsgTx) (kgtnOutputs : list kidOutput) (heightHint : Z) : NU () :=
  let finalTxID := TxHash finalTx in
  _ ← env (RegisterConfirmationsNtfn finalTxID ConfDepth heightHint);
  st_upd (add_waiter (WSweep heightHint kgtnOutputs finalTxID)).

(** The goroutines.  [conf] is what the notification channel delivers: the height
    of the confirming block, or [None] when it was closed or the nursery quit.  An
    error of the store is logged and dropped. *)
Definition waitForPreschoolConf (kid : nat) (conf : option Z) : NU () :=
  match conf with
  | None => mret tt
  | Some blockHeight =>
      k ← read_kid kid;
      _ ← write_kid kid (SetConfHeight blockHeight k);
      k ← read_kid kid;
      _ ← st_try (store (PreschoolToKinder ns k));
      mret tt
  end.

Definition waitForTimeoutConf (baby : nat) (conf : option Z) : NU () :=
  match conf with
  | None => mret tt
  | Some blockHeight =>
      b ← read_baby baby;
      _ ← write_baby baby (baby_SetConfHeight blockHeight b);
      b ← read_baby baby;
      _ ← st_try (store (CribToKinder ns b));
      mret tt
  end.

Definition closeAndRemoveIfMature (chanPoint : OutPoint) : NU () :=
  isMature ← st_try (query (IsMatureChannel ns chanPoint));
  match isMature with
  | Err e => if decide (e = ErrContractNotFound) then mret tt else st_fail e
  | Ok false => mret tt
  | Ok true => store (RemoveChannel ns chanPoint)
  end.

(** [closes] lists the keys of the [possibleCloses] map in the order in which Go
    happens to iterate over it. *)
Definition waitForSweepConf (classHeight : Z) (closes : list OutPoint) (conf : option Z) : NU () :=
  match conf with
  | None => mret tt
  | Some _ =>
      err ← st_try (store (GraduateKinder ns classHeight));
      match err with
      | Err _ => mret tt
      | Ok _ => _ ← st_try (st_iter closeAndRemoveIfMature closes); mret tt
      end
  end.

Definition possibleCloses (kgtnOutputs : list kidOutput) : list OutPoint :=
  remove_dups (map kid_originChanPoint kgtnOutputs).

(** ** Sweeping *)

Definition sweepCribOutput (classHeight : Z) (baby : nat) : NU () :=
  b ← read_baby baby;
  _ ← publish (baby_timeoutTx b);
  registerTimeoutConf baby classHeight.

Definition sweepMatureOutputs (classHeight : Z) (finalTx : MsgTx) (kgtnOutputs : list kidOutput) : NU () :=
  _ ← publish finalTx;
  registerSweepConf finalTx kgtnOutputs classHeight.

Definition populateSweepTx (txVSize classHeight : Z) (csvInputs cltvInputs : list kidOutput) : ST Env MsgTx :=
  pkScript ← GenSweepScript;
  let totalSum := sum_amounts (sum_amounts 0 (map kid_breachedOutput csvInputs))
                              (map kid_breachedOutput cltvInputs) in
  feePerVSize ← EstimateFeePerVSize 6;
  let txFee := FeeForVSize feePerVSize txVSize in
  let sweepAmt := i64 (totalSum - txFee) in
  let sweepTx := AddTxOut (mkTxOut sweepAmt pkScript) (NewMsgTx 2) in
  let sweepTx := match cltvInputs with [] => sweepTx | _ => set_LockTime classHeight sweepTx end in
  let sweepTx := foldl (fun tx input =>
        AddTxIn (mkTxIn (kid_OutPoint input) [] [] (kid_blocksToMaturity input)) tx) sweepTx csvInputs in
  let sweepTx := foldl (fun tx input => AddTxIn (mkTxIn (kid_OutPoint input) [] [] 0) tx) sweepTx cltvInputs in
  _ ← st_res (CheckTransactionSanity sweepTx);
  let hashCache := sweepTx in
  sweepTx ← st_res (add_witnesses hashCache 0 (map kid_breachedOutput csvInputs) sweepTx);
  let offset := length csvInputs in
  st_res (add_witnesses hashCache offset (map kid_breachedOutput cltvInputs) sweepTx).

Definition sort_output (acc : list kidOutput * list kidOutput * TxWeightEstimator) (input : kidOutput)
    : list kidOutput * list kidOutput * TxWeightEstimator :=
  let '(csvOutputs, cltvOutputs, weightEstimate) := acc in
  let wt := kid_WitnessType input in
  if wt =? CommitmentTimeLock then
    (csvOutputs ++ [input], cltvOutputs, AddWitnessInput weightEstimate ToLocalTimeoutWitnessSize)
  else if wt =? HtlcOfferedTimeoutSecondLevel then
    (csvOutputs ++ [input], cltvOutputs, AddWitnessInput weightEstimate SecondLevelHtlcSuccessWitnessSize)
  else if wt =? HtlcAcceptedSuccessSecondLevel then
    (csvOutputs ++ [input], cltvOutputs, AddWitnessInput weightEstimate SecondLevelHtlcSuccessWitnessSize)
  else if wt =? HtlcOfferedRemoteTimeout then
    (csvOutputs, cltvOutputs ++ [input], AddWitnessInput weightEstimate AcceptedHtlcTimeoutWitnessSize)
  else acc.

Definition createSweepTx (kgtnOutputs : list kidOutput) (classHeight : Z) : ST Env MsgTx :=
  let '(csvOutputs, cltvOutputs, weightEstimate) :=
    foldl sort_output ([], [], AddP2WKHOutput empty_estimate) kgtnOutputs in
  let txVSize := VSize weightEstimate in
  populateSweepTx txVSize classHeight csvOutputs cltvOutputs.

(** [for i := range cribOutputs { sweepCribOutput(h, &cribOutputs[i]) }]: every
    element of the slice has an address of its own. *)
Definition sweepCribOutputs (classHeight : Z) (cribOutputs : list babyOutput) : NU () :=
  st_iter (fun b => p ← new_baby b; sweepCribOutput classHeight p) cribOutputs.

Definition graduateClass (classHeight : Z) : NU () :=
  _ ← st_upd (set_bestHeight classHeight);
  r ← query (FetchClass ns classHeight);
  let '(finalTx, kgtnOutputs, cribOutputs) := r in
  lastFinalizedHeight ← query (LastFinalizedHeight ns);
  finalTx ←
    (if lastFinalizedHeight <? classHeight then
       finalTx ← (match kgtnOutputs with
                  | [] => mret finalTx
                  | _ => tx ← env (createSweepTx kgtnOutputs classHeight); mret (Some tx)
                  end);
       _ ← store (FinalizeKinder ns classHeight finalTx);
       mret finalTx
     else mret finalTx : NU (option MsgTx));
  _ ← (match finalTx with
       | None => mret tt
       | Some tx => sweepMatureOutputs classHeight tx kgtnOutputs
       end);
  _ ← sweepCribOutputs classHeight cribOutputs;
  store (GraduateHeight ns classHeight).

(** ** Restart *)

Definition reloadPreschool : NU () :=
  psclOutputs ← query (FetchPreschools ns);
  st_iter (fun k =>
    kid ← new_kid k;
    closeHeight ← st_try (env (FetchClosedChannel (kid_originChanPoint k)));
    match closeHeight with
    | Err e => if decide (e = ErrClosedChannelNotFound) then mret tt else st_fail e
    | Ok closeHeight =>
        let heightHint := u32 (closeHeight - ConfDepth) in
        registerPreschoolConf kid heightHint
    end) psclOutputs.

Definition regraduateClass (classHeight : Z) : NU () :=
  r ← query (FetchClass ns classHeight);
  let '(finalTx, kgtnOutputs, cribOutputs) := r in
  _ ← (match finalTx with
       | None => mret tt
       | Some tx => registerSweepConf tx kgtnOutputs classHeight
       end);
  sweepCribOutputs classHeight cribOutputs.

(** The counter of the catch-up loop is a uint32; the best height comes from an
    int32, so it stops before the counter could wrap. *)
Definition reloadClasses (lastGradHeight : Z) : NU () :=
  activeHeights ← query (HeightsBelowOrEqual ns lastGradHeight);
  _ ← st_iter regraduateClass activeHeights;
  bestHeight ← env GetBestBlock;
  let best := u32 bestHeight in
  if (lastGradHeight =? 0) || (best =? lastGradHeight) then mret tt
  else
    let first := u32 (lastGradHeight + 1) in
    st_iter graduateClass (seqZ first (best - first + 1)).

Definition Start : NU () :=
  _ ← env RegisterBlockEpochNtfn;
  pendingCloseChans ← env FetchClosedChannels;
  _ ← st_iter closeAndRemoveIfMature pendingCloseChans;
  lastGraduatedHeight ← query (LastGraduatedHeight ns);
  _ ← reloadPreschool;
  reloadClasses lastGraduatedHeight.

(** ** Incubation *)

Definition kid_of_commit (chanPoint : OutPoint) (c : CommitOutputResolution) : kidOutput :=
  makeKidOutput (cor_SelfOutPoint c) chanPoint (cor_MaturityDelay c) CommitmentTimeLock
    (cor_SelfOutputSignDesc c) 0.

Definition kid_of_incoming (chanPoint : OutPoint) (h : IncomingHtlcResolution) : kidOutput :=
  makeKidOutput (ihr_ClaimOutpoint h) chanPoint (ihr_CsvDelay h) HtlcAcceptedSuccessSecondLevel
    (ihr_SweepSignDesc h) 0.

Definition kid_of_outgoing (chanPoint : OutPoint) (h : OutgoingHtlcResolution) : kidOutput :=
  makeKidOutput (ohr_ClaimOutpoint h) chanPoint 0 HtlcOfferedRemoteTimeout
    (ohr_SweepSignDesc h) (ohr_Expiry h).

(** The outputs an incubation request is made of, in the order in which they are
    appended. *)
Definition build_outputs (chanPoint : OutPoint) (commitResolution : option CommitOutputResolution)
    (outgoingHtlcs : list OutgoingHtlcResolution) (incomingHtlcs : list IncomingHtlcResolution)
    : list kidOutput * list babyOutput :=
  let kidOutputs := match commitResolution with
    | None => []
    | Some c =>
        let selfOutput := kid_of_commit chanPoint c in
        if 0 <? kid_Amount selfOutput then [selfOutput] else []
    end in
  let kidOutputs := foldl (fun kids htlcRes =>
    let htlcOutput := kid_of_incoming chanPoint htlcRes in
    if 0 <? kid_Amount htlcOutput then kids ++ [htlcOutput] else kids) kidOutputs incomingHtlcs in
  foldl (fun acc htlcRes =>
    let '(kids, babies) := acc in
    match ohr_SignedTimeoutTx htlcRes with
    | Some timeoutTx =>
        let htlcOutput := makeBabyOutput chanPoint htlcRes timeoutTx in
        if 0 <? baby_Amount htlcOutput then (kids, babies ++ [htlcOutput])
        else (kids, babies)
    | None => (kids ++ [kid_of_outgoing chanPoint htlcRes], babies)
    end) (kidOutputs, []) outgoingHtlcs.

(** The two loops at the end capture their loop variable: the address passed on is
    the same in every iteration. *)
Definition sweepExpiredBabies (bestHeight : Z) (babyOutputs : list babyOutput) : NU () :=
  match babyOutputs with
  | [] => mret tt
  | b0 :: _ =>
      babyOutput ← new_baby b0;
      st_iter (fun b =>
        _ ← write_baby babyOutput b;
        if baby_expiry b <=? u32 bestHeight then sweepCribOutput (u32 bestHeight) babyOutput
        else mret tt) babyOutputs
  end.

Definition registerPreschools (kidOutputs : list kidOutput) : NU () :=
  match kidOutputs with
  | [] => mret tt
  | k0 :: _ =>
      kidOutput ← new_kid k0;
      st_iter (fun k =>
        _ ← write_kid kidOutput k;
        u ← st_get;
        registerPreschoolConf kidOutput (u_bestHeight u)) kidOutputs
  end.

Definition IncubateOutputs (chanPoint : OutPoint) (commitResolution : option CommitOutputResolution)
    (outgoingHtlcs : list OutgoingHtlcResolution) (incomingHtlcs : list IncomingHtlcResolution) : NU () :=
  let '(kidOutputs, babyOutputs) := build_outputs chanPoint commitResolution outgoingHtlcs incomingHtlcs in
  _ ← store (Incubate ns kidOutputs babyOutputs);
  bestHeight ← env GetBestBlock;
  _ ← sweepExpiredBabies bestHeight babyOutputs;
  registerPreschools kidOutputs.

(** ** Reports *)

Record htlcMaturityReport := mkHtlcMaturityReport {
  hmr_outpoint : OutPoint;
  hmr_amount : Z;
  hmr_confHeight : Z;
  hmr_maturityRequirement : Z;
  hmr_maturityHeight : Z;
  hmr_stage : Z
}.

Record contractMaturityReport := mkContractMaturityReport {
  cmr_chanPoint : OutPoint;
  cmr_limboBalance : Z;
  cmr_recoveredBalance : Z;
  cmr_localAmount : Z;
  cmr_confHeight : Z;
  cmr_maturityRequirement : Z;
  cmr_maturityHeight : Z;
  cmr_htlcs : list htlcMaturityReport
}.

#[global] Instance htlcMaturityReport_eq_dec : EqDecision htlcMaturityReport.
Proof. solve_decision. Defined.
#[global] Instance contractMaturityReport_eq_dec : EqDecision contractMaturityReport.
Proof. solve_decision. Defined.

Definition AddLimboCommitment (kid : kidOutput) (c : contractMaturityReport) : contractMaturityReport :=
  mkContractMaturityReport (cmr_chanPoint c) (i64 (cmr_limboBalance c + kid_Amount kid))
    (cmr_recoveredBalance c) (i64 (cmr_localAmount c + kid_Amount kid)) (kid_confHeight kid)
    (kid_blocksToMaturity kid)
    (if kid_confHeight kid =? 0 then cmr_maturityHeight c
     else u32 (kid_blocksToMaturity kid + kid_confHeight kid))
    (cmr_htlcs c).

Definition AddRecoveredCommitment (kid : kidOutput) (c : contractMaturityReport) : contractMaturityReport :=
  mkContractMaturityReport (cmr_chanPoint c) (cmr_limboBalance c)
    (i64 (cmr_recoveredBalance c + kid_Amount kid)) (i64 (cmr_localAmount c + kid_Amount kid))
    (kid_confHeight kid) (kid_blocksToMaturity kid)
    (u32 (kid_blocksToMaturity kid + kid_confHeight kid)) (cmr_htlcs c).

(** The parts the four limbo and the recovered HTLC methods share. *)
Definition add_limbo_htlc (amount : Z) (h : htlcMaturityReport) (c : contractMaturityReport) : contractMaturityReport :=
  mkContractMaturityReport (cmr_chanPoint c) (i64 (cmr_limboBalance c + amount)) (cmr_recoveredBalance c)
    (cmr_localAmount c) (cmr_confHeight c) (cmr_maturityRequirement c) (cmr_maturityHeight c)
    (cmr_htlcs c ++ [h]).

Definition AddLimboStage1TimeoutHtlc (baby : babyOutput) (c : contractMaturityReport) : contractMaturityReport :=
  add_limbo_htlc (baby_Amount baby)
    (mkHtlcMaturityReport (baby_OutPoint baby) (baby_Amount baby) (kid_confHeight (baby_kidOutput baby))
       0 (baby_expiry baby) 1) c.

Definition AddLimboDirectHtlc (kid : kidOutput) (c : contractMaturityReport) : contractMaturityReport :=
  add_limbo_htlc (kid_Amount kid)
    (mkHtlcMaturityReport (kid_OutPoint kid) (kid_Amount kid) (kid_confHeight kid) 0
       (kid_absoluteMaturity kid) 2) c.

Definition AddLimboStage1SuccessHtlc (kid : kidOutput) (c : contractMaturityReport) : contractMaturityReport :=
  add_limbo_htlc (kid_Amount kid)
    (mkHtlcMaturityReport (kid_OutPoint kid) (kid_Amount kid) (kid_confHeight kid)
       (kid_blocksToMaturity kid) 0 1) c.

Definition AddLimboStage2Htlc (kid : kidOutput) (c : contractMaturityReport) : contractMaturityReport :=
  add_limbo_htlc (kid_Amount kid)
    (mkHtlcMaturityReport (kid_OutPoint kid) (kid_Amount kid) (kid_confHeight kid)
       (kid_blocksToMaturity kid)
       (if kid_confHeight kid =? 0 then 0 else u32 (kid_confHeight kid + kid_blocksToMaturity kid)) 2) c.

Definition AddRecoveredHtlc (kid : kidOutput) (c : contractMaturityReport) : contractMaturityReport :=
  mkContractMaturityReport (cmr_chanPoint c) (cmr_limboBalance c)
    (i64 (cmr_recoveredBalance c + kid_Amount kid)) (cmr_localAmount c) (cmr_confHeight c)
    (cmr_maturityRequirement c) (cmr_maturityHeight c)
    (cmr_htlcs c ++ [mkHtlcMaturityReport (kid_OutPoint kid) (kid_Amount kid) (kid_confHeight kid)
       (kid_blocksToMaturity kid) (u32 (kid_confHeight kid + kid_blocksToMaturity kid)) 0]).

Definition report_kid (k : bytes) (kid : kidOutput) (report : contractMaturityReport) : contractMaturityReport :=
  let wt := kid_WitnessType kid in
  if has_prefix psclPrefix k then
    if wt =? CommitmentTimeLock then AddLimboCommitment kid report
    else if wt =? HtlcAcceptedSuccessSecondLevel then AddLimboStage1SuccessHtlc kid report
    else report
  else if has_prefix kndrPrefix k then
    if wt =? CommitmentTimeLock then AddLimboCommitment kid report
    else if wt =? HtlcOfferedRemoteTimeout then AddLimboDirectHtlc kid report
    else if (wt =? HtlcAcceptedSuccessSecondLevel) || (wt =? HtlcOfferedTimeoutSecondLevel)
    then AddLimboStage2Htlc kid report
    else report
  else if has_prefix gradPrefix k then
    if wt =? CommitmentTimeLock then AddRecoveredCommitment kid report
    else if (wt =? HtlcAcceptedSuccessSecondLevel) || (wt =? HtlcOfferedTimeoutSecondLevel)
            || (wt =? HtlcOfferedRemoteTimeout)
    then AddRecoveredHtlc kid report
    else report
  else report.

Definition report_output (report : contractMaturityReport) (k : bytes) (v : option bytes)
    : TX contractMaturityReport :=
  if has_prefix cribPrefix k then
    baby ← tx_res (baby_Decode (default [] v));
    mret (AddLimboStage1TimeoutHtlc baby.1 report)
  else if has_prefix psclPrefix k || has_prefix kndrPrefix k || has_prefix gradPrefix k then
    kid ← tx_res (kid_Decode (default [] v));
    mret (report_kid k kid.1 report)
  else mret report.

Definition NurseryReport (chanPoint : OutPoint) : NU contractMaturityReport :=
  query (ForChanOutputs ns chanPoint report_output
           (mkContractMaturityReport chanPoint 0 0 0 0 0 0 [])).

(** ** The running nursery

    One step: a block arrives, a caller incubates outputs, or the notification of
    a waiting goroutine arrives.  The error of [graduateClass] is logged by the
    [incubator] loop, the one of [IncubateOutputs] goes to the caller; in both
    cases the nursery goes on.  A restart loses everything but the database and
    the outside world. *)
Definition fire (w : waiter) (closes : list OutPoint) (conf : option Z) : NU () :=
  match w with
  | WPreschool kid _ _ => waitForPreschoolConf kid conf
  | WTimeout baby _ _ => waitForTimeoutConf baby conf
  | WSweep classHeight _ _ => waitForSweepConf classHeight closes conf
  end.

Definition drop_waiter (i : nat) (u : utxoNursery) : utxoNursery :=
  mkUtxoNursery (u_db u) (u_env u) (u_bestHeight u) (u_kids u) (u_babies u) (delete i (u_waiters u)) (u_published u).

Definition newUtxoNursery (db : bucket) (e : Env) : utxoNursery := mkUtxoNursery db e 0 [] [] [] [].

Inductive nstep : utxoNursery -> utxoNursery -> Prop :=
| nstep_block u height r u' : graduateClass height u = (r, u') -> nstep u u'
| nstep_incubate u cp c out inc r u' : IncubateOutputs cp c out inc u = (r, u') -> nstep u u'
| nstep_fire u i w closes conf r u' :
    u_waiters u !! i = Some w ->
    match w with WSweep _ kids _ => closes ≡ₚ possibleCloses kids | _ => True end ->
    fire w closes conf (drop_waiter i u) = (r, u') -> nstep u u'
| nstep_restart u e r u' :
    Start (mkUtxoNursery (u_db u) e 0 [] [] [] (u_published u)) = (r, u') -> nstep u u'.

End Nursery.
