(* ===== verification/NurserySweep.v ===== *)
(** * The sweep transactions of the nursery

    [createSweepTx] and [populateSweepTx] of utxonursery.go: what the transaction
    they return spends and pays, and when they succeed. *)

From Stdlib Require Import ZArith Lia.
From stdpp Require Import base gmap countable strings numbers list.
From S2P Require Import Prelude Stream Tx Outputs Effects Sweep NurseryStore Nursery.
Local Open Scope Z_scope.

Section NurserySweep.
Context {BTC : Btcec} {CE : ChainEnv}.

(** ** Which outputs are swept, and how *)

(** The estimated witness size of an output, none for a witness type the nursery
    does not sweep. *)
Definition witness_size (k : kidOutput) : option Z :=
  let wt := kid_WitnessType k in
  if wt =? CommitmentTimeLock then Some ToLocalTimeoutWitnessSize
  else if wt =? HtlcOfferedTimeoutSecondLevel then Some SecondLevelHtlcSuccessWitnessSize
  else if wt =? HtlcAcceptedSuccessSecondLevel then Some SecondLevelHtlcSuccessWitnessSize
  else if wt =? HtlcOfferedRemoteTimeout then Some AcceptedHtlcTimeoutWitnessSize
  else None.

Definition is_cltv (k : kidOutput) : Prop := kid_WitnessType k = HtlcOfferedRemoteTimeout.
Definition is_csv (k : kidOutput) : Prop :=
  kid_WitnessType k = CommitmentTimeLock \/ kid_WitnessType k = HtlcOfferedTimeoutSecondLevel
  \/ kid_WitnessType k = HtlcAcceptedSuccessSecondLevel.
#[global] Instance is_cltv_dec k : Decision (is_cltv k).
Proof. unfold is_cltv. apply _. Defined.
#[global] Instance is_csv_dec k : Decision (is_csv k).
Proof. unfold is_csv. apply _. Defined.

(** The outputs that end up in the transaction, in the order of its inputs. *)
Definition swept (kids : list kidOutput) : list kidOutput := filter is_csv kids ++ filter is_cltv kids.

Definition csv_input (k : kidOutput) : breachedOutput * Z := (kid_breachedOutput k, kid_blocksToMaturity k).
Definition cltv_input (k : kidOutput) : breachedOutput * Z := (kid_breachedOutput k, 0).

(** A relative lock is spent with its delay as sequence number, an absolute one
    with sequence 0 under the transaction's lock time. *)
Definition sweep_inputs (kids : list kidOutput) : list (breachedOutput * Z) :=
  map csv_input (filter is_csv kids) ++ map cltv_input (filter is_cltv kids).

Definition sweep_locktime (kids : list kidOutput) (h : Z) : Z :=
  match filter is_cltv kids with [] => 0 | _ => h end.

Lemma sort_outputs a b t kids :
  foldl sort_output (a, b, t) kids
  = (a ++ filter is_csv kids, b ++ filter is_cltv kids, foldl AddWitnessInput t (omap witness_size kids)).
Proof.
  revert a b t. induction kids as [|k kids IH]; intros a b t; [by rewrite !app_nil_r|].
  cbn [foldl omap list_omap]. unfold sort_output at 2. rewrite !filter_cons.
  assert (forall wt, kid_WitnessType k = wt -> wt <> HtlcOfferedRemoteTimeout -> ~ is_cltv k) as Hn
    by (unfold is_cltv; congruence).
  change (omap witness_size (k :: kids)) with
    (match witness_size k with Some y => y :: omap witness_size kids | None => omap witness_size kids end).
  assert (is_csv k <-> kid_WitnessType k = CommitmentTimeLock
    \/ kid_WitnessType k = HtlcOfferedTimeoutSecondLevel
    \/ kid_WitnessType k = HtlcAcceptedSuccessSecondLevel) as Hcsv by done.
  unfold witness_size at 1. cbv zeta.
  repeat match goal with |- context [kid_WitnessType k =? ?wt] =>
    destruct (Z.eqb_spec (kid_WitnessType k) wt) as [E|?] end.
  4: rewrite (decide_False (P := is_csv k)) by tauto; rewrite (decide_True (P := is_cltv k)) by done.
  5: rewrite (decide_False (P := is_csv k)) by tauto; rewrite (decide_False (P := is_cltv k)) by done; apply IH.
  1-3: rewrite (decide_True (P := is_csv k)) by tauto;
       rewrite (decide_False (P := is_cltv k)) by (by apply (Hn _ E)).
  all: rewrite IH; simpl; by rewrite <- app_assoc.
Qed.

Lemma foldl_AddTxIn (f : kidOutput -> TxIn) l tx :
  foldl (fun tx input => AddTxIn (f input) tx) tx l
  = mkMsgTx (tx_Version tx) (tx_TxIn tx ++ map f l) (tx_TxOut tx) (tx_LockTime tx).
Proof.
  revert tx. induction l as [|k l IH]; intros tx; simpl.
  - rewrite app_nil_r. by destruct tx.
  - rewrite IH. simpl. by rewrite <- app_assoc.
Qed.

Lemma map_fst_inputs csv cltv :
  map fst (map csv_input csv ++ map cltv_input cltv)
  = map kid_breachedOutput csv ++ map kid_breachedOutput cltv.
Proof. rewrite map_app, !map_map. done. Qed.

(** [populateSweepTx] as the steps a sweep goes through. *)
Lemma populateSweepTx_eq vsize h csv cltv e :
  populateSweepTx vsize h csv cltv e =
  match GenSweepScript e with
  | (Err err, e1) => (Err err, e1)
  | (Ok script, e1) =>
      match EstimateFeePerVSize 6 e1 with
      | (Err err, e2) => (Err err, e2)
      | (Ok rate, e2) =>
          let ins := map csv_input csv ++ map cltv_input cltv in
          let amt := i64 (sum_amounts 0 (map fst ins) - FeeForVSize rate vsize) in
          let txn := mkMsgTx 2 (map sweep_in ins) [mkTxOut amt script]
                       (match cltv with [] => 0 | _ => h end) in
          (match CheckTransactionSanity txn with
           | Err err => Err err
           | Ok _ => add_witnesses txn 0 (map fst ins) txn
           end, e2)
      end
  end.
Proof.
  unfold populateSweepTx, mbind, st_bind. destruct (GenSweepScript e) as [[script|err] e1]; [|done].
  destruct (EstimateFeePerVSize 6 e1) as [[rate|err] e2]; [|done].
  cbv zeta. rewrite map_fst_inputs, sum_amounts_app, !foldl_AddTxIn.
  set (txn := mkMsgTx 2 _ [mkTxOut _ script] _).
  match goal with |- context [CheckTransactionSanity ?t] => assert (t = txn) as -> end.
  { unfold txn. rewrite !map_app, !map_map. destruct cltv; done. }
  unfold st_res. destruct (CheckTransactionSanity txn); [|done].
  rewrite add_witnesses_app, length_map. simpl.
  by destruct (add_witnesses txn 0 _ txn).
Qed.

Lemma amounts_app (kids : list kidOutput) :
  map bo_amt (map fst (sweep_inputs kids)) = map kid_Amount (swept kids).
Proof.
  unfold sweep_inputs, swept. rewrite map_fst_inputs, !map_app, !map_map. done.
Qed.

Definition sweep_fee (rate : Z) (kids : list kidOutput) : Z :=
  rate * VSize (estimate (omap witness_size kids)).

Definition sweep_amount (kids : list kidOutput) : Z := sum_Z (map kid_Amount (swept kids)).

Lemma createSweepTx_eq kids h :
  createSweepTx kids h
  = populateSweepTx (VSize (estimate (omap witness_size kids))) h (filter is_csv kids) (filter is_cltv kids).
Proof. unfold createSweepTx. by rewrite sort_outputs. Qed.

(** The value of the output, when nothing overflows. *)
Lemma sweep_value kids rate :
  Forall (fun k => 0 <= kid_Amount k) (swept kids) -> sweep_amount kids < 2 ^ 63 ->
  0 <= sweep_fee rate kids < 2 ^ 63 ->
  i64 (sum_amounts 0 (map fst (sweep_inputs kids))
       - FeeForVSize rate (VSize (estimate (omap witness_size kids))))
  = sweep_amount kids - sweep_fee rate kids.
Proof.
  intros Hk Hs Hf. unfold sweep_amount in *.
  assert (0 <= sum_Z (map kid_Amount (swept kids))).
  { clear -Hk. induction Hk; [done|]. unfold sum_Z in *. simpl. lia. }
  rewrite sum_amounts_exact; rewrite ?amounts_app; [|done| |lia].
  - unfold FeeForVSize. fold (sweep_fee rate kids). rewrite (i64_id (sweep_fee rate kids)) by (unfold is_i64; lia).
    rewrite i64_id by (unfold is_i64; lia). lia.
  - apply Forall_forall. intros o Ho.
    assert (bo_amt o ∈ map bo_amt (map fst (sweep_inputs kids))) as Ha by (apply list_elem_of_fmap; eauto).
    rewrite amounts_app in Ha. apply list_elem_of_fmap in Ha as (k & -> & Hin).
    rewrite Forall_forall in Hk. by apply Hk.
Qed.

Lemma sizes_swept kids : length (omap witness_size kids) = length (sweep_inputs kids).
Proof.
  unfold sweep_inputs. rewrite length_app, !length_map.
  induction kids as [|k kids IH]; [done|].
  change (omap witness_size (k :: kids)) with
    (match witness_size k with Some y => y :: omap witness_size kids | None => omap witness_size kids end).
  rewrite !filter_cons. unfold witness_size at 1. cbv zeta.
  assert (is_csv k <-> kid_WitnessType k = CommitmentTimeLock
    \/ kid_WitnessType k = HtlcOfferedTimeoutSecondLevel
    \/ kid_WitnessType k = HtlcAcceptedSuccessSecondLevel) as Hcsv by done.
  assert (is_cltv k <-> kid_WitnessType k = HtlcOfferedRemoteTimeout) as Hcltv by done.
  repeat match goal with |- context [kid_WitnessType k =? ?wt] =>
    destruct (Z.eqb_spec (kid_WitnessType k) wt) as [W|?] end;
  repeat (case_decide; simpl); rewrite ?IH; try lia; exfalso; rewrite ?Hcltv, ?W in *; try tauto; done.
Qed.

(** Whatever the amounts, what is returned is a sweep of the class. *)
Lemma createSweepTx_sweeps kids h e tx e' :
  createSweepTx kids h e = (Ok tx, e') ->
  exists out, sweeps (sweep_inputs kids) out (sweep_locktime kids h) tx.
Proof.
  rewrite createSweepTx_eq, populateSweepTx_eq.
  destruct (GenSweepScript e) as [[script|err] e1]; [|done].
  destruct (EstimateFeePerVSize 6 e1) as [[rate|err] e2]; [|done].
  cbv zeta. fold (sweep_inputs kids). fold (sweep_locktime kids h).
  destruct (CheckTransactionSanity _) as [[]|] eqn:Ec; [|done]. intros [= Hw <-].
  eexists. by eapply sweeps_built.
Qed.

Lemma createSweepTx_storable {SS : StandardSigner} kids h e tx e' :
  createSweepTx kids h e = (Ok tx, e') -> Forall kidOutput_ok kids -> is_u32 h ->
  MsgTx_ok tx /\ Z.of_nat (length (Serialize tx)) <= 2 ^ 31 - 2.
Proof.
  intros [out Hs]%createSweepTx_sweeps Hk Hh. eapply sweeps_storable; [done| |].
  - rewrite Forall_forall in Hk. apply Forall_forall. intros o Ho.
    apply elem_of_app in Ho as [Ho|Ho]; apply list_elem_of_fmap in Ho as (k & -> & [_ Hin]%list_elem_of_filter);
      destruct (Hk _ Hin) as ((_ & Hop & _) & _ & _ & Hb & _); (split; [done|]); unfold is_u32; simpl; lia || done.
  - unfold sweep_locktime. case_match; [unfold is_u32; lia|done].
Qed.

(** ** Theorems *)

(** C40: a sweep transaction the nursery creates spends exactly the outputs of the
    class it knows how to sweep: each once, a relatively locked output with its
    delay as sequence number, the absolutely locked ones under a lock time equal
    to the height.  Each input carries the witness the signer made for it, the
    whole value less the fee goes to one output with the wallet's script, and the
    fee is the estimator's rate times the transaction's own virtual size with the
    witnesses at their estimated sizes. *)
Theorem sweep_tx_correct kids h e tx e' :
  createSweepTx kids h e = (Ok tx, e') ->
  exists script rate e1,
    GenSweepScript e = (Ok script, e1) /\ EstimateFeePerVSize 6 e1 = (Ok rate, e')
    /\ (Forall (fun k => 0 <= kid_Amount k) (swept kids) -> sweep_amount kids < 2 ^ 63 ->
        0 <= sweep_fee rate kids < 2 ^ 63 ->
        sweeps (sweep_inputs kids) (mkTxOut (sweep_amount kids - sweep_fee rate kids) script)
          (sweep_locktime kids h) tx
        /\ (length script = 22%nat ->
            sweep_fee rate kids
            = rate * ((4 * SerializeSizeStripped (unsigned tx) + WitnessHeaderSize
                       + sum_Z (omap witness_size kids) + 3) / 4))).
Proof.
  rewrite createSweepTx_eq, populateSweepTx_eq.
  destruct (GenSweepScript e) as [[script|err] e1] eqn:Eg; [|done].
  destruct (EstimateFeePerVSize 6 e1) as [[rate|err] e2] eqn:Ee; [|done].
  cbv zeta. fold (sweep_inputs kids). fold (sweep_locktime kids h).
  destruct (CheckTransactionSanity _) as [[]|] eqn:Ec; [|done]. intros [= Hw <-].
  exists script, rate, e1. split; [done|]. split; [done|]. intros Hk Hs Hf.
  rewrite sweep_value in Ec, Hw by done.
  pose proof (sweeps_built _ _ _ _ Ec Hw) as Hsw. split; [done|]. intros Hl.
  unfold sweep_fee, VSize. do 2 f_equal. rewrite (sw_unsigned _ _ _ _ Hsw).
  rewrite (Weight_estimate (sweep_inputs kids) _ (sweep_amount kids - sweep_fee rate kids) script
             (sweep_locktime kids h)); [unfold witnessScaleFactor; lia| |symmetry; apply sizes_swept|done].
  intros E. apply (sw_nonempty _ _ _ _ Hsw). apply length_zero_iff_nil. rewrite <- sizes_swept, E. done.
Qed.

(** Creating the sweep succeeds whenever the wallet gives a script and the
    estimator a rate, the signer can sign each output, the outputs are distinct
    and real, their value covers the fee, and the transaction fits in a block. *)
Theorem sweep_tx_succeeds kids h e script e1 rate e2 :
  GenSweepScript e = (Ok script, e1) -> EstimateFeePerVSize 6 e1 = (Ok rate, e2) ->
  swept kids <> [] -> NoDup (map kid_OutPoint (swept kids)) ->
  Forall (fun k => 0 <= kid_Amount k /\ isNullOutpoint (kid_OutPoint k) = false
                   /\ forall c t i, exists w, BuildWitness (kid_breachedOutput k) c t i = Ok w) (swept kids) ->
  0 <= sweep_fee rate kids <= sweep_amount kids -> sweep_amount kids <= MaxSatoshi ->
  41 * Z.of_nat (length (swept kids)) + Z.of_nat (length script) + 35 <= MaxBlockBaseSize ->
  exists tx, createSweepTx kids h e = (Ok tx, e2).
Proof.
  intros Eg Ee Hne Hnd Hk Hf Hs Hsz. rewrite createSweepTx_eq, populateSweepTx_eq, Eg, Ee.
  cbv zeta. fold (sweep_inputs kids). unfold MaxSatoshi in Hs.
  assert (map fst (sweep_inputs kids) = map kid_breachedOutput (swept kids)) as Efst.
  { unfold sweep_inputs, swept. by rewrite map_fst_inputs, map_app. }
  rewrite sweep_value; [|by eapply Forall_impl; [exact Hk|intros ? []]|lia|lia].
  assert (map (fun o => bo_outpoint o.1) (sweep_inputs kids) = map kid_OutPoint (swept kids)) as Eop.
  { rewrite <- (map_map fst bo_outpoint), Efst, map_map. done. }
  rewrite sanity_complete.
  - destruct (add_witnesses_total (mkMsgTx 2 (map sweep_in (sweep_inputs kids))
      [mkTxOut (sweep_amount kids - sweep_fee rate kids) script]
      (match filter is_cltv kids with [] => 0 | _ => h end)) 0 (map fst (sweep_inputs kids))
      (mkMsgTx 2 (map sweep_in (sweep_inputs kids))
      [mkTxOut (sweep_amount kids - sweep_fee rate kids) script]
      (match filter is_cltv kids with [] => 0 | _ => h end))) as [tx Htx].
    + rewrite Efst. apply Forall_map. eapply Forall_impl; [exact Hk|]. intros k (_ & _ & Hw). apply Hw.
    + exists tx. by rewrite Htx.
  - intros E. apply Hne. apply (f_equal (map fst)) in E. rewrite Efst in E. by destruct (swept kids).
  - by rewrite Eop.
  - apply Forall_forall. intros o Ho.
    assert (bo_outpoint o.1 ∈ map kid_OutPoint (swept kids)) as Hin
      by (rewrite <- Eop; apply list_elem_of_fmap; eauto).
    apply list_elem_of_fmap in Hin as (k & -> & Hin). rewrite Forall_forall in Hk. by apply Hk.
  - unfold MaxSatoshi. lia.
  - assert (length (sweep_inputs kids) = length (swept kids)) as Hlen
      by (rewrite <- (length_map fst), Efst; apply length_map).
    rewrite <- Hlen in Hsz. by apply stripped_bound.
Qed.

End NurserySweep.
