(* ===== verification/NurseryLife.v ===== *)
(** * The life of an output in the nursery

    How the methods of utxonursery.go move outputs: what [graduateClass]
    broadcasts and records, what a restart re-registers, what the confirmation
    goroutines do to the store, and what an incubation request persists. *)

From Stdlib Require Import ZArith Lia Sorted.
From stdpp Require Import base gmap countable strings numbers list.
From S2P Require Import Prelude Stream Tx Outputs Bolt NurseryStore NurseryAbs NurseryRefine.
From S2P Require Import NurseryInv NurseryClass NurseryQuery NurseryProps Effects Sweep Nursery NurserySweep.
Local Open Scope Z_scope.

Section NurseryLife.
Context {BTC : Btcec} {CE : ChainEnv} {NE : NurseryEnv} (ns : nurseryStore).
Implicit Types (u : utxoNursery) (st : gmap loc item).

(** ** Growth: heaps, waiters and the log of broadcasts are only appended to *)

Record ext u u' : Prop := {
  ext_kids : u_kids u `prefix_of` u_kids u';
  ext_babies : u_babies u `prefix_of` u_babies u';
  ext_waiters : u_waiters u `prefix_of` u_waiters u';
  ext_published : u_published u `prefix_of` u_published u'
}.

#[global] Instance ext_preorder : PreOrder ext.
Proof.
  split.
  - intros u. by split.
  - intros u1 u2 u3 [] []. split; by etrans.
Qed.

Lemma prefix_elem {A} (l l' : list A) x : l `prefix_of` l' -> x ∈ l -> x ∈ l'.
Proof. intros [k ->] H. apply elem_of_app. by left. Qed.

Lemma prefix_get {A} (l l' : list A) i x : l `prefix_of` l' -> l !! i = Some x -> l' !! i = Some x.
Proof. intros [k ->] H. by apply lookup_app_l_Some. Qed.

Lemma swp_store {A} (f : bucket -> res A * bucket) Q u r db' :
  f (u_db u) = (r, db') -> Q r (set_db db' u) -> swp (store f) Q u.
Proof. intros E HQ. apply swp_zoom. by eapply swp_eq. Qed.

Lemma swp_query {A} (f : bucket -> res A) Q u : Q (f (u_db u)) u -> swp (query f) Q u.
Proof. done. Qed.

Lemma swp_env {A} (m : ST Env A) Q u :
  (forall r e, m (u_env u) = (r, e) -> Q r (set_env e u)) -> swp (env m) Q u.
Proof. intros H. apply swp_zoom, swp_intro. done. Qed.

Lemma swp_upd (f : utxoNursery -> utxoNursery) Q u : Q (Ok tt) (f u) -> swp (st_upd f) Q u.
Proof. done. Qed.

Lemma swp_read_kid p Q u :
  (forall k, u_kids u !! p = Some k -> Q (Ok k) u) ->
  (u_kids u !! p = None -> Q (Err (ErrPanic "nil pointer dereference")) u) -> swp (read_kid p) Q u.
Proof. unfold swp, read_kid. destruct (u_kids u !! p) as [k|]; intros H1 H2; [by apply H1|by apply H2]. Qed.

Lemma ext_env e u : ext u (set_env e u).
Proof. by split. Qed.
Lemma ext_waiter w u : ext u (add_waiter w u).
Proof. split; simpl; try done. by apply prefix_app_r. Qed.
Lemma ext_log tx u : ext u (log_published tx u).
Proof. split; simpl; try done. by apply prefix_app_r. Qed.

(** ** First-stage sweeps *)

(** The crib outputs [bs] of a height have been broadcast and registered, or the
    first part of them when a call failed. *)
Record cribs_swept (h : Z) (bs : list babyOutput) (r : res ()) u u' : Prop := {
  cs_ext : ext u u';
  cs_db : u_db u' = u_db u;
  cs_best : u_bestHeight u' = u_bestHeight u;
  cs_pub : exists bs1, bs1 `prefix_of` bs /\ u_published u' = u_published u ++ map baby_timeoutTx bs1
             /\ (r = Ok tt -> bs1 = bs);
  cs_new w : w ∈ u_waiters u' -> w ∈ u_waiters u \/ exists p id, w = WTimeout p id h;
  cs_done : r = Ok tt -> forall b, b ∈ bs ->
    exists p, u_babies u' !! p = Some b /\ WTimeout p (TxHash (baby_timeoutTx b)) h ∈ u_waiters u'
}.

Lemma swp_sweepCribOutput h p b u :
  u_babies u !! p = Some b ->
  swp (sweepCribOutput h p) (fun r u' =>
    exists e, u' = set_env e (log_published (baby_timeoutTx b) u) /\ is_ok r = false
    \/ r = Ok tt /\ u' = add_waiter (WTimeout p (TxHash (baby_timeoutTx b)) h)
                     (set_env e (log_published (baby_timeoutTx b) u))) u.
Proof.
  intros Hp. assert (forall u, u_babies u !! p = Some b -> read_baby p u = (Ok b, u)) as Hr.
  { intros u0 H. unfold read_baby. by rewrite H. }
  apply swp_bind. eapply swp_eq; [by apply Hr|]. cbn beta iota.
  apply swp_bind, swp_bind, swp_upd, swp_env. intros [[]|er] e _.
  2: { exists e. by left. }
  apply swp_bind. eapply swp_eq; [by apply Hr|]. cbn beta iota.
  apply swp_bind, swp_env. intros [[]|er] e' _.
  - apply swp_upd. exists e'. by right.
  - exists e'. by left.
Qed.

Lemma swp_sweepCribOutputs h bs u :
  swp (sweepCribOutputs h bs) (fun r u' => cribs_swept h bs r u u') u.
Proof.
  revert u. induction bs as [|b bs IH]; intros u.
  - apply swp_ret. split; try done; [by exists []; rewrite app_nil_r|by left|set_solver].
  - apply swp_bind, swp_bind.
    eapply swp_eq; [reflexivity|]. cbn beta iota.
    set (p := length (u_babies u)). set (u1 := set_babies (u_babies u ++ [b]) u).
    assert (u_babies u1 !! p = Some b) as Hp by (simpl; by apply list_lookup_middle).
    assert (ext u u1) as He by (split; simpl; try done; by apply prefix_app_r).
    eapply swp_mono; [by apply (swp_sweepCribOutput h p b u1)|].
    intros r u2 (e & [[-> Hr]|[-> ->]]).
    + destruct r as [|er]; [done|]. split; simpl; try done.
      * etrans; [exact He|]. etrans; [apply ext_log|apply ext_env].
      * exists [b]. split; [by apply prefix_cons, prefix_nil|]. by split.
      * by left.
    + eapply swp_mono; [apply IH|]. intros r u' [Hx Hdb Hbest (bs1 & Hpre & Hpub & Hall) Hnew Hdone].
      simpl in *. split.
      * etrans; [exact He|]. etrans; [|exact Hx]. etrans; [apply ext_log|]. etrans; [apply ext_env|apply ext_waiter].
      * done.
      * done.
      * exists (b :: bs1). split; [by apply prefix_cons|]. simpl. rewrite Hpub, <- app_assoc.
        split; [done|]. intros Hr. by rewrite Hall.
      * intros w Hw. destruct (Hnew w Hw) as [Hin|?]; [|by right].
        apply elem_of_app in Hin as [?|Hs%list_elem_of_singleton]; [by left|right; eauto].
      * intros Hr b' [->|Hb']%elem_of_cons; [|by apply Hdone]. exists p. split.
        -- eapply prefix_get; [apply Hx|]. done.
        -- eapply prefix_elem; [apply Hx|]. apply elem_of_app. right. by apply list_elem_of_singleton.
Qed.

(** ** Graduating a height *)

Lemma LastFinalizedHeight_eq db st : nursery_db ns db st -> LastFinalizedHeight ns db = Ok (lastFinalized st).
Proof. intros [H Hi]. apply wp_View_eq. by eapply wp_lastFinalized; [done|apply NInv_typed_heights|]. Qed.

Lemma LastGraduatedHeight_eq db st : nursery_db ns db st -> LastGraduatedHeight ns db = Ok (lastGraduated st).
Proof. intros [H Hi]. apply wp_View_eq. by eapply wp_lastGraduated; [done|apply NInv_typed_heights|]. Qed.

Lemma kids_of_ok db st dn kids :
  nursery_db ns db st -> kids_of st dn kids -> Forall kidOutput_ok kids.
Proof.
  intros [H _]. induction 1 as [|[cp op] k dn kids Hk _ IH]; constructor; [|done].
  by destruct (nr_ok _ _ _ _ _ H _ _ Hk) as [_ [_ ?]].
Qed.

Lemma nframe_trans db1 db2 db3 : nframe ns db1 db2 -> nframe ns db2 db3 -> nframe ns db1 db3.
Proof.
  intros [A1 B1] [A2 B2]. split.
  - intros n p k Hn. destruct (A1 n p k Hn) as [<- <-]. by apply A2.
  - intros k. by rewrite B2.
Qed.

(** The same outputs at the same heights. *)
Record same_outputs st st' : Prop := {
  so_out cp c op : st' !! LOut cp c op = st !! LOut cp c op;
  so_idx h cp c op : st' !! LIdx h cp c op = st !! LIdx h cp c op
}.

Lemma finalize_same h t st : same_outputs st (a_FinalizeKinder h t st).
Proof. split; intros; unfold a_FinalizeKinder; repeat case_match; by rewrite ?lookup_insert_ne. Qed.

Lemma finalize_lastF h t st : lastFinalized (a_FinalizeKinder h t st) = h.
Proof.
  unfold lastFinalized, a_FinalizeKinder.
  repeat case_match; simplify_eq; rewrite ?lookup_insert_ne, ?lookup_insert_eq in * by done; by simplify_eq.
Qed.

Lemma finalize_final h t st :
  live st h = true -> finalTx (a_FinalizeKinder h (Some t) st) h = Some t.
Proof. intros L. unfold finalTx, a_FinalizeKinder. by rewrite L, lookup_insert_eq. Qed.

Lemma finalize_keep h st : finalTx (a_FinalizeKinder h None st) h = finalTx st h.
Proof. unfold finalTx, a_FinalizeKinder. by rewrite lookup_insert_ne. Qed.

Lemma finalize_other h h' t st : h' <> h -> st !! LFinal h' = a_FinalizeKinder h t st !! LFinal h'.
Proof.
  intros Hn. unfold a_FinalizeKinder. repeat case_match; rewrite ?lookup_insert_ne; congruence || done.
Qed.

Lemma finalTx_ok db st h t : nursery_db ns db st -> finalTx st h = Some t -> item_ok (ITx t) /\ live st h = true.
Proof.
  intros [H Hi]. unfold finalTx. destruct (st !! LFinal h) as [[]|] eqn:E; intros [= ->].
  split; [by destruct (nr_ok _ _ _ _ _ H _ _ E)|]. apply (ni_final _ Hi). by rewrite E.
Qed.

(** What the store holds when [graduateClass] has settled on the transaction of
    the height, [t] being what it will broadcast. *)
Record settled (h : Z) st st' (t : option MsgTx) : Prop := {
  se_same : same_outputs st st';
  se_final : finalTx st' h = t;
  se_lastF : lastFinalized st' = Z.max h (lastFinalized st);
  se_other h' : h' <> h -> st !! LFinal h' = st' !! LFinal h';
  se_lastG : st' !! LLastG = st !! LLastG;
  se_once : h <= lastFinalized st -> st' = st
}.

Lemma settled_finalize h st t :
  lastFinalized st < h ->
  match t with Some _ => live st h = true | None => finalTx st h = None end ->
  settled h st (a_FinalizeKinder h t st) t.
Proof.
  intros Hl Ht. split.
  - apply finalize_same.
  - destruct t; [by apply finalize_final|]. by rewrite finalize_keep.
  - rewrite finalize_lastF. lia.
  - intros h'. apply finalize_other.
  - unfold a_FinalizeKinder. repeat case_match; by rewrite ?lookup_insert_ne.
  - lia.
Qed.

Lemma settled_keep h st : h <= lastFinalized st -> settled h st st (finalTx st h).
Proof. intros Hl. split; try done. lia. Qed.

(** The part of [graduateClass] between loading the class and broadcasting. *)
Definition settle (h : Z) (fin : option MsgTx) (kids : list kidOutput) (lastF : Z) : NU (option MsgTx) :=
  if lastF <? h then
    fin ← (match kids with
           | [] => mret fin
           | _ => tx ← env (createSweepTx kids h); mret (Some tx)
           end);
    _ ← store (FinalizeKinder ns h fin);
    mret fin
  else mret fin.

Lemma swp_settle {SS : StandardSigner} h u st dk kids :
  nursery_db ns (u_db u) st -> is_u32 h -> class st h Kndr dk -> kids_of st dk kids ->
  swp (settle h (finalTx st h) kids (lastFinalized st)) (fun r u' =>
    match r with
    | Ok t => exists e db' st', u' = set_env e (set_db db' u) /\ nursery_db ns db' st'
                /\ nframe ns (u_db u) db' /\ settled h st st' t
                /\ (lastFinalized st < h -> kids <> [] ->
                    exists tx e', t = Some tx /\ createSweepTx kids h (u_env u) = (Ok tx, e'))
    | Err er => exists e, u' = set_env e u /\ kids <> [] /\ lastFinalized st < h
                  /\ createSweepTx kids h (u_env u) = (Err er, e)
    end) u.
Proof.
  intros Hdb Hh Hcl Hks. unfold settle. destruct Hdb as [H Hi].
  destruct (Z.ltb_spec (lastFinalized st) h) as [Hlt|Hge].
  2: { apply swp_ret. exists (u_env u), (u_db u), st. split; [by destruct u|]. split; [done|].
       split; [apply nframe_refl|]. split; [by apply settled_keep|lia]. }
  assert (forall t u1, u_db u1 = u_db u -> (exists e, u1 = set_env e u) ->
    match t with Some tx => live st h = true /\ item_ok (ITx tx) | None => finalTx st h = None end ->
    (kids <> [] -> exists tx e', t = Some tx /\ createSweepTx kids h (u_env u) = (Ok tx, e')) ->
    swp (_ ← store (FinalizeKinder ns h t); mret t) (fun r u' => match r with
      | Ok t => exists e db' st', u' = set_env e (set_db db' u) /\ nursery_db ns db' st'
                /\ nframe ns (u_db u) db' /\ settled h st st' t
                /\ (lastFinalized st < h -> kids <> [] ->
                    exists tx e', t = Some tx /\ createSweepTx kids h (u_env u) = (Ok tx, e'))
      | Err er => exists e, u' = set_env e u /\ kids <> [] /\ lastFinalized st < h
                  /\ createSweepTx kids h (u_env u) = (Err er, e) end) u1) as Hfin.
  { intros t u1 Hdb1 [e ->] Ht Hmade. destruct (FinalizeKinder_refines ns (u_db u) st h t H (ni_final _ Hi) Hh)
      as (db' & E & F & H'); [by destruct t; [apply Ht|]|].
    apply swp_bind. eapply swp_store; [rewrite Hdb1; exact E|]. apply swp_ret.
    exists e, db', (a_FinalizeKinder h t st). split; [done|].
    split; [split; [done|by apply a_FinalizeKinder_NInv]|]. split; [done|].
    split; [|auto]. apply settled_finalize; [done|]. destruct t; [apply Ht|done]. }
  apply swp_bind. destruct kids as [|k kids].
  - apply swp_ret. apply Hfin; [done|by exists (u_env u); destruct u| |done].
    destruct (finalTx st h) eqn:E; [|done]. by destruct (finalTx_ok _ _ _ _ (conj H Hi) E).
  - apply swp_bind, swp_env. intros [tx|er] e Ec.
    + apply swp_ret. apply Hfin; [done|eauto| |by eauto]. split.
      * inversion Hks as [|[cp op] ? dn' ? Hk]; subst. apply live_true. exists cp, Kndr, op. apply Hcl. by left.
      * pose proof (kids_of_ok _ _ _ _ (conj H Hi) Hks) as Hok.
        destruct (createSweepTx_storable _ _ _ _ _ Ec Hok Hh). by split.
    + by exists e.
Qed.

(** Everything [graduateClass] can do to a consistent nursery, [kids] and [bs]
    being the kindergarten and crib outputs of the height. *)
Record graduates (h : Z) st (kids : list kidOutput) (bs : list babyOutput) (r : res ()) u u' st'
    (sw : list MsgTx) (bs1 : list babyOutput) : Prop := {
  ga_db : nursery_db ns (u_db u') st';
  ga_frame : nframe ns (u_db u) (u_db u');
  ga_ext : ext u u';
  ga_same : same_outputs st st';
  ga_other h' : h' <> h -> st !! LFinal h' = st' !! LFinal h';
  ga_pub : u_published u' = u_published u ++ sw ++ map baby_timeoutTx bs1;
  ga_sw : sw = [] \/ exists t, sw = [t] /\ finalTx st' h = Some t /\ h <= lastFinalized st';
  ga_bs : bs1 `prefix_of` bs;
  ga_once : h <= lastFinalized st -> finalTx st' h = finalTx st h;
  ga_new w : w ∈ u_waiters u' -> w ∈ u_waiters u \/ (exists p id, w = WTimeout p id h)
    \/ exists t, finalTx st' h = Some t /\ w = WSweep h kids (TxHash t);
  ga_ok : r = Ok tt ->
    lastGraduated st' = h /\ lastFinalized st' = Z.max h (lastFinalized st) /\ sw = option_list (finalTx st' h) /\ bs1 = bs
    /\ (forall t, finalTx st' h = Some t -> WSweep h kids (TxHash t) ∈ u_waiters u')
    /\ (forall b, b ∈ bs -> exists p, u_babies u' !! p = Some b
          /\ WTimeout p (TxHash (baby_timeoutTx b)) h ∈ u_waiters u');
  ga_made : r = Ok tt -> lastFinalized st < h -> kids <> [] ->
    exists t e', finalTx st' h = Some t /\ createSweepTx kids h (u_env u) = (Ok t, e')
}.

(** The broadcast of the sweep. *)
Lemma swp_sweepMature h t kids u :
  swp (match t with None => mret tt | Some tx => sweepMatureOutputs h tx kids end) (fun r u' =>
    exists e sw ws, u' = mkUtxoNursery (u_db u) e (u_bestHeight u) (u_kids u) (u_babies u)
                        (u_waiters u ++ ws) (u_published u ++ sw)
    /\ (sw = [] \/ sw = option_list t)
    /\ (forall w, w ∈ ws -> exists tx, t = Some tx /\ w = WSweep h kids (TxHash tx))
    /\ (r = Ok tt -> sw = option_list t /\ forall tx, t = Some tx -> WSweep h kids (TxHash tx) ∈ ws)) u.
Proof.
  destruct t as [tx|].
  - apply swp_bind, swp_bind, swp_upd, swp_env. intros [[]|er] e _.
    2: { exists e, [tx], []. rewrite app_nil_r. split; [done|]. split; [by right|]. split; [set_solver|done]. }
    apply swp_bind, swp_env. intros [[]|er] e' _.
    + apply swp_upd. exists e', [tx], [WSweep h kids (TxHash tx)]. split; [done|]. split; [by right|].
      split; [intros w ->%list_elem_of_singleton; eauto|]. intros _. split; [done|]. intros tx' [= <-]. by apply list_elem_of_singleton.
    + exists e', [tx], []. rewrite app_nil_r. split; [done|]. split; [by right|]. split; [set_solver|done].
  - apply swp_ret. exists (u_env u), [], []. rewrite !app_nil_r. split; [by destruct u|]. split; [by left|].
    split; [set_solver|done].
Qed.

Lemma swp_graduateClass {SS : StandardSigner} h u st :
  nursery_db ns (u_db u) st -> is_u32 h ->
  exists kids bs dk dc, FetchClass ns h (u_db u) = Ok (finalTx st h, kids, bs)
    /\ class st h Kndr dk /\ kids_of st dk kids /\ class st h Crib dc /\ babies_of st dc bs
    /\ swp (graduateClass ns h) (fun r u' => exists st' sw bs1, graduates h st kids bs r u u' st' sw bs1) u.
Proof.
  intros Hdb Hh. destruct (FetchClass_spec ns (u_db u) st h (proj1 Hdb) (proj2 Hdb) Hh)
    as (kids & bs & dk & dc & Ef & Hk & Hks & Hc & Hcs).
  exists kids, bs, dk, dc. do 5 (split; [done|]).
  apply swp_bind, swp_upd, swp_bind, swp_query. change (u_db (set_bestHeight h u)) with (u_db u).
  rewrite Ef. apply swp_bind, swp_query. change (u_db (set_bestHeight h u)) with (u_db u).
  rewrite (LastFinalizedHeight_eq _ _ Hdb). apply swp_bind.
  eapply swp_mono; [eapply (swp_settle h (set_bestHeight h u) st dk kids); done|].
  intros [t|er] u1.
  2: { intros (e & -> & _). exists st, [], []. split; simpl; rewrite ?app_nil_r; try done;
       [by left|apply prefix_nil|by left]. }
  intros (e & db1 & st1 & -> & Hdb1 & F1 & [Hsame Hfin Hlf Hoth HlG Honce] & Hmade).
  apply swp_bind. eapply swp_mono; [apply swp_sweepMature|].
  intros r1 u2 (e2 & sw & ws & -> & Hsw & Hnw & Hok). simpl u_db in *.
  assert (sw = [] \/ exists t0, sw = [t0] /\ finalTx st1 h = Some t0 /\ h <= lastFinalized st1) as Hsw'.
  { destruct Hsw as [->| ->]; [by left|]. rewrite <- Hfin.
    destruct (finalTx st1 h) as [t0|]; [right|by left]. exists t0. split; [done|]. split; [done|lia]. }
  assert (h <= lastFinalized st -> finalTx st1 h = finalTx st h) as Honce' by (intros ->%Honce; done).
  assert (forall w, w ∈ u_waiters u ++ ws -> w ∈ u_waiters u \/ (exists p id, w = WTimeout p id h)
    \/ exists t, finalTx st1 h = Some t /\ w = WSweep h kids (TxHash t)) as Hnew.
  { intros w [?|(tx & -> & ->)%Hnw]%elem_of_app; [by left|]. right; right. eauto. }
  destruct r1 as [[]|er].
  2: { exists st1, sw, []. split; simpl; rewrite ?app_nil_r; try done; [|apply prefix_nil].
       split; simpl; try done; by apply prefix_app_r. }
  destruct (Hok eq_refl) as [-> Hws]. apply swp_bind. eapply swp_mono; [apply swp_sweepCribOutputs|].
  intros r2 u3 [Hx Hdb3 _ (bs1 & Hpre & Hpub & Hall) Hnw3 Hdone]. simpl in Hdb3, Hpub, Hnw3.
  assert (forall w, w ∈ u_waiters u3 -> w ∈ u_waiters u \/ (exists p id, w = WTimeout p id h)
    \/ exists t, finalTx st1 h = Some t /\ w = WSweep h kids (TxHash t)) as Hnew3.
  { intros w [?|?]%Hnw3; [by apply Hnew|right; by left]. }
  assert (ext u u3) as Hext by (etrans; [|exact Hx]; split; simpl; try done; by apply prefix_app_r).
  destruct r2 as [[]|er].
  2: { exists st1, (option_list t), bs1. split; try done; by rewrite ?Hdb3, ?Hpub, ?app_assoc. }
  destruct (GraduateHeight_refines ns db1 st1 h (proj1 Hdb1) Hh) as (db4 & E4 & F4 & H4).
  eapply swp_store; [rewrite Hdb3; exact E4|].
  assert (finalTx (a_GraduateHeight h st1) h = t) as HfG
    by (rewrite <- Hfin; unfold finalTx, a_GraduateHeight; by rewrite lookup_insert_ne).
  assert (lastFinalized (a_GraduateHeight h st1) = lastFinalized st1) as HlfG
    by (unfold lastFinalized, a_GraduateHeight; by rewrite lookup_insert_ne).
  exists (a_GraduateHeight h st1), (option_list t), bs1. split; rewrite ?HfG, ?HlfG.
  - split; [done|]. apply a_GraduateHeight_NInv, Hdb1.
  - by eapply nframe_trans.
  - destruct Hext. by split.
  - destruct Hsame as [S1 S2]. split; intros; unfold a_GraduateHeight; by rewrite lookup_insert_ne.
  - intros h' Hn. unfold a_GraduateHeight. rewrite lookup_insert_ne by done. by apply Hoth.
  - simpl. by rewrite Hpub, app_assoc.
  - by rewrite Hfin in Hsw'.
  - done.
  - by rewrite Hfin in Honce'.
  - by rewrite Hfin in Hnew3.
  - intros _. split; [unfold lastGraduated, a_GraduateHeight; by rewrite lookup_insert_eq|].
    split; [done|]. split; [done|]. split; [by apply Hall|]. split; [|by apply Hdone].
    intros t0 Ht0. eapply prefix_elem; [apply Hx|]. simpl. apply elem_of_app. right. by apply Hws.
  - intros _ Hl Hne. destruct (Hmade Hl Hne) as (tx & e' & -> & Hc'). eauto.
Qed.

(** ** Reliable surroundings *)

(** Broadcasts are accepted, the notifier takes registrations and the chain has a
    best block. *)
Class Reliable : Prop := {
  rel_publish tx e : (PublishTransaction tx e).1 = Ok tt;
  rel_register id d h e : (RegisterConfirmationsNtfn id d h e).1 = Ok tt;
  rel_best e : is_ok (GetBestBlock e).1 = true
}.

Definition oks {A} (r : res A) (u : utxoNursery) : Prop := exists a, r = Ok a.

Lemma swp_oks_bind {A B} (m : NU A) (f : A -> NU B) u :
  swp m oks u -> (forall a u', m u = (Ok a, u') -> swp (f a) oks u') -> swp (m ≫= f) oks u.
Proof.
  intros Hm Hf. apply swp_bind, swp_intro. intros r u' E. destruct (swp_elim _ _ _ _ _ Hm E) as [a ->].
  by apply Hf.
Qed.

Lemma swp_publish_ok {RL : Reliable} tx u : swp (publish tx) oks u.
Proof.
  apply swp_bind, swp_upd, swp_env. intros r e E. exists tt.
  pose proof (rel_publish tx (u_env (log_published tx u))) as H. by rewrite E in H.
Qed.

Lemma swp_register_ok {RL : Reliable} id h w u :
  swp (_ ← env (RegisterConfirmationsNtfn id ConfDepth h); st_upd (add_waiter w)) oks u.
Proof.
  apply swp_bind, swp_env. intros r e E. pose proof (rel_register id ConfDepth h (u_env u)) as H.
  rewrite E in H. simpl in H. subst r. apply swp_upd. by exists tt.
Qed.

Lemma swp_sweepCribOutputs_ok {RL : Reliable} h bs u : swp (sweepCribOutputs h bs) oks u.
Proof.
  revert u. induction bs as [|b bs IH]; intros u; [apply swp_ret; by exists tt|].
  apply swp_oks_bind; [|intros; apply IH]. apply swp_oks_bind; [by eexists|].
  intros p u' [= <- <-]. set (u1 := set_babies _ _). set (p := length _).
  assert (forall u2, u_babies u2 = u_babies u1 -> read_baby p u2 = (Ok b, u2)) as Hr.
  { intros u2 E. unfold read_baby. rewrite E. simpl. by rewrite list_lookup_middle. }
  apply swp_bind. eapply swp_eq; [by apply Hr|]. cbn beta iota. apply swp_oks_bind; [apply swp_publish_ok|].
  intros a u2 E2. apply swp_bind. eapply swp_eq; [apply Hr|].
  { unfold publish, mbind, st_bind, st_upd, env, st_zoom in E2. by destruct (PublishTransaction _ _); simplify_eq. }
  apply swp_register_ok.
Qed.

Lemma swp_graduateClass_ok {SS : StandardSigner} {RL : Reliable} h u st :
  nursery_db ns (u_db u) st -> is_u32 h ->
  (forall t kids bs, FetchClass ns h (u_db u) = Ok (t, kids, bs) ->
     kids = [] \/ h <= lastFinalized st \/ exists tx e', createSweepTx kids h (u_env u) = (Ok tx, e')) ->
  swp (graduateClass ns h) oks u.
Proof.
  intros Hdb Hh Hsw. destruct (FetchClass_spec ns (u_db u) st h (proj1 Hdb) (proj2 Hdb) Hh)
    as (kids & bs & dk & dc & Ef & Hk & Hks & Hc & Hcs).
  apply swp_bind, swp_upd, swp_bind, swp_query. change (u_db (set_bestHeight h u)) with (u_db u).
  rewrite Ef. apply swp_bind, swp_query. change (u_db (set_bestHeight h u)) with (u_db u).
  rewrite (LastFinalizedHeight_eq _ _ Hdb). apply swp_bind.
  eapply swp_mono; [eapply (swp_settle h (set_bestHeight h u) st dk kids); done|].
  intros [t|er] u1.
  2: { intros (e & _ & Hne & Hlt & Ec). simpl in Ec.
       destruct (Hsw _ _ _ Ef) as [?|[?|(tx & e' & ?)]]; [done|lia|congruence]. }
  intros (e & db1 & st1 & -> & Hdb1 & F1 & _). apply swp_bind, swp_intro. intros r1 u2 E1.
  assert (oks r1 u2) as [[] ->].
  { eapply swp_elim; [|exact E1]. destruct t as [tx|]; [|by exists tt].
    apply swp_oks_bind; [apply swp_publish_ok|]. intros. apply swp_register_ok. }
  assert (u_db u2 = db1) as Hdb2.
  { destruct (swp_elim _ _ _ _ _ (swp_sweepMature h t kids _) E1) as (e2 & sw & ws & -> & _). done. }
  apply swp_bind, swp_intro. intros r2 u3 E2. destruct (swp_elim _ _ _ _ _ (swp_sweepCribOutputs_ok h bs u2) E2) as [[] ->].
  pose proof (cs_db _ _ _ _ _ (swp_elim _ _ _ _ _ (swp_sweepCribOutputs h bs u2) E2)) as Hdb3.
  destruct (GraduateHeight_refines ns db1 st1 h (proj1 Hdb1) Hh) as (db4 & E4 & _).
  eapply swp_store; [rewrite Hdb3, Hdb2; exact E4|]. by exists tt.
Qed.

(** ** Theorems on graduation *)

(** C31: whatever goes wrong while the outputs of a height are graduated, the
    nursery only ever broadcasts the sweep it has first recorded for the height
    and the presigned timeout transactions of the height's crib outputs; no output
    changes its state before its confirmation; and when it succeeds, the sweep and
    every timeout transaction have been broadcast, each of them is being waited
    for, and the height is recorded as graduated. *)
Theorem graduate_class_correct {SS : StandardSigner} h u st r u' :
  nursery_db ns (u_db u) st -> is_u32 h -> graduateClass ns h u = (r, u') ->
  exists kids bs dk dc, FetchClass ns h (u_db u) = Ok (finalTx st h, kids, bs)
    /\ class st h Kndr dk /\ kids_of st dk kids /\ class st h Crib dc /\ babies_of st dc bs
    /\ exists st' sw bs1, graduates h st kids bs r u u' st' sw bs1.
Proof.
  intros Hdb Hh E. destruct (swp_graduateClass h u st Hdb Hh) as (kids & bs & dk & dc & ? & ? & ? & ? & ? & Hs).
  exists kids, bs, dk, dc. do 5 (split; [done|]). exact (swp_elim _ _ _ _ _ Hs E).
Qed.

(** Graduating a height again, after a failure or a restart and whatever the
    outside world has become, never broadcasts a different sweep for it. *)
Theorem retry_same_sweep {SS : StandardSigner} h u st r u1 u2 r2 u3 :
  nursery_db ns (u_db u) st -> is_u32 h ->
  graduateClass ns h u = (r, u1) -> u_db u2 = u_db u1 -> graduateClass ns h u2 = (r2, u3) ->
  exists sw bs1 sw2 bs2,
    u_published u1 = u_published u ++ sw ++ map baby_timeoutTx bs1
    /\ u_published u3 = u_published u2 ++ sw2 ++ map baby_timeoutTx bs2
    /\ (forall b, b ∈ bs1 ++ bs2 -> exists cp op, st !! LOut cp Crib op = Some (IBaby b) /\ baby_expiry b = h)
    /\ forall t t2, t ∈ sw -> t2 ∈ sw2 -> t = t2.
Proof.
  intros Hdb Hh E1 Edb E2.
  destruct (swp_graduateClass h u st Hdb Hh) as (kids & bs & dk & dc & _ & _ & _ & Hc & Hcs & Hs).
  destruct (swp_elim _ _ _ _ _ Hs E1) as (st1 & sw & bs1 & G1).
  pose proof (ga_db _ _ _ _ _ _ _ _ _ _ G1) as Hdb1. rewrite <- Edb in Hdb1.
  destruct (swp_graduateClass h u2 st1 Hdb1 Hh) as (kids2 & bs' & dk2 & dc2 & _ & _ & _ & Hc2 & Hcs2 & Hs2).
  destruct (swp_elim _ _ _ _ _ Hs2 E2) as (st2 & sw2 & bs2 & G2).
  exists sw, bs1, sw2, bs2. split; [apply G1|]. split; [apply G2|]. split.
  - assert (forall s dn l b, nursery_db ns (u_db u) st -> same_outputs st s -> class s h Crib dn ->
      babies_of s dn l -> b ∈ l -> exists cp op, st !! LOut cp Crib op = Some (IBaby b) /\ baby_expiry b = h) as Hb.
    { intros s dn l b [_ Hi] [So Sx] [_ Hcl] Hbo Hin.
      destruct (Forall2_elem_r _ _ _ _ Hbo Hin) as ([cp op] & Hdn & Hb). rewrite So in Hb.
      apply Hcl in Hdn. rewrite Sx in Hdn. destruct (ni_idx_crib _ Hi _ _ _ Hdn) as (b' & Hb' & <-).
      simpl in Hb. rewrite Hb in Hb'. simplify_eq. eauto. }
    intros b [Hin|Hin]%elem_of_app.
    + eapply (Hb st dc bs); [done|by split|done|done|]. eapply prefix_elem; [apply G1|done].
    + eapply (Hb st1 dc2 bs'); [done|apply G1|done|done|]. eapply prefix_elem; [apply G2|done].
  - intros t t2 Ht Ht2. destruct (ga_sw _ _ _ _ _ _ _ _ _ _ G1) as [->|(t0 & -> & Hf & Hl)]; [set_solver|].
    apply list_elem_of_singleton in Ht as ->.
    destruct (ga_sw _ _ _ _ _ _ _ _ _ _ G2) as [->|(t0' & -> & Hf2 & Hl2)]; [set_solver|].
    apply list_elem_of_singleton in Ht2 as ->. rewrite (ga_once _ _ _ _ _ _ _ _ _ _ G2 Hl) in Hf2. congruence.
Qed.

(** With reliable surroundings, and when the sweep of the height can be created
    (or has been before, or there is nothing to sweep), graduating the height
    succeeds. *)
Theorem graduate_class_succeeds {SS : StandardSigner} {RL : Reliable} h u st :
  nursery_db ns (u_db u) st -> is_u32 h ->
  (forall t kids bs, FetchClass ns h (u_db u) = Ok (t, kids, bs) ->
     kids = [] \/ h <= lastFinalized st \/ exists tx e', createSweepTx kids h (u_env u) = (Ok tx, e')) ->
  exists u', graduateClass ns h u = (Ok tt, u').
Proof.
  intros Hdb Hh Hsw. pose proof (swp_graduateClass_ok h u st Hdb Hh Hsw) as [[] E].
  exists (graduateClass ns h u).2. rewrite <- E. by destruct (graduateClass ns h u).
Qed.

(** ** Reloading a height *)

Record regraduates (h : Z) st (kids : list kidOutput) (bs : list babyOutput) (r : res ()) u u' : Prop := {
  rg_db : u_db u' = u_db u;
  rg_ext : ext u u';
  rg_pub : exists bs1, bs1 `prefix_of` bs /\ u_published u' = u_published u ++ map baby_timeoutTx bs1 /\ (r = Ok tt -> bs1 = bs);
  rg_new w : w ∈ u_waiters u' -> w ∈ u_waiters u \/ (exists p id, w = WTimeout p id h)
    \/ exists t, finalTx st h = Some t /\ w = WSweep h kids (TxHash t);
  rg_ok : r = Ok tt ->
    (forall t, finalTx st h = Some t -> WSweep h kids (TxHash t) ∈ u_waiters u')
    /\ (forall b, b ∈ bs -> exists p, u_babies u' !! p = Some b
          /\ WTimeout p (TxHash (baby_timeoutTx b)) h ∈ u_waiters u')
}.

Lemma swp_regraduateClass h u st :
  nursery_db ns (u_db u) st -> is_u32 h ->
  exists kids bs dk dc, class st h Kndr dk /\ kids_of st dk kids /\ class st h Crib dc /\ babies_of st dc bs
    /\ swp (regraduateClass ns h) (fun r u' => regraduates h st kids bs r u u') u.
Proof.
  intros Hdb Hh. destruct (FetchClass_spec ns (u_db u) st h (proj1 Hdb) (proj2 Hdb) Hh)
    as (kids & bs & dk & dc & Ef & Hk & Hks & Hc & Hcs).
  exists kids, bs, dk, dc. do 4 (split; [done|]).
  apply swp_bind, swp_query. rewrite Ef. apply swp_bind.
  assert (swp (match finalTx st h with None => mret tt | Some tx => registerSweepConf tx kids h end)
    (fun r u' => exists e ws, u' = mkUtxoNursery (u_db u) e (u_bestHeight u) (u_kids u) (u_babies u)
                        (u_waiters u ++ ws) (u_published u)
      /\ (forall w, w ∈ ws -> exists t, finalTx st h = Some t /\ w = WSweep h kids (TxHash t))
      /\ (r = Ok tt -> forall t, finalTx st h = Some t -> WSweep h kids (TxHash t) ∈ ws)) u) as Hs.
  { destruct (finalTx st h) as [t|].
    - apply swp_bind, swp_env. intros [[]|er] e _.
      + apply swp_upd. exists e, [WSweep h kids (TxHash t)]. split; [done|].
        split; [intros w ->%list_elem_of_singleton; eauto|]. intros _ t' [= <-]. by apply list_elem_of_singleton.
      + exists e, []. rewrite app_nil_r. split; [done|]. split; [set_solver|done].
    - apply swp_ret. exists (u_env u), []. rewrite app_nil_r. split; [by destruct u|]. split; [set_solver|done]. }
  eapply swp_mono; [exact Hs|]. clear Hs. intros r1 u1 (e & ws & -> & Hnw & Hok).
  assert (forall w, w ∈ u_waiters u ++ ws -> w ∈ u_waiters u \/ (exists p id, w = WTimeout p id h)
    \/ exists t, finalTx st h = Some t /\ w = WSweep h kids (TxHash t)) as Hnew.
  { intros w [?|?%Hnw]%elem_of_app; [by left|right; by right]. }
  destruct r1 as [[]|er].
  2: { split; simpl; try done; [split; simpl; try done; by apply prefix_app_r|].
       exists []. split; [apply prefix_nil|]. by rewrite app_nil_r. }
  eapply swp_mono; [apply swp_sweepCribOutputs|].
  intros r2 u3 [Hx Hdb3 _ (bs1 & Hpre & Hpub & Hall) Hnw3 Hdone]. simpl in *. split.
  - done.
  - etrans; [|exact Hx]. split; simpl; try done; by apply prefix_app_r.
  - eauto.
  - intros w [?|?]%Hnw3; [by apply Hnew|right; by left].
  - intros ->. split; [|by apply Hdone]. intros t Ht. eapply prefix_elem; [apply Hx|]. simpl.
    apply elem_of_app. right. by apply Hok.
Qed.

(** A height at or below the last finalized one for which no sweep was
    recorded is never swept: neither graduating nor reloading it broadcasts or
    waits for a sweep, whatever kindergarten outputs are registered there. *)
Theorem unfinalized_class_stuck {SS : StandardSigner} h u st r u' r2 u2 :
  nursery_db ns (u_db u) st -> is_u32 h -> h <= lastFinalized st -> finalTx st h = None ->
  graduateClass ns h u = (r, u') -> regraduateClass ns h u = (r2, u2) ->
  (forall w kids id, w ∈ u_waiters u' ++ u_waiters u2 -> w = WSweep h kids id -> w ∈ u_waiters u)
  /\ (forall t, t ∈ u_published u' ++ u_published u2 -> t ∈ u_published u
        \/ exists cp op b, st !! LOut cp Crib op = Some (IBaby b) /\ t = baby_timeoutTx b).
Proof.
  intros Hdb Hh Hl Hf E1 E2.
  destruct (swp_graduateClass h u st Hdb Hh) as (kids & bs & dk & dc & _ & _ & _ & Hc & Hcs & Hs).
  destruct (swp_elim _ _ _ _ _ Hs E1) as (st1 & sw & bs1 & G1).
  destruct (swp_regraduateClass h u st Hdb Hh) as (kids2 & bs2 & dk2 & dc2 & _ & _ & Hc2 & Hcs2 & Hs2).
  pose proof (swp_elim _ _ _ _ _ Hs2 E2) as G2.
  pose proof (ga_once _ _ _ _ _ _ _ _ _ _ G1 Hl) as Hf1. rewrite Hf in Hf1.
  assert (forall l dn t l', babies_of st dn l -> l' `prefix_of` l -> t ∈ map baby_timeoutTx l' ->
    exists cp op b, st !! LOut cp Crib op = Some (IBaby b) /\ t = baby_timeoutTx b) as Hb.
  { intros l dn t l' Hbo Hpre (b & -> & Hin)%list_elem_of_fmap. apply (prefix_elem _ _ _ Hpre) in Hin.
    destruct (Forall2_elem_r _ _ _ _ Hbo Hin) as ([cp op] & _ & Hb). eauto. }
  split.
  - intros w ks id [Hin|Hin]%elem_of_app ->.
    + destruct (ga_new _ _ _ _ _ _ _ _ _ _ G1 _ Hin) as [?|[(p & i & ?)|(t & Ht & _)]]; [done|done|congruence].
    + destruct (rg_new _ _ _ _ _ _ _ G2 _ Hin) as [?|[(p & i & ?)|(t & Ht & _)]]; [done|done|congruence].
  - intros t [Hin|Hin]%elem_of_app.
    + rewrite (ga_pub _ _ _ _ _ _ _ _ _ _ G1) in Hin.
      destruct (ga_sw _ _ _ _ _ _ _ _ _ _ G1) as [->|(t0 & _ & Ht & _)]; [|congruence].
      apply elem_of_app in Hin as [?|Hin]; [by left|]. right. eapply Hb; [exact Hcs|apply G1|done].
    + destruct (rg_pub _ _ _ _ _ _ _ G2) as (bs3 & Hpre & E & _). rewrite E in Hin.
      apply elem_of_app in Hin as [?|Hin]; [by left|]. right. eapply Hb; [exact Hcs2|exact Hpre|done].
Qed.

End NurseryLife.
