(* ===== verification/NurseryRun.v ===== *)
(** * Confirmations, restarts and requests

    The rest of utxonursery.go: closing channels whose outputs have all
    graduated, what a restart re-registers, what an incubation request stores,
    and the whole path of a commitment output from the request to the wallet. *)

From Stdlib Require Import ZArith Lia Sorted.
From stdpp Require Import base gmap countable strings numbers list.
From S2P Require Import Prelude Stream Tx Outputs Bolt NurseryStore NurseryAbs NurseryRefine.
From S2P Require Import NurseryInv NurseryClass NurseryQuery NurseryProps Effects Sweep Nursery NurserySweep.
From S2P Require Import NurseryLife.
Local Open Scope Z_scope.

Section NurseryRun.
Context {BTC : Btcec} {CE : ChainEnv} {NE : NurseryEnv} (ns : nurseryStore).
Implicit Types (u : utxoNursery) (st : gmap loc item).

(** ** Closing channels *)

(** The channels of [cps] whose outputs have all graduated are gone; everything
    else is as it was. *)
Record forgets (cps : list OutPoint) st st' : Prop := {
  fg_gone cp c op : cp ∈ cps -> mature st cp -> st' !! LOut cp c op = None;
  fg_kept cp c op : cp ∉ cps \/ ~ mature st cp -> st' !! LOut cp c op = st !! LOut cp c op;
  fg_rest l : match l with LOut _ _ _ => False | _ => True end -> st' !! l = st !! l
}.

Lemma untracked_out st cp c op : ~ tracked st cp -> st !! LOut cp c op = None.
Proof. intros Ht. apply eq_None_not_Some. intros Hs. apply Ht. by exists c, op. Qed.

Lemma remove_out cp cp' c op st :
  a_RemoveChannel cp st !! LOut cp' c op = if decide (cp' = cp) then None else st !! LOut cp' c op.
Proof.
  apply option_eq. intros i. rewrite RemoveChannel_lookup. simpl. case_decide; naive_solver.
Qed.

Lemma remove_rest cp l st :
  match l with LOut _ _ _ => False | _ => True end -> a_RemoveChannel cp st !! l = st !! l.
Proof.
  intros Hl. apply option_eq. intros i. rewrite RemoveChannel_lookup. destruct l; simpl in *; naive_solver.
Qed.

Lemma forgets_nil st : forgets [] st st.
Proof. split; [set_solver|done|done]. Qed.

Lemma forgets_skip cp cps st st' :
  ~ (tracked st cp /\ mature st cp) -> tracked st cp \/ ~ tracked st cp ->
  forgets cps st st' -> forgets (cp :: cps) st st'.
Proof.
  intros Hn Hem [G K R]. split; [|intros cp' c op Hc; apply K; set_solver|done].
  intros cp' c op Hin Hm. destruct (decide (cp' ∈ cps)) as [Hc|Hc]; [by apply G|].
  rewrite K by by left. apply elem_of_cons in Hin as [->|?]; [|done].
  apply untracked_out. tauto.
Qed.

Lemma forgets_remove cp cps st st' :
  mature st cp -> forgets cps (a_RemoveChannel cp st) st' -> forgets (cp :: cps) st st'.
Proof.
  intros Hcp [G K R].
  assert (forall cp', cp' <> cp -> mature (a_RemoveChannel cp st) cp' <-> mature st cp') as Hm.
  { intros cp' Hne. split; intros H c op; [rewrite <- (decide_False (P := cp' = cp) None (st !! LOut cp' c op)) by done;
      rewrite <- remove_out; apply H|]. rewrite remove_out, decide_False by done. apply H. }
  assert (mature (a_RemoveChannel cp st) cp) as Hgone.
  { intros c op [i Hi]. by rewrite remove_out, decide_True in Hi. }
  split.
  - intros cp' c op Hin Hmat. destruct (decide (cp' = cp)) as [->|Hne].
    + destruct (decide (cp ∈ cps)); [by apply G|]. rewrite K by by left. by rewrite remove_out, decide_True.
    + apply G; [set_solver|by apply Hm].
  - intros cp' c op Hc. destruct (decide (cp' = cp)) as [->|Hne].
    + destruct Hc as [Hc|Hc]; [set_solver|done].
    + rewrite K; [by rewrite remove_out, decide_False|].
      destruct Hc as [?|?]; [left; set_solver|right; by rewrite Hm].
  - intros l Hl. rewrite R, remove_rest; done.
Qed.

Lemma swp_closeAndRemoveIfMature cp u st :
  nursery_db ns (u_db u) st -> OutPoint_ok cp ->
  swp (closeAndRemoveIfMature ns cp) (fun r u' => r = Ok tt /\ exists db',
    u' = set_db db' u /\ nframe ns (u_db u) db'
    /\ (tracked st cp /\ mature st cp /\ nursery_db ns db' (a_RemoveChannel cp st)
        \/ ~ (tracked st cp /\ mature st cp) /\ db' = u_db u)) u.
Proof.
  intros [H Hi] Hcp. destruct (IsMatureChannel_spec ns _ _ _ H Hcp) as [Ht Hu].
  apply swp_bind, swp_try, swp_query. destruct (tracked_em ns _ _ _ _ H Hcp) as [Tr|Tr].
  - destruct (Ht Tr) as ([] & -> & Hm).
    + assert (mature st cp) as Hmat by by apply Hm.
      destruct (RemoveChannel_mature ns _ _ _ H Hi Hcp Tr Hmat) as (db' & E & F & H').
      eapply swp_store; [exact E|]. split; [done|]. exists db'. split; [done|]. split; [done|]. left.
      split; [done|]. split; [done|]. split; [done|]. by apply a_RemoveChannel_NInv.
    + apply swp_ret. split; [done|]. exists (u_db u). split; [by destruct u|]. split; [apply nframe_refl|].
      right. split; [|done]. intros [_ Hmat%Hm]. done.
  - rewrite (Hu Tr), decide_True by done. apply swp_ret. split; [done|]. exists (u_db u).
    split; [by destruct u|]. split; [apply nframe_refl|]. right. split; [|done]. by intros [? _].
Qed.

Lemma swp_closeAll cps u st :
  nursery_db ns (u_db u) st -> Forall OutPoint_ok cps ->
  swp (st_iter (closeAndRemoveIfMature ns) cps) (fun r u' => r = Ok tt /\ exists db' st',
    u' = set_db db' u /\ nframe ns (u_db u) db' /\ nursery_db ns db' st' /\ forgets cps st st') u.
Proof.
  revert u st. induction cps as [|cp cps IH]; intros u st Hdb Hok.
  - apply swp_ret. split; [done|]. exists (u_db u), st. split; [by destruct u|].
    split; [apply nframe_refl|]. split; [done|apply forgets_nil].
  - apply Forall_cons in Hok as [Hcp Hok]. apply swp_bind.
    eapply swp_mono; [by apply swp_closeAndRemoveIfMature|].
    intros r u1 (-> & db1 & -> & F1 & [(Tr & Hm & Hdb1)|[Hn ->]]).
    + eapply swp_mono; [by apply (IH (set_db db1 u) _ Hdb1)|].
      intros r u2 (-> & db2 & st2 & -> & F2 & Hdb2 & Hfg). split; [done|]. exists db2, st2.
      split; [done|]. split; [by eapply nframe_trans|]. split; [done|]. by apply forgets_remove.
    + eapply swp_mono; [by apply (IH (set_db (u_db u) u) st)|].
      intros r u2 (-> & db2 & st2 & -> & F2 & Hdb2 & Hfg). split; [done|]. exists db2, st2.
      split; [done|]. split; [done|]. split; [done|]. apply forgets_skip; [done| |done].
      eapply tracked_em; [apply Hdb|done].
Qed.

(** ** Confirmations *)

Lemma SetConfHeight_length c k : length (kid_Encode (SetConfHeight c k)) = length (kid_Encode k).
Proof. unfold kid_Encode. by rewrite !length_app, !put_be_length. Qed.

Lemma SetConfHeight_ok c k : item_ok (IKid k) -> is_u32 c -> item_ok (IKid (SetConfHeight c k)).
Proof.
  intros [Hl (Hb & Hs & Hcp & Hbm & Ham & _)] Hc. split; [|exact (conj Hb (conj Hs (conj Hcp (conj Hbm (conj Ham Hc)))))].
  unfold item_enc. by rewrite SetConfHeight_length.
Qed.

Lemma baby_SetConfHeight_ok c b :
  item_ok (IBaby b) -> item_ok (IKid (baby_kidOutput b)) -> is_u32 c ->
  item_ok (IBaby (baby_SetConfHeight c b)) /\ item_ok (IKid (baby_kidOutput (baby_SetConfHeight c b))).
Proof.
  intros [Hl (He & Ht & Hk)] Hkid Hc. pose proof (SetConfHeight_ok _ _ Hkid Hc) as Hk'.
  split; [|done]. split; [|by destruct Hk' as [_ Hk']].
  unfold item_enc, baby_Encode in *. rewrite !length_app, !put_be_length in *.
  cbn [baby_SetConfHeight baby_timeoutTx baby_kidOutput]. by rewrite SetConfHeight_length.
Qed.

Lemma preschool_fires p k c u st :
  nursery_db ns (u_db u) st -> u_kids u !! p = Some k ->
  is_Some (st !! LOut (kid_originChanPoint k) Pscl (kid_OutPoint k)) -> item_ok (IKid k) -> is_u32 c ->
  exists db', waitForPreschoolConf ns p (Some c) u
    = (Ok tt, set_db db' (set_kids (<[p := SetConfHeight c k]> (u_kids u)) u))
    /\ nursery_db ns db' (a_PreschoolToKinder (SetConfHeight c k) st) /\ nframe ns (u_db u) db'.
Proof.
  intros [H Hi] Hp Hs Hk Hc.
  destruct (PreschoolToKinder_refines ns (u_db u) st (SetConfHeight c k) H (NInv_typed_heights _ Hi)
              (SetConfHeight_ok _ _ Hk Hc)) as (db' & E & F & H').
  exists db'. split; [|split; [split; [done|by apply a_PreschoolToKinder_NInv]|done]].
  unfold waitForPreschoolConf, mbind, st_bind, read_kid at 1. rewrite Hp.
  unfold write_kid, st_upd, read_kid. cbn [u_kids set_kids].
  rewrite list_lookup_insert_eq by (by eapply lookup_lt_Some).
  unfold st_try, store, st_zoom. cbn [u_db set_kids]. by rewrite E.
Qed.

Lemma timeout_fires p b b0 c u st :
  nursery_db ns (u_db u) st -> u_babies u !! p = Some b ->
  st !! LOut (baby_originChanPoint b) Crib (baby_OutPoint b) = Some (IBaby b0) ->
  baby_expiry b0 = baby_expiry b -> item_ok (IBaby b) -> item_ok (IKid (baby_kidOutput b)) -> is_u32 c ->
  exists db', waitForTimeoutConf ns p (Some c) u
    = (Ok tt, set_db db' (set_babies (<[p := baby_SetConfHeight c b]> (u_babies u)) u))
    /\ nursery_db ns db' (a_CribToKinder (baby_SetConfHeight c b) st) /\ nframe ns (u_db u) db'.
Proof.
  intros [H Hi] Hp Hs He Hb Hk Hc. destruct (baby_SetConfHeight_ok _ _ Hb Hk Hc) as [Hb' Hk'].
  destruct (CribToKinder_refines ns (u_db u) st (baby_SetConfHeight c b) H (ni_final _ Hi) Hb' Hk')
    as (db' & E & F & H').
  exists db'. split; [|split; [split; [done|by eapply a_CribToKinder_NInv]|done]].
  unfold waitForTimeoutConf, mbind, st_bind, read_baby at 1. rewrite Hp.
  unfold write_baby, st_upd, read_baby. cbn [u_babies set_babies].
  rewrite list_lookup_insert_eq by (by eapply lookup_lt_Some).
  unfold st_try, store, st_zoom. cbn [u_db set_babies]. by rewrite E.
Qed.

Lemma sweep_fires h closes c u st :
  nursery_db ns (u_db u) st -> is_u32 h -> Forall OutPoint_ok closes ->
  exists db' st1 st', waitForSweepConf ns h closes (Some c) u = (Ok tt, set_db db' u)
    /\ nursery_db ns db' st' /\ nframe ns (u_db u) db' /\ graduated h st st1 /\ forgets closes st1 st'.
Proof.
  intros [H Hi] Hh Hcl. destruct (GraduateKinder_refines ns _ _ h H Hi Hh) as (db1 & st1 & E & F & Hg & H1).
  assert (nursery_db ns db1 st1) as Hdb1 by (split; [done|by eapply graduated_NInv]).
  eassert (swp (waitForSweepConf ns h closes (Some c)) (fun r u' => r = Ok tt /\ exists db' st', u' = set_db db' u
    /\ nursery_db ns db' st' /\ nframe ns (u_db u) db' /\ forgets closes st1 st') u) as Hs.
  { apply swp_bind, swp_try. eapply swp_store; [exact E|]. apply swp_bind, swp_try.
    eapply swp_mono; [by apply (swp_closeAll closes (set_db db1 u) st1)|].
    intros r u' (-> & db' & st' & -> & F' & Hdb' & Hfg). apply swp_ret. split; [done|].
    exists db', st'. split; [done|]. split; [done|]. split; [by eapply nframe_trans|done]. }
  destruct (waitForSweepConf ns h closes (Some c) u) as [r u'] eqn:Ew.
  destruct (swp_elim _ _ _ _ _ Hs Ew) as (-> & db' & st' & -> & Hdb' & F' & Hfg).
  exists db', st1, st'. done.
Qed.

(** When the commitment or success transaction of a preschool output confirms,
    the goroutine records the height in the output and moves it to the
    kindergarten, under the height at which it can be swept. *)
Theorem preschool_confirmed p k c u st :
  nursery_db ns (u_db u) st -> u_kids u !! p = Some k ->
  is_Some (st !! LOut (kid_originChanPoint k) Pscl (kid_OutPoint k)) -> item_ok (IKid k) -> is_u32 c ->
  exists db', waitForPreschoolConf ns p (Some c) u
    = (Ok tt, set_db db' (set_kids (<[p := SetConfHeight c k]> (u_kids u)) u))
    /\ nursery_db ns db' (a_PreschoolToKinder (SetConfHeight c k) st) /\ nframe ns (u_db u) db'.
Proof. apply preschool_fires. Qed.

(** When the timeout transaction of a crib output confirms, the goroutine
    records the height in the output and moves it to the kindergarten, under its
    confirmation height plus its delay. *)
Theorem timeout_confirmed p b b0 c u st :
  nursery_db ns (u_db u) st -> u_babies u !! p = Some b ->
  st !! LOut (baby_originChanPoint b) Crib (baby_OutPoint b) = Some (IBaby b0) ->
  baby_expiry b0 = baby_expiry b -> item_ok (IBaby b) -> item_ok (IKid (baby_kidOutput b)) -> is_u32 c ->
  exists db', waitForTimeoutConf ns p (Some c) u
    = (Ok tt, set_db db' (set_babies (<[p := baby_SetConfHeight c b]> (u_babies u)) u))
    /\ nursery_db ns db' (a_CribToKinder (baby_SetConfHeight c b) st) /\ nframe ns (u_db u) db'.
Proof. apply timeout_fires. Qed.

(** When a sweep confirms, exactly the kindergarten outputs of its height
    become graduated, then every channel among those it swept from with nothing
    left to graduate is forgotten, and no other. *)
Theorem sweep_confirmed h closes c u st :
  nursery_db ns (u_db u) st -> is_u32 h -> Forall OutPoint_ok closes ->
  exists db' st1 st', waitForSweepConf ns h closes (Some c) u = (Ok tt, set_db db' u)
    /\ nursery_db ns db' st' /\ nframe ns (u_db u) db' /\ graduated h st st1 /\ forgets closes st1 st'.
Proof. apply sweep_fires. Qed.

(** ** Incubation *)

Definition positive_kids (l : list kidOutput) : list kidOutput := filter (fun k => 0 < kid_Amount k) l.

(** The outputs of a request, without the loops: the commitment output and the
    incoming HTLCs unless they are worth nothing, the outgoing HTLCs on the remote
    party's commitment, and as baby outputs the outgoing HTLCs on our own. *)
Definition request_kids (cp : OutPoint) (c : option CommitOutputResolution)
    (out : list OutgoingHtlcResolution) (inc : list IncomingHtlcResolution) : list kidOutput :=
  positive_kids (option_list (kid_of_commit cp <$> c)) ++ positive_kids (map (kid_of_incoming cp) inc)
  ++ map (kid_of_outgoing cp) (filter (fun h => ohr_SignedTimeoutTx h = None) out).

Definition request_babies (cp : OutPoint) (out : list OutgoingHtlcResolution) : list babyOutput :=
  filter (fun b => 0 < baby_Amount b) (omap (fun h => makeBabyOutput cp h <$> ohr_SignedTimeoutTx h) out).

Lemma build_outputs_eq cp c out inc :
  build_outputs cp c out inc = (request_kids cp c out inc, request_babies cp out).
Proof.
  unfold build_outputs, request_kids, request_babies.
  assert (forall l acc, foldl (fun kids h => let o := kid_of_incoming cp h in
      if 0 <? kid_Amount o then kids ++ [o] else kids) acc l
      = acc ++ positive_kids (map (kid_of_incoming cp) l)) as Hinc.
  { unfold positive_kids. induction l as [|h l IH]; intros acc; [by rewrite app_nil_r|].
    cbn [foldl map]. rewrite IH, filter_cons. cbv zeta.
    destruct (Z.ltb_spec 0 (kid_Amount (kid_of_incoming cp h))); case_decide; try lia; [|done].
    by rewrite <- app_assoc. }
  rewrite Hinc, app_assoc.
  replace (match c with Some c0 => _ | None => [] end)
    with (positive_kids (option_list (kid_of_commit cp <$> c))).
  2: { destruct c as [c|]; [|done]. unfold positive_kids.
       change (option_list (kid_of_commit cp <$> Some c)) with [kid_of_commit cp c]. rewrite filter_cons. destruct (Z.ltb_spec 0 (kid_Amount (kid_of_commit cp c))); case_decide; lia || done. }
  generalize (positive_kids (option_list (kid_of_commit cp <$> c)) ++ positive_kids (map (kid_of_incoming cp) inc)).
  intros ks. clear Hinc. match goal with |- foldl ?F _ _ = _ => set (f := F) end.
  enough (forall bs, foldl f (ks, bs) out
    = (ks ++ map (kid_of_outgoing cp) (filter (fun h => ohr_SignedTimeoutTx h = None) out),
       bs ++ filter (fun b => 0 < baby_Amount b)
               (omap (fun h => makeBabyOutput cp h <$> ohr_SignedTimeoutTx h) out))) as H by apply (H []).
  intros bs. subst f. revert ks bs. induction out as [|h out IH]; intros ks bs; [by rewrite !app_nil_r|].
  cbn [foldl omap list_omap]. rewrite filter_cons. destruct (ohr_SignedTimeoutTx h) as [tx|] eqn:Et.
  - rewrite decide_False by done. cbn [fmap option_fmap option_map]. rewrite filter_cons.
    destruct (Z.ltb_spec 0 (baby_Amount (makeBabyOutput cp h tx))); case_decide; try lia; rewrite IH; [|done].
    by rewrite <- app_assoc.
  - rewrite decide_True by done. rewrite IH. cbn [map]. by rewrite <- app_assoc.
Qed.

Definition db_same u u' : Prop := u_db u' = u_db u.
#[local] Instance db_same_preorder : PreOrder db_same.
Proof. split; [by intros u|]. intros u1 u2 u3 H1 H2. unfold db_same in *. congruence. Qed.

Lemma swp_sweepExpired_db best bs u : swp (sweepExpiredBabies best bs) (fun _ u' => db_same u u') u.
Proof.
  destruct bs as [|b0 bs]; [apply swp_ret; reflexivity|]. apply swp_bind. eapply swp_eq; [reflexivity|].
  cbn beta iota. change u with u at 1. set (u0 := set_babies _ u). change (db_same u) with (db_same u0).
  apply (swp_iter _ db_same). intros b u1 _. apply swp_bind, swp_upd. case_match; [|by apply swp_ret].
  apply swp_intro. intros r u' E. set (u2 := set_babies _ u1) in E.
  destruct (u_babies u2 !! length (u_babies u)) as [b'|] eqn:Hb.
  - destruct (swp_elim _ _ _ _ _ (swp_sweepCribOutput _ _ _ _ Hb) E) as (e & [[-> _]|[_ ->]]); done.
  - unfold sweepCribOutput, mbind, st_bind, read_baby in E. rewrite Hb in E. by simplify_eq.
Qed.

Lemma swp_registerPreschools_db kids u : swp (registerPreschools kids) (fun _ u' => db_same u u') u.
Proof.
  destruct kids as [|k0 kids]; [apply swp_ret; reflexivity|]. apply swp_bind. eapply swp_eq; [reflexivity|].
  cbn beta iota. set (u0 := set_kids _ u). change (db_same u) with (db_same u0).
  apply (swp_iter _ db_same). intros k u1 _. apply swp_bind, swp_upd, swp_bind.
  eapply swp_eq; [reflexivity|]. cbn beta iota. apply swp_bind, swp_read_kid; [|done]. intros k' _.
  apply swp_bind, swp_env. intros [[]|er] e _; [by apply swp_upd|done].
Qed.

(** An incubation request is persisted before anything else happens: even
    when looking up the best block, a broadcast or a registration fails
    afterwards, the store holds exactly the outputs of the request that are worth
    something on top of what it held, and its indexes are consistent. *)
Theorem incubate_outputs_persisted cp c out inc u st r u' :
  nursery_db ns (u_db u) st ->
  incubate_fresh (request_kids cp c out inc) (request_babies cp out) st ->
  Forall (fun k => item_ok (IKid k)) (request_kids cp c out inc) ->
  Forall (fun b => item_ok (IBaby b)) (request_babies cp out) ->
  IncubateOutputs ns cp c out inc u = (r, u') ->
  nursery_db ns (u_db u') (a_Incubate (request_kids cp c out inc) (request_babies cp out) st)
  /\ nframe ns (u_db u) (u_db u').
Proof.
  intros [H Hi] Hf Hk Hb E.
  destruct (Incubate_refines ns _ st _ _ H Hk Hb) as (db' & Ei & F & H').
  assert (swp (IncubateOutputs ns cp c out inc) (fun _ u' => u_db u' = db') u) as Hs.
  { unfold IncubateOutputs. rewrite build_outputs_eq. apply swp_bind. eapply swp_store; [exact Ei|].
    apply swp_bind, swp_env. intros [best|er] e _; [|done].
    apply swp_bind. eapply swp_mono; [apply swp_sweepExpired_db|]. intros [[]|er] u1 H1; [|done].
    eapply swp_mono; [apply swp_registerPreschools_db|]. intros r2 u2 H2. unfold db_same in *.
    rewrite H2, H1. done. }
  rewrite (swp_elim _ _ _ _ _ Hs E). split; [|done]. split; [done|]. by apply a_Incubate_NInv.
Qed.

End NurseryRun.
