(* ===== verification/NurseryRestart.v ===== *)
(** * Restarts

    [Start] of utxonursery.go rebuilds the goroutines of a nursery from its
    database: whatever was waiting for a confirmation before is waiting again. *)

From Stdlib Require Import ZArith Lia Sorted.
From stdpp Require Import base gmap countable strings numbers list.
From S2P Require Import Prelude Stream Tx Outputs Bolt NurseryStore NurseryAbs NurseryRefine.
From S2P Require Import NurseryInv NurseryClass NurseryQuery NurseryProps Effects Sweep Nursery NurserySweep.
From S2P Require Import NurseryLife NurseryRun.
Local Open Scope Z_scope.

Section NurseryRestart.
Context {BTC : Btcec} {CE : ChainEnv} {NE : NurseryEnv} (ns : nurseryStore).
Implicit Types (u : utxoNursery) (st : gmap loc item).

(** ** What is being waited for *)

(** The transaction is among those broadcast between the two states. *)
Definition broadcast (u0 : utxoNursery) (t : MsgTx) u : Prop := exists new, u_published u = u_published u0 ++ new /\ t ∈ new.

(** The timeout transaction of every crib output that expires at [h] has been broadcast since
    [u0], and a goroutine waits for it. *)
Definition waiting_crib (h : Z) st (u0 u : utxoNursery) : Prop :=
  forall cp op b, st !! LOut cp Crib op = Some (IBaby b) -> baby_expiry b = h ->
    broadcast u0 (baby_timeoutTx b) u
    /\ exists p, u_babies u !! p = Some b /\ WTimeout p (TxHash (baby_timeoutTx b)) h ∈ u_waiters u.

(** A goroutine waits for the transaction [t] that sweeps the kindergarten outputs of height
    [h], and has all of them at hand. *)
Definition waiting_sweep (t : MsgTx) (h : Z) st u : Prop :=
  exists kids, WSweep h kids (TxHash t) ∈ u_waiters u
    /\ forall cp op k, is_Some (st !! LIdx h cp Kndr op) -> st !! LOut cp Kndr op = Some (IKid k) -> k ∈ kids.

(** A goroutine waits for the confirmation of the transaction of a preschool output, from
    some blocks before the close of its channel on. *)
Definition waiting_preschool (cp op : OutPoint) (k : kidOutput) u : Prop :=
  exists p closeHeight e e', u_kids u !! p = Some k /\ FetchClosedChannel cp e = (Ok closeHeight, e')
    /\ WPreschool p (op_Hash op) (u32 (closeHeight - ConfDepth)) ∈ u_waiters u.

Lemma broadcast_ext u0 t u u' : ext u u' -> broadcast u0 t u -> broadcast u0 t u'.
Proof.
  intros Hx (new & E & Hin). destruct (ext_published _ _ Hx) as [more E']. exists (new ++ more). split; [by rewrite E', E, app_assoc|].
  apply elem_of_app. by left.
Qed.

Lemma broadcast_from u0 u1 t u : ext u0 u1 -> broadcast u1 t u -> broadcast u0 t u.
Proof.
  intros Hx (new & E & Hin). destruct (ext_published _ _ Hx) as [more E']. exists (more ++ new). split; [by rewrite E, E', app_assoc|].
  apply elem_of_app. by right.
Qed.

Lemma waiting_crib_ext h st u0 u u' : ext u u' -> waiting_crib h st u0 u -> waiting_crib h st u0 u'.
Proof.
  intros Hx Hw cp op b Hb He. destruct (Hw cp op b Hb He) as (Hbr & p & Hp & Hin). split; [by eapply broadcast_ext|]. exists p. split.
  - eapply prefix_get; [apply Hx|done].
  - eapply prefix_elem; [apply Hx|done].
Qed.

Lemma waiting_crib_from h st u0 u1 u : ext u0 u1 -> waiting_crib h st u1 u -> waiting_crib h st u0 u.
Proof. intros Hx Hw cp op b Hb He. destruct (Hw cp op b Hb He) as (Hbr & Hp). split; [by eapply broadcast_from|done]. Qed.

Lemma waiting_sweep_ext t h st u u' : ext u u' -> waiting_sweep t h st u -> waiting_sweep t h st u'.
Proof. intros Hx (kids & Hin & Hk). exists kids. split; [eapply prefix_elem; [apply Hx|done]|done]. Qed.

Lemma waiting_preschool_ext cp op k u u' : ext u u' -> waiting_preschool cp op k u -> waiting_preschool cp op k u'.
Proof.
  intros Hx (p & ch & e & e' & Hp & Hf & Hin). exists p, ch, e, e'. split; [|split; [done|]].
  - eapply prefix_get; [apply Hx|done].
  - eapply prefix_elem; [apply Hx|done].
Qed.

(** The state matters only through the outputs. *)
Record same_waiting st st' : Prop := {
  sm_crib cp op : st' !! LOut cp Crib op = st !! LOut cp Crib op;
  sm_kndr cp op : st' !! LOut cp Kndr op = st !! LOut cp Kndr op;
  sm_idx h cp op : st' !! LIdx h cp Kndr op = st !! LIdx h cp Kndr op
}.

Lemma waiting_crib_same h st st' u0 u : same_waiting st st' -> waiting_crib h st' u0 u -> waiting_crib h st u0 u.
Proof. intros [Hc _ _] Hw cp op b Hb. apply (Hw cp op). by rewrite Hc. Qed.

Lemma waiting_sweep_same t h st st' u : same_waiting st st' -> waiting_sweep t h st' u -> waiting_sweep t h st u.
Proof.
  intros [_ Hk Hi] (kids & Hin & Hall). exists kids. split; [done|].
  intros cp op k. rewrite <- Hk, <- (Hi h). apply Hall.
Qed.

Lemma same_outputs_waiting st st' : same_outputs st st' -> same_waiting st st'.
Proof. intros [Ho Hx]. split; intros; auto. Qed.

Lemma class_kids_all st h dk kids cp op k :
  class st h Kndr dk -> kids_of st dk kids ->
  is_Some (st !! LIdx h cp Kndr op) -> st !! LOut cp Kndr op = Some (IKid k) -> k ∈ kids.
Proof.
  intros [_ Hcl] Hk Hs Ho. apply Hcl in Hs. destruct (Forall2_elem_l _ _ _ _ Hk Hs) as (k' & Hin & Hk').
  simpl in Hk'. rewrite Ho in Hk'. by simplify_eq.
Qed.

Lemma class_babies_all st h dc bs cp op b :
  NInv st -> class st h Crib dc -> babies_of st dc bs ->
  st !! LOut cp Crib op = Some (IBaby b) -> baby_expiry b = h -> b ∈ bs.
Proof.
  intros Hi [_ Hcl] Hb Ho <-. pose proof (ni_crib_idx _ Hi _ _ _ Ho) as Hs. apply Hcl in Hs.
  destruct (Forall2_elem_l _ _ _ _ Hb Hs) as (b' & Hin & Hb'). simpl in Hb'. rewrite Ho in Hb'. by simplify_eq.
Qed.

(** The height has a sweep, or will get one when it is graduated: its transaction
    was recorded, or the height is above the last finalized one and has outputs. *)
Definition sweep_due (h : Z) st : Prop :=
  h <= lastFinalized st /\ is_Some (finalTx st h)
  \/ lastFinalized st < h /\ exists cp op, is_Some (st !! LIdx h cp Kndr op).

Lemma seqZ_sorted m n : StronglySorted Z.lt (seqZ m n).
Proof.
  destruct (Z.le_gt_cases 0 n) as [Hn|Hn]; [|rewrite seqZ_nil by lia; constructor].
  revert m. pattern n. apply natlike_ind; [|intros x Hx IH m|done].
  - intros m. rewrite seqZ_nil by lia. constructor.
  - rewrite seqZ_cons by lia. constructor; [rewrite Z.pred_succ; apply IH|].
    apply Forall_forall. intros y Hy%elem_of_seqZ. lia.
Qed.

Lemma last_seqZ m n : 0 < n -> last (seqZ m n) = Some (m + n - 1).
Proof. intros Hn. rewrite last_lookup, length_seqZ, lookup_seqZ_lt by lia. f_equal. lia. Qed.

(** ** The steps of a restart *)

Lemma regraduate_waits h u st u' :
  nursery_db ns (u_db u) st -> is_u32 h -> regraduateClass ns h u = (Ok tt, u') ->
  u_db u' = u_db u /\ ext u u' /\ waiting_crib h st u u' /\ (forall t, finalTx st h = Some t -> waiting_sweep t h st u').
Proof.
  intros Hdb Hh E. destruct (swp_regraduateClass ns h u st Hdb Hh) as (kids & bs & dk & dc & Hk & Hks & Hc & Hcs & Hs).
  destruct (swp_elim _ _ _ _ _ Hs E) as [Hdb' Hx (bs1 & _ & Hpub & Hall) _ Hok]. destruct (Hok eq_refl) as [Hsw Hcr]. rewrite (Hall eq_refl) in Hpub.
  split; [done|]. split; [done|]. split.
  - intros cp op b Hb He. assert (b ∈ bs) as Hin by (eapply class_babies_all; [apply Hdb|done..]). split; [|by apply Hcr].
    eexists. split; [exact Hpub|]. by apply list_elem_of_fmap_2.
  - intros t Ht. exists kids. split; [by apply Hsw|]. intros cp op k. by eapply class_kids_all.
Qed.

(** The sweep of a height that is due one: the recorded transaction is broadcast and
    awaited, and it is the one recorded before, if there was one. *)
Definition sweep_made (h : Z) st st' (u0 u : utxoNursery) : Prop :=
  exists t, finalTx st' h = Some t /\ (h <= lastFinalized st -> finalTx st h = Some t) /\ broadcast u0 t u /\ waiting_sweep t h st u.

Lemma graduate_waits {SS : StandardSigner} h u st u' :
  nursery_db ns (u_db u) st -> is_u32 h -> graduateClass ns h u = (Ok tt, u') ->
  exists st', nursery_db ns (u_db u') st' /\ same_outputs st st' /\ ext u u'
    /\ lastFinalized st' = Z.max h (lastFinalized st) /\ lastGraduated st' = h
    /\ (forall h', h' <> h -> finalTx st' h' = finalTx st h')
    /\ waiting_crib h st u u'
    /\ (sweep_due h st -> sweep_made h st st' u u').
Proof.
  intros Hdb Hh E. destruct (swp_graduateClass ns h u st Hdb Hh) as (kids & bs & dk & dc & _ & Hk & Hks & Hc & Hcs & Hs).
  destruct (swp_elim _ _ _ _ _ Hs E) as (st' & sw & bs1 & [Hdb' _ Hx Hsame Hoth Hpub _ _ Honce _ Hok Hmade]).
  destruct (Hok eq_refl) as (HlG & HlF & -> & -> & Hsw & Hcr).
  exists st'. do 5 (split; [done|]). split.
  { intros h' Hn. unfold finalTx. by rewrite (Hoth h' Hn). }
  split.
  - intros cp op b Hb He. assert (b ∈ bs) as Hin by (eapply class_babies_all; [apply Hdb|done..]). split; [|by apply Hcr].
    eexists. split; [exact Hpub|]. apply elem_of_app. right. by apply list_elem_of_fmap_2.
  - intros Hcase. assert (is_Some (finalTx st' h)) as [t Ht].
    { destruct (Z.le_gt_cases h (lastFinalized st)) as [Hle|Hgt].
      - rewrite Honce by done. destruct Hcase as [[_ ?]|[? _]]; [done|lia].
      - destruct Hcase as [[? _]|[_ (cp & op & Hidx)]]; [lia|]. destruct (decide (kids = [])) as [->|Hne].
        + destruct Hk as [_ Hcl]. apply Hcl in Hidx. by destruct (Forall2_elem_l _ _ _ _ Hks Hidx) as (? & ?%elem_of_nil & _).
        + destruct (Hmade eq_refl Hgt Hne) as (t & e' & Ht & _). by exists t. }
    exists t. split; [done|]. split; [intros Hle; by rewrite <- (Honce Hle)|]. split.
    { eexists. split; [exact Hpub|]. rewrite Ht. apply elem_of_app. left. by left. }
    exists kids. split; [by apply Hsw|]. intros cp op k. by eapply class_kids_all.
Qed.

Lemma regraduate_all hs u st u' :
  nursery_db ns (u_db u) st -> Forall is_u32 hs -> st_iter (regraduateClass ns) hs u = (Ok tt, u') ->
  u_db u' = u_db u /\ ext u u'
  /\ forall h, h ∈ hs -> waiting_crib h st u u' /\ (forall t, finalTx st h = Some t -> waiting_sweep t h st u').
Proof.
  revert u. induction hs as [|h hs IH]; intros u Hdb Hu E.
  - injection E as <-. split; [done|]. split; [done|]. set_solver.
  - apply Forall_cons in Hu as [Hh Hu]. simpl in E. unfold mbind, st_bind in E.
    destruct (regraduateClass ns h u) as [[[]|] u1] eqn:E1; [|done].
    destruct (regraduate_waits _ _ _ _ Hdb Hh E1) as (D1 & X1 & C1 & S1).
    destruct (IH u1) as (D2 & X2 & W2); [by rewrite D1|done|done|].
    split; [congruence|]. split; [by etrans|]. intros h' [->|Hin]%elem_of_cons.
    + split; [by eapply waiting_crib_ext|]. intros t Hs. eapply waiting_sweep_ext; [done|auto].
    + destruct (W2 h' Hin). split; [by eapply waiting_crib_from|done].
Qed.

Lemma sweep_made_ext h st st' u0 u u' : ext u u' -> sweep_made h st st' u0 u -> sweep_made h st st' u0 u'.
Proof.
  intros Hx (t & H1 & H2 & H3 & H4). exists t. split; [done|]. split; [done|]. split; [by eapply broadcast_ext|by eapply waiting_sweep_ext].
Qed.

Lemma sweep_made_from h st st' u0 u1 u : ext u0 u1 -> sweep_made h st st' u1 u -> sweep_made h st st' u0 u.
Proof. intros Hx (t & H1 & H2 & H3 & H4). exists t. split; [done|]. split; [done|]. split; [by eapply broadcast_from|done]. Qed.

Lemma graduate_all {SS : StandardSigner} hs u st u' :
  nursery_db ns (u_db u) st -> Forall is_u32 hs -> StronglySorted Z.lt hs ->
  st_iter (graduateClass ns) hs u = (Ok tt, u') ->
  exists st', nursery_db ns (u_db u') st' /\ same_outputs st st' /\ ext u u'
    /\ (forall h, h ∉ hs -> finalTx st' h = finalTx st h) /\ lastGraduated st' = default (lastGraduated st) (last hs)
    /\ forall h, h ∈ hs -> waiting_crib h st u u' /\ (sweep_due h st -> sweep_made h st st' u u').
Proof.
  revert u st. induction hs as [|h hs IH]; intros u st Hdb Hu Hsort E.
  - injection E as <-. exists st. split; [done|]. split; [by split|]. split; [done|]. split; [done|]. split; [done|]. set_solver.
  - apply Forall_cons in Hu as [Hh Hu]. apply StronglySorted_inv in Hsort as [Hsort Hlt].
    simpl in E. unfold mbind, st_bind in E.
    destruct (graduateClass ns h u) as [[[]|] u1] eqn:E1; [|done].
    destruct (graduate_waits _ _ _ _ Hdb Hh E1) as (st1 & D1 & S1 & X1 & F1 & G1 & T1 & C1 & W1).
    destruct (IH u1 st1 D1 Hu Hsort E) as (st2 & D2 & S2 & X2 & T2 & G2 & W2).
    assert (same_outputs st st2) as S12 by (destruct S1, S2; split; intros; etrans; eauto).
    rewrite Forall_forall in Hlt.
    exists st2. split; [done|]. split; [done|]. split; [by etrans|]. split; [|split].
    { intros h' Hn. rewrite T2, T1 by set_solver. done. }
    { rewrite G2, G1. destruct hs as [|h2 hs]; [done|]. cbn [last]. by destruct (last (h2 :: hs)) eqn:El; [|apply last_None in El]. }
    intros h' [->|Hin]%elem_of_cons.
    + split; [by eapply waiting_crib_ext|]. intros Hs. destruct (sweep_made_ext _ _ _ _ _ _ X2 (W1 Hs)) as (t & H1 & H2).
      exists t. split; [|done]. rewrite T2; [done|]. intros Hin%Hlt. cbv beta in Hin. lia.
    + destruct (W2 h' Hin) as [C2 W2']. pose proof (same_outputs_waiting _ _ S1) as Sw. specialize (Hlt h' Hin). cbv beta in Hlt.
      split; [eapply waiting_crib_same; [done|by eapply waiting_crib_from]|]. intros Hs.
      destruct W2' as (t & H1 & H2 & H3 & H4).
      { unfold sweep_due. rewrite F1, (T1 h') by lia.
        destruct Hs as [[? ?]|[? (cp & op & ?)]]; [left; split; [lia|done]|right]. split; [lia|].
        exists cp, op. by rewrite (so_idx _ _ S1). }
      exists t. split; [done|]. split; [intros Hle; rewrite <- (T1 h') by lia; apply H2; lia|].
      split; [by eapply broadcast_from|by eapply waiting_sweep_same].
Qed.

Lemma reload_preschools kids u u' :
  st_iter (fun k =>
    kid ← new_kid k;
    closeHeight ← st_try (env (FetchClosedChannel (kid_originChanPoint k)));
    match closeHeight with
    | Err e => if decide (e = ErrClosedChannelNotFound) then mret tt else st_fail e
    | Ok closeHeight => registerPreschoolConf kid (u32 (closeHeight - ConfDepth))
    end) kids u = (Ok tt, u') ->
  u_db u' = u_db u /\ ext u u'
  /\ forall k, k ∈ kids -> (forall e, exists h e', FetchClosedChannel (kid_originChanPoint k) e = (Ok h, e')) ->
       waiting_preschool (kid_originChanPoint k) (kid_OutPoint k) k u'.
Proof.
  revert u. induction kids as [|k kids IH]; intros u E.
  - injection E as <-. split; [done|]. split; [done|]. set_solver.
  - simpl in E. unfold mbind at 1, st_bind at 1 in E.
    match type of E with match ?m with _ => _ end = _ => destruct m as [[[]|] u1] eqn:E1; [|done] end.
    destruct (IH u1 E) as (D2 & X2 & W2). clear IH E.
    unfold mbind, st_bind, new_kid in E1. set (p := length (u_kids u)) in *.
    set (u0 := set_kids (u_kids u ++ [k]) u) in *.
    assert (u_kids u0 !! p = Some k) as Hp by (simpl; by apply list_lookup_middle).
    assert (ext u u0) as X0 by (split; simpl; try done; by apply prefix_app_r).
    unfold st_try, env, st_zoom in E1.
    destruct (FetchClosedChannel (kid_originChanPoint k) (u_env u0)) as [[ch|er] e] eqn:Ef.
    + unfold registerPreschoolConf, mbind, st_bind, read_kid in E1.
      change (u_kids (set_env e u0)) with (u_kids u0) in E1. rewrite Hp in E1.
      unfold env, st_zoom in E1. destruct (RegisterConfirmationsNtfn _ _ _ _) as [[[]|] e2]; [|done].
      unfold st_upd in E1. injection E1 as <-.
      split; [done|]. assert (ext u u') as X.
      { etrans; [exact X0|]. etrans; [|exact X2]. split; simpl; try done; by apply prefix_app_r. }
      split; [done|]. intros k' [->|Hin]%elem_of_cons Hfc; [|by apply W2].
      eapply waiting_preschool_ext; [exact X2|]. exists p, ch, (u_env u0), e. split; [done|]. split; [done|].
      apply elem_of_app. right. by apply list_elem_of_singleton.
    + case_decide; [|done]. injection E1 as <-. split; [done|]. split; [etrans; [exact X0|]; etrans; [apply ext_env|exact X2]|].
      intros k' [->|Hin]%elem_of_cons Hfc; [|by apply W2]. destruct (Hfc (u_env u0)) as (hh & e' & Hfc').
      congruence.
Qed.

Lemma lastGraduated_u32 db st : nursery_db ns db st -> is_u32 (lastGraduated st).
Proof.
  intros [H Hi]. unfold lastGraduated. destruct (st !! LLastG) as [i|] eqn:E; [|unfold is_u32; lia].
  destruct (nr_ok _ _ _ _ _ H _ _ E) as [_ [_ Hok]]. pose proof (ni_typed _ Hi _ _ E) as Ht.
  by destruct i.
Qed.

(** Channels are forgotten only when nothing of them is left to wait for. *)
Lemma forgets_waiting cps st st' :
  (forall cp, mature st cp \/ ~ mature st cp) -> forgets cps st st' ->
  (forall cp c op, c <> Grad -> st' !! LOut cp c op = st !! LOut cp c op) /\ same_waiting st st'
  /\ (forall h, finalTx st' h = finalTx st h) /\ lastFinalized st' = lastFinalized st
  /\ lastGraduated st' = lastGraduated st.
Proof.
  intros Hem [G K R].
  assert (forall cp c op, c <> Grad -> st' !! LOut cp c op = st !! LOut cp c op) as Ho.
  { intros cp c op Hc. destruct (Hem cp) as [Hm|Hm]; [|apply K; by right].
    destruct (decide (cp ∈ cps)) as [Hin|Hin]; [|apply K; by left]. rewrite G by done. symmetry.
    apply eq_None_not_Some. intros Hs. by apply Hm in Hs. }
  split; [done|]. split; [split; intros; [by apply Ho|by apply Ho|by apply R]|].
  unfold finalTx, lastFinalized, lastGraduated. rewrite !R by done. split; [|done]. intros h. by rewrite R.
Qed.

Lemma is_idx_live st h cp c op : is_Some (st !! LIdx h cp c op) -> live st h = true.
Proof. intros Hs. apply live_true. eauto. Qed.

Lemma reloadClasses_waits {SS : StandardSigner} lastG u st u' :
  nursery_db ns (u_db u) st -> is_u32 lastG -> lastGraduated st = lastG -> reloadClasses ns lastG u = (Ok tt, u') ->
  exists st' best, nursery_db ns (u_db u') st' /\ same_outputs st st' /\ ext u u'
    /\ (exists e e', GetBestBlock e = (Ok best, e'))
    /\ (lastG <> 0 -> lastG < u32 best -> lastGraduated st' = u32 best)
    /\ (forall h, is_u32 h -> h <= lastG -> waiting_crib h st u u' /\ (forall t, finalTx st h = Some t -> waiting_sweep t h st u'))
    /\ (lastG <> 0 -> forall h, lastG < h <= u32 best -> waiting_crib h st u u' /\ (sweep_due h st -> sweep_made h st st' u u')).
Proof.
  intros Hdb Hl HlG E. destruct (HeightsBelowOrEqual_spec ns (u_db u) st lastG (proj1 Hdb) (ni_final _ (proj2 Hdb)) Hl)
    as (hs & Eh & Hsort & Hhs).
  unfold reloadClasses, mbind, st_bind, query in E. rewrite Eh in E.
  destruct (st_iter (regraduateClass ns) hs u) as [[[]|] u1] eqn:E1; [|done].
  destruct (regraduate_all hs u st u1 Hdb) as (D1 & X1 & W1); [apply Forall_forall; intros; by apply Hhs|done|].
  assert (forall h, is_u32 h -> h <= lastG -> waiting_crib h st u u1 /\ (forall t, finalTx st h = Some t -> waiting_sweep t h st u1)) as Wlow.
  { intros h Hh Hle. split.
    - intros cp op b Hb He. assert (h ∈ hs) as Hin; [|by eapply (proj1 (W1 h Hin))]. apply Hhs. split; [done|]. split; [done|].
      eapply is_idx_live. rewrite <- He. by apply (ni_crib_idx _ (proj2 Hdb)).
    - intros t Ht. assert (h ∈ hs) as Hin; [|by apply (W1 h Hin)]. apply Hhs. split; [done|]. split; [done|].
      by destruct (finalTx_ok ns _ _ _ _ Hdb Ht). }
  unfold env, st_zoom in E. destruct (GetBestBlock (u_env u1)) as [[best|] e] eqn:Eb; [|done].
  assert (forall h, is_u32 h -> h <= lastG -> forall u2, ext u1 u2 ->
    waiting_crib h st u u2 /\ (forall t, finalTx st h = Some t -> waiting_sweep t h st u2)) as Wlow2.
  { intros h Hh Hle u2 X2. destruct (Wlow h Hh Hle) as [C S].
    split; [by eapply waiting_crib_ext|]. intros t Hs. eapply waiting_sweep_ext; [done|auto]. }
  pose proof (u32_range best) as Hb.
  destruct ((lastG =? 0) || (u32 best =? lastG)) eqn:Ec.
  - injection E as <-. exists st, best. split; [cbn [u_db set_env]; by rewrite D1|]. split; [by split|].
    split; [etrans; [exact X1|apply ext_env]|]. split; [eauto|].
    split; [intros; apply orb_true_iff in Ec as [Ec%Z.eqb_eq|Ec%Z.eqb_eq]; [done|lia]|].
    split; [intros h Hh Hle; by apply Wlow2, ext_env|].
    intros Hne h Hh. apply orb_true_iff in Ec as [Ec%Z.eqb_eq|Ec%Z.eqb_eq]; [done|lia].
  - apply orb_false_iff in Ec as [Ez Ec]. apply Z.eqb_neq in Ez, Ec.
    assert (nursery_db ns (u_db (set_env e u1)) st) as Hdb1 by (simpl; by rewrite D1).
    set (first := u32 (lastG + 1)) in E.
    assert (forall h, h ∈ seqZ first (u32 best - first + 1) -> is_u32 h) as Hu.
    { intros h Hin%elem_of_seqZ. pose proof (u32_range (lastG + 1)). subst first. unfold is_u32 in *. lia. }
    destruct (graduate_all _ (set_env e u1) st u' Hdb1 (proj2 (Forall_forall _ _) Hu) (seqZ_sorted _ _) E)
      as (st' & D' & S' & X' & T' & G' & W').
    assert (ext u1 u') as X1' by (etrans; [apply ext_env|exact X']).
    assert (ext u (set_env e u1)) as X0 by (etrans; [exact X1|apply ext_env]).
    assert (lastG < u32 best -> first = lastG + 1) as Hfirst by (intros; apply u32_id; unfold is_u32 in *; lia).
    exists st', best. split; [done|]. split; [done|]. split; [by etrans|]. split; [eauto|]. split; [|split].
    + intros _ Hlt. rewrite G'. rewrite Hfirst by done. rewrite last_seqZ by lia. cbn. lia.
    + intros h Hh Hle. by apply Wlow2.
    + intros Hne h Hh. destruct (W' h) as [C S]; [apply elem_of_seqZ; rewrite Hfirst by lia; lia|].
      split; [by eapply waiting_crib_from|]. intros Hd. eapply sweep_made_from; [exact X0|]. apply S, Hd.
Qed.


End NurseryRestart.
