(* ===== verification/NurseryPath.v ===== *)
(** * From the force close to the wallet

    The whole path of the output a force-closed channel pays to its owner:
    requested, confirmed, matured, swept, graduated, and its channel forgotten.  Then
    [NurseryReport] of utxonursery.go: what the balances of the maturity report of a channel
    are made of. *)

From Stdlib Require Import ZArith Lia Sorted.
From stdpp Require Import base gmap countable strings numbers list.
From S2P Require Import Prelude Stream Tx Outputs Bolt NurseryStore NurseryAbs NurseryRefine NurseryInv.
From S2P Require Import NurseryClass NurseryQuery NurseryProps Effects Sweep Nursery NurserySweep NurseryLife NurseryRun.
From S2P Require Import NurseryRestart.
Local Open Scope Z_scope.

Section NurseryPath.
Context {BTC : Btcec} {CE : ChainEnv} {NE : NurseryEnv} (ns : nurseryStore).
Context {SS : StandardSigner} {RL : Reliable}.
Implicit Types (u : utxoNursery) (st : gmap loc item).

(** The request is stored and its confirmation awaited. *)
Lemma incubate_commit cp cr u st :
  let k := kid_of_commit cp cr in
  nursery_db ns (u_db u) st -> (forall c, st !! LOut cp c (kid_OutPoint k) = None) -> 0 < kid_Amount k -> item_ok (IKid k) ->
  exists u1 hint,
    IncubateOutputs ns cp (Some cr) [] [] u = (Ok tt, u1)
    /\ u_waiters u1 = u_waiters u ++ [WPreschool (length (u_kids u)) (op_Hash (kid_OutPoint k)) hint]
    /\ u_kids u1 !! length (u_kids u) = Some k
    /\ nursery_db ns (u_db u1) (<[LOut cp Pscl (kid_OutPoint k) := IKid k]> st).
Proof.
  intros k [H Hi] Ht Ha Hk. assert (request_kids cp (Some cr) [] [] = [k]) as Er.
  { unfold request_kids, positive_kids. change (option_list (kid_of_commit cp <$> Some cr)) with [k].
    rewrite filter_cons, decide_True by done. done. }
  pose proof (Ht Pscl) as Hn.
  assert (a_Incubate [k] [] st = <[LOut cp Pscl (kid_OutPoint k) := IKid k]> st) as Ea.
  { unfold a_Incubate, a_enterPreschool. simpl. change (kid_originChanPoint k) with cp. by rewrite Hn. }
  assert (incubate_fresh [k] [] st) as Hf.
  { split; [|set_solver|set_solver]. intros k' c ->%list_elem_of_singleton Hs. change (kid_originChanPoint k) with cp in Hs. rewrite Ht in Hs. by destruct Hs. }
  destruct (Incubate_refines ns (u_db u) st [k] [] H) as (db1 & E1 & _ & H1); [by apply Forall_singleton|done|].
  rewrite Ea in H1. pose proof (a_Incubate_NInv _ _ _ Hi Hf) as Hi1. rewrite Ea in Hi1.
  unfold IncubateOutputs. rewrite build_outputs_eq, Er. change (request_babies cp []) with (@nil babyOutput).
  unfold mbind, st_bind, store, st_zoom. rewrite E1. unfold env, st_zoom. cbn [u_env set_db].
  pose proof (rel_best (u_env u)) as Hb. destruct (GetBestBlock (u_env u)) as [[best|] e]; [|done].
  cbn [sweepExpiredBabies mret st_ret]. unfold registerPreschools, mbind, st_bind, new_kid. cbn [st_iter].
  unfold mbind, st_bind, write_kid, st_upd, st_get, registerPreschoolConf, mbind, st_bind, read_kid.
  cbn [u_kids set_env set_db set_kids u_bestHeight].
  rewrite list_lookup_insert_eq by (rewrite length_app; simpl; lia).
  unfold env, st_zoom. cbn [u_env set_kids set_env].
  pose proof (rel_register (op_Hash (kid_OutPoint k)) ConfDepth (u_bestHeight u) e) as Hr.
  destruct (RegisterConfirmationsNtfn (op_Hash (kid_OutPoint k)) ConfDepth (u_bestHeight u) e) as [r e'].
  simpl in Hr. subst r. cbn [mret st_ret st_upd]. eexists _, (u_bestHeight u). split; [reflexivity|]. split; [done|]. split; [|done].
  cbn [u_kids add_waiter set_env set_kids]. by rewrite list_lookup_insert_eq by (rewrite length_app; simpl; lia).
Qed.

(** The output waits in the kindergarten for height [m]. *)
Record waits (cp : OutPoint) (k : kidOutput) (m : Z) st : Prop := {
  wa_out : st !! LOut cp Kndr (kid_OutPoint k) = Some (IKid k);
  wa_idx : is_Some (st !! LIdx m cp Kndr (kid_OutPoint k))
}.

(** It is the only output of its channel. *)
Definition alone (cp op : OutPoint) st : Prop := forall c op', is_Some (st !! LOut cp c op') -> c = Kndr /\ op' = op.

Lemma waits_after_confirmation cp k c st :
  kid_originChanPoint k = cp ->
  let st' := a_PreschoolToKinder (SetConfHeight c k) (<[LOut cp Pscl (kid_OutPoint k) := IKid k]> st) in
  waits cp (SetConfHeight c k) (kinder_height (SetConfHeight c k) (lastGraduated st)) st'
  /\ (~ tracked st cp -> alone cp (kid_OutPoint k) st').
Proof.
  intros Hcp. unfold a_PreschoolToKinder. change (kid_originChanPoint (SetConfHeight c k)) with (kid_originChanPoint k).
  change (kid_OutPoint (SetConfHeight c k)) with (kid_OutPoint k). rewrite Hcp.
  assert (lastGraduated (<[LOut cp Pscl (kid_OutPoint k) := IKid k]> st) = lastGraduated st) as ->
    by (unfold lastGraduated; by rewrite lookup_insert_ne).
  split; [split|].
  - by rewrite lookup_insert_ne, lookup_insert_eq by done.
  - change (kid_OutPoint (SetConfHeight c k)) with (kid_OutPoint k). by rewrite lookup_insert_eq.
  - intros Ht c' op Hs. rewrite lookup_insert_ne in Hs by done.
    destruct (decide (LOut cp c' op = LOut cp Kndr (kid_OutPoint k))) as [E|E]; [by simplify_eq|].
    rewrite lookup_insert_ne in Hs by done.
    destruct (decide (LOut cp c' op = LOut cp Pscl (kid_OutPoint k))) as [E'|E'].
    + rewrite E', lookup_delete_eq in Hs. by destruct Hs.
    + rewrite lookup_delete_ne, lookup_insert_ne in Hs by done. destruct Ht. by exists c', op.
Qed.

Lemma waits_same cp k m st st' : same_outputs st st' -> waits cp k m st -> waits cp k m st'.
Proof. intros [So Sx] [A B]. split; [by rewrite So|by rewrite Sx]. Qed.

Lemma alone_same cp op st st' : same_outputs st st' -> alone cp op st -> alone cp op st'.
Proof. intros [So Sx] A c op'. rewrite So. apply A. Qed.

(** Once its height has graduated the output is recorded as graduated, or forgotten with its
    channel, which is what happens when there was nothing else. *)
Lemma waits_graduated cp k m st st1 st' closes :
  waits cp k m st -> graduated m st st1 -> forgets closes st1 st' -> cp ∈ closes ->
  (tracked st' cp -> st' !! LOut cp Grad (kid_OutPoint k) = Some (IKid k))
  /\ (alone cp (kid_OutPoint k) st -> ~ tracked st' cp).
Proof.
  intros [Ho Hx] Hg Hf Hin. split.
  - intros (c & op & Hs). destruct (mature_em st1 cp) as [Hm|Hm].
    + rewrite (fg_gone _ _ _ Hf cp c op Hin Hm) in Hs. by destruct Hs.
    + rewrite (fg_kept _ _ _ Hf) by (by right). rewrite (gr_out _ _ _ Hg). by rewrite decide_True.
  - intros Hal. assert (mature st1 cp) as Hm.
    { intros c op Hs. rewrite (gr_out _ _ _ Hg) in Hs. destruct (decide (is_Some (st !! LIdx m cp Kndr op))) as [Hi|Hi].
      - destruct c; try done; [by apply Hal in Hs as [? _]|by apply Hal in Hs as [? _]].
      - apply Hal in Hs as [_ ->]. by destruct Hi. }
    intros (c & op & Hs). rewrite (fg_gone _ _ _ Hf cp c op Hin Hm) in Hs. by destruct Hs.
Qed.

Lemma closes_ok db st dn kids closes :
  nursery_db ns db st -> kids_of st dn kids -> closes ≡ₚ possibleCloses kids -> Forall OutPoint_ok closes.
Proof.
  intros Hdb Hk Hp. pose proof (kids_of_ok _ _ _ _ _ Hdb Hk) as Hok. rewrite Forall_forall in Hok.
  apply Forall_forall. intros cp Hin. rewrite Hp in Hin. unfold possibleCloses in Hin. rewrite elem_of_remove_dups in Hin.
  apply list_elem_of_fmap in Hin as (k & -> & Hin). by destruct (Hok k Hin) as (_ & _ & ? & _).
Qed.

(** Swept at its height: from the kindergarten to the end of the channel. *)
Lemma sweep_waiting cp k m u2 st2 :
  nursery_db ns (u_db u2) st2 -> is_u32 m -> waits cp k m st2 -> is_csv k ->
  lastFinalized st2 < m -> kid_originChanPoint k = cp ->
  exists kids bs f, FetchClass ns m (u_db u2) = Ok (f, kids, bs) /\ k ∈ kids
  /\ forall t e', createSweepTx kids m (u_env u2) = (Ok t, e') ->
     exists u3 i out lt, graduateClass ns m u2 = (Ok tt, u3) /\ t ∈ u_published u3
     /\ sweeps (sweep_inputs kids) out lt t /\ (kid_breachedOutput k, kid_blocksToMaturity k) ∈ sweep_inputs kids
     /\ u_waiters u3 !! i = Some (WSweep m kids (TxHash t))
     /\ forall closes c2, closes ≡ₚ possibleCloses kids ->
        exists u4 st4, fire ns (WSweep m kids (TxHash t)) closes (Some c2) (drop_waiter i u3) = (Ok tt, u4)
        /\ nursery_db ns (u_db u4) st4 /\ (tracked st4 cp -> st4 !! LOut cp Grad (kid_OutPoint k) = Some (IKid k))
        /\ (alone cp (kid_OutPoint k) st2 -> ~ tracked st4 cp).
Proof.
  intros Hdb Hm Hal Hcsv Hlf Hcp.
  destruct (swp_graduateClass ns m u2 st2 Hdb Hm) as (kids & bs & dk & dc & Ef & Hk & Hks & _ & _ & Hs).
  assert (k ∈ kids) as Hin by (eapply class_kids_all; [done|done|apply Hal|apply Hal]).
  exists kids, bs, (finalTx st2 m). split; [done|]. split; [done|]. intros t e' Ec.
  destruct (swp_graduateClass_ok ns m u2 st2 Hdb Hm) as [[] Eok].
  { intros f' kids' bs' E. rewrite Ef in E. simplify_eq. right; right. eauto. }
  destruct (graduateClass ns m u2) as [r u3] eqn:Eg. simpl in Eok. subst r.
  destruct (swp_elim _ _ _ _ _ Hs Eg) as (st3 & sw & bs1 & [Hdb3 _ _ Hsame _ Hpub _ _ _ _ Hok Hmade]).
  destruct (Hok eq_refl) as (_ & _ & Esw & _ & Hws & _).
  destruct (Hmade eq_refl Hlf) as (t' & e2 & Hf & Ec'); [by intros ->; apply elem_of_nil in Hin|].
  rewrite Ec in Ec'. simplify_eq. destruct (createSweepTx_sweeps _ _ _ _ _ Ec) as [out Hsw].
  destruct (list_elem_of_lookup_1 _ _ (Hws _ Hf)) as [i Hi].
  exists u3, i, out, (sweep_locktime kids m). split; [done|]. split.
  { rewrite Hpub, Hf. apply elem_of_app. right. apply elem_of_app. left. by apply list_elem_of_singleton. }
  split; [done|]. split.
  { apply elem_of_app. left. apply list_elem_of_fmap. exists k. split; [done|]. by apply list_elem_of_filter. }
  split; [done|]. intros closes c2 Hcl.
  destruct (sweep_fires ns m closes c2 (drop_waiter i u3) st3 Hdb3 Hm) as (db4 & st1 & st4 & E4 & Hdb4 & _ & Hg & Hfg).
  { by eapply (closes_ok (u_db u2) st2 dk kids). }
  exists (set_db db4 (drop_waiter i u3)), st4. split; [done|]. split; [done|].
  destruct (waits_graduated (kid_originChanPoint k) k m st3 st1 st4 closes) as [Hgr Hal']; [by eapply waits_same|done|done| |].
  { rewrite Hcl. unfold possibleCloses. rewrite elem_of_remove_dups. apply list_elem_of_fmap. by exists k. }
  split; [done|]. intros Ha. apply Hal'. by eapply alone_same.
Qed.


End NurseryPath.

(** * Nursery reports *)

(** Comparing two states is computation. *)
Ltac eval_class :=
  repeat match goal with |- context [bool_decide (@eq oclass ?a ?b)] =>
    let v := eval vm_compute in (bool_decide (a = b)) in change (bool_decide (a = b)) with v end;
  cbn [orb]; cbv iota.

Section NurseryReport.
Context {BTC : Btcec} {CE : ChainEnv} {NE : NurseryEnv} (ns : nurseryStore).
Implicit Types (st : gmap loc item) (x : oclass * OutPoint * item).

Definition item_amount x : Z :=
  match x.2 with IBaby b => baby_Amount b | IKid k => kid_Amount k | _ => 0 end.

(** The witness types the report has a place for, by state. *)
Definition reported (c : oclass) (k : kidOutput) : bool :=
  let wt := kid_WitnessType k in
  match c with
  | Crib => true
  | Pscl => (wt =? CommitmentTimeLock) || (wt =? HtlcAcceptedSuccessSecondLevel)
  | Kndr | Grad => (wt =? CommitmentTimeLock) || (wt =? HtlcAcceptedSuccessSecondLevel)
            || (wt =? HtlcOfferedTimeoutSecondLevel) || (wt =? HtlcOfferedRemoteTimeout)
  end.

Definition limbo_part x : Z :=
  match x.1.1, x.2 with
  | Grad, _ => 0
  | Crib, IBaby b => baby_Amount b
  | c, IKid k => if reported c k then kid_Amount k else 0
  | _, _ => 0
  end.

Definition recovered_part x : Z :=
  match x.1.1, x.2 with
  | Grad, IKid k => if reported Grad k then kid_Amount k else 0
  | _, _ => 0
  end.

(** What the callback does to the report for one output of the channel. *)
Definition report_item (r : contractMaturityReport) x : contractMaturityReport :=
  match x.2 with
  | IBaby b => AddLimboStage1TimeoutHtlc b r
  | IKid k => report_kid (out_key x.1.1 x.1.2) k r
  | _ => r
  end.

Lemma report_output_entry r x db cp :
  typed (LOut cp x.1.1 x.1.2) x.2 -> item_ok x.2 ->
  report_output r (chan_entry x).1 (chan_entry x).2 db = Ok (report_item r x, db).
Proof.
  destruct x as [[c op] i]. unfold chan_entry. cbn [fst snd]. intros Ht [_ Hok].
  assert (forall c', has_prefix (class_prefix c') (out_key c op) = bool_decide (c' = c)) as Hp
    by (intros; apply out_key_prefix).
  unfold report_output. change cribPrefix with (class_prefix Crib). change psclPrefix with (class_prefix Pscl).
  change kndrPrefix with (class_prefix Kndr). change gradPrefix with (class_prefix Grad).
  rewrite !Hp. cbn [default]. destruct c, i; simpl in Ht; try done; cbn [item_enc id]; eval_class; cbn [id].
  1: rewrite <- (app_nil_r (baby_Encode b)); unfold mbind, tx_bind, tx_res; by rewrite baby_Decode_Encode.
  all: rewrite <- (app_nil_r (kid_Encode k)); unfold mbind, tx_bind, tx_res; by rewrite kid_Decode_Encode.
Qed.

Definition htlc_total (r : contractMaturityReport) : Z := sum_Z (map hmr_amount (cmr_htlcs r)).

(** The balances so far, with room for what is still to come. *)
Record balances (r : contractMaturityReport) (limbo recovered : Z) : Prop := {
  bl_limbo : cmr_limboBalance r = limbo;
  bl_recovered : cmr_recoveredBalance r = recovered;
  bl_split : cmr_localAmount r + htlc_total r = limbo + recovered;
  bl_local : 0 <= cmr_localAmount r;
  bl_htlcs : 0 <= htlc_total r
}.

Lemma htlc_total_snoc l h : sum_Z (map hmr_amount (l ++ [h])) = sum_Z (map hmr_amount l) + hmr_amount h.
Proof. rewrite map_app, sum_Z_app. unfold sum_Z at 2. simpl. lia. Qed.

Lemma balances_limbo_htlc r l v a h :
  balances r l v -> 0 <= l -> 0 <= v -> 0 <= a -> l + v + a < 2 ^ 63 -> hmr_amount h = a ->
  balances (add_limbo_htlc a h r) (l + a) v.
Proof.
  intros [Hl Hv Hs Hp Hh] ? ? ? ? Ha. split; cbn; try done; unfold htlc_total in *; cbn.
  - rewrite Hl. apply i64_id. unfold is_i64. lia.
  - rewrite htlc_total_snoc. lia.
  - rewrite htlc_total_snoc. lia.
Qed.

Lemma balances_kid c op k r l v :
  balances r l v -> 0 <= l -> 0 <= v -> 0 <= kid_Amount k -> l + v + kid_Amount k < 2 ^ 63 -> c <> Crib ->
  balances (report_kid (out_key c op) k r) (l + limbo_part (c, op, IKid k)) (v + recovered_part (c, op, IKid k)).
Proof.
  intros Hb Hl0 Hv0 Ha Hs Hc. pose proof Hb as [Hl Hv Hsp Hp Hh].
  assert (forall c', has_prefix (class_prefix c') (out_key c op) = bool_decide (c' = c)) as Hpre
    by (intros; apply out_key_prefix).
  unfold report_kid. change psclPrefix with (class_prefix Pscl).
  change kndrPrefix with (class_prefix Kndr). change gradPrefix with (class_prefix Grad).
  rewrite !Hpre. unfold limbo_part, recovered_part, reported. cbn [fst snd].
  destruct c; [done|..]; eval_class;
  repeat match goal with |- context [kid_WitnessType k =? ?wt] =>
    destruct (Z.eqb_spec (kid_WitnessType k) wt) end; simpl orb; cbv iota; rewrite ?Z.add_0_r; try done;
  try (apply balances_limbo_htlc; done);
  (split; cbn; unfold htlc_total in *; cbn; rewrite ?htlc_total_snoc; cbn; try done; try lia;
   rewrite ?Hl, ?Hv, ?i64_id by (unfold is_i64; lia); unfold sum_Z in *; lia).
Qed.

Lemma balances_item r x cp l v :
  typed (LOut cp x.1.1 x.1.2) x.2 -> balances r l v -> 0 <= l -> 0 <= v -> 0 <= item_amount x ->
  l + v + item_amount x < 2 ^ 63 ->
  balances (report_item r x) (l + limbo_part x) (v + recovered_part x)
  /\ 0 <= limbo_part x /\ 0 <= recovered_part x /\ limbo_part x + recovered_part x <= item_amount x.
Proof.
  destruct x as [[c op] i]. cbn [fst snd]. intros Ht Hb Hl Hv Ha Hs. unfold report_item, item_amount in *. cbn [fst snd] in *.
  destruct c, i; simpl in Ht; try done.
  - split; [|unfold limbo_part, recovered_part; cbn; lia]. unfold limbo_part, recovered_part. cbn [fst snd].
    rewrite Z.add_0_r. by apply balances_limbo_htlc.
  - split; [by apply balances_kid|]. unfold limbo_part, recovered_part. cbn [fst snd]. case_match; lia.
  - split; [by apply balances_kid|]. unfold limbo_part, recovered_part. cbn [fst snd]. case_match; lia.
  - split; [by apply balances_kid|]. unfold limbo_part, recovered_part. cbn [fst snd]. case_match; lia.
Qed.

Lemma sum_Z_nonneg l : Forall (fun z => 0 <= z) l -> 0 <= sum_Z l.
Proof. induction 1; [done|]. unfold sum_Z in *. simpl. lia. Qed.

Lemma balances_all xs cp r l v :
  Forall (fun x => typed (LOut cp x.1.1 x.1.2) x.2 /\ 0 <= item_amount x) xs ->
  balances r l v -> 0 <= l -> 0 <= v -> l + v + sum_Z (map item_amount xs) < 2 ^ 63 ->
  balances (foldl report_item r xs) (l + sum_Z (map limbo_part xs)) (v + sum_Z (map recovered_part xs)).
Proof.
  revert r l v. induction xs as [|x xs IH]; intros r l v Hx Hb Hl Hv Hs.
  - unfold sum_Z. simpl. by rewrite !Z.add_0_r.
  - apply Forall_cons in Hx as [[Ht Ha] Hx]. unfold sum_Z in Hs. cbn [map foldr] in Hs.
    change (foldr Z.add 0 (map item_amount xs)) with (sum_Z (map item_amount xs)) in Hs.
    assert (0 <= sum_Z (map item_amount xs)).
    { apply sum_Z_nonneg, Forall_map. eapply Forall_impl; [exact Hx|]. by intros y []. }
    destruct (balances_item r x cp l v) as (Hb' & ? & ? & ?); [done|done|lia|lia|lia|lia|].
    unfold sum_Z. cbn [map foldr foldl]. rewrite !Z.add_assoc. apply IH; [done|done|lia|lia|lia].
Qed.

(** The report of a channel always comes out when the channel has an output in
    the nursery; its limbo balance is the value of the outputs still in the nursery
    and its recovered balance that of the graduated ones (both for the kinds of
    output the report has a place for), and the two together are the local amount
    plus the HTLCs listed. *)
Theorem report_balances (u : utxoNursery) st cp :
  nursery_db ns (u_db u) st -> OutPoint_ok cp -> tracked st cp ->
  exists xs r, NoDup xs.*1 /\ (forall c op i, (c, op, i) ∈ xs <-> st !! LOut cp c op = Some i)
    /\ NurseryReport ns cp u = (Ok r, u) /\ cmr_chanPoint r = cp
    /\ (Forall (fun x => 0 <= item_amount x) xs -> sum_Z (map item_amount xs) < 2 ^ 63 ->
        cmr_limboBalance r = sum_Z (map limbo_part xs)
        /\ cmr_recoveredBalance r = sum_Z (map recovered_part xs)
        /\ cmr_localAmount r + sum_Z (map hmr_amount (cmr_htlcs r)) = cmr_limboBalance r + cmr_recoveredBalance r).
Proof.
  intros [H Hi] Hcp Ht. destruct (forChanOutputs_entries ns _ _ _ _ H Hcp Ht) as (xs & Hnd & Hxs & Hrun).
  set (r0 := mkContractMaturityReport cp 0 0 0 0 0 0 []).
  assert (Forall (fun x => typed (LOut cp x.1.1 x.1.2) x.2 /\ item_ok x.2) xs) as Hall.
  { apply Forall_forall. intros [[c op] i] Hin%Hxs. split; [by apply (ni_typed _ Hi)|].
    by destruct (nr_ok _ _ _ _ _ H _ _ Hin). }
  assert (forall xs r db, Forall (fun x => typed (LOut cp x.1.1 x.1.2) x.2 /\ item_ok x.2) xs ->
    tx_foldl (fun s kv => report_output s kv.1 kv.2) r (chan_entry <$> xs) db = Ok (foldl report_item r xs, db)) as Hf.
  { clear. induction xs as [|x xs IH]; intros r db Hall; [done|]. apply Forall_cons in Hall as [[Ht Hok] Hall].
    cbn [fmap list_fmap tx_foldl]. unfold mbind, tx_bind. by rewrite (report_output_entry _ _ _ _ Ht Hok), IH. }
  exists xs, (foldl report_item r0 xs). split; [done|]. split; [done|]. split.
  { unfold NurseryReport, query, ForChanOutputs, View. rewrite Hrun, Hf by done. done. }
  split.
  { assert (forall xs r, cmr_chanPoint (foldl report_item r xs) = cmr_chanPoint r) as Hc; [|by rewrite Hc].
    clear. induction xs as [|x xs IH]; intros r; [done|]. cbn [foldl]. rewrite IH. unfold report_item.
    destruct x as [[c op] []]; cbn [fst snd]; try done. unfold report_kid. by repeat case_match. }
  intros Ha Hs. assert (Forall (fun x => typed (LOut cp x.1.1 x.1.2) x.2 /\ 0 <= item_amount x) xs) as Hx.
  { apply Forall_and. split; [eapply Forall_impl; [exact Hall|]; by intros ? []|done]. }
  destruct (balances_all xs cp r0 0 0 Hx) as [Hl Hv Hsp _ _]; [by split|lia|lia|lia|].
  rewrite Z.add_0_l in Hl, Hv. split; [done|]. split; [done|]. unfold htlc_total in Hsp. rewrite Hsp, Hl, Hv. lia.
Qed.

End NurseryReport.
