(* ===== verification/NurseryExamples.v ===== *)
(** * The nursery at work

    A concrete outside world, runs of the nursery in it that show the hypotheses
    of the theorems can hold, and runs after which an output is not handled as
    intended. *)

From Stdlib Require Import ZArith Lia Sorted.
From Stdlib Require Import Init.Byte.
From stdpp Require Import base gmap countable strings numbers list.
From S2P Require Import Prelude Stream Tx Outputs Bolt NurseryStore NurseryAbs NurseryRefine.
From S2P Require Import NurseryInv NurseryClass NurseryQuery NurseryProps Effects Sweep Nursery NurserySweep.
From S2P Require Import NurseryLife NurseryRun NurseryRestart NurseryPath.
Local Open Scope Z_scope.

Module NurseryRuns.
Import NurseryExamples.
#[local] Existing Instance toy_btcec.

(** ** A concrete outside world

    Its state is the fee rate, or none when the estimator is down. *)
Definition toy_txid (tx : MsgTx) : bytes :=
  copy_into (zeros 32) (match tx_TxIn tx with ti :: _ => op_Hash (txi_PreviousOutPoint ti) | [] => [] end).

Definition toy_chain : ChainEnv.
Proof.
  refine {|
    Env := option Z;
    GenSweepScript := fun e => (Ok (replicate 22 x01), e);
    EstimateFeePerVSize := fun _ e => (match e with Some r => Ok r | None => Err (ErrExternal 1) end, e);
    PublishTransaction := fun _ e => (Ok tt, e);
    RegisterConfirmationsNtfn := fun _ _ _ e => (Ok tt, e);
    GetBestBlock := fun e => (Ok 450, e);
    GenWitnessFunc := fun _ _ _ _ _ => Ok [[x01]];
    TxHash := toy_txid
  |}.
  intros tx. unfold toy_txid, copy_into. rewrite length_app, length_take, length_drop.
  change (length (zeros 32)) with 32%nat. lia.
Defined.
#[local] Existing Instance toy_chain.

Definition toy_nursery_env : NurseryEnv.
Proof.
  refine {| ConfDepth := 6;
            RegisterBlockEpochNtfn := fun e => (Ok tt, e);
            FetchClosedChannels := fun e => (Ok [toy_op 10], e);
            FetchClosedChannel := fun _ e => (Ok 400, e) |}.
  intros e l e' [= <- <-]. by_eval.
Defined.
#[local] Existing Instance toy_nursery_env.

#[local] Instance toy_standard : StandardSigner.
Proof. intros wt sd c t i w [= <-]. split; [simpl; lia|]. apply Forall_singleton. simpl. lia. Qed.

#[local] Instance toy_reliable : Reliable.
Proof. by split. Qed.

Definition fee (rate : Z) : Env := Some rate.
Definition no_fee : Env := None.

(** The nursery of [db1] after its commitment output was confirmed at height 510:
    the output matures at 654. *)
Definition kid2 : kidOutput := toy_kid 10 11 144 510.
Definition db2 : bucket := (PreschoolToKinder ns0 kid2 db1).2.
Definition st2 : gmap loc item := a_PreschoolToKinder kid2 st1.
Definition u1 : utxoNursery := newUtxoNursery db1 (fee 10).
Definition u2 : utxoNursery := newUtxoNursery db2 (fee 10).

Lemma kid2_ok : item_ok (IKid kid2).
Proof. by_eval. Qed.

Lemma kindergarten : nursery_db ns0 db2 st2.
Proof.
  destruct incubated as [H Hi].
  destruct (PreschoolToKinder_refines ns0 db1 st1 kid2 H (NInv_typed_heights _ Hi) kid2_ok) as (db' & E & _ & H').
  unfold db2. rewrite E. split; [done|]. apply a_PreschoolToKinder_NInv; [done|].
  by_eval.
Qed.

Definition sweep0 : MsgTx :=
  match (createSweepTx [kid2] 654 (fee 10)).1 with Ok t => t | Err _ => toy_tx end.

(** ** Witnesses *)

Lemma sweep_tx_correct_witness :
  exists script rate e1,
    GenSweepScript (fee 10) = (Ok script, e1) /\ EstimateFeePerVSize 6 e1 = (Ok rate, fee 10)
    /\ (Forall (fun k => 0 <= kid_Amount k) (swept [kid2]) -> sweep_amount [kid2] < 2 ^ 63 ->
        0 <= sweep_fee rate [kid2] < 2 ^ 63 ->
        sweeps (sweep_inputs [kid2]) (mkTxOut (sweep_amount [kid2] - sweep_fee rate [kid2]) script)
          (sweep_locktime [kid2] 654) sweep0
        /\ (length script = 22%nat ->
            sweep_fee rate [kid2]
            = rate * ((4 * SerializeSizeStripped (unsigned sweep0) + WitnessHeaderSize
                       + sum_Z (omap witness_size [kid2]) + 3) / 4))).
Proof. apply (sweep_tx_correct [kid2] 654 (fee 10) sweep0 (fee 10)). by_eval. Defined.

Lemma sweep_tx_succeeds_witness : exists tx, createSweepTx [kid2] 654 (fee 10) = (Ok tx, fee 10).
Proof.
  apply (sweep_tx_succeeds [kid2] 654 (fee 10) (replicate 22 x01) (fee 10) 10 (fee 10)).
  - reflexivity.
  - reflexivity.
  - by_eval.
  - by_eval.
  - apply Forall_singleton. split; [by vm_compute|]. split; [by vm_compute|]. intros. by eexists.
  - split; by vm_compute.
  - by vm_compute.
  - by vm_compute.
Defined.

Definition u3 : utxoNursery := (graduateClass ns0 654 u2).2.

Lemma u32_654 : is_u32 654.
Proof. unfold is_u32. lia. Qed.

Lemma graduate_class_correct_witness :
  exists kids bs dk dc, FetchClass ns0 654 db2 = Ok (finalTx st2 654, kids, bs)
    /\ class st2 654 Kndr dk /\ kids_of st2 dk kids /\ class st2 654 Crib dc /\ babies_of st2 dc bs
    /\ exists st' sw bs1, graduates ns0 654 st2 kids bs (Ok tt) u2 u3 st' sw bs1.
Proof. apply (graduate_class_correct ns0 654 u2 st2 (Ok tt) u3 kindergarten u32_654). by_run u3. Defined.

(** The estimator has changed its mind when the height is graduated again. *)
Definition u3' : utxoNursery := newUtxoNursery (u_db u3) (fee 3).
Definition u4' : utxoNursery := (graduateClass ns0 654 u3').2.

Lemma retry_same_sweep_witness :
  exists sw bs1 sw2 bs2,
    u_published u3 = u_published u2 ++ sw ++ map baby_timeoutTx bs1
    /\ u_published u4' = u_published u3' ++ sw2 ++ map baby_timeoutTx bs2
    /\ (forall b, b ∈ bs1 ++ bs2 -> exists cp op, st2 !! LOut cp Crib op = Some (IBaby b) /\ baby_expiry b = 654)
    /\ forall t t2, t ∈ sw -> t2 ∈ sw2 -> t = t2.
Proof.
  apply (retry_same_sweep ns0 654 u2 st2 (Ok tt) u3 u3' (Ok tt) u4' kindergarten u32_654);
    [by_run u3|reflexivity|by_run u4'].
Defined.

Example retry_broadcasts : u_published u4' = [sweep0] /\ u_published u3 = [sweep0].
Proof. split; by_eval. Qed.

Lemma class_654 : FetchClass ns0 654 db2 = Ok (None, [kid2], []).
Proof. by_eval. Qed.

Lemma graduate_class_succeeds_witness : exists u', graduateClass ns0 654 u2 = (Ok tt, u').
Proof.
  apply (graduate_class_succeeds ns0 654 u2 st2 kindergarten u32_654).
  intros t kids bs E. right. right. exists sweep0, (fee 10).
  assert (kids = [kid2]) as ->; [|by_eval].
  change (u_db u2) with db2 in E. rewrite class_654 in E. congruence.
Defined.

Lemma preschool_confirmed_witness :
  let u := set_kids [kid0] u1 in
  exists db', waitForPreschoolConf ns0 0 (Some 510) u
    = (Ok tt, set_db db' (set_kids (<[0%nat := SetConfHeight 510 kid0]> (u_kids u)) u))
    /\ nursery_db ns0 db' (a_PreschoolToKinder (SetConfHeight 510 kid0) st1) /\ nframe ns0 (u_db u) db'.
Proof.
  apply (preschool_confirmed ns0 0 kid0 510 (set_kids [kid0] u1) st1 incubated eq_refl).
  - by_eval.
  - by_eval.
  - unfold is_u32. lia.
Defined.

Lemma timeout_confirmed_witness :
  let u := set_babies [baby0] u1 in
  exists db', waitForTimeoutConf ns0 0 (Some 510) u
    = (Ok tt, set_db db' (set_babies (<[0%nat := baby_SetConfHeight 510 baby0]> (u_babies u)) u))
    /\ nursery_db ns0 db' (a_CribToKinder (baby_SetConfHeight 510 baby0) st1) /\ nframe ns0 (u_db u) db'.
Proof.
  apply (timeout_confirmed ns0 0 baby0 baby0 510 (set_babies [baby0] u1) st1 incubated eq_refl).
  - vm_compute. reflexivity.
  - reflexivity.
  - by_eval.
  - by_eval.
  - unfold is_u32. lia.
Defined.

Lemma sweep_confirmed_witness :
  exists db' sta st', waitForSweepConf ns0 654 [toy_op 10] (Some 700) u2 = (Ok tt, set_db db' u2)
    /\ nursery_db ns0 db' st' /\ nframe ns0 db2 db' /\ graduated 654 st2 sta /\ forgets [toy_op 10] sta st'.
Proof.
  apply (sweep_confirmed ns0 654 [toy_op 10] 700 u2 st2 kindergarten u32_654).
  by_eval.
Defined.

Lemma report_balances_witness :
  exists xs r, NoDup xs.*1 /\ (forall c op i, (c, op, i) ∈ xs <-> st1 !! LOut (toy_op 10) c op = Some i)
    /\ NurseryReport ns0 (toy_op 10) u1 = (Ok r, u1) /\ cmr_chanPoint r = toy_op 10
    /\ (Forall (fun x => 0 <= item_amount x) xs -> sum_Z (map item_amount xs) < 2 ^ 63 ->
        cmr_limboBalance r = sum_Z (map limbo_part xs)
        /\ cmr_recoveredBalance r = sum_Z (map recovered_part xs)
        /\ cmr_localAmount r + sum_Z (map hmr_amount (cmr_htlcs r)) = cmr_limboBalance r + cmr_recoveredBalance r).
Proof.
  apply (report_balances ns0 u1 st1 (toy_op 10) incubated chan0_ok).
  exists Pscl, (toy_op 11). by_eval.
Defined.

(** The nursery was stopped after height 440; its output matures at 448, and the best block
    is 450. *)
Definition kid_r : kidOutput := toy_kid 10 11 144 304.
Definition st_r : gmap loc item := a_GraduateHeight 440 (a_PreschoolToKinder kid_r st1).
Definition u_r : utxoNursery := newUtxoNursery (GraduateHeight ns0 440 (PreschoolToKinder ns0 kid_r db1).2).2 (fee 10).
Definition u_r' : utxoNursery := (Start ns0 u_r).2.

Lemma stopped_r : nursery_db ns0 (u_db u_r) st_r.
Proof.
  destruct incubated as [H Hi].
  destruct (PreschoolToKinder_refines ns0 db1 st1 kid_r H (NInv_typed_heights _ Hi)) as (db' & E & _ & H'); [by_eval|].
  destruct (GraduateHeight_refines ns0 db' _ 440 H') as (db2 & E2 & _ & H2); [unfold is_u32; lia|].
  unfold u_r. cbn [u_db newUtxoNursery]. rewrite E. cbn [snd]. rewrite E2. split; [done|].
  apply a_GraduateHeight_NInv, a_PreschoolToKinder_NInv; [done|]. by_eval.
Qed.


Definition cr0 : CommitOutputResolution := mkCommitOutputResolution (toy_op 21) (toy_sd 50000) 144.

(** A channel the nursery does not know. *)
Definition off_chan (cp : OutPoint) (l : loc) : bool :=
  match l with LOut cp' _ _ => negb (bool_decide (cp' = cp)) | _ => true end.

Lemma untracked_by (st : gmap loc item) cp :
  forallb (fun li => off_chan cp li.1) (map_to_list st) = true -> ~ tracked st cp.
Proof.
  rewrite forallb_forall. intros H (c & op & [i Hi]).
  specialize (H (LOut cp c op, i)). simpl in H. rewrite bool_decide_eq_true_2 in H by done.
  discriminate H. by apply list_elem_of_In, elem_of_map_to_list.
Qed.

Lemma chan20_untracked : ~ tracked st1 (toy_op 20).
Proof. apply untracked_by. vm_compute. reflexivity. Qed.

Definition kid20 : kidOutput := kid_of_commit (toy_op 20) cr0.

Lemma kid20_ok : item_ok (IKid kid20).
Proof. by_eval. Qed.

Definition u1i : utxoNursery := (IncubateOutputs ns0 (toy_op 20) (Some cr0) [] [] u1).2.

Lemma incubate_outputs_persisted_witness :
  nursery_db ns0 (u_db u1i) (a_Incubate (request_kids (toy_op 20) (Some cr0) [] []) (request_babies (toy_op 20) []) st1)
  /\ nframe ns0 (u_db u1) (u_db u1i).
Proof.
  apply (incubate_outputs_persisted ns0 (toy_op 20) (Some cr0) [] [] u1 st1 (Ok tt) u1i incubated).
  - split; [|intros b c H; by apply elem_of_nil in H|intros k b _ H; by apply elem_of_nil in H].
    change (request_kids (toy_op 20) (Some cr0) [] []) with [kid20].
    intros k c ->%list_elem_of_singleton Hs. destruct chan20_untracked. by exists c, (kid_OutPoint kid20).
  - change (request_kids (toy_op 20) (Some cr0) [] []) with [kid20]. apply Forall_singleton, kid20_ok.
  - constructor.
  - by_run u1i.
Defined.


(** ** Runs that go wrong *)

(** A force close with a commitment output and an incoming HTLC. *)
Definition ihr0 : IncomingHtlcResolution := mkIncomingHtlcResolution 144 (toy_op 22) (toy_sd 30000).
Definition two_kids : utxoNursery :=
  (IncubateOutputs ns0 (toy_op 20) (Some cr0) [] [ihr0] (newUtxoNursery [] (fee 10))).2.
Definition kid_htlc : kidOutput := kid_of_incoming (toy_op 20) ihr0.
Definition confirmed_once : utxoNursery :=
  (waitForPreschoolConf ns0 0 (Some 510) two_kids).2.

(** [IncubateOutputs] hands every goroutine the address of the same loop
    variable: with a commitment output and an HTLC both goroutines hold the HTLC, so
    when the commitment transaction confirms the HTLC is moved to the kindergarten,
    and the commitment output stays in preschool even after both notifications. *)
Theorem incubate_shares_loop_variable :
  u_waiters two_kids = [WPreschool 0 (toy_hash 21) 0; WPreschool 0 (toy_hash 22) 0]
  /\ u_kids two_kids = [kid_htlc]
  /\ FetchPreschools ns0 (u_db confirmed_once) = Ok [kid20]
  /\ FetchClass ns0 654 (u_db confirmed_once) = Ok (None, [SetConfHeight 510 kid_htlc], [])
  /\ FetchPreschools ns0 (u_db (waitForPreschoolConf ns0 0 (Some 510) confirmed_once).2) = Ok [kid20].
Proof. repeat split; by_eval. Qed.

(** The outgoing HTLC of a force close by the remote party. *)
Definition ohr0 : OutgoingHtlcResolution := mkOutgoingHtlcResolution 600 None 0 (toy_op 23) (toy_sd 30000).
Definition remote_close : utxoNursery :=
  (IncubateOutputs ns0 (toy_op 20) None [ohr0] [] (newUtxoNursery [] (fee 10))).2.

(** An outgoing HTLC on the remote party's commitment that waits in preschool is
    in neither balance of the report, nor in its list of HTLCs. *)
Theorem remote_htlc_not_in_limbo :
  FetchPreschools ns0 (u_db remote_close) = Ok [kid_of_outgoing (toy_op 20) ohr0]
  /\ (NurseryReport ns0 (toy_op 20) remote_close).1
     = Ok (mkContractMaturityReport (toy_op 20) 0 0 0 0 0 0 []).
Proof. split; by_eval. Qed.

(** The fee estimator is down when block 654 arrives and back for block 655. *)
Definition u_down : utxoNursery := (graduateClass ns0 654 (set_env no_fee u2)).2.
Definition u_back : utxoNursery := (graduateClass ns0 655 (set_env (fee 10) u_down)).2.
Definition u_restarted : utxoNursery := (Start ns0 (newUtxoNursery (u_db u_back) (fee 10))).2.

(** A height whose sweep could not be created once is skipped for good as soon
    as the next block is graduated: not even graduating it again or a restart sweeps
    the output, which stays in the kindergarten. *)
Theorem failed_sweep_never_retried :
  (graduateClass ns0 654 (set_env no_fee u2)).1 = Err (ErrExternal 1)
  /\ (graduateClass ns0 655 (set_env (fee 10) u_down)).1 = Ok tt
  /\ u_published (graduateClass ns0 654 u_back).2 = []
  /\ (Start ns0 (newUtxoNursery (u_db u_back) (fee 10))).1 = Ok tt
  /\ u_published u_restarted = [toy_tx]
  /\ FetchClass ns0 654 (u_db u_restarted) = Ok (None, [kid2], []).
Proof. repeat split; by_eval. Qed.

(** A crib output confirmed after its maturity height was graduated. *)
Definition u_late : utxoNursery := newUtxoNursery crib_late (fee 10).
Definition crib_late_final : bucket := (FinalizeKinder ns0 1000 None crib_late).2.
Definition u_late_restarted : utxoNursery := (Start ns0 (newUtxoNursery crib_late_final (fee 10))).2.

(** The output [CribToKinder] puts into a height that was graduated and
    finalized before is not swept after a restart either. *)
Theorem crib_late_never_swept :
  (Start ns0 (newUtxoNursery crib_late_final (fee 10))).1 = Ok tt
  /\ u_published u_late_restarted = [] /\ u_waiters u_late_restarted = [WPreschool 0 (toy_hash 11) 394]
  /\ FetchClass ns0 654 (u_db u_late_restarted) = Ok (None, [toy_kid 10 12 144 510], []).
Proof. repeat split; by_eval. Qed.

(** Reloading a height on startup does broadcast transactions: the timeout
    transactions of its crib outputs. *)
Theorem regraduate_broadcasts :
  (regraduateClass ns0 500 u1).1 = Ok tt /\ u_published (regraduateClass ns0 500 u1).2 = [toy_tx].
Proof. split; by_eval. Qed.

Lemma unfinalized_class_stuck_witness :
  (forall w kids id, w ∈ u_waiters (graduateClass ns0 654 u_back).2 ++ u_waiters (regraduateClass ns0 654 u_back).2 ->
     w = WSweep 654 kids id -> w ∈ u_waiters u_back)
  /\ (forall t, t ∈ u_published (graduateClass ns0 654 u_back).2 ++ u_published (regraduateClass ns0 654 u_back).2 ->
        t ∈ u_published u_back
        \/ exists cp op b, a_GraduateHeight 655 (a_FinalizeKinder 655 None st2) !! LOut cp Crib op = Some (IBaby b)
              /\ t = baby_timeoutTx b).
Proof.
  apply (unfinalized_class_stuck ns0 654 u_back (a_GraduateHeight 655 (a_FinalizeKinder 655 None st2)) (Ok tt)
           (graduateClass ns0 654 u_back).2 (Ok tt) (regraduateClass ns0 654 u_back).2).
  - destruct kindergarten as [H Hi].
    destruct (FinalizeKinder_refines ns0 db2 st2 655 None H (ni_final _ Hi)) as (dba & Ea & _ & Ha);
      [unfold is_u32; lia|done|].
    destruct (GraduateHeight_refines ns0 dba _ 655 Ha) as (dbb & Eb & _ & Hb); [unfold is_u32; lia|].
    assert (u_db u_back = dbb) as ->.
    { transitivity (GraduateHeight ns0 655 (FinalizeKinder ns0 655 None db2).2).2; [vm_compute; reflexivity|].
      by rewrite Ea; cbn [snd]; rewrite Eb. }
    split; [done|]. by apply a_GraduateHeight_NInv, a_FinalizeKinder_NInv.
  - exact u32_654.
  - by vm_compute.
  - by_eval.
  - refine (run_eq (graduateClass ns0 654 u_back) _ _). by_eval.
  - refine (run_eq (regraduateClass ns0 654 u_back) _ _). by_eval.
Defined.

End NurseryRuns.
