(* ===== verification/OpeningState.v ===== *)
(** * The opening state of channels

    The record the funding manager keeps between the confirmation of a funding
    transaction and the announcement of the channel (fundingmanager.go,
    [saveChannelOpeningState], [getChannelOpeningState], [deleteChannelOpeningState])
    with the compact channel identifier stored in it
    (vendor/github.com/lightningnetwork/lnd/lnwire/short_channel_id.go). *)

From Stdlib Require Import ZArith Lia.
From Stdlib Require Import Init.Byte.
From stdpp Require Import base gmap strings numbers list.
From S2P Require Import Prelude Stream Tx Bolt BoltMap.
Local Open Scope Z_scope.

(** ** Short channel identifiers *)

Record ShortChannelID := mkShortChannelID {
  sci_BlockHeight : Z;
  sci_TxIndex : Z;
  sci_TxPosition : Z
}.

#[global] Instance ShortChannelID_eq_dec : EqDecision ShortChannelID.
Proof. solve_decision. Defined.

Definition ToUint64 (c : ShortChannelID) : Z :=
  Z.lor (Z.lor (u64 (Z.shiftl (sci_BlockHeight c) 40)) (u64 (Z.shiftl (sci_TxIndex c) 16))) (sci_TxPosition c).

Definition NewShortChanIDFromInt (chanID : Z) : ShortChannelID :=
  mkShortChannelID (u32 (Z.shiftr chanID 40)) (Z.land (u32 (Z.shiftr chanID 16)) 0xFFFFFF) (u16 chanID).

(** Heights and indices are limited to three bytes. *)
Definition ShortChannelID_ok (c : ShortChannelID) : Prop :=
  0 <= sci_BlockHeight c < 2 ^ 24 /\ 0 <= sci_TxIndex c < 2 ^ 24 /\ is_u16 (sci_TxPosition c).

#[global] Instance ShortChannelID_ok_dec c : Decision (ShortChannelID_ok c).
Proof. unfold ShortChannelID_ok, is_u16. apply _. Defined.

Lemma lor_shiftl_add a b k : 0 <= k -> 0 <= b < 2 ^ k -> Z.lor (Z.shiftl a k) b = a * 2 ^ k + b.
Proof.
  intros Hk Hb. rewrite <- Z.shiftl_mul_pow2 by done. symmetry.
  assert (Z.land (Z.shiftl a k) b = 0) as Hl.
  { apply Z.bits_inj'. intros n Hn. rewrite Z.land_spec, Z.bits_0, Z.shiftl_spec by done.
    destruct (decide (n < k)) as [Hlt|Hge]; [by rewrite Z.testbit_neg_r by lia|].
    destruct (decide (b = 0)) as [->|Hb0]; [by rewrite Z.bits_0, andb_false_r|].
    rewrite (Z.bits_above_log2 b n), andb_false_r; [done|lia|]. pose proof (Z.log2_lt_pow2 b k). lia. }
  rewrite Z.add_nocarry_lxor by done. by rewrite Z.lxor_lor.
Qed.

Lemma ToUint64_eq c :
  ShortChannelID_ok c ->
  ToUint64 c = sci_BlockHeight c * 2 ^ 40 + sci_TxIndex c * 2 ^ 16 + sci_TxPosition c.
Proof.
  destruct c as [h i p]. intros (Hh & Hi & Hp). simpl in *. unfold is_u16 in Hp. unfold ToUint64. cbn [sci_BlockHeight sci_TxIndex sci_TxPosition].
  unfold u64. rewrite !Z.mod_small by (rewrite Z.shiftl_mul_pow2 by lia; lia).
  rewrite <- Z.lor_assoc, (lor_shiftl_add i p 16) by lia. rewrite lor_shiftl_add by lia. lia.
Qed.

Lemma NewShortChanIDFromInt_ToUint64 c : ShortChannelID_ok c -> NewShortChanIDFromInt (ToUint64 c) = c.
Proof.
  intros Hc. rewrite ToUint64_eq by done. destruct c as [h i p]. destruct Hc as (Hh & Hi & Hp). simpl in *. unfold is_u16 in Hp.
  unfold NewShortChanIDFromInt, u32, u16. change 0xFFFFFF with (Z.ones 24). rewrite Z.land_ones by lia.
  rewrite !Z.shiftr_div_pow2 by lia.
  replace ((h * 2 ^ 40 + i * 2 ^ 16 + p) / 2 ^ 40) with h by (apply (Z.div_unique _ _ _ (i * 2 ^ 16 + p)); lia).
  replace ((h * 2 ^ 40 + i * 2 ^ 16 + p) / 2 ^ 16) with (h * 2 ^ 24 + i) by (apply (Z.div_unique _ _ _ p); lia).
  f_equal.
  - apply Z.mod_small. lia.
  - rewrite Z.mod_mod_divide by (by exists (2 ^ 8)).
    rewrite Z.add_comm, Z.mod_add by lia. apply Z.mod_small. lia.
  - replace (h * 2 ^ 40 + i * 2 ^ 16 + p) with (p + (h * 2 ^ 24 + i) * 2 ^ 16) by lia.
    rewrite Z.mod_add by lia. apply Z.mod_small. lia.
Qed.

Lemma ToUint64_range c : ShortChannelID_ok c -> is_u64 (ToUint64 c).
Proof.
  intros Hc. rewrite ToUint64_eq by done. destruct c, Hc as (? & ? & Hp). simpl in *. unfold is_u16 in Hp. unfold is_u64. lia.
Qed.

(** ** The records *)

(** [channelOpeningState], a uint8. *)
Definition markedOpen : Z := 0.
Definition fundingLockedSent : Z := 1.
Definition addedToRouterGraph : Z := 2.

Definition channelOpeningStateBucket : bytes := str "channelOpeningState".

Definition opening_Encode (r : Z * ShortChannelID) : bytes :=
  put_be 2 (u16 r.1) ++ put_be 8 (ToUint64 r.2).

Definition saveChannelOpeningState (chanPoint : OutPoint) (state : Z) (shortChanID : ShortChannelID)
    : bucket -> res () * bucket :=
  Update (
    bucket ← b_CreateBucketIfNotExists [] channelOpeningStateBucket;
    b_Put bucket (writeOutpoint chanPoint) (opening_Encode (state, shortChanID))).

(** Slicing and decoding a value that is too short panics. *)
Definition getChannelOpeningState (chanPoint : OutPoint) (db : bucket) : res (Z * ShortChannelID) :=
  View (
    bucket ← b_Bucket [] channelOpeningStateBucket;
    match bucket with
    | None => tx_fail ErrChannelNotFound
    | Some bucket =>
        value ← b_Get bucket (writeOutpoint chanPoint);
        match value with
        | None => tx_fail ErrChannelNotFound
        | Some value =>
            if (length value <? 10)%nat then tx_fail (ErrPanic "slice bounds out of range")
            else mret (get_be (take 2 value) mod 2 ^ 8, NewShortChanIDFromInt (get_be (take 8 (drop 2 value))))
        end
    end) db.

Definition deleteChannelOpeningState (chanPoint : OutPoint) : bucket -> res () * bucket :=
  Update (
    bucket ← b_Bucket [] channelOpeningStateBucket;
    match bucket with
    | None => tx_fail (ErrNew "Bucket not found")
    | Some bucket => b_Delete bucket (writeOutpoint chanPoint)
    end).

(** ** What they mean *)

Definition opening_ok (r : Z * ShortChannelID) : Prop := 0 <= r.1 < 2 ^ 8 /\ ShortChannelID_ok r.2.

Record OpeningStates := mkOpeningStates {
  os_created : bool;
  os_states : gmap OutPoint (Z * ShortChannelID)
}.

Definition os_rel (db : bucket) (st : OpeningStates) : Prop :=
  bkt_wf db
  /\ os_created st = has db [channelOpeningStateBucket]
  /\ holds_map opening_Encode channelOpeningStateBucket (os_states st) db
  /\ (forall cp r, os_states st !! cp = Some r -> opening_ok r).

Definition os_empty : OpeningStates := mkOpeningStates false ∅.

Lemma os_rel_empty : os_rel [] os_empty.
Proof.
  split; [apply bkt_wf_nil|]. split; [done|]. split; [apply holds_map_empty|]. intros cp r. simpl. by rewrite lookup_empty.
Qed.

Lemma saveChannelOpeningState_refines db st cp state scid :
  os_rel db st -> OutPoint_ok cp -> opening_ok (state, scid) ->
  exists db', saveChannelOpeningState cp state scid db = (Ok tt, db')
    /\ os_rel db' (mkOpeningStates true (<[cp := (state, scid)]> (os_states st))).
Proof.
  intros (Hwf & Hc & Hm & Hok) Hcp Hr. apply wp_Update_unit.
  apply wp_bind, wp_CreateBucketIfNotExists; [done|done|apply Hm|].
  intros b1 C1. pose proof C1 as (Co & Ch & Cw). rewrite app_nil_l. apply wp_Put.
  - rewrite Ch. by rewrite bool_decide_eq_true_2, orb_true_r.
  - rewrite Ch. destruct Hm as (_ & Hs & _). simpl. by rewrite Hs.
  - by apply writeOutpoint_key.
  - by vm_compute.
  - intros b2 S2. pose proof S2 as (So & Sh & Sw). split; [by auto|]. split; [|split].
    + simpl. rewrite Sh, Ch. by rewrite bool_decide_eq_true_2, orb_true_r.
    + by eapply holds_map_insert.
    + intros cp' r. simpl. rewrite lookup_insert. case_decide; [by intros [= <-]|apply Hok].
Qed.

Lemma opening_Encode_length r : length (opening_Encode r) = 10%nat.
Proof. unfold opening_Encode. by rewrite length_app, !put_be_length. Qed.

Lemma opening_decode r :
  opening_ok r ->
  (get_be (take 2 (opening_Encode r)) mod 2 ^ 8, NewShortChanIDFromInt (get_be (take 8 (drop 2 (opening_Encode r))))) = r.
Proof.
  destruct r as [z c]. intros [Hz Hc]. simpl in Hz, Hc. unfold opening_Encode. cbn [fst snd].
  rewrite take_app_length' by (by rewrite put_be_length). rewrite drop_app_length' by (by rewrite put_be_length).
  rewrite take_ge by (rewrite put_be_length; lia). rewrite !get_put_be.
  rewrite (Z.mod_small (ToUint64 c)) by (apply ToUint64_range in Hc; exact Hc).
  rewrite NewShortChanIDFromInt_ToUint64 by done. f_equal.
  unfold u16. rewrite !(Z.mod_small z) by lia. done.
Qed.

Lemma getChannelOpeningState_refines db st cp :
  os_rel db st -> OutPoint_ok cp ->
  getChannelOpeningState cp db = match os_states st !! cp with Some r => Ok r | None => Err ErrChannelNotFound end.
Proof.
  intros (Hwf & Hc & Hm & Hok) Hcp. pose proof (holds_map_obs _ _ _ _ _ Hm Hcp) as Ho.
  destruct (os_states st !! cp) as [r|] eqn:E; simpl in Ho.
  - apply wp_View_eq, wp_bind, wp_Bucket. rewrite app_nil_l, (obs_has _ _ _ _ Ho).
    apply wp_bind, wp_Get. rewrite Ho, opening_Encode_length. apply wp_ret. by apply opening_decode, Hok with cp.
  - unfold getChannelOpeningState, View, mbind, tx_bind, b_Bucket. rewrite app_nil_l.
    destruct (bucket_at [channelOpeningStateBucket] db); [|done].
    change (b_Get [channelOpeningStateBucket] (writeOutpoint cp) db)
      with (Ok (obs db [channelOpeningStateBucket] (writeOutpoint cp), db)). by rewrite Ho.
Qed.

Lemma deleteChannelOpeningState_refines db st cp :
  os_rel db st -> OutPoint_ok cp ->
  if os_created st then
    exists db', deleteChannelOpeningState cp db = (Ok tt, db')
      /\ os_rel db' (mkOpeningStates true (delete cp (os_states st)))
  else deleteChannelOpeningState cp db = (Err (ErrNew "Bucket not found"), db).
Proof.
  intros (Hwf & Hc & Hm & Hok) Hcp. destruct (os_created st) eqn:Hcr.
  - apply wp_Update_unit, wp_bind, wp_Bucket. rewrite app_nil_l, <- Hc.
    apply wp_Delete; [done|apply Hm|]. intros b1 D1. pose proof D1 as (Do & Dh & Dw).
    split; [by auto|]. split; [simpl; by rewrite Dh|]. split; [by eapply holds_map_delete|].
    intros cp' r H. cbn [os_states] in H. apply lookup_delete_Some in H as [_ H]. by eapply Hok.
  - unfold deleteChannelOpeningState, Update, mbind, tx_bind, b_Bucket. unfold has in Hc. rewrite app_nil_l.
    by destruct (bucket_at _ db).
Qed.

(** ** Runs *)

Inductive os_op :=
| OpSave (cp : OutPoint) (state : Z) (scid : ShortChannelID)
| OpDelete (cp : OutPoint).

Definition os_op_ok (o : os_op) : Prop :=
  match o with
  | OpSave cp state scid => OutPoint_ok cp /\ opening_ok (state, scid)
  | OpDelete cp => OutPoint_ok cp
  end.

Definition os_run (o : os_op) (db : bucket) : bucket :=
  match o with
  | OpSave cp state scid => (saveChannelOpeningState cp state scid db).2
  | OpDelete cp => (deleteChannelOpeningState cp db).2
  end.

Definition os_spec (o : os_op) (m : gmap OutPoint (Z * ShortChannelID)) : gmap OutPoint (Z * ShortChannelID) :=
  match o with
  | OpSave cp state scid => <[cp := (state, scid)]> m
  | OpDelete cp => delete cp m
  end.

(** A bucket that does not exist holds the empty map. *)
Lemma os_rel_absent db st cp : os_rel db st -> os_created st = false -> os_states st !! cp = None.
Proof. intros (_ & Hc & Hm & _) Hf. eapply holds_map_absent; [exact Hm|congruence]. Qed.

Lemma os_run_refines o db st :
  os_rel db st -> os_op_ok o -> exists st', os_rel (os_run o db) st' /\ os_states st' = os_spec o (os_states st).
Proof.
  intros H Ho. destruct o as [cp state scid|cp]; simpl in *.
  - destruct Ho as [Hcp Hr]. destruct (saveChannelOpeningState_refines _ _ _ _ _ H Hcp Hr) as (db' & -> & H'). eauto.
  - pose proof (deleteChannelOpeningState_refines _ _ _ H Ho) as HD. destruct (os_created st) eqn:Hc.
    + destruct HD as (db' & -> & H'). eauto.
    + rewrite HD. exists st. split; [done|]. by rewrite delete_id by (by eapply os_rel_absent).
Qed.

Lemma os_runs_refine ops db st :
  os_rel db st -> Forall os_op_ok ops ->
  exists st', os_rel (foldl (fun db o => os_run o db) db ops) st'
    /\ os_states st' = foldl (fun m o => os_spec o m) (os_states st) ops.
Proof.
  intros H Hops. revert db st H. induction Hops as [|o ops Ho _ IH]; intros db st H; [by exists st|]. simpl.
  destruct (os_run_refines o db st H Ho) as (st1 & H1 & E1). destruct (IH _ _ H1) as (st2 & H2 & E2).
  exists st2. split; [done|]. by rewrite E2, E1.
Qed.

(** C37: after any sequence of saves and deletions, starting from an empty database,
    [getChannelOpeningState] returns the state and the short channel identifier last
    saved for the channel, and [ErrChannelNotFound] when there is none or it was
    deleted since; it never slices out of bounds. *)
Theorem opening_state_correct ops cp :
  Forall os_op_ok ops -> OutPoint_ok cp ->
  getChannelOpeningState cp (foldl (fun db o => os_run o db) [] ops)
  = match foldl (fun m o => os_spec o m) ∅ ops !! cp with Some r => Ok r | None => Err ErrChannelNotFound end.
Proof.
  intros Hops Hcp. destruct (os_runs_refine ops [] os_empty os_rel_empty Hops) as (st & H & E).
  rewrite (getChannelOpeningState_refines _ _ _ H Hcp), E. done.
Qed.
