(* ===== verification/FundingManager.v ===== *)
(** * The funding manager

    fundingmanager.go: the reservations of channels being negotiated, the wire
    messages of the funding workflow, the wait for the funding transaction, and the
    persistent state machine that takes a confirmed channel to its announcement.

    The wallet's [ChannelReservation], the channel database and the other subsystems
    are the class [FundingEnv].  A reservation context is shared by pointer between the
    coordinator and its goroutines: contexts live in a heap and a pointer is an index.
    A [chan struct{}] that is only ever closed is a numbered signal.  Goroutines that
    wait are the tasks of the state; what they do when woken is the definition named
    after their function.  [fm_log] records what was sent to peers and to the gossiper
    and what was cancelled in the wallet. *)

From Stdlib Require Import ZArith Lia.
From Stdlib Require Import Init.Byte.
From stdpp Require Import base gmap countable strings numbers list.
From S2P Require Import Prelude Stream Tx Outputs Bolt BoltMap Effects Sweep OpeningState.
Local Open Scope Z_scope.

Definition maxFundingAmount : Z := 2 ^ 24.
Definition maxWaitNumBlocksFundingConf : Z := 288.

Definition ErrMaxPendingChannels : byte := x01.
Definition ErrSynchronizingChain : byte := x02.
Definition ErrChanTooLarge : byte := x03.
Definition FFAnnounceChannel : Z := 1.

(** [lnwire.NewChanIDFromOutPoint]: the last two bytes of the transaction id, xored with
    the output index. *)
Definition xor_byte (a b : byte) : byte := byte_of_Z (Z.lxor (Z_of_byte a) (Z_of_byte b)).

Definition NewChanIDFromOutPoint (op : OutPoint) : bytes :=
  take 30 (op_Hash op) ++ zip_with xor_byte (drop 30 (op_Hash op)) (put_be 2 (u16 (op_Index op))).

Section Data.
Context {BTC : Btcec}.

Record NetAddress := mkNetAddress { na_IdentityKey : PublicKey; na_Address : Z }.

(** The parts of [channeldb.OpenChannel] the funding manager reads. *)
Record OpenChannel := mkOpenChannel {
  oc_FundingOutpoint : OutPoint;
  oc_ChainHash : bytes;
  oc_IdentityPub : PublicKey;
  oc_ChanType : Z;
  oc_IsInitiator : bool;
  oc_IsPending : bool;
  oc_FundingTxn : MsgTx;
  oc_FundingBroadcastHeight : Z;
  oc_NumConfsRequired : Z;
  oc_ChannelFlags : Z;
  oc_LocalMultiSigKey : PublicKey;
  oc_RemoteMultiSigKey : PublicKey;
  oc_RemoteMinHTLC : Z;
  oc_Capacity : Z;
  oc_LocalBalance : Z;
  oc_RemoteBalance : Z
}.

Definition SingleFunder : Z := 0.

Record ChannelContribution := mkChannelContribution {
  co_FundingAmount : Z;
  co_FirstCommitmentPoint : PublicKey;
  co_DustLimit : Z;
  co_MaxPendingAmount : Z;
  co_ChanReserve : Z;
  co_MinHTLC : Z;
  co_MaxAcceptedHtlcs : Z;
  co_CsvDelay : Z;
  co_MultiSigKey : PublicKey;
  co_RevocationBasePoint : PublicKey;
  co_PaymentBasePoint : PublicKey;
  co_DelayBasePoint : PublicKey;
  co_HtlcBasePoint : PublicKey
}.

(** ** Messages *)

Record OpenChannelMsg := mkOpenChannelMsg {
  om_ChainHash : bytes;
  om_PendingChannelID : bytes;
  om_FundingAmount : Z;
  om_PushAmount : Z;
  om_DustLimit : Z;
  om_MaxValueInFlight : Z;
  om_ChannelReserve : Z;
  om_HtlcMinimum : Z;
  om_FeePerKiloWeight : Z;
  om_CsvDelay : Z;
  om_MaxAcceptedHTLCs : Z;
  om_FundingKey : PublicKey;
  om_RevocationPoint : PublicKey;
  om_PaymentPoint : PublicKey;
  om_DelayedPaymentPoint : PublicKey;
  om_HtlcPoint : PublicKey;
  om_FirstCommitmentPoint : PublicKey;
  om_ChannelFlags : Z
}.

Record AcceptChannelMsg := mkAcceptChannelMsg {
  am_PendingChannelID : bytes;
  am_DustLimit : Z;
  am_MaxValueInFlight : Z;
  am_ChannelReserve : Z;
  am_MinAcceptDepth : Z;
  am_HtlcMinimum : Z;
  am_CsvDelay : Z;
  am_MaxAcceptedHTLCs : Z;
  am_FundingKey : PublicKey;
  am_RevocationPoint : PublicKey;
  am_PaymentPoint : PublicKey;
  am_DelayedPaymentPoint : PublicKey;
  am_HtlcPoint : PublicKey;
  am_FirstCommitmentPoint : PublicKey
}.

Record FundingCreatedMsg := mkFundingCreatedMsg {
  fc_PendingChannelID : bytes;
  fc_FundingPoint : OutPoint;
  fc_CommitSig : bytes
}.

Record FundingSignedMsg := mkFundingSignedMsg { fs_ChanID : bytes; fs_CommitSig : bytes }.
Record FundingLockedMsg := mkFundingLockedMsg { fl_ChanID : bytes; fl_NextPerCommitmentPoint : PublicKey }.
Record ErrorMsg := mkErrorMsg { em_ChanID : bytes; em_Data : bytes }.

Inductive PeerMessage :=
| POpen (m : OpenChannelMsg)
| PAccept (m : AcceptChannelMsg)
| PCreated (m : FundingCreatedMsg)
| PSigned (m : FundingSignedMsg)
| PLocked (m : FundingLockedMsg)
| PError (m : ErrorMsg).

(** Announcements for the gossiper. *)
Record ChannelAnnouncement := mkChannelAnnouncement {
  ca_ShortChannelID : ShortChannelID;
  ca_ChainHash : bytes;
  ca_NodeID1 : bytes;
  ca_NodeID2 : bytes;
  ca_BitcoinKey1 : bytes;
  ca_BitcoinKey2 : bytes
}.

Record ChannelUpdate := mkChannelUpdate {
  cu_Signature : bytes;
  cu_ShortChannelID : ShortChannelID;
  cu_ChainHash : bytes;
  cu_Timestamp : Z;
  cu_Flags : Z;
  cu_TimeLockDelta : Z;
  cu_HtlcMinimumMsat : Z;
  cu_BaseFee : Z;
  cu_FeeRate : Z
}.

Record AnnounceSignatures := mkAnnounceSignatures {
  as_ChannelID : bytes;
  as_ShortChannelID : ShortChannelID;
  as_NodeSignature : bytes;
  as_BitcoinSignature : bytes
}.

Inductive Announcement :=
| AChannel (a : ChannelAnnouncement)
| AUpdate (u : ChannelUpdate)
| AProof (p : AnnounceSignatures)
| ANode (n : Z).

Record chanAnnouncement := mkChanAnnouncement {
  chanAnn : ChannelAnnouncement;
  chanUpdateAnn : ChannelUpdate;
  chanProof : AnnounceSignatures
}.

(** A local request to open a channel; its channels for updates and errors are read by
    the caller. *)
Record openChanReq := mkOpenChanReq {
  oq_targetPubkey : PublicKey;
  oq_chainHash : bytes;
  oq_localFundingAmt : Z;
  oq_remoteFundingAmt : Z;
  oq_pushAmt : Z;
  oq_fundingFeePerVSize : Z;
  oq_private : bool;
  oq_minHtlc : Z;
  oq_remoteCsvDelay : Z
}.
End Data.

(** ** The outside world *)

(** What a goroutine that waits for a confirmation sees: the confirmation, the closed
    channel of a notifier that shut down, a cancellation, or the shutdown of the daemon. *)
Inductive conf_event :=
| CConfirmed (blockHeight txIndex : Z)
| CClosed
| CCancelled
| CQuit.

(** [NotifyWhenOnline], [SendArbiter] and [SendNewChannel] stand for a call and the
    [select] that follows it; they answer [false] when the daemon shuts down first.
    [AwaitConfirmed] is the [select] after a registration for confirmations. *)

Class FundingEnv {BTC : Btcec} {CE : ChainEnv} := {
  Reservation : Type;
  LightningChannel : Type;
  (** configuration *)
  IDKey : PublicKey;
  GenesisHash : bytes;
  MaxPendingChannels : Z;
  ReservationTimeout : Z;
  PolicyMinHTLC : Z;
  PolicyTimeLockDelta : Z;
  PolicyBaseFee : Z;
  PolicyFeeRate : Z;
  NumRequiredConfs : Z -> Z -> Z;
  RequiredRemoteDelay : Z -> Z;
  RequiredRemoteChanReserve : Z -> Z;
  RequiredRemoteMaxValue : Z -> Z;
  RequiredRemoteMaxHTLCs : Z -> Z;
  XORKeyStream : bytes -> bytes -> bytes;
  TempChanIDSeed : bytes;
  (** what the type switch of [failFundingFlow] sees of an error *)
  ReservationErrorText : goerr -> option bytes;
  IsRouterRejection : goerr -> bool;
  GrpcErrorf : byte -> bytes -> goerr;
  ErrorCode_String : byte -> bytes;
  (** clock and shutdown *)
  Now : Env -> Z;
  Quitting : Env -> bool;
  (** the wallet *)
  IsSynced : ST Env bool;
  InitChannelReservation : Z -> Z -> Z -> Z -> Z -> PublicKey -> Z -> bytes -> Z -> ST Env Reservation;
  SetNumConfsRequired : Reservation -> Z -> Env -> Env;
  CommitConstraints : Reservation -> Z -> Z -> Z -> Z -> Z -> ST Env ();
  RegisterMinHTLC : Reservation -> Z -> Env -> Env;
  ProcessSingleContribution : Reservation -> ChannelContribution -> ST Env ();
  ProcessContribution : Reservation -> ChannelContribution -> ST Env ();
  OurContribution : Reservation -> Env -> ChannelContribution;
  FundingOutpoint : Reservation -> Env -> OutPoint;
  OurCommitSignature : Reservation -> Env -> bytes;
  CompleteReservationSingle : Reservation -> OutPoint -> bytes -> ST Env OpenChannel;
  CompleteReservation : Reservation -> bytes -> ST Env OpenChannel;
  Cancel : Reservation -> ST Env ();
  NewSigFromRawSignature : bytes -> res bytes;
  ToSignatureBytes : bytes -> bytes;
  SignMessage : PublicKey -> bytes -> ST Env bytes;
  NewSigFromSignature : bytes -> res bytes;
  ChannelUpdate_DataToSign : ChannelUpdate -> res bytes;
  ChannelAnnouncement_DataToSign : ChannelAnnouncement -> res bytes;
  (** the channel database *)
  FetchPendingChannels : ST Env (list OpenChannel);
  FetchAllChannels : ST Env (list OpenChannel);
  CloseChannel : OpenChannel -> ST Env ();
  MarkAsOpen : OpenChannel -> ShortChannelID -> ST Env ();
  NewLightningChannel : OpenChannel -> ST Env LightningChannel;
  NextRevocationKey : LightningChannel -> ST Env PublicKey;
  FindChannel : bytes -> ST Env LightningChannel;
  RemoteNextRevocation : LightningChannel -> Env -> option PublicKey;
  ChanPoint : LightningChannel -> OutPoint;
  InitNextRevocation : LightningChannel -> PublicKey -> ST Env ();
  (** peers, gossiper, arbitrators *)
  SendToPeer : PublicKey -> PeerMessage -> ST Env ();
  NotifyWhenOnline : PublicKey -> Env -> bool * Env;
  SendAnnouncement : Announcement -> ST Env ();
  CurrentNodeAnnouncement : ST Env Z;
  WatchNewChannel : OpenChannel -> NetAddress -> ST Env ();
  ReportShortChanID : OutPoint -> ShortChannelID -> ST Env ();
  FindPeer : PublicKey -> ST Env ();
  SendArbiter : OutPoint -> Env -> bool * Env;
  SendNewChannel : LightningChannel -> Env -> bool * Env;
  RegisterBlockEpochNtfn : ST Env ();
  AwaitConfirmed : bytes -> Z -> ST Env conf_event
}.

Section Funding.
Context {BTC : Btcec} {CE : ChainEnv} {FE : FundingEnv}.

(** ** State *)

(** The error channel of a reservation: one the caller reads from, or a channel with
    room for one error that nobody reads. *)
Inductive errchan :=
| ErrCaller
| ErrBuffer (content : option goerr).

(** [rc_lastUpdated] is [None] for the zero time; [rc_updates] says whether there is a
    channel for status updates. *)
Record reservationWithCtx := mkReservationWithCtx {
  rc_reservation : Reservation;
  rc_peerAddress : NetAddress;
  rc_chanAmt : Z;
  rc_lastUpdated : option Z;
  rc_updates : bool;
  rc_err : errchan
}.

Inductive fund_event :=
| FSent (peer : PublicKey) (m : PeerMessage)
| FAnnounced (a : Announcement)
| FRejected (a : Announcement)
| FCancelled (r : Reservation)
| FClosedChannel (c : OpenChannel)
| FUpdate (pending : bool) (cp : OutPoint)
| FError (e : goerr)
| FArbiter (cp : OutPoint).

(** Goroutines: waiting for the funding transaction as the responder, as the initiator
    and after a restart; finishing the opening of a channel after a restart (the
    variant for [addedToRouterGraph] has no channel of its own); and handling a
    FundingLocked message. *)
Inductive ftask :=
| TCreated (peerKey : PublicKey) (pendingChanID : bytes) (completeChan : OpenChannel)
| TSigned (peerKey : PublicKey) (pendingChanID : bytes) (resCtx : nat) (fundingPoint : OutPoint) (completeChan : OpenChannel)
| TPending (ch : OpenChannel)
| TMarkedOpen (ch : OpenChannel) (scid : ShortChannelID)
| TLockedSent (ch : OpenChannel) (scid : ShortChannelID)
| TAddedToGraph (scid : ShortChannelID)
| TLocked (peer : NetAddress) (m : FundingLockedMsg).

Record fundingManager := mkFundingManager {
  fm_db : bucket;
  fm_env : Env;
  fm_ctxs : list reservationWithCtx;
  fm_chanIDNonce : Z;
  fm_activeReservations : gmap bytes (gmap bytes nat);
  fm_signedReservations : gmap bytes bytes;
  fm_newChanBarriers : gmap bytes nat;
  fm_localDiscoverySignals : gmap bytes nat;
  fm_handleFundingLockedBarriers : gset bytes;
  fm_nextSignal : nat;
  fm_closedSignals : gset nat;
  fm_loopChannel : option OpenChannel;
  fm_tasks : list ftask;
  fm_log : list fund_event
}.

Definition FM : Type -> Type := ST fundingManager.

(** Field updates. *)
Definition fm_set_db x f := mkFundingManager
  x (fm_env f) (fm_ctxs f) (fm_chanIDNonce f) (fm_activeReservations f) (fm_signedReservations f)
  (fm_newChanBarriers f) (fm_localDiscoverySignals f) (fm_handleFundingLockedBarriers f) (fm_nextSignal f)
  (fm_closedSignals f) (fm_loopChannel f) (fm_tasks f) (fm_log f).
Definition fm_set_env x f := mkFundingManager
  (fm_db f) x (fm_ctxs f) (fm_chanIDNonce f) (fm_activeReservations f) (fm_signedReservations f)
  (fm_newChanBarriers f) (fm_localDiscoverySignals f) (fm_handleFundingLockedBarriers f) (fm_nextSignal f)
  (fm_closedSignals f) (fm_loopChannel f) (fm_tasks f) (fm_log f).
Definition fm_set_ctxs x f := mkFundingManager
  (fm_db f) (fm_env f) x (fm_chanIDNonce f) (fm_activeReservations f) (fm_signedReservations f)
  (fm_newChanBarriers f) (fm_localDiscoverySignals f) (fm_handleFundingLockedBarriers f) (fm_nextSignal f)
  (fm_closedSignals f) (fm_loopChannel f) (fm_tasks f) (fm_log f).
Definition fm_set_chanIDNonce x f := mkFundingManager
  (fm_db f) (fm_env f) (fm_ctxs f) x (fm_activeReservations f) (fm_signedReservations f)
  (fm_newChanBarriers f) (fm_localDiscoverySignals f) (fm_handleFundingLockedBarriers f) (fm_nextSignal f)
  (fm_closedSignals f) (fm_loopChannel f) (fm_tasks f) (fm_log f).
Definition fm_set_activeReservations x f := mkFundingManager
  (fm_db f) (fm_env f) (fm_ctxs f) (fm_chanIDNonce f) x (fm_signedReservations f) (fm_newChanBarriers f)
  (fm_localDiscoverySignals f) (fm_handleFundingLockedBarriers f) (fm_nextSignal f) (fm_closedSignals f)
  (fm_loopChannel f) (fm_tasks f) (fm_log f).
Definition fm_set_signedReservations x f := mkFundingManager
  (fm_db f) (fm_env f) (fm_ctxs f) (fm_chanIDNonce f) (fm_activeReservations f) x (fm_newChanBarriers f)
  (fm_localDiscoverySignals f) (fm_handleFundingLockedBarriers f) (fm_nextSignal f) (fm_closedSignals f)
  (fm_loopChannel f) (fm_tasks f) (fm_log f).
Definition fm_set_newChanBarriers x f := mkFundingManager
  (fm_db f) (fm_env f) (fm_ctxs f) (fm_chanIDNonce f) (fm_activeReservations f) (fm_signedReservations f)
  x (fm_localDiscoverySignals f) (fm_handleFundingLockedBarriers f) (fm_nextSignal f) (fm_closedSignals f)
  (fm_loopChannel f) (fm_tasks f) (fm_log f).
Definition fm_set_localDiscoverySignals x f := mkFundingManager
  (fm_db f) (fm_env f) (fm_ctxs f) (fm_chanIDNonce f) (fm_activeReservations f) (fm_signedReservations f)
  (fm_newChanBarriers f) x (fm_handleFundingLockedBarriers f) (fm_nextSignal f) (fm_closedSignals f)
  (fm_loopChannel f) (fm_tasks f) (fm_log f).
Definition fm_set_handleFundingLockedBarriers x f := mkFundingManager
  (fm_db f) (fm_env f) (fm_ctxs f) (fm_chanIDNonce f) (fm_activeReservations f) (fm_signedReservations f)
  (fm_newChanBarriers f) (fm_localDiscoverySignals f) x (fm_nextSignal f) (fm_closedSignals f)
  (fm_loopChannel f) (fm_tasks f) (fm_log f).
Definition fm_set_nextSignal x f := mkFundingManager
  (fm_db f) (fm_env f) (fm_ctxs f) (fm_chanIDNonce f) (fm_activeReservations f) (fm_signedReservations f)
  (fm_newChanBarriers f) (fm_localDiscoverySignals f) (fm_handleFundingLockedBarriers f) x
  (fm_closedSignals f) (fm_loopChannel f) (fm_tasks f) (fm_log f).
Definition fm_set_closedSignals x f := mkFundingManager
  (fm_db f) (fm_env f) (fm_ctxs f) (fm_chanIDNonce f) (fm_activeReservations f) (fm_signedReservations f)
  (fm_newChanBarriers f) (fm_localDiscoverySignals f) (fm_handleFundingLockedBarriers f) (fm_nextSignal f)
  x (fm_loopChannel f) (fm_tasks f) (fm_log f).
Definition fm_set_loopChannel x f := mkFundingManager
  (fm_db f) (fm_env f) (fm_ctxs f) (fm_chanIDNonce f) (fm_activeReservations f) (fm_signedReservations f)
  (fm_newChanBarriers f) (fm_localDiscoverySignals f) (fm_handleFundingLockedBarriers f) (fm_nextSignal f)
  (fm_closedSignals f) x (fm_tasks f) (fm_log f).
Definition fm_set_tasks x f := mkFundingManager
  (fm_db f) (fm_env f) (fm_ctxs f) (fm_chanIDNonce f) (fm_activeReservations f) (fm_signedReservations f)
  (fm_newChanBarriers f) (fm_localDiscoverySignals f) (fm_handleFundingLockedBarriers f) (fm_nextSignal f)
  (fm_closedSignals f) (fm_loopChannel f) x (fm_log f).
Definition fm_set_log x f := mkFundingManager
  (fm_db f) (fm_env f) (fm_ctxs f) (fm_chanIDNonce f) (fm_activeReservations f) (fm_signedReservations f)
  (fm_newChanBarriers f) (fm_localDiscoverySignals f) (fm_handleFundingLockedBarriers f) (fm_nextSignal f)
  (fm_closedSignals f) (fm_loopChannel f) (fm_tasks f) x.

Definition fm_call {A} (m : ST Env A) : FM A := st_zoom fm_env fm_set_env m.
Definition fm_store {A} (g : bucket -> res A * bucket) : FM A := st_zoom fm_db fm_set_db g.
Definition fm_query {A} (g : bucket -> res A) : FM A := fun f => (g (fm_db f), f).
Definition fm_read {A} (g : Env -> A) : FM A := fun f => (Ok (g (fm_env f)), f).
Definition fm_do {A} (g : Env -> A * Env) : FM A := fm_call (fun e => let (a, e') := g e in (Ok a, e')).
Definition fm_mod (g : Env -> Env) : FM () := fm_do (fun e => (tt, g e)).
Definition fm_event (ev : fund_event) : FM () := st_upd (fun f => fm_set_log (fm_log f ++ [ev]) f).
Definition fm_spawn (t : ftask) : FM () := st_upd (fun f => fm_set_tasks (fm_tasks f ++ [t]) f).

Definition sendToPeer (peer : PublicKey) (m : PeerMessage) : FM () :=
  _ ← fm_call (SendToPeer peer m);
  fm_event (FSent peer m).

Definition sendAnnouncement (a : Announcement) : FM () :=
  _ ← fm_call (SendAnnouncement a);
  fm_event (FAnnounced a).

(** Signals: [make(chan struct{})] and [close]. *)
Definition makeSignal : FM nat := fun f =>
  (Ok (fm_nextSignal f), fm_set_nextSignal (S (fm_nextSignal f)) f).

Definition closeSignal (s : nat) : FM () := fun f =>
  if decide (s ∈ fm_closedSignals f) then (Err (ErrPanic "close of closed channel"), f)
  else (Ok tt, fm_set_closedSignals ({[ s ]} ∪ fm_closedSignals f) f).

(** Contexts. *)
Definition new_ctx (r : reservationWithCtx) : FM nat := fun f =>
  (Ok (length (fm_ctxs f)), fm_set_ctxs (fm_ctxs f ++ [r]) f).

Definition read_ctx (p : nat) : FM reservationWithCtx := fun f =>
  match fm_ctxs f !! p with
  | Some r => (Ok r, f)
  | None => (Err (ErrPanic "nil pointer dereference"), f)
  end.

Definition set_lastUpdated (t : option Z) (r : reservationWithCtx) : reservationWithCtx :=
  mkReservationWithCtx (rc_reservation r) (rc_peerAddress r) (rc_chanAmt r) t (rc_updates r) (rc_err r).
Definition set_err (e : errchan) (r : reservationWithCtx) : reservationWithCtx :=
  mkReservationWithCtx (rc_reservation r) (rc_peerAddress r) (rc_chanAmt r) (rc_lastUpdated r) (rc_updates r) e.

Definition isLocked (r : reservationWithCtx) : bool :=
  match rc_lastUpdated r with None => true | Some _ => false end.

Definition lock (p : nat) : FM () :=
  st_upd (fun f => fm_set_ctxs (alter (set_lastUpdated None) p (fm_ctxs f)) f).

Definition updateTimestamp (p : nat) : FM () :=
  now ← fm_read Now;
  st_upd (fun f => fm_set_ctxs (alter (set_lastUpdated (Some now)) p (fm_ctxs f)) f).

(** [resCtx.err <- e]; a send into a full channel that nobody reads never returns. *)
Definition send_err (p : nat) (e : goerr) : FM () :=
  r ← read_ctx p;
  match rc_err r with
  | ErrCaller => fm_event (FError e)
  | ErrBuffer None => st_upd (fun f => fm_set_ctxs (alter (set_err (ErrBuffer (Some e))) p (fm_ctxs f)) f)
  | ErrBuffer (Some _) => st_fail (ErrBlocked "send on full channel")
  end.

(** [resCtx.updates <- u]; a send on a nil channel never returns. *)
Definition send_update (p : nat) (pending : bool) (cp : OutPoint) : FM () :=
  r ← read_ctx p;
  if rc_updates r then fm_event (FUpdate pending cp) else st_fail (ErrBlocked "send on nil channel").

(** ** Reservations *)

Definition newSerializedKey (pubKey : PublicKey) : bytes := SerializeCompressed pubKey.

Definition lookup_ctx (peerIDKey pendingChanID : bytes) (f : fundingManager) : option nat :=
  fm_activeReservations f !! peerIDKey ≫= fun m => m !! pendingChanID.

Definition getReservationCtx (peerKey : PublicKey) (pendingChanID : bytes) : FM nat := fun f =>
  match lookup_ctx (newSerializedKey peerKey) pendingChanID f with
  | Some p => (Ok p, f)
  | None => (Err (ErrNew "unknown channel"), f)
  end.

Definition IsPendingChannel (pendingChanID : bytes) (peerAddress : NetAddress) (f : fundingManager) : bool :=
  bool_decide (is_Some (lookup_ctx (newSerializedKey (na_IdentityKey peerAddress)) pendingChanID f)).

(** [delete] on the map of a peer; on a missing map it does nothing. *)
Definition deleteReservationCtx (peerKey : PublicKey) (pendingChanID : bytes) : FM () :=
  st_upd (fun f => fm_set_activeReservations
    (alter (delete pendingChanID) (newSerializedKey peerKey) (fm_activeReservations f)) f).

Definition addReservation (peerKey : PublicKey) (pendingChanID : bytes) (p : nat) : FM () :=
  st_upd (fun f => fm_set_activeReservations
    (<[newSerializedKey peerKey :=
         <[pendingChanID := p]> (default ∅ (fm_activeReservations f !! newSerializedKey peerKey))]>
       (fm_activeReservations f)) f).

Definition cancel (r : Reservation) : FM () :=
  _ ← fm_call (Cancel r);
  fm_event (FCancelled r).

Definition cancelReservationCtx (peerKey : PublicKey) (pendingChanID : bytes) : FM nat :=
  p ← getReservationCtx peerKey pendingChanID;
  ctx ← read_ctx p;
  _ ← cancel (rc_reservation ctx);
  _ ← deleteReservationCtx peerKey pendingChanID;
  mret p.

(** The errors a flow can fail with: a code of the protocol, or any other error. *)
Inductive funding_err := FECode (c : byte) | FEOther (e : goerr).

Definition failFundingFlow (peer : PublicKey) (tempChanID : bytes) (fundingErr : funding_err) : FM () :=
  let msg := match fundingErr with
             | FECode c => [c]
             | FEOther e => match ReservationErrorText e with
                            | Some text => text
                            | None => str "funding failed due to internal error"
                            end
             end in
  let errMsg := PError (mkErrorMsg tempChanID msg) in
  _ ← st_try (cancelReservationCtx peer tempChanID);
  _ ← st_try (sendToPeer peer errMsg);
  mret tt.

Definition CancelPeerReservations (nodePub : bytes) : FM () :=
  f ← st_get;
  match fm_activeReservations f !! nodePub with
  | None => mret tt
  | Some nodeReservations =>
      _ ← st_iter (fun (entry : bytes * nat) =>
            ctx ← read_ctx entry.2;
            _ ← st_try (cancel (rc_reservation ctx));
            _ ← (match rc_err ctx with
                 | ErrBuffer (Some _) => mret tt
                 | _ => send_err entry.2 (ErrNew "peer disconnected")
                 end);
            st_upd (fun f => fm_set_activeReservations
              (alter (delete entry.1) nodePub (fm_activeReservations f)) f))
          (map_to_list nodeReservations);
      st_upd (fun f => fm_set_activeReservations (delete nodePub (fm_activeReservations f)) f)
  end.

(** The body of the inner loop over the reservations. *)
Definition collect (now : Z) (f : fundingManager) (pendingChanID : bytes) (p : nat) (acc : gmap bytes nat) : gmap bytes nat :=
  match fm_ctxs f !! p with
  | Some r =>
      match rc_lastUpdated r with
      | Some t => if ReservationTimeout <? now - t then <[pendingChanID := p]> acc else acc
      | None => acc
      end
  | None => acc
  end.

(** The zombies are collected in a map keyed by the pending channel id alone. *)
Definition zombies (now : Z) (f : fundingManager) : gmap bytes nat :=
  map_fold (fun _ (pending : gmap bytes nat) acc => map_fold (collect now f) acc pending) ∅ (fm_activeReservations f).

Definition pruneZombieReservations : FM () :=
  now ← fm_read Now;
  f ← st_get;
  st_iter (fun (entry : bytes * nat) =>
    ctx ← read_ctx entry.2;
    failFundingFlow (na_IdentityKey (rc_peerAddress ctx)) entry.1
      (FEOther (ErrNew "reservation timed out waiting for peer"))) (map_to_list (zombies now f)).

Definition nextPendingChanID : FM bytes :=
  f ← st_get;
  let nonce := put_le 8 (fm_chanIDNonce f) in
  _ ← st_upd (fun f => fm_set_chanIDNonce (u64 (fm_chanIDNonce f + 1)) f);
  mret (XORKeyStream nonce TempChanIDSeed).

End Funding.
