(* ===== verification/FundingFlow.v ===== *)
(** * The funding workflow

    The handlers the coordinator of the funding manager runs for the messages of a
    negotiation (fundingmanager.go, [handleFundingOpen] to [handleFundingSigned],
    [handleInitFundingMsg], [handleErrorMsg], [handlePendingChannels]).  A handler that
    returns early returns [Ok]; an [Err] is a panic or an operation that never returns. *)

From Stdlib Require Import ZArith Lia.
From Stdlib Require Import Init.Byte.
From stdpp Require Import base gmap countable strings numbers list.
From S2P Require Import Prelude Stream Tx Outputs Bolt BoltMap Effects Sweep OpeningState FundingManager.
Local Open Scope Z_scope.

Section Flow.
Context {BTC : Btcec} {CE : ChainEnv} {FE : FundingEnv}.

(** [x, err := m; if err != nil { h(err); return }; k(x)] *)
Definition catch {A B} (m : FM A) (h : goerr -> FM B) (k : A -> FM B) : FM B :=
  r ← st_try m;
  match r with Ok a => k a | Err e => h e end.

(** [defer d(); m]: what is deferred runs unless [m] never returns. *)
Definition deferred (d m : FM ()) : FM () :=
  r ← st_try m;
  match r with
  | Err (ErrBlocked w) => st_fail (ErrBlocked w)
  | _ => _ ← d; st_res r
  end.

(** [f.newChanBarriers[channelID] = make(chan struct{})] and its like. *)
Definition createBarrier (channelID : bytes) : FM () :=
  sig ← makeSignal;
  st_upd (fun f => fm_set_newChanBarriers (<[channelID := sig]> (fm_newChanBarriers f)) f).

Definition createDiscoverySignal (channelID : bytes) : FM () :=
  sig ← makeSignal;
  st_upd (fun f => fm_set_localDiscoverySignals (<[channelID := sig]> (fm_localDiscoverySignals f)) f).

(** ** As the responder *)

Definition remoteContribution_open (msg : OpenChannelMsg) (amt : Z) : ChannelContribution :=
  mkChannelContribution amt (om_FirstCommitmentPoint msg) (om_DustLimit msg)
    (RequiredRemoteMaxValue amt) (RequiredRemoteChanReserve amt) (om_HtlcMinimum msg)
    (RequiredRemoteMaxHTLCs amt) (RequiredRemoteDelay amt) (om_FundingKey msg) (om_RevocationPoint msg)
    (om_PaymentPoint msg) (om_DelayedPaymentPoint msg) (om_HtlcPoint msg).

Definition fundingAccept (msg : OpenChannelMsg) (amt numConfsReq : Z) (our : ChannelContribution) : AcceptChannelMsg :=
  mkAcceptChannelMsg (om_PendingChannelID msg) (co_DustLimit our) (RequiredRemoteMaxValue amt)
    (RequiredRemoteChanReserve amt) (u32 numConfsReq) (co_MinHTLC our) (RequiredRemoteDelay amt)
    (RequiredRemoteMaxHTLCs amt) (co_MultiSigKey our) (co_RevocationBasePoint our) (co_PaymentBasePoint our)
    (co_DelayBasePoint our) (co_HtlcBasePoint our) (co_FirstCommitmentPoint our).

(** [len(f.activeReservations[peerIDKey])] *)
Definition num_reservations (peerIDKey : bytes) (f : fundingManager) : Z :=
  Z.of_nat (size (default ∅ (fm_activeReservations f !! peerIDKey))).

(** From the creation of the context on. *)
Definition acceptReservation (peer : NetAddress) (msg : OpenChannelMsg) (reservation : Reservation)
    (numConfsReq : Z) : FM () :=
  let peerKey := na_IdentityKey peer in
  let amt := om_FundingAmount msg in
  resCtx ← new_ctx (mkReservationWithCtx reservation peer amt None false (ErrBuffer None));
  _ ← addReservation peerKey (om_PendingChannelID msg) resCtx;
  deferred (updateTimestamp resCtx) (
    catch (fm_call (ProcessSingleContribution reservation (remoteContribution_open msg amt)))
      (fun e => failFundingFlow peerKey (om_PendingChannelID msg) (FEOther e)) (fun _ =>
    ourContribution ← fm_read (OurContribution reservation);
    catch (sendToPeer peerKey (PAccept (fundingAccept msg amt numConfsReq ourContribution)))
      (fun e => failFundingFlow peerKey (om_PendingChannelID msg) (FEOther e)) mret)).

Definition handleFundingOpen (peer : NetAddress) (msg : OpenChannelMsg) : FM () :=
  let peerKey := na_IdentityKey peer in
  let amt := om_FundingAmount msg in
  let fail := failFundingFlow peerKey (om_PendingChannelID msg) in
  f ← st_get;
  if MaxPendingChannels <=? num_reservations (newSerializedKey peerKey) f then fail (FECode ErrMaxPendingChannels)
  else
    isSynced ← st_try (fm_call IsSynced);
    match isSynced with
    | Ok true =>
        if maxFundingAmount <? amt then fail (FECode ErrChanTooLarge)
        else
          catch (fm_call (InitChannelReservation amt 0 (om_PushAmount msg) (om_FeePerKiloWeight msg) 0
                   peerKey (na_Address peer) (om_ChainHash msg) (om_ChannelFlags msg)))
            (fun e => fail (FEOther e)) (fun reservation =>
          let numConfsReq := NumRequiredConfs amt (om_PushAmount msg) in
          _ ← fm_mod (SetNumConfsRequired reservation numConfsReq);
          catch (fm_call (CommitConstraints reservation (u16 (om_CsvDelay msg)) (om_MaxAcceptedHTLCs msg)
                   (om_MaxValueInFlight msg) (om_HtlcMinimum msg) (om_ChannelReserve msg)))
            (fun e => fail (FEOther e)) (fun _ =>
          _ ← fm_mod (RegisterMinHTLC reservation PolicyMinHTLC);
          acceptReservation peer msg reservation numConfsReq))
    | _ => fail (FECode ErrSynchronizingChain)
    end.

(** The closure of the same name in [handleFundingCreated], and what [Start] does when
    the wait for a pending channel times out. *)
Definition deleteFromDatabase (ch : OpenChannel) : FM () :=
  catch (fm_call (CloseChannel ch)) (fun _ => mret tt) (fun _ => fm_event (FClosedChannel ch)).

Definition handleFundingCreated (peer : NetAddress) (msg : FundingCreatedMsg) : FM () :=
  let peerKey := na_IdentityKey peer in
  let pendingChanID := fc_PendingChannelID msg in
  let fundingOut := fc_FundingPoint msg in
  let fail e := failFundingFlow peerKey pendingChanID (FEOther e) in
  catch (getReservationCtx peerKey pendingChanID) (fun _ => mret tt) (fun resCtx =>
  ctx ← read_ctx resCtx;
  catch (fm_call (CompleteReservationSingle (rc_reservation ctx) fundingOut (ToSignatureBytes (fc_CommitSig msg))))
    fail (fun completeChan =>
  let channelID := NewChanIDFromOutPoint fundingOut in
  _ ← createBarrier channelID;
  sig ← fm_read (OurCommitSignature (rc_reservation ctx));
  catch (st_res (NewSigFromRawSignature sig))
    (fun e => _ ← fail e; deleteFromDatabase completeChan) (fun ourCommitSig =>
  catch (sendToPeer peerKey (PSigned (mkFundingSignedMsg channelID ourCommitSig)))
    (fun e => _ ← fail e; deleteFromDatabase completeChan) (fun _ =>
  _ ← st_try (fm_call (WatchNewChannel completeChan (rc_peerAddress ctx)));
  _ ← createDiscoverySignal channelID;
  _ ← lock resCtx;
  fm_spawn (TCreated peerKey pendingChanID completeChan))))).

(** ** As the initiator *)

Definition FeePerKWeight (feePerVSize : Z) : Z := Z.quot (i64 (feePerVSize * 1000)) 4.

Definition fundingOpen (req : openChanReq) (capacity commitFeePerKw channelFlags : Z) (chanID : bytes)
    (our : ChannelContribution) : OpenChannelMsg :=
  mkOpenChannelMsg GenesisHash chanID capacity (oq_pushAmt req) (co_DustLimit our)
    (RequiredRemoteMaxValue capacity) (RequiredRemoteChanReserve capacity) (co_MinHTLC our)
    (u32 commitFeePerKw)
    (if oq_remoteCsvDelay req =? 0 then RequiredRemoteDelay capacity else oq_remoteCsvDelay req)
    (RequiredRemoteMaxHTLCs capacity) (co_MultiSigKey our) (co_RevocationBasePoint our)
    (co_PaymentBasePoint our) (co_DelayBasePoint our) (co_HtlcBasePoint our) (co_FirstCommitmentPoint our)
    channelFlags.

(** [msg.err <- err] is an event. *)
Definition handleInitFundingMsg (peer : NetAddress) (req : openChanReq) : FM () :=
  let peerKey := na_IdentityKey peer in
  let localAmt := oq_localFundingAmt req in
  let capacity := i64 (localAmt + oq_remoteFundingAmt req) in
  let report e := fm_event (FError e) in
  catch (fm_call (EstimateFeePerVSize 3)) report (fun feePerVSize =>
  let commitFeePerKw := FeePerKWeight feePerVSize in
  let channelFlags := if oq_private req then 0 else FFAnnounceChannel in
  catch (fm_call (InitChannelReservation capacity localAmt (oq_pushAmt req) commitFeePerKw
           (oq_fundingFeePerVSize req) peerKey (na_Address peer) (oq_chainHash req) channelFlags))
    report (fun reservation =>
  chanID ← nextPendingChanID;
  resCtx ← new_ctx (mkReservationWithCtx reservation peer capacity None true ErrCaller);
  _ ← addReservation peerKey chanID resCtx;
  deferred (updateTimestamp resCtx) (
    let minHtlc := if oq_minHtlc req =? 0 then PolicyMinHTLC else oq_minHtlc req in
    _ ← fm_mod (RegisterMinHTLC reservation minHtlc);
    ourContribution ← fm_read (OurContribution reservation);
    catch (sendToPeer peerKey (POpen (fundingOpen req capacity commitFeePerKw channelFlags chanID ourContribution)))
      (fun e => _ ← st_try (cancelReservationCtx peerKey chanID);
                report (ErrNew "Unable to send funding request message")) mret))).

Definition remoteContribution_accept (msg : AcceptChannelMsg) (chanAmt : Z) : ChannelContribution :=
  mkChannelContribution 0 (am_FirstCommitmentPoint msg) (am_DustLimit msg)
    (RequiredRemoteMaxValue chanAmt) (RequiredRemoteChanReserve chanAmt) (am_HtlcMinimum msg)
    (RequiredRemoteMaxHTLCs chanAmt) (RequiredRemoteDelay chanAmt) (am_FundingKey msg) (am_RevocationPoint msg)
    (am_PaymentPoint msg) (am_DelayedPaymentPoint msg) (am_HtlcPoint msg).

Definition handleFundingAccept (peer : NetAddress) (msg : AcceptChannelMsg) : FM () :=
  let peerKey := na_IdentityKey peer in
  let pendingChanID := am_PendingChannelID msg in
  let fail e := failFundingFlow peerKey pendingChanID (FEOther e) in
  catch (getReservationCtx peerKey pendingChanID) (fun _ => mret tt) (fun resCtx =>
  deferred (updateTimestamp resCtx) (
    ctx ← read_ctx resCtx;
    let reservation := rc_reservation ctx in
    _ ← fm_mod (SetNumConfsRequired reservation (u16 (am_MinAcceptDepth msg)));
    catch (fm_call (CommitConstraints reservation (u16 (am_CsvDelay msg)) (am_MaxAcceptedHTLCs msg)
             (am_MaxValueInFlight msg) (am_HtlcMinimum msg) (am_ChannelReserve msg))) fail (fun _ =>
    catch (fm_call (ProcessContribution reservation (remoteContribution_accept msg (rc_chanAmt ctx))))
      (fun e => _ ← fail e; send_err resCtx e) (fun _ =>
    outPoint ← fm_read (FundingOutpoint reservation);
    sig ← fm_read (OurCommitSignature reservation);
    let channelID := NewChanIDFromOutPoint outPoint in
    _ ← createBarrier channelID;
    _ ← st_upd (fun f => fm_set_signedReservations (<[channelID := pendingChanID]> (fm_signedReservations f)) f);
    catch (st_res (NewSigFromRawSignature sig)) (fun e => _ ← fail e; send_err resCtx e) (fun commitSig =>
    catch (sendToPeer peerKey (PCreated (mkFundingCreatedMsg pendingChanID outPoint commitSig)))
      (fun e => _ ← fail e; send_err resCtx e) mret))))).

Definition zero_id : bytes := replicate 32 x00.

Definition handleFundingSigned (peer : NetAddress) (msg : FundingSignedMsg) : FM () :=
  let peerKey := na_IdentityKey peer in
  f ← st_get;
  let signed := fm_signedReservations f !! fs_ChanID msg in
  _ ← st_upd (fun f => fm_set_signedReservations (delete (fs_ChanID msg) (fm_signedReservations f)) f);
  match signed with
  | None => failFundingFlow peerKey zero_id (FEOther (ErrNew "Unable to find signed reservation"))
  | Some pendingChanID =>
      let fail e := failFundingFlow peerKey pendingChanID (FEOther e) in
      catch (getReservationCtx peerKey pendingChanID) fail (fun resCtx =>
      ctx ← read_ctx resCtx;
      fundingPoint ← fm_read (FundingOutpoint (rc_reservation ctx));
      _ ← createDiscoverySignal (NewChanIDFromOutPoint fundingPoint);
      catch (fm_call (CompleteReservation (rc_reservation ctx) (ToSignatureBytes (fs_CommitSig msg))))
        (fun e => _ ← send_err resCtx e; fail e) (fun completeChan =>
      _ ← st_try (fm_call (WatchNewChannel completeChan (rc_peerAddress ctx)));
      _ ← send_update resCtx true fundingPoint;
      _ ← lock resCtx;
      fm_spawn (TSigned peerKey pendingChanID resCtx fundingPoint completeChan)))
  end.

(** ** Errors and queries *)

Definition handleErrorMsg (peer : NetAddress) (err : ErrorMsg) : FM () :=
  let peerKey := na_IdentityKey peer in
  catch (getReservationCtx peerKey (em_ChanID err)) (fun _ => mret tt) (fun resCtx =>
  match em_Data err with
  | [] => st_fail (ErrPanic "index out of range")
  | lnErr :: rest =>
      _ ← (match rest with
           | _ :: _ => send_err resCtx (GrpcErrorf lnErr (em_Data err))
           | [] => send_err resCtx (GrpcErrorf lnErr (ErrorCode_String lnErr))
           end);
      _ ← st_try (cancelReservationCtx peerKey (em_ChanID err));
      mret tt
  end).

Record pendingChannel := mkPendingChannel {
  pc_identityPub : PublicKey;
  pc_channelPoint : OutPoint;
  pc_capacity : Z;
  pc_localBalance : Z;
  pc_remoteBalance : Z
}.

(** [MilliSatoshi.ToSatoshis], an unsigned division. *)
Definition ToSatoshis (m : Z) : Z := m / 1000.

Definition handlePendingChannels : FM (list pendingChannel) :=
  dbPendingChannels ← fm_call FetchPendingChannels;
  mret (map (fun c => mkPendingChannel (oc_IdentityPub c) (oc_FundingOutpoint c) (oc_Capacity c)
                        (ToSatoshis (oc_LocalBalance c)) (ToSatoshis (oc_RemoteBalance c))) dbPendingChannels).

End Flow.
