(* ===== verification/ChannelOpening.v ===== *)
(** * From the funding transaction to the announced channel

    The wait for the confirmation of a funding transaction and the persistent state
    machine that follows it: FundingLocked to the peer, the channel into the router's
    graph, the proofs to the network (fundingmanager.go, [waitForFundingWithTimeout] to
    [announceChannel]), [handleFundingLocked], the goroutines that call them, and
    [Start], which resumes channels after a restart.

    The events a goroutine receives while it waits are arguments, in the order it
    receives them; between two of them it runs without interruption.  Events that do not
    end the wait leave a goroutine that does nothing more. *)

From Stdlib Require Import ZArith Lia.
From Stdlib Require Import Init.Byte.
From stdpp Require Import base gmap countable strings numbers list.
From S2P Require Import Prelude Stream Tx Outputs Bolt BoltMap Effects Sweep OpeningState FundingManager FundingFlow.
Local Open Scope Z_scope.

Section Opening.
Context {BTC : Btcec} {CE : ChainEnv} {FE : FundingEnv}.

(** ** Announcements *)

(** Whether our identity key sorts first. *)
Definition first_node (localPubKey remotePubKey : PublicKey) : bool :=
  match bytes_compare (SerializeCompressed localPubKey) (SerializeCompressed remotePubKey) with
  | Lt => true
  | _ => false
  end.

Definition channel_announcement (localPubKey remotePubKey localFundingKey remoteFundingKey : PublicKey)
    (shortChanID : ShortChannelID) : ChannelAnnouncement :=
  if first_node localPubKey remotePubKey then
    mkChannelAnnouncement shortChanID GenesisHash (SerializeCompressed localPubKey) (SerializeCompressed remotePubKey)
      (SerializeCompressed localFundingKey) (SerializeCompressed remoteFundingKey)
  else
    mkChannelAnnouncement shortChanID GenesisHash (SerializeCompressed remotePubKey) (SerializeCompressed localPubKey)
      (SerializeCompressed remoteFundingKey) (SerializeCompressed localFundingKey).

Definition newChanAnnouncement (localPubKey remotePubKey localFundingKey remoteFundingKey : PublicKey)
    (shortChanID : ShortChannelID) (chanID : bytes) (remoteMinHTLC : Z) : FM chanAnnouncement :=
  let chanAnn := channel_announcement localPubKey remotePubKey localFundingKey remoteFundingKey shortChanID in
  let chanFlags := if first_node localPubKey remotePubKey then 0 else 1 in
  now ← fm_read Now;
  let update sig := mkChannelUpdate sig shortChanID GenesisHash (u32 now) chanFlags (u16 PolicyTimeLockDelta)
                      remoteMinHTLC (u32 PolicyBaseFee) (u32 PolicyFeeRate) in
  chanUpdateMsg ← st_res (ChannelUpdate_DataToSign (update []));
  sig ← fm_call (SignMessage IDKey chanUpdateMsg);
  updateSig ← st_res (NewSigFromSignature sig);
  chanAnnMsg ← st_res (ChannelAnnouncement_DataToSign chanAnn);
  nodeSig ← fm_call (SignMessage IDKey chanAnnMsg);
  bitcoinSig ← fm_call (SignMessage localFundingKey chanAnnMsg);
  nodeSignature ← st_res (NewSigFromSignature nodeSig);
  bitcoinSignature ← st_res (NewSigFromSignature bitcoinSig);
  mret (mkChanAnnouncement chanAnn (update updateSig)
          (mkAnnounceSignatures chanID shortChanID nodeSignature bitcoinSignature)).

(** A rejection by the router ([ErrOutdated], [ErrIgnored]) is not an error. *)
Definition announce (a : Announcement) : FM () :=
  catch (sendAnnouncement a) (fun e => if IsRouterRejection e then fm_event (FRejected a) else st_fail e) mret.

Definition announceChannel (localIDKey remoteIDKey localFundingKey remoteFundingKey : PublicKey)
    (shortChanID : ShortChannelID) (chanID : bytes) (remoteMinHTLC : Z) : FM () :=
  ann ← newChanAnnouncement localIDKey remoteIDKey localFundingKey remoteFundingKey shortChanID chanID remoteMinHTLC;
  _ ← announce (AProof (chanProof ann));
  nodeAnn ← fm_call CurrentNodeAnnouncement;
  announce (ANode nodeAnn).

(** ** The state machine *)

(** [for { err = SendToPeer(..); if err == nil { break }; <wait for the peer> }].  The
    loop has no bound in the code; out of [fuel] it has not returned. *)
Fixpoint send_until (fuel : nat) (peer : PublicKey) (m : PeerMessage) : FM () :=
  match fuel with
  | O => st_fail (ErrBlocked "still waiting for the peer")
  | S fuel =>
      catch (sendToPeer peer m) (fun _ =>
        connected ← fm_do (NotifyWhenOnline peer);
        if connected : bool then send_until fuel peer m
        else st_fail (ErrNew "shutting down unable to send")) mret
  end.

Definition sendFundingLocked (fuel : nat) (ch : OpenChannel) (channel : LightningChannel)
    (shortChanID : ShortChannelID) : FM () :=
  nextRevocation ← fm_call (NextRevocationKey channel);
  _ ← send_until fuel (oc_IdentityPub ch)
        (PLocked (mkFundingLockedMsg (NewChanIDFromOutPoint (oc_FundingOutpoint ch)) nextRevocation));
  fm_store (saveChannelOpeningState (oc_FundingOutpoint ch) fundingLockedSent shortChanID).

Definition addToRouterGraph (ch : OpenChannel) (shortChanID : ShortChannelID) : FM () :=
  ann ← newChanAnnouncement IDKey (oc_IdentityPub ch) (oc_LocalMultiSigKey ch) (oc_RemoteMultiSigKey ch)
          shortChanID (NewChanIDFromOutPoint (oc_FundingOutpoint ch)) (oc_RemoteMinHTLC ch);
  _ ← announce (AChannel (chanAnn ann));
  _ ← announce (AUpdate (chanUpdateAnn ann));
  fm_store (saveChannelOpeningState (oc_FundingOutpoint ch) addedToRouterGraph shortChanID).

Definition is_public (ch : OpenChannel) : bool := negb (Z.land (oc_ChannelFlags ch) FFAnnounceChannel =? 0).

Definition annAfterSixConfs (ch : OpenChannel) (shortChanID : ShortChannelID) : FM () :=
  _ ← (if is_public ch then
         let numConfs := if u32 (oc_NumConfsRequired ch) <? 6 then 6 else u32 (oc_NumConfsRequired ch) in
         let txid := op_Hash (oc_FundingOutpoint ch) in
         _ ← fm_call (RegisterConfirmationsNtfn txid numConfs (oc_FundingBroadcastHeight ch));
         ev ← fm_call (AwaitConfirmed txid numConfs);
         match ev with
         | CConfirmed _ _ =>
             announceChannel IDKey (oc_IdentityPub ch) (oc_LocalMultiSigKey ch) (oc_RemoteMultiSigKey ch)
               shortChanID (NewChanIDFromOutPoint (oc_FundingOutpoint ch)) (oc_RemoteMinHTLC ch)
         | CClosed => st_fail (ErrNew "ChainNotifier shutting down")
         | _ => st_fail (ErrNew "fundingManager shutting down")
         end
       else mret tt);
  fm_store (deleteChannelOpeningState (oc_FundingOutpoint ch)).

Definition handleFundingConfirmation (fuel : nat) (ch : OpenChannel) (shortChanID : ShortChannelID) : FM () :=
  lnChannel ← fm_call (NewLightningChannel ch);
  _ ← sendFundingLocked fuel ch lnChannel shortChanID;
  _ ← addToRouterGraph ch shortChanID;
  annAfterSixConfs ch shortChanID.

(** ** Waiting for the confirmation *)

(** The database after a confirmation; [None] is a return without a short channel id. *)
Definition markConfirmed (ch : OpenChannel) (blockHeight txIndex : Z) : FM (option ShortChannelID) :=
  let fundingPoint := oc_FundingOutpoint ch in
  let shortChanID := mkShortChannelID blockHeight txIndex (u16 (op_Index fundingPoint)) in
  catch (fm_call (MarkAsOpen ch shortChanID)) (fun _ => mret None) (fun _ =>
  catch (fm_store (saveChannelOpeningState fundingPoint markedOpen shortChanID)) (fun _ => mret None) (fun _ =>
  _ ← st_try (fm_call (ReportShortChanID fundingPoint shortChanID));
  mret (Some shortChanID))).

(** [confChan <- &shortChanID] and what follows it. *)
Definition confirmed (ch : OpenChannel) (blockHeight txIndex : Z) : FM (option ShortChannelID) :=
  r ← markConfirmed ch blockHeight txIndex;
  match r with
  | None => mret None
  | Some shortChanID =>
      quitting ← fm_read Quitting;
      if quitting : bool then mret None
      else
        f ← st_get;
        _ ← (match fm_localDiscoverySignals f !! NewChanIDFromOutPoint (oc_FundingOutpoint ch) with
             | Some discoverySignal => closeSignal discoverySignal
             | None => mret tt
             end);
        mret (Some shortChanID)
  end.

Definition registerConf (ch : OpenChannel) : FM () :=
  fm_call (RegisterConfirmationsNtfn (op_Hash (oc_FundingOutpoint ch)) (u32 (oc_NumConfsRequired ch))
             (oc_FundingBroadcastHeight ch)).

Definition waitForFundingConfirmation (ch : OpenChannel) (ev : conf_event) : FM (option ShortChannelID) :=
  catch (registerConf ch) (fun _ => mret None) (fun _ =>
  match ev with
  | CConfirmed blockHeight txIndex => confirmed ch blockHeight txIndex
  | _ => mret None
  end).

(** What [waitForFundingWithTimeout] receives, and how it leaves its caller. *)
Inductive wait_event := WEpoch (height : Z) | WEpochsClosed | WQuit | WConf (ev : conf_event).
Inductive wait_result := WTimeout | WFailed | WStopped | WWaiting | WConfirmed (scid : ShortChannelID).

Definition maxHeight (ch : OpenChannel) : Z := u32 (oc_FundingBroadcastHeight ch + maxWaitNumBlocksFundingConf).

(** When the wait is left without cancelling the inner goroutine, a confirmation is
    still recorded, but nobody receives it. *)
Fixpoint abandoned (ch : OpenChannel) (evs : list wait_event) : FM () :=
  match evs with
  | WConf (CConfirmed blockHeight txIndex) :: _ => _ ← markConfirmed ch blockHeight txIndex; mret tt
  | WConf _ :: _ | WQuit :: _ | [] => mret tt
  | _ :: evs => abandoned ch evs
  end.

(** A confirmation is one event: that it is recorded by the inner goroutine and that the wait
    receives it.  Not represented is the race in which the deadline passes between the two,
    so that a channel just marked as open is forgotten. *)
Fixpoint wait_loop (ch : OpenChannel) (evs : list wait_event) : FM wait_result :=
  match evs with
  | [] => mret WWaiting
  | WEpoch height :: evs =>
      if (maxHeight ch <=? u32 height) && negb (oc_IsInitiator ch) then mret WTimeout else wait_loop ch evs
  | WEpochsClosed :: evs => _ ← abandoned ch evs; mret WStopped
  | WQuit :: _ => mret WStopped
  | WConf (CConfirmed blockHeight txIndex) :: _ =>
      r ← confirmed ch blockHeight txIndex;
      mret (match r with Some scid => WConfirmed scid | None => WFailed end)
  | WConf _ :: _ => mret WFailed
  end.

Definition waitForFundingWithTimeout (ch : OpenChannel) (evs : list wait_event) : FM wait_result :=
  catch (fm_call RegisterBlockEpochNtfn) (fun _ => mret WFailed) (fun _ =>
  catch (registerConf ch) (fun _ => mret WFailed) (fun _ => wait_loop ch evs)).

(** ** The goroutines *)

(** An error of the last steps is logged. *)
Definition logged (m : FM ()) : FM () :=
  r ← st_try m;
  match r with
  | Err (ErrPanic w) => st_fail (ErrPanic w)
  | Err (ErrBlocked w) => st_fail (ErrBlocked w)
  | _ => mret tt
  end.

(** The goroutine of [handleFundingCreated]. *)
Definition awaitCreated (fuel : nat) (peerKey : PublicKey) (pendingChanID : bytes) (ch : OpenChannel)
    (evs : list wait_event) : FM () :=
  r ← waitForFundingWithTimeout ch evs;
  match r with
  | WTimeout => deleteFromDatabase ch
  | WConfirmed shortChanID =>
      _ ← deleteReservationCtx peerKey pendingChanID;
      logged (handleFundingConfirmation fuel ch shortChanID)
  | _ => mret tt
  end.

(** The goroutine of [Start] for a pending channel. *)
Definition awaitPending (fuel : nat) (ch : OpenChannel) (evs : list wait_event) : FM () :=
  r ← waitForFundingWithTimeout ch evs;
  match r with
  | WTimeout => deleteFromDatabase ch
  | WConfirmed shortChanID => logged (handleFundingConfirmation fuel ch shortChanID)
  | _ => mret tt
  end.

(** The goroutine of [handleFundingSigned]. *)
Definition awaitSigned (fuel : nat) (peerKey : PublicKey) (pendingChanID : bytes) (resCtx : nat)
    (fundingPoint : OutPoint) (ch : OpenChannel) (ev : conf_event) : FM () :=
  r ← waitForFundingConfirmation ch ev;
  match r with
  | None => mret tt
  | Some shortChanID =>
      logged (
        lnChannel ← fm_call (NewLightningChannel ch);
        _ ← sendFundingLocked fuel ch lnChannel shortChanID;
        _ ← addToRouterGraph ch shortChanID;
        _ ← send_update resCtx false fundingPoint;
        _ ← deleteReservationCtx peerKey pendingChanID;
        annAfterSixConfs ch shortChanID)
  end.

(** [handleFundingLocked] up to its wait: the message is dropped while another one for
    the channel is being handled. *)
Definition handleFundingLocked (peer : NetAddress) (msg : FundingLockedMsg) : FM () :=
  f ← st_get;
  if decide (fl_ChanID msg ∈ fm_handleFundingLockedBarriers f) then mret tt
  else
    _ ← st_upd (fun f => fm_set_handleFundingLockedBarriers
                  ({[ fl_ChanID msg ]} ∪ fm_handleFundingLockedBarriers f) f);
    fm_spawn (TLocked peer msg).

(** The wait is over when the discovery signal, if there is one, is closed. *)
Definition discovered (chanID : bytes) (f : fundingManager) : bool :=
  match fm_localDiscoverySignals f !! chanID with
  | Some sig => bool_decide (sig ∈ fm_closedSignals f)
  | None => true
  end.

(** The deferred closing of the channel barrier. *)
Definition closeBarrier (chanID : bytes) : FM () :=
  f ← st_get;
  match fm_newChanBarriers f !! chanID with
  | Some chanBarrier =>
      _ ← closeSignal chanBarrier;
      st_upd (fun f => fm_set_newChanBarriers (delete chanID (fm_newChanBarriers f)) f)
  | None => mret tt
  end.

(** [handleFundingLocked] after its wait. *)
Definition completeFundingLocked (peer : NetAddress) (msg : FundingLockedMsg) : FM () :=
  let chanID := fl_ChanID msg in
  deferred (st_upd (fun f => fm_set_handleFundingLockedBarriers (fm_handleFundingLockedBarriers f ∖ {[ chanID ]}) f)) (
    quitting ← fm_read Quitting;
    if quitting : bool then mret tt
    else
      _ ← st_upd (fun f => fm_set_localDiscoverySignals (delete chanID (fm_localDiscoverySignals f)) f);
      catch (fm_call (FindChannel chanID)) (fun _ => mret tt) (fun channel =>
      next ← fm_read (RemoteNextRevocation channel);
      match next with
      | Some _ => mret tt
      | None =>
          watched ← fm_do (SendArbiter (ChanPoint channel));
          if negb watched then mret tt
          else
            _ ← fm_event (FArbiter (ChanPoint channel));
            catch (fm_call (InitNextRevocation channel (fl_NextPerCommitmentPoint msg))) (fun _ => mret tt) (fun _ =>
            deferred (closeBarrier chanID) (
              catch (fm_call (FindPeer (na_IdentityKey peer))) (fun _ => mret tt) (fun _ =>
              _ ← fm_do (SendNewChannel channel);
              mret tt)))
      end)).

(** Whether [waitUntilChannelOpen] lets a link proceed. *)
Definition waitUntilChannelOpen (targetChan : bytes) (f : fundingManager) : bool :=
  match fm_newChanBarriers f !! targetChan with
  | Some barrier => bool_decide (barrier ∈ fm_closedSignals f) || Quitting (fm_env f)
  | None => true
  end.

(** ** Starting *)

(** A pending channel: its barriers, the funding transaction again if it is ours, and
    the wait. *)
Definition startPending (ch : OpenChannel) : FM () :=
  let chanID := NewChanIDFromOutPoint (oc_FundingOutpoint ch) in
  _ ← createBarrier chanID;
  _ ← createDiscoverySignal chanID;
  _ ← (if (oc_ChanType ch =? SingleFunder) && oc_IsInitiator ch
       then _ ← st_try (fm_call (PublishTransaction (oc_FundingTxn ch))); mret tt
       else mret tt);
  fm_spawn (TPending ch).

(** One iteration over the open channels.  The goroutine started for
    [addedToRouterGraph] does not use its argument but the variable of the loop. *)
Definition resumeOpening (channel : OpenChannel) : FM () :=
  _ ← st_upd (fm_set_loopChannel (Some channel));
  let chanID := NewChanIDFromOutPoint (oc_FundingOutpoint channel) in
  r ← st_try (fm_query (getChannelOpeningState (oc_FundingOutpoint channel)));
  match r with
  | Err ErrChannelNotFound => mret tt
  | Err e => st_fail e
  | Ok (channelState, shortChanID) =>
      _ ← (if oc_IsPending channel then createBarrier chanID else mret tt);
      if channelState =? markedOpen then fm_spawn (TMarkedOpen channel shortChanID)
      else if channelState =? fundingLockedSent then fm_spawn (TLockedSent channel shortChanID)
      else if channelState =? addedToRouterGraph then fm_spawn (TAddedToGraph shortChanID)
      else mret tt
  end.

Definition Start : FM () :=
  pendingChannels ← fm_call FetchPendingChannels;
  _ ← st_iter startPending pendingChannels;
  openChannels ← fm_call FetchAllChannels;
  st_iter resumeOpening openChannels.

Definition newFundingManager (db : bucket) (env : Env) : fundingManager :=
  mkFundingManager db env [] 0 ∅ ∅ ∅ ∅ ∅ 0 ∅ None [] [].

Definition resumeLockedSent (ch : OpenChannel) (shortChanID : ShortChannelID) : FM () :=
  logged (_ ← addToRouterGraph ch shortChanID; annAfterSixConfs ch shortChanID).

Definition resumeAddedToGraph (shortChanID : ShortChannelID) : FM () :=
  f ← st_get;
  match fm_loopChannel f with
  | Some channel => logged (annAfterSixConfs channel shortChanID)
  | None => st_fail (ErrPanic "nil pointer dereference")
  end.

(** A goroutine runs, having received the given events. *)
Definition run_task (fuel : nat) (t : ftask) (evs : list wait_event) : FM () :=
  match t with
  | TCreated peerKey pendingChanID ch => awaitCreated fuel peerKey pendingChanID ch evs
  | TSigned peerKey pendingChanID resCtx fundingPoint ch =>
      match evs with
      | WConf ev :: _ => awaitSigned fuel peerKey pendingChanID resCtx fundingPoint ch ev
      | _ => mret tt
      end
  | TPending ch => awaitPending fuel ch evs
  | TMarkedOpen ch scid => logged (handleFundingConfirmation fuel ch scid)
  | TLockedSent ch scid => resumeLockedSent ch scid
  | TAddedToGraph scid => resumeAddedToGraph scid
  | TLocked peer msg => completeFundingLocked peer msg
  end.

Definition task_enabled (t : ftask) (f : fundingManager) : bool :=
  match t with
  | TLocked _ msg => Quitting (fm_env f) || discovered (fl_ChanID msg) f
  | _ => true
  end.

(** ** The coordinator *)

Inductive coord_msg :=
| MOpen (m : OpenChannelMsg) | MAccept (m : AcceptChannelMsg) | MCreated (m : FundingCreatedMsg)
| MSigned (m : FundingSignedMsg) | MLocked (m : FundingLockedMsg) | MError (m : ErrorMsg).

Inductive coord_input :=
| InMsg (peer : NetAddress) (m : coord_msg)
| InRequest (peer : NetAddress) (req : openChanReq)
| InZombieTick
| InPending.

(** One round of [reservationCoordinator]. *)
Definition reservationCoordinator (i : coord_input) : FM () :=
  match i with
  | InMsg peer (MOpen m) => handleFundingOpen peer m
  | InMsg peer (MAccept m) => handleFundingAccept peer m
  | InMsg peer (MCreated m) => handleFundingCreated peer m
  | InMsg peer (MSigned m) => handleFundingSigned peer m
  | InMsg peer (MLocked m) => handleFundingLocked peer m
  | InMsg peer (MError m) => handleErrorMsg peer m
  | InRequest peer req => handleInitFundingMsg peer req
  | InZombieTick => pruneZombieReservations
  | InPending => _ ← st_try handlePendingChannels; mret tt
  end.

Definition remove_task (i : nat) (f : fundingManager) : fundingManager :=
  fm_set_tasks (delete i (fm_tasks f)) f.

(** A step: a round of the coordinator, a goroutine, a peer that disconnects, or
    anything that happens outside. *)
Inductive fstep : fundingManager -> res () -> fundingManager -> Prop :=
| fs_coord i f r f' : reservationCoordinator i f = (r, f') -> fstep f r f'
| fs_task fuel n t evs f r f' :
    fm_tasks f !! n = Some t -> task_enabled t f = true ->
    run_task fuel t evs (remove_task n f) = (r, f') -> fstep f r f'
| fs_disconnect nodePub f r f' : CancelPeerReservations nodePub f = (r, f') -> fstep f r f'
| fs_env e f : fstep f (Ok tt) (fm_set_env e f).

(** What a daemon does from its start on: the run stops when a step panics or blocks
    for ever. *)
Inductive freachable (db : bucket) (env : Env) : fundingManager -> Prop :=
| fr_start f : Start (newFundingManager db env) = (Ok tt, f) -> freachable db env f
| fr_step f f' : freachable db env f -> fstep f (Ok tt) f' -> freachable db env f'.

End Opening.
