(* ===== verification/OpeningProps.v ===== *)
(** * The opening of a channel, verified

    The record of a channel's opening never runs ahead of what was done, a run resumes
    where an earlier one stopped, and with a cooperating environment the channel is
    announced and the record is gone. *)

From Stdlib Require Import ZArith Lia.
From Stdlib Require Import Init.Byte.
From stdpp Require Import base gmap countable strings numbers list.
From S2P Require Import Prelude Stream Tx Outputs Bolt BoltMap Effects Sweep OpeningState FundingManager.
From S2P Require Import FundingFlow ChannelOpening.
Local Open Scope Z_scope.

Section OpeningProps.
Context {BTC : Btcec} {CE : ChainEnv} {FE : FundingEnv}.

(** ** Rules for the calls of the funding manager *)

Lemma swp_fm_call {A} (m : ST Env A) Q (f : fundingManager) :
  (forall r e, m (fm_env f) = (r, e) -> Q r (fm_set_env e f)) -> swp (fm_call m) Q f.
Proof. intros H. apply swp_zoom, swp_intro. auto. Qed.

Lemma swp_fm_do {A} (g : Env -> A * Env) Q (f : fundingManager) :
  (forall a e, g (fm_env f) = (a, e) -> Q (Ok a) (fm_set_env e f)) -> swp (fm_do g) Q f.
Proof. intros H. apply swp_fm_call. intros r e E. destruct (g (fm_env f)) eqn:G. injection E as <- <-. auto. Qed.

Lemma swp_catch {A B} (m : FM A) h (k : A -> FM B) Q f :
  swp m (fun r f' => match r with Ok a => swp (k a) Q f' | Err e => swp (h e) Q f' end) f ->
  swp (catch m h k) Q f.
Proof.
  intros H. apply swp_bind, swp_try. eapply swp_mono; [exact H|]. by intros [a|e] f'.
Qed.

(** ** What a run leaves in the log *)

Inductive kind := KLocked | KChannel | KUpdate | KProof | KNode.

Definition ann_kind (ch : OpenChannel) (scid : ShortChannelID) (a : Announcement) : option kind :=
  match a with
  | AChannel a => if decide (ca_ShortChannelID a = scid) then Some KChannel else None
  | AUpdate u => if decide (cu_ShortChannelID u = scid) then Some KUpdate else None
  | AProof p => if decide (as_ShortChannelID p = scid /\ as_ChannelID p = NewChanIDFromOutPoint (oc_FundingOutpoint ch))
                then Some KProof else None
  | ANode _ => Some KNode
  end.

(** Which step of the opening of [ch] an event is; announcements count when the router
    took them and when it rejected them as known. *)
Definition ev_kind (ch : OpenChannel) (scid : ShortChannelID) (ev : fund_event) : option kind :=
  match ev with
  | FSent peer (PLocked m) =>
      if decide (peer = oc_IdentityPub ch /\ fl_ChanID m = NewChanIDFromOutPoint (oc_FundingOutpoint ch))
      then Some KLocked else None
  | FAnnounced a | FRejected a => ann_kind ch scid a
  | _ => None
  end.

(** What remains to be done in a state of the record, up to the next state. *)
Definition stage (ch : OpenChannel) (state : Z) : list kind :=
  if state =? markedOpen then [KLocked]
  else if state =? fundingLockedSent then [KChannel; KUpdate]
  else if is_public ch then [KProof; KNode] else [].

(** All that is to be done from a state on. *)
Definition remaining (ch : OpenChannel) (state : Z) : list kind :=
  if state =? markedOpen then stage ch markedOpen ++ stage ch fundingLockedSent ++ stage ch addedToRouterGraph
  else if state =? fundingLockedSent then stage ch fundingLockedSent ++ stage ch addedToRouterGraph
  else stage ch addedToRouterGraph.

(** What the goroutine started for a recorded state runs. *)
Definition finishOpening (fuel : nat) (ch : OpenChannel) (state : Z) (scid : ShortChannelID) : FM () :=
  if state =? markedOpen then handleFundingConfirmation fuel ch scid
  else if state =? fundingLockedSent then (_ ← addToRouterGraph ch scid; annAfterSixConfs ch scid)
  else annAfterSixConfs ch scid.

Definition trail (ch : OpenChannel) (scid : ShortChannelID) (ks : list kind) (f f' : fundingManager) : Prop :=
  exists evs, fm_log f' = fm_log f ++ evs /\ map (ev_kind ch scid) evs = map Some ks.

Lemma trail_nil ch scid f : trail ch scid [] f f.
Proof. exists []. by rewrite app_nil_r. Qed.

Lemma trail_app ch scid ks1 ks2 f f1 f2 :
  trail ch scid ks1 f f1 -> trail ch scid ks2 f1 f2 -> trail ch scid (ks1 ++ ks2) f f2.
Proof.
  intros (e1 & H1 & K1) (e2 & H2 & K2). exists (e1 ++ e2). rewrite H2, H1, !map_app, K1, K2. by rewrite app_assoc.
Qed.

Lemma trail_event ch scid k ev f : ev_kind ch scid ev = Some k -> trail ch scid [k] f (fm_set_log (fm_log f ++ [ev]) f).
Proof. intros H. exists [ev]. split; [done|]. simpl. by rewrite H. Qed.

(** Nothing but the environment changes. *)
Definition quiet (f f' : fundingManager) : Prop := fm_db f' = fm_db f /\ fm_log f' = fm_log f.

#[local] Instance quiet_preorder : PreOrder quiet.
Proof. split; [by intros ?|]. intros f g h [H1 H2] [H3 H4]. split; congruence. Qed.

Lemma quiet_trail ch scid ks f f1 f2 : quiet f f1 -> trail ch scid ks f1 f2 -> trail ch scid ks f f2.
Proof. intros [_ H] (evs & E & K). exists evs. by rewrite E, H. Qed.

Lemma quiet_trail_nil ch scid f f' : quiet f f' -> trail ch scid [] f f'.
Proof. intros H. eapply quiet_trail; [done|apply trail_nil]. Qed.

(** ** The steps of the opening *)

Lemma swp_newChanAnnouncement lp rp lf rf scid cid minHTLC (f : fundingManager) :
  swp (newChanAnnouncement lp rp lf rf scid cid minHTLC)
    (fun r f' => quiet f f' /\ match r with
       | Ok ann => ca_ShortChannelID (chanAnn ann) = scid /\ cu_ShortChannelID (chanUpdateAnn ann) = scid
                   /\ as_ShortChannelID (chanProof ann) = scid /\ as_ChannelID (chanProof ann) = cid
                   /\ chanAnn ann = channel_announcement lp rp lf rf scid
                   /\ cu_Flags (chanUpdateAnn ann) = if first_node lp rp then 0 else 1
       | Err _ => True
       end) f.
Proof.
  unfold newChanAnnouncement. apply swp_bind. eapply swp_eq; [done|].
  apply swp_bind. eapply swp_eq; [done|]. destruct (ChannelUpdate_DataToSign _); [|done].
  apply swp_bind, swp_fm_call. intros [s1|e1] e _; [|done].
  apply swp_bind. eapply swp_eq; [done|]. destruct (NewSigFromSignature _); [|done].
  apply swp_bind. eapply swp_eq; [done|]. destruct (ChannelAnnouncement_DataToSign _); [|done].
  apply swp_bind, swp_fm_call. intros [s2|e2] e' _; [|done].
  apply swp_bind, swp_fm_call. intros [s3|e3] e'' _; [|done].
  apply swp_bind. eapply swp_eq; [done|]. destruct (NewSigFromSignature _); [|done].
  apply swp_bind. eapply swp_eq; [done|]. destruct (NewSigFromSignature _); [|done].
  apply swp_ret. split; [done|]. simpl. unfold channel_announcement. by destruct (first_node _ _).
Qed.

(** An announcement is in the log when the call succeeded. *)
Lemma swp_announce ch scid k a (f : fundingManager) :
  ann_kind ch scid a = Some k ->
  swp (announce a) (fun r f' => fm_db f' = fm_db f
    /\ match r with Ok _ => trail ch scid [k] f f' | Err _ => trail ch scid [] f f' end) f.
Proof.
  intros Hk. unfold announce, sendAnnouncement. apply swp_catch, swp_bind, swp_fm_call. intros [[]|e] env _.
  - eapply swp_eq; [done|]. apply swp_ret. split; [done|].
    eapply quiet_trail; [|apply (trail_event ch scid k (FAnnounced a)); exact Hk]. done.
  - destruct (IsRouterRejection e); [|eapply swp_eq; [done|]; split; [done|]; by apply quiet_trail_nil].
    eapply swp_eq; [done|]. split; [done|].
    eapply quiet_trail; [|apply (trail_event ch scid k (FRejected a)); exact Hk]. done.
Qed.

(** ** A stage ends with the record of the next one, or leaves the record as it was *)

Local Abbreviation records := (gmap OutPoint (Z * ShortChannelID)).

Definition recorded (f : fundingManager) (m : records) : Prop := exists st, os_rel (fm_db f) st /\ os_created st = true /\ os_states st = m.

Definition stage_post (ch : OpenChannel) (state : Z) (scid : ShortChannelID) (next : records) (f : fundingManager)
    (r : res ()) (f' : fundingManager) : Prop :=
  match r with
  | Ok _ => trail ch scid (stage ch state) f f' /\ recorded f' next
  | Err _ => fm_db f' = fm_db f /\ exists p, p `prefix_of` stage ch state /\ trail ch scid p f f'
  end.

Lemma swp_save ch scid m state (f : fundingManager) :
  recorded f m -> OutPoint_ok (oc_FundingOutpoint ch) -> opening_ok (state, scid) ->
  swp (fm_store (saveChannelOpeningState (oc_FundingOutpoint ch) state scid))
    (fun r f' => r = Ok tt /\ fm_log f' = fm_log f /\ recorded f' (<[oc_FundingOutpoint ch := (state, scid)]> m)) f.
Proof.
  intros (st & H & Hc & <-) Hcp Hok. destruct (saveChannelOpeningState_refines _ _ _ _ _ H Hcp Hok) as (db' & E & H').
  apply swp_zoom. eapply swp_eq; [exact E|]. split; [done|]. split; [done|]. by eexists.
Qed.

Lemma swp_delete ch m (f : fundingManager) :
  recorded f m -> OutPoint_ok (oc_FundingOutpoint ch) ->
  swp (fm_store (deleteChannelOpeningState (oc_FundingOutpoint ch)))
    (fun r f' => r = Ok tt /\ fm_log f' = fm_log f /\ recorded f' (delete (oc_FundingOutpoint ch) m)) f.
Proof.
  intros (st & H & Hc & <-) Hcp. pose proof (deleteChannelOpeningState_refines _ _ _ H Hcp) as HD. rewrite Hc in HD.
  destruct HD as (db' & E & H'). apply swp_zoom. eapply swp_eq; [exact E|]. split; [done|]. split; [done|]. by eexists.
Qed.

Lemma recorded_db f f' m : fm_db f' = fm_db f -> recorded f m -> recorded f' m.
Proof. intros E (st & H). exists st. by rewrite E. Qed.

(** Closing a stage: what was sent, then the write. *)
Lemma swp_stage_end ch state scid next (m : FM ()) ks f f1 :
  trail ch scid ks f f1 -> ks = stage ch state ->
  swp m (fun r f' => r = Ok tt /\ fm_log f' = fm_log f1 /\ recorded f' next) f1 ->
  swp m (stage_post ch state scid next f) f1.
Proof.
  intros (evs & E & K) -> H. eapply swp_mono; [exact H|]. intros r f' (-> & Hl & Hr). split; [|done].
  exists evs. by rewrite Hl.
Qed.

Section Steps.
Variables (ch : OpenChannel) (scid : ShortChannelID) (m : records).
Hypothesis Hcp : OutPoint_ok (oc_FundingOutpoint ch).
Hypothesis Hscid : ShortChannelID_ok scid.
Local Abbreviation cp := (oc_FundingOutpoint ch).

Lemma swp_send_until fuel next (f : fundingManager) :
  swp (send_until fuel (oc_IdentityPub ch) (PLocked (mkFundingLockedMsg (NewChanIDFromOutPoint cp) next)))
    (fun r f' => fm_db f' = fm_db f
       /\ match r with Ok _ => trail ch scid [KLocked] f f' | Err _ => trail ch scid [] f f' end) f.
Proof.
  revert f. induction fuel as [|fuel IH]; intros f; [eapply swp_eq; [done|]; split; [done|]; apply trail_nil|].
  simpl. unfold sendToPeer. apply swp_catch, swp_bind, swp_fm_call. intros [[]|e] env _.
  - eapply swp_eq; [done|]. apply swp_ret. split; [done|].
    eapply quiet_trail; [|apply trail_event; simpl; by rewrite decide_True]. done.
  - apply swp_bind, swp_fm_do. intros [|] env' _.
    + eapply swp_mono; [apply IH|]. intros r f' [Hd Ht]. split; [done|].
      destruct r; (eapply quiet_trail; [|exact Ht]); done.
    + eapply swp_eq; [done|]. split; [done|]. by apply quiet_trail_nil.
Qed.

Lemma swp_sendFundingLocked fuel lnChannel (f : fundingManager) :
  recorded f m ->
  swp (sendFundingLocked fuel ch lnChannel scid)
    (stage_post ch markedOpen scid (<[cp := (fundingLockedSent, scid)]> m) f) f.
Proof.
  intros Hm. unfold sendFundingLocked. apply swp_bind, swp_fm_call. intros [next|e] env _.
  2:{ split; [done|]. exists []. split; [apply prefix_nil|by apply quiet_trail_nil]. }
  apply swp_bind. eapply swp_mono; [apply swp_send_until|]. intros [u|e] f1 [Hd Ht].
  - eapply swp_stage_end; [eapply quiet_trail; [|exact Ht]; done|done|].
    apply swp_save; [by eapply recorded_db|done|by split].
  - split; [done|]. exists []. split; [apply prefix_nil|]. eapply quiet_trail; [|exact Ht]. done.
Qed.

Lemma swp_addToRouterGraph (f : fundingManager) :
  recorded f m ->
  swp (addToRouterGraph ch scid)
    (stage_post ch fundingLockedSent scid (<[cp := (addedToRouterGraph, scid)]> m) f) f.
Proof.
  intros Hm. unfold addToRouterGraph. apply swp_bind. eapply swp_mono; [apply swp_newChanAnnouncement|].
  intros [ann|e] f1 [Hq Ha].
  2:{ split; [apply Hq|]. exists []. split; [apply prefix_nil|by apply quiet_trail_nil]. }
  destruct Ha as (Ha1 & Ha2 & _). pose proof Hq as [Hd _].
  apply swp_bind. eapply swp_mono; [apply (swp_announce ch scid KChannel); simpl; by rewrite decide_True|].
  intros [[]|e] f2 [Hd2 Ht2].
  2:{ split; [congruence|]. exists []. split; [apply prefix_nil|by eapply quiet_trail]. }
  apply swp_bind. eapply swp_mono; [apply (swp_announce ch scid KUpdate); simpl; by rewrite decide_True|].
  intros [[]|e] f3 [Hd3 Ht3].
  2:{ split; [congruence|]. exists ([KChannel] ++ []). split; [by exists [KUpdate]|].
      eapply quiet_trail; [done|]. by eapply trail_app. }
  eapply swp_stage_end; [eapply quiet_trail; [done|]; by eapply trail_app|done|].
  apply swp_save; [|done|by split]. eapply recorded_db; [|exact Hm]. congruence.
Qed.

Lemma swp_announceChannel (f : fundingManager) :
  swp (announceChannel IDKey (oc_IdentityPub ch) (oc_LocalMultiSigKey ch) (oc_RemoteMultiSigKey ch) scid
         (NewChanIDFromOutPoint cp) (oc_RemoteMinHTLC ch))
    (fun r f' => fm_db f' = fm_db f /\ match r with
       | Ok _ => trail ch scid [KProof; KNode] f f'
       | Err _ => exists p, p `prefix_of` [KProof; KNode] /\ trail ch scid p f f'
       end) f.
Proof.
  unfold announceChannel. apply swp_bind. eapply swp_mono; [apply swp_newChanAnnouncement|].
  intros [ann|e] f1 [Hq Ha].
  2:{ split; [apply Hq|]. exists []. split; [apply prefix_nil|by apply quiet_trail_nil]. }
  destruct Ha as (_ & _ & Ha1 & Ha2 & _). pose proof Hq as [Hd _].
  apply swp_bind. eapply swp_mono; [apply (swp_announce ch scid KProof); simpl; by rewrite decide_True|].
  intros [[]|e] f2 [Hd2 Ht2].
  2:{ split; [congruence|]. exists []. split; [apply prefix_nil|by eapply quiet_trail]. }
  apply swp_bind, swp_fm_call. intros [n|e] env _.
  2:{ split; [cbn; congruence|]. exists ([KProof] ++ []). split; [by exists [KNode]|]. eapply quiet_trail; [done|].
      eapply trail_app; [exact Ht2|by apply quiet_trail_nil]. }
  eapply swp_mono; [by apply (swp_announce ch scid KNode)|]. intros [[]|e] f3 [Hd3 Ht3]; (split; [rewrite Hd3; cbn; congruence|]).
  - eapply quiet_trail; [done|]. eapply (trail_app _ _ [KProof] [KNode]); [exact Ht2|]. eapply quiet_trail; [|exact Ht3]. done.
  - exists ([KProof] ++ []). split; [by exists [KNode]|]. eapply quiet_trail; [done|].
    eapply trail_app; [exact Ht2|]. eapply quiet_trail; [|exact Ht3]. done.
Qed.

Lemma swp_annAfterSixConfs (f : fundingManager) :
  recorded f m ->
  swp (annAfterSixConfs ch scid) (stage_post ch addedToRouterGraph scid (delete cp m) f) f.
Proof.
  intros Hm. unfold annAfterSixConfs. apply swp_bind.
  assert (stage ch addedToRouterGraph = if is_public ch then [KProof; KNode] else []) as Hs by done.
  destruct (is_public ch).
  2:{ apply swp_ret. eapply swp_stage_end; [apply trail_nil|done|]. by apply swp_delete. }
  apply swp_bind, swp_fm_call. intros [[]|e] env _.
  2:{ split; [done|]. exists []. split; [apply prefix_nil|by apply quiet_trail_nil]. }
  apply swp_bind, swp_fm_call. intros [ev|e] env' _.
  2:{ split; [done|]. exists []. split; [apply prefix_nil|by apply quiet_trail_nil]. }
  destruct ev; try (split; [done|]; exists []; split; [apply prefix_nil|by apply quiet_trail_nil]).
  eapply swp_mono; [apply swp_announceChannel|]. intros [[]|e] f1 [Hd Ht].
  - eapply swp_stage_end; [eapply quiet_trail; [|exact Ht]; done|done|].
    apply swp_delete; [by eapply recorded_db|done].
  - destruct Ht as (p & Hp & Ht). split; [done|]. exists p. rewrite Hs. split; [done|]. eapply quiet_trail; [|exact Ht]. done.
Qed.

End Steps.

(** ** Runs *)

Definition is_state (state : Z) : Prop := state = markedOpen \/ state = fundingLockedSent \/ state = addedToRouterGraph.

(** What was done between two states of the record. *)
Definition between (ch : OpenChannel) (state state' : Z) : list kind :=
  (if (state <=? markedOpen) && (markedOpen <? state') then stage ch markedOpen else []) ++
  (if (state <=? fundingLockedSent) && (fundingLockedSent <? state') then stage ch fundingLockedSent else []).

(** The result of a run from the records [m], with [state] for the channel. *)
Definition run_post (ch : OpenChannel) (state : Z) (scid : ShortChannelID) (m : records) (f : fundingManager)
    (r : res ()) (f' : fundingManager) : Prop :=
  match r with
  | Ok _ => trail ch scid (remaining ch state) f f' /\ recorded f' (delete (oc_FundingOutpoint ch) m)
  | Err _ => exists state' p, is_state state' /\ state <= state'
      /\ recorded f' (<[oc_FundingOutpoint ch := (state', scid)]> m)
      /\ p `prefix_of` stage ch state' /\ trail ch scid (between ch state state' ++ p) f f'
  end.

(** An interrupted stage leaves its own state. *)
Lemma stage_interrupted ch state scid m f f' e next :
  is_state state -> recorded f m -> m !! oc_FundingOutpoint ch = Some (state, scid) ->
  stage_post ch state scid next f (Err e) f' -> run_post ch state scid m f (Err e) f'.
Proof.
  intros Hs Hm Hl (Hd & p & Hp & Ht). exists state, p. split; [done|]. split; [done|]. split.
  { rewrite insert_id by done. by eapply recorded_db. }
  split; [done|]. unfold between. destruct Hs as [-> | [-> | ->]]; exact Ht.
Qed.

(** A stage that ended, followed by the rest of the run. *)
Lemma stage_then ch state state' scid m (f f1 : fundingManager) r f' :
  is_state state -> state' = state + 1 -> is_state state' ->
  trail ch scid (stage ch state) f f1 ->
  run_post ch state' scid (<[oc_FundingOutpoint ch := (state', scid)]> m) f1 r f' ->
  run_post ch state scid m f r f'.
Proof.
  intros Hs E Hs' Ht. destruct r as [u|e]; simpl.
  - intros [Ht' Hr]. rewrite delete_insert_eq in Hr. split; [|done].
    pose proof (trail_app _ _ _ _ _ _ _ Ht Ht') as H. unfold remaining in *.
    destruct Hs as [-> | [-> | ->]]; subst state'; [exact H|exact H|]. by destruct Hs' as [? | [? | ?]].
  - intros (s2 & p & Hs2 & Hle & Hr & Hp & Ht'). exists s2, p. rewrite insert_insert_eq in Hr.
    split; [done|]. split; [lia|]. split; [done|]. split; [done|].
    pose proof (trail_app _ _ _ _ _ _ _ Ht Ht') as H. unfold between in *.
    destruct Hs as [-> | [-> | ->]], Hs2 as [-> | [-> | ->]]; subst state'; simpl in *; try done; try lia;
      by destruct Hs' as [? | [? | ?]].
Qed.

Section Run.
Variables (fuel : nat) (ch : OpenChannel) (scid : ShortChannelID).
Hypothesis Hcp : OutPoint_ok (oc_FundingOutpoint ch).
Hypothesis Hscid : ShortChannelID_ok scid.

Lemma swp_from_added m (f : fundingManager) :
  recorded f m -> m !! oc_FundingOutpoint ch = Some (addedToRouterGraph, scid) ->
  swp (annAfterSixConfs ch scid) (run_post ch addedToRouterGraph scid m f) f.
Proof.
  intros Hm Hl. eapply swp_mono; [by apply swp_annAfterSixConfs|]. intros [u|e] f' H; [exact H|].
  eapply stage_interrupted; [by right; right|done|done|exact H].
Qed.

Lemma swp_from_sent m (f : fundingManager) :
  recorded f m -> m !! oc_FundingOutpoint ch = Some (fundingLockedSent, scid) ->
  swp (_ ← addToRouterGraph ch scid; annAfterSixConfs ch scid) (run_post ch fundingLockedSent scid m f) f.
Proof.
  intros Hm Hl. apply swp_bind. eapply swp_mono; [by apply swp_addToRouterGraph|]. intros [u|e] f1 H.
  - destruct H as [Ht Hr]. eapply swp_mono; [apply swp_from_added; [exact Hr|apply lookup_insert_eq]|].
    intros r f'. apply stage_then; [by right; left|done|by right; right|done].
  - eapply stage_interrupted; [by right; left|done|done|exact H].
Qed.

Lemma swp_from_marked m (f : fundingManager) :
  recorded f m -> m !! oc_FundingOutpoint ch = Some (markedOpen, scid) ->
  swp (handleFundingConfirmation fuel ch scid) (run_post ch markedOpen scid m f) f.
Proof.
  intros Hm Hl. unfold handleFundingConfirmation. apply swp_bind, swp_fm_call. intros [ln|e] env _.
  2:{ exists markedOpen, []. split; [by left|]. split; [done|]. rewrite insert_id by done. split; [done|].
      split; [apply prefix_nil|]. by apply quiet_trail_nil. }
  apply swp_bind. eapply swp_mono; [by apply swp_sendFundingLocked|]. intros [u|e] f1 H.
  - destruct H as [Ht Hr]. eapply swp_mono; [apply swp_from_sent; [exact Hr|apply lookup_insert_eq]|].
    intros r f'. apply stage_then; [by left|done|by right; left|]. eapply quiet_trail; [|exact Ht]. done.
  - eapply (stage_interrupted _ _ _ _ _ _ _ m); [by left|done|done|]. destruct H as (Hd & p & Hp & Ht). split; [exact Hd|].
    exists p. split; [done|]. eapply quiet_trail; [|exact Ht]. done.
Qed.

Lemma swp_finishOpening m state (f : fundingManager) :
  recorded f m -> is_state state -> m !! oc_FundingOutpoint ch = Some (state, scid) ->
  swp (finishOpening fuel ch state scid) (run_post ch state scid m f) f.
Proof.
  intros Hm [-> | [-> | ->]] Hl; [by apply swp_from_marked|by apply swp_from_sent|by apply swp_from_added].
Qed.
End Run.

(** C16: a run that finishes the opening of a channel from its recorded state, with
    arbitrary behaviour of the peer, the gossiper, the notifier and the wallet.  If it
    succeeds, exactly the remaining steps were made in their order (FundingLocked to
    the peer, channel announcement and update to the router, and for a public channel
    proof and node announcement after six confirmations), the record of the channel is
    deleted and no other record changes.  If it fails, the record says exactly which
    steps are complete: everything up to the recorded state was done, and beyond it at
    most a beginning of the next step. *)
Theorem opening_progress fuel ch state scid st f r f' :
  os_rel (fm_db f) st -> OutPoint_ok (oc_FundingOutpoint ch) -> ShortChannelID_ok scid -> is_state state ->
  os_states st !! oc_FundingOutpoint ch = Some (state, scid) ->
  finishOpening fuel ch state scid f = (r, f') ->
  run_post ch state scid (os_states st) f r f'.
Proof.
  intros H Hcp Hscid Hs Hl. apply swp_elim. apply swp_finishOpening; [done|done| |done|done].
  exists st. split; [done|]. split; [|done]. destruct (os_created st) eqn:Hc; [done|].
  by rewrite (os_rel_absent _ _ _ H Hc) in Hl.
Qed.

(** ** Restarts *)

(** The daemon starts again with nothing but its database, and the goroutines that [Start]
    launches run, in any order; those of pending channels go on waiting for a confirmation.
    The log goes on. *)
Definition restart (fuel : nat) (order : list ftask -> list ftask) (env : Env) : FM () :=
  _ ← st_upd (fun f => fm_set_log (fm_log f) (newFundingManager (fm_db f) env));
  _ ← st_try Start;
  f ← st_get;
  st_iter (fun t => _ ← st_try (run_task fuel t []); mret tt) (order (fm_tasks f)).

Definition done_kinds (ch : OpenChannel) (scid : ShortChannelID) (evs : list fund_event) : list kind :=
  omap (ev_kind ch scid) evs.

Lemma omap_kinds (g : fund_event -> option kind) evs ks : map g evs = map Some ks -> omap g evs = ks.
Proof.
  revert ks. induction evs as [|ev evs IH]; intros [|k ks]; simpl; try done. intros [= -> H]. f_equal. by apply IH.
Qed.

(** How far the opening has come since [f0], which had the records [m]. *)
Definition sofar (ch : OpenChannel) (scid : ShortChannelID) (m : records) (f0 f : fundingManager) : Prop :=
  exists evs, fm_log f = fm_log f0 ++ evs /\
    ((exists s, is_state s /\ recorded f (<[oc_FundingOutpoint ch := (s, scid)]> m)
        /\ between ch markedOpen s `sublist_of` done_kinds ch scid evs)
     \/ (recorded f (delete (oc_FundingOutpoint ch) m)
         /\ remaining ch markedOpen `sublist_of` done_kinds ch scid evs)).

Lemma between_trans ch s s' :
  is_state s -> is_state s' -> s <= s' -> between ch markedOpen s ++ between ch s s' = between ch markedOpen s'.
Proof. intros [-> | [-> | ->]] [-> | [-> | ->]] H; try done; lia. Qed.

Lemma between_remaining ch s : is_state s -> between ch markedOpen s ++ remaining ch s = remaining ch markedOpen.
Proof. intros [-> | [-> | ->]]; [done..|]. unfold between, remaining. simpl. by rewrite ?app_assoc. Qed.

(** A run goes on from where the record stands. *)
Lemma run_post_sofar ch scid m f0 f s r f' :
  is_state s -> (exists evs, fm_log f = fm_log f0 ++ evs /\ between ch markedOpen s `sublist_of` done_kinds ch scid evs) ->
  run_post ch s scid (<[oc_FundingOutpoint ch := (s, scid)]> m) f r f' ->
  sofar ch scid m f0 f' /\ (r = Ok tt -> recorded f' (delete (oc_FundingOutpoint ch) m)).
Proof.
  intros Hs (evs & E & Hsub) H. destruct r as [[]|e]; simpl in H.
  - destruct H as ((evs' & E' & K) & Hr). rewrite delete_insert_eq in Hr. split; [|done].
    exists (evs ++ evs'). rewrite E', E, app_assoc. split; [done|]. right. split; [done|].
    unfold done_kinds. rewrite omap_app, (omap_kinds _ evs' _ K), <- (between_remaining ch s Hs). by apply sublist_app.
  - destruct H as (s' & p & Hs' & Hle & Hr & Hp & (evs' & E' & K)). rewrite insert_insert_eq in Hr. split; [|done].
    exists (evs ++ evs'). rewrite E', E, app_assoc. split; [done|]. left. exists s'. split; [done|]. split; [done|].
    unfold done_kinds. rewrite omap_app, (omap_kinds _ evs' _ K), <- (between_trans ch s s' Hs Hs' Hle).
    apply sublist_app; [done|]. by apply sublist_inserts_r.
Qed.

(** What the goroutine of a recorded state runs, as a task. *)
Definition task_of (ch : OpenChannel) (state : Z) (scid : ShortChannelID) : ftask :=
  if state =? markedOpen then TMarkedOpen ch scid
  else if state =? fundingLockedSent then TLockedSent ch scid
  else TAddedToGraph scid.

Lemma swp_logged (m : FM ()) Q f : swp m (fun r f' => forall r', (r = Ok tt -> r' = Ok tt) -> Q r' f') f -> swp (logged m) Q f.
Proof.
  intros H. apply swp_bind, swp_try. eapply swp_mono; [exact H|]. intros [[]|e] f' HQ.
  - apply swp_ret. by apply HQ.
  - destruct e; try (apply swp_ret; by apply HQ); eapply swp_eq; [done| |done|]; by apply HQ.
Qed.

Lemma swp_run_task_of fuel ch s scid evs Q (f : fundingManager) :
  is_state s -> fm_loopChannel f = Some ch ->
  swp (finishOpening fuel ch s scid) (fun r f' => forall r', (r = Ok tt -> r' = Ok tt) -> Q r' f') f ->
  swp (run_task fuel (task_of ch s scid) evs) Q f.
Proof.
  intros Hs Hl H. destruct Hs as [-> | [-> | ->]]; simpl.
  - by apply swp_logged.
  - by apply swp_logged.
  - unfold resumeAddedToGraph. apply swp_bind. eapply swp_eq; [done|]. simpl. rewrite Hl. by apply swp_logged.
Qed.

(** The tasks an open channel with the given record gets. *)
Definition resumed (ch : OpenChannel) (record : option (Z * ShortChannelID)) : list ftask :=
  match record with
  | Some (s, scid) => if bool_decide (s = markedOpen \/ s = fundingLockedSent \/ s = addedToRouterGraph)
                      then [task_of ch s scid] else []
  | None => []
  end.

Lemma swp_resumeOpening ch m (f : fundingManager) :
  recorded f m -> OutPoint_ok (oc_FundingOutpoint ch) ->
  swp (resumeOpening ch) (fun r f' => r = Ok tt /\ quiet f f' /\ fm_env f' = fm_env f
    /\ fm_loopChannel f' = Some ch /\ fm_tasks f' = fm_tasks f ++ resumed ch (m !! oc_FundingOutpoint ch)) f.
Proof.
  intros (st & H & Hc & <-) Hcp. unfold resumeOpening. apply swp_bind. eapply swp_eq; [done|].
  apply swp_bind, swp_try. eapply swp_eq; [done|].
  change (fm_db _) with (fm_db f). rewrite (getChannelOpeningState_refines _ _ _ H Hcp).
  destruct (os_states st !! oc_FundingOutpoint ch) as [[s scid]|].
  2:{ apply swp_ret. repeat split; try done. cbn. by rewrite app_nil_r. }
  apply swp_bind. set (f1 := fm_set_loopChannel (Some ch) f).
  eapply (swp_mono _ (fun r f' => r = Ok tt /\ quiet f1 f' /\ fm_env f' = fm_env f1
                                /\ fm_loopChannel f' = Some ch /\ fm_tasks f' = fm_tasks f1)).
  { destruct (oc_IsPending ch); repeat split; done. }
  intros r f2 (-> & [Hd Hlog] & He & Hl & Ht). unfold task_of.
  destruct (decide (s = markedOpen)) as [->|N0]; [|rewrite (proj2 (Z.eqb_neq s markedOpen)) by done].
  { eapply swp_eq; [done|]. simpl. rewrite Ht. repeat split; done. }
  destruct (decide (s = fundingLockedSent)) as [->|N1]; [|rewrite (proj2 (Z.eqb_neq s fundingLockedSent)) by done].
  { eapply swp_eq; [done|]. simpl. rewrite Ht. repeat split; done. }
  destruct (decide (s = addedToRouterGraph)) as [->|N2]; [|rewrite (proj2 (Z.eqb_neq s addedToRouterGraph)) by done].
  { eapply swp_eq; [done|]. simpl. rewrite Ht. repeat split; done. }
  apply swp_ret. simpl. rewrite bool_decide_eq_false_2 by naive_solver. rewrite Ht, app_nil_r. repeat split; done.
Qed.

Lemma resumed_state ch s scid : is_state s -> resumed ch (Some (s, scid)) = [task_of ch s scid].
Proof. intros H. simpl. by rewrite bool_decide_eq_true_2. Qed.

(** ** [Start] with several channels *)

(** Starting does not affect [P]: reading the channels, publishing a funding transaction and
    registering for notifications. *)
Class EnvKept (P : Env -> Prop) := {
  ek_pending e r e' : P e -> FetchPendingChannels e = (r, e') -> P e';
  ek_all e r e' : P e -> FetchAllChannels e = (r, e') -> P e';
  ek_publish tx e r e' : P e -> PublishTransaction tx e = (r, e') -> P e';
  ek_epochs e r e' : P e -> RegisterBlockEpochNtfn e = (r, e') -> P e';
  ek_register txid k h e r e' : P e -> RegisterConfirmationsNtfn txid k h e = (r, e') -> P e'
}.

(** In an environment with [lists] the channel [ch] is the last of the open channels, and
    the opening of all others is over: they have no record. *)
Class Listed (ch : OpenChannel) (m : records) (lists : Env -> Prop) := {
  li_kept :: EnvKept lists;
  li_all e chans e' : lists e -> FetchAllChannels e = (Ok chans, e') ->
    exists others, chans = others ++ [ch]
      /\ Forall (fun o => OutPoint_ok (oc_FundingOutpoint o) /\ m !! oc_FundingOutpoint o = None) others
}.

(** Nothing but the environment and the tasks change, and what is kept of the former. *)
Definition kept (f f' : fundingManager) : Prop :=
  quiet f f' /\ fm_loopChannel f' = fm_loopChannel f /\ forall P, EnvKept P -> P (fm_env f) -> P (fm_env f').

#[local] Instance kept_preorder : PreOrder kept.
Proof.
  split; [by intros f|]. intros f g h (H1 & H2 & H3) (H4 & H5 & H6). split; [by transitivity g|]. split; [congruence|]. intros P HP Hp. by apply H6, H3.
Qed.

Lemma swp_kept_call {A} (m : ST Env A) (f : fundingManager) :
  (forall P, EnvKept P -> forall e r e', P e -> m e = (r, e') -> P e') ->
  swp (fm_call m) (fun _ f' => kept f f' /\ fm_tasks f' = fm_tasks f) f.
Proof. intros H. apply swp_fm_call. intros r e E. split; [|done]. split; [done|]. split; [done|]. intros P HP Hp. by eapply H. Qed.

Lemma swp_startPending c (f : fundingManager) :
  swp (startPending c) (fun r f' => r = Ok tt /\ kept f f' /\ fm_tasks f' = fm_tasks f ++ [TPending c]) f.
Proof.
  unfold startPending. do 2 (apply swp_bind, swp_bind; eapply swp_eq; [done|]; eapply swp_eq; [done|]).
  apply swp_bind. destruct (_ && _); [|apply swp_ret; by eapply swp_eq].
  apply swp_bind, swp_try. eapply swp_mono; [apply swp_kept_call; intros P HP e r e' Hp; by apply ek_publish|].
  intros r f1 [Hk Ht]. apply swp_ret. eapply swp_eq; [done|]. split; [done|]. split; [exact Hk|]. cbn. by rewrite Ht.
Qed.

Lemma swp_startAll pend (f : fundingManager) :
  swp (st_iter startPending pend) (fun r f' => r = Ok tt /\ kept f f' /\ fm_tasks f' = fm_tasks f ++ (TPending <$> pend)) f.
Proof.
  revert f. induction pend as [|c pend IH]; intros f; [apply swp_ret; by rewrite app_nil_r|].
  apply swp_bind. eapply swp_mono; [apply swp_startPending|]. intros r f1 (-> & Hk & Ht).
  eapply swp_mono; [apply IH|]. intros r f2 (-> & Hk2 & Ht2). split; [done|]. split; [by transitivity f1|].
  by rewrite Ht2, Ht, <- app_assoc.
Qed.

(** Channels without a record launch nothing. *)
Lemma swp_resumeAll ch m others (f : fundingManager) :
  recorded f m -> OutPoint_ok (oc_FundingOutpoint ch) ->
  Forall (fun o => OutPoint_ok (oc_FundingOutpoint o) /\ m !! oc_FundingOutpoint o = None) others ->
  swp (st_iter resumeOpening (others ++ [ch])) (fun r f' => r = Ok tt /\ quiet f f' /\ fm_env f' = fm_env f
    /\ fm_loopChannel f' = Some ch /\ fm_tasks f' = fm_tasks f ++ resumed ch (m !! oc_FundingOutpoint ch)) f.
Proof.
  intros Hm Hcp. revert f Hm. induction others as [|o others IH]; intros f Hm Ho; apply swp_bind.
  - eapply swp_mono; [by apply (swp_resumeOpening ch m)|]. by intros r f1 (-> & ?).
  - apply Forall_cons in Ho as [[Ho1 Ho2] Ho]. eapply swp_mono; [by apply (swp_resumeOpening o m)|].
    intros r f1 (-> & Hq & He & _ & Ht). rewrite Ho2, app_nil_r in Ht.
    assert (recorded f1 m) as Hm1 by (eapply recorded_db; [|exact Hm]; apply Hq).
    eapply swp_mono; [by apply IH|]. intros r f2 (-> & Hq2 & He2 & Hl2 & Ht2). split; [done|].
    split; [by transitivity f1|]. split; [congruence|]. split; [done|]. by rewrite Ht2, Ht.
Qed.

(** The wait of a pending channel. *)
Lemma swp_run_pending fuel c (f : fundingManager) : swp (run_task fuel (TPending c) []) (fun _ f' => kept f f') f.
Proof.
  cbn [run_task]. unfold awaitPending, waitForFundingWithTimeout. apply swp_bind, swp_catch.
  eapply swp_mono; [apply swp_kept_call; intros P HP e r e' Hp; by apply ek_epochs|]. intros [[]|e] f1 [Hk _]; [|by apply swp_ret, swp_ret].
  apply swp_catch. eapply swp_mono; [apply swp_kept_call; intros P HP e r e' Hp; by apply ek_register|].
  intros [[]|e] f2 [Hk2 _]; apply swp_ret, swp_ret; by transitivity f1.
Qed.

Definition run_each (fuel : nat) (t : ftask) : FM () := _ ← st_try (run_task fuel t []); mret tt.

Lemma swp_run_pendings fuel ts (f : fundingManager) :
  Forall (fun t => exists c, t = TPending c) ts -> swp (st_iter (run_each fuel) ts) (fun r f' => r = Ok tt /\ kept f f') f.
Proof.
  intros H. revert f. induction H as [|t ts [c ->] _ IH]; intros f; [by apply swp_ret|].
  apply swp_bind, swp_bind, swp_try. eapply swp_mono; [apply swp_run_pending|]. intros r f1 Hk. apply swp_ret.
  eapply swp_mono; [apply IH|]. intros r' f2 [-> Hk2]. split; [done|by transitivity f1].
Qed.

Lemma swp_iter_app {A} (g : A -> FM ()) l1 l2 Q (f : fundingManager) :
  swp (st_iter g l1) (fun r f1 => match r with Ok _ => swp (st_iter g l2) Q f1 | Err e => Q (Err e) f1 end) f ->
  swp (st_iter g (l1 ++ l2)) Q f.
Proof.
  revert f. induction l1 as [|x l1 IH]; intros f H; [exact H|]. cbn [st_iter app]. apply swp_bind. cbn [st_iter] in H.
  unfold swp in H at 1. unfold mbind, st_bind in H. unfold swp at 1. destruct (g x f) as [[u|e] f1]; [by apply IH|done].
Qed.

Section Restart.
Variables (fuel : nat) (ch : OpenChannel) (scid : ShortChannelID) (m : records).
Hypothesis Hcp : OutPoint_ok (oc_FundingOutpoint ch).
Hypothesis Hscid : ShortChannelID_ok scid.
Context {lists : Env -> Prop} {LI : Listed ch m lists}.
Variable order : list ftask -> list ftask.
Hypothesis Horder : forall l, order l ≡ₚ l.

(** [live] are the environments in which a run is known to succeed. *)
Context {live : Env -> Prop} {LK : EnvKept live}.
Hypothesis live_pending : forall e, live e -> exists l e', FetchPendingChannels e = (Ok l, e').
Hypothesis live_all : forall e, live e -> exists l e', FetchAllChannels e = (Ok l, e').
Hypothesis Hlive :
  forall s m' f1, is_state s -> recorded f1 m' -> live (fm_env f1) -> (finishOpening fuel ch s scid f1).1 = Ok tt.

(** [Start] launches the goroutine for the record of [ch], unless it fails before. *)
Lemma swp_Start_open m' (f : fundingManager) :
  recorded f m' -> lists (fm_env f) -> (forall p, p <> oc_FundingOutpoint ch -> m' !! p = m !! p) ->
  is_Some (m !! oc_FundingOutpoint ch) ->
  swp Start (fun r f' => quiet f f' /\ (live (fm_env f) -> live (fm_env f') /\ r = Ok tt)
    /\ exists pend, match r with
        | Ok _ => fm_loopChannel f' = Some ch
                  /\ fm_tasks f' = fm_tasks f ++ (TPending <$> pend) ++ resumed ch (m' !! oc_FundingOutpoint ch)
        | Err _ => fm_tasks f' = fm_tasks f ++ (TPending <$> pend)
        end) f.
Proof.
  intros Hm Hlist Hsame Hrec. unfold Start. apply swp_bind, swp_fm_call. intros [pend|e] e1 E1.
  2:{ split; [done|]. split; [|exists []; by rewrite app_nil_r]. intros Hl. destruct (live_pending _ Hl) as (l & e' & E). by rewrite E in E1. }
  apply swp_bind. eapply swp_mono; [apply swp_startAll|]. intros r f2 (-> & (Hq & _ & HP) & Ht).
  assert (lists (fm_env f2)) as Hl2 by (apply HP; [apply _|]; eapply ek_pending; [exact Hlist|exact E1]).
  assert (live (fm_env f) -> live (fm_env f2)) as Hv by (intros Hv; apply HP; [done|]; eapply ek_pending; [exact Hv|exact E1]).
  apply swp_bind, swp_fm_call. intros [chans|e] e3 E3.
  2:{ split; [exact Hq|]. split; [|by exists pend]. intros Hl. destruct (live_all _ (Hv Hl)) as (l & e' & E). by rewrite E in E3. }
  destruct (li_all _ _ _ Hl2 E3) as (others & -> & Ho).
  assert (recorded (fm_set_env e3 f2) m') as Hm2 by (eapply recorded_db; [|exact Hm]; apply Hq).
  eapply swp_mono; [apply (swp_resumeAll ch m' others _ Hm2 Hcp)|].
  { eapply Forall_impl; [exact Ho|]. intros o [Ho1 Ho2]. split; [done|]. rewrite Hsame; [done|]. intros E. rewrite E in Ho2.
    rewrite Ho2 in Hrec. by destruct Hrec. }
  intros r f4 (-> & Hq4 & He4 & Hl4 & Ht4). split; [by transitivity (fm_set_env e3 f2)|]. split.
  - intros Hv0. split; [|done]. rewrite He4. eapply ek_all; [apply (Hv Hv0)|exact E3].
  - exists pend. split; [done|]. rewrite Ht4. cbn [fm_tasks fm_set_env]. change (fm_tasks (fm_set_env e3 f2)) with (fm_tasks f2).
    rewrite Ht. by rewrite <- app_assoc.
Qed.

(** The one goroutine that goes on with the opening, among those that wait. *)
Lemma swp_run_one pend t s m' f0 (f : fundingManager) :
  is_state s -> t = task_of ch s scid -> fm_loopChannel f = Some ch ->
  recorded f (<[oc_FundingOutpoint ch := (s, scid)]> m') ->
  (exists evs, fm_log f = fm_log f0 ++ evs /\ between ch markedOpen s `sublist_of` done_kinds ch scid evs) ->
  swp (st_iter (run_each fuel) (order ((TPending <$> pend) ++ [t])))
    (fun _ f' => sofar ch scid m' f0 f' /\ (live (fm_env f) -> recorded f' (delete (oc_FundingOutpoint ch) m'))) f.
Proof.
  intros Hs -> Hl Hr Hev. destruct (Permutation_vs_cons_inv (l := order ((TPending <$> pend) ++ [task_of ch s scid])) (l1 := TPending <$> pend) (a := task_of ch s scid))
    as (l1 & l2 & E).
  { rewrite Horder. symmetry. apply Permutation_cons_append. }
  assert (Forall (fun t => exists c, t = TPending c) (l1 ++ l2)) as Hf.
  { assert (l1 ++ l2 ≡ₚ TPending <$> pend) as ->.
    { apply (Permutation_cons_inv (a := task_of ch s scid)). rewrite Permutation_middle, <- E, Horder. symmetry. apply Permutation_cons_append. }
    apply Forall_fmap, Forall_true. by eexists. }
  apply Forall_app in Hf as [F1 F2]. rewrite E. apply swp_iter_app. eapply swp_mono; [by apply swp_run_pendings|].
  intros r f1 (-> & (Hq & Hl1 & HP)). cbn [st_iter]. apply swp_bind, swp_bind, swp_try, swp_run_task_of; [done|congruence|].
  apply swp_intro. intros r' f3 Hf3.
  assert (recorded f1 (<[oc_FundingOutpoint ch := (s, scid)]> m')) as Hr1 by (eapply recorded_db; [|exact Hr]; apply Hq).
  pose proof (swp_elim _ _ _ _ _ (swp_finishOpening fuel ch scid Hcp Hscid _ _ f1 Hr1 Hs (lookup_insert_eq _ _ _)) Hf3) as Hpost.
  destruct (run_post_sofar ch scid m' f0 f1 s r' f3 Hs) as [H1 H2]; [by rewrite (proj2 Hq)|exact Hpost|].
  intros r'' _. apply swp_ret. eapply swp_mono; [by apply swp_run_pendings|]. intros r4 f4 (-> & (Hq4 & _)).
  destruct Hq4 as [Hd4 Hlog4]. split.
  - destruct H1 as (evs & Ee & Hst). exists evs. rewrite Hlog4. split; [done|].
    destruct Hst as [(s' & Hs' & Hr' & Hsub)|[Hr' Hsub]]; [left; exists s'; split; [done|]|right]; (split; [by eapply recorded_db|done]).
  - intros Hv. eapply recorded_db; [exact Hd4|]. apply H2. pose proof (Hlive s _ f1 Hs Hr1 (HP live LK Hv)) as Hok. by rewrite Hf3 in Hok.
Qed.

(** A restart goes on from where the record stands. *)
Lemma swp_restart env f0 f :
  lists env -> is_Some (m !! oc_FundingOutpoint ch) -> sofar ch scid m f0 f ->
  swp (restart fuel order env)
    (fun _ f' => sofar ch scid m f0 f' /\ (live env -> recorded f' (delete (oc_FundingOutpoint ch) m))) f.
Proof.
  intros Hlist Hrec (evs & E & Hst). unfold restart. apply swp_bind. eapply swp_eq; [done|]. apply swp_bind, swp_try.
  set (f1 := fm_set_log (fm_log f) (newFundingManager (fm_db f) env)).
  assert (exists m', recorded f1 m' /\ (forall p, p <> oc_FundingOutpoint ch -> m' !! p = m !! p)) as (m' & Hr & Hsame).
  { destruct Hst as [(s & Hs & Hr & _)|[Hr _]]; eexists; (split; [exact Hr|]); intros p Hp; by rewrite ?lookup_insert_ne, ?lookup_delete_ne. }
  eapply swp_mono; [by apply (swp_Start_open m' f1)|]. intros r f2 (Hq & Hv & pend & Ht). apply swp_bind. eapply swp_eq; [done|]. cbn beta iota.
  assert (sofar ch scid m f0 f2) as Hso.
  { exists evs. split; [by rewrite (proj2 Hq)|]. destruct Hst as [(s & Hs & Hr' & Hsub)|[Hr' Hsub]]; [left; exists s; split; [done|]|right];
      (split; [by eapply recorded_db; [apply Hq|]|done]). }
  assert (Hwait : forall ts, fm_tasks f2 = TPending <$> ts -> (live env -> recorded f2 (delete (oc_FundingOutpoint ch) m)) ->
    swp (st_iter (run_each fuel) (order (fm_tasks f2))) (fun _ f' => sofar ch scid m f0 f' /\ (live env -> recorded f' (delete (oc_FundingOutpoint ch) m))) f2).
  { intros ts Ets Hd. eapply swp_mono; [apply swp_run_pendings; rewrite Horder, Ets; apply Forall_fmap, Forall_true; by eexists|].
    intros r3 f3 (_ & (Hq3 & _)). split; [|intros Hl; eapply recorded_db; [apply Hq3|auto]].
    destruct Hso as (evs' & E' & Hst'). exists evs'. rewrite (proj2 Hq3). split; [done|].
    destruct Hst' as [(s & Hs & Hr' & Hsub)|[Hr' Hsub]]; [left; exists s; split; [done|]|right]; (split; [by eapply recorded_db; [apply Hq3|]|done]). }
  destruct r as [[]|e].
  2:{ eapply Hwait; [exact Ht|]. intros Hl. by destruct (Hv Hl). }
  destruct Ht as [Hl Ht]. cbn [fm_tasks] in Ht. change (fm_tasks f1) with (@nil ftask) in Ht. rewrite app_nil_l in Ht.
  destruct Hst as [(s & Hs & Hr' & Hsub)|[Hr' Hsub]].
  - assert (m' !! oc_FundingOutpoint ch = Some (s, scid)) as Em.
    { destruct Hr as (st1 & R1 & _ & <-), Hr' as (st2 & R2 & _ & E2).
      pose proof (getChannelOpeningState_refines _ _ _ R1 Hcp) as G1. change (fm_db f1) with (fm_db f) in G1.
      rewrite (getChannelOpeningState_refines _ _ _ R2 Hcp), E2, lookup_insert_eq in G1.
      destruct (os_states st1 !! oc_FundingOutpoint ch) as [[]|]; by simplify_eq. }
    rewrite Em, resumed_state in Ht by done. rewrite Ht.
    eapply swp_mono; [apply (swp_run_one pend _ s m f0 f2 Hs eq_refl Hl)|].
    + eapply recorded_db; [apply Hq|exact Hr'].
    + exists evs. split; [by rewrite (proj2 Hq)|done].
    + intros r3 f3 [H1 H2]. split; [done|]. intros Hlv. apply H2. by apply Hv.
  - assert (m' !! oc_FundingOutpoint ch = None) as Em.
    { destruct Hr as (st1 & R1 & _ & <-), Hr' as (st2 & R2 & _ & E2).
      pose proof (getChannelOpeningState_refines _ _ _ R1 Hcp) as G1. change (fm_db f1) with (fm_db f) in G1.
      rewrite (getChannelOpeningState_refines _ _ _ R2 Hcp), E2, lookup_delete_eq in G1.
      destruct (os_states st1 !! oc_FundingOutpoint ch) as [[]|]; by simplify_eq. }
    rewrite Em, app_nil_r in Ht. eapply Hwait; [exact Ht|]. intros _. eapply recorded_db; [apply Hq|exact Hr'].
Qed.

Lemma restart_all envs f0 f :
  Forall lists envs -> is_Some (m !! oc_FundingOutpoint ch) ->
  sofar ch scid m f0 f -> sofar ch scid m f0 (foldl (fun f env => (restart fuel order env f).2) f envs).
Proof.
  intros Hl Hrec. revert f. induction Hl as [|env envs Hl _ IH]; intros f H; [done|]. simpl. apply IH.
  pose proof (swp_restart env f0 f Hl Hrec H) as Hw. apply Hw.
Qed.
End Restart.

(** ** A cooperating environment *)

(** [m] answers without an error. *)
Definition answers {A} (ok : nat -> Env -> Prop) (m : ST Env A) : Prop :=
  forall n e, ok n e -> exists a e', m e = (Ok a, e') /\ ok n e'.

(** In an environment with [ok n] at most [n] sends fail, each followed by the peer
    coming online; signing, the wallet and the notifier work, and the router takes or
    knows every announcement. *)
Class Cooperates (ok : nat -> Env -> Prop) := {
  co_kept n :: EnvKept (ok n);
  co_pending : answers ok FetchPendingChannels;
  co_all : answers ok FetchAllChannels;
  co_channel ch : answers ok (NewLightningChannel ch);
  co_revocation ln : answers ok (NextRevocationKey ln);
  co_sign k msg : answers ok (SignMessage k msg);
  co_node : answers ok CurrentNodeAnnouncement;
  co_register txid k h : answers ok (RegisterConfirmationsNtfn txid k h);
  co_confirmed txid k n e : ok n e -> exists h i e', AwaitConfirmed txid k e = (Ok (CConfirmed h i), e') /\ ok n e';
  co_announce a n e : ok n e ->
    exists r e', SendAnnouncement a e = (r, e') /\ ok n e' /\ (forall err, r = Err err -> IsRouterRejection err = true);
  co_send peer msg n e : ok n e ->
    (exists e', SendToPeer peer msg e = (Ok tt, e') /\ ok n e')
    \/ (exists n' err e' e'', n = S n' /\ SendToPeer peer msg e = (Err err, e')
        /\ NotifyWhenOnline peer e' = (true, e'') /\ ok n' e'');
  co_update_data u : exists d, ChannelUpdate_DataToSign u = Ok d;
  co_chan_data a : exists d, ChannelAnnouncement_DataToSign a = Ok d;
  co_sig s : exists sig, NewSigFromSignature s = Ok sig
}.

Section Cooperation.
Context {ok : nat -> Env -> Prop} {CO : Cooperates ok}.

Definition good (n : nat) (f : fundingManager) : Prop := ok n (fm_env f) /\ exists m, recorded f m.

(** [m] returns a value in every good state, and leaves one. *)
Definition succeeds {A} (m : FM A) : Prop :=
  forall n f, good n f -> swp m (fun r f' => (exists a, r = Ok a) /\ good n f') f.

Lemma succeeds_bind {A B} (m : FM A) (k : A -> FM B) : succeeds m -> (forall a, succeeds (k a)) -> succeeds (m ≫= k).
Proof.
  intros Hm Hk n f Hg. apply swp_bind. eapply swp_mono; [by apply Hm|]. intros r f' [[a ->] Hg']. by apply Hk.
Qed.

Lemma succeeds_ret {A} (a : A) : succeeds (mret a).
Proof. intros n f Hg. apply swp_ret. eauto. Qed.

Lemma succeeds_res {A} (r : res A) : (exists a, r = Ok a) -> succeeds (st_res r).
Proof. intros [a ->] n f Hg. eapply swp_eq; [done|]. eauto. Qed.

Lemma succeeds_read {A} (g : Env -> A) : succeeds (fm_read g).
Proof. intros n f Hg. eapply swp_eq; [done|]. eauto. Qed.

Lemma succeeds_call {A} (m : ST Env A) : answers ok m -> succeeds (fm_call m).
Proof.
  intros Hm n f [Ho Hr]. apply swp_fm_call. intros r e E. destruct (Hm n _ Ho) as (a & e' & E' & Ho').
  rewrite E in E'. injection E' as -> ->. split; [eauto|]. split; [done|exact Hr].
Qed.

Lemma succeeds_event ev : succeeds (fm_event ev).
Proof. intros n f Hg. eapply swp_eq; [done|]. eauto. Qed.

Lemma succeeds_save ch state scid :
  OutPoint_ok (oc_FundingOutpoint ch) -> opening_ok (state, scid) ->
  succeeds (fm_store (saveChannelOpeningState (oc_FundingOutpoint ch) state scid)).
Proof.
  intros Hcp Hok n f [Ho [m (st & H & Hc & <-)]].
  destruct (saveChannelOpeningState_refines _ _ _ _ _ H Hcp Hok) as (db' & E & H').
  apply swp_zoom. eapply swp_eq; [exact E|]. split; [eauto|]. split; [done|]. eexists _, _. split; [exact H'|done].
Qed.

Lemma succeeds_delete ch :
  OutPoint_ok (oc_FundingOutpoint ch) -> succeeds (fm_store (deleteChannelOpeningState (oc_FundingOutpoint ch))).
Proof.
  intros Hcp n f [Ho [m (st & H & Hc & <-)]]. pose proof (deleteChannelOpeningState_refines _ _ _ H Hcp) as HD.
  rewrite Hc in HD. destruct HD as (db' & E & H').
  apply swp_zoom. eapply swp_eq; [exact E|]. split; [eauto|]. split; [done|]. eexists _, _. split; [exact H'|done].
Qed.

Lemma succeeds_announce a : succeeds (announce a).
Proof.
  intros n f [Ho Hr]. unfold announce, sendAnnouncement. apply swp_catch, swp_bind, swp_fm_call. intros r e E.
  destruct (co_announce a n _ Ho) as (r' & e' & E' & Ho' & Hrej). rewrite E in E'. injection E' as -> ->.
  destruct r' as [[]|err].
  - eapply swp_eq; [done|]. apply swp_ret. split; [eauto|]. split; [done|exact Hr].
  - rewrite (Hrej err) by done. eapply swp_eq; [done|]. split; [eauto|]. split; [done|exact Hr].
Qed.

Lemma succeeds_newChanAnnouncement lp rp lf rf scid cid minHTLC :
  succeeds (newChanAnnouncement lp rp lf rf scid cid minHTLC).
Proof.
  unfold newChanAnnouncement.
  repeat first
    [ apply succeeds_ret
    | apply succeeds_bind; [first [ apply succeeds_read | apply succeeds_call, co_sign
        | apply succeeds_res; first [apply co_update_data | apply co_chan_data | apply co_sig] ]|intros ?] ].
Qed.

Lemma succeeds_addToRouterGraph ch scid :
  OutPoint_ok (oc_FundingOutpoint ch) -> ShortChannelID_ok scid -> succeeds (addToRouterGraph ch scid).
Proof.
  intros Hcp Hs. apply succeeds_bind; [apply succeeds_newChanAnnouncement|]. intros ann.
  apply succeeds_bind; [apply succeeds_announce|]. intros _.
  apply succeeds_bind; [apply succeeds_announce|]. intros _. apply succeeds_save; [done|by split].
Qed.

Lemma succeeds_announceChannel lp rp lf rf scid cid minHTLC : succeeds (announceChannel lp rp lf rf scid cid minHTLC).
Proof.
  apply succeeds_bind; [apply succeeds_newChanAnnouncement|]. intros ann.
  apply succeeds_bind; [apply succeeds_announce|]. intros _.
  apply succeeds_bind; [apply succeeds_call, co_node|]. intros na. apply succeeds_announce.
Qed.

Lemma succeeds_annAfterSixConfs ch scid : OutPoint_ok (oc_FundingOutpoint ch) -> succeeds (annAfterSixConfs ch scid).
Proof.
  intros Hcp. apply succeeds_bind; [|intros _; by apply succeeds_delete].
  destruct (is_public ch); [|apply succeeds_ret].
  apply succeeds_bind; [apply succeeds_call, co_register|]. intros _ n f [Ho Hr].
  apply swp_bind, swp_fm_call. intros r e E.
  edestruct co_confirmed as (h & i & e' & E' & Ho'); [exact Ho|]. rewrite E in E'. injection E' as -> ->.
  apply succeeds_announceChannel. split; [done|exact Hr].
Qed.

(** The loop that sends FundingLocked ends within the sends that may fail. *)
Lemma send_until_succeeds fuel peer msg n f :
  good n f -> (n < fuel)%nat ->
  swp (send_until fuel peer msg) (fun r f' => r = Ok tt /\ exists n', good n' f') f.
Proof.
  revert n f. induction fuel as [|fuel IH]; intros n f [Ho Hr] Hn; [lia|]. simpl.
  unfold sendToPeer. apply swp_catch, swp_bind, swp_fm_call. intros r e E.
  destruct (co_send peer msg n _ Ho) as [(e' & E' & Ho') | (n' & err & e' & e'' & -> & E' & E'' & Ho')];
    rewrite E in E'; injection E' as -> ->.
  - eapply swp_eq; [done|]. apply swp_ret. split; [done|]. exists n. split; [done|exact Hr].
  - apply swp_bind, swp_fm_do. intros b e3 E3. cbn in E3. rewrite E'' in E3. injection E3 as <- <-.
    apply (IH n'); [|lia]. split; [done|exact Hr].
Qed.

Lemma succeeds_tail {A} (m : FM A) n f : succeeds m -> good n f -> exists a, (m f).1 = Ok a.
Proof. intros Hm Hg. destruct (Hm n f Hg) as [H _]. exact H. Qed.

Lemma finishOpening_succeeds fuel ch scid n s m (f : fundingManager) :
  OutPoint_ok (oc_FundingOutpoint ch) -> ShortChannelID_ok scid -> (n < fuel)%nat ->
  is_state s -> recorded f m -> ok n (fm_env f) -> (finishOpening fuel ch s scid f).1 = Ok tt.
Proof.
  intros Hcp Hsc Hn Hs Hr Ho. assert (good n f) as Hg by (split; [done|eauto]).
  assert (succeeds (_ ← addToRouterGraph ch scid; annAfterSixConfs ch scid)) as Htail.
  { apply succeeds_bind; [by apply succeeds_addToRouterGraph|]. intros _. by apply succeeds_annAfterSixConfs. }
  destruct Hs as [-> | [-> | ->]].
  - cut (swp (handleFundingConfirmation fuel ch scid) (fun r _ => r = Ok tt) f); [done|].
    apply swp_bind. eapply swp_mono; [apply (succeeds_call _ (co_channel ch) n f Hg)|].
    intros r f1 [[ln ->] Hg1]. apply swp_bind, swp_bind.
    eapply swp_mono; [apply (succeeds_call _ (co_revocation ln) n f1 Hg1)|]. intros r f2 [[next ->] Hg2].
    apply swp_bind. eapply swp_mono; [by apply (send_until_succeeds fuel _ _ n f2)|]. intros r f3 [-> [n' Hg3]].
    eapply swp_mono; [apply (succeeds_save ch fundingLockedSent scid Hcp) with (n := n'); [by split|exact Hg3]|].
    intros r f4 [[u ->] Hg4]. destruct (Htail n' f4 Hg4) as [[[] E] _]. exact E.
  - by destruct (succeeds_tail _ _ _ Htail Hg) as [[] E].
  - by destruct (succeeds_tail _ _ _ (succeeds_annAfterSixConfs ch scid Hcp) Hg) as [[] E].
Qed.
End Cooperation.

(** C15: once the confirmation of a funding transaction is recorded, the channel is
    announced however often the daemon is stopped, as long as it is the last of the open
    channels and the others have finished their opening.  Over any sequence of restarts with
    [Start], in each of which any call may fail and the goroutines run in any order, followed
    by one in which the environment cooperates (at most [n] sends to the peer fail before it is
    reached), the opening record is deleted, and FundingLocked, the channel announcement,
    the channel update and, for a public channel, the proof and the node announcement were
    sent in that order. *)
Theorem opening_resumes (ok : nat -> Env -> Prop) `{!Cooperates ok} fuel order n ch scid st lists `{!Listed ch (os_states st) lists} envs env f f' :
  os_rel (fm_db f) st -> OutPoint_ok (oc_FundingOutpoint ch) -> ShortChannelID_ok scid ->
  os_states st !! oc_FundingOutpoint ch = Some (markedOpen, scid) ->
  (forall l, order l ≡ₚ l) -> Forall lists (envs ++ [env]) -> ok n env -> (n < fuel)%nat ->
  foldl (fun f env => (restart fuel order env f).2) f (envs ++ [env]) = f' ->
  getChannelOpeningState (oc_FundingOutpoint ch) (fm_db f') = Err ErrChannelNotFound
  /\ exists evs, fm_log f' = fm_log f ++ evs
     /\ remaining ch markedOpen `sublist_of` done_kinds ch scid evs.
Proof.
  intros H Hcp Hsc Hl Hord [Hls Hle]%Forall_app Hok Hn <-. apply Forall_cons in Hle as [Hle _]. rewrite foldl_app. simpl.
  assert (os_created st = true) as Hc.
  { destruct (os_created st) eqn:Hc; [done|]. by rewrite (os_rel_absent _ _ _ H Hc) in Hl. }
  assert (sofar ch scid (os_states st) f f) as H0.
  { exists []. split; [by rewrite app_nil_r|]. left. exists markedOpen. split; [by left|].
    rewrite insert_id by done. split; [by exists st|done]. }
  pose proof (fun s m' f1 => finishOpening_succeeds fuel ch scid n s m' f1 Hcp Hsc Hn) as Hlive.
  assert (is_Some (os_states st !! oc_FundingOutpoint ch)) as Hrec by (rewrite Hl; by eexists).
  assert (forall e, ok n e -> exists l e', FetchPendingChannels e = (Ok l, e')) as Hp.
  { intros e He. destruct (co_pending n e He) as (l & e' & E & _). by exists l, e'. }
  assert (forall e, ok n e -> exists l e', FetchAllChannels e = (Ok l, e')) as Ha.
  { intros e He. destruct (co_all n e He) as (l & e' & E & _). by exists l, e'. }
  pose proof (restart_all fuel ch scid (os_states st) Hcp Hsc order Hord Hp Ha Hlive envs f f Hls Hrec H0) as H1.
  pose proof (swp_restart fuel ch scid (os_states st) Hcp Hsc order Hord Hp Ha Hlive env f _ Hle Hrec H1) as Hw.
  destruct Hw as [(evs & E & Hst) Hdel]. specialize (Hdel Hok).
  destruct Hdel as (st' & Hrel & Hc' & Hst'). split.
  { rewrite (getChannelOpeningState_refines _ _ _ Hrel Hcp), Hst'. by rewrite lookup_delete_eq. }
  exists evs. split; [exact E|]. destruct Hst as [(s & Hs & Hr & _) | [_ Hsub]]; [|done].
  destruct Hr as (st2 & Hrel2 & _ & E2).
  pose proof (getChannelOpeningState_refines _ _ _ Hrel Hcp) as G1.
  rewrite (getChannelOpeningState_refines _ _ _ Hrel2 Hcp), Hst', E2, lookup_delete_eq, lookup_insert_eq in G1. done.
Qed.

End OpeningProps.
