(* ===== verification/OpeningWait.v ===== *)
(** * Announcing and forgetting channels

    The two sides of a channel build the same announcement, and a channel whose funding
    transaction does not confirm is forgotten by the responder only, after 288 blocks. *)

From Stdlib Require Import ZArith Lia.
From Stdlib Require Import Init.Byte.
From stdpp Require Import base gmap countable strings numbers list.
From S2P Require Import Prelude Stream Tx Outputs Bolt BoltMap Effects Sweep OpeningState FundingManager.
From S2P Require Import FundingFlow ChannelOpening OpeningProps.
Local Open Scope Z_scope.

(** ** The announcement of both sides *)

Section Announce.
Context {BTC : Btcec}.

Lemma SerializeCompressed_inj (k k' : PublicKey) : SerializeCompressed k = SerializeCompressed k' -> k = k'.
Proof.
  intros H. pose proof (ParsePubKey_SerializeCompressed k) as E. rewrite H, ParsePubKey_SerializeCompressed in E. congruence.
Qed.

Lemma first_node_swap (k k' : PublicKey) : k <> k' -> first_node k' k = negb (first_node k k').
Proof.
  intros H. unfold first_node. rewrite (bytes_compare_antisym (SerializeCompressed k)).
  destruct (bytes_compare (SerializeCompressed k) (SerializeCompressed k')) eqn:E; [|done..].
  apply bytes_compare_eq, SerializeCompressed_inj in E. done.
Qed.

(** C24: the two ends of a channel, each with its own environment on the same chain,
    build the same channel announcement, with the identity keys in order, and their
    channel updates carry opposite directions: flag 0 is the update of the node that is
    listed first. *)
Theorem both_announce_same {CE1 CE2 : ChainEnv} {FE1 : @FundingEnv _ CE1} {FE2 : @FundingEnv _ CE2}
    kA kB fA fB scid cid min1 min2 (f1 : @fundingManager _ CE1 FE1) (f2 : @fundingManager _ CE2 FE2) a1 a2 f1' f2' :
  @GenesisHash _ _ FE1 = @GenesisHash _ _ FE2 -> kA <> kB ->
  newChanAnnouncement kA kB fA fB scid cid min1 f1 = (Ok a1, f1') ->
  newChanAnnouncement kB kA fB fA scid cid min2 f2 = (Ok a2, f2') ->
  chanAnn a1 = chanAnn a2
  /\ bytes_lt (ca_NodeID1 (chanAnn a1)) (ca_NodeID2 (chanAnn a1))
  /\ cu_Flags (chanUpdateAnn a1) = 1 - cu_Flags (chanUpdateAnn a2)
  /\ (cu_Flags (chanUpdateAnn a1) = 0 <-> ca_NodeID1 (chanAnn a1) = SerializeCompressed kA).
Proof.
  intros HG Hne E1 E2.
  destruct (swp_elim _ _ _ _ _ (swp_newChanAnnouncement kA kB fA fB scid cid min1 f1) E1) as (_ & _ & _ & _ & _ & -> & ->).
  destruct (swp_elim _ _ _ _ _ (swp_newChanAnnouncement kB kA fB fA scid cid min2 f2) E2) as (_ & _ & _ & _ & _ & -> & ->).
  unfold channel_announcement. rewrite HG, (first_node_swap kA kB Hne).
  assert (SerializeCompressed kB <> SerializeCompressed kA) as Hs by (intros H; by apply SerializeCompressed_inj in H).
  destruct (first_node kA kB) eqn:Hf; simpl; (split; [done|]); (split; [|done]).
  - unfold bytes_lt. unfold first_node in Hf. by destruct (bytes_compare _ _).
  - pose proof (first_node_swap kA kB Hne) as Hsw. rewrite Hf in Hsw. unfold first_node in Hsw.
    unfold bytes_lt. by destruct (bytes_compare (SerializeCompressed kB) _).
Qed.
End Announce.

(** ** Forgetting a channel *)

Section Wait.
Context {BTC : Btcec} {CE : ChainEnv} {FE : FundingEnv}.

(** [logs P m]: what [m] adds to the log satisfies [P]. *)
Definition added (P : fund_event -> Prop) (f f' : fundingManager) : Prop :=
  exists evs, fm_log f' = fm_log f ++ evs /\ Forall P evs.
Definition logs {A} (P : fund_event -> Prop) (m : FM A) : Prop := forall f, swp m (fun _ f' => added P f f') f.

#[local] Instance added_preorder P : PreOrder (added P).
Proof.
  split; [intros f; exists []; by rewrite app_nil_r|].
  intros f g h (e1 & E1 & F1) (e2 & E2 & F2). exists (e1 ++ e2). rewrite E2, E1, app_assoc. split; [done|]. by apply Forall_app.
Qed.

Lemma logs_keep {A} P (m : FM A) : (forall f, fm_log (m f).2 = fm_log f) -> logs P m.
Proof. intros H f. exists []. by rewrite app_nil_r. Qed.

Lemma logs_bind {A B} P (m : FM A) (k : A -> FM B) : logs P m -> (forall a, logs P (k a)) -> logs P (m ≫= k).
Proof.
  intros Hm Hk f. apply swp_bind. eapply swp_mono; [apply Hm|]. intros [a|e] f' H; [|done].
  eapply swp_mono; [apply Hk|]. intros ? ? H2. by transitivity f'.
Qed.

Lemma logs_try {A} P (m : FM A) : logs P m -> logs P (st_try m).
Proof. intros Hm f. apply swp_try. eapply swp_mono; [apply Hm|]. done. Qed.

Lemma logs_catch {A B} P (m : FM A) h (k : A -> FM B) :
  logs P m -> (forall e, logs P (h e)) -> (forall a, logs P (k a)) -> logs P (catch m h k).
Proof. intros Hm Hh Hk. apply logs_bind; [by apply logs_try|]. intros [a|e]; auto. Qed.

Lemma logs_ret {A} P (a : A) : logs P (mret a).
Proof. by apply logs_keep. Qed.
Lemma logs_fail {A} P e : logs P (st_fail (A := A) e).
Proof. by apply logs_keep. Qed.
Lemma logs_res {A} P (r : res A) : logs P (st_res r).
Proof. by apply logs_keep. Qed.
Lemma logs_get P : logs P st_get.
Proof. by apply logs_keep. Qed.
Lemma logs_read {A} P (g : Env -> A) : logs P (fm_read g).
Proof. by apply logs_keep. Qed.
Lemma logs_call {A} P (m : ST Env A) : logs P (fm_call m).
Proof. apply logs_keep. intros f. unfold fm_call, st_zoom. by destruct (m _). Qed.
Lemma logs_do {A} P (g : Env -> A * Env) : logs P (fm_do g).
Proof. apply logs_call. Qed.
Lemma logs_store {A} P (g : bucket -> res A * bucket) : logs P (fm_store g).
Proof. apply logs_keep. intros f. unfold fm_store, st_zoom. by destruct (g _). Qed.
Lemma logs_closeSignal P s : logs P (closeSignal s).
Proof. apply logs_keep. intros f. unfold closeSignal. by case_decide. Qed.
Lemma logs_event (P : fund_event -> Prop) ev : P ev -> logs P (fm_event ev).
Proof. intros H f. exists [ev]. split; [done|]. by repeat constructor. Qed.
Lemma logs_upd P (g : fundingManager -> fundingManager) : (forall f, fm_log (g f) = fm_log f) -> logs P (st_upd g).
Proof. intros H. by apply logs_keep. Qed.

Create HintDb logs.
#[local] Hint Resolve logs_bind logs_try logs_catch logs_ret logs_fail logs_res logs_get logs_read logs_call logs_do
  logs_store logs_closeSignal logs_event logs_upd : logs.

(** Everything but the forgetting of a channel. *)
Definition not_closed (ev : fund_event) : Prop := match ev with FClosedChannel _ => False | _ => True end.
#[local] Hint Extern 1 (not_closed _) => exact I : logs.

Lemma logs_send_until fuel peer msg : logs not_closed (send_until fuel peer msg).
Proof.
  induction fuel as [|fuel IH]; simpl; [auto with logs|]. apply logs_catch; [|intros _|auto with logs].
  - unfold sendToPeer. auto with logs.
  - apply logs_bind; [auto with logs|]. intros [|]; auto with logs.
Qed.

Lemma logs_newChanAnnouncement lp rp lf rf scid cid minHTLC :
  logs not_closed (newChanAnnouncement lp rp lf rf scid cid minHTLC).
Proof. unfold newChanAnnouncement. auto 20 with logs. Qed.

Lemma logs_announce a : logs not_closed (announce a).
Proof.
  unfold announce, sendAnnouncement. apply logs_catch; [auto with logs|intros e|auto with logs].
  destruct (IsRouterRejection e); auto with logs.
Qed.
#[local] Hint Resolve logs_send_until logs_newChanAnnouncement logs_announce : logs.

Lemma logs_annAfterSixConfs ch scid : logs not_closed (annAfterSixConfs ch scid).
Proof.
  unfold annAfterSixConfs, announceChannel. cbv zeta. apply logs_bind; [|auto with logs].
  destruct (is_public ch); [|auto with logs]. apply logs_bind; [auto with logs|]. intros _.
  apply logs_bind; [auto with logs|]. intros []; auto with logs.
Qed.

Lemma logs_handleFundingConfirmation fuel ch scid : logs not_closed (handleFundingConfirmation fuel ch scid).
Proof.
  unfold handleFundingConfirmation, sendFundingLocked, addToRouterGraph.
  do 3 (apply logs_bind; [auto 10 with logs|intros ?]). apply logs_annAfterSixConfs.
Qed.

Lemma logs_logged P m : logs P m -> logs P (logged m).
Proof. intros H. apply logs_bind; [by apply logs_try|]. intros [u|[]]; auto with logs. Qed.

Lemma logs_markConfirmed ch h i : logs not_closed (markConfirmed ch h i).
Proof. unfold markConfirmed. repeat (apply logs_catch; [auto with logs..|]; intros ?). auto with logs. Qed.

Lemma logs_confirmed ch h i : logs not_closed (confirmed ch h i).
Proof.
  apply logs_bind; [apply logs_markConfirmed|]. intros [scid|]; [|auto with logs].
  apply logs_bind; [auto with logs|]. intros [|]; [auto with logs|]. apply logs_bind; [auto with logs|]. intros f.
  destruct (fm_localDiscoverySignals f !! _); auto with logs.
Qed.

(** The events after which a responder gives up: blocks below the limit, then one at
    or above it. *)
Definition times_out (ch : OpenChannel) (evs : list wait_event) : Prop :=
  oc_IsInitiator ch = false /\
  exists pre h post, evs = pre ++ WEpoch h :: post /\ maxHeight ch <= u32 h
    /\ Forall (fun ev => exists h', ev = WEpoch h' /\ u32 h' < maxHeight ch) pre.

Lemma logs_abandoned ch evs : logs not_closed (abandoned ch evs).
Proof.
  induction evs as [|[h| | |[h i| | |]] evs IH]; simpl; try (auto with logs; fail).
  apply logs_bind; [apply logs_markConfirmed|auto with logs].
Qed.

Lemma times_out_later ch h evs : u32 h < maxHeight ch -> times_out ch evs -> times_out ch (WEpoch h :: evs).
Proof.
  intros Hh (Hi & pre & h' & post & -> & Hle & Hpre). split; [done|]. exists (WEpoch h :: pre), h', post.
  split; [done|]. split; [done|]. constructor; eauto.
Qed.

Lemma swp_wait_loop ch evs f :
  swp (wait_loop ch evs) (fun r f' => added not_closed f f' /\ (r = Ok WTimeout -> times_out ch evs)) f.
Proof.
  induction evs as [|[h| | |ev] evs IH]; simpl.
  - by apply swp_ret.
  - destruct (oc_IsInitiator ch) eqn:Hi; [|destruct (Z.leb_spec (maxHeight ch) (u32 h)) as [Hle|Hlt]].
    + rewrite andb_false_r. eapply swp_mono; [exact IH|]. intros r f' [H1 H2]. split; [done|].
      intros Hr. destruct (H2 Hr) as [Hi' _]. congruence.
    + apply swp_ret. split; [done|]. intros _. split; [done|]. by exists [], h, evs.
    + eapply swp_mono; [exact IH|]. intros r f' [H1 H2]. split; [done|]. intros Hr. by apply times_out_later; auto.
  - apply swp_bind. eapply swp_mono; [apply logs_abandoned|]. intros [u|e] f' H; [apply swp_ret|]; by split.
  - by apply swp_ret.
  - destruct ev; try by apply swp_ret. apply swp_bind. eapply swp_mono; [apply logs_confirmed|].
    intros [[scid|]|e] f' H; [apply swp_ret..|]; by split.
Qed.

Lemma wait_loop_timeout ch evs f : times_out ch evs -> wait_loop ch evs f = (Ok WTimeout, f).
Proof.
  intros (Hi & pre & h & post & -> & Hle & Hpre). induction Hpre as [|ev pre (h' & -> & Hlt) _ IH]; simpl; rewrite Hi.
  - by rewrite (proj2 (Z.leb_le _ _) Hle).
  - by rewrite (proj2 (Z.leb_gt _ _) Hlt).
Qed.

(** The goroutines that wait with a timeout. *)
Definition waits (fuel : nat) (ch : OpenChannel) (evs : list wait_event) (run : FM ()) : Prop :=
  run = awaitPending fuel ch evs \/ exists peerKey pendingChanID, run = awaitCreated fuel peerKey pendingChanID ch evs.

(** Both are a wait followed by what its result asks for. *)
Lemma waits_run fuel ch evs run f Q :
  waits fuel ch evs run ->
  swp (waitForFundingWithTimeout ch evs)
    (fun r f1 => match r with
       | Ok WTimeout => swp (deleteFromDatabase ch) Q f1
       | Err e => Q (Err e) f1
       | _ => forall m, logs not_closed m -> swp m Q f1
       end) f ->
  swp run Q f.
Proof.
  intros [-> | (pk & id & ->)] H; apply swp_bind; (eapply swp_mono; [exact H|]); intros [[]|e] f1 HQ; try done;
    apply HQ; try apply logs_ret.
  - apply logs_logged, logs_handleFundingConfirmation.
  - apply logs_bind; [apply logs_upd; done|]. intros _. apply logs_logged, logs_handleFundingConfirmation.
Qed.


End Wait.
