(* ===== verification/FundingSafe.v ===== *)
(** * Safety of the funding manager

    The invariant of the reservations and of the barriers over everything the daemon
    does, and what follows from it: the coordinator panics only on an empty error
    message, and a channel barrier is never closed twice. *)

From Stdlib Require Import ZArith Lia.
From Stdlib Require Import Init.Byte.
From stdpp Require Import base gmap countable strings numbers list.
From S2P Require Import Prelude Stream Tx Outputs Bolt BoltMap Effects Sweep OpeningState FundingManager.
From S2P Require Import FundingFlow ChannelOpening OpeningProps.
Local Open Scope Z_scope.

Section Safe.
Context {BTC : Btcec} {CE : ChainEnv} {FE : FundingEnv}.

(** ** The invariant *)

(** A reservation points to a context of the peer it is filed under. *)
Definition ctxs_wf (f : fundingManager) : Prop :=
  forall k id p, lookup_ctx k id f = Some p ->
    exists r, fm_ctxs f !! p = Some r /\ newSerializedKey (na_IdentityKey (rc_peerAddress r)) = k.

(** Signals are allocated in order; a channel barrier is open and belongs to one
    channel only. *)
Definition signals_wf (f : fundingManager) : Prop :=
  (forall id s, fm_newChanBarriers f !! id = Some s ->
     (s < fm_nextSignal f)%nat /\ (s ∉ fm_closedSignals f)
     /\ (forall id', fm_localDiscoverySignals f !! id' <> Some s)
     /\ (forall id', fm_newChanBarriers f !! id' = Some s -> id' = id))
  /\ (forall id s, fm_localDiscoverySignals f !! id = Some s -> (s < fm_nextSignal f)%nat)
  /\ (forall s, s ∈ fm_closedSignals f -> (s < fm_nextSignal f)%nat).

Definition task_wf (f : fundingManager) (t : ftask) : Prop :=
  match t with TSigned _ _ p _ _ => (p < length (fm_ctxs f))%nat | _ => True end.

Definition fm_wf (f : fundingManager) : Prop := ctxs_wf f /\ signals_wf f /\ Forall (task_wf f) (fm_tasks f).

Definition noPanic (e : goerr) : Prop := forall w, e <> ErrPanic w.
Definition anyErr (e : goerr) : Prop := True.

(** With at least [N] contexts, [m] keeps the invariant and the contexts, and fails
    only as [ok] allows. *)
Definition sound {A} (ok : goerr -> Prop) (N : nat) (m : FM A) : Prop :=
  forall f, fm_wf f -> (N <= length (fm_ctxs f))%nat ->
    swp m (fun r f' => fm_wf f' /\ (length (fm_ctxs f) <= length (fm_ctxs f'))%nat
                       /\ forall e, r = Err e -> ok e) f.

Lemma sound_weaken {A} ok N N' (m : FM A) : sound ok N m -> (N <= N')%nat -> sound ok N' m.
Proof. intros H Hle f Hwf HN. apply H; [done|lia]. Qed.

Lemma sound_any {A} ok N (m : FM A) : sound ok N m -> sound anyErr N m.
Proof. intros H f Hwf HN. eapply swp_mono; [by apply H|]. intros r f' (? & ? & ?). done. Qed.

Lemma sound_bind {A B} ok N (m : FM A) (k : A -> FM B) :
  sound ok N m -> (forall a, sound ok N (k a)) -> sound ok N (m ≫= k).
Proof.
  intros Hm Hk f Hwf HN. apply swp_bind. eapply swp_mono; [by apply Hm|]. intros [a|e] f1 (Hwf1 & HN1 & Hok).
  - eapply swp_mono; [apply Hk; [done|lia]|]. intros r f2 (? & ? & ?). split; [done|]. split; [lia|done].
  - split; [done|]. split; [done|]. intros e' [= <-]. auto.
Qed.

Lemma sound_try {A} ok N (m : FM A) : sound anyErr N m -> sound ok N (st_try m).
Proof.
  intros Hm f Hwf HN. apply swp_try. eapply swp_mono; [by apply Hm|]. intros r f' (? & ? & _). by split; [|split].
Qed.

Lemma sound_catch {A B} ok N (m : FM A) h (k : A -> FM B) :
  sound anyErr N m -> (forall e, sound ok N (h e)) -> (forall a, sound ok N (k a)) -> sound ok N (catch m h k).
Proof. intros Hm Hh Hk. apply sound_bind; [by apply sound_try|]. intros [a|e]; auto. Qed.

Lemma sound_iter {A} ok N (g : A -> FM ()) l :
  (forall a, a ∈ l -> sound ok N (g a)) -> sound ok N (st_iter g l).
Proof.
  induction l as [|a l IH]; intros H; [intros f Hwf HN; by apply swp_ret|].
  apply sound_bind; [apply H; by left|]. intros _. apply IH. intros a' Ha. apply H. by right.
Qed.

(** A change of the state that the invariant allows. *)
Definition harmless (g : fundingManager -> fundingManager) : Prop :=
  forall f, fm_wf f -> fm_wf (g f) /\ (length (fm_ctxs f) <= length (fm_ctxs (g f)))%nat.

Lemma sound_upd ok N g : harmless g -> sound ok N (st_upd g).
Proof. intros H f Hwf HN. eapply swp_eq; [done|]. destruct (H f Hwf). done. Qed.

Lemma sound_ret {A} ok N (a : A) : sound ok N (mret a).
Proof. intros f Hwf HN. by apply swp_ret. Qed.
Lemma sound_fail {A} (ok : goerr -> Prop) N e : ok e -> sound ok N (st_fail (A := A) e).
Proof. intros H f Hwf HN. eapply swp_eq; [done|]. split; [done|]. split; [done|]. by intros ? [= <-]. Qed.
Lemma sound_res {A} N (r : res A) : sound anyErr N (st_res r).
Proof. intros f Hwf HN. by eapply swp_eq. Qed.
Lemma sound_get ok N : sound ok N st_get.
Proof. intros f Hwf HN. by eapply swp_eq. Qed.
Lemma sound_read {A} ok N (g : Env -> A) : sound ok N (fm_read g).
Proof. intros f Hwf HN. by eapply swp_eq. Qed.
Lemma sound_query {A} N (g : bucket -> res A) : sound anyErr N (fm_query g).
Proof. intros f Hwf HN. by eapply swp_eq. Qed.
Lemma sound_call {A} N (m : ST Env A) : sound anyErr N (fm_call m).
Proof. intros f Hwf HN. apply swp_fm_call. by intros r e _. Qed.
Lemma sound_do {A} ok N (g : Env -> A * Env) : sound ok N (fm_do g).
Proof. intros f Hwf HN. apply swp_fm_do. by intros r e _. Qed.
Lemma sound_store {A} N (g : bucket -> res A * bucket) : sound anyErr N (fm_store g).
Proof. intros f Hwf HN. apply swp_zoom, swp_intro. by intros r db _. Qed.
Lemma sound_event ok N ev : sound ok N (fm_event ev).
Proof. by apply sound_upd. Qed.

Lemma sound_spawn ok N t :
  match t with TSigned _ _ p _ _ => (p < N)%nat | _ => True end -> sound ok N (fm_spawn t).
Proof.
  intros Ht f (H1 & H2 & H3) HN. eapply swp_eq; [done|]. split; [|done]. split; [done|]. split; [done|].
  apply Forall_app. split; [done|]. apply Forall_singleton. destruct t; try done. cbn in *. lia.
Qed.

(** ** Contexts *)

Lemma ctxs_wf_valid f k id p : fm_wf f -> lookup_ctx k id f = Some p -> (p < length (fm_ctxs f))%nat.
Proof. intros (H & _) Hl. destruct (H _ _ _ Hl) as (r & Hr & _). by eapply lookup_lt_Some. Qed.

Lemma sound_read_ctx ok N p : (p < N)%nat -> sound ok N (read_ctx p).
Proof.
  intros Hp f Hwf HN. unfold read_ctx. destruct (lookup_lt_is_Some_2 (fm_ctxs f) p) as [r E]; [lia|].
  eapply swp_eq; [by rewrite E|]. done.
Qed.

Lemma swp_getReservationCtx peerKey id Q (f : fundingManager) :
  (forall p, lookup_ctx (newSerializedKey peerKey) id f = Some p -> Q (Ok p) f) ->
  (lookup_ctx (newSerializedKey peerKey) id f = None -> Q (Err (ErrNew "unknown channel")) f) ->
  swp (getReservationCtx peerKey id) Q f.
Proof.
  intros H1 H2. unfold swp, getReservationCtx. destruct (lookup_ctx (newSerializedKey peerKey) id f); [by apply H1|by apply H2].
Qed.

(** Finding a reservation gives a valid pointer. *)
Lemma sound_catch_ctx {B} ok N peerKey id h (k : nat -> FM B) :
  (forall e, sound ok N (h e)) -> (forall p, sound ok (S p) (k p)) ->
  sound ok N (catch (getReservationCtx peerKey id) h k).
Proof.
  intros Hh Hk f Hwf HN. apply swp_catch, swp_getReservationCtx.
  - intros p E. apply Hk; [done|]. by eapply ctxs_wf_valid in E.
  - intros _. by apply Hh.
Qed.

(** Changes of a context that keep its peer. *)
Lemma harmless_alter p g :
  (forall r, rc_peerAddress (g r) = rc_peerAddress r) ->
  harmless (fun f => fm_set_ctxs (alter g p (fm_ctxs f)) f).
Proof.
  intros Hg f (H1 & H2 & H3).
  assert (length (alter g p (fm_ctxs f)) = length (fm_ctxs f)) as Hlen by apply length_alter.
  split; [|cbn; lia]. split; [|split; [done|]].
  - intros k id q Hl. destruct (H1 k id q Hl) as (r & Hr & Hk). destruct (decide (p = q)) as [->|Hne].
    + exists (g r). cbn [fm_ctxs fm_set_ctxs]. rewrite list_lookup_alter_eq, Hr. split; [done|]. by rewrite Hg.
    + exists r. cbn [fm_ctxs fm_set_ctxs]. by rewrite list_lookup_alter_ne.
  - eapply Forall_impl; [exact H3|]. intros []; cbn; try done. by rewrite Hlen.
Qed.

Lemma sound_lock ok N p : sound ok N (lock p).
Proof. by apply sound_upd, harmless_alter. Qed.

Lemma sound_updateTimestamp ok N p : sound ok N (updateTimestamp p).
Proof. apply sound_bind; [apply sound_read|]. intros now. by apply sound_upd, harmless_alter. Qed.

Lemma sound_send_err N p e : (p < N)%nat -> sound noPanic N (send_err p e).
Proof.
  intros Hp. apply sound_bind; [by apply sound_read_ctx|]. intros r. destruct (rc_err r) as [|[e'|]].
  - apply sound_event.
  - by apply sound_fail.
  - by apply sound_upd, harmless_alter.
Qed.

Lemma sound_send_update N p b cp : (p < N)%nat -> sound noPanic N (send_update p b cp).
Proof.
  intros Hp. apply sound_bind; [by apply sound_read_ctx|]. intros r.
  destruct (rc_updates r); [apply sound_event|by apply sound_fail].
Qed.

(** ** Reservations *)

(** Fewer reservations. *)
Lemma harmless_shrink (g : gmap bytes (gmap bytes nat) -> gmap bytes (gmap bytes nat)) :
  (forall m k id p, (g m !! k ≫= fun pm => pm !! id) = Some p -> (m !! k ≫= fun pm => pm !! id) = Some p) ->
  harmless (fun f => fm_set_activeReservations (g (fm_activeReservations f)) f).
Proof.
  intros Hg f (H1 & H2 & H3). split; [|done]. split; [|done].
  intros k id p Hl. apply (H1 k id p). unfold lookup_ctx in *. by apply Hg.
Qed.

Lemma shrink_alter_delete (m : gmap bytes (gmap bytes nat)) k0 id0 k id p :
  (alter (delete id0) k0 m !! k ≫= fun pm => pm !! id) = Some p -> (m !! k ≫= fun pm => pm !! id) = Some p.
Proof.
  destruct (decide (k0 = k)) as [->|Hne]; [|by rewrite lookup_alter_ne].
  rewrite lookup_alter_eq. destruct (m !! k) as [pm|]; [|done]. simpl. rewrite lookup_delete_Some. naive_solver.
Qed.

Lemma sound_deleteReservationCtx ok N peerKey id : sound ok N (deleteReservationCtx peerKey id).
Proof. apply sound_upd, harmless_shrink. intros m k i p. apply shrink_alter_delete. Qed.

Lemma sound_cancel N r : sound anyErr N (cancel r).
Proof. apply sound_bind; [apply sound_call|]. intros _. apply sound_event. Qed.

Lemma sound_cancelReservationCtx N peerKey id : sound anyErr N (cancelReservationCtx peerKey id).
Proof.
  intros f Hwf HN. apply swp_bind, swp_getReservationCtx; [|done]. intros p E.
  assert (S p <= length (fm_ctxs f))%nat as Hp by (by eapply ctxs_wf_valid in E).
  assert (sound anyErr (S p) (ctx ← read_ctx p; _ ← cancel (rc_reservation ctx); _ ← deleteReservationCtx peerKey id; mret p)) as H.
  { apply sound_bind; [apply sound_read_ctx; lia|]. intros ctx. apply sound_bind; [apply sound_cancel|]. intros _.
    apply sound_bind; [apply sound_deleteReservationCtx|]. intros _. apply sound_ret. }
  by apply H.
Qed.

Lemma sound_sendToPeer N peer msg : sound anyErr N (sendToPeer peer msg).
Proof. apply sound_bind; [apply sound_call|]. intros _. apply sound_event. Qed.

Lemma sound_failFundingFlow ok N peer id e : sound ok N (failFundingFlow peer id e).
Proof.
  apply sound_bind; [apply sound_try, sound_cancelReservationCtx|]. intros _.
  apply sound_bind; [apply sound_try, sound_sendToPeer|]. intros _. apply sound_ret.
Qed.

(** A new context filed under its peer. *)
Lemma sound_newReservation {B} ok N peerKey id r (k : nat -> FM B) :
  na_IdentityKey (rc_peerAddress r) = peerKey -> (forall p, sound ok (S p) (k p)) ->
  sound ok N (p ← new_ctx r; _ ← addReservation peerKey id p; k p).
Proof.
  intros Hpk Hk f (H1 & H2 & H3) HN. apply swp_bind. eapply swp_eq; [done|]. apply swp_bind. eapply swp_eq; [done|].
  set (p := length (fm_ctxs f)).
  eapply swp_mono; [apply (Hk p); [|cbn; rewrite length_app; simpl; unfold p; lia]|].
  2:{ intros r' f' (Hwf' & Hlen & Hok). cbn in Hlen. rewrite length_app in Hlen. simpl in Hlen.
      split; [done|]. split; [lia|done]. }
  split; [|split; [done|]].
  - intros k' id' q Hl. unfold lookup_ctx in Hl. cbn in Hl.
    destruct (decide (newSerializedKey peerKey = k')) as [<-|Hne].
    + rewrite lookup_insert_eq in Hl. cbn in Hl. destruct (decide (id = id')) as [<-|Hid].
      * rewrite lookup_insert_eq in Hl. injection Hl as <-. exists r. cbn. unfold p. rewrite lookup_app_r by lia.
        rewrite Nat.sub_diag, Hpk. done.
      * rewrite lookup_insert_ne in Hl by done. destruct (H1 (newSerializedKey peerKey) id' q) as (r' & Hr' & Hk').
        { unfold lookup_ctx. by destruct (fm_activeReservations f !! newSerializedKey peerKey). }
        exists r'. split; [|done]. cbn. by apply lookup_app_l_Some.
    + rewrite lookup_insert_ne in Hl by done. destruct (H1 k' id' q Hl) as (r' & Hr' & Hk').
      exists r'. split; [|done]. cbn. by apply lookup_app_l_Some.
  - cbn. eapply Forall_impl; [exact H3|]. intros []; cbn; try done. rewrite length_app. simpl. lia.
Qed.

Lemma sound_deferred ok N d m : sound ok N d -> sound ok N m -> sound ok N (deferred d m).
Proof.
  intros Hd Hm f Hwf HN. apply swp_bind, swp_try. eapply swp_mono; [by apply Hm|]. intros r f1 (Hwf1 & HN1 & Hok).
  assert (swp (_ ← d; st_res r) (fun r' f' => fm_wf f' /\ (length (fm_ctxs f) <= length (fm_ctxs f'))%nat
            /\ forall e, r' = Err e -> ok e) f1) as Hrest.
  { apply swp_bind. eapply swp_mono; [apply Hd; [done|lia]|]. intros [u|e] f2 (Hwf2 & HN2 & Hok2).
    - eapply swp_eq; [done|]. split; [done|]. split; [lia|done].
    - split; [done|]. split; [lia|]. intros e' [= <-]. auto. }
  destruct r as [u|e]; [exact Hrest|]. destruct e; try exact Hrest.
  eapply swp_eq; [done|]. split; [done|]. split; [done|]. intros e' [= <-]. by apply Hok.
Qed.

(** ** Signals *)

Lemma sound_createBarrier ok N id : sound ok N (createBarrier id).
Proof.
  intros f (H1 & (B & D & C) & H3) HN. apply swp_bind. eapply swp_eq; [done|]. eapply swp_eq; [done|].
  split; [|done]. split; [done|]. split; [|done]. cbn. split; [|split].
  - intros id' s. cbn. rewrite lookup_insert. case_decide as Hd.
    + subst id'. intros [= <-]. split; [lia|]. split; [intros Hc; apply C in Hc; lia|]. split.
      * intros id'' Hs. apply D in Hs. lia.
      * intros id''. rewrite lookup_insert. case_decide; [done|]. intros Hs. apply B in Hs as (? & _). lia.
    + intros Hs. destruct (B id' s Hs) as (Hlt & Hnc & Hnd & Hinj). split; [lia|]. split; [done|]. split; [done|].
      intros id''. rewrite lookup_insert. case_decide; [intros [= <-]; lia|]. by apply Hinj.
  - intros id' s Hs. cbn in *. apply D in Hs. lia.
  - intros s Hs. cbn in *. apply C in Hs. lia.
Qed.

Lemma sound_createDiscoverySignal ok N id : sound ok N (createDiscoverySignal id).
Proof.
  intros f (H1 & (B & D & C) & H3) HN. apply swp_bind. eapply swp_eq; [done|]. eapply swp_eq; [done|].
  split; [|done]. split; [done|]. split; [|done]. cbn. split; [|split].
  - intros id' s Hs. cbn in *. destruct (B id' s Hs) as (Hlt & Hnc & Hnd & Hinj). split; [lia|]. split; [done|]. split; [|done].
    intros id''. rewrite lookup_insert. case_decide; [intros [= Heq]; lia|]. apply Hnd.
  - intros id' s. cbn. rewrite lookup_insert. case_decide; [intros [= <-]; lia|]. intros Hs. apply D in Hs. lia.
  - intros s Hs. cbn in *. apply C in Hs. lia.
Qed.

(** Closing the barrier of a channel never panics. *)
Lemma sound_closeBarrier N id : sound noPanic N (closeBarrier id).
Proof.
  intros f (H1 & (B & D & C) & H3) HN. apply swp_bind. eapply swp_eq; [done|]. cbn beta iota.
  destruct (fm_newChanBarriers f !! id) as [s|] eqn:E; [|by apply swp_ret].
  destruct (B id s E) as (Hlt & Hnc & Hnd & Hinj).
  apply swp_bind. unfold closeSignal. eapply swp_eq; [by rewrite decide_False|]. eapply swp_eq; [done|].
  split; [|done]. split; [done|]. split; [|done]. cbn. split; [|split].
  - intros id' s'. cbn. rewrite lookup_delete_Some. intros [Hne Hs']. destruct (B id' s' Hs') as (Hlt' & Hnc' & Hnd' & Hinj').
    split; [done|]. split; [|split; [done|]].
    + rewrite elem_of_union, elem_of_singleton. intros [->|?]; [|done]. by apply Hne, eq_sym, Hinj.
    + intros id''. rewrite lookup_delete_Some. intros [_ ?]. by apply Hinj'.
  - done.
  - intros s'. cbn. rewrite elem_of_union, elem_of_singleton. intros [->|Hs']; [done|by apply C].
Qed.

(** Closing a discovery signal may panic, but it leaves the barriers alone. *)
Lemma swp_discovery id f :
  fm_wf f ->
  swp (match fm_localDiscoverySignals f !! id with Some sig => closeSignal sig | None => mret tt end)
    (fun _ f' => fm_wf f' /\ (length (fm_ctxs f) <= length (fm_ctxs f'))%nat) f.
Proof.
  intros (H1 & (B & D & C) & H3).
  destruct (fm_localDiscoverySignals f !! id) as [s|] eqn:E; [|by apply swp_ret].
  unfold closeSignal, swp. case_decide as Hd; [done|]. split; [|done]. split; [done|]. split; [|done]. cbn. split; [|split].
  - intros id' s' Hs'. cbn in *. destruct (B id' s' Hs') as (Hlt' & Hnc' & Hnd' & Hinj').
    split; [done|]. split; [|by split]. rewrite elem_of_union, elem_of_singleton. intros [->|?]; [|done]. by eapply Hnd'.
  - done.
  - intros s'. cbn. rewrite elem_of_union, elem_of_singleton. intros [->|Hs']; [by eapply D|by apply C].
Qed.

Lemma harmless_undiscover id : harmless (fun f => fm_set_localDiscoverySignals (delete id (fm_localDiscoverySignals f)) f).
Proof.
  intros f (H1 & (B & D & C) & H3). split; [|done]. split; [done|]. split; [|done]. split; [|split; [|done]].
  - intros id' s Hs. destruct (B id' s Hs) as (? & ? & Hnd & ?). split; [done|]. split; [done|]. split; [|done].
    intros id''. cbn. rewrite lookup_delete_Some. intros [_ ?]. by eapply Hnd.
  - intros id' s. cbn. rewrite lookup_delete_Some. intros [_ ?]. by eapply D.
Qed.

Create HintDb sound.
#[local] Hint Resolve sound_bind sound_try sound_catch sound_catch_ctx sound_ret sound_res sound_get sound_read sound_call
  sound_do sound_query sound_store sound_event sound_send_err sound_send_update sound_lock sound_updateTimestamp
  sound_deleteReservationCtx sound_cancel sound_cancelReservationCtx sound_sendToPeer sound_failFundingFlow
  sound_deferred sound_createBarrier sound_createDiscoverySignal sound_closeBarrier sound_spawn sound_read_ctx : sound.
#[local] Hint Extern 1 (sound _ _ (st_upd _)) => (apply sound_upd; done) : sound.
#[local] Hint Extern 1 (sound _ _ (fm_mod _)) => apply sound_do : sound.
#[local] Hint Extern 1 (_ < _)%nat => lia : sound.

(** ** The coordinator *)

Lemma sound_deleteFromDatabase ok N ch : sound ok N (deleteFromDatabase ch).
Proof. unfold deleteFromDatabase. eauto with sound. Qed.

Lemma sound_acceptReservation N peer msg reservation n : sound noPanic N (acceptReservation peer msg reservation n).
Proof.
  apply sound_newReservation; [done|]. intros p. apply sound_deferred; [apply sound_updateTimestamp|].
  apply sound_catch; [apply sound_call|auto with sound|]. intros _. apply sound_bind; [apply sound_read|]. auto with sound.
Qed.

Lemma sound_handleFundingOpen N peer msg : sound noPanic N (handleFundingOpen peer msg).
Proof.
  apply sound_bind; [apply sound_get|]. intros f. destruct (_ <=? _); [auto with sound|].
  apply sound_bind; [auto with sound|]. intros [[]|e]; [|auto with sound..]. destruct (_ <? _); [auto with sound|].
  apply sound_catch; [auto with sound..|]. intros reservation. apply sound_bind; [auto with sound|]. intros _.
  apply sound_catch; [auto with sound..|]. intros _. apply sound_bind; [auto with sound|]. intros _.
  apply sound_acceptReservation.
Qed.

Lemma sound_handleFundingCreated N peer msg : sound noPanic N (handleFundingCreated peer msg).
Proof.
  apply sound_catch_ctx; [auto with sound|]. intros p. apply sound_bind; [auto with sound|]. intros ctx.
  apply sound_catch; [auto with sound..|]. intros ch. apply sound_bind; [auto with sound|]. intros _.
  apply sound_bind; [auto with sound|]. intros sig.
  do 2 (apply sound_catch; [auto with sound|intros e; apply sound_bind; [auto with sound|intros _; apply sound_deleteFromDatabase]|intros ?]).
  repeat (apply sound_bind; [auto with sound|intros _]). by apply sound_spawn.
Qed.

Lemma sound_handleInitFundingMsg N peer req : sound noPanic N (handleInitFundingMsg peer req).
Proof.
  apply sound_catch; [auto with sound..|]. intros fee. apply sound_catch; [auto with sound..|]. intros reservation.
  apply sound_bind; [unfold nextPendingChanID; auto with sound|]. intros id. apply sound_newReservation; [done|]. intros p.
  apply sound_deferred; [auto with sound|]. apply sound_bind; [auto with sound|]. intros _.
  apply sound_bind; [auto with sound|]. intros our. apply sound_catch; [auto with sound| |auto with sound].
  intros e. apply sound_bind; auto with sound.
Qed.

Lemma sound_handleFundingAccept N peer msg : sound noPanic N (handleFundingAccept peer msg).
Proof.
  apply sound_catch_ctx; [auto with sound|]. intros p. apply sound_deferred; [auto with sound|].
  apply sound_bind; [auto with sound|]. intros ctx. apply sound_bind; [auto with sound|]. intros _.
  apply sound_catch; [auto with sound..|]. intros _. apply sound_catch; [auto 6 with sound..|]. intros _.
  apply sound_bind; [auto with sound|]. intros op. apply sound_bind; [auto with sound|]. intros sig.
  apply sound_bind; [auto with sound|]. intros _. apply sound_bind; [auto with sound|]. intros _.
  apply sound_catch; [auto 6 with sound..|]. intros cs. apply sound_catch; auto 6 with sound.
Qed.

Lemma sound_handleFundingSigned N peer msg : sound noPanic N (handleFundingSigned peer msg).
Proof.
  apply sound_bind; [auto with sound|]. intros f. apply sound_bind; [auto with sound|]. intros _.
  destruct (fm_signedReservations f !! _) as [id|]; [|auto with sound].
  apply sound_catch_ctx; [auto with sound|]. intros p. apply sound_bind; [auto with sound|]. intros ctx.
  apply sound_bind; [auto with sound|]. intros op. apply sound_bind; [auto with sound|]. intros _.
  apply sound_catch; [auto 6 with sound..|]. intros ch. apply sound_bind; [auto with sound|]. intros _.
  apply sound_bind; [apply sound_send_update; lia|]. intros _. apply sound_bind; [auto with sound|]. intros _.
  apply sound_spawn. lia.
Qed.

(** ** Zombies *)

(** A reservation that was not touched for too long; a locked one never is. *)
Definition zombie (now : Z) (f : fundingManager) (p : nat) : Prop :=
  exists r t, fm_ctxs f !! p = Some r /\ rc_lastUpdated r = Some t /\ ReservationTimeout < now - t.

Lemma collect_cases now f id p acc :
  (zombie now f p /\ collect now f id p acc = <[id := p]> acc) \/ (~ zombie now f p /\ collect now f id p acc = acc).
Proof.
  unfold collect, zombie. destruct (fm_ctxs f !! p) as [r|] eqn:E; [|right; naive_solver].
  destruct (rc_lastUpdated r) as [t|] eqn:Et; [|right; split; [|done]; intros (r' & t & ? & ? & _); congruence].
  destruct (Z.ltb_spec ReservationTimeout (now - t)) as [Hlt|Hge]; [left; split; [|done]; by exists r, t|].
  right. split; [|done]. intros (r' & t' & ? & ? & ?). simplify_eq. lia.
Qed.

Lemma collect_peer (now : Z) (f : fundingManager) (acc pending : gmap bytes nat) (id : bytes) :
  (forall p, map_fold (collect now f) acc pending !! id = Some p ->
     acc !! id = Some p \/ (pending !! id = Some p /\ zombie now f p))
  /\ (forall p, pending !! id = Some p -> zombie now f p -> is_Some (map_fold (collect now f) acc pending !! id))
  /\ (is_Some (acc !! id) -> is_Some (map_fold (collect now f) acc pending !! id)).
Proof.
  revert pending. apply (map_fold_weak_ind (fun acc' pending =>
    (forall p, acc' !! id = Some p -> acc !! id = Some p \/ (pending !! id = Some p /\ zombie now f p))
    /\ (forall p, pending !! id = Some p -> zombie now f p -> is_Some (acc' !! id))
    /\ (is_Some (acc !! id) -> is_Some (acc' !! id)))).
  { split; [by left|]. split; [|done]. intros p. by rewrite lookup_empty. }
  intros i p pending acc' Hi (Ha & Hb & Hc).
  destruct (decide (i = id)) as [->|Hne].
  - rewrite lookup_insert_eq. destruct (collect_cases now f id p acc') as [[Hz ->] | [Hz ->]].
    + rewrite lookup_insert_eq. split; [|by split; eauto]. intros q [= <-]. by right.
    + split; [|split; [by intros q [= <-]|done]]. intros q Hq. destruct (Ha q Hq) as [?|[? _]]; [by left|congruence].
  - rewrite lookup_insert_ne by done.
    destruct (collect_cases now f i p acc') as [[Hz ->] | [Hz ->]]; [rewrite lookup_insert_ne by done|]; done.
Qed.

Lemma zombies_spec (now : Z) (f : fundingManager) (id : bytes) :
  (forall p, zombies now f !! id = Some p -> exists k, lookup_ctx k id f = Some p /\ zombie now f p)
  /\ (forall k p, lookup_ctx k id f = Some p -> zombie now f p -> is_Some (zombies now f !! id)).
Proof.
  unfold lookup_ctx. unfold zombies. generalize (fm_activeReservations f). intros m. revert m.
  apply (map_fold_weak_ind (fun acc m =>
    (forall p, acc !! id = Some p -> exists k, (m !! k ≫= fun pm => pm !! id) = Some p /\ zombie now f p)
    /\ (forall k p, (m !! k ≫= fun pm => pm !! id) = Some p -> zombie now f p -> is_Some (acc !! id)))).
  { split; [intros p; by rewrite lookup_empty|]. intros k p. by rewrite lookup_empty. }
  intros k pending m acc Hk [Ha Hb]. destruct (collect_peer now f acc pending id) as (Ca & Cb & Cc). split.
  - intros p Hp. destruct (Ca p Hp) as [Hp'|[Hp' Hz]].
    + destruct (Ha p Hp') as (k' & Hk' & Hz). exists k'. split; [|done]. rewrite lookup_insert_ne; [done|].
      intros ->. by rewrite Hk in Hk'.
    + exists k. by rewrite lookup_insert_eq.
  - intros k' p. rewrite lookup_insert. case_decide; [apply Cb|]. intros Hp Hz. apply Cc. by eapply Hb.
Qed.

Lemma sound_pruneZombieReservations N : sound noPanic N pruneZombieReservations.
Proof.
  apply sound_bind; [auto with sound|]. intros now f Hwf HN. apply swp_bind. eapply swp_eq; [done|]. cbn beta iota.
  apply (sound_iter noPanic (length (fm_ctxs f))); [|done|done]. intros [id p] Hin.
  apply elem_of_map_to_list in Hin. destruct (zombies_spec now f id) as [Ha _]. destruct (Ha p Hin) as (k & Hl & _).
  apply ctxs_wf_valid in Hl; [|done]. apply sound_bind; [auto with sound|]. auto with sound.
Qed.

Lemma sound_CancelPeerReservations N nodePub : sound noPanic N (CancelPeerReservations nodePub).
Proof.
  intros f Hwf HN. apply swp_bind. eapply swp_eq; [done|]. cbn beta iota.
  destruct (fm_activeReservations f !! nodePub) as [pending|] eqn:E; [|by apply swp_ret].
  apply (sound_bind noPanic (length (fm_ctxs f))); [|intros _|done|done].
  - apply sound_iter. intros [id p] Hin. apply elem_of_map_to_list in Hin.
    assert (lookup_ctx nodePub id f = Some p) as Hl by (unfold lookup_ctx; by rewrite E).
    apply ctxs_wf_valid in Hl; [|done]. apply sound_bind; [auto with sound|]. intros ctx.
    apply sound_bind; [auto with sound|]. intros _. apply sound_bind.
    + destruct (rc_err ctx) as [|[]]; auto with sound.
    + intros _. apply sound_upd, harmless_shrink. intros m k i q. apply shrink_alter_delete.
  - apply sound_upd, harmless_shrink. intros m k i q. destruct (decide (nodePub = k)) as [->|Hne].
    + by rewrite lookup_delete_eq.
    + by rewrite lookup_delete_ne.
Qed.

Lemma sound_handleFundingLocked N peer msg : sound noPanic N (handleFundingLocked peer msg).
Proof.
  apply sound_bind; [auto with sound|]. intros f. case_decide; [auto with sound|].
  apply sound_bind; [auto with sound|]. intros _. by apply sound_spawn.
Qed.

Lemma sound_handleErrorMsg N peer err :
  sound (fun e => noPanic e \/ em_Data err = []) N (handleErrorMsg peer err).
Proof.
  apply sound_catch_ctx; [auto with sound|]. intros p. destruct (em_Data err) as [|b rest]; [apply sound_fail; by right|].
  assert (forall A (m : FM A), sound noPanic (S p) m -> sound (fun e => noPanic e \/ b :: rest = []) (S p) m) as Hw.
  { intros A m Hm f Hwf HN. eapply swp_mono; [by apply Hm|]. intros r f' (? & ? & ?). naive_solver. }
  apply sound_bind; [apply Hw; destruct rest; auto with sound|]. intros _. apply Hw. apply sound_bind; auto with sound.
Qed.

Lemma sound_handlePendingChannels N : sound anyErr N handlePendingChannels.
Proof. unfold handlePendingChannels. auto with sound. Qed.

(** ** The goroutines *)

Lemma sound_newChanAnnouncement N lp rp lf rf scid cid minHTLC :
  sound anyErr N (newChanAnnouncement lp rp lf rf scid cid minHTLC).
Proof. unfold newChanAnnouncement. repeat (apply sound_bind; [auto with sound|intros ?]). auto with sound. Qed.

Lemma sound_announce N a : sound anyErr N (announce a).
Proof.
  unfold announce, sendAnnouncement. apply sound_catch; [auto with sound|intros e|auto with sound].
  destruct (IsRouterRejection e); [auto with sound|by apply sound_fail].
Qed.

Lemma sound_send_until N fuel peer msg : sound anyErr N (send_until fuel peer msg).
Proof.
  induction fuel as [|fuel IH]; simpl; [by apply sound_fail|].
  apply sound_catch; [auto with sound|intros _|auto with sound]. apply sound_bind; [auto with sound|].
  intros [|]; [done|by apply sound_fail].
Qed.
#[local] Hint Resolve sound_newChanAnnouncement sound_announce sound_send_until : sound.

Lemma sound_annAfterSixConfs N ch scid : sound anyErr N (annAfterSixConfs ch scid).
Proof.
  unfold annAfterSixConfs, announceChannel. cbv zeta. apply sound_bind; [|auto with sound].
  destruct (is_public ch); [|auto with sound]. apply sound_bind; [auto with sound|]. intros _.
  apply sound_bind; [auto with sound|]. intros []; [|by apply sound_fail..].
  do 3 (apply sound_bind; [auto with sound|intros ?]). auto with sound.
Qed.

Lemma sound_sendFundingLocked N fuel ch ln scid : sound anyErr N (sendFundingLocked fuel ch ln scid).
Proof. unfold sendFundingLocked. do 2 (apply sound_bind; [auto with sound|intros ?]). auto with sound. Qed.

Lemma sound_addToRouterGraph N ch scid : sound anyErr N (addToRouterGraph ch scid).
Proof. unfold addToRouterGraph. do 3 (apply sound_bind; [auto with sound|intros ?]). auto with sound. Qed.
#[local] Hint Resolve sound_annAfterSixConfs sound_sendFundingLocked sound_addToRouterGraph : sound.

Lemma sound_handleFundingConfirmation N fuel ch scid : sound anyErr N (handleFundingConfirmation fuel ch scid).
Proof. unfold handleFundingConfirmation. auto with sound. Qed.

Lemma sound_logged N m : sound anyErr N m -> sound anyErr N (logged m).
Proof. intros H. apply sound_bind; [by apply sound_try|]. intros [u|[]]; auto with sound; by apply sound_fail. Qed.

Lemma sound_markConfirmed N ch h i : sound anyErr N (markConfirmed ch h i).
Proof. unfold markConfirmed. repeat (apply sound_catch; [auto with sound..|]; intros ?). auto with sound. Qed.

Lemma sound_confirmed N ch h i : sound anyErr N (confirmed ch h i).
Proof.
  apply sound_bind; [apply sound_markConfirmed|]. intros [scid|]; [|auto with sound].
  apply sound_bind; [auto with sound|]. intros [|]; [auto with sound|].
  intros f Hwf HN. apply swp_bind. eapply swp_eq; [done|]. apply swp_bind.
  eapply swp_mono; [by apply swp_discovery|]. intros [u|e] f' (? & ?); [apply swp_ret|]; done.
Qed.
#[local] Hint Resolve sound_handleFundingConfirmation sound_logged sound_confirmed sound_deleteFromDatabase : sound.

Lemma sound_abandoned N ch evs : sound anyErr N (abandoned ch evs).
Proof.
  induction evs as [|[h| | |[h i| | |]] evs IH]; simpl; try (auto with sound; fail).
  apply sound_bind; [apply sound_markConfirmed|auto with sound].
Qed.

Lemma sound_wait_loop N ch evs : sound anyErr N (wait_loop ch evs).
Proof.
  induction evs as [|[h| | |ev] evs IH]; simpl; [auto with sound|destruct (_ && _); auto with sound| |auto with sound|].
  - apply sound_bind; [apply sound_abandoned|auto with sound].
  - destruct ev; auto with sound.
Qed.

Lemma sound_waitForFundingWithTimeout N ch evs : sound anyErr N (waitForFundingWithTimeout ch evs).
Proof.
  do 2 (apply sound_catch; [unfold registerConf; auto with sound..|]; intros _). apply sound_wait_loop.
Qed.

Lemma sound_completeFundingLocked N peer msg : sound noPanic N (completeFundingLocked peer msg).
Proof.
  apply sound_deferred; [auto with sound|]. apply sound_bind; [auto with sound|]. intros [|]; [auto with sound|].
  apply sound_bind; [apply sound_upd, harmless_undiscover|]. intros _. apply sound_catch; [auto with sound..|]. intros ln.
  apply sound_bind; [auto with sound|]. intros [next|]; [auto with sound|]. apply sound_bind; [auto with sound|].
  intros [|]; simpl; [|auto with sound]. apply sound_bind; [auto with sound|]. intros _.
  apply sound_catch; [auto with sound..|]. intros _. apply sound_deferred; [auto with sound|].
  apply sound_catch; auto with sound.
Qed.

Lemma sound_run_task fuel t evs N :
  match t with TSigned _ _ p _ _ => (p < N)%nat | _ => True end -> sound anyErr N (run_task fuel t evs).
Proof.
  intros Ht. destruct t as [pk id ch|pk id p op ch|ch|ch scid|ch scid|scid|peer msg]; simpl.
  - apply sound_bind; [apply sound_waitForFundingWithTimeout|]. intros []; auto with sound.
  - destruct evs as [|[h| | |ev] evs]; auto with sound. apply sound_bind.
    + apply sound_catch; [unfold registerConf; auto with sound..|]. intros _. destruct ev; auto with sound.
    + intros [scid|]; [|auto with sound]. apply sound_logged.
      do 3 (apply sound_bind; [auto with sound|intros ?]).
      apply sound_bind; [eapply sound_any, sound_send_update; done|]. intros _. auto with sound.
  - apply sound_bind; [apply sound_waitForFundingWithTimeout|]. intros []; auto with sound.
  - auto with sound.
  - unfold resumeLockedSent. auto with sound.
  - apply sound_bind; [auto with sound|]. intros f. destruct (fm_loopChannel f); [auto with sound|by apply sound_fail].
  - eapply sound_any, sound_completeFundingLocked.
Qed.

(** ** Starting *)

Lemma sound_Start N : sound anyErr N Start.
Proof.
  apply sound_bind; [auto with sound|]. intros pend. apply sound_bind.
  - apply sound_iter. intros ch _. apply sound_bind; [auto with sound|]. intros _.
    apply sound_bind; [auto with sound|]. intros _. apply sound_bind; [destruct (_ && _); auto with sound|].
    intros _. by apply sound_spawn.
  - intros _. apply sound_bind; [auto with sound|]. intros chans. apply sound_iter. intros ch _.
    apply sound_bind; [auto with sound|]. intros _. apply sound_bind; [auto with sound|]. intros [[s scid]|e].
    + apply sound_bind; [destruct (oc_IsPending ch); auto with sound|]. intros _.
      destruct (_ =? _); [by apply sound_spawn|]. destruct (_ =? _); [by apply sound_spawn|].
      destruct (_ =? _); [by apply sound_spawn|auto with sound].
    + destruct e; auto with sound; by apply sound_fail.
Qed.
End Safe.
