(* ===== verification/FundingProps.v ===== *)
(** * The funding manager, verified

    What the coordinator guarantees in every reachable state, the opening of a
    reservation, the pruning of zombies and the closing of channel barriers. *)

From Stdlib Require Import ZArith Lia.
From Stdlib Require Import Init.Byte.
From stdpp Require Import base gmap countable strings numbers list.
From S2P Require Import Prelude Stream Tx Outputs Bolt BoltMap Effects Sweep OpeningState FundingManager.
From S2P Require Import FundingFlow ChannelOpening OpeningProps FundingSafe.
Local Open Scope Z_scope.

Section FundingProps.
Context {BTC : Btcec} {CE : ChainEnv} {FE : FundingEnv}.

(** ** Reachable states *)

Lemma fm_wf_new db env : fm_wf (newFundingManager db env).
Proof.
  split; [|split; [|done]].
  - intros k id p. unfold lookup_ctx. cbn. by rewrite lookup_empty.
  - split; [|split].
    + intros id s. cbn. by rewrite lookup_empty.
    + intros id s. cbn. by rewrite lookup_empty.
    + intros s. cbn. set_solver.
Qed.

Lemma fm_wf_remove_task n f : fm_wf f -> fm_wf (remove_task n f).
Proof. intros (H1 & H2 & H3). split; [done|]. split; [done|]. by apply Forall_delete. Qed.

(** What the rounds of the coordinator may fail with. *)
Definition round_ok (i : coord_input) (e : goerr) : Prop :=
  noPanic e \/ exists peer err, i = InMsg peer (MError err) /\ em_Data err = [].

Lemma sound_round i : sound (round_ok i) 0 (reservationCoordinator i).
Proof.
  assert (forall m : FM (), sound noPanic 0 m -> sound (round_ok i) 0 m) as Hw.
  { intros m Hm f Hwf HN. eapply swp_mono; [by apply Hm|]. intros r f' (? & ? & ?). split; [done|]. split; [done|].
    intros e He. left. auto. }
  destruct i as [peer [m|m|m|m|m|m]|peer req| |]; simpl.
  - apply Hw, sound_handleFundingOpen.
  - apply Hw, sound_handleFundingAccept.
  - apply Hw, sound_handleFundingCreated.
  - apply Hw, sound_handleFundingSigned.
  - apply Hw, sound_handleFundingLocked.
  - intros f Hwf HN. eapply swp_mono; [by apply (sound_handleErrorMsg 0)|]. intros r f' (? & ? & Ho). split; [done|].
    split; [done|]. intros e He. destruct (Ho e He); [by left|]. right. eauto.
  - apply Hw, sound_handleInitFundingMsg.
  - apply Hw, sound_pruneZombieReservations.
  - apply sound_bind; [apply sound_try, sound_handlePendingChannels|]. intros _. apply sound_ret.
Qed.

Lemma sound_run {A} ok (m : FM A) f r f' : sound ok 0 m -> fm_wf f -> m f = (r, f') -> fm_wf f' /\ forall e, r = Err e -> ok e.
Proof.
  intros Hm Hwf E. destruct (swp_elim _ _ _ _ _ (Hm f Hwf (Nat.le_0_l _)) E) as (? & _ & ?). done.
Qed.

Lemma fstep_wf f r f' : fm_wf f -> fstep f r f' -> fm_wf f'.
Proof.
  intros Hwf Hs. destruct Hs as [i f r f' E|fuel n t evs f r f' Ht He E|k f r f' E|e f].
  - by eapply sound_run in E; [apply E|apply sound_round|].
  - pose proof (fm_wf_remove_task n f Hwf) as Hwf1.
    pose proof (sound_run_task fuel t evs (length (fm_ctxs f))) as Hsnd.
    assert (match t with TSigned _ _ p _ _ => (p < length (fm_ctxs f))%nat | _ => True end) as Ht'.
    { destruct Hwf as (_ & _ & H3). rewrite Forall_lookup in H3. specialize (H3 n t Ht). by destruct t. }
    by destruct (swp_elim _ _ _ _ _ (Hsnd Ht' _ Hwf1 (Nat.le_refl _)) E) as (? & _).
  - by eapply sound_run in E; [apply E|apply sound_CancelPeerReservations|].
  - done.
Qed.

Lemma freachable_wf db env f : freachable db env f -> fm_wf f.
Proof.
  induction 1 as [f E|f f' _ IH Hs]; [|by eapply fstep_wf].
  by eapply sound_run in E; [apply E|apply sound_Start|apply fm_wf_new].
Qed.

(** C17: in every state the daemon can reach, from its start and through any messages,
    requests, timer ticks, disconnections and progress of its goroutines, a lookup
    among the active reservations of a peer yields an existing context that belongs to
    that peer; and whatever the coordinator is given next, it does not panic, except on
    an error message without data. *)
Theorem coordinator_safe db env f i r f' :
  freachable db env f -> reservationCoordinator i f = (r, f') ->
  (forall peerKey id p, lookup_ctx (newSerializedKey peerKey) id f = Some p ->
     exists ctx, fm_ctxs f !! p = Some ctx
       /\ newSerializedKey (na_IdentityKey (rc_peerAddress ctx)) = newSerializedKey peerKey)
  /\ (forall w, r = Err (ErrPanic w) -> exists peer err, i = InMsg peer (MError err) /\ em_Data err = []).
Proof.
  intros Hr E. apply freachable_wf in Hr. split.
  - intros pk id p Hl. apply (proj1 Hr) in Hl. done.
  - intros w ->. destruct (sound_run _ _ _ _ _ (sound_round i) Hr E) as [_ Ho].
    destruct (Ho _ eq_refl) as [Hn|He]; [|done]. by destruct (Hn w).
Qed.

(** ** Channel barriers *)

(** The barriers are as in [f], or the one of the channel was closed and removed after
    the breach arbiter was told about the channel. *)
Definition barrier_post (id : bytes) (f f' : fundingManager) : Prop :=
  (fm_newChanBarriers f' = fm_newChanBarriers f /\ fm_closedSignals f' = fm_closedSignals f)
  \/ (fm_newChanBarriers f' = delete id (fm_newChanBarriers f)
      /\ (forall s, fm_newChanBarriers f !! id = Some s -> s ∈ fm_closedSignals f')
      /\ exists cp, FArbiter cp ∈ fm_log f').

Definition barriers_open (f : fundingManager) : Prop :=
  forall id s, fm_newChanBarriers f !! id = Some s -> s ∉ fm_closedSignals f.

Lemma signals_wf_open f : signals_wf f -> barriers_open f.
Proof. intros (B & _) id s Hs. by apply (B id s Hs). Qed.

Lemma swp_closeBarrier id f :
  barriers_open f ->
  swp (closeBarrier id) (fun r f' => r = Ok tt /\ fm_newChanBarriers f' = delete id (fm_newChanBarriers f)
    /\ (forall s, fm_newChanBarriers f !! id = Some s -> s ∈ fm_closedSignals f') /\ fm_log f' = fm_log f
    /\ fm_handleFundingLockedBarriers f' = fm_handleFundingLockedBarriers f) f.
Proof.
  intros B. apply swp_bind. eapply swp_eq; [done|]. cbn beta iota.
  destruct (fm_newChanBarriers f !! id) as [s|] eqn:E.
  - pose proof (B id s E) as Hnc. apply swp_bind. unfold closeSignal. eapply swp_eq; [by rewrite decide_False|].
    eapply swp_eq; [done|]. repeat split; try done. intros s' [= <-]. cbn. set_solver.
  - apply swp_ret. repeat split; try done. by rewrite delete_id.
Qed.

Lemma swp_deferred d m (Q : res () -> fundingManager -> Prop) f :
  swp m (fun r f1 => r = Ok tt /\ swp d (fun r' f2 => r' = Ok tt /\ Q (Ok tt) f2) f1) f -> swp (deferred d m) Q f.
Proof.
  intros H. apply swp_bind, swp_try. eapply swp_mono; [exact H|]. intros r f1 [-> Hd]. apply swp_bind.
  eapply swp_mono; [exact Hd|]. intros r f2 [-> HQ]. by eapply swp_eq.
Qed.

(** The body of [completeFundingLocked] under its deferred calls. *)
Lemma swp_completeFundingLocked peer msg f :
  barriers_open f ->
  swp (completeFundingLocked peer msg)
    (fun r f' => r = Ok tt /\ barrier_post (fl_ChanID msg) f f'
       /\ (fl_ChanID msg ∉ fm_handleFundingLockedBarriers f')) f.
Proof.
  intros Hwf. set (id := fl_ChanID msg). apply swp_deferred.
  assert (forall f1, fm_newChanBarriers f1 = fm_newChanBarriers f ->
            fm_closedSignals f1 = fm_closedSignals f -> swp (mret tt) (fun r f2 => r = Ok tt /\
    swp (st_upd (fun f => fm_set_handleFundingLockedBarriers (fm_handleFundingLockedBarriers f ∖ {[ id ]}) f))
      (fun r' f3 => r' = Ok tt /\ Ok tt = Ok tt /\ barrier_post id f f3
         /\ id ∉ fm_handleFundingLockedBarriers f3) f2) f1) as Hret.
  { intros f1 Hb Hc. apply swp_ret. split; [done|]. eapply swp_eq; [done|]. split; [done|]. split; [done|].
    split; [by left|]. cbn. set_solver. }
  apply swp_bind. eapply swp_eq; [done|]. destruct (Quitting _); [by apply Hret|].
  apply swp_bind. eapply swp_eq; [done|]. apply swp_catch, swp_fm_call. intros [ln|e] e1 _; [|by apply Hret].
  apply swp_bind. eapply swp_eq; [done|]. destruct (RemoteNextRevocation _ _); [by apply Hret|].
  apply swp_bind, swp_fm_do. intros [|] e2 _; simpl; [|by apply Hret].
  apply swp_bind. eapply swp_eq; [done|]. apply swp_catch, swp_fm_call. intros [[]|e] e3 _; [|by apply Hret].
  apply swp_deferred.
  match goal with |- swp _ ?P0 ?f1 => assert (forall env, swp (mret tt) P0 (fm_set_env env f1)) as Hend end.
  { intros env. apply swp_ret. split; [done|]. eapply swp_mono; [apply swp_closeBarrier; exact Hwf|].
    intros r f2 (-> & Hb & Hc & Hl & Hh). split; [done|]. split; [done|]. eapply swp_eq; [done|]. split; [done|].
    split; [done|]. split; [|cbn; set_solver]. right. split; [done|]. split; [done|]. exists (ChanPoint ln).
    cbn. rewrite Hl. cbn. apply elem_of_app. right. by apply list_elem_of_singleton. }
  apply swp_catch, swp_fm_call. intros [[]|e] e4 _; [|apply Hend].
  apply swp_bind, swp_fm_do. intros b e5 _. apply (Hend e5).
Qed.

(** In every reachable state, the goroutine that handles a FundingLocked message
    never closes a channel barrier twice and always ends: the message of the channel can
    be handled again, and the barriers are untouched or the barrier of this channel was
    closed and removed, which is only done once the breach arbiter was told to watch
    the channel. *)
Theorem barrier_closed_once db env f n peer msg fuel evs r f' :
  freachable db env f ->
  run_task fuel (TLocked peer msg) evs (remove_task n f) = (r, f') ->
  r = Ok tt /\ barrier_post (fl_ChanID msg) f f' /\ fl_ChanID msg ∉ fm_handleFundingLockedBarriers f'.
Proof.
  intros Hr E. apply freachable_wf in Hr as (_ & Hs & _).
  exact (swp_elim _ _ _ _ _ (swp_completeFundingLocked peer msg (remove_task n f) (signals_wf_open f Hs)) E).
Qed.

(** ** Failing a flow *)

Definition fail_data (e : funding_err) : bytes :=
  match e with
  | FECode c => [c]
  | FEOther e => default (str "funding failed due to internal error") (ReservationErrorText e)
  end.

(** The reservation is cancelled and forgotten, or nothing changes, and the peer gets
    at most the one error message. *)
Definition fail_post (peer : PublicKey) (id : bytes) (d : bytes) (f f' : fundingManager) : Prop :=
  fm_ctxs f' = fm_ctxs f
  /\ (fm_activeReservations f' = fm_activeReservations f
      \/ fm_activeReservations f' = alter (delete id) (newSerializedKey peer) (fm_activeReservations f))
  /\ (exists evs, fm_log f' = fm_log f ++ evs
      /\ Forall (fun ev => (exists r, ev = FCancelled r) \/ ev = FSent peer (PError (mkErrorMsg id d))) evs).

(** When the wallet cancels, the reservation is gone and the wallet was told. *)
Definition fail_done (peer : PublicKey) (id : bytes) (f f' : fundingManager) : Prop :=
  lookup_ctx (newSerializedKey peer) id f' = None
  /\ forall p ctx, lookup_ctx (newSerializedKey peer) id f = Some p -> fm_ctxs f !! p = Some ctx ->
       FCancelled (rc_reservation ctx) ∈ fm_log f'.

Lemma lookup_ctx_deleted peer id f f' :
  fm_activeReservations f' = alter (delete id) (newSerializedKey peer) (fm_activeReservations f) ->
  lookup_ctx (newSerializedKey peer) id f' = None.
Proof.
  intros E. unfold lookup_ctx. rewrite E, lookup_alter_eq. destruct (fm_activeReservations f !! _); [|done]. apply lookup_delete_eq.
Qed.

Lemma lookup_ctx_other peer id f f' k id' :
  fm_activeReservations f' = fm_activeReservations f
  \/ fm_activeReservations f' = alter (delete id) (newSerializedKey peer) (fm_activeReservations f) ->
  (k, id') <> (newSerializedKey peer, id) -> lookup_ctx k id' f' = lookup_ctx k id' f.
Proof.
  unfold lookup_ctx. intros [-> | ->] Hne; [done|]. destruct (decide (newSerializedKey peer = k)) as [<-|Hk].
  - rewrite lookup_alter_eq. destruct (fm_activeReservations f !! newSerializedKey peer); [|done]. simpl.
    apply lookup_delete_ne. congruence.
  - by rewrite lookup_alter_ne.
Qed.

Definition cancels : Prop := forall r e, exists e', Cancel r e = (Ok tt, e').

Lemma swp_cancelReservationCtx peer id f :
  ctxs_wf f ->
  swp (cancelReservationCtx peer id) (fun _ f' => fm_ctxs f' = fm_ctxs f
    /\ (fm_activeReservations f' = fm_activeReservations f
        \/ fm_activeReservations f' = alter (delete id) (newSerializedKey peer) (fm_activeReservations f))
    /\ (exists evs, fm_log f' = fm_log f ++ evs /\ Forall (fun ev => exists r, ev = FCancelled r) evs)
    /\ (cancels -> fail_done peer id f f')) f.
Proof.
  intros Hwf. apply swp_bind, swp_getReservationCtx.
  2:{ intros E. split; [done|]. split; [by left|]. split; [exists []; by rewrite app_nil_r|].
      intros _. split; [done|]. intros p ctx Hp. congruence. }
  intros p Hp. destruct (Hwf _ _ _ Hp) as (ctx & Hctx & _). apply swp_bind. unfold read_ctx.
  eapply swp_eq; [by rewrite Hctx|]. apply swp_bind, swp_bind, swp_fm_call. intros [[]|e] env E.
  - eapply swp_eq; [done|]. apply swp_bind. eapply swp_eq; [done|]. apply swp_ret. split; [done|]. split; [by right|].
    split; [exists [FCancelled (rc_reservation ctx)]; split; [done|]; apply Forall_singleton; eauto|].
    intros _. split; [by eapply lookup_ctx_deleted|]. intros p' ctx' Hp' Hctx'. simplify_eq. cbn.
    apply elem_of_app. right. by apply list_elem_of_singleton.
  - split; [done|]. split; [by left|]. split; [exists []; by rewrite app_nil_r|].
    intros Hc. destruct (Hc (rc_reservation ctx) (fm_env f)) as [e' E']. congruence.
Qed.

Lemma swp_failFundingFlow peer id e f :
  ctxs_wf f ->
  swp (failFundingFlow peer id e)
    (fun r f' => r = Ok tt /\ fail_post peer id (fail_data e) f f' /\ (cancels -> fail_done peer id f f')) f.
Proof.
  intros Hwf. apply swp_bind, swp_try. eapply swp_mono; [by apply swp_cancelReservationCtx|].
  intros _ f1 (Hc & Ha & (evs & El & Hevs) & Hd). apply swp_bind, swp_try, swp_bind, swp_fm_call.
  assert (Forall (fun ev => (exists r, ev = FCancelled r) \/ ev = FSent peer (PError (mkErrorMsg id (fail_data e)))) evs) as Hevs'.
  { eapply Forall_impl; [exact Hevs|]. by left. }
  set (msg := match e with FECode c => [c] | FEOther e => _ end).
  assert (msg = fail_data e) as Hmsg by (unfold msg, fail_data; destruct e as [|e]; [done|]; by destruct (ReservationErrorText e)).
  rewrite Hmsg. intros [[]|err] env _.
  - eapply swp_eq; [done|]. apply swp_ret. split; [done|]. split; [split; [done|split; [done|]]|].
    + exists (evs ++ [FSent peer (PError (mkErrorMsg id (fail_data e)))]). cbn. rewrite El, app_assoc. split; [done|].
      apply Forall_app. split; [done|]. apply Forall_singleton. by right.
    + intros Hcan. destruct (Hd Hcan) as [H1 H2]. split; [done|]. intros p ctx Hp Hctx. cbn. apply elem_of_app. left. by eapply H2.
  - apply swp_ret. split; [done|]. split; [split; [done|split; [done|]]|].
    + by exists evs.
    + done.
Qed.

(** ** Zombies *)

Definition ctx_key (ctx : reservationWithCtx) : bytes := newSerializedKey (na_IdentityKey (rc_peerAddress ctx)).

Lemma ctxs_wf_shrink f f' :
  fm_ctxs f' = fm_ctxs f -> (forall k id p, lookup_ctx k id f' = Some p -> lookup_ctx k id f = Some p) ->
  ctxs_wf f -> ctxs_wf f'.
Proof. intros Hc Hl H k id p Hp. rewrite Hc. by apply H with id, Hl. Qed.

(** What the loop over collected zombies does. *)
Definition pruned (l : list (bytes * nat)) (f f' : fundingManager) : Prop :=
  fm_ctxs f' = fm_ctxs f
  /\ fm_log f `prefix_of` fm_log f'
  /\ (forall k id, lookup_ctx k id f' = lookup_ctx k id f
       \/ (lookup_ctx k id f' = None /\ exists p ctx, (id, p) ∈ l /\ fm_ctxs f !! p = Some ctx /\ ctx_key ctx = k))
  /\ (cancels -> forall id p ctx, (id, p) ∈ l -> fm_ctxs f !! p = Some ctx ->
       lookup_ctx (ctx_key ctx) id f' = None
       /\ (lookup_ctx (ctx_key ctx) id f = Some p -> FCancelled (rc_reservation ctx) ∈ fm_log f')).

Lemma pruned_nil f : pruned [] f f.
Proof.
  split; [done|]. split; [done|]. split; [by left|]. intros _ id p ctx Hin. by apply not_elem_of_nil in Hin.
Qed.

Lemma fail_then_pruned id p ctx d l f f1 f2 :
  fm_ctxs f !! p = Some ctx -> id ∉ l.*1 ->
  fail_post (na_IdentityKey (rc_peerAddress ctx)) id d f f1 ->
  (cancels -> fail_done (na_IdentityKey (rc_peerAddress ctx)) id f f1) ->
  pruned l f1 f2 -> pruned ((id, p) :: l) f f2.
Proof.
  intros Hctx Hnin (Hc1 & Ha1 & (evs & El & _)) Hd1 (Hc2 & Hp2 & Hl2 & Hd2).
  pose proof (fun k id' => lookup_ctx_other _ _ f f1 k id' Ha1) as Hother.
  split; [congruence|]. split; [etrans; [|exact Hp2]; rewrite El; by apply prefix_app_r|]. split.
  - intros k id'. destruct (Hl2 k id') as [E|(E & q & c & Hin & Hq & Hk)].
    + rewrite E. destruct (decide ((k, id') = (ctx_key ctx, id))) as [[= -> ->]|Hne]; [|left; by apply Hother].
      destruct Ha1 as [Ha1|Ha1]; [left; unfold lookup_ctx; by rewrite Ha1|]. right.
      split; [by eapply lookup_ctx_deleted|]. exists p, ctx. split; [by left|done].
    + right. split; [done|]. exists q, c. split; [by right|]. by rewrite <- Hc1.
  - intros Hcan id' p' ctx' Hin Hctx'. apply elem_of_cons in Hin as [[= -> ->]|Hin].
    + assert (ctx' = ctx) as -> by congruence. destruct (Hd1 Hcan) as [Hn1 Hev1]. split.
      * destruct (Hl2 (ctx_key ctx) id) as [E|[E _]]; [|done]. rewrite E. exact Hn1.
      * intros Hlk. eapply elem_of_prefix; [by eapply Hev1|done].
    + rewrite <- Hc1 in Hctx'. destruct (Hd2 Hcan id' p' ctx' Hin Hctx') as [H1 H2]. split; [done|].
      intros Hlk. apply H2. rewrite Hother; [done|]. intros [= _ ->]. apply Hnin, list_elem_of_fmap. by exists (id, p').
Qed.

Lemma swp_prune l f :
  ctxs_wf f -> NoDup l.*1 -> (forall id p, (id, p) ∈ l -> is_Some (fm_ctxs f !! p)) ->
  swp (st_iter (fun (entry : bytes * nat) =>
         ctx ← read_ctx entry.2;
         failFundingFlow (na_IdentityKey (rc_peerAddress ctx)) entry.1
           (FEOther (ErrNew "reservation timed out waiting for peer"))) l)
    (fun r f' => r = Ok tt /\ pruned l f f') f.
Proof.
  revert f. induction l as [|[id p] l IH]; intros f Hwf Hnd Hv; [apply swp_ret; split; [done|apply pruned_nil]|].
  apply NoDup_cons in Hnd as [Hnin Hnd]. destruct (Hv id p) as [ctx Hctx]; [by left|].
  simpl. apply swp_bind, swp_bind. unfold read_ctx. eapply swp_eq; [by rewrite Hctx|].
  eapply swp_mono; [by apply swp_failFundingFlow|]. intros r f1 (-> & Hpost & Hdone).
  pose proof Hpost as (Hc1 & Ha1 & _). eapply swp_mono; [apply IH|].
  - eapply ctxs_wf_shrink; [exact Hc1| |exact Hwf]. intros k id' q. destruct Ha1 as [Ha1|Ha1]; unfold lookup_ctx; rewrite Ha1; [done|].
    apply shrink_alter_delete.
  - done.
  - intros id' p' Hin. rewrite Hc1. apply (Hv id'). by right.
  - intros r f2 [-> Hp]. split; [done|]. by eapply fail_then_pruned.
Qed.

(** A sweep for zombies in any reachable state.  It never fails; it drops no
    reservation that is locked, waiting for its funding transaction, or that was updated
    within the timeout, whatever the peers do; it adds none; and when the wallet can
    cancel, every reservation that is overdue is dropped and its wallet reservation
    cancelled, as long as no other peer has an overdue reservation with the same pending
    channel id. *)
Theorem zombies_pruned db env f r f' :
  freachable db env f -> pruneZombieReservations f = (r, f') ->
  r = Ok tt
  /\ (forall k id p, lookup_ctx k id f' = Some p -> lookup_ctx k id f = Some p)
  /\ (forall k id p, lookup_ctx k id f = Some p -> ~ zombie (Now (fm_env f)) f p -> lookup_ctx k id f' = Some p)
  /\ (cancels -> forall k id p ctx, lookup_ctx k id f = Some p -> fm_ctxs f !! p = Some ctx ->
       zombie (Now (fm_env f)) f p ->
       (forall k' p', lookup_ctx k' id f = Some p' -> zombie (Now (fm_env f)) f p' -> k' = k) ->
       lookup_ctx k id f' = None /\ FCancelled (rc_reservation ctx) ∈ fm_log f').
Proof.
  intros Hr E. apply freachable_wf in Hr as (Hwf & _). set (now := Now (fm_env f)) in *.
  pose proof (zombies_spec now f) as Hz. set (l := map_to_list (zombies now f)).
  assert (forall id p, (id, p) ∈ l -> exists k, lookup_ctx k id f = Some p /\ zombie now f p) as Hl.
  { intros id p Hin. apply elem_of_map_to_list in Hin. by apply Hz. }
  assert (swp pruneZombieReservations (fun r f' => r = Ok tt /\ pruned l f f') f) as Hw.
  { apply swp_bind. eapply swp_eq; [done|]. apply swp_bind. eapply swp_eq; [done|].
    apply swp_prune; [done|apply NoDup_fst_map_to_list|]. intros id p Hin.
    destruct (Hl id p Hin) as (k & Hk & _). destruct (Hwf _ _ _ Hk) as (ctx & ? & _). eauto. }
  destruct (swp_elim _ _ _ _ _ Hw E) as (-> & Hc & _ & Hlk & Hd). split; [done|]. split; [|split].
  - intros k id p Hp. destruct (Hlk k id) as [E'|[E' _]]; congruence.
  - intros k id p Hp Hnz. destruct (Hlk k id) as [E'|(_ & q & ctx & Hin & Hq & Hk)]; [congruence|].
    destruct (Hl id q Hin) as (k' & Hk' & Hzq). destruct (Hwf _ _ _ Hk') as (ctx' & Hq' & Hkk). simplify_eq.
    unfold ctx_key in Hp. by rewrite Hk' in Hp; simplify_eq.
  - intros Hcan k id p ctx Hp Hctx Hzp Huniq. destruct (proj2 (Hz id) k p Hp Hzp) as [q Hq].
    assert ((id, q) ∈ l) as Hin by (by apply elem_of_map_to_list). destruct (Hl id q Hin) as (k' & Hk' & Hzq).
    pose proof (Huniq k' q Hk' Hzq) as ->. assert (q = p) as -> by congruence.
    destruct (Hwf _ _ _ Hp) as (ctx' & Hctx' & Hkey). assert (ctx' = ctx) as -> by congruence.
    destruct (Hd Hcan id p ctx Hin Hctx) as [H1 H2]. unfold ctx_key in *. rewrite Hkey in H1, H2. auto.
Qed.

(** ** Opening a reservation *)

Section Open.
Variables (peer : NetAddress) (msg : OpenChannelMsg).
Local Abbreviation peerKey := (na_IdentityKey peer).
Local Abbreviation id := (om_PendingChannelID msg).
Local Abbreviation amt := (om_FundingAmount msg).

(** [f] with one more reservation, for the context [p]. *)
Definition filed (p : nat) (f : fundingManager) : gmap bytes (gmap bytes nat) :=
  <[newSerializedKey peerKey := <[id := p]> (default ∅ (fm_activeReservations f !! newSerializedKey peerKey))]>
    (fm_activeReservations f).

(** The channel is accepted: one new reservation, of this peer, with the time of its
    last update, and the answer with our requirements. *)
Definition accepted (f f' : fundingManager) : Prop :=
  exists reservation our now,
    fm_ctxs f' = fm_ctxs f ++ [mkReservationWithCtx reservation peer amt (Some now) false (ErrBuffer None)]
    /\ fm_activeReservations f' = filed (length (fm_ctxs f)) f
    /\ fm_log f' = fm_log f ++ [FSent peerKey (PAccept (fundingAccept msg amt (NumRequiredConfs amt (om_PushAmount msg)) our))].

(** The wallet or the connection failed after the reservation was filed. *)
Definition given_up (f f' : fundingManager) : Prop :=
  exists f1 ctx d, fm_ctxs f1 = fm_ctxs f ++ [ctx] /\ fm_activeReservations f1 = filed (length (fm_ctxs f)) f
    /\ fm_log f1 = fm_log f /\ length (fm_ctxs f') = length (fm_ctxs f1)
    /\ (fm_activeReservations f' = fm_activeReservations f1
        \/ fm_activeReservations f' = alter (delete id) (newSerializedKey peerKey) (fm_activeReservations f1))
    /\ (exists evs, fm_log f' = fm_log f1 ++ evs
        /\ Forall (fun ev => (exists r, ev = FCancelled r) \/ ev = FSent peerKey (PError (mkErrorMsg id d))) evs)
    /\ (cancels -> lookup_ctx (newSerializedKey peerKey) id f' = None).

Lemma ctxs_wf_filed r f f1 :
  ctxs_wf f -> rc_peerAddress r = peer -> fm_ctxs f1 = fm_ctxs f ++ [r] ->
  fm_activeReservations f1 = filed (length (fm_ctxs f)) f -> ctxs_wf f1.
Proof.
  intros Hwf Hr Hc Ha k id' p. unfold lookup_ctx. rewrite Ha, Hc. unfold filed.
  destruct (decide (newSerializedKey peerKey = k)) as [<-|Hne].
  - rewrite lookup_insert_eq. simpl. destruct (decide (id = id')) as [<-|Hid].
    + rewrite lookup_insert_eq. intros [= <-]. exists r. rewrite lookup_app_r, Nat.sub_diag by lia. by rewrite Hr.
    + rewrite lookup_insert_ne by done. intros Hp. destruct (Hwf (newSerializedKey peerKey) id' p) as (r' & Hr' & Hk).
      { unfold lookup_ctx. by destruct (fm_activeReservations f !! newSerializedKey peerKey). }
      exists r'. split; [by apply lookup_app_l_Some|done].
  - rewrite lookup_insert_ne by done. intros Hp. destruct (Hwf k id' p Hp) as (r' & Hr' & Hk).
    exists r'. split; [by apply lookup_app_l_Some|done].
Qed.

Lemma alter_last {A} (g : A -> A) l x : alter g (length l) (l ++ [x]) = l ++ [g x].
Proof.
  replace (length l) with (length l + 0)%nat by lia. by rewrite alter_app_r.
Qed.

Lemma swp_acceptReservation reservation f :
  ctxs_wf f ->
  swp (acceptReservation peer msg reservation (NumRequiredConfs amt (om_PushAmount msg)))
    (fun r f' => r = Ok tt /\ (accepted f f' \/ given_up f f')) f.
Proof.
  intros Hwf. unfold acceptReservation. apply swp_bind. eapply swp_eq; [done|]. apply swp_bind. eapply swp_eq; [done|].
  set (ctx := mkReservationWithCtx reservation peer amt None false (ErrBuffer None)).
  cbn beta iota. match goal with |- swp _ _ ?g => set (f1 := g) end.
  assert (forall env, ctxs_wf (fm_set_env env f1)) as Hwf1 by (intros env; by eapply (ctxs_wf_filed ctx f)).
  apply swp_deferred.
  assert (forall e env, swp (failFundingFlow peerKey id (FEOther e)) (fun r f2 => r = Ok tt /\
    swp (updateTimestamp (length (fm_ctxs f))) (fun r' f3 => r' = Ok tt /\ Ok tt = Ok tt /\ (accepted f f3 \/ given_up f f3)) f2)
    (fm_set_env env f1)) as Hfail.
  { intros e env. eapply swp_mono; [by apply swp_failFundingFlow|]. intros r f2 (-> & (Hc & Ha & Hl) & Hd). split; [done|].
    apply swp_bind. eapply swp_eq; [done|]. eapply swp_eq; [done|]. split; [done|]. split; [done|]. right.
    exists f1, ctx, (fail_data (FEOther e)). split; [done|]. split; [done|]. split; [done|].
    split; [cbn; rewrite length_alter, Hc; done|]. split; [done|]. split; [done|]. intros Hcan. by apply Hd. }
  apply swp_catch, swp_fm_call. intros [[]|e] env _; [|apply Hfail].
  apply swp_bind. eapply swp_eq; [done|]. apply swp_catch, swp_bind, swp_fm_call. intros [[]|e] env2 _; [|apply (Hfail e env2)].
  eapply swp_eq; [done|]. apply swp_ret. split; [done|]. apply swp_bind. eapply swp_eq; [done|]. eapply swp_eq; [done|].
  split; [done|]. split; [done|]. left. eexists reservation, _, _. cbn. rewrite alter_last. split; [done|]. by split.
Qed.

(** The outcomes of [handleFundingOpen], by the checks it makes in their order. *)
Definition open_post (f f' : fundingManager) : Prop :=
  if MaxPendingChannels <=? num_reservations (newSerializedKey peerKey) f
  then fail_post peerKey id [ErrMaxPendingChannels] f f'
  else match (IsSynced (fm_env f)).1 with
       | Ok true =>
           if maxFundingAmount <? amt then fail_post peerKey id [ErrChanTooLarge] f f'
           else accepted f f' \/ given_up f f' \/ exists d, fail_post peerKey id d f f'
       | _ => fail_post peerKey id [ErrSynchronizingChain] f f'
       end.

Lemma swp_handleFundingOpen f :
  ctxs_wf f -> swp (handleFundingOpen peer msg) (fun r f' => r = Ok tt /\ open_post f f') f.
Proof.
  intros Hwf. apply swp_bind. eapply swp_eq; [done|]. unfold open_post. cbv zeta.
  destruct (MaxPendingChannels <=? _).
  { eapply swp_mono; [by apply swp_failFundingFlow|]. by intros r f' (-> & ? & _). }
  apply swp_bind, swp_try, swp_fm_call. intros synced env E. rewrite E. cbn [fst].
  assert (forall e env, swp (failFundingFlow peerKey id e) (fun r f' => r = Ok tt /\ fail_post peerKey id (fail_data e) f f')
            (fm_set_env env f)) as Hfail.
  { intros e env'. eapply swp_mono; [by apply swp_failFundingFlow|]. by intros r f' (-> & ? & _). }
  destruct synced as [[|]|e]; [|apply Hfail|apply Hfail]. destruct (maxFundingAmount <? amt); [apply Hfail|].
  assert (forall e env, swp (failFundingFlow peerKey id e)
            (fun r f' => r = Ok tt /\ (accepted f f' \/ given_up f f' \/ exists d, fail_post peerKey id d f f'))
            (fm_set_env env f)) as Hfail'.
  { intros e env'. eapply swp_mono; [apply Hfail|]. intros r f' [-> ?]. eauto. }
  apply swp_catch, swp_fm_call. intros [reservation|e] env1 _; [|apply (Hfail' (FEOther e) env1)].
  apply swp_bind, swp_fm_do. intros [] env2 _. apply swp_catch, swp_fm_call.
  intros [[]|e] env3 _; [|apply (Hfail' (FEOther e) env3)]. apply swp_bind, swp_fm_do. intros [] env4 _.
  eapply swp_mono; [by apply swp_acceptReservation|]. intros r f' [-> H]. split; [done|]. destruct H as [H|H]; [left|right; left]; exact H.
Qed.

(** Neither outcome touches another reservation, and a new one is under the limit. *)
Lemma filed_post f f' :
  num_reservations (newSerializedKey peerKey) f < MaxPendingChannels ->
  fm_activeReservations f' = filed (length (fm_ctxs f)) f
  \/ fm_activeReservations f' = alter (delete id) (newSerializedKey peerKey) (filed (length (fm_ctxs f)) f) ->
  num_reservations (newSerializedKey peerKey) f' <= MaxPendingChannels
  /\ forall k id', (k, id') <> (newSerializedKey peerKey, id) -> lookup_ctx k id' f' = lookup_ctx k id' f.
Proof.
  intros Hn Ha. unfold num_reservations, filed in *. set (m := default ∅ (fm_activeReservations f !! newSerializedKey peerKey)) in *.
  assert (size (<[id := length (fm_ctxs f)]> m) <= S (size m))%nat as Hs.
  { rewrite map_size_insert. by destruct (m !! id); simpl; lia. }
  assert (size (delete id (<[id := length (fm_ctxs f)]> m)) <= size (<[id := length (fm_ctxs f)]> m))%nat as Hs2.
  { rewrite map_size_delete. destruct (_ !! id); simpl; lia. }
  split.
  - destruct Ha as [-> | ->]; [|rewrite lookup_alter_eq]; rewrite lookup_insert_eq; simpl; lia.
  - intros k id' Hne. unfold lookup_ctx. destruct (decide (newSerializedKey peerKey = k)) as [<-|Hk].
    + assert (id <> id') as Hid by congruence.
      assert ((<[id := length (fm_ctxs f)]> m) !! id' = (fm_activeReservations f !! newSerializedKey peerKey ≫= fun pm => pm !! id')) as Hl.
      { rewrite lookup_insert_ne by done. unfold m. by destruct (fm_activeReservations f !! newSerializedKey peerKey). }
      destruct Ha as [-> | ->]; [|rewrite lookup_alter_eq]; rewrite lookup_insert_eq; simpl; [done|].
      by rewrite lookup_delete_ne.
    + destruct Ha as [-> | ->]; [|rewrite lookup_alter_ne by done]; by rewrite lookup_insert_ne.
Qed.

Lemma unfiled_post d f f' :
  fail_post peerKey id d f f' ->
  num_reservations (newSerializedKey peerKey) f' <= num_reservations (newSerializedKey peerKey) f
  /\ forall k id', (k, id') <> (newSerializedKey peerKey, id) -> lookup_ctx k id' f' = lookup_ctx k id' f.
Proof.
  intros (_ & Ha & _). split; [|intros k id'; by apply lookup_ctx_other].
  unfold num_reservations. destruct Ha as [-> | ->]; [lia|]. rewrite lookup_alter_eq.
  destruct (fm_activeReservations f !! newSerializedKey peerKey) as [m|]; simpl; [|lia].
  rewrite map_size_delete. destruct (m !! id); simpl; lia.
Qed.
End Open.

(** C21: a request to open a channel, in any reachable state, is answered by exactly one
    of: the limit on pending channels, the missing synchronisation of the wallet, the
    limit on the size of a channel (each with its error code, checked in that order), a
    failure reported by the wallet or the connection, or acceptance, which files one new
    reservation for this peer and sends our contribution with the requirements for the
    funded amount.  The handler always returns; it never takes the peer above the limit
    of pending channels, and touches no reservation but the one it is about. *)
Theorem funding_open_correct db env peer msg f r f' :
  freachable db env f -> handleFundingOpen peer msg f = (r, f') ->
  r = Ok tt /\ open_post peer msg f f'
  /\ num_reservations (newSerializedKey (na_IdentityKey peer)) f'
     <= Z.max MaxPendingChannels (num_reservations (newSerializedKey (na_IdentityKey peer)) f)
  /\ forall k id, (k, id) <> (newSerializedKey (na_IdentityKey peer), om_PendingChannelID msg) ->
       lookup_ctx k id f' = lookup_ctx k id f.
Proof.
  intros Hr E. apply freachable_wf in Hr as (Hwf & _).
  destruct (swp_elim _ _ _ _ _ (swp_handleFundingOpen peer msg f Hwf) E) as [-> Hpost].
  split; [done|]. split; [done|]. unfold open_post in Hpost.
  set (n := num_reservations (newSerializedKey (na_IdentityKey peer)) f) in *.
  assert (forall d, fail_post (na_IdentityKey peer) (om_PendingChannelID msg) d f f' ->
    num_reservations (newSerializedKey (na_IdentityKey peer)) f' <= Z.max MaxPendingChannels n
    /\ forall k id, (k, id) <> (newSerializedKey (na_IdentityKey peer), om_PendingChannelID msg) ->
         lookup_ctx k id f' = lookup_ctx k id f) as Hf.
  { intros d Hd. apply unfiled_post in Hd as [H1 H2]. split; [lia|done]. }
  destruct (Z.leb_spec MaxPendingChannels n) as [Hle|Hlt]; [by eapply Hf|].
  destruct ((IsSynced (fm_env f)).1) as [[|]|e]; [|by eapply Hf..]. destruct (maxFundingAmount <? _); [by eapply Hf|].
  assert (fm_activeReservations f' = filed peer msg (length (fm_ctxs f)) f
    \/ fm_activeReservations f' = alter (delete (om_PendingChannelID msg)) (newSerializedKey (na_IdentityKey peer))
                                    (filed peer msg (length (fm_ctxs f)) f)
    \/ exists d, fail_post (na_IdentityKey peer) (om_PendingChannelID msg) d f f') as Hc.
  { destruct Hpost as [(? & ? & ? & _ & Ha & _) | [(f1 & ? & ? & _ & Ha1 & _ & _ & Ha & _) | Hd]]; [by left| |by right; right].
    rewrite Ha1 in Ha. destruct Ha as [-> | ->]; [by left|by right; left]. }
  destruct Hc as [Ha | [Ha | [d Hd]]]; [..|by eapply Hf];
    (destruct (filed_post peer msg f f' Hlt) as [H1 H2]; [by auto|]); (split; [lia|done]).
Qed.

End FundingProps.
