(* ===== verification/FundingExamples.v ===== *)
(** * The funding manager at work

    A concrete outside world, runs of the funding manager in it that show the
    hypotheses of the theorems can hold, and runs that do not end as intended. *)

From Stdlib Require Import ZArith Lia.
From Stdlib Require Import Init.Byte.
From stdpp Require Import base gmap countable strings numbers list.
From S2P Require Import Prelude Stream Tx Outputs Bolt BoltMap Effects Sweep OpeningState FundingManager FundingFlow.
From S2P Require Import ChannelOpening OpeningProps OpeningWait FundingSafe FundingProps.
Local Open Scope Z_scope.

Module FundingRuns.
#[local] Existing Instance toy_btcec.

(** ** A concrete outside world

    Its state is the number of sends to peers that will still fail, the time, the
    channels in the database and whether the wallet likes a peer's constraints. *)
Record fworld := mkFWorld {
  fw_offline : nat;
  fw_now : Z;
  fw_pending : list OpenChannel;
  fw_open : list OpenChannel;
  fw_constraints : bool
}.

Definition toy_chain : ChainEnv.
Proof.
  refine {|
    Env := fworld;
    GenSweepScript := fun e => (Ok (replicate 22 x01), e);
    EstimateFeePerVSize := fun _ e => (Ok 10, e);
    PublishTransaction := fun _ e => (Ok tt, e);
    RegisterConfirmationsNtfn := fun _ _ _ e => (Ok tt, e);
    GetBestBlock := fun e => (Ok 450, e);
    GenWitnessFunc := fun _ _ _ _ _ => Ok [[x01]];
    TxHash := fun _ => zeros 32
  |}.
  intros tx. done.
Defined.
#[local] Existing Instance toy_chain.

Definition key (k : bool) : PublicKey := k.
Definition us : PublicKey := key false.
Definition alice : PublicKey := key true.

Definition our_contribution : ChannelContribution := mkChannelContribution 0 us 573 0 0 1000 0 144 us us us us us.

(** A channel over the output [op] with the peer [alice]. *)
Definition toy_channel (op : OutPoint) (initiator : bool) : OpenChannel :=
  mkOpenChannel op (zeros 32) alice 0 initiator true (mkMsgTx 2 [] [] 0) 500 3 FFAnnounceChannel us alice 1000 100000 60000000 40000000.

Definition send (e : fworld) : res () * fworld :=
  match fw_offline e with
  | O => (Ok tt, e)
  | S n => (Err (ErrExternal 1), mkFWorld n (fw_now e) (fw_pending e) (fw_open e) (fw_constraints e))
  end.

#[local] Instance toy_funding : FundingEnv := {|
  Reservation := Z;
  LightningChannel := OpenChannel;
  IDKey := us;
  GenesisHash := replicate 32 x07;
  MaxPendingChannels := 2;
  ReservationTimeout := 600;
  PolicyMinHTLC := 1000;
  PolicyTimeLockDelta := 144;
  PolicyBaseFee := 1000;
  PolicyFeeRate := 1;
  NumRequiredConfs := fun _ _ => 3;
  RequiredRemoteDelay := fun _ => 144;
  RequiredRemoteChanReserve := fun amt => amt / 100;
  RequiredRemoteMaxValue := fun amt => amt * 1000;
  RequiredRemoteMaxHTLCs := fun _ => 483;
  XORKeyStream := fun nonce key => take 32 (nonce ++ key);
  TempChanIDSeed := replicate 32 x05;
  ReservationErrorText := fun _ => None;
  IsRouterRejection := fun _ => false;
  GrpcErrorf := fun code _ => ErrExternal (Z_of_byte code);
  ErrorCode_String := fun code => [code];
  Now := fw_now;
  Quitting := fun _ => false;
  IsSynced := fun e => (Ok true, e);
  InitChannelReservation := fun capacity _ _ _ _ _ _ _ _ e => (Ok capacity, e);
  SetNumConfsRequired := fun _ _ e => e;
  CommitConstraints := fun _ _ _ _ _ _ e => (if fw_constraints e then Ok tt else Err (ErrExternal 2), e);
  RegisterMinHTLC := fun _ _ e => e;
  ProcessSingleContribution := fun _ _ e => (Ok tt, e);
  ProcessContribution := fun _ _ e => (Ok tt, e);
  OurContribution := fun _ _ => our_contribution;
  FundingOutpoint := fun _ _ => toy_op 30;
  OurCommitSignature := fun _ _ => [x01];
  CompleteReservationSingle := fun _ op _ e => (Ok (toy_channel op false), e);
  CompleteReservation := fun _ _ e => (Ok (toy_channel (toy_op 30) true), e);
  Cancel := fun _ e => (Ok tt, e);
  NewSigFromRawSignature := fun s => Ok s;
  ToSignatureBytes := fun s => s;
  SignMessage := fun _ m e => (Ok m, e);
  NewSigFromSignature := fun s => Ok s;
  ChannelUpdate_DataToSign := fun _ => Ok [];
  ChannelAnnouncement_DataToSign := fun _ => Ok [];
  FetchPendingChannels := fun e => (Ok (fw_pending e), e);
  FetchAllChannels := fun e => (Ok (fw_open e), e);
  CloseChannel := fun _ e => (Ok tt, e);
  MarkAsOpen := fun _ _ e => (Ok tt, e);
  NewLightningChannel := fun ch e => (Ok ch, e);
  NextRevocationKey := fun _ e => (Ok us, e);
  FindChannel := fun _ e => (Ok (toy_channel (toy_op 30) false), e);
  RemoteNextRevocation := fun _ _ => None;
  ChanPoint := oc_FundingOutpoint;
  InitNextRevocation := fun _ _ e => (Ok tt, e);
  SendToPeer := fun _ _ => send;
  NotifyWhenOnline := fun _ e => (true, e);
  SendAnnouncement := fun _ e => (Ok tt, e);
  CurrentNodeAnnouncement := fun e => (Ok 1, e);
  WatchNewChannel := fun _ _ e => (Ok tt, e);
  ReportShortChanID := fun _ _ e => (Ok tt, e);
  FindPeer := fun _ e => (Ok tt, e);
  SendArbiter := fun _ e => (true, e);
  SendNewChannel := fun _ e => (true, e);
  RegisterBlockEpochNtfn := fun e => (Ok tt, e);
  AwaitConfirmed := fun _ _ e => (Ok (CConfirmed 506 1), e)
|}.

Definition quiet_world : fworld := mkFWorld 0 1000 [] [] true.
Definition at_time (t : Z) (e : fworld) : fworld :=
  mkFWorld (fw_offline e) t (fw_pending e) (fw_open e) (fw_constraints e).

Lemma run_ok {A B} (p : res A * B) :
  (match p.1 with Ok _ => true | Err _ => false end) = true -> exists a b, p = (Ok a, b).
Proof. destruct p as [[a|e] b]; [eauto|done]. Qed.

(** ** The opening record *)

Definition scid0 : ShortChannelID := mkShortChannelID 501 2 30.
Definition chan0 : OpenChannel := toy_channel (toy_op 30) false.

Lemma opening_state_correct_witness :
  getChannelOpeningState (toy_op 30)
    (foldl (fun db o => os_run o db) [] [OpSave (toy_op 30) markedOpen scid0; OpSave (toy_op 31) fundingLockedSent scid0;
                                         OpSave (toy_op 30) addedToRouterGraph scid0; OpDelete (toy_op 31)])
  = Ok (addedToRouterGraph, scid0).
Proof.
  rewrite opening_state_correct; [by vm_compute| |by_eval]. repeat constructor; by_eval.
Defined.

(** The database after the confirmation of [chan0]. *)
Definition db0 : bucket := (saveChannelOpeningState (oc_FundingOutpoint chan0) markedOpen scid0 []).2.
Definition st0 : OpeningStates := mkOpeningStates true {[ oc_FundingOutpoint chan0 := (markedOpen, scid0) ]}.

Lemma chan0_valid : OutPoint_ok (oc_FundingOutpoint chan0).
Proof. by_eval. Qed.
Lemma scid0_valid : ShortChannelID_ok scid0.
Proof. by_eval. Qed.

Lemma chan0_recorded : os_rel db0 st0.
Proof.
  destruct (saveChannelOpeningState_refines [] os_empty (oc_FundingOutpoint chan0) markedOpen scid0 os_rel_empty chan0_valid)
    as (db' & E & H); [split; [done|exact scid0_valid]|].
  unfold db0. rewrite E. exact H.
Qed.

Definition fm0 : fundingManager := newFundingManager db0 quiet_world.

Lemma opening_progress_witness :
  exists f', finishOpening 1 chan0 markedOpen scid0 fm0 = (Ok tt, f')
    /\ run_post chan0 markedOpen scid0 (os_states st0) fm0 (Ok tt) f'.
Proof.
  set (u := finishOpening 1 chan0 markedOpen scid0 fm0).
  assert (u = (Ok tt, u.2)) as E by (apply run_eq; by vm_compute).
  exists u.2. split; [exact E|].
  apply (opening_progress 1 chan0 markedOpen scid0 st0 fm0 (Ok tt) u.2);
    [exact chan0_recorded|exact chan0_valid|exact scid0_valid|by left|apply lookup_singleton_eq|exact E].
Defined.

(** At most [n] sends fail. *)
Definition reachable_within (n : nat) (e : fworld) : Prop := (fw_offline e <= n)%nat.

#[local] Instance toy_cooperates : Cooperates reachable_within.
Proof.
  split; try (intros; intros n e H; eexists _, e; split; [reflexivity|exact H]).
  - intros n. split; intros; by simplify_eq/=.
  - intros txid k n e H. exists 506, 1, e. done.
  - intros a n e H. exists (Ok tt), e. done.
  - intros peer msg n [o t p c b] H. unfold reachable_within in H. cbn in H. destruct o as [|o].
    + left. eexists. split; [reflexivity|]. unfold reachable_within. cbn. lia.
    + right. destruct n as [|n]; [lia|]. exists n, (ErrExternal 1). do 2 eexists.
      split; [done|]. split; [reflexivity|]. split; [reflexivity|]. unfold reachable_within. cbn. lia.
  - intros u. by eexists.
  - intros a. by eexists.
  - intros s. by eexists.
Qed.

(** There is a pending channel, and an open one whose opening is over.  The peer cannot be
    reached in the first run of the daemon, and is reached at the second attempt of the next
    one, in which the goroutines run in the opposite order. *)
Definition chan_old : OpenChannel := toy_channel (toy_op 32) true.
Definition chan_new : OpenChannel := toy_channel (toy_op 33) true.
Definition offline (n : nat) : fworld := mkFWorld n 1000 [chan_new] [chan_old; chan0] true.

Definition lists0 (e : fworld) : Prop := fw_open e = [chan_old; chan0].

#[local] Instance chan0_listed : Listed chan0 (os_states st0) lists0.
Proof.
  split; [split; intros; by simplify_eq/=|]. intros e chans e' H E. cbn in E. rewrite H in E. injection E as <- <-.
  exists [chan_old]. split; [done|]. constructor; [|constructor]. split; [by_eval|]. apply lookup_singleton_None. by vm_compute.
Qed.

Definition reopened : fundingManager :=
  foldl (fun f env => (restart 2 (@List.rev ftask) env f).2) fm0 ([offline 5] ++ [offline 1]).

Lemma opening_resumes_witness :
  getChannelOpeningState (oc_FundingOutpoint chan0) (fm_db reopened) = Err ErrChannelNotFound
  /\ remaining chan0 markedOpen = [KLocked; KChannel; KUpdate; KProof; KNode].
Proof.
  split; [|reflexivity].
  pose proof (opening_resumes (CE := toy_chain) (FE := toy_funding) reachable_within 2 (@List.rev ftask) 1 chan0 scid0 st0 lists0
                [offline 5] (offline 1) fm0 reopened) as H.
  specialize (H chan0_recorded).
  specialize (H chan0_valid scid0_valid (lookup_singleton_eq _ _)).
  assert (forall l : list ftask, List.rev l ≡ₚ l) as Hp by (intros l; symmetry; apply Permutation_rev).
  specialize (H Hp). assert (Forall lists0 ([offline 5] ++ [offline 1])) as Hf by (repeat constructor). specialize (H Hf).
  assert (reachable_within 1 (offline 1)) as Hr by (unfold reachable_within; simpl; lia).
  specialize (H Hr).
  assert (1 < 2)%nat as Hlt by lia. specialize (H Hlt).
  specialize (H eq_refl).
  apply H.
Defined.

(** ** Announcements *)

Lemma both_announce_same_witness :
  exists a1 a2 f1 f2,
    newChanAnnouncement us alice us alice scid0 [x01] 1 fm0 = (Ok a1, f1)
    /\ newChanAnnouncement alice us alice us scid0 [x01] 2 fm0 = (Ok a2, f2)
    /\ chanAnn a1 = chanAnn a2 /\ cu_Flags (chanUpdateAnn a1) = 1 - cu_Flags (chanUpdateAnn a2).
Proof.
  destruct (run_ok (newChanAnnouncement us alice us alice scid0 [x01] 1 fm0)) as (a1 & f1 & E1); [by vm_compute|].
  destruct (run_ok (newChanAnnouncement alice us alice us scid0 [x01] 2 fm0)) as (a2 & f2 & E2); [by vm_compute|].
  exists a1, a2, f1, f2. split; [exact E1|]. split; [exact E2|].
  assert (us <> alice) as Hne by discriminate.
  pose proof (both_announce_same us alice us alice scid0 [x01] 1 2 fm0 fm0 a1 a2 f1 f2 eq_refl Hne E1 E2) as (H1 & _ & H2 & _).
  split; [exact H1|exact H2].
Defined.

(** ** Forgetting a channel *)


(** ** Reservations *)

Definition peer_of (k : PublicKey) : NetAddress := mkNetAddress k 0.
Definition open_msg (id : bytes) (amt : Z) : OpenChannelMsg :=
  mkOpenChannelMsg (zeros 32) id amt 0 573 100000 1000 1000 2500 144 483 alice alice alice alice alice alice 1.
Definition id1 : bytes := replicate 32 x01.
Definition id2 : bytes := replicate 32 x02.

(** The daemon after its start, then with a reservation of [alice] made at time 1000. *)
Definition started : fundingManager := (Start (newFundingManager [] quiet_world)).2.
Definition opened : fundingManager := (handleFundingOpen (peer_of alice) (open_msg id1 100000) started).2.

Lemma started_reachable : freachable [] quiet_world started.
Proof. apply fr_start. unfold started. apply run_eq. by vm_compute. Qed.

Lemma round_reachable db env f i :
  freachable db env f -> (reservationCoordinator i f).1 = Ok tt -> freachable db env (reservationCoordinator i f).2.
Proof. intros H E. eapply fr_step; [exact H|]. eapply fs_coord. by apply run_eq. Qed.

Lemma opened_reachable : freachable [] quiet_world opened.
Proof. apply (round_reachable _ _ _ (InMsg (peer_of alice) (MOpen (open_msg id1 100000))) started_reachable). by vm_compute. Qed.

Lemma funding_open_correct_witness :
  (exists f', handleFundingOpen (peer_of alice) (open_msg id2 100000) opened = (Ok tt, f')
     /\ num_reservations (toy_pub true) f' <= 2)
  /\ num_reservations (toy_pub true) opened = 1.
Proof.
  split; [|by vm_compute].
  destruct (handleFundingOpen (peer_of alice) (open_msg id2 100000) opened) as [r f'] eqn:E.
  destruct (funding_open_correct (CE := toy_chain) (FE := toy_funding) [] quiet_world (peer_of alice) (open_msg id2 100000) opened r f' opened_reachable E)
    as (-> & _ & H & _).
  exists f'. split; [done|]. exact H.
Defined.

Definition later : fundingManager := fm_set_env (at_time 2000 quiet_world) opened.

Lemma later_reachable : freachable [] quiet_world later.
Proof. eapply fr_step; [exact opened_reachable|]. apply fs_env. Qed.

Lemma zombies_pruned_witness :
  lookup_ctx (toy_pub true) id1 later = Some 0%nat
  /\ exists f', pruneZombieReservations later = (Ok tt, f') /\ lookup_ctx (toy_pub true) id1 f' = None.
Proof.
  split; [by vm_compute|]. destruct (pruneZombieReservations later) as [r f'] eqn:E.
  destruct (zombies_pruned (CE := toy_chain) (FE := toy_funding) [] quiet_world later r f' later_reachable E) as (-> & _ & _ & H).
  exists f'. split; [done|]. clear E.
  assert (rc_lastUpdated <$> fm_ctxs later !! 0%nat = Some (Some 1000)) as Hu by (clear; vm_compute; reflexivity).
  destruct (fm_ctxs later !! 0%nat) as [ctx|] eqn:Hctx; [|discriminate Hu]. injection Hu as Hu.
  refine (proj1 (H _ (toy_pub true) id1 0%nat ctx _ Hctx _ _)).
  - intros r e. by exists e.
  - clear. vm_compute. reflexivity.
  - exists ctx, 1000. split; [exact Hctx|]. split; [exact Hu|]. clear. vm_compute. reflexivity.
  - intros k p Hk _. unfold lookup_ctx in Hk.
    assert (fm_activeReservations later = {[ toy_pub true := {[ id1 := 0%nat ]} ]}) as Ha by (clear; by_eval).
    rewrite Ha in Hk. destruct (decide (k = toy_pub true)) as [->|Hne]; [done|].
    by rewrite lookup_singleton_ne in Hk.
Defined.

Lemma coordinator_safe_witness :
  exists r f', reservationCoordinator (InMsg (peer_of alice) (MError (mkErrorMsg id1 [x01; x02]))) later = (r, f')
    /\ forall w, r <> Err (ErrPanic w).
Proof.
  destruct (reservationCoordinator (InMsg (peer_of alice) (MError (mkErrorMsg id1 [x01; x02]))) later) as [r f'] eqn:E.
  exists r, f'. split; [done|]. intros w Hr.
  destruct (coordinator_safe (CE := toy_chain) (FE := toy_funding) [] quiet_world later _ r f' later_reachable E) as [_ H].
  destruct (H w Hr) as (peer & err & [= <- <-] & Hd). discriminate Hd.
Defined.

(** A channel funded by [alice] whose FundingLocked message arrives. *)
Definition created : fundingManager :=
  (reservationCoordinator (InMsg (peer_of alice) (MCreated (mkFundingCreatedMsg id1 (toy_op 30) [x01]))) opened).2.
Definition chan_id : bytes := NewChanIDFromOutPoint (toy_op 30).

Lemma created_reachable : freachable [] quiet_world created.
Proof.
  apply (round_reachable _ _ _ (InMsg (peer_of alice) (MCreated (mkFundingCreatedMsg id1 (toy_op 30) [x01]))) opened_reachable).
  by vm_compute.
Qed.

Lemma barrier_closed_once_witness :
  fm_newChanBarriers created !! chan_id = Some 0%nat
  /\ exists f', run_task 1 (TLocked (peer_of alice) (mkFundingLockedMsg chan_id alice)) [] (remove_task 5 created) = (Ok tt, f')
     /\ barrier_post chan_id created f'.
Proof.
  split; [by vm_compute|].
  destruct (run_task 1 (TLocked (peer_of alice) (mkFundingLockedMsg chan_id alice)) [] (remove_task 5 created)) as [r f'] eqn:E.
  destruct (barrier_closed_once (CE := toy_chain) (FE := toy_funding) [] quiet_world created 5 (peer_of alice) (mkFundingLockedMsg chan_id alice) 1 [] r f'
    created_reachable E) as (-> & H & _).
  exists f'. done.
Defined.

(** ** Runs that do not end as intended *)

Definition bob : PublicKey := key false.
Definition rounds (inputs : list coord_input) (f : fundingManager) : fundingManager :=
  foldl (fun f i => (reservationCoordinator i f).2) f inputs.

(** Two channels wait for their announcement when the daemon restarts. *)
Definition chanA : OpenChannel := toy_channel (toy_op 30) false.
Definition chanB : OpenChannel := toy_channel (toy_op 31) false.
Definition scidA : ShortChannelID := mkShortChannelID 501 2 30.
Definition scidB : ShortChannelID := mkShortChannelID 502 1 31.
Definition db2 : bucket :=
  (saveChannelOpeningState (toy_op 31) addedToRouterGraph scidB
     (saveChannelOpeningState (toy_op 30) addedToRouterGraph scidA []).2).2.
Definition restarted : fundingManager :=
  (Start (newFundingManager db2 (mkFWorld 0 1000 [] [chanA; chanB] true))).2.
Definition resumed_all : fundingManager :=
  foldl (fun f t => (run_task 1 t [] f).2) (fm_set_tasks [] restarted) (fm_tasks restarted).
Definition proofs (l : list fund_event) : list (bytes * ShortChannelID) :=
  omap (fun ev => match ev with FAnnounced (AProof p) => Some (as_ChannelID p, as_ShortChannelID p) | _ => None end) l.

(** Both goroutines work on the last channel: the proof of [chanB] is sent with the
    location of [chanA] and again with its own, and [chanA] is never announced and keeps
    its record. *)
Example resume_wrong_channel :
  proofs (fm_log resumed_all)
    = [(NewChanIDFromOutPoint (toy_op 31), scidA); (NewChanIDFromOutPoint (toy_op 31), scidB)]
  /\ getChannelOpeningState (toy_op 30) (fm_db resumed_all) = Ok (addedToRouterGraph, scidA).
Proof. split; by_eval. Qed.

(** An error message without data for a known reservation stops the daemon. *)
Example empty_error_panics :
  (reservationCoordinator (InMsg (peer_of alice) (MError (mkErrorMsg id1 []))) opened).1
  = Err (ErrPanic "index out of range").
Proof. by_eval. Qed.

Definition is_cancelled (ev : fund_event) : bool := match ev with FCancelled _ => true | _ => false end.

(** A reservation whose constraints the wallet refuses is neither filed nor cancelled. *)
Definition refused : fundingManager :=
  (handleFundingOpen (peer_of alice) (open_msg id1 100000)
     (newFundingManager [] (mkFWorld 0 1000 [] [] false))).2.

Example refused_never_cancelled :
  lookup_ctx (toy_pub true) id1 refused = None
  /\ map is_cancelled (fm_log refused) = [false] /\ (reservationCoordinator InZombieTick refused).1 = Ok tt
  /\ map is_cancelled (fm_log (reservationCoordinator InZombieTick refused).2) = [false].
Proof. repeat split; by_eval. Qed.

(** Two peers with overdue reservations of the same id: one sweep drops only one. *)
Definition colliding : fundingManager :=
  fm_set_env (at_time 2000 quiet_world)
    (rounds [InMsg (peer_of alice) (MOpen (open_msg id1 100000)); InMsg (peer_of bob) (MOpen (open_msg id1 100000))] started).

Example zombie_collision :
  num_reservations (toy_pub true) colliding + num_reservations (toy_pub false) colliding = 2
  /\ num_reservations (toy_pub true) (pruneZombieReservations colliding).2
     + num_reservations (toy_pub false) (pruneZombieReservations colliding).2 = 1.
Proof. split; by_eval. Qed.

(** A peer that completes two reservations with the same funding outpoint stops the
    daemon when the transaction confirms. *)
Definition twice : fundingManager :=
  rounds [InMsg (peer_of alice) (MOpen (open_msg id1 100000)); InMsg (peer_of alice) (MOpen (open_msg id2 100000));
          InMsg (peer_of alice) (MCreated (mkFundingCreatedMsg id1 (toy_op 30) [x01]));
          InMsg (peer_of alice) (MCreated (mkFundingCreatedMsg id2 (toy_op 30) [x01]))] started.
Definition confirm : list wait_event := [WConf (CConfirmed 506 1)].
Fixpoint results (ts : list ftask) (f : fundingManager) : list (res ()) :=
  match ts with
  | [] => []
  | t :: ts => let u := run_task 1 t confirm f in u.1 :: results ts u.2
  end.

Example duplicate_outpoint_panics :
  results (fm_tasks twice) (fm_set_tasks [] twice) = [Ok tt; Err (ErrPanic "close of closed channel")].
Proof. by_eval. Qed.

(** Another peer that knows the channel id of a flow ends it. *)
Definition funding : fundingManager :=
  rounds [InRequest (peer_of alice) (mkOpenChanReq alice (zeros 32) 100000 0 0 10 false 0 0);
          InMsg (peer_of alice) (MAccept (mkAcceptChannelMsg (zeros 8 ++ replicate 24 x05) 573 100000 1000 3 1000 144 483
            alice alice alice alice alice alice))] started.
Definition signed (peer : PublicKey) : coord_input :=
  InMsg (peer_of peer) (MSigned (mkFundingSignedMsg (NewChanIDFromOutPoint (toy_op 30)) [x01])).

Example signed_by_another :
  length (fm_tasks (rounds [signed alice] funding)) = 1%nat
  /\ length (fm_tasks (rounds [signed bob; signed alice] funding)) = 0%nat
  /\ num_reservations (toy_pub true) (rounds [signed bob; signed alice] funding) = 1.
Proof. repeat split; by_eval. Qed.

(** After the timeout the peer's reservation is still there, and locked against the
    sweeper. *)
Definition timed_out : fundingManager :=
  (run_task 1 (TCreated alice id1 chan0) [WEpoch 788] (fm_set_env (at_time 5000 quiet_world) created)).2.

Example timeout_keeps_reservation :
  map (fun ev => match ev with FClosedChannel _ => true | _ => false end) (fm_log timed_out) = [false; false; true]
  /\ num_reservations (toy_pub true) (pruneZombieReservations timed_out).2 = 1.
Proof. split; by_eval. Qed.
End FundingRuns.
