(* ===== verification/BreachArbiter.v ===== *)
(** * The breach arbiter

    The part of breacharbiter.go that acts: turning a breach into a retribution
    state, the justice transaction, the goroutine that exacts retribution, the
    observers of single channels and the loop that manages them, and the restart.

    The retribution store is the interface [RetributionStore]; wallet, signer and
    notifier are [ChainEnv], and the rest of the outside world is [BreachEnv].  A
    non-blocking receive or a [select] with the quit channel asks the outside world
    which case is ready.  [ba_log] records, in order, what the arbiter did to the
    outside and to the store, every broadcast with the store as it was then. *)

From Stdlib Require Import ZArith Lia.
From Stdlib Require Import Init.Byte.
From stdpp Require Import base gmap countable strings numbers list.
From S2P Require Import Prelude Stream Tx Outputs RetributionStore Effects Sweep.
Local Open Scope Z_scope.

(** What a non-blocking receive on a spend notification finds. *)
Inductive spend_poll := NotSpent | SpendClosed | SpentBy (tx : MsgTx).

Class BreachEnv {BTC : Btcec} {CE : ChainEnv} := {
  RegisterSpendNtfn : OutPoint -> Z -> ST Env ();
  PollSpend : OutPoint -> ST Env spend_poll;
  Quitting : ST Env bool;
  AwaitConfirmation : bytes -> ST Env bool;
  MarkChanFullyClosed : OutPoint -> ST Env ();
  SendACK : OutPoint -> res () -> ST Env bool;
  SendBreached : ST Env bool;
  SubscribeChannelEvents : OutPoint -> ST Env ();
  FetchClosedChannelSummaries : ST Env (list (OutPoint * bool));
  FetchAllChannels : ST Env (list OutPoint)
}.

Section Breach.
Context {BTC : Btcec} {CE : ChainEnv}.

(** ** Retribution states *)

Record HtlcRetribution := mkHtlcRetribution {
  hr_SignDesc : SignDescriptor;
  hr_OutPoint : OutPoint;
  hr_SecondLevelWitnessScript : bytes;
  hr_IsIncoming : bool
}.

Record BreachRetribution := mkBreachRetribution {
  br_BreachTransaction : MsgTx;
  br_BreachHeight : Z;
  br_ChainHash : bytes;
  br_LocalOutputSignDesc : option SignDescriptor;
  br_LocalOutpoint : OutPoint;
  br_RemoteOutputSignDesc : option SignDescriptor;
  br_RemoteOutpoint : OutPoint;
  br_HtlcRetributions : list HtlcRetribution
}.

Definition newRetributionInfo (chanPoint : OutPoint) (breachInfo : BreachRetribution) : retributionInfo :=
  let breachedOutputs := match br_LocalOutputSignDesc breachInfo with
    | Some sd => [makeBreachedOutput (br_LocalOutpoint breachInfo) CommitmentNoDelay [] sd]
    | None => []
    end in
  let breachedOutputs := breachedOutputs ++ match br_RemoteOutputSignDesc breachInfo with
    | Some sd => [makeBreachedOutput (br_RemoteOutpoint breachInfo) CommitmentRevoke [] sd]
    | None => []
    end in
  let breachedOutputs := foldl (fun outs breachedHtlc =>
    let htlcWitnessType := if hr_IsIncoming breachedHtlc then HtlcAcceptedRevoke else HtlcOfferedRevoke in
    outs ++ [makeBreachedOutput (hr_OutPoint breachedHtlc) htlcWitnessType
               (hr_SecondLevelWitnessScript breachedHtlc) (hr_SignDesc breachedHtlc)])
    breachedOutputs (br_HtlcRetributions breachInfo) in
  mkRetributionInfo (TxHash (br_BreachTransaction breachInfo)) chanPoint (br_ChainHash breachInfo)
    (br_BreachHeight breachInfo) breachedOutputs.

(** The output of a second level transaction takes the place of the HTLC it
    spends.  [TxOut[0]] panics on a transaction without outputs. *)
Definition convertToSecondLevelRevoke (bo : breachedOutput) (spendingTx : MsgTx) : res breachedOutput :=
  match tx_TxOut spendingTx with
  | [] => Err (ErrPanic "index out of range")
  | o :: _ =>
      let newAmt := txo_Value o in
      let sd := bo_signDesc bo in
      let signDesc := mkSignDescriptor (sd_Family sd) (sd_Index sd) (sd_PubKey sd) (sd_SingleTweak sd)
        (sd_DoubleTweak sd) (bo_secondLevelWitnessScript bo)
        (mkTxOut newAmt (txo_PkScript (sd_Output sd))) (sd_HashType sd) in
      Ok (mkBreachedOutput newAmt (mkOutPoint (TxHash spendingTx) 0) HtlcSecondLevelRevoke signDesc
            (bo_secondLevelWitnessScript bo))
  end.

(** ** The justice transaction *)

Definition sweepSpendableOutputsTxn (txVSize : Z) (inputs : list breachedOutput) : ST Env MsgTx :=
  pkScript ← GenSweepScript;
  let totalAmt := sum_amounts 0 inputs in
  feePerVSize ← EstimateFeePerVSize 2;
  let txFee := FeeForVSize feePerVSize txVSize in
  let sweepAmt := i64 (totalAmt - txFee) in
  let txn := AddTxOut (mkTxOut sweepAmt pkScript) (NewMsgTx 2) in
  let txn := foldl (fun txn input => AddTxIn (mkTxIn (bo_outpoint input) [] [] 0) txn) txn inputs in
  _ ← st_res (CheckTransactionSanity txn);
  let hashCache := txn in
  st_res (add_witnesses hashCache 0 inputs txn).

Definition witnessWeight (input : breachedOutput) : option Z :=
  let wt := bo_witnessType input in
  if wt =? CommitmentNoDelay then Some P2WKHWitnessSize
  else if wt =? CommitmentRevoke then Some ToLocalPenaltyWitnessSize
  else if wt =? HtlcOfferedRevoke then Some OfferedHtlcPenaltyWitnessSize
  else if wt =? HtlcAcceptedRevoke then Some AcceptedHtlcPenaltyWitnessSize
  else if wt =? HtlcSecondLevelRevoke then Some SecondLevelHtlcPenaltyWitnessSize
  else None.

Definition createJusticeTx (r : retributionInfo) : ST Env MsgTx :=
  let '(spendableOutputs, weightEstimate) :=
    foldl (fun acc input =>
      let '(outs, w) := acc in
      match witnessWeight input with
      | Some weight => (outs ++ [input], AddWitnessInput w weight)
      | None => acc
      end) ([], AddP2WKHOutput empty_estimate) (ret_breachedOutputs r) in
  let txVSize := VSize weightEstimate in
  sweepSpendableOutputsTxn txVSize spendableOutputs.

(** ** Exacting retribution *)

Context {BE : BreachEnv} (RS : RetributionStore).

Inductive breach_event :=
| BPublish (tx : MsgTx) (db : RS_db RS) (r : res ())
| BMarkClosed (cp : OutPoint)
| BRemove (cp : OutPoint).

Record arbiter := mkArbiter {
  ba_db : RS_db RS;
  ba_env : Env;
  ba_log : list breach_event
}.

Definition BA : Type -> Type := ST arbiter.

Definition ba_set_db (db : RS_db RS) (a : arbiter) : arbiter := mkArbiter db (ba_env a) (ba_log a).
Definition ba_set_env (e : Env) (a : arbiter) : arbiter := mkArbiter (ba_db a) e (ba_log a).
Definition ba_event (ev : breach_event) (a : arbiter) : arbiter := mkArbiter (ba_db a) (ba_env a) (ba_log a ++ [ev]).

Definition ba_store {A} (f : RS_db RS -> res A * RS_db RS) : BA A := st_zoom ba_db ba_set_db f.
Definition ba_query {A} (f : RS_db RS -> res A) : BA A := fun a => (f (ba_db a), a).
Definition ba_call {A} (m : ST Env A) : BA A := st_zoom ba_env ba_set_env m.

Definition ba_publish (tx : MsgTx) : BA () :=
  r ← st_try (ba_call (PublishTransaction tx));
  _ ← st_upd (fun a => ba_event (BPublish tx (ba_db a) r) a);
  st_res r.

(** The loop over the breached outputs that looks for second level spends.  [None]
    is an early return of the goroutine; [spendNtfns] is the set of outpoints with a
    registered notification. *)
Fixpoint secondLevelCheck (breachHeight : Z) (spendNtfns : gset OutPoint) (outs : list breachedOutput)
    : BA (option (list breachedOutput * gset OutPoint)) :=
  match outs with
  | [] => mret (Some ([], spendNtfns))
  | bo :: outs =>
      let skip := r ← secondLevelCheck breachHeight spendNtfns outs;
                  mret (prod_map (cons bo) id <$> r) in
      if negb (bo_witnessType bo =? HtlcAcceptedRevoke) && negb (bo_witnessType bo =? HtlcOfferedRevoke)
      then skip
      else
        registered ← (if decide (bo_outpoint bo ∈ spendNtfns) then mret (Ok tt)
                      else st_try (ba_call (RegisterSpendNtfn (bo_outpoint bo) breachHeight)));
        match registered with
        | Err _ => quit ← ba_call Quitting; if (quit : bool) then mret None else skip
        | Ok _ =>
            let spendNtfns := {[ bo_outpoint bo ]} ∪ spendNtfns in
            poll ← ba_call (PollSpend (bo_outpoint bo));
            match poll with
            | SpendClosed => mret None
            | NotSpent => r ← secondLevelCheck breachHeight spendNtfns outs;
                          mret (prod_map (cons bo) id <$> r)
            | SpentBy tx =>
                bo' ← st_res (convertToSecondLevelRevoke bo tx);
                r ← secondLevelCheck breachHeight (spendNtfns ∖ {[ bo_outpoint bo ]}) outs;
                mret (prod_map (cons bo') id <$> r)
            end
        end
  end.

Definition with_outputs (r : retributionInfo) (outs : list breachedOutput) : retributionInfo :=
  mkRetributionInfo (ret_commitHash r) (ret_chanPoint r) (ret_chainHash r) (ret_breachHeight r) outs.

Inductive outcome := Returned | OutOfFuel.

#[global] Instance outcome_eq_dec : EqDecision outcome.
Proof. solve_decision. Defined.

(** After the broadcast: wait for the justice transaction, close the channel, and
    forget the retribution. *)
Definition serveJustice (breachInfo : retributionInfo) (finalTx : MsgTx) (breachConfHeight : Z) : BA outcome :=
  let justiceTXID := TxHash finalTx in
  registered ← st_try (ba_call (RegisterConfirmationsNtfn justiceTXID 1 breachConfHeight));
  match registered with
  | Err _ => mret Returned
  | Ok _ =>
      confirmed ← ba_call (AwaitConfirmation justiceTXID);
      if (confirmed : bool) then
        err ← st_try (ba_call (MarkChanFullyClosed (ret_chanPoint breachInfo)));
        match err with
        | Err _ => mret Returned
        | Ok _ =>
            _ ← st_upd (ba_event (BMarkClosed (ret_chanPoint breachInfo)));
            _ ← st_upd (ba_event (BRemove (ret_chanPoint breachInfo)));
            _ ← st_try (ba_store (RS_Remove RS (ret_chanPoint breachInfo)));
            mret Returned
        end
      else mret Returned
  end.

(** From the label [secondLevelCheck] on; the [goto] back to it costs fuel. *)
Fixpoint exactLoop (fuel : nat) (breachConfHeight : Z) (breachInfo : retributionInfo)
    (finalTx : option MsgTx) (spendNtfns : gset OutPoint) : BA outcome :=
  match fuel with
  | O => mret OutOfFuel
  | S fuel =>
      prepared ← (match finalTx with
        | Some tx => mret (Some (breachInfo, tx, spendNtfns))
        | None =>
            checked ← secondLevelCheck (ret_breachHeight breachInfo) spendNtfns (ret_breachedOutputs breachInfo);
            match checked with
            | None => mret None
            | Some (outs, spendNtfns) =>
                let breachInfo := with_outputs breachInfo outs in
                created ← st_try (ba_call (createJusticeTx breachInfo));
                match created with
                | Err _ => mret None
                | Ok tx =>
                    err ← st_try (ba_store (RS_Finalize RS (ret_chanPoint breachInfo) tx));
                    match err with
                    | Err _ => mret None
                    | Ok _ => mret (Some (breachInfo, tx, spendNtfns))
                    end
                end
            end
        end);
      match prepared with
      | None => mret Returned
      | Some (breachInfo, tx, spendNtfns) =>
          err ← st_try (ba_publish tx);
          if decide (err = Err ErrDoubleSpend) then
            quit ← ba_call Quitting;
            if (quit : bool) then mret Returned
            else exactLoop fuel breachConfHeight breachInfo None spendNtfns
          else serveJustice breachInfo tx breachConfHeight
      end
  end.

(** [conf] is what the notification for the breach transaction delivers. *)
Definition exactRetribution (fuel : nat) (conf : option Z) (breachInfo : retributionInfo) : BA outcome :=
  match conf with
  | None => mret Returned
  | Some breachConfHeight =>
      finalTx ← st_try (ba_query (RS_GetFinalizedTxn RS (ret_chanPoint breachInfo)));
      match finalTx with
      | Err _ => mret Returned
      | Ok finalTx => exactLoop fuel breachConfHeight breachInfo finalTx ∅
      end
  end.

(** ** Watching channels

    The state of the [contractObserver] loop: the map of settle signals, with
    signals numbered in the order they are made, the goroutines it has started, and
    what they want to send to it. *)

Record watch := mkWatch {
  w_arb : arbiter;
  w_breachObservers : gmap OutPoint nat;
  w_nextSignal : nat;
  w_closedSignals : gset nat;
  w_running : list (OutPoint * nat);
  w_settling : list OutPoint;
  w_breached : list retributionInfo;
  w_tasks : list retributionInfo;
  w_closedLinks : list OutPoint
}.

Definition WA : Type -> Type := ST watch.

Definition w_set_arb (a : arbiter) (w : watch) : watch :=
  mkWatch a (w_breachObservers w) (w_nextSignal w) (w_closedSignals w) (w_running w) (w_settling w)
    (w_breached w) (w_tasks w) (w_closedLinks w).
Definition w_set_observers (m : gmap OutPoint nat) (w : watch) : watch :=
  mkWatch (w_arb w) m (w_nextSignal w) (w_closedSignals w) (w_running w) (w_settling w)
    (w_breached w) (w_tasks w) (w_closedLinks w).
Definition w_add_closed (s : nat) (w : watch) : watch :=
  mkWatch (w_arb w) (w_breachObservers w) (w_nextSignal w) ({[ s ]} ∪ w_closedSignals w) (w_running w)
    (w_settling w) (w_breached w) (w_tasks w) (w_closedLinks w).
Definition w_run (cp : OutPoint) (s : nat) (w : watch) : watch :=
  mkWatch (w_arb w) (w_breachObservers w) (w_nextSignal w) (w_closedSignals w) (w_running w ++ [(cp, s)])
    (w_settling w) (w_breached w) (w_tasks w) (w_closedLinks w).
Definition w_settle (cp : OutPoint) (w : watch) : watch :=
  mkWatch (w_arb w) (w_breachObservers w) (w_nextSignal w) (w_closedSignals w) (w_running w)
    (w_settling w ++ [cp]) (w_breached w) (w_tasks w) (w_closedLinks w).
Definition w_send_breached (r : retributionInfo) (w : watch) : watch :=
  mkWatch (w_arb w) (w_breachObservers w) (w_nextSignal w) (w_closedSignals w) (w_running w)
    (w_settling w) (w_breached w ++ [r]) (w_tasks w) (w_closedLinks w).
Definition w_task (r : retributionInfo) (w : watch) : watch :=
  mkWatch (w_arb w) (w_breachObservers w) (w_nextSignal w) (w_closedSignals w) (w_running w)
    (w_settling w) (w_breached w) (w_tasks w ++ [r]) (w_closedLinks w).
Definition w_close_link (cp : OutPoint) (w : watch) : watch :=
  mkWatch (w_arb w) (w_breachObservers w) (w_nextSignal w) (w_closedSignals w) (w_running w)
    (w_settling w) (w_breached w) (w_tasks w) (w_closedLinks w ++ [cp]).

Definition w_arbiter {A} (m : BA A) : WA A := st_zoom w_arb w_set_arb m.

(** [make(chan struct{})] and [close]; closing a channel twice panics. *)
Definition makeSignal : WA nat := fun w =>
  (Ok (w_nextSignal w),
   mkWatch (w_arb w) (w_breachObservers w) (S (w_nextSignal w)) (w_closedSignals w) (w_running w)
     (w_settling w) (w_breached w) (w_tasks w) (w_closedLinks w)).

Definition closeSignal (s : nat) : WA () := fun w =>
  if decide (s ∈ w_closedSignals w) then (Err (ErrPanic "close of closed channel"), w)
  else (Ok tt, w_add_closed s w).

(** The cases of the [contractObserver] loop. *)
Definition onBreached (breachInfo : retributionInfo) : WA () :=
  registered ← st_try (w_arbiter (ba_call (RegisterConfirmationsNtfn (ret_commitHash breachInfo) 1
                                             (ret_breachHeight breachInfo))));
  match registered with
  | Err _ => mret tt
  | Ok _ =>
      _ ← st_upd (w_task breachInfo);
      st_upd (fun w => w_set_observers (delete (ret_chanPoint breachInfo) (w_breachObservers w)) w)
  end.

(** When the subscription fails, the goroutine is started with a nil one, and its
    first statement dereferences it. *)
Definition onNewContract (chanPoint : OutPoint) : WA () :=
  settleSignal ← makeSignal;
  w ← st_get;
  _ ← (match w_breachObservers w !! chanPoint with
       | Some oldSignal => closeSignal oldSignal
       | None => mret tt
       end);
  _ ← st_upd (fun w => w_set_observers (<[chanPoint := settleSignal]> (w_breachObservers w)) w);
  chainEvents ← st_try (w_arbiter (ba_call (SubscribeChannelEvents chanPoint)));
  match chainEvents with
  | Ok _ => st_upd (w_run chanPoint settleSignal)
  | Err _ => st_fail (ErrPanic "nil pointer dereference")
  end.

Definition onSettled (chanPoint : OutPoint) : WA () :=
  w ← st_get;
  match w_breachObservers w !! chanPoint with
  | None => mret tt
  | Some killSignal =>
      _ ← closeSignal killSignal;
      st_upd (fun w => w_set_observers (delete chanPoint (w_breachObservers w)) w)
  end.

(** The loop at the start of [contractObserver]. *)
Definition watchChannels (channelEvents : list OutPoint) : WA () :=
  st_iter (fun chanPoint =>
    settleSignal ← makeSignal;
    _ ← st_upd (fun w => w_set_observers (<[chanPoint := settleSignal]> (w_breachObservers w)) w);
    st_upd (w_run chanPoint settleSignal)) channelEvents.

(** What a [breachObserver] can receive. *)
Inductive chain_event := ESettled | ECooperative | EUnilateral | EBreach (info : BreachRetribution).

Definition breachObserver (chanPoint : OutPoint) (ev : chain_event) : WA () :=
  match ev with
  | ESettled => mret tt
  | ECooperative | EUnilateral =>
      _ ← st_upd (w_settle chanPoint);
      st_upd (w_close_link chanPoint)
  | EBreach breachInfo =>
      _ ← st_upd (w_close_link chanPoint);
      let retInfo := newRetributionInfo chanPoint breachInfo in
      err ← st_try (w_arbiter (ba_store (RS_Add RS retInfo)));
      acked ← w_arbiter (ba_call (SendACK chanPoint err));
      if negb acked then mret tt else
      match err with
      | Err _ => mret tt
      | Ok _ =>
          sent ← w_arbiter (ba_call SendBreached);
          if (sent : bool) then st_upd (w_send_breached retInfo) else mret tt
      end
  end.

(** ** Restart *)

Definition removeClosed (breachRetInfos : gmap OutPoint retributionInfo) (closedChans : list (OutPoint * bool))
    : BA (gmap OutPoint retributionInfo) :=
  (fix go (m : gmap OutPoint retributionInfo) (l : list (OutPoint * bool)) : BA (gmap OutPoint retributionInfo) :=
     match l with
     | [] => mret m
     | (chanPoint, isPending) :: l =>
         if (isPending : bool) then go m l
         else match m !! chanPoint with
              | None => go m l
              | Some _ => _ ← ba_store (RS_Remove RS chanPoint); go (delete chanPoint m) l
              end
     end) breachRetInfos closedChans.

Fixpoint subscribeAll (breachRetInfos : gmap OutPoint retributionInfo) (activeChannels : list OutPoint)
    : BA (list OutPoint) :=
  match activeChannels with
  | [] => mret []
  | chanPoint :: l =>
      match breachRetInfos !! chanPoint with
      | Some _ => subscribeAll breachRetInfos l
      | None =>
          _ ← ba_call (SubscribeChannelEvents chanPoint);
          channelsToWatch ← subscribeAll breachRetInfos l;
          mret (chanPoint :: channelsToWatch)
      end
  end.

(** [order] is the order in which Go iterates over the map of retributions. *)
Definition Start (order : list retributionInfo -> list retributionInfo) : WA () :=
  breachRetInfos ← w_arbiter (ba_query (RS_ForAll RS (gmap OutPoint retributionInfo)
                     (fun m ret => Ok (<[ret_chanPoint ret := ret]> m)) ∅));
  closedChans ← w_arbiter (ba_call FetchClosedChannelSummaries);
  breachRetInfos ← w_arbiter (removeClosed breachRetInfos closedChans);
  active ← st_try (w_arbiter (ba_call FetchAllChannels));
  activeChannels ← (match active with
                    | Ok l => mret l
                    | Err e => if decide (e = ErrNoActiveChannels) then mret [] else st_fail e
                    end : WA (list OutPoint));
  channelsToWatch ← w_arbiter (subscribeAll breachRetInfos activeChannels);
  _ ← st_iter (fun retInfo =>
        _ ← w_arbiter (ba_call (RegisterConfirmationsNtfn (ret_commitHash retInfo) 1 (ret_breachHeight retInfo)));
        st_upd (w_task retInfo)) (order (map snd (map_to_list breachRetInfos)));
  watchChannels channelsToWatch.

(** ** The running arbiter *)

Definition newBreachArbiter (a : arbiter) : watch := mkWatch a ∅ 0 ∅ [] [] [] [] [].

Inductive wstep : watch -> watch -> Prop :=
| wstep_event w i cp s ev r w' :
    w_running w !! i = Some (cp, s) -> (ev = ESettled -> s ∈ w_closedSignals w) ->
    breachObserver cp ev
      (mkWatch (w_arb w) (w_breachObservers w) (w_nextSignal w) (w_closedSignals w) (delete i (w_running w))
         (w_settling w) (w_breached w) (w_tasks w) (w_closedLinks w)) = (r, w') -> wstep w w'
| wstep_breached w i ret r w' :
    w_breached w !! i = Some ret ->
    onBreached ret
      (mkWatch (w_arb w) (w_breachObservers w) (w_nextSignal w) (w_closedSignals w) (w_running w)
         (w_settling w) (delete i (w_breached w)) (w_tasks w) (w_closedLinks w)) = (r, w') -> wstep w w'
| wstep_new w cp r w' : onNewContract cp w = (r, w') -> wstep w w'
| wstep_settled w i cp r w' :
    w_settling w !! i = Some cp ->
    onSettled cp
      (mkWatch (w_arb w) (w_breachObservers w) (w_nextSignal w) (w_closedSignals w) (w_running w)
         (delete i (w_settling w)) (w_breached w) (w_tasks w) (w_closedLinks w)) = (r, w') -> wstep w w'.

Inductive watching : watch -> Prop :=
| watching_start a order w : Start order (newBreachArbiter a) = (Ok tt, w) -> watching w
| watching_step w w' : watching w -> wstep w w' -> watching w'.

End Breach.
