(* ===== verification/BreachProps.v ===== *)
(** * Properties of the breach arbiter

    Proved against the interface of the retribution store: the justice transaction
    takes everything, nothing is broadcast that was not recorded first, and the
    record of a breach is only dropped when justice was served. *)

From Stdlib Require Import ZArith Lia.
From stdpp Require Import base gmap countable strings numbers list.
From S2P Require Import Prelude Stream Tx Outputs Bolt RetributionStore Effects Sweep BreachArbiter.
Local Open Scope Z_scope.

Section Justice.
Context {BTC : Btcec} {CE : ChainEnv}.

(** ** The justice transaction *)

Definition punishable (o : breachedOutput) : Prop := is_Some (witnessWeight o).

Definition spendable (r : retributionInfo) : list breachedOutput :=
  filter (fun o => is_Some (witnessWeight o)) (ret_breachedOutputs r).

Definition justice_inputs (r : retributionInfo) : list (breachedOutput * Z) := map (fun o => (o, 0)) (spendable r).
Definition justice_weights (r : retributionInfo) : list Z := omap witnessWeight (ret_breachedOutputs r).
Definition justice_amount (r : retributionInfo) : Z := sum_Z (map bo_amt (spendable r)).
Definition justice_fee (rate : Z) (r : retributionInfo) : Z := rate * VSize (estimate (justice_weights r)).

Lemma justice_split l a t :
  foldl (fun acc input => let '(outs, w) := acc in
      match witnessWeight input with
      | Some weight => (outs ++ [input], AddWitnessInput w weight) | None => acc end) (a, t) l
  = (a ++ filter (fun o => is_Some (witnessWeight o)) l, foldl AddWitnessInput t (omap witnessWeight l)).
Proof.
  revert a t. induction l as [|o l IH]; intros a t; [by rewrite app_nil_r|].
  cbn [foldl]. rewrite filter_cons.
  change (omap witnessWeight (o :: l)) with
    (match witnessWeight o with Some y => y :: omap witnessWeight l | None => omap witnessWeight l end).
  destruct (witnessWeight o) as [y|] eqn:E.
  - rewrite decide_True by eauto. rewrite IH. by rewrite <- app_assoc.
  - rewrite decide_False by (intros []; congruence). apply IH.
Qed.

Lemma weights_length l : length (omap witnessWeight l) = length (filter (fun o => is_Some (witnessWeight o)) l).
Proof.
  induction l as [|o l IH]; [done|]. rewrite filter_cons.
  change (omap witnessWeight (o :: l)) with
    (match witnessWeight o with Some y => y :: omap witnessWeight l | None => omap witnessWeight l end).
  destruct (witnessWeight o) eqn:E.
  - rewrite decide_True by eauto. simpl. by rewrite IH.
  - rewrite decide_False by (intros []; congruence). done.
Qed.

Lemma foldl_AddTxIn_outs l tx :
  foldl (fun txn input => AddTxIn (mkTxIn (bo_outpoint input) [] [] 0) txn) tx l
  = mkMsgTx (tx_Version tx) (tx_TxIn tx ++ map (fun o => mkTxIn (bo_outpoint o) [] [] 0) l) (tx_TxOut tx) (tx_LockTime tx).
Proof.
  revert tx. induction l as [|o l IH]; intros tx; simpl.
  - rewrite app_nil_r. by destruct tx.
  - rewrite IH. simpl. by rewrite <- app_assoc.
Qed.

(** The justice transaction before it is signed. *)
Definition justice_unsigned (r : retributionInfo) (script : bytes) (rate : Z) : MsgTx :=
  let ins := justice_inputs r in
  let amt := i64 (sum_amounts 0 (map fst ins) - FeeForVSize rate (VSize (estimate (justice_weights r)))) in
  mkMsgTx 2 (map sweep_in ins) [mkTxOut amt script] 0.

Lemma createJusticeTx_eq r e :
  createJusticeTx r e =
  match GenSweepScript e with
  | (Err err, e1) => (Err err, e1)
  | (Ok script, e1) =>
      match EstimateFeePerVSize 2 e1 with
      | (Err err, e2) => (Err err, e2)
      | (Ok rate, e2) =>
          let ins := justice_inputs r in
          let amt := i64 (sum_amounts 0 (map fst ins) - FeeForVSize rate (VSize (estimate (justice_weights r)))) in
          let txn := mkMsgTx 2 (map sweep_in ins) [mkTxOut amt script] 0 in
          (match CheckTransactionSanity txn with
           | Err err => Err err
           | Ok _ => add_witnesses txn 0 (map fst ins) txn
           end, e2)
      end
  end.
Proof.
  unfold createJusticeTx. rewrite justice_split, app_nil_l. fold (spendable r).
  unfold sweepSpendableOutputsTxn, mbind, st_bind.
  destruct (GenSweepScript e) as [[script|err] e1]; [|done].
  destruct (EstimateFeePerVSize 2 e1) as [[rate|err] e2]; [|done].
  assert (map fst (justice_inputs r) = spendable r) as Ef
    by (unfold justice_inputs; rewrite map_map; apply map_id).
  cbv zeta. rewrite Ef, foldl_AddTxIn_outs.
  set (txn := mkMsgTx 2 _ [mkTxOut _ script] 0).
  match goal with |- context [CheckTransactionSanity ?t] => assert (t = txn) as -> end.
  { unfold txn, justice_inputs. rewrite map_map. done. }
  unfold st_res. by destruct (CheckTransactionSanity txn).
Qed.

Lemma createJusticeTx_sweeps r e tx e' :
  createJusticeTx r e = (Ok tx, e') -> exists out, sweeps (justice_inputs r) out 0 tx.
Proof.
  rewrite createJusticeTx_eq. destruct (GenSweepScript e) as [[script|err] e1]; [|done].
  destruct (EstimateFeePerVSize 2 e1) as [[rate|err] e2]; [|done]. cbv zeta.
  destruct (CheckTransactionSanity _) as [[]|] eqn:Ec; [|done]. intros [= Hw <-]. eexists. by eapply sweeps_built.
Qed.

Lemma justice_value r rate :
  Forall (fun o => 0 <= bo_amt o) (spendable r) -> justice_amount r < 2 ^ 63 -> 0 <= justice_fee rate r < 2 ^ 63 ->
  i64 (sum_amounts 0 (map fst (justice_inputs r)) - FeeForVSize rate (VSize (estimate (justice_weights r))))
  = justice_amount r - justice_fee rate r.
Proof.
  intros Ho Hs Hf. unfold justice_amount in *.
  assert (map fst (justice_inputs r) = spendable r) as -> by (unfold justice_inputs; rewrite map_map; apply map_id).
  assert (0 <= sum_Z (map bo_amt (spendable r))).
  { clear -Ho. induction Ho; [done|]. unfold sum_Z in *. simpl. lia. }
  rewrite sum_amounts_exact by (done || lia). unfold FeeForVSize. fold (justice_fee rate r).
  rewrite (i64_id (justice_fee rate r)) by (unfold is_i64; lia). rewrite i64_id by (unfold is_i64; lia). lia.
Qed.

(** A justice transaction spends every breached output the arbiter has a
    witness for, each once, signed at its own position, and pays their whole value
    less the fee to one output of the wallet; the fee is the estimator's rate for
    two blocks times the virtual size of the transaction. *)
Theorem justice_tx_correct r e tx e' :
  createJusticeTx r e = (Ok tx, e') ->
  exists script rate e1,
    GenSweepScript e = (Ok script, e1) /\ EstimateFeePerVSize 2 e1 = (Ok rate, e')
    /\ (Forall (fun o => 0 <= bo_amt o) (spendable r) -> justice_amount r < 2 ^ 63 ->
        0 <= justice_fee rate r < 2 ^ 63 ->
        sweeps (justice_inputs r) (mkTxOut (justice_amount r - justice_fee rate r) script) 0 tx
        /\ (length script = 22%nat ->
            justice_fee rate r = rate * ((4 * SerializeSizeStripped (unsigned tx) + WitnessHeaderSize
                                          + sum_Z (justice_weights r) + 3) / 4))).
Proof.
  rewrite createJusticeTx_eq. destruct (GenSweepScript e) as [[script|err] e1] eqn:Eg; [|done].
  destruct (EstimateFeePerVSize 2 e1) as [[rate|err] e2] eqn:Ee; [|done]. cbv zeta.
  destruct (CheckTransactionSanity _) as [[]|] eqn:Ec; [|done]. intros [= Hw <-].
  exists script, rate, e1. split; [done|]. split; [done|]. intros Ho Hs Hf.
  rewrite justice_value in Ec, Hw by done. pose proof (sweeps_built _ _ _ _ Ec Hw) as Hsw. split; [done|].
  intros Hl. unfold justice_fee, VSize. do 2 f_equal. rewrite (sw_unsigned _ _ _ _ Hsw).
  assert (length (justice_inputs r) = length (justice_weights r)) as Hlen.
  { unfold justice_inputs, justice_weights. rewrite length_map, weights_length. done. }
  rewrite (Weight_estimate (justice_inputs r) _ (justice_amount r - justice_fee rate r) script 0);
    [unfold witnessScaleFactor; lia| |done|done].
  intros E. apply (sw_nonempty _ _ _ _ Hsw), length_zero_iff_nil. by rewrite Hlen, E.
Qed.

(** The justice transaction can be created whenever the wallet gives a script and
    the estimator a rate, each output can be signed for, the outputs are distinct and
    real, their value covers the fee, and the transaction fits in a block. *)
Theorem justice_tx_succeeds r e script e1 rate e2 :
  GenSweepScript e = (Ok script, e1) -> EstimateFeePerVSize 2 e1 = (Ok rate, e2) ->
  spendable r <> [] -> NoDup (map bo_outpoint (spendable r)) ->
  Forall (fun o => 0 <= bo_amt o /\ isNullOutpoint (bo_outpoint o) = false
                   /\ forall c t i, exists w, BuildWitness o c t i = Ok w) (spendable r) ->
  0 <= justice_fee rate r <= justice_amount r -> justice_amount r <= MaxSatoshi ->
  41 * Z.of_nat (length (spendable r)) + Z.of_nat (length script) + 35 <= MaxBlockBaseSize ->
  exists tx, createJusticeTx r e = (Ok tx, e2).
Proof.
  intros Eg Ee Hne Hnd Ho Hf Hs Hsz. rewrite createJusticeTx_eq, Eg, Ee. cbv zeta. unfold MaxSatoshi in Hs.
  rewrite justice_value; [|by eapply Forall_impl; [exact Ho|intros ? []]|lia|lia].
  assert (map fst (justice_inputs r) = spendable r) as Ef by (unfold justice_inputs; rewrite map_map; apply map_id).
  rewrite sanity_complete.
  - rewrite Ef. match goal with |- context [add_witnesses ?c 0 _ _] => set (txn := c) end.
    destruct (add_witnesses_total txn 0 (spendable r) txn) as [tx Htx]; [|exists tx; by rewrite Htx].
    eapply Forall_impl; [exact Ho|]. intros o (_ & _ & Hw). apply Hw.
  - intros E. apply Hne. rewrite <- Ef, E. done.
  - unfold justice_inputs. rewrite map_map. exact Hnd.
  - unfold justice_inputs. apply Forall_map. eapply Forall_impl; [exact Ho|]. by intros o (_ & ? & _).
  - unfold MaxSatoshi. lia.
  - apply stripped_bound. unfold justice_inputs. by rewrite length_map.
Qed.

(** ** Every output is punished *)

(** What the goroutine can make of an output: leave it, or follow it to the second
    level when it is an HTLC. *)
Definition is_htlc (o : breachedOutput) : Prop :=
  bo_witnessType o = HtlcAcceptedRevoke \/ bo_witnessType o = HtlcOfferedRevoke.
Definition followed (o o' : breachedOutput) : Prop :=
  o' = o \/ is_htlc o /\ exists tx, convertToSecondLevelRevoke o tx = Ok o'.

Lemma convert_spec o tx o' :
  convertToSecondLevelRevoke o tx = Ok o' ->
  bo_witnessType o' = HtlcSecondLevelRevoke /\ bo_outpoint o' = mkOutPoint (TxHash tx) 0
  /\ exists t l, tx_TxOut tx = t :: l /\ bo_amt o' = txo_Value t
     /\ sd_Output (bo_signDesc o') = mkTxOut (txo_Value t) (txo_PkScript (sd_Output (bo_signDesc o)))
     /\ sd_WitnessScript (bo_signDesc o') = bo_secondLevelWitnessScript o.
Proof.
  unfold convertToSecondLevelRevoke. destruct (tx_TxOut tx) as [|t l]; [done|]. intros [= <-].
  split; [done|]. split; [done|]. by exists t, l.
Qed.

Lemma punishable_followed o o' : punishable o -> followed o o' -> punishable o'.
Proof.
  intros Hp [->|[_ (tx & E)]]; [done|]. destruct (convert_spec _ _ _ E) as (Ht & _).
  unfold punishable, witnessWeight. rewrite Ht. by eexists.
Qed.

Lemma followed_Forall (P : breachedOutput -> Prop) l l' :
  Forall P l -> Forall2 followed l l' -> (forall o o', P o -> followed o o' -> P o') -> Forall P l'.
Proof.
  intros H Hf HP. induction Hf as [|o o' l l' Ho _ IH]; [constructor|].
  apply Forall_cons in H as [H1 H2]. constructor; [by eapply HP|auto].
Qed.

Lemma OutPoint_ok_followed o o' : OutPoint_ok (bo_outpoint o) -> followed o o' -> OutPoint_ok (bo_outpoint o').
Proof.
  intros Ho [->|[_ (tx & E)]]; [done|]. destruct (convert_spec _ _ _ E) as (_ & -> & _).
  split; [apply TxHash_length|]. unfold is_u32. simpl. lia.
Qed.

Lemma newRetribution_outputs cp info :
  ret_breachedOutputs (newRetributionInfo cp info)
  = option_list (makeBreachedOutput (br_LocalOutpoint info) CommitmentNoDelay [] <$> br_LocalOutputSignDesc info)
    ++ option_list (makeBreachedOutput (br_RemoteOutpoint info) CommitmentRevoke [] <$> br_RemoteOutputSignDesc info)
    ++ map (fun h => makeBreachedOutput (hr_OutPoint h)
                       (if hr_IsIncoming h then HtlcAcceptedRevoke else HtlcOfferedRevoke)
                       (hr_SecondLevelWitnessScript h) (hr_SignDesc h)) (br_HtlcRetributions info).
Proof.
  unfold newRetributionInfo. cbn [ret_breachedOutputs].
  match goal with |- foldl _ ?a _ = ?b ++ ?c ++ _ => replace a with (b ++ c) by
    (destruct (br_LocalOutputSignDesc info), (br_RemoteOutputSignDesc info); done) end.
  rewrite app_assoc. generalize (option_list (makeBreachedOutput (br_LocalOutpoint info) CommitmentNoDelay []
    <$> br_LocalOutputSignDesc info) ++ option_list (makeBreachedOutput (br_RemoteOutpoint info) CommitmentRevoke []
    <$> br_RemoteOutputSignDesc info)). intros a. revert a.
  induction (br_HtlcRetributions info) as [|h l IH]; intros a; [by rewrite app_nil_r|].
  cbn [foldl map]. rewrite IH, <- app_assoc. done.
Qed.

Lemma newRetribution_punishable cp info : Forall punishable (ret_breachedOutputs (newRetributionInfo cp info)).
Proof.
  rewrite newRetribution_outputs. rewrite !Forall_app. split; [|split].
  - destruct (br_LocalOutputSignDesc info); [|constructor]. apply Forall_singleton. by eexists.
  - destruct (br_RemoteOutputSignDesc info); [|constructor]. apply Forall_singleton. by eexists.
  - apply Forall_map, Forall_forall. intros h _. unfold punishable, witnessWeight. simpl.
    destruct (hr_IsIncoming h); by eexists.
Qed.

Lemma spendable_all r : Forall punishable (ret_breachedOutputs r) -> spendable r = ret_breachedOutputs r.
Proof.
  unfold spendable. induction 1 as [|o l Ho _ IH]; [done|]. rewrite filter_cons, decide_True by done. by rewrite IH.
Qed.

(** Nothing of a breach is left to the cheating party: the retribution state
    built from a breach lists both commitment outputs (when they exist) and every
    HTLC, and whatever of its HTLCs are followed to the second level, the justice
    transaction has exactly one input for each output of the state. *)
Theorem justice_takes_everything cp info outs' e tx e' :
  Forall2 followed (ret_breachedOutputs (newRetributionInfo cp info)) outs' ->
  createJusticeTx (with_outputs (newRetributionInfo cp info) outs') e = (Ok tx, e') ->
  map txi_PreviousOutPoint (tx_TxIn tx) = map bo_outpoint outs'
  /\ length outs' = (length (option_list (br_LocalOutputSignDesc info))
                     + length (option_list (br_RemoteOutputSignDesc info))
                     + length (br_HtlcRetributions info))%nat.
Proof.
  intros Hf E. destruct (createJusticeTx_sweeps _ _ _ _ E) as [out Hsw]. split.
  - assert (Forall punishable outs') as Hp.
    { eapply followed_Forall; [apply newRetribution_punishable|exact Hf|apply punishable_followed]. }
    pose proof (f_equal tx_TxIn (sw_unsigned _ _ _ _ Hsw)) as Ei. simpl in Ei.
    apply (f_equal (map txi_PreviousOutPoint)) in Ei. rewrite map_map in Ei. simpl in Ei.
    unfold justice_inputs in Ei. rewrite spendable_all in Ei by done.
    rewrite !map_map in Ei. exact Ei.
  - rewrite <- (Forall2_length _ _ _ Hf), newRetribution_outputs, !length_app, length_map.
    destruct (br_LocalOutputSignDesc info), (br_RemoteOutputSignDesc info); simpl; lia.
Qed.

End Justice.

Section Retribution.
Context {BTC : Btcec} {CE : ChainEnv} {BE : BreachEnv} (RS : RetributionStore) {RSS : RetributionStoreSpec RS}.
Context {SS : StandardSigner}.
Implicit Types (a : arbiter RS) (st : RetState).

(** ** The steps of a retribution *)

Lemma swp_ba_store {A} (f : RS_db RS -> res A * RS_db RS) Q a r db' :
  f (ba_db RS a) = (r, db') -> Q r (ba_set_db RS db' a) -> swp (ba_store RS f) Q a.
Proof. intros E HQ. apply swp_zoom. by eapply swp_eq. Qed.

Lemma swp_ba_call {A} (m : ST Env A) Q a :
  (forall r e, m (ba_env RS a) = (r, e) -> Q r (ba_set_env RS e a)) -> swp (ba_call RS m) Q a.
Proof. intros H. apply swp_zoom, swp_intro. done. Qed.

(** Only the outside world has changed. *)
Definition calm a a' : Prop := ba_db RS a' = ba_db RS a /\ ba_log RS a' = ba_log RS a.

#[local] Instance calm_preorder : PreOrder calm.
Proof. split; [by intros a|]. intros a1 a2 a3 [D1 L1] [D2 L2]. split; congruence. Qed.

Lemma calm_env e a : calm a (ba_set_env RS e a).
Proof. done. Qed.

#[local] Instance followed_preorder : PreOrder followed.
Proof.
  split; [by left|]. intros o o1 o2 [->|[Hh (tx & E)]] H2; [done|]. destruct (convert_spec _ _ _ E) as (Ht & _).
  destruct H2 as [->|[[Hh'|Hh'] _]]; [right; eauto| |]; rewrite Ht in Hh'; done.
Qed.

Definition checked_ok (outs : list breachedOutput) a (r : res (option (list breachedOutput * gset OutPoint))) a' : Prop :=
  calm a a' /\ match r with Ok (Some (outs', _)) => Forall2 followed outs outs' | _ => True end.

(** One output, kept as [bo'], before the rest of the loop. *)
Lemma checked_cons h ns bo bo' outs a a1 :
  calm a a1 -> followed bo bo' ->
  (forall ns a, swp (secondLevelCheck RS h ns outs) (checked_ok outs a) a) ->
  swp (r ← secondLevelCheck RS h ns outs; mret (prod_map (cons bo') id <$> r)) (checked_ok (bo :: outs) a) a1.
Proof.
  intros Hc Hf IH. apply swp_bind. eapply swp_mono; [apply IH|].
  intros [[[l ns']|]|er] a2 [Hc2 H2]; try apply swp_ret; (split; [by etrans|]); try done. by constructor.
Qed.

Lemma swp_secondLevelCheck h ns outs a :
  swp (secondLevelCheck RS h ns outs) (checked_ok outs a) a.
Proof.
  revert ns a. induction outs as [|bo outs IH]; intros ns a; [apply swp_ret; split; [done|constructor]|].
  cbn [secondLevelCheck]. cbv zeta. destruct (negb _ && negb _) eqn:Eh.
  { apply checked_cons; [done|reflexivity|apply IH]. }
  assert (is_htlc bo) as Hh.
  { apply andb_false_iff in Eh as [E|E]; apply negb_false_iff, Z.eqb_eq in E; [by left|by right]. }
  apply swp_bind. assert (swp (if decide (bo_outpoint bo ∈ ns) then mret (Ok tt)
      else st_try (ba_call RS (RegisterSpendNtfn (bo_outpoint bo) h)))
      (fun r a' => calm a a' /\ is_ok r = true) a) as Hr.
  { case_decide; [by apply swp_ret|]. apply swp_try, swp_ba_call. intros r e _. by split. }
  eapply swp_mono; [exact Hr|]. intros [[[]|e]|er] a1 [Hc1 Hok]; try done.
  - apply swp_bind, swp_ba_call. intros [p|er] e _; [|split; [by etrans|done]]. destruct p as [| |tx].
    + apply checked_cons; [by etrans|reflexivity|apply IH].
    + apply swp_ret. split; [by etrans|done].
    + apply swp_bind. unfold swp, st_res. cbn [fst snd].
      destruct (convertToSecondLevelRevoke bo tx) as [bo'|er] eqn:Ec; [|split; [by etrans|done]].
      apply checked_cons; [by etrans|right; eauto|apply IH].
  - apply swp_bind, swp_ba_call. intros [q|er] e' _; [|split; [by etrans|done]]. destruct q.
    + apply swp_ret. split; [by etrans|done].
    + apply checked_cons; [by etrans|reflexivity|apply IH].
Qed.

(** ** What a retribution leaves behind *)

(** The records of the other channels are untouched. *)
Definition only_chan (cp : OutPoint) st st' : Prop :=
  forall cp', cp' <> cp -> rs_info st' !! cp' = rs_info st !! cp' /\ rs_final st' !! cp' = rs_final st !! cp'.

#[local] Instance only_chan_preorder cp : PreOrder (only_chan cp).
Proof.
  split; [by intros st|]. intros s1 s2 s3 H1 H2 cp' Hn. destruct (H1 cp' Hn), (H2 cp' Hn). split; congruence.
Qed.

(** A broadcast of a transaction that [good] allows and that the store held at that
    moment as the finalized transaction of the channel. *)
Definition recorded_publish (cp : OutPoint) (good : MsgTx -> Prop) (ev : breach_event RS) : Prop :=
  exists tx db r, ev = BPublish RS tx db r /\ RS_GetFinalizedTxn RS cp db = Ok (Some tx) /\ good tx.

Definition refused (ev : breach_event RS) : Prop := exists tx db, ev = BPublish RS tx db (Err ErrDoubleSpend).

Record retribution_run (cp : OutPoint) (good : MsgTx -> Prop) (fuel : nat) st a (r : res outcome) a' : Prop := {
  rr_log : exists pubs tl, ba_log RS a' = ba_log RS a ++ pubs ++ tl
    /\ Forall (recorded_publish cp good) pubs
    /\ (tl = [] \/ tl = [BMarkClosed RS cp; BRemove RS cp] /\ pubs <> [])
    /\ (r = Ok OutOfFuel -> tl = [] /\ length pubs = fuel /\ Forall refused pubs)
    /\ exists st', rs_abs (ba_db RS a') st' /\ only_chan cp st st'
        /\ (tl = [] -> rs_info st' !! cp = rs_info st !! cp)
        /\ (tl <> [] -> rs_created st = true -> rs_info st' !! cp = None /\ rs_final st' !! cp = None)
        /\ rs_created st' = rs_created st
}.

Lemma run_nothing cp good fuel st a r a' :
  rs_abs (ba_db RS a) st -> calm a a' -> (r = Ok OutOfFuel -> fuel = 0%nat) -> retribution_run cp good fuel st a r a'.
Proof.
  intros Hst [D L] Hr. split. exists [], []. split; [by rewrite L, app_nil_r|]. split; [constructor|].
  split; [by left|]. split; [intros ->%Hr; done|]. exists st. rewrite D. done.
Qed.

Lemma swp_serveJustice good info tx h fuel st a a0 ev :
  rs_abs (ba_db RS a) st -> OutPoint_ok (ret_chanPoint info) ->
  ba_log RS a = ba_log RS a0 ++ [ev] -> recorded_publish (ret_chanPoint info) good ev ->
  swp (serveJustice RS info tx h) (retribution_run (ret_chanPoint info) good (S fuel) st a0) a.
Proof.
  intros Hst Hcp L0 Hev. set (cp := ret_chanPoint info) in *.
  assert (forall r a', calm a a' -> r <> Ok OutOfFuel -> retribution_run cp good (S fuel) st a0 r a') as Hcalm.
  { intros r a' [D L] Hr. split. exists [ev], []. rewrite L, L0.
    split; [done|]. split; [by apply Forall_singleton|]. split; [by left|]. split; [done|].
    exists st. rewrite D. done. }
  apply swp_bind, swp_try, swp_ba_call. intros [[]|er] e _; [|by apply swp_ret, Hcalm].
  apply swp_bind, swp_ba_call. intros [[]|er] e' _; [|by apply swp_ret, Hcalm|by apply Hcalm].
  apply swp_bind, swp_try, swp_ba_call. intros [[]|er] e2 _; [|by apply swp_ret, Hcalm].
  apply swp_bind. eapply swp_eq; [reflexivity|]. cbn beta iota.
  apply swp_bind. eapply swp_eq; [reflexivity|]. cbn beta iota. apply swp_bind, swp_try.
  assert (forall a' st', ba_log RS a' = ba_log RS a ++ [BMarkClosed RS cp; BRemove RS cp] ->
    rs_abs (ba_db RS a') st' -> only_chan cp st st' -> rs_created st' = rs_created st ->
    (rs_created st = true -> rs_info st' !! cp = None /\ rs_final st' !! cp = None) ->
    retribution_run cp good (S fuel) st a0 (Ok Returned) a') as Hdone.
  { intros a' st' L' Hst' Ho Hc Hn. split. exists [ev], [BMarkClosed RS cp; BRemove RS cp]. rewrite L', L0.
    split; [by rewrite <- !app_assoc|]. split; [by apply Forall_singleton|]. split; [by right|]. split; [done|].
    exists st'. split; [done|]. split; [done|]. split; [done|]. split; [|done]. intros _. exact Hn. }
  pose proof (RS_Remove_spec (ba_db RS a) st cp Hst Hcp) as Hrm. destruct (rs_created st) eqn:Ecr.
  - destruct Hrm as (db' & E & Hst'). eapply swp_ba_store; [exact E|]. apply swp_ret.
    eapply Hdone; [simpl; by rewrite <- app_assoc|exact Hst'| |done|].
    + intros cp' Hn. simpl. by rewrite !lookup_delete_ne.
    + intros _. simpl. by rewrite !lookup_delete_eq.
  - destruct Hrm as [er E]. eapply swp_ba_store; [exact E|]. apply swp_ret.
    apply (Hdone _ st); [simpl; by rewrite <- app_assoc|done|done|done|done].
Qed.

(** The run of a later pass, seen from before the refused broadcast [ev]. *)
Lemma run_step cp good fuel st a a1 ev r a' :
  ba_log RS a1 = ba_log RS a ++ [ev] -> recorded_publish cp good ev -> refused ev ->
  retribution_run cp good fuel st a1 r a' -> retribution_run cp good (S fuel) st a r a'.
Proof.
  intros L Hev Hre [(pubs & tl & L' & Hp & Htl & Hf & Hst)]. split. exists (ev :: pubs), tl.
  split; [rewrite L', L; by rewrite <- app_assoc|]. split; [by constructor|].
  split; [naive_solver|]. split; [|done]. intros (? & <- & ?)%Hf. split; [done|]. split; [done|]. by constructor.
Qed.

Lemma run_weaken cp good fuel st0 st a r a' :
  only_chan cp st0 st -> rs_info st !! cp = rs_info st0 !! cp -> rs_created st = rs_created st0 ->
  retribution_run cp good fuel st a r a' -> retribution_run cp good fuel st0 a r a'.
Proof.
  intros Ho Hi Hc [(pubs & tl & L & Hp & Htl & Hf & st' & H1 & H2 & H3 & H4 & H5)]. split. exists pubs, tl.
  do 4 (split; [done|]). exists st'. rewrite Hc, Hi in *. split; [done|]. split; [by etrans|]. done.
Qed.

(** The justice transactions of the breached outputs [outs]: sweeps of all of them
    the arbiter has a witness for, HTLCs followed to the second level or not. *)
Definition justice_for (info : retributionInfo) (tx : MsgTx) : Prop :=
  exists outs' out, Forall2 followed (ret_breachedOutputs info) outs'
    /\ sweeps (justice_inputs (with_outputs info outs')) out 0 tx.

Definition outputs_ok (outs : list breachedOutput) : Prop := Forall (fun o => OutPoint_ok (bo_outpoint o)) outs.

Lemma justice_fits info tx : outputs_ok (ret_breachedOutputs info) -> justice_for info tx -> tx_fits tx.
Proof.
  intros Ho (outs' & out & Hf & Hs).
  assert (outputs_ok outs') as Ho' by (eapply followed_Forall; [exact Ho|exact Hf|apply OutPoint_ok_followed]).
  destruct (sweeps_storable _ _ _ _ Hs) as [Hok Hlen].
  - unfold justice_inputs. apply Forall_map. unfold spendable. simpl.
    apply Forall_forall. intros o [_ Hin]%list_elem_of_filter. split; [|unfold is_u32; simpl; lia].
    unfold outputs_ok in Ho'. rewrite Forall_forall in Ho'. by apply Ho'.
  - unfold is_u32. lia.
  - split; [done|]. unfold MaxValueSize. lia.
Qed.

Lemma swp_publish tx Q a :
  (forall r e, Q r (ba_event RS (BPublish RS tx (ba_db RS a) r) (ba_set_env RS e a))) -> swp (ba_publish RS tx) Q a.
Proof.
  intros H. apply swp_bind, swp_try, swp_ba_call. intros r e _. apply swp_bind.
  eapply swp_eq; [reflexivity|]. cbn beta iota. by eapply swp_eq; [reflexivity|].
Qed.

(** From the broadcast on, given the specification of the passes that follow. *)
Lemma swp_broadcast good fuel h info tx ns st a :
  rs_abs (ba_db RS a) st -> OutPoint_ok (ret_chanPoint info) ->
  rs_final st !! ret_chanPoint info = Some tx -> good tx ->
  (forall a1, rs_abs (ba_db RS a1) st ->
     swp (exactLoop RS fuel h info None ns) (retribution_run (ret_chanPoint info) good fuel st a1) a1) ->
  swp (err ← st_try (ba_publish RS tx);
       if decide (err = Err ErrDoubleSpend) then
         quit ← ba_call RS Quitting;
         if (quit : bool) then mret Returned else exactLoop RS fuel h info None ns
       else serveJustice RS info tx h) (retribution_run (ret_chanPoint info) good (S fuel) st a) a.
Proof.
  intros Hst Hcp Hfin Hgood IH. set (cp := ret_chanPoint info) in *.
  apply swp_bind, swp_try, swp_publish. intros r e.
  set (ev := BPublish RS tx (ba_db RS a) r).
  assert (recorded_publish cp good ev) as Hev.
  { exists tx, (ba_db RS a), r. split; [done|]. split; [|done]. rewrite <- Hfin. by apply RS_GetFinalizedTxn_spec. }
  case_decide as Ed; [|by eapply swp_serveJustice].
  assert (refused ev) as Hre by (exists tx, (ba_db RS a); unfold ev; by rewrite Ed).
  set (a1 := ba_event RS ev (ba_set_env RS e a)).
  assert (forall r a', r <> Ok OutOfFuel -> calm a1 a' -> retribution_run cp good (S fuel) st a r a') as Hstop.
  { intros r' a' Hr Hc. apply (run_step _ _ _ _ _ a1 ev); [done..|]. by apply run_nothing. }
  apply swp_bind, swp_ba_call. intros [[]|er] e1 _.
  - by apply swp_ret, Hstop.
  - eapply swp_mono; [by apply IH|]. intros r' a' Hrun. by apply (run_step _ _ _ _ _ (ba_set_env RS e1 a1) ev).
  - by apply Hstop.
Qed.

Lemma swp_exactLoop (good : MsgTx -> Prop) info0 fuel h info fin ns st a :
  (forall tx, justice_for info0 tx -> good tx) ->
  rs_abs (ba_db RS a) st -> OutPoint_ok (ret_chanPoint info) -> outputs_ok (ret_breachedOutputs info0) ->
  Forall2 followed (ret_breachedOutputs info0) (ret_breachedOutputs info) ->
  match fin with Some tx => rs_final st !! ret_chanPoint info = Some tx /\ good tx | None => True end ->
  swp (exactLoop RS fuel h info fin ns) (retribution_run (ret_chanPoint info) good fuel st a) a.
Proof.
  intros Hgood. revert info fin ns st a. induction fuel as [|fuel IH]; intros info fin ns st a Hst Hcp Ho Hf Hfin.
  { apply swp_ret, run_nothing; done. }
  cbn [exactLoop]. apply swp_bind. destruct fin as [tx|].
  { destruct Hfin as [Hfin Htx]. apply swp_ret. apply swp_broadcast; [done..|].
    intros a1 Hst1. by apply IH. }
  apply swp_bind. eapply swp_mono; [apply swp_secondLevelCheck|].
  intros [[[outs ns']|]|er] a1 [[D1 L1] Hc1]; try (by apply run_nothing).
  set (info' := with_outputs info outs).
  assert (Forall2 followed (ret_breachedOutputs info0) outs) as Hf'.
  { by transitivity (ret_breachedOutputs info). }
  apply swp_bind, swp_try, swp_ba_call. intros [tx|er] e Ec.
  2: { apply swp_ret, swp_ret. by apply run_nothing. }
  destruct (createJusticeTx_sweeps _ _ _ _ Ec) as [out Hsw].
  assert (justice_for info0 tx) as Hj by (by exists outs, out).
  destruct (RS_Finalize_spec (ba_db RS a) st (ret_chanPoint info) tx Hst Hcp (justice_fits _ _ Ho Hj))
    as (db' & Efin & Hst'). rewrite <- D1 in Efin.
  apply swp_bind, swp_try. eapply swp_ba_store; [exact Efin|]. apply swp_ret.
  eapply swp_mono; [eapply (swp_broadcast good _ _ info'); [exact Hst'|done|simpl; by rewrite lookup_insert_eq|auto|]|].
  { intros a2 Hst2. by apply (IH info'). }
  intros r a' Hrun. eapply run_weaken in Hrun; [|intros cp' Hn; simpl; by rewrite lookup_insert_ne|done|done].
  destruct Hrun as [Hrun]. split. by rewrite <- L1.
Qed.

Lemma swp_exactRetribution fuel h info st a :
  rs_abs (ba_db RS a) st -> OutPoint_ok (ret_chanPoint info) -> outputs_ok (ret_breachedOutputs info) ->
  swp (exactRetribution RS fuel (Some h) info) (retribution_run (ret_chanPoint info)
    (fun tx => rs_final st !! ret_chanPoint info = Some tx \/ justice_for info tx) fuel st a) a.
Proof.
  intros Hst Hcp Ho. unfold exactRetribution.
  apply swp_bind, swp_try. eapply swp_eq; [reflexivity|].
  rewrite (RS_GetFinalizedTxn_spec _ _ _ Hst Hcp). cbn beta iota.
  apply (swp_exactLoop _ info); [by right|done|done|done|reflexivity|].
  destruct (rs_final st !! _); [|done]. split; [done|]. by left.
Qed.

(** C4: the arbiter never broadcasts a justice transaction for a channel that the
    store does not hold, at that moment, as the channel's finalized transaction, and
    every such transaction is either the one recorded before the restart or a sweep
    of the breached outputs.  The retribution is only removed from the store after a
    broadcast and after the channel was marked as fully closed; until then its record
    stays, and the records of other channels are never touched.  The retry loop runs
    on only while every broadcast is refused as a double spend. *)
Theorem exact_retribution_safe fuel h info st a r a' :
  rs_abs (ba_db RS a) st -> OutPoint_ok (ret_chanPoint info) -> outputs_ok (ret_breachedOutputs info) ->
  exactRetribution RS fuel (Some h) info a = (r, a') ->
  retribution_run (ret_chanPoint info)
    (fun tx => rs_final st !! ret_chanPoint info = Some tx \/ justice_for info tx) fuel st a r a'.
Proof. intros Hst Hcp Ho. apply swp_elim. by apply swp_exactRetribution. Qed.

End Retribution.
