(* ===== verification/BreachLive.v ===== *)
(** * Justice is served

    The retry loop of exactRetribution against a chain on which the cheating party
    may still move HTLCs to the second level while the arbiter runs: every refused
    broadcast means that one more HTLC has moved, so the loop ends after at most one
    pass per HTLC, with the breach punished, the channel closed and the record gone. *)

From Stdlib Require Import ZArith Lia.
From stdpp Require Import base gmap countable strings numbers list.
From S2P Require Import Prelude Stream Tx Outputs Bolt RetributionStore Effects Sweep BreachArbiter BreachProps.
Local Open Scope Z_scope.

Section Served.
Context {BTC : Btcec} {CE : ChainEnv} {BE : BreachEnv} (RS : RetributionStore) {RSS : RetributionStoreSpec RS}.
Context {SS : StandardSigner}.

#[global] Instance is_htlc_dec o : Decision (is_htlc o).
Proof. unfold is_htlc. apply _. Defined.

(** ** A chain the arbiter can rely on *)

(** The output after what the chain shows at [e]. *)
Definition seen (Spent : Env -> gmap OutPoint MsgTx) (e : Env) (o o' : breachedOutput) : Prop :=
  o' = o \/ is_htlc o /\ exists tx, Spent e !! bo_outpoint o = Some tx /\ convertToSecondLevelRevoke o tx = Ok o'.

(** [Spent e] are the breached outputs that others have spent, and by what, and [Mempool e]
    the transactions the chain has accepted.  Calls other than a broadcast succeed; whatever
    is called, more may be spent afterwards; a notification reports what is there; a broadcast is refused only when an input
    is spent; what was accepted confirms; only HTLCs can be moved, and what
    they are moved to is covered by the revocation key.  The justice transaction of the
    outputs as they were seen is sane for the fee of the day and can be signed. *)
Record reliable (Spent : Env -> gmap OutPoint MsgTx) (Mempool : Env -> gset bytes) (info : retributionInfo) : Prop := {
  rl_register op h e : exists e', RegisterSpendNtfn op h e = (Ok tt, e') /\ Spent e ⊆ Spent e';
  rl_poll op e : exists e', PollSpend op e = (Ok (from_option SpentBy NotSpent (Spent e !! op)), e') /\ Spent e ⊆ Spent e';
  rl_quit e : exists e', Quitting e = (Ok false, e') /\ Spent e ⊆ Spent e';
  rl_script e : exists script e', GenSweepScript e = (Ok script, e') /\ Spent e ⊆ Spent e';
  rl_fee e : exists rate e', EstimateFeePerVSize 2 e = (Ok rate, e') /\ Spent e ⊆ Spent e';
  rl_signed outs script e1 rate e2 e :
    Forall2 (seen Spent e) (ret_breachedOutputs info) outs -> GenSweepScript e = (Ok script, e1) -> EstimateFeePerVSize 2 e1 = (Ok rate, e2) ->
    let tx := justice_unsigned (with_outputs info outs) script rate in
    CheckTransactionSanity tx = Ok tt /\ exists tx', add_witnesses tx 0 (map fst (justice_inputs (with_outputs info outs))) tx = Ok tx';
  rl_publish tx e : exists e', Spent e ⊆ Spent e'
    /\ (PublishTransaction tx e = (Ok tt, e') /\ TxHash tx ∈ Mempool e'
        \/ PublishTransaction tx e = (Err ErrDoubleSpend, e')
           /\ exists ti, ti ∈ tx_TxIn tx /\ is_Some (Spent e' !! txi_PreviousOutPoint ti));
  rl_confs h1 n h2 e : exists e', RegisterConfirmationsNtfn h1 n h2 e = (Ok tt, e') /\ Mempool e ⊆ Mempool e';
  rl_confirmed h e : h ∈ Mempool e -> exists e', AwaitConfirmation h e = (Ok true, e');
  rl_mark cp e : exists e', MarkChanFullyClosed cp e = (Ok tt, e');
  rl_commit o e : o ∈ ret_breachedOutputs info -> ~ is_htlc o -> Spent e !! bo_outpoint o = None;
  rl_second o tx e : o ∈ ret_breachedOutputs info -> Spent e !! bo_outpoint o = Some tx ->
    tx_TxOut tx <> [] /\ Spent e !! mkOutPoint (TxHash tx) 0 = None
}.

Context (Spent : Env -> gmap OutPoint MsgTx) (Mempool : Env -> gset bytes) (info0 : retributionInfo).
Context (RL : reliable Spent Mempool info0).
Implicit Types (a : arbiter RS) (st : RetState) (outs : list breachedOutput).

(** HTLCs nobody has moved yet. *)
Definition live (e : Env) outs : nat :=
  length (filter (fun o => is_htlc o /\ Spent e !! bo_outpoint o = None) outs).

(** What a pass over the outputs, started at [e] and finished at [e'], does to one. *)
Definition checked (e e' : Env) (o o' : breachedOutput) : Prop :=
  seen Spent e' o o' /\ (is_htlc o' -> o' = o /\ Spent e !! bo_outpoint o = None).

Lemma seen_mono e e' o o' : Spent e ⊆ Spent e' -> seen Spent e o o' -> seen Spent e' o o'.
Proof. intros Hs [->|(Hh & tx & Hl & Hc)]; [by left|right]. split; [done|]. exists tx. split; [by eapply lookup_weaken|done]. Qed.

Lemma seen_followed e o o' : seen Spent e o o' -> followed o o'.
Proof. intros [->|(Hh & tx & _ & Hc)]; [by left|right]. eauto. Qed.

Lemma seen_trans e o o1 o2 : seen Spent e o o1 -> seen Spent e o1 o2 -> seen Spent e o o2.
Proof.
  intros [->|(Hh & tx & Hl & Hc)] H2; [done|]. destruct (convert_spec _ _ _ Hc) as (Ht & _).
  destruct H2 as [->|[[Hh'|Hh'] _]]; [right; eauto| |]; rewrite Ht in Hh'; done.
Qed.

Lemma checked_mono e e1 e' o o' : Spent e1 ⊆ Spent e' -> checked e e1 o o' -> checked e e' o o'.
Proof. intros Hs [H1 H2]. split; [by eapply seen_mono|done]. Qed.

Lemma live_cons e o outs :
  live e (o :: outs) = ((if decide (is_htlc o /\ Spent e !! bo_outpoint o = None) then 1 else 0) + live e outs)%nat.
Proof. unfold live. rewrite filter_cons. by case_decide. Qed.

(** A pass never makes more HTLCs live. *)
Lemma live_le e e' e2 outs outs' :
  Spent e ⊆ Spent e' -> Forall2 (checked e e') outs outs' -> Spent e' ⊆ Spent e2 -> (live e2 outs' <= live e outs)%nat.
Proof.
  intros Hs. induction 1 as [|o o' outs outs' [Ho Ho'] _ IH]; intros Hs2; [done|]. rewrite !live_cons.
  specialize (IH Hs2). destruct (decide (is_htlc o' /\ _)) as [[Hh Hn]|]; [|lia].
  destruct (Ho' Hh) as [-> Hn']. rewrite decide_True by done. lia.
Qed.

Lemma live_weaken e e' outs : Spent e ⊆ Spent e' -> (live e' outs <= live e outs)%nat.
Proof.
  intros Hs. induction outs as [|o outs IH]; [done|]. rewrite !live_cons.
  destruct (decide (is_htlc o /\ Spent e' !! _ = None)) as [[Hh Hn]|]; [|lia].
  rewrite decide_True; [lia|]. split; [done|]. by eapply lookup_weaken_None.
Qed.

(** When an HTLC kept by the pass has moved since, fewer are live. *)
Lemma live_lt e e' e2 outs outs' :
  Spent e ⊆ Spent e' -> Forall2 (checked e e') outs outs' -> Spent e' ⊆ Spent e2 ->
  Exists (fun o' => is_htlc o' /\ is_Some (Spent e2 !! bo_outpoint o')) outs' -> (live e2 outs' < live e outs)%nat.
Proof.
  intros Hs Hf Hs2 He. induction Hf as [|o o' outs outs' [Ho Ho'] Hf IH]; [by inversion He|]. rewrite !live_cons.
  apply Exists_cons in He as [[Hh Hsome]|He].
  - destruct (Ho' Hh) as [-> Hn]. pose proof (live_le _ _ _ _ _ Hs Hf Hs2).
    rewrite decide_False by (intros [_ Hn']; rewrite Hn' in Hsome; by destruct Hsome).
    rewrite (decide_True _ _ (conj Hh Hn)). lia.
  - specialize (IH He). destruct (decide (is_htlc o' /\ _)) as [[Hh Hn]|]; [|lia].
    destruct (Ho' Hh) as [-> Hn']. rewrite (decide_True _ _ (conj Hh Hn')). lia.
Qed.

(** ** The passes *)

(** A call that is known to succeed. *)
Lemma swp_call_ok {A} (m : ST Env A) x e' Q a :
  m (ba_env RS a) = (Ok x, e') -> Q (Ok x) (ba_set_env RS e' a) -> swp (ba_call RS m) Q a.
Proof. intros E HQ. apply swp_zoom. by eapply swp_eq. Qed.

Definition checked_all (e0 : Env) outs a (r : res (option (list breachedOutput * gset OutPoint))) a' : Prop :=
  calm RS a a' /\ Spent (ba_env RS a) ⊆ Spent (ba_env RS a')
  /\ exists outs' ns', r = Ok (Some (outs', ns')) /\ Forall2 (checked e0 (ba_env RS a')) outs outs'.

Lemma checked_all_cons e0 h ns bo bo' outs a0 a :
  calm RS a0 a -> Spent (ba_env RS a0) ⊆ Spent (ba_env RS a) -> checked e0 (ba_env RS a) bo bo' ->
  swp (secondLevelCheck RS h ns outs) (checked_all e0 outs a) a ->
  swp (r ← secondLevelCheck RS h ns outs; mret (prod_map (cons bo') id <$> r))
    (checked_all e0 (bo :: outs) a0) a.
Proof.
  intros [D L] Hs Hc IH. apply swp_bind. eapply swp_mono; [exact IH|].
  intros r a2 ([D2 L2] & Hs2 & outs' & ns' & -> & Hf). apply swp_ret.
  split; [split; congruence|]. split; [by etrans|]. exists (bo' :: outs'), ns'. split; [done|].
  constructor; [by eapply checked_mono|done].
Qed.

(** The HTLCs among [outs] are among the breached outputs. *)
Definition known outs : Prop := forall o, o ∈ outs -> is_htlc o -> o ∈ ret_breachedOutputs info0.

Lemma swp_check e0 h ns outs a :
  known outs -> Spent e0 ⊆ Spent (ba_env RS a) ->
  swp (secondLevelCheck RS h ns outs) (checked_all e0 outs a) a.
Proof.
  revert ns a. induction outs as [|bo outs IH]; intros ns a Hk Hs0.
  { apply swp_ret. split; [done|]. split; [done|]. by exists [], ns. }
  assert (known outs) as Hk' by (intros o Hin; apply Hk; by right).
  cbn [secondLevelCheck]. cbv zeta. destruct (negb _ && negb _) eqn:Eh.
  { apply checked_all_cons; [done|done| |by apply IH]. apply andb_true_iff in Eh as [E1 E2].
    apply negb_true_iff, Z.eqb_neq in E1, E2. split; [by left|]. by intros [?|?]. }
  assert (is_htlc bo) as Hh.
  { apply andb_false_iff in Eh as [E|E]; apply negb_false_iff, Z.eqb_eq in E; [by left|by right]. }
  apply swp_bind. assert (swp (if decide (bo_outpoint bo ∈ ns) then mret (Ok tt)
      else st_try (ba_call RS (RegisterSpendNtfn (bo_outpoint bo) h)))
      (fun r a' => calm RS a a' /\ Spent (ba_env RS a) ⊆ Spent (ba_env RS a') /\ r = Ok (Ok tt)) a) as Hr.
  { case_decide; [by apply swp_ret|]. destruct (rl_register _ _ _ RL (bo_outpoint bo) h (ba_env RS a)) as (e' & E & Hs).
    apply swp_try. by eapply swp_call_ok. }
  eapply swp_mono; [exact Hr|]. intros r a1 (Hc1 & Hs1 & ->).
  destruct (rl_poll _ _ _ RL (bo_outpoint bo) (ba_env RS a1)) as (e' & E & Hs2).
  apply swp_bind. eapply swp_call_ok; [exact E|].
  assert (Spent (ba_env RS a) ⊆ Spent e') as Hs by (by etrans). assert (Spent e0 ⊆ Spent e') as Hs' by (by etrans).
  destruct (Spent (ba_env RS a1) !! bo_outpoint bo) as [tx|] eqn:El; simpl.
  - destruct (rl_second _ _ _ RL bo tx (ba_env RS a1)) as [Htx _]; [apply Hk; [left|done]|done|].
    destruct (convertToSecondLevelRevoke bo tx) as [bo'|er] eqn:Ec.
    2: { unfold convertToSecondLevelRevoke in Ec. by destruct (tx_TxOut tx). }
    apply swp_bind. eapply swp_eq; [reflexivity|]. cbn beta iota.
    apply checked_all_cons; [done|done| |by apply IH]. split.
    + right. split; [done|]. exists tx. split; [by eapply lookup_weaken|done].
    + destruct (convert_spec _ _ _ Ec) as (Ht & _). by intros [Hh'|Hh']; rewrite Ht in Hh'.
  - apply checked_all_cons; [done|done| |by apply IH]. split; [by left|]. intros _. split; [done|].
    eapply lookup_weaken_None; [exact El|]. by transitivity (Spent (ba_env RS a)).
Qed.

Lemma seen_known e outs : Forall2 (seen Spent e) (ret_breachedOutputs info0) outs -> known outs.
Proof.
  intros Hf o Hin Hh. destruct (Forall2_elem_r _ _ _ _ Hf Hin) as (o0 & Hin0 & [->|(_ & tx & _ & Hc)]); [done|].
  destruct (convert_spec _ _ _ Hc) as (Ht & _). by destruct Hh as [Hh|Hh]; rewrite Ht in Hh.
Qed.

(** Only an HTLC that is still on the first level can have been spent. *)
Lemma spent_is_htlc e outs o :
  Forall2 (seen Spent e) (ret_breachedOutputs info0) outs -> o ∈ outs -> is_Some (Spent e !! bo_outpoint o) -> is_htlc o.
Proof.
  intros Hf Hin [tx' Hs]. destruct (Forall2_elem_r _ _ _ _ Hf Hin) as (o0 & Hin0 & [->|(_ & tx & Hl & Hc)]).
  - destruct (decide (is_htlc o0)) as [|Hn]; [done|]. rewrite (rl_commit _ _ _ RL o0 e) in Hs; done.
  - destruct (convert_spec _ _ _ Hc) as (_ & Hop & _). destruct (rl_second _ _ _ RL o0 tx e Hin0 Hl) as [_ Hn]. congruence.
Qed.

Lemma swept_inputs info out tx ti :
  sweeps (justice_inputs info) out 0 tx -> ti ∈ tx_TxIn tx ->
  exists o, o ∈ ret_breachedOutputs info /\ txi_PreviousOutPoint ti = bo_outpoint o.
Proof.
  intros Hs Hin. pose proof (f_equal tx_TxIn (sw_unsigned _ _ _ _ Hs)) as E. simpl in E.
  apply (f_equal (map txi_PreviousOutPoint)) in E. unfold justice_inputs in E. rewrite !map_map in E. simpl in E.
  assert (txi_PreviousOutPoint ti ∈ map bo_outpoint (spendable info)) as Hop.
  { change (map bo_outpoint (spendable info)) with (map (fun x => bo_outpoint x) (spendable info)). rewrite <- E.
    by apply (list_elem_of_fmap_2 txi_PreviousOutPoint). }
  apply list_elem_of_fmap in Hop as (o & Ho & Hf). unfold spendable in Hf. apply list_elem_of_filter in Hf as [_ Hf].
  by exists o.
Qed.

(** The justice transaction can be made from what a pass has seen. *)
Lemma justice_made e outs :
  Forall2 (seen Spent e) (ret_breachedOutputs info0) outs ->
  exists tx e', createJusticeTx (with_outputs info0 outs) e = (Ok tx, e') /\ Spent e ⊆ Spent e'.
Proof.
  intros Hf. destruct (rl_script _ _ _ RL e) as (script & e1 & E1 & H1). destruct (rl_fee _ _ _ RL e1) as (rate & e2 & E2 & H2).
  destruct (rl_signed _ _ _ RL outs script e1 rate e2 e Hf E1 E2) as [Hs [tx Hw]]. exists tx, e2.
  rewrite createJusticeTx_eq, E1, E2. cbv zeta. fold (justice_unsigned (with_outputs info0 outs) script rate). rewrite Hs, Hw.
  split; [done|]. by etrans.
Qed.

(** Refused broadcasts, one that is accepted, and the end of the channel. *)
Definition closes a (r : res outcome) a' : Prop :=
  r = Ok Returned /\ exists pre tx db, ba_log RS a' = ba_log RS a ++ pre
    ++ [BPublish RS tx db (Ok tt); BMarkClosed RS (ret_chanPoint info0); BRemove RS (ret_chanPoint info0)]
    /\ Forall (refused RS) pre.

Lemma closes_after a a1 ev r a' : ba_log RS a1 = ba_log RS a ++ [ev] -> refused RS ev -> closes a1 r a' -> closes a r a'.
Proof.
  intros L Hr [-> (pre & tx & db & Hl & Hp)]. split; [done|]. exists (ev :: pre), tx, db. rewrite Hl, L.
  split; [by rewrite <- !app_assoc|by constructor].
Qed.

Lemma swp_serve info tx h st a :
  rs_abs (ba_db RS a) st -> OutPoint_ok (ret_chanPoint info) -> ret_chanPoint info = ret_chanPoint info0 -> TxHash tx ∈ Mempool (ba_env RS a) ->
  swp (serveJustice RS info tx h) (fun r a' => r = Ok Returned
    /\ ba_log RS a' = ba_log RS a ++ [BMarkClosed RS (ret_chanPoint info0); BRemove RS (ret_chanPoint info0)]) a.
Proof.
  intros Hst Hcp Hi Hmem. destruct (rl_confs _ _ _ RL (TxHash tx) 1 h (ba_env RS a)) as (e1 & E1 & Hm1).
  apply swp_bind, swp_try. eapply swp_call_ok; [exact E1|].
  destruct (rl_confirmed _ _ _ RL (TxHash tx) e1) as [e2 E2]; [set_solver|]. apply swp_bind. eapply swp_call_ok; [exact E2|].
  destruct (rl_mark _ _ _ RL (ret_chanPoint info) e2) as [e3 E3].
  apply swp_bind, swp_try. eapply swp_call_ok; [exact E3|].
  apply swp_bind. eapply swp_eq; [reflexivity|]. cbn beta iota.
  apply swp_bind. eapply swp_eq; [reflexivity|]. cbn beta iota. apply swp_bind, swp_try, swp_intro.
  intros r a' E. apply swp_ret. split; [done|].
  unfold ba_store, st_zoom in E. destruct (RS_Remove RS _ _) as [r' db']. injection E as <- <-. simpl.
  rewrite Hi. by rewrite <- app_assoc.
Qed.

(** From the broadcast on: when it is refused, [Hnext] says how many passes are left. *)
Lemma swp_broadcast_served fuel h info tx ns st a :
  rs_abs (ba_db RS a) st -> OutPoint_ok (ret_chanPoint info) -> ret_chanPoint info = ret_chanPoint info0 ->
  (forall a1, ba_db RS a1 = ba_db RS a -> Spent (ba_env RS a) ⊆ Spent (ba_env RS a1) ->
     (exists ti, ti ∈ tx_TxIn tx /\ is_Some (Spent (ba_env RS a1) !! txi_PreviousOutPoint ti)) ->
     swp (exactLoop RS fuel h info None ns) (closes a1) a1) ->
  swp (err ← st_try (ba_publish RS tx);
       if decide (err = Err ErrDoubleSpend) then
         quit ← ba_call RS Quitting;
         if (quit : bool) then mret Returned else exactLoop RS fuel h info None ns
       else serveJustice RS info tx h) (closes a) a.
Proof.
  intros Hst Hcp Hi Hnext. destruct (rl_publish _ _ _ RL tx (ba_env RS a)) as (e & Hs & [[E Hm]|[E (ti & Hin & tx' & Hl)]]);
    (apply swp_bind, swp_try, swp_bind, swp_try, swp_zoom; eapply swp_eq; [exact E|];
     apply swp_bind; eapply swp_eq; [reflexivity|]; cbn beta iota; eapply swp_eq; [reflexivity|]; cbn [ba_db ba_set_env]).
  - rewrite decide_False by done. eapply swp_mono; [by eapply swp_serve|]. intros r a' [-> Hl]. split; [done|].
    eexists [], tx, _. rewrite Hl. cbn. split; [by rewrite <- app_assoc|done].
  - rewrite decide_True by done. set (ev := BPublish RS tx _ _). set (a1 := ba_event RS ev (ba_set_env RS e a)).
    destruct (rl_quit _ _ _ RL e) as (e1 & Eq & Hs1). apply swp_bind. eapply swp_call_ok; [exact Eq|].
    eapply swp_mono; [apply Hnext|intros r' a'; apply (closes_after a (ba_set_env RS e1 a1) ev)]; [done| | |done|by eexists _, _].
    + by etrans.
    + exists ti. split; [done|]. exists tx'. by eapply lookup_weaken.
Qed.

Lemma swp_loop_served fuel h outs (fin : option MsgTx) ns st a :
  rs_abs (ba_db RS a) st -> OutPoint_ok (ret_chanPoint info0) -> outputs_ok (ret_breachedOutputs info0) ->
  Forall2 (seen Spent (ba_env RS a)) (ret_breachedOutputs info0) outs ->
  (live (ba_env RS a) outs + (if fin is Some _ then 1 else 0) < fuel)%nat ->
  swp (exactLoop RS fuel h (with_outputs info0 outs) fin ns) (closes a) a.
Proof.
  revert outs fin ns st a. induction fuel as [|fuel IH]; intros outs fin ns st a Hst Hcp Ho Hf Hlt; [lia|].
  assert (forall e, Spent (ba_env RS a) ⊆ Spent e -> Forall2 (seen Spent e) (ret_breachedOutputs info0) outs) as Hf'.
  { intros e Hs. eapply Forall2_impl; [exact Hf|]. intros o o'. by apply seen_mono. }
  cbn [exactLoop]. apply swp_bind. destruct fin as [tx|].
  { apply swp_ret. eapply swp_broadcast_served; [exact Hst|done|done|]. intros a1 D1 Hs _.
    apply (IH _ _ _ st); [by rewrite D1|done|done|by apply Hf'|]. pose proof (live_weaken _ _ outs Hs). lia. }
  apply swp_bind. eapply swp_mono; [apply (swp_check (ba_env RS a)); [by eapply seen_known|done]|].
  intros r a1 ([D1 L1] & Hs1 & outs' & ns' & -> & Hc).
  assert (Forall2 (seen Spent (ba_env RS a1)) (ret_breachedOutputs info0) outs') as Hf1.
  { clear -Hc Hf' Hs1. specialize (Hf' _ Hs1). revert outs' Hc. induction Hf' as [|o o' l l' Hs Hf IH]; intros outs' Hc;
      inversion Hc as [|? o2 ? l2 [Ho _] Hc']; subst; constructor; [by eapply seen_trans|auto]. }
  change (with_outputs (with_outputs info0 outs) outs') with (with_outputs info0 outs').
  destruct (justice_made (ba_env RS a1) outs' Hf1) as (tx & e2 & E2 & Hs2).
  apply swp_bind, swp_try. eapply swp_call_ok; [exact E2|].
  destruct (createJusticeTx_sweeps _ _ _ _ E2) as [out Hsw].
  assert (justice_for info0 tx) as Hj.
  { exists outs', out. split; [|done]. eapply Forall2_impl; [exact Hf1|]. apply seen_followed. }
  destruct (RS_Finalize_spec (ba_db RS a) st (ret_chanPoint info0) tx Hst Hcp (justice_fits _ _ Ho Hj))
    as (db' & Efin & Hst'). rewrite <- D1 in Efin.
  apply swp_bind, swp_try. eapply swp_ba_store; [exact Efin|]. apply swp_ret.
  eapply swp_mono; [eapply (swp_broadcast_served _ _ (with_outputs info0 outs')); [exact Hst'|done|done|]|].
  2: { intros r a' [-> (pre & t & d & Hl & Hp)]. split; [done|]. exists pre, t, d. rewrite Hl. simpl. by rewrite L1. }
  intros a3 D3 Hs3 (ti & Hti & Hsome). simpl in Hs3.
  assert (Spent (ba_env RS a1) ⊆ Spent (ba_env RS a3)) as Hs13 by (by etrans).
  assert (Forall2 (seen Spent (ba_env RS a3)) (ret_breachedOutputs info0) outs') as Hf3.
  { eapply Forall2_impl; [exact Hf1|]. intros o o'. by apply seen_mono. }
  eapply IH; [rewrite D3; exact Hst'|done|done|exact Hf3|].
  enough (live (ba_env RS a3) outs' < live (ba_env RS a) outs)%nat by lia.
  eapply live_lt; [exact Hs1|exact Hc|exact Hs13|].
  destruct (swept_inputs _ _ _ _ Hsw Hti) as (o & Hin & Eop). rewrite Eop in Hsome.
  apply Exists_exists. exists o. split; [done|]. split; [by eapply spent_is_htlc|done].
Qed.


End Served.
