(* ===== verification/BreachWatch.v ===== *)
(** * Watching channels for breaches

    The loop that manages the observers keeps its settle signals in order, an
    observed breach is recorded before anyone is told about it, and a restart picks
    up every recorded breach and watches every other open channel. *)

From Stdlib Require Import ZArith Lia.
From stdpp Require Import base gmap countable strings numbers list.
From S2P Require Import Prelude Stream Tx Outputs Bolt RetributionStore Effects Sweep BreachArbiter BreachProps.
Local Open Scope Z_scope.

(** A goal about the state [w'] that the run [E] ended in. *)
Ltac swp_after E w' := pattern w'; match goal with |- ?P _ => refine (swp_elim _ (fun _ => P) _ _ _ _ E) end.

(** ** Settle signals *)

(** The signals handed out so far are those below [n]; [m] is the map of observers,
    [c] the closed signals, [run] the observers that run. *)
Record signals (m : gmap OutPoint nat) (n : nat) (c : gset nat) (run : list (OutPoint * nat)) : Prop := {
  sg_made cp s : m !! cp = Some s -> (s < n)%nat;
  sg_open cp s : m !! cp = Some s -> s ∉ c;
  sg_closed s : s ∈ c -> (s < n)%nat;
  sg_running cp s : (cp, s) ∈ run -> (s < n)%nat;
  sg_owner cp cp' s : m !! cp = Some s -> m !! cp' = Some s \/ (cp', s) ∈ run -> cp' = cp
}.

Lemma signals_insert m n c c' run cp :
  signals m n c run -> (forall s, s ∈ c' -> s ∈ c \/ m !! cp = Some s) ->
  signals (<[cp := n]> m) (S n) c' (run ++ [(cp, n)]).
Proof.
  intros H Hc. assert (forall s, s ∈ c' -> (s < n)%nat) as Hc'.
  { intros s [Hs|Hs]%Hc; [by eapply sg_closed|by eapply sg_made]. }
  split.
  - intros cp' s. rewrite lookup_insert. case_decide; [intros [= <-]; lia|].
    intros Hl%(sg_made _ _ _ _ H). lia.
  - intros cp' s. rewrite lookup_insert. case_decide; intros; simplify_eq.
    + intros Hn%Hc'. lia.
    + intros [Hs|Hs]%Hc; [by eapply sg_open|]. assert (cp' = cp); [|done]. by eapply sg_owner; [|exact Hs|left].
  - intros s Hs%Hc'. lia.
  - intros cp' s [Hin|Hin%list_elem_of_singleton]%elem_of_app; simplify_eq; [|lia].
    pose proof (sg_running _ _ _ _ H cp' s Hin). lia.
  - intros cp1 cp2 s. rewrite !lookup_insert, elem_of_app, list_elem_of_singleton.
    pose proof (sg_made _ _ _ _ H) as Hm. pose proof (sg_running _ _ _ _ H) as Hr. pose proof (sg_owner _ _ _ _ H cp1 cp2 s).
    repeat case_decide; intros; simplify_eq; naive_solver lia.
Qed.

Lemma signals_delete m n c c' run cp :
  signals m n c run -> (forall s, s ∈ c' -> s ∈ c \/ m !! cp = Some s) -> signals (delete cp m) n c' run.
Proof.
  intros H Hc. split.
  - intros cp' s [_ Hl]%lookup_delete_Some. by eapply sg_made.
  - intros cp' s [Hne Hl]%lookup_delete_Some [Hs|Hs]%Hc; [by eapply sg_open|].
    apply Hne. symmetry. by eapply sg_owner; [|exact Hs|left].
  - intros s [Hs|Hs]%Hc; [by eapply sg_closed|by eapply sg_made].
  - intros cp' s. by eapply sg_running.
  - intros cp1 cp2 s. rewrite !lookup_delete_Some. intros [_ H1] H2. eapply sg_owner; [done|exact H1|naive_solver].
Qed.

Lemma signals_sub m n c run run' : signals m n c run -> run' ⊆ run -> signals m n c run'.
Proof.
  intros H Hs. split; intros *; [by eapply sg_made|by eapply sg_open|by eapply sg_closed| |].
  - intros Hin. by eapply sg_running, Hs.
  - intros H1 [H2|H2]; (eapply sg_owner; [done|exact H1|]); [by left|right; by apply Hs].
Qed.

Section Watch.
Context {BTC : Btcec} {CE : ChainEnv} {BE : BreachEnv} (RS : RetributionStore) {RSS : RetributionStoreSpec RS}.
Implicit Types (w : watch RS) (a : arbiter RS) (st : RetState).

Definition signals_ok w : Prop :=
  signals (w_breachObservers RS w) (w_nextSignal RS w) (w_closedSignals RS w) (w_running RS w).

(** A call of the arbiter from the loop. *)
Lemma swp_w_call {A} (m : ST Env A) Q w :
  (forall r e, m (ba_env RS (w_arb RS w)) = (r, e) -> Q r (w_set_arb RS (ba_set_env RS e (w_arb RS w)) w)) ->
  swp (w_arbiter RS (ba_call RS m)) Q w.
Proof. intros H. apply swp_zoom, swp_ba_call. done. Qed.

(** The signals part of the state is not touched. *)
Definition same_signals w w' : Prop :=
  w_breachObservers RS w' = w_breachObservers RS w /\ w_nextSignal RS w' = w_nextSignal RS w
  /\ w_closedSignals RS w' = w_closedSignals RS w /\ w_running RS w' = w_running RS w.

#[local] Instance same_signals_preorder : PreOrder same_signals.
Proof. split; [by intros w|]. intros w1 w2 w3 (?&?&?&?) (?&?&?&?). repeat split; congruence. Qed.

Lemma signals_ok_same w w' : same_signals w w' -> signals_ok w -> signals_ok w'.
Proof. unfold signals_ok. by intros (-> & -> & -> & ->). Qed.

Lemma same_signals_arb {A} (m : BA RS A) w : swp (w_arbiter RS m) (fun _ w' => same_signals w w') w.
Proof. apply swp_zoom. unfold swp. done. Qed.

(** ** The cases of the loop *)

Lemma swp_onNewContract cp w :
  signals_ok w -> swp (onNewContract RS cp) (fun r w' => signals_ok w'
    /\ w_breachObservers RS w' !! cp = Some (w_nextSignal RS w)
    /\ (r = Ok tt \/ (exists e0 err e1, SubscribeChannelEvents cp e0 = (Err err, e1))
                      /\ r = Err (ErrPanic "nil pointer dereference"))) w.
Proof.
  intros H. set (n := w_nextSignal RS w).
  assert (exists w2, (w_arb RS w2 = w_arb RS w)
    /\ signals (<[cp := n]> (w_breachObservers RS w2)) (w_nextSignal RS w2) (w_closedSignals RS w2)
         (w_running RS w2 ++ [(cp, n)])
    /\ forall Q, swp (_ ← st_upd (fun w => w_set_observers RS (<[cp := n]> (w_breachObservers RS w)) w);
            chainEvents ← st_try (w_arbiter RS (ba_call RS (SubscribeChannelEvents cp)));
            match chainEvents with
            | Ok _ => st_upd (w_run RS cp n)
            | Err _ => st_fail (ErrPanic "nil pointer dereference")
            end) Q w2 -> swp (onNewContract RS cp) Q w) as (w2 & Ha & Hs & Hw).
  { destruct (w_breachObservers RS w !! cp) as [old|] eqn:Eo.
    - exists (w_add_closed RS old (makeSignal RS w).2). split; [done|]. split.
      { apply (signals_insert _ n (w_closedSignals RS w)); [exact H|]. simpl.
        intros s [->%elem_of_singleton|Hs]%elem_of_union; auto. }
      intros Q HQ. apply swp_bind. eapply swp_eq; [reflexivity|]. apply swp_bind. eapply swp_eq; [reflexivity|].
      cbn [w_breachObservers]. rewrite Eo. apply swp_bind. unfold closeSignal. eapply swp_eq.
      { cbn [w_closedSignals]. rewrite decide_False; [reflexivity|]. by eapply sg_open. }
      exact HQ.
    - exists (makeSignal RS w).2. split; [done|]. split.
      { apply (signals_insert _ n (w_closedSignals RS w)); [exact H|by left]. }
      intros Q HQ. apply swp_bind. eapply swp_eq; [reflexivity|]. apply swp_bind. eapply swp_eq; [reflexivity|].
      cbn [w_breachObservers]. rewrite Eo. apply swp_bind, swp_ret. exact HQ. }
  apply Hw, swp_bind. eapply swp_eq; [reflexivity|]. apply swp_bind, swp_try, swp_w_call.
  intros [[]|err] e E; cbn beta iota; (eapply swp_eq; [reflexivity|]).
  - split; [exact Hs|]. simpl. rewrite lookup_insert_eq. auto.
  - split; [eapply signals_sub; [exact Hs|apply list_subseteq_app_l; done]|]. simpl.
    rewrite lookup_insert_eq. split; [done|]. right. split; [|done]. eauto.
Qed.

Lemma swp_onSettled cp w :
  signals_ok w -> swp (onSettled RS cp) (fun r w' => r = Ok tt /\ signals_ok w'
    /\ w_breachObservers RS w' = delete cp (w_breachObservers RS w)
    /\ forall s, w_breachObservers RS w !! cp = Some s -> s ∈ w_closedSignals RS w') w.
Proof.
  intros H. apply swp_bind. eapply swp_eq; [reflexivity|]. cbn beta iota.
  destruct (w_breachObservers RS w !! cp) as [s|] eqn:E.
  - apply swp_bind. eapply swp_eq.
    { unfold closeSignal. rewrite decide_False; [reflexivity|]. by eapply sg_open. }
    cbn beta iota. eapply swp_eq; [reflexivity|]. split; [done|]. split; [|split; [done|]].
    + eapply signals_delete; [exact H|]. simpl. intros s' [->%elem_of_singleton|Hs]%elem_of_union; auto.
    + intros ? [= <-]. simpl. set_solver.
  - apply swp_ret. split; [done|]. split; [done|]. split; [|done]. by rewrite delete_id.
Qed.

Lemma swp_onBreached ret w :
  signals_ok w -> swp (onBreached RS ret) (fun r w' => r = Ok tt /\ signals_ok w') w.
Proof.
  intros H. apply swp_bind, swp_try, swp_w_call. intros [[]|err] e _.
  - apply swp_bind. eapply swp_eq; [reflexivity|]. cbn beta iota. eapply swp_eq; [reflexivity|].
    split; [done|]. eapply signals_delete; [exact H|by left].
  - by apply swp_ret.
Qed.

Lemma swp_watchChannels l w :
  signals_ok w -> swp (watchChannels RS l) (fun r w' => r = Ok tt /\ signals_ok w'
    /\ w_arb RS w' = w_arb RS w /\ w_tasks RS w' = w_tasks RS w
    /\ (forall cp, cp ∉ l -> w_breachObservers RS w' !! cp = w_breachObservers RS w !! cp)
    /\ (forall cp, cp ∈ l -> exists s, (cp, s) ∈ w_running RS w' /\ w_breachObservers RS w' !! cp = Some s)
    /\ w_running RS w ⊆ w_running RS w') w.
Proof.
  revert w. induction l as [|cp l IH]; intros w H.
  { apply swp_ret. do 5 (split; [done|]). split; [|done]. intros cp Hin. by apply not_elem_of_nil in Hin. }
  apply swp_bind, swp_bind. eapply swp_eq; [reflexivity|]. apply swp_bind. eapply swp_eq; [reflexivity|].
  eapply swp_eq; [reflexivity|]. cbn beta iota.
  match goal with |- swp _ _ ?x => set (w1 := x) end.
  assert (signals_ok w1) as H1 by (apply (signals_insert _ _ (w_closedSignals RS w)); [exact H|by left]).
  eapply swp_mono; [exact (IH w1 H1)|]. intros r w' (-> & H' & Ha & Ht & Hd & Hr & Hsub).
  do 4 (split; [done|]). split; [|split].
  - intros cp' [Hne Hn]%not_elem_of_cons. rewrite Hd by done. unfold w1. simpl. by rewrite lookup_insert_ne.
  - intros cp' Hin. destruct (decide (cp' ∈ l)) as [Hin'|Hn]; [by apply Hr|].
    apply elem_of_cons in Hin as [->|]; [|done]. exists (w_nextSignal RS w). rewrite Hd by done. unfold w1 in *. simpl in *.
    rewrite lookup_insert_eq. split; [|done]. apply Hsub, elem_of_app. right. by apply list_elem_of_singleton.
  - etrans; [|exact Hsub]. unfold w1. simpl. apply list_subseteq_app_l. done.
Qed.

(** What an observer does when it receives [ev]. *)
Lemma swp_breachObserver cp ev w :
  swp (breachObserver RS cp ev) (fun _ w' => same_signals w w') w.
Proof.
  destruct ev; [by apply swp_ret|apply swp_bind; by eapply swp_eq..|].
  apply swp_bind. eapply swp_eq; [reflexivity|]. cbn beta iota zeta.
  apply swp_bind, swp_try. eapply swp_mono; [apply same_signals_arb|]. intros err w1 H1.
  change (same_signals w w1) in H1.
  apply swp_bind. eapply swp_mono; [apply same_signals_arb|]. intros acked w2 H2.
  assert (same_signals w w2) as H by (by transitivity w1). destruct acked as [[]|e2]; [|by apply swp_ret|done].
  destruct err; [|by apply swp_ret].
  apply swp_bind. eapply swp_mono; [apply same_signals_arb|]. intros sent w3 H3.
  assert (same_signals w w3) as H' by (by transitivity w2). destruct sent as [[]|e3]; [|by apply swp_ret|done].
  eapply swp_eq; [reflexivity|]. done.
Qed.

(** An observed breach is recorded before anything else learns of it: after the
    observer has run, the link of the channel was closed, the store holds the
    retribution built from the breach next to all earlier records, and the loop is
    sent exactly that retribution or (when the node shuts down first, or the close
    watcher refuses) nothing. *)
Theorem breach_recorded cp bi w st r w' :
  rs_abs (ba_db RS (w_arb RS w)) st -> ret_fits (newRetributionInfo cp bi) ->
  breachObserver RS cp (EBreach bi) w = (r, w') ->
  let ret := newRetributionInfo cp bi in
  rs_abs (ba_db RS (w_arb RS w')) (mkRetState true (<[cp := ret]> (rs_info st)) (rs_final st))
  /\ w_closedLinks RS w' = w_closedLinks RS w ++ [cp]
  /\ (w_breached RS w' = w_breached RS w \/ w_breached RS w' = w_breached RS w ++ [ret])
  /\ ba_log RS (w_arb RS w') = ba_log RS (w_arb RS w)
  /\ w_breachObservers RS w' = w_breachObservers RS w.
Proof.
  intros Hst Hfit E ret. swp_after E w'. cbn [breachObserver].
  destruct (RS_Add_spec _ _ _ Hst Hfit) as (db' & Eadd & Hst').
  apply swp_bind. eapply swp_eq; [reflexivity|]. cbn beta iota zeta. apply swp_bind, swp_try, swp_zoom.
  eapply swp_ba_store; [exact Eadd|]. apply swp_bind, swp_w_call. intros [[]|e2] ? _.
  - apply swp_bind, swp_w_call. intros [[]|e3] ? _; [eapply swp_eq; [reflexivity|]|apply swp_ret|];
      (split; [exact Hst'|simpl; auto 6]).
  - apply swp_ret. split; [exact Hst'|simpl; auto 6].
  - split; [exact Hst'|simpl; auto 6].
Qed.

(** ** Restart *)

Lemma collect_retributions l (m : gmap OutPoint retributionInfo) :
  NoDup (ret_chanPoint <$> l) -> (forall r, r ∈ l <-> m !! ret_chanPoint r = Some r) ->
  (forall cp r, m !! cp = Some r -> ret_chanPoint r = cp) ->
  res_foldl (fun m ret => Ok (<[ret_chanPoint ret := ret]> m)) ∅ l = Ok m.
Proof.
  intros Hnd Hl Hk. assert (forall l (acc : gmap OutPoint retributionInfo),
    res_foldl (fun m ret => Ok (<[ret_chanPoint ret := ret]> m)) acc l
    = Ok (list_to_map (reverse ((fun r => (ret_chanPoint r, r)) <$> l)) ∪ acc)) as Hfold.
  { clear. induction l as [|r l IH]; intros acc; [simpl; by rewrite (left_id_L ∅ (∪))|].
    cbn [res_foldl]. rewrite IH. f_equal. rewrite fmap_cons, reverse_cons, list_to_map_app. simpl.
    rewrite insert_empty, <- (assoc_L (∪)), <- insert_union_singleton_l. done. }
  rewrite Hfold. f_equal. rewrite (right_id_L ∅ (∪)). apply map_eq. intros cp. apply option_eq. intros r.
  assert (NoDup (reverse ((fun r => (ret_chanPoint r, r)) <$> l)).*1) as Hnd'.
  { rewrite fmap_reverse, <- list_fmap_compose. rewrite reverse_Permutation. exact Hnd. }
  rewrite <- (elem_of_list_to_map _ _ _ Hnd'), elem_of_reverse, list_elem_of_fmap. split.
  - intros (r' & [= -> ->] & Hin). by apply Hl.
  - intros Hm. pose proof (Hk _ _ Hm) as <-. exists r. split; [done|]. by apply Hl.
Qed.

Lemma removeClosed_cons m cp p l :
  removeClosed RS m ((cp, p) :: l) =
  if (p : bool) then removeClosed RS m l
  else match m !! cp with
       | None => removeClosed RS m l
       | Some _ => _ ← ba_store RS (RS_Remove RS cp); removeClosed RS (delete cp m) l
       end.
Proof. done. Qed.

Lemma swp_removeClosed l st a :
  rs_abs (ba_db RS a) st ->
  swp (removeClosed RS (rs_info st) l) (fun r a' => exists st', r = Ok (rs_info st') /\ rs_abs (ba_db RS a') st'
    /\ (forall cp, rs_info st' !! cp = if decide ((cp, false) ∈ l) then None else rs_info st !! cp)
    /\ ba_env RS a' = ba_env RS a /\ ba_log RS a' = ba_log RS a) a.
Proof.
  revert st a. induction l as [|[cp p] l IH]; intros st a Hst.
  { apply swp_ret. exists st. split; [done|]. split; [done|]. split; [|done]. intros cp. rewrite decide_False; [done|].
    apply not_elem_of_nil. }
  rewrite removeClosed_cons.
  assert (rs_info st !! cp = None \/ p = true -> swp (removeClosed RS (rs_info st) l) (fun r a' => exists st',
    r = Ok (rs_info st') /\ rs_abs (ba_db RS a') st'
    /\ (forall cp', rs_info st' !! cp' = if decide ((cp', false) ∈ (cp, p) :: l) then None else rs_info st !! cp')
    /\ ba_env RS a' = ba_env RS a /\ ba_log RS a' = ba_log RS a) a) as Hskip.
  { intros Hc. eapply swp_mono; [apply IH, Hst|]. intros r a' (st' & Hr & Hst' & Hl & Hrest). exists st'.
    do 2 (split; [done|]). split; [|done]. intros cp'. rewrite Hl.
    destruct (decide ((cp', false) ∈ l)) as [Hin|Hn]; [by rewrite decide_True by (by right)|].
    destruct (decide (_ ∈ _ :: _)) as [[[= -> <-]|]%elem_of_cons|]; [|done|done]. by destruct Hc. }
  destruct p; [apply Hskip; by right|]. destruct (rs_info st !! cp) as [ret|] eqn:E; [|apply Hskip; by left].
  destruct (rs_abs_info _ _ _ _ Hst E) as (Hc & (_ & Hok & _) & Hcp). rewrite Hcp in Hok.
  pose proof (RS_Remove_spec _ _ cp Hst Hok) as Hrm. rewrite Hc in Hrm. destruct Hrm as (db' & Er & Hst').
  apply swp_bind. eapply swp_ba_store; [exact Er|]. set (a1 := ba_set_db RS db' a).
  eapply swp_mono; [apply (IH _ a1 Hst')|]. intros r a' (st' & Hr & Hst2 & Hl & Hrest). exists st'.
  do 2 (split; [done|]). split; [|done]. intros cp'. rewrite Hl. simpl.
  destruct (decide ((cp', false) ∈ l)) as [Hin|Hn]; [by rewrite decide_True by (by right)|].
  destruct (decide (_ ∈ _ :: _)) as [[[= ->]|]%elem_of_cons|Hn']; [by rewrite lookup_delete_eq|done|].
  rewrite lookup_delete_ne; [done|]. intros ->. apply Hn'. by left.
Qed.

Lemma swp_subscribeAll m l a :
  swp (subscribeAll RS m l) (fun r a' => calm RS a a'
    /\ forall l', r = Ok l' -> l' = filter (fun cp => m !! cp = None) l) a.
Proof.
  revert a. induction l as [|cp l IH]; intros a; [apply swp_ret; split; [done|]; by intros ? [= <-]|].
  cbn [subscribeAll]. rewrite filter_cons. destruct (m !! cp) eqn:E.
  - rewrite decide_False by done. apply IH.
  - rewrite decide_True by done. apply swp_bind, swp_ba_call. intros [[]|err] e _; [|by split].
    apply swp_bind. eapply swp_mono; [apply IH|]. intros [l1|err] a' [Hc Hl]; [|by split].
    apply swp_ret. split; [done|]. intros ? [= <-]. f_equal. by apply Hl.
Qed.

(** The loop of [Start] that starts a goroutine for each retribution. *)
Lemma swp_startTasks l w :
  swp (st_iter (fun retInfo =>
        _ ← w_arbiter RS (ba_call RS (RegisterConfirmationsNtfn (ret_commitHash retInfo) 1 (ret_breachHeight retInfo)));
        st_upd (w_task RS retInfo)) l)
    (fun r w' => same_signals w w' /\ calm RS (w_arb RS w) (w_arb RS w')
       /\ (r = Ok tt -> w_tasks RS w' = w_tasks RS w ++ l)) w.
Proof.
  revert w. induction l as [|ret l IH]; intros w; [apply swp_ret; by rewrite app_nil_r|].
  apply swp_bind, swp_bind, swp_w_call. intros [[]|err] e _; [|done].
  eapply swp_eq; [reflexivity|]. cbn beta iota. eapply swp_mono; [apply IH|].
  intros r w' (Hs & Hc & Ht). split; [exact Hs|]. split; [exact Hc|]. intros Hr. rewrite (Ht Hr). simpl.
  by rewrite <- app_assoc.
Qed.

(** What a started arbiter is: its tasks are the recorded retributions of channels
    that are not fully closed, which are the records left, and it watches the other
    open channels. *)
Definition resumed st (closed : list (OutPoint * bool)) (active : list OutPoint) w : Prop :=
  signals_ok w
  /\ exists st', rs_abs (ba_db RS (w_arb RS w)) st'
     /\ (forall cp, rs_info st' !! cp = if decide ((cp, false) ∈ closed) then None else rs_info st !! cp)
     /\ (forall ret, ret ∈ w_tasks RS w <-> rs_info st' !! ret_chanPoint ret = Some ret)
     /\ NoDup (ret_chanPoint <$> w_tasks RS w)
     /\ (forall cp, is_Some (w_breachObservers RS w !! cp) <-> cp ∈ active /\ rs_info st' !! cp = None)
     /\ (forall cp s, w_breachObservers RS w !! cp = Some s -> (cp, s) ∈ w_running RS w).

Lemma listed_retributions order db st :
  rs_abs db st -> (forall l, order l ≡ₚ l) ->
  NoDup (ret_chanPoint <$> order (map snd (map_to_list (rs_info st))))
  /\ forall ret, ret ∈ order (map snd (map_to_list (rs_info st))) <-> rs_info st !! ret_chanPoint ret = Some ret.
Proof.
  intros Hst Hord. change (map snd) with (fmap (M := list) (@snd OutPoint retributionInfo)). split.
  - rewrite Hord, <- list_fmap_compose. erewrite list_fmap_ext; [apply (NoDup_fst_map_to_list (rs_info st))|].
    intros i [cp ret] Hi. simpl. apply list_elem_of_lookup_2, elem_of_map_to_list in Hi.
    by destruct (rs_abs_info _ _ _ _ Hst Hi) as (_ & _ & ->).
  - intros ret. rewrite Hord, list_elem_of_fmap. split.
    + intros ([cp ret'] & -> & Hin%elem_of_map_to_list). simpl. by destruct (rs_abs_info _ _ _ _ Hst Hin) as (_ & _ & ->).
    + intros Hin. exists (ret_chanPoint ret, ret). split; [done|]. by apply elem_of_map_to_list.
Qed.

(** The second half of [Start], from the map of retributions on. *)
Lemma swp_resume order st closed st' active w :
  rs_abs (ba_db RS (w_arb RS w)) st' -> (forall l, order l ≡ₚ l) ->
  (forall cp, rs_info st' !! cp = if decide ((cp, false) ∈ closed) then None else rs_info st !! cp) ->
  signals_ok w -> w_tasks RS w = [] -> w_breachObservers RS w = ∅ ->
  swp (channelsToWatch ← w_arbiter RS (subscribeAll RS (rs_info st') active);
       _ ← st_iter (fun retInfo =>
         _ ← w_arbiter RS (ba_call RS (RegisterConfirmationsNtfn (ret_commitHash retInfo) 1 (ret_breachHeight retInfo)));
         st_upd (w_task RS retInfo)) (order (map snd (map_to_list (rs_info st'))));
       watchChannels RS channelsToWatch) (fun r w' => r = Ok tt -> resumed st closed active w') w.
Proof.
  intros Hst Hord Hinfo Hsig Ht Ho. apply swp_bind, swp_zoom. eapply swp_mono; [apply swp_subscribeAll|].
  intros [l'|err] a2 [[D2 _] Hw2]; [|done]. rewrite (Hw2 l' eq_refl).
  apply swp_bind. eapply swp_mono; [apply swp_startTasks|].
  intros [[]|err] w3 (Hs3 & [D3 _] & Ht3); [|done]. cbn [w_arb w_set_arb] in D3.
  eapply swp_mono; [apply swp_watchChannels; by eapply signals_ok_same|].
  intros r w' (-> & Hok' & Ha' & Ht' & Hd & Hr & _) _. split; [done|]. exists st'.
  rewrite Ha', D3, D2. split; [done|]. split; [done|]. rewrite Ht', (Ht3 eq_refl).
  cbn [w_tasks w_set_arb]. rewrite Ht, app_nil_l. destruct (listed_retributions order _ _ Hst Hord) as [Hnd Hin].
  split; [exact Hin|]. split; [exact Hnd|].
  destruct Hs3 as (Ho3 & _). cbn [w_breachObservers w_set_arb] in Ho3. rewrite Ho in Ho3.
  set (P := fun cp => rs_info st' !! cp = None) in *. split.
  - intros cp. split; [intros Hsome|intros [Hcp Hn]].
    + destruct (decide (cp ∈ filter P active)) as [Hcp|Hn]; [by apply list_elem_of_filter in Hcp as [? ?]|].
      rewrite (Hd _ Hn), Ho3, lookup_empty in Hsome. by destruct Hsome.
    + destruct (Hr cp) as (s & _ & ->); [by apply list_elem_of_filter|done].
  - intros cp s Hcs. destruct (decide (cp ∈ filter P active)) as [Hcp|Hn].
    + destruct (Hr _ Hcp) as (s' & Hrun & Heq). congruence.
    + rewrite (Hd _ Hn), Ho3, lookup_empty in Hcs. done.
Qed.

Lemma signals_new a : signals_ok (newBreachArbiter RS a).
Proof.
  split; intros *; cbn [w_breachObservers w_closedSignals w_running newBreachArbiter];
    rewrite ?lookup_empty; try done; intros H; by apply not_elem_of_nil in H || by apply not_elem_of_empty in H.
Qed.

Lemma swp_Start order a st :
  rs_abs (ba_db RS a) st -> (forall l, order l ≡ₚ l) ->
  swp (Start RS order) (fun r w => r = Ok tt -> exists closed e1 active ra e2,
    FetchClosedChannelSummaries (ba_env RS a) = (Ok closed, e1) /\ FetchAllChannels e1 = (ra, e2)
    /\ (ra = Ok active \/ ra = Err ErrNoActiveChannels /\ active = []) /\ resumed st closed active w)
    (newBreachArbiter RS a).
Proof.
  intros Hst Hord. unfold Start. apply swp_bind, swp_zoom.
  destruct (RS_ForAll_spec (ba_db RS a) st (A := gmap OutPoint retributionInfo)
    (fun m ret => Ok (<[ret_chanPoint ret := ret]> m)) ∅ Hst) as (l & Hnd & Hl & Efor).
  rewrite collect_retributions with (m := rs_info st) in Efor; [|done..|by intros cp r Hr; eapply rs_abs_info].
  eapply swp_eq; [unfold ba_query; cbn [w_arb newBreachArbiter]; by rewrite Efor|]. cbn beta iota.
  apply swp_bind, swp_w_call. intros [closed|err] e1 Ecl; [|done].
  apply swp_bind, swp_zoom. eapply swp_mono; [by apply swp_removeClosed|].
  intros r a1 (st' & -> & Hst' & Hinfo & He1 & _). cbn [ba_env ba_set_env w_arb w_set_arb] in He1.
  apply swp_bind, swp_try, swp_w_call. intros ra e2 Eall. cbn [w_arb w_set_arb] in Eall. rewrite He1 in Eall.
  destruct ra as [active|err].
  - apply swp_bind, swp_ret. eapply swp_mono; [apply swp_resume with (active := active); first [apply (signals_new a) | done]|].
    intros r w Hres Hr. exists closed, e1, active, (Ok active), e2. auto.
  - apply swp_bind. case_decide as Ee; [|done]. subst err. apply swp_ret.
    eapply swp_mono; [apply swp_resume with (active := []); first [apply (signals_new a) | done]|].
    intros r w Hres Hr. exists closed, e1, [], (Err ErrNoActiveChannels), e2. auto 6.
Qed.

(** C35: a restart forgets nothing.  When the arbiter starts, it exacts retribution for
    exactly the breaches the store remembers whose channels are not fully closed, one
    goroutine each; the records of fully closed channels are removed and no others;
    and every open channel without such a record is watched by an observer. *)
Theorem restart_resumes order a st w :
  rs_abs (ba_db RS a) st -> (forall l, order l ≡ₚ l) -> Start RS order (newBreachArbiter RS a) = (Ok tt, w) ->
  exists closed e1 active ra e2,
    FetchClosedChannelSummaries (ba_env RS a) = (Ok closed, e1) /\ FetchAllChannels e1 = (ra, e2)
    /\ (ra = Ok active \/ ra = Err ErrNoActiveChannels /\ active = []) /\ resumed st closed active w.
Proof. intros Hst Hord E. by apply (swp_elim _ _ _ _ _ (swp_Start order a st Hst Hord) E). Qed.

(** ** The running loop *)

Lemma signals_step w w' : signals_ok w -> wstep RS w w' -> signals_ok w'.
Proof.
  intros H. destruct 1 as [w i cp s ev r w' Hi He E|w i ret r w' Hi E|w cp r w' E|w i cp r w' Hi E].
  - eapply signals_ok_same; [exact (swp_elim _ _ _ _ _ (swp_breachObserver _ _ _) E)|].
    eapply signals_sub; [exact H|]. intros x. apply list_elem_of_delete_inv.
  - by apply (swp_elim _ _ _ _ _ (swp_onBreached _ (mkWatch RS _ _ _ _ _ _ _ _ _) H) E).
  - by apply (swp_elim _ _ _ _ _ (swp_onNewContract _ _ H) E).
  - by apply (swp_elim _ _ _ _ _ (swp_onSettled _ (mkWatch RS _ _ _ _ _ _ _ _ _) H) E).
Qed.

Lemma signals_Start order w :
  signals_ok w -> swp (Start RS order) (fun r w' => signals_ok w') w.
Proof.
  intros H. unfold Start.
  assert (forall A (m : BA RS A) w, signals_ok w -> swp (w_arbiter RS m) (fun _ => signals_ok) w) as Hc.
  { intros A m w0 H0. eapply swp_mono; [apply same_signals_arb|]. intros r w1 Hs. eapply signals_ok_same; [exact Hs|done]. }
  apply swp_bind. eapply swp_mono; [by apply Hc|]. intros [m|e] w1 H1; [|done].
  apply swp_bind. eapply swp_mono; [by apply Hc|]. intros [cl|e] w2 H2; [|done].
  apply swp_bind. eapply swp_mono; [by apply Hc|]. intros [m'|e] w3 H3; [|done].
  apply swp_bind, swp_try. eapply swp_mono; [by apply Hc|]. intros act w4 H4.
  apply swp_bind. assert (forall l, swp (channelsToWatch ← w_arbiter RS (subscribeAll RS m' l);
       _ ← st_iter (fun retInfo =>
         _ ← w_arbiter RS (ba_call RS (RegisterConfirmationsNtfn (ret_commitHash retInfo) 1 (ret_breachHeight retInfo)));
         st_upd (w_task RS retInfo)) (order (map snd (map_to_list m')));
       watchChannels RS channelsToWatch) (fun _ => signals_ok) w4) as Hrest.
  { intros l. apply swp_bind. eapply swp_mono; [by apply Hc|]. intros [l'|e] w5 H5; [|done].
    apply swp_bind. eapply swp_mono; [apply swp_startTasks|]. intros r w6 (Hs & _).
    assert (signals_ok w6) as H6 by (eapply signals_ok_same; [exact Hs|done]). destruct r as [u|e]; [|done].
    eapply swp_mono; [by apply swp_watchChannels|]. by intros r w7 (_ & ? & _). }
  destruct act as [l|e]; [by apply swp_ret|]. case_decide; [by apply swp_ret|done].
Qed.

Lemma watching_signals w : watching RS w -> signals_ok w.
Proof.
  induction 1 as [a order w E|w w' _ IH Hs]; [|by eapply signals_step].
  exact (swp_elim _ _ _ _ _ (signals_Start order _ (signals_new a)) E).
Qed.

(** In every reachable state of the loop, the settle signal of a watched channel is
    open and belongs to that channel alone, so handling a settled channel never closes
    a signal twice: it succeeds, stops the observer of that channel, and no other. *)
Theorem settle_signal_safe w cp r w' :
  watching RS w -> onSettled RS cp w = (r, w') ->
  r = Ok tt /\ w_breachObservers RS w' = delete cp (w_breachObservers RS w)
  /\ (forall s, w_breachObservers RS w !! cp = Some s -> s ∈ w_closedSignals RS w')
  /\ (forall cp' s, w_breachObservers RS w' !! cp' = Some s -> s ∉ w_closedSignals RS w').
Proof.
  intros Hw E. apply watching_signals in Hw.
  destruct (swp_elim _ _ _ _ _ (swp_onSettled cp w Hw) E) as (-> & Hok & Ho & Hs). do 3 (split; [done|]).
  intros cp' s. by eapply sg_open.
Qed.

(** A new contract, also of a channel that is being watched already, is watched
    under a fresh signal and the signal of the old observer is closed once.  The only
    way this fails is a failing subscription to the channel's events: the observer is
    started nevertheless and dereferences the missing subscription. *)
Theorem new_contract_watched w cp r w' :
  watching RS w -> onNewContract RS cp w = (r, w') ->
  watching RS w' /\ w_breachObservers RS w' !! cp = Some (w_nextSignal RS w)
  /\ (w_nextSignal RS w ∉ w_closedSignals RS w')
  /\ (r = Ok tt \/ (exists e0 err e1, SubscribeChannelEvents cp e0 = (Err err, e1))
                    /\ r = Err (ErrPanic "nil pointer dereference")).
Proof.
  intros Hw E. split; [eapply watching_step; [done|by eapply wstep_new]|]. apply watching_signals in Hw.
  destruct (swp_elim _ _ _ _ _ (swp_onNewContract cp w Hw) E) as (Hok & Ho & Hr). split; [done|].
  split; [by eapply sg_open|done].
Qed.

End Watch.
