(* ===== verification/BreachExamples.v ===== *)
(** * The breach arbiter at work

    A concrete outside world in which the cheating party moves its HTLC to the second
    level when the arbiter tries to take it, runs of the arbiter in it that show the
    hypotheses of the theorems can hold, and the run in which it crashes. *)

From Stdlib Require Import ZArith Lia.
From Stdlib Require Import Init.Byte.
From stdpp Require Import base gmap countable strings numbers list.
From S2P Require Import Prelude Stream Tx Outputs Bolt RetributionStore Effects Sweep BreachArbiter BreachProps.
From S2P Require Import BreachLive BreachWatch.
Local Open Scope Z_scope.

Module BreachRuns.
#[local] Existing Instance toy_btcec.

(** ** A concrete outside world

    The state says whether the HTLC has been moved, whether one can subscribe to
    the events of a channel, and what has been accepted. *)
Record world := mkWorld { moved : bool; online : bool; pool : list bytes }.

Definition htlc_op : OutPoint := toy_op 22.
Definition second_tx : MsgTx := mkMsgTx 2 [mkTxIn htlc_op [] [] 0] [mkTxOut 45000 (toy_hash 6)] 500.

Definition toy_txid (tx : MsgTx) : bytes :=
  copy_into (zeros 32) (match tx_TxIn tx with ti :: _ => op_Hash (txi_PreviousOutPoint ti) | [] => [] end).

Definition Spent (e : world) : gmap OutPoint MsgTx := if moved e then {[ htlc_op := second_tx ]} else ∅.

Definition publish (tx : MsgTx) (e : world) : res () * world :=
  if decide (htlc_op ∈ map txi_PreviousOutPoint (tx_TxIn tx)) then (Err ErrDoubleSpend, mkWorld true (online e) (pool e))
  else (Ok tt, mkWorld (moved e) (online e) (toy_txid tx :: pool e)).

Definition toy_chain : ChainEnv.
Proof.
  refine {|
    Env := world;
    GenSweepScript := fun e => (Ok (replicate 22 x01), e);
    EstimateFeePerVSize := fun _ e => (Ok 10, e);
    PublishTransaction := publish;
    RegisterConfirmationsNtfn := fun _ _ _ e => (Ok tt, e);
    GetBestBlock := fun e => (Ok 450, e);
    GenWitnessFunc := fun _ _ _ _ _ => Ok [[x01]];
    TxHash := toy_txid
  |}.
  intros tx. unfold toy_txid, copy_into. rewrite length_app, length_take, length_drop.
  change (length (zeros 32)) with 32%nat. lia.
Defined.
#[local] Existing Instance toy_chain.

#[local] Instance toy_breach_env : BreachEnv := {|
  RegisterSpendNtfn := fun _ _ e => (Ok tt, e);
  PollSpend := fun op e => (Ok (from_option SpentBy NotSpent (Spent e !! op)), e);
  Quitting := fun e => (Ok false, e);
  AwaitConfirmation := fun h e => (Ok (bool_decide (h ∈ pool e)), e);
  MarkChanFullyClosed := fun _ e => (Ok tt, e);
  SendACK := fun _ _ e => (Ok true, e);
  SendBreached := fun e => (Ok true, e);
  SubscribeChannelEvents := fun _ e => (if online e then Ok tt else Err (ErrExternal 1), e);
  FetchClosedChannelSummaries := fun e => (Ok [(toy_op 10, true); (toy_op 30, false)], e);
  FetchAllChannels := fun e => (Ok [toy_op 10; toy_op 40], e)
|}.

#[local] Instance toy_standard : StandardSigner.
Proof. intros wt sd c t i w [= <-]. split; [simpl; lia|]. apply Forall_singleton. simpl. lia. Qed.

Definition quiet : Env := mkWorld false true [].
Definition offline : Env := mkWorld false false [].

(** A breach with both commitment outputs and one incoming HTLC. *)
Definition breach0 : BreachRetribution :=
  mkBreachRetribution toy_tx 440 (toy_hash 1) (Some (toy_sd 60000)) (toy_op 20) (Some (toy_sd 70000)) (toy_op 21)
    [mkHtlcRetribution (toy_sd 50000) htlc_op (toy_hash 7) true].
Definition ret0 : retributionInfo := newRetributionInfo (toy_op 10) breach0.
Definition outs0 : list breachedOutput := ret_breachedOutputs ret0.
Definition htlc0 : breachedOutput := makeBreachedOutput htlc_op HtlcAcceptedRevoke (toy_hash 7) (toy_sd 50000).
Definition second0 : breachedOutput :=
  match convertToSecondLevelRevoke htlc0 second_tx with Ok o => o | Err _ => htlc0 end.
Definition outs1 : list breachedOutput := take 2 outs0 ++ [second0].

(** The store after the breach was recorded, and next to it a retribution of a channel
    that is fully closed. *)
Definition B : RetributionStore := boltRetributionStore.
#[local] Instance B_spec : RetributionStoreSpec B := boltRetributionStore_spec.
Definition ret1 : retributionInfo := newRetributionInfo (toy_op 30) breach0.
Definition db0 : bucket := (Add ret0 []).2.
Definition db1 : bucket := (Add ret1 db0).2.
Definition st0 : RetState := mkRetState true (<[toy_op 10 := ret0]> ∅) ∅.
Definition st1 : RetState := mkRetState true (<[toy_op 30 := ret1]> (<[toy_op 10 := ret0]> ∅)) ∅.

Lemma ret0_fits : ret_fits ret0.
Proof. split; [by_eval|]. by vm_compute. Qed.
Lemma ret1_fits : ret_fits ret1.
Proof. split; [by_eval|]. by vm_compute. Qed.

Lemma recorded0 : rs_rel db0 st0.
Proof. destruct (Add_refines [] rs_empty ret0 rs_rel_empty ret0_fits) as (db' & E & _ & H). unfold db0. by rewrite E. Qed.

Lemma recorded1 : rs_rel db1 st1.
Proof. destruct (Add_refines db0 st0 ret1 recorded0 ret1_fits) as (db' & E & _ & H). unfold db1. by rewrite E. Qed.

Definition a0 : arbiter B := mkArbiter B db0 quiet [].
Definition a1 : arbiter B := mkArbiter B db1 quiet [].

Lemma holds0 : rs_abs (ba_db B a0) st0.
Proof. exact recorded0. Qed.
Lemma holds1 : rs_abs (ba_db B a1) st1.
Proof. exact recorded1. Qed.

Lemma chan_ok : OutPoint_ok (ret_chanPoint ret0).
Proof. by_eval. Qed.
Lemma outs_ok : outputs_ok (ret_breachedOutputs ret0).
Proof. by_eval. Qed.

(** ** Witnesses *)

Definition justice0 : MsgTx := match (createJusticeTx ret0 quiet).1 with Ok t => t | Err _ => toy_tx end.

Lemma justice_tx_correct_witness :
  exists script rate e1,
    GenSweepScript quiet = (Ok script, e1) /\ EstimateFeePerVSize 2 e1 = (Ok rate, quiet)
    /\ (Forall (fun o => 0 <= bo_amt o) (spendable ret0) -> justice_amount ret0 < 2 ^ 63 ->
        0 <= justice_fee rate ret0 < 2 ^ 63 ->
        sweeps (justice_inputs ret0) (mkTxOut (justice_amount ret0 - justice_fee rate ret0) script) 0 justice0
        /\ (length script = 22%nat ->
            justice_fee rate ret0 = rate * ((4 * SerializeSizeStripped (unsigned justice0) + WitnessHeaderSize
                                             + sum_Z (justice_weights ret0) + 3) / 4))).
Proof. apply (justice_tx_correct ret0 quiet justice0 quiet). vm_compute. reflexivity. Defined.

Lemma justice_tx_succeeds_witness : exists tx, createJusticeTx ret0 quiet = (Ok tx, quiet).
Proof.
  apply (justice_tx_succeeds ret0 quiet (replicate 22 x01) quiet 10 quiet).
  - reflexivity.
  - reflexivity.
  - intros E. apply (f_equal length) in E. vm_compute in E. discriminate.
  - by_eval.
  - repeat constructor; try (by vm_compute); intros; by eexists.
  - split; by vm_compute.
  - by vm_compute.
  - by vm_compute.
Defined.

Definition justice1 : MsgTx :=
  match (createJusticeTx (with_outputs ret0 outs1) quiet).1 with Ok t => t | Err _ => toy_tx end.

Lemma outs1_followed : Forall2 followed outs0 outs1.
Proof.
  constructor; [by left|]. constructor; [by left|]. constructor; [|constructor].
  right. split; [by left|]. exists second_tx. reflexivity.
Qed.

Lemma justice_takes_everything_witness :
  map txi_PreviousOutPoint (tx_TxIn justice1) = map bo_outpoint outs1
  /\ length outs1 = (length (option_list (br_LocalOutputSignDesc breach0))
                     + length (option_list (br_RemoteOutputSignDesc breach0))
                     + length (br_HtlcRetributions breach0))%nat.
Proof.
  apply (justice_takes_everything (toy_op 10) breach0 outs1 quiet justice1 quiet outs1_followed).
  vm_compute. reflexivity.
Defined.

(** The HTLC is moved when the first justice transaction comes in; the second takes
    the second level output. *)
Definition a2 : arbiter B := (exactRetribution B 3 (Some 450) ret0 a0).2.

Lemma exact_retribution_safe_witness :
  retribution_run B (ret_chanPoint ret0)
    (fun tx => rs_final st0 !! ret_chanPoint ret0 = Some tx \/ justice_for ret0 tx) 3 st0 a0 (Ok Returned) a2.
Proof. apply (exact_retribution_safe B 3 450 ret0 st0 a0 (Ok Returned) a2 holds0 chan_ok outs_ok). by_run a2. Defined.

Definition spent_outputs : Env -> gmap OutPoint MsgTx := Spent.

Definition accepted : Env -> gset bytes := fun e => list_to_set (pool e).

Lemma world_reliable : reliable spent_outputs accepted ret0.
Proof.
  unfold spent_outputs. assert (forall e outs, Forall2 (seen Spent e) outs0 outs -> outs = outs0 \/ moved e = true /\ outs = outs1) as Hseen.
  { intros [m o q] outs H. inversion_clear H as [|? o1 ? l1 H1 Ha]. inversion_clear Ha as [|? o2 ? l2 H2 Hb].
    inversion_clear Hb as [|? o3 ? l3 H3 Hc]. inversion_clear Hc.
    destruct H1 as [->|[[Hh|Hh] _]]; [|done|done]. destruct H2 as [->|[[Hh|Hh] _]]; [|done|done].
    destruct H3 as [->|(_ & tx & Hl & Hc)]; [by left|]. right. unfold Spent in Hl. destruct m; simpl in Hl; [|done].
    split; [done|]. assert (tx = second_tx) as -> by (vm_compute in Hl; injection Hl as <-; by vm_compute).
    change (convertToSecondLevelRevoke htlc0 second_tx = Ok o3) in Hc.
    assert (o3 = second0) as -> by (unfold second0; by rewrite Hc). reflexivity. }
  split; try (intros; eexists; split; done || done).
  - intros e. by eexists _, e.
  - intros e. by eexists _, e.
  - intros outs script e1 rate e2 e [->|[_ ->]]%Hseen [= <- <-] [= <- <-]; (split; [vm_compute; reflexivity|eexists; vm_compute; reflexivity]).
  - intros tx e. cbn [PublishTransaction toy_chain]. unfold publish. case_decide as Hd.
    + eexists. split; [|right; split; [done|]].
      * unfold Spent. simpl. destruct (moved e); [done|apply map_empty_subseteq].
      * apply list_elem_of_fmap in Hd as (ti & Hop & Hin). exists ti. split; [done|]. rewrite <- Hop.
        unfold Spent. simpl. rewrite lookup_singleton_eq. by eexists.
    + eexists. split; [|left; split; [done|]]; [done|]. unfold accepted. cbn. set_solver.
  - intros h e Hh. unfold accepted in Hh. apply elem_of_list_to_set in Hh. exists e. cbn. by rewrite bool_decide_eq_true_2.
  - intros o e Hin Hn. unfold Spent. destruct (moved e); [|apply lookup_empty].
    apply lookup_singleton_ne. intros Heq. apply Hn.
    repeat (apply elem_of_cons in Hin as [->|Hin]); [done|done|by left|by apply not_elem_of_nil in Hin].
  - intros o tx e _. unfold Spent. destruct (moved e); [|by rewrite lookup_empty].
    intros [_ <-]%lookup_singleton_Some. split; [done|]. by apply lookup_singleton_ne.
Qed.


Definition w1 : watch B := (Start B id (newBreachArbiter B a1)).2.

Lemma w1_watching : watching B w1.
Proof. apply (watching_start B a1 id). by_run w1. Qed.

Lemma restart_resumes_witness :
  exists closed e1 active ra e2,
    FetchClosedChannelSummaries (ba_env B a1) = (Ok closed, e1) /\ FetchAllChannels e1 = (ra, e2)
    /\ (ra = Ok active \/ ra = Err ErrNoActiveChannels /\ active = []) /\ resumed B st1 closed active w1.
Proof. apply (restart_resumes B id a1 st1 w1 holds1); [done|]. by_run w1. Defined.

Definition w2 : watch B := (onSettled B (toy_op 40) w1).2.

Lemma settle_signal_safe_witness :
  Ok tt = Ok tt /\ w_breachObservers B w2 = delete (toy_op 40) (w_breachObservers B w1)
  /\ (forall s, w_breachObservers B w1 !! toy_op 40 = Some s -> s ∈ w_closedSignals B w2)
  /\ (forall cp' s, w_breachObservers B w2 !! cp' = Some s -> s ∉ w_closedSignals B w2).
Proof. apply (settle_signal_safe B w1 (toy_op 40) (Ok tt) w2 w1_watching). by_run w2. Defined.

(** The subscription fails for a channel that opens while the node runs. *)
Definition w1off : watch B := w_set_arb B (ba_set_env B offline (w_arb B w1)) w1.
Definition w3 : watch B := (onNewContract B (toy_op 40) w1).2.

Lemma new_contract_watched_witness :
  watching B w3 /\ w_breachObservers B w3 !! toy_op 40 = Some (w_nextSignal B w1)
  /\ (w_nextSignal B w1 ∉ w_closedSignals B w3)
  /\ (@Ok () tt = Ok tt \/ (exists e0 err e1, SubscribeChannelEvents (toy_op 40) e0 = (Err err, e1))
                    /\ @Ok () tt = Err (ErrPanic "nil pointer dereference")).
Proof. apply (new_contract_watched B w1 (toy_op 40) (Ok tt) w3 w1_watching). by_run w3. Defined.

(** A contract that opens while the subscription to its events cannot be had crashes
    the node: the failed subscription is logged and its nil result passed on. *)
Theorem subscribe_failure_panics :
  (onNewContract B (toy_op 50) w1off).1 = Err (ErrPanic "nil pointer dereference").
Proof. by_eval. Qed.

Definition wnew : watch B := newBreachArbiter B (mkArbiter B [] quiet []).
Definition w4 : watch B := (breachObserver B (toy_op 10) (EBreach breach0) wnew).2.

Lemma holds_new : rs_abs (ba_db B (w_arb B wnew)) rs_empty.
Proof. exact rs_rel_empty. Qed.

Lemma breach_recorded_witness :
  rs_abs (ba_db B (w_arb B w4)) (mkRetState true (<[toy_op 10 := ret0]> (rs_info rs_empty)) (rs_final rs_empty))
  /\ w_closedLinks B w4 = [] ++ [toy_op 10]
  /\ (w_breached B w4 = [] \/ w_breached B w4 = [] ++ [ret0])
  /\ ba_log B (w_arb B w4) = [] /\ w_breachObservers B w4 = ∅.
Proof.
  apply (breach_recorded B (toy_op 10) breach0 wnew rs_empty (Ok tt) w4 holds_new ret0_fits). by_run w4.
Defined.

(** Two breaches are recorded, one is finalized, the other removed. *)
Definition ops0 : list rs_op := [OpAdd ret0; OpAdd ret1; OpFinalize (toy_op 10) justice0; OpRemove (toy_op 30)].

Lemma retribution_store_correct_witness :
  let db := foldl (fun db o => rs_run o db) [] ops0 in
  let st := foldl (fun st o => rs_spec o st) rs_empty ops0 in
  IsBreached (toy_op 10) db = Ok (bool_decide (is_Some (rs_info st !! toy_op 10)))
  /\ GetFinalizedTxn (toy_op 10) db = Ok (rs_final st !! toy_op 10)
  /\ frame [] db
  /\ exists l, NoDup (ret_chanPoint <$> l) /\ (forall r, r ∈ l <-> rs_info st !! ret_chanPoint r = Some r)
       /\ ForAll (fun n _ => Ok (S n)) 0%nat db = res_foldl (fun n _ => Ok (S n)) 0%nat l.
Proof.
  apply (retribution_store_correct ops0 (toy_op 10) (fun n _ => Ok (S n)) 0%nat); [|by_eval].
  constructor; [exact ret0_fits|]. constructor; [exact ret1_fits|]. constructor; [|constructor; [by_eval|constructor]].
  split; [by_eval|]. split; [by_eval|]. by vm_compute.
Defined.

End BreachRuns.
