(* ===== verification/GoStrings.v ===== *)
(** * Strings, addresses and paths

    What the configuration of the daemon uses of Go's packages strings, strconv, net,
    path/filepath and regexp: searching and splitting, decimal numbers, hosts with ports,
    clean paths, and the regular expressions that find a setting in the configuration file of
    a chain backend. *)

From Stdlib Require Import ZArith Lia.
From Stdlib Require Import Init.Byte.
From stdpp Require Import base sets strings numbers list.
From S2P Require Import Prelude.
Local Open Scope Z_scope.

Definition chr_colon : byte := x3a.
Definition chr_slash : byte := x2f.
Definition chr_open : byte := x5b.
Definition chr_close : byte := x5d.

(** ** Package strings *)

Fixpoint Contains (s sub : bytes) : bool :=
  has_prefix sub s || match s with [] => false | _ :: s' => Contains s' sub end.

Definition contains_byte (c : byte) (s : bytes) : bool := bool_decide (c ∈ s).

(** [Split] at a separator of one character: never empty. *)
Fixpoint Split (s : bytes) (sep : byte) : list bytes :=
  match s with
  | [] => [[]]
  | c :: s' =>
      if bool_decide (c = sep) then [] :: Split s' sep
      else match Split s' sep with w :: ws => (c :: w) :: ws | [] => [[c]] end
  end.

Fixpoint Join (ws : list bytes) (sep : bytes) : bytes :=
  match ws with
  | [] => []
  | [w] => w
  | w :: ws => w ++ sep ++ Join ws sep
  end.

(** [strings.Replace(s, string(c), new, 1)] *)
Fixpoint replace_first (c : byte) (new s : bytes) : bytes :=
  match s with
  | [] => []
  | x :: s' => if bool_decide (x = c) then new ++ s' else x :: replace_first c new s'
  end.

Lemma Contains_app s1 sub s2 : Contains (s1 ++ sub ++ s2) sub = true.
Proof.
  induction s1 as [|c s1 IH]; cbn [app Contains]; [|by rewrite IH, orb_true_r].
  assert (has_prefix sub (sub ++ s2) = true) as H by (by apply has_prefix_spec; exists s2).
  destruct (sub ++ s2); cbn [Contains]; by rewrite H.
Qed.

Lemma Contains_spec s sub : Contains s sub = true <-> exists s1 s2, s = s1 ++ sub ++ s2.
Proof.
  split; [|intros (s1 & s2 & ->); apply Contains_app].
  induction s as [|c s IH]; cbn [Contains]; rewrite orb_true_iff; intros [H|H]; try done.
  - apply has_prefix_spec in H as [s2 H]. by exists [], s2.
  - apply has_prefix_spec in H as [s2 H]. by exists [], s2.
  - destruct (IH H) as (s1 & s2 & ->). by exists (c :: s1), s2.
Qed.

Lemma Split_nonempty s sep : Split s sep <> [].
Proof. destruct s as [|c s]; cbn [Split]; [done|]. case_bool_decide; [done|]. by destruct (Split s sep). Qed.

(** The parts joined again are the string, and no part has the separator. *)
Lemma Join_Split s sep : Join (Split s sep) [sep] = s /\ Forall (fun w => sep ∉ w) (Split s sep).
Proof.
  induction s as [|c s [IH1 IH2]]; cbn [Split]; [split; [done|]; constructor; [set_solver|constructor]|].
  pose proof (Split_nonempty s sep) as Hn. case_bool_decide as E.
  - subst c. split; [|constructor; [set_solver|done]]. rewrite <- IH1 at 2. by destruct (Split s sep).
  - destruct (Split s sep) as [|w ws]; [done|]. apply Forall_cons in IH2 as [Hw IH2]. split; [|constructor; [set_solver|done]].
    rewrite <- IH1. by destruct ws.
Qed.

Lemma Split_word w sep : sep ∉ w -> Split w sep = [w].
Proof.
  induction w as [|c w IH]; [done|]. intros H. cbn [Split]. case_bool_decide; [set_solver|]. rewrite IH by set_solver. done.
Qed.

Lemma Split_app w sep s : sep ∉ w -> Split (w ++ sep :: s) sep = w :: Split s sep.
Proof.
  induction w as [|c w IH]; intros H; cbn [app Split]; [by rewrite bool_decide_eq_true_2|].
  case_bool_decide; [set_solver|]. rewrite IH by set_solver. done.
Qed.

Lemma Split_Join ws sep : ws <> [] -> Forall (fun w => sep ∉ w) ws -> Split (Join ws [sep]) sep = ws.
Proof.
  intros Hn HF. induction HF as [|w ws Hw HF IH]; [done|]. destruct ws as [|w' ws]; [by apply Split_word|].
  cbn [Join app]. rewrite Split_app by done. f_equal. by apply IH.
Qed.

(** ** Package strconv *)

Definition digit (c : byte) : option Z :=
  let v := Z_of_byte c in if (48 <=? v) && (v <=? 57) then Some (v - 48) else None.

Fixpoint digits (s : bytes) (acc : Z) : option Z :=
  match s with
  | [] => Some acc
  | c :: s' => match digit c with Some d => digits s' (acc * 10 + d) | None => None end
  end.

Definition cut_sign (s : bytes) : bool * bytes :=
  match s with
  | c :: r => if bool_decide (c = x2d) then (true, r) else if bool_decide (c = x2b) then (false, r) else (false, s)
  | [] => (false, [])
  end.

(** [Atoi] into an [int] of 64 bits *)
Definition Atoi (s : bytes) : res Z :=
  let (neg, ds) := cut_sign s in
  match ds, digits ds 0 with
  | _ :: _, Some n =>
      let v := if neg : bool then - n else n in
      if bool_decide (- 2 ^ 63 <= v < 2 ^ 63) then Ok v else Err (ErrNew "value out of range")
  | _, _ => Err (ErrNew "invalid syntax")
  end.

Lemma cut_sign_spec s neg ds : cut_sign s = (neg, ds) -> exists sign, s = sign ++ ds /\ sign ∈ [[]; [x2d]; [x2b]].
Proof.
  destruct s as [|c r]; cbn; [intros [= <- <-]; exists []; split; [done|by left]|].
  repeat case_bool_decide; intros [= <- <-]; subst; [exists [x2d]|exists [x2b]|exists []]; (split; [done|set_solver]).
Qed.

Lemma digits_only c ds n acc : digits ds acc = Some n -> digit c = None -> c ∉ ds.
Proof.
  revert acc. induction ds as [|d ds IH]; intros acc; [set_solver|]. cbn. destruct (digit d) as [v|] eqn:Ed; [|done].
  intros Hds Hc [-> |Hin]%elem_of_cons; [by rewrite Hc in Ed|]. by apply (IH _ Hds Hc).
Qed.

(** ** Package net *)

(** What is before and after the last [c]. *)
Fixpoint cut_last (c : byte) (s : bytes) : option (bytes * bytes) :=
  match s with
  | [] => None
  | x :: s' =>
      match cut_last c s' with
      | Some (a, b) => Some (x :: a, b)
      | None => if bool_decide (x = c) then Some ([], s') else None
      end
  end.

(** What is before and after the first [c]. *)
Fixpoint cut_first (c : byte) (s : bytes) : option (bytes * bytes) :=
  match s with
  | [] => None
  | x :: s' => if bool_decide (x = c) then Some ([], s') else
      match cut_first c s' with Some (a, b) => Some (x :: a, b) | None => None end
  end.

(** With a bracket in front the host ends at the first closing bracket, which has to stand
    before the last colon. *)
Definition SplitHostPort (hostport : bytes) : res (bytes * bytes) :=
  match cut_last chr_colon hostport with
  | None => Err (ErrNew "missing port in address")
  | Some (before, port) =>
      match hostport with
      | x5b :: inner =>
          match cut_first chr_close inner with
          | None => Err (ErrNew "missing ']' in address")
          | Some (host, rest) =>
              match rest with
              | [] => Err (ErrNew "missing port in address")
              | x3a :: after =>
                  if contains_byte chr_colon after then Err (ErrNew "too many colons in address")
                  else if contains_byte chr_open inner then Err (ErrNew "unexpected '[' in address")
                  else if contains_byte chr_close rest then Err (ErrNew "unexpected ']' in address")
                  else Ok (host, after)
              | _ => Err (ErrNew "missing port in address")
              end
          end
      | _ =>
          if contains_byte chr_colon before then Err (ErrNew "too many colons in address")
          else if contains_byte chr_open hostport then Err (ErrNew "unexpected '[' in address")
          else if contains_byte chr_close hostport then Err (ErrNew "unexpected ']' in address")
          else Ok (before, port)
      end
  end.

Definition JoinHostPort (host port : bytes) : bytes :=
  if contains_byte chr_colon host then chr_open :: host ++ chr_close :: chr_colon :: port
  else host ++ chr_colon :: port.

Lemma cut_last_none c s : c ∉ s -> cut_last c s = None.
Proof.
  induction s as [|x s IH]; [done|]. intros H. cbn [cut_last]. rewrite IH by set_solver. case_bool_decide; [set_solver|done].
Qed.

Lemma cut_last_app c s r : c ∉ r -> cut_last c (s ++ c :: r) = Some (s, r).
Proof.
  intros H. induction s as [|x s IH]; cbn [app cut_last]; [|by rewrite IH]. rewrite cut_last_none by done.
  by rewrite bool_decide_eq_true_2.
Qed.

Lemma cut_first_app c s r : c ∉ s -> cut_first c (s ++ c :: r) = Some (s, r).
Proof.
  induction s as [|x s IH]; intros H; cbn [app cut_first]; [by rewrite bool_decide_eq_true_2|].
  case_bool_decide; [set_solver|]. rewrite IH by set_solver. done.
Qed.

(** No bracket in a string. *)
Definition plain (s : bytes) : Prop := chr_open ∉ s /\ chr_close ∉ s.

#[global] Instance plain_dec s : Decision (plain s).
Proof. unfold plain. apply _. Defined.

Lemma contains_byte_false c s : c ∉ s -> contains_byte c s = false.
Proof. intros H. unfold contains_byte. by rewrite bool_decide_eq_false_2. Qed.

Lemma Split_JoinHostPort host port :
  plain host -> plain port -> chr_colon ∉ port -> SplitHostPort (JoinHostPort host port) = Ok (host, port).
Proof.
  intros [Ho Hc] [Po Pc] Pp. unfold JoinHostPort. unfold contains_byte at 1. case_bool_decide as E.
  - unfold SplitHostPort. replace (chr_open :: host ++ chr_close :: chr_colon :: port) with ((chr_open :: host ++ [chr_close]) ++ chr_colon :: port) at 1
      by (cbn; by rewrite <- app_assoc). rewrite cut_last_app by done. cbn [chr_open]. rewrite cut_first_app by done.
    unfold chr_colon. rewrite !contains_byte_false; [done|unfold chr_close, chr_open, chr_colon in *; set_solver..].
  - unfold SplitHostPort. rewrite cut_last_app by done.
    assert (contains_byte chr_colon host = false) as -> by (by apply contains_byte_false).
    assert (contains_byte chr_open (host ++ chr_colon :: port) = false) as ->
      by (apply contains_byte_false; unfold chr_open, chr_colon in *; set_solver).
    assert (contains_byte chr_close (host ++ chr_colon :: port) = false) as ->
      by (apply contains_byte_false; unfold chr_close, chr_colon in *; set_solver).
    destruct host as [|c host]; [done|]. cbn [app]. destruct c; try done. exfalso. apply Ho. unfold chr_open. set_solver.
Qed.

Lemma Atoi_plain s z : Atoi s = Ok z -> plain s /\ chr_colon ∉ s.
Proof.
  unfold Atoi. destruct (cut_sign s) as [neg ds] eqn:E. apply cut_sign_spec in E as (sign & -> & Hs). destruct (digits ds 0) as [n|] eqn:Hn; [|destruct ds; [done|by rewrite Hn]].
  intros _. assert (forall c, c ∈ [chr_open; chr_close; chr_colon] -> c ∉ sign ++ ds) as Hall.
  { intros c Hc. rewrite elem_of_app. intros [Hin|Hin].
    - rewrite !elem_of_cons, elem_of_nil in Hs. rewrite !elem_of_cons, elem_of_nil in Hc. destruct Hs as [-> |[-> |[-> |[]]]]; [set_solver|..];
        apply list_elem_of_singleton in Hin as ->; by destruct Hc as [? |[? |[? |[]]]].
    - revert Hin. apply (digits_only c ds n 0 Hn). revert Hc. rewrite !elem_of_cons, elem_of_nil. intros [-> |[-> |[-> |[]]]]; reflexivity. }
  split; [split|]; apply Hall; unfold chr_open, chr_close, chr_colon; set_solver.
Qed.

(** ** Package path/filepath *)

(** The elements of a clean path, the last one first. *)
Definition clean_step (rooted : bool) (acc : list bytes) (e : bytes) : list bytes :=
  if bool_decide (e = []) || bool_decide (e = str ".") then acc
  else if bool_decide (e = str "..") then
    match acc with
    | top :: acc' => if bool_decide (top = str "..") then e :: acc else acc'
    | [] => if rooted then [] else [e]
    end
  else e :: acc.

Definition Clean (path : bytes) : bytes :=
  let rooted := match path with x2f :: _ => true | _ => false end in
  let out := Join (reverse (foldl (clean_step rooted) [] (Split path chr_slash))) [chr_slash] in
  if rooted : bool then chr_slash :: out else if bool_decide (out = []) then str "." else out.

(** [filepath.Join]: empty elements in front are left out. *)
Fixpoint path_Join (elem : list bytes) : bytes :=
  match elem with
  | [] => []
  | e :: rest => if bool_decide (e = []) then path_Join rest else Clean (Join elem [chr_slash])
  end.

(** [path.Dir] *)
Definition path_Dir (path : bytes) : bytes :=
  match cut_last chr_slash path with Some (dir, _) => Clean (dir ++ [chr_slash]) | None => str "." end.

(** ** Settings in a file *)

(** [\s] *)
Definition space (c : byte) : bool := bool_decide (c ∈ [x09; x0a; x0c; x0d; x20]).

Fixpoint skip_space (s : bytes) : bytes :=
  match s with c :: s' => if space c then skip_space s' else s | [] => [] end.

Fixpoint take_word (s : bytes) : bytes :=
  match s with c :: s' => if space c then [] else c :: take_word s' | [] => [] end.

Fixpoint strip_prefix (pre s : bytes) : option bytes :=
  match pre, s with
  | [], _ => Some s
  | x :: pre, y :: s => if bool_decide (x = y) then strip_prefix pre s else None
  | _, [] => None
  end.

(** A match of [\s*key\s*=\s*([^\s]+)] at the beginning of [s]. *)
Definition match_setting (key s : bytes) : option bytes :=
  match strip_prefix key (skip_space s) with
  | None => None
  | Some r =>
      match skip_space r with
      | x3d :: v => match take_word (skip_space v) with [] => None | w => Some w end
      | _ => None
      end
  end.

(** The leftmost match of [(?m)^\s*key\s*=\s*([^\s]+)]: one that begins where a line does. *)
Fixpoint find_from (key s : bytes) (line_start : bool) : option bytes :=
  match (if line_start then match_setting key s else None) with
  | Some w => Some w
  | None => match s with [] => None | c :: s' => find_from key s' (bool_decide (c = x0a)) end
  end.

Definition find_setting (key contents : bytes) : option bytes := find_from key contents true.

Lemma strip_prefix_spec pre s r : strip_prefix pre s = Some r <-> s = pre ++ r.
Proof.
  revert s. induction pre as [|x pre IH]; intros s; [cbn; naive_solver|]. destruct s as [|y s]; cbn; [naive_solver|].
  case_bool_decide; [subst; rewrite IH; naive_solver|naive_solver].
Qed.

(** The value that is found is a word of the file. *)
Lemma take_word_spec s : Forall (fun c => space c = false) (take_word s) /\ exists r, s = take_word s ++ r.
Proof.
  induction s as [|c s [IH1 [r IH2]]]; cbn [take_word]; [by split; [|exists []]|]. destruct (space c) eqn:E; [by split; [|exists (c :: s)]|].
  split; [by constructor|]. exists r. cbn. by rewrite <- IH2.
Qed.

Lemma skip_space_spec s : exists sp, Forall (fun c => space c = true) sp /\ s = sp ++ skip_space s.
Proof.
  induction s as [|c s (sp & IH1 & IH2)]; cbn [skip_space]; [by exists []|]. destruct (space c) eqn:E; [|by exists []].
  exists (c :: sp). split; [by constructor|]. cbn. by rewrite <- IH2.
Qed.

(** [w] stands at the beginning of [s] behind the key and an equals sign, with nothing but
    space between, and is a word. *)
Definition setting_at (key s w : bytes) : Prop :=
  w <> [] /\ Forall (fun c => space c = false) w
  /\ exists sp1 sp2 sp3 after, s = sp1 ++ key ++ sp2 ++ x3d :: sp3 ++ w ++ after /\ Forall (fun c => space c = true) (sp1 ++ sp2 ++ sp3).

Lemma match_setting_sound key s w : match_setting key s = Some w -> setting_at key s w.
Proof.
  unfold match_setting. destruct (strip_prefix key (skip_space s)) as [r|] eqn:Er; [|done]. apply strip_prefix_spec in Er.
  destruct (skip_space_spec s) as (sp1 & F1 & E1), (skip_space_spec r) as (sp2 & F2 & E2). destruct (skip_space r) as [|x v]; [done|].
  destruct x; try done. destruct (skip_space_spec v) as (sp3 & F3 & E3). destruct (take_word_spec (skip_space v)) as (Fw & after & Ew).
  destruct (take_word (skip_space v)) as [|c0 w0] eqn:Et; [done|]. intros [= <-]. split; [done|]. split; [done|].
  exists sp1, sp2, sp3, after. split; [|by rewrite !Forall_app]. by rewrite <- Ew, <- E3, <- E2, <- Er.
Qed.

(** What is found stands in the file where a line begins. *)
Lemma find_from_sound key s ls w :
  find_from key s ls = Some w ->
  exists before rest, s = before ++ rest /\ setting_at key rest w /\ ((before = [] /\ ls = true) \/ exists b, before = b ++ [x0a]).
Proof.
  revert ls. induction s as [|c s IH]; intros ls; cbn [find_from];
    (destruct (if ls then match_setting key _ else None) as [w0|] eqn:E;
     [intros [= <-]; destruct ls; [|done]; eexists [], _; split; [done|]; split; [by apply match_setting_sound|by left]|]); [done|].
  intros (before & rest & -> & Hs & Hb)%IH. exists (c :: before), rest. split; [done|]. split; [done|]. right.
  destruct Hb as [[-> Hc%bool_decide_eq_true]|[b ->]]; [exists []; by subst|by exists (c :: b)].
Qed.

Lemma find_setting_sound key contents w :
  find_setting key contents = Some w ->
  exists before rest, contents = before ++ rest /\ setting_at key rest w /\ (before = [] \/ exists b, before = b ++ [x0a]).
Proof. intros (before & rest & E & Hs & Hb)%find_from_sound. exists before, rest. naive_solver. Qed.

(** A word: no space, and not empty. *)
Definition word (w : bytes) : Prop := w <> [] /\ Forall (fun c => space c = false) w.

Definition chr_newline : byte := x0a.

(** A line that sets a key. *)
Definition write_setting (key w : bytes) : bytes := key ++ x3d :: w ++ [chr_newline].

Lemma take_word_line w s : Forall (fun c => space c = false) w -> take_word (w ++ chr_newline :: s) = w.
Proof. induction 1 as [|c w Hc _ IH]; [done|]. cbn. rewrite Hc. by rewrite IH. Qed.

Lemma skip_space_word w s : word w -> skip_space (w ++ s) = w ++ s.
Proof. intros [Hn Hw]. destruct w as [|c w]; [done|]. apply Forall_cons in Hw as [Hc _]. cbn. by rewrite Hc. Qed.

Lemma strip_prefix_app pre s : strip_prefix pre (pre ++ s) = Some s.
Proof. by apply strip_prefix_spec. Qed.

Lemma find_setting_line key w s : word key -> word w -> find_setting key (write_setting key w ++ s) = Some w.
Proof.
  intros Hk Hw. assert (match_setting key (write_setting key w ++ s) = Some w) as H.
  { unfold match_setting, write_setting. rewrite <- !app_assoc. cbn [app]. rewrite <- app_assoc. cbn [app]. rewrite skip_space_word, strip_prefix_app by done.
    cbn [skip_space]. change (space x3d) with false. cbn iota. rewrite skip_space_word by done.
    destruct Hw as [Hn Hw]. rewrite take_word_line by done. by destruct w. }
  unfold find_setting. destruct (write_setting key w ++ s) as [|c r]; cbn [find_from]; by rewrite H.
Qed.

(** A line without the key is passed over. *)
Lemma find_from_line key line s : chr_newline ∉ line -> find_from key (line ++ chr_newline :: s) false = find_from key s true.
Proof.
  induction line as [|c line IH]; intros Hn; cbn [app find_from]; [by rewrite bool_decide_eq_true_2|].
  rewrite bool_decide_eq_false_2 by (unfold chr_newline in Hn; set_solver). apply IH. set_solver.
Qed.

Lemma space_newline w : Forall (fun c => space c = false) w -> chr_newline ∉ w.
Proof. intros H Hin. rewrite Forall_forall in H. specialize (H _ Hin). discriminate. Qed.

Lemma find_setting_skip key line s :
  chr_newline ∉ line -> match_setting key (line ++ chr_newline :: s) = None -> find_setting key (line ++ chr_newline :: s) = find_setting key s.
Proof.
  intros Hn Hm. unfold find_setting. destruct line as [|c line]; cbn [app find_from] in *; rewrite Hm; [by rewrite bool_decide_eq_true_2|].
  rewrite bool_decide_eq_false_2 by (unfold chr_newline in Hn; set_solver). apply find_from_line. set_solver.
Qed.

Lemma find_setting_other key key' w s :
  word key' -> word w -> strip_prefix key (write_setting key' w ++ s) = None -> find_setting key (write_setting key' w ++ s) = find_setting key s.
Proof.
  intros Hk Hw Hs. assert (write_setting key' w ++ s = (key' ++ x3d :: w) ++ chr_newline :: s) as E
    by (unfold write_setting; rewrite <- !app_assoc; cbn [app]; by rewrite <- app_assoc).
  rewrite E. apply find_setting_skip.
  - pose proof (space_newline key' (proj2 Hk)). pose proof (space_newline w (proj2 Hw)). rewrite elem_of_app, elem_of_cons. intros [?|[?|?]]; done.
  - rewrite <- E. unfold match_setting. replace (skip_space (write_setting key' w ++ s)) with (write_setting key' w ++ s); [by rewrite Hs|].
    unfold write_setting. rewrite <- app_assoc. by rewrite skip_space_word.
Qed.
