(* ===== verification/RpcBase.v ===== *)
(** * What the RPC calls share

    Hex strings (encoding/hex), amounts (lnwire/msat.go), payment requests
    (vendor/github.com/lightningnetwork/lnd/zpay32/invoice.go) and the fee rate of a
    request (rpcserver.go, [determineFeePerVSize]).  A Go string is its bytes.  The bech32
    form of a payment request is an interface: what is encoded can be decoded again. *)

From Stdlib Require Import ZArith Lia.
From Stdlib Require Import Init.Byte.
From stdpp Require Import base gmap strings numbers list.
From S2P Require Import Prelude Stream Outputs Bolt InvoiceStore.
Local Open Scope Z_scope.

(** ** encoding/hex *)

Definition hextable (v : Z) : byte := byte_of_Z (if v <? 10 then 48 + v else 87 + v).

Definition fromHexChar (c : byte) : option Z :=
  let z := Z_of_byte c in
  if (48 <=? z) && (z <=? 57) then Some (z - 48)
  else if (97 <=? z) && (z <=? 102) then Some (z - 97 + 10)
  else if (65 <=? z) && (z <=? 70) then Some (z - 65 + 10)
  else None.

Definition hex_EncodeToString (src : bytes) : bytes :=
  concat (map (fun b => [hextable (Z.shiftr (Z_of_byte b) 4); hextable (Z.land (Z_of_byte b) 15)]) src).

Fixpoint hex_pairs (src : bytes) : res bytes :=
  match src with
  | a :: b :: src =>
      match fromHexChar a, fromHexChar b with
      | Some x, Some y =>
          match hex_pairs src with Ok l => Ok (byte_of_Z (Z.lor (Z.shiftl x 4) y) :: l) | Err e => Err e end
      | _, _ => Err (ErrNew "encoding/hex: invalid byte")
      end
  | _ => Ok []
  end.

Definition hex_DecodeString (src : bytes) : res bytes :=
  if Nat.odd (length src) then Err (ErrNew "encoding/hex: odd length hex string") else hex_pairs src.

(** The two digits of a byte. *)
Definition hex_digits_ok (b : byte) : bool :=
  match fromHexChar (hextable (Z.shiftr (Z_of_byte b) 4)), fromHexChar (hextable (Z.land (Z_of_byte b) 15)) with
  | Some x, Some y => bool_decide (byte_of_Z (Z.lor (Z.shiftl x 4) y) = b)
  | _, _ => false
  end.

Lemma hex_digits_all b : hex_digits_ok b = true.
Proof. destruct b; vm_compute; reflexivity. Qed.

Lemma hex_pairs_encode src : hex_pairs (hex_EncodeToString src) = Ok src.
Proof.
  induction src as [|b src IH]; [done|]. unfold hex_EncodeToString in *. cbn [map concat app hex_pairs]. rewrite IH.
  pose proof (hex_digits_all b) as H. unfold hex_digits_ok in H.
  destruct (fromHexChar _); [|done]. destruct (fromHexChar _); [|done]. apply bool_decide_eq_true_1 in H. by rewrite H.
Qed.

Lemma hex_length src : length (hex_EncodeToString src) = (2 * length src)%nat.
Proof.
  unfold hex_EncodeToString. induction src as [|b src IH]; [done|]. cbn [map concat app length]. rewrite IH. lia.
Qed.

Lemma hex_roundtrip src : hex_DecodeString (hex_EncodeToString src) = Ok src.
Proof.
  unfold hex_DecodeString. rewrite hex_length, Nat.odd_mul. apply hex_pairs_encode.
Qed.

(** A hash is shown in reverse order ([chainhash.Hash.String]). *)
Definition hash_String (h : bytes) : bytes := hex_EncodeToString (reverse h).

(** ** Amounts *)

Definition ToSatoshis (m : Z) : Z := m / 1000.

Definition maxPaymentMSat : Z := 2 ^ 32 - 1.

(** ** Fee rates *)

Definition determineFeePerVSize (estimate : Z -> res Z) (targetConf feePerByte : Z) : res Z :=
  if negb (targetConf =? 0) then
    match estimate (u32 targetConf) with Err _ => Err (ErrNew "unable to query fee estimator") | Ok r => Ok r end
  else if negb (feePerByte =? 0) then Ok feePerByte
  else match estimate 6 with Err _ => Err (ErrNew "unable to query fee estimator") | Ok r => Ok r end.

(** ** Time and addresses

    [instant] is the time in nanoseconds since the epoch, [time_Unix] is [time.Unix(s, 0)]. *)
Class RpcEnv {IE : InvoiceEnv} := {
  instant : Time -> Z;
  time_Unix : Z -> Time;
  IsZero : Time -> bool;
  Address : Type;
  DecodeAddress : bytes -> res Address;
  AddressString : Address -> bytes;
  instant_time_Unix s : 0 <= s < 2 ^ 35 -> instant (time_Unix s) = s * 10 ^ 9;
  IsZero_zero : IsZero time_zero = true
}.

Definition second : Z := 10 ^ 9.

Section PayReq.
Context {IE : InvoiceEnv} {RE : RpcEnv} {BTC : Btcec}.

(** [t.Unix()] *)
Definition Unix (t : Time) : Z := instant t / second.

(** ** Payment requests *)

Record ExtraRoutingInfo := mkExtraRoutingInfo {
  ri_PubKey : PublicKey;
  ri_ShortChanID : Z;
  ri_FeeBaseMsat : Z;
  ri_FeeProportionalMillionths : Z;
  ri_CltvExpDelta : Z
}.

(** [zpay32.Invoice]; the network is the one the daemon runs on. *)
Record PayReq := mkPayReq {
  pq_MilliSat : option Z;
  pq_Timestamp : Time;
  pq_PaymentHash : option bytes;
  pq_Destination : option PublicKey;
  pq_minFinalCLTVExpiry : option Z;
  pq_Description : option bytes;
  pq_DescriptionHash : option bytes;
  pq_expiry : option Z;
  pq_FallbackAddr : option Address;
  pq_RoutingInfo : list ExtraRoutingInfo
}.

(** The functional options. *)
Definition zpay_Amount (m : Z) (i : PayReq) : PayReq :=
  mkPayReq (Some m) (pq_Timestamp i) (pq_PaymentHash i) (pq_Destination i) (pq_minFinalCLTVExpiry i) (pq_Description i)
    (pq_DescriptionHash i) (pq_expiry i) (pq_FallbackAddr i) (pq_RoutingInfo i).
Definition zpay_CLTVExpiry (d : Z) (i : PayReq) : PayReq :=
  mkPayReq (pq_MilliSat i) (pq_Timestamp i) (pq_PaymentHash i) (pq_Destination i) (Some d) (pq_Description i)
    (pq_DescriptionHash i) (pq_expiry i) (pq_FallbackAddr i) (pq_RoutingInfo i).
Definition zpay_Description (d : bytes) (i : PayReq) : PayReq :=
  mkPayReq (pq_MilliSat i) (pq_Timestamp i) (pq_PaymentHash i) (pq_Destination i) (pq_minFinalCLTVExpiry i) (Some d)
    (pq_DescriptionHash i) (pq_expiry i) (pq_FallbackAddr i) (pq_RoutingInfo i).
Definition zpay_DescriptionHash (h : bytes) (i : PayReq) : PayReq :=
  mkPayReq (pq_MilliSat i) (pq_Timestamp i) (pq_PaymentHash i) (pq_Destination i) (pq_minFinalCLTVExpiry i)
    (pq_Description i) (Some h) (pq_expiry i) (pq_FallbackAddr i) (pq_RoutingInfo i).
Definition zpay_Expiry (e : Z) (i : PayReq) : PayReq :=
  mkPayReq (pq_MilliSat i) (pq_Timestamp i) (pq_PaymentHash i) (pq_Destination i) (pq_minFinalCLTVExpiry i)
    (pq_Description i) (pq_DescriptionHash i) (Some e) (pq_FallbackAddr i) (pq_RoutingInfo i).
Definition zpay_FallbackAddr (a : Address) (i : PayReq) : PayReq :=
  mkPayReq (pq_MilliSat i) (pq_Timestamp i) (pq_PaymentHash i) (pq_Destination i) (pq_minFinalCLTVExpiry i)
    (pq_Description i) (pq_DescriptionHash i) (pq_expiry i) (Some a) (pq_RoutingInfo i).

(** The lengths of arrays are given by their types. *)
Definition validatePayReq (i : PayReq) : res () :=
  match pq_PaymentHash i with
  | None => Err (ErrNew "no payment hash found")
  | Some _ =>
      match pq_Description i, pq_DescriptionHash i with
      | Some _, Some _ => Err (ErrNew "both description and description hash set")
      | None, None => Err (ErrNew "neither description nor description hash set")
      | _, _ => if (20 <? length (pq_RoutingInfo i))%nat then Err (ErrNew "too many extra hops") else Ok tt
      end
  end.

Definition zpay_NewInvoice (paymentHash : bytes) (timestamp : Time) (options : list (PayReq -> PayReq)) : res PayReq :=
  let invoice := foldl (fun i o => o i) (mkPayReq None timestamp (Some paymentHash) None None None None None None []) options in
  match validatePayReq invoice with Err e => Err e | Ok _ => Ok invoice end.

Definition Expiry (i : PayReq) : Z := default (3600 * second) (pq_expiry i).

Definition DefaultFinalCLTVDelta : Z := 9.
Definition MinFinalCLTVExpiry (i : PayReq) : Z := default DefaultFinalCLTVDelta (pq_minFinalCLTVExpiry i).

(** What an encoding keeps: whole seconds, and the key of the signer as the destination. *)
Definition transmitted (signer : PublicKey) (i : PayReq) : PayReq :=
  mkPayReq (pq_MilliSat i) (time_Unix (Unix (pq_Timestamp i))) (pq_PaymentHash i)
    (Some (default signer (pq_Destination i))) (pq_minFinalCLTVExpiry i) (pq_Description i) (pq_DescriptionHash i)
    (pq_expiry i) (pq_FallbackAddr i) (pq_RoutingInfo i).

(** What the 35 bits of the time stamp and the fields can hold exactly. *)
Definition encodable (i : PayReq) : Prop :=
  (forall m, pq_MilliSat i = Some m -> 0 < m < 2 ^ 64) /\ 0 <= Unix (pq_Timestamp i) < 2 ^ 35
  /\ (forall d, pq_minFinalCLTVExpiry i = Some d -> 0 <= d < 2 ^ 64)
  /\ (forall e, pq_expiry i = Some e -> exists s, 0 < s /\ e = s * second /\ e < 2 ^ 63).

End PayReq.

(** The bech32 form of a payment request, signed by the node. *)
Class Zpay32 {IE : InvoiceEnv} {RE : RpcEnv} {BTC : Btcec} := {
  node_key : PublicKey;
  zpay_Encode : PayReq -> res bytes;
  zpay_Decode : bytes -> res PayReq;
  zpay_Decode_Encode i s : encodable i -> zpay_Encode i = Ok s -> zpay_Decode s = Ok (transmitted node_key i);
  zpay_Decode_nil : is_ok (zpay_Decode []) = false;
  zpay_Decode_hash s i h : zpay_Decode s = Ok i -> pq_PaymentHash i = Some h -> length h = 32%nat;
  zpay_Decode_amount s i m : zpay_Decode s = Ok i -> pq_MilliSat i = Some m -> 0 <= m < 2 ^ 64
}.
