(* ===== verification/Bootstrap.v ===== *)
(** * Finding peers and announcing the node

    server.go, [peerBootstrapper], [genNodeAnnouncement] and [Peers].  The bootstrapper is a
    goroutine that wakes up with a ticker and starts goroutines that dial; its state is that
    of the server ([Server]) and its own counters, a step is one tick or the end of one dial,
    and the sources of addresses are inputs.  Durations are in nanoseconds. *)

From Stdlib Require Import ZArith Lia.
From Stdlib Require Import Init.Byte.
From stdpp Require Import base gmap strings numbers list.
From S2P Require Import Prelude Effects Server ServerSafe ServerInv ServerProps.
Local Open Scope Z_scope.

(** ** [peerBootstrapper] *)

Definition backOffCeiling : Z := 5 * 60 * 1000000000.
Definition initialBackOff : Z := 15 * 1000000000.

(** A goroutine that dials a node; the first ones do not count their errors. *)
Record dial := mkDial { dl_pub : bytes; dl_addr : Addr; dl_counts : bool }.

(** [bs_queries] are the questions put to the sources: the nodes to leave out and the number
    of addresses. *)
Record bootstrapper := mkBootstrapper {
  bs_backOff : Z;
  bs_epochErrors : Z;
  bs_epochAttempts : Z;
  bs_dials : list dial;
  bs_queries : list (gset bytes * Z)
}.

(** The start: without an answer the goroutine ends. *)
Definition bootstrap_start (numTargetPeers : Z) (answer : res (list (bytes * Addr))) : option bootstrapper :=
  match answer with
  | Err _ => None
  | Ok addrs => Some (mkBootstrapper initialBackOff 0 0 (map (fun a => mkDial a.1 a.2 false) addrs) [(∅, numTargetPeers)])
  end.

(** The keys of the peers that are connected. *)
Definition ignoreList (s : server) : gset bytes :=
  list_to_set ((fun q : bytes * nat => match sv_peers s !! q.2 with Some pr => p_pub pr | None => [] end) <$> map_to_list (peersByPub s)).

Definition numActivePeers (s : server) : Z := u32 (Z.of_nat (size (peersByPub s))).

(** What the loop does on a tick; [answer] is what the sources find. *)
Definition sample_tick (numTargetPeers : Z) (s : server) (answer : res (list (bytes * Addr))) (b : bootstrapper) : bootstrapper :=
  if numTargetPeers <=? numActivePeers s then b
  else if (0 <? bs_epochAttempts b) && (bs_epochAttempts b <=? bs_epochErrors b) then
    let doubled := i64 (bs_backOff b * 2) in
    mkBootstrapper (if backOffCeiling <? doubled then backOffCeiling else doubled) (bs_epochErrors b) (bs_epochAttempts b) (bs_dials b) (bs_queries b)
  else
    let numNeeded := u32 (numTargetPeers - numActivePeers s) in
    let queries := bs_queries b ++ [(ignoreList s, u32 (numNeeded * 2))] in
    match answer with
    | Err _ => mkBootstrapper (bs_backOff b) 0 0 (bs_dials b) queries
    | Ok peerAddrs =>
        mkBootstrapper (bs_backOff b) 0 (foldl (fun n _ => u32 (n + 1)) 0 peerAddrs)
          (bs_dials b ++ map (fun a => mkDial a.1 a.2 true) peerAddrs) queries
    end.

(** A dial ends: with a connection, which the server gets, or with an error. *)
Definition dial_failed (d : dial) (b : bootstrapper) : bootstrapper :=
  if dl_counts d then mkBootstrapper (bs_backOff b) (u32 (bs_epochErrors b + 1)) (bs_epochAttempts b) (bs_dials b) (bs_queries b) else b.

Definition remove_dial (i : nat) (b : bootstrapper) : bootstrapper :=
  mkBootstrapper (bs_backOff b) (bs_epochErrors b) (bs_epochAttempts b) (delete i (bs_dials b)) (bs_queries b).

Inductive bs_event :=
  | BTick (answer : res (list (bytes * Addr)))
  | BDialFailed (i : nat)
  | BDialed (i : nat) (conn : Conn)
  | BServer (i : sv_input).

(** One step of the bootstrapper, of one of its goroutines, or of the rest of the server. *)
Definition bs_step (graph : bytes -> option (list Addr)) (numTargetPeers : Z) (e : bs_event) (sb : server * bootstrapper) : option (server * bootstrapper) :=
  let (s, b) := sb in
  match e with
  | BTick answer => Some (s, sample_tick numTargetPeers s answer b)
  | BDialFailed i => match bs_dials b !! i with Some d => Some (s, dial_failed d (remove_dial i b)) | None => None end
  | BDialed i conn =>
      match bs_dials b !! i with
      | Some d => if decide (cn_RemotePub conn = dl_pub d) then Some ((OutboundPeerConnected graph None conn s).2, remove_dial i b) else None
      | None => None
      end
  | BServer i => Some ((handle graph i s).2, b)
  end.

Fixpoint bs_run (graph : bytes -> option (list Addr)) (numTargetPeers : Z) (es : list bs_event) (sb : server * bootstrapper) : option (server * bootstrapper) :=
  match es with
  | [] => Some sb
  | e :: es => match bs_step graph numTargetPeers e sb with Some sb' => bs_run graph numTargetPeers es sb' | None => None end
  end.

(** ** The server under the bootstrapper *)

(** What the rest of the server gets is allowed. *)
Definition bs_event_ok (allowed : sv_input -> Prop) (e : bs_event) : Prop :=
  match e with BServer i => input_ok i /\ allowed i | BDialed _ conn => allowed (IOutbound None conn) | _ => True end.

Definition counters_ok (b : bootstrapper) : Prop :=
  initialBackOff <= bs_backOff b <= backOffCeiling /\ is_u32 (bs_epochErrors b) /\ is_u32 (bs_epochAttempts b).

Lemma attempts_u32 {A} (l : list A) n : is_u32 n -> is_u32 (foldl (fun n _ => u32 (n + 1)) n l).
Proof. revert n. induction l as [|a l IH]; intros n Hn; [done|]. cbn. apply IH. apply u32_range. Qed.

Lemma tick_ok numTargetPeers s answer b : counters_ok b -> counters_ok (sample_tick numTargetPeers s answer b).
Proof.
  intros (Hb & He & Ha). unfold sample_tick. destruct (_ <=? _); [done|]. destruct (_ && _).
  - assert (i64 (bs_backOff b * 2) = bs_backOff b * 2) as -> by (apply i64_id; unfold is_i64, initialBackOff, backOffCeiling in *; lia).
    split; [|done]. cbn. destruct (Z.ltb_spec backOffCeiling (bs_backOff b * 2)); unfold initialBackOff, backOffCeiling in *; lia.
  - destruct answer as [addrs|e]; (split; [done|]; split; [by unfold is_u32; cbn|]); [|by unfold is_u32; cbn]. by apply attempts_u32.
Qed.

Lemma failed_ok d b : counters_ok b -> counters_ok (dial_failed d b).
Proof. intros (Hb & He & Ha). unfold dial_failed. destruct (dl_counts d); [|done]. split; [done|]. split; [apply u32_range|done]. Qed.

(** The bootstrapper connects through the server: with any number of dials at any time the
    server only reaches states it can reach by inputs of its own, so that its invariants
    hold; and the time between two samples stays between 15 seconds and 5 minutes. *)
Theorem bootstrap_safe graph identity allowed numTargetPeers addrs es s b0 b :
  bootstrap_start numTargetPeers (Ok addrs) = Some b0 -> Forall (bs_event_ok allowed) es ->
  bs_run graph numTargetPeers es (newServer identity, b0) = Some (s, b) ->
  sv_reach graph identity allowed s /\ initialBackOff <= bs_backOff b <= backOffCeiling.
Proof.
  intros [= <-] Hes. set (b0 := mkBootstrapper _ _ _ _ _). assert (counters_ok b0) as Hb0 by (by repeat split).
  assert (sv_reach graph identity allowed (newServer identity)) as H0 by constructor. clearbody b0. revert H0 Hb0. generalize (newServer identity).
  revert b0. induction Hes as [|e es He Hes IH]; intros b0 s0 Hs Hb; cbn [bs_run]; [intros [= <- <-]; split; [done|apply Hb]|].
  destruct (bs_step graph numTargetPeers e (s0, b0)) as [[s1 b1]|] eqn:E; [|done]. intros H. eapply IH; [| |exact H]; clear IH H.
  - destruct e as [answer|i|i conn|i]; cbn [bs_step] in E; [by injection E as <- _|destruct (bs_dials b0 !! i); [by injection E as <- _|done]| |].
    + destruct (bs_dials b0 !! i) as [d|]; [|done]. case_decide; [|done]. injection E as <- _.
      destruct (OutboundPeerConnected graph None conn s0) as [r s2] eqn:E2. by apply (sv_next _ _ _ s0 (IOutbound None conn) r).
    + injection E as <- _. destruct He as [Hok Hal]. destruct (handle graph i s0) as [r s2] eqn:E2. by apply (sv_next _ _ _ s0 i r).
  - destruct e as [answer|i|i conn|i]; cbn [bs_step] in E; [injection E as _ <-; by apply tick_ok|destruct (bs_dials b0 !! i); [injection E as _ <-; by apply failed_ok|done]| |by injection E as _ <-].
    destruct (bs_dials b0 !! i); [|done]. case_decide; [|done]. by injection E as _ <-.
Qed.

(** ** The questions it asks *)

(** A sample that is taken while peers are missing asks for twice as many addresses as
    are missing, leaving out exactly the nodes that are connected. *)
Lemma tick_query graph identity allowed numTargetPeers s answer b :
  sv_reach graph identity allowed s -> is_u32 numTargetPeers -> numTargetPeers < 2 ^ 31 -> Z.of_nat (size (peersByPub s)) < numTargetPeers ->
  bs_epochErrors b < bs_epochAttempts b \/ bs_epochAttempts b = 0 -> 
  bs_queries (sample_tick numTargetPeers s answer b)
  = bs_queries b ++ [(dom (peersByPub s), 2 * (numTargetPeers - Z.of_nat (size (peersByPub s))))].
Proof.
  intros Hr Ht Hlt Hn He. unfold sample_tick, numActivePeers. unfold is_u32 in Ht. rewrite (u32_id (Z.of_nat _)) by (unfold is_u32; lia).
  destruct (Z.leb_spec numTargetPeers (Z.of_nat (size (peersByPub s)))); [lia|].
  assert ((0 <? bs_epochAttempts b) && (bs_epochAttempts b <=? bs_epochErrors b) = false) as ->
    by (destruct (Z.ltb_spec 0 (bs_epochAttempts b)), (Z.leb_spec (bs_epochAttempts b) (bs_epochErrors b)); cbn; lia).
  assert (ignoreList s = dom (peersByPub s)) as ->.
  { apply set_eq. intros pub. unfold ignoreList. rewrite elem_of_list_to_set, elem_of_dom, list_elem_of_fmap.
    apply reach_inv in Hr as (_ & (H1 & _) & _). split.
    - intros ([k p] & -> & Hk%elem_of_map_to_list). cbn. destruct (H1 k p Hk) as (pr & -> & -> & _). by exists p.
    - intros [p Hp]. exists (pub, p). split; [|by apply elem_of_map_to_list]. cbn. by destruct (H1 pub p Hp) as (pr & -> & -> & _). }
  rewrite (u32_id (numTargetPeers - _)), u32_id by (unfold is_u32; lia). rewrite (Z.mul_comm _ 2). by destruct answer.
Qed.

(** ** The end of the search *)

(** Once all attempts of a sample have failed the counters are not reset, and no further
    address is asked for, however long it takes and however few peers are connected. *)
Definition gave_up (b : bootstrapper) : Prop :=
  0 < bs_epochAttempts b <= bs_epochErrors b /\ bs_epochErrors b + Z.of_nat (length (bs_dials b)) < 2 ^ 32.

Lemma gave_up_step graph n e s b s' b' :
  gave_up b -> bs_step graph n e (s, b) = Some (s', b') ->
  gave_up b' /\ bs_queries b' = bs_queries b /\ (length (bs_dials b') <= length (bs_dials b))%nat.
Proof.
  intros (Ha & Hl) H. assert (forall i d, bs_dials b !! i = Some d -> S (length (delete i (bs_dials b))) = length (bs_dials b)) as Hdel.
  { intros i d Hi. pose proof (lookup_lt_Some _ _ _ Hi). rewrite length_delete by (by eexists). lia. }
  destruct e as [answer|i|i conn|i]; cbn [bs_step] in H.
  - injection H as <- <-. unfold sample_tick. destruct (_ <=? _); [done|].
    assert ((0 <? bs_epochAttempts b) && (bs_epochAttempts b <=? bs_epochErrors b) = true) as -> by (apply andb_true_iff; rewrite Z.ltb_lt, Z.leb_le; lia). done.
  - destruct (bs_dials b !! i) as [d|] eqn:Ei; [|done]. injection H as <- <-. specialize (Hdel i d Ei). unfold dial_failed, gave_up.
    destruct (dl_counts d); cbn [bs_epochAttempts bs_epochErrors bs_dials bs_queries remove_dial]; [|split; [lia|]; split; [done|lia]].
    rewrite u32_id by (unfold is_u32; lia). split; [lia|]. split; [done|lia].
  - destruct (bs_dials b !! i) as [d|] eqn:Ei; [|done]. case_decide; [|done]. injection H as <- <-. specialize (Hdel i d Ei). unfold gave_up.
    cbn [bs_epochAttempts bs_epochErrors bs_dials bs_queries remove_dial]. split; [lia|]. split; [done|lia].
  - by injection H as <- <-.
Qed.

Lemma bootstrap_gives_up graph n es s b s' b' :
  gave_up b -> bs_run graph n es (s, b) = Some (s', b') -> bs_queries b' = bs_queries b /\ (length (bs_dials b') <= length (bs_dials b))%nat.
Proof.
  revert s b. induction es as [|e es IH]; intros s b Hg; [by intros [= <- <-]|]. cbn [bs_run].
  destruct (bs_step graph n e (s, b)) as [[s1 b1]|] eqn:E; [|done]. intros H. destruct (gave_up_step _ _ _ _ _ _ _ Hg E) as (Hg1 & Hq & Hd).
  destruct (IH _ _ Hg1 H) as [-> ?]. split; [done|lia].
Qed.

(** ** [genNodeAnnouncement] *)

(** What is signed, and the announcement the server keeps. *)
Record announced := mkAnnounced { an_Timestamp : Z; an_Alias : bytes; an_Addresses : list Addr }.
Record NodeAnnouncement := mkNodeAnnouncement { na_Signature : bytes; na_announced : announced }.

Section Announcement.
Context (SignAnnouncement : announced -> res bytes) (NewSigFromSignature : bytes -> res bytes).

(** The time stamp is replaced before the signature is made. *)
Definition genNodeAnnouncement (now : Z) (refresh : bool) (current : NodeAnnouncement) : res NodeAnnouncement * NodeAnnouncement :=
  if negb refresh then (Ok current, current)
  else
    let a := na_announced current in
    let newStamp := if u32 now <=? an_Timestamp a then u32 (an_Timestamp a + 1) else u32 now in
    let a' := mkAnnounced newStamp (an_Alias a) (an_Addresses a) in
    match SignAnnouncement a' with
    | Err e => (Err e, mkNodeAnnouncement (na_Signature current) a')
    | Ok sig =>
        match NewSigFromSignature sig with
        | Err e => (Err e, mkNodeAnnouncement [] a')
        | Ok sig' => let new := mkNodeAnnouncement sig' a' in (Ok new, new)
        end
    end.

Definition signed (n : NodeAnnouncement) : Prop :=
  exists sig, SignAnnouncement (na_announced n) = Ok sig /\ NewSigFromSignature sig = Ok (na_Signature n).

(** A refresh that succeeds returns a signed announcement that is newer than the last one and
    says the same otherwise; the server keeps what it returned. *)
Lemma announcement_refreshed now current n current' :
  is_u32 (an_Timestamp (na_announced current)) -> an_Timestamp (na_announced current) < 2 ^ 32 - 1 ->
  genNodeAnnouncement now true current = (Ok n, current') ->
  current' = n /\ signed n /\ an_Timestamp (na_announced current) < an_Timestamp (na_announced n)
  /\ an_Alias (na_announced n) = an_Alias (na_announced current) /\ an_Addresses (na_announced n) = an_Addresses (na_announced current).
Proof.
  intros Ht Hlt. unfold genNodeAnnouncement. cbn [negb]. set (a' := mkAnnounced _ _ _). destruct (SignAnnouncement a') as [sig|] eqn:Es; [|done].
  destruct (NewSigFromSignature sig) as [sig'|] eqn:En; [|done]. intros [= <- <-]. split; [done|]. split; [by exists sig|].
  split; [|done]. cbn. unfold is_u32 in Ht. destruct (Z.leb_spec (u32 now) (an_Timestamp (na_announced current))); [|done].
  rewrite u32_id by (unfold is_u32; lia). lia.
Qed.

(** A refresh that cannot sign leaves the new time stamp with the old signature, and this is
    what is returned from then on. *)
Lemma unsigned_after_failure now current e current' :
  genNodeAnnouncement now true current = (Err e, current') -> SignAnnouncement (na_announced current') = Err e ->
  ~ signed current' /\ (genNodeAnnouncement now false current').1 = Ok current'.
Proof. intros _ E. split; [|done]. intros (sig & Hs & _). congruence. Qed.
End Announcement.
