(* ===== verification/RpcInvoice.v ===== *)
(** * Invoices over RPC

    rpcserver.go, [AddInvoice], [createRPCInvoice], [LookupInvoice] and [DecodePayReq],
    over the invoice registry of [Preimages]: the registry's state is the state of the
    calls.  The clock, the random bytes and the configuration are arguments.  Then
    [ListInvoices] and [SubscribeInvoices], with the loop of a subscription. *)

From Stdlib Require Import ZArith Lia.
From Stdlib Require Import Init.Byte.
From stdpp Require Import base gmap strings numbers list.
From S2P Require Import Prelude Stream Outputs Bolt InvoiceStore Preimages RpcBase.
Local Open Scope Z_scope.

(** The part of [config] the calls read. *)
Record rpcConfig := mkRpcConfig {
  cfg_DebugHTLC : bool;
  cfg_Bitcoin_TimeLockDelta : Z;
  cfg_Litecoin_TimeLockDelta : Z;
  primaryChain_litecoin : bool
}.

(** [lnrpc.Invoice] *)
Record rpcInvoice := mkRpcInvoice {
  ri_Memo : bytes;
  ri_Receipt : bytes;
  ri_RPreimage : bytes;
  ri_RHash : bytes;
  ri_Value : Z;
  ri_Settled : bool;
  ri_CreationDate : Z;
  ri_SettleDate : Z;
  ri_PaymentRequest : bytes;
  ri_DescriptionHash : bytes;
  ri_Expiry : Z;
  ri_FallbackAddr : bytes;
  ri_CltvExpiry : Z
}.

Record AddInvoiceResponse := mkAddInvoiceResponse { ai_RHash : bytes; ai_PaymentRequest : bytes }.

(** [lnrpc.PaymentHash] *)
Record PaymentHash := mkPaymentHash { ph_RHashStr : bytes; ph_RHash : bytes }.

(** [lnrpc.PayReq] *)
Record rpcPayReq := mkRpcPayReq {
  pr_Destination : bytes;
  pr_PaymentHash : bytes;
  pr_NumSatoshis : Z;
  pr_Timestamp : Z;
  pr_Description : bytes;
  pr_DescriptionHash : bytes;
  pr_FallbackAddr : bytes;
  pr_Expiry : Z;
  pr_CltvExpiry : Z
}.

Section Invoices.
Context {IE : InvoiceEnv} {RE : RpcEnv} {BTC : Btcec} {ZP : Zpay32}.

(** The preimage: [rand] is what [rand.Read] fills in. *)
Definition choose_preimage (rand : res bytes) (RPreimage : bytes) : res bytes :=
  if (length RPreimage =? 0)%nat then rand
  else if negb (length RPreimage =? 32)%nat then Err (ErrNew "payment preimage must be exactly 32 bytes")
  else Ok RPreimage.

Definition maxExpirySeconds : Z := 3600 * 24 * 365.

(** The options of the payment request, in the order of the code, which stops at the first
    that is refused.  The comparison of the expiry is made in floating point, where whole
    numbers keep their order and numbers below 2^53 are exact. *)
Definition payreq_options (cfg : rpcConfig) (invoice : rpcInvoice) : res (list (PayReq -> PayReq)) :=
  let amtMSat := NewMSatFromSatoshis (ri_Value invoice) in
  let amount := if 0 <? amtMSat then [zpay_Amount amtMSat] else [] in
  fallback ← (if (0 <? length (ri_FallbackAddr invoice))%nat then
                match DecodeAddress (ri_FallbackAddr invoice) with
                | Err _ => Err (ErrNew "invalid fallback address")
                | Ok addr => Ok [zpay_FallbackAddr addr]
                end
              else Ok []);
  expiry ← (if 0 <? ri_Expiry invoice then
              if maxExpirySeconds <? ri_Expiry invoice then Err (ErrNew "expiry greater than max expiry")
              else Ok [zpay_Expiry (i64 (ri_Expiry invoice * second))]
            else Ok []);
  let description :=
    if (0 <? length (ri_DescriptionHash invoice))%nat then [zpay_DescriptionHash (copy32 (ri_DescriptionHash invoice))]
    else [zpay_Description (ri_Memo invoice)] in
  cltv ← (if 2 ^ 16 - 1 <? ri_CltvExpiry invoice then Err (ErrNew "CLTV delta is too large")
          else if negb (ri_CltvExpiry invoice =? 0) then Ok [zpay_CLTVExpiry (ri_CltvExpiry invoice)]
          else Ok [zpay_CLTVExpiry (u64 (if primaryChain_litecoin cfg then cfg_Litecoin_TimeLockDelta cfg
                                         else cfg_Bitcoin_TimeLockDelta cfg))]);
  mret (amount ++ fallback ++ expiry ++ description ++ cltv).

(** The checks before the invoice is stored, and what is stored. *)
Definition build_invoice (cfg : rpcConfig) (rand : res bytes) (now : Time) (invoice : rpcInvoice) : res (Invoice * AddInvoiceResponse) :=
  paymentPreimage ← choose_preimage rand (ri_RPreimage invoice);
  if MaxMemoSize <? Z.of_nat (length (ri_Memo invoice)) then Err (ErrNew "memo too large")
  else if MaxReceiptSize <? Z.of_nat (length (ri_Receipt invoice)) then Err (ErrNew "receipt too large")
  else if (0 <? length (ri_DescriptionHash invoice))%nat && negb (length (ri_DescriptionHash invoice) =? 32)%nat
  then Err (ErrNew "description hash")
  else
    let amtMSat := NewMSatFromSatoshis (ri_Value invoice) in
    if maxPaymentMSat <? amtMSat then Err (ErrNew "payment is too large")
    else
      let rHash := sha256 paymentPreimage in
      options ← payreq_options cfg invoice;
      payReq ← zpay_NewInvoice rHash now options;
      payReqString ← zpay_Encode payReq;
      mret (mkInvoice (ri_Memo invoice) (ri_Receipt invoice) payReqString now time_zero paymentPreimage amtMSat false,
            mkAddInvoiceResponse rHash payReqString).

Definition rpc_AddInvoice (cfg : rpcConfig) (rand : res bytes) (now : Time) (invoice : rpcInvoice) (s : system) :
    res AddInvoiceResponse * system :=
  match build_invoice cfg rand now invoice with
  | Err e => (Err e, s)
  | Ok (i, resp) =>
      match r_AddInvoice i s with
      | (Err e, s') => (Err e, s')
      | (Ok _, s') => (Ok resp, s')
      end
  end.

(** A payment request that was decoded has its hash; [invoice.SettleDate] and
    [invoice.CreationDate] are read in seconds. *)
Definition createRPCInvoice (invoice : Invoice) : res rpcInvoice :=
  match zpay_Decode (inv_PaymentRequest invoice) with
  | Err _ => Err (ErrNew "unable to decode payment request")
  | Ok decoded =>
      match pq_PaymentHash decoded with
      | None => Err (ErrPanic "nil pointer")
      | Some hash =>
          let descHash := default [] (pq_DescriptionHash decoded) in
          let fallbackAddr := match pq_FallbackAddr decoded with Some a => AddressString a | None => [] end in
          let settleDate := if IsZero (inv_SettleDate invoice) then 0 else Unix (inv_SettleDate invoice) in
          Ok (mkRpcInvoice (inv_Memo invoice) (inv_Receipt invoice) (inv_PaymentPreimage invoice) hash
                (i64 (ToSatoshis (inv_Value invoice))) (inv_Settled invoice) (Unix (inv_CreationDate invoice)) settleDate
                (inv_PaymentRequest invoice) descHash (Expiry decoded / second) fallbackAddr (MinFinalCLTVExpiry decoded))
      end
  end.

Definition request_hash (req : PaymentHash) : res bytes :=
  rHash ← (if (length (ph_RHashStr req) =? 0)%nat then Ok (ph_RHash req) else hex_DecodeString (ph_RHashStr req));
  if negb (length rHash =? 0)%nat && negb (length rHash =? 32)%nat then Err (ErrNew "payment hash must be exactly 32 bytes")
  else Ok (copy32 rHash).

Definition rpc_LookupInvoice (req : PaymentHash) (s : system) : res rpcInvoice :=
  payHash ← request_hash req;
  invoice ← r_LookupInvoice payHash s;
  createRPCInvoice invoice.

Definition DecodePayReq (payReq : bytes) : res rpcPayReq :=
  payReq ← zpay_Decode payReq;
  match pq_PaymentHash payReq, pq_Destination payReq with
  | Some hash, Some dest =>
      Ok (mkRpcPayReq (hex_EncodeToString (SerializeCompressed dest)) (hex_EncodeToString hash)
            (match pq_MilliSat payReq with Some m => i64 (ToSatoshis m) | None => 0 end)
            (Unix (pq_Timestamp payReq)) (default [] (pq_Description payReq))
            (hex_EncodeToString (default [] (pq_DescriptionHash payReq)))
            (match pq_FallbackAddr payReq with Some a => AddressString a | None => [] end)
            (Expiry payReq / second) (i64 (MinFinalCLTVExpiry payReq)))
  | _, _ => Err (ErrPanic "nil pointer")
  end.

(** ** The payment request that is made *)

Definition cltv_of (cfg : rpcConfig) (invoice : rpcInvoice) : Z :=
  if ri_CltvExpiry invoice =? 0 then
    (if primaryChain_litecoin cfg then cfg_Litecoin_TimeLockDelta cfg else cfg_Bitcoin_TimeLockDelta cfg)
  else ri_CltvExpiry invoice.

Definition has_desc_hash (invoice : rpcInvoice) : bool := (0 <? length (ri_DescriptionHash invoice))%nat.

Definition payreq_of (cfg : rpcConfig) (h : bytes) (now : Time) (invoice : rpcInvoice) (fallback : option Address) : PayReq :=
  let amtMSat := NewMSatFromSatoshis (ri_Value invoice) in
  mkPayReq (if 0 <? amtMSat then Some amtMSat else None) now (Some h) None (Some (cltv_of cfg invoice))
    (if has_desc_hash invoice then None else Some (ri_Memo invoice))
    (if has_desc_hash invoice then Some (ri_DescriptionHash invoice) else None)
    (if 0 <? ri_Expiry invoice then Some (ri_Expiry invoice * second) else None) fallback [].

(** The fallback address a request asks for. *)
Definition fallback_of (invoice : rpcInvoice) (fallback : option Address) : Prop :=
  match ri_FallbackAddr invoice with
  | [] => fallback = None
  | a => exists addr, DecodeAddress a = Ok addr /\ fallback = Some addr
  end.

(** What the types of the configuration and of the request guarantee. *)
Definition cfg_ok (cfg : rpcConfig) : Prop :=
  0 <= cfg_Bitcoin_TimeLockDelta cfg < 2 ^ 32 /\ 0 <= cfg_Litecoin_TimeLockDelta cfg < 2 ^ 32.

Lemma copy32_whole b : length b = 32%nat -> copy32 b = b.
Proof. intros H. unfold copy32. rewrite H. cbn [Nat.sub replicate]. rewrite app_nil_r. apply take_ge. lia. Qed.

Lemma expiry_exact e : 0 < e -> e <= maxExpirySeconds -> i64 (e * second) = e * second.
Proof. intros H1 H2. unfold i64, second, maxExpirySeconds in *. rewrite Z.mod_small; lia. Qed.

Lemma payreq_options_made cfg invoice options :
  cfg_ok cfg -> 0 <= ri_CltvExpiry invoice -> (has_desc_hash invoice = true -> length (ri_DescriptionHash invoice) = 32%nat) ->
  payreq_options cfg invoice = Ok options ->
  ri_Expiry invoice <= maxExpirySeconds /\ 0 <= cltv_of cfg invoice < 2 ^ 32 /\
  exists fb, fallback_of invoice fb /\
    forall h now, foldl (fun i (o : PayReq -> PayReq) => o i) (mkPayReq None now (Some h) None None None None None None []) options
                  = payreq_of cfg h now invoice fb.
Proof.
  intros [Hb Hl] Hc Hd H. unfold payreq_options in H. apply res_bind_Ok_inv in H as (fbo & Hf & H).
  apply res_bind_Ok_inv in H as (eo & He & H). apply res_bind_Ok_inv in H as (co & Hco & H). injection H as <-.
  assert (ri_Expiry invoice <= maxExpirySeconds /\ eo = if 0 <? ri_Expiry invoice then [zpay_Expiry (ri_Expiry invoice * second)] else []) as [Hm ->].
  { destruct (0 <? ri_Expiry invoice) eqn:E1; [|injection He as <-; split; [unfold maxExpirySeconds; lia|done]].
    destruct (maxExpirySeconds <? ri_Expiry invoice) eqn:E2; [done|]. injection He as <-. apply Z.ltb_lt in E1. apply Z.ltb_ge in E2. by rewrite expiry_exact. }
  assert (0 <= cltv_of cfg invoice < 2 ^ 32 /\ co = [zpay_CLTVExpiry (cltv_of cfg invoice)]) as [Hcl ->].
  { unfold cltv_of. destruct (_ <? ri_CltvExpiry invoice) eqn:E1; [done|]. destruct (ri_CltvExpiry invoice =? 0); cbn in Hco; injection Hco as <-.
    - destruct (primaryChain_litecoin cfg); (split; [done|]); unfold u64; by rewrite Z.mod_small by lia.
    - split; [lia|done]. }
  split; [done|]. split; [done|]. unfold fallback_of, payreq_of. fold (has_desc_hash invoice) in *.
  destruct (ri_FallbackAddr invoice) as [|a l].
  - cbn in Hf. injection Hf as <-. exists None. split; [done|]. intros h now. unfold has_desc_hash in *.
    destruct (0 <? NewMSatFromSatoshis _), (0 <? ri_Expiry invoice), (0 <? length (ri_DescriptionHash invoice))%nat eqn:Eh; cbn; rewrite ?copy32_whole by auto; done.
  - cbn [length Nat.ltb Nat.leb] in Hf. destruct (DecodeAddress (a :: l)) as [addr|]; [|done]. injection Hf as <-.
    exists (Some addr). split; [eauto|]. intros h now. unfold has_desc_hash in *.
    destruct (0 <? NewMSatFromSatoshis _), (0 <? ri_Expiry invoice), (0 <? length (ri_DescriptionHash invoice))%nat eqn:Eh; cbn; rewrite ?copy32_whole by auto; done.
Qed.

(** ** What a request stores *)

(** The invoice a request asks for, as it is reported. *)
Definition reported (cfg : rpcConfig) (now : Time) (pre payreq : bytes) (fb : option Address) (invoice : rpcInvoice) : rpcInvoice :=
  mkRpcInvoice (ri_Memo invoice) (ri_Receipt invoice) pre (sha256 pre) (ToSatoshis (NewMSatFromSatoshis (ri_Value invoice)))
    false (Unix now) 0 payreq (ri_DescriptionHash invoice) (if 0 <? ri_Expiry invoice then ri_Expiry invoice else 3600)
    (match fb with Some a => AddressString a | None => [] end) (cltv_of cfg invoice).

Definition now_ok (now : Time) : Prop :=
  (exists b, MarshalBinary now = Ok b) /\ (exists b, MarshalBinary time_zero = Ok b) /\ 0 <= Unix now < 2 ^ 35.

Lemma build_invoice_made cfg rand now invoice i resp :
  cfg_ok cfg -> (forall r, rand = Ok r -> length r = 32%nat) -> 0 <= ri_CltvExpiry invoice ->
  build_invoice cfg rand now invoice = Ok (i, resp) ->
  exists pre fb, length pre = 32%nat /\ fallback_of invoice fb /\ (ri_RPreimage invoice <> [] -> pre = ri_RPreimage invoice)
    /\ NewMSatFromSatoshis (ri_Value invoice) <= maxPaymentMSat
    /\ (has_desc_hash invoice = true -> length (ri_DescriptionHash invoice) = 32%nat)
    /\ ri_Expiry invoice <= maxExpirySeconds /\ 0 <= cltv_of cfg invoice < 2 ^ 32
    /\ zpay_Encode (payreq_of cfg (sha256 pre) now invoice fb) = Ok (ai_PaymentRequest resp)
    /\ ai_RHash resp = sha256 pre
    /\ i = mkInvoice (ri_Memo invoice) (ri_Receipt invoice) (ai_PaymentRequest resp) now time_zero pre
             (NewMSatFromSatoshis (ri_Value invoice)) false.
Proof.
  intros Hcfg Hrand Hcltv H. unfold build_invoice in H. apply res_bind_Ok_inv in H as (pre & Hpre & H).
  assert (length pre = 32%nat /\ (ri_RPreimage invoice <> [] -> pre = ri_RPreimage invoice)) as [Hlen Hp].
  { unfold choose_preimage in Hpre. destruct (length (ri_RPreimage invoice) =? 0)%nat eqn:E0.
    - apply Nat.eqb_eq, nil_length_inv in E0. split; [by apply Hrand|done].
    - destruct (negb _) eqn:E; [done|]. injection Hpre as <-. by apply negb_false_iff, Nat.eqb_eq in E. }
  destruct (MaxMemoSize <? _); [done|]. destruct (MaxReceiptSize <? _); [done|].
  destruct ((0 <? length (ri_DescriptionHash invoice))%nat && _) eqn:Ed; [done|].
  assert (has_desc_hash invoice = true -> length (ri_DescriptionHash invoice) = 32%nat) as Hd.
  { unfold has_desc_hash. intros E. rewrite E in Ed. by apply negb_false_iff, Nat.eqb_eq in Ed. }
  destruct (maxPaymentMSat <? _) eqn:Em; [done|]. apply Z.ltb_ge in Em.
  apply res_bind_Ok_inv in H as (options & Ho & H). destruct (payreq_options_made _ _ _ Hcfg Hcltv Hd Ho) as (He & Hc & fb & Hfb & Hfold).
  apply res_bind_Ok_inv in H as (z & Hz & H). apply res_bind_Ok_inv in H as (str & Hs & H). injection H as <- <-.
  unfold zpay_NewInvoice in Hz. rewrite Hfold in Hz. destruct (validatePayReq _); [|done]. injection Hz as <-.
  exists pre, fb. do 9 (split; [done|]). done.
Qed.

Lemma payreq_of_encodable cfg h now invoice fb :
  now_ok now -> NewMSatFromSatoshis (ri_Value invoice) <= maxPaymentMSat -> ri_Expiry invoice <= maxExpirySeconds ->
  0 <= cltv_of cfg invoice < 2 ^ 32 -> encodable (payreq_of cfg h now invoice fb).
Proof.
  intros (_ & _ & Hn) Hv He Hc. unfold encodable, payreq_of. cbn [pq_MilliSat pq_Timestamp pq_minFinalCLTVExpiry pq_expiry].
  split; [|split; [done|split]].
  - intros m. destruct (0 <? _) eqn:E; [|done]. intros [= <-]. unfold maxPaymentMSat in Hv. apply Z.ltb_lt in E. lia.
  - intros d [= <-]. lia.
  - intros e. destruct (0 <? _) eqn:E; [|done]. intros [= <-]. apply Z.ltb_lt in E. exists (ri_Expiry invoice).
    unfold maxExpirySeconds, second in *. lia.
Qed.

Lemma amount_u64 v : is_u64 (NewMSatFromSatoshis v).
Proof. unfold is_u64, NewMSatFromSatoshis, u64. apply Z.mod_pos_bound. lia. Qed.

Lemma amount_range v : 0 <= NewMSatFromSatoshis v.
Proof. apply amount_u64. Qed.

Lemma ToSatoshis_i64 m : 0 <= m <= maxPaymentMSat -> i64 (ToSatoshis m) = ToSatoshis m.
Proof.
  unfold maxPaymentMSat, ToSatoshis, i64. intros H. rewrite Z.mod_small; [lia|].
  pose proof (Z.div_pos m 1000). pose proof (Z.div_le_upper_bound m 1000 (2 ^ 32)). lia.
Qed.

Lemma expiry_reported cfg h now invoice fb :
  Expiry (payreq_of cfg h now invoice fb) / second = if 0 <? ri_Expiry invoice then ri_Expiry invoice else 3600.
Proof.
  unfold Expiry, payreq_of. cbn [pq_expiry]. destruct (0 <? _); [|done]. cbn [default]. by apply Z.div_mul.
Qed.

Lemma desc_hash_reported invoice :
  default [] (if has_desc_hash invoice then Some (ri_DescriptionHash invoice) else None) = ri_DescriptionHash invoice.
Proof. unfold has_desc_hash. by destruct (ri_DescriptionHash invoice). Qed.

Lemma createRPCInvoice_made cfg now invoice pre fb payreq :
  now_ok now -> NewMSatFromSatoshis (ri_Value invoice) <= maxPaymentMSat -> ri_Expiry invoice <= maxExpirySeconds ->
  0 <= cltv_of cfg invoice < 2 ^ 32 -> zpay_Encode (payreq_of cfg (sha256 pre) now invoice fb) = Ok payreq ->
  createRPCInvoice (mkInvoice (ri_Memo invoice) (ri_Receipt invoice) payreq now time_zero pre (NewMSatFromSatoshis (ri_Value invoice)) false)
    = Ok (reported cfg now pre payreq fb invoice).
Proof.
  intros Hn Hv He Hc Henc. unfold createRPCInvoice. cbn [inv_PaymentRequest inv_SettleDate inv_Memo inv_Receipt inv_PaymentPreimage inv_Value inv_Settled inv_CreationDate].
  rewrite (zpay_Decode_Encode _ _ (payreq_of_encodable _ _ _ _ _ Hn Hv He Hc) Henc). cbn [pq_PaymentHash transmitted payreq_of pq_DescriptionHash pq_FallbackAddr].
  rewrite IsZero_zero, desc_hash_reported, ToSatoshis_i64 by (pose proof (amount_range (ri_Value invoice)); lia). unfold reported. do 2 f_equal.
  apply (expiry_reported cfg (sha256 pre) now invoice fb).
Qed.

Lemma LookupInvoice_request h s :
  length h = 32%nat -> forall req, req = mkPaymentHash [] h \/ req = mkPaymentHash (hex_EncodeToString h) [] ->
  rpc_LookupInvoice req s = (invoice ← r_LookupInvoice h s; createRPCInvoice invoice).
Proof.
  intros Hh req Hreq. unfold rpc_LookupInvoice. replace (request_hash req) with (@Ok bytes h); [done|]. symmetry.
  unfold request_hash. assert (forall (r : bytes), r = h -> (if negb (length r =? 0)%nat && negb (length r =? 32)%nat
    then Err (ErrNew "payment hash must be exactly 32 bytes") else Ok (copy32 r)) = Ok h) as Hk.
  { intros r ->. rewrite Hh. cbn. by rewrite copy32_whole. }
  destruct Hreq as [-> | ->]; cbn [ph_RHashStr ph_RHash].
  - apply (Hk h eq_refl).
  - rewrite hex_length, Hh. cbn [Nat.mul Nat.add Nat.eqb]. rewrite hex_roundtrip. apply (Hk h eq_refl).
Qed.

Lemma Update_fails {A} (f : TX A) db e db' : Update f db = (Err e, db') -> db' = db.
Proof. unfold Update. destruct (f db) as [[a b]|]; [done|]. by intros [= _ <-]. Qed.

Lemma r_AddInvoice_err i s e s' : r_AddInvoice i s = (Err e, s') -> s' = s.
Proof.
  unfold r_AddInvoice, AddInvoice. destruct (validateInvoice i) as [[]|e']; [|intros [= <- <-]; by destruct s].
  destruct (Update _ _) as [[[]|e'] db] eqn:E; [done|]. intros [= <- <-]. apply Update_fails in E as ->. by destruct s.
Qed.

(** The registry finds what it has just stored. *)
Lemma AddInvoice_found i s k s' h :
  sys_rel s k -> event_ok (E_AddInvoice i) -> is_next (kn_store k) + 1 < 2 ^ 32 -> r_AddInvoice i s = (Ok tt, s') ->
  h = sha256 (inv_PaymentPreimage i) -> kn_debug k !! h = None -> r_LookupInvoice h s' = Ok i.
Proof.
  intros (Hd & Hi & Hw & Hs) Hok Hn Hadd -> Hnone. unfold r_AddInvoice in Hadd.
  destruct (validateInvoice i) as [[]|e] eqn:V; [|unfold AddInvoice in Hadd; by rewrite V in Hadd].
  pose proof (AddInvoice_refines _ _ i Hi (validateInvoice_ok i Hok V) Hn) as H.
  destruct (is_map _ !! _) as [j|]; [by rewrite H in Hadd|]. destruct H as (db' & E & _ & Hr). rewrite E in Hadd. injection Hadd as <-.
  unfold r_LookupInvoice. cbn [set_db sy_reg sy_db]. rewrite Hd, Hnone, (LookupInvoice_refines _ _ _ Hr) by apply sha256_length.
  cbn [is_created is_map]. by rewrite lookup_insert_eq.
Qed.

Lemma DecodePayReq_made cfg now invoice pre fb payreq :
  now_ok now -> NewMSatFromSatoshis (ri_Value invoice) <= maxPaymentMSat -> ri_Expiry invoice <= maxExpirySeconds ->
  0 <= cltv_of cfg invoice < 2 ^ 32 -> zpay_Encode (payreq_of cfg (sha256 pre) now invoice fb) = Ok payreq ->
  DecodePayReq payreq
    = Ok (mkRpcPayReq (hex_EncodeToString (SerializeCompressed node_key)) (hex_EncodeToString (sha256 pre))
            (ToSatoshis (NewMSatFromSatoshis (ri_Value invoice))) (Unix now)
            (if has_desc_hash invoice then [] else ri_Memo invoice) (hex_EncodeToString (ri_DescriptionHash invoice))
            (match fb with Some a => AddressString a | None => [] end)
            (if 0 <? ri_Expiry invoice then ri_Expiry invoice else 3600) (cltv_of cfg invoice)).
Proof.
  intros Hn Hv He Hc Henc. pose proof (amount_range (ri_Value invoice)) as Ha. unfold DecodePayReq.
  rewrite (zpay_Decode_Encode _ _ (payreq_of_encodable _ _ _ _ _ Hn Hv He Hc) Henc). cbn [mbind res_bind pq_PaymentHash transmitted payreq_of pq_Destination
    pq_MilliSat pq_Timestamp pq_Description pq_DescriptionHash pq_FallbackAddr default].
  f_equal. f_equal.
  - destruct (0 <? NewMSatFromSatoshis _) eqn:E; [apply ToSatoshis_i64; lia|]. apply Z.ltb_ge in E. by replace (NewMSatFromSatoshis (ri_Value invoice)) with 0 by lia.
  - unfold Unix at 1. rewrite instant_time_Unix by apply Hn. unfold second. by rewrite Z.div_mul.
  - by destruct (has_desc_hash invoice).
  - by rewrite desc_hash_reported.
  - apply (expiry_reported cfg (sha256 pre) now invoice fb).
  - unfold MinFinalCLTVExpiry. cbn. unfold i64. rewrite Z.mod_small; lia.
Qed.

(** C13: An invoice added over RPC can be looked up by the hash that is returned, as bytes or
    as a hex string, and is reported as it was asked for; the payment request that is
    returned describes it.  When the call fails nothing is stored. *)
Theorem invoice_roundtrip cfg rand now invoice s k :
  sys_rel s k -> cfg_ok cfg -> now_ok now -> (forall r, rand = Ok r -> length r = 32%nat) ->
  0 <= ri_CltvExpiry invoice -> is_next (kn_store k) + 1 < 2 ^ 32 ->
  match rpc_AddInvoice cfg rand now invoice s with
  | (Err _, s') => s' = s
  | (Ok resp, s') =>
      kn_debug k !! ai_RHash resp = None ->
      exists pre fb, ai_RHash resp = sha256 pre /\ (ri_RPreimage invoice <> [] -> pre = ri_RPreimage invoice) /\ fallback_of invoice fb
        /\ (forall req, req = mkPaymentHash [] (ai_RHash resp) \/ req = mkPaymentHash (hex_EncodeToString (ai_RHash resp)) [] ->
              rpc_LookupInvoice req s' = Ok (reported cfg now pre (ai_PaymentRequest resp) fb invoice))
        /\ DecodePayReq (ai_PaymentRequest resp)
           = Ok (mkRpcPayReq (hex_EncodeToString (SerializeCompressed node_key)) (hex_EncodeToString (ai_RHash resp))
                   (ToSatoshis (NewMSatFromSatoshis (ri_Value invoice))) (Unix now)
                   (if has_desc_hash invoice then [] else ri_Memo invoice) (hex_EncodeToString (ri_DescriptionHash invoice))
                   (match fb with Some a => AddressString a | None => [] end)
                   (if 0 <? ri_Expiry invoice then ri_Expiry invoice else 3600) (cltv_of cfg invoice))
  end.
Proof.
  intros Hrel Hcfg Hnow Hrand Hcltv Hn. unfold rpc_AddInvoice. destruct (build_invoice cfg rand now invoice) as [[i resp]|e] eqn:Eb; [|done].
  destruct (build_invoice_made _ _ _ _ _ _ Hcfg Hrand Hcltv Eb) as (pre & fb & Hlen & Hfb & Hp & Hv & Hd & He & Hc & Henc & Hh & Hi).
  destruct (r_AddInvoice i s) as [[[]|e] s'] eqn:Ea; [|by apply r_AddInvoice_err in Ea]. intros Hdbg. exists pre, fb.
  do 3 (split; [done|]). split.
  - intros req Hreq. rewrite (LookupInvoice_request (ai_RHash resp) s'); [|by rewrite Hh, sha256_length|done].
    assert (ai_RHash resp = sha256 (inv_PaymentPreimage i)) as E1 by (by rewrite Hi).
    assert (event_ok (E_AddInvoice i)) as Hok.
    { rewrite Hi. destruct Hnow as (H1 & H2 & _). split; [done|]. split; [done|]. split; [done|]. apply amount_u64. }
    rewrite (AddInvoice_found i s k s' (ai_RHash resp) Hrel Hok Hn Ea E1 Hdbg), Hi. by apply createRPCInvoice_made.
  - rewrite Hh. by apply DecodePayReq_made.
Qed.

End Invoices.

(** * Lists of invoices and subscriptions *)

(** ** A loop that sends what arrives

    The three subscriptions have the same loop: an item that arrives is converted and sent,
    an item that cannot be converted or sent ends the call, and so does the shutdown.  [None]
    is a loop that still waits. *)
Inductive feed (A : Type) := FItem (a : A) (sent : option goerr) | FQuit.
Arguments FItem {A} a sent.
Arguments FQuit {A}.

Fixpoint feed_loop {A B} (convert : A -> res B) (evs : list (feed A)) (sent : list B) : list B * option (res ()) :=
  match evs with
  | [] => (sent, None)
  | FQuit :: _ => (sent, Some (Ok tt))
  | FItem a r :: evs =>
      match convert a with
      | Err e => (sent, Some (Err e))
      | Ok b => match r with Some e => (sent, Some (Err e)) | None => feed_loop convert evs (sent ++ [b]) end
      end
  end.

(** The items of a prefix of the events. *)
Fixpoint items {A} (evs : list (feed A)) : list A :=
  match evs with
  | FItem a _ :: evs => a :: items evs
  | _ => []
  end.

Definition delivered {A} (ev : feed A) : bool := match ev with FItem _ None => true | _ => false end.

(** The client gets the items that arrived in their order, without a gap, and all of them as
    long as each can be converted and sent. *)
Lemma feed_loop_prefix {A B} (convert : A -> res B) evs sent sent' r :
  feed_loop convert evs sent = (sent', r) ->
  exists n bs, sent' = sent ++ bs /\ Forall2 (fun a b => convert a = Ok b) (take n (items evs)) bs
    /\ (r = None -> n = length evs /\ length bs = length evs).
Proof.
  assert (forall r', r' <> None -> (sent, r') = (sent', r) -> exists n bs, sent' = sent ++ bs
            /\ Forall2 (fun a b => convert a = Ok b) (take n (items evs)) bs /\ (r = None -> n = length evs /\ length bs = length evs)) as Hend.
  { intros r' Hr [= <- <-]. exists 0%nat, []. rewrite app_nil_r. split; [done|]. split; [constructor|done]. }
  revert sent Hend. induction evs as [|[a [e|]|] evs IH]; intros sent Hend; cbn [feed_loop]; try by apply Hend.
  - intros [= <- <-]. exists 0%nat, []. rewrite app_nil_r. split; [done|]. by split; [constructor|].
  - destruct (convert a); by apply Hend.
  - destruct (convert a) as [b|e] eqn:Ea; [|by apply Hend]. intros H. apply IH in H as (n & bs & -> & HF & Hr).
    + exists (S n), (b :: bs). rewrite <- app_assoc. split; [done|]. split; [by constructor|]. intros E. destruct (Hr E) as [-> Hb]. cbn. by rewrite Hb.
    + clear H Hend. intros r' Hr [= <- <-]. exists 0%nat, []. rewrite app_nil_r. split; [done|]. split; [constructor|done].
Qed.

Lemma feed_loop_all {A B} (convert : A -> res B) evs sent :
  Forall (fun ev => delivered ev = true) evs -> Forall (fun a => is_ok (convert a) = true) (items evs) ->
  exists bs, feed_loop convert evs sent = (sent ++ bs, None) /\ Forall2 (fun a b => convert a = Ok b) (items evs) bs /\ length bs = length evs.
Proof.
  intros Hd. revert sent. induction Hd as [|ev evs Hev Hd IH]; intros sent Hc.
  - exists []. cbn. rewrite app_nil_r. split; [done|]. by split; [constructor|].
  - destruct ev as [a [e|]|]; try done. cbn [items] in Hc. inversion_clear Hc as [|? ? Ha Hc']. cbn [feed_loop].
    destruct (convert a) as [b|] eqn:Ea; [|done]. destruct (IH (sent ++ [b]) Hc') as (bs & -> & HF & Hl). exists (b :: bs).
    rewrite <- app_assoc. split; [done|]. cbn. split; [by constructor|by rewrite Hl].
Qed.

Section InvoiceLists.
Context {IE : InvoiceEnv} {RE : RpcEnv} {BTC : Btcec} {ZP : Zpay32}.

Definition ListInvoices (pendingOnly : bool) (s : system) : res (list rpcInvoice) :=
  match FetchAllInvoices pendingOnly (sy_db s) with
  | Err e => Err e
  | Ok dbInvoices => res_foldl (fun invoices dbInvoice => rpcInvoice ← createRPCInvoice dbInvoice; mret (invoices ++ [rpcInvoice])) [] dbInvoices
  end.

(** [settled] is what arrives on the channel [SettledInvoices] of the client. *)
Definition SubscribeInvoices (settled : list (feed Invoice)) : list rpcInvoice * option (res ()) := feed_loop createRPCInvoice settled [].

Lemma list_loop dbInvoices acc :
  match res_foldl (fun invoices dbInvoice => rpcInvoice ← createRPCInvoice dbInvoice; mret (invoices ++ [rpcInvoice])) acc dbInvoices with
  | Ok l => exists l', l = acc ++ l' /\ Forall2 (fun i r => createRPCInvoice i = Ok r) dbInvoices l'
  | Err _ => exists i, i ∈ dbInvoices /\ is_ok (createRPCInvoice i) = false
  end.
Proof.
  revert acc. induction dbInvoices as [|i l IH]; intros acc; cbn [res_foldl]; [exists []; by rewrite app_nil_r|].
  destruct (createRPCInvoice i) as [r|e] eqn:Ei; cbn [mbind res_bind mret res_ret]; [|exists i; split; [by left|by rewrite Ei]].
  specialize (IH (acc ++ [r])). destruct (res_foldl _ (acc ++ [r]) l) as [l1|e].
  - destruct IH as (l' & -> & HF). exists (r :: l'). rewrite <- app_assoc. split; [done|by constructor].
  - destruct IH as (j & Hj & E). exists j. split; [by right|done].
Qed.

(** C18: the list of invoices has one entry for each invoice of the store, or for each that
    is not settled, and the entry is what a lookup by the hash of the invoice reports; the
    call fails only when the database has no invoices at all or when one of them has a
    payment request that cannot be decoded. *)
Theorem list_invoices_exact pendingOnly s k :
  sys_rel s k ->
  match ListInvoices pendingOnly s with
  | Ok l => exists invs, invs ≡ₚ List.filter (listed pendingOnly) (map snd (map_to_list (is_map (kn_store k))))
      /\ Forall2 (fun i r => createRPCInvoice i = Ok r
           /\ (kn_debug k !! sha256 (inv_PaymentPreimage i) = None -> is_created (kn_store k) = true ->
               rpc_LookupInvoice (mkPaymentHash [] (sha256 (inv_PaymentPreimage i))) s = Ok r)) invs l
  | Err e => has (sy_db s) [invoiceBucket] = false
      \/ exists h i, is_map (kn_store k) !! h = Some i /\ listed pendingOnly i = true /\ is_ok (createRPCInvoice i) = false
  end.
Proof.
  intros H. pose proof H as (Hdbg & Hst & _). unfold ListInvoices.
  pose proof (FetchAllInvoices_refines (sy_db s) (kn_store k) pendingOnly Hst) as HF.
  destruct (FetchAllInvoices pendingOnly (sy_db s)) as [invs|e]; [|left; apply HF].
  assert (forall i, i ∈ invs -> is_map (kn_store k) !! sha256 (inv_PaymentPreimage i) = Some i /\ listed pendingOnly i = true) as Hin.
  { intros i Hi. rewrite HF, list_elem_of_In, filter_In, <- list_elem_of_In in Hi. destruct Hi as [Hi Hl]. split; [|done].
    by apply (map_found (sy_db s)) in Hi as [? _]. }
  pose proof (list_loop invs []) as Hl. destruct (res_foldl _ [] invs) as [l|e].
  - destruct Hl as (l' & -> & Hl). exists invs. split; [done|]. cbn [app]. revert Hl Hin. clear HF. induction 1 as [|i r invs l' Hr _ IH]; intros Hin; constructor.
    + split; [done|]. intros Hd Hc. rewrite (LookupInvoice_request (sha256 (inv_PaymentPreimage i))) by (by rewrite ?sha256_length; auto).
      unfold r_LookupInvoice. rewrite Hdbg, Hd, (LookupInvoice_refines _ (kn_store k)) by (done || apply sha256_length).
      rewrite Hc. destruct (Hin i) as [-> _]; [by left|]. done.
    + apply IH. intros j Hj. apply Hin. by right.
  - destruct Hl as (i & Hi & E). right. destruct (Hin i Hi). by exists (sha256 (inv_PaymentPreimage i)), i.
Qed.
End InvoiceLists.
