(* ===== verification/PaymentStore.v ===== *)
(** * Completed payments in the database

    vendor/github.com/lightningnetwork/lnd/channeldb/payments.go: the payments the daemon
    has made, in a bucket of their own whose keys are the bucket's sequence numbers.  The
    bucket is its sequence and its entries; without it nothing was stored yet. *)

From Stdlib Require Import ZArith Lia.
From Stdlib Require Import Init.Byte.
From stdpp Require Import base gmap strings numbers list.
From S2P Require Import Prelude Stream Bolt InvoiceStore.
Local Open Scope Z_scope.

Definition ErrNoPaymentsCreated : goerr := ErrNew "there are no existing payments".

Section Payments.
Context {IE : InvoiceEnv}.

Record OutgoingPayment := mkOutgoingPayment {
  op_Invoice : Invoice;
  op_Fee : Z;
  op_TimeLockLength : Z;
  op_Path : list bytes;
  op_PaymentPreimage : bytes
}.

Definition serializeOutgoingPayment (p : OutgoingPayment) : res bytes :=
  invoice ← serializeInvoice (op_Invoice p);
  mret (invoice ++ put_be 8 (op_Fee p) ++ put_be 4 (Z.of_nat (length (op_Path p))) ++ concat (op_Path p)
        ++ put_be 4 (op_TimeLockLength p) ++ op_PaymentPreimage p).

(** Each read is one call of [r.Read] into the scratch buffer or an array. *)
Definition deserializeOutgoingPayment : Reader OutgoingPayment :=
  inv ← deserializeInvoice;
  fee ← read_into (zeros 8);
  lenBytes ← read_into (take 4 fee);
  path ← read_n (Z.to_nat (get_be lenBytes)) (read_into (zeros 33));
  timeLock ← read_into lenBytes;
  preimage ← read_into (zeros 32);
  mret (mkOutgoingPayment inv (get_be fee) (get_be timeLock) path preimage).

Record payment_bucket := mkPaymentBucket { pb_sequence : Z; pb_entries : list (bytes * bytes) }.

(** The part of the database with the payments. *)
Definition payment_db : Type := option payment_bucket.

Definition AddPayment (p : OutgoingPayment) (db : payment_db) : res () * payment_db :=
  match validateInvoice (op_Invoice p) with
  | Err e => (Err e, db)
  | Ok _ =>
      match serializeOutgoingPayment p with
      | Err e => (Err e, db)
      | Ok paymentBytes =>
          let payments := default (mkPaymentBucket 0 []) db in
          let paymentID := u64 (pb_sequence payments + 1) in
          if MaxValueSize <? Z.of_nat (length paymentBytes) then (Err ErrValueTooLarge, db)
          else (Ok tt, Some (mkPaymentBucket paymentID (kv_insert (put_be 8 paymentID) paymentBytes (pb_entries payments))))
      end
  end.

Definition FetchAllPayments (db : payment_db) : res (list OutgoingPayment) :=
  match db with
  | None => Err ErrNoPaymentsCreated
  | Some b =>
      res_foldl (fun l kv => match deserializeOutgoingPayment (kv.2) with Ok (p, _) => Ok (l ++ [p]) | Err e => Err e end)
        [] (pb_entries b)
  end.

Definition DeleteAllPayments (db : payment_db) : payment_db := Some (mkPaymentBucket 0 []).

(** ** What is read is what was stored *)

Definition Payment_ok (p : OutgoingPayment) : Prop :=
  Invoice_ok (op_Invoice p) /\ is_u64 (op_Fee p) /\ is_u32 (op_TimeLockLength p)
  /\ Forall (fun h => length h = 33%nat) (op_Path p) /\ Z.of_nat (length (op_Path p)) < 2 ^ 20
  /\ length (op_PaymentPreimage p) = 32%nat.

Lemma path_length (path : list bytes) :
  Forall (fun h => length h = 33%nat) path -> length (concat path) = (33 * length path)%nat.
Proof. induction 1 as [|h l Hh _ IH]; [done|]. cbn [concat length]. rewrite length_app, Hh, IH. lia. Qed.

Lemma read_path (path : list bytes) rest :
  Forall (fun h => length h = 33%nat) path -> read_n (length path) (read_into (zeros 33)) (concat path ++ rest) = Ok (path, rest).
Proof.
  induction 1 as [|h l Hh _ IH]; [done|]. cbn [concat length read_n]. rewrite <- app_assoc.
  erewrite reader_bind_ok by (apply read_into_app; [by rewrite Hh|by destruct h]). cbv beta.
  erewrite reader_bind_ok by (apply IH). done.
Qed.

Lemma payment_roundtrip p :
  Payment_ok p -> exists buf, serializeOutgoingPayment p = Ok buf /\ Z.of_nat (length buf) <= MaxValueSize
    /\ deserializeOutgoingPayment buf = Ok (p, []).
Proof.
  destruct p as [inv fee tl path pre]. intros (Hi & Hf & Ht & Hp & Hn & Hpre). cbn in *.
  destruct (serializeInvoice_rest inv Hi) as (ib & Ei & Hib & Hd). unfold serializeOutgoingPayment, deserializeOutgoingPayment.
  cbn [op_Invoice op_Fee op_TimeLockLength op_Path op_PaymentPreimage]. rewrite Ei. eexists. split; [done|]. split.
  - rewrite !length_app, !put_be_length, path_length, Hpre by done. unfold MaxValueSize. lia.
  - assert (forall n z, length (put_be (S n) z) <> 0%nat) as Hne by (intros; by rewrite put_be_length).
    erewrite reader_bind_ok by apply Hd. cbv beta.
    erewrite reader_bind_ok by (apply read_into_app; [done|intros E; by apply (Hne 7%nat fee); rewrite E]). cbv beta.
    erewrite reader_bind_ok by (apply read_into_app; [done|intros E; by apply (Hne 3%nat (Z.of_nat (length path))); rewrite E]). cbv beta.
    rewrite (get_put_be 4 (Z.of_nat _)), Z.mod_small, Nat2Z.id by (change (8 * Z.of_nat 4) with 32; lia).
    erewrite reader_bind_ok by (by apply read_path). cbv beta.
    erewrite reader_bind_ok by (apply read_into_app; [by rewrite !put_be_length|intros E; by apply (Hne 3%nat tl); rewrite E]). cbv beta.
    rewrite <- (app_nil_r pre). erewrite reader_bind_ok by (apply read_into_app; [done|by destruct pre]). cbv beta.
    unfold mret, reader_ret. rewrite !get_put_be, !Z.mod_small, app_nil_r by done. done.
Qed.

(** The payments of a database, in the order they were added. *)
Definition pay_rel (db : payment_db) (l : list OutgoingPayment) : Prop :=
  let b := default (mkPaymentBucket 0 []) db in
  pb_sequence b = Z.of_nat (length l) /\ Forall Payment_ok l
  /\ Forall2 (fun kv np => kv.1 = put_be 8 (Z.of_nat np.1) /\ serializeOutgoingPayment np.2 = Ok kv.2)
       (pb_entries b) (zip (seq 1 (length l)) l).

Lemma kv_insert_last {A} (k : bytes) (a : A) l : Forall (fun kv => bytes_lt kv.1 k) l -> kv_insert k a l = l ++ [(k, a)].
Proof.
  induction 1 as [|[k' a'] l H _ IH]; [done|]. cbn [kv_insert app]. cbn [fst] in H. unfold bytes_lt in H.
  rewrite bytes_compare_antisym, H. cbn. by rewrite IH.
Qed.

Lemma fetch_entries es ps acc :
  Forall2 (fun kv (np : nat * OutgoingPayment) => kv.1 = put_be 8 (Z.of_nat np.1) /\ serializeOutgoingPayment np.2 = Ok kv.2) es ps ->
  Forall Payment_ok ps.*2 ->
  res_foldl (fun l (kv : bytes * bytes) => match deserializeOutgoingPayment (kv.2) with Ok (p, _) => Ok (l ++ [p]) | Err e => Err e end) acc es
    = Ok (acc ++ ps.*2).
Proof.
  intros H. revert acc. induction H as [|[k v] [n p] es ps [Hk Hv] _ IH]; intros acc Hok; [by rewrite app_nil_r|].
  cbn [res_foldl snd] in *. rewrite fmap_cons in *. inversion_clear Hok as [|? ? Hp Hok'].
  destruct (payment_roundtrip p Hp) as (buf & E & _ & Hd). rewrite Hv in E. injection E as ->. rewrite Hd.
  rewrite IH by done. by rewrite <- app_assoc.
Qed.

Lemma FetchAllPayments_refines db l :
  pay_rel db l -> FetchAllPayments db = match db with None => Err ErrNoPaymentsCreated | Some _ => Ok l end.
Proof.
  destruct db as [b|]; [|done]. intros (_ & Hok & He). unfold FetchAllPayments. change (default (mkPaymentBucket 0 []) (Some b)) with b in He.
  assert ((zip (seq 1 (length l)) l).*2 = l) as E by (apply snd_zip; by rewrite length_seq).
  rewrite (fetch_entries _ _ [] He), E; [done|by rewrite E].
Qed.

Lemma AddPayment_refines db l p :
  pay_rel db l -> Payment_ok p -> validateInvoice (op_Invoice p) = Ok tt -> Z.of_nat (length l) + 1 < 2 ^ 64 ->
  exists b, AddPayment p db = (Ok tt, Some b) /\ pay_rel (Some b) (l ++ [p]).
Proof.
  intros (Hs & Hok & He) Hp Hv Hn. unfold AddPayment. rewrite Hv. destruct (payment_roundtrip p Hp) as (buf & E & Hl & Hd). rewrite E.
  set (b := default (mkPaymentBucket 0 []) db) in *. rewrite (proj2 (Z.ltb_ge _ _)) by done.
  assert (u64 (pb_sequence b + 1) = Z.of_nat (S (length l))) as -> by (unfold u64; rewrite Hs, Z.mod_small; lia).
  eexists. split; [done|]. unfold pay_rel. cbn. rewrite length_app. cbn [length].
  split; [lia|]. split; [by apply Forall_app; split; [|apply Forall_singleton]|]. rewrite kv_insert_last.
  - replace (length l + 1)%nat with (S (length l)) by lia. rewrite seq_S. rewrite zip_with_app by (by rewrite length_seq).
    apply Forall2_app; [done|]. cbn. repeat constructor; done.
  - apply Forall_forall. intros [k v] Hin. destruct (proj1 (list_elem_of_lookup _ _) Hin) as [i Hi].
    destruct (Forall2_lookup_l _ _ _ _ _ He Hi) as ([n q] & Hq & Hk & _). cbn [fst snd] in *. subst k.
    apply list_elem_of_lookup_2, elem_of_zip_l, elem_of_seq in Hq. unfold bytes_lt. rewrite put_be_compare; [by apply Z.compare_lt_iff; lia|..];
      change (8 * Z.of_nat 8) with 64; lia.
Qed.

End Payments.
