(* ===== verification/RpcPay.v ===== *)
(** * Payments over RPC

    rpcserver.go, [SendPayment], [SendPaymentSync], [savePayment], [validatePayReqExpiry],
    [marshallRoute] and [ListPayments].

    One call of [SendPayment] is three kinds of goroutines: a reader of the client's
    stream, the loop of the call, and one goroutine for each payment, which takes a slot of
    a semaphore, asks the router, records the payment and answers.  A step of the machine
    below is one operation on a channel, the stream, the router or the database; what the
    client and the router answer is part of the event. *)

From Stdlib Require Import ZArith Lia.
From Stdlib Require Import Init.Byte.
From stdpp Require Import base gmap strings numbers list.
From S2P Require Import Prelude Stream Outputs Bolt InvoiceStore Preimages RpcBase RpcInvoice PaymentStore.
Local Open Scope Z_scope.

(** ** Data *)

(** [routing.Hop] with the part of its channel that is read, and [routing.Route]. *)
Record Hop := mkHop {
  hop_PubKeyBytes : bytes;
  hop_ChannelID : Z;
  hop_Capacity : Z;
  hop_OutgoingTimeLock : Z;
  hop_AmtToForward : Z;
  hop_Fee : Z
}.

Record Route := mkRoute {
  rt_TotalTimeLock : Z;
  rt_TotalFees : Z;
  rt_TotalAmount : Z;
  rt_Hops : list Hop
}.

(** [lnrpc.Hop] and [lnrpc.Route] *)
Record rpcHop := mkRpcHop {
  rh_ChanId : Z;
  rh_ChanCapacity : Z;
  rh_AmtToForward : Z;
  rh_Fee : Z;
  rh_Expiry : Z
}.

Record rpcRoute := mkRpcRoute {
  rr_TotalTimeLock : Z;
  rr_TotalFees : Z;
  rr_TotalAmt : Z;
  rr_Hops : list rpcHop
}.

Definition marshallRoute (route : Route) : rpcRoute :=
  mkRpcRoute (rt_TotalTimeLock route) (i64 (ToSatoshis (rt_TotalFees route))) (i64 (ToSatoshis (rt_TotalAmount route)))
    (map (fun hop => mkRpcHop (hop_ChannelID hop) (i64 (hop_Capacity hop)) (i64 (ToSatoshis (hop_AmtToForward hop)))
                       (i64 (ToSatoshis (hop_Fee hop))) (u32 (hop_OutgoingTimeLock hop))) (rt_Hops route)).

(** [lnrpc.SendRequest] and [lnrpc.SendResponse]; [None] is an empty [PaymentError]. *)
Record SendRequest := mkSendRequest {
  sr_Dest : bytes;
  sr_DestString : bytes;
  sr_Amt : Z;
  sr_PaymentHash : bytes;
  sr_PaymentHashString : bytes;
  sr_PaymentRequest : bytes;
  sr_FinalCltvDelta : Z
}.

Record SendResponse := mkSendResponse {
  rs_PaymentError : option goerr;
  rs_PaymentPreimage : bytes;
  rs_PaymentRoute : option rpcRoute
}.

Definition error_response (e : goerr) : SendResponse := mkSendResponse (Some e) [] None.
Definition paid_response (preImage : bytes) (route : Route) : SendResponse := mkSendResponse None preImage (Some (marshallRoute route)).

Section Pay.
Context {IE : InvoiceEnv} {RE : RpcEnv} {BTC : Btcec} {ZP : Zpay32}.

(** The local type [payment] of [SendPayment]. *)
Record payment := mkPayment {
  pm_msat : Z;
  pm_dest : bytes;
  pm_pHash : bytes;
  pm_cltvDelta : Z
}.

(** [routing.LightningPayment] *)
Record LightningPayment := mkLightningPayment {
  lp_Target : PublicKey;
  lp_Amount : Z;
  lp_PaymentHash : bytes;
  lp_FinalCLTVDelta : option Z
}.

Definition debugHash : bytes := sha256 debugPre.

(** ** One payment *)

Definition savePayment (now : Time) (route : Route) (amount : Z) (preImage : bytes) (db : payment_db) : res () * payment_db :=
  AddPayment
    (mkOutgoingPayment (mkInvoice [] [] [] now time_zero (zeros 32) amount false) (rt_TotalFees route) (rt_TotalTimeLock route)
       (map (fun hop => copy_into (zeros 33) (hop_PubKeyBytes hop)) (rt_Hops route)) (copy32 preImage)) db.

Definition validatePayReqExpiry (now : Time) (payReq : PayReq) : res () :=
  let validUntil := instant (pq_Timestamp payReq) + Expiry payReq in
  if validUntil <? instant now then Err (ErrNew "invoice expired") else Ok tt.

(** The reader's half: the payment a request asks for. *)
Definition read_payment (now : Time) (nextPayment : SendRequest) : res payment :=
  if negb (length (sr_PaymentRequest nextPayment) =? 0)%nat then
    payReq ← zpay_Decode (sr_PaymentRequest nextPayment);
    _ ← validatePayReqExpiry now payReq;
    match pq_Destination payReq, pq_PaymentHash payReq with
    | Some dest, Some hash =>
        mret (mkPayment (match pq_MilliSat payReq with None => NewMSatFromSatoshis (sr_Amt nextPayment) | Some m => m end)
                (SerializeCompressed dest) hash (u16 (MinFinalCLTVExpiry payReq)))
    | _, _ => Err (ErrPanic "nil pointer")
    end
  else
    mret (mkPayment (NewMSatFromSatoshis (sr_Amt nextPayment)) (sr_Dest nextPayment) (sr_PaymentHash nextPayment)
            (u16 (sr_FinalCltvDelta nextPayment))).

Definition too_large (p : payment) : bool := maxPaymentMSat <? pm_msat p.

(** The loop names the amount in millisatoshis; the synchronous call names the field [Amt] of
    the request, in satoshis, also when the amount came from a payment request. *)
Definition stream_too_large (p : payment) : goerr := ErrTooLarge (pm_msat p) maxPaymentMSat.
Definition sync_too_large (nextPayment : SendRequest) : goerr := ErrTooLarge (sr_Amt nextPayment) (ToSatoshis maxPaymentMSat).

Definition cltv_delta (cltvDelta : Z) : option Z := if cltvDelta =? 0 then None else Some cltvDelta.

(** The loop's half, after the check of the size: what is asked of the router. *)
Definition lightning_payment (cfg : rpcConfig) (p : payment) : res LightningPayment :=
  destNode ← ParsePubKey (pm_dest p);
  let rHash := if cfg_DebugHTLC cfg && (length (pm_pHash p) =? 0)%nat then debugHash else copy32 (pm_pHash p) in
  mret (mkLightningPayment destNode (pm_msat p) rHash (cltv_delta (pm_cltvDelta p))).

(** ** [SendPaymentSync] *)

(** The payment a request asks for. *)
Definition sync_payment (cfg : rpcConfig) (now : Time) (nextPayment : SendRequest) : res LightningPayment :=
  if negb (length (sr_PaymentRequest nextPayment) =? 0)%nat then
    payReq ← zpay_Decode (sr_PaymentRequest nextPayment);
    _ ← validatePayReqExpiry now payReq;
    match pq_Destination payReq, pq_PaymentHash payReq with
    | Some dest, Some hash =>
        mret (mkLightningPayment dest (match pq_MilliSat payReq with None => NewMSatFromSatoshis (sr_Amt nextPayment) | Some m => m end)
                hash (cltv_delta (u16 (MinFinalCLTVExpiry payReq))))
    | _, _ => Err (ErrPanic "nil pointer")
    end
  else
    rHash ← (if cfg_DebugHTLC cfg && (length (sr_PaymentHashString nextPayment) =? 0)%nat then Ok debugHash
             else paymentHash ← hex_DecodeString (sr_PaymentHashString nextPayment); mret (copy32 paymentHash));
    pubBytes ← hex_DecodeString (sr_DestString nextPayment);
    destPub ← ParsePubKey pubBytes;
    mret (mkLightningPayment destPub (NewMSatFromSatoshis (sr_Amt nextPayment)) rHash None).

Definition SendPaymentSync (cfg : rpcConfig) (started : bool) (now : Time) (router : LightningPayment -> res (bytes * Route))
    (nextPayment : SendRequest) (db : payment_db) : res SendResponse * payment_db :=
  if negb started then (Err (ErrNew "chain backend is still syncing, server not active yet"), db)
  else
    match sync_payment cfg now nextPayment with
    | Err e => (Err e, db)
    | Ok lp =>
        if maxPaymentMSat <? lp_Amount lp then (Ok (error_response (sync_too_large nextPayment)), db)
        else
          match router lp with
          | Err e => (Ok (error_response e), db)
          | Ok (preImage, route) =>
              match savePayment now route (lp_Amount lp) preImage db with
              | (Err e, db') => (Err e, db')
              | (Ok _, db') => (Ok (paid_response preImage route), db')
              end
          end
    end.

(** ** [SendPayment] *)

Inductive reader_st :=
| RLoop                      (* the select that looks at the two quit channels *)
| RRecv                      (* [paymentStream.Recv()] *)
| ROffer (p : payment)       (* [payChan <- p], or [reqQuit] *)
| RReport (e : goerr)        (* [errChan <- err], or [reqQuit] *)
| RFinal                     (* [errChan <- nil] *)
| RDone.

Inductive worker_st :=
| WWaiting                               (* [<-htlcSema] *)
| WRouting                               (* [chanRouter.SendPayment] *)
| WSave (preImage : bytes) (route : Route)
| WAnswer (r : SendResponse)             (* [paymentStream.Send] *)
| WReport (e : goerr)                    (* [errChan <- err] *)
| WRelease                               (* [htlcSema <- struct{}{}] *)
| WDone.

Record worker := mkWorker {
  wk_payment : payment;
  wk_request : LightningPayment;
  wk_st : worker_st
}.

(** [ps_main] is the result of the call once it has returned, which closes [reqQuit]; an
    entry of [ps_sent] says which goroutine sent it; [ps_taken] lists the payments the loop
    has taken from [payChan]. *)
Record pay_stream := mkPayStream {
  ps_reader : reader_st;
  ps_main : option (option goerr);
  ps_errChan : option (option goerr);
  ps_sema : nat;
  ps_quit : bool;
  ps_workers : list worker;
  ps_sent : list (option nat * SendResponse);
  ps_taken : list payment;
  ps_db : payment_db
}.

Definition numOutstandingPayments : nat := 2000.

Definition new_stream (db : payment_db) : pay_stream := mkPayStream RLoop None None numOutstandingPayments false [] [] [] db.

Definition set_reader (r : reader_st) (s : pay_stream) : pay_stream :=
  mkPayStream r (ps_main s) (ps_errChan s) (ps_sema s) (ps_quit s) (ps_workers s) (ps_sent s) (ps_taken s) (ps_db s).
Definition set_main (m : option (option goerr)) (s : pay_stream) : pay_stream :=
  mkPayStream (ps_reader s) m (ps_errChan s) (ps_sema s) (ps_quit s) (ps_workers s) (ps_sent s) (ps_taken s) (ps_db s).
Definition set_errChan (e : option (option goerr)) (s : pay_stream) : pay_stream :=
  mkPayStream (ps_reader s) (ps_main s) e (ps_sema s) (ps_quit s) (ps_workers s) (ps_sent s) (ps_taken s) (ps_db s).
Definition set_sema (n : nat) (s : pay_stream) : pay_stream :=
  mkPayStream (ps_reader s) (ps_main s) (ps_errChan s) n (ps_quit s) (ps_workers s) (ps_sent s) (ps_taken s) (ps_db s).
Definition set_workers (w : list worker) (s : pay_stream) : pay_stream :=
  mkPayStream (ps_reader s) (ps_main s) (ps_errChan s) (ps_sema s) (ps_quit s) w (ps_sent s) (ps_taken s) (ps_db s).
Definition add_sent (who : option nat) (r : SendResponse) (s : pay_stream) : pay_stream :=
  mkPayStream (ps_reader s) (ps_main s) (ps_errChan s) (ps_sema s) (ps_quit s) (ps_workers s) (ps_sent s ++ [(who, r)]) (ps_taken s) (ps_db s).
Definition add_taken (p : payment) (s : pay_stream) : pay_stream :=
  mkPayStream (ps_reader s) (ps_main s) (ps_errChan s) (ps_sema s) (ps_quit s) (ps_workers s) (ps_sent s) (ps_taken s ++ [p]) (ps_db s).
Definition set_pdb (db : payment_db) (s : pay_stream) : pay_stream :=
  mkPayStream (ps_reader s) (ps_main s) (ps_errChan s) (ps_sema s) (ps_quit s) (ps_workers s) (ps_sent s) (ps_taken s) db.
Definition set_pquit (s : pay_stream) : pay_stream :=
  mkPayStream (ps_reader s) (ps_main s) (ps_errChan s) (ps_sema s) true (ps_workers s) (ps_sent s) (ps_taken s) (ps_db s).

Definition set_wst (st : worker_st) (w : worker) : worker := mkWorker (wk_payment w) (wk_request w) st.
Definition move (i : nat) (st : worker_st) (s : pay_stream) : pay_stream := set_workers (alter (set_wst st) i (ps_workers s)) s.

(** [reqQuit] is closed. *)
Definition reqQuit (s : pay_stream) : bool := match ps_main s with Some _ => true | None => false end.

(** What [Recv] returns. *)
Inductive recv := RecvEOF | RecvErr (e : goerr) | RecvRequest (r : SendRequest).

Inductive pay_event :=
(* from outside: shutdown, the client's stream, the router *)
| PQuit
| PRecv (now : Time) (r : recv)
| PRouted (i : nat) (r : res (bytes * Route))
(* the reader *)
| PEnter | PReaderQuit | PReaderStop | PReport | PReportQuit | PFinal | POfferQuit
(* the loop; sending may fail *)
| PTake (sent : option goerr)
| PErr
(* the goroutine of a payment *)
| PAcquire (i : nat) | PSave (i : nat) (now : Time) | PSend (i : nat) (sent : option goerr) | PReportW (i : nat) | PRelease (i : nat).

(** What the loop does with a payment it has taken. *)
Definition handle_payment (cfg : rpcConfig) (sent : option goerr) (p : payment) (s : pay_stream) : pay_stream :=
  if too_large p then
    match sent with
    | None => add_sent None (error_response (stream_too_large p)) s
    | Some e => set_main (Some (Some e)) s
    end
  else
    match lightning_payment cfg p with
    | Err e => set_main (Some (Some e)) s
    | Ok lp => set_workers (ps_workers s ++ [mkWorker p lp WWaiting]) s
    end.

Definition recv_step (now : Time) (r : recv) (s : pay_stream) : pay_stream :=
  match r with
  | RecvEOF => set_reader RFinal s
  | RecvErr e => set_reader (RReport e) s
  | RecvRequest req =>
      match read_payment now req with
      | Err e => set_reader (RReport e) s
      | Ok p => set_reader (ROffer p) s
      end
  end.

(** The state of goroutine [i]. *)
Definition wst (s : pay_stream) (i : nat) : option worker_st := wk_st <$> ps_workers s !! i.

(** A step, when the goroutine is there and not blocked. *)
Definition pay_step (cfg : rpcConfig) (e : pay_event) (s : pay_stream) : option pay_stream :=
  match e with
  | PQuit => Some (set_pquit s)
  | PRecv now r => match ps_reader s with RRecv => Some (recv_step now r s) | _ => None end
  | PRouted i r =>
      match wst s i with
      | Some WRouting =>
          Some (move i (match r with Err e => WAnswer (error_response e) | Ok (preImage, route) => WSave preImage route end) s)
      | _ => None
      end
  | PEnter =>
      match ps_reader s with RLoop => if reqQuit s || ps_quit s then None else Some (set_reader RRecv s) | _ => None end
  | PReaderQuit => match ps_reader s with RLoop => if reqQuit s then Some (set_reader RDone s) else None | _ => None end
  | PReaderStop => match ps_reader s with RLoop => if ps_quit s then Some (set_reader RFinal s) else None | _ => None end
  | PReport =>
      match ps_reader s, ps_errChan s with
      | RReport e, None => Some (set_errChan (Some (Some e)) (set_reader RDone s))
      | _, _ => None
      end
  | PReportQuit => match ps_reader s with RReport _ => if reqQuit s then Some (set_reader RDone s) else None | _ => None end
  | PFinal =>
      match ps_reader s, ps_errChan s with
      | RFinal, None => Some (set_errChan (Some None) (set_reader RDone s))
      | _, _ => None
      end
  | POfferQuit => match ps_reader s with ROffer _ => if reqQuit s then Some (set_reader RDone s) else None | _ => None end
  | PTake sent =>
      match ps_main s, ps_reader s with
      | None, ROffer p => Some (handle_payment cfg sent p (add_taken p (set_reader RLoop s)))
      | _, _ => None
      end
  | PErr =>
      match ps_main s, ps_errChan s with
      | None, Some err => Some (set_main (Some err) (set_errChan None s))
      | _, _ => None
      end
  | PAcquire i =>
      match wst s i, ps_sema s with
      | Some WWaiting, S n => Some (set_sema n (move i WRouting s))
      | _, _ => None
      end
  | PSave i now =>
      match ps_workers s !! i with
      | Some (mkWorker p lp (WSave preImage route)) =>
          let (r, db') := savePayment now route (pm_msat p) preImage (ps_db s) in
          Some (set_pdb db' (move i (match r with Err e => WReport e | Ok _ => WAnswer (paid_response preImage route) end) s))
      | _ => None
      end
  | PSend i sent =>
      match wst s i with
      | Some (WAnswer r) =>
          match sent with
          | None => Some (add_sent (Some i) r (move i WRelease s))
          | Some e => Some (move i (WReport e) s)
          end
      | _ => None
      end
  | PReportW i =>
      match wst s i, ps_errChan s with
      | Some (WReport e), None => Some (set_errChan (Some (Some e)) (move i WRelease s))
      | _, _ => None
      end
  | PRelease i =>
      match wst s i with
      | Some WRelease => if (ps_sema s <? numOutstandingPayments)%nat then Some (set_sema (S (ps_sema s)) (move i WDone s)) else None
      | _ => None
      end
  end.

Fixpoint pay_run (cfg : rpcConfig) (es : list pay_event) (s : pay_stream) : option pay_stream :=
  match es with
  | [] => Some s
  | e :: es => match pay_step cfg e s with Some s' => pay_run cfg es s' | None => None end
  end.

(** ** [ListPayments] *)

Record rpcPayment := mkRpcPayment {
  rp_PaymentHash : bytes;
  rp_Value : Z;
  rp_CreationDate : Z;
  rp_Path : list bytes;
  rp_Fee : Z;
  rp_PaymentPreimage : bytes
}.

Definition marshalPayment (p : OutgoingPayment) : rpcPayment :=
  mkRpcPayment (hex_EncodeToString (sha256 (op_PaymentPreimage p))) (i64 (ToSatoshis (inv_Value (op_Invoice p))))
    (Unix (inv_CreationDate (op_Invoice p))) (map hex_EncodeToString (op_Path p)) (i64 (ToSatoshis (op_Fee p)))
    (hex_EncodeToString (op_PaymentPreimage p)).

(** A database without payments is not an error. *)
Definition ListPayments (db : payment_db) : res (list rpcPayment) :=
  match FetchAllPayments db with
  | Ok payments => Ok (map marshalPayment payments)
  | Err e => if decide (e = ErrNoPaymentsCreated) then Ok [] else Err e
  end.

End Pay.
