(* ===== verification/RpcPayInv.v ===== *)
(** * What a stream of payments keeps

    The invariant of one [SendPayment] call ([RpcPay]): the slots of the semaphore, the
    payments the loop has taken and the goroutines that carry them out, the answers, and
    the records in the database. *)

From Stdlib Require Import ZArith Lia.
From Stdlib Require Import Init.Byte.
From stdpp Require Import base gmap strings numbers list.
From S2P Require Import Prelude Stream Outputs Bolt InvoiceStore Preimages RpcBase RpcInvoice PaymentStore RpcPay.
Local Open Scope Z_scope.

(** ** Counting *)

Fixpoint count_if {A} (f : A -> bool) (l : list A) : nat :=
  match l with [] => 0 | a :: l => (if f a then 1 else 0) + count_if f l end.

Lemma count_if_app {A} (f : A -> bool) l1 l2 : count_if f (l1 ++ l2) = (count_if f l1 + count_if f l2)%nat.
Proof. induction l1 as [|a l1 IH]; [done|]. cbn. rewrite IH. lia. Qed.

Lemma count_if_alter {A} (f : A -> bool) (g : A -> A) i l a :
  l !! i = Some a -> (count_if f (alter g i l) + (if f a then 1 else 0) = count_if f l + (if f (g a) then 1 else 0))%nat.
Proof.
  revert i. induction l as [|b l IH]; intros [|i] H; [done|done|..].
  - injection H as ->. change (alter g 0%nat (a :: l)) with (g a :: l). cbn [count_if]. destruct (f a), (f (g a)); lia.
  - change (alter g (S i) (b :: l)) with (b :: alter g i l). cbn [count_if]. specialize (IH i H). lia.
Qed.

Lemma count_if_pos {A} (f : A -> bool) l : (0 < count_if f l)%nat -> exists i a, l !! i = Some a /\ f a = true.
Proof.
  induction l as [|a l IH]; cbn; [lia|]. intros H. destruct (f a) eqn:E; [by exists 0%nat, a|].
  destruct IH as (i & b & ? & ?); [lia|]. by exists (S i), b.
Qed.

Lemma count_if_le {A} (f : A -> bool) l : (count_if f l <= length l)%nat.
Proof. induction l as [|a l IH]; cbn; [lia|]. destruct (f a); lia. Qed.

Section Inv.
Context {IE : InvoiceEnv} {RE : RpcEnv} {BTC : Btcec} {ZP : Zpay32}.
Context (cfg : rpcConfig).

(** A goroutine that has a slot of the semaphore. *)
Definition holding (w : worker) : bool := match wk_st w with WWaiting | WDone => false | _ => true end.

(** The answers of one goroutine. *)
Definition answers (who : option nat) (s : pay_stream) : list SendResponse :=
  (filter (fun x => x.1 = who) (ps_sent s)).*2.

(** The call has returned or is about to: an error is in [errChan]. *)
Definition ending (s : pay_stream) : Prop := ps_main s <> None \/ ps_errChan s <> None.

(** A record: the goroutine, the time, and what the router returned. *)
Record saved := mkSaved { sv_by : nat; sv_now : Time; sv_preImage : bytes; sv_route : Route }.

Definition record_of (amount : Z) (x : saved) : OutgoingPayment :=
  mkOutgoingPayment (mkInvoice [] [] [] (sv_now x) time_zero (zeros 32) amount false) (rt_TotalFees (sv_route x))
    (rt_TotalTimeLock (sv_route x)) (map (fun hop => copy_into (zeros 33) (hop_PubKeyBytes hop)) (rt_Hops (sv_route x)))
    (copy32 (sv_preImage x)).

(** The records of the goroutines of a stream. *)
Definition records (s : pay_stream) (xs : list saved) : list OutgoingPayment :=
  map (fun x => record_of (match ps_workers s !! sv_by x with Some w => pm_msat (wk_payment w) | None => 0 end) x) xs.

(** What the types and the router guarantee of the arguments of an event. *)
Definition route_ok (route : Route) : Prop :=
  is_u64 (rt_TotalFees route) /\ is_u32 (rt_TotalTimeLock route) /\ Z.of_nat (length (rt_Hops route)) < 2 ^ 20.

Definition time_ok (now : Time) : Prop :=
  (exists b, MarshalBinary now = Ok b) /\ (exists b, MarshalBinary time_zero = Ok b).

Definition pay_event_ok (e : pay_event) : Prop :=
  match e with
  | PRouted _ (Ok (preImage, route)) => length preImage = 32%nat /\ route_ok route
  | PSave _ now => time_ok now
  | _ => True
  end.

(** An answer of goroutine [i] says what is recorded. *)
Definition reply_ok (xs : list saved) (i : nat) (r : SendResponse) : Prop :=
  match rs_PaymentError r with
  | Some _ => i ∉ map sv_by xs
  | None => exists x, x ∈ xs /\ sv_by x = i /\ r = paid_response (sv_preImage x) (sv_route x)
  end.

(** What a goroutine in each of its states has done. *)
Definition worker_st_ok (s : pay_stream) (xs : list saved) (i : nat) (st : worker_st) : Prop :=
  match st with
  | WWaiting | WRouting => answers (Some i) s = [] /\ i ∉ map sv_by xs
  | WSave preImage route => answers (Some i) s = [] /\ (i ∉ map sv_by xs) /\ length preImage = 32%nat /\ route_ok route
  | WAnswer r => answers (Some i) s = [] /\ reply_ok xs i r
  | WReport _ => answers (Some i) s = []
  | WRelease | WDone => (answers (Some i) s = [] /\ ending s) \/ (exists r, answers (Some i) s = [r] /\ reply_ok xs i r)
  end.

Definition worker_ok (s : pay_stream) (xs : list saved) (i : nat) (w : worker) : Prop :=
  0 <= pm_msat (wk_payment w) /\ too_large (wk_payment w) = false
  /\ lightning_payment cfg (wk_payment w) = Ok (wk_request w) /\ worker_st_ok s xs i (wk_st w).

(** What the loop has taken is with a goroutine or was answered by the loop. *)
Definition taken_ok (s : pay_stream) : Prop :=
  exists rest, filter (fun p => too_large p = false) (ps_taken s) = map wk_payment (ps_workers s) ++ rest
    /\ (ps_main s = None -> rest = [] /\ length (answers None s) = count_if too_large (ps_taken s))
    /\ Forall (fun r => rs_PaymentError r <> None) (answers None s).

Record pinv (l0 : list OutgoingPayment) (s : pay_stream) (xs : list saved) : Prop := mkPinv {
  pi_slots : (ps_sema s + count_if holding (ps_workers s))%nat = numOutstandingPayments;
  pi_workers : forall i w, ps_workers s !! i = Some w -> worker_ok s xs i w;
  pi_fresh : forall i, (length (ps_workers s) <= i)%nat -> answers (Some i) s = [] /\ i ∉ map sv_by xs;
  pi_taken : taken_ok s;
  pi_offer : forall p, ps_reader s = ROffer p -> 0 <= pm_msat p;
  pi_once : NoDup (map sv_by xs);
  pi_db : pay_rel (ps_db s) (l0 ++ records s xs)
}.

(** ** Steps that leave the goroutines alone *)

Lemma worker_st_ok_mono s s' xs i st :
  answers (Some i) s' = answers (Some i) s -> (ending s -> ending s') -> worker_st_ok s xs i st -> worker_st_ok s' xs i st.
Proof. intros E He. unfold worker_st_ok. rewrite E. destruct st; try done; (intros [[H1 H2]|H]; [left; auto|by right]). Qed.

Lemma pinv_frame l0 s s' xs :
  pinv l0 s xs -> ps_sema s' = ps_sema s -> ps_workers s' = ps_workers s -> ps_sent s' = ps_sent s -> ps_taken s' = ps_taken s ->
  ps_db s' = ps_db s -> (ending s -> ending s') -> (ps_main s' = None -> ps_main s = None) ->
  (forall p, ps_reader s' = ROffer p -> 0 <= pm_msat p) -> pinv l0 s' xs.
Proof.
  intros [H1 H2 H3 H4 H5 H6 H7] E1 E2 E3 E4 E5 He Hm Ho.
  assert (forall who, answers who s' = answers who s) as Ea by (intros who; unfold answers; by rewrite E3).
  constructor.
  - by rewrite E1, E2.
  - rewrite E2. intros i w Hi. destruct (H2 i w Hi) as (? & ? & ? & Hst). do 3 (split; [done|]). by apply (worker_st_ok_mono s).
  - rewrite E2. intros i Hi. rewrite Ea. by apply H3.
  - destruct H4 as (rest & Hf & Hr & Ha). exists rest. rewrite E4, E2, !Ea. split; [done|]. split; [|done]. intros E. by apply Hr, Hm.
  - done.
  - done.
  - unfold records in *. by rewrite E5, E2.
Qed.

(** ** One goroutine moves *)

Lemma set_wst_payment st i (ws : list worker) : map wk_payment (alter (set_wst st) i ws) = map wk_payment ws.
Proof.
  revert i. induction ws as [|w ws IH]; intros [|i]; [done|done|done|].
  change (alter (set_wst st) (S i) (w :: ws)) with (w :: alter (set_wst st) i ws). cbn [map]. by rewrite IH.
Qed.

Lemma move_lookup st i (ws : list worker) j w :
  alter (set_wst st) i ws !! j = Some w -> (j <> i /\ ws !! j = Some w) \/ (j = i /\ exists w0, ws !! i = Some w0 /\ w = set_wst st w0).
Proof.
  destruct (decide (j = i)) as [->|Hne]; [rewrite list_lookup_alter_eq|rewrite list_lookup_alter_ne by done; by left].
  destruct (ws !! i) as [w0|]; [|done]. intros [= <-]. right. eauto.
Qed.

Lemma amount_alter st i (ws : list worker) j :
  match alter (set_wst st) i ws !! j with Some w => pm_msat (wk_payment w) | None => 0 end
  = match ws !! j with Some w => pm_msat (wk_payment w) | None => 0 end.
Proof.
  destruct (decide (j = i)) as [->|Hne]; [rewrite list_lookup_alter_eq; by destruct (ws !! i)|by rewrite list_lookup_alter_ne].
Qed.

Lemma pinv_move l0 s s' xs xs' i w st :
  pinv l0 s xs -> ps_workers s !! i = Some w -> ps_workers s' = alter (set_wst st) i (ps_workers s) ->
  ps_reader s' = ps_reader s -> ps_taken s' = ps_taken s -> ps_main s' = ps_main s -> (ending s -> ending s') ->
  (forall who, who <> Some i -> answers who s' = answers who s) ->
  (forall x, sv_by x <> i -> (x ∈ xs' <-> x ∈ xs)) ->
  (ps_sema s' + (if holding w then 0 else 1) = ps_sema s + (if holding (set_wst st w) then 0 else 1))%nat ->
  worker_st_ok s' xs' i st -> NoDup (map sv_by xs') -> pay_rel (ps_db s') (l0 ++ records s' xs') -> pinv l0 s' xs'.
Proof.
  intros [H1 H2 H3 H4 H5 H6 H7] Hi Ew Er Et Em He Ha Hx Hs Hst Hn Hdb.
  assert (forall j, j <> i -> j ∉ map sv_by xs -> j ∉ map sv_by xs') as Hfr.
  { intros j Hj Hnot (x & -> & Hin)%list_elem_of_fmap. apply Hnot, list_elem_of_fmap. exists x. split; [done|]. by apply Hx. }
  assert (forall j r, j <> i -> reply_ok xs j r -> reply_ok xs' j r) as Hre.
  { intros j r Hj. unfold reply_ok. destruct (rs_PaymentError r); [by apply Hfr|]. intros (x & Hin & Hb & Hr). exists x.
    split; [|done]. apply Hx; [congruence|done]. }
  constructor.
  - pose proof (count_if_alter holding (set_wst st) i _ _ Hi) as Hc. rewrite Ew. destruct (holding w), (holding (set_wst st w)); lia.
  - rewrite Ew. intros j wj Hj. apply move_lookup in Hj as [[Hne Hj]|[-> (w0 & Hw0 & ->)]].
    + destruct (H2 j wj Hj) as (Hm & Hl & Hr & Hk). do 3 (split; [done|]). unfold worker_st_ok in *. rewrite Ha by congruence.
      destruct (wk_st wj); naive_solver.
    + rewrite Hi in Hw0. injection Hw0 as <-. destruct (H2 i w Hi) as (Hm & Hl & Hr & _). done.
  - rewrite Ew, length_alter. intros j Hj. destruct (H3 j Hj) as [Hj1 Hj2].
    assert (j <> i) by (intros ->; apply lookup_lt_Some in Hi; lia). rewrite Ha by congruence. auto.
  - destruct H4 as (rest & Hf & Hr & Hb). exists rest. rewrite Et, Ew, set_wst_payment, Em, (Ha None) by done. done.
  - by rewrite Er.
  - done.
  - done.
Qed.

Lemma records_move s s' xs st i :
  ps_workers s' = alter (set_wst st) i (ps_workers s) -> records s' xs = records s xs.
Proof. intros E. unfold records. rewrite E. apply map_ext. intros x. by rewrite amount_alter. Qed.

(** ** The steps *)

Lemma answers_add who who' r s : answers who (add_sent who' r s) = answers who s ++ (if decide (who' = who) then [r] else []).
Proof.
  unfold answers. cbn [add_sent ps_sent]. rewrite filter_app, fmap_app. f_equal. rewrite filter_cons. cbn [fst].
  by destruct (decide (who' = who)).
Qed.

Lemma saved_below l0 s xs x : pinv l0 s xs -> x ∈ xs -> (sv_by x < length (ps_workers s))%nat.
Proof.
  intros H Hin. destruct (decide (sv_by x < length (ps_workers s))%nat) as [|Hge]; [done|exfalso].
  destruct (pi_fresh _ _ _ H (sv_by x)) as [_ Hn]; [lia|]. apply Hn, list_elem_of_fmap. by exists x.
Qed.

Lemma NoDup_below (ns : list nat) i N :
  NoDup ns -> (forall n, n ∈ ns -> (n < N)%nat) -> (i < N)%nat -> i ∉ ns -> (length ns < N)%nat.
Proof.
  intros Hn Hb Hi Hni. rewrite <- (length_seq N 0). apply (submseteq_length (i :: ns)).
  apply NoDup_submseteq; [by constructor|]. intros n Hin. apply elem_of_seq. inversion_clear Hin as [|? ? ? H].
  - lia.
  - specialize (Hb n H). lia.
Qed.

Lemma record_ok amount x :
  0 <= amount <= maxPaymentMSat -> time_ok (sv_now x) -> length (sv_preImage x) = 32%nat -> route_ok (sv_route x) ->
  Payment_ok (record_of amount x) /\ validateInvoice (op_Invoice (record_of amount x)) = Ok tt.
Proof.
  intros Ha (H1 & H2) Hp (Hf & Ht & Hh). split; [|done]. unfold Payment_ok, Invoice_ok, record_of.
  cbn [op_Invoice op_Fee op_TimeLockLength op_Path op_PaymentPreimage inv_Memo inv_Receipt inv_PaymentRequest inv_CreationDate inv_SettleDate inv_PaymentPreimage inv_Value].
  split; [|split; [done|split; [done|split; [|split; [by rewrite length_map|by rewrite copy32_whole]]]]].
  - do 3 (split; [done|]). split; [done|]. split; [done|]. split; [done|]. unfold maxPaymentMSat in Ha. unfold is_u64. lia.
  - apply Forall_map, Forall_true. intros hop. unfold compose, copy_into. rewrite length_app, length_take, length_drop.
    change (length (zeros 33)) with 33%nat. lia.
Qed.

Lemma pinv_routed l0 s xs i r s' :
  pinv l0 s xs -> pay_event_ok (PRouted i r) -> pay_step cfg (PRouted i r) s = Some s' -> pinv l0 s' xs.
Proof.
  intros H Hok. cbn [pay_step]. unfold wst. destruct (ps_workers s !! i) as [w|] eqn:Hi; [|done]. cbn [fmap option_fmap option_map].
  destruct (wk_st w) eqn:Est; try done. intros [= <-]. destruct (pi_workers _ _ _ H i w Hi) as (_ & _ & _ & Hw). rewrite Est in Hw.
  destruct Hw as [Hw1 Hw2]. eapply (pinv_move l0 s _ xs xs i w); try done; try apply H.
  - unfold holding. rewrite Est. cbn. destruct r as [[preImage route]|e]; lia.
  - destruct r as [[preImage route]|e]; cbn in *; [by destruct Hok|]. split; [done|]. done.
  - erewrite records_move by done. apply H.
Qed.

Lemma pinv_acquire l0 s xs i s' : pinv l0 s xs -> pay_step cfg (PAcquire i) s = Some s' -> pinv l0 s' xs.
Proof.
  intros H. cbn [pay_step]. unfold wst. destruct (ps_workers s !! i) as [w|] eqn:Hi; [|done]. cbn [fmap option_fmap option_map].
  destruct (wk_st w) eqn:Est; try done. destruct (ps_sema s) as [|n] eqn:Es; [done|]. intros [= <-].
  destruct (pi_workers _ _ _ H i w Hi) as (_ & _ & _ & Hw). rewrite Est in Hw. eapply (pinv_move l0 s _ xs xs i w); try done; try apply H.
  - unfold holding. rewrite Est. cbn. lia.
  - erewrite records_move by done. apply H.
Qed.

Lemma pinv_save l0 s xs i now s' :
  pinv l0 s xs -> time_ok now -> Z.of_nat (length l0 + length (ps_workers s)) < 2 ^ 64 -> pay_step cfg (PSave i now) s = Some s' ->
  exists preImage route, wst s i = Some (WSave preImage route) /\ pinv l0 s' (xs ++ [mkSaved i now preImage route]).
Proof.
  intros H Hnow Hlen. cbn [pay_step]. destruct (ps_workers s !! i) as [[p lp st]|] eqn:Hi; [|done]. destruct st as [| |preImage route| | | |]; try done.
  destruct (pi_workers _ _ _ H i _ Hi) as (Hm & Hl & _ & Hw). cbn [wk_st wk_payment worker_st_ok] in *. destruct Hw as (Hw1 & Hw2 & Hp & Hr).
  set (x := mkSaved i now preImage route). unfold savePayment. change (mkOutgoingPayment _ _ _ _ _) with (record_of (pm_msat p) x).
  destruct (record_ok (pm_msat p) x) as [Hpo Hv]; [unfold too_large in Hl; lia|done|done|done|].
  assert (length (map sv_by xs) < length (ps_workers s))%nat as Hlt.
  { apply (NoDup_below _ i); [apply H| |by apply lookup_lt_Some in Hi|done].
    intros n (y & -> & Hy)%list_elem_of_fmap. by eapply saved_below. }
  destruct (AddPayment_refines (ps_db s) _ (record_of (pm_msat p) x) (pi_db _ _ _ H) Hpo Hv) as (b & -> & Hb).
  { rewrite length_app. unfold records. rewrite length_map in *. lia. }
  intros [= <-]. exists preImage, route. split; [unfold wst; by rewrite Hi|]. fold x. eapply (pinv_move l0 s _ xs (xs ++ [x]) i); try done.
  - intros y Hy. rewrite elem_of_app, list_elem_of_singleton. split; [intros [?| ->]; [done|done]|by left].
  - cbn. split; [done|]. unfold reply_ok. cbn. exists x. split; [apply elem_of_app; right; by apply list_elem_of_singleton|done].
  - rewrite map_app. apply NoDup_app. split; [apply H|]. split; [|apply NoDup_singleton]. intros n Hn ->%list_elem_of_singleton. done.
  - erewrite records_move by done. unfold records in *. rewrite map_app. cbn [map sv_by x]. rewrite Hi. cbn [wk_payment]. rewrite app_assoc. done.
Qed.

Lemma pinv_send l0 s xs i sent s' : pinv l0 s xs -> pay_step cfg (PSend i sent) s = Some s' -> pinv l0 s' xs.
Proof.
  intros H. cbn [pay_step]. unfold wst. destruct (ps_workers s !! i) as [w|] eqn:Hi; [|done]. cbn [fmap option_fmap option_map].
  destruct (wk_st w) as [| | |r| | |] eqn:Est; try done. destruct (pi_workers _ _ _ H i w Hi) as (_ & _ & _ & Hw). rewrite Est in Hw.
  destruct Hw as [Hw1 Hw2]. destruct sent as [e|]; intros [= <-]; (eapply (pinv_move l0 s _ xs xs i w); try done; try apply H;
    [..|erewrite records_move by done; apply H]).
  - unfold holding. rewrite Est. cbn. lia.
  - intros who Hne. rewrite answers_add, decide_False by done. by rewrite app_nil_r.
  - unfold holding. rewrite Est. cbn. lia.
  - right. exists r. split; [|done]. rewrite answers_add, decide_True by done. change (answers (Some i) (move i WRelease s)) with (answers (Some i) s). by rewrite Hw1.
Qed.

Lemma pinv_report l0 s xs i s' : pinv l0 s xs -> pay_step cfg (PReportW i) s = Some s' -> pinv l0 s' xs.
Proof.
  intros H. cbn [pay_step]. unfold wst. destruct (ps_workers s !! i) as [w|] eqn:Hi; [|done]. cbn [fmap option_fmap option_map].
  destruct (wk_st w) as [| | | |e| |] eqn:Est; try done. destruct (pi_workers _ _ _ H i w Hi) as (_ & _ & _ & Hw). rewrite Est in Hw.
  destruct (ps_errChan s) eqn:Ee; [done|]. intros [= <-]. eapply (pinv_move l0 s _ xs xs i w); try done; try apply H.
  - intros [Hm|Hc]; [by left|by right].
  - unfold holding. rewrite Est. cbn. lia.
  - left. split; [done|]. by right.
  - erewrite records_move by done. apply H.
Qed.

Lemma pinv_release l0 s xs i s' : pinv l0 s xs -> pay_step cfg (PRelease i) s = Some s' -> pinv l0 s' xs.
Proof.
  intros H. cbn [pay_step]. unfold wst. destruct (ps_workers s !! i) as [w|] eqn:Hi; [|done]. cbn [fmap option_fmap option_map].
  destruct (wk_st w) eqn:Est; try done. destruct (pi_workers _ _ _ H i w Hi) as (_ & _ & _ & Hw). rewrite Est in Hw.
  destruct (_ <? _)%nat; [|done]. intros [= <-]. eapply (pinv_move l0 s _ xs xs i w); try done; try apply H.
  - unfold holding. rewrite Est. cbn. lia.
  - erewrite records_move by done. apply H.
Qed.


Lemma read_payment_amount now req p : read_payment now req = Ok p -> 0 <= pm_msat p.
Proof.
  unfold read_payment. destruct (negb _).
  - intros (z & Hz & H)%res_bind_Ok_inv. apply res_bind_Ok_inv in H as (_ & _ & H).
    destruct (pq_Destination z), (pq_PaymentHash z); try done. injection H as <-. cbn [pm_msat].
    destruct (pq_MilliSat z) as [m|] eqn:Em; [|apply amount_range]. by apply (zpay_Decode_amount _ _ _ Hz) in Em as [? _].
  - intros [= <-]. apply amount_range.
Qed.

(** A payment goes to a new goroutine, which waits for a slot. *)
Lemma pinv_spawn l0 s s' xs p lp :
  pinv l0 s xs -> ps_main s = None -> 0 <= pm_msat p -> too_large p = false -> lightning_payment cfg p = Ok lp ->
  s' = set_workers (ps_workers s ++ [mkWorker p lp WWaiting]) (add_taken p (set_reader RLoop s)) -> pinv l0 s' xs.
Proof.
  intros H Hmain Hp Hl Hlp ->. destruct H as [H1 H2 H3 H4 H5 H6 H7]. constructor; cbn [set_workers add_taken set_reader ps_sema ps_workers ps_sent ps_taken ps_db ps_reader].
  - rewrite count_if_app. cbn. rewrite Nat.add_0_r. done.
  - intros i w Hi. apply lookup_app_Some in Hi as [Hi|[Hge Hi]].
    + destruct (H2 i w Hi) as (? & ? & ? & Hst). do 3 (split; [done|]). by apply (worker_st_ok_mono s).
    + apply list_lookup_singleton_Some in Hi as [Hz <-]. do 3 (split; [done|]). apply H3. lia.
  - intros i Hi. rewrite length_app in Hi. apply H3. lia.
  - destruct H4 as (rest & Hf & Hr & Ha). destruct (Hr Hmain) as [-> Hc]. exists []. cbn [set_workers add_taken set_reader ps_taken ps_workers ps_main].
    rewrite filter_app, Hf, app_nil_r, map_app, app_nil_r. rewrite filter_cons_True by done. split; [done|]. split; [|done].
    intros _. split; [done|]. rewrite count_if_app. cbn. rewrite Hl. by rewrite Nat.add_0_r.
  - done.
  - done.
  - unfold records in *. erewrite map_ext_in; [done|]. intros x Hx. cbn.
    assert (sv_by x < length (ps_workers s))%nat as Hlt.
    { destruct (decide (sv_by x < length (ps_workers s))%nat) as [|Hge]; [done|exfalso]. destruct (H3 (sv_by x)) as [_ Hn]; [lia|].
      apply Hn, list_elem_of_fmap. exists x. split; [done|]. by apply list_elem_of_In. }
    by rewrite lookup_app_l.
Qed.

Lemma pinv_take l0 s xs sent s' : pinv l0 s xs -> pay_step cfg (PTake sent) s = Some s' -> pinv l0 s' xs.
Proof.
  intros H. cbn [pay_step]. destruct (ps_main s) eqn:Hmain; [done|]. destruct (ps_reader s) as [| |p| | |] eqn:Er; try done. intros [= <-].
  pose proof (pi_offer _ _ _ H p Er) as Hp. unfold handle_payment. destruct (too_large p) eqn:Hl.
  - assert (forall s1, ps_sema s1 = ps_sema s -> ps_workers s1 = ps_workers s -> ps_reader s1 = RLoop -> ps_db s1 = ps_db s -> ps_taken s1 = ps_taken s ++ [p] ->
              (ending s -> ending s1) -> (forall i, answers (Some i) s1 = answers (Some i) s) ->
              (ps_main s1 = None -> length (answers None s1) = S (length (answers None s))) ->
              Forall (fun r => rs_PaymentError r <> None) (answers None s1) -> pinv l0 s1 xs) as Hgo.
    { intros s1 E1 E2 E3 E4 E5 He Ha Hn Hf. destruct H as [H1 H2 H3 H4 H5 H6 H7]. constructor.
      - by rewrite E1, E2.
      - rewrite E2. intros i w Hi. destruct (H2 i w Hi) as (? & ? & ? & Hst). do 3 (split; [done|]). by apply (worker_st_ok_mono s).
      - rewrite E2. intros i Hi. rewrite Ha. by apply H3.
      - destruct H4 as (rest & Hfl & Hr & Hb). exists rest. rewrite E5, E2, filter_app, filter_cons_False, filter_nil, app_nil_r by (by rewrite Hl).
        split; [done|]. split; [|done]. intros Em. destruct (Hr Hmain) as [-> Hc]. split; [done|]. rewrite (Hn Em), count_if_app. cbn. rewrite Hl. lia.
      - rewrite E3. done.
      - done.
      - unfold records in *. by rewrite E4, E2. }
    destruct (pi_taken _ _ _ H) as (rest & _ & _ & Hb).
    destruct sent as [e|]; apply Hgo; try done.
    + by left.
    + intros i. rewrite answers_add, decide_False by done. apply app_nil_r.
    + intros _. rewrite answers_add, decide_True by done. rewrite length_app, Nat.add_comm. done.
    + rewrite answers_add, decide_True by done. apply Forall_app. split; [done|]. by apply Forall_singleton.
  - destruct (lightning_payment cfg p) as [lp|e] eqn:Elp; [by eapply (pinv_spawn l0 s)|].
    destruct H as [H1 H2 H3 H4 H5 H6 H7]. constructor; try done.
    + intros i w Hi. destruct (H2 i w Hi) as (? & ? & ? & Hst). do 3 (split; [done|]). apply (worker_st_ok_mono s); [done| |done]. by left.
    + destruct H4 as (rest & Hfl & Hr & Hb). exists (rest ++ [p]). cbn. rewrite filter_app, Hfl, <- app_assoc. rewrite filter_cons_True by done.
      split; [done|]. split; [done|]. done.
Qed.

(** The steps of the reader and the end of the loop. *)
Lemma pinv_reader l0 s xs r : pinv l0 s xs -> (forall p, r = ROffer p -> 0 <= pm_msat p) -> pinv l0 (set_reader r s) xs.
Proof. intros H Hr. by apply (pinv_frame l0 s). Qed.

Lemma pinv_err l0 s xs err : pinv l0 s xs -> pinv l0 (set_errChan (Some err) s) xs.
Proof. intros H. apply (pinv_frame l0 s); try done; [|apply H]. intros _. by right. Qed.

Lemma pinv_recv l0 s xs now r : pinv l0 s xs -> pinv l0 (recv_step now r s) xs.
Proof.
  intros H. unfold recv_step. destruct r as [|e|req]; [by apply pinv_reader..|].
  destruct (read_payment now req) as [p|e] eqn:E; apply pinv_reader; try done. intros ? [= <-]. by eapply read_payment_amount.
Qed.

(** Only the step that saves a payment adds a record. *)
Definition saves (e : pay_event) (s : pay_stream) (xs xs' : list saved) : Prop :=
  match e with
  | PSave i now => exists preImage route, wst s i = Some (WSave preImage route) /\ xs' = xs ++ [mkSaved i now preImage route]
  | _ => xs' = xs
  end.

Lemma pinv_step l0 s xs e s' :
  pinv l0 s xs -> pay_event_ok e -> Z.of_nat (length l0 + length (ps_workers s)) < 2 ^ 64 -> pay_step cfg e s = Some s' ->
  exists xs', pinv l0 s' xs' /\ saves e s xs xs'.
Proof.
  intros H Hok Hlen Hs. destruct e as [|now r|i r| | | | | | | |sent| |i|i now|i sent|i|i];
    try (exists xs; split; [|done]; (by eapply pinv_routed) || (by eapply pinv_take) || (by eapply pinv_acquire) || (by eapply pinv_send)
                    || (by eapply pinv_report) || (by eapply pinv_release));
    try (destruct (pinv_save l0 s xs i now s' H Hok Hlen Hs) as (pre & rt & Hw & Hx); eexists; split; [exact Hx|by exists pre, rt]);
    exists xs; (split; [|done]); cbn [pay_step] in Hs.
  - injection Hs as <-. apply (pinv_frame l0 s); try done. apply H.
  - destruct (ps_reader s); try done. injection Hs as <-. by apply pinv_recv.
  - destruct (ps_reader s); try done. destruct (_ || _); [done|]. injection Hs as <-. by apply pinv_reader.
  - destruct (ps_reader s); try done. destruct (reqQuit s); [|done]. injection Hs as <-. by apply pinv_reader.
  - destruct (ps_reader s); try done. destruct (ps_quit s); [|done]. injection Hs as <-. by apply pinv_reader.
  - destruct (ps_reader s); try done. destruct (ps_errChan s); [done|]. injection Hs as <-. by apply pinv_err, pinv_reader.
  - destruct (ps_reader s); try done. destruct (reqQuit s); [|done]. injection Hs as <-. by apply pinv_reader.
  - destruct (ps_reader s); try done. destruct (ps_errChan s); [done|]. injection Hs as <-. by apply pinv_err, pinv_reader.
  - destruct (ps_reader s); try done. destruct (reqQuit s); [|done]. injection Hs as <-. by apply pinv_reader.
  - destruct (ps_main s) eqn:Em; [done|]. destruct (ps_errChan s) as [err|]; [|done]. injection Hs as <-.
    apply (pinv_frame l0 s); try done; [|apply H]. intros _. by left.
Qed.

(** ** Runs *)

Lemma pay_step_grows e s s' : pay_step cfg e s = Some s' -> (length (ps_workers s) <= length (ps_workers s'))%nat.
Proof.
  destruct e as [|now r|i r| | | | | | | |sent| |i|i now|i sent|i|i]; cbn [pay_step]; intros Hs;
    repeat (match type of Hs with context [match ?x with _ => _ end] => destruct x eqn:? end; try done);
    try (injection Hs as <-); cbn; rewrite ?length_alter; try lia.
  - unfold recv_step. destruct r as [| |req]; [done..|]. by destruct (read_payment now req).
  - unfold handle_payment. destruct (too_large p), sent, (lightning_payment cfg p); cbn; rewrite ?length_app; lia.
Qed.

Lemma pay_run_grows es s s' : pay_run cfg es s = Some s' -> (length (ps_workers s) <= length (ps_workers s'))%nat.
Proof.
  revert s. induction es as [|e es IH]; intros s; [by intros [= <-]|]. cbn. destruct (pay_step cfg e s) as [s1|] eqn:E; [|done].
  intros H. apply pay_step_grows in E. apply IH in H. lia.
Qed.

Lemma pinv_new l0 db : pay_rel db l0 -> pinv l0 (new_stream db) [].
Proof.
  intros H. constructor; try done.
  - intros i _. split; [done|]. apply not_elem_of_nil.
  - exists []. done.
  - apply NoDup_nil_2.
  - cbn. by rewrite app_nil_r.
Qed.

(** ** What the router made *)

(** A goroutine has a payment to save when the router has just made it. *)
Lemma wsave_step e s s' i preImage route :
  pay_step cfg e s = Some s' ->
  wst s' i = Some (WSave preImage route)
  <-> e = PRouted i (Ok (preImage, route)) \/ (wst s i = Some (WSave preImage route) /\ forall now, e <> PSave i now).
Proof.
  intros Hs. assert (forall j st w, wst s j = Some w -> (forall a b, w <> WSave a b) ->
    (wst (move j st s) i = Some (WSave preImage route) <-> (j = i /\ st = WSave preImage route) \/ wst s i = Some (WSave preImage route))) as Hmv.
  { intros j st w Hj Hne. unfold wst, move, set_workers in *. cbn. destruct (decide (j = i)) as [->|Hji].
    - rewrite list_lookup_alter_eq. destruct (ps_workers s !! i) as [w0|] eqn:Ei; [|done]. cbn in *. split; [intros [= ->]; by left|].
      intros [[_ ->]|H]; [done|]. by destruct (Hne preImage route); congruence.
    - rewrite list_lookup_alter_ne by done. tauto. }
  destruct e as [|now r|j r| | | | | | | |sent| |j|j now|j sent|j|j]; cbn [pay_step] in Hs.
  3: { destruct (wst s j) as [[]|] eqn:Ej; try done. injection Hs as <-. rewrite (Hmv j _ _ Ej) by done. destruct r as [[a b]|err]; [naive_solver|].
       split; [intros [[_ ?]|?]; [done|right; naive_solver]|intros [?|[? _]]; [naive_solver|by right]]. }
  13: { destruct (ps_workers s !! j) as [[p lp st]|] eqn:Ej; [|done]. destruct st as [| |a b| | | |]; try done. destruct (savePayment now b (pm_msat p) a (ps_db s)) as [r db'].
       injection Hs as <-. unfold wst, move, set_workers, set_pdb. cbn. destruct (decide (j = i)) as [->|Hji].
       - rewrite list_lookup_alter_eq, Ej. cbn. destruct r; split; try (intros [= ]); naive_solver.
       - rewrite list_lookup_alter_ne by done. split; [intros H; right; split; [done|naive_solver]|intros [?|[? _]]; done]. }
  all: repeat (match type of Hs with context [match ?x with _ => _ end] => destruct x eqn:? end; try done); try (injection Hs as <-).
  all: try (split; [intros H; right; split; [exact H|done]|by intros [?|[H _]]]).
  all: try (match goal with |- context [move ?j ?st ?s0] => etransitivity; [eapply (Hmv j st); [eassumption|done]|naive_solver] end).
  - unfold recv_step. destruct r as [|err|req]; [naive_solver..|]. destruct (read_payment now req); naive_solver.
  - unfold handle_payment. destruct (too_large p); [destruct sent; naive_solver|]. destruct (lightning_payment cfg p) as [lp|err]; [|naive_solver].
    unfold wst. cbn. destruct (decide (i < length (ps_workers s))%nat) as [Hlt|Hge].
    + rewrite lookup_app_l by done. naive_solver.
    + rewrite (lookup_ge_None_2 (ps_workers s) i) by lia. rewrite lookup_app_r by lia.
      destruct (i - length (ps_workers s))%nat as [|n]; cbn; naive_solver.
Qed.

(** The records against the events: each is one payment the router made, and what the router
    made is recorded or about to be. *)
Record traced (es : list pay_event) (s : pay_stream) (xs : list saved) : Prop := mkTraced {
  tr_saved : forall x, x ∈ xs -> PRouted (sv_by x) (Ok (sv_preImage x, sv_route x)) ∈ es /\ PSave (sv_by x) (sv_now x) ∈ es;
  tr_made : forall i preImage route, PRouted i (Ok (preImage, route)) ∈ es ->
    wst s i = Some (WSave preImage route) \/ exists x, x ∈ xs /\ sv_by x = i /\ sv_preImage x = preImage /\ sv_route x = route;
  tr_saving : forall i preImage route, wst s i = Some (WSave preImage route) -> PRouted i (Ok (preImage, route)) ∈ es
}.

Lemma traced_step es e s s' xs xs' : traced es s xs -> pay_step cfg e s = Some s' -> saves e s xs xs' -> traced (es ++ [e]) s' xs'.
Proof.
  intros [H1 H2 H3] Hs Hx. assert (forall x, x ∈ xs -> x ∈ xs') as Hin.
  { intros x Hxs. destruct e; try by (cbn in Hx; subst xs'). destruct Hx as (a & b & _ & ->). apply elem_of_app. by left. }
  split.
  - intros x Hin'. assert (x ∈ xs \/ PRouted (sv_by x) (Ok (sv_preImage x, sv_route x)) ∈ es /\ PSave (sv_by x) (sv_now x) = e) as [Ho|[Ho <-]].
    { destruct e; try by (left; cbn in Hx; subst xs'). destruct Hx as (a & b & Hw & ->). apply elem_of_app in Hin' as [?|E%list_elem_of_singleton]; [by left|].
      subst x. right. split; [by apply H3|done]. }
    + apply H1 in Ho as [? ?]. rewrite !elem_of_app. tauto.
    + split; apply elem_of_app; [by left|right; by apply list_elem_of_singleton].
  - intros i a b [Hr|Hr%list_elem_of_singleton]%elem_of_app.
    + destruct (H2 i a b Hr) as [Hw|(x & ? & ?)]; [|right; exists x; auto]. destruct e as [|now r|j r| | | | | | | |sent| |j|j now|j sent|j|j];
        try (left; apply (wsave_step _ _ _ _ _ _ Hs); right; done).
      destruct (decide (j = i)) as [->|Hne]; [|left; apply (wsave_step _ _ _ _ _ _ Hs); right; naive_solver].
      destruct Hx as (a' & b' & Hw' & ->). rewrite Hw in Hw'. injection Hw' as <- <-. right. exists (mkSaved i now a b).
      split; [apply elem_of_app; right; by apply list_elem_of_singleton|done].
    + left. apply (wsave_step _ _ _ _ _ _ Hs). by left.
  - intros i a b Hw%(wsave_step _ _ _ _ _ _ Hs). rewrite elem_of_app, list_elem_of_singleton. destruct Hw as [->|[Hw _]]; [by right|left; auto].
Qed.

Lemma pinv_run_traced l0 es0 es s xs s' :
  pinv l0 s xs -> traced es0 s xs -> Forall pay_event_ok es -> pay_run cfg es s = Some s' -> Z.of_nat (length l0 + length (ps_workers s')) < 2 ^ 64 ->
  exists xs', pinv l0 s' xs' /\ traced (es0 ++ es) s' xs'.
Proof.
  intros H Ht Hes. revert es0 s xs H Ht. induction Hes as [|e es He _ IH]; intros es0 s xs H Ht; [intros [= <-]; rewrite app_nil_r; eauto|].
  cbn [pay_run]. destruct (pay_step cfg e s) as [s1|] eqn:E; [|done]. intros Hr Hlen.
  pose proof (pay_step_grows _ _ _ E). pose proof (pay_run_grows _ _ _ Hr).
  destruct (pinv_step l0 s xs e s1 H He ltac:(lia) E) as (xs1 & Hx1 & Hsv). rewrite cons_middle, app_assoc. eapply IH; try done. by eapply traced_step.
Qed.

Lemma traced_new db : traced [] (new_stream db) [].
Proof. split; [by intros x ?%not_elem_of_nil|by intros i a b ?%not_elem_of_nil|done]. Qed.

Lemma pinv_run l0 es db s :
  pay_rel db l0 -> Forall pay_event_ok es -> pay_run cfg es (new_stream db) = Some s -> Z.of_nat (length l0 + length (ps_workers s)) < 2 ^ 64 ->
  exists xs, pinv l0 s xs /\ traced es s xs.
Proof. intros Hdb Hes Hr Hlen. apply (pinv_run_traced l0 [] es (new_stream db) []); try done; [by apply pinv_new|apply traced_new]. Qed.

End Inv.
