(* ===== verification/RpcPayProps.v ===== *)
(** * Payments over RPC: what the calls guarantee

    A payment reported as made is recorded, once and with its amount; every payment that is
    taken gets one answer; and a request has the same outcome over the stream and over the
    synchronous call. *)

From Stdlib Require Import ZArith Lia.
From Stdlib Require Import Init.Byte.
From stdpp Require Import base gmap strings numbers list.
From S2P Require Import Prelude Stream Outputs Bolt InvoiceStore Preimages RpcBase RpcInvoice PaymentStore RpcPay RpcPayInv.
Local Open Scope Z_scope.

Section Props.
Context {IE : InvoiceEnv} {RE : RpcEnv} {BTC : Btcec} {ZP : Zpay32}.
Context (cfg : rpcConfig).

(** ** The records *)

Lemma sent_answer who r s : (who, r) ∈ ps_sent s <-> r ∈ answers who s.
Proof.
  unfold answers. rewrite list_elem_of_fmap. split.
  - intros H. exists (who, r). split; [done|]. by apply list_elem_of_filter.
  - intros ([w r'] & -> & Hin). apply list_elem_of_filter in Hin as [E Hin]. cbn in E. by subst w.
Qed.

Lemma answers_main l0 s xs r : pinv cfg l0 s xs -> r ∈ answers None s -> rs_PaymentError r <> None.
Proof. intros H Hin. destruct (pi_taken _ _ _ _ H) as (_ & _ & _ & Hf). by apply (proj1 (Forall_forall _ _) Hf). Qed.

(** A goroutine that has answered. *)
Lemma answer_ok l0 s xs i r : pinv cfg l0 s xs -> r ∈ answers (Some i) s -> (exists w, ps_workers s !! i = Some w) /\ reply_ok xs i r.
Proof.
  intros H Hin. destruct (ps_workers s !! i) as [w|] eqn:Hi.
  - split; [eauto|]. destruct (pi_workers _ _ _ _ H i w Hi) as (_ & _ & _ & Hw). unfold worker_st_ok in Hw.
    assert (answers (Some i) s = [] \/ exists r', answers (Some i) s = [r'] /\ reply_ok xs i r') as [E|(r' & E & Hok)]
      by (destruct (wk_st w); naive_solver); rewrite E in Hin; [by apply not_elem_of_nil in Hin|]. by apply list_elem_of_singleton in Hin as ->.
  - exfalso. apply lookup_ge_None in Hi. destruct (pi_fresh _ _ _ _ H i Hi) as [E _]. rewrite E in Hin. by apply not_elem_of_nil in Hin.
Qed.

(** C5: The database after any run of a stream of payments holds what it held before and one
    record for each payment the router made, with its preimage, its route and the amount that was asked for, unless the
    payment is only about to be saved; there are no other records.  A client
    that is told that a payment was made finds it there, and one that is told that a
    payment failed does not; at most 2000 payments are with the router at a time, and none
    above the limit. *)
Theorem payments_recorded db l0 es s :
  pay_rel db l0 -> Forall pay_event_ok es -> pay_run cfg es (new_stream db) = Some s ->
  Z.of_nat (length l0 + length (ps_workers s)) < 2 ^ 64 ->
  (count_if holding (ps_workers s) <= numOutstandingPayments)%nat
  /\ (forall w, w ∈ ps_workers s -> lightning_payment cfg (wk_payment w) = Ok (wk_request w)
        /\ 0 <= lp_Amount (wk_request w) <= maxPaymentMSat /\ wk_payment w ∈ ps_taken s)
  /\ exists xs, NoDup (map sv_by xs)
       /\ FetchAllPayments (ps_db s) = match ps_db s with None => Err ErrNoPaymentsCreated | Some _ => Ok (l0 ++ records s xs) end
       /\ (ps_db s = None -> xs = [])
       /\ (forall x, x ∈ xs -> PRouted (sv_by x) (Ok (sv_preImage x, sv_route x)) ∈ es)
       /\ (forall i preImage route, PRouted i (Ok (preImage, route)) ∈ es ->
             wst s i = Some (WSave preImage route) \/ exists x, x ∈ xs /\ sv_by x = i /\ sv_preImage x = preImage /\ sv_route x = route)
       /\ (forall who r, (who, r) ∈ ps_sent s -> rs_PaymentError r = None ->
             exists x w, who = Some (sv_by x) /\ x ∈ xs /\ ps_workers s !! sv_by x = Some w
               /\ r = paid_response (sv_preImage x) (sv_route x) /\ record_of (pm_msat (wk_payment w)) x ∈ records s xs)
       /\ (forall i r, (Some i, r) ∈ ps_sent s -> rs_PaymentError r <> None -> i ∉ map sv_by xs).
Proof.
  intros Hdb Hes Hrun Hlen. destruct (pinv_run cfg l0 es db s Hdb Hes Hrun Hlen) as (xs & H & Htr). split; [|split].
  - pose proof (pi_slots _ _ _ _ H). lia.
  - intros w [i Hi]%list_elem_of_lookup. destruct (pi_workers _ _ _ _ H i w Hi) as (Hm & Hl & Hp & _). split; [done|]. split.
    + unfold lightning_payment in Hp. apply res_bind_Ok_inv in Hp as (k & _ & Hp). injection Hp as <-. cbn. unfold too_large in Hl. lia.
    + destruct (pi_taken _ _ _ _ H) as (rest & Hf & _). assert (wk_payment w ∈ filter (fun p => too_large p = false) (ps_taken s)) as Hin.
      { rewrite Hf. apply elem_of_app. left. apply list_elem_of_fmap. exists w. split; [done|]. by apply list_elem_of_lookup_2 in Hi. }
      by apply list_elem_of_filter in Hin as [_ ?].
  - exists xs. split; [apply H|]. split; [apply FetchAllPayments_refines, H|]. split; [|split; [|split; [|split]]].
    + intros E. destruct (pi_db _ _ _ _ H) as (Hs & _). rewrite E in Hs. cbn in Hs. rewrite length_app in Hs.
      unfold records in Hs. rewrite length_map in Hs. apply nil_length_inv. lia.
    + intros x Hx. by apply (tr_saved _ _ _ Htr).
    + apply (tr_made _ _ _ Htr).
    + intros [i|] r Hin%sent_answer Hr; [|by apply (answers_main _ _ _ _ H) in Hin].
      destruct (answer_ok _ _ _ _ _ H Hin) as [[w Hw] Hok]. unfold reply_ok in Hok. rewrite Hr in Hok. destruct Hok as (x & Hx & <- & ->).
      exists x, w. do 4 (split; [done|]). apply list_elem_of_fmap. exists x. by rewrite Hw.
    + intros i r Hin%sent_answer Hr. destruct (answer_ok _ _ _ _ _ H Hin) as [_ Hok]. unfold reply_ok in Hok.
      by destruct (rs_PaymentError r).
Qed.

(** ** The answers *)

(** The steps that need neither the client, the router nor the user. *)
Definition pay_internal (e : pay_event) : bool := match e with PQuit | PRecv _ _ | PRouted _ _ => false | _ => true end.

Definition reader_rank (r : reader_st) : nat :=
  match r with RDone | RRecv => 0 | RFinal | RReport _ => 1 | RLoop => 2 | ROffer _ => 10 end.

Definition worker_rank (w : worker) : nat :=
  match wk_st w with WDone => 0 | WRelease => 1 | WReport _ => 2 | WAnswer _ => 3 | WSave _ _ => 4 | WRouting => 5 | WWaiting => 6 end.

(** The steps left to do without the outside. *)
Definition pay_left (s : pay_stream) : nat :=
  reader_rank (ps_reader s) + sum_list_with worker_rank (ps_workers s) + (match ps_main s with None => 1 | Some _ => 0 end).

Lemma sum_alter (ws : list worker) i w st :
  ws !! i = Some w ->
  (sum_list_with worker_rank (alter (set_wst st) i ws) + worker_rank w = sum_list_with worker_rank ws + worker_rank (set_wst st w))%nat.
Proof.
  revert i. induction ws as [|w' ws IH]; intros [|i] H; [done|done|..].
  - injection H as ->. change (alter (set_wst st) 0%nat (w :: ws)) with (set_wst st w :: ws). cbn. lia.
  - change (alter (set_wst st) (S i) (w' :: ws)) with (w' :: alter (set_wst st) i ws). specialize (IH i H). cbn. lia.
Qed.

Lemma move_rank s i w st :
  ps_workers s !! i = Some w -> (worker_rank (set_wst st w) < worker_rank w)%nat ->
  (sum_list_with worker_rank (alter (set_wst st) i (ps_workers s)) < sum_list_with worker_rank (ps_workers s))%nat.
Proof. intros Hi Hlt. pose proof (sum_alter _ _ _ st Hi). lia. Qed.

Lemma wst_worker s i st : wst s i = Some st -> exists w, ps_workers s !! i = Some w /\ wk_st w = st.
Proof. unfold wst. destruct (ps_workers s !! i) as [w|]; [|done]. intros [= <-]. eauto. Qed.

Lemma pay_step_decreases e s s' : pay_internal e = true -> pay_step cfg e s = Some s' -> (pay_left s' < pay_left s)%nat.
Proof.
  intros He Hs. destruct e as [|now r|i r| | | | | | | |sent| |i|i now|i sent|i|i]; try done; cbn [pay_step] in Hs; unfold pay_left.
  - destruct (ps_reader s); try done. destruct (_ || _); [done|]. injection Hs as <-. cbn. lia.
  - destruct (ps_reader s); try done. destruct (reqQuit s); [|done]. injection Hs as <-. cbn. lia.
  - destruct (ps_reader s); try done. destruct (ps_quit s); [|done]. injection Hs as <-. cbn. lia.
  - destruct (ps_reader s); try done. destruct (ps_errChan s); [done|]. injection Hs as <-. cbn. lia.
  - destruct (ps_reader s); try done. destruct (reqQuit s); [|done]. injection Hs as <-. cbn. lia.
  - destruct (ps_reader s); try done. destruct (ps_errChan s); [done|]. injection Hs as <-. cbn. lia.
  - destruct (ps_reader s); try done. destruct (reqQuit s); [|done]. injection Hs as <-. cbn. lia.
  - destruct (ps_main s) eqn:Em; [done|]. destruct (ps_reader s) as [| |p| | |]; try done. injection Hs as <-. unfold handle_payment.
    destruct (too_large p), sent, (lightning_payment cfg p); cbn; rewrite ?Em; try lia; rewrite sum_list_with_app; cbn; lia.
  - destruct (ps_main s); [done|]. destruct (ps_errChan s); [|done]. injection Hs as <-. cbn. lia.
  - destruct (wst s i) as [[]|] eqn:Ew; try done. apply wst_worker in Ew as (w & Hi & Hw). destruct (ps_sema s); [done|]. injection Hs as <-.
    cbn. pose proof (move_rank s i w WRouting Hi). unfold worker_rank in *. rewrite Hw in *. cbn in *. lia.
  - destruct (ps_workers s !! i) as [[p lp [| |preImage route| | | |]]|] eqn:Hi; try done. destruct (savePayment _ _ _ _ _) as [r db'].
    injection Hs as <-. cbn [set_pdb move set_workers ps_reader ps_workers ps_main].
    pose proof (move_rank s i _ (match r with Ok _ => WAnswer (paid_response preImage route) | Err e => WReport e end) Hi) as H.
    unfold worker_rank in *. destruct r; cbn in *; lia.
  - destruct (wst s i) as [[]|] eqn:Ew; try done. apply wst_worker in Ew as (w & Hi & Hw). destruct sent as [e|]; injection Hs as <-; cbn.
    + pose proof (move_rank s i w (WReport e) Hi). unfold worker_rank in *. rewrite Hw in *. cbn in *. lia.
    + pose proof (move_rank s i w WRelease Hi). unfold worker_rank in *. rewrite Hw in *. cbn in *. lia.
  - destruct (wst s i) as [[]|] eqn:Ew; try done. apply wst_worker in Ew as (w & Hi & Hw). destruct (ps_errChan s); [done|]. injection Hs as <-. cbn.
    pose proof (move_rank s i w WRelease Hi). unfold worker_rank in *. rewrite Hw in *. cbn in *. lia.
  - destruct (wst s i) as [[]|] eqn:Ew; try done. apply wst_worker in Ew as (w & Hi & Hw). destruct (_ <? _)%nat; [|done]. injection Hs as <-. cbn.
    pose proof (move_rank s i w WDone Hi). unfold worker_rank in *. rewrite Hw in *. cbn in *. lia.
Qed.

Lemma pay_run_bounded es s s' :
  forallb pay_internal es = true -> pay_run cfg es s = Some s' -> (length es + pay_left s' <= pay_left s)%nat.
Proof.
  revert s. induction es as [|e es IH]; intros s; [intros _ [= <-]; cbn; lia|]. cbn. intros [He Hes]%andb_prop.
  destruct (pay_step cfg e s) as [s1|] eqn:E; [|done]. intros Hr. apply IH in Hr; [|done]. apply pay_step_decreases in E; [lia|done].
Qed.

(** Nothing is left to do before the outside acts. *)
Definition pay_stuck (s : pay_stream) : Prop := forall e, pay_internal e = true -> pay_step cfg e s = None.

Lemma stuck_errChan s : pay_stuck s -> ps_main s = None -> ps_errChan s = None.
Proof. intros Hs Hm. pose proof (Hs PErr eq_refl) as H. cbn in H. rewrite Hm in H. by destruct (ps_errChan s). Qed.

(** A goroutine that is at rest: done, with the router, waiting for a slot that is not there,
    or, when the call is over, with an error that nobody will read. *)
Lemma stuck_worker l0 s xs i w :
  pinv cfg l0 s xs -> pay_stuck s -> ps_workers s !! i = Some w ->
  match wk_st w with
  | WDone | WRouting => True
  | WWaiting => ps_sema s = 0%nat
  | WReport _ => ps_main s <> None /\ ps_errChan s <> None
  | WSave _ _ | WAnswer _ | WRelease => False
  end.
Proof.
  intros H Hs Hi. assert (wst s i = Some (wk_st w)) as Ew by (unfold wst; by rewrite Hi).
  destruct (wk_st w) eqn:Est; try done.
  - pose proof (Hs (PAcquire i) eq_refl) as Hx. cbn [pay_step] in Hx. rewrite Ew in Hx. by destruct (ps_sema s).
  - destruct w as [p lp st]. cbn in Est. subst st. pose proof (Hs (PSave i time_zero) eq_refl) as Hx. cbn [pay_step] in Hx. rewrite Hi in Hx. by destruct (savePayment _ _ _ _ _).
  - pose proof (Hs (PSend i None) eq_refl) as Hx. cbn [pay_step] in Hx. by rewrite Ew in Hx.
  - pose proof (Hs (PReportW i) eq_refl) as Hx. cbn [pay_step] in Hx. rewrite Ew in Hx. destruct (ps_errChan s) eqn:He; [|done].
    split; [|done]. intros Hm. pose proof (stuck_errChan s Hs Hm). congruence.
  - pose proof (Hs (PRelease i) eq_refl) as Hx. cbn [pay_step] in Hx. rewrite Ew in Hx.
    assert (ps_sema s < numOutstandingPayments)%nat as Hlt.
    { pose proof (pi_slots _ _ _ _ H) as Hsl. pose proof (count_if_alter holding (set_wst WDone) i _ _ Hi) as Hc. unfold holding in Hc at 2 4. rewrite Est in Hc. cbn in Hc. lia. }
    apply Nat.ltb_lt in Hlt. by rewrite Hlt in Hx.
Qed.

Lemma one_answer l0 s xs i : pinv cfg l0 s xs -> (length (answers (Some i) s) <= 1)%nat.
Proof.
  intros H. destruct (ps_workers s !! i) as [w|] eqn:Hi.
  - destruct (pi_workers _ _ _ _ H i w Hi) as (_ & _ & _ & Hw). unfold worker_st_ok in Hw.
    assert (answers (Some i) s = [] \/ exists r, answers (Some i) s = [r]) as [->|[r ->]] by (destruct (wk_st w); naive_solver); cbn; lia.
  - apply lookup_ge_None in Hi. destruct (pi_fresh _ _ _ _ H i Hi) as [-> _]. cbn. lia.
Qed.

(** C9: The goroutines of a stream of payments come to rest, and then its payments are
    answered.  A run without the client and the router is finite.  No payment is answered
    twice.  At rest, a payment is done or with the router, or it waits for a slot while all
    slots are taken, or, only when the call has returned, its goroutine has an error that
    is not read any more.  As long as the call has not returned and the router has nothing, the reader waits for
    the client at rest, and each payment taken from it has exactly one
    answer, of the loop if it was too large and of its goroutine otherwise. *)
Theorem payments_answered db l0 es s :
  pay_rel db l0 -> Forall pay_event_ok es -> pay_run cfg es (new_stream db) = Some s ->
  Z.of_nat (length l0 + length (ps_workers s)) < 2 ^ 64 ->
  (forall es' s', forallb pay_internal es' = true -> pay_run cfg es' s = Some s' -> (length es' + pay_left s' <= pay_left s)%nat)
  /\ (forall i, (length (answers (Some i) s) <= 1)%nat)
  /\ (pay_stuck s -> forall i w, ps_workers s !! i = Some w ->
        wk_st w = WDone \/ wk_st w = WRouting \/ (wk_st w = WWaiting /\ ps_sema s = 0%nat)
        \/ (ps_main s <> None /\ ps_errChan s <> None /\ exists e, wk_st w = WReport e))
  /\ (pay_stuck s -> ps_main s = None -> (forall i, wst s i <> Some WRouting) ->
      (ps_reader s = RRecv \/ ps_reader s = RDone)
      /\ filter (fun p => too_large p = false) (ps_taken s) = map wk_payment (ps_workers s)
      /\ length (answers None s) = count_if too_large (ps_taken s)
      /\ forall i w, ps_workers s !! i = Some w -> wk_st w = WDone /\ length (answers (Some i) s) = 1%nat).
Proof.
  intros Hdb Hes Hrun Hlen. destruct (pinv_run cfg l0 es db s Hdb Hes Hrun Hlen) as (xs & H & _).
  split; [intros es' s'; apply pay_run_bounded|]. split; [intros i; by eapply one_answer|]. split.
  { intros Hst i w Hi. pose proof (stuck_worker _ _ _ i w H Hst Hi) as Hw. destruct (wk_st w); naive_solver. }
  intros Hst Hm Hr. pose proof (stuck_errChan s Hst Hm) as He.
  split; [|split; [|split]].
  - destruct (ps_reader s) as [| |p|e| |] eqn:Er; [|by left| | | |by right]; exfalso.
    + pose proof (Hst PEnter eq_refl) as H1. pose proof (Hst PReaderStop eq_refl) as H2. cbn in H1, H2. unfold reqQuit in H1. rewrite Er, Hm in H1. rewrite Er in H2.
      by destruct (ps_quit s).
    + pose proof (Hst (PTake None) eq_refl) as H1. cbn in H1. by rewrite Er, Hm in H1.
    + pose proof (Hst PReport eq_refl) as H1. cbn in H1. by rewrite Er, He in H1.
    + pose proof (Hst PFinal eq_refl) as H1. cbn in H1. by rewrite Er, He in H1.
  - destruct (pi_taken _ _ _ _ H) as (rest & Hf & Hn & _). destruct (Hn Hm) as [-> _]. by rewrite app_nil_r in Hf.
  - destruct (pi_taken _ _ _ _ H) as (rest & Hf & Hn & _). by destruct (Hn Hm).
  - intros i w Hi. assert (wk_st w = WDone) as Hd.
    { assert (forall j v, ps_workers s !! j = Some v -> wk_st v = WDone \/ wk_st v = WWaiting /\ ps_sema s = 0%nat) as Hall.
      { intros j v Hj. pose proof (stuck_worker _ _ _ j v H Hst Hj) as Hw. specialize (Hr j). unfold wst in Hr. rewrite Hj in Hr. cbn in Hr.
        destruct (wk_st v); naive_solver. }
      destruct (Hall i w Hi) as [?|[_ Hz]]; [done|exfalso].
      pose proof (pi_slots _ _ _ _ H) as Hsl. rewrite Hz in Hsl. destruct (count_if_pos holding (ps_workers s)) as (j & v & Hj & Hv).
      { unfold numOutstandingPayments in Hsl. lia. }
      destruct (Hall j v Hj) as [E|[E _]]; unfold holding in Hv; by rewrite E in Hv. }
    split; [done|]. destruct (pi_workers _ _ _ _ H i w Hi) as (_ & _ & _ & Hw). rewrite Hd in Hw. destruct Hw as [[_ [Hx|Hx]]|(r & -> & _)]; done.
Qed.

(** ** Both calls *)

(** The request of a stream that asks for what a request asks of the synchronous call: that
    one reads the destination and the hash from their hexadecimal fields, and does not read
    [FinalCltvDelta]. *)
Definition as_stream (req : SendRequest) : res SendRequest :=
  if negb (length (sr_PaymentRequest req) =? 0)%nat then Ok req
  else
    hash ← (if cfg_DebugHTLC cfg && (length (sr_PaymentHashString req) =? 0)%nat then Ok [] else hex_DecodeString (sr_PaymentHashString req));
    dest ← hex_DecodeString (sr_DestString req);
    mret (mkSendRequest dest (sr_DestString req) (sr_Amt req) hash (sr_PaymentHashString req) [] 0).

Lemma hex_decode_empty src : hex_DecodeString src = Ok [] -> src = [].
Proof.
  unfold hex_DecodeString. destruct src as [|a [|b src]]; [done|done|]. cbn [length Nat.odd]. destruct (Nat.odd _); [done|]. cbn [hex_pairs].
  destruct (fromHexChar a), (fromHexChar b); try done. by destruct (hex_pairs src).
Qed.

Lemma sync_payment_same now req :
  sync_payment cfg now req = (req' ← as_stream req; p ← read_payment now req'; lightning_payment cfg p).
Proof.
  unfold sync_payment, as_stream. destruct (negb _) eqn:En.
  - cbn [mbind res_bind]. unfold read_payment. rewrite En. destruct (zpay_Decode (sr_PaymentRequest req)) as [z|e] eqn:Ez; [|done]. cbn [mbind res_bind].
    destruct (validatePayReqExpiry now z) as [[]|e]; [|done]. cbn [mbind res_bind]. destruct (pq_Destination z) as [dest|]; [|done].
    destruct (pq_PaymentHash z) as [hash|] eqn:Eh; [|done]. apply (zpay_Decode_hash _ _ _ Ez) in Eh. cbn [mbind res_bind mret res_ret].
    unfold lightning_payment. cbn [pm_dest pm_pHash pm_msat pm_cltvDelta]. rewrite ParsePubKey_SerializeCompressed. cbn [mbind res_bind].
    rewrite Eh, andb_false_r. by rewrite copy32_whole.
  - destruct (cfg_DebugHTLC cfg && (length (sr_PaymentHashString req) =? 0)%nat) eqn:Ed; cbn [mbind res_bind mret res_ret].
    + destruct (hex_DecodeString (sr_DestString req)) as [dest|]; [|done]. cbn. apply andb_prop in Ed as [Ed _]. unfold lightning_payment. cbn. rewrite Ed. done.
    + destruct (hex_DecodeString (sr_PaymentHashString req)) as [hash|e] eqn:Eh; [|done]. cbn [mbind res_bind].
      destruct (hex_DecodeString (sr_DestString req)) as [dest|]; [|done]. cbn. unfold lightning_payment. cbn.
      assert (cfg_DebugHTLC cfg && (length hash =? 0)%nat = false) as ->; [|done]. destruct (cfg_DebugHTLC cfg); [|done]. cbn in *.
      destruct hash as [|b hash]; [|done]. apply hex_decode_empty in Eh. by rewrite Eh in Ed.
Qed.

Section OneRequest.
Context (now : Time) (router : LightningPayment -> res (bytes * Route)) (req : SendRequest) (db : payment_db).

(** The events of a stream that carries one request: what the router and the clock say is
    what they say to the synchronous call, sending works, and the daemon runs on. *)
Definition one_request (e : pay_event) : Prop :=
  match e with
  | PRecv now' r => now' = now /\ r = RecvRequest req
  | PRouted i r => forall p lp, read_payment now req = Ok p -> lightning_payment cfg p = Ok lp -> r = router lp
  | PTake sent | PSend _ sent => sent = None
  | PSave _ now' => now' = now
  | PQuit => False
  | _ => True
  end.

Definition received (e : pay_event) : bool := match e with PRecv _ _ => true | _ => false end.

(** The parts of the state that the payment has not touched, while the call goes on. *)
Definition calm (s : pay_stream) : Prop :=
  (ps_reader s = RLoop \/ ps_reader s = RRecv) /\ ps_main s = None /\ ps_errChan s = None /\ ps_quit s = false.

(** The call ends with an error, or is about to. *)
Definition fails (e : goerr) (s : pay_stream) : Prop :=
  ps_quit s = false /\ ps_sent s = []
  /\ (ps_main s = Some (Some e) /\ ps_errChan s = None /\ (ps_reader s = RLoop \/ ps_reader s = RRecv \/ ps_reader s = RDone)
      \/ ps_main s = None /\ ps_errChan s = Some (Some e) /\ (ps_reader s = RLoop \/ ps_reader s = RRecv \/ ps_reader s = RDone)).

(** The answer to the payment [lp] of [p] and the database after it. *)
Definition outcome_of (p : payment) (lp : LightningPayment) (r : res SendResponse) (db' : payment_db) : Prop :=
  match router lp with
  | Err e => r = Ok (error_response e) /\ db' = db
  | Ok (preImage, route) =>
      match savePayment now route (pm_msat p) preImage db with
      | (Ok _, db1) => r = Ok (paid_response preImage route) /\ db' = db1
      | (Err e, db1) => r = Err e /\ db' = db1
      end
  end.

Definition worker_run (p : payment) (lp : LightningPayment) (s : pay_stream) : Prop :=
  exists st, ps_workers s = [mkWorker p lp st] /\
  match st with
  | WWaiting | WRouting => calm s /\ ps_sent s = [] /\ ps_db s = db
  | WSave preImage route => calm s /\ ps_sent s = [] /\ ps_db s = db /\ router lp = Ok (preImage, route)
  | WAnswer r => calm s /\ ps_sent s = [] /\ outcome_of p lp (Ok r) (ps_db s)
  | WReport e => calm s /\ ps_sent s = [] /\ outcome_of p lp (Err e) (ps_db s)
  | WRelease | WDone =>
      (calm s /\ exists r, ps_sent s = [(Some 0%nat, r)] /\ outcome_of p lp (Ok r) (ps_db s))
      \/ (exists e, fails e s /\ outcome_of p lp (Err e) (ps_db s))
  end.

(** A stream that has or has not received the request. *)
Definition one_run (got : bool) (s : pay_stream) : Prop :=
  if got then
    match read_payment now req with
    | Err e => ps_workers s = [] /\ ps_db s = db
        /\ (ps_reader s = RReport e /\ ps_main s = None /\ ps_errChan s = None /\ ps_quit s = false /\ ps_sent s = [] \/ fails e s)
    | Ok p =>
        (ps_reader s = ROffer p /\ ps_main s = None /\ ps_errChan s = None /\ ps_quit s = false /\ ps_sent s = [] /\ ps_workers s = [] /\ ps_db s = db)
        \/ (if too_large p then calm s /\ ps_workers s = [] /\ ps_db s = db /\ ps_sent s = [(None, error_response (stream_too_large p))]
            else match lightning_payment cfg p with
                 | Err e => ps_workers s = [] /\ ps_db s = db /\ fails e s
                 | Ok lp => worker_run p lp s
                 end)
    end
  else calm s /\ ps_workers s = [] /\ ps_db s = db /\ ps_sent s = [].

(** A reader that is not [RReport] or [ROffer] moves without the request only among the
    places above. *)
Lemma calm_reader_step e s s' :
  calm s -> one_request e -> received e = false -> pay_step cfg e s = Some s' ->
  match e with PAcquire _ | PRouted _ _ | PSave _ _ | PSend _ _ | PReportW _ | PRelease _ => True | _ => s' = set_reader RRecv s end.
Proof.
  intros (Hrd & Hm & Hc & Hq) Hone Hrecv Hs. destruct e as [|t r|j r| | | | | | | |sent| |j|j t|j sent|j|j]; try done; cbn [pay_step] in Hs;
    unfold reqQuit in Hs; rewrite ?Hm, ?Hc, ?Hq in Hs; destruct Hrd as [Hrd|Hrd]; rewrite ?Hrd in Hs; try done; by injection Hs as <-.
Qed.

Lemma fails_reader_step err e s s' :
  fails err s -> one_request e -> received e = false -> pay_step cfg e s = Some s' ->
  match e with
  | PAcquire _ | PRouted _ _ | PSave _ _ | PSend _ _ | PReportW _ | PRelease _ => True
  | _ => fails err s' /\ ps_workers s' = ps_workers s /\ ps_db s' = ps_db s
  end.
Proof.
  intros (Hq & Hsent & [(Hm & Hc & Hrd)|(Hm & Hc & Hrd)]) Hone Hrecv Hs; destruct e as [|t r|j r| | | | | | | |sent| |j|j t|j sent|j|j]; try done; cbn [pay_step] in Hs;
    unfold reqQuit in Hs; rewrite ?Hm, ?Hc, ?Hq in Hs; destruct Hrd as [Hrd|[Hrd|Hrd]]; rewrite ?Hrd in Hs; try done; injection Hs as <-;
    (split; [|done]); (split; [done|]); (split; [done|]); cbn; rewrite ?Hm, ?Hc, ?Hrd; naive_solver.
Qed.

Lemma no_worker_step e s s' :
  ps_workers s = [] -> pay_step cfg e s = Some s' ->
  match e with PAcquire _ | PRouted _ _ | PSave _ _ | PSend _ _ | PReportW _ | PRelease _ => False | _ => True end.
Proof. intros Hw Hs. destruct e; try done; cbn [pay_step] in Hs; unfold wst in Hs; by rewrite Hw in Hs. Qed.

Lemma calm_set_reader s : calm s -> calm (set_reader RRecv s).
Proof. intros (_ & H). split; [by right|done]. Qed.

Lemma calm_worker_step p lp e s s' :
  worker_run p lp s -> read_payment now req = Ok p -> lightning_payment cfg p = Ok lp -> one_request e -> received e = false ->
  pay_step cfg e s = Some s' -> worker_run p lp s'.
Proof.
  intros (st & Hw & Hst) Hp Hlp Hone Hrecv Hs.
  destruct (match e with PAcquire _ | PRouted _ _ | PSave _ _ | PSend _ _ | PReportW _ | PRelease _ => true | _ => false end) eqn:Ek.
  - assert (forall i x, wst s i = Some x -> i = 0%nat /\ x = st) as H0.
    { intros i x. unfold wst. rewrite Hw. destruct i; [by intros [= <-]|done]. }
    destruct e as [|t r|j r| | | | | | | |sent| |j|j t|j sent|j|j]; try done; cbn [pay_step] in Hs.
    + destruct (wst s j) as [[]|] eqn:Ej; try done. apply H0 in Ej as [-> <-]. injection Hs as <-. rewrite (Hone p lp Hp Hlp).
      destruct Hst as (Hc & Hsn & Hdb). eexists. split; [cbn; by rewrite Hw|]. destruct (router lp) as [[a b]|err] eqn:Er; [done|].
      split; [done|]. split; [done|]. unfold outcome_of. by rewrite Er.
    + destruct (wst s j) as [[]|] eqn:Ej; try done. apply H0 in Ej as [-> <-]. destruct (ps_sema s); [done|]. injection Hs as <-.
      eexists. split; [cbn; by rewrite Hw|]. done.
    + rewrite Hw in Hs. destruct j as [|j]; [|done]. cbn in Hs. destruct st as [| |a b| | | |]; try done. rewrite Hone in Hs. destruct Hst as (Hc & Hsn & Hdb & Er).
      rewrite Hdb in Hs. destruct (savePayment now b (pm_msat p) a db) as [r db'] eqn:Esv. injection Hs as <-. eexists. split; [cbn; by rewrite Hw|].
      destruct r as [[]|err]; (split; [done|]); (split; [done|]); unfold outcome_of; by rewrite Er, Esv.
    + destruct (wst s j) as [[]|] eqn:Ej; try done. apply H0 in Ej as [-> <-]. rewrite Hone in Hs. injection Hs as <-. destruct Hst as (Hc & Hsn & Ho).
      eexists. split; [cbn; by rewrite Hw|]. left. split; [done|]. exists r. split; [cbn; by rewrite Hsn|done].
    + destruct (wst s j) as [[]|] eqn:Ej; try done. apply H0 in Ej as [-> <-]. destruct Hst as ((Hrd & Hm & Hc & Hq) & Hsn & Ho). rewrite Hc in Hs. injection Hs as <-.
      eexists. split; [cbn; by rewrite Hw|]. right. exists e. split; [|done]. split; [done|]. split; [done|]. right. cbn. split; [done|]. split; [done|]. tauto.
    + destruct (wst s j) as [[]|] eqn:Ej; try done. apply H0 in Ej as [-> <-]. destruct (_ <? _)%nat; [|done]. injection Hs as <-.
      eexists. split; [cbn; by rewrite Hw|]. done.
  - assert (calm s -> s' = set_reader RRecv s) as Hcalm.
    { intros Hc. pose proof (calm_reader_step e s s' Hc Hone Hrecv Hs) as H. by destruct e. }
    assert (forall err, fails err s -> fails err s' /\ ps_workers s' = ps_workers s /\ ps_db s' = ps_db s) as Hfails.
    { intros err Hf. pose proof (fails_reader_step err e s s' Hf Hone Hrecv Hs) as H. by destruct e. }
    exists st. destruct st; try (destruct Hst as [Hc Hst]; pose proof (Hcalm Hc) as ->; split; [done|]; split; [by apply calm_set_reader|done]);
      (destruct Hst as [[Hc Hst]|(err & Hf & Ho)];
        [pose proof (Hcalm Hc) as ->; split; [done|]; left; split; [by apply calm_set_reader|done]
        |destruct (Hfails err Hf) as (Hf' & Ew & Ed); split; [by rewrite Ew|]; right; exists err; by rewrite Ed]).
Qed.

Lemma one_run_step got e s s' :
  one_run got s -> one_request e -> (got = true -> received e = false) -> pay_step cfg e s = Some s' -> one_run (got || received e) s'.
Proof.
  intros Hi Hone Hrecv Hs. destruct got; cbn [orb].
  - specialize (Hrecv eq_refl). unfold one_run in *. destruct (read_payment now req) as [p|err] eqn:Ep.
    + destruct Hi as [(Hrd & Hm & Hc & Hq & Hsn & Hw & Hdb)|Hi].
      * pose proof (no_worker_step e s s' Hw Hs) as Hk. destruct e as [|t r|j r| | | | | | | |sent| |j|j t|j sent|j|j]; try done; cbn [pay_step] in Hs;
          unfold reqQuit in Hs; rewrite ?Hrd, ?Hm, ?Hc, ?Hq in Hs; try done. injection Hs as <-. right. cbn [one_request] in Hone. subst sent. unfold handle_payment.
        destruct (too_large p) eqn:Hl.
        { split; [split; [by left|done]|]. split; [done|]. split; [done|]. cbn. by rewrite Hsn. }
        destruct (lightning_payment cfg p) as [lp|err] eqn:Elp.
        { exists WWaiting. cbn. rewrite Hw. split; [done|]. split; [split; [by left|done]|done]. }
        split; [done|]. split; [done|]. split; [done|]. split; [done|]. left. cbn. rewrite Hc. naive_solver.
      * right. destruct (too_large p) eqn:Hl.
        { destruct Hi as (Hc & Hw & Hdb & Hsn). pose proof (no_worker_step e s s' Hw Hs) as Hk. pose proof (calm_reader_step e s s' Hc Hone Hrecv Hs) as He.
          assert (s' = set_reader RRecv s) as -> by (by destruct e). split; [by apply calm_set_reader|done]. }
        destruct (lightning_payment cfg p) as [lp|err] eqn:Elp; [by eapply calm_worker_step|].
        destruct Hi as (Hw & Hdb & Hf). pose proof (no_worker_step e s s' Hw Hs) as Hk. pose proof (fails_reader_step err e s s' Hf Hone Hrecv Hs) as He.
        assert (fails err s' /\ ps_workers s' = ps_workers s /\ ps_db s' = ps_db s) as (? & -> & ->) by (by destruct e). done.
    + destruct Hi as (Hw & Hdb & Hi). pose proof (no_worker_step e s s' Hw Hs) as Hk. destruct Hi as [(Hrd & Hm & Hc & Hq & Hsn)|Hf].
      * destruct e as [|t r|j r| | | | | | | |sent| |j|j t|j sent|j|j]; try done; cbn [pay_step] in Hs;
          unfold reqQuit in Hs; rewrite ?Hrd, ?Hm, ?Hc, ?Hq in Hs; try done. injection Hs as <-.
        split; [done|]. split; [done|]. right. split; [done|]. split; [done|]. right. cbn. naive_solver.
      * pose proof (fails_reader_step err e s s' Hf Hone Hrecv Hs) as He.
        assert (fails err s' /\ ps_workers s' = ps_workers s /\ ps_db s' = ps_db s) as (? & -> & ->) by (by destruct e). naive_solver.
  - destruct Hi as (Hc & Hw & Hdb & Hsn). pose proof (no_worker_step e s s' Hw Hs) as Hk. destruct (received e) eqn:Er.
    + destruct e as [|t r|j r| | | | | | | |sent| |j|j t|j sent|j|j]; try done. destruct Hone as [-> ->]. destruct Hc as ([Hrd|Hrd] & Hm & Hc & Hq);
        cbn [pay_step] in Hs; rewrite Hrd in Hs; [done|]. injection Hs as <-. unfold one_run, recv_step.
      destruct (read_payment now req) as [p|err]; [by left|]. split; [done|]. split; [done|]. by left.
    + pose proof (calm_reader_step e s s' Hc Hone Er Hs) as He. assert (s' = set_reader RRecv s) as -> by (by destruct e).
      split; [by apply calm_set_reader|done].
Qed.

Lemma one_run_run es got s s' :
  one_run got s -> Forall one_request es -> ((if got then 1 else 0) + count_if received es <= 1)%nat -> pay_run cfg es s = Some s' ->
  one_run (got || existsb received es) s'.
Proof.
  revert got s. induction es as [|e es IH]; intros got s Hi Hes Hn; [intros [= <-]; by rewrite orb_false_r|]. cbn [pay_run].
  destruct (pay_step cfg e s) as [s1|] eqn:E; [|done]. apply Forall_cons in Hes as [He Hes]. cbn [count_if existsb] in *. intros Hr.
  rewrite orb_assoc. eapply IH; [|done| |done].
  - eapply one_run_step; try done. intros ->. destruct (received e); [cbn in Hn; lia|done].
  - destruct got, (received e); cbn in *; lia.
Qed.

(** What the stream has come to when nothing is left to do. *)
Lemma one_run_end s :
  one_run true s -> pay_stuck s -> (forall i, wst s i <> Some WRouting) -> (ps_sema s + count_if holding (ps_workers s))%nat = numOutstandingPayments ->
  match read_payment now req with
  | Err e => ps_main s = Some (Some e) /\ ps_sent s = [] /\ ps_db s = db
  | Ok p =>
      if too_large p then ps_main s = None /\ ps_sent s = [(None, error_response (stream_too_large p))] /\ ps_db s = db
      else match lightning_payment cfg p with
           | Err e => ps_main s = Some (Some e) /\ ps_sent s = [] /\ ps_db s = db
           | Ok lp =>
               (ps_main s = None /\ exists r, ps_sent s = [(Some 0%nat, r)] /\ outcome_of p lp (Ok r) (ps_db s))
               \/ (exists e, ps_main s = Some (Some e) /\ ps_sent s = [] /\ outcome_of p lp (Err e) (ps_db s))
           end
  end.
Proof.
  intros Hi Hst Hr Hslots. assert (forall e, fails e s -> ps_main s = Some (Some e) /\ ps_sent s = []) as Hfails.
  { intros e (Hq & Hsn & [(Hm & _)|(Hm & Hc & _)]); [done|]. pose proof (Hst PErr eq_refl) as Hx. cbn in Hx. by rewrite Hm, Hc in Hx. }
  unfold one_run in Hi. destruct (read_payment now req) as [p|e].
  - destruct Hi as [(Hrd & Hm & _)|Hi]; [pose proof (Hst (PTake None) eq_refl) as Hx; cbn in Hx; by rewrite Hm, Hrd in Hx|].
    destruct (too_large p); [destruct Hi as ((_ & Hm & _) & _ & ? & ?); done|]. destruct (lightning_payment cfg p) as [lp|e].
    + destruct Hi as (st & Hw & Hi). assert (wst s 0 = Some st) as Ew by (unfold wst; by rewrite Hw). specialize (Hr 0%nat). rewrite Ew in Hr. destruct st.
      * pose proof (Hst (PAcquire 0) eq_refl) as Hx. cbn [pay_step] in Hx. rewrite Ew in Hx. rewrite Hw in Hslots. cbn in Hslots. destruct (ps_sema s); [done|done].
      * done.
      * pose proof (Hst (PSave 0 time_zero) eq_refl) as Hx. cbn [pay_step] in Hx. rewrite Hw in Hx. cbn in Hx. by destruct (savePayment _ _ _ _ _).
      * pose proof (Hst (PSend 0 None) eq_refl) as Hx. cbn [pay_step] in Hx. by rewrite Ew in Hx.
      * destruct Hi as ((_ & _ & Hc & _) & _). pose proof (Hst (PReportW 0) eq_refl) as Hx. cbn [pay_step] in Hx. by rewrite Ew, Hc in Hx.
      * pose proof (Hst (PRelease 0) eq_refl) as Hx. cbn [pay_step] in Hx. rewrite Ew, Hw in *. cbn in Hslots.
        assert (ps_sema s <? numOutstandingPayments = true)%nat as Hlt by (apply Nat.ltb_lt; unfold holding in Hslots; cbn in Hslots; lia). by rewrite Hlt in Hx.
      * destruct Hi as [((_ & Hm & _) & r & Hsn & Ho)|(e & Hf & Ho)]; [left; eauto|right]. exists e. destruct (Hfails e Hf). done.
    + destruct Hi as (_ & ? & Hf). by destruct (Hfails e Hf).
  - destruct Hi as (_ & ? & [(Hrd & Hm & Hc & _)|Hf]); [|by destruct (Hfails e Hf)].
    pose proof (Hst PReport eq_refl) as Hx. cbn in Hx. by rewrite Hrd, Hc in Hx.
Qed.

End OneRequest.

Lemma slots_step e s s' :
  pay_step cfg e s = Some s' -> (ps_sema s + count_if holding (ps_workers s))%nat = numOutstandingPayments ->
  (ps_sema s' + count_if holding (ps_workers s'))%nat = numOutstandingPayments.
Proof.
  intros Hs Hn. assert (forall j st w, ps_workers s !! j = Some w ->
    (count_if holding (alter (set_wst st) j (ps_workers s)) + (if holding w then 1 else 0) = count_if holding (ps_workers s) + (if holding (set_wst st w) then 1 else 0))%nat) as Hc
    by (intros j st w Hj; by apply count_if_alter).
  destruct e as [|t r|j r| | | | | | | |sent| |j|j t|j sent|j|j]; cbn [pay_step] in Hs.
  3,13,15,16,17: destruct (wst s j) as [st|] eqn:Ew; [|done]; apply wst_worker in Ew as (w & Hj & Hw); destruct st; try done;
    repeat (match type of Hs with context [match ?x with _ => _ end] => destruct x eqn:? end; try done); injection Hs as <-; cbn;
    match goal with |- context [alter (set_wst ?st) _ _] => pose proof (Hc _ st w Hj) as Hx end; unfold holding in Hx at 2 4; rewrite Hw in Hx; cbn in Hx;
    repeat match type of Hx with context [match ?x with _ => _ end] => destruct x end; lia.
  12: { destruct (ps_workers s !! j) as [[p lp st]|] eqn:Hj; [|done]. destruct st as [| |a b| | | |]; try done. destruct (savePayment _ _ _ _ _) as [r db'].
       injection Hs as <-. cbn. destruct r; match goal with |- context [alter (set_wst ?st) _ _] => pose proof (Hc _ st _ Hj) as Hx end; cbn in Hx; lia. }
  all: repeat (match type of Hs with context [match ?x with _ => _ end] => destruct x eqn:? end; try done); injection Hs as <-; try done.
  - unfold recv_step. destruct r as [| |req]; [done..|]. by destruct (read_payment t req).
  - unfold handle_payment. destruct (too_large p); [by destruct sent|]. destruct (lightning_payment cfg p); [|done]. cbn. rewrite count_if_app. cbn. lia.
Qed.

Lemma slots_run es s s' :
  pay_run cfg es s = Some s' -> (ps_sema s + count_if holding (ps_workers s))%nat = numOutstandingPayments ->
  (ps_sema s' + count_if holding (ps_workers s'))%nat = numOutstandingPayments.
Proof.
  revert s. induction es as [|e es IH]; intros s; [by intros [= <-]|]. cbn [pay_run]. destruct (pay_step cfg e s) as [s1|] eqn:E; [|done].
  intros Hr Hn. eapply IH; [done|]. by eapply slots_step.
Qed.

(** C32: A payment has the same outcome over the stream as over the synchronous call, under
    every schedule of the goroutines of the stream: when a stream that has received the
    request, in the form that asks for the same ([as_stream]: with the fields the synchronous
    call reads, so without [FinalCltvDelta]), has nothing left to do and nothing with the
    router, it has given the same answer and made the same record, or has ended with the same error.  The two calls differ only when the payment is too large:
    both refuse it, the stream before it looks at the destination, the synchronous call
    after, and they name the amount in different units. *)
Theorem sync_like_stream now router req req' db es s :
  as_stream req = Ok req' -> Forall (one_request now router req') es -> count_if received es = 1%nat ->
  pay_run cfg es (new_stream db) = Some s -> pay_stuck s -> (forall i, wst s i <> Some WRouting) ->
  match SendPaymentSync cfg true now router req db with
  | (Ok resp, db') => ps_main s = None /\ ps_db s = db' /\ exists who resp', ps_sent s = [(who, resp')]
      /\ (resp' = resp \/ exists p, read_payment now req' = Ok p /\ too_large p = true
                           /\ resp' = error_response (stream_too_large p) /\ resp = error_response (sync_too_large req))
  | (Err e, db') => ps_db s = db'
      /\ (ps_main s = Some (Some e) /\ ps_sent s = []
          \/ exists p, read_payment now req' = Ok p /\ too_large p = true /\ lightning_payment cfg p = Err e
               /\ ps_main s = None /\ ps_sent s = [(None, error_response (stream_too_large p))])
  end.
Proof.
  intros Hreq Hes Hn Hrun Hst Hr.
  assert (one_run now router req' db true s) as Hi.
  { replace true with (false || existsb received es) by (clear -Hn; induction es as [|e es IH]; [done|]; cbn in *; destruct (received e); [done|by apply IH]).
    eapply one_run_run; [|done|cbn; lia|exact Hrun]. split; [split; [by left|done]|done]. }
  pose proof (slots_run _ _ _ Hrun eq_refl) as Hs. pose proof (one_run_end now router req' db s Hi Hst Hr Hs) as He.
  unfold SendPaymentSync. cbn [negb]. rewrite sync_payment_same, Hreq. cbn [mbind res_bind].
  destruct (read_payment now req') as [p|e] eqn:Ep; cbn [mbind res_bind]; [|naive_solver].
  destruct (lightning_payment cfg p) as [lp|e] eqn:Elp; [|destruct (too_large p) eqn:El; naive_solver].
  assert (lp_Amount lp = pm_msat p) as Ea by (unfold lightning_payment in Elp; apply res_bind_Ok_inv in Elp as (k & _ & E); by injection E as <-).
  rewrite Ea. change (maxPaymentMSat <? pm_msat p) with (too_large p). destruct (too_large p) eqn:El.
  { destruct He as (Hm & Hsn & ->). split; [done|]. split; [done|]. eexists _, _. split; [done|]. right. eauto. }
  unfold outcome_of in He. destruct (router lp) as [[preImage route]|e].
  - destruct (savePayment now route (pm_msat p) preImage db) as [[u|e] db'].
    + destruct He as [(Hm & r & Hsn & Eq & ->)|(e' & _ & _ & Eq & _)]; [|done]. injection Eq as ->. naive_solver.
    + destruct He as [(_ & r & _ & Eq & _)|(e' & Hm & Hsn & Eq & ->)]; [done|]. injection Eq as ->. naive_solver.
  - destruct He as [(Hm & r & Hsn & Eq & ->)|(e' & _ & _ & Eq & _)]; [|done]. injection Eq as ->. naive_solver.
Qed.

(** ** Left behind *)

(** After the call has returned nobody reads [errChan]: a goroutine that still has an error
    to report when the channel is full never ends, and keeps its slot. *)
Lemma report_blocks s e s' i err :
  ps_main s <> None -> ps_errChan s <> None -> wst s i = Some (WReport err) -> pay_step cfg e s = Some s' ->
  ps_main s' <> None /\ ps_errChan s' <> None /\ wst s' i = Some (WReport err).
Proof.
  intros Hm Hc Hw Hs. assert (forall j st w, wst s j = Some w -> (forall x, w <> WReport x) -> wst (move j st s) i = Some (WReport err)) as Hmv.
  { intros j st w Hj Hne. unfold wst, move, set_workers in *. cbn. destruct (decide (j = i)) as [->|Hji]; [|by rewrite list_lookup_alter_ne].
    rewrite Hw in Hj. injection Hj as <-. by destruct (Hne err). }
  destruct (ps_main s) eqn:Em; [|done]. destruct (ps_errChan s) eqn:Ec; [|done].
  destruct e as [|now r|j r| | | | | | | |sent| |j|j now|j sent|j|j]; cbn [pay_step] in Hs; rewrite ?Em, ?Ec in Hs;
    repeat (match type of Hs with context [match ?x with _ => _ end] => destruct x eqn:? end; try done);
    try (injection Hs as <-); cbn; rewrite ?Em, ?Ec; try done.
  { unfold recv_step. destruct r as [|e|req]; [..|destruct (read_payment now req)]; cbn; by rewrite Em, Ec. }
  all: split; [done|]; split; [done|];
    match goal with |- context [move ?j ?st ?s0] => eapply (Hmv j st); [eassumption || (unfold wst; match goal with H : _ !! ?j0 = _ |- _ => by rewrite H end)|done] end.
Qed.

Theorem report_leaks es s s' i err :
  ps_main s <> None -> ps_errChan s <> None -> wst s i = Some (WReport err) -> pay_run cfg es s = Some s' -> wst s' i = Some (WReport err).
Proof.
  revert s. induction es as [|e es IH]; intros s Hm Hc Hw; [by intros [= <-]|]. cbn [pay_run].
  destruct (pay_step cfg e s) as [s1|] eqn:E; [|done]. destruct (report_blocks _ _ _ _ _ Hm Hc Hw E) as (? & ? & ?). by apply IH.
Qed.

End Props.
