(* ===== verification/ForwardingLog.v ===== *)
(** * The forwarding log

    vendor/github.com/lightningnetwork/lnd/channeldb/forwarding_log.go: the payments the
    node has forwarded, in a bucket keyed by their time, and the queries over it.  A time
    is its nanoseconds since the epoch; the bucket is its entries in the order of the
    keys.  [sort.Slice] is an argument: it may leave events of one time in any order. *)

From Stdlib Require Import ZArith Lia.
From Stdlib Require Import Init.Byte.
From Stdlib Require Import Sorted.
From stdpp Require Import base gmap strings numbers list.
From S2P Require Import Prelude Stream Bolt.
Local Open Scope Z_scope.

Record ForwardingEvent := mkForwardingEvent {
  fe_Timestamp : Z;
  fe_IncomingChanID : Z;
  fe_OutgoingChanID : Z;
  fe_AmtIn : Z;
  fe_AmtOut : Z
}.

Definition encodeForwardingEvent (f : ForwardingEvent) : bytes :=
  put_be 8 (fe_IncomingChanID f) ++ put_be 8 (fe_OutgoingChanID f) ++ put_be 8 (fe_AmtIn f) ++ put_be 8 (fe_AmtOut f).

(** The time comes from the key. *)
Definition decodeForwardingEvent (ts : Z) : Reader ForwardingEvent :=
  i ← read_full 8; o ← read_full 8; ain ← read_full 8; aout ← read_full 8;
  mret (mkForwardingEvent ts (get_be i) (get_be o) (get_be ain) (get_be aout)).

(** The bucket, when it was created. *)
Definition forwarding_db : Type := option (list (bytes * bytes)).

Definition put_event (entries : list (bytes * bytes)) (event : ForwardingEvent) : list (bytes * bytes) :=
  kv_insert (put_be 8 (u64 (fe_Timestamp event))) (encodeForwardingEvent event) entries.

Definition AddForwardingEvents (sort_Slice : list ForwardingEvent -> list ForwardingEvent) (events : list ForwardingEvent)
    (db : forwarding_db) : forwarding_db :=
  Some (foldl put_event (default [] db) (sort_Slice events)).

Record ForwardingEventQuery := mkForwardingEventQuery {
  fq_StartTime : Z;
  fq_EndTime : Z;
  fq_IndexOffset : Z;
  fq_NumMaxEvents : Z
}.

Record ForwardingLogTimeSlice := mkForwardingLogTimeSlice {
  ts_ForwardingEvents : list ForwardingEvent;
  ts_LastIndexOffset : Z
}.

(** [for readBuf.Len() != 0]: each event is 32 bytes, so that the length is enough fuel. *)
Fixpoint decode_events (fuel : nat) (ts : Z) (b : bytes) (events : list ForwardingEvent) (recordOffset : Z) :
    res (list ForwardingEvent * Z) :=
  match b, fuel with
  | [], _ | _, O => Ok (events, recordOffset)
  | _, S fuel =>
      match decodeForwardingEvent ts b with
      | Err e => Err e
      | Ok (event, b') => decode_events fuel ts b' (events ++ [event]) (u32 (recordOffset + 1))
      end
  end.

(** The cursor's loop. *)
Fixpoint query_loop (endTime : bytes) (max : Z) (entries : list (bytes * bytes)) (recordsToSkip : Z)
    (events : list ForwardingEvent) (recordOffset : Z) : res (list ForwardingEvent * Z) :=
  match entries with
  | [] => Ok (events, recordOffset)
  | (timestamp, value) :: entries =>
      match bytes_compare timestamp endTime with
      | Gt => Ok (events, recordOffset)
      | _ =>
          if max <=? u32 (Z.of_nat (length events)) then Ok (events, recordOffset)
          else if 0 <? recordsToSkip then query_loop endTime max entries (recordsToSkip - 1) events recordOffset
          else match decode_events (length value) (i64 (get_be timestamp)) value events recordOffset with
               | Err e => Err e
               | Ok (events, recordOffset) => query_loop endTime max entries 0 events recordOffset
               end
      end
  end.

(** A log that was not created has no events. *)
Definition Query (q : ForwardingEventQuery) (db : forwarding_db) : res ForwardingLogTimeSlice :=
  match db with
  | None => Ok (mkForwardingLogTimeSlice [] (fq_IndexOffset q))
  | Some entries =>
      match query_loop (put_be 8 (u64 (fq_EndTime q))) (fq_NumMaxEvents q) (seek (put_be 8 (u64 (fq_StartTime q))) entries)
              (fq_IndexOffset q) [] (fq_IndexOffset q) with
      | Err e => Err e
      | Ok (events, recordOffset) => Ok (mkForwardingLogTimeSlice events recordOffset)
      end
  end.

(** ** The series of events *)

Definition Event_ok (e : ForwardingEvent) : Prop :=
  0 <= fe_Timestamp e < 2 ^ 63 /\ is_u64 (fe_IncomingChanID e) /\ is_u64 (fe_OutgoingChanID e) /\ is_u64 (fe_AmtIn e) /\ is_u64 (fe_AmtOut e).

Definition stored_event (kv : bytes * bytes) (e : ForwardingEvent) : Prop :=
  Event_ok e /\ kv = (put_be 8 (fe_Timestamp e), encodeForwardingEvent e).

(** The log of a database: events in the order of their times, which are all different. *)
Definition flog (db : forwarding_db) (evs : list ForwardingEvent) : Prop :=
  Forall2 stored_event (default [] db) evs /\ StronglySorted Z.lt (map fe_Timestamp evs).

(** One event more; it replaces one with its time. *)
Fixpoint log_insert (e : ForwardingEvent) (evs : list ForwardingEvent) : list ForwardingEvent :=
  match evs with
  | [] => [e]
  | e' :: evs' =>
      match fe_Timestamp e ?= fe_Timestamp e' with
      | Lt => e :: evs
      | Eq => e :: evs'
      | Gt => e' :: log_insert e evs'
      end
  end.

Definition in_range (startTime endTime : Z) (evs : list ForwardingEvent) : list ForwardingEvent :=
  filter (fun e => startTime <= fe_Timestamp e <= endTime) evs.

Lemma event_length e : length (encodeForwardingEvent e) = 32%nat.
Proof. unfold encodeForwardingEvent. by rewrite !length_app, !put_be_length. Qed.

Lemma event_roundtrip e : Event_ok e -> decodeForwardingEvent (fe_Timestamp e) (encodeForwardingEvent e) = Ok (e, []).
Proof.
  intros (_ & H1 & H2 & H3 & H4). unfold decodeForwardingEvent, encodeForwardingEvent. rewrite <- (app_nil_r (put_be 8 (fe_AmtOut e))).
  do 4 (erewrite reader_bind_ok by (apply read_full_app, put_be_length); cbv beta). unfold mret, reader_ret.
  rewrite !get_put_be, !Z.mod_small by done. by destruct e.
Qed.

Lemma ts_key z : 0 <= z < 2 ^ 63 -> u64 z = z /\ i64 (get_be (put_be 8 z)) = z.
Proof. intros H. rewrite get_put_be. unfold u64, i64. change (2 ^ (8 * Z.of_nat 8)) with (2 ^ 64). rewrite !Z.mod_small; lia. Qed.

Lemma ts_compare a b : 0 <= a < 2 ^ 63 -> 0 <= b < 2 ^ 63 -> bytes_compare (put_be 8 a) (put_be 8 b) = (a ?= b).
Proof. intros Ha Hb. apply put_be_compare; change (8 * Z.of_nat 8) with 64; lia. Qed.

Lemma decode_stored e events o :
  Event_ok e -> decode_events (length (encodeForwardingEvent e)) (fe_Timestamp e) (encodeForwardingEvent e) events o = Ok (events ++ [e], u32 (o + 1)).
Proof.
  intros H. rewrite event_length. pose proof (event_roundtrip e H) as E. destruct (encodeForwardingEvent e) as [|b l] eqn:Eb.
  - pose proof (event_length e) as Hl. by rewrite Eb in Hl.
  - cbn [decode_events]. by rewrite E.
Qed.

Lemma log_insert_Forall (P : Z -> Prop) e evs :
  P (fe_Timestamp e) -> Forall P (map fe_Timestamp evs) -> Forall P (map fe_Timestamp (log_insert e evs)).
Proof.
  induction evs as [|e' evs IH]; intros He H; [by constructor|]. cbn [log_insert map] in *. inversion_clear H as [|? ? H1 H2].
  destruct (_ ?= _); cbn; constructor; try done; [by constructor|by apply IH].
Qed.

Lemma put_event_log entries evs e :
  flog (Some entries) evs -> Event_ok e -> flog (Some (put_event entries e)) (log_insert e evs).
Proof.
  intros [H Hs] He. change (default [] (Some entries)) with entries in H. unfold put_event. rewrite (proj1 (ts_key _ (proj1 He))).
  split; [|].
  - change (default [] (Some ?x)) with x. clear Hs. induction H as [|[k v] e' entries evs [He' [= -> ->]] H IH]; [by constructor; [split|constructor]|].
    cbn [kv_insert log_insert]. rewrite ts_compare by (apply He || apply He').
    destruct (Z.compare_spec (fe_Timestamp e) (fe_Timestamp e')).
    + constructor; [by split|done].
    + constructor; [by split|]. constructor; [by split|done].
    + constructor; [by split|done].
  - clear H. induction evs as [|e' evs IH]; [by repeat constructor|]. cbn [log_insert map] in *. inversion_clear Hs as [|? ? Hs' Hf].
    destruct (Z.compare_spec (fe_Timestamp e) (fe_Timestamp e')) as [E|E|E]; cbn.
    + rewrite E. by constructor.
    + constructor; [by constructor|]. constructor; [done|]. eapply Forall_impl; [done|]. intros z Hz. cbn in Hz. lia.
    + constructor; [by apply IH|]. by apply log_insert_Forall.
Qed.

Lemma AddForwardingEvents_log sort_Slice db evs events :
  flog db evs -> Forall Event_ok (sort_Slice events) ->
  flog (AddForwardingEvents sort_Slice events db) (foldl (fun l e => log_insert e l) evs (sort_Slice events)).
Proof.
  unfold AddForwardingEvents. intros H Hok. change (flog (Some (default [] db)) evs) in H. revert H. generalize (default [] db). revert evs.
  induction Hok as [|e l He _ IH]; intros evs entries H; [done|]. cbn. by apply IH, put_event_log.
Qed.

(** ** Queries *)

Lemma in_range_after startTime endTime e evs :
  StronglySorted Z.lt (fe_Timestamp e :: map fe_Timestamp evs) -> endTime < fe_Timestamp e -> in_range startTime endTime (e :: evs) = [].
Proof.
  intros Hs He. inversion_clear Hs as [|? ? _ Hf]. unfold in_range. rewrite filter_cons_False by lia.
  induction evs as [|e' evs IH]; [done|]. cbn [map] in Hf. inversion_clear Hf as [|? ? H1 H2]. rewrite filter_cons_False by lia. by apply IH.
Qed.

Lemma seek_range startTime entries evs :
  0 <= startTime < 2 ^ 63 -> Forall2 stored_event entries evs -> StronglySorted Z.lt (map fe_Timestamp evs) ->
  exists evs', Forall2 stored_event (seek (put_be 8 startTime) entries) evs' /\ StronglySorted Z.lt (map fe_Timestamp evs')
    /\ Forall (fun e => startTime <= fe_Timestamp e) evs' /\ forall endTime, in_range startTime endTime evs' = in_range startTime endTime evs.
Proof.
  intros Hst H. induction H as [|[k v] e entries evs [He [= -> ->]] H IH]; intros Hs; [by exists []|]. cbn [seek map] in *.
  rewrite ts_compare by (done || apply He). inversion Hs as [|? ? Hs' Hf]; subst.
  destruct (Z.compare_spec (fe_Timestamp e) startTime) as [E|E|E].
  - exists (e :: evs). split; [constructor; [by split|done]|]. split; [done|]. split; [|done]. constructor; [lia|].
    rewrite Forall_map in Hf. eapply Forall_impl; [done|]. unfold compose. intros ? ?. lia.
  - destruct (IH Hs') as (evs' & H1 & H2 & H3 & H4). exists evs'. do 3 (split; [done|]). intros endTime. rewrite H4. unfold in_range.
    by rewrite filter_cons_False by lia.
  - exists (e :: evs). split; [constructor; [by split|done]|]. split; [done|]. split; [|done]. constructor; [lia|].
    rewrite Forall_map in Hf. eapply Forall_impl; [done|]. unfold compose. intros ? ?. lia.
Qed.

(** The loop skips and takes events of the range. *)
Lemma query_loop_range startTime endTime max entries evs skip events offset :
  0 <= endTime < 2 ^ 63 -> 0 <= max < 2 ^ 32 -> 0 <= skip ->
  Forall2 stored_event entries evs -> StronglySorted Z.lt (map fe_Timestamp evs) -> Forall (fun e => startTime <= fe_Timestamp e) evs ->
  Z.of_nat (length events) <= max -> 0 <= offset -> offset + Z.of_nat (length evs) < 2 ^ 32 ->
  let page := take (Z.to_nat max - length events) (drop (Z.to_nat skip) (in_range startTime endTime evs)) in
  query_loop (put_be 8 endTime) max entries skip events offset = Ok (events ++ page, offset + Z.of_nat (length page)).
Proof.
  intros Hend Hmax. revert evs skip events offset. induction entries as [|[k v] entries IH]; intros evs skip events offset Hsk H Hs Hst Hlen Ho Hlt page.
  - inversion H; subst. subst page. unfold in_range. rewrite filter_nil, drop_nil, take_nil, app_nil_r. cbn. by rewrite Z.add_0_r.
  - inversion H as [|? e ? evs0 Hse H']; subst. destruct Hse as [He [= -> ->]]. cbn [query_loop]. rewrite ts_compare by (done || apply He).
    assert (fe_Timestamp e <= endTime \/ endTime < fe_Timestamp e) as [Hin|Hout] by lia.
    2:{ assert (page = []) as ->.
        { subst page. cbn [map] in Hs. rewrite in_range_after by done. by rewrite drop_nil, take_nil. }
        rewrite (proj2 (Z.compare_gt_iff _ _)) by lia. rewrite app_nil_r. cbn. by rewrite Z.add_0_r. }
    inversion Hst as [|? ? Hge Hst']; subst. cbn [map] in Hs. inversion Hs as [|? ? Hs' _]; subst.
    assert (in_range startTime endTime (e :: evs0) = e :: in_range startTime endTime evs0) as Er
      by (unfold in_range; by rewrite filter_cons_True by lia). subst page. rewrite Er. cbn [length] in Hlt.
    assert (forall A (x y : A), match fe_Timestamp e ?= endTime with Gt => x | _ => y end = y) as -> by (intros; destruct (Z.compare_spec (fe_Timestamp e) endTime); [done..|lia]).
    assert (u32 (Z.of_nat (length events)) = Z.of_nat (length events)) as -> by (unfold u32; rewrite Z.mod_small; lia).
    destruct (Z.leb_spec max (Z.of_nat (length events))) as [Hfull|Hroom].
    { replace (Z.to_nat max - length events)%nat with 0%nat by lia. rewrite take_0, app_nil_r. cbn. by rewrite Z.add_0_r. }
    destruct (Z.ltb_spec 0 skip) as [Hsk'|Hsk'].
    + rewrite (IH evs0) by (done || lia). replace (Z.to_nat skip) with (S (Z.to_nat (skip - 1))) by lia. done.
    + replace skip with 0 by lia. rewrite (proj2 (ts_key _ (proj1 He))), decode_stored by done.
      assert (u32 (offset + 1) = offset + 1) as -> by (unfold u32; rewrite Z.mod_small; lia).
      rewrite (IH evs0) by (done || rewrite ?length_app; cbn; lia). change (Z.to_nat 0) with 0%nat. rewrite !drop_0, length_app. cbn [length].
      replace (Z.to_nat max - length events)%nat with (S (Z.to_nat max - (length events + 1))) by lia. cbn [take length]. rewrite <- app_assoc.
      do 2 f_equal. lia.
Qed.

Lemma Query_range q db evs :
  flog db evs -> 0 <= fq_StartTime q < 2 ^ 63 -> 0 <= fq_EndTime q < 2 ^ 63 -> 0 <= fq_NumMaxEvents q < 2 ^ 32 ->
  0 <= fq_IndexOffset q -> fq_IndexOffset q + Z.of_nat (length evs) < 2 ^ 32 ->
  let page := take (Z.to_nat (fq_NumMaxEvents q)) (drop (Z.to_nat (fq_IndexOffset q)) (in_range (fq_StartTime q) (fq_EndTime q) evs)) in
  Query q db = Ok (mkForwardingLogTimeSlice page (fq_IndexOffset q + Z.of_nat (length page))).
Proof.
  intros [H Hs] H1 H2 Hm Ho Hlt page. unfold Query. destruct db as [entries|].
  - change (default [] (Some entries)) with entries in H. rewrite (proj1 (ts_key _ H1)), (proj1 (ts_key _ H2)).
    destruct (seek_range (fq_StartTime q) entries evs H1 H Hs) as (evs' & Hf & Hs' & Hst & Hr).
    assert (length evs' <= length evs)%nat as Hl.
    { apply Forall2_length in Hf as <-, H as <-. clear. induction entries as [|[k v] l IH]; cbn; [lia|]. destruct (bytes_compare k _); cbn; lia. }
    rewrite (query_loop_range (fq_StartTime q) (fq_EndTime q) (fq_NumMaxEvents q) _ evs') by (done || cbn; lia).
    cbn [length]. by rewrite Nat.sub_0_r, Hr.
  - change (default [] None) with (@nil (bytes * bytes)) in H. inversion H; subst. subst page. unfold in_range. rewrite filter_nil, drop_nil, take_nil.
    cbn. by rewrite Z.add_0_r.
Qed.
