(* ===== verification/RpcInfo.v ===== *)
(** * Channels, the network and the node over RPC

    rpcserver.go, [ListChannels], [PendingChannels], [ChannelBalance], [WalletBalance] and
    [GetNetworkInfo]: what is reported of the database, the graph, the switch, the peers and
    the nursery, which are arguments here.  A public key is its serialized form, and an
    average is the fraction the code rounds to a [float64].  Then [GetInfo] and [ListPeers],
    with server.go, [Peers], and peer.go, [ChannelSnapshots]: what is shown of the node and of
    the peers the server ([Server]) is connected with; the maps of Go have no order, the lists
    here have that of [map_to_list]. *)

From Stdlib Require Import ZArith Lia QArith.
From Stdlib Require Import Init.Byte.
From stdpp Require Import base gmap strings numbers list.
From S2P Require Import Prelude Stream Tx Outputs Effects Server ServerSafe ServerInv ServerProps.
From S2P Require Import Sweep Nursery RpcBase Bootstrap.
Local Open Scope Z_scope.

(** ** Open channels *)

Record dbHTLC := mkDbHTLC { hl_Incoming : bool; hl_Amt : Z; hl_RHash : bytes; hl_RefundTimeout : Z }.

(** The part of [channeldb.OpenChannel] and its local commitment the calls read. *)
Record dbChannel := mkDbChannel {
  dc_IsPending : bool;
  dc_IdentityPub : bytes;
  dc_FundingOutpoint : OutPoint;
  dc_ChannelFlags : Z;
  dc_Capacity : Z;
  dc_LocalBalance : Z;
  dc_RemoteBalance : Z;
  dc_CommitTx : MsgTx;
  dc_CommitFee : Z;
  dc_FeePerKw : Z;
  dc_CommitHeight : Z;
  dc_Htlcs : list dbHTLC;
  dc_TotalMSatSent : Z;
  dc_TotalMSatReceived : Z;
  dc_CsvDelay : Z
}.

(** [lnrpc.HTLC] and [lnrpc.Channel] *)
Record rpcHTLC := mkRpcHTLC { ht_Incoming : bool; ht_Amount : Z; ht_HashLock : bytes; ht_ExpirationHeight : Z }.

Record rpcChannel := mkRpcChannel {
  rc_Active : bool;
  rc_Private : bool;
  rc_RemotePubkey : bytes;
  rc_ChannelPoint : bytes;
  rc_ChanId : Z;
  rc_Capacity : Z;
  rc_LocalBalance : Z;
  rc_RemoteBalance : Z;
  rc_CommitFee : Z;
  rc_CommitWeight : Z;
  rc_FeePerKw : Z;
  rc_TotalSatoshisSent : Z;
  rc_TotalSatoshisReceived : Z;
  rc_NumUpdates : Z;
  rc_PendingHtlcs : list rpcHTLC;
  rc_CsvDelay : Z
}.

Record ListChannelsRequest := mkListChannelsRequest {
  lc_ActiveOnly : bool;
  lc_InactiveOnly : bool;
  lc_PublicOnly : bool;
  lc_PrivateOnly : bool
}.

(** What the calls ask of the rest of the daemon: the graph's channel id (0 when it has
    none), whether the peer is connected, whether the switch has a link that forwards, the
    weight of a transaction and the text of an outpoint. *)
Record daemon := mkDaemon {
  dm_ChannelID : OutPoint -> Z;
  dm_FindPeer : bytes -> bool;
  dm_EligibleLink : OutPoint -> bool;
  dm_GetTransactionWeight : MsgTx -> Z;
  dm_OutPointString : OutPoint -> bytes
}.

Definition WitnessCommitmentTxWeight : Z := 224.

Definition isPublic (c : dbChannel) : bool := negb (Z.land (dc_ChannelFlags c) 1 =? 0).

Definition isActive (d : daemon) (c : dbChannel) : bool := dm_FindPeer d (dc_IdentityPub c) && dm_EligibleLink d (dc_FundingOutpoint c).

(** The body of the last loop.  The slice [htlc.RHash[:]] shares the array of the loop variable,
    of which there is one: after the loop it holds the hash of the last HTLC. *)
Definition marshalHtlcs (htlcs : list dbHTLC) : list rpcHTLC :=
  let htlc_RHash := match last htlcs with Some h => hl_RHash h | None => [] end in
  map (fun h => mkRpcHTLC (hl_Incoming h) (ToSatoshis (hl_Amt h)) htlc_RHash (hl_RefundTimeout h)) htlcs.

Definition marshalChannel (d : daemon) (c : dbChannel) : rpcChannel :=
  let commitWeight := i64 (dm_GetTransactionWeight d (dc_CommitTx c) + WitnessCommitmentTxWeight) in
  let sumOutputs := foldl (fun sum txOut => i64 (sum + txo_Value txOut)) 0 (tx_TxOut (dc_CommitTx c)) in
  let externalCommitFee := i64 (dc_Capacity c - sumOutputs) in
  mkRpcChannel (isActive d c) (negb (isPublic c)) (hex_EncodeToString (dc_IdentityPub c))
    (dm_OutPointString d (dc_FundingOutpoint c)) (dm_ChannelID d (dc_FundingOutpoint c)) (dc_Capacity c)
    (ToSatoshis (dc_LocalBalance c)) (ToSatoshis (dc_RemoteBalance c)) externalCommitFee commitWeight (dc_FeePerKw c)
    (ToSatoshis (dc_TotalMSatSent c)) (ToSatoshis (dc_TotalMSatReceived c)) (dc_CommitHeight c)
    (marshalHtlcs (dc_Htlcs c)) (dc_CsvDelay c).

(** The body of the loop: the channels so far. *)
Definition list_channel (d : daemon) (req : ListChannelsRequest) (resp : list rpcChannel) (c : dbChannel) : list rpcChannel :=
  if dc_IsPending c then resp
  else if lc_ActiveOnly req && negb (isActive d c) then resp
  else if lc_InactiveOnly req && isActive d c then resp
  else if lc_PublicOnly req && negb (isPublic c) then resp
  else if lc_PrivateOnly req && isPublic c then resp
  else resp ++ [marshalChannel d c].

Definition ListChannels (d : daemon) (req : ListChannelsRequest) (dbChannels : res (list dbChannel)) : res (list rpcChannel) :=
  if lc_ActiveOnly req && lc_InactiveOnly req then Err (ErrNew "either active_only or inactive_only can be set, but not both")
  else if lc_PublicOnly req && lc_PrivateOnly req then Err (ErrNew "either public_only or private_only can be set, but not both")
  else match dbChannels with Err e => Err e | Ok cs => Ok (foldl (list_channel d req) [] cs) end.

Definition ChannelBalance (channels : res (list dbChannel)) : res Z :=
  match channels with
  | Err e => Err e
  | Ok cs => Ok (foldl (fun balance c => if negb (dc_IsPending c) then i64 (balance + ToSatoshis (dc_LocalBalance c)) else balance) 0 cs)
  end.

Record WalletBalanceResponse := mkWalletBalanceResponse { wb_Total : Z; wb_Confirmed : Z; wb_Unconfirmed : Z }.

(** [confirmed n] is the wallet's balance with at least [n] confirmations. *)
Definition WalletBalance (confirmed : Z -> res Z) : res WalletBalanceResponse :=
  totalBal ← confirmed 0;
  confirmedBal ← confirmed 1;
  mret (mkWalletBalanceResponse totalBal confirmedBal (i64 (totalBal - confirmedBal))).

(** ** Pending channels *)

Inductive ClosureType := CooperativeClose | ForceClose | BreachClose | FundingCanceled.

(** The part of [channeldb.ChannelCloseSummary] that is read. *)
Record closeSummary := mkCloseSummary {
  cs_ChanPoint : OutPoint;
  cs_RemotePub : bytes;
  cs_Capacity : Z;
  cs_SettledBalance : Z;
  cs_ClosingTXID : bytes;
  cs_CloseType : ClosureType
}.

Record PendingChannel := mkPendingChannel {
  pc_RemoteNodePub : bytes;
  pc_ChannelPoint : bytes;
  pc_Capacity : Z;
  pc_LocalBalance : Z;
  pc_RemoteBalance : Z
}.

Record PendingOpenChannel := mkPendingOpenChannel {
  po_Channel : PendingChannel;
  po_CommitWeight : Z;
  po_CommitFee : Z;
  po_FeePerKw : Z
}.

Record ClosedChannel := mkClosedChannel { cc_Channel : PendingChannel; cc_ClosingTxid : bytes }.

Record PendingHTLC := mkPendingHTLC {
  ph_Incoming : bool;
  ph_Amount : Z;
  ph_Outpoint : bytes;
  ph_MaturityHeight : Z;
  ph_BlocksTilMaturity : Z;
  ph_Stage : Z
}.

Record ForceClosedChannel := mkForceClosedChannel {
  fc_Channel : PendingChannel;
  fc_ClosingTxid : bytes;
  fc_LimboBalance : Z;
  fc_RecoveredBalance : Z;
  fc_MaturityHeight : Z;
  fc_BlocksTilMaturity : Z;
  fc_PendingHtlcs : list PendingHTLC
}.

Record PendingChannelsResponse := mkPendingChannelsResponse {
  pe_TotalLimboBalance : Z;
  pe_PendingOpenChannels : list PendingOpenChannel;
  pe_PendingClosingChannels : list ClosedChannel;
  pe_PendingForceClosingChannels : list ForceClosedChannel
}.

Definition pending_open (d : daemon) (c : dbChannel) : PendingOpenChannel :=
  mkPendingOpenChannel
    (mkPendingChannel (hex_EncodeToString (dc_IdentityPub c)) (dm_OutPointString d (dc_FundingOutpoint c)) (dc_Capacity c)
       (ToSatoshis (dc_LocalBalance c)) (ToSatoshis (dc_RemoteBalance c)))
    (i64 (dm_GetTransactionWeight d (dc_CommitTx c) + WitnessCommitmentTxWeight)) (dc_CommitFee c) (dc_FeePerKw c).

Definition closing_channel (d : daemon) (s : closeSummary) : PendingChannel :=
  mkPendingChannel (hex_EncodeToString (cs_RemotePub s)) (dm_OutPointString d (cs_ChanPoint s)) (cs_Capacity s) (cs_SettledBalance s) 0.

(** The blocks left, once the height is known. *)
Definition blocks_til (maturityHeight currentHeight : Z) : Z :=
  if maturityHeight =? 0 then 0 else i32 (i32 maturityHeight - currentHeight).

Definition pending_htlc (d : daemon) (currentHeight : Z) (h : htlcMaturityReport) : PendingHTLC :=
  mkPendingHTLC false (hmr_amount h) (dm_OutPointString d (hmr_outpoint h)) (hmr_maturityHeight h)
    (blocks_til (hmr_maturityHeight h) currentHeight) (hmr_stage h).

Definition force_closed (d : daemon) (currentHeight : Z) (s : closeSummary) (info : option contractMaturityReport) : ForceClosedChannel :=
  match info with
  | None => mkForceClosedChannel (closing_channel d s) (hash_String (cs_ClosingTXID s)) 0 0 0 0 []
  | Some r =>
      mkForceClosedChannel (closing_channel d s) (hash_String (cs_ClosingTXID s)) (cmr_limboBalance r) (cmr_recoveredBalance r) (cmr_maturityHeight r)
        (blocks_til (cmr_maturityHeight r) currentHeight) (map (pending_htlc d currentHeight) (cmr_htlcs r))
  end.

(** The body of the loop over the closed channels; the nursery may not know a channel. *)
Definition pending_close (d : daemon) (currentHeight : Z) (NurseryReport : OutPoint -> res contractMaturityReport)
    (resp : PendingChannelsResponse) (s : closeSummary) : res PendingChannelsResponse :=
  match cs_CloseType s with
  | CooperativeClose =>
      Ok (mkPendingChannelsResponse (i64 (pe_TotalLimboBalance resp + cs_SettledBalance s)) (pe_PendingOpenChannels resp)
            (pe_PendingClosingChannels resp ++ [mkClosedChannel (closing_channel d s) (hash_String (cs_ClosingTXID s))]) (pe_PendingForceClosingChannels resp))
  | ForceClose =>
      match NurseryReport (cs_ChanPoint s) with
      | Err e =>
          if decide (e = ErrContractNotFound) then
            Ok (mkPendingChannelsResponse (pe_TotalLimboBalance resp) (pe_PendingOpenChannels resp) (pe_PendingClosingChannels resp)
                  (pe_PendingForceClosingChannels resp ++ [force_closed d currentHeight s None]))
          else Err (ErrNew "unable to obtain nursery report")
      | Ok r =>
          Ok (mkPendingChannelsResponse (i64 (pe_TotalLimboBalance resp + cmr_limboBalance r)) (pe_PendingOpenChannels resp)
                (pe_PendingClosingChannels resp) (pe_PendingForceClosingChannels resp ++ [force_closed d currentHeight s (Some r)]))
      end
  | _ => Ok resp
  end.

Definition PendingChannels (d : daemon) (pendingOpenChannels : res (list dbChannel)) (bestBlock : res Z)
    (pendingCloseChannels : res (list closeSummary)) (NurseryReport : OutPoint -> res contractMaturityReport) : res PendingChannelsResponse :=
  pendingOpen ← pendingOpenChannels;
  currentHeight ← bestBlock;
  pendingClose ← pendingCloseChannels;
  res_foldl (pending_close d currentHeight NurseryReport) (mkPendingChannelsResponse 0 (map (pending_open d) pendingOpen) [] []) pendingClose.

(** ** The network *)

(** A channel as one of its ends lists it. *)
Record graphEdge := mkGraphEdge { ge_ChannelID : Z; ge_Capacity : Z }.

Record netStats := mkNetStats {
  nt_numNodes : Z;
  nt_numChannels : Z;
  nt_maxChanOut : Z;
  nt_totalNetworkCapacity : Z;
  nt_minChannelSize : Z;
  nt_maxChannelSize : Z;
  nt_seenChans : gset Z
}.

Record NetworkInfo := mkNetworkInfo {
  ni_MaxOutDegree : Z;
  ni_AvgOutDegree : Z * Z;
  ni_NumNodes : Z;
  ni_NumChannels : Z;
  ni_TotalNetworkCapacity : Z;
  ni_AvgChannelSize : Z * Z;
  ni_MinChannelSize : Z;
  ni_MaxChannelSize : Z
}.

(** The inner callback. *)
Definition visit_edge (st : netStats * Z) (edge : graphEdge) : netStats * Z :=
  let (n, outDegree) := st in
  let outDegree := u32 (outDegree + 1) in
  if decide (ge_ChannelID edge ∈ nt_seenChans n) then (n, outDegree)
  else
    let chanCapacity := ge_Capacity edge in
    (mkNetStats (nt_numNodes n) (u32 (nt_numChannels n + 1)) (nt_maxChanOut n) (i64 (nt_totalNetworkCapacity n + chanCapacity))
       (if chanCapacity <? nt_minChannelSize n then chanCapacity else nt_minChannelSize n)
       (if nt_maxChannelSize n <? chanCapacity then chanCapacity else nt_maxChannelSize n)
       ({[ge_ChannelID edge]} ∪ nt_seenChans n), outDegree).

(** The outer callback: a node with its channels. *)
Definition visit_node (n : netStats) (node : list graphEdge) : netStats :=
  let n := mkNetStats (u32 (nt_numNodes n + 1)) (nt_numChannels n) (nt_maxChanOut n) (nt_totalNetworkCapacity n) (nt_minChannelSize n)
             (nt_maxChannelSize n) (nt_seenChans n) in
  let (n, outDegree) := foldl visit_edge (n, 0) node in
  mkNetStats (nt_numNodes n) (nt_numChannels n) (if nt_maxChanOut n <? outDegree then outDegree else nt_maxChanOut n)
    (nt_totalNetworkCapacity n) (nt_minChannelSize n) (nt_maxChannelSize n) (nt_seenChans n).

Definition MaxInt64 : Z := 2 ^ 63 - 1.

(** An average is its numerator and denominator; without channels its size is 0. *)
Definition GetNetworkInfo (graph : res (list (list graphEdge))) : res NetworkInfo :=
  match graph with
  | Err e => Err e
  | Ok nodes =>
      let n := foldl visit_node (mkNetStats 0 0 0 0 MaxInt64 0 ∅) nodes in
      let minChannelSize := if nt_numChannels n =? 0 then 0 else nt_minChannelSize n in
      Ok (mkNetworkInfo (nt_maxChanOut n) (nt_numChannels n, nt_numNodes n) (nt_numNodes n) (nt_numChannels n)
            (nt_totalNetworkCapacity n) (if nt_numChannels n =? 0 then (0, 1) else (nt_totalNetworkCapacity n, nt_numChannels n))
            minChannelSize (nt_maxChannelSize n))
  end.

(** ** The lists of channels *)

(** Whether a channel, as it is reported, is of the kind a request asks for. *)
Definition wanted (req : ListChannelsRequest) (c : rpcChannel) : bool :=
  implb (lc_ActiveOnly req) (rc_Active c) && implb (lc_InactiveOnly req) (negb (rc_Active c))
  && implb (lc_PublicOnly req) (negb (rc_Private c)) && implb (lc_PrivateOnly req) (rc_Private c).

Definition any_channel : ListChannelsRequest := mkListChannelsRequest false false false false.

Lemma list_channel_wanted d req acc c :
  list_channel d req acc c = acc ++ (if negb (dc_IsPending c) && wanted req (marshalChannel d c) then [marshalChannel d c] else []).
Proof.
  unfold list_channel, wanted. cbn [marshalChannel rc_Active rc_Private].
  destruct (dc_IsPending c), (isActive d c), (isPublic c), (lc_ActiveOnly req), (lc_InactiveOnly req), (lc_PublicOnly req), (lc_PrivateOnly req);
    cbn; by rewrite ?app_nil_r.
Qed.

Lemma list_channels_fold d req cs acc :
  foldl (list_channel d req) acc cs
  = acc ++ List.filter (wanted req) (map (marshalChannel d) (List.filter (fun c => negb (dc_IsPending c)) cs)).
Proof.
  revert acc. induction cs as [|c cs IH]; intros acc; [by rewrite app_nil_r|]. cbn [foldl List.filter]. rewrite IH, list_channel_wanted, <- app_assoc.
  f_equal. destruct (dc_IsPending c); cbn [negb andb]; [done|]. cbn [map List.filter]. by destruct (wanted req _).
Qed.

(** A request for a kind of channels gets exactly the channels of the full list that are
    reported to be of that kind, in the same order; the full list has the channels that are
    not pending; and a request for two opposite kinds is refused. *)
Theorem list_channels_exact d req cs :
  ListChannels d any_channel (Ok cs) = Ok (map (marshalChannel d) (List.filter (fun c => negb (dc_IsPending c)) cs))
  /\ match ListChannels d req (Ok cs), ListChannels d any_channel (Ok cs) with
     | Ok some, Ok all => some = List.filter (wanted req) all /\ (lc_ActiveOnly req && lc_InactiveOnly req) = false
                          /\ (lc_PublicOnly req && lc_PrivateOnly req) = false
     | Err _, _ => (lc_ActiveOnly req && lc_InactiveOnly req) || (lc_PublicOnly req && lc_PrivateOnly req) = true
     | _, _ => False
     end.
Proof.
  assert (ListChannels d any_channel (Ok cs) = Ok (map (marshalChannel d) (List.filter (fun c => negb (dc_IsPending c)) cs))) as E.
  { unfold ListChannels. cbn. rewrite list_channels_fold. f_equal. cbn. set (l := map _ _). clearbody l. induction l as [|c l IH]; [done|]. cbn. by rewrite IH. }
  split; [done|]. rewrite E. unfold ListChannels. destruct (lc_ActiveOnly req && _) eqn:E1; [done|].
  destruct (lc_PublicOnly req && _) eqn:E2; [done|]. split; [|done]. by rewrite list_channels_fold.
Qed.

(** All pending HTLCs of a channel are listed with the payment hash of the last one. *)
Lemma htlc_hashes_alias htlcs h : Forall (fun r => ht_HashLock r = hl_RHash h) (marshalHtlcs (htlcs ++ [h])).
Proof. unfold marshalHtlcs. rewrite last_snoc. apply Forall_forall. intros r. rewrite list_elem_of_In, in_map_iff. by intros (? & <- & _). Qed.

(** ** Pending channels *)

(** What a closed channel adds to the balance in limbo. *)
Definition limbo_of (NurseryReport : OutPoint -> res contractMaturityReport) (s : closeSummary) : Z :=
  match cs_CloseType s with
  | CooperativeClose => cs_SettledBalance s
  | ForceClose => match NurseryReport (cs_ChanPoint s) with Ok r => cmr_limboBalance r | Err _ => 0 end
  | _ => 0
  end.

Definition is_coop (s : closeSummary) : bool := match cs_CloseType s with CooperativeClose => true | _ => false end.
Definition is_force (s : closeSummary) : bool := match cs_CloseType s with ForceClose => true | _ => false end.

Lemma i64_add_idemp a b : i64 (i64 a + b) = i64 (a + b).
Proof.
  unfold i64. replace ((a + 2 ^ 63) mod 2 ^ 64 - 2 ^ 63 + b + 2 ^ 63) with ((a + 2 ^ 63) mod 2 ^ 64 + b) by lia.
  rewrite Zplus_mod_idemp_l. do 2 f_equal. lia.
Qed.

(** Reports that fail only because the nursery does not know the channel. *)
Definition reports_ok (NurseryReport : OutPoint -> res contractMaturityReport) (l : list closeSummary) : Prop :=
  Forall (fun s => is_force s = true -> forall e, NurseryReport (cs_ChanPoint s) = Err e -> e = ErrContractNotFound) l.

(** What the closed channels of a list add to the response. *)
Definition coop_part (d : daemon) (l : list closeSummary) : list ClosedChannel :=
  map (fun s => mkClosedChannel (closing_channel d s) (hash_String (cs_ClosingTXID s))) (List.filter is_coop l).
Definition force_part (d : daemon) (h : Z) (NR : OutPoint -> res contractMaturityReport) (l : list closeSummary) : list ForceClosedChannel :=
  map (fun s => force_closed d h s (match NR (cs_ChanPoint s) with Ok r => Some r | Err _ => None end)) (List.filter is_force l).

Lemma i64_i64 a : i64 (i64 a) = i64 a.
Proof. rewrite <- (Z.add_0_r (i64 a)) at 1. by rewrite i64_add_idemp, Z.add_0_r. Qed.

Lemma pending_close_step d h NR resp s :
  reports_ok NR [s] ->
  exists total, pending_close d h NR resp s
    = Ok (mkPendingChannelsResponse total (pe_PendingOpenChannels resp) (pe_PendingClosingChannels resp ++ coop_part d [s])
            (pe_PendingForceClosingChannels resp ++ force_part d h NR [s]))
    /\ i64 total = i64 (pe_TotalLimboBalance resp + limbo_of NR s).
Proof.
  intros Hs. unfold reports_ok in Hs. rewrite Forall_singleton in Hs. unfold pending_close, limbo_of, coop_part, force_part, is_coop, is_force in *. cbn [List.filter].
  destruct (cs_CloseType s); cbn [map]; rewrite ?app_nil_r.
  - eexists. split; [reflexivity|]. apply i64_i64.
  - destruct (NR (cs_ChanPoint s)) as [r|e] eqn:En; [eexists; split; [reflexivity|apply i64_i64]|].
    rewrite (Hs eq_refl e eq_refl), decide_True by done. eexists. split; [reflexivity|]. by rewrite Z.add_0_r.
  - exists (pe_TotalLimboBalance resp). rewrite Z.add_0_r. by destruct resp.
  - exists (pe_TotalLimboBalance resp). rewrite Z.add_0_r. by destruct resp.
Qed.

Lemma pending_close_fold d h NR l resp :
  reports_ok NR l -> exists total, res_foldl (pending_close d h NR) resp l
    = Ok (mkPendingChannelsResponse total (pe_PendingOpenChannels resp) (pe_PendingClosingChannels resp ++ coop_part d l)
            (pe_PendingForceClosingChannels resp ++ force_part d h NR l))
    /\ i64 total = i64 (pe_TotalLimboBalance resp + sum_Z (map (limbo_of NR) l)).
Proof.
  intros H. revert resp. induction H as [|s l Hs _ IH]; intros resp.
  { exists (pe_TotalLimboBalance resp). cbn. rewrite !app_nil_r, Z.add_0_r. by destruct resp. }
  destruct (pending_close_step d h NR resp s) as (t1 & E1 & Ht1); [by apply Forall_singleton|]. cbn [res_foldl]. rewrite E1.
  destruct (IH (mkPendingChannelsResponse t1 (pe_PendingOpenChannels resp) (pe_PendingClosingChannels resp ++ coop_part d [s])
            (pe_PendingForceClosingChannels resp ++ force_part d h NR [s]))) as (total & E & Ht). exists total. rewrite E. split.
  - cbn [pe_PendingOpenChannels pe_PendingClosingChannels pe_PendingForceClosingChannels]. f_equal. rewrite <- !app_assoc.
    unfold coop_part, force_part. rewrite <- !map_app, <- !List.filter_app. done.
  - rewrite Ht. cbn [pe_TotalLimboBalance]. rewrite <- i64_add_idemp, Ht1, i64_add_idemp. f_equal.
    change (sum_Z (map (limbo_of NR) (s :: l))) with (limbo_of NR s + sum_Z (map (limbo_of NR) l)). lia.
Qed.

Lemma sum_Z_cons x l : sum_Z (x :: l) = x + sum_Z l.
Proof. done. Qed.

(** The report of pending channels lists each channel that waits for its funding
    transaction, each that was closed with its peer and each that was closed by force, with
    what the nursery knows of it; the balance in limbo is the sum of what they show. *)
Theorem pending_channels_exact d opens h closes NR :
  reports_ok NR closes ->
  exists resp, PendingChannels d (Ok opens) (Ok h) (Ok closes) NR = Ok resp
    /\ pe_PendingOpenChannels resp = map (pending_open d) opens
    /\ pe_PendingClosingChannels resp = coop_part d closes
    /\ pe_PendingForceClosingChannels resp = force_part d h NR closes
    /\ i64 (pe_TotalLimboBalance resp)
       = i64 (sum_Z (map (fun c => pc_LocalBalance (cc_Channel c)) (pe_PendingClosingChannels resp))
              + sum_Z (map fc_LimboBalance (pe_PendingForceClosingChannels resp))).
Proof.
  intros H. unfold PendingChannels. cbn [mbind res_bind].
  destruct (pending_close_fold d h NR closes (mkPendingChannelsResponse 0 (map (pending_open d) opens) [] []) H) as (total & E & Ht).
  rewrite E. eexists. split; [done|]. cbn [pe_PendingOpenChannels pe_PendingClosingChannels pe_PendingForceClosingChannels pe_TotalLimboBalance app]. do 3 (split; [done|]). rewrite Ht. cbn [pe_TotalLimboBalance]. rewrite Z.add_0_l. f_equal. clear H E Ht.
  unfold coop_part, force_part. rewrite !map_map. induction closes as [|s l IH]; [done|]. cbn [map List.filter].
  rewrite !sum_Z_cons, IH.
  assert (is_coop s = match cs_CloseType s with CooperativeClose => true | _ => false end) as -> by done.
  assert (is_force s = match cs_CloseType s with ForceClose => true | _ => false end) as -> by done. unfold limbo_of at 1.
  destruct (cs_CloseType s); cbn [map]; rewrite ?sum_Z_cons; cbn [cc_Channel closing_channel pc_LocalBalance]; try lia.
  destruct (NR (cs_ChanPoint s)); cbn [force_closed fc_LimboBalance]; lia.
Qed.

(** ** The statistics of the network *)

(** The channels of a list of edges, each the first time it appears. *)
Fixpoint channels_of (seen : gset Z) (l : list graphEdge) : list graphEdge :=
  match l with
  | [] => []
  | e :: l => if decide (ge_ChannelID e ∈ seen) then channels_of seen l
              else e :: channels_of ({[ge_ChannelID e]} ∪ seen) l
  end.

Definition ids (l : list graphEdge) : gset Z := list_to_set (map ge_ChannelID l).

Lemma ids_cons e l : ids (e :: l) = {[ge_ChannelID e]} ∪ ids l.
Proof. done. Qed.

Lemma ids_app l1 l2 : ids (l1 ++ l2) = ids l1 ∪ ids l2.
Proof. unfold ids. rewrite map_app. apply list_to_set_app_L. Qed.

Lemma channels_of_app seen l1 l2 : channels_of seen (l1 ++ l2) = channels_of seen l1 ++ channels_of (ids l1 ∪ seen) l2.
Proof.
  revert seen. induction l1 as [|e l1 IH]; intros seen; cbn [channels_of app].
  - assert (ids [] ∪ seen = seen) as -> by (unfold ids; set_solver). done.
  - rewrite ids_cons. case_decide as Hd; rewrite IH.
    + assert ({[ge_ChannelID e]} ∪ ids l1 ∪ seen = ids l1 ∪ seen) as -> by set_solver. done.
    + assert ({[ge_ChannelID e]} ∪ ids l1 ∪ seen = ids l1 ∪ ({[ge_ChannelID e]} ∪ seen)) as -> by set_solver. done.
Qed.

Lemma channels_of_elem seen l e : e ∈ channels_of seen l -> e ∈ l /\ ge_ChannelID e ∉ seen.
Proof.
  revert seen. induction l as [|e' l IH]; intros seen; cbn [channels_of]; [by intros ?%not_elem_of_nil|].
  case_decide as Hd; [intros H; apply IH in H as [? ?]; split; [by right|done]|].
  intros [->|H]%elem_of_cons; [split; [by left|done]|]. apply IH in H as [? ?]. split; [by right|set_solver].
Qed.

Lemma channels_of_NoDup seen l : NoDup (map ge_ChannelID (channels_of seen l)).
Proof.
  revert seen. induction l as [|e l IH]; intros seen; cbn [channels_of]; [apply NoDup_nil_2|]. case_decide; [apply IH|]. cbn [map].
  apply NoDup_cons. split; [|apply IH]. intros (e' & E & Hin)%list_elem_of_fmap. apply channels_of_elem in Hin as [_ Hn]. set_solver.
Qed.

Lemma channels_of_complete seen l e : e ∈ l -> ge_ChannelID e ∉ seen -> ge_ChannelID e ∈ map ge_ChannelID (channels_of seen l).
Proof.
  revert seen. induction l as [|e' l IH]; intros seen Hin Hn; [by apply not_elem_of_nil in Hin|]. cbn [channels_of].
  apply elem_of_cons in Hin as [->|Hin].
  - rewrite decide_False by done. by left.
  - case_decide as Hd; [by apply IH|]. cbn [map]. destruct (decide (ge_ChannelID e = ge_ChannelID e')) as [->|Hne]; [by left|]. right. apply IH; [done|set_solver].
Qed.

Definition capacity (l : list graphEdge) : Z := sum_Z (map ge_Capacity l).

Lemma capacity_snoc l e : capacity (l ++ [e]) = capacity l + ge_Capacity e.
Proof. unfold capacity. rewrite map_app. induction (map ge_Capacity l) as [|x xs IH]; cbn in *; unfold sum_Z in *; cbn; lia. Qed.

Lemma capacity_app l1 l2 : capacity (l1 ++ l2) = capacity l1 + capacity l2.
Proof. unfold capacity. rewrite map_app. induction (map ge_Capacity l1) as [|x xs IH]; unfold sum_Z in *; cbn in *; lia. Qed.

(** The least and the greatest capacity, with the values the code starts from. *)
Definition least (l : list graphEdge) : Z := foldl (fun m e => Z.min m (ge_Capacity e)) MaxInt64 l.
Definition greatest (l : list graphEdge) : Z := foldl (fun m e => Z.max m (ge_Capacity e)) 0 l.

(** The statistics when the channels [cs] were seen. *)
Definition stats_of (n : netStats) (cs : list graphEdge) : Prop :=
  nt_numChannels n = Z.of_nat (length cs) /\ nt_totalNetworkCapacity n = capacity cs /\ nt_minChannelSize n = least cs
  /\ nt_maxChannelSize n = greatest cs.

(** Capacities are not negative and their sum fits. *)
Definition capacities_ok (l : list graphEdge) : Prop := Forall (fun e => 0 <= ge_Capacity e) l.

Lemma visit_edges_spec l n deg cs :
  stats_of n cs -> capacities_ok l -> capacity cs + capacity (channels_of (nt_seenChans n) l) < 2 ^ 63 -> 0 <= capacity cs ->
  Z.of_nat (length cs + length l) < 2 ^ 32 -> 0 <= deg -> deg + Z.of_nat (length l) < 2 ^ 32 ->
  exists n', foldl visit_edge (n, deg) l = (n', deg + Z.of_nat (length l)) /\ stats_of n' (cs ++ channels_of (nt_seenChans n) l)
    /\ nt_seenChans n' = ids l ∪ nt_seenChans n /\ nt_numNodes n' = nt_numNodes n /\ nt_maxChanOut n' = nt_maxChanOut n.
Proof.
  revert n deg cs. induction l as [|e l IH]; intros n deg cs Hn Hc Hcap Hpos Hlen Hd Hdl.
  { exists n. cbn. rewrite Z.add_0_r, app_nil_r. unfold ids. cbn. split; [done|]. split; [done|]. split; [set_solver|done]. }
  inversion_clear Hc as [|? ? He Hc']. cbn [foldl length]. rewrite Nat2Z.inj_succ in *. cbn [length] in Hlen, Hdl.
  unfold visit_edge at 2. assert (u32 (deg + 1) = deg + 1) as -> by (unfold u32; rewrite Z.mod_small; lia).
  cbn [channels_of] in *. case_decide as Hin.
  - destruct (IH n (deg + 1) cs) as (n' & E & Hs & Hseen & H1 & H2); try done; try lia. exists n'. rewrite E. split; [f_equal; lia|].
    split; [done|]. split; [|done]. rewrite Hseen. unfold ids. cbn. set_solver.
  - destruct Hn as (N1 & N2 & N3 & N4). set (n1 := mkNetStats _ _ _ _ _ _ _).
    assert (0 <= capacity (channels_of ({[ge_ChannelID e]} ∪ nt_seenChans n) l)) as Hrest.
    { assert (forall seen, capacities_ok (channels_of seen l)) as Hok.
      { intros seen. apply Forall_forall. intros x [Hx _]%channels_of_elem. by apply (proj1 (Forall_forall _ _) Hc'). }
      specialize (Hok ({[ge_ChannelID e]} ∪ nt_seenChans n)). unfold capacity. clear -Hok. induction Hok; unfold sum_Z in *; cbn in *; lia. }
    assert (capacity (e :: channels_of ({[ge_ChannelID e]} ∪ nt_seenChans n) l) = ge_Capacity e + capacity (channels_of ({[ge_ChannelID e]} ∪ nt_seenChans n) l)) as Ecap by done.
    destruct (IH n1 (deg + 1) (cs ++ [e])) as (n' & E & Hs & Hseen & H1 & H2).
    + unfold stats_of, least, greatest. subst n1. cbn. rewrite length_app, capacity_snoc, !foldl_app. cbn [foldl length]. fold (least cs) (greatest cs).
      rewrite N1, N2, N3, N4. split; [unfold u32; rewrite Z.mod_small; lia|]. split; [unfold i64; rewrite Z.mod_small; lia|].
      split; [destruct (Z.ltb_spec (ge_Capacity e) (least cs)); lia|destruct (Z.ltb_spec (greatest cs) (ge_Capacity e)); lia].
    + done.
    + subst n1. cbn [nt_seenChans]. rewrite capacity_snoc. lia.
    + rewrite capacity_snoc. lia.
    + rewrite length_app. cbn. lia.
    + lia.
    + lia.
    + exists n'. subst n1. cbn [nt_seenChans nt_numNodes nt_maxChanOut] in *. rewrite E. split; [f_equal; lia|]. split; [by rewrite <- app_assoc in Hs|].
      split; [|done]. rewrite Hseen. unfold ids. cbn. set_solver.
Qed.

Lemma channels_length seen l : (length (channels_of seen l) <= length l)%nat.
Proof. revert seen. induction l as [|e l IH]; intros seen; cbn; [lia|]. case_decide; cbn; rewrite ?IH; [lia|]. specialize (IH ({[ge_ChannelID e]} ∪ seen)). lia. Qed.

Lemma capacity_nonneg l : capacities_ok l -> 0 <= capacity l.
Proof. intros H. unfold capacity. induction H; unfold sum_Z in *; cbn in *; lia. Qed.

Lemma channels_of_ok seen l : capacities_ok l -> capacities_ok (channels_of seen l).
Proof. intros H. apply Forall_forall. intros x [Hx _]%channels_of_elem. by apply (proj1 (Forall_forall _ _) H). Qed.

Lemma visit_node_eq n node n1 deg :
  foldl visit_edge (mkNetStats (u32 (nt_numNodes n + 1)) (nt_numChannels n) (nt_maxChanOut n) (nt_totalNetworkCapacity n)
                      (nt_minChannelSize n) (nt_maxChannelSize n) (nt_seenChans n), 0) node = (n1, deg) ->
  visit_node n node = mkNetStats (nt_numNodes n1) (nt_numChannels n1) (if nt_maxChanOut n1 <? deg then deg else nt_maxChanOut n1)
                        (nt_totalNetworkCapacity n1) (nt_minChannelSize n1) (nt_maxChannelSize n1) (nt_seenChans n1).
Proof. unfold visit_node. by intros ->. Qed.

Lemma visit_nodes_spec nodes done_ n :
  let all := concat (done_ ++ nodes) in
  capacities_ok all -> capacity (channels_of ∅ all) < 2 ^ 63 -> Z.of_nat (length all) < 2 ^ 32 -> Z.of_nat (length (done_ ++ nodes)) < 2 ^ 32 ->
  stats_of n (channels_of ∅ (concat done_)) -> nt_seenChans n = ids (concat done_) -> nt_numNodes n = Z.of_nat (length done_) ->
  nt_maxChanOut n = foldl (fun m node => Z.max m (Z.of_nat (length node))) 0 done_ ->
  let n' := foldl visit_node n nodes in
  stats_of n' (channels_of ∅ all) /\ nt_numNodes n' = Z.of_nat (length (done_ ++ nodes))
  /\ nt_maxChanOut n' = foldl (fun m node => Z.max m (Z.of_nat (length node))) 0 (done_ ++ nodes).
Proof.
  revert done_ n. induction nodes as [|node nodes IH]; intros done_ n all Hok Hcap Hlen Hnum Hs Hseen Hn Hm; cbn zeta.
  { subst all. rewrite app_nil_r in *. done. }
  set (n0 := mkNetStats (u32 (nt_numNodes n + 1)) (nt_numChannels n) (nt_maxChanOut n) (nt_totalNetworkCapacity n) (nt_minChannelSize n)
               (nt_maxChannelSize n) (nt_seenChans n)).
  assert (concat (done_ ++ node :: nodes) = concat done_ ++ node ++ concat nodes) as Eall by (rewrite concat_app; done).
  subst all. rewrite Eall in *. rewrite !length_app in Hlen. rewrite length_app in Hnum. cbn [length] in Hnum.
  apply Forall_app in Hok as [Hok1 Hok2]. pose proof Hok2 as [Hokn Hokr]%Forall_app.
  assert (nt_seenChans n0 = ids (concat done_)) as Es by done.
  destruct (visit_edges_spec node n0 0 (channels_of ∅ (concat done_))) as (n1 & E & Hs1 & Hseen1 & H1 & H2).
  - done.
  - done.
  - rewrite Es. rewrite !channels_of_app, !capacity_app in Hcap. pose proof (capacity_nonneg _ (channels_of_ok (ids node ∪ (ids (concat done_) ∪ ∅)) _ Hokr)).
    rewrite union_empty_r_L in *. lia.
  - apply capacity_nonneg, channels_of_ok, Hok1.
  - pose proof (channels_length ∅ (concat done_)). lia.
  - lia.
  - lia.
  - pose proof (visit_node_eq n node n1 _ E) as En. set (n2 := visit_node n node) in *. cbn [foldl]. fold n2. rewrite Es in *.
    assert (concat ((done_ ++ [node]) ++ nodes) = concat done_ ++ node ++ concat nodes) as Eall' by (rewrite <- app_assoc, concat_app; done).
    replace (done_ ++ node :: nodes) with ((done_ ++ [node]) ++ nodes) by (by rewrite <- app_assoc).
    rewrite <- Eall'. apply IH; rewrite ?Eall'.
    + by repeat (apply Forall_app; split).
    + done.
    + rewrite !length_app. done.
    + rewrite !length_app. cbn. lia.
    + rewrite concat_app. cbn [concat]. rewrite app_nil_r, channels_of_app. rewrite union_empty_r_L. by rewrite En.
    + rewrite En. cbn [nt_seenChans]. rewrite Hseen1, concat_app. cbn [concat]. rewrite app_nil_r. rewrite ids_app. apply union_comm_L.
    + rewrite En. cbn [nt_numNodes]. rewrite H1. subst n0. cbn [nt_numNodes]. rewrite Hn, length_app. cbn [length]. unfold u32. rewrite Z.mod_small; lia.
    + rewrite En. cbn [nt_maxChanOut]. rewrite H2. subst n0. cbn [nt_maxChanOut]. rewrite foldl_app. cbn [foldl]. rewrite Hm. rewrite Z.add_0_l.
      destruct (Z.ltb_spec (foldl (fun m node0 => Z.max m (Z.of_nat (length node0))) 0 done_) (Z.of_nat (length node))); lia.
Qed.

(** The statistics of the network count each channel once, although both its ends list
    it: the number of channels, their capacity, the smallest and the largest are those of
    the different channels of the graph, and the largest degree is that of a node. *)
Theorem network_info_exact nodes :
  let cs := channels_of ∅ (concat nodes) in
  capacities_ok (concat nodes) -> capacity cs < 2 ^ 63 -> Z.of_nat (length (concat nodes)) < 2 ^ 32 -> Z.of_nat (length nodes) < 2 ^ 32 ->
  (NoDup (map ge_ChannelID cs) /\ forall id, id ∈ map ge_ChannelID cs <-> id ∈ map ge_ChannelID (concat nodes))
  /\ exists i, GetNetworkInfo (Ok nodes) = Ok i
     /\ ni_NumNodes i = Z.of_nat (length nodes) /\ ni_NumChannels i = Z.of_nat (length cs) /\ ni_TotalNetworkCapacity i = capacity cs
     /\ ni_MinChannelSize i = (if (length cs =? 0)%nat then 0 else least cs) /\ ni_MaxChannelSize i = greatest cs
     /\ ni_AvgChannelSize i = (if (length cs =? 0)%nat then (0, 1) else (capacity cs, Z.of_nat (length cs)))
     /\ ni_MaxOutDegree i = foldl (fun m node => Z.max m (Z.of_nat (length node))) 0 nodes.
Proof.
  intros cs Hok Hcap Hlen Hn. split.
  - split; [apply channels_of_NoDup|]. intros id. split.
    + intros (e & -> & He)%list_elem_of_fmap. apply channels_of_elem in He as [He _]. apply list_elem_of_fmap. eauto.
    + intros (e & -> & He)%list_elem_of_fmap. apply channels_of_complete; [done|]. apply not_elem_of_empty.
  - destruct (visit_nodes_spec nodes [] (mkNetStats 0 0 0 0 MaxInt64 0 ∅)) as ((S1 & S2 & S3 & S4) & H1 & H2); try done.
    unfold GetNetworkInfo. eexists. split; [done|]. cbn [ni_NumNodes ni_NumChannels ni_TotalNetworkCapacity ni_MinChannelSize ni_MaxChannelSize ni_AvgChannelSize ni_MaxOutDegree].
    rewrite S1, S2, S3, S4, H1, H2. cbn [app]. fold cs. assert ((Z.of_nat (length cs) =? 0) = (length cs =? 0)%nat) as -> by (by destruct (length cs)). done.
Qed.

(** The average out degree divides the channels by the nodes, so that it is half of what the
    degrees average to: here both nodes have degree one. *)
Example average_degree_is_half :
  GetNetworkInfo (Ok [[mkGraphEdge 7 100]; [mkGraphEdge 7 100]]) = Ok (mkNetworkInfo 1 (1, 2) 2 1 100 (100, 1) 100 100).
Proof. vm_compute. reflexivity. Qed.

(** * The node over RPC *)

(** ** Peers *)

Definition Peers (s : server) : list nat := (map_to_list (peersByPub s)).*2.

(** An active channel of a peer: whether the next revocation of the other end is known, and
    what was transported over it. *)
Record activeChannel := mkActiveChannel { ac_RemoteNextRevocation : bool; ac_TotalMSatSent : Z; ac_TotalMSatReceived : Z }.

Definition ChannelSnapshots (activeChannels : list activeChannel) : list activeChannel := List.filter ac_RemoteNextRevocation activeChannels.

(** The counters of a running peer. *)
Record peerLive := mkPeerLive {
  pl_RemoteAddr : bytes;
  pl_bytesReceived : Z;
  pl_bytesSent : Z;
  pl_pingTime : Z;
  pl_activeChannels : list activeChannel
}.

Record rpcPeer := mkRpcPeer {
  rp_PubKey : bytes;
  rp_Address : bytes;
  rp_Inbound : bool;
  rp_BytesRecv : Z;
  rp_BytesSent : Z;
  rp_SatSent : Z;
  rp_SatRecv : Z;
  rp_PingTime : Z
}.

Definition sat_total (f : activeChannel -> Z) (chans : list activeChannel) : Z := foldl (fun sum c => i64 (sum + ToSatoshis (f c))) 0 chans.

(** The direction is flipped for display. *)
Definition marshalPeer (live : nat -> peerLive) (s : server) (p : nat) : option rpcPeer :=
  match sv_peers s !! p with
  | None => None
  | Some pr =>
      let l := live p in
      let chans := ChannelSnapshots (pl_activeChannels l) in
      Some (mkRpcPeer (hex_EncodeToString (p_pub pr)) (pl_RemoteAddr l) (negb (p_inbound pr)) (pl_bytesReceived l) (pl_bytesSent l)
              (sat_total ac_TotalMSatSent chans) (sat_total ac_TotalMSatReceived chans) (pl_pingTime l))
  end.

Definition ListPeers (live : nat -> peerLive) (s : server) : list rpcPeer := omap (marshalPeer live s) (Peers s).

(** ** [GetInfo] *)

Record GetInfoResponse := mkGetInfoResponse {
  gi_IdentityPubkey : bytes;
  gi_NumPendingChannels : Z;
  gi_NumActiveChannels : Z;
  gi_NumPeers : Z;
  gi_BlockHeight : Z;
  gi_BlockHash : bytes;
  gi_SyncedToChain : bool;
  gi_Testnet : bool;
  gi_Chains : list bytes;
  gi_Uris : list bytes;
  gi_Alias : bytes;
  gi_BestHeaderTimestamp : Z
}.

(** What is asked of the database, the chain and the wallet. *)
Record nodeEnv := mkNodeEnv {
  ne_numPending : res nat;
  ne_GetBestBlock : res (bytes * Z);
  ne_IsSynced : res (bool * Z);
  ne_chains : list bytes;
  ne_testnet : bool;
  ne_AddrString : Addr -> bytes
}.

Definition GetInfo (live : nat -> peerLive) (env : nodeEnv) (genNodeAnnouncement : res NodeAnnouncement) (s : server) : res GetInfoResponse :=
  let serverPeers := Peers s in
  let activeChannels := foldl (fun n p => u32 (n + u32 (Z.of_nat (length (ChannelSnapshots (pl_activeChannels (live p))))))) 0 serverPeers in
  match ne_numPending env with
  | Err _ => Err (ErrNew "unable to get retrieve pending channels")
  | Ok pendingChannels =>
      match ne_GetBestBlock env with
      | Err _ => Err (ErrNew "unable to get best block info")
      | Ok (bestHash, bestHeight) =>
          match ne_IsSynced env with
          | Err _ => Err (ErrNew "unable to sync PoV of the wallet")
          | Ok (isSynced, bestHeaderTimestamp) =>
              match genNodeAnnouncement with
              | Err _ => Err (ErrNew "unable to retrieve current fully signed node announcement")
              | Ok nodeAnn =>
                  let encodedIDPub := hex_EncodeToString (sv_identity s) in
                  Ok (mkGetInfoResponse encodedIDPub (u32 (Z.of_nat pendingChannels)) activeChannels (u32 (Z.of_nat (length serverPeers)))
                        (u32 bestHeight) (hash_String bestHash) isSynced (ne_testnet env) (ne_chains env)
                        (map (fun a => encodedIDPub ++ [x40] ++ ne_AddrString env a) (an_Addresses (na_announced nodeAnn)))
                        (an_Alias (na_announced nodeAnn)) bestHeaderTimestamp)
              end
          end
      end
  end.

(** ** What is shown *)

Lemma peers_listed live s l :
  sv_inv s -> (forall k p, (k, p) ∈ l -> peersByPub s !! k = Some p) ->
  rp_PubKey <$> omap (marshalPeer live s) l.*2 = hex_EncodeToString <$> l.*1.
Proof.
  intros (_ & (H1 & _) & _) Hl. induction l as [|[k p] l IH]; [done|]. rewrite !fmap_cons. cbn [omap list_omap fst snd].
  destruct (H1 k p) as (pr & Hp & Hk & _); [apply Hl; by left|]. unfold marshalPeer at 1. rewrite Hp, fmap_cons. cbn [rp_PubKey]. rewrite Hk.
  f_equal. apply IH. intros k' p' Hin. apply Hl. by right.
Qed.

(** Every connected peer is listed once, under its key, and with the number of the peers
    and of the channels that [GetInfo] shows. *)
Theorem peers_shown graph identity allowed s live env ann resp :
  sv_reach graph identity allowed s -> Z.of_nat (size (peersByPub s)) < 2 ^ 32 ->
  GetInfo live env ann s = Ok resp ->
  rp_PubKey <$> ListPeers live s ≡ₚ hex_EncodeToString <$> elements (dom (peersByPub s))
  /\ NoDup (rp_PubKey <$> ListPeers live s)
  /\ gi_NumPeers resp = Z.of_nat (length (ListPeers live s))
  /\ gi_IdentityPubkey resp = hex_EncodeToString (sv_identity s).
Proof.
  intros Hr Hn. assert (rp_PubKey <$> ListPeers live s = hex_EncodeToString <$> (map_to_list (peersByPub s)).*1) as E.
  { apply peers_listed; [by eapply reach_inv|]. intros k p. apply elem_of_map_to_list. }
  intros Hi. split; [|split; [|split]].
  - rewrite E. apply fmap_Permutation. symmetry. apply NoDup_Permutation; [apply NoDup_elements|apply NoDup_fst_map_to_list|].
    intros k. rewrite elem_of_elements. etrans; [apply elem_of_dom|]. rewrite list_elem_of_fmap. split.
    + intros [p Hp]. exists (k, p). split; [done|]. by apply elem_of_map_to_list.
    + intros ([k' p] & -> & Hp%elem_of_map_to_list). by exists p.
  - rewrite E. apply NoDup_fmap_2_strong; [|apply NoDup_fst_map_to_list]. intros a b _ _ Hab.
    assert (@Ok bytes a = Ok b) as [= ->]; [|done]. by rewrite <- (hex_roundtrip a), <- (hex_roundtrip b), Hab.
  - apply (f_equal length) in E. rewrite !length_fmap in E. rewrite E.
    unfold GetInfo in Hi. destruct (ne_numPending env), (ne_GetBestBlock env) as [[]|], (ne_IsSynced env) as [[]|], ann; try done.
    injection Hi as <-. cbn [gi_NumPeers]. unfold Peers. rewrite length_fmap, length_map_to_list. apply u32_id. unfold is_u32. lia.
  - unfold GetInfo in Hi. destruct (ne_numPending env), (ne_GetBestBlock env) as [[]|], (ne_IsSynced env) as [[]|], ann; try done. by injection Hi as <-.
Qed.

(** The server files a peer under the other direction, and the list flips it again: a new
    peer that has connected to the node is shown as inbound, and one the node has dialled is
    not. *)
Theorem direction_shown live g conn s :
  sv_inv s -> peersByPub s !! cn_RemotePub conn = None -> cn_starts conn = true ->
  (exists s' r, InboundPeerConnected g conn s = (Ok tt, s') /\ r ∈ ListPeers live s' /\ rp_PubKey r = hex_EncodeToString (cn_RemotePub conn) /\ rp_Inbound r = true)
  /\ (exists s' r, OutboundPeerConnected g None conn s = (Ok tt, s') /\ r ∈ ListPeers live s' /\ rp_PubKey r = hex_EncodeToString (cn_RemotePub conn) /\ rp_Inbound r = false).
Proof.
  intros H Hnone Hst. pose proof H as (Hs & (_ & H2 & _) & _).
  assert (forall b, side b s !! cn_RemotePub conn = None) as Hside.
  { intros b. destruct (side b s !! cn_RemotePub conn) as [p|] eqn:E; [|done]. destruct (H2 _ _ _ E) as [E' _]. congruence. }
  destruct (cancelConnReqs_spec (cn_RemotePub conn) None s H) as (s1 & E1 & I1 & B1 & _).
  assert (forall b, exists s' r, peerConnected g conn None b s1 = (Ok tt, s') /\ r ∈ ListPeers live s'
            /\ rp_PubKey r = hex_EncodeToString (cn_RemotePub conn) /\ rp_Inbound r = negb b) as Hc.
  { intros b. destruct (peerConnected_spec g conn None b s1 I1) as (s' & E & I' & _ & Hm); [by rewrite B1|]. rewrite Hst in Hm. destruct Hm as (Hm & pr & Hp & Hb).
    assert (peersByPub s' !! cn_RemotePub conn = Some (length (sv_peers s1))) as Hk by (by rewrite Hm, lookup_insert_eq).
    destruct I' as (_ & (H1' & _) & _). destruct (H1' _ _ Hk) as (pr' & Hp' & Hpub & _). assert (pr' = pr) as -> by congruence.
    eexists s', _. split; [done|]. split; [apply list_elem_of_omap; exists (length (sv_peers s1)); split|].
    - apply list_elem_of_fmap. exists (cn_RemotePub conn, length (sv_peers s1)). split; [done|]. by apply elem_of_map_to_list.
    - unfold marshalPeer. rewrite Hp. reflexivity.
    - cbn. by rewrite Hpub, Hb. }
  split.
  - destruct (Hc false) as (s' & r & E & Hr). exists s', r. split; [|done]. unfold InboundPeerConnected. unfold mbind at 1, st_bind at 1, st_get at 1.
    rewrite Hs. pose proof (Hside true) as Hi. cbn [side] in Hi. rewrite Hi. unfold findPeerByPubStr. rewrite Hnone. unfold mbind, st_bind. by rewrite E1.
  - destruct (Hc true) as (s' & r & E & Hr). exists s', r. split; [|done]. unfold OutboundPeerConnected. unfold mbind at 1, st_bind at 1, st_get at 1.
    rewrite Hs. pose proof (Hside false) as Hi. cbn [side] in Hi. rewrite Hi. rewrite andb_false_r. unfold findPeerByPubStr. rewrite Hnone. cbn [fmap option_fmap option_map].
    unfold mbind, st_bind. by rewrite E1.
Qed.
