(* ===== verification/RpcOpen.v ===== *)
(** * Opening and closing channels over RPC

    rpcserver.go, [OpenChannel], [OpenChannelSync], [CloseChannel], [ConnectPeer] and
    [DisconnectPeer] with [getChanPointFundingTxid] and [fetchActiveChannel], and
    server.go, [OpenChannel]: the checks of a request, what is handed to the funding manager
    ([FundingManager]), the server ([Server]), the switch and the chain arbitrator, and the
    loops that pass the updates on to the client. *)

From Stdlib Require Import ZArith Lia.
From Stdlib Require Import Init.Byte.
From stdpp Require Import base gmap strings numbers list.
From S2P Require Import Prelude Stream Tx Outputs Effects Server FundingManager FundingFlow.
From S2P Require Import InvoiceStore Preimages RpcBase RpcInfo.
Local Open Scope Z_scope.

(** ** Channel points *)

Inductive FundingTxid := FundingTxidBytes (b : bytes) | FundingTxidStr (s : bytes) | FundingTxidUnset.

(** [lnrpc.ChannelPoint] *)
Record rpcChannelPoint := mkRpcChannelPoint { cp_FundingTxid : FundingTxid; cp_OutputIndex : Z }.

(** [chainhash.NewHash] and [chainhash.NewHashFromStr], which reads a hash printed in reverse. *)
Definition NewHash (b : bytes) : res bytes := if (length b =? 32)%nat then Ok b else Err (ErrNew "invalid hash length").

Definition NewHashFromStr (src : bytes) : res bytes :=
  if (64 <? length src)%nat then Err (ErrNew "max hash string length is 64 bytes")
  else
    let srcBytes := if Nat.even (length src) then src else x30 :: src in
    reversed ← hex_DecodeString srcBytes;
    mret (reverse (zeros (32 - length reversed) ++ reversed)).

Definition getChanPointFundingTxid (p : rpcChannelPoint) : res bytes :=
  match cp_FundingTxid p with
  | FundingTxidBytes b => Ok b
  | FundingTxidStr s => NewHashFromStr s
  | FundingTxidUnset => Ok []
  end.

Definition chan_point (p : rpcChannelPoint) : res OutPoint :=
  txidHash ← getChanPointFundingTxid p;
  txid ← NewHash txidHash;
  mret (mkOutPoint txid (cp_OutputIndex p)).

Lemma NewHashFromStr_String h : length h = 32%nat -> NewHashFromStr (hash_String h) = Ok h.
Proof.
  intros Hh. unfold NewHashFromStr, hash_String. rewrite hex_length, length_reverse, Hh. cbn [Nat.mul Nat.add Nat.ltb Nat.leb Nat.even].
  rewrite hex_roundtrip. unfold mbind, res_bind. rewrite length_reverse, Hh. change (zeros (32 - 32) ++ reverse h) with (reverse h). by rewrite reverse_involutive.
Qed.

(** ** Opening *)

Definition minChanFundingSize : Z := 20000.

(** [lnrpc.OpenChannelRequest] *)
Record OpenChannelRequest := mkOpenChannelRequest {
  or_NodePubkey : bytes;
  or_NodePubkeyString : bytes;
  or_LocalFundingAmount : Z;
  or_PushSat : Z;
  or_TargetConf : Z;
  or_SatPerByte : Z;
  or_Private : bool;
  or_MinHtlcMsat : Z;
  or_RemoteCsvDelay : Z
}.

(** [lnrpc.OpenStatusUpdate] and what can end the wait for the next one. *)
Inductive open_update :=
| ChanPending (txid : bytes) (outputIndex : Z)
| Confirmation
| ChanOpen (p : rpcChannelPoint).

Inductive open_event := OErr (e : goerr) | OUpdate (u : open_update) (sent : option goerr) | OQuit.

Section Open.
Context {BTC : Btcec}.

(** The daemon around the calls: the state of the server, its key, the peers, the fee
    estimator, the wallet and the network. *)
Record openEnv := mkOpenEnv {
  oe_Started : bool;
  oe_identity : PublicKey;
  oe_peers : gmap bytes NetAddress;
  oe_estimate : Z -> res Z;
  oe_IsSynced : res bool;
  oe_GenesisHash : bytes
}.

(** [server.OpenChannel]: the error for the caller's channel, or the workflow that is
    started with the peer. *)
Definition server_OpenChannel (env : openEnv) (nodeKey : PublicKey) (localAmt pushAmt minHtlc fundingFeePerVSize : Z) (private : bool)
    (remoteCsvDelay : Z) : res (NetAddress * openChanReq) :=
  match oe_peers env !! SerializeCompressed nodeKey with
  | None => Err (ErrNew "unable to find peer")
  | Some targetPeer =>
      rate ← (if fundingFeePerVSize =? 0 then oe_estimate env 6 else Ok fundingFeePerVSize);
      mret (targetPeer, mkOpenChanReq nodeKey (oe_GenesisHash env) localAmt 0 pushAmt rate private minHtlc remoteCsvDelay)
  end.

Definition syncing : goerr := ErrNew "chain backend is still syncing, server not active yet".

(** What [OpenChannel] asks of the funding manager. *)
Definition open_request (env : openEnv) (i : OpenChannelRequest) : res (NetAddress * openChanReq) :=
  if negb (oe_Started env) then Err syncing
  else
    let localFundingAmt := or_LocalFundingAmount i in
    let remoteInitialBalance := or_PushSat i in
    if localFundingAmt <=? remoteInitialBalance then Err (ErrNew "amount pushed to remote peer must be below the local funding amount")
    else if maxFundingAmount <? localFundingAmt then Err (ErrNew "funding amount is too large")
    else if localFundingAmt <? minChanFundingSize then Err (ErrNew "channel is too small")
    else if (length (or_NodePubkey i) =? 0)%nat then Err (ErrNew "NodePubKey is not set")
    else
      nodePubKey ← ParsePubKey (or_NodePubkey i);
      if decide (nodePubKey = oe_identity env) then Err (ErrNew "cannot open channel to self")
      else
        feeRate ← determineFeePerVSize (oe_estimate env) (or_TargetConf i) (or_SatPerByte i);
        server_OpenChannel env nodePubKey localFundingAmt (NewMSatFromSatoshis remoteInitialBalance) (u64 (or_MinHtlcMsat i)) feeRate
          (or_Private i) (u16 (or_RemoteCsvDelay i)).

(** What [OpenChannelSync] asks of it. *)
Definition open_request_sync (env : openEnv) (i : OpenChannelRequest) : res (NetAddress * openChanReq) :=
  if negb (oe_Started env) then Err syncing
  else
    isSynced ← oe_IsSynced env;
    if negb isSynced then Err (ErrNew "channels cannot be created before the wallet is fully synced")
    else
      keyBytes ← hex_DecodeString (or_NodePubkeyString i);
      nodepubKey ← ParsePubKey keyBytes;
      let localFundingAmt := or_LocalFundingAmount i in
      let remoteInitialBalance := or_PushSat i in
      if localFundingAmt <=? remoteInitialBalance then Err (ErrNew "amount pushed to remote peer must be below the local funding amount")
      else if localFundingAmt <? minChanFundingSize then Err (ErrNew "channel is too small")
      else
        feeRate ← determineFeePerVSize (oe_estimate env) (or_TargetConf i) (or_SatPerByte i);
        server_OpenChannel env nodepubKey localFundingAmt (NewMSatFromSatoshis remoteInitialBalance) (u64 (or_MinHtlcMsat i)) feeRate
          (or_Private i) (u16 (or_RemoteCsvDelay i)).

(** The loop of [OpenChannel]: the updates sent to the client, and the result once it ends. *)
Fixpoint open_loop (evs : list open_event) (sent : list open_update) : list open_update * option (res ()) :=
  match evs with
  | [] => (sent, None)
  | OErr e :: _ => (sent, Some (Err e))
  | OQuit :: _ => (sent, Some (Ok tt))
  | OUpdate u (Some e) :: _ => (sent, Some (Err e))
  | OUpdate u None :: evs =>
      match u with
      | ChanOpen p => (sent ++ [u], Some (match chan_point p with Ok _ => Ok tt | Err e => Err e end))
      | _ => open_loop evs (sent ++ [u])
      end
  end.

Definition OpenChannel (env : openEnv) (i : OpenChannelRequest) (evs : list open_event) : list open_update * option (res ()) :=
  match open_request env i with Err e => ([], Some (Err e)) | Ok _ => open_loop evs [] end.

(** [OpenChannelSync] waits for one event; an update of another kind fails the type
    assertion, and [None] is a nil response. *)
Definition OpenChannelSync (env : openEnv) (i : OpenChannelRequest) (ev : open_event) : res (option rpcChannelPoint) :=
  _ ← open_request_sync env i;
  match ev with
  | OErr e => Err e
  | OQuit => Ok None
  | OUpdate (ChanPending txid _) _ => Ok (Some (mkRpcChannelPoint (FundingTxidBytes txid) 0))
  | OUpdate _ _ => Err (ErrPanic "interface conversion")
  end.

(** ** Peers *)

Record LightningAddress := mkLightningAddress { la_Pubkey : bytes; la_Host : bytes }.

(** The host with the default port when it has none ([split] tells), and its resolution. *)
Definition rpc_ConnectPeer (started : bool) (identity : PublicKey) (split : bytes -> bool) (join : bytes -> bytes)
    (ResolveTCPAddr : bytes -> res Addr) (address : option LightningAddress) (perm : bool) : SV bool :=
  if negb started then st_fail syncing
  else match address with
       | None => st_fail (ErrNew "need: lnc pubkeyhash@hostname")
       | Some a =>
           pubkeyHex ← st_res (hex_DecodeString (la_Pubkey a));
           pubKey ← st_res (ParsePubKey pubkeyHex);
           if decide (pubKey = identity) then st_fail (ErrNew "cannot make connection to self")
           else
             let addr := if split (la_Host a) then la_Host a else join (la_Host a) in
             host ← st_res (ResolveTCPAddr addr);
             ConnectToPeer (SerializeCompressed pubKey) host perm
       end.

(** [FetchOpenChannels] is the number of channels the database has with a peer. *)
Definition rpc_DisconnectPeer (started unsafeDisconnect : bool) (FetchOpenChannels : PublicKey -> res nat) (PubKey : bytes) : SV () :=
  if negb started then st_fail syncing
  else fun s =>
    match hex_DecodeString PubKey with
    | Err _ => (Err (ErrNew "unable to decode pubkey bytes"), s)
    | Ok pubKeyBytes =>
        match ParsePubKey pubKeyBytes with
        | Err _ => (Err (ErrNew "unable to parse pubkey"), s)
        | Ok peerPubKey =>
            match FetchOpenChannels peerPubKey with
            | Err _ => (Err (ErrNew "unable to fetch channels for peer"), s)
            | Ok nodeChannels =>
                if (0 <? nodeChannels)%nat && negb unsafeDisconnect then (Err (ErrNew "cannot disconnect from peer"), s)
                else match DisconnectPeer (SerializeCompressed peerPubKey) s with
                     | (Err _, s') => (Err (ErrNew "unable to disconnect peer"), s')
                     | (Ok _, s') => (Ok tt, s')
                     end
            end
        end
    end.

(** ** Closing *)

(** [lnrpc.CloseChannelRequest] *)
Record CloseChannelRequest := mkCloseChannelRequest {
  cr_ChannelPoint : option rpcChannelPoint;
  cr_Force : bool;
  cr_TargetConf : Z;
  cr_SatPerByte : Z
}.

(** The calls the handler makes, in their order. *)
Inductive close_call :=
| CStop (p : OutPoint)
| CWipeChannel (p : OutPoint)
| CRemoveLink (p : OutPoint)
| CForceCloseContract (p : OutPoint)
| CWaitForChanToClose (height : Z) (p : OutPoint) (closingTxid : bytes)
| CCloseLink (p : OutPoint) (feePerKw : Z).

Inductive close_update := ClosePending (txid : bytes) | ChanClose (txid : bytes).

Inductive close_event := CErr (e : goerr) | CUpdate (u : close_update) (sent : option goerr) | CQuit.

(** [ce_NewLightningChannel] is the number of active HTLCs of the channel it makes. *)
Record closeEnv := mkCloseEnv {
  ce_FetchAllChannels : res (list dbChannel);
  ce_NewLightningChannel : dbChannel -> res nat;
  ce_GetBestBlock : res Z;
  ce_FindPeer : bytes -> bool;
  ce_ForceCloseContract : OutPoint -> res bytes;
  ce_estimate : Z -> res Z
}.

Definition fetchActiveChannel (env : closeEnv) (chanPoint : OutPoint) : res (dbChannel * nat) :=
  dbChannels ← ce_FetchAllChannels env;
  match list_find (fun c => dc_FundingOutpoint c = chanPoint) dbChannels with
  | None => Err (ErrNew "unable to find channel")
  | Some (_, dbChan) => htlcs ← ce_NewLightningChannel env dbChan; mret (dbChan, htlcs)
  end.

(** The part of the handler before the loop: the calls it has made, and the update that is
    in the channel when it starts the loop. *)
Definition start_close (env : closeEnv) (i : CloseChannelRequest) : list close_call * res (list close_update) :=
  match cr_ChannelPoint i with
  | None => ([], Err (ErrPanic "nil pointer"))
  | Some point =>
      match chan_point point with
      | Err e => ([], Err e)
      | Ok chanPoint =>
          match fetchActiveChannel env chanPoint with
          | Err e => ([], Err e)
          | Ok (channel, activeHtlcs) =>
              if cr_Force i then
                match ce_GetBestBlock env with
                | Err e => ([CStop chanPoint], Err e)
                | Ok bestHeight =>
                    let purge := if ce_FindPeer env (dc_IdentityPub channel) then CWipeChannel chanPoint else CRemoveLink chanPoint in
                    let calls := [CStop chanPoint; purge; CForceCloseContract chanPoint] in
                    match ce_ForceCloseContract env chanPoint with
                    | Err e => (calls, Err e)
                    | Ok closingTxid =>
                        (calls ++ [CWaitForChanToClose (u32 bestHeight) chanPoint closingTxid], Ok [ClosePending closingTxid])
                    end
                end
              else
                match determineFeePerVSize (ce_estimate env) (cr_TargetConf i) (cr_SatPerByte i) with
                | Err e => ([CStop chanPoint], Err e)
                | Ok feeRate0 =>
                    match (if feeRate0 =? 0 then ce_estimate env 6 else Ok feeRate0) with
                    | Err e => ([CStop chanPoint], Err e)
                    | Ok feeRate =>
                        if negb (activeHtlcs =? 0)%nat then ([CStop chanPoint], Err (ErrNew "cannot co-op close channel with active htlcs"))
                        else ([CStop chanPoint; CCloseLink chanPoint (FeePerKWeight feeRate)], Ok [])
                    end
                end
          end
      end
  end.

Fixpoint close_loop (evs : list close_event) (sent : list close_update) : list close_update * option (res ()) :=
  match evs with
  | [] => (sent, None)
  | CErr e :: _ => (sent, Some (Err e))
  | CQuit :: _ => (sent, Some (Ok tt))
  | CUpdate u (Some e) :: _ => (sent, Some (Err e))
  | CUpdate u None :: evs =>
      match u with
      | ChanClose _ => (sent ++ [u], Some (Ok tt))
      | ClosePending _ => close_loop evs (sent ++ [u])
      end
  end.

Definition CloseChannel (env : closeEnv) (i : CloseChannelRequest) (evs : list close_event) :
    list close_call * (list close_update * option (res ())) :=
  match start_close env i with
  | (calls, Err e) => (calls, ([], Some (Err e)))
  | (calls, Ok _) => (calls, close_loop evs [])
  end.

(** ** What reaches the funding manager *)

Lemma server_OpenChannel_made env k amt push minHtlc rate priv csv peer req :
  server_OpenChannel env k amt push minHtlc rate priv csv = Ok (peer, req) ->
  oe_peers env !! SerializeCompressed k = Some peer /\ oq_targetPubkey req = k /\ oq_localFundingAmt req = amt /\ oq_pushAmt req = push.
Proof.
  unfold server_OpenChannel. destruct (oe_peers env !! _) as [p|]; [|done]. intros (r & _ & H)%res_bind_Ok_inv. by injection H as <- <-.
Qed.

(** A request to open a channel reaches the funding manager only for a peer that is
    connected and is not the node itself, with an amount within the limits, and below it
    what is given to the peer; the synchronous call makes the same request for the same
    peer, but checks neither the upper limit nor the node's own key. *)
Theorem open_request_checked env i peer req :
  or_NodePubkeyString i = hex_EncodeToString (or_NodePubkey i) -> oe_IsSynced env = Ok true -> or_NodePubkey i <> [] ->
  (open_request env i = Ok (peer, req)
   <-> open_request_sync env i = Ok (peer, req) /\ or_LocalFundingAmount i <= maxFundingAmount /\ oq_targetPubkey req <> oe_identity env)
  /\ (open_request_sync env i = Ok (peer, req) ->
      oe_Started env = true /\ oe_peers env !! SerializeCompressed (oq_targetPubkey req) = Some peer
      /\ ParsePubKey (or_NodePubkey i) = Ok (oq_targetPubkey req) /\ minChanFundingSize <= oq_localFundingAmt req
      /\ oq_localFundingAmt req = or_LocalFundingAmount i /\ or_PushSat i < oq_localFundingAmt req
      /\ (0 <= or_PushSat i < 2 ^ 50 -> oq_pushAmt req = 1000 * or_PushSat i)).
Proof.
  intros Hs Hsync Hne. assert ((length (or_NodePubkey i) =? 0)%nat = false) as El by (by destruct (or_NodePubkey i)). split.
  - unfold open_request, open_request_sync. rewrite Hs, hex_roundtrip, Hsync, El. destruct (oe_Started env); cbn [negb]; [|naive_solver].
    cbn [mbind res_bind negb]. destruct (Z.leb_spec (or_LocalFundingAmount i) (or_PushSat i)).
    { destruct (ParsePubKey _); cbn; naive_solver. }
    destruct (Z.ltb_spec maxFundingAmount (or_LocalFundingAmount i)) as [Hmax|Hmax]; [split; [done|]; intros (_ & ? & _); lia|].
    destruct (_ <? minChanFundingSize); [destruct (ParsePubKey _); cbn; naive_solver|].
    destruct (ParsePubKey (or_NodePubkey i)) as [k|]; [|cbn; naive_solver]. cbn [mbind res_bind]. case_decide as Hd.
    + split; [done|]. intros (Hr & _ & Hk). apply res_bind_Ok_inv in Hr as (r & _ & Hr). apply server_OpenChannel_made in Hr as (_ & E & _). by subst.
    + split; [|naive_solver]. intros H'. split; [done|]. split; [done|]. apply res_bind_Ok_inv in H' as (r & _ & H').
      apply server_OpenChannel_made in H' as (_ & -> & _). done.
  - unfold open_request_sync. rewrite Hs, hex_roundtrip, Hsync. destruct (oe_Started env); [|done]. cbn [mbind res_bind negb].
    destruct (ParsePubKey (or_NodePubkey i)) as [k|]; [|done]. cbn [mbind res_bind].
    destruct (Z.leb_spec (or_LocalFundingAmount i) (or_PushSat i)); [done|]. destruct (Z.ltb_spec (or_LocalFundingAmount i) minChanFundingSize); [done|].
    intros (r & _ & H')%res_bind_Ok_inv. apply server_OpenChannel_made in H' as (Hp & -> & -> & ->). do 6 (split; [done|]).
    intros Hpush. unfold NewMSatFromSatoshis, u64. rewrite (Z.mod_small (or_PushSat i)) by lia. rewrite Z.mod_small; lia.
Qed.

(** ** What closing does *)

(** The channel point a request names: the transaction, as bytes or as text, and the output. *)
Definition names (i : CloseChannelRequest) (p : OutPoint) : Prop :=
  exists pt, cr_ChannelPoint i = Some pt /\ getChanPointFundingTxid pt = Ok (op_Hash p) /\ length (op_Hash p) = 32%nat
    /\ op_Index p = cp_OutputIndex pt.

(** A channel of the database with [n] HTLCs. *)
Definition knows (env : closeEnv) (p : OutPoint) (c : dbChannel) (n : nat) : Prop :=
  (exists cs, ce_FetchAllChannels env = Ok cs /\ c ∈ cs) /\ dc_FundingOutpoint c = p /\ ce_NewLightningChannel env c = Ok n.

(** The channel a call is about. *)
Definition call_point (c : close_call) : OutPoint :=
  match c with
  | CStop p | CWipeChannel p | CRemoveLink p | CForceCloseContract p | CWaitForChanToClose _ p _ | CCloseLink p _ => p
  end.

Lemma chan_point_names i pt p : cr_ChannelPoint i = Some pt -> chan_point pt = Ok p -> names i p.
Proof.
  intros Hi. unfold chan_point. intros (h & Hh & H)%res_bind_Ok_inv. apply res_bind_Ok_inv in H as (t & Ht & H). injection H as <-.
  unfold NewHash in Ht. destruct (Nat.eqb_spec (length h) 32) as [El|]; [|done]. injection Ht as <-. by exists pt.
Qed.

Lemma fetchActiveChannel_found env p c n : fetchActiveChannel env p = Ok (c, n) -> knows env p c n.
Proof.
  unfold fetchActiveChannel. intros (cs & Hcs & H)%res_bind_Ok_inv. destruct (list_find _ cs) as [[j d]|] eqn:E; [|done].
  apply res_bind_Ok_inv in H as (m & Hm & H). injection H as <- <-. apply list_find_Some in E as (Hj & E & _).
  split; [|done]. exists cs. split; [done|]. by eapply list_elem_of_lookup_2.
Qed.

(** The transaction with which the channel is taken from the switch. *)
Definition purge_call (env : closeEnv) (c : dbChannel) (p : OutPoint) : close_call :=
  if ce_FindPeer env (dc_IdentityPub c) then CWipeChannel p else CRemoveLink p.

(** What [start_close] has done: nothing; for the named channel, only stopped it; asked the
    switch; or closed it by force. *)
Inductive started (env : closeEnv) (i : CloseChannelRequest) (p : OutPoint) (c : dbChannel) : list close_call -> res (list close_update) -> Prop :=
| st_stopped e : started env i p c [CStop p] (Err e)
| st_coop rate : cr_Force i = false -> knows env p c 0 -> started env i p c [CStop p; CCloseLink p rate] (Ok [])
| st_refused e : cr_Force i = true -> started env i p c [CStop p; purge_call env c p; CForceCloseContract p] (Err e)
| st_forced h txid : cr_Force i = true -> ce_ForceCloseContract env p = Ok txid ->
    started env i p c [CStop p; purge_call env c p; CForceCloseContract p; CWaitForChanToClose h p txid] (Ok [ClosePending txid]).

Lemma start_close_cases env i calls r :
  start_close env i = (calls, r) ->
  (calls = [] /\ exists e, r = Err e) \/ exists p c n, names i p /\ knows env p c n /\ started env i p c calls r.
Proof.
  unfold start_close. destruct (cr_ChannelPoint i) as [pt|] eqn:Hi; [|intros [= <- <-]; left; eauto].
  destruct (chan_point pt) as [p|e] eqn:Hp; [|intros [= <- <-]; left; eauto].
  destruct (fetchActiveChannel env p) as [[c n]|e] eqn:Ef; [|intros [= <- <-]; left; eauto].
  apply fetchActiveChannel_found in Ef as Hk. intros H. right. exists p, c, n. split; [by eapply chan_point_names|]. split; [done|]. revert H.
  destruct (cr_Force i) eqn:Ei.
  - destruct (ce_GetBestBlock env) as [h|]; [|intros [= <- <-]; constructor].
    destruct (ce_ForceCloseContract env p) as [txid|] eqn:Et; intros [= <- <-]; by constructor.
  - destruct (determineFeePerVSize _ _ _) as [r0|]; [|intros [= <- <-]; constructor].
    destruct (if r0 =? 0 then _ else _) as [rate|]; [|intros [= <- <-]; constructor].
    destruct (Nat.eqb_spec n 0) as [->|]; cbn [negb]; intros [= <- <-]; by constructor.
Qed.

(** A call that returns without an error told the client of the close, or was shut down
    while the close was pending. *)
Lemma close_loop_ends evs sent sent' :
  close_loop evs sent = (sent', Some (Ok tt)) ->
  exists us, Forall (fun u => exists txid, u = ClosePending txid) us
    /\ ((exists txid post, evs = ((fun u => CUpdate u None) <$> us) ++ CUpdate (ChanClose txid) None :: post /\ sent' = sent ++ us ++ [ChanClose txid])
        \/ (exists post, evs = ((fun u => CUpdate u None) <$> us) ++ CQuit :: post /\ sent' = sent ++ us)).
Proof.
  revert sent. induction evs as [|e evs IH]; intros sent; cbn [close_loop]; [done|]. destruct e as [e|u [e|]|]; try done.
  - destruct u as [txid|txid].
    + intros (us & Hu & H)%IH. exists (ClosePending txid :: us). split; [constructor; [eauto|done]|].
      destruct H as [(t & post & -> & ->)|(post & -> & ->)]; [left; exists t, post|right; exists post]; by rewrite <- app_assoc.
    + intros [= <-]. exists []. split; [done|]. left. by exists txid, evs.
  - intros [= <-]. exists []. split; [done|]. right. exists evs. by rewrite !app_nil_r.
Qed.

(** C19: every call made to close a channel is about the channel point the request names,
    transaction and output; without a channel of the database at this point no call is made and
    the request fails.  The switch is asked to close with the peer only when no force was
    wanted and the channel has no HTLCs; closing by force first stops the channel and takes it
    from the peer or from the switch.  When the request ends without an error, either the client
    was told last that the channel is closed, or the daemon was shut down while the
    client had been told of pending closes only. *)
Theorem close_channel_safe env i evs calls sent r :
  CloseChannel env i evs = (calls, (sent, r)) ->
  (forall c, c ∈ calls -> names i (call_point c))
  /\ ((forall p cs c, names i p -> ce_FetchAllChannels env = Ok cs -> c ∈ cs -> dc_FundingOutpoint c <> p) ->
      calls = [] /\ sent = [] /\ exists e, r = Some (Err e))
  /\ (forall p rate, CCloseLink p rate ∈ calls ->
        cr_Force i = false /\ calls = [CStop p; CCloseLink p rate] /\ exists c, knows env p c 0)
  /\ (forall p, CForceCloseContract p ∈ calls ->
        cr_Force i = true /\ exists c n, knows env p c n /\ take 3 calls = [CStop p; purge_call env c p; CForceCloseContract p])
  /\ (r = Some (Ok tt) ->
        exists us, Forall (fun u => exists txid, u = ClosePending txid) us
          /\ ((exists txid post, evs = ((fun u => CUpdate u None) <$> us) ++ CUpdate (ChanClose txid) None :: post /\ sent = us ++ [ChanClose txid])
              \/ (exists post, evs = ((fun u => CUpdate u None) <$> us) ++ CQuit :: post /\ sent = us))).
Proof.
  unfold CloseChannel. destruct (start_close env i) as [cs r0] eqn:E. intros H.
  assert (calls = cs) as -> by (by destruct r0; simplify_eq).
  assert (r = Some (Ok tt) -> close_loop evs [] = (sent, Some (Ok tt))) as Hr by (intros ->; destruct r0; by simplify_eq).
  assert (Hend : r = Some (Ok tt) -> _) by (intros Hok; exact (close_loop_ends _ _ _ (Hr Hok))).
  apply start_close_cases in E as [[-> [e ->]]|(p & c & n & Hn & Hk & Hst)].
  - injection H as <- <-. split; [by intros c ?%not_elem_of_nil|]. split; [eauto|]. do 2 (split; [by intros; exfalso; eapply not_elem_of_nil|]). done.
  - assert (call_point (purge_call env c p) = p /\ (forall q f, CCloseLink q f <> purge_call env c p) /\ forall q, CForceCloseContract q <> purge_call env c p)
      as (Hc & Hl & Hf) by (unfold purge_call; by destruct (ce_FindPeer _ _)).
    split.
    { intros x Hx. assert (call_point x = p) as -> by (inversion Hst; subst; set_solver). done. }
    split.
    { intros Hun. exfalso. destruct Hk as ((l & Hl' & Hin) & Hp & _). by eapply Hun. }
    split; [|split; [|done]].
    + intros q rate Hq. inversion Hst; subst; rewrite ?elem_of_cons, ?elem_of_nil in Hq; destruct_or? Hq; try done; try (by exfalso; eapply Hl).
      injection Hq as -> ->. eauto.
    + intros q Hq. inversion Hst; subst; rewrite ?elem_of_cons, ?elem_of_nil in Hq; destruct_or? Hq; try done; try (by exfalso; eapply Hf).
      all: injection Hq as ->; split; [done|]; by exists c, n.
Qed.

(** ** Peers with channels *)

(** A peer with channels is not disconnected, unless that was allowed. *)
Lemma disconnect_refused FetchOpenChannels PubKey b k n s :
  hex_DecodeString PubKey = Ok b -> ParsePubKey b = Ok k -> FetchOpenChannels k = Ok (S n) ->
  exists e, rpc_DisconnectPeer true false FetchOpenChannels PubKey s = (Err e, s).
Proof. intros H1 H2 H3. unfold rpc_DisconnectPeer. cbn [negb]. rewrite H1, H2, H3. cbn. eauto. Qed.


End Open.
