(* ===== verification/RpcFees.v ===== *)
(** * Fees over RPC

    rpcserver.go, [FeeReport] with its [computeFeeSum] and [ForwardingHistory], over the
    forwarding log.  The clock, the channels of the node and the result of flushing the
    switch's pending events are arguments; the database is the one after the flush.  A fee
    rate of these is the fraction the code rounds to a [float64].  Then [UpdateChannelPolicy],
    where a rate is a floating point number of [SpecFloat] with 53 bits of precision; the
    protocol has millionths in 32 bits.  The gossiper and the switch are asked in this
    order. *)

From Stdlib Require Import ZArith Lia QArith.
From Stdlib Require Import Init.Byte.
From Stdlib Require Import Sorted.
From stdpp Require Import base gmap strings numbers list.
From Stdlib Require Import List.
From Stdlib Require Import SpecFloat.
From S2P Require Import Prelude Stream Tx Outputs Bolt RpcBase ForwardingLog RpcOpen.
Local Open Scope Z_scope.

(** The channel points and the policies of the node's own channels. *)
Record ownEdge := mkOwnEdge {
  eg_ChannelPoint : bytes;
  eg_FeeBaseMSat : Z;
  eg_FeeProportionalMillionths : Z
}.

Record ChannelFeeReport := mkChannelFeeReport {
  cf_ChanPoint : bytes;
  cf_BaseFeeMsat : Z;
  cf_FeePerMil : Z;
  cf_FeeRate : Q
}.

Record FeeReportResponse := mkFeeReportResponse {
  fr_ChannelFees : list ChannelFeeReport;
  fr_DayFeeSum : Z;
  fr_WeekFeeSum : Z;
  fr_MonthFeeSum : Z
}.

Definition feeBase : positive := 1000000.

(** The fees of one page are added up, modulo 2^64 as the amounts are. *)
Definition add_fees (totalFees : Z) (events : list ForwardingEvent) : Z :=
  foldl (fun totalFees event => u64 (totalFees + u64 (fe_AmtIn event - fe_AmtOut event))) totalFees events.

(** [None] when the fuel runs out.  A query that fails ends the sum with zero and no error. *)
Fixpoint computeFeeSum (fuel : nat) (query : ForwardingEventQuery) (totalFees : Z) (db : forwarding_db) : option (res Z) :=
  match fuel with
  | O => None
  | S fuel =>
      match Query query db with
      | Err _ => Some (Ok 0)
      | Ok timeSlice =>
          if (length (ts_ForwardingEvents timeSlice) =? 0)%nat then Some (Ok totalFees)
          else computeFeeSum fuel
                 (mkForwardingEventQuery (fq_StartTime query) (fq_EndTime query) (ts_LastIndexOffset timeSlice) (fq_NumMaxEvents query))
                 (add_fees totalFees (ts_ForwardingEvents timeSlice)) db
      end
  end.

Definition hour : Z := 3600 * second.

(** The events of the last [hours] hours. *)
Definition since (now hours : Z) : ForwardingEventQuery := mkForwardingEventQuery (now - hours * hour) now 0 1000.

(** The result of the flush is dropped: the condition that follows looks at an older error. *)
Definition FeeReport (fuel : nat) (now : Z) (channels : res (list ownEdge)) (flush : res ()) (db : forwarding_db) :
    option (res FeeReportResponse) :=
  match channels with
  | Err e => Some (Err e)
  | Ok edges =>
      let feeReports := map (fun e => mkChannelFeeReport (eg_ChannelPoint e) (i64 (eg_FeeBaseMSat e))
                                        (i64 (eg_FeeProportionalMillionths e)) (eg_FeeProportionalMillionths e # feeBase)) edges in
      match computeFeeSum fuel (since now 24) 0 db with
      | None => None
      | Some (Err _) => Some (Err (ErrNew "unable to retrieve day fees"))
      | Some (Ok dayFees) =>
          match computeFeeSum fuel (since now (24 * 7)) 0 db with
          | None => None
          | Some (Err _) => Some (Err (ErrNew "unable to retrieve day fees"))
          | Some (Ok weekFees) =>
              match computeFeeSum fuel (since now (24 * 30)) 0 db with
              | None => None
              | Some (Err _) => Some (Err (ErrNew "unable to retrieve day fees"))
              | Some (Ok monthFees) =>
                  Some (Ok (mkFeeReportResponse feeReports (ToSatoshis dayFees) (ToSatoshis weekFees) (ToSatoshis monthFees)))
              end
          end
      end
  end.

(** ** [ForwardingHistory] *)

Record ForwardingHistoryRequest := mkForwardingHistoryRequest {
  fh_StartTime : Z;
  fh_EndTime : Z;
  fh_IndexOffset : Z;
  fh_NumMaxEvents : Z
}.

(** [lnrpc.ForwardingEvent] *)
Record rpcForwardingEvent := mkRpcForwardingEvent {
  rf_Timestamp : Z;
  rf_ChanIdIn : Z;
  rf_ChanIdOut : Z;
  rf_AmtIn : Z;
  rf_AmtOut : Z;
  rf_Fee : Z
}.

Record ForwardingHistoryResponse := mkForwardingHistoryResponse {
  fh_ForwardingEvents : list rpcForwardingEvent;
  fh_LastOffsetIndex : Z
}.

Definition marshalEvent (event : ForwardingEvent) : rpcForwardingEvent :=
  let amtInSat := ToSatoshis (fe_AmtIn event) in
  let amtOutSat := ToSatoshis (fe_AmtOut event) in
  mkRpcForwardingEvent (u64 (fe_Timestamp event / second)) (fe_IncomingChanID event) (fe_OutgoingChanID event)
    (u64 amtInSat) (u64 amtOutSat) (u64 (i64 (amtInSat - amtOutSat))).

Definition history_query (now : Z) (req : ForwardingHistoryRequest) : ForwardingEventQuery :=
  let (startTime, endTime) :=
    if (fh_StartTime req =? 0) && (fh_EndTime req =? 0) then (now - 24 * hour, now)
    else (i64 (i64 (fh_StartTime req) * second), i64 (i64 (fh_EndTime req) * second)) in
  let numEvents := if fh_NumMaxEvents req =? 0 then 100 else fh_NumMaxEvents req in
  mkForwardingEventQuery startTime endTime (fh_IndexOffset req) numEvents.

Definition ForwardingHistory (now : Z) (flush : res ()) (req : ForwardingHistoryRequest) (db : forwarding_db) : res ForwardingHistoryResponse :=
  match flush with
  | Err _ => Err (ErrNew "unable to flush forwarding events")
  | Ok _ =>
      match Query (history_query now req) db with
      | Err _ => Err (ErrNew "unable to query forwarding log")
      | Ok timeSlice => Ok (mkForwardingHistoryResponse (map marshalEvent (ts_ForwardingEvents timeSlice)) (ts_LastIndexOffset timeSlice))
      end
  end.

(** ** The sums *)

Definition fees_of (evs : list ForwardingEvent) : Z := foldr (fun e t => fe_AmtIn e - fe_AmtOut e + t) 0 evs.

Lemma fees_of_app l1 l2 : fees_of (l1 ++ l2) = fees_of l1 + fees_of l2.
Proof. unfold fees_of. induction l1 as [|e l1 IH]; cbn; lia. Qed.

Lemma add_fees_sum evs t : add_fees t evs = u64 (t + fees_of evs) \/ (evs = [] /\ add_fees t evs = t).
Proof.
  unfold add_fees, fees_of. destruct (decide (evs = [])) as [->|Hne]; [by right|]. left. revert t Hne.
  induction evs as [|e evs IH]; intros t Hne; [done|]. cbn [foldl foldr]. destruct (decide (evs = [])) as [->|Hne'].
  - cbn. unfold u64. rewrite Zplus_mod_idemp_r. f_equal. lia.
  - rewrite IH by done. unfold u64. rewrite Zplus_mod_idemp_l, <- Z.add_assoc, (Z.add_assoc t), (Z.add_comm t).
    rewrite <- (Z.add_assoc (_ mod _)), Zplus_mod_idemp_l. f_equal. lia.
Qed.

Lemma add_fees_u64 evs t : is_u64 t -> add_fees t evs = u64 (t + fees_of evs).
Proof.
  intros Ht. destruct (add_fees_sum evs t) as [E|[-> E]]; [done|]. rewrite E. cbn. rewrite Z.add_0_r. symmetry. by apply u64_id.
Qed.

Lemma in_range_length a b evs : (length (in_range a b evs) <= length evs)%nat.
Proof. unfold in_range. apply length_filter. Qed.

(** The pages cover the rest of the range. *)
Lemma computeFeeSum_pages db evs start stop k total fuel :
  flog db evs -> 0 <= start < 2 ^ 63 -> 0 <= stop < 2 ^ 63 -> Z.of_nat (length evs) < 2 ^ 31 -> is_u64 total ->
  (k <= length evs)%nat -> (length (drop k (in_range start stop evs)) < fuel)%nat ->
  computeFeeSum fuel (mkForwardingEventQuery start stop (Z.of_nat k) 1000) total db
    = Some (Ok (u64 (total + fees_of (drop k (in_range start stop evs))))).
Proof.
  intros Hlog Hs He Hn. revert k total. induction fuel as [|fuel IH]; intros k total Ht Hk Hf; [lia|]. cbn [computeFeeSum].
  rewrite (Query_range _ _ _ Hlog) by (done || cbn; lia). cbn [fq_NumMaxEvents fq_IndexOffset fq_StartTime fq_EndTime ts_ForwardingEvents ts_LastIndexOffset].
  rewrite Nat2Z.id. set (rest := drop k (in_range start stop evs)) in *. destruct (length (take _ rest) =? 0)%nat eqn:E.
  - apply Nat.eqb_eq in E. rewrite length_take in E. assert (rest = []) as -> by (apply nil_length_inv; lia).
    cbn. rewrite Z.add_0_r. by rewrite u64_id.
  - apply Nat.eqb_neq in E. rewrite length_take in E.
    assert (length (in_range start stop evs) <= length evs)%nat by apply in_range_length.
    assert (length rest = length (in_range start stop evs) - k)%nat as Hr by apply length_drop.
    rewrite length_take, <- Nat2Z.inj_add. rewrite IH.
    + f_equal. f_equal. rewrite add_fees_u64 by done. rewrite <- drop_drop. fold rest.
      replace (drop (Z.to_nat 1000 `min` length rest) rest) with (drop (Z.to_nat 1000) rest).
      2:{ destruct (Nat.min_spec (Z.to_nat 1000) (length rest)) as [[_ ->]|[? ->]]; [done|]. by rewrite !drop_ge by lia. }
      rewrite <- (take_drop (Z.to_nat 1000) rest) at 3. rewrite fees_of_app. unfold u64. rewrite Zplus_mod_idemp_l. f_equal. lia.
    + rewrite add_fees_u64 by done. unfold is_u64, u64. apply Z.mod_pos_bound. lia.
    + lia.
    + rewrite <- drop_drop. fold rest. rewrite length_drop. lia.
Qed.

(** C26: The report adds up the fees of the payments forwarded in the last day, week and
    month, each of them once, over as many pages of the log as there are; the loop over the
    pages ends. *)
Theorem fee_report_exact fuel now edges flush db evs :
  flog db evs -> 24 * 30 * hour <= now < 2 ^ 63 -> Z.of_nat (length evs) < 2 ^ 31 -> (length evs < fuel)%nat ->
  let earned hours := ToSatoshis (u64 (fees_of (in_range (now - hours * hour) now evs))) in
  exists resp, FeeReport fuel now (Ok edges) flush db = Some (Ok resp)
    /\ fr_DayFeeSum resp = earned 24 /\ fr_WeekFeeSum resp = earned (24 * 7) /\ fr_MonthFeeSum resp = earned (24 * 30)
    /\ map cf_ChanPoint (fr_ChannelFees resp) = map eg_ChannelPoint edges.
Proof.
  intros Hlog Hnow Hn Hf earned.
  assert (forall hours, 0 <= hours <= 24 * 30 -> computeFeeSum fuel (since now hours) 0 db
            = Some (Ok (u64 (fees_of (in_range (now - hours * hour) now evs))))) as Hsum.
  { intros hours Hh. unfold since. change 0 with (Z.of_nat 0) at 1. assert (0 < hour) by done. rewrite (computeFeeSum_pages db evs); [by rewrite drop_0|done|nia|lia|done|done|lia|].
    rewrite drop_0. pose proof (in_range_length (now - hours * hour) now evs). lia. }
  unfold FeeReport. rewrite !Hsum by lia. eexists. split; [done|]. cbn. do 3 (split; [done|]). rewrite map_map. done.
Qed.

(** ** The history *)

(** A client that asks for page after page until one is empty. *)
Fixpoint whole_history (fuel : nat) (now : Z) (req : ForwardingHistoryRequest) (db : forwarding_db) : option (list rpcForwardingEvent) :=
  match fuel with
  | O => None
  | S fuel =>
      match ForwardingHistory now (Ok tt) req db with
      | Err _ => None
      | Ok resp =>
          if (length (fh_ForwardingEvents resp) =? 0)%nat then Some []
          else app (fh_ForwardingEvents resp)
                 <$> whole_history fuel now
                       (mkForwardingHistoryRequest (fh_StartTime req) (fh_EndTime req) (fh_LastOffsetIndex resp) (fh_NumMaxEvents req)) db
      end
  end.

(** A page of the forwarding history holds the next events of the range that was asked
    for, and the pages a client gets by asking again from the offset it was given are the
    whole range, each event once and in order. *)
Theorem history_pages fuel now req db evs :
  flog db evs -> 0 <= fq_StartTime (history_query now req) < 2 ^ 63 -> 0 <= fq_EndTime (history_query now req) < 2 ^ 63 ->
  0 <= fh_NumMaxEvents req < 2 ^ 32 -> Z.of_nat (length evs) < 2 ^ 31 -> 0 <= fh_IndexOffset req <= Z.of_nat (length evs) ->
  (length evs < fuel)%nat ->
  let events := in_range (fq_StartTime (history_query now req)) (fq_EndTime (history_query now req)) evs in
  whole_history fuel now req db = Some (map marshalEvent (drop (Z.to_nat (fh_IndexOffset req)) events)).
Proof.
  intros Hlog Hs He Hm Hn Ho Hf events. assert (length (drop (Z.to_nat (fh_IndexOffset req)) events) < fuel)%nat as Hfuel.
  { rewrite length_drop. pose proof (in_range_length (fq_StartTime (history_query now req)) (fq_EndTime (history_query now req)) evs). subst events. lia. }
  clear Hf. subst events. revert req Hs He Hm Ho Hfuel. induction fuel as [|fuel IH]; intros req Hs He Hm Ho Hf; [lia|].
  cbn [whole_history]. unfold ForwardingHistory. set (q := history_query now req) in *.
  assert (fq_IndexOffset q = fh_IndexOffset req) as Eo by (subst q; unfold history_query; by destruct (_ && _)).
  assert (0 < fq_NumMaxEvents q < 2 ^ 32) as Hq.
  { assert (fq_NumMaxEvents q = if fh_NumMaxEvents req =? 0 then 100 else fh_NumMaxEvents req) as -> by (subst q; unfold history_query; by destruct (_ && _)).
    destruct (Z.eqb_spec (fh_NumMaxEvents req) 0); lia. }
  rewrite (Query_range q db evs Hlog) by lia. cbn [ts_ForwardingEvents ts_LastIndexOffset fh_ForwardingEvents fh_LastOffsetIndex]. rewrite Eo, length_map.
  set (rest := drop (Z.to_nat (fh_IndexOffset req)) (in_range (fq_StartTime q) (fq_EndTime q) evs)) in *.
  destruct (length (take _ rest) =? 0)%nat eqn:E.
  - apply Nat.eqb_eq in E. rewrite length_take in E. assert (rest = []) as -> by (apply nil_length_inv; lia). done.
  - apply Nat.eqb_neq in E. rewrite length_take in E.
    pose proof (in_range_length (fq_StartTime q) (fq_EndTime q) evs) as Hl. assert (length rest = length (in_range (fq_StartTime q) (fq_EndTime q) evs) - Z.to_nat (fh_IndexOffset req))%nat as Hr by apply length_drop.
    set (req' := mkForwardingHistoryRequest _ _ _ _).
    assert (fq_StartTime (history_query now req') = fq_StartTime q /\ fq_EndTime (history_query now req') = fq_EndTime q) as [E1 E2]
      by (subst q req'; unfold history_query; cbn; by destruct (_ && _)).
    assert (drop (Z.to_nat (fh_IndexOffset req')) (in_range (fq_StartTime q) (fq_EndTime q) evs) = drop (Z.to_nat (fq_NumMaxEvents q)) rest) as Ed.
    { subst req'. cbn [fh_IndexOffset]. rewrite length_take, Z2Nat.inj_add, Nat2Z.id by lia. rewrite <- drop_drop. fold rest.
      destruct (Nat.min_spec (Z.to_nat (fq_NumMaxEvents q)) (length rest)) as [[_ ->]|[? ->]]; [done|]. by rewrite !drop_ge by lia. }
    rewrite (IH req'); rewrite ?E1, ?E2; try done.
    + rewrite Ed. cbn [fmap option_fmap option_map]. by rewrite <- map_app, take_drop.
    + subst req'. cbn [fh_IndexOffset]. rewrite length_take. lia.
    + rewrite Ed, length_drop. lia.
Qed.

(** * Channel policies over RPC *)

(** ** [float64] *)

Definition float64 : Type := spec_float.
Definition f64_of_Z (z : Z) : float64 := binary_normalize 53 1024 z 0 false.
Definition f64_mul : float64 -> float64 -> float64 := SFmul 53 1024.
Definition f64_div : float64 -> float64 -> float64 := SFdiv 53 1024.

(** The integral part, when there is one. *)
Definition f64_trunc (x : float64) : option Z :=
  match x with
  | S754_zero _ => Some 0
  | S754_finite s m e =>
      let a := if 0 <=? e then Z.pos m * 2 ^ e else Z.pos m / 2 ^ (- e) in
      Some (if s then - a else a)
  | _ => None
  end.

(** The conversion to [uint32]; what it gives for a value that does not fit depends on the
    machine. *)
Definition f64_to_u32 (unfit : float64 -> Z) (x : float64) : Z :=
  match f64_trunc x with
  | Some z => if (0 <=? z) && (z <? 2 ^ 32) then z else unfit x
  | None => unfit x
  end.

(** ** The call *)

Definition feeBaseF : float64 := f64_of_Z 1000000.

(** 1e-6, rounded to the nearest [float64] *)
Definition minFeeRate : float64 := f64_div (f64_of_Z 1) (f64_of_Z 1000000).

Definition minTimeLockDelta : Z := 4.

Inductive policy_scope := ScopeGlobal | ScopeChanPoint (p : rpcChannelPoint) | ScopeUnset.

Record PolicyUpdateRequest := mkPolicyUpdateRequest {
  pu_Scope : policy_scope;
  pu_BaseFeeMsat : Z;
  pu_FeeRate : float64;
  pu_TimeLockDelta : Z
}.

(** [routing.ChannelPolicy] and the fields of [htlcswitch.ForwardingPolicy] that are set. *)
Record ChannelPolicy := mkChannelPolicy { cp_BaseFee : Z; cp_FeeRate : Z; cp_TimeLockDelta : Z }.

(** The calls that are made. *)
Inductive policy_call :=
  | PropagateChanPolicyUpdate (p : ChannelPolicy) (targets : list OutPoint)
  | UpdateForwardingPolicies (p : ChannelPolicy) (targets : list OutPoint).

Definition target_chans (scope : policy_scope) : res (list OutPoint) :=
  match scope with
  | ScopeGlobal => Ok []
  | ScopeChanPoint p => point ← chan_point p; mret [point]
  | ScopeUnset => Err (ErrNew "unknown scope")
  end.

(** An error of the switch is logged. *)
Definition UpdateChannelPolicy (unfit : float64 -> Z) (gossiper switch : ChannelPolicy -> list OutPoint -> res ()) (req : PolicyUpdateRequest) :
    list policy_call * res () :=
  match target_chans (pu_Scope req) with
  | Err e => ([], Err e)
  | Ok targetChans =>
      if SFltb (pu_FeeRate req) minFeeRate then ([], Err (ErrNew "fee rate is too small"))
      else if pu_TimeLockDelta req <? minTimeLockDelta then ([], Err (ErrNew "time lock delta is too small"))
      else
        let feeRateFixed := f64_to_u32 unfit (f64_mul (pu_FeeRate req) feeBaseF) in
        let baseFeeMsat := u64 (pu_BaseFeeMsat req) in
        let chanPolicy := mkChannelPolicy baseFeeMsat feeRateFixed (pu_TimeLockDelta req) in
        match gossiper chanPolicy targetChans with
        | Err e => ([PropagateChanPolicyUpdate chanPolicy targetChans], Err e)
        | Ok _ =>
            let p := mkChannelPolicy baseFeeMsat (u64 feeRateFixed) (pu_TimeLockDelta req) in
            match switch p targetChans with
            | Err _ | Ok _ =>
                ([PropagateChanPolicyUpdate chanPolicy targetChans; UpdateForwardingPolicies p targetChans], Ok tt)
            end
        end
  end.

(** ** What is announced *)

Lemma f64_to_u32_range unfit x : (forall y, 0 <= unfit y < 2 ^ 32) -> 0 <= f64_to_u32 unfit x < 2 ^ 32.
Proof.
  intros H. unfold f64_to_u32. destruct (f64_trunc x) as [z|]; [|apply H]. destruct (Z.leb_spec 0 z), (Z.ltb_spec z (2 ^ 32)); cbn [andb]; try apply H. lia.
Qed.

(** The switch enforces what the gossiper announces, for the same channels, and only after
    it was announced; the policy has a rate of the protocol and a time lock that is large
    enough; and a request that is refused changes nothing. *)
Theorem policy_consistent unfit gossiper switch req calls r :
  (forall y, 0 <= unfit y < 2 ^ 32) -> UpdateChannelPolicy unfit gossiper switch req = (calls, r) ->
  match r with
  | Ok _ => exists p targets, calls = [PropagateChanPolicyUpdate p targets; UpdateForwardingPolicies p targets]
      /\ gossiper p targets = Ok tt /\ target_chans (pu_Scope req) = Ok targets /\ 0 <= cp_FeeRate p < 2 ^ 32
      /\ cp_TimeLockDelta p = pu_TimeLockDelta req /\ minTimeLockDelta <= cp_TimeLockDelta p
  | Err e => calls = [] \/ exists p targets, calls = [PropagateChanPolicyUpdate p targets] /\ gossiper p targets = Err e
  end.
Proof.
  intros Hu. unfold UpdateChannelPolicy. destruct (target_chans (pu_Scope req)) as [targets|e]; [|intros [= <- <-]; by left].
  destruct (SFltb _ _); [intros [= <- <-]; by left|]. destruct (Z.ltb_spec (pu_TimeLockDelta req) minTimeLockDelta); [intros [= <- <-]; by left|].
  set (rate := f64_to_u32 unfit _). assert (0 <= rate < 2 ^ 32) as Hr by (by apply f64_to_u32_range).
  rewrite (u64_id rate) by (unfold is_u64; lia). set (p := mkChannelPolicy _ rate _). destruct (gossiper p targets) as [[]|e] eqn:Eg.
  - intros Hc. assert (calls = [PropagateChanPolicyUpdate p targets; UpdateForwardingPolicies p targets] /\ r = Ok tt) as [-> ->]
      by (destruct (switch p targets); by injection Hc as <- <-).
    exists p, targets. done.
  - intros [= <- <-]. right. by exists p, targets.
Qed.

(** ** The rate *)

(** The rate [FeeReport] shows for [n] millionths. *)
Definition shown_rate (n : Z) : float64 := f64_div (f64_of_Z n) feeBaseF.

Definition fixed_rate (x : float64) : option Z := f64_trunc (f64_mul x feeBaseF).

Definition rate_lost (n : Z) : Z := match fixed_rate (shown_rate n) with Some m => n - m | None => -1 end.

Definition millionths : list Z := map Z.of_nat (seq 1 300).

Lemma rate_near_range :
  forallb (fun n => (0 <=? rate_lost n) && (rate_lost n <=? 1) && negb (SFltb (shown_rate n) minFeeRate)) millionths = true.
Proof. vm_compute. reflexivity. Qed.

(** A rate of up to 300 millionths that is shown can be set again; it comes back no higher, and
    lower by at most a millionth. *)
Theorem rate_near n : 1 <= n <= 300 -> SFltb (shown_rate n) minFeeRate = false /\ exists m, fixed_rate (shown_rate n) = Some m /\ n - 1 <= m <= n.
Proof.
  intros Hn. pose proof (proj1 (forallb_forall _ _) rate_near_range n) as H. rewrite !andb_true_iff, negb_true_iff, !Z.leb_le in H.
  destruct H as [[H0 H1] Hlt].
  - apply in_map_iff. exists (Z.to_nat n). split; [lia|]. apply in_seq. lia.
  - split; [done|]. unfold rate_lost in *. destruct (fixed_rate (shown_rate n)) as [m|]; [|lia]. exists m. split; [done|lia].
Qed.

(** The product is cut off, not rounded: the rate 0.000249, which is what [FeeReport] shows
    for 249 millionths, sets 248. *)
Example rate_cut_off : fixed_rate (shown_rate 249) = Some 248.
Proof. vm_compute. reflexivity. Qed.
