(* ===== verification/RpcWallet.v ===== *)
(** * The wallet and messages over RPC

    rpcserver.go, [SendCoins], [SendMany], [NewAddress], [NewWitnessAddress],
    [GetTransactions], [SubscribeTransactions], [SignMessage] and [VerifyMessage], with the
    signer of nodesigner.go.  The wallet is a record of its operations; the curve, the hash
    and zbase32 are an interface with the laws the calls rely on. *)

From Stdlib Require Import ZArith Lia.
From Stdlib Require Import Init.Byte.
From stdpp Require Import base gmap strings numbers list.
From S2P Require Import Prelude Tx Outputs InvoiceStore RpcBase RpcInvoice.
Local Open Scope Z_scope.

Section Wallet.
Context {IE : InvoiceEnv} {RE : RpcEnv}.

(** [lnwallet.TransactionDetail]; a transaction that is not confirmed has no block. *)
Record TransactionDetail := mkTransactionDetail {
  td_Hash : bytes;
  td_Value : Z;
  td_NumConfirmations : Z;
  td_BlockHash : option bytes;
  td_BlockHeight : Z;
  td_Timestamp : Z;
  td_TotalFees : Z;
  td_DestAddresses : list Address
}.

Inductive AddressType := WitnessPubKey | NestedWitnessPubKey | UnknownAddressType.

(** The parts of the wallet and of its chain backend. *)
Record wallet := mkWallet {
  wl_EstimateFeePerVSize : Z -> res Z;
  wl_PayToAddrScript : Address -> res bytes;
  wl_SendOutputs : list TxOut -> Z -> res bytes;
  wl_NewAddress : AddressType -> res Address;
  wl_ListTransactionDetails : res (list TransactionDetail)
}.

(** ** Coins *)

(** The pairs are the entries of the map in the order of the iteration. *)
Fixpoint addrPairsToOutputs (w : wallet) (addrPairs : list (bytes * Z)) : res (list TxOut) :=
  match addrPairs with
  | [] => Ok []
  | (addr, amt) :: rest =>
      a ← DecodeAddress addr;
      pkscript ← wl_PayToAddrScript w a;
      outputs ← addrPairsToOutputs w rest;
      mret (mkTxOut amt pkscript :: outputs)
  end.

(** What is asked of the wallet, and the result. *)
Definition sendCoinsOnChain (w : wallet) (paymentMap : list (bytes * Z)) (feeRate : Z) : list (list TxOut * Z) * res bytes :=
  match addrPairsToOutputs w paymentMap with
  | Err e => ([], Err e)
  | Ok outputs => ([(outputs, feeRate)], wl_SendOutputs w outputs feeRate)
  end.

Definition SendMany (w : wallet) (TargetConf SatPerByte : Z) (AddrToAmount : list (bytes * Z)) : list (list TxOut * Z) * res bytes :=
  match determineFeePerVSize (wl_EstimateFeePerVSize w) TargetConf SatPerByte with
  | Err e => ([], Err e)
  | Ok feeRate =>
      match sendCoinsOnChain w AddrToAmount feeRate with
      | (calls, Err e) => (calls, Err e)
      | (calls, Ok txid) => (calls, Ok (hash_String txid))
      end
  end.

Definition SendCoins (w : wallet) (TargetConf SatPerByte : Z) (Addr : bytes) (Amount : Z) : list (list TxOut * Z) * res bytes :=
  match determineFeePerVSize (wl_EstimateFeePerVSize w) TargetConf SatPerByte with
  | Err e => ([], Err e)
  | Ok feeRate =>
      match sendCoinsOnChain w [(Addr, Amount)] feeRate with
      | (calls, Err e) => (calls, Err e)
      | (calls, Ok txid) => (calls, Ok (hash_String txid))
      end
  end.

(** The type of the request: 0 is WITNESS_PUBKEY_HASH, 1 is NESTED_PUBKEY_HASH; any other
    leaves the zero value. *)
Definition NewAddress (w : wallet) (type : Z) : res bytes :=
  let addrType := if type =? 1 then NestedWitnessPubKey else WitnessPubKey in
  addr ← wl_NewAddress w addrType;
  mret (AddressString addr).

Definition NewWitnessAddress (w : wallet) : res bytes :=
  addr ← wl_NewAddress w NestedWitnessPubKey;
  mret (AddressString addr).

(** The output pays the pair. *)
Definition pays (w : wallet) (pair : bytes * Z) (out : TxOut) : Prop :=
  exists a, DecodeAddress (fst pair) = Ok a /\ wl_PayToAddrScript w a = Ok (txo_PkScript out) /\ txo_Value out = snd pair.

Lemma addrPairs_pay w pairs outs : addrPairsToOutputs w pairs = Ok outs <-> Forall2 (pays w) pairs outs.
Proof.
  revert outs. induction pairs as [|[addr amt] pairs IH]; intros outs; cbn [addrPairsToOutputs].
  - split; [intros [= <-]; constructor|by inversion 1].
  - split.
    + intros (a & Ha & (s & Hs & (os & Ho & H)%res_bind_Ok_inv)%res_bind_Ok_inv)%res_bind_Ok_inv. injection H as <-. constructor; [|by apply IH].
      by exists a.
    + inversion 1 as [|? [v s] ? os (a & Ha & Hs & Hv) HF]; subst. cbn in *. subst. rewrite Ha. cbn. rewrite Hs. cbn.
      apply IH in HF. rewrite HF. done.
Qed.

(** The order of the iteration does not matter. *)
#[global] Instance addrPairs_order w : Proper ((≡ₚ) ==> (fun r r' => match r, r' with Ok o, Ok o' => o ≡ₚ o' | Err _, Err _ => True | _, _ => False end)) (addrPairsToOutputs w).
Proof.
  intros l l' Hl. assert (forall l l' o, l ≡ₚ l' -> addrPairsToOutputs w l = Ok o -> exists o', addrPairsToOutputs w l' = Ok o' /\ o ≡ₚ o') as H.
  { intros l1 l2 o Hp H. apply addrPairs_pay in H. destruct (Permutation_Forall2 Hp H) as (o' & ? & ?).
    exists o'. split; [by apply addrPairs_pay|done]. }
  destruct (addrPairsToOutputs w l) as [o|e] eqn:E.
  - destruct (H l l' o Hl E) as (o' & -> & ?). done.
  - destruct (addrPairsToOutputs w l') as [o'|e'] eqn:E'; [|done]. destruct (H l' l o' (symmetry Hl) E') as (o & Ho & _). congruence.
Qed.

(** The wallet is asked at most once, for one output per entry that pays its amount to its
    address at the rate the request asks for; for an address that cannot be paid nothing is
    asked. *)
Theorem send_many_pays w TargetConf SatPerByte pairs calls r :
  SendMany w TargetConf SatPerByte pairs = (calls, r) ->
  (forall outs rate, (outs, rate) ∈ calls -> calls = [(outs, rate)] /\ Forall2 (pays w) pairs outs
     /\ determineFeePerVSize (wl_EstimateFeePerVSize w) TargetConf SatPerByte = Ok rate
     /\ r = match wl_SendOutputs w outs rate with Ok txid => Ok (hash_String txid) | Err e => Err e end)
  /\ (calls = [] -> is_ok r = false)
  /\ (forall addr amt, (addr, amt) ∈ pairs -> is_ok (DecodeAddress addr) = false -> calls = []).
Proof.
  unfold SendMany, sendCoinsOnChain. destruct (determineFeePerVSize _ TargetConf SatPerByte) as [rate|e] eqn:Ef.
  2:{ intros [= <- <-]. split; [by intros ? ? ?%not_elem_of_nil|]. done. }
  destruct (addrPairsToOutputs w pairs) as [outs|e] eqn:Eo.
  2:{ intros [= <- <-]. split; [by intros ? ? ?%not_elem_of_nil|]. done. }
  pose proof (proj1 (addrPairs_pay w pairs outs) Eo) as HF. intros H.
  assert (calls = [(outs, rate)] /\ r = match wl_SendOutputs w outs rate with Ok txid => Ok (hash_String txid) | Err e => Err e end) as [-> ->]
    by (destruct (wl_SendOutputs w outs rate); by injection H as <- <-).
  split; [|split; [done|]].
  - intros o ra [= -> ->]%list_elem_of_singleton. done.
  - intros addr amt [i Hi]%list_elem_of_lookup Hd. destruct (Forall2_lookup_l _ _ _ _ _ HF Hi) as (o & _ & (a & Ha & _)). cbn in Ha. by rewrite Ha in Hd.
Qed.

Lemma SendCoins_is_SendMany w TargetConf SatPerByte Addr Amount :
  SendCoins w TargetConf SatPerByte Addr Amount = SendMany w TargetConf SatPerByte [(Addr, Amount)].
Proof. reflexivity. Qed.

(** ** Transactions *)

Record rpcTransaction := mkRpcTransaction {
  tr_TxHash : bytes;
  tr_Amount : Z;
  tr_NumConfirmations : Z;
  tr_BlockHash : bytes;
  tr_BlockHeight : Z;
  tr_TimeStamp : Z;
  tr_TotalFees : Z;
  tr_DestAddresses : list bytes
}.

(** [tx.BlockHash.String()] dereferences the pointer. *)
Definition block_string (h : option bytes) : res bytes :=
  match h with None => Err (ErrPanic "nil pointer") | Some h => Ok (hash_String h) end.

Definition marshalTransaction (tx : TransactionDetail) : res rpcTransaction :=
  blockHash ← block_string (td_BlockHash tx);
  mret (mkRpcTransaction (hash_String (td_Hash tx)) (td_Value tx) (td_NumConfirmations tx) blockHash (td_BlockHeight tx)
          (td_Timestamp tx) (td_TotalFees tx) (map AddressString (td_DestAddresses tx))).

Definition GetTransactions (w : wallet) : res (list rpcTransaction) :=
  match wl_ListTransactionDetails w with
  | Err e => Err e
  | Ok transactions => res_foldl (fun l tx => t ← marshalTransaction tx; mret (l ++ [t])) [] transactions
  end.

(** What arrives on the two channels of the subscription. *)
Inductive tx_event := ConfirmedTransaction (tx : TransactionDetail) | UnconfirmedTransaction (tx : TransactionDetail).

Definition marshal_tx_event (ev : tx_event) : res rpcTransaction :=
  match ev with
  | ConfirmedTransaction tx =>
      blockHash ← block_string (td_BlockHash tx);
      mret (mkRpcTransaction (hash_String (td_Hash tx)) (td_Value tx) (td_NumConfirmations tx) blockHash 0 (td_Timestamp tx) (td_TotalFees tx) [])
  | UnconfirmedTransaction tx =>
      mret (mkRpcTransaction (hash_String (td_Hash tx)) (td_Value tx) 0 [] 0 (td_Timestamp tx) (td_TotalFees tx) [])
  end.

Definition SubscribeTransactions (client : res ()) (evs : list (feed tx_event)) : list rpcTransaction * option (res ()) :=
  match client with Err e => ([], Some (Err e)) | Ok _ => feed_loop marshal_tx_event evs [] end.

Definition confirmed (tx : TransactionDetail) : bool := match td_BlockHash tx with Some _ => true | None => false end.

Lemma transactions_loop txs acc :
  res_foldl (fun l tx => t ← marshalTransaction tx; mret (l ++ [t])) acc txs
  = if forallb confirmed txs then
      Ok (acc ++ map (fun tx => mkRpcTransaction (hash_String (td_Hash tx)) (td_Value tx) (td_NumConfirmations tx)
                                  (match td_BlockHash tx with Some h => hash_String h | None => [] end) (td_BlockHeight tx)
                                  (td_Timestamp tx) (td_TotalFees tx) (map AddressString (td_DestAddresses tx))) txs)
    else Err (ErrPanic "nil pointer").
Proof.
  revert acc. induction txs as [|tx txs IH]; intros acc; cbn [res_foldl forallb]; [by rewrite app_nil_r|].
  unfold marshalTransaction at 1, confirmed at 1, block_string. destruct (td_BlockHash tx) as [h|] eqn:E; cbn [mbind res_bind mret res_ret andb]; [|done].
  rewrite IH. destruct (forallb confirmed txs); [|done]. cbn [map]. by rewrite E, <- app_assoc.
Qed.

(** The transactions of the wallet are listed in its order when all of them are confirmed;
    with one that is not, the call panics. *)
Lemma unconfirmed_panics w txs :
  wl_ListTransactionDetails w = Ok txs ->
  if forallb confirmed txs then exists l, GetTransactions w = Ok l /\ map tr_TxHash l = map (fun tx => hash_String (td_Hash tx)) txs
  else GetTransactions w = Err (ErrPanic "nil pointer").
Proof.
  intros E. unfold GetTransactions. rewrite E, transactions_loop. destruct (forallb confirmed txs); [|done]. eexists. split; [done|].
  cbn [app]. by rewrite map_map.
Qed.
End Wallet.

(** ** Messages *)

(** [DoubleHashB], the signature from which the key is recovered, and zbase32. *)
Class MessageCrypto {BTC : Btcec} := {
  PubKey : PrivateKey -> PublicKey;
  Signature : Type;
  DoubleHashB : bytes -> bytes;
  ecdsa_Sign : PrivateKey -> bytes -> res Signature;
  ecdsa_SignCompact : PrivateKey -> bytes -> bool -> res bytes;
  RecoverCompact : bytes -> bytes -> res PublicKey;
  zbase32_Encode : bytes -> bytes;
  zbase32_Decode : bytes -> res bytes;
  RecoverCompact_SignCompact k h c sig : ecdsa_SignCompact k h c = Ok sig -> RecoverCompact sig h = Ok (PubKey k);
  zbase32_Decode_Encode b : zbase32_Decode (zbase32_Encode b) = Ok b
}.

Section Messages.
Context {BTC : Btcec} {MC : MessageCrypto}.

Record nodeSigner := mkNodeSigner { ns_privKey : PrivateKey }.

Definition SignDigestCompact (n : nodeSigner) (hash : bytes) : res bytes :=
  match ecdsa_SignCompact (ns_privKey n) hash true with
  | Err _ => Err (ErrNew "can't sign the hash")
  | Ok sig => Ok sig
  end.

Definition SignCompact (n : nodeSigner) (msg : bytes) : res bytes := SignDigestCompact n (DoubleHashB msg).

(** [nodeSigner.SignMessage], for the gossiper. *)
Definition signer_SignMessage (n : nodeSigner) (pubKey : PublicKey) (msg : bytes) : res Signature :=
  if decide (pubKey = PubKey (ns_privKey n)) then
    match ecdsa_Sign (ns_privKey n) (DoubleHashB msg) with
    | Err _ => Err (ErrNew "can't sign the message")
    | Ok sign => Ok sign
    end
  else Err (ErrNew "unknown public key").

(** [None] is a nil message. *)
Definition SignMessage (n : nodeSigner) (Msg : option bytes) : res bytes :=
  match Msg with
  | None => Err (ErrNew "need a message to sign")
  | Some msg => sigBytes ← SignCompact n msg; mret (zbase32_Encode sigBytes)
  end.

Record VerifyMessageResponse := mkVerifyMessageResponse { vm_Valid : bool; vm_Pubkey : bytes }.

(** [HasLightningNode] says whether the graph has a node. *)
Definition VerifyMessage (HasLightningNode : bytes -> res bool) (Msg : option bytes) (Sig : bytes) : res VerifyMessageResponse :=
  match Msg with
  | None => Err (ErrNew "need a message to verify")
  | Some msg =>
      match zbase32_Decode Sig with
      | Err _ => Err (ErrNew "failed to decode signature")
      | Ok sig =>
          match RecoverCompact sig (DoubleHashB msg) with
          | Err _ => Ok (mkVerifyMessageResponse false [])
          | Ok pubKey =>
              match HasLightningNode (SerializeCompressed pubKey) with
              | Err _ => Err (ErrNew "failed to query graph")
              | Ok active => Ok (mkVerifyMessageResponse active (hex_EncodeToString (SerializeCompressed pubKey)))
              end
          end
      end
  end.

(** What a node signs verifies at every node that has the signer in its graph, and shows
    the signer's key; a node that does not have it calls the message invalid. *)
Theorem sign_verify n msg sig HasLightningNode active :
  SignMessage n (Some msg) = Ok sig -> HasLightningNode (SerializeCompressed (PubKey (ns_privKey n))) = Ok active ->
  VerifyMessage HasLightningNode (Some msg) sig
  = Ok (mkVerifyMessageResponse active (hex_EncodeToString (SerializeCompressed (PubKey (ns_privKey n))))).
Proof.
  unfold SignMessage, SignCompact, SignDigestCompact. destruct (ecdsa_SignCompact _ _ true) as [b|] eqn:E; [|done].
  cbn [mbind res_bind mret res_ret]. intros [= <-] Hg. unfold VerifyMessage. rewrite zbase32_Decode_Encode, (RecoverCompact_SignCompact _ _ _ _ E), Hg. done.
Qed.
End Messages.
