(* ===== verification/RpcGraph.v ===== *)
(** * The channel graph over RPC

    rpcserver.go, [DescribeGraph], [GetChanInfo], [GetNodeInfo], [QueryRoutes] and
    [SubscribeChannelGraph], and server.go, [parseHexColor].  The graph and the router are
    arguments; times are in seconds, an address is its network and its text. *)

From Stdlib Require Import ZArith Lia.
From Stdlib Require Import Init.Byte.
From stdpp Require Import base gmap strings numbers list.
From S2P Require Import Prelude Stream Tx Outputs Effects Sweep InvoiceStore Preimages RpcBase RpcInvoice RpcPay RpcInfo RpcOpen.
Local Open Scope Z_scope.

(** ** Colors *)

Record RGBA := mkRGBA { cl_R : byte; cl_G : byte; cl_B : byte }.

(** [fmt.Sprintf("#%02x%02x%02x", ...)] *)
Definition nodeColor (c : RGBA) : bytes := x23 :: hex_EncodeToString [cl_R c; cl_G c; cl_B c].

Definition parseHexColor (colorStr : bytes) : res RGBA :=
  match colorStr with
  | x23 :: digits =>
      if (length colorStr =? 7)%nat then
        colorBytes ← hex_DecodeString digits;
        match colorBytes with
        | [r; g; b] => Ok (mkRGBA r g b)
        | _ => Err (ErrPanic "index out of range")
        end
      else Err (ErrNew "Color must be in format #RRGGBB")
  | _ => Err (ErrNew "Color must be in format #RRGGBB")
  end.

(** The color a node announces is shown as it was configured. *)
Lemma color_roundtrip c : parseHexColor (nodeColor c) = Ok c.
Proof.
  unfold parseHexColor, nodeColor. cbn [length]. rewrite hex_length. cbn [length Nat.mul Nat.add Nat.eqb]. rewrite hex_roundtrip. by destruct c.
Qed.

(** ** Nodes and channels *)

Record ChannelEdgePolicy := mkChannelEdgePolicy {
  ep_LastUpdate : Z;
  ep_TimeLockDelta : Z;
  ep_MinHTLC : Z;
  ep_FeeBaseMSat : Z;
  ep_FeeProportionalMillionths : Z
}.

Record ChannelEdgeInfo := mkChannelEdgeInfo {
  ei_ChannelID : Z;
  ei_ChannelPoint : OutPoint;
  ei_NodeKey1Bytes : bytes;
  ei_NodeKey2Bytes : bytes;
  ei_Capacity : Z
}.

Definition dbEdge : Type := ChannelEdgeInfo * option ChannelEdgePolicy * option ChannelEdgePolicy.

Record dbNode := mkDbNode {
  dn_LastUpdate : Z;
  dn_PubKeyBytes : bytes;
  dn_Addresses : list (bytes * bytes);
  dn_Alias : bytes;
  dn_Color : RGBA
}.

(** [lnrpc.RoutingPolicy], [lnrpc.ChannelEdge], [lnrpc.LightningNode] and [lnrpc.NodeInfo] *)
Record RoutingPolicy := mkRoutingPolicy {
  rp_TimeLockDelta : Z;
  rp_MinHtlc : Z;
  rp_FeeBaseMsat : Z;
  rp_FeeRateMilliMsat : Z
}.

Record ChannelEdge := mkChannelEdge {
  ce_ChannelId : Z;
  ce_ChanPoint : bytes;
  ce_LastUpdate : Z;
  ce_Node1Pub : bytes;
  ce_Node2Pub : bytes;
  ce_Capacity : Z;
  ce_Node1Policy : option RoutingPolicy;
  ce_Node2Policy : option RoutingPolicy
}.

Record LightningNode := mkLightningNode {
  ln_LastUpdate : Z;
  ln_PubKey : bytes;
  ln_Addresses : list (bytes * bytes);
  ln_Alias : bytes;
  ln_Color : bytes
}.

Record NodeInfo := mkNodeInfo { ni_Node : LightningNode; ni_NumChans : Z; ni_TotalCapacity : Z }.

Definition ErrGraphNoEdgesFound : goerr := ErrNew "no graph edges exist".

Section Graph.
Context (OutPointString : OutPoint -> bytes).

Definition marshalPolicy (c : ChannelEdgePolicy) : RoutingPolicy :=
  mkRoutingPolicy (u32 (ep_TimeLockDelta c)) (i64 (ep_MinHTLC c)) (i64 (ep_FeeBaseMSat c)) (i64 (ep_FeeProportionalMillionths c)).

(** The update of the first policy is shown when there is one. *)
Definition marshalDbEdge (edge : dbEdge) : ChannelEdge :=
  let '(edgeInfo, c1, c2) := edge in
  let lastUpdate := match c1, c2 with Some p, _ => ep_LastUpdate p | None, Some p => ep_LastUpdate p | None, None => 0 end in
  mkChannelEdge (ei_ChannelID edgeInfo) (OutPointString (ei_ChannelPoint edgeInfo)) (u32 lastUpdate)
    (hex_EncodeToString (ei_NodeKey1Bytes edgeInfo)) (hex_EncodeToString (ei_NodeKey2Bytes edgeInfo)) (ei_Capacity edgeInfo)
    (marshalPolicy <$> c1) (marshalPolicy <$> c2).

Definition marshalNode (n : dbNode) : LightningNode :=
  mkLightningNode (u32 (dn_LastUpdate n)) (hex_EncodeToString (dn_PubKeyBytes n)) (dn_Addresses n) (dn_Alias n) (nodeColor (dn_Color n)).

(** [nodes] and [edges] are what [ForEachNode] and [ForEachChannel] go through. *)
Definition DescribeGraph (nodes : res (list dbNode)) (edges : res (list dbEdge)) : res (list LightningNode * list ChannelEdge) :=
  match nodes with
  | Err e => Err e
  | Ok ns =>
      match edges with
      | Ok es => Ok (map marshalNode ns, map marshalDbEdge es)
      | Err e => if decide (e = ErrGraphNoEdgesFound) then Ok (map marshalNode ns, []) else Err e
      end
  end.

Definition GetChanInfo (FetchChannelEdgesByID : Z -> res dbEdge) (ChanId : Z) : res ChannelEdge :=
  edge ← FetchChannelEdgesByID ChanId;
  mret (marshalDbEdge edge).

(** [FetchLightningNode] finds a node and the capacities of its channels; the key is shown as
    it was asked for. *)
Definition GetNodeInfo {BTC : Btcec} (FetchLightningNode : PublicKey -> res (dbNode * res (list Z))) (PubKey : bytes) : res NodeInfo :=
  pubKeyBytes ← hex_DecodeString PubKey;
  pubKey ← ParsePubKey pubKeyBytes;
  found ← FetchLightningNode pubKey;
  let (node, channels) := (found : dbNode * res (list Z)) in
  stats ← (match channels with
           | Err e => Err e
           | Ok caps => Ok (foldl (fun st c => (u32 (fst st + 1), i64 (snd st + c))) (0, 0) caps)
           end : res (Z * Z));
  mret (mkNodeInfo (mkLightningNode (u32 (dn_LastUpdate node)) PubKey (dn_Addresses node) (dn_Alias node) (nodeColor (dn_Color node)))
          (fst stats) (snd stats)).

Lemma node_stats caps n t :
  0 <= n -> 0 <= t -> n + Z.of_nat (length caps) < 2 ^ 32 -> t + sum_Z caps < 2 ^ 63 -> Forall (fun c => 0 <= c) caps ->
  foldl (fun st c => (u32 (fst st + 1), i64 (snd st + c))) (n, t) caps = (n + Z.of_nat (length caps), t + sum_Z caps).
Proof.
  revert n t. induction caps as [|c caps IH]; intros n t Hn Ht Hln Hlt Hc; [cbn; f_equal; lia|].
  inversion_clear Hc as [|? ? Hc0 Hcs]. rewrite sum_Z_cons in *. cbn [foldl fst snd length] in *.
  assert (0 <= sum_Z caps) by (clear - Hcs; induction Hcs; rewrite ?sum_Z_cons; [done|lia]).
  rewrite u32_id, i64_id by (unfold is_u32, is_i64; lia). rewrite IH by (done || lia). f_equal; lia.
Qed.

(** The information on a node counts its channels and adds up their capacity, and is that of
    the node whose key was asked for. *)
Lemma node_info_exact {BTC : Btcec} fetch pub node caps :
  fetch pub = Ok (node, Ok caps) -> dn_PubKeyBytes node = SerializeCompressed pub ->
  Z.of_nat (length caps) < 2 ^ 32 -> sum_Z caps < 2 ^ 63 -> Forall (fun c => 0 <= c) caps ->
  GetNodeInfo fetch (hex_EncodeToString (SerializeCompressed pub)) = Ok (mkNodeInfo (marshalNode node) (Z.of_nat (length caps)) (sum_Z caps)).
Proof.
  intros Hf Hk Hl Hs Hc. unfold GetNodeInfo. rewrite hex_roundtrip. cbn [mbind res_bind]. rewrite ParsePubKey_SerializeCompressed. cbn [mbind res_bind].
  rewrite Hf. cbn [mbind res_bind]. rewrite node_stats by (done || lia). cbn. unfold marshalNode. by rewrite Hk.
Qed.
End Graph.

(** ** Routes *)

(** [make] panics for a negative capacity. *)
Definition QueryRoutes {BTC : Btcec} (FindRoutes : PublicKey -> Z -> Z -> res (list Route)) (PubKey : bytes) (Amt NumRoutes : Z) : res (list rpcRoute) :=
  pubKeyBytes ← hex_DecodeString PubKey;
  pubKey ← ParsePubKey pubKeyBytes;
  let amtMSat := NewMSatFromSatoshis Amt in
  if maxPaymentMSat <? amtMSat then Err (ErrNew "payment is too large")
  else
    routes ← FindRoutes pubKey amtMSat (u32 NumRoutes);
    let len := i32 (Z.of_nat (length routes)) in
    let numRoutes := if NumRoutes <? len then NumRoutes else len in
    if NumRoutes <? 0 then Err (ErrPanic "makeslice: cap out of range")
    else Ok (map marshallRoute (take (Z.to_nat numRoutes) routes)).

(** The routes of the router are returned in its order, at most as many as were asked for;
    for a negative number the call panics, once the router has found its routes. *)
Lemma query_routes_exact {BTC : Btcec} FindRoutes PubKey pub Amt NumRoutes routes :
  (pubKeyBytes ← hex_DecodeString PubKey; ParsePubKey pubKeyBytes) = Ok pub -> NewMSatFromSatoshis Amt <= maxPaymentMSat ->
  FindRoutes pub (NewMSatFromSatoshis Amt) (u32 NumRoutes) = Ok routes -> Z.of_nat (length routes) < 2 ^ 31 ->
  QueryRoutes FindRoutes PubKey Amt NumRoutes
  = if NumRoutes <? 0 then Err (ErrPanic "makeslice: cap out of range") else Ok (map marshallRoute (take (Z.to_nat NumRoutes) routes)).
Proof.
  intros Hk Ha Hf Hl. unfold QueryRoutes. apply res_bind_Ok_inv in Hk as (kb & -> & Hp). cbn [mbind res_bind]. rewrite Hp. cbn [mbind res_bind].
  destruct (Z.ltb_spec maxPaymentMSat (NewMSatFromSatoshis Amt)); [lia|]. rewrite Hf. cbn [mbind res_bind].
  rewrite i32_id by (unfold is_i32; lia). destruct (Z.ltb_spec NumRoutes 0); [done|].
  destruct (Z.ltb_spec NumRoutes (Z.of_nat (length routes))); [done|]. rewrite !take_ge by lia. done.
Qed.

(** ** Changes of the graph *)

Record NetworkNodeUpdate {BTC : Btcec} := mkNetworkNodeUpdate {
  nu_Addresses : list bytes;
  nu_IdentityKey : PublicKey;
  nu_GlobalFeatures : bytes;
  nu_Alias : bytes
}.

Record ChannelEdgeUpdate {BTC : Btcec} := mkChannelEdgeUpdate {
  eu_ChanID : Z;
  eu_ChanPoint : OutPoint;
  eu_Capacity : Z;
  eu_MinHTLC : Z;
  eu_BaseFee : Z;
  eu_FeeRate : Z;
  eu_TimeLockDelta : Z;
  eu_AdvertisingNode : PublicKey;
  eu_ConnectingNode : PublicKey
}.

Record ClosedChanSummary := mkClosedChanSummary {
  cl_ChanID : Z;
  cl_Capacity : Z;
  cl_ClosedHeight : Z;
  cl_ChanPoint : OutPoint
}.

Record TopologyChange {BTC : Btcec} := mkTopologyChange {
  tc_NodeUpdates : list NetworkNodeUpdate;
  tc_ChannelEdgeUpdates : list ChannelEdgeUpdate;
  tc_ClosedChannels : list ClosedChanSummary
}.

Record rpcNodeUpdate := mkRpcNodeUpdate { un_Addresses : list bytes; un_IdentityKey : bytes; un_GlobalFeatures : bytes; un_Alias : bytes }.

Record rpcEdgeUpdate := mkRpcEdgeUpdate {
  ue_ChanId : Z;
  ue_ChanPoint : rpcChannelPoint;
  ue_Capacity : Z;
  ue_RoutingPolicy : RoutingPolicy;
  ue_AdvertisingNode : bytes;
  ue_ConnectingNode : bytes
}.

Record rpcClosedUpdate := mkRpcClosedUpdate { uc_ChanId : Z; uc_Capacity : Z; uc_ClosedHeight : Z; uc_ChanPoint : rpcChannelPoint }.

Record GraphTopologyUpdate := mkGraphTopologyUpdate {
  gt_NodeUpdates : list rpcNodeUpdate;
  gt_ChannelUpdates : list rpcEdgeUpdate;
  gt_ClosedChans : list rpcClosedUpdate
}.

Section Topology.
Context {BTC : Btcec}.

Definition encodeKey (k : PublicKey) : bytes := hex_EncodeToString (SerializeCompressed k).

Definition rpc_point (p : OutPoint) : rpcChannelPoint := mkRpcChannelPoint (FundingTxidBytes (op_Hash p)) (op_Index p).

Definition marshallTopologyChange (topChange : TopologyChange) : GraphTopologyUpdate :=
  mkGraphTopologyUpdate
    (map (fun u => mkRpcNodeUpdate (nu_Addresses u) (encodeKey (nu_IdentityKey u)) (nu_GlobalFeatures u) (nu_Alias u)) (tc_NodeUpdates topChange))
    (map (fun u => mkRpcEdgeUpdate (eu_ChanID u) (rpc_point (eu_ChanPoint u)) (eu_Capacity u)
                     (mkRoutingPolicy (u32 (eu_TimeLockDelta u)) (i64 (eu_MinHTLC u)) (i64 (eu_BaseFee u)) (i64 (eu_FeeRate u)))
                     (encodeKey (eu_AdvertisingNode u)) (encodeKey (eu_ConnectingNode u))) (tc_ChannelEdgeUpdates topChange))
    (map (fun c => mkRpcClosedUpdate (cl_ChanID c) (cl_Capacity c) (cl_ClosedHeight c) (rpc_point (cl_ChanPoint c))) (tc_ClosedChannels topChange)).

(** [None] is a receive from the closed channel. *)
Definition SubscribeChannelGraph (client : res ()) (evs : list (feed (option TopologyChange))) : list GraphTopologyUpdate * option (res ()) :=
  match client with
  | Err e => ([], Some (Err e))
  | Ok _ =>
      feed_loop (fun change => match change with None => Err (ErrNew "server shutting down") | Some c => Ok (marshallTopologyChange c) end) evs []
  end.

(** A channel of an update can be given back in a request. *)
Lemma rpc_point_roundtrip p : length (op_Hash p) = 32%nat -> chan_point (rpc_point p) = Ok p.
Proof. intros H. unfold chan_point, rpc_point. cbn. unfold NewHash. rewrite H. by destruct p. Qed.

(** A subscriber is sent every change in its order, as long as the router runs and the
    stream takes them. *)
Lemma graph_changes_delivered evs :
  Forall (fun ev => delivered ev = true) evs -> Forall (fun c => exists t, c = Some t) (items evs) ->
  exists bs, SubscribeChannelGraph (Ok tt) evs = (bs, None)
    /\ Forall2 (fun c b => exists t, c = Some t /\ b = marshallTopologyChange t) (items evs) bs /\ length bs = length evs.
Proof.
  intros Hd Hc. destruct (feed_loop_all (fun change => match change with None => Err (ErrNew "server shutting down") | Some c => Ok (marshallTopologyChange c) end)
    evs [] Hd) as (bs & E & HF & Hl). { eapply Forall_impl; [done|]. by intros ? [? ->]. }
  exists bs. split; [done|]. split; [|done]. eapply Forall2_impl; [done|]. intros [t|] b; [|done]. intros [= <-]. eauto.
Qed.
End Topology.
