(* ===== verification/Pilot.v ===== *)
(** * The channel controller of the autopilot

    pilot.go: [chanController.OpenChannel], which connects to a node and opens a channel with
    it over the server ([Server]) and the funding manager, and what [initAutoPilot] passes on
    to the agent.  The agent itself is vendored; dialling a node is an input. *)

From Stdlib Require Import ZArith Lia.
From Stdlib Require Import Init.Byte.
From stdpp Require Import base gmap strings numbers list.
From S2P Require Import Prelude Stream Tx Outputs Effects OpeningState FundingManager FundingFlow Server ServerSafe ServerInv ServerProps.
From S2P Require Import InvoiceStore Preimages RpcBase RpcInfo RpcOpen RpcGraph.
Local Open Scope Z_scope.

Section Controller.
Context {BTC : Btcec}.

(** The outside of a call: the graph, what dialling an address of the target gives, the
    address of a peer for the funding manager, the estimator, the chain, and what arrives
    from the funding manager. *)
Record pilotEnv := mkPilotEnv {
  pe_graph : bytes -> option (list Addr);
  pe_dial : Addr -> res Conn;
  pe_netAddress : nat -> NetAddress;
  pe_identity : PublicKey;
  pe_estimate : Z -> res Z;
  pe_GenesisHash : bytes;
  pe_event : open_event
}.

(** [ConnectToPeer(addr, false)]: the connection is handed to the server at once. *)
Definition connect_now (env : pilotEnv) (target : bytes) (addr : Addr) : SV () :=
  _ ← ConnectToPeer target addr false;
  conn ← st_res (pe_dial env addr);
  OutboundPeerConnected (pe_graph env) None conn.

(** The loop over the addresses: whether a connection was made. *)
Fixpoint connect_any (env : pilotEnv) (target : bytes) (addrs : list Addr) : SV bool :=
  match addrs with
  | [] => mret false
  | OtherAddr _ :: _ => st_fail (ErrNew "TCP address required")
  | TCPAddr ip port :: rest =>
      r ← st_try (connect_now env target (TCPAddr ip (if port =? 0 then defaultPeerPort else port)));
      match r with
      | Ok _ => mret true
      | Err _ => connect_any env target rest
      end
  end.

(** The connection to the target, unless there is one. *)
Definition ensure_connected (env : pilotEnv) (pub : bytes) (addrs : list Addr) : SV () :=
  s ← st_get;
  match findPeerByPubStr pub s with
  | Ok _ => mret tt
  | Err _ =>
      connected ← connect_any env pub addrs;
      if connected : bool then mret tt else st_fail (ErrNew "Unable to connect")
  end.

Definition open_env (env : pilotEnv) (s : server) : openEnv :=
  mkOpenEnv true (pe_identity env) (pe_netAddress env <$> peersByPub s) (pe_estimate env) (Ok true) (pe_GenesisHash env).

(** A failed opening disconnects the peer; an error of that is logged. *)
Definition open_failed (target : bytes) (e : goerr) : SV () :=
  _ ← st_try (DisconnectPeer target);
  st_fail e.

(** With the peer connected: the request, and the first answer. *)
Definition open_with (env : pilotEnv) (target : PublicKey) (amt : Z) : SV () :=
  feePerVSize ← st_res (pe_estimate env 3);
  s ← st_get;
  match server_OpenChannel (open_env env s) target amt 0 (NewMSatFromSatoshis 1) feePerVSize false 0 with
  | Err e => open_failed (SerializeCompressed target) e
  | Ok _ =>
      match pe_event env with
      | OErr e => open_failed (SerializeCompressed target) e
      | OUpdate _ _ => mret tt
      | OQuit => mret tt
      end
  end.

Definition chanController_OpenChannel (env : pilotEnv) (target : PublicKey) (amt : Z) (addrs : list Addr) : SV () :=
  let pub := SerializeCompressed target in
  if (length addrs =? 0)%nat then st_fail (ErrNew "Unable to create channel w/o an active address")
  else
    _ ← ensure_connected env pub addrs;
    open_with env target amt.

(** ** What the agent is told *)

Record pilotChannel := mkPilotChannel { ch_ChanID : ShortChannelID; ch_Capacity : Z; ch_Node : bytes }.

Inductive pilot_call := OnChannelOpen (c : pilotChannel) | OnChannelClose (id : ShortChannelID) | OnBalanceChange (delta : Z).

(** The channels the agent starts with. *)
Definition initialChanState (activeChannels : res (list (ShortChannelID * Z * PublicKey))) : res (list pilotChannel) :=
  match activeChannels with
  | Err e => Err e
  | Ok cs => Ok (map (fun c => mkPilotChannel c.1.1 c.1.2 (SerializeCompressed c.2)) cs)
  end.

(** A change of the graph: the channels this node advertises, and all that are closed. *)
Definition on_topology (self : PublicKey) (topChange : TopologyChange) : list pilot_call :=
  concat (map (fun u => if decide (eu_AdvertisingNode u = self)
                        then [OnChannelOpen (mkPilotChannel (NewShortChanIDFromInt (eu_ChanID u)) (eu_Capacity u) (SerializeCompressed (eu_ConnectingNode u)))]
                        else []) (tc_ChannelEdgeUpdates topChange))
  ++ map (fun c => OnChannelClose (NewShortChanIDFromInt (cl_ChanID c))) (tc_ClosedChannels topChange).

(** ** The server under the controller *)

(** A call of the server that is one of its inputs. *)
Definition reaches {A} (env : pilotEnv) (identity : bytes) (m : SV A) (s : server) : Prop :=
  forall r s', m s = (r, s') -> sv_reach (pe_graph env) identity (fun _ => True) s -> sv_reach (pe_graph env) identity (fun _ => True) s'.

Lemma reaches_bind {A B} env identity (m : SV A) (f : A -> SV B) s :
  reaches env identity m s -> (forall a s', reaches env identity (f a) s') -> reaches env identity (m ≫= f) s.
Proof.
  intros Hm Hf r s' H Hs. unfold mbind, st_bind in H. destruct (m s) as [[a|e] s1] eqn:E.
  - by eapply Hf, Hm.
  - injection H as <- <-. by eapply Hm.
Qed.

Lemma reaches_pure {A} env identity (m : SV A) s : (forall s0, (m s0).2 = s0) -> reaches env identity m s.
Proof. intros Hp r s' H Hs. specialize (Hp s). rewrite H in Hp. by cbn in Hp; subst. Qed.

Lemma reaches_input env identity i s : input_ok i -> reaches env identity (handle (pe_graph env) i) s.
Proof. intros Hi r s' H Hs. by apply (sv_next _ _ _ s i r). Qed.

Lemma reaches_try {A} env identity (m : SV A) s : reaches env identity m s -> reaches env identity (st_try m) s.
Proof. intros Hm r s' H Hs. unfold st_try in H. destruct (m s) as [r1 s1] eqn:E. injection H as <- <-. by eapply Hm. Qed.

Lemma reaches_ConnectToPeer env identity pub addr s : reaches env identity (ConnectToPeer pub addr false) s.
Proof.
  apply reaches_pure. intros s0. unfold ConnectToPeer, mbind, st_bind, st_get. by destruct (findPeerByPubStr pub s0).
Qed.

Lemma reaches_connect_any env identity pub addrs s : reaches env identity (connect_any env pub addrs) s.
Proof.
  revert s. induction addrs as [|a addrs IH]; intros s; cbn [connect_any]; [by apply reaches_pure|].
  destruct a as [ip port|name]; [|by apply reaches_pure]. apply reaches_bind.
  - apply reaches_try. unfold connect_now. apply reaches_bind; [apply reaches_ConnectToPeer|]. intros _ s1. apply reaches_bind; [by apply reaches_pure|].
    intros conn s2. by apply (reaches_input env identity (IOutbound None conn)).
  - intros [[]|e] s1; [by apply reaches_pure|apply IH].
Qed.

Lemma reaches_open_failed env identity pub e s : reaches env identity (open_failed pub e) s.
Proof.
  unfold open_failed. apply reaches_bind; [|by intros ? ?; apply reaches_pure]. apply reaches_try.
  by apply (reaches_input env identity (IDisconnectPeer pub)).
Qed.

Lemma reaches_ensure env identity pub addrs s : reaches env identity (ensure_connected env pub addrs) s.
Proof.
  unfold ensure_connected. apply reaches_bind; [by apply reaches_pure|]. intros s0 s1.
  destruct (findPeerByPubStr _ s0); [by apply reaches_pure|]. apply reaches_bind; [apply reaches_connect_any|]. intros [] s2; by apply reaches_pure.
Qed.

Lemma reaches_controller env identity target amt addrs s : reaches env identity (chanController_OpenChannel env target amt addrs) s.
Proof.
  unfold chanController_OpenChannel. destruct (_ =? _)%nat; [by apply reaches_pure|]. apply reaches_bind; [apply reaches_ensure|].
  intros [] s2. unfold open_with. apply reaches_bind; [by apply reaches_pure|]. intros rate s3. apply reaches_bind; [by apply reaches_pure|]. intros s4 s5.
  destruct (server_OpenChannel _ _ _ _ _ _ _ _); [|apply reaches_open_failed]. destruct (pe_event env); [apply reaches_open_failed|by apply reaches_pure..].
Qed.

Lemma DisconnectPeer_gone pub s : sv_inv s -> peersByPub (DisconnectPeer pub s).2 !! pub = None.
Proof.
  intros H. unfold DisconnectPeer. unfold mbind at 1, st_bind at 1, st_get at 1. unfold findPeerByPubStr.
  destruct (peersByPub s !! pub) as [p|] eqn:Ep; [|done]. destruct (cancelConnReqs_spec pub None s H) as (s1 & E1 & H1 & B1 & _).
  unfold mbind at 1, st_bind at 1. rewrite E1.
  set (s2 := set_persistentPeersBackoff (delete pub (persistentPeersBackoff s1)) (set_persistentPeers (persistentPeers s1 ∖ {[pub]}) s1)).
  assert (sv_inv s2) as H2.
  { destruct H1 as (Hs & Hp & Hw & Hc & Hr & Hb & Ht). split; [done|]. split; [done|]. split; [done|]. split; [done|]. split; [done|].
    split; [|done]. intros pub' b Hl. cbn in Hl. apply lookup_delete_Some in Hl as [_ Hl]. by eapply Hb. }
  destruct (dropPeer_spec pub p s2 H2) as (s3 & E3 & _ & B3 & _); [cbn; by rewrite B1|].
  unfold mbind, st_bind, st_upd. cbv beta iota. fold s2. rewrite E3. cbn [snd]. by rewrite B3, lookup_delete_eq.
Qed.

Lemma open_with_spec env target amt s r s' :
  sv_inv s -> open_with env target amt s = (r, s') ->
  match r with
  | Ok _ => s' = s /\ exists rate peer req, pe_estimate env 3 = Ok rate
      /\ server_OpenChannel (open_env env s) target amt 0 1000 rate false 0 = Ok (peer, req)
  | Err e => match pe_estimate env 3 with
             | Err e' => e' = e /\ s' = s
             | Ok _ => peersByPub s' !! SerializeCompressed target = None
             end
  end.
Proof.
  intros Hi. unfold open_with. unfold mbind at 1, st_bind at 1, st_res at 1. destruct (pe_estimate env 3) as [rate|e] eqn:Er; [|by intros [= <- <-]].
  unfold mbind at 1, st_bind at 1, st_get at 1. change (NewMSatFromSatoshis 1) with 1000.
  assert (forall e, open_failed (SerializeCompressed target) e s = (r, s') -> r = Err e /\ peersByPub s' !! SerializeCompressed target = None) as Hf.
  { intros e. unfold open_failed, mbind, st_bind, st_try. pose proof (DisconnectPeer_gone (SerializeCompressed target) s Hi) as Hg.
    destruct (DisconnectPeer _ s) as [r1 s1]. by intros [= <- <-]. }
  destruct (server_OpenChannel _ _ _ _ _ _ _ _) as [[peer req]|e] eqn:Eo; [|by intros [-> ?]%Hf].
  destruct (pe_event env) as [e|u sent|]; [by intros [-> ?]%Hf|..]; intros [= <- <-]; (split; [done|]); by exists rate, peer, req.
Qed.

(** C22: whatever the agent opens, the server stays in a state it can reach by inputs of its
    own.  The call succeeds only with a peer that is connected and was asked for a channel of
    the amount the agent wants, with nothing pushed.  It fails without an opening when there is
    no address, when the target was not connected and no connection to it could be made, and when there
    is no fee rate; in every other failure the opening was tried, and the target is
    not connected any more, whether it was connected before or by the controller. *)
Theorem controller_safe env identity target amt addrs s r s' :
  sv_reach (pe_graph env) identity (fun _ => True) s -> chanController_OpenChannel env target amt addrs s = (r, s') ->
  sv_reach (pe_graph env) identity (fun _ => True) s'
  /\ match r with
     | Ok _ => exists p rate req, peersByPub s' !! SerializeCompressed target = Some p /\ pe_estimate env 3 = Ok rate
         /\ server_OpenChannel (open_env env s') target amt 0 1000 rate false 0 = Ok (pe_netAddress env p, req)
         /\ oq_targetPubkey req = target /\ oq_localFundingAmt req = amt /\ oq_pushAmt req = 0
     | Err e => (addrs = [] /\ s' = s)
         \/ (peersByPub s !! SerializeCompressed target = None /\ ensure_connected env (SerializeCompressed target) addrs s = (Err e, s'))
         \/ exists s1, ensure_connected env (SerializeCompressed target) addrs s = (Ok tt, s1)
              /\ match pe_estimate env 3 with
                 | Err e' => e' = e /\ s' = s1
                 | Ok _ => peersByPub s' !! SerializeCompressed target = None
                 end
     end.
Proof.
  intros Hs H. split; [by eapply (reaches_controller env identity target amt addrs s)|]. revert H. unfold chanController_OpenChannel.
  destruct (length addrs =? 0)%nat eqn:El; [intros [= <- <-]; left; split; [by apply nil_length_inv, Nat.eqb_eq|done]|].
  unfold mbind, st_bind. destruct (ensure_connected env (SerializeCompressed target) addrs s) as [[[]|e] s1] eqn:Ec.
  - assert (sv_inv s1) as Hi.
    { apply (reach_inv (pe_graph env) identity (fun _ => True)). by eapply reaches_ensure. }
    intros H. pose proof (open_with_spec env target amt s1 r s' Hi H) as Ho. destruct r as [[]|e].
    + destruct Ho as (-> & rate & peer & req & Er & Eo). pose proof (server_OpenChannel_made _ _ _ _ _ _ _ _ _ _ Eo) as (Hp & Ht & Ha & Hpu).
      cbn [open_env oe_peers] in Hp. rewrite lookup_fmap in Hp. destruct (peersByPub s1 !! SerializeCompressed target) as [p|] eqn:Ep; [|done].
      injection Hp as <-. by exists p, rate, req.
    + right. right. exists s1. split; [done|]. exact Ho.
  - intros [= <- <-]. right. left. split; [|done]. unfold ensure_connected in Ec. unfold mbind at 1, st_bind at 1, st_get at 1, findPeerByPubStr in Ec.
    by destruct (peersByPub s !! SerializeCompressed target) eqn:Ep.
Qed.
End Controller.
