(* ===== verification/Config.v ===== *)
(** * Configuration

    config.go: the defaults, the reading of flags and files, the checks and the choice of the
    chain in [loadConfig], with the levels of the loggers of log.go, the parameters of the
    networks of chainparams.go and the registry of chains of chainregistry.go.

    The command line and the configuration file are read by a vendored package, which is an
    argument here ([configEnv]), as are the directories of the user and the files.  The
    package variables that [loadConfig] writes are the state [globals].  The parameters of a
    network are shared by pointer: [chaincfg] is what the pointers point to. *)

From Stdlib Require Import ZArith Lia.
From Stdlib Require Import SpecFloat.
From Stdlib Require Import Init.Byte.
From stdpp Require Import base gmap strings numbers list.
From S2P Require Import Prelude Effects FundingManager GoStrings RpcBase RpcOpen RpcFees.
Local Open Scope Z_scope.

(** ** Networks *)

(** The package variables of chaincfg that hold the parameters of a network. *)
Inductive net := MainNetVar | TestNet3Var | SimNetVar | RegressionNetVar.

#[global] Instance net_eq_dec : EqDecision net.
Proof. solve_decision. Defined.

(** Of [chaincfg.Params], what [applyLitecoinParams] writes, and the seeds, which it keeps. *)
Record Params := mkParams {
  pr_Name : bytes;
  pr_Net : Z;
  pr_DefaultPort : bytes;
  pr_CoinbaseMaturity : Z;
  pr_GenesisHash : bytes;
  pr_AddrIDs : list byte;
  pr_Bech32HRPSegwit : bytes;
  pr_HDPrivateKeyID : bytes;
  pr_HDPublicKeyID : bytes;
  pr_HDCoinType : Z;
  pr_Checkpoints : list (Z * bytes);
  pr_DNSSeeds : list bytes
}.

Record bitcoinNetParams := mkBitcoinNetParams { np_Params : net; np_rpcPort : bytes; np_CoinType : Z }.
Record litecoinNetParams := mkLitecoinNetParams { ln_Params : Params; ln_rpcPort : bytes; ln_CoinType : Z }.

Definition CoinTypeBitcoin : Z := 0.
Definition CoinTypeTestnet : Z := 1.
Definition CoinTypeLitecoin : Z := 2.

Definition bitcoinTestNetParams : bitcoinNetParams := mkBitcoinNetParams TestNet3Var (str "18334") CoinTypeTestnet.
Definition bitcoinMainNetParams : bitcoinNetParams := mkBitcoinNetParams MainNetVar (str "8334") CoinTypeBitcoin.
Definition bitcoinSimNetParams : bitcoinNetParams := mkBitcoinNetParams SimNetVar (str "18556") CoinTypeTestnet.
Definition regTestNetParams : bitcoinNetParams := mkBitcoinNetParams RegressionNetVar (str "18334") CoinTypeTestnet.

Definition litecoinTestNetParams (TestNet4Params : Params) : litecoinNetParams :=
  mkLitecoinNetParams TestNet4Params (str "19334") CoinTypeTestnet.
Definition litecoinMainNetParams (LtcMainNetParams : Params) : litecoinNetParams :=
  mkLitecoinNetParams LtcMainNetParams (str "9334") CoinTypeLitecoin.

Definition chaincfg : Type := net -> Params.

(** The parameters are written through the pointer: they replace those of the network the
    pointer belongs to. *)
Definition applyLitecoinParams (heap : chaincfg) (params : bitcoinNetParams) (litecoin : litecoinNetParams) : chaincfg * bitcoinNetParams :=
  let l := ln_Params litecoin in
  (fun n => if decide (n = np_Params params) then
      mkParams (pr_Name l) (pr_Net l) (pr_DefaultPort l) (pr_CoinbaseMaturity l) (pr_GenesisHash l) (pr_AddrIDs l) (pr_Bech32HRPSegwit l)
        (pr_HDPrivateKeyID l) (pr_HDPublicKeyID l) (pr_HDCoinType l) (pr_Checkpoints l) (pr_DNSSeeds (heap n))
    else heap n,
   mkBitcoinNetParams (np_Params params) (ln_rpcPort litecoin) (ln_CoinType litecoin)).

(** The magic numbers of the test networks of both chains. *)
Definition isTestnet (heap : chaincfg) (params : bitcoinNetParams) : bool :=
  bool_decide (pr_Net (heap (np_Params params)) = 0x0709110b) || bool_decide (pr_Net (heap (np_Params params)) = 0xf1c8d2fd).

Definition normalizeNetwork (network : bytes) : bytes :=
  if has_prefix (str "testnet") network then str "testnet" else network.

(** ** The registry of chains *)

Definition chainCode : Type := Z.
Definition bitcoinChain : chainCode := 0.
Definition litecoinChain : chainCode := 1.

Definition chainCode_String (c : chainCode) : bytes :=
  if c =? bitcoinChain then str "bitcoin" else if c =? litecoinChain then str "litecoin" else str "kekcoin".

Definition bitcoinTestnetGenesis : bytes :=
  [x43; x49; x7f; xd7; xf8; x26; x95; x71; x08; xf4; xa3; x0f; xd9; xce; xc3; xae;
   xba; x79; x97; x20; x84; xe9; x0e; xad; x01; xea; x33; x09; x00; x00; x00; x00].
Definition bitcoinMainnetGenesis : bytes :=
  [x6f; xe2; x8c; x0a; xb6; xf1; xb3; x72; xc1; xa6; xa2; x46; xae; x63; xf7; x4f;
   x93; x1e; x83; x65; xe1; x5a; x08; x9c; x68; xd6; x19; x00; x00; x00; x00; x00].
Definition litecoinTestnetGenesis : bytes :=
  [xa0; x29; x3e; x4e; xeb; x3d; xa6; xe6; xf5; x6f; x81; xed; x59; x5f; x57; x88;
   x0d; x1a; x21; x56; x9e; x13; xee; xfd; xd9; x51; x28; x4b; x5a; x62; x66; x49].
Definition litecoinMainnetGenesis : bytes :=
  [xe2; xbf; x04; x7e; x7e; x5a; x19; x1a; xa4; xef; x34; xd3; x14; x97; x9d; xc9;
   x98; x6e; x0f; x19; x25; x1e; xda; xba; x59; x40; xfd; x1f; xe3; x65; xa7; x12].

Definition chainMap : list (bytes * chainCode) :=
  [(bitcoinTestnetGenesis, bitcoinChain); (litecoinTestnetGenesis, litecoinChain);
   (bitcoinMainnetGenesis, bitcoinChain); (litecoinMainnetGenesis, litecoinChain)].

Definition chain_of_hash (h : bytes) : option chainCode :=
  snd <$> List.find (fun p => bool_decide (p.1 = h)) chainMap.

Section Registry.
Context {CC : Type}.

Record chainRegistry := mkChainRegistry { activeChains : gmap chainCode CC; primaryChain : chainCode }.

Definition newChainRegistry : chainRegistry := mkChainRegistry ∅ bitcoinChain.
Definition RegisterChain (newChain : chainCode) (cc : CC) (c : chainRegistry) : chainRegistry :=
  mkChainRegistry (<[newChain := cc]> (activeChains c)) (primaryChain c).
Definition LookupChain (targetChain : chainCode) (c : chainRegistry) : option CC := activeChains c !! targetChain.
Definition LookupChainByHash (chainHash : bytes) (c : chainRegistry) : option CC :=
  match chain_of_hash chainHash with Some targetChain => activeChains c !! targetChain | None => None end.
Definition RegisterPrimaryChain (cc : chainCode) (c : chainRegistry) : chainRegistry := mkChainRegistry (activeChains c) cc.
Definition PrimaryChain (c : chainRegistry) : chainCode := primaryChain c.
Definition ActiveChains (c : chainRegistry) : list chainCode := (map_to_list (activeChains c)).*1.
Definition NumActiveChains (c : chainRegistry) : Z := u32 (Z.of_nat (size (activeChains c))).

(** The registry finds a chain under its code and under each of its genesis hashes. *)
Lemma registered_found c code cc h :
  chain_of_hash h = Some code -> LookupChain code (RegisterChain code cc c) = Some cc /\ LookupChainByHash h (RegisterChain code cc c) = Some cc.
Proof. intros H. unfold LookupChain, LookupChainByHash. rewrite H. cbn. by rewrite lookup_insert_eq. Qed.

Lemma active_counted c : Z.of_nat (size (activeChains c)) < 2 ^ 32 -> NumActiveChains c = Z.of_nat (length (ActiveChains c)).
Proof.
  intros H. unfold NumActiveChains, ActiveChains. rewrite u32_id by (unfold is_u32; lia). by rewrite length_fmap, length_map_to_list.
Qed.
End Registry.
Arguments chainRegistry : clear implicits.

(** ** Log levels *)

Inductive Level := LevelTrace | LevelDebug | LevelInfo | LevelWarn | LevelError | LevelCritical | LevelOff.

#[global] Instance Level_eq_dec : EqDecision Level.
Proof. solve_decision. Defined.

(** [strings.ToLower] on ASCII *)
Definition lower (c : byte) : byte :=
  let v := Z_of_byte c in if (65 <=? v) && (v <=? 90) then byte_of_Z (v + 32) else c.

Definition LevelFromString (s : bytes) : Level * bool :=
  let l := map lower s in
  if bool_decide (l ∈ [str "trace"; str "trc"]) then (LevelTrace, true)
  else if bool_decide (l ∈ [str "debug"; str "dbg"]) then (LevelDebug, true)
  else if bool_decide (l ∈ [str "info"; str "inf"]) then (LevelInfo, true)
  else if bool_decide (l ∈ [str "warn"; str "wrn"]) then (LevelWarn, true)
  else if bool_decide (l ∈ [str "error"; str "err"]) then (LevelError, true)
  else if bool_decide (l ∈ [str "critical"; str "crt"]) then (LevelCritical, true)
  else if bool_decide (l = str "off") then (LevelOff, true)
  else (LevelInfo, false).

(** The loggers by their subsystem; a new logger has the level info. *)
Definition subsystems : list bytes :=
  map str ["LTND"; "LNWL"; "PEER"; "DISC"; "RPCS"; "SRVR"; "NTFN"; "CHDB"; "FNDG"; "HSWC"; "UTXN"; "BRAR"; "CMGR"; "CRTR"; "BTCN";
           "ATPL"; "CNCT"; "SPHX"]%string.

Notation loggers := (gmap bytes Level).
Definition subsystemLoggers : loggers := list_to_map (map (fun s => (s, LevelInfo)) subsystems).

Definition setLogLevel (subsystemID logLevel : bytes) (l : loggers) : loggers :=
  match l !! subsystemID with
  | None => l
  | Some _ => <[subsystemID := (LevelFromString logLevel).1]> l
  end.

Definition setLogLevels (logLevel : bytes) (l : loggers) : loggers :=
  foldl (fun l id => setLogLevel id logLevel l) l (map_to_list l).*1.

Definition validLogLevel (logLevel : bytes) : bool :=
  bool_decide (logLevel ∈ map str ["trace"; "debug"; "info"; "warn"; "error"; "critical"]%string).

Definition insert_sorted (s : bytes) : list bytes -> list bytes :=
  fix ins l := match l with [] => [s] | x :: l' => match bytes_compare s x with Gt => x :: ins l' | _ => s :: l end end.

(** The subsystems in order, for display. *)
Definition supportedSubsystems (l : loggers) : list bytes := foldr insert_sorted [] (map_to_list l).*1.

Definition chr_comma : byte := x2c.
Definition chr_equals : byte := x3d.

(** A pair of a subsystem and its level; the levels set before an error stay set. *)
Definition set_pair (l : loggers) (logLevelPair : bytes) : loggers * res () :=
  if negb (contains_byte chr_equals logLevelPair) then (l, Err (ErrNew "invalid subsystem/level pair"))
  else match Split logLevelPair chr_equals with
       | subsysID :: logLevel :: _ =>
           match l !! subsysID with
           | None => (l, Err (ErrNew "The specified subsystem is invalid"))
           | Some _ =>
               if negb (validLogLevel logLevel) then (l, Err (ErrNew "The specified debug level is invalid"))
               else (setLogLevel subsysID logLevel l, Ok tt)
           end
       | _ => (l, Err (ErrPanic "index out of range"))
       end.

Fixpoint set_pairs (l : loggers) (pairs : list bytes) : loggers * res () :=
  match pairs with
  | [] => (l, Ok tt)
  | p :: ps => match set_pair l p with (l', Ok _) => set_pairs l' ps | (l', Err e) => (l', Err e) end
  end.

Definition parseAndSetDebugLevels (debugLevel : bytes) (l : loggers) : loggers * res () :=
  if negb (contains_byte chr_comma debugLevel) && negb (contains_byte chr_equals debugLevel) then
    if negb (validLogLevel debugLevel) then (l, Err (ErrNew "The specified debug level is invalid"))
    else (setLogLevels debugLevel l, Ok tt)
  else set_pairs l (Split debugLevel chr_comma).

(** [DebugLevel] of the RPC server *)
Definition DebugLevel (Show : bool) (LevelSpec : bytes) (l : loggers) : loggers * res bytes :=
  if Show then (l, Ok (Join (supportedSubsystems l) [x20]))
  else match parseAndSetDebugLevels LevelSpec l with (l', Ok _) => (l', Ok []) | (l', Err e) => (l', Err e) end.

(** The level a specification of pairs gives a subsystem: that of the last pair with it. *)
Definition pair_level (id : bytes) (pairs : list (bytes * bytes)) : option Level :=
  (fun p => (LevelFromString p.2).1) <$> List.find (fun p => bool_decide (p.1 = id)) (reverse pairs).

Definition write_pair (p : bytes * bytes) : bytes := p.1 ++ chr_equals :: p.2.

Lemma setLogLevel_lookup id lv l k :
  setLogLevel id lv l !! k = if decide (k = id) then (fun _ => (LevelFromString lv).1) <$> l !! k else l !! k.
Proof.
  unfold setLogLevel. destruct (decide (k = id)) as [->|Hk]; destruct (l !! id) eqn:E; rewrite ?E; try done;
    by rewrite ?lookup_insert_eq, ?lookup_insert_ne by done.
Qed.

Lemma setLogLevel_dom id lv l : dom (setLogLevel id lv l) = dom l.
Proof.
  apply set_eq. intros k. rewrite !elem_of_dom, setLogLevel_lookup. destruct (decide (k = id)); [|done]. by rewrite fmap_is_Some.
Qed.

(** A level for all subsystems is set for all of them, and no subsystem comes or goes. *)
Lemma setLogLevels_lookup lv l k : setLogLevels lv l !! k = (fun _ => (LevelFromString lv).1) <$> l !! k.
Proof.
  unfold setLogLevels.
  assert (forall ids l0, foldl (fun l id => setLogLevel id lv l) l0 ids !! k = if decide (k ∈ ids) then (fun _ => (LevelFromString lv).1) <$> l0 !! k else l0 !! k) as H.
  { induction ids as [|id ids IH]; intros l0; [done|]. cbn [foldl]. rewrite IH, setLogLevel_lookup.
    destruct (decide (k = id)) as [->|Hk].
    - destruct (decide (id ∈ id :: ids)) as [_|[]]; [|by left]. destruct (l0 !! id); by destruct (decide (id ∈ ids)).
    - destruct (decide (k ∈ ids)); [rewrite decide_True by (by right)|rewrite decide_False by (by rewrite not_elem_of_cons)]; done. }
  rewrite H. destruct (decide (k ∈ (map_to_list l).*1)) as [|Hk]; [done|]. destruct (l !! k) eqn:E; [|done]. exfalso. apply Hk.
  rewrite list_elem_of_fmap. exists (k, l0). split; [done|]. by apply elem_of_map_to_list.
Qed.

(** A pair that can be written: the subsystem exists and the level is valid. *)
Definition pair_ok (l : loggers) (p : bytes * bytes) : Prop :=
  is_Some (l !! p.1) /\ validLogLevel p.2 = true /\ chr_equals ∉ p.1 /\ chr_comma ∉ p.1.

Lemma validLogLevel_plain lv : validLogLevel lv = true -> chr_equals ∉ lv /\ chr_comma ∉ lv.
Proof.
  unfold validLogLevel. rewrite bool_decide_eq_true. intros H. cbn [map] in H. rewrite !elem_of_cons, elem_of_nil in H.
  repeat destruct H as [->|H]; [..|done]; split; by_eval.
Qed.

Lemma set_pair_written l p : pair_ok l p -> set_pair l (write_pair p) = (setLogLevel p.1 p.2 l, Ok tt).
Proof.
  intros ([v Hl] & Hv & He & _). unfold set_pair, write_pair.
  assert (contains_byte chr_equals (p.1 ++ chr_equals :: p.2) = true) as -> by (unfold contains_byte; rewrite bool_decide_eq_true; set_solver).
  cbn [negb]. rewrite Split_app, Split_word by (done || by apply validLogLevel_plain). rewrite Hl, Hv. done.
Qed.

Lemma pair_level_cons id p ps :
  pair_level id (p :: ps) = match pair_level id ps with Some v => Some v | None => if decide (p.1 = id) then Some (LevelFromString p.2).1 else None end.
Proof.
  unfold pair_level. rewrite reverse_cons. induction (reverse ps) as [|q qs IH]; cbn; [by case_bool_decide; destruct (decide (p.1 = id))|].
  by case_bool_decide.
Qed.

Lemma set_pairs_written l ps :
  Forall (pair_ok l) ps -> exists l', set_pairs l (map write_pair ps) = (l', Ok tt)
    /\ forall id, l' !! id = match pair_level id ps with Some v => Some v | None => l !! id end.
Proof.
  intros HF. revert l HF. induction ps as [|p ps IH]; intros l HF; [by exists l|]. apply Forall_cons in HF as [Hp HF].
  cbn [map set_pairs]. rewrite (set_pair_written l p Hp). destruct (IH (setLogLevel p.1 p.2 l)) as (l' & -> & Hl').
  { eapply Forall_impl; [exact HF|]. intros q ([v Hq] & Hr). split; [|done]. rewrite setLogLevel_lookup, Hq. destruct (decide _); by eexists. }
  exists l'. split; [done|]. intros id. rewrite Hl', pair_level_cons, setLogLevel_lookup. destruct (pair_level id ps); [done|].
  destruct (decide (p.1 = id)) as [<-|Hn]; [|by rewrite decide_False by congruence]. rewrite decide_True by done. by destruct Hp as ([v ->] & _).
Qed.

(** A specification that is written for existing subsystems with valid levels is accepted,
    gives each of them the level of its last pair, and leaves the others alone. *)
Theorem debug_levels_set l ps :
  ps <> [] -> Forall (pair_ok l) ps ->
  exists l', parseAndSetDebugLevels (Join (map write_pair ps) [chr_comma]) l = (l', Ok tt)
    /\ forall id, l' !! id = match pair_level id ps with Some v => Some v | None => l !! id end.
Proof.
  intros Hn HF. destruct (set_pairs_written l ps HF) as (l' & E & Hl'). exists l'. split; [|done]. rewrite <- E. unfold parseAndSetDebugLevels.
  assert (contains_byte chr_equals (Join (map write_pair ps) [chr_comma]) = true) as ->.
  { unfold contains_byte. rewrite bool_decide_eq_true. destruct ps as [|p [|q ps]]; [done| |]; cbn [map Join]; unfold write_pair; set_solver. }
  rewrite andb_false_r. rewrite Split_Join; [done|by destruct ps|]. apply Forall_map. eapply Forall_impl; [exact HF|].
  intros p (_ & Hv & _ & Hc). apply validLogLevel_plain in Hv as [_ Hv]. unfold write_pair. rewrite elem_of_app, elem_of_cons. intros [?|[?|?]]; done.
Qed.

(** ** The configuration *)

Record chainConfig := mkChainConfig {
  cc_Active : bool;
  cc_ChainDir : bytes;
  cc_Node : bytes;
  cc_MainNet : bool;
  cc_TestNet3 : bool;
  cc_SimNet : bool;
  cc_RegTest : bool;
  cc_DefaultNumChanConfs : Z;
  cc_DefaultRemoteDelay : Z;
  cc_MinHTLC : Z;
  cc_BaseFee : Z;
  cc_FeeRate : Z;
  cc_TimeLockDelta : Z
}.

Definition set_ChainDir (dir : bytes) (c : chainConfig) : chainConfig :=
  mkChainConfig (cc_Active c) dir (cc_Node c) (cc_MainNet c) (cc_TestNet3 c) (cc_SimNet c) (cc_RegTest c) (cc_DefaultNumChanConfs c)
    (cc_DefaultRemoteDelay c) (cc_MinHTLC c) (cc_BaseFee c) (cc_FeeRate c) (cc_TimeLockDelta c).

Record btcdConfig := mkBtcdConfig { bd_Dir : bytes; bd_RPCHost : bytes; bd_RPCUser : bytes; bd_RPCPass : bytes; bd_RPCCert : bytes; bd_RawRPCCert : bytes }.
Record bitcoindConfig := mkBitcoindConfig { bi_Dir : bytes; bi_RPCHost : bytes; bi_RPCUser : bytes; bi_RPCPass : bytes; bi_ZMQPath : bytes }.
Record neutrinoConfig := mkNeutrinoConfig { nc_AddPeers : list bytes; nc_ConnectPeers : list bytes }.
Record autoPilotConfig := mkAutoPilotConfig { ap_Active : bool; ap_MaxChannels : Z; ap_Allocation : float64; ap_MinChannelSize : Z; ap_MaxChannelSize : Z }.
Record torConfig := mkTorConfig { tr_Socks : bytes; tr_DNS : bytes; tr_StreamIsolation : bool }.

(** [torsvc.Net] *)
Inductive torNet := RegularNet | TorProxyNet (TorDNS TorSocks : bytes) (StreamIsolation : bool).

(** The options of [config] that are files and directories, and those about listening. *)
Record pathConfig := mkPathConfig {
  cf_LndDir : bytes;
  cf_ConfigFile : bytes;
  cf_DataDir : bytes;
  cf_TLSCertPath : bytes;
  cf_TLSKeyPath : bytes;
  cf_AdminMacPath : bytes;
  cf_ReadMacPath : bytes;
  cf_InvoiceMacPath : bytes;
  cf_LogDir : bytes
}.

Record listenConfig := mkListenConfig {
  cf_NoMacaroons : bool;
  cf_RPCListeners : list bytes;
  cf_RESTListeners : list bytes;
  cf_Listeners : list bytes;
  cf_DisableListen : bool;
  cf_ExternalIPs : list bytes
}.

(** The rest of [config]; flags that no part of the configuration reads are left out. *)
Record config := mkConfig {
  cf_ShowVersion : bool;
  cf_paths : pathConfig;
  cf_listen : listenConfig;
  cf_DebugLevel : bytes;
  cf_Profile : bytes;
  cf_CPUProfile : bytes;
  cf_MaxPendingChannels : Z;
  cf_Bitcoin : chainConfig;
  cf_BtcdMode : btcdConfig;
  cf_BitcoindMode : bitcoindConfig;
  cf_NeutrinoMode : neutrinoConfig;
  cf_Litecoin : chainConfig;
  cf_LtcdMode : btcdConfig;
  cf_LitecoindMode : bitcoindConfig;
  cf_Autopilot : autoPilotConfig;
  cf_Tor : torConfig;
  cf_TrickleDelay : Z;
  cf_Alias : bytes;
  cf_Color : bytes;
  cf_net : torNet
}.

Definition set_paths (p : pathConfig) (c : config) : config :=
  mkConfig (cf_ShowVersion c) p (cf_listen c) (cf_DebugLevel c) (cf_Profile c) (cf_CPUProfile c) (cf_MaxPendingChannels c) (cf_Bitcoin c) (cf_BtcdMode c) (cf_BitcoindMode c)
    (cf_NeutrinoMode c) (cf_Litecoin c) (cf_LtcdMode c) (cf_LitecoindMode c) (cf_Autopilot c) (cf_Tor c) (cf_TrickleDelay c) (cf_Alias c) (cf_Color c) (cf_net c).
Definition set_listen (l : listenConfig) (c : config) : config :=
  mkConfig (cf_ShowVersion c) (cf_paths c) l (cf_DebugLevel c) (cf_Profile c) (cf_CPUProfile c) (cf_MaxPendingChannels c) (cf_Bitcoin c) (cf_BtcdMode c) (cf_BitcoindMode c)
    (cf_NeutrinoMode c) (cf_Litecoin c) (cf_LtcdMode c) (cf_LitecoindMode c) (cf_Autopilot c) (cf_Tor c) (cf_TrickleDelay c) (cf_Alias c) (cf_Color c) (cf_net c).
Definition set_bitcoin (b : chainConfig) (m : btcdConfig) (n : bitcoindConfig) (c : config) : config :=
  mkConfig (cf_ShowVersion c) (cf_paths c) (cf_listen c) (cf_DebugLevel c) (cf_Profile c) (cf_CPUProfile c) (cf_MaxPendingChannels c) b m n
    (cf_NeutrinoMode c) (cf_Litecoin c) (cf_LtcdMode c) (cf_LitecoindMode c) (cf_Autopilot c) (cf_Tor c) (cf_TrickleDelay c) (cf_Alias c) (cf_Color c) (cf_net c).
Definition set_litecoin (l : chainConfig) (m : btcdConfig) (n : bitcoindConfig) (c : config) : config :=
  mkConfig (cf_ShowVersion c) (cf_paths c) (cf_listen c) (cf_DebugLevel c) (cf_Profile c) (cf_CPUProfile c) (cf_MaxPendingChannels c) (cf_Bitcoin c) (cf_BtcdMode c) (cf_BitcoindMode c)
    (cf_NeutrinoMode c) l m n (cf_Autopilot c) (cf_Tor c) (cf_TrickleDelay c) (cf_Alias c) (cf_Color c) (cf_net c).
Definition set_Autopilot (a : autoPilotConfig) (c : config) : config :=
  mkConfig (cf_ShowVersion c) (cf_paths c) (cf_listen c) (cf_DebugLevel c) (cf_Profile c) (cf_CPUProfile c) (cf_MaxPendingChannels c) (cf_Bitcoin c) (cf_BtcdMode c) (cf_BitcoindMode c)
    (cf_NeutrinoMode c) (cf_Litecoin c) (cf_LtcdMode c) (cf_LitecoindMode c) a (cf_Tor c) (cf_TrickleDelay c) (cf_Alias c) (cf_Color c) (cf_net c).
Definition set_net (n : torNet) (c : config) : config :=
  mkConfig (cf_ShowVersion c) (cf_paths c) (cf_listen c) (cf_DebugLevel c) (cf_Profile c) (cf_CPUProfile c) (cf_MaxPendingChannels c) (cf_Bitcoin c) (cf_BtcdMode c) (cf_BitcoindMode c)
    (cf_NeutrinoMode c) (cf_Litecoin c) (cf_LtcdMode c) (cf_LitecoindMode c) (cf_Autopilot c) (cf_Tor c) (cf_TrickleDelay c) (cf_Alias c) (cf_Color c) n.

(** The outside of [loadConfig]: the user's directories and environment, the files, the
    vendored parser of the command line and of configuration files, and the parameters of
    litecoin's networks. *)
Record configEnv := mkConfigEnv {
  ce_AppDataDir : bytes -> bytes;
  ce_CurrentUser : option bytes;
  ce_HOME : bytes;
  ce_ExpandEnv : bytes -> bytes;
  ce_MkdirAll : bytes -> res ();
  ce_ReadFile : bytes -> res bytes;
  ce_rotator : bytes -> bool;
  ce_Parse : config -> res config;
  ce_IniParse : bytes -> config -> config;
  ce_TestNet4Params : Params;
  ce_LtcMainNetParams : Params
}.

(** Package variables that [loadConfig] reads and writes. *)
Record globals := mkGlobals {
  g_chaincfg : chaincfg;
  g_activeNetParams : bitcoinNetParams;
  g_primaryChain : chainCode;
  g_macaroonDatabaseDir : bytes;
  g_loggers : loggers;
  g_logFile : option bytes
}.

Definition set_network (heap : chaincfg) (p : bitcoinNetParams) (g : globals) : globals :=
  mkGlobals heap p (g_primaryChain g) (g_macaroonDatabaseDir g) (g_loggers g) (g_logFile g).
Definition set_primary (c : chainCode) (g : globals) : globals :=
  mkGlobals (g_chaincfg g) (g_activeNetParams g) c (g_macaroonDatabaseDir g) (g_loggers g) (g_logFile g).
Definition set_macaroonDir (d : bytes) (g : globals) : globals :=
  mkGlobals (g_chaincfg g) (g_activeNetParams g) (g_primaryChain g) d (g_loggers g) (g_logFile g).
Definition set_logging (l : loggers) (f : option bytes) (g : globals) : globals :=
  mkGlobals (g_chaincfg g) (g_activeNetParams g) (g_primaryChain g) (g_macaroonDatabaseDir g) l f.

Notation CF := (ST globals).

Section LoadConfig.
Context (env : configEnv).

(** ** Defaults *)

Definition defaultBitcoinMinHTLCMSat : Z := 1000.
Definition defaultBitcoinBaseFeeMSat : Z := 1000.
Definition defaultBitcoinFeeRate : Z := 1.
Definition defaultBitcoinTimeLockDelta : Z := 144.
Definition defaultLitecoinMinHTLCMSat : Z := 1000.
Definition defaultLitecoinBaseFeeMSat : Z := 1000.
Definition defaultLitecoinFeeRate : Z := 1.
Definition defaultLitecoinTimeLockDelta : Z := 576.

(** What the package variables point into: only the directory of the daemon is replaced by
    the argument of [loadConfig]. *)
Definition defaultLndDir (dataDirec : bytes) : bytes := path_Join [dataDirec; str "Lnd"].
Definition defaultInvoiceMacPath : bytes := path_Join [ce_AppDataDir env (str "lnd"); str "invoice.macaroon"].

Definition default_paths (dir : bytes) : pathConfig :=
  mkPathConfig dir (path_Join [dir; str "lnd.conf"]) (path_Join [dir; str "data"]) (path_Join [dir; str "tls.cert"]) (path_Join [dir; str "tls.key"])
    (path_Join [dir; str "admin.macaroon"]) (path_Join [dir; str "readonly.macaroon"]) defaultInvoiceMacPath (path_Join [dir; str "logs"]).

Definition default_chain (minHTLC baseFee feeRate timeLockDelta : Z) (node : bytes) : chainConfig :=
  mkChainConfig false [] node false false false false 0 0 minHTLC baseFee feeRate timeLockDelta.

Definition default_btcd (dir : bytes) : btcdConfig := mkBtcdConfig dir (str "localhost") [] [] (path_Join [dir; str "rpc.cert"]) [].
Definition default_bitcoind (dir : bytes) : bitcoindConfig := mkBitcoindConfig dir (str "localhost") [] [] [].

Definition defaultCfg (dir : bytes) : config :=
  mkConfig false (default_paths dir) (mkListenConfig false [] [] [] false []) (str "info") [] [] 1
    (default_chain defaultBitcoinMinHTLCMSat defaultBitcoinBaseFeeMSat defaultBitcoinFeeRate defaultBitcoinTimeLockDelta (str "btcd"))
    (default_btcd (ce_AppDataDir env (str "btcd"))) (default_bitcoind (ce_AppDataDir env (str "bitcoin")))
    (mkNeutrinoConfig [] [])
    (default_chain defaultLitecoinMinHTLCMSat defaultLitecoinBaseFeeMSat defaultLitecoinFeeRate defaultLitecoinTimeLockDelta (str "ltcd"))
    (default_btcd (ce_AppDataDir env (str "ltcd"))) (default_bitcoind (ce_AppDataDir env (str "litecoin")))
    (mkAutoPilotConfig false 5 (f64_div (f64_of_Z 6) (f64_of_Z 10)) minChanFundingSize maxFundingAmount) (mkTorConfig [] [] false)
    30000 [] (str "#3399FF") RegularNet.

(** Another directory of the daemon takes its files with it. *)
Definition relocate (lndDir : bytes) (p : pathConfig) : pathConfig :=
  mkPathConfig (cf_LndDir p) (path_Join [lndDir; str "lnd.conf"]) (path_Join [lndDir; str "data"]) (path_Join [lndDir; str "tls.cert"])
    (path_Join [lndDir; str "tls.key"]) (path_Join [lndDir; str "admin.macaroon"]) (path_Join [lndDir; str "readonly.macaroon"])
    (path_Join [lndDir; str "invoice.macaroon"]) (path_Join [lndDir; str "logs"]).

Definition chr_tilde : byte := x7e.

Definition cleanAndExpandPath (path : bytes) : bytes :=
  let path := if has_prefix [chr_tilde] path
              then replace_first chr_tilde (match ce_CurrentUser env with Some homeDir => homeDir | None => ce_HOME env end) path
              else path in
  Clean (ce_ExpandEnv env path).

Definition clean_paths (c : config) : config :=
  let p := cf_paths c in
  let cl := cleanAndExpandPath in
  let clean_btcd (b : btcdConfig) := mkBtcdConfig (cl (bd_Dir b)) (bd_RPCHost b) (bd_RPCUser b) (bd_RPCPass b) (bd_RPCCert b) (bd_RawRPCCert b) in
  let clean_bitcoind (b : bitcoindConfig) := mkBitcoindConfig (cl (bi_Dir b)) (bi_RPCHost b) (bi_RPCUser b) (bi_RPCPass b) (bi_ZMQPath b) in
  set_paths (mkPathConfig (cf_LndDir p) (cf_ConfigFile p) (cl (cf_DataDir p)) (cl (cf_TLSCertPath p)) (cl (cf_TLSKeyPath p)) (cl (cf_AdminMacPath p))
               (cl (cf_ReadMacPath p)) (cl (cf_InvoiceMacPath p)) (cl (cf_LogDir p)))
    (set_bitcoin (cf_Bitcoin c) (clean_btcd (cf_BtcdMode c)) (clean_bitcoind (cf_BitcoindMode c))
       (set_litecoin (cf_Litecoin c) (clean_btcd (cf_LtcdMode c)) (clean_bitcoind (cf_LitecoindMode c)) c)).

(** ** Checks *)

Definition empty (s : bytes) : bool := bool_decide (s = []).

Definition check_autopilot (c : config) : res config :=
  let a := cf_Autopilot c in
  if ap_MaxChannels a <? 0 then Err (ErrNew "autopilot.maxchannels must be non-negative")
  else if SFltb (ap_Allocation a) (S754_zero false) then Err (ErrNew "autopilot.allocation must be non-negative")
  else if ap_MinChannelSize a <? 0 then Err (ErrNew "autopilot.minchansize must be non-negative")
  else if ap_MaxChannelSize a <? 0 then Err (ErrNew "autopilot.maxchansize must be non-negative")
  else
    let minSize := if ap_MinChannelSize a <? minChanFundingSize then minChanFundingSize else ap_MinChannelSize a in
    let maxSize := if maxFundingAmount <? ap_MaxChannelSize a then maxFundingAmount else ap_MaxChannelSize a in
    Ok (set_Autopilot (mkAutoPilotConfig (ap_Active a) (ap_MaxChannels a) (ap_Allocation a) minSize maxSize) c).

(** A port of a user's own process. *)
Definition user_port (s : bytes) : bool :=
  match Atoi s with Ok p => (1024 <=? p) && (p <=? 65535) | Err _ => false end.

Definition disable_listen (l : listenConfig) : listenConfig :=
  mkListenConfig (cf_NoMacaroons l) (cf_RPCListeners l) (cf_RESTListeners l) (cf_Listeners l) true (cf_ExternalIPs l).

Definition check_tor (c0 : config) : res config :=
  let c := set_net RegularNet c0 in
  let t := cf_Tor c in
  if negb (empty (tr_Socks t)) && negb (empty (tr_DNS t)) then
    if negb (user_port (tr_Socks t)) then Err (ErrNew "The tor socks5 port must be between 1024 and 65535")
    else match cf_ExternalIPs (cf_listen c) with
         | _ :: _ => Err (ErrNew "Cannot set externalip flag with proxy flag")
         | [] => Ok (set_listen (disable_listen (cf_listen c)) (set_net (TorProxyNet (tr_DNS t) (tr_Socks t) (tr_StreamIsolation t)) c))
         end
  else if negb (empty (tr_Socks t)) || negb (empty (tr_DNS t)) then Err (ErrNew "Both the tor.socks and the tor.dns flags must be set")
  else Ok c.

(** ** Credentials of a chain backend *)

Definition extractBtcdRPCParams (btcdConfigPath : bytes) : res (bytes * bytes) :=
  configContents ← ce_ReadFile env btcdConfigPath;
  match find_setting (str "rpcuser") configContents with
  | None => Err (ErrNew "unable to find rpcuser in config")
  | Some rpcUser =>
      match find_setting (str "rpcpass") configContents with
      | None => Err (ErrNew "unable to find rpcuser in config")
      | Some rpcPass => Ok (rpcUser, rpcPass)
      end
  end.

(** The directory of the cookie below the data directory. *)
Definition cookie_dir (network : bytes) : bytes :=
  if bool_decide (network = str "testnet3") then str "/testnet3/"
  else if bool_decide (network = str "testnet4") then str "/testnet4/"
  else if bool_decide (network = str "regtest") then str "/regtest/"
  else str "/".

(** The cookie of a running node, if there is one of two parts. *)
Definition read_cookie (file : bytes) : option (bytes * bytes) :=
  match ce_ReadFile env file with
  | Ok cookie => match Split cookie chr_colon with [u; p] => Some (u, p) | _ => None end
  | Err _ => None
  end.

Definition extractBitcoindRPCParams (network bitcoindConfigPath : bytes) : res (bytes * bytes * bytes) :=
  configContents ← ce_ReadFile env bitcoindConfigPath;
  match find_setting (str "zmqpubrawblock") configContents with
  | None => Err (ErrNew "unable to find zmqpubrawblock in config")
  | Some zmqPath =>
      let dataDir := default (path_Dir bitcoindConfigPath) (find_setting (str "datadir") configContents) in
      match read_cookie (dataDir ++ cookie_dir network ++ str ".cookie") with
      | Some (u, p) => Ok (u, p, zmqPath)
      | None =>
          match find_setting (str "rpcuser") configContents with
          | None => Err (ErrNew "unable to find rpcuser in config")
          | Some rpcUser =>
              match find_setting (str "rpcpassword") configContents with
              | None => Err (ErrNew "unable to find rpcpassword in config")
              | Some rpcPass => Ok (rpcUser, rpcPass, zmqPath)
              end
          end
      end
  end.

Inductive nodeConfig := NBtcd (b : btcdConfig) | NBitcoind (b : bitcoindConfig).

(** Whether the options of the node are all set, all unset, or some of each. *)
Definition credentials (n : nodeConfig) : list bytes :=
  match n with
  | NBtcd b => [bd_RPCUser b; bd_RPCPass b]
  | NBitcoind b => [bi_RPCUser b; bi_RPCPass b; bi_ZMQPath b]
  end.

Definition conf_file (n : nodeConfig) (chain : chainCode) : bytes :=
  match n with
  | NBtcd b => path_Join [bd_Dir b; (if chain =? litecoinChain then str "ltcd" else str "btcd") ++ str ".conf"]
  | NBitcoind b => path_Join [bi_Dir b; (if chain =? litecoinChain then str "litecoin" else str "bitcoin") ++ str ".conf"]
  end.

(** The file of the backend is read only when none of the options is set. *)
Definition parseRPCParams (network : bytes) (cConfig : chainConfig) (n : nodeConfig) (chain : chainCode) : res nodeConfig :=
  if forallb (fun s => negb (empty s)) (credentials n) then Ok n
  else if existsb (fun s => negb (empty s)) (credentials n) then Err (ErrNew "please set all or none of the RPC parameters")
  else if cc_SimNet cConfig then Err (ErrNew "rpcuser and rpcpass must be set to your btcd node's RPC parameters for simnet mode")
  else if bool_decide (cc_Node cConfig ∈ [str "btcd"; str "ltcd"]) then
    match n with
    | NBtcd b =>
        up ← extractBtcdRPCParams (conf_file n chain);
        Ok (NBtcd (mkBtcdConfig (bd_Dir b) (bd_RPCHost b) up.1 up.2 (bd_RPCCert b) (bd_RawRPCCert b)))
    | NBitcoind _ => Err (ErrPanic "interface conversion")
    end
  else if bool_decide (cc_Node cConfig ∈ [str "bitcoind"; str "litecoind"]) then
    match n with
    | NBitcoind b =>
        upz ← extractBitcoindRPCParams network (conf_file n chain);
        Ok (NBitcoind (mkBitcoindConfig (bi_Dir b) (bi_RPCHost b) upz.1.1 upz.1.2 upz.2))
    | NBtcd _ => Err (ErrPanic "interface conversion")
    end
  else Ok n.

Definition parse_btcd (cConfig : chainConfig) (b : btcdConfig) (chain : chainCode) : CF btcdConfig :=
  g ← st_get;
  n ← st_res (parseRPCParams (pr_Name (g_chaincfg g (np_Params (g_activeNetParams g)))) cConfig (NBtcd b) chain);
  match n with NBtcd b' => mret b' | NBitcoind _ => st_fail (ErrPanic "interface conversion") end.

Definition parse_bitcoind (cConfig : chainConfig) (b : bitcoindConfig) (chain : chainCode) : CF bitcoindConfig :=
  g ← st_get;
  n ← st_res (parseRPCParams (pr_Name (g_chaincfg g (np_Params (g_activeNetParams g)))) cConfig (NBitcoind b) chain);
  match n with NBitcoind b' => mret b' | NBtcd _ => st_fail (ErrPanic "interface conversion") end.

(** ** The chain *)

Definition b2n (b : bool) : nat := if b then 1 else 0.

Definition chain_dir (c : config) (chain : chainCode) : bytes :=
  path_Join [cf_DataDir (cf_paths c); str "chain"; chainCode_String chain].

(** The parameters of the network whose flag is set last; the counter counts the flags. *)
Definition litecoin_params (l : chainConfig) : option litecoinNetParams :=
  if cc_TestNet3 l then Some (litecoinTestNetParams (ce_TestNet4Params env))
  else if cc_MainNet l then Some (litecoinMainNetParams (ce_LtcMainNetParams env))
  else None.

Definition select_litecoin (c : config) : CF config :=
  let l := cf_Litecoin c in
  if cc_SimNet l then st_fail (ErrNew "simnet mode for litecoin not currently supported")
  else if cc_RegTest l then st_fail (ErrNew "regnet mode for litecoin not currently supported")
  else if cc_TimeLockDelta l <? minTimeLockDelta then st_fail (ErrNew "timelockdelta must be at least 4")
  else if (1 <? b2n (cc_MainNet l) + b2n (cc_TestNet3 l))%nat then st_fail (ErrNew "The mainnet, testnet, and simnet params can't be used together")
  else
    match litecoin_params l with
    | None => st_fail (ErrNew "either --litecoin.mainnet, or litecoin.testnet must be specified")
    | Some ltcParams =>
        _ ← st_upd (fun g => let (heap, p) := applyLitecoinParams (g_chaincfg g) (g_activeNetParams g) ltcParams in set_network heap p g);
        modes ← (if bool_decide (cc_Node l = str "ltcd") then
                   b ← parse_btcd l (cf_LtcdMode c) litecoinChain; mret (b, cf_LitecoindMode c)
                 else if bool_decide (cc_Node l = str "litecoind") then
                   if cc_SimNet l then st_fail (ErrNew "litecoind does not support simnet")
                   else b ← parse_bitcoind l (cf_LitecoindMode c) litecoinChain; mret (cf_LtcdMode c, b)
                 else st_fail (ErrNew "only ltcd and litecoind mode supported for litecoin at this time"));
        _ ← st_upd (set_primary litecoinChain);
        mret (set_litecoin (set_ChainDir (chain_dir c litecoinChain) l) modes.1 modes.2 c)
    end.

Definition set_active (p : bitcoinNetParams) (g : globals) : globals := set_network (g_chaincfg g) p g.

Definition when (b : bool) (f : globals -> globals) : CF () := st_upd (fun g => if b then f g else g).

Definition select_bitcoin (c : config) : CF config :=
  let b := cf_Bitcoin c in
  _ ← when (cc_MainNet b) (set_active bitcoinMainNetParams);
  _ ← when (cc_TestNet3 b) (set_active bitcoinTestNetParams);
  _ ← when (cc_RegTest b) (set_active regTestNetParams);
  _ ← when (cc_SimNet b) (set_active bitcoinSimNetParams);
  let numNets := (b2n (cc_MainNet b) + b2n (cc_TestNet3 b) + b2n (cc_RegTest b) + b2n (cc_SimNet b))%nat in
  if (1 <? numNets)%nat then st_fail (ErrNew "The mainnet, testnet, regtest, and simnet params can't be used together")
  else if (numNets =? 0)%nat then st_fail (ErrNew "either --bitcoin.mainnet, or bitcoin.testnet, bitcoin.simnet, or bitcoin.regtest must be specified")
  else if bool_decide (cc_Node b = str "neutrino") && cc_MainNet b then st_fail (ErrNew "neutrino isn't yet supported for bitcoin's mainnet")
  else if cc_TimeLockDelta b <? minTimeLockDelta then st_fail (ErrNew "timelockdelta must be at least 4")
  else
    modes ← (if bool_decide (cc_Node b = str "btcd") then
               m ← parse_btcd b (cf_BtcdMode c) bitcoinChain; mret (m, cf_BitcoindMode c)
             else if bool_decide (cc_Node b = str "bitcoind") then
               if cc_SimNet b then st_fail (ErrNew "bitcoind does not support simnet")
               else m ← parse_bitcoind b (cf_BitcoindMode c) bitcoinChain; mret (cf_BtcdMode c, m)
             else if bool_decide (cc_Node b = str "neutrino") then mret (cf_BtcdMode c, cf_BitcoindMode c)
             else st_fail (ErrNew "only btcd, bitcoind, and neutrino mode supported for bitcoin at this time"));
    _ ← st_upd (set_primary bitcoinChain);
    mret (set_bitcoin (set_ChainDir (chain_dir c bitcoinChain) b) modes.1 modes.2 c).

Definition select_chain (c : config) : CF config :=
  if cc_Active (cf_Litecoin c) && cc_Active (cf_Bitcoin c) then st_fail (ErrNew "Currently both Bitcoin and Litecoin cannot be active together")
  else if negb (cc_Active (cf_Bitcoin c)) && negb (cc_Active (cf_Litecoin c)) then
    st_fail (ErrNew "either bitcoin.active or litecoin.active must be set to 1 (true)")
  else if cc_Active (cf_Litecoin c) then select_litecoin c
  else select_bitcoin c.

(** ** Files and listeners *)

(** Macaroons go where the data went, unless they were given a place. *)
Definition move_macaroons (defaultDataDir : bytes) (d : pathConfig) (p : pathConfig) : pathConfig :=
  let moved := negb (bool_decide (cf_DataDir p = defaultDataDir)) in
  let place (path default : bytes) (file : bytes) := if moved && bool_decide (path = default) then path_Join [cf_DataDir p; file] else path in
  mkPathConfig (cf_LndDir p) (cf_ConfigFile p) (cf_DataDir p) (cf_TLSCertPath p) (cf_TLSKeyPath p)
    (place (cf_AdminMacPath p) (cf_AdminMacPath d) (str "admin.macaroon"))
    (place (cf_ReadMacPath p) (cf_ReadMacPath d) (str "readonly.macaroon"))
    (place (cf_InvoiceMacPath p) (cf_InvoiceMacPath d) (str "invoice.macaroon"))
    (cf_LogDir p).

Definition log_dir (g : globals) (p : pathConfig) : pathConfig :=
  mkPathConfig (cf_LndDir p) (cf_ConfigFile p) (cf_DataDir p) (cf_TLSCertPath p) (cf_TLSKeyPath p) (cf_AdminMacPath p) (cf_ReadMacPath p) (cf_InvoiceMacPath p)
    (path_Join [cf_LogDir p; chainCode_String (g_primaryChain g); normalizeNetwork (pr_Name (g_chaincfg g (np_Params (g_activeNetParams g))))]).

(** The process ends when there is no log file. *)
Definition initLogRotator (logFile : bytes) : CF () :=
  g ← st_get;
  if ce_rotator env logFile then st_upd (fun g => set_logging (g_loggers g) (Some logFile) g) else st_fail (ErrNew "os.Exit(1)").

Definition set_levels (debugLevel : bytes) : CF () := fun g =>
  let (l, r) := parseAndSetDebugLevels debugLevel (g_loggers g) in (r, set_logging l (g_logFile g) g).

Definition normalizeAddress (defaultPort addr : bytes) : bytes :=
  match SplitHostPort addr with
  | Ok _ => addr
  | Err _ => match Atoi addr with Ok _ => JoinHostPort (str "localhost") addr | Err _ => JoinHostPort addr defaultPort end
  end.

(** [seen] is the list of the results. *)
Definition normalizeAddresses (addrs : list bytes) (defaultPort : bytes) : list bytes :=
  foldl (fun result addr => let a := normalizeAddress defaultPort addr in if bool_decide (a ∈ result) then result else result ++ [a]) [] addrs.

Definition isLoopback (addr : bytes) : bool :=
  existsb (fun loopback => Contains addr loopback) [str "localhost"; str "127.0.0.1"; str "[::1]"].

Definition enforceSafeAuthentication (addrs : list bytes) (macaroonsActive : bool) : res () :=
  if forallb (fun addr => isLoopback addr || macaroonsActive) addrs then Ok tt
  else Err (ErrNew "Detected RPC server listening on publicly reachable interface with authentication disabled!").

Definition or_default (l : list bytes) (addr : bytes) : list bytes := match l with [] => [addr] | _ => l end.

Definition check_listeners (l0 : listenConfig) : res listenConfig :=
  let rpc := or_default (cf_RPCListeners l0) (str "localhost:10009") in
  let rest := or_default (cf_RESTListeners l0) (str "localhost:8080") in
  let peers := or_default (cf_Listeners l0) (str ":9735") in
  _ ← enforceSafeAuthentication rpc (negb (cf_NoMacaroons l0));
  _ ← enforceSafeAuthentication rest (negb (cf_NoMacaroons l0));
  let peers := if cf_DisableListen l0 then [] else peers in
  Ok (mkListenConfig (cf_NoMacaroons l0) (normalizeAddresses rpc (str "10009")) (normalizeAddresses rest (str "8080"))
        (normalizeAddresses peers (str "9735")) (cf_DisableListen l0) (cf_ExternalIPs l0)).

(** ** [loadConfig] *)

(** A copy of a configuration shares the options of its groups, which are pointers, with the
    original; the groups without defaults are made by the parser. *)
Definition share_groups (copy c : config) : config :=
  mkConfig (cf_ShowVersion c) (cf_paths c) (cf_listen c) (cf_DebugLevel c) (cf_Profile c) (cf_CPUProfile c) (cf_MaxPendingChannels c) (cf_Bitcoin copy) (cf_BtcdMode copy)
    (cf_BitcoindMode copy) (cf_NeutrinoMode c) (cf_Litecoin copy) (cf_LtcdMode copy) (cf_LitecoindMode copy) (cf_Autopilot copy) (cf_Tor c)
    (cf_TrickleDelay c) (cf_Alias c) (cf_Color c) (cf_net c).

(** The options: the defaults, overridden by the file, overridden by the command line.  The
    file is the one the command line names, or that of the default directory. *)
Definition read_options (dataDirec : bytes) : CF config :=
  let dir := defaultLndDir dataDirec in
  let c := defaultCfg dir in
  preCfg ← st_res (ce_Parse env c);
  if cf_ShowVersion preCfg then st_fail (ErrNew "os.Exit(0)")
  else
    let lndDir := cleanAndExpandPath (cf_LndDir (cf_paths preCfg)) in
    let c := share_groups preCfg c in
    let c := if bool_decide (lndDir = dir) then c else set_paths (relocate lndDir (cf_paths c)) c in
    _ ← st_res (ce_MkdirAll env dir);
    let configFile := cleanAndExpandPath (cf_ConfigFile (cf_paths preCfg)) in
    st_res (ce_Parse env (ce_IniParse env configFile c)).

Definition loadConfig (dataDirec : bytes) : CF config :=
  c ← read_options dataDirec;
  c ← st_res (check_autopilot (clean_paths c));
  c ← st_res (check_tor c);
  c ← select_chain c;
  if negb (empty (cf_Profile c)) && negb (user_port (cf_Profile c)) then st_fail (ErrNew "The profile port must be between 1024 and 65535")
  else
    _ ← st_upd (set_macaroonDir (cf_DataDir (cf_paths c)));
    let d := default_paths (defaultLndDir dataDirec) in
    let c := set_paths (move_macaroons (cf_DataDir d) d (cf_paths c)) c in
    g ← st_get;
    let c := set_paths (log_dir g (cf_paths c)) c in
    _ ← initLogRotator (path_Join [cf_LogDir (cf_paths c); str "lnd.log"]);
    _ ← set_levels (cf_DebugLevel c);
    l ← st_res (check_listeners (cf_listen c));
    mret (set_listen l c).

(** ** Addresses *)

Lemma normalize_step addrs port acc :
  NoDup acc ->
  let r := foldl (fun result addr => let a := normalizeAddress port addr in if bool_decide (a ∈ result) then result else result ++ [a]) acc addrs in
  NoDup r /\ forall a, a ∈ r <-> a ∈ acc \/ exists x, x ∈ addrs /\ normalizeAddress port x = a.
Proof.
  revert acc. induction addrs as [|x addrs IH]; intros acc Hn; cbn [foldl]; [split; [done|]; intros a; set_solver|].
  assert (forall (a : bytes) (acc' : list bytes), (forall b, b ∈ acc' <-> b ∈ acc \/ b = normalizeAddress port x) ->
    (a ∈ acc' \/ exists y, y ∈ addrs /\ normalizeAddress port y = a) <-> (a ∈ acc \/ exists y, y ∈ x :: addrs /\ normalizeAddress port y = a)) as Heq.
  { intros a acc' H. rewrite H. split; [intros [[?| ->]|(y & Hy & <-)]; [by left|right; exists x; set_solver|right; exists y; set_solver]|].
    intros [?|(y & [-> |Hy]%elem_of_cons & <-)]; [by left; left|by left; right|right; by exists y]. }
  case_bool_decide as E.
  - destruct (IH acc Hn) as [H1 H2]. split; [done|]. intros a. rewrite H2. apply Heq. set_solver.
  - assert (NoDup (acc ++ [normalizeAddress port x])) as Hn'.
    { apply NoDup_app. split; [done|]. split; [set_solver|apply NoDup_singleton]. }
    destruct (IH _ Hn') as [H1 H2]. split; [done|]. intros a. rewrite H2. apply Heq. set_solver.
Qed.

Lemma normalize_spec addrs port :
  NoDup (normalizeAddresses addrs port) /\ forall a, a ∈ normalizeAddresses addrs port <-> exists x, x ∈ addrs /\ normalizeAddress port x = a.
Proof.
  destruct (normalize_step addrs port [] (NoDup_nil_2)) as [H1 H2]. split; [exact H1|]. intros a. unfold normalizeAddresses. rewrite H2. set_solver.
Qed.

(** An address that can be listened on: it has a host and a port already, or no bracket. *)
Definition listenable (addr : bytes) : Prop := is_ok (SplitHostPort addr) = true \/ plain addr.

#[global] Instance listenable_dec addr : Decision (listenable addr).
Proof. unfold listenable. apply _. Defined.

(** The names of the own host, which [isLoopback] looks for anywhere in an address. *)
Definition own_host_names : list bytes := [str "localhost"; str "127.0.0.1"; str "[::1]"].

(** Every listed address has a host and a port. *)
Lemma normalizeAddress_splits port addr :
  plain port -> chr_colon ∉ port -> listenable addr -> is_ok (SplitHostPort (normalizeAddress port addr)) = true.
Proof.
  intros Hp Hc Hl. unfold normalizeAddress. destruct (SplitHostPort addr) as [[h p]|e] eqn:E; [by rewrite E|].
  destruct Hl as [Hl|Hl]; [by rewrite E in Hl|]. destruct (Atoi addr) as [z|e'] eqn:Ea.
  - destruct (Atoi_plain addr z Ea). rewrite Split_JoinHostPort; [done| |done..]. by_eval.
  - by rewrite Split_JoinHostPort.
Qed.

Lemma isLoopback_spec addr : isLoopback addr = true <-> exists s, s ∈ [str "localhost"; str "127.0.0.1"; str "[::1]"] /\ Contains addr s = true.
Proof. unfold isLoopback. rewrite existsb_exists. setoid_rewrite <- list_elem_of_In. done. Qed.

Lemma JoinHostPort_host host port : exists a b, JoinHostPort host port = a ++ host ++ b.
Proof. unfold JoinHostPort. destruct (contains_byte chr_colon host); [by exists [chr_open], (chr_close :: chr_colon :: port)|by exists [], (chr_colon :: port)]. Qed.

(** Normalizing an address does not hide whether it names the own host. *)
Lemma normalize_loopback port addr : isLoopback addr = true -> isLoopback (normalizeAddress port addr) = true.
Proof.
  unfold normalizeAddress. destruct (SplitHostPort addr) as [p|e]; [done|]. destruct (Atoi addr) as [z|e']; rewrite !isLoopback_spec; intros (s & Hs & Hc).
  - exists (str "localhost"). split; [by left|]. apply (Contains_app [] (str "localhost")).
  - exists s. split; [done|]. apply Contains_spec in Hc as (a & b & ->). destruct (JoinHostPort_host (a ++ s ++ b) port) as (x & y & ->).
    apply Contains_spec. exists (x ++ a), (b ++ y). by rewrite <- !app_assoc.
Qed.

(** ** What is accepted *)

Lemma bind_Ok {A B} (m : CF A) (f : A -> CF B) g b g' :
  (m ≫= f) g = (Ok b, g') -> exists a g1, m g = (Ok a, g1) /\ f a g1 = (Ok b, g').
Proof. unfold mbind, st_bind. destruct (m g) as [[a|e] g1]; [|done]. intros H. by exists a, g1. Qed.

(** The addresses a configuration listens on. *)
Definition listeners_ok (l0 l : listenConfig) : Prop :=
  cf_NoMacaroons l = cf_NoMacaroons l0 /\ cf_RPCListeners l <> [] /\ cf_RESTListeners l <> []
  /\ NoDup (cf_RPCListeners l) /\ NoDup (cf_RESTListeners l) /\ NoDup (cf_Listeners l)
  /\ (cf_DisableListen l0 = true -> cf_Listeners l = [])
  /\ (cf_NoMacaroons l = true ->
      forall a, a ∈ cf_RPCListeners l ++ cf_RESTListeners l -> exists name, name ∈ own_host_names /\ Contains a name = true)
  /\ (forall a, a ∈ cf_RPCListeners l ++ cf_RESTListeners l ++ cf_Listeners l ->
      is_ok (SplitHostPort a) = true
      \/ exists x port, x ∈ cf_RPCListeners l0 ++ cf_RESTListeners l0 ++ cf_Listeners l0 /\ ~ listenable x /\ a = normalizeAddress port x).

Lemma enforce_ok addrs m : enforceSafeAuthentication addrs m = Ok tt -> m = false -> forall a, a ∈ addrs -> isLoopback a = true.
Proof.
  unfold enforceSafeAuthentication. destruct (forallb _ addrs) eqn:E; [|done]. intros _ -> a Ha. rewrite forallb_forall in E.
  apply list_elem_of_In, E in Ha. by rewrite orb_false_r in Ha.
Qed.

(** An address of a list has a host and a port, or comes from one in brackets that has none. *)
Lemma normalized_splits l d port :
  listenable d -> plain port -> chr_colon ∉ port ->
  forall a, a ∈ normalizeAddresses (or_default l d) port ->
  is_ok (SplitHostPort a) = true \/ exists x port, x ∈ l /\ ~ listenable x /\ a = normalizeAddress port x.
Proof.
  intros Hd Hp Hc a (x & Hx & <-)%normalize_spec. destruct (decide (listenable x)) as [Hl|Hl]; [left; by apply normalizeAddress_splits|].
  right. exists x, port. split; [|done]. destruct l; [|done]. by apply list_elem_of_singleton in Hx as ->.
Qed.

Lemma normalized_nonempty l a port : normalizeAddresses (or_default l a) port <> [].
Proof.
  intros E. destruct (normalize_spec (or_default l a) port) as [_ H]. rewrite E in H.
  assert (exists x, x ∈ or_default l a) as [x Hx] by (destruct l as [|x l]; [exists a|exists x]; by left).
  specialize (H (normalizeAddress port x)). apply (not_elem_of_nil (normalizeAddress port x)), H. by exists x.
Qed.

Lemma normalized_all addrs port (P Q : bytes -> Prop) :
  (forall x, P x -> Q (normalizeAddress port x)) -> (forall x, x ∈ addrs -> P x) -> forall a, a ∈ normalizeAddresses addrs port -> Q a.
Proof. intros H HP a Ha. apply normalize_spec in Ha as (x & Hx & <-). auto. Qed.

Lemma check_listeners_ok l0 l : check_listeners l0 = Ok l -> listeners_ok l0 l.
Proof.
  unfold check_listeners. intros H. apply res_bind_Ok_inv in H as ([] & H1 & H). apply res_bind_Ok_inv in H as ([] & H2 & H). injection H as <-.
  unfold listeners_ok. cbn [cf_NoMacaroons cf_RPCListeners cf_RESTListeners cf_Listeners].
  split; [done|]. split; [apply normalized_nonempty|]. split; [apply normalized_nonempty|]. do 3 (split; [apply normalize_spec|]).
  split; [by intros ->|]. split.
  - intros Hn a. assert (negb (cf_NoMacaroons l0) = false) as Hm by (by rewrite Hn). rewrite elem_of_app.
    intros Ha. apply isLoopback_spec.
    destruct Ha as [Ha|Ha]; revert a Ha; apply (normalized_all _ _ (fun x => isLoopback x = true)); eauto using normalize_loopback, enforce_ok.
  - assert (forall (l1 l2 : list bytes) a, (forall x : bytes, x ∈ l1 -> x ∈ l2) ->
      is_ok (SplitHostPort a) = true \/ (exists x port, x ∈ l1 /\ ~ listenable x /\ a = normalizeAddress port x) ->
      is_ok (SplitHostPort a) = true \/ exists x port, x ∈ l2 /\ ~ listenable x /\ a = normalizeAddress port x) as Hw.
    { intros l1 l2 a Hs [?|(x & port & Hx & ?)]; [by left|right; exists x, port; auto]. }
    intros a. rewrite !elem_of_app. intros [Ha|[Ha|Ha]].
    + apply (Hw (cf_RPCListeners l0)); [set_solver|]. revert a Ha. apply normalized_splits; [left; reflexivity|by_eval|by_eval].
    + apply (Hw (cf_RESTListeners l0)); [set_solver|]. revert a Ha. apply normalized_splits; [left; reflexivity|by_eval|by_eval].
    + destruct (cf_DisableListen l0); [by apply elem_of_nil in Ha|].
      apply (Hw (cf_Listeners l0)); [set_solver|]. revert a Ha. apply normalized_splits; [left; reflexivity|by_eval|by_eval].
Qed.

Definition autopilot_ok (a : autoPilotConfig) : Prop :=
  0 <= ap_MaxChannels a /\ SFltb (ap_Allocation a) (S754_zero false) = false
  /\ minChanFundingSize <= ap_MinChannelSize a /\ 0 <= ap_MaxChannelSize a <= maxFundingAmount.

Lemma check_autopilot_ok c c' : check_autopilot c = Ok c' -> exists a, c' = set_Autopilot a c /\ autopilot_ok a.
Proof.
  unfold check_autopilot. destruct (Z.ltb_spec (ap_MaxChannels (cf_Autopilot c)) 0); [done|]. destruct (SFltb _ _) eqn:Ef; [done|].
  destruct (Z.ltb_spec (ap_MinChannelSize (cf_Autopilot c)) 0); [done|]. destruct (Z.ltb_spec (ap_MaxChannelSize (cf_Autopilot c)) 0); [done|].
  intros [= <-]. eexists. split; [done|]. unfold autopilot_ok. cbn [ap_MaxChannels ap_Allocation ap_MinChannelSize ap_MaxChannelSize].
  split; [done|]. split; [done|]. unfold minChanFundingSize, maxFundingAmount.
  destruct (Z.ltb_spec (ap_MinChannelSize (cf_Autopilot c)) 20000), (Z.ltb_spec (2 ^ 24) (ap_MaxChannelSize (cf_Autopilot c))); lia.
Qed.

(** With Tor nothing is listened on and no address is announced; half a proxy is none. *)
Definition tor_ok (c : config) : Prop :=
  if negb (empty (tr_Socks (cf_Tor c))) || negb (empty (tr_DNS (cf_Tor c)))
  then cf_DisableListen (cf_listen c) = true /\ cf_ExternalIPs (cf_listen c) = [] /\ user_port (tr_Socks (cf_Tor c)) = true
       /\ cf_net c = TorProxyNet (tr_DNS (cf_Tor c)) (tr_Socks (cf_Tor c)) (tr_StreamIsolation (cf_Tor c))
  else cf_net c = RegularNet.

Lemma check_tor_ok c c' :
  check_tor c = Ok c' -> tor_ok c' /\ exists n l, c' = set_listen l (set_net n c) /\ (l = cf_listen c \/ l = disable_listen (cf_listen c)).
Proof.
  unfold check_tor, tor_ok. cbn [set_net cf_Tor cf_listen]. destruct (empty (tr_Socks (cf_Tor c))) eqn:E1, (empty (tr_DNS (cf_Tor c))) eqn:E2; cbn [negb andb orb]; try done.
  - intros [= <-]. cbn [set_net cf_Tor cf_listen cf_net]. rewrite E1, E2. cbn. split; [done|]. exists RegularNet, (cf_listen c). by split; [|left].
  - destruct (user_port _) eqn:Ep; cbn [negb]; [|done]. destruct (cf_ExternalIPs (cf_listen c)) eqn:Ee; [|done]. intros [= <-].
    cbn [set_net set_listen cf_Tor cf_listen cf_net disable_listen cf_DisableListen cf_ExternalIPs]. rewrite E1, E2. cbn. split; [by rewrite Ee|].
    eexists _, _. split; [done|by right].
Qed.

(** What the daemon needs to speak to its backend was given or found: for btcd the name and
    the password; for bitcoind the ZMQ address, and the name and the password, neither empty
    unless they are the two parts of a cookie. *)
Definition backend_ok (c : chainConfig) (m : btcdConfig) (n : bitcoindConfig) : Prop :=
  (cc_Node c ∈ [str "btcd"; str "ltcd"] -> bd_RPCUser m <> [] /\ bd_RPCPass m <> [])
  /\ (cc_Node c ∈ [str "bitcoind"; str "litecoind"] ->
      bi_ZMQPath n <> []
      /\ ((bi_RPCUser n <> [] /\ bi_RPCPass n <> []) \/ exists file, read_cookie file = Some (bi_RPCUser n, bi_RPCPass n))).

Lemma find_setting_nonempty key s w : find_setting key s = Some w -> w <> [].
Proof. intros (_ & _ & _ & (H & _) & _)%find_setting_sound. exact H. Qed.

Lemma empty_false s : empty s = false <-> s <> [].
Proof. unfold empty. by rewrite bool_decide_eq_false. Qed.

Lemma parse_btcd_ok c b chain g b' g' :
  parse_btcd c b chain g = (Ok b', g') -> cc_Node c ∈ [str "btcd"; str "ltcd"] -> g' = g /\ bd_RPCUser b' <> [] /\ bd_RPCPass b' <> [].
Proof.
  unfold parse_btcd. intros (? & ? & [= <- <-] & H)%bind_Ok Hnode. apply bind_Ok in H as (n & g1 & [= H <-] & Hn). revert H.
  unfold parseRPCParams. cbn [credentials forallb existsb]. rewrite !andb_true_r, !orb_false_r.
  destruct (empty (bd_RPCUser b)) eqn:E1, (empty (bd_RPCPass b)) eqn:E2; cbn [negb andb orb]; try done.
  - destruct (cc_SimNet c); [done|]. rewrite bool_decide_true by done. unfold extractBtcdRPCParams. destruct (ce_ReadFile env _) as [s|e]; [|done].
    cbn [mbind res_bind]. destruct (find_setting (str "rpcuser") s) as [u|] eqn:Eu; [|done]. destruct (find_setting (str "rpcpass") s) as [p|] eqn:Ep; [|done].
    cbn. intros [= <-]. injection Hn as <- <-. apply find_setting_nonempty in Eu, Ep. done.
  - intros [= <-]. injection Hn as <- <-. by apply empty_false in E1, E2.
Qed.

Lemma parse_bitcoind_ok c b chain g b' g' :
  parse_bitcoind c b chain g = (Ok b', g') -> cc_Node c ∈ [str "bitcoind"; str "litecoind"] ->
  g' = g /\ bi_ZMQPath b' <> []
  /\ ((bi_RPCUser b' <> [] /\ bi_RPCPass b' <> []) \/ exists file, read_cookie file = Some (bi_RPCUser b', bi_RPCPass b')).
Proof.
  unfold parse_bitcoind. intros (? & ? & [= <- <-] & H)%bind_Ok Hnode. apply bind_Ok in H as (n & g1 & [= H <-] & Hn). revert H.
  unfold parseRPCParams. cbn [credentials forallb existsb].
  destruct (negb (empty (bi_RPCUser b)) && (negb (empty (bi_RPCPass b)) && (negb (empty (bi_ZMQPath b)) && true))) eqn:Eall.
  { intros [= <-]. injection Hn as <- <-. rewrite !andb_true_iff, !negb_true_iff in Eall. split; [done|].
    destruct Eall as (Eu & Ep & Ez & _). apply empty_false in Eu, Ep, Ez. split; [done|by left]. }
  destruct (_ || _); [done|]. destruct (cc_SimNet c); [done|].
  assert (cc_Node c ∉ [str "btcd"; str "ltcd"]) as Hne.
  { intros Hd. rewrite !elem_of_cons, elem_of_nil in Hnode. rewrite !elem_of_cons, elem_of_nil in Hd.
    destruct Hnode as [E|[E|[]]]; rewrite E in Hd; revert Hd; by_eval. }
  rewrite bool_decide_false, bool_decide_true by done. unfold extractBitcoindRPCParams. destruct (ce_ReadFile env _) as [s|e]; [|done].
  cbn [mbind res_bind]. destruct (find_setting (str "zmqpubrawblock") s) as [z|] eqn:Ez; [|done]. apply find_setting_nonempty in Ez.
  destruct (read_cookie _) as [[u p]|] eqn:Ec.
  { intros [= <-]. injection Hn as <- <-. split; [done|]. split; [done|]. right. by eexists. }
  destruct (find_setting (str "rpcuser") s) as [u|] eqn:Eu; [|done]. destruct (find_setting (str "rpcpassword") s) as [p|] eqn:Ep; [|done].
  intros [= <-]. injection Hn as <- <-. apply find_setting_nonempty in Eu, Ep. split; [done|]. split; [done|by left].
Qed.

(** The network of the flags. *)
Definition networks (c : chainConfig) : nat := b2n (cc_MainNet c) + b2n (cc_TestNet3 c) + b2n (cc_RegTest c) + b2n (cc_SimNet c).

Definition bitcoin_params (b : chainConfig) : bitcoinNetParams :=
  if cc_MainNet b then bitcoinMainNetParams else if cc_TestNet3 b then bitcoinTestNetParams else if cc_RegTest b then regTestNetParams else bitcoinSimNetParams.

Lemma when_networks b g :
  networks b = 1%nat ->
  exists g1, (_ ← when (cc_MainNet b) (set_active bitcoinMainNetParams); _ ← when (cc_TestNet3 b) (set_active bitcoinTestNetParams);
              _ ← when (cc_RegTest b) (set_active regTestNetParams); when (cc_SimNet b) (set_active bitcoinSimNetParams)) g = (Ok tt, g1)
    /\ g1 = set_active (bitcoin_params b) g.
Proof.
  unfold networks, bitcoin_params. destruct (cc_MainNet b), (cc_TestNet3 b), (cc_RegTest b), (cc_SimNet b); try done; intros _; eexists; split; reflexivity.
Qed.

Lemma select_bitcoin_ok c g c' g' :
  select_bitcoin c g = (Ok c', g') ->
  let b := cf_Bitcoin c in
  networks b = 1%nat /\ minTimeLockDelta <= cc_TimeLockDelta b /\ g' = set_primary bitcoinChain (set_active (bitcoin_params b) g)
  /\ exists m n, c' = set_bitcoin (set_ChainDir (chain_dir c bitcoinChain) b) m n c /\ backend_ok b m n.
Proof.
  unfold select_bitcoin. set (b := cf_Bitcoin c). fold (networks b). intros H.
  apply bind_Ok in H as ([] & g1 & H1 & H). apply bind_Ok in H as ([] & g2 & H2 & H). apply bind_Ok in H as ([] & g3 & H3 & H). apply bind_Ok in H as ([] & g4 & H4 & H).
  destruct (Nat.ltb_spec 1 (networks b)); [done|]. destruct (Nat.eqb_spec (networks b) 0); [done|]. assert (networks b = 1%nat) as Hone by lia.
  destruct (_ && _); [done|]. destruct (Z.ltb_spec (cc_TimeLockDelta b) minTimeLockDelta); [done|].
  assert (g4 = set_active (bitcoin_params b) g) as ->.
  { destruct (when_networks b g Hone) as (g5 & E & ->). revert E. unfold mbind, st_bind. rewrite H1, H2, H3, H4. by intros [= ->]. }
  apply bind_Ok in H as (modes & g5 & Hm & H). apply bind_Ok in H as ([] & g6 & [= <-] & [= <- <-]).
  split; [done|]. split; [done|].
  assert (g5 = set_active (bitcoin_params b) g /\ backend_ok b modes.1 modes.2) as [-> Hb].
  { case_bool_decide as E1.
    - apply bind_Ok in Hm as (m & g7 & Hm & [= <- <-]). apply parse_btcd_ok in Hm as (-> & Hu & Hp); [|rewrite E1; by left]. split; [done|].
      split; [done|]. rewrite E1. intros Hn. exfalso. revert Hn. by_eval.
    - case_bool_decide as E2.
      + destruct (cc_SimNet b); [done|]. apply bind_Ok in Hm as (m & g7 & Hm & [= <- <-]). apply parse_bitcoind_ok in Hm as (-> & Hz); [|rewrite E2; by left].
        split; [done|]. split; [|done]. rewrite E2. intros Hn. exfalso. revert Hn. by_eval.
      + case_bool_decide as E3; [|done]. injection Hm as <- <-. split; [done|]. split; rewrite E3; intros Hn; exfalso; revert Hn; by_eval. }
  split; [done|]. by exists modes.1, modes.2.
Qed.

Definition litecoin_network (l : chainConfig) : litecoinNetParams :=
  if cc_TestNet3 l then litecoinTestNetParams (ce_TestNet4Params env) else litecoinMainNetParams (ce_LtcMainNetParams env).

(** The state in which a litecoin network is active. *)
Definition litecoin_active (l : litecoinNetParams) (g : globals) : globals :=
  let (heap, p) := applyLitecoinParams (g_chaincfg g) (g_activeNetParams g) l in set_network heap p g.

Lemma select_litecoin_ok c g c' g' :
  select_litecoin c g = (Ok c', g') ->
  let l := cf_Litecoin c in
  networks l = 1%nat /\ minTimeLockDelta <= cc_TimeLockDelta l /\ g' = set_primary litecoinChain (litecoin_active (litecoin_network l) g)
  /\ exists m n, c' = set_litecoin (set_ChainDir (chain_dir c litecoinChain) l) m n c /\ backend_ok l m n.
Proof.
  unfold select_litecoin. set (l := cf_Litecoin c). destruct (cc_SimNet l) eqn:Es; [done|]. destruct (cc_RegTest l) eqn:Er; [done|].
  destruct (Z.ltb_spec (cc_TimeLockDelta l) minTimeLockDelta) as [|Htl]; [done|]. destruct (Nat.ltb_spec 1 (b2n (cc_MainNet l) + b2n (cc_TestNet3 l))) as [|Hle]; [done|].
  destruct (litecoin_params l) as [ltc|] eqn:El; [|done].
  assert (ltc = litecoin_network l /\ networks l = 1%nat) as [-> Hone].
  { revert El Hle. unfold litecoin_params, litecoin_network, networks. rewrite Es, Er.
    destruct (cc_TestNet3 l), (cc_MainNet l); cbn; intros [= <-] ?; (lia || by split). }
  intros H. apply bind_Ok in H as ([] & g1 & [= <-] & H). apply bind_Ok in H as (modes & g2 & Hm & H). apply bind_Ok in H as ([] & g3 & [= <-] & [= <- <-]).
  fold (litecoin_active (litecoin_network l) g) in Hm. split; [done|]. split; [done|].
  assert (g2 = litecoin_active (litecoin_network l) g /\ backend_ok l modes.1 modes.2) as [-> Hb].
  { case_bool_decide as E1.
    - apply bind_Ok in Hm as (m & g7 & Hm & [= <- <-]). apply parse_btcd_ok in Hm as (-> & Hu & Hp); [|rewrite E1; by right; left]. split; [done|].
      split; [done|]. rewrite E1. intros Hn. exfalso. revert Hn. by_eval.
    - case_bool_decide as E2; [|done]. apply bind_Ok in Hm as (m & g7 & Hm & [= <- <-]). apply parse_bitcoind_ok in Hm as (-> & Hz); [|rewrite E2; by right; left].
      split; [done|]. split; [|done]. rewrite E2. intros Hn. exfalso. revert Hn. by_eval. }
  split; [done|]. by exists modes.1, modes.2.
Qed.

(** One chain and one network of it are active, and the package variables say so. *)
Definition chain_ok (c : config) (g g' : globals) : Prop :=
  (g_primaryChain g' = bitcoinChain /\ cc_Active (cf_Bitcoin c) = true /\ cc_Active (cf_Litecoin c) = false /\ networks (cf_Bitcoin c) = 1%nat
   /\ minTimeLockDelta <= cc_TimeLockDelta (cf_Bitcoin c) /\ g_activeNetParams g' = bitcoin_params (cf_Bitcoin c) /\ g_chaincfg g' = g_chaincfg g
   /\ backend_ok (cf_Bitcoin c) (cf_BtcdMode c) (cf_BitcoindMode c))
  \/ (g_primaryChain g' = litecoinChain /\ cc_Active (cf_Bitcoin c) = false /\ cc_Active (cf_Litecoin c) = true /\ networks (cf_Litecoin c) = 1%nat
   /\ minTimeLockDelta <= cc_TimeLockDelta (cf_Litecoin c)
   /\ pr_GenesisHash (g_chaincfg g' (np_Params (g_activeNetParams g'))) = pr_GenesisHash (ln_Params (litecoin_network (cf_Litecoin c)))
   /\ np_CoinType (g_activeNetParams g') = ln_CoinType (litecoin_network (cf_Litecoin c))
   /\ backend_ok (cf_Litecoin c) (cf_LtcdMode c) (cf_LitecoindMode c)).

Lemma select_chain_ok c g c' g' :
  select_chain c g = (Ok c', g') ->
  chain_ok c' g g' /\ cf_listen c' = cf_listen c /\ cf_Tor c' = cf_Tor c /\ cf_net c' = cf_net c /\ cf_Autopilot c' = cf_Autopilot c /\ cf_Profile c' = cf_Profile c.
Proof.
  unfold select_chain, chain_ok. destruct (cc_Active (cf_Litecoin c)) eqn:El, (cc_Active (cf_Bitcoin c)) eqn:Eb; cbn [andb negb]; try done.
  - intros (H1 & H2 & -> & m & n & -> & Hb)%select_litecoin_ok. split; [|done]. right. cbn [set_litecoin cf_Bitcoin cf_Litecoin cf_LtcdMode cf_LitecoindMode].
    unfold litecoin_active, applyLitecoinParams. cbn. rewrite decide_True by done. done.
  - intros (H1 & H2 & -> & m & n & -> & Hb)%select_bitcoin_ok. split; [|done]. left. done.
Qed.

Lemma read_options_state dataDirec g r g' : read_options dataDirec g = (r, g') -> g' = g.
Proof.
  unfold read_options, mbind, st_bind, st_res, st_fail. destruct (ce_Parse env _) as [p|e]; [|by intros [= <- <-]].
  destruct (cf_ShowVersion p); [by intros [= <- <-]|]. destruct (ce_MkdirAll env _) as [[]|e]; [|by intros [= <- <-]]. by intros [= <- <-].
Qed.

Lemma check_listeners_kept l0 l : check_listeners l0 = Ok l -> cf_DisableListen l = cf_DisableListen l0 /\ cf_ExternalIPs l = cf_ExternalIPs l0.
Proof. unfold check_listeners. intros H. apply res_bind_Ok_inv in H as ([] & _ & H). apply res_bind_Ok_inv in H as ([] & _ & H). by injection H as <-. Qed.

Lemma listeners_weaken l0 tl l : tl = l0 \/ tl = disable_listen l0 -> listeners_ok tl l -> listeners_ok l0 l.
Proof.
  intros [-> | ->]; [done|]. unfold listeners_ok, disable_listen. cbn. intros (H1 & H2 & H3 & H4 & H5 & H6 & H7 & H8). split; [done|].
  do 5 (split; [done|]). split; [|done]. intros _. by apply H7.
Qed.

Lemma tor_kept c c' :
  tor_ok c -> cf_Tor c' = cf_Tor c -> cf_net c' = cf_net c ->
  cf_DisableListen (cf_listen c') = cf_DisableListen (cf_listen c) /\ cf_ExternalIPs (cf_listen c') = cf_ExternalIPs (cf_listen c) -> tor_ok c'.
Proof. unfold tor_ok. by intros H -> -> [-> ->]. Qed.

(** What comes after the choice of the chain does not touch it. *)
Lemma loadConfig_chain dataDirec g c g' : loadConfig dataDirec g = (Ok c, g') -> chain_ok c g g'.
Proof.
  unfold loadConfig. intros H. apply bind_Ok in H as (c0 & g0 & H0 & H). pose proof (read_options_state _ _ _ _ H0) as ->.
  apply bind_Ok in H as (c1 & g1 & [= _ <-] & H). apply bind_Ok in H as (c2 & g2 & [= _ <-] & H). apply bind_Ok in H as (c3 & g3 & [Hc _]%select_chain_ok & H).
  destruct (_ && _); [done|]. apply bind_Ok in H as ([] & g4 & [= <-] & H). apply bind_Ok in H as (? & ? & [= <- <-] & H).
  apply bind_Ok in H as ([] & g5 & H5 & H). apply bind_Ok in H as ([] & g6 & H6 & H). apply bind_Ok in H as (l & g7 & [= _ <-] & [= <- <-]).
  unfold initLogRotator in H5. apply bind_Ok in H5 as (? & ? & [= <- <-] & H5). destruct (ce_rotator env _); [|done]. injection H5 as <-.
  unfold set_levels in H6. cbn in H6. destruct (parseAndSetDebugLevels _ _) as [lg [[]|e]]; [|done]. injection H6 as <-. exact Hc.
Qed.

(** C14: a configuration that is accepted has one active chain with one network, whose
    parameters the daemon uses, a time lock that is large enough and the credentials of its
    backend (a name and a password, for bitcoind also the address of its notifications; only
    a cookie may give an empty name or password); the sizes of the autopilot's channels are
    bounded; behind Tor the node neither listens nor announces an address; there is an address
    to listen on for RPC and for REST, none twice; each address splits into a host and a
    port, unless it was configured with brackets and without a port; and without
    authentication each of the RPC and REST addresses contains [localhost], [127.0.0.1] or
    [[::1]] (as a substring: whether it is an address of the own host is not checked). *)
Theorem config_accepted dataDirec g c g' :
  loadConfig dataDirec g = (Ok c, g') ->
  exists c0, read_options dataDirec g = (Ok c0, g)
    /\ chain_ok c g g' /\ autopilot_ok (cf_Autopilot c) /\ tor_ok c /\ listeners_ok (cf_listen c0) (cf_listen c)
    /\ (tr_Socks (cf_Tor c) <> [] -> cf_Listeners (cf_listen c) = [])
    /\ g_logFile g' = Some (path_Join [cf_LogDir (cf_paths c); str "lnd.log"]).
Proof.
  unfold loadConfig. intros H. apply bind_Ok in H as (c0 & g0 & H0 & H). pose proof (read_options_state _ _ _ _ H0) as ->.
  apply bind_Ok in H as (c1 & g1 & [= H1 <-] & H). apply check_autopilot_ok in H1 as (a & -> & Ha).
  apply bind_Ok in H as (c2 & g2 & [= H2 <-] & H). apply check_tor_ok in H2 as (Ht & tn & tl & -> & Htl).
  apply bind_Ok in H as (c3 & g3 & H3 & H). apply select_chain_ok in H3 as (Hc & Hl & Htor & Hnet & Hap & _).
  destruct (_ && _); [done|]. apply bind_Ok in H as ([] & g4 & [= <-] & H). apply bind_Ok in H as (? & ? & [= <- <-] & H).
  set (c4 := set_paths (log_dir _ _) _) in H. apply bind_Ok in H as ([] & g5 & H5 & H). apply bind_Ok in H as ([] & g6 & H6 & H).
  apply bind_Ok in H as (l & g7 & [= H7 <-] & [= <- <-]).
  change (check_listeners (cf_listen c3) = Ok l) in H7. rewrite Hl in H7. pose proof (check_listeners_kept _ _ H7) as H8. apply check_listeners_ok in H7.
  unfold initLogRotator in H5. apply bind_Ok in H5 as (? & ? & [= <- <-] & H5). destruct (ce_rotator env _); [|done]. injection H5 as <-.
  unfold set_levels in H6. cbn in H6. destruct (parseAndSetDebugLevels _ _) as [lg [[]|e]]; [|done]. injection H6 as <-.
  exists c0. split; [done|]. split; [exact Hc|]. split; [change (autopilot_ok (cf_Autopilot c3)); by rewrite Hap|].
  change (tor_ok (set_listen l c4) /\ listeners_ok (cf_listen c0) l /\ (tr_Socks (cf_Tor c3) <> [] -> cf_Listeners l = []) /\
    Some (path_Join [cf_LogDir (cf_paths c4); str "lnd.log"]) = Some (path_Join [cf_LogDir (cf_paths c4); str "lnd.log"])).
  split; [apply (tor_kept _ (set_listen l c4) Ht); [exact Htor|exact Hnet|exact H8]|]. split; [exact (listeners_weaken _ _ _ Htl H7)|]. split; [|done]. intros Hs. apply H7.
  unfold tor_ok in Ht. rewrite Htor in Hs. cbn [set_listen set_net cf_Tor cf_listen] in Ht, Hs. apply empty_false in Hs. rewrite Hs in Ht. apply Ht.
Qed.

(** ** Files of the backends *)

(** The credentials written into the configuration of btcd are read back. *)
Lemma btcd_credentials_read file u p :
  word u -> word p -> ce_ReadFile env file = Ok (write_setting (str "rpcuser") u ++ write_setting (str "rpcpass") p) ->
  extractBtcdRPCParams file = Ok (u, p).
Proof.
  intros Hu Hp Hf. unfold extractBtcdRPCParams. rewrite Hf. cbn [mbind res_bind].
  rewrite find_setting_line by (done || (split; [done|by_eval])). rewrite find_setting_other by (done || (split; [done|by_eval])).
  rewrite <- (app_nil_r (write_setting (str "rpcpass") p)), find_setting_line by (done || (split; [done|by_eval])). done.
Qed.

(** So are those of bitcoind, when it left no cookie; a cookie comes before them. *)
Lemma bitcoind_credentials_read network file z u p :
  word z -> word u -> word p ->
  ce_ReadFile env file = Ok (write_setting (str "zmqpubrawblock") z ++ write_setting (str "rpcuser") u ++ write_setting (str "rpcpassword") p) ->
  extractBitcoindRPCParams network file
  = match read_cookie (path_Dir file ++ cookie_dir network ++ str ".cookie") with Some (cu, cp) => Ok (cu, cp, z) | None => Ok (u, p, z) end.
Proof.
  intros Hz Hu Hp Hf. unfold extractBitcoindRPCParams. rewrite Hf. cbn [mbind res_bind].
  assert (word (str "zmqpubrawblock") /\ word (str "rpcuser") /\ word (str "rpcpassword")) as (K1 & K2 & K3) by (repeat split; (done || by_eval)).
  rewrite <- (app_nil_r (write_setting (str "rpcpassword") p)).
  rewrite (find_setting_line (str "zmqpubrawblock")) by done.
  rewrite !(find_setting_other (str "datadir")) by done.
  rewrite (find_setting_other (str "rpcuser")), (find_setting_line (str "rpcuser")) by done.
  rewrite !(find_setting_other (str "rpcpassword")), (find_setting_line (str "rpcpassword")) by done.
  change (default (path_Dir file) (find_setting (str "datadir") [])) with (path_Dir file). by destruct (read_cookie _) as [[cu cp]|].
Qed.

End LoadConfig.
