(* ===== verification/StartUp.v ===== *)
(** * Starting the daemon

    chainregistry.go, [newChainControlFromConfig], and client.go, [Start] with its own copy of
    that function and the terms of new channels it hands to the funding manager.

    Making a part of the daemon is a call of library code that succeeds or fails, which is an
    argument here; the calls that were made are the state.  What a call makes is described by
    its arguments. *)

From Stdlib Require Import ZArith Lia.
From Stdlib Require Import Init.Byte.
From stdpp Require Import base gmap strings numbers list pretty.
From S2P Require Import Prelude Tx Effects Preimages FundingManager PeerChans Server GoStrings RpcBase RpcOpen RpcFees Config.
Local Open Scope Z_scope.

(** ** The control of a chain *)

Record ConnConfig := mkConnConfig {
  rc_Host : bytes;
  rc_Endpoint : bytes;
  rc_User : bytes;
  rc_Pass : bytes;
  rc_Certificates : bytes;
  rc_DisableTLS : bool;
  rc_HTTPPostMode : bool
}.

(** Where blocks come from. *)
Inductive chainSource :=
  | NeutrinoSource (dir : bytes) (AddPeers ConnectPeers : list bytes)
  | BitcoindSource (c : ConnConfig) (ZMQPath : bytes)
  | BtcdSource (c : ConnConfig).

Inductive feeEstimator :=
  | StaticFeeEstimator (FeeRate : Z)
  | BitcoindFeeEstimator (c : ConnConfig) (fallBackFeeRate : Z)
  | BtcdFeeEstimator (c : ConnConfig) (fallBackFeeRate : Z).

Record walletConfig := mkWalletConfig {
  wc_PrivatePass : bytes;
  wc_PublicPass : bytes;
  wc_DataDir : bytes;
  wc_NetParams : net;
  wc_FeeEstimator : feeEstimator;
  wc_CoinType : Z;
  wc_HdSeed : option bytes;
  wc_ChainSource : chainSource
}.

(** The fields of [chainControl]: the notifier and the view of the chain have the same
    source; signer, message signer and access to the chain are the wallet. *)
Record chainControl := mkChainControl {
  ct_routingPolicy : ForwardingPolicy;
  ct_feeEstimator : feeEstimator;
  ct_source : chainSource;
  ct_wallet : walletConfig;
  ct_constraints : Z * Z
}.

Inductive cc_call :=
  | CMkdirAll (path : bytes)
  | CCreateDB (path : bytes)
  | CNewChainService (s : chainSource)
  | CStartService
  | CNewNotifier (s : chainSource)
  | CNewChainView (s : chainSource)
  | CNewClient (s : chainSource)
  | CDial (host : bytes)
  | CNewEstimator (e : feeEstimator)
  | CStartEstimator
  | CNewWallet (w : walletConfig)
  | CNewLightningWallet
  | CStartup
  | CGetRawTransaction (txid : bytes)
  | CStopService
  | CCloseDB.

(** The outside: whether a call succeeds, the certificates of btcd, and the first transaction
    of the best block. *)
Record controlEnv := mkControlEnv {
  co_result : cc_call -> res ();
  co_cert : bytes -> res bytes;
  co_firstTx : res bytes;
  co_DefaultDustLimit : Z
}.

Notation CC := (ST (list cc_call)).

Definition defaultBitcoinStaticFeeRate : Z := 50.
Definition defaultLitecoinStaticFeeRate : Z := 200.
Definition defaultLitecoinDustLimit : Z := 54600.
Definition MaxHTLCNumber : Z := 966.

Definition policy_of (c : chainConfig) : ForwardingPolicy :=
  mkForwardingPolicy (cc_MinHTLC c) (cc_BaseFee c) (cc_FeeRate c) (cc_TimeLockDelta c).

Section Control.
Context (env : controlEnv) (g : globals) (cfg : config).

Definition call (c : cc_call) : CC () := _ ← st_upd (fun calls => calls ++ [c]); st_res (co_result env c).

(** The name of the active network and its port for RPC. *)
Definition active_name : bytes := pr_Name (g_chaincfg g (np_Params (g_activeNetParams g))).

Definition homeChainConfig : chainConfig := if g_primaryChain g =? litecoinChain then cf_Litecoin cfg else cf_Bitcoin cfg.

(** The light client: its database, its service, and what is backed by it. *)
Definition neutrino_source : CC chainSource :=
  let neutrinoDbPath := path_Join [cc_ChainDir homeChainConfig; normalizeNetwork active_name] in
  let src := NeutrinoSource neutrinoDbPath (nc_AddPeers (cf_NeutrinoMode cfg)) (nc_ConnectPeers (cf_NeutrinoMode cfg)) in
  _ ← call (CMkdirAll neutrinoDbPath);
  _ ← call (CCreateDB (path_Join [neutrinoDbPath; str "neutrino.db"]));
  _ ← call (CNewChainService src);
  _ ← st_upd (fun calls => calls ++ [CStartService]);
  _ ← call (CNewNotifier src);
  _ ← call (CNewChainView src);
  mret src.

(** [cleanUp] of the light client *)
Definition neutrino_cleanUp : list cc_call := [CStopService; CCloseDB].

(** A node that speaks bitcoind's protocol has its port two below that of btcd; on the
    regression test network another one is used if nobody answers. *)
Definition bitcoind_host (mode : bitcoindConfig) : CC bytes :=
  if contains_byte chr_colon (bi_RPCHost mode) then mret (bi_RPCHost mode)
  else
    rpcPort ← st_res (Atoi (np_rpcPort (g_activeNetParams g)));
    let host (port : Z) := bi_RPCHost mode ++ chr_colon :: str (pretty port) in
    if cc_Active (cf_Bitcoin cfg) && cc_RegTest (cf_Bitcoin cfg) then
      r ← st_try (call (CDial (host (rpcPort - 2))));
      match r with Ok _ => mret (host (rpcPort - 2)) | Err _ => mret (host 18443) end
    else mret (host (rpcPort - 2)).

Definition start_estimator (e : feeEstimator) : CC feeEstimator :=
  _ ← call (CNewEstimator e);
  _ ← call CStartEstimator;
  mret e.

Definition bitcoind_source (static : feeEstimator) : CC (chainSource * feeEstimator) :=
  let mode := if cc_Active (cf_Bitcoin cfg) then cf_BitcoindMode cfg else cf_LitecoindMode cfg in
  bitcoindHost ← bitcoind_host mode;
  let rpcConfig := mkConnConfig bitcoindHost [] (bi_RPCUser mode) (bi_RPCPass mode) [] true true in
  let src := BitcoindSource rpcConfig (bi_ZMQPath mode) in
  _ ← call (CNewNotifier src);
  _ ← call (CNewChainView src);
  _ ← call (CNewClient src);
  if cc_Active (cf_Bitcoin cfg) && negb (cc_RegTest (cf_Bitcoin cfg)) then
    e ← start_estimator (BitcoindFeeEstimator rpcConfig 25); mret (src, e)
  else if cc_Active (cf_Litecoin cfg) then
    e ← start_estimator (BitcoindFeeEstimator rpcConfig 25); mret (src, e)
  else mret (src, static).

Definition btcd_source (static : feeEstimator) : CC (chainSource * feeEstimator) :=
  let mode := if cc_Active (cf_Bitcoin cfg) then cf_BtcdMode cfg else cf_LtcdMode cfg in
  rpcCert ← st_res (if negb (empty (bd_RawRPCCert mode)) then hex_DecodeString (bd_RawRPCCert mode) else co_cert env (bd_RPCCert mode));
  let btcdHost := if contains_byte chr_colon (bd_RPCHost mode) then bd_RPCHost mode
                  else bd_RPCHost mode ++ chr_colon :: np_rpcPort (g_activeNetParams g) in
  let rpcConfig := mkConnConfig btcdHost (str "ws") (bd_RPCUser mode) (bd_RPCPass mode) rpcCert false false in
  let src := BtcdSource rpcConfig in
  _ ← call (CNewNotifier src);
  _ ← call (CNewChainView src);
  _ ← call (CNewClient src);
  if negb (cc_SimNet (cf_Bitcoin cfg)) && negb (cc_SimNet (cf_Litecoin cfg)) && negb (cc_RegTest (cf_Bitcoin cfg)) && negb (cc_RegTest (cf_Litecoin cfg)) then
    e ← start_estimator (BtcdFeeEstimator rpcConfig 25); mret (src, e)
  else mret (src, static).

(** The wallet on top of a source. *)
Definition open_wallet (policy : ForwardingPolicy) (e : feeEstimator) (w : walletConfig) : CC chainControl :=
  _ ← call (CNewWallet w);
  let channelConstraints := (if g_primaryChain g =? litecoinChain then defaultLitecoinDustLimit else co_DefaultDustLimit env, MaxHTLCNumber / 2) in
  _ ← call CNewLightningWallet;
  _ ← call CStartup;
  mret (mkChainControl policy e (wc_ChainSource w) w channelConstraints).

(** A full node has to have the index of transactions. *)
Definition check_txindex : CC () :=
  firstTxHash ← st_res (co_firstTx env);
  if bool_decide (cc_Node homeChainConfig ∈ [str "btcd"; str "bitcoind"]) then
    r ← st_try (call (CGetRawTransaction firstTxHash));
    match r with Ok _ => mret tt | Err _ => st_fail (ErrNew "detected to not have --txindex active, cannot proceed") end
  else mret tt.

Definition newChainControlFromConfig (privateWalletPw publicWalletPw : bytes) : CC (chainControl * list cc_call) :=
  pe ← st_res (if g_primaryChain g =? bitcoinChain then Ok (policy_of (cf_Bitcoin cfg), StaticFeeEstimator defaultBitcoinStaticFeeRate)
               else if g_primaryChain g =? litecoinChain then Ok (policy_of (cf_Litecoin cfg), StaticFeeEstimator defaultLitecoinStaticFeeRate)
               else Err (ErrNew "Default routing policy for chain is unknown"));
  let node := cc_Node homeChainConfig in
  se ← (if bool_decide (node = str "neutrino") then src ← neutrino_source; mret (src, pe.2, neutrino_cleanUp)
        else if bool_decide (node ∈ [str "bitcoind"; str "litecoind"]) then p ← bitcoind_source pe.2; mret (p, [])
        else if bool_decide (node ∈ [str "btcd"; str "ltcd"]) then p ← btcd_source pe.2; mret (p, [])
        else st_fail (ErrNew "unknown node type"));
  let w := mkWalletConfig privateWalletPw publicWalletPw (cc_ChainDir homeChainConfig) (np_Params (g_activeNetParams g)) pe.2
             (np_CoinType (g_activeNetParams g)) None se.1.1 in
  cc ← open_wallet pe.1 se.1.2 w;
  _ ← (if bool_decide (node = str "neutrino") then mret tt else check_txindex);
  mret (cc, se.2).

(** The copy in client.go: always the light client, and always bitcoin's policy. *)
Definition newChainControlFromConfigCustom (privateWalletPw publicWalletPw : bytes) (seed : option bytes) : CC (chainControl * list cc_call) :=
  let estimator := StaticFeeEstimator defaultBitcoinStaticFeeRate in
  src ← neutrino_source;
  let w := mkWalletConfig privateWalletPw publicWalletPw (cc_ChainDir homeChainConfig) (np_Params (g_activeNetParams g)) estimator
             (np_CoinType (g_activeNetParams g)) seed src in
  cc ← open_wallet (policy_of (cf_Bitcoin cfg)) estimator w;
  mret (cc, neutrino_cleanUp).

(** ** What is made *)

Lemma cc_bind_Ok {A B} (m : CC A) (f : A -> CC B) l b l' :
  (m ≫= f) l = (Ok b, l') -> exists a l1, m l = (Ok a, l1) /\ f a l1 = (Ok b, l').
Proof. unfold mbind, st_bind. destruct (m l) as [[a|e] l1]; [|done]. intros H. by exists a, l1. Qed.

Lemma call_Ok c l u l' : call c l = (Ok u, l') -> l' = l ++ [c] /\ co_result env c = Ok tt.
Proof. unfold call, mbind, st_bind, st_upd, st_res. destruct u. by intros [= -> <-]. Qed.

Lemma neutrino_source_Ok l src l' :
  neutrino_source l = (Ok src, l') -> exists dir, src = NeutrinoSource dir (nc_AddPeers (cf_NeutrinoMode cfg)) (nc_ConnectPeers (cf_NeutrinoMode cfg))
    /\ dir = path_Join [cc_ChainDir homeChainConfig; normalizeNetwork active_name].
Proof.
  unfold neutrino_source. intros H. do 6 apply cc_bind_Ok in H as ([] & ? & _ & H). injection H as <- <-. by eexists.
Qed.

Lemma start_estimator_Ok e l e' l' : start_estimator e l = (Ok e', l') -> e' = e.
Proof. unfold start_estimator. intros H. do 2 apply cc_bind_Ok in H as ([] & ? & _ & H). by injection H as <- <-. Qed.

Lemma bitcoind_source_Ok static l p l' :
  bitcoind_source static l = (Ok p, l') ->
  let mode := if cc_Active (cf_Bitcoin cfg) then cf_BitcoindMode cfg else cf_LitecoindMode cfg in
  exists host, let c := mkConnConfig host [] (bi_RPCUser mode) (bi_RPCPass mode) [] true true in
    p.1 = BitcoindSource c (bi_ZMQPath mode)
    /\ p.2 = if (cc_Active (cf_Bitcoin cfg) && negb (cc_RegTest (cf_Bitcoin cfg))) || cc_Active (cf_Litecoin cfg) then BitcoindFeeEstimator c 25 else static.
Proof.
  unfold bitcoind_source. intros H. apply cc_bind_Ok in H as (host & ? & _ & H). do 3 apply cc_bind_Ok in H as ([] & ? & _ & H). exists host.
  destruct (_ && _); cbn [orb].
  - apply cc_bind_Ok in H as (e & ? & He & H). injection H as <- <-. by apply start_estimator_Ok in He as ->.
  - destruct (cc_Active (cf_Litecoin cfg)); [|by injection H as <- <-]. apply cc_bind_Ok in H as (e & ? & He & H). injection H as <- <-.
    by apply start_estimator_Ok in He as ->.
Qed.

(** The networks on which fees are not worth an estimate. *)
Definition test_network : bool :=
  cc_SimNet (cf_Bitcoin cfg) || cc_SimNet (cf_Litecoin cfg) || cc_RegTest (cf_Bitcoin cfg) || cc_RegTest (cf_Litecoin cfg).

Lemma btcd_source_Ok static l p l' :
  btcd_source static l = (Ok p, l') ->
  let mode := if cc_Active (cf_Bitcoin cfg) then cf_BtcdMode cfg else cf_LtcdMode cfg in
  exists host cert, let c := mkConnConfig host (str "ws") (bd_RPCUser mode) (bd_RPCPass mode) cert false false in
    p.1 = BtcdSource c /\ p.2 = if test_network then static else BtcdFeeEstimator c 25.
Proof.
  unfold btcd_source, test_network. intros H. apply cc_bind_Ok in H as (cert & ? & _ & H). do 3 apply cc_bind_Ok in H as ([] & ? & _ & H).
  eexists _, cert. destruct (cc_SimNet (cf_Bitcoin cfg)), (cc_SimNet (cf_Litecoin cfg)), (cc_RegTest (cf_Bitcoin cfg)), (cc_RegTest (cf_Litecoin cfg)); cbn [negb andb orb] in *;
    try (injection H as <- <-; by split).
  apply cc_bind_Ok in H as (e & ? & He & H). injection H as <- <-. apply start_estimator_Ok in He as ->. by split.
Qed.

Lemma open_wallet_Ok policy e w l cc l' :
  open_wallet policy e w l = (Ok cc, l') ->
  cc = mkChainControl policy e (wc_ChainSource w) w (if g_primaryChain g =? litecoinChain then defaultLitecoinDustLimit else co_DefaultDustLimit env, MaxHTLCNumber / 2).
Proof. unfold open_wallet. intros H. do 3 apply cc_bind_Ok in H as ([] & ? & _ & H). by injection H as <- <-. Qed.

(** The source belongs to the node type the configuration names. *)
Definition source_ok (cc : chainControl) (cleanUp : list cc_call) : Prop :=
  match ct_source cc with
  | NeutrinoSource _ add connect =>
      cc_Node homeChainConfig = str "neutrino" /\ add = nc_AddPeers (cf_NeutrinoMode cfg) /\ connect = nc_ConnectPeers (cf_NeutrinoMode cfg)
      /\ cleanUp = neutrino_cleanUp
  | BitcoindSource c z =>
      cc_Node homeChainConfig ∈ [str "bitcoind"; str "litecoind"] /\ cleanUp = []
      /\ let mode := if cc_Active (cf_Bitcoin cfg) then cf_BitcoindMode cfg else cf_LitecoindMode cfg in
         z = bi_ZMQPath mode /\ rc_User c = bi_RPCUser mode /\ rc_Pass c = bi_RPCPass mode
  | BtcdSource c =>
      cc_Node homeChainConfig ∈ [str "btcd"; str "ltcd"] /\ cleanUp = [] /\ rc_DisableTLS c = false
      /\ let mode := if cc_Active (cf_Bitcoin cfg) then cf_BtcdMode cfg else cf_LtcdMode cfg in
         rc_User c = bd_RPCUser mode /\ rc_Pass c = bd_RPCPass mode
  end.

Lemma source_made static l (se : chainSource * feeEstimator * list cc_call) l' :
  let node := cc_Node homeChainConfig in
  (if bool_decide (node = str "neutrino") then src ← neutrino_source; mret (src, static, neutrino_cleanUp)
   else if bool_decide (node ∈ [str "bitcoind"; str "litecoind"]) then p ← bitcoind_source static; mret (p, [])
   else if bool_decide (node ∈ [str "btcd"; str "ltcd"]) then p ← btcd_source static; mret (p, [])
   else st_fail (ErrNew "unknown node type")) l = (Ok se, l') ->
  forall policy e w cs, source_ok (mkChainControl policy e se.1.1 w cs) se.2.
Proof.
  intros node H policy e w cs. unfold source_ok. cbn [ct_source]. case_bool_decide as E1; [|case_bool_decide as E2; [|case_bool_decide as E3; [|done]]];
    apply cc_bind_Ok in H as (p & l1 & Hp & H); injection H as <- <-; cbn [fst snd].
  - by apply neutrino_source_Ok in Hp as (dir & -> & _).
  - apply bitcoind_source_Ok in Hp as (host & -> & _). done.
  - apply btcd_source_Ok in Hp as (host & cert & -> & _). done.
Qed.

Lemma control_made priv pub l cc cleanUp l' :
  newChainControlFromConfig priv pub l = (Ok (cc, cleanUp), l') ->
  ct_routingPolicy cc = policy_of homeChainConfig /\ source_ok cc cleanUp /\ wc_ChainSource (ct_wallet cc) = ct_source cc
  /\ wc_DataDir (ct_wallet cc) = cc_ChainDir homeChainConfig /\ wc_NetParams (ct_wallet cc) = np_Params (g_activeNetParams g)
  /\ wc_CoinType (ct_wallet cc) = np_CoinType (g_activeNetParams g).
Proof.
  unfold newChainControlFromConfig. intros H. apply cc_bind_Ok in H as ([policy static] & l1 & [= Hp <-] & H).
  assert (policy = policy_of homeChainConfig) as ->.
  { unfold homeChainConfig. destruct (Z.eqb_spec (g_primaryChain g) bitcoinChain) as [E|_]; [rewrite E; by injection Hp|].
    destruct (g_primaryChain g =? litecoinChain); [by injection Hp|done]. }
  apply cc_bind_Ok in H as (se & l2 & Hs & H). apply cc_bind_Ok in H as (cc' & l3 & Hw & H). apply cc_bind_Ok in H as ([] & l4 & _ & H).
  injection H as <- <- <-. apply open_wallet_Ok in Hw as ->. cbn [ct_routingPolicy ct_wallet ct_source wc_ChainSource wc_DataDir wc_NetParams wc_CoinType].
  split; [done|]. split; [exact (source_made _ _ _ _ Hs _ _ _ _)|done].
Qed.

(** The daemon of this repository uses the light client whatever node the configuration
    names, and forwards with the policy of bitcoin. *)
Lemma custom_made priv pub seed l cc cleanUp l' :
  newChainControlFromConfigCustom priv pub seed l = (Ok (cc, cleanUp), l') ->
  ct_routingPolicy cc = policy_of (cf_Bitcoin cfg) /\ wc_HdSeed (ct_wallet cc) = seed /\ wc_DataDir (ct_wallet cc) = cc_ChainDir homeChainConfig
  /\ cleanUp = neutrino_cleanUp
  /\ ct_source cc = NeutrinoSource (path_Join [cc_ChainDir homeChainConfig; normalizeNetwork active_name])
                      (nc_AddPeers (cf_NeutrinoMode cfg)) (nc_ConnectPeers (cf_NeutrinoMode cfg)).
Proof.
  unfold newChainControlFromConfigCustom. intros H. apply cc_bind_Ok in H as (src & l1 & Hs & H). apply cc_bind_Ok in H as (cc' & l2 & Hw & H).
  injection H as <- <- <-. apply neutrino_source_Ok in Hs as (dir & -> & ->). apply open_wallet_Ok in Hw as ->. done.
Qed.
End Control.

(** A configuration that was accepted leads to a wallet of its own chain: the policy of the
    home chain, its directory, the parameters of its network, and the credentials of its own
    backend, which are there. *)
Theorem control_of_accepted cenv dataDirec g0 cfg g env priv pub l cc cleanUp l' :
  loadConfig cenv dataDirec g0 = (Ok cfg, g) -> newChainControlFromConfig env g cfg priv pub l = (Ok (cc, cleanUp), l') ->
  (g_primaryChain g = bitcoinChain \/ g_primaryChain g = litecoinChain)
  /\ cc_Active (homeChainConfig g cfg) = true
  /\ ct_routingPolicy cc = policy_of (homeChainConfig g cfg) /\ minTimeLockDelta <= fp_TimeLockDelta (ct_routingPolicy cc)
  /\ wc_DataDir (ct_wallet cc) = cc_ChainDir (homeChainConfig g cfg) /\ wc_NetParams (ct_wallet cc) = np_Params (g_activeNetParams g)
  /\ match ct_source cc with
     | NeutrinoSource _ _ _ => cc_Node (homeChainConfig g cfg) = str "neutrino" /\ cleanUp = neutrino_cleanUp
     | BitcoindSource c z => z <> [] /\ z = bi_ZMQPath (if g_primaryChain g =? bitcoinChain then cf_BitcoindMode cfg else cf_LitecoindMode cfg)
     | BtcdSource c => rc_User c <> [] /\ rc_Pass c <> [] /\ rc_DisableTLS c = false
     end.
Proof.
  intros Hc%loadConfig_chain Hn. apply control_made in Hn as (Hpol & Hs & _ & Hd & Hnet & _).
  unfold homeChainConfig in *. destruct Hc as [(Hp & Ha & Hna & _ & Ht & _ & _ & Hb)|(Hp & Hna & Ha & _ & Ht & _ & _ & Hb)]; rewrite Hp in *; cbn in Hpol, Hs, Hd |- *.
  - split; [by left|]. split; [done|]. split; [done|]. split; [by rewrite Hpol|]. split; [done|]. split; [done|]. unfold source_ok, homeChainConfig in Hs.
    rewrite Hp, Ha in Hs. cbn in Hs. destruct (ct_source cc) as [dir add con|c z|c].
    + by destruct Hs as (? & _ & _ & ?).
    + destruct Hs as (Hn & _ & -> & _). split; [by apply Hb|done].
    + destruct Hs as (Hn & _ & Htls & -> & ->). destruct Hb as [Hb _]. destruct (Hb Hn). done.
  - split; [by right|]. split; [done|]. split; [done|]. split; [by rewrite Hpol|]. split; [done|]. split; [done|]. unfold source_ok, homeChainConfig in Hs.
    rewrite Hp, Hna in Hs. cbn in Hs. destruct (ct_source cc) as [dir add con|c z|c].
    + by destruct Hs as (? & _ & _ & ?).
    + destruct Hs as (Hn & _ & -> & _). split; [by apply Hb|done].
    + destruct Hs as (Hn & _ & Htls & -> & ->). destruct Hb as [Hb _]. destruct (Hb Hn). done.
Qed.

(** ** The terms of new channels *)

Definition minBtcRemoteDelay : Z := 144.
Definition maxBtcRemoteDelay : Z := 2016.
Definition minLtcRemoteDelay : Z := 576.
Definition maxLtcRemoteDelay : Z := 8064.

(** The terms of a chain: its configuration and the range of its delays. *)
Record terms := mkTerms { tm_cfg : chainConfig; tm_minRemoteDelay : Z; tm_maxRemoteDelay : Z }.

Definition terms_of (primary : chainCode) (cfg : config) : terms :=
  if primary =? litecoinChain then mkTerms (cf_Litecoin cfg) minLtcRemoteDelay maxLtcRemoteDelay
  else mkTerms (cf_Bitcoin cfg) minBtcRemoteDelay maxBtcRemoteDelay.

Definition terms_NumRequiredConfs (t : terms) (chanAmt pushAmt : Z) : Z :=
  let defaultConf := u16 (cc_DefaultNumChanConfs (tm_cfg t)) in
  if negb (defaultConf =? 0) then defaultConf
  else
    let maxChannelSize := NewMSatFromSatoshis maxFundingAmount in
    let stake := u64 (NewMSatFromSatoshis chanAmt + pushAmt) in
    let conf := u64 (6 * stake) / maxChannelSize in
    let conf := if conf <? 3 then 3 else conf in
    let conf := if 6 <? conf then 6 else conf in
    u16 conf.

Definition terms_RequiredRemoteDelay (t : terms) (chanAmt : Z) : Z :=
  let defaultDelay := u16 (cc_DefaultRemoteDelay (tm_cfg t)) in
  if 0 <? defaultDelay then defaultDelay
  else
    let delay := u16 (Z.quot (i64 (tm_maxRemoteDelay t * chanAmt)) maxFundingAmount) in
    let delay := if delay <? tm_minRemoteDelay t then tm_minRemoteDelay t else delay in
    if tm_maxRemoteDelay t <? delay then tm_maxRemoteDelay t else delay.

Definition terms_RequiredRemoteChanReserve (chanAmt : Z) : Z := Z.quot chanAmt 100.

Definition terms_RequiredRemoteMaxValue (chanAmt : Z) : Z :=
  let reserve := NewMSatFromSatoshis (Z.quot chanAmt 100) in
  u64 (NewMSatFromSatoshis chanAmt - reserve).

Definition terms_RequiredRemoteMaxHTLCs (chanAmt : Z) : Z := u16 (MaxHTLCNumber / 2).

(** The channel of an identifier, of all channels of the database. *)
Definition FindChannel {C} (point : C -> OutPoint) (dbChannels : res (list C)) (chanID : bytes) : res C :=
  match dbChannels with
  | Err e => Err e
  | Ok cs =>
      match List.find (fun c => bool_decide (NewChanIDFromOutPoint (point c) = chanID)) cs with
      | Some c => Ok c
      | None => Err (ErrNew "unable to find channel")
      end
  end.

(** The peer of a new channel becomes persistent. *)
Definition WatchNewChannel (watch : res ()) (pub : bytes) : SV () :=
  _ ← st_upd (fun s => set_persistentPeers ({[pub]} ∪ persistentPeers s) s);
  st_res watch.

Lemma FindChannel_found {C} (point : C -> OutPoint) cs c :
  c ∈ cs -> exists c', FindChannel point (Ok cs) (NewChanIDFromOutPoint (point c)) = Ok c' /\ c' ∈ cs
    /\ NewChanIDFromOutPoint (point c') = NewChanIDFromOutPoint (point c).
Proof.
  intros Hc. unfold FindChannel. destruct (List.find _ cs) as [c'|] eqn:E.
  - apply find_some in E as [Hin Heq%bool_decide_eq_true]. exists c'. split; [done|]. split; [by apply list_elem_of_In|done].
  - exfalso. apply list_elem_of_In in Hc. pose proof (find_none _ _ E _ Hc) as H. cbn beta in H. by rewrite bool_decide_eq_true_2 in H.
Qed.

(** Both chains' terms are such. *)
Definition terms_ok (t : terms) : Prop := 0 < tm_minRemoteDelay t <= tm_maxRemoteDelay t /\ tm_maxRemoteDelay t < 2 ^ 16.

Lemma terms_of_ok primary cfg : terms_ok (terms_of primary cfg).
Proof. unfold terms_of, terms_ok. destruct (_ =? _); cbn; unfold minLtcRemoteDelay, maxLtcRemoteDelay, minBtcRemoteDelay, maxBtcRemoteDelay; lia. Qed.

Lemma msat_exact a : 0 <= a <= maxFundingAmount -> NewMSatFromSatoshis a = 1000 * a.
Proof. unfold maxFundingAmount. intros H. unfold NewMSatFromSatoshis. rewrite (u64_id a), u64_id by (unfold is_u64; lia). lia. Qed.

Lemma confs_exact t a push :
  u16 (cc_DefaultNumChanConfs (tm_cfg t)) = 0 -> 0 <= a <= maxFundingAmount -> 0 <= push <= 1000 * a ->
  terms_NumRequiredConfs t a push = Z.min 6 (Z.max 3 (6 * (1000 * a + push) / (1000 * maxFundingAmount))).
Proof.
  intros Hd Ha Hp. unfold terms_NumRequiredConfs. rewrite Hd. cbn [Z.eqb negb].
  rewrite !msat_exact by (unfold maxFundingAmount in *; lia). unfold maxFundingAmount in *.
  rewrite (u64_id (1000 * a + push)), (u64_id (6 * _)) by (unfold is_u64; lia).
  set (q := 6 * (1000 * a + push) / (1000 * 2 ^ 24)). destruct (Z.ltb_spec q 3).
  - rewrite Z.max_l, Z.min_r by lia. reflexivity.
  - rewrite Z.max_r by lia. destruct (Z.ltb_spec 6 q); [by rewrite Z.min_l by lia|]. rewrite Z.min_r, u16_id by (unfold is_u16; lia). done.
Qed.

Lemma delay_exact t a :
  terms_ok t -> u16 (cc_DefaultRemoteDelay (tm_cfg t)) = 0 -> 0 <= a <= maxFundingAmount ->
  terms_RequiredRemoteDelay t a = Z.max (tm_minRemoteDelay t) (tm_maxRemoteDelay t * a / maxFundingAmount).
Proof.
  intros (H1 & H2) Hd Ha. unfold terms_RequiredRemoteDelay. rewrite Hd. cbn [Z.ltb Z.compare]. unfold maxFundingAmount in *.
  assert (0 <= tm_maxRemoteDelay t * a <= tm_maxRemoteDelay t * 2 ^ 24) as Hm by nia.
  rewrite i64_id by (unfold is_i64; nia). rewrite Z.quot_div_nonneg by lia. set (q := tm_maxRemoteDelay t * a / 2 ^ 24).
  assert (0 <= q <= tm_maxRemoteDelay t) as Hq. { split; [apply Z.div_pos; lia|]. apply Z.div_le_upper_bound; lia. }
  rewrite u16_id by (unfold is_u16; lia). destruct (Z.ltb_spec q (tm_minRemoteDelay t)).
  - rewrite Z.max_l by lia. destruct (Z.ltb_spec (tm_maxRemoteDelay t) (tm_minRemoteDelay t)); lia.
  - rewrite Z.max_r by lia. destruct (Z.ltb_spec (tm_maxRemoteDelay t) q); lia.
Qed.

(** C29: for every channel of a permitted size, the number of confirmations and the delay are
    those the configuration fixes (cut to 16 bits), and when it fixes none the daemon asks for three to six
    confirmations and for a delay within the range of the chain, both of which do not fall
    with the size; in all cases the reserve and the largest value in flight add up to the
    channel. *)
Theorem channel_terms_bounded primary cfg a a' push push' :
  let t := terms_of primary cfg in
  let confs := u16 (cc_DefaultNumChanConfs (tm_cfg t)) in
  let delay := u16 (cc_DefaultRemoteDelay (tm_cfg t)) in
  0 <= a <= a' -> a' <= maxFundingAmount -> 0 <= push <= push' -> push <= 1000 * a -> push' <= 1000 * a' ->
  (if confs =? 0
   then 3 <= terms_NumRequiredConfs t a push <= terms_NumRequiredConfs t a' push' /\ terms_NumRequiredConfs t a' push' <= 6
   else terms_NumRequiredConfs t a push = confs)
  /\ (if delay =? 0
      then tm_minRemoteDelay t <= terms_RequiredRemoteDelay t a <= terms_RequiredRemoteDelay t a' /\ terms_RequiredRemoteDelay t a' <= tm_maxRemoteDelay t
      else terms_RequiredRemoteDelay t a = delay)
  /\ 1000 * terms_RequiredRemoteChanReserve a + terms_RequiredRemoteMaxValue a = 1000 * a /\ 0 <= terms_RequiredRemoteChanReserve a <= a / 100
  /\ terms_RequiredRemoteMaxHTLCs a = 483.
Proof.
  intros t confs delay Ha Ha' Hp Hpa Hpa'. pose proof (terms_of_ok primary cfg) as Ht. fold t in Ht.
  split; [|split].
  - destruct (Z.eqb_spec confs 0) as [Hc|Hc].
    + rewrite !confs_exact by (done || lia). unfold maxFundingAmount in *. split; [|lia].
      split; [lia|]. apply Z.min_le_compat_l, Z.max_le_compat_l, Z.div_le_mono; lia.
    + unfold terms_NumRequiredConfs. fold confs. by rewrite (proj2 (Z.eqb_neq _ _) Hc).
  - destruct (Z.eqb_spec delay 0) as [Hd|Hd].
    + rewrite !delay_exact by (done || lia). destruct Ht as (Hmin & Hmax). unfold maxFundingAmount in *.
      split; [split; [lia|apply Z.max_le_compat_l, Z.div_le_mono; nia]|].
      apply Z.max_lub; [lia|]. apply Z.div_le_upper_bound; nia.
    + unfold terms_RequiredRemoteDelay. fold delay. rewrite (proj2 (Z.ltb_lt 0 delay)); [done|].
      assert (0 <= delay) by (unfold delay, u16; apply Z.mod_pos_bound; lia). lia.
  - unfold maxFundingAmount in *. unfold terms_RequiredRemoteChanReserve, terms_RequiredRemoteMaxValue. rewrite Z.quot_div_nonneg by lia.
    assert (0 <= a / 100 <= a) as Hr by (split; [apply Z.div_pos; lia|apply Z.div_le_upper_bound; lia]).
    rewrite !msat_exact by (unfold maxFundingAmount; lia). rewrite u64_id by (unfold is_u64; lia). split; [lia|]. split; [lia|reflexivity].
Qed.

(** ** [Start] *)

(** The steps of [Start], of the goroutine it leaves behind, and of the handler of the
    shutdown that the goroutine installs. *)
Inductive start_act :=
  | AServeProfile (port : bytes)
  | ACreateProfile (file : bytes)
  | AStartProfile
  | AOpenDB (dir : bytes)
  | AChainControl
  | ARegisterChain
  | ADeriveKey
  | ANewServer (listeners : list bytes)
  | ARandomSeed
  | ANewFundingManager
  | AStartFundingManager
  | APublishRPC
  | ASpawn
  | AStopProfile
  | ACloseProfile
  | ACloseLog
  | AGetBestBlock
  | AStartServer
  | AInitPilot
  | AStartPilot
  | AAddInterruptHandler.

#[global] Instance start_act_eq_dec : EqDecision start_act.
Proof. solve_decision. Defined.

Record startEnv := mkStartEnv { se_config : configEnv; se_control : controlEnv; se_act : start_act -> res () }.

(** [LndRpcServer] is the variable the binding calls through; [dm_logOpen] says whether the
    file of the log is open. *)
Record process := mkProcess {
  dm_globals : globals;
  dm_calls : list cc_call;
  dm_registry : chainRegistry chainControl;
  dm_acts : list start_act;
  dm_LndRpcServer : bool;
  dm_logOpen : bool
}.

Definition set_globals (g : globals) (d : process) : process :=
  mkProcess g (dm_calls d) (dm_registry d) (dm_acts d) (dm_LndRpcServer d) (dm_logOpen d).
Definition set_calls (c : list cc_call) (d : process) : process :=
  mkProcess (dm_globals d) c (dm_registry d) (dm_acts d) (dm_LndRpcServer d) (dm_logOpen d).
Definition set_registry (r : chainRegistry chainControl) (d : process) : process :=
  mkProcess (dm_globals d) (dm_calls d) r (dm_acts d) (dm_LndRpcServer d) (dm_logOpen d).
Definition add_act (a : start_act) (d : process) : process :=
  mkProcess (dm_globals d) (dm_calls d) (dm_registry d) (dm_acts d ++ [a]) (dm_LndRpcServer d || bool_decide (a = APublishRPC))
    (dm_logOpen d && negb (bool_decide (a = ACloseLog))).
Definition open_log (d : process) : process :=
  mkProcess (dm_globals d) (dm_calls d) (dm_registry d) (dm_acts d) (dm_LndRpcServer d) true.

Notation DM := (ST process).

Section Start.
Context (env : startEnv).

(** A step that fails has been tried, but is not one of those done. *)
Definition act (a : start_act) : DM () := _ ← st_res (se_act env a); st_upd (add_act a).
Definition act_always (a : start_act) : DM () := st_upd (add_act a).

(** The control of the chain is made and registered.  The function that cleans it up is
    dropped. *)
Definition start_chain (cfg : config) (g : globals) (seed : option bytes) : DM () :=
  cc ← st_zoom dm_calls set_calls (newChainControlFromConfigCustom (se_control env) g cfg (str "hello") (str "public") seed);
  _ ← act_always AChainControl;
  let primaryChain := g_primaryChain g in
  _ ← st_upd (fun d => set_registry (RegisterChain primaryChain cc.1 (dm_registry d)) d);
  act_always ARegisterChain.

(** What is made before the calls of clients are let in; [g] are the package variables. *)
Definition start_parts (cfg : config) (g : globals) (seed : option bytes) : DM () :=
  _ ← act (AOpenDB (path_Join [cf_DataDir (cf_paths cfg); str "graph"; normalizeNetwork (active_name g)]));
  _ ← start_chain cfg g seed;
  _ ← act ADeriveKey;
  _ ← act (ANewServer (cf_Listeners (cf_listen cfg)));
  _ ← act ARandomSeed;
  _ ← act ANewFundingManager;
  act AStartFundingManager.

Definition start_rest (cfg : config) (g : globals) (seed : option bytes) : DM () :=
  _ ← start_parts cfg g seed;
  _ ← act_always APublishRPC;
  act_always ASpawn.

(** Profiling: the server of profiles is left to a goroutine; the profile of the processor is
    stopped and its file closed when [Start] returns. *)
Definition profiled (cfg : config) (m : DM ()) : DM () :=
  _ ← (if empty (cf_Profile cfg) then mret tt else act_always (AServeProfile (cf_Profile cfg)));
  if empty (cf_CPUProfile cfg) then m
  else
    _ ← act (ACreateProfile (cf_CPUProfile cfg));
    _ ← act_always AStartProfile;
    r ← st_try m;
    _ ← act_always AStopProfile;
    _ ← act_always ACloseProfile;
    st_res r.

(** The log is closed when [Start] returns. *)
Definition Start (seed : option bytes) (dataDir : bytes) : DM config :=
  cfg ← st_zoom dm_globals set_globals (loadConfig (se_config env) dataDir);
  _ ← st_upd open_log;
  d ← st_get;
  r ← st_try (profiled cfg (start_rest cfg (dm_globals d) seed));
  _ ← act_always ACloseLog;
  _ ← st_res r;
  mret cfg.

(** The loop that polls the wallet; without an answer it is still waiting. *)
Fixpoint wait_synced (polls : list (res bool)) : option (res ()) :=
  match polls with
  | [] => None
  | Err e :: _ => Some (Err e)
  | Ok true :: _ => Some (Ok tt)
  | Ok false :: polls => wait_synced polls
  end.

(** The goroutine: it ends with an error, waits for the chain, or waits for the shutdown. *)
Definition after_start (cfg : config) (polls : list (res bool)) : DM () :=
  _ ← act AGetBestBlock;
  _ ← st_res (match wait_synced polls with None => Err (ErrBlocked "syncing") | Some r => r end);
  _ ← act AGetBestBlock;
  _ ← act AStartServer;
  _ ← (if ap_Active (cf_Autopilot cfg) then _ ← act AInitPilot; act AStartPilot else mret tt);
  act_always AAddInterruptHandler.

(** The handler of the shutdown.  The agent is kept in a variable of an inner block, so the
    one the handler tests is never set. *)
Inductive stop_act := StopRPC | StopFundingManager | StopServer | StopPilot | WaitForShutdown.

Definition shutdown_handler (pilot : option ()) : list stop_act :=
  [StopRPC; StopFundingManager; StopServer] ++ match pilot with Some _ => [StopPilot] | None => [] end ++ [WaitForShutdown].

Definition installed_handler (cfg : config) : list stop_act := shutdown_handler None.

(** ** The order of the start *)

Lemma dm_bind_Ok {A B} (m : DM A) (f : A -> DM B) d b d' :
  (m ≫= f) d = (Ok b, d') -> exists a d1, m d = (Ok a, d1) /\ f a d1 = (Ok b, d').
Proof. unfold mbind, st_bind. destruct (m d) as [[a|e] d1]; [|done]. intros H. by exists a, d1. Qed.

(** What a step leaves of the other fields. *)
Definition with_acts (new : list start_act) (d d' : process) : Prop :=
  dm_acts d' = dm_acts d ++ new /\ dm_globals d' = dm_globals d
  /\ dm_LndRpcServer d' = dm_LndRpcServer d || bool_decide (APublishRPC ∈ new).

Lemma with_acts_app s1 s2 d d1 d2 : with_acts s1 d d1 -> with_acts s2 d1 d2 -> with_acts (s1 ++ s2) d d2.
Proof.
  intros (E1 & G1 & L1) (E2 & G2 & L2). unfold with_acts. rewrite E2, E1, app_assoc, G2, G1, L2, L1. split; [done|]. split; [done|].
  rewrite <- orb_assoc. f_equal. rewrite <- bool_decide_or. apply bool_decide_ext. by rewrite elem_of_app.
Qed.

Lemma with_acts_nil d d' : dm_acts d' = dm_acts d -> dm_globals d' = dm_globals d -> dm_LndRpcServer d' = dm_LndRpcServer d -> with_acts [] d d'.
Proof. unfold with_acts. intros -> -> ->. by rewrite app_nil_r, orb_false_r. Qed.

Lemma with_acts_one a d : with_acts [a] d (add_act a d).
Proof. unfold with_acts. split; [done|]. split; [done|]. cbn. f_equal. apply bool_decide_ext. rewrite list_elem_of_singleton. naive_solver. Qed.

(** Whether the control of the chain can be made does not depend on earlier calls. *)
Definition steady {A} (m : CC A) : Prop := forall l l', (m l).1 = (m l').1.

Lemma steady_bind {A B} (m : CC A) (f : A -> CC B) : steady m -> (forall a, steady (f a)) -> steady (m ≫= f).
Proof.
  intros Hm Hf l l'. unfold mbind, st_bind. specialize (Hm l l'). destruct (m l) as [[a|e] l1], (m l') as [[a'|e'] l2]; cbn in *; simplify_eq; [apply Hf|done].
Qed.

Lemma steady_control ce g cfg p q seed : steady (newChainControlFromConfigCustom ce g cfg p q seed).
Proof.
  assert (forall c, steady (call ce c)) as Hc by (by intros c l l').
  unfold newChainControlFromConfigCustom, neutrino_source, open_wallet.
  apply steady_bind; [|intros src; apply steady_bind; [|by intros ? ?]]; repeat (apply steady_bind; [apply Hc || by intros ? ?|intros []]); by intros ? ?.
Qed.

Definition control_result (cfg : config) (g : globals) (seed : option bytes) : res (chainControl * list cc_call) :=
  (newChainControlFromConfigCustom (se_control env) g cfg (str "hello") (str "public") seed []).1.

(** Whether a step succeeds: those that only start a goroutine or write a variable do. *)
Definition outcome (cfg : config) (g : globals) (seed : option bytes) (a : start_act) : res () :=
  match a with
  | AChainControl => match control_result cfg g seed with Ok _ => Ok tt | Err e => Err e end
  | AServeProfile _ | AStartProfile | ARegisterChain | APublishRPC | ASpawn | AStopProfile | ACloseProfile | ACloseLog => Ok tt
  | _ => se_act env a
  end.

Section Order.
Context (cfg : config) (g : globals) (seed : option bytes).
Local Abbreviation succeeds := (fun a => outcome cfg g seed a = Ok tt).

(** The first [k] steps were done, and the next one failed. *)
Definition failed_at (k : nat) (steps : list start_act) (e : goerr) : Prop :=
  Forall succeeds (take k steps) /\ exists a, steps !! k = Some a /\ outcome cfg g seed a = Err e.

(** A program that makes the given steps in their order, up to the first that fails, and if
    none does also those of [tail]. *)
Definition makes {A} (m : DM A) (steps tail : list start_act) : Prop :=
  forall d, match (m d).1 with
            | Ok _ => Forall succeeds steps /\ with_acts (steps ++ tail) d (m d).2
            | Err e => exists k, failed_at k steps e /\ with_acts (take k steps) d (m d).2
            end.

Lemma makes_act a : outcome cfg g seed a = se_act env a -> makes (act a) [a] [].
Proof.
  intros Ho d. unfold act, mbind, st_bind, st_res, st_upd. destruct (se_act env a) as [[]|e]; cbn [fst snd].
  - split; [by constructor|apply with_acts_one].
  - exists 0%nat. split; [|by apply with_acts_nil]. split; [done|]. by exists a.
Qed.

Lemma makes_always a : outcome cfg g seed a = Ok tt -> makes (act_always a) [a] [].
Proof. intros Ho d. split; [by constructor|apply with_acts_one]. Qed.

Lemma makes_none {A} (m : DM A) : (forall d, is_ok (m d).1 = true /\ with_acts [] d (m d).2) -> makes m [] [].
Proof. intros H d. destruct (H d) as [Ho Hw]. by destruct (m d).1. Qed.

Lemma makes_bind {A B} (m : DM A) (f : A -> DM B) s1 s2 tail : makes m s1 [] -> (forall a, makes (f a) s2 tail) -> makes (m ≫= f) (s1 ++ s2) tail.
Proof.
  intros Hm Hf d. specialize (Hm d). unfold mbind, st_bind. destruct (m d) as [[a|e] d1]; cbn [fst snd] in *.
  - destruct Hm as [F1 W1]. rewrite app_nil_r in W1. specialize (Hf a d1). destruct (f a d1) as [[b|e] d2]; cbn [fst snd] in *.
    + destruct Hf as [F2 W2]. split; [by apply Forall_app|]. rewrite <- app_assoc. by eapply with_acts_app.
    + destruct Hf as (k & (F2 & x & Hx & Ho) & W2). exists (length s1 + k)%nat. unfold failed_at. rewrite take_app_add. split; [|by eapply with_acts_app].
      split; [by apply Forall_app|]. exists x. rewrite lookup_app_r by lia. split; [|done]. by replace (length s1 + k - length s1)%nat with k by lia.
  - destruct Hm as (k & (F1 & x & Hx & Ho) & W1). exists k. unfold failed_at. apply lookup_lt_Some in Hx as Hk. rewrite take_app_le by lia.
    split; [|done]. split; [done|]. exists x. split; [by apply lookup_app_l_Some|done].
Qed.

Lemma makes_chain : makes (start_chain cfg g seed) [AChainControl; ARegisterChain] [].
Proof.
  intros d. unfold start_chain, mbind, st_bind, st_zoom, act_always, st_upd.
  pose proof (steady_control (se_control env) g cfg (str "hello") (str "public") seed (dm_calls d) []) as Hc.
  destruct (newChainControlFromConfigCustom _ _ _ _ _ _ (dm_calls d)) as [[cc|e] calls]; cbn [fst snd] in *.
  - split; [constructor; [cbn; unfold control_result; by rewrite <- Hc|by constructor]|].
    apply (with_acts_app [_] [_] d (add_act AChainControl (set_calls calls d))); [apply (with_acts_app [] [_] d (set_calls calls d)); [by apply with_acts_nil|apply with_acts_one]|].
    set (d1 := add_act AChainControl (set_calls calls d)). apply (with_acts_app [] [_] d1 (set_registry (RegisterChain (g_primaryChain g) cc.1 (dm_registry d1)) d1));
      [by apply with_acts_nil|apply with_acts_one].
  - exists 0%nat. split; [|by apply with_acts_nil]. split; [done|]. exists AChainControl. split; [done|]. cbn. unfold control_result. by rewrite <- Hc.
Qed.

(** The steps of the start. *)
Definition profile_steps : list start_act :=
  (if empty (cf_Profile cfg) then [] else [AServeProfile (cf_Profile cfg)])
  ++ (if empty (cf_CPUProfile cfg) then [] else [ACreateProfile (cf_CPUProfile cfg); AStartProfile]).

Definition part_steps : list start_act :=
  [AOpenDB (path_Join [cf_DataDir (cf_paths cfg); str "graph"; normalizeNetwork (active_name g)]); AChainControl; ARegisterChain; ADeriveKey;
   ANewServer (cf_Listeners (cf_listen cfg)); ARandomSeed; ANewFundingManager; AStartFundingManager].

Definition start_steps : list start_act := profile_steps ++ part_steps.

(** What is deferred when the given steps were done. *)
Definition stop_profile (done : list start_act) : list start_act := if bool_decide (AStartProfile ∈ done) then [AStopProfile; ACloseProfile] else [].

Lemma makes_rest : makes (start_rest cfg g seed) part_steps [APublishRPC; ASpawn].
Proof.
  assert (makes (start_parts cfg g seed) part_steps []) as Hp.
  { unfold start_parts, part_steps. apply (makes_bind _ _ [_]); [by apply makes_act|intros _]. apply (makes_bind _ _ [_; _]); [apply makes_chain|intros _].
    do 4 (apply (makes_bind _ _ [_]); [by apply makes_act|intros _]). by apply makes_act. }
  intros d. specialize (Hp d). unfold start_rest, mbind, st_bind. destruct (start_parts cfg g seed d) as [[[]|e] d1]; cbn [fst snd] in *; [|exact Hp].
  destruct Hp as [F W]. rewrite app_nil_r in W. split; [done|]. eapply with_acts_app; [exact W|].
  apply (with_acts_app [_] [_] _ (add_act APublishRPC d1)); apply with_acts_one.
Qed.

Lemma not_profiling k : AStartProfile ∉ take k part_steps.
Proof.
  intros Hin. apply elem_of_take in Hin as (i & Hi%list_elem_of_lookup_2 & _). unfold part_steps in Hi.
  rewrite !elem_of_cons, elem_of_nil in Hi. by repeat destruct Hi as [Hi|Hi].
Qed.

(** Profiling goes around the other steps. *)
Lemma profiled_makes m tail d :
  makes m part_steps tail ->
  match (profiled cfg m d).1 with
  | Ok _ => Forall succeeds start_steps /\ with_acts (start_steps ++ tail ++ stop_profile start_steps) d (profiled cfg m d).2
  | Err e => exists k, failed_at k start_steps e /\ with_acts (take k start_steps ++ stop_profile (take k start_steps)) d (profiled cfg m d).2
  end.
Proof.
  intros Hm. unfold profiled. set (sp := if empty (cf_Profile cfg) then mret tt else _).
  set (ps := if empty (cf_Profile cfg) then [] else [AServeProfile (cf_Profile cfg)]).
  assert (makes sp ps []) as Hsp.
  { unfold sp, ps. destruct (empty (cf_Profile cfg)); [apply makes_none; intros d0; split; [done|by apply with_acts_nil]|by apply makes_always]. }
  assert (AStartProfile ∉ ps) as Hps by (unfold ps; destruct (empty _); [apply not_elem_of_nil|by rewrite list_elem_of_singleton]).
  unfold start_steps, profile_steps. fold ps. destruct (empty (cf_CPUProfile cfg)).
  - rewrite app_nil_r. pose proof (makes_bind sp (fun _ => m) ps part_steps tail Hsp (fun _ => Hm) d) as H. unfold stop_profile.
    rewrite bool_decide_eq_false_2, app_nil_r; [|rewrite elem_of_app; intros [?|Hi]; [done|]; apply (not_profiling 8); exact Hi].
    destruct ((sp ≫= (fun _ => m)) d) as [[[]|e] d1]; cbn [fst snd] in *; [exact H|]. destruct H as (k & Hf & W). exists k. split; [done|].
    rewrite bool_decide_eq_false_2, app_nil_r; [done|]. intros Hi. apply elem_of_take in Hi as (i & Hi%list_elem_of_lookup_2 & _).
    apply elem_of_app in Hi as [?|Hi]; [done|]. by apply (not_profiling 8).
  - set (cp := [ACreateProfile (cf_CPUProfile cfg); AStartProfile]).
    assert (makes (_ ← sp; _ ← act (ACreateProfile (cf_CPUProfile cfg)); act_always AStartProfile) (ps ++ cp) []) as Hpre.
    { apply makes_bind; [done|intros _]. apply (makes_bind _ _ [_] [_]); [by apply makes_act|intros _; by apply makes_always]. }
    set (pre := _ ← sp; _ ← act (ACreateProfile (cf_CPUProfile cfg)); act_always AStartProfile) in Hpre.
    set (rest := r ← st_try m; _ ← act_always AStopProfile; _ ← act_always ACloseProfile; st_res r).
    assert ((_ ← sp; _ ← act (ACreateProfile (cf_CPUProfile cfg)); _ ← act_always AStartProfile; rest) d = (pre ≫= fun _ => rest) d) as ->.
    { unfold pre, mbind, st_bind. destruct (sp d) as [[[]|e] d0]; [|done]. by destruct (act _ d0) as [[[]|e] d1]. }
    specialize (Hpre d). unfold mbind at 1 2, st_bind at 1 2. unfold mbind at 1, st_bind at 1. destruct (pre d) as [[[]|e] d0]; cbn [fst snd] in *.
    + destruct Hpre as [F W]. rewrite app_nil_r in W. specialize (Hm d0).
      assert (forall d1, with_acts [AStopProfile; ACloseProfile] d1 (add_act ACloseProfile (add_act AStopProfile d1))) as Hstop.
      { intros d1. apply (with_acts_app [_] [_] _ (add_act AStopProfile d1)); apply with_acts_one. }
      assert (AStartProfile ∈ ps ++ cp) as Hin by (rewrite elem_of_app; right; right; left).
      unfold rest, mbind, st_bind, st_try. destruct (m d0) as [[[]|e] d1]; cbn [fst snd] in *.
      * destruct Hm as [F2 W2]. split; [by apply Forall_app|]. unfold stop_profile. rewrite bool_decide_eq_true_2 by (rewrite elem_of_app; by left).
        rewrite <- app_assoc. eapply with_acts_app; [exact W|]. rewrite app_assoc. eapply with_acts_app; [exact W2|apply Hstop].
      * destruct Hm as (k & (F2 & x & Hx & Ho) & W2). exists (length (ps ++ cp) + k)%nat. unfold failed_at. rewrite take_app_add. split.
        { split; [by apply Forall_app|]. exists x. rewrite lookup_app_r by lia. split; [|done]. by replace (length (ps ++ cp) + k - length (ps ++ cp))%nat with k by lia. }
        unfold stop_profile. rewrite bool_decide_eq_true_2 by (rewrite elem_of_app; by left). eapply with_acts_app; [|apply Hstop]. by eapply with_acts_app.
    + destruct Hpre as (k & (F & x & Hx & Ho) & W). apply lookup_lt_Some in Hx as Hk. exists k. unfold failed_at. rewrite take_app_le by lia. split.
      { split; [done|]. exists x. split; [by apply lookup_app_l_Some|done]. }
      unfold stop_profile. rewrite bool_decide_eq_false_2, app_nil_r; [done|]. intros Hi. apply elem_of_take in Hi as (i & Hi & Hlt).
      rewrite length_app in Hk. change (length cp) with 2%nat in Hk. apply lookup_app_Some in Hi as [Hi|[Hge Hi]]; [by apply list_elem_of_lookup_2 in Hi|].
      destruct (i - length ps)%nat as [|[|j]] eqn:Ej; [done|lia|done].
Qed.

Lemma not_published : APublishRPC ∉ start_steps.
Proof.
  unfold start_steps, profile_steps, part_steps. rewrite !elem_of_app. intros [[H|H]|H]; [destruct (empty _)..|]; rewrite ?elem_of_cons, ?elem_of_nil in H; naive_solver.
Qed.

Lemma control_registered d d' :
  start_rest cfg g seed d = (Ok tt, d') ->
  exists cc cleanUp, control_result cfg g seed = Ok (cc, cleanUp) /\ dm_registry d' = RegisterChain (g_primaryChain g) cc (dm_registry d).
Proof.
  assert (forall a d u d', act a d = (Ok u, d') -> dm_registry d' = dm_registry d) as Ha.
  { intros a d0 u d1. unfold act, mbind, st_bind, st_res, st_upd. destruct (se_act env a); [|done]. by intros [= _ <-]. }
  unfold start_rest. intros (u1 & d1 & H & H1)%dm_bind_Ok. injection H1 as <-. cbn [add_act dm_registry].
  unfold start_parts in H. apply dm_bind_Ok in H as (u2 & d2 & H2%Ha & H). apply dm_bind_Ok in H as (u3 & d3 & Hc & H).
  apply dm_bind_Ok in H as (u4 & d4 & H4%Ha & H). apply dm_bind_Ok in H as (u5 & d5 & H5%Ha & H). apply dm_bind_Ok in H as (u6 & d6 & H6%Ha & H).
  apply dm_bind_Ok in H as (u7 & d7 & H7%Ha & H8%Ha). rewrite H8, H7, H6, H5, H4, <- H2. revert Hc. unfold start_chain, mbind, st_bind, st_zoom, act_always, st_upd.
  pose proof (steady_control (se_control env) g cfg (str "hello") (str "public") seed (dm_calls d2) []) as Hc.
  destruct (newChainControlFromConfigCustom _ _ _ _ _ _ (dm_calls d2)) as [[[cc cl]|e] calls]; [|done]. intros [= _ <-].
  exists cc, cl. split; [by unfold control_result; rewrite <- Hc|done].
Qed.

Lemma profiled_registry d :
  match profiled cfg (start_rest cfg g seed) d with
  | (Ok _, d') => exists cc cleanUp, control_result cfg g seed = Ok (cc, cleanUp) /\ dm_registry d' = RegisterChain (g_primaryChain g) cc (dm_registry d)
  | (Err _, _) => True
  end.
Proof.
  unfold profiled, mbind, st_bind, st_try, act_always, st_upd, st_res, act.
  destruct (empty (cf_Profile cfg)), (empty (cf_CPUProfile cfg)); cbn.
  all: try destruct (se_act env _) as [[]|]; try done; cbn.
  all: unfold mbind, st_bind, st_upd; cbn.
  all: match goal with |- context [start_rest cfg g seed ?x] => destruct (start_rest cfg g seed x) as [[[]|e] d1] eqn:E end; try done; cbn.
  all: by apply control_registered in E.
Qed.
End Order.

(** C25: the parts of the daemon are made in a fixed order: profiling, the database of
    channels, the control of the chain with its wallet, its registration, the key, the server
    and the funding manager.  When [Start] fails with a configuration that was accepted, the
    error is that of the first part that fails, all parts before it succeeded and were made,
    nothing after it was, and no calls of clients are let in.  When it succeeds every part
    did, the control that was made is the registered one, and the calls are let in.  A
    configuration that is refused starts nothing. *)
Theorem start_in_order seed dataDir d r d' :
  Start seed dataDir d = (r, d') ->
  match loadConfig (se_config env) dataDir (dm_globals d) with
  | (Err e, g) => r = Err e /\ d' = set_globals g d
  | (Ok cfg, g) =>
      let steps := start_steps cfg g in
      match r with
      | Ok c => c = cfg /\ Forall (fun a => outcome cfg g seed a = Ok tt) steps
          /\ with_acts (steps ++ [APublishRPC; ASpawn] ++ stop_profile steps ++ [ACloseLog]) (set_globals g d) d' /\ dm_LndRpcServer d' = true
          /\ exists cc cleanUp, control_result cfg g seed = Ok (cc, cleanUp) /\ dm_registry d' = RegisterChain (g_primaryChain g) cc (dm_registry d)
      | Err e => exists k a, steps !! k = Some a /\ outcome cfg g seed a = Err e /\ Forall (fun b => outcome cfg g seed b = Ok tt) (take k steps)
          /\ with_acts (take k steps ++ stop_profile (take k steps) ++ [ACloseLog]) (set_globals g d) d' /\ dm_LndRpcServer d' = dm_LndRpcServer d
      end
  end.
Proof.
  unfold Start, mbind at 1 2 3 4 5 6, st_bind at 1 2 3 4 5 6, st_zoom, st_try, st_upd, st_get, st_res.
  destruct (loadConfig (se_config env) dataDir (dm_globals d)) as [[cfg|e] g]; [|by intros [= <- <-]].
  set (d0 := open_log (set_globals g d)). change (dm_globals d0) with g. cbn zeta.
  pose proof (profiled_makes cfg g seed _ [APublishRPC; ASpawn] d0 (makes_rest cfg g seed)) as Hm.
  pose proof (profiled_registry cfg g seed d0) as Hreg.
  destruct (profiled cfg (start_rest cfg g seed) d0) as [[[]|e] d1]; cbn [fst snd] in *; unfold act_always, st_upd.
  - destruct Hm as [F W]. intros [= <- <-]. split; [done|]. split; [done|]. split; [|split; [|by apply Hreg]].
    + rewrite !app_assoc. rewrite !app_assoc in W. apply (with_acts_app _ [_] _ d1); [exact W|apply with_acts_one].
    + destruct W as (_ & _ & Hl). cbn. rewrite Hl, bool_decide_eq_true_2; [by rewrite orb_true_r|]. rewrite !elem_of_app. right. left. left.
  - destruct Hm as (k & (F & a & Ha & Ho) & W). intros [= <- <-]. exists k, a. split; [done|]. split; [done|]. split; [done|]. split.
    + rewrite app_assoc. apply (with_acts_app _ [_] _ d1); [exact W|apply with_acts_one].
    + destruct W as (_ & _ & Hl). cbn. rewrite Hl, bool_decide_eq_false_2; [cbn; by rewrite !orb_false_r|].
      rewrite elem_of_app. intros [Hin|Hin]; [|unfold stop_profile in Hin; case_bool_decide; [|by apply elem_of_nil in Hin]; rewrite !elem_of_cons, elem_of_nil in Hin; naive_solver].
      apply elem_of_take in Hin as (i & Hi%list_elem_of_lookup_2 & _). by apply not_published in Hi.
Qed.


(** The server is started only when the wallet says that it has seen the whole chain. *)
Lemma server_after_sync cfg polls d r d' :
  after_start cfg polls d = (r, d') -> AStartServer ∈ dm_acts d' -> AStartServer ∈ dm_acts d \/ (wait_synced polls = Some (Ok tt) /\ Ok true ∈ polls).
Proof.
  unfold after_start. unfold mbind at 1, st_bind at 1.
  assert (AStartServer ∈ dm_acts (act AGetBestBlock d).2 -> AStartServer ∈ dm_acts d) as Hb.
  { unfold act, mbind, st_bind, st_res, st_upd. destruct (se_act env AGetBestBlock); [|done]. cbn. rewrite elem_of_app, list_elem_of_singleton. by intros [?|?]. }
  destruct (act AGetBestBlock d) as [[[]|e] d1]; [|intros [= <- <-] H; left; by apply Hb].
  unfold mbind at 1, st_bind at 1, st_res at 1. destruct (wait_synced polls) as [[[]|e]|] eqn:Ew; try (intros [= <- <-] H; left; by apply Hb).
  intros _ _. right. split; [done|]. clear -Ew. induction polls as [|[[]|e] polls IH]; try done; [by left|right; by apply IH].
Qed.
End Start.
