(* ===== verification/Mobile.v ===== *)
(** * The binding for mobile applications and the shutdown

    signal.go, the handler of interrupts and of requests to stop, and lightning.go, the
    functions an application calls: [Start] and one call for each request of the RPC server,
    whose answer comes as text.

    The text form of an answer and the seed of a mnemonic are vendored code and arguments. *)

From Stdlib Require Import ZArith Lia.
From Stdlib Require Import Init.Byte.
From stdpp Require Import base gmap strings numbers list.
From S2P Require Import Prelude Tx Outputs Effects InvoiceStore Preimages FundingManager Server GoStrings RpcBase PaymentStore RpcPay RpcInfo RpcOpen.
From S2P Require Import RpcWallet Bootstrap Config StartUp.
From S2P Require Import ServerSafe ServerInv ServerProps ServerExamples.
Local Open Scope Z_scope.

(** ** Interrupts *)

Section Signals.
Context {H : Type}.
Implicit Types h : H.

(** [sg_running] says whether [mainInterruptHandler] runs, [sg_ran] which handlers were
    called, and [sg_signals] how many goroutines signal the main one. *)
Record interrupts := mkInterrupts {
  sg_running : bool;
  sg_interruptCallbacks : list H;
  sg_isShutdown : bool;
  sg_ran : list H;
  sg_signals : nat
}.

Definition no_interrupts : interrupts := mkInterrupts false [] false [] 0.

(** The handlers from the last to the first. *)
Fixpoint lifo_loop (callbacks : list H) (idxs : list nat) : list H :=
  match idxs with
  | [] => []
  | i :: idxs => match callbacks !! (length callbacks - 1 - i)%nat with Some h => h :: lifo_loop callbacks idxs | None => lifo_loop callbacks idxs end
  end.

Definition shutdown (s : interrupts) : interrupts :=
  if sg_isShutdown s then s
  else mkInterrupts (sg_running s) (sg_interruptCallbacks s) true
         (sg_ran s ++ lifo_loop (sg_interruptCallbacks s) (seq 0 (length (sg_interruptCallbacks s)))) (S (sg_signals s)).

Definition add_handler h (s : interrupts) : interrupts :=
  mkInterrupts (sg_running s) (sg_interruptCallbacks s ++ [h]) (sg_isShutdown s)
    (if sg_isShutdown s then sg_ran s ++ [h] else sg_ran s) (sg_signals s).

(** The first handler starts the goroutine. *)
Definition addInterruptHandler h (s : interrupts) : interrupts :=
  add_handler h (mkInterrupts true (sg_interruptCallbacks s) (sg_isShutdown s) (sg_ran s) (sg_signals s)).

(** [StopDaemon] of the RPC server: the channel has no buffer, so that it waits for the
    goroutine to take the request; [None] is a call that does not return. *)
Definition StopDaemon (s : interrupts) : option interrupts := if sg_running s then Some (shutdown s) else None.

Inductive interrupt_event := SInterrupt | SRequest | SAdd h.

Definition interrupt_step (e : interrupt_event) (s : interrupts) : option interrupts :=
  match e with
  | SInterrupt => if sg_running s then Some (shutdown s) else None
  | SRequest => StopDaemon s
  | SAdd h => Some (addInterruptHandler h s)
  end.

Fixpoint interrupt_run (es : list interrupt_event) (s : interrupts) : option interrupts :=
  match es with
  | [] => Some s
  | e :: es => match interrupt_step e s with Some s' => interrupt_run es s' | None => None end
  end.

(** The handlers added before the first shutdown, and those added from then on. *)
Fixpoint added_before (es : list interrupt_event) : list H :=
  match es with SAdd h :: es => h :: added_before es | _ => [] end.

Fixpoint added (es : list interrupt_event) : list H :=
  match es with [] => [] | SAdd h :: es => h :: added es | _ :: es => added es end.

Definition is_stop (e : interrupt_event) : bool := match e with SAdd _ => false | _ => true end.

Lemma lifo_reverse (cs : list H) : lifo_loop cs (seq 0 (length cs)) = reverse cs.
Proof.
  assert (forall n, (n <= length cs)%nat -> lifo_loop cs (seq (length cs - n) n) = reverse (take n cs)) as Hn.
  { induction n as [|n IH]; intros Hle; [done|]. cbn [seq lifo_loop]. destruct (lookup_lt_is_Some_2 cs n) as [h Hh]; [lia|].
    replace (length cs - 1 - (length cs - S n))%nat with n by lia. rewrite Hh. replace (S (length cs - S n)) with (length cs - n)%nat by lia.
    rewrite IH by lia. rewrite (take_S_r _ _ _ Hh), reverse_app. done. }
  specialize (Hn (length cs) ltac:(done)). rewrite Nat.sub_diag, firstn_all in Hn. done.
Qed.

Lemma run_after_shutdown es s s' :
  sg_running s = true -> sg_isShutdown s = true -> interrupt_run es s = Some s' ->
  sg_ran s' = sg_ran s ++ added es /\ sg_signals s' = sg_signals s.
Proof.
  revert s. induction es as [|e es IH]; intros s Hr Hs; cbn [interrupt_run added]; [intros [= <-]; by rewrite app_nil_r|].
  destruct e as [| |h]; cbn [interrupt_step]; [rewrite Hr|unfold StopDaemon; rewrite Hr|].
  1,2: unfold shutdown; rewrite Hs; by apply IH.
  intros Hrun. destruct (IH (addInterruptHandler h s) eq_refl Hs Hrun) as [-> ->]. cbn. rewrite Hs. by rewrite <- app_assoc.
Qed.

Lemma run_before_shutdown es s s' :
  sg_isShutdown s = false -> sg_ran s = [] -> sg_signals s = 0%nat -> interrupt_run es s = Some s' ->
  if existsb is_stop es
  then exists rest, added es = added_before es ++ rest /\ sg_ran s' = reverse (sg_interruptCallbacks s ++ added_before es) ++ rest /\ sg_signals s' = 1%nat
  else sg_ran s' = [] /\ sg_signals s' = 0%nat.
Proof.
  revert s. induction es as [|e es IH]; intros s Hs Hran Hsig; cbn [interrupt_run added added_before existsb]; [by intros [= <-]|].
  assert (forall s1, sg_running s = true -> s1 = shutdown s -> interrupt_run es s1 = Some s' ->
    exists rest, added es = [] ++ rest /\ sg_ran s' = reverse (sg_interruptCallbacks s ++ []) ++ rest /\ sg_signals s' = 1%nat) as Hstop.
  { intros s1 Hr -> Hrun. unfold shutdown in Hrun. rewrite Hs in Hrun. apply run_after_shutdown in Hrun as [-> ->]; [|done..]. cbn. rewrite Hran, Hsig.
    rewrite lifo_reverse, app_nil_r. by exists (added es). }
  destruct e as [| |h]; cbn [interrupt_step is_stop orb]; unfold StopDaemon.
  1,2: destruct (sg_running s) eqn:Er; [|done]; by apply Hstop.
  intros Hrun. pose proof (IH (addInterruptHandler h s) Hs) as IH'. cbn in IH'. rewrite Hs in IH'. specialize (IH' Hran Hsig Hrun).
  destruct (existsb is_stop es); [|done]. destruct IH' as (rest & E & Hr & Hsg). exists rest. cbn. rewrite E. split; [done|]. split; [|done].
  rewrite Hr. by rewrite <- app_assoc.
Qed.

(** C34: whatever interrupts, requests to stop and new handlers arrive in whatever order, no
    handler is called before the first stop; with it every handler is called exactly once,
    those that were there from the last to the first, and the main goroutine is told once. *)
Theorem shutdown_once es s :
  interrupt_run es no_interrupts = Some s ->
  if existsb is_stop es
  then exists rest, added es = added_before es ++ rest /\ sg_ran s = reverse (added_before es) ++ rest /\ sg_ran s ≡ₚ added es /\ sg_signals s = 1%nat
  else sg_ran s = [] /\ sg_signals s = 0%nat.
Proof.
  intros Hrun. pose proof (run_before_shutdown es no_interrupts s eq_refl eq_refl eq_refl Hrun) as H0. destruct (existsb is_stop es); [|done].
  destruct H0 as (rest & E & Hr & Hs). exists rest. cbn [no_interrupts sg_interruptCallbacks app] in Hr. split; [done|]. split; [done|]. split; [|done]. rewrite Hr, E. by rewrite reverse_Permutation.
Qed.

(** Before the first handler is there, a request to stop the daemon does not return. *)
Lemma stop_waits : StopDaemon no_interrupts = None.
Proof. reflexivity. Qed.
End Signals.
Arguments interrupts : clear implicits.
Arguments interrupt_event : clear implicits.

(** ** The binding *)

(** [mb_dir] is the directory given to [btcutil.SetDir]. *)
Record binding := mkBinding { mb_started : bool; mb_dir : bytes; mb_daemon : process }.

Definition set_mb_daemon (d : process) (b : binding) : binding := mkBinding (mb_started b) (mb_dir b) d.

(** The first call starts the daemon, whatever comes of it; later ones do nothing. *)
Definition mobile_Start (env : startEnv) (NewSeedWithErrorChecking : bytes -> res bytes) (dir mnemonic : bytes) : ST binding () :=
  _ ← st_upd (fun b => mkBinding (mb_started b) dir (mb_daemon b));
  b ← st_get;
  if mb_started b then mret tt
  else
    _ ← st_upd (fun b => mkBinding true (mb_dir b) (mb_daemon b));
    seed ← st_res (if empty mnemonic then Ok None else s ← NewSeedWithErrorChecking mnemonic; Ok (Some s));
    _ ← st_zoom mb_daemon set_mb_daemon (Start env seed dir);
    mret tt.

Definition CreateBip39Seed (entropy : res bytes) (NewMnemonic : bytes -> res bytes) : res bytes :=
  e ← entropy;
  NewMnemonic e.

Definition convertToJSON {A} (MarshalToString : A -> res bytes) (resp : A) : res bytes := MarshalToString resp.

(** The shape of every call: a method of a server that may not be there yet, and its answer
    as text. *)
Definition answer {A} (marshal : A -> res bytes) (b : binding) (r : res A) : res bytes :=
  if negb (dm_LndRpcServer (mb_daemon b)) then Err (ErrPanic "invalid memory address or nil pointer dereference")
  else resp ← r; convertToJSON marshal resp.

Section Calls.
Context {IE : InvoiceEnv} {RE : RpcEnv} {BTC : Btcec} {ZP : Zpay32}.

Definition mobile_GetInfo marshal (b : binding) live env ann (s : server) : res bytes := answer marshal b (GetInfo live env ann s).
Definition mobile_NewAddress marshal (b : binding) (w : wallet) (addressType : Z) : res bytes := answer marshal b (NewAddress w addressType).
Definition mobile_WalletBalance marshal (b : binding) confirmed : res bytes := answer marshal b (WalletBalance confirmed).
Definition mobile_ChannelBalance marshal (b : binding) channels : res bytes := answer marshal b (ChannelBalance channels).
Definition mobile_PendingChannels marshal (b : binding) d pendingOpen bestBlock pendingClose report : res bytes :=
  answer marshal b (PendingChannels d pendingOpen bestBlock pendingClose report).
Definition mobile_ListChannels marshal (b : binding) d channels : res bytes :=
  answer marshal b (ListChannels d (mkListChannelsRequest false false false false) channels).
Definition mobile_ListPayments marshal (b : binding) db : res bytes := answer marshal b (ListPayments db).
Definition mobile_ListPeers marshal (b : binding) live (s : server) : res bytes := answer marshal b (Ok (ListPeers live s)).
Definition mobile_GetTransactions marshal (b : binding) (w : wallet) : res bytes := answer marshal b (GetTransactions w).

Definition chr_at : byte := x40.

(** [started] is whether the server was started; the answer has no fields. *)
Definition mobile_ConnectPeer (marshal : () -> res bytes) (b : binding) (started : bool) (identity : PublicKey) (ResolveTCPAddr : bytes -> res Addr)
    (targetAddress : bytes) : SV (res bytes) :=
  match Split targetAddress chr_at with
  | [pub; host] =>
      if negb (dm_LndRpcServer (mb_daemon b)) then mret (Err (ErrPanic "invalid memory address or nil pointer dereference"))
      else
        r ← st_try (rpc_ConnectPeer started identity (fun h => is_ok (SplitHostPort h)) (fun h => JoinHostPort h (str "9735")) ResolveTCPAddr
                      (Some (mkLightningAddress pub host)) false);
        mret (answer marshal b (_ ← r; Ok tt))
  | _ => mret (Err (ErrNew "target address expected in format: pubkey@host:port"))
  end.

Definition mobile_open_request (nodePubKeyHex : bytes) (localAmount : Z) : OpenChannelRequest :=
  mkOpenChannelRequest [] nodePubKeyHex localAmount 0 0 0 false 0 0.

Definition mobile_OpenChannelSync marshal (b : binding) (env : openEnv) (nodePubKeyHex : bytes) (localAmount : Z) (ev : open_event) : res bytes :=
  answer marshal b (OpenChannelSync env (mobile_open_request nodePubKeyHex localAmount) ev).

Definition mobile_SendPaymentSync marshal (b : binding) cfg (started : bool) (now : Time) router (paymentRequest : bytes) (db : payment_db) : res bytes * payment_db :=
  if negb (dm_LndRpcServer (mb_daemon b)) then (Err (ErrPanic "invalid memory address or nil pointer dereference"), db)
  else let (r, db') := SendPaymentSync cfg started now router (mkSendRequest [] [] 0 [] [] paymentRequest 0) db in (answer marshal b r, db').

(** ** What an application gets *)

Lemma chr_at_hex src : chr_at ∉ hex_EncodeToString src.
Proof.
  unfold hex_EncodeToString. induction src as [|c src IH]; [by apply not_elem_of_nil|]. cbn. intros [E|[E|Hin]%elem_of_cons]%elem_of_cons; [| |done].
  all: revert E; by destruct c.
Qed.

(** An application that gives the key of a node and its host as key@host connects with
    that node: not to itself, at the port given or the usual one, and not for good. *)
Theorem connect_target marshal b identity Resolve (key : PublicKey) host s :
  dm_LndRpcServer (mb_daemon b) = true -> key <> identity -> chr_at ∉ host ->
  let addr := match SplitHostPort host with Ok _ => host | Err _ => JoinHostPort host (str "9735") end in
  mobile_ConnectPeer marshal b true identity Resolve (hex_EncodeToString (SerializeCompressed key) ++ chr_at :: host) s
  = match Resolve addr with
    | Err e => (Ok (Err e), s)
    | Ok a => let (r, s') := ConnectToPeer (SerializeCompressed key) a false s in (Ok (_ ← r; marshal tt), s')
    end.
Proof.
  intros Hb Hk Hh addr. unfold mobile_ConnectPeer. rewrite Split_app, (Split_word host) by (done || apply chr_at_hex). rewrite Hb. cbn [negb].
  unfold mbind at 1, st_bind at 1, st_try, rpc_ConnectPeer. cbn [negb la_Pubkey la_Host]. unfold mbind at 1, st_bind at 1, st_res at 1. rewrite hex_roundtrip.
  unfold mbind at 1, st_bind at 1, st_res at 1. rewrite ParsePubKey_SerializeCompressed. rewrite decide_False by done.
  assert ((if is_ok (SplitHostPort host) then host else JoinHostPort host (str "9735")) = addr) as -> by (unfold addr; by destruct (SplitHostPort host)).
  unfold mbind at 1, st_bind at 1, st_res at 1. destruct (Resolve addr) as [a|e]; [|cbn; unfold answer; by rewrite Hb].
  destruct (ConnectToPeer (SerializeCompressed key) a false s) as [[r|e] s']; cbn; unfold answer; by rewrite Hb.
Qed.

(** A channel that an application opens is asked for with nothing pushed and in public. *)
Lemma mobile_open_asks marshal b env hex amt ev out :
  mobile_OpenChannelSync marshal b env hex amt ev = Ok out ->
  exists peer req, open_request_sync env (mobile_open_request hex amt) = Ok (peer, req) /\ minChanFundingSize <= amt
    /\ oq_localFundingAmt req = amt /\ oq_pushAmt req = 0.
Proof.
  unfold mobile_OpenChannelSync, answer. destruct (negb _); [done|]. intros H. apply res_bind_Ok_inv in H as (resp & H & _).
  unfold OpenChannelSync in H. apply res_bind_Ok_inv in H as ([peer req] & H & _). exists peer, req. split; [done|]. revert H. unfold open_request_sync.
  destruct (negb (oe_Started env)); [done|]. intros H. apply res_bind_Ok_inv in H as (syn & _ & H). destruct (negb syn); [done|].
  apply res_bind_Ok_inv in H as (kb & _ & H). apply res_bind_Ok_inv in H as (key & _ & H). cbn [mobile_open_request or_LocalFundingAmount or_PushSat] in H.
  destruct (amt <=? 0); [done|]. destruct (Z.ltb_spec amt minChanFundingSize); [done|]. apply res_bind_Ok_inv in H as (rate & _ & H).
  apply server_OpenChannel_made in H as (_ & _ & Ha & Hp). done.
Qed.

(** However the first call ends, later ones report success and start nothing. *)
Lemma start_only_once env seeds dir m b r b1 dir2 m2 :
  mobile_Start env seeds dir m b = (r, b1) -> mobile_Start env seeds dir2 m2 b1 = (Ok tt, mkBinding true dir2 (mb_daemon b1)).
Proof.
  intros H. assert (mb_started b1 = true) as Hs.
  { revert H. unfold mobile_Start, mbind, st_bind, st_upd, st_get, st_res, st_zoom, mret, st_ret. cbn. destruct (mb_started b) eqn:E; [intros ?; by simplify_eq/=|].
    destruct (if empty m then _ else _) as [seed|e]; [|intros ?; by simplify_eq/=]. cbn. destruct (Start env seed dir (mb_daemon b)) as [[c|e] d]; intros ?; by simplify_eq/=. }
  unfold mobile_Start, mbind, st_bind, st_upd, st_get. cbn. by rewrite Hs.
Qed.

(** Every call of an application before the daemon is there ends it. *)
Lemma call_before_start {A} (marshal : A -> res bytes) b r : dm_LndRpcServer (mb_daemon b) = false -> answer marshal b r = Err (ErrPanic "invalid memory address or nil pointer dereference").
Proof. intros H. unfold answer. by rewrite H. Qed.
End Calls.

(** * The start at work *)

Module StartRuns.
#[local] Existing Instance toy_btcec.

Definition network (name : bytes) (magic : Z) : Params := mkParams name magic [] 100 bitcoinTestnetGenesis [] [] [] [] 1 [] [].
Definition toy_chaincfg : chaincfg := fun n =>
  match n with
  | MainNetVar => network (str "mainnet") 1
  | TestNet3Var => network (str "testnet3") 0x0709110b
  | SimNetVar => network (str "simnet") 2
  | RegressionNetVar => network (str "regtest") 3
  end.

Definition globals0 : globals := mkGlobals toy_chaincfg bitcoinTestNetParams bitcoinChain [] subsystemLoggers None.

(** A user with a home and a btcd in it; [flags] is the command line. *)
Definition btcd_conf : bytes := write_setting (str "rpcuser") (str "alice") ++ write_setting (str "rpcpass") (str "secret").
Definition user_env (flags : config -> config) (ini : bytes -> config -> config) : configEnv :=
  mkConfigEnv (fun name => str "/app/" ++ name) (Some (str "/home/alice")) [] (fun s => s) (fun _ => Ok tt)
    (fun f => if bool_decide (f = str "/app/btcd/btcd.conf") then Ok btcd_conf else Err ErrEOF) (fun _ => true) (fun c => Ok (flags c)) ini
    (network (str "testnet4") 0xf1c8d2fd) (network (str "litecoin") 4).

Definition with_chain (f : chainConfig -> chainConfig) (c : config) : config := set_bitcoin (f (cf_Bitcoin c)) (cf_BtcdMode c) (cf_BitcoindMode c) c.
Definition testnet (node : bytes) (c : chainConfig) : chainConfig :=
  mkChainConfig true (cc_ChainDir c) node false true false false 0 0 (cc_MinHTLC c) (cc_BaseFee c) (cc_FeeRate c) (cc_TimeLockDelta c).
Definition same_file (f : bytes) (c : config) : config := c.

Definition env_btcd : configEnv := user_env (with_chain (testnet (str "btcd"))) same_file.
Notation load_btcd := (loadConfig env_btcd (str "/data") globals0).

Definition summary (r : res config * globals) : option (bytes * bytes * list bytes * list bytes * bytes * bytes) :=
  match r.1 with
  | Ok c => Some (bd_RPCUser (cf_BtcdMode c), bd_RPCPass (cf_BtcdMode c), cf_RPCListeners (cf_listen c), cf_Listeners (cf_listen c),
                  cc_ChainDir (cf_Bitcoin c), cf_LogDir (cf_paths c))
  | Err _ => None
  end.

Example load_btcd_ok :
  summary load_btcd
  = Some (str "alice", str "secret", [str "localhost:10009"], [str ":9735"], str "/data/Lnd/data/chain/bitcoin", str "/data/Lnd/logs/bitcoin/testnet").
Proof. vm_compute. reflexivity. Qed.

Lemma config_accepted_witness :
  exists c g, load_btcd = (Ok c, g) /\ chain_ok env_btcd c globals0 g /\ cf_RPCListeners (cf_listen c) = [str "localhost:10009"]
    /\ forall a, cf_NoMacaroons (cf_listen c) = true -> a ∈ cf_RPCListeners (cf_listen c) -> exists name, name ∈ own_host_names /\ Contains a name = true.
Proof.
  destruct load_btcd as [r g] eqn:E. destruct r as [c|e].
  - exists c, g. split; [reflexivity|]. destruct (config_accepted env_btcd (str "/data") globals0 c g E) as (c0 & _ & Hc & _ & _ & Hl & _).
    split; [exact Hc|]. split.
    + assert (summary (Ok c, g) = summary load_btcd) as Hs by (rewrite E; reflexivity). rewrite load_btcd_ok in Hs. cbn in Hs. congruence.
    + intros a Hn Ha. destruct Hl as (_ & _ & _ & _ & _ & _ & _ & Hlb & _). apply (Hlb Hn). rewrite elem_of_app. by left.
  - exfalso. assert (summary (Err e, g) = summary load_btcd) as Hs by (rewrite E; reflexivity). rewrite load_btcd_ok in Hs. discriminate.
Defined.

(** A host that is reachable from everywhere counts as the own one when its name contains
    one of the names of the own host, and the daemon listens there without authentication. *)
Example public_counts_as_local :
  enforceSafeAuthentication [str "localhost.example.com:10009"] false = Ok tt
  /\ SplitHostPort (str "localhost.example.com:10009") = Ok (str "localhost.example.com", str "10009").
Proof. split; reflexivity. Qed.

(** A port alone means the own host, but is refused as public. *)
Example port_counts_as_public :
  normalizeAddresses [str "10009"] (str "10009") = [str "localhost:10009"] /\ is_ok (enforceSafeAuthentication [str "10009"] false) = false.
Proof. split; reflexivity. Qed.

(** A literal address of version 6 without a port is bracketed twice and cannot be used. *)
Example brackets_doubled :
  normalizeAddresses [str "[::1]"] (str "10009") = [str "[[::1]]:10009"] /\ is_ok (SplitHostPort (str "[[::1]]:10009")) = false.
Proof. split; reflexivity. Qed.

(** The largest channel of the autopilot may be smaller than the smallest. *)
Example autopilot_no_channel :
  let c := defaultCfg env_btcd (str "/data/Lnd") in
  match check_autopilot (set_Autopilot (mkAutoPilotConfig true 5 (ap_Allocation (cf_Autopilot c)) 20000 10) c) with
  | Ok c' => ap_MaxChannelSize (cf_Autopilot c') < ap_MinChannelSize (cf_Autopilot c')
  | Err _ => False
  end.
Proof. reflexivity. Qed.

(** With another directory for the daemon its configuration file is not read: the file that
    is asked for is that of the default directory. *)
Definition other_dir (c : config) : config :=
  let p := cf_paths c in
  with_chain (testnet (str "btcd"))
    (set_paths (mkPathConfig (str "/other") (cf_ConfigFile p) (cf_DataDir p) (cf_TLSCertPath p) (cf_TLSKeyPath p) (cf_AdminMacPath p) (cf_ReadMacPath p)
                  (cf_InvoiceMacPath p) (cf_LogDir p)) c).
Definition set_Alias (a : bytes) (c : config) : config :=
  mkConfig (cf_ShowVersion c) (cf_paths c) (cf_listen c) (cf_DebugLevel c) (cf_Profile c) (cf_CPUProfile c) (cf_MaxPendingChannels c) (cf_Bitcoin c) (cf_BtcdMode c)
    (cf_BitcoindMode c) (cf_NeutrinoMode c) (cf_Litecoin c) (cf_LtcdMode c) (cf_LitecoindMode c) (cf_Autopilot c) (cf_Tor c) (cf_TrickleDelay c) a (cf_Color c) (cf_net c).

Example other_dir_file_ignored :
  match (read_options (user_env other_dir (fun file c => set_Alias file c)) (str "/data") globals0).1 with
  | Ok c => cf_Alias c = str "/data/Lnd/lnd.conf" /\ cf_DataDir (cf_paths c) = str "/other/data"
  | Err _ => False
  end.
Proof. vm_compute. split; reflexivity. Qed.

(** The macaroon for invoices is not below the directory the application gave. *)
Example invoice_macaroon_elsewhere :
  match load_btcd.1 with Ok c => cf_InvoiceMacPath (cf_paths c) = str "/app/lnd/invoice.macaroon" /\ cf_AdminMacPath (cf_paths c) = str "/data/Lnd/admin.macaroon" | Err _ => False end.
Proof. vm_compute. split; reflexivity. Qed.

(** Litecoin's parameters are written over those of bitcoin's test network, for the rest of
    the process. *)
Example litecoin_overwrites_testnet :
  let g := litecoin_active (litecoinMainNetParams (network (str "litecoin") 4)) globals0 in
  pr_Name (g_chaincfg g (np_Params bitcoinTestNetParams)) = str "litecoin".
Proof. reflexivity. Qed.

(** ** Terms *)

Definition btcd_config : config := match load_btcd.1 with Ok c => c | Err _ => defaultCfg env_btcd [] end.

Lemma channel_terms_bounded_witness :
  let t := terms_of bitcoinChain btcd_config in
  terms_NumRequiredConfs t 100000 0 = 3 /\ terms_NumRequiredConfs t 16777216 0 = 6
  /\ tm_minRemoteDelay t <= terms_RequiredRemoteDelay t 100000 <= terms_RequiredRemoteDelay t 16777216
  /\ 1000 * terms_RequiredRemoteChanReserve 100000 + terms_RequiredRemoteMaxValue 100000 = 1000 * 100000.
Proof.
  intros t. destruct (channel_terms_bounded bitcoinChain btcd_config 100000 16777216 0 0) as (_ & Hd & Hr & _);
    [lia|unfold maxFundingAmount; lia|lia|lia|lia|].
  split; [vm_compute; reflexivity|]. split; [vm_compute; reflexivity|]. split; [|exact Hr].
  fold t in Hd. assert (u16 (cc_DefaultRemoteDelay (tm_cfg t)) = 0) as E by (vm_compute; reflexivity). rewrite E in Hd. apply Hd.
Defined.

(** Above the largest size, which the synchronous call does not check, the delay wraps
    around. *)
Example delay_wraps : terms_RequiredRemoteDelay (terms_of bitcoinChain btcd_config) (33 * 2 ^ 24) = 992.
Proof. vm_compute. reflexivity. Qed.

(** A peer that left before its channel is watched becomes persistent without a request for
    a connection. *)
Example watched_after_leaving :
  let s := (WatchNewChannel (Ok tt) ServerRuns.bob (newServer [x01])).2 in
  ServerRuns.bob ∈ persistentPeers s /\ peersByPub s !! ServerRuns.bob = None /\ persistentConnReqs s !! ServerRuns.bob = None.
Proof. cbn zeta. by_eval. Qed.

(** ** The start *)

Definition control0 : controlEnv := mkControlEnv (fun _ => Ok tt) (fun _ => Err ErrEOF) (Ok []) 573.
Definition process0 : process := mkProcess globals0 [] newChainRegistry [] false false.
Definition start0 : startEnv := mkStartEnv env_btcd control0 (fun _ => Ok tt).

Lemma start_in_order_witness :
  exists c d, Start start0 None (str "/data") process0 = (Ok c, d) /\ dm_LndRpcServer d = true /\ AChainControl ∈ dm_acts d.
Proof.
  assert (is_ok (Start start0 None (str "/data") process0).1 = true) as Hr by (vm_compute; reflexivity).
  destruct (Start start0 None (str "/data") process0) as [r d] eqn:E. pose proof (start_in_order start0 None (str "/data") process0 r d E) as H.
  clear E. destruct r as [c|e]; [|discriminate Hr]. exists c, d. split; [reflexivity|].
  revert H. generalize (loadConfig (se_config start0) (str "/data") (dm_globals process0)). intros [[cfg|e] g] H; [|destruct H; discriminate].
  destruct H as (_ & _ & (Ha & _) & Hl & _). split; [exact Hl|]. rewrite Ha, !elem_of_app. right. left. unfold start_steps. rewrite elem_of_app. right. right. left.
Defined.

(** When the funding manager cannot be started, all before it was made and no calls are let
    in; without a wallet the daemon gets no further than its database. *)
Definition start_fails (a : start_act) : startEnv := mkStartEnv env_btcd control0 (fun b => if decide (b = a) then Err ErrEOF else Ok tt).

Example stops_at_failure :
  let d := (Start (start_fails AStartFundingManager) None (str "/data") process0).2 in
  dm_LndRpcServer d = false /\ last (dm_acts d) = Some ACloseLog /\ length (dm_acts d) = 8%nat.
Proof. vm_compute. repeat split. Qed.

(** The log is closed when [Start] returns, although the daemon goes on. *)
Example log_closed :
  let d := (Start start0 None (str "/data") process0).2 in
  dm_logOpen d = false /\ last (dm_acts d) = Some ACloseLog /\ ASpawn ∈ dm_acts d.
Proof. split; [vm_compute; reflexivity|]. split; [vm_compute; reflexivity|]. apply (bool_decide_unpack _). vm_compute. exact I. Qed.

(** A failed start leaves the database of the light client open and its service running. *)
Definition control_fails : controlEnv := mkControlEnv (fun c => match c with CStartup => Err ErrEOF | _ => Ok tt end) (fun _ => Err ErrEOF) (Ok []) 573.

Definition starts_service (c : cc_call) : bool := match c with CStartService => true | _ => false end.
Definition cleans_up (c : cc_call) : bool := match c with CStopService | CCloseDB => true | _ => false end.

Example no_wallet_no_server :
  let (r, d) := Start (mkStartEnv env_btcd control_fails (fun _ => Ok tt)) None (str "/data") process0 in
  is_ok r = false /\ dm_LndRpcServer d = false /\ length (dm_acts d) = 2%nat.
Proof. vm_compute. repeat split. Qed.

Example failed_start_leaks :
  let d := (Start (mkStartEnv env_btcd control_fails (fun _ => Ok tt)) None (str "/data") process0).2 in
  existsb starts_service (dm_calls d) = true /\ existsb cleans_up (dm_calls d) = false.
Proof. vm_compute. split; reflexivity. Qed.

(** The configuration names btcd, but the daemon runs the light client. *)
Example node_ignored :
  match (newChainControlFromConfigCustom control0 globals0 btcd_config [] [] None []).1 with
  | Ok (cc, _) => ct_source cc = NeutrinoSource (str "/data/Lnd/data/chain/bitcoin/testnet") [] [] /\ cc_Node (cf_Bitcoin btcd_config) = str "btcd"
  | Err _ => False
  end.
Proof. vm_compute. split; reflexivity. Qed.

(** After a mnemonic with a mistake the application cannot start the daemon any more, and is
    told that it did. *)
Definition binding0 : binding := mkBinding false [] process0.
Definition bad_mnemonic (m : bytes) : res bytes := if bool_decide (m = str "good") then Ok m else Err (ErrNew "Invalid mnenomic").

Example second_start_lies :
  let b := (mobile_Start start0 bad_mnemonic (str "/data") (str "bad") binding0).2 in
  let (r, b') := mobile_Start start0 bad_mnemonic (str "/data") (str "good") b in
  r = Ok tt /\ dm_LndRpcServer (mb_daemon b') = false /\ dm_acts (mb_daemon b') = [].
Proof. vm_compute. repeat split. Qed.

(** ** The shutdown *)

Lemma shutdown_once_witness :
  exists s, interrupt_run [SAdd 1%nat; SAdd 2%nat; SRequest; SAdd 3%nat; SInterrupt] no_interrupts = Some s /\ sg_ran s = [2; 1; 3]%nat /\ sg_ran s ≡ₚ [1; 2; 3]%nat.
Proof.
  eexists. split; [reflexivity|]. split; [reflexivity|].
  destruct (shutdown_once [SAdd 1%nat; SAdd 2%nat; SRequest; SAdd 3%nat; SInterrupt] _ eq_refl) as (rest & _ & _ & Hp & _). exact Hp.
Defined.

(** The agent of the autopilot is not stopped. *)
Example pilot_not_stopped (cfg : config) : StopPilot ∉ installed_handler cfg.
Proof. unfold installed_handler, shutdown_handler. cbn. intros H. repeat (apply elem_of_cons in H as [H|H]; [discriminate|]). by apply elem_of_nil in H. Qed.

End StartRuns.
