(* ===== verification/RpcExamples.v ===== *)
(** * The RPC calls and the node at work

    A clock in seconds, a payment request that can be encoded, runs that show that the
    hypotheses of the theorems can hold, and requests that do not end as intended; then runs
    of the bootstrapper and of the controller of the autopilot. *)

From Stdlib Require Import ZArith Lia.
From Stdlib Require Import Init.Byte.
From Stdlib Require Import Sorted.
From stdpp Require Import base gmap strings numbers list.
From S2P Require Import Prelude Stream Tx Outputs Bolt InvoiceStore Preimages PreimageProps PreimageExamples.
From S2P Require Import Effects Server ServerSafe ServerInv ServerProps ServerExamples Sweep Nursery FundingManager.
From S2P Require Import RpcBase RpcInvoice PaymentStore RpcPay RpcPayInv RpcPayProps ForwardingLog RpcFees RpcInfo.
From S2P Require Import RpcOpen RpcWallet Bootstrap Pilot.
Local Open Scope Z_scope.

Module RpcRuns.

(** ** The environment *)

(** The times that can be stored are the zero time and the hundredth second. *)
Definition toy_marshal (t : Z) : res bytes :=
  match t with 0 => Ok [] | 100 => Ok [x01] | _ => Err (ErrNew "zone offset") end.
Definition toy_unmarshal (b : bytes) : res Z := match b with [] => Ok 0 | _ => Ok 100 end.

Lemma toy_marshal_cases t b : toy_marshal t = Ok b -> (t = 0 /\ b = []) \/ (t = 100 /\ b = [x01]).
Proof. unfold toy_marshal. repeat case_match; intros [= <-]; auto. Qed.

Lemma toy_marshal_read t b : toy_marshal t = Ok b -> toy_unmarshal b = Ok t.
Proof. by intros [[-> ->]|[-> ->]]%toy_marshal_cases. Qed.

Lemma toy_marshal_length t b : toy_marshal t = Ok b -> (length b <= 300)%nat.
Proof. intros [[-> ->]|[-> ->]]%toy_marshal_cases; cbn; lia. Qed.

#[local] Instance toy_times : InvoiceEnv := {|
  Time := Z; time_zero := 0; MarshalBinary := toy_marshal; UnmarshalBinary := toy_unmarshal; sha256 p := rev (copy32 p);
  UnmarshalBinary_MarshalBinary := toy_marshal_read; MarshalBinary_length := toy_marshal_length;
  sha256_length := PreimageRuns.toy_hash_length
|}.

Lemma toy_instant s : 0 <= s < 2 ^ 35 -> s * 10 ^ 9 = s * 10 ^ 9.
Proof. done. Qed.

#[local] Instance toy_env : RpcEnv := {|
  instant t := t * 10 ^ 9; time_Unix s := s; IsZero t := t =? 0; Address := bytes; DecodeAddress b := Ok b; AddressString a := a;
  instant_time_Unix := toy_instant; IsZero_zero := eq_refl
|}.

#[local] Existing Instance toy_btcec.

Definition cfg : rpcConfig := mkRpcConfig false 144 576 false.
Definition preimage : bytes := x05 :: replicate 31 x00.
Definition coffee : rpcInvoice := mkRpcInvoice (str "coffee") [] preimage [] 1000 false 0 0 [] [] 60 [] 0.

(** The one payment request that is encoded. *)
Definition coffee_req : PayReq := payreq_of cfg (sha256 preimage) 100 coffee None.

Definition payreq_is (i j : PayReq) : bool :=
  bool_decide (pq_MilliSat i = pq_MilliSat j) && bool_decide (pq_Timestamp i = pq_Timestamp j)
  && bool_decide (pq_PaymentHash i = pq_PaymentHash j) && bool_decide (pq_Destination i = pq_Destination j)
  && bool_decide (pq_minFinalCLTVExpiry i = pq_minFinalCLTVExpiry j) && bool_decide (pq_Description i = pq_Description j)
  && bool_decide (pq_DescriptionHash i = pq_DescriptionHash j) && bool_decide (pq_expiry i = pq_expiry j)
  && bool_decide (pq_FallbackAddr i = pq_FallbackAddr j) && (length (pq_RoutingInfo i) =? 0)%nat && (length (pq_RoutingInfo j) =? 0)%nat.

Lemma payreq_is_eq i j : payreq_is i j = true -> i = j.
Proof.
  unfold payreq_is. rewrite !andb_true_iff, !bool_decide_eq_true, !Nat.eqb_eq.
  intros ((((((((((H1 & H2) & H3) & H4) & H5) & H6) & H7) & H8) & H9) & H10%nil_length_inv) & H11%nil_length_inv).
  destruct i, j. cbn in *. congruence.
Qed.

Definition toy_Encode (i : PayReq) : res bytes := if payreq_is i coffee_req then Ok [x01] else Err (ErrNew "data length too big").
Definition toy_Decode (b : bytes) : res PayReq :=
  match b with [] => Err (ErrNew "invalid bech32 string") | _ => Ok (transmitted (BTC := toy_btcec) true coffee_req) end.

Lemma toy_Decode_Encode i s : encodable i -> toy_Encode i = Ok s -> toy_Decode s = Ok (transmitted (BTC := toy_btcec) true i).
Proof. intros _. unfold toy_Encode. destruct (payreq_is i coffee_req) eqn:E; [|done]. intros [= <-]. apply payreq_is_eq in E as ->. done. Qed.

Lemma toy_Decode_hash s i h : toy_Decode s = Ok i -> pq_PaymentHash i = Some h -> length h = 32%nat.
Proof. unfold toy_Decode. destruct s; [done|]. intros [= <-] [= <-]. done. Qed.

Lemma toy_Decode_amount s i m : toy_Decode s = Ok i -> pq_MilliSat i = Some m -> 0 <= m < 2 ^ 64.
Proof. unfold toy_Decode. destruct s; [done|]. intros [= <-] Hm. assert (m = 1000000) as -> by (vm_compute in Hm; congruence). lia. Qed.

#[local] Instance toy_zpay : Zpay32 := {|
  node_key := (true : @PublicKey toy_btcec); zpay_Encode := toy_Encode; zpay_Decode := toy_Decode;
  zpay_Decode_Encode := toy_Decode_Encode; zpay_Decode_nil := eq_refl; zpay_Decode_hash := toy_Decode_hash; zpay_Decode_amount := toy_Decode_amount
|}.

(** ** Invoices *)

Definition registry0 : system := Preimages.newServer false 1 PreimageRuns.db0.
Definition registry1 : system := (rpc_AddInvoice cfg (Ok preimage) 100 coffee registry0).2.
Definition coffee_resp : AddInvoiceResponse := mkAddInvoiceResponse (sha256 preimage) [x01].

Lemma coffee_added : rpc_AddInvoice cfg (Ok preimage) 100 coffee registry0 = (Ok coffee_resp, registry1).
Proof. vm_compute. reflexivity. Qed.

Lemma invoice_roundtrip_witness :
  rpc_LookupInvoice (mkPaymentHash [] (sha256 preimage)) registry1
  = Ok (mkRpcInvoice (str "coffee") [] preimage (sha256 preimage) 1000 false 100 0 [x01] [] 60 [] 144).
Proof.
  assert (now_ok (100 : Time)) as Hnow.
  { split; [by eexists|]. split; [by eexists|]. by vm_compute. }
  pose proof (invoice_roundtrip cfg (Ok preimage) 100 coffee registry0 (known0 false 1)
    (fresh_rel PreimageRuns.db0 false 1 PreimageRuns.db0_fresh) ltac:(split; done) Hnow ltac:(by intros r [= <-]) ltac:(done) ltac:(done)) as H.
  rewrite coffee_added in H. destruct (H eq_refl) as (pre & fb & _ & Hp & Hf & Hl & _). pose proof (Hl _ (or_introl eq_refl)) as Hr.
  rewrite (Hp ltac:(done)) in Hr. unfold fallback_of in Hf. cbn [ri_FallbackAddr coffee] in Hf. rewrite Hf in Hr. exact Hr.
Defined.

(** The limit on the value is checked on the product, which wraps around: an invoice over
    2^61 satoshis is taken, for no amount. *)
Example value_wraps :
  choose_preimage (Ok preimage) [] = Ok preimage
  /\ NewMSatFromSatoshis (2 ^ 61) = 0 /\ (maxPaymentMSat <? NewMSatFromSatoshis (2 ^ 61)) = false.
Proof. vm_compute. done. Qed.

(** An invoice of debug mode has no payment request, so that it can be found but not
    reported. *)
Example debug_invoice_unreported :
  let s := Preimages.newServer true 1 PreimageRuns.db0 in
  is_ok (r_LookupInvoice (sha256 debugPre) s) = true
  /\ rpc_LookupInvoice (mkPaymentHash [] (sha256 debugPre)) s = Err (ErrNew "unable to decode payment request").
Proof. vm_compute. done. Qed.

(** The hash must have 32 bytes, it says; none at all are taken as well. *)
Example empty_hash_looked_up : request_hash (mkPaymentHash [] []) = Ok (zeros 32).
Proof. vm_compute. reflexivity. Qed.

(** ** Payments *)

Definition dest : bytes := toy_pub false.
Definition pay_req (amt cltv : Z) : SendRequest := mkSendRequest dest (hex_EncodeToString dest) amt preimage (hex_EncodeToString preimage) [] cltv.
Definition hop : Hop := mkHop dest 7 100000 500 2000 1.
Definition route : Route := mkRoute 500 1 2001 [hop].
Definition db1 : payment_db := None.

Definition pay_events : list pay_event :=
  [PEnter; PRecv (100 : Time) (RecvRequest (pay_req 2 0)); PTake None; PEnter; PRecv (100 : Time) (RecvRequest (pay_req (2 ^ 40) 0)); PTake None;
   PAcquire 0; PRouted 0 (Ok (preimage, route)); PSave 0 (100 : Time); PSend 0 None; PRelease 0; PEnter].

Definition paid_state : option pay_stream := pay_run cfg pay_events (new_stream db1).

Definition pay_payment : payment := mkPayment 2000 dest preimage 0.
Definition big_payment : payment := mkPayment (2 ^ 40 * 1000) dest preimage 0.
Definition pay_worker (st : worker_st) : worker := mkWorker pay_payment (mkLightningPayment false 2000 preimage None) st.
Definition pay_record : OutgoingPayment := record_of 2000 (mkSaved 0 100 preimage route).
Definition paid_db : payment_db := (AddPayment pay_record db1).2.
Definition paid : pay_stream :=
  mkPayStream RRecv None None 2000 false [pay_worker WDone]
    [(None, error_response (stream_too_large big_payment)); (Some 0%nat, paid_response preimage route)] [pay_payment; big_payment] paid_db.

Lemma pay_events_ok : Forall pay_event_ok pay_events.
Proof. repeat constructor; try done; cbn; eauto. Qed.

Lemma pay_events_run : pay_run cfg pay_events (new_stream db1) = Some paid.
Proof. vm_compute. reflexivity. Qed.

Lemma pay_db_rel : pay_rel db1 [].
Proof. repeat constructor. Qed.

Lemma payments_recorded_witness : (count_if holding (ps_workers paid) <= numOutstandingPayments)%nat /\ exists l, FetchAllPayments (ps_db paid) = Ok l.
Proof.
  destruct (payments_recorded cfg db1 [] pay_events paid pay_db_rel pay_events_ok pay_events_run ltac:(cbn; lia)) as (H1 & _ & xs & _ & H2 & _).
  split; [exact H1|]. exists ([] ++ records paid xs). exact H2.
Defined.

Lemma paid_stuck : pay_stuck cfg paid.
Proof.
  intros e He. destruct e as [|now r|i r| | | | | | | |sent| |i|i now|i sent|i|i]; try discriminate He; try reflexivity;
    (destruct i as [|i]; [reflexivity|]; unfold pay_step, wst; cbn [paid ps_workers lookup list_lookup]; by rewrite ?lookup_nil).
Qed.

Lemma payments_answered_witness : length (answers (Some 0%nat) paid) = 1%nat /\ length (answers None paid) = 1%nat.
Proof.
  destruct (payments_answered cfg db1 [] pay_events paid pay_db_rel pay_events_ok pay_events_run ltac:(cbn; lia)) as (_ & _ & _ & H).
  destruct (H paid_stuck eq_refl) as (_ & _ & H1 & H2).
  { intros i. destruct i as [|i]; [discriminate|]. unfold wst. done. }
  destruct (H2 0%nat (pay_worker WDone) eq_refl) as [_ H3]. split; [exact H3|]. exact H1.
Defined.

Definition router (lp : LightningPayment) : res (bytes * Route) := Ok (preimage, route).

(** A stream of one request, after which the reader has gone back to the client. *)
Definition one_events : list pay_event :=
  [PEnter; PRecv (100 : Time) (RecvRequest (pay_req 2 0)); PTake None; PAcquire 0; PEnter; PRouted 0 (Ok (preimage, route)); PSave 0 (100 : Time);
   PSend 0 None; PRelease 0].
Definition one_paid : pay_stream :=
  mkPayStream RRecv None None 2000 false [pay_worker WDone] [(Some 0%nat, paid_response preimage route)] [pay_payment] paid_db.

Lemma one_events_run : pay_run cfg one_events (new_stream db1) = Some one_paid.
Proof. vm_compute. reflexivity. Qed.

Lemma one_paid_stuck : pay_stuck cfg one_paid.
Proof.
  intros e He. destruct e as [|now r|i r| | | | | | | |sent| |i|i now|i sent|i|i]; try discriminate He; try reflexivity;
    (destruct i as [|i]; [reflexivity|]; unfold pay_step, wst; cbn [one_paid ps_workers lookup list_lookup]; by rewrite ?lookup_nil).
Qed.

Lemma sync_like_stream_witness :
  as_stream cfg (pay_req 2 40) = Ok (pay_req 2 0)
  /\ (exists resp, SendPaymentSync cfg true 100 router (pay_req 2 40) db1 = (Ok resp, ps_db one_paid) /\ resp = paid_response preimage route)
  /\ exists who resp, ps_sent one_paid = [(who, resp)].
Proof.
  assert (as_stream cfg (pay_req 2 40) = Ok (pay_req 2 0)) as Ea by (vm_compute; reflexivity).
  assert (SendPaymentSync cfg true 100 router (pay_req 2 40) db1 = (Ok (paid_response preimage route), paid_db)) as E by (vm_compute; reflexivity).
  pose proof (sync_like_stream cfg (100 : @Time toy_times) router (pay_req 2 40) (pay_req 2 0) db1 one_events one_paid Ea) as H.
  split; [exact Ea|]. rewrite E in H. destruct H as (_ & Hd & who & resp & Hs & _).
  - repeat constructor; try done.
  - reflexivity.
  - exact one_events_run.
  - exact one_paid_stuck.
  - intros i. destruct i as [|i]; [discriminate|]. unfold wst. done.
  - split; [eexists; split; [rewrite Hd; reflexivity|reflexivity]|]. exists who, resp. exact Hs.
Defined.

(** The synchronous call does not read the delta of the last hop. *)
Example sync_ignores_delta :
  (p ← read_payment (100 : Time) (pay_req 2 40); lightning_payment cfg p) = Ok (mkLightningPayment (false : @PublicKey toy_btcec) 2000 preimage (Some 40))
  /\ sync_payment cfg (100 : Time) (pay_req 2 40) = Ok (mkLightningPayment (false : @PublicKey toy_btcec) 2000 preimage None).
Proof. split; vm_compute; reflexivity. Qed.

(** Two payments whose answers cannot be sent: the call ends with the first error, and the
    second goroutine is left with its own. *)
Definition leak_events : list pay_event :=
  [PEnter; PRecv (100 : Time) (RecvRequest (pay_req 2 0)); PTake None; PEnter; PRecv (100 : Time) (RecvRequest (pay_req 2 0)); PTake None;
   PEnter; PRecv (100 : Time) (RecvRequest (pay_req 2 0)); PTake None; PAcquire 0; PAcquire 1; PAcquire 2;
   PRouted 0 (Err (ErrNew "no route")); PRouted 1 (Err (ErrNew "no route")); PRouted 2 (Err (ErrNew "no route"));
   PSend 0 (Some ErrEOF); PSend 1 (Some ErrEOF); PSend 2 (Some ErrEOF); PReportW 0; PErr; PReportW 1].

Definition left_behind : pay_stream :=
  mkPayStream RLoop (Some (Some ErrEOF)) (Some (Some ErrEOF)) 1997 false [pay_worker WRelease; pay_worker WRelease; pay_worker (WReport ErrEOF)]
    [] [pay_payment; pay_payment; pay_payment] db1.

Lemma leak_events_run : pay_run cfg leak_events (new_stream db1) = Some left_behind.
Proof. vm_compute. reflexivity. Qed.

Lemma payment_left_behind es s' : pay_run cfg es left_behind = Some s' -> wst s' 2 = Some (WReport ErrEOF).
Proof. apply report_leaks; done. Qed.

(** ** Fees *)

Definition day : Z := 24 * hour.
Definition event1 : ForwardingEvent := mkForwardingEvent (300 * day) 1 2 5000 3000.
Definition event2 : ForwardingEvent := mkForwardingEvent (302 * day) 1 2 9000 5000.
Definition log1 : forwarding_db := AddForwardingEvents id [event1; event2] None.

Lemma log1_rel : flog log1 [event1; event2].
Proof.
  apply (AddForwardingEvents_log id None [] [event1; event2]).
  - by split; constructor.
  - unfold id. repeat constructor; vm_compute; done.
Qed.

Lemma fee_report_exact_witness :
  exists resp, FeeReport 3 (302 * day + hour) (Ok []) (Ok tt) log1 = Some (Ok resp) /\ fr_DayFeeSum resp = 4 /\ fr_WeekFeeSum resp = 6.
Proof.
  destruct (fee_report_exact 3 (302 * day + hour) [] (Ok tt) log1 [event1; event2] log1_rel ltac:(vm_compute; done) ltac:(done) ltac:(cbn; lia))
    as (resp & E & H1 & H2 & _).
  exists resp. split; [exact E|]. split; [rewrite H1; vm_compute; reflexivity|rewrite H2; vm_compute; reflexivity].
Defined.

(** Two payments forwarded in one nanosecond are one entry of the log. *)
Example same_time_lost :
  AddForwardingEvents id [event1; mkForwardingEvent (300 * day) 3 4 7000 6000] None
  = AddForwardingEvents id [mkForwardingEvent (300 * day) 3 4 7000 6000] None.
Proof. vm_compute. reflexivity. Qed.

(** A switch that could not flush its events does not stop the report. *)
Example flush_error_ignored : FeeReport 1 (40 * day) (Ok []) (Err ErrEOF) None = FeeReport 1 (40 * day) (Ok []) (Ok tt) None.
Proof. reflexivity. Qed.

(** A log that cannot be read reports no fees. *)
Example unreadable_log_is_zero :
  computeFeeSum 2 (mkForwardingEventQuery 0 (2 ^ 60) 0 1000) 5 (Some [(put_be 8 5, [x01])]) = Some (Ok 0).
Proof. vm_compute. reflexivity. Qed.

(** ** The network *)

Lemma network_info_exact_witness :
  exists i, GetNetworkInfo (Ok [[mkGraphEdge 7 100; mkGraphEdge 8 50]; [mkGraphEdge 7 100]; [mkGraphEdge 8 50]]) = Ok i
    /\ ni_NumChannels i = 2 /\ ni_TotalNetworkCapacity i = 150.
Proof.
  destruct (network_info_exact [[mkGraphEdge 7 100; mkGraphEdge 8 50]; [mkGraphEdge 7 100]; [mkGraphEdge 8 50]]) as (_ & i & E & _ & Hn & Ht & _).
  - repeat constructor; cbn; lia.
  - vm_compute. reflexivity.
  - vm_compute. reflexivity.
  - vm_compute. reflexivity.
  - exists i. split; [exact E|]. split; [rewrite Hn; vm_compute; reflexivity|rewrite Ht; vm_compute; reflexivity].
Defined.

(** ** Opening and closing *)

Definition alice_addr : NetAddress := mkNetAddress (false : @PublicKey toy_btcec) 1.
Definition open_env (peers : gmap bytes NetAddress) : openEnv := mkOpenEnv true (true : @PublicKey toy_btcec) peers (fun _ => Ok 5) (Ok true) (zeros 32).
Definition open_req (k : bool) (amt push : Z) : OpenChannelRequest :=
  mkOpenChannelRequest (toy_pub k) (hex_EncodeToString (toy_pub k)) amt push 0 0 false 0 4.

Lemma open_request_checked_witness :
  exists req, open_request (open_env {[toy_pub false := alice_addr]}) (open_req false 50000 10) = Ok (alice_addr, req)
    /\ oq_localFundingAmt req = 50000 /\ oq_pushAmt req = 10000.
Proof.
  set (env := open_env {[toy_pub false := alice_addr]}).
  set (req := mkOpenChanReq (false : @PublicKey toy_btcec) (zeros 32) 50000 0 10000 5 false 0 4).
  assert (open_request env (open_req false 50000 10) = Ok (alice_addr, req)) as E by (vm_compute; reflexivity).
  destruct (open_request_checked env (open_req false 50000 10) alice_addr req eq_refl eq_refl ltac:(discriminate)) as [H1 H2].
  apply H1 in E as E'. destruct E' as (E' & _). destruct (H2 E') as (_ & _ & _ & _ & Ha & _ & Hp).
  exists req. split; [exact E|]. split; [exact Ha|]. apply Hp. cbn. lia.
Defined.

(** Over the synchronous call a channel can be opened to the node itself, and one that is too
    large; over both the amount for the peer can be negative, and becomes a huge one. *)
Example sync_unchecked :
  is_ok (open_request_sync (open_env {[toy_pub true := alice_addr]}) (open_req true 50000 10)) = true
  /\ open_request (open_env {[toy_pub true := alice_addr]}) (open_req true 50000 10) = Err (ErrNew "cannot open channel to self")
  /\ is_ok (open_request_sync (open_env {[toy_pub false := alice_addr]}) (open_req false (2 ^ 30) 10)) = true
  /\ (oq_pushAmt ∘ snd <$> open_request (open_env {[toy_pub false := alice_addr]}) (open_req false 50000 (-1))) = Ok (2 ^ 64 - 1000).
Proof. repeat split; vm_compute; reflexivity. Qed.

(** The channel point of the answer has no output index, although the update has one. *)
Example sync_index_dropped :
  OpenChannelSync (open_env {[toy_pub false := alice_addr]}) (open_req false 50000 10) (OUpdate (ChanPending (zeros 32) 1) None)
  = Ok (Some (mkRpcChannelPoint (FundingTxidBytes (zeros 32)) 0)).
Proof. vm_compute. reflexivity. Qed.

Definition point1 : OutPoint := mkOutPoint (zeros 32) 1.
Definition chan1 : dbChannel := mkDbChannel false dest point1 1 100000 60000000 40000000 (mkMsgTx 2 [] [] 0) 500 1000 7 [] 0 0 144.
Definition close_env : closeEnv := mkCloseEnv (Ok [chan1]) (fun _ => Ok 0%nat) (Ok 500) (fun _ => true) (fun _ => Ok (zeros 32)) (fun _ => Ok 5).
Definition close_req (force : bool) : CloseChannelRequest :=
  mkCloseChannelRequest (Some (mkRpcChannelPoint (FundingTxidStr (hash_String (zeros 32))) 1)) force 0 0.

Lemma close_channel_safe_witness :
  CloseChannel close_env (close_req false) [CUpdate (ClosePending [x01]) None; CUpdate (ChanClose [x01]) None]
  = ([CStop point1; CCloseLink point1 1250], ([ClosePending [x01]; ChanClose [x01]], Some (Ok tt)))
  /\ names (close_req false) point1 /\ exists c, knows close_env point1 c 0.
Proof.
  assert (CloseChannel close_env (close_req false) [CUpdate (ClosePending [x01]) None; CUpdate (ChanClose [x01]) None]
    = ([CStop point1; CCloseLink point1 1250], ([ClosePending [x01]; ChanClose [x01]], Some (Ok tt)))) as E by (vm_compute; reflexivity).
  split; [exact E|]. destruct (close_channel_safe _ _ _ _ _ _ E) as (Hn & _ & H & _).
  split; [exact (Hn (CStop point1) ltac:(left))|]. destruct (H point1 1250 ltac:(right; left)) as (_ & _ & Hc). exact Hc.
Defined.

(** The channel is stopped before it is known whether it can be closed. *)
Example stopped_but_not_closed :
  CloseChannel (mkCloseEnv (Ok [chan1]) (fun _ => Ok 1%nat) (Ok 500) (fun _ => true) (fun _ => Ok (zeros 32)) (fun _ => Ok 5)) (close_req false) []
  = ([CStop point1], ([], Some (Err (ErrNew "cannot co-op close channel with active htlcs")))).
Proof. vm_compute. reflexivity. Qed.

End RpcRuns.

(** * The node at work *)

Module NodeRuns.
#[local] Existing Instance toy_btcec.
#[local] Existing Instance RpcRuns.toy_times.
#[local] Existing Instance RpcRuns.toy_env.
#[local] Existing Instance RpcRuns.toy_zpay.

(** ** Invoices *)

Definition coffee_invoice : Invoice := mkInvoice (str "coffee") [] [x01] (100 : Time) (0 : Time) RpcRuns.preimage 1000000 false.
Definition registry2 : system := (r_AddInvoice coffee_invoice RpcRuns.registry0).2.
Definition known2 : known := k_step (E_AddInvoice coffee_invoice) (known0 false 1).
Definition coffee_listed : rpcInvoice :=
  mkRpcInvoice (str "coffee") [] RpcRuns.preimage (sha256 RpcRuns.preimage) 1000 false 100 0 [x01] [] 60 [] 144.

Lemma registry2_rel : sys_rel registry2 known2.
Proof.
  apply add_invoice_rel; [apply fresh_rel, PreimageRuns.db0_fresh| |done].
  split; [by eexists|]. split; [by eexists|]. split; [done|]. unfold is_u64. cbn. lia.
Qed.

Lemma list_invoices_exact_witness :
  ListInvoices false registry2 = Ok [coffee_listed]
  /\ rpc_LookupInvoice (mkPaymentHash [] (sha256 RpcRuns.preimage)) registry2 = Ok coffee_listed.
Proof.
  assert (ListInvoices false registry2 = Ok [coffee_listed]) as E by (vm_compute; reflexivity). split; [exact E|].
  pose proof (list_invoices_exact false registry2 known2 registry2_rel) as H. rewrite E in H. destruct H as (invs & Hp & HF).
  assert (List.filter (listed false) (map snd (map_to_list (is_map (kn_store known2)))) = [coffee_invoice]) as El by (vm_compute; reflexivity).
  rewrite El in Hp. apply Permutation_singleton_r in Hp as ->. inversion HF as [|? ? ? ? [_ Hl] _]. exact (Hl eq_refl eq_refl).
Defined.

(** ** Messages *)

#[local] Instance toy_messages : MessageCrypto := {|
  PubKey := fun k : @PrivateKey toy_btcec => (true : @PublicKey toy_btcec); Signature := bytes; DoubleHashB b := b;
  ecdsa_Sign k h := Ok h; ecdsa_SignCompact k h c := Ok h;
  RecoverCompact sig h := if decide (sig = h) then Ok (true : @PublicKey toy_btcec) else Err (ErrNew "invalid signature");
  zbase32_Encode b := b; zbase32_Decode b := Ok b;
  RecoverCompact_SignCompact := fun k h c sig H => ltac:(injection H as <-; by rewrite decide_True);
  zbase32_Decode_Encode := fun b => eq_refl
|}.

Lemma sign_verify_witness :
  VerifyMessage (fun _ => Ok true) (Some [x61]) [x61] = Ok (mkVerifyMessageResponse true (hex_EncodeToString (toy_pub true))).
Proof.
  exact (sign_verify (mkNodeSigner (PrivKeyFromBytes [])) [x61] [x61] (fun _ => Ok true) true eq_refl eq_refl).
Defined.

(** ** The bootstrapper *)

Import ServerRuns.

Definition boot0 : bootstrapper := mkBootstrapper initialBackOff 0 0 [] [(∅, 3)].

Lemma bootstrap_safe_witness :
  exists s b, bs_run no_graph 3 [BTick (Ok [(bob, home)]); BDialed 0 (conn 1 bob)] (newServer [x01], boot0) = Some (s, b)
    /\ sv_reach no_graph [x01] any s /\ size (peersByPub s) = 1%nat.
Proof.
  destruct (bs_run no_graph 3 [BTick (Ok [(bob, home)]); BDialed 0 (conn 1 bob)] (newServer [x01], boot0)) as [[s b]|] eqn:E; [|by vm_compute in E].
  exists s, b. split; [reflexivity|]. destruct (bootstrap_safe no_graph [x01] any 3 [] [BTick (Ok [(bob, home)]); BDialed 0 (conn 1 bob)] s boot0 b eq_refl ltac:(by repeat constructor) E) as [Hr _].
  split; [exact Hr|]. assert (Some (size (peersByPub s)) = Some 1%nat) as [= ->]; [|reflexivity].
  transitivity (size ∘ peersByPub ∘ fst <$> Some (s, b)); [reflexivity|]. rewrite <- E. vm_compute. reflexivity.
Defined.

(** The only address of a sample cannot be reached: the node stays without a peer, although
    every later sample would find others. *)
Example bootstrap_stalls :
  match bs_run no_graph 3 ([BTick (Ok [(bob, home)]); BDialFailed 0] ++ replicate 20 (BTick (Ok [(alice, home); (carol, home)]))) (newServer [x01], boot0) with
  | Some (s, b) => length (bs_queries b) = 2%nat /\ bs_dials b = [] /\ bs_backOff b = backOffCeiling /\ size (peersByPub s) = 0%nat
  | None => False
  end.
Proof. vm_compute. repeat split. Qed.

(** ** The autopilot *)

Definition target : @PublicKey toy_btcec := false.
Definition pilot_env (ev : open_event) : pilotEnv :=
  mkPilotEnv no_graph (fun _ => Ok (conn 1 (toy_pub false))) (fun _ => RpcRuns.alice_addr) (true : @PublicKey toy_btcec) (fun _ => Ok 5) (zeros 32) ev.

Lemma controller_safe_witness :
  exists s', chanController_OpenChannel (pilot_env (OUpdate (ChanPending [] 0) None)) target 50000 [home] (newServer [x01]) = (Ok tt, s')
    /\ sv_reach no_graph [x01] (fun _ => True) s' /\ exists p, peersByPub s' !! toy_pub false = Some p.
Proof.
  set (env := pilot_env (OUpdate (ChanPending [] 0) None)).
  destruct (chanController_OpenChannel env target 50000 [home] (newServer [x01])) as [r s'] eqn:E.
  assert (r = Ok tt) as ->.
  { transitivity (fst (r, s')); [reflexivity|]. rewrite <- E. vm_compute. reflexivity. }
  exists s'. split; [reflexivity|]. destruct (controller_safe env [x01] target 50000 [home] (newServer [x01]) (Ok tt) s' (sv_init _ _ _) E) as [Hr Hp].
  split; [exact Hr|]. destruct Hp as (p & _ & _ & Hp & _). exists p. exact Hp.
Defined.

(** A peer the controller has connected to itself is disconnected again. *)
Example pilot_leaves_none :
  (chanController_OpenChannel (pilot_env (OErr ErrEOF)) target 50000 [home] (newServer [x01])).1 = Err ErrEOF
  /\ peersByPub (chanController_OpenChannel (pilot_env (OErr ErrEOF)) target 50000 [home] (newServer [x01])).2 !! toy_pub false = None.
Proof. vm_compute. split; reflexivity. Qed.

(** A peer that was connected before, by itself, is disconnected when the agent cannot open a
    channel with it. *)
Example pilot_disconnects :
  let s := run_inputs [IInbound (conn 1 (toy_pub false))] (newServer [x01]) in
  peersByPub s !! toy_pub false = Some 0%nat
  /\ peersByPub (chanController_OpenChannel (pilot_env (OErr ErrEOF)) target 50000 [home] s).2 !! toy_pub false = None.
Proof. vm_compute. split; reflexivity. Qed.

End NodeRuns.
